(* ===== verification/_CoqProject ===== *)
-Q . S2P
Prelude.v
GlUtils.v
QemudPacket.v
QemudSerial.v
PrefList.v
QemudLooper.v
QemudMux.v
QemudInv.v
QemudOps.v
QemudDaemon.v
QemudSpec.v
QemudTheorems.v
GpsNmea.v
GpsThread.v
Mksdcard.v
Hashmap.v
CString.v
StrParms.v
StrUtf.v
Corkscrew.v
CorkscrewSync.v
CorkscrewSymbols.v
RecordStream.v
CArray.v
LogFilter.v
EventTags.v
LogEvent.v
LogFormat.v
RangeManip.v
VertexBuffer.v
SmartPtr.v
NameSpace.v
Renderer.v
RendererProofs.v
RendererTheorems.v
RendererBinding.v
RendererHandles.v
GlStream.v
EmuGen.v
EmuDecode.v
RenderThread.v
FbConfig.v
RenderControl.v
Etc1.v
Etc1Image.v
VectorImpl.v
SortedVector.v
ClientState.v
GuestDraw.v
SharedGroup.v
