(* ===== verification/Prelude.v ===== *)
(** * Verification of android_renderer

    The repository gathers the native pieces of an Android emulator's guest and
    host: [qemud], the daemon that multiplexes guest services over one serial
    port; the support libraries libcutils, liblog and libcorkscrew; a copy of
    bionic's C library; and the graphics of the emulator in C++: the renderer
    that executes the GL calls of a guest on the host, and the library that
    translates OpenGL ES to the host's OpenGL.  This development models the code
    that carries its own logic, operation by operation, and proves the
    properties it is meant to have.

    ** How code is modelled

    A C function or a C++ method is a Gallina function.  State is passed explicitly, as records
    with the source's fields; a function that can go wrong returns a [result]:
    [Ok], or the [fault] it runs into (an access outside of an array, through a
    freed object or NULL, a failed assertion, a bad shift).  So a theorem that
    ends in [= Ok ...] says that no such fault happens.  Machine integers are
    [Z] with their wrap-around written out ([u32], [s32], ...); a width that
    depends on the platform is a parameter.  Answers of the environment (system
    calls, allocation, the contents of fresh memory) are arguments.  Loops that
    are not structural carry fuel; the fuel is a function of the input, and the
    theorems conclude [Ok], so that [OutOfFuel] is excluded: those loops end.

    ** The files

    - [Prelude]: faults, the error monad, machine integers, blocks of memory
      with bounds-checked access, tactics and hints shared by all files.

    qemud ([src/emulator/qemud/qemud.c]):
    - [QemudPacket]: [hex2int]/[int2hex], [Packet], the pool behind
      [packet_alloc]/[packet_free]; the classes [PacketPool] and
      [PacketPoolLaws], against which the framing code is verified.
    - [QemudSerial]: [serial_fd_receive], [serial_send]; the class
      [ReceiverSpec], what the receiver of packets promises.
    - [PrefList]: the intrusive [next]/[pref] lists of handlers and clients.
    - [QemudLooper]: the epoll loop; the class [HasLooper].
    - [QemudMux]: handlers, clients, multiplexer over one shared [World], with
      the instances of the classes above.
    - [QemudInv], [QemudOps], [QemudDaemon]: the invariant [Inv], each
      operation keeps it, the daemon as a whole.
    - [QemudSpec]: the abstract table of clients and the simulation.
    - [QemudTheorems]: the properties, a session, and the hazards.

    The GPS client of qemud ([src/emulator/gps/gps_qemu.c]):
    - [GpsNmea]: the tokenizer and the reader of NMEA sentences, related to
      functions on the fields of a text; the classes [Double] and [GpsFlags].
    - [GpsThread]: the loop of its thread, related to a thread without a buffer;
      the functions that start and end it (Module [Life]).

    libcutils ([src/libs/libcutils/]):
    - [Hashmap] ([hashmap.c]), [StrUtf] ([strdup8to16.c], [strdup16to8.c]),
      [RecordStream] ([record_stream.c]), [CArray] ([array.c]).
    - [StrParms] ([str_parms.c]), a client of [Hashmap] through its contract
      [HashContract] and of [CString]; it tracks which strings are allocated.

    bionic ([src/libs/libc/]):
    - [CString]: [strtol], [strtok_r], [strlcpy], and decimal numbers.

    The other programs of the emulator ([src/emulator/]):
    - [Mksdcard] ([mksdcard/mksdcard.c]).

    libcorkscrew ([src/libs/libcorkscrew/]):
    - [Corkscrew]: [map_info.c] (lookups), [ptrace.c] (words),
      [backtrace-helper.c], [arch-arm/backtrace-arm.c].
    - [CorkscrewSync]: the map cache (Module [MapCache]), the backtrace of the
      current thread (Section [CurrentThread]), the handshake with the signal
      handler of another thread (Module [Handshake]) as a step relation.
    - [CorkscrewSymbols]: [symbol_table.c], symbol lookups, [bsearch].

    liblog ([src/libs/liblog/]):
    - [LogFilter]: filters of [logprint.c].  [EventTags]: [event_tag_map.c].
    - [LogEvent]: text and binary entries of [logprint.c]; it calls the lookup
      of [EventTags].  [LogFormat]: formatting and printing a line; it uses the
      priorities and formats of [LogFilter] and the entries of [LogEvent].

    The GL translator ([src/emulator/opengl/host/libs/Translator/]):
    - [RangeManip] ([GLcommon/RangeManip.cpp]): lists of ranges of bytes.
    - [VertexBuffer] ([GLcommon/GLESbuffer.cpp], [GLESpointer.cpp],
      [GLEScontext.cpp], [GLES_V2/GLESv2Context.cpp]): vertex arrays, buffers and
      the conversion of their elements, over blocks of memory with bounds.
    - [SmartPtr] ([shared/OpenglCodecCommon/SmartPtr.h]): counted references as
      stores of objects with counts, and the sums that relate counts to holders.
    - [NameSpace] ([GLcommon/objectNameManager.cpp]): names, groups, their data.
    - [Etc1], [Etc1Image] ([GLcommon/etc1.cpp]): compressed textures, their blocks
      and then images of blocks.

    The GL renderer ([src/emulator/opengl/host/libs/libOpenglRender/]):
    - [Renderer]: [FrameBuffer.cpp], [WindowSurface.cpp], [ColorBuffer.cpp],
      [RenderContext.cpp], [ThreadInfo.cpp] and the calls of [RenderControl.cpp]
      and [render_api.cpp], in a monad [M] over the state [World]: the tables of
      the frame buffer, the counted objects, the data of each thread, what EGL
      has current in it, and a log of the GL calls.  Each call runs under the
      lock of the frame buffer, so that a run is a sequence of [event]s, each
      with its thread.  The answers of EGL and GL are a stream, any stream.
    - [RendererProofs]: the weakest preconditions of [M] and the layers of the
      invariant; [RendererTheorems]: no call faults, objects live while they are
      used; [RendererBinding]: what is current in each thread;
      [RendererHandles]: the tables implement the handles of a specification.
    - [FbConfig] ([FBConfig.cpp]): the EGL configurations that are offered.
    - [RenderControl] ([RenderControl.cpp], [renderControl.in]): the interface of
      the guest: queries, and the decoder that turns packets into [event]s.

    Calls from the guest to the renderer ([src/emulator/opengl/]):
    - [GlStream] ([IOStream.h], [SocketStream.cpp], [QemuPipeStream.cpp]):
      buffered streams; the class [Transport] has the virtual functions, the
      classes [TransportLaws] and [ReadsFully] what they promise, and the socket
      and the pipe are instances.
    - [EmuGen] ([host/tools/emugen/ApiGen.cpp]): the code generator, whose output
      is statements with a meaning; the encoder sends packets.  [EmuDecode]: the
      decoder performs the calls of packets.
    - [RenderThread] ([ReadBuffer.cpp], [RenderThread.cpp]): the loop that cuts a
      stream into packets for its decoders; the record [Decoder] is what it asks
      of one.

    What a guest keeps of GL ([src/emulator/opengl/]):
    - [GlUtils] ([shared/OpenglCodecCommon/glUtils.cpp], [FixedBuffer.h]): sizes,
      packing of arrays, indices; guest and host both use it.
    - [ClientState] ([GLClientState.cpp]): vertex arrays, queries and textures.
    - [GuestDraw] ([GLESv2_enc/GL2Encoder.cpp], [GLESv2_dec/GL2Decoder.cpp]): the
      drawing from arrays by the encoder, over [ClientState], and the decoder's side.
    - [SharedGroup] ([GLSharedGroup.cpp]): what contexts share, in the keyed vectors
      of [SortedVector]: copies of buffers, uniforms of programs, shaders.

    libutils ([src/libs/utils/]):
    - [VectorImpl] ([VectorImpl.cpp], [SharedBuffer.cpp], [TypeHelpers.h]): vectors
      in counted blocks that their copies share, with the life of each element.
    - [SortedVector] ([VectorImpl.cpp], [KeyedVector.h]): vectors in order of their
      keys, on the lists that vectors are.

    ** What is shown

    - qemud never touches freed memory, overruns a packet or exits, whatever
      clients do, under a stated condition on the order of events; what it does
      to the table of clients and to the serial output is that of an abstract
      multiplexer, where the code follows the protocol (a refusal with a reason and
      channel 0 are excluded); the looper is a map from descriptors to masks; framing and
      parsing of the serial stream are inverse, however the stream is cut.
      Runs outside of the condition, and oversized frames, do fault.
    - The GPS reader applies the sentences of its stream, however it is cut, and
      never leaves its buffer; a fix has the values of its sentence; fixes go
      out only while the thread is started; no thread or descriptor leaks.
    - The hash map is a partial function for any lawful hash, expansion keeps
      the entries, iteration visits each once.  Arrays are lists.  Record
      streams give back the records.  UTF-16 survives the trip through modified
      UTF-8, with exact bounds on what is written.
    - Parameters in a string are a finite map of texts, written and read back;
      while allocations succeed, the structure, its hash map and the strings are
      freed exactly once.  [strtol] is the clamped value of the
      digits.  A disk image has the computed layout and size, its FAT covers the
      disk, and its boot sector says so.
    - The unwinder stays inside its buffers for any memory, finds the entry
      that a linear search would, and undoes pushes of registers; reference
      counts of the map list are exact; at most one thread dumps at a time and
      the requester gets the count of the right one.
    - Log filters mean what their grammar says; a tag file gives back its
      entries; events are printed as their text or cut with a mark, and any
      payload is handled without leaving its block; a line is the message
      between prefix and suffix in a buffer of exactly sufficient size.
    - Whatever guests and the window owner call, the renderer uses no freed object
      except where its code does; contexts, surfaces and colour buffers live
      exactly while something refers to them; its handles are those of an
      abstract table; calls that are not for another binding leave those of the
      threads as they were, and [bindContext] installs its own.  The names of the
      translator are bijections while none is replaced, its groups are freed once,
      each element of a vertex buffer that is filled once is converted once.
    - However a stream is cut into pieces, output arrives in order, a thread
      performs each call once with its arguments, and the caller gets the results:
      composed with the above, a guest's packets do what the renderer's calls do.
      The configurations that a guest is given are those that EGL matched and
      that are on the list.
    - The texture encoder finds a block of least error after decoding; images are
      encoded and decoded pixel by pixel, inside of their bounds.
    - Vectors are values: what one does never shows in another, each element is
      constructed and destroyed once, before its block is freed, and each block lives
      while a vector uses it, for operations that the code allows; sorting is stable; keyed vectors are finite maps.
    - The textures of a guest are a map from names to targets; what the host draws from
      the arrays of a guest is what the guest drew, byte for byte; the locations of
      uniforms that a guest is given lead back to the host's; copies of buffers have
      what was written.
    - Errors of the code are theorems or [Example]s that exhibit the fault.

    ** Bounds and fuel

    Scans have the length of their block as fuel, the event printer the length
    of the payload (each nested call eats a byte), the tokenizer the length of
    the sentence, the unwinder's loops their depth limits, [remove_closed] and
    [run_hooks] the number of hooks.  The search for a free number ([next_free]) has one more than the numbers taken
    as fuel, so that it ends by the pigeonhole principle; the renderer's counts
    stay below 2^31 for sequences of up to 2^27 - 5 calls.  Sizes
    are bounded in hypotheses only where the C arithmetic would wrap: fewer
    than 2^30 entries, lengths below the width of [size_t], packets below 2^31
    and streams below 2^30 bytes.  Loops over descriptors have as fuel the
    answers that the descriptor has left; the decoders the valid bytes, since a
    packet has at least eight.

    ** What is not modelled, and why

    - Pure input and output: sockets, ashmem, properties, klog, uevent,
      [logd_write.c], [main] of qemud (termios, /proc/cmdline).
    - Text assembled by [snprintf] for people ([format_backtrace_line]), parsing
      with [sscanf] ([load_map_info_list]), C++ demangling by a library call.
    - Functions that only free what another allocated; [hashmapFree] is in
      [StrParms], for its only caller that is modelled, with a map as one block.
    - The rest of bionic ([src/libs/libc], BSD, NetBSD and kernel headers) is
      third-party; what the modelled code uses of it is written out (block
      copies, string functions, [bsearch]) or a parameter with its documented
      contract ([qsort]).
    - Of the C++ code: the entry points of the translator ([GLES_CM], [GLES_V2],
      [EGL]), which check arguments and call the host's library; tables of
      functions, and the parser and headers of the generator;
      the rest of [libs/utils], the tools of [qtools], and the second copy of the texture
      codec ([libs/ETC1]).
    - Candidates for extension: the shaders and textures of [GL2Encoder.cpp];
      [sensors_qemu.c], [config_utils.c], [mq.c] and [fake_log_device.c]. *)
From Stdlib Require Export ZArith Lia Bool.
From stdpp Require Export base list list_numbers gmap numbers.
From stdpp Require Export strings.
From Stdlib Require Import Ascii.

#[export] Set Default Goal Selector "!".

Declare Scope c_scope.
Delimit Scope c_scope with c.

(** ** Tactics and hints *)

(** Lengths of the lists that blocks of memory are cut into. *)
Create Rewrite HintDb arrays.
#[export] Hint Rewrite @length_app @length_take @length_drop @length_insert @length_replicate : arrays.

(** A goal on lengths. *)
Ltac len := repeat first [progress autorewrite with arrays | progress cbn [length]]; lia.

(** Two lists that differ by association only. *)
Ltac same_list := repeat first [rewrite <-app_assoc | progress simpl]; reflexivity.

(** Linear arithmetic with quotients and remainders by constants. *)
Ltac euclid := Z.to_euclidean_division_equations; lia.

(** ** Faults

    What a C function can do besides returning: the undefined behaviours the
    models make visible, the calls to [fatal]/[exit], and (for loops written
    with fuel) running out of it, which theorems rule out. *)
Inductive fault : Type :=
  | OutOfBounds      (** access outside an array *)
  | UseAfterFree     (** access through a pointer to a freed object *)
  | NullDeref        (** access through NULL *)
  | FatalExit        (** fatal(), exit(), LOG_ALWAYS_FATAL, an exception nothing catches *)
  | DivideByZero
  | BadShift         (** shift by at least the width of the type *)
  | Uninitialised    (** a local variable read before it is set *)
  | DoubleConstruct  (** an object constructed in the place of one that lives *)
  | ObjectLost       (** a block freed while an object with a destructor is in it *)
  | OutOfFuel.       (** a loop of the model ran out of its bound *)

#[export] Instance fault_eq_dec : EqDecision fault.
Proof. solve_decision. Defined.

Inductive result (A : Type) : Type :=
  | Ok (a : A)
  | Err (e : fault).
Arguments Ok {A} a.
Arguments Err {A} e.

#[export] Instance result_ret : MRet result := fun A a => Ok a.
#[export] Instance result_bind : MBind result := fun A B k m =>
  match m with Ok a => k a | Err e => Err e end.
#[export] Instance result_fmap : FMap result := fun A B f m =>
  match m with Ok a => Ok (f a) | Err e => Err e end.

Definition is_ok {A} (r : result A) : bool :=
  match r with Ok _ => true | Err _ => false end.

Definition from_option_or {A} (e : fault) (o : option A) : result A :=
  match o with Some a => Ok a | None => Err e end.

(** Sequential execution of a step over a list, stopping at the first fault. *)
Fixpoint foldM {A S} (step : S -> A -> result S) (s : S) (l : list A) : result S :=
  match l with
  | [] => Ok s
  | a :: l' => s' ← step s a; foldM step s' l'
  end.

Lemma bind_ok {A B} (m : result A) (k : A -> result B) b :
  mbind k m = Ok b -> exists a, m = Ok a /\ k a = Ok b.
Proof. destruct m; simpl; [eauto | discriminate]. Qed.

Lemma bind_assoc {A B C} (m : result A) (f : A -> result B) (g : B -> result C) :
  (mbind g (mbind f m)) = mbind (fun a => mbind g (f a)) m.
Proof. by destruct m. Qed.

Lemma foldM_app {A S} (step : S -> A -> result S) s l1 l2 :
  foldM step s (l1 ++ l2) = (s' ← foldM step s l1; foldM step s' l2).
Proof.
  revert s; induction l1 as [|a l1 IH]; intros s; simpl; [done|].
  destruct (step s a); simpl; auto.
Qed.

Lemma foldM_one {A S} (step : S -> A -> result S) s a : foldM step s [a] = step s a.
Proof. simpl. by destruct (step s a). Qed.

(** An invariant of the step is an invariant of the fold. *)
Lemma foldM_ind {A S} (step : S -> A -> result S) (P : S -> Prop) l s s' :
  (forall s a s', In a l -> P s -> step s a = Ok s' -> P s') ->
  P s -> foldM step s l = Ok s' -> P s'.
Proof.
  revert s; induction l as [|a l IH]; simpl; intros s Hstep Hs Hf.
  - by inversion Hf; subst.
  - apply bind_ok in Hf as (s1 & Hs1 & Hf).
    apply (IH s1); [by eauto | by eauto | done].
Qed.

(** A loop with a counter, by an invariant. *)
Lemma foldM_seqZ {S} (step : S -> Z -> result S) (P : Z -> S -> Prop) a n s :
  (0 <= n)%Z -> P a s ->
  (forall i s, (a <= i < a + n)%Z -> P i s -> exists s', step s i = Ok s' /\ P (i + 1)%Z s') ->
  exists s', foldM step s (seqZ a n) = Ok s' /\ P (a + n)%Z s'.
Proof.
  intros Hn. rewrite <-(Z2Nat.id n Hn). generalize (Z.to_nat n) as m. clear n Hn. intros m. revert a s.
  induction m as [|m IH]; intros a s Ha Hstep.
  - exists s. split; [done|]. by rewrite Z.add_0_r.
  - rewrite Nat2Z.inj_succ, seqZ_cons by lia. cbn [foldM]. destruct (Hstep a s) as (s1 & -> & H1); [lia|done|].
    cbn [mbind result_bind]. rewrite Z.pred_succ. destruct (IH (Z.succ a) s1) as (s2 & E & H2).
    + by replace (Z.succ a) with (a + 1)%Z by lia.
    + intros i s' Hi. apply Hstep. lia.
    + exists s2. split; [done|]. by replace (a + Z.succ (Z.of_nat m))%Z with (Z.succ a + Z.of_nat m)%Z by lia.
Qed.

Lemma foldM_fmap {A B S} (step : S -> B -> result S) (f : A -> B) s l :
  foldM step s (f <$> l) = foldM (fun s a => step s (f a)) s l.
Proof. revert s. induction l as [|a l IH]; intros s; [done|]. cbn. destruct (step s (f a)); [apply IH|done]. Qed.

(** ** Machine integers *)

Definition u8 (z : Z) : Z := z `mod` 2 ^ 8.
Definition u16 (z : Z) : Z := z `mod` 2 ^ 16.
Definition u32 (z : Z) : Z := z `mod` 2 ^ 32.
Definition u64 (z : Z) : Z := z `mod` 2 ^ 64.
(** Two's complement: the value of [int] after wrap-around. *)
Definition s32 (z : Z) : Z := (z + 2 ^ 31) `mod` 2 ^ 32 - 2 ^ 31.
Definition s8 (z : Z) : Z := (z + 2 ^ 7) `mod` 2 ^ 8 - 2 ^ 7.

Definition is_byte (z : Z) : Prop := (0 <= z < 256)%Z.
Definition INT_MAX : Z := 2147483647.

Lemma s32_small z : (- 2 ^ 31 <= z < 2 ^ 31)%Z -> s32 z = z.
Proof. intros; unfold s32. rewrite Z.mod_small; lia. Qed.

Lemma u32_small z : (0 <= z < 2 ^ 32)%Z -> u32 z = z.
Proof. intros; unfold u32. by rewrite Z.mod_small. Qed.

Lemma u32_range z : (0 <= u32 z < 2 ^ 32)%Z.
Proof. unfold u32. apply Z.mod_pos_bound. lia. Qed.

Lemma s32_u32 z : (- 2 ^ 31 <= z < 2 ^ 31)%Z -> s32 (u32 z) = z.
Proof. intros. unfold s32, u32. rewrite Zplus_mod_idemp_l, Z.mod_small; lia. Qed.

Lemma s32_range z : (- 2 ^ 31 <= s32 z < 2 ^ 31)%Z.
Proof.
  unfold s32. pose proof (Z.mod_pos_bound (z + 2 ^ 31) (2 ^ 32)). lia.
Qed.

(** ** Arrays: bounds-checked reads, writes and [memcpy] *)

Definition get {A} (a : list A) (i : nat) : result A :=
  from_option_or OutOfBounds (a !! i).

Definition put {A} (a : list A) (i : nat) (x : A) : result (list A) :=
  if decide (i < length a) then Ok (<[i := x]> a) else Err OutOfBounds.

(** [memcpy (dst + off, src, length src)]: a fault when the block does not fit. *)
Definition memcpy_at {A} (dst : list A) (off : nat) (src : list A) : result (list A) :=
  if decide (off + length src <= length dst)
  then Ok (take off dst ++ src ++ drop (off + length src) dst)
  else Err OutOfBounds.

(** The [len] bytes at [off] of a block. *)
Definition slice {A} (a : list A) (off len : nat) : list A := take len (drop off a).

Lemma memcpy_at_length {A} (dst : list A) off src dst' :
  memcpy_at dst off src = Ok dst' -> length dst' = length dst.
Proof.
  unfold memcpy_at. case_decide; [|discriminate]. intros [= <-].
  rewrite !length_app, length_take, length_drop. lia.
Qed.

Lemma memcpy_at_nil {A} (dst : list A) off :
  off <= length dst -> memcpy_at dst off [] = Ok dst.
Proof.
  intros. unfold memcpy_at; simpl. rewrite decide_True by lia.
  by rewrite Nat.add_0_r, take_drop.
Qed.

Lemma memcpy_at_app {A} (dst : list A) off xs ys :
  memcpy_at dst off (xs ++ ys) =
  (d ← memcpy_at dst off xs; memcpy_at d (off + length xs) ys).
Proof.
  unfold memcpy_at. rewrite length_app.
  case_decide as H1; case_decide as H2; simpl; try lia; [| |done].
  - assert (Hl : length (take off dst ++ xs ++ drop (off + length xs) dst) = length dst)
      by (rewrite !length_app, length_take, length_drop; lia).
    rewrite decide_True by lia. f_equal.
    rewrite take_app_ge by (rewrite length_take; lia).
    rewrite drop_app_ge by (rewrite length_take; lia).
    rewrite length_take, Nat.min_l by lia.
    rewrite take_app_ge, drop_app_ge by lia.
    rewrite drop_drop.
    replace (off + length xs - off - length xs) with 0 by lia.
    rewrite take_0, app_nil_r, <-!app_assoc.
    do 3 f_equal. f_equal. lia.
  - assert (Hl : length (take off dst ++ xs ++ drop (off + length xs) dst) = length dst)
      by (rewrite !length_app, length_take, length_drop; lia).
    rewrite decide_False by lia. done.
Qed.

(** The same operations with [int] offsets and sizes, as the C code passes
    them: a negative offset or size is out of bounds. *)
Definition read_block {A} (a : list A) (off n : Z) : result (list A) :=
  if decide (0 <= off /\ 0 <= n /\ off + n <= Z.of_nat (length a))%Z
  then Ok (slice a (Z.to_nat off) (Z.to_nat n)) else Err OutOfBounds.

Definition write_block {A} (dst : list A) (off : Z) (src : list A) : result (list A) :=
  if decide (0 <= off)%Z then memcpy_at dst (Z.to_nat off) src else Err OutOfBounds.

Lemma write_block_length {A} (dst : list A) off src dst' :
  write_block dst off src = Ok dst' -> length dst' = length dst.
Proof.
  unfold write_block. case_decide; [|discriminate]. apply memcpy_at_length.
Qed.

Lemma write_block_ok {A} (dst : list A) off src :
  (0 <= off)%Z -> (off + Z.of_nat (length src) <= Z.of_nat (length dst))%Z ->
  write_block dst off src =
    Ok (take (Z.to_nat off) dst ++ src ++ drop (Z.to_nat off + length src) dst).
Proof.
  intros. unfold write_block, memcpy_at.
  rewrite decide_True by lia. by rewrite decide_True by lia.
Qed.

Lemma write_block_err {A} (dst : list A) off src :
  (Z.of_nat (length dst) < off + Z.of_nat (length src))%Z ->
  write_block dst off src = Err OutOfBounds.
Proof.
  intros. unfold write_block, memcpy_at. case_decide; [|done].
  by rewrite decide_False by lia.
Qed.

Lemma write_block_fits {A} (dst : list A) off src dst' :
  write_block dst off src = Ok dst' ->
  (0 <= off /\ off + Z.of_nat (length src) <= Z.of_nat (length dst))%Z.
Proof.
  unfold write_block, memcpy_at. case_decide; [|discriminate].
  case_decide; [|discriminate]. lia.
Qed.

Lemma write_block_nil {A} (dst : list A) off :
  (0 <= off <= Z.of_nat (length dst))%Z -> write_block dst off [] = Ok dst.
Proof.
  intros. unfold write_block. rewrite decide_True by lia. apply memcpy_at_nil. lia.
Qed.

Lemma write_block_cons {A} (dst : list A) off x xs :
  (0 <= off)%Z ->
  write_block dst off (x :: xs) =
  (d ← write_block dst off [x]; write_block d (off + 1) xs).
Proof.
  intros. unfold write_block. rewrite !decide_True by lia.
  change (x :: xs) with ([x] ++ xs). rewrite memcpy_at_app.
  replace (Z.to_nat (off + 1)) with (Z.to_nat off + length [x]) by (simpl; lia).
  destruct (memcpy_at _ _ [x]); simpl; [|done]. by rewrite decide_True by lia.
Qed.

Lemma write_block_app {A} (dst : list A) off xs ys :
  (0 <= off)%Z ->
  write_block dst off (xs ++ ys) =
  (d ← write_block dst off xs; write_block d (off + Z.of_nat (length xs)) ys).
Proof.
  intros. unfold write_block. rewrite !decide_True by lia.
  rewrite memcpy_at_app.
  replace (Z.to_nat (off + Z.of_nat (length xs))) with (Z.to_nat off + length xs) by lia.
  destruct (memcpy_at _ _ xs); simpl; [|done]. by rewrite decide_True by lia.
Qed.

(** The bytes before the written block are kept, the block is in place. *)
Lemma write_block_take {A} (dst : list A) off src dst' :
  write_block dst off src = Ok dst' ->
  take (Z.to_nat off + length src) dst' = take (Z.to_nat off) dst ++ src.
Proof.
  unfold write_block, memcpy_at. case_decide; [|discriminate].
  case_decide; [|discriminate]. intros [= <-].
  rewrite app_assoc. apply take_app_length'.
  rewrite length_app, length_take. lia.
Qed.

(** A block that fits is written, cell by cell. *)
Lemma write_block_total (dst src : list Z) (off : Z) :
  (0 <= off)%Z -> (off + Z.of_nat (length src) <= Z.of_nat (length dst))%Z ->
  exists dst', write_block dst off src = Ok dst' /\ length dst' = length dst /\
    forall k, dst' !!! k = if bool_decide (Z.to_nat off <= k < Z.to_nat off + length src) then src !!! (k - Z.to_nat off) else dst !!! k.
Proof.
  intros H0 H1. rewrite write_block_ok by done. eexists. split; [reflexivity|]. split; [len|]. intros k.
  destruct (decide (k < Z.to_nat off)).
  { rewrite bool_decide_false by lia. rewrite lookup_total_app_l by len. by rewrite list_lookup_total_alt, lookup_take_lt, <-list_lookup_total_alt by lia. }
  rewrite lookup_total_app_r by len. rewrite length_take, Nat.min_l by lia.
  destruct (decide (k < Z.to_nat off + length src)).
  - rewrite bool_decide_true by lia. by rewrite lookup_total_app_l by lia.
  - rewrite bool_decide_false by lia. rewrite lookup_total_app_r by lia. rewrite !list_lookup_total_alt, lookup_drop. do 2 f_equal. lia.
Qed.

(** ** Single cells

    One cell of a block, read or written; outside of it is a fault. *)
Section Cells.
Local Open Scope Z_scope.

Definition peek (mem : list Z) (cp : Z) : result Z :=
  b ← read_block mem cp 1; get b 0.

Definition poke (mem : list Z) (cp c : Z) : result (list Z) := write_block mem cp [c].

Lemma peek_at pre c post : peek (pre ++ c :: post) (Z.of_nat (length pre)) = Ok c.
Proof.
  unfold peek, read_block. rewrite length_app. simpl length.
  rewrite decide_True by lia. rewrite Nat2Z.id. unfold slice. by rewrite drop_app_length.
Qed.

Lemma poke_at pre c post x :
  poke (pre ++ c :: post) (Z.of_nat (length pre)) x = Ok (pre ++ x :: post).
Proof.
  unfold poke. rewrite write_block_ok by (rewrite ?length_app; simpl; lia).
  rewrite Nat2Z.id. rewrite take_app_length. simpl length.
  rewrite drop_app_ge by lia. by replace (length pre + 1 - length pre)%nat with 1%nat by lia.
Qed.

Lemma peek_in mem pre c post cp :
  mem = pre ++ c :: post -> cp = Z.of_nat (length pre) -> peek mem cp = Ok c.
Proof. intros -> ->. apply peek_at. Qed.

Lemma poke_in mem pre c post cp x :
  mem = pre ++ c :: post -> cp = Z.of_nat (length pre) -> poke mem cp x = Ok (pre ++ x :: post).
Proof. intros -> ->. apply poke_at. Qed.

Lemma block_in {A} (mem pre mid post : list A) a n :
  mem = pre ++ mid ++ post -> a = Z.of_nat (length pre) -> n = Z.of_nat (length mid) ->
  read_block mem a n = Ok mid.
Proof.
  intros -> -> ->. unfold read_block. rewrite !length_app. rewrite decide_True by lia.
  unfold slice. by rewrite !Nat2Z.id, drop_app_length, take_app_length.
Qed.

(** The C string at the start of a list of characters, if it is terminated. *)
Fixpoint until_nul (s : list Z) : option (list Z) :=
  match s with
  | [] => None
  | c :: s => if c =? 0 then Some [] else (c ::.) <$> until_nul s
  end.
End Cells.

(** ** Bytes of string literals *)

Fixpoint bytes (s : string) : list Z :=
  match s with
  | EmptyString => []
  | String c s' => Z.of_N (N_of_ascii c) :: bytes s'
  end.

(** ** Lists *)

Lemma elem_of_concat {A} (x : A) (ls : list (list A)) :
  x ∈ concat ls <-> exists l, x ∈ l /\ l ∈ ls.
Proof.
  induction ls as [|l ls IH]; simpl.
  - split; [by intros ?%elem_of_nil|]. intros (l & _ & H). by apply elem_of_nil in H.
  - rewrite elem_of_app, IH. split.
    + intros [H|(l' & H1 & H2)]; [exists l|exists l']; split; [done|by left|done|by right].
    + intros (l' & H1 & [->|H2]%elem_of_cons); [by left|right; by exists l'].
Qed.

Lemma foldM_concat {A S} (step : S -> A -> result S) s (ls : list (list A)) :
  foldM (fun s l => foldM step s l) s ls = foldM step s (concat ls).
Proof.
  revert s; induction ls as [|l ls IH]; intros s; simpl; [done|].
  rewrite foldM_app. by destruct (foldM step s l); simpl.
Qed.

(** ** Joining with commas *)

Section Commas.
Local Open Scope Z_scope.

Fixpoint commas (ts : list (list Z)) : list Z :=
  match ts with
  | [] => []
  | [t] => t
  | t :: ts => t ++ 44 :: commas ts
  end.

End Commas.

(** ** Cutting a list at a character *)

Definition lacks (c : Z) (s : list Z) : Prop := Forall (fun x => x <> c) s.

(** The character does not occur, or there is a first occurrence. *)
Lemma cut_at c s : lacks c s \/ exists s1 s2, s = s1 ++ c :: s2 /\ lacks c s1.
Proof.
  induction s as [|x s IH]; [left; constructor|]. destruct (decide (x = c)) as [->|Hx].
  - right. exists [], s. split; [done|constructor].
  - destruct IH as [H|(s1 & s2 & -> & H)]; [left; by constructor|].
    right. exists (x :: s1), s2. split; [done|by constructor].
Qed.

(** Induction on the pieces that the occurrences of a character separate. *)
Lemma cut_ind c (P : list Z -> Prop) :
  P [] -> (forall s, s <> [] -> lacks c s -> P s) ->
  (forall s1 s2, lacks c s1 -> P s2 -> P (s1 ++ c :: s2)) -> forall s, P s.
Proof.
  intros H0 H1 H2 s. remember (length s) as n eqn:En. revert s En.
  induction (lt_wf n) as [n _ IH]. intros s ->.
  destruct (cut_at c s) as [Hs|(s1 & s2 & -> & Hl)].
  - destruct s; [done|by apply H1].
  - apply H2; [done|]. eapply IH; [|done]. len.
Qed.

(** ** Finite checks and bit fields *)

(** A boolean fact about a small range is proved by evaluating it. *)
Lemma forall_below (n : nat) (P : Z -> bool) :
  forallb P (map Z.of_nat (seq 0 n)) = true -> forall z, (0 <= z < Z.of_nat n)%Z -> P z = true.
Proof.
  intros H z Hz. rewrite forallb_forall in H. apply H. apply in_map_iff.
  exists (Z.to_nat z). split; [lia|]. apply in_seq. lia.
Qed.

Lemma lor_add_disjoint (a b k : Z) :
  (0 <= k)%Z -> (0 <= b < 2 ^ k)%Z -> Z.lor (a * 2 ^ k) b = (a * 2 ^ k + b)%Z.
Proof.
  intros Hk Hb. symmetry. rewrite <-Z.shiftl_mul_pow2 by done. apply Z.add_nocarry_lor.
  apply Z.bits_inj'. intros i Hi. rewrite Z.land_spec, Z.bits_0.
  destruct (decide (i < k)%Z).
  - by rewrite Z.shiftl_spec_low.
  - rewrite <-(Z.mod_small b (2 ^ k)) by done. rewrite Z.mod_pow2_bits_high by lia.
    apply andb_false_r.
Qed.

(** ** Little-endian numbers *)

Section Endian.
Local Open Scope Z_scope.

(** The [n] bytes of a number, least significant first, and back. *)
Fixpoint le_bytes (n : nat) (z : Z) : list Z :=
  match n with O => [] | S n => z `mod` 256 :: le_bytes n (z / 256) end.

Fixpoint le_value (bs : list Z) : Z :=
  match bs with [] => 0 | b :: bs => b + 256 * le_value bs end.

Lemma le_bytes_length n z : length (le_bytes n z) = n.
Proof. revert z; induction n; intros; simpl; auto. Qed.

Lemma le_value_bytes n z : 0 <= z < 256 ^ Z.of_nat n -> le_value (le_bytes n z) = z.
Proof.
  revert z; induction n as [|n IH]; intros z Hz; cbn [le_bytes le_value].
  - change (256 ^ Z.of_nat 0) with 1 in Hz. lia.
  - rewrite Nat2Z.inj_succ, Z.pow_succ_r in Hz by lia. rewrite IH.
    + pose proof (Z.div_mod z 256). lia.
    + split; [apply Z.div_pos; lia|]. apply Z.div_lt_upper_bound; lia.
Qed.
End Endian.

(** A fold that first computes a value from each element. *)
Lemma foldM_values {A B S} (f : A -> result B) (g : S -> B -> result S) s l xs :
  Forall2 (fun a x => f a = Ok x) l xs ->
  foldM (fun s a => x ← f a; g s x) s l = foldM g s xs.
Proof.
  intros H. revert s. induction H as [|a x l xs E H IH]; intros s; simpl; [done|].
  rewrite E. simpl. destruct (g s x); simpl; auto.
Qed.

Lemma foldM_total {A S} (step : S -> A -> result S) (f : S -> A -> S) (P : S -> Prop) s l :
  (forall s a, In a l -> P s -> step s a = Ok (f s a) /\ P (f s a)) -> P s ->
  foldM step s l = Ok (foldl f s l) /\ P (foldl f s l).
Proof.
  revert s. induction l as [|a l IH]; intros s H Hs; simpl; [done|].
  destruct (H s a (or_introl eq_refl) Hs) as [-> Hs']. simpl. apply IH; [|done].
  intros; apply H; [by right|done].
Qed.

(** ** Numbers that are not taken

    [do { n = n + 1; } while (taken(n));] on numbers modulo [N]. *)

Fixpoint next_free (N : Z) (taken : Z -> bool) (fuel : nat) (n : Z) : result Z :=
  match fuel with
  | O => Err OutOfFuel
  | S fuel =>
      let n := ((n + 1) `mod` N)%Z in
      if taken n then next_free N taken fuel n else Ok n
  end.

Lemma next_free_cases N taken fuel n :
  (0 < N)%Z ->
  (exists l, next_free N taken fuel n = Ok l /\ taken l = false /\ (0 <= l < N)%Z) \/
  (forall i, (0 < i <= fuel)%nat -> taken ((n + Z.of_nat i) `mod` N)%Z = true).
Proof.
  intros HN. revert n. induction fuel as [|fuel IH]; intros n; cbn [next_free]; [right; lia|].
  destruct (taken _) eqn:E.
  - destruct (IH ((n + 1) `mod` N)%Z) as [H|H]; [by left|]. right. intros i Hi.
    destruct (decide (i = 1)%nat) as [->|Hne]; [done|]. specialize (H (i - 1)%nat).
    replace (n + Z.of_nat i)%Z with (n + 1 + Z.of_nat (i - 1))%Z by lia.
    rewrite Z.add_mod_idemp_l in H by lia. apply H. lia.
  - left. eexists. split; [done|]. split; [done|]. by apply Z.mod_pos_bound.
Qed.

Lemma next_free_result N taken fuel n m :
  (0 < N)%Z -> next_free N taken fuel n = Ok m -> taken m = false /\ (0 <= m < N)%Z.
Proof.
  intros HN. revert n. induction fuel as [|fuel IH]; intros n; cbn [next_free]; [done|].
  destruct (taken ((n + 1) `mod` N)%Z) eqn:E; [apply IH|]. intros [= <-]. split; [done|]. by apply Z.mod_pos_bound.
Qed.

(** More numbers than there are in [l] are not all taken. *)
Lemma next_free_ok N taken fuel n l :
  (Z.of_nat fuel <= N)%Z -> (length l < fuel)%nat -> (forall m, taken m = true -> m ∈ l) ->
  exists m, next_free N taken fuel n = Ok m /\ taken m = false /\ (0 <= m < N)%Z.
Proof.
  intros HN Hl Ht. destruct (next_free_cases N taken fuel n) as [H|H]; [lia|done|]. exfalso.
  set (ns := map (fun i => ((n + Z.of_nat i) `mod` N)%Z) (seq 1 fuel)).
  assert (Hnd : NoDup ns).
  { apply (NoDup_fmap_2_strong (fun i => ((n + Z.of_nat i) `mod` N)%Z)); [|apply NoDup_seq].
    intros i j Hi Hj Hij. apply elem_of_seq in Hi, Hj.
    assert (Hd : (N | Z.of_nat i - Z.of_nat j)%Z).
    { apply Z.mod_divide; [lia|]. replace (Z.of_nat i - Z.of_nat j)%Z
        with (n + Z.of_nat i - (n + Z.of_nat j))%Z by lia.
      rewrite Zminus_mod, Hij, Z.sub_diag. apply Z.mod_0_l. lia. }
    destruct Hd as [q Hq]. assert (q = 0)%Z by nia. lia. }
  assert (Hsub : ns ⊆+ l).
  { apply NoDup_submseteq; [done|]. intros m Hm. apply list_elem_of_In, in_map_iff in Hm as (i & <- & Hi).
    apply in_seq in Hi. apply Ht, H. lia. }
  apply submseteq_length in Hsub. subst ns. rewrite length_map, length_seq in Hsub. lia.
Qed.
