(* ===== verification/GlUtils.v ===== *)
(** * Sizes, packing and indices of GL data

    Models the parts of [src/emulator/opengl/shared/OpenglCodecCommon/glUtils.cpp] and
    [glUtils.h] that guest and host share ([glSizeof], [glUtilsPixelBitSize],
    [glUtilsPackPointerData], [minmax], [shiftIndices]), and [FixedBuffer.h].

    Memory of the caller is a partial function from addresses to bytes, so that a
    result without a fault says which bytes were read at most. *)
From S2P Require Import Prelude.
Local Open Scope Z_scope.

(** [glSizeof] *)
Definition glSizeof (type : Z) : Z :=
  match type with
  | 0x1400 | 0x1401 => 1
  | 0x1402 | 0x1403 | 0x8D61 => 2
  | 0x1404 | 0x1406 | 0x140C | 0x8B56 => 4
  | 0x8B50 | 0x8B53 | 0x8B57 => 8
  | 0x8B54 | 0x8B58 | 0x8B51 => 12
  | 0x8B52 | 0x8B59 | 0x8B55 | 0x8B5A => 16
  | 0x8B5B => 36
  | 0x8B5C => 64
  | 0x8B5E | 0x8B60 => 4
  | _ => 0
  end.

(** [glUtilsPixelBitSize]. *)
Definition glUtilsPixelBitSize (format type : Z) : Z :=
  let '(componentsize, pixelsize) :=
    match type with
    | 0x1400 | 0x1401 => (8, 0)
    | 0x1402 | 0x1403 | 0x8363 | 0x8033 | 0x8034 | 0x8D62 | 0x8057 | 0x8056 => (0, 16)
    | 0x1404 | 0x1405 | 0x1406 | 0x140C | 0x84FA => (0, 32)
    | _ => (0, 0)
    end in
  if pixelsize =? 0 then
    componentsize *
    match format with
    | 0x1906 | 0x1909 | 0x1902 | 0x84F9 => 1
    | 0x190A => 2
    | 0x1907 => 3
    | 0x1908 | 0x80E1 => 4
    | _ => 0
    end
  else pixelsize.

(** ** Memory of the caller *)

Definition Memory : Type := Z -> option Z.

Definition read_mem (mem : Memory) (p n : Z) : result (list Z) := from_option_or OutOfBounds (mapM mem (seqZ p n)).

(** The loop of [glUtilsPackPointerData]. *)
Fixpoint pack_loop (fuel : nat) (mem : Memory) (dst : list (option Z)) (off src vsize stride datalen i : Z) : result (list (option Z)) :=
  match fuel with
  | O => Err OutOfFuel
  | S fuel =>
      if i <? datalen then
        x ← read_mem mem src vsize;
        dst ← write_block dst off (Some <$> x);
        pack_loop fuel mem dst (off + vsize) (src + stride) vsize stride datalen (u32 (i + vsize))
      else Ok dst
  end.

(** [glUtilsPackPointerData] *)
Definition glUtilsPackPointerData (mem : Memory) (dst : list (option Z)) (src size type stride datalen : Z) : result (list (option Z)) :=
  let vsize := u32 (size * glSizeof type) in
  let stride := if stride =? 0 then vsize else stride in
  if stride =? vsize then x ← read_mem mem src datalen; write_block dst 0 (Some <$> x)
  else pack_loop (S (Z.to_nat datalen)) mem dst 0 src vsize stride datalen 0.

(** ** Indices *)

(** The least and the greatest of the indices, from -1 on. *)
Definition minmax (indices : list Z) : Z * Z :=
  foldl (fun '(mn, mx) x => (if (mn =? -1) || (x <? mn) then x else mn, if (mx =? -1) || (mx <? x) then x else mx)) (-1, -1) indices.

(** [shiftIndices] from one array to another, of unsigned numbers of [w] bytes. *)
Definition shiftIndices (w : Z) (src : list Z) (offset : Z) : list Z := (fun x => (x + offset) mod 256 ^ w) <$> src.

(** ** Buffers that grow *)

(** [FixedBuffer]: its cells, each with a byte or not written yet. *)
Definition FixedBuffer : Type := list (option Z).

Definition new_FixedBuffer : FixedBuffer := [].

(** [FixedBuffer::alloc] *)
Definition fixed_alloc (b : FixedBuffer) (size : Z) : FixedBuffer :=
  if size <=? Z.of_nat (length b) then b else replicate (Z.to_nat size) None.

(** ** What the loops compute *)

Lemma mapM_app {A B} (f : A -> option B) l k : mapM f (l ++ k) = (x ← mapM f l; y ← mapM f k; Some (x ++ y))%stdpp.
Proof.
  induction l as [|a l IH]; cbn; [by destruct (mapM f k)|]. destruct (f a); cbn; [|done]. rewrite IH. destruct (mapM f l); cbn; [|done]. by destruct (mapM f k).
Qed.

Lemma mapM_of_map {A B C} (f : A -> option B) (g : C -> A) l : mapM f (g <$> l) = mapM (fun x => f (g x)) l.
Proof. induction l as [|x l IH]; [done|]. cbn. by rewrite IH. Qed.

Lemma read_mem_app mem p n m : 0 <= n -> 0 <= m ->
  read_mem mem p (n + m) = (x ← read_mem mem p n; y ← read_mem mem (p + n) m; Ok (x ++ y)).
Proof.
  intros Hn Hm. unfold read_mem. rewrite seqZ_app, mapM_app by lia. destruct (mapM mem (seqZ p n)); cbn; [|done].
  by destruct (mapM mem (seqZ (p + n) m)).
Qed.

Lemma read_mem_length mem p n x : read_mem mem p n = Ok x -> length x = Z.to_nat n.
Proof.
  unfold read_mem. destruct (mapM mem (seqZ p n)) as [l|] eqn:E; [|done]. intros [= <-]. apply length_mapM in E. by rewrite length_seqZ in E.
Qed.

(** The elements of an array with a distance between them. *)
Definition read_elements (mem : Memory) (src vsize stride : Z) (n : nat) : result (list (list Z)) :=
  from_option_or OutOfBounds (mapM (fun k => mapM mem (seqZ (src + stride * k) vsize)) (seqZ 0 (Z.of_nat n))).

Lemma read_elements_cons mem src vsize stride n xs :
  read_elements mem src vsize stride (S n) = Ok xs ->
  exists x xs', xs = x :: xs' /\ read_mem mem src vsize = Ok x /\ read_elements mem (src + stride) vsize stride n = Ok xs'.
Proof.
  unfold read_elements, read_mem. replace (Z.of_nat (S n)) with (1 + Z.of_nat n) by lia. rewrite seqZ_cons by lia. cbn [mapM].
  replace (Z.pred (1 + Z.of_nat n)) with (Z.of_nat n) by lia. rewrite Z.mul_0_r, Z.add_0_r.
  destruct (mapM mem (seqZ src vsize)) as [x|] eqn:Ex; cbn; [|done].
  assert (E : mapM (fun k => mapM mem (seqZ (src + stride * k) vsize)) (seqZ (Z.succ 0) (Z.of_nat n)) =
      mapM (fun k => mapM mem (seqZ (src + stride + stride * k) vsize)) (seqZ 0 (Z.of_nat n))).
  { change (Z.succ 0) with (1 + 0). rewrite <-fmap_add_seqZ, mapM_of_map. apply mapM_ext. intros k. f_equal. f_equal. lia. }
  rewrite E. destruct (mapM _ (seqZ 0 (Z.of_nat n))) as [ys|]; cbn; [|done]. intros [= <-]. by exists x, ys.
Qed.

Lemma read_elements_length mem src vsize stride n xs : read_elements mem src vsize stride n = Ok xs -> length xs = n.
Proof.
  unfold read_elements. destruct (mapM _ _) as [l|] eqn:E; [|done]. intros [= <-]. apply length_mapM in E. rewrite length_seqZ in E. lia.
Qed.

(** Elements next to each other are one block. *)
Lemma read_contiguous mem vsize : 0 <= vsize -> forall n src xs, read_elements mem src vsize vsize n = Ok xs -> read_mem mem src (vsize * Z.of_nat n) = Ok (concat xs).
Proof.
  intros Hv. induction n as [|n IH]; intros src xs E.
  - pose proof (read_elements_length _ _ _ _ _ _ E) as Hl. destruct xs; [|done]. by rewrite Z.mul_0_r.
  - apply read_elements_cons in E as (x & xs' & -> & Ex & E). replace (vsize * Z.of_nat (S n)) with (vsize + vsize * Z.of_nat n) by lia.
    rewrite read_mem_app by lia. rewrite Ex. cbn [mbind result_bind]. by rewrite (IH _ _ E).
Qed.

Lemma concat_elements_length mem vsize stride : 0 <= vsize -> forall n src xs,
  read_elements mem src vsize stride n = Ok xs -> Z.of_nat (length (concat xs)) = vsize * Z.of_nat n.
Proof.
  intros Hv. induction n as [|n IH]; intros src xs E.
  - pose proof (read_elements_length _ _ _ _ _ _ E) as Hl. destruct xs; [simpl; lia|done].
  - apply read_elements_cons in E as (x & xs' & -> & Ex & E). cbn [concat]. rewrite length_app. apply read_mem_length in Ex.
    pose proof (IH _ _ E). lia.
Qed.

Lemma pack_loop_ok mem vsize stride datalen : 0 < vsize -> datalen < 2 ^ 32 -> forall n fuel i src xs (pre dst : list (option Z)),
  read_elements mem src vsize stride n = Ok xs -> 0 <= i -> datalen = i + vsize * Z.of_nat n -> (n < fuel)%nat -> (length (concat xs) <= length dst)%nat ->
  pack_loop fuel mem (pre ++ dst) (Z.of_nat (length pre)) src vsize stride datalen i = Ok (pre ++ (Some <$> concat xs) ++ drop (length (concat xs)) dst).
Proof.
  intros Hv Hd. induction n as [|n IH]; intros fuel i src xs pre dst E Hi Hdl Hf Hroom; (destruct fuel as [|fuel]; [lia|]); cbn [pack_loop].
  - pose proof (read_elements_length _ _ _ _ _ _ E) as Hl. destruct xs; [|done]. by rewrite (proj2 (Z.ltb_ge _ _)) by lia.
  - apply read_elements_cons in E as (x & xs' & -> & Ex & E). rewrite (proj2 (Z.ltb_lt _ _)) by nia. rewrite Ex. cbn [mbind result_bind].
    apply read_mem_length in Ex as Hlx. cbn [concat] in *. rewrite length_app in Hroom.
    rewrite (write_block_ok (pre ++ dst)) by (rewrite ?length_app, ?length_fmap; lia). cbn [mbind result_bind].
    rewrite Nat2Z.id, take_app_length, length_fmap, drop_app_ge by lia. replace (length pre + length x - length pre)%nat with (length x) by lia.
    rewrite app_assoc. replace (Z.of_nat (length pre) + vsize) with (Z.of_nat (length (pre ++ (Some <$> x)))) by (rewrite length_app, length_fmap; lia).
    rewrite u32_small by nia. rewrite (IH fuel (i + vsize) (src + stride) xs' _ _ E) by (rewrite ?length_drop; lia).
    rewrite fmap_app, length_app, drop_drop. by rewrite <-!app_assoc.
Qed.

(** The packed data are the elements one after the other, and only their bytes are
    read. *)
Lemma pack_exact mem dst src size type stride n xs :
  let vsize := size * glSizeof type in
  0 < vsize -> vsize * Z.of_nat n < 2 ^ 32 -> Z.of_nat (length dst) = vsize * Z.of_nat n -> vsize < 2 ^ 32 ->
  read_elements mem src vsize (if stride =? 0 then vsize else stride) n = Ok xs ->
  glUtilsPackPointerData mem dst src size type stride (vsize * Z.of_nat n) = Ok (Some <$> concat xs).
Proof.
  intros vsize Hv Hd Hl Hv2 E. unfold glUtilsPackPointerData. fold vsize. clearbody vsize. rewrite u32_small by lia.
  pose proof (concat_elements_length mem vsize _ ltac:(lia) _ _ _ E) as Hc. destruct (Z.eqb_spec (if stride =? 0 then vsize else stride) vsize) as [Es|Hs].
  - rewrite Es in E. rewrite (read_contiguous mem vsize ltac:(lia) _ _ _ E). cbn [mbind result_bind].
    rewrite write_block_ok by (rewrite ?length_fmap; lia). change (Z.to_nat 0) with 0%nat. rewrite take_0, length_fmap, drop_ge by lia. by rewrite app_nil_r.
  - rewrite (pack_loop_ok mem vsize _ _ Hv Hd n _ 0 src xs [] dst E) by nia. rewrite drop_ge by lia. by rewrite app_nil_r.
Qed.

(** *** Indices *)

Lemma minmax_from l : forall mn mx, 0 <= mn <= mx -> Forall (fun x => 0 <= x) l ->
  exists mn' mx', foldl (fun '(mn, mx) x => (if (mn =? -1) || (x <? mn) then x else mn, if (mx =? -1) || (mx <? x) then x else mx)) (mn, mx) l = (mn', mx') /\
    0 <= mn' <= mn /\ mx <= mx' /\ Forall (fun x => mn' <= x <= mx') l /\ (mn' = mn \/ mn' ∈ l) /\ (mx' = mx \/ mx' ∈ l).
Proof.
  induction l as [|x l IH]; intros mn mx Hm Hl; [exists mn, mx; split_and!; first [done|lia|by left|by constructor]|].
  apply Forall_cons in Hl as [Hx Hl]. cbn [foldl]. rewrite (proj2 (Z.eqb_neq mn (-1))), (proj2 (Z.eqb_neq mx (-1))) by lia. cbn [orb].
  destruct (IH (if x <? mn then x else mn) (if mx <? x then x else mx)) as (mn' & mx' & -> & H1 & H2 & H3 & H4 & H5); [|done|].
  { destruct (Z.ltb_spec x mn), (Z.ltb_spec mx x); lia. }
  exists mn', mx'. split; [done|]. assert (Hx' : mn' <= x <= mx') by (destruct (Z.ltb_spec x mn), (Z.ltb_spec mx x); lia).
  assert (Hm' : 0 <= mn' <= mn /\ mx <= mx') by (destruct (Z.ltb_spec x mn), (Z.ltb_spec mx x); lia).
  split; [lia|]. split; [lia|]. split; [by constructor|]. split.
  - destruct H4 as [->|H4]; [|by right; right]. destruct (x <? mn); [by right; left|by left].
  - destruct H5 as [->|H5]; [|by right; right]. destruct (mx <? x); [by right; left|by left].
Qed.

Lemma minmax_ok l : l <> [] -> Forall (fun x => 0 <= x) l ->
  exists mn mx, minmax l = (mn, mx) /\ 0 <= mn /\ Forall (fun x => mn <= x <= mx) l /\ mn ∈ l /\ mx ∈ l.
Proof.
  destruct l as [|x l]; [done|]. intros _ Hl. apply Forall_cons in Hl as [Hx Hl]. unfold minmax. cbn [foldl]. change (-1 =? -1) with true. cbn [orb].
  destruct (minmax_from l x x ltac:(lia) Hl) as (mn & mx & -> & H1 & H2 & H3 & H4 & H5). exists mn, mx. split; [done|]. split_and!; [lia| | |].
  - constructor; [lia|done].
  - destruct H4 as [->|H4]; [by left|by right].
  - destruct H5 as [->|H5]; [by left|by right].
Qed.

Lemma shift_indices_ok w l mn : 0 <= mn -> Forall (fun x => mn <= x < 256 ^ w) l -> shiftIndices w l (- mn) = (fun x => x - mn) <$> l.
Proof. intros Hm Hl. unfold shiftIndices. apply list_fmap_ext. intros i x Hx. rewrite Forall_lookup in Hl. specialize (Hl i x Hx). rewrite Z.mod_small; lia. Qed.
