(* ===== verification/QemudPacket.v ===== *)
(** * qemud: hexadecimal fields, packets and the packet pool

    Models the utilities and the "PACKETS" and "PACKET RECEIVER" parts of
    [src/emulator/qemud/qemud.c]: [hex2int], [int2hex], the [Packet] structure
    with its 4000-byte payload, the free list behind [packet_alloc] and
    [packet_free].  The pool is an interface ([PacketPool]) so that the serial
    framing code can be verified for every world that carries one. *)
From S2P Require Import Prelude.
Local Open Scope Z_scope.

(** ** Hexadecimal fields *)
Module Hex.

(** The body of [hex2int]'s [do ... while (0)]: the digit of a character. *)
Definition hexdigit (c : Z) : option Z :=
  let d := u32 (c - 48) in
  if d <? 10 then Some d else
  let d := u32 (c - 97) in
  if d <? 6 then Some (d + 10) else
  let d := u32 (c - 65) in
  if d <? 6 then Some (d + 10) else None.

Fixpoint hex2int_loop (data : list Z) (result : Z) : Z :=
  match data with
  | [] => result
  | c :: data' =>
      let result := s32 (Z.shiftl result 4) in
      match hexdigit c with
      | None => -1
      | Some d => hex2int_loop data' (s32 (Z.lor (u32 result) d))
      end
  end.

(** [hex2int (data, len)], applied to the [len] bytes at [data]. *)
Definition hex2int (data : list Z) : Z := hex2int_loop data 0.

Definition hexchars : list Z := bytes "0123456789abcdef".

(** [int2hex (value, to, width)]: the [width] bytes it stores at [to]. *)
Fixpoint int2hex (value : Z) (width : nat) : list Z :=
  match width with
  | O => []
  | S w =>
      nth (Z.to_nat (Z.land (Z.shiftr value (Z.of_nat w * 4)) 15)) hexchars 0
        :: int2hex value w
  end.

(** *** Reference value of a digit string *)
Definition hexvalue (ds : list Z) (acc : Z) : Z :=
  fold_left (fun acc d => acc * 16 + d) ds acc.

Lemma hexdigit_range c d : hexdigit c = Some d -> 0 <= d < 16.
Proof.
  unfold hexdigit. pose proof (u32_range (c - 48)).
  pose proof (u32_range (c - 97)). pose proof (u32_range (c - 65)).
  repeat case_match; intros [= <-]; lia.
Qed.

Lemma shiftl_lor_digit r d :
  0 <= r -> 0 <= d < 16 -> Z.lor (Z.shiftl r 4) d = r * 16 + d.
Proof.
  intros Hr Hd. rewrite Z.shiftl_mul_pow2 by lia. change (2 ^ 4) with 16.
  rewrite <- Z.lxor_lor, <- Z.add_nocarry_lxor; [lia| |].
  all: apply Z.bits_inj_0; intros n; rewrite Z.land_spec.
  all: destruct (Z.lt_ge_cases n 0) as [?|?];
    [by rewrite Z.testbit_neg_r by lia |].
  all: change 16 with (2 ^ 4); destruct (Z.lt_ge_cases n 4);
    [ by rewrite Z.mul_pow2_bits_low by lia
    | rewrite (Z.bits_above_log2 d n), andb_false_r; [done|lia|] ].
  all: destruct (decide (d = 0)) as [->|]; [simpl; lia|].
  all: apply Z.log2_lt_pow2; [lia|].
  all: apply Z.lt_le_trans with (2 ^ 4); [lia|]; apply Z.pow_le_mono_r; lia.
Qed.

Lemma hexvalue_lower ds acc :
  0 <= acc -> Forall (fun d => 0 <= d < 16) ds ->
  acc * 16 ^ Z.of_nat (length ds) <= hexvalue ds acc
    < (acc + 1) * 16 ^ Z.of_nat (length ds).
Proof.
  revert acc; induction ds as [|d ds IH]; intros acc Ha Hd; simpl; [lia|].
  inversion Hd as [|? ? Hd1 Hd2]; subst.
  specialize (IH (acc * 16 + d) ltac:(lia) Hd2).
  replace (Z.of_nat (S (length ds))) with (1 + Z.of_nat (length ds)) by lia.
  rewrite Z.pow_add_r by lia. unfold hexvalue in *. simpl.
  assert (0 < 16 ^ Z.of_nat (length ds)) by (apply Z.pow_pos_nonneg; lia).
  nia.
Qed.

Lemma hexdigit_hexchars k :
  0 <= k < 16 -> hexdigit (nth (Z.to_nat k) hexchars 0) = Some k.
Proof.
  intros Hk.
  assert (k = 0 \/ k = 1 \/ k = 2 \/ k = 3 \/ k = 4 \/ k = 5 \/ k = 6 \/ k = 7
    \/ k = 8 \/ k = 9 \/ k = 10 \/ k = 11 \/ k = 12 \/ k = 13 \/ k = 14 \/ k = 15)
    as Hc by lia.
  repeat (destruct Hc as [->|Hc]; [reflexivity|]). subst. reflexivity.
Qed.

Lemma pow16_le n m : (n <= m)%nat -> 16 ^ Z.of_nat n <= 16 ^ Z.of_nat m.
Proof. intros. apply Z.pow_le_mono_r; lia. Qed.

(** The loop computes the reference value as long as it fits in an [int]. *)
Lemma hex2int_loop_digits data ds r :
  Forall2 (fun c d => hexdigit c = Some d) data ds ->
  0 <= r -> (r + 1) * 16 ^ Z.of_nat (length data) <= 2 ^ 31 ->
  hex2int_loop data r = hexvalue ds r.
Proof.
  intros Hds; revert r; induction Hds as [|c d data ds Hc Hds IH]; intros r Hr Hb;
    [done|].
  simpl. rewrite Hc. apply hexdigit_range in Hc as Hd.
  simpl length in Hb.
  replace (Z.of_nat (S (length data))) with (1 + Z.of_nat (length data)) in Hb by lia.
  rewrite Z.pow_add_r in Hb by lia.
  assert (0 < 16 ^ Z.of_nat (length data)) by (apply Z.pow_pos_nonneg; lia).
  assert (Hr16 : 0 <= Z.shiftl r 4 < 2 ^ 31 - 15).
  { rewrite Z.shiftl_mul_pow2 by lia. nia. }
  rewrite (s32_small (Z.shiftl r 4)) by lia.
  rewrite (u32_small (Z.shiftl r 4)) by lia.
  rewrite shiftl_lor_digit by lia.
  rewrite s32_small by (rewrite Z.shiftl_mul_pow2 in Hr16 by lia; nia).
  unfold hexvalue in *; simpl. apply IH; nia.
Qed.

Lemma hexdigits_dec data :
  {ds | Forall2 (fun c d => hexdigit c = Some d) data ds} +
  {exists c, c ∈ data /\ hexdigit c = None}.
Proof.
  induction data as [|c data IH]; [left; exists []; constructor|].
  destruct (hexdigit c) as [d|] eqn:Hc.
  - destruct IH as [[ds Hds]|Hno].
    + left; exists (d :: ds). by constructor.
    + right. destruct Hno as (c' & ? & ?). exists c'. by rewrite elem_of_cons; auto.
  - right. exists c. by rewrite elem_of_cons; auto.
Qed.

Lemma hex2int_loop_malformed data r c :
  c ∈ data -> hexdigit c = None -> hex2int_loop data r = -1.
Proof.
  revert r; induction data as [|x data IH]; intros r Hin Hc;
    [by apply elem_of_nil in Hin|].
  simpl. apply elem_of_cons in Hin as [->|Hin]; [by rewrite Hc|].
  destruct (hexdigit x); auto.
Qed.

Lemma hex2int_digits data ds :
  (length data <= 7)%nat ->
  Forall2 (fun c d => hexdigit c = Some d) data ds ->
  hex2int data = hexvalue ds 0.
Proof.
  intros Hl Hds. apply hex2int_loop_digits; [done|lia|].
  apply pow16_le in Hl. change (16 ^ Z.of_nat 7) with (2 ^ 28) in Hl. lia.
Qed.

Lemma hexdigits_range data ds :
  Forall2 (fun c d => hexdigit c = Some d) data ds ->
  Forall (fun d => 0 <= d < 16) ds.
Proof. induction 1; constructor; eauto using hexdigit_range. Qed.

Lemma hex2int_bounds data :
  (length data <= 7)%nat ->
  -1 <= hex2int data < 16 ^ Z.of_nat (length data).
Proof.
  intros Hl. destruct (hexdigits_dec data) as [[ds Hds]|(c & Hin & Hc)].
  - rewrite (hex2int_digits data ds) by done.
    rewrite (Forall2_length _ _ _ Hds).
    pose proof (hexvalue_lower ds 0 ltac:(lia) (hexdigits_range _ _ Hds)). lia.
  - unfold hex2int. rewrite (hex2int_loop_malformed data 0 c Hin Hc).
    assert (0 < 16 ^ Z.of_nat (length data)) by (apply Z.pow_pos_nonneg; lia). lia.
Qed.

(** The result is -1 exactly for a field with a character that is no digit. *)
Lemma hex2int_malformed_iff data :
  (length data <= 7)%nat ->
  hex2int data = -1 <-> exists c, c ∈ data /\ hexdigit c = None.
Proof.
  intros Hl. split.
  - intros H. destruct (hexdigits_dec data) as [[ds Hds]|Hno]; [|done].
    rewrite (hex2int_digits data ds) in H by done.
    pose proof (hexvalue_lower ds 0 ltac:(lia) (hexdigits_range _ _ Hds)).
    assert (0 < 16 ^ Z.of_nat (length ds)) by (apply Z.pow_pos_nonneg; lia). lia.
  - intros (c & Hin & Hc). by apply (hex2int_loop_malformed data 0 c).
Qed.

Lemma length_int2hex v w : length (int2hex v w) = w.
Proof. induction w; simpl; congruence. Qed.

Lemma nibble_range v k : 0 <= Z.land (Z.shiftr v k) 15 < 16.
Proof.
  change 15 with (Z.ones 4). rewrite Z.land_ones by lia. apply Z.mod_pos_bound. lia.
Qed.

Lemma int2hex_digits v w :
  Forall2 (fun c d => hexdigit c = Some d) (int2hex v w)
    (map (fun k => Z.land (Z.shiftr v (Z.of_nat k * 4)) 15) (rev (seq 0 w))).
Proof.
  induction w as [|w IH]; [constructor|].
  rewrite seq_S, rev_app_distr. simpl. constructor; [|done].
  apply hexdigit_hexchars, nibble_range.
Qed.

Lemma hexvalue_nibbles v w acc :
  0 <= v ->
  hexvalue (map (fun k => Z.land (Z.shiftr v (Z.of_nat k * 4)) 15) (rev (seq 0 w))) acc
  = acc * 16 ^ Z.of_nat w + v mod 16 ^ Z.of_nat w.
Proof.
  intros Hv; revert acc; induction w as [|w IH]; intros acc.
  { simpl. rewrite Z.mod_1_r. unfold hexvalue; simpl. lia. }
  rewrite seq_S, rev_app_distr. simpl. unfold hexvalue in *; simpl. rewrite IH.
  change 15 with (Z.ones 4). rewrite Z.land_ones by lia.
  rewrite Z.shiftr_div_pow2 by lia. change (2 ^ 4) with 16.
  replace (2 ^ (Z.of_nat w * 4)) with (16 ^ Z.of_nat w).
  2:{ change 16 with (2 ^ 4). rewrite <- Z.pow_mul_r by lia. f_equal. lia. }
  replace (16 ^ Z.of_nat (S w)) with (16 ^ Z.of_nat w * 16).
  2:{ replace (Z.of_nat (S w)) with (Z.of_nat w + 1) by lia.
      rewrite Z.pow_add_r by lia. lia. }
  assert (0 < 16 ^ Z.of_nat w) by (apply Z.pow_pos_nonneg; lia).
  rewrite (Z.rem_mul_r v) by lia. ring.
Qed.

(** What [int2hex] writes, [hex2int] reads back, modulo the field's width. *)
Lemma hex2int_int2hex_mod v w :
  0 <= v -> (w <= 7)%nat -> hex2int (int2hex v w) = v mod 16 ^ Z.of_nat w.
Proof.
  intros Hv Hw.
  erewrite hex2int_digits; [|by rewrite length_int2hex|apply int2hex_digits].
  rewrite hexvalue_nibbles by done. lia.
Qed.

End Hex.

(** ** Packets and their pool *)

Definition MAX_PAYLOAD : nat := 4000.
#[global] Arguments MAX_PAYLOAD : simpl never.

(** [struct Packet]: the [next] link is the position in the list (free list or
    output queue) that owns the packet. *)
Record Packet : Type := mkPacket {
  p_len : Z;
  p_channel : Z;
  p_data : list Z
}.

Definition set_p_data (d : list Z) (p : Packet) : Packet :=
  mkPacket (p_len p) (p_channel p) d.
Definition set_p_len (n : Z) (p : Packet) : Packet :=
  mkPacket n (p_channel p) (p_data p).
Definition set_p_channel (c : Z) (p : Packet) : Packet :=
  mkPacket (p_len p) c (p_data p).

(** The payload: the first [len] bytes of [data]. *)
Definition payload (p : Packet) : list Z := take (Z.to_nat (p_len p)) (p_data p).

(** A world that holds the global [_free_packets].  [malloc_bytes] is the
    (indeterminate) content of a payload that comes fresh from [malloc]. *)
Class PacketPool (W : Type) : Type := {
  free_packets : W -> list Packet;
  set_free_packets : list Packet -> W -> W;
  malloc_bytes : list Z
}.

Class PacketPoolLaws (W : Type) `{PacketPool W} : Prop := {
  free_set_free : forall l w, free_packets (set_free_packets l w) = l;
  set_free_set : forall l l' w,
    set_free_packets l (set_free_packets l' w) = set_free_packets l w;
  malloc_bytes_length : length malloc_bytes = MAX_PAYLOAD
}.

Definition packet_ok (p : Packet) : Prop := length (p_data p) = MAX_PAYLOAD.

Section Pool.
Context {W : Type} {Pool : PacketPool W} {Laws : PacketPoolLaws W}.

Definition packet_alloc (w : W) : Packet * W :=
  match free_packets w with
  | p :: rest => (mkPacket 0 (-1) (p_data p), set_free_packets rest w)
  | [] => (mkPacket 0 (-1) malloc_bytes, w)
  end.

Definition packet_free (p : Packet) (w : W) : W :=
  set_free_packets (p :: free_packets w) w.

(** Every pooled packet has its full payload area. *)
Definition pool_ok (w : W) : Prop := Forall packet_ok (free_packets w).

Lemma packet_alloc_ok w p w' :
  pool_ok w -> packet_alloc w = (p, w') -> packet_ok p /\ pool_ok w'.
Proof.
  unfold packet_alloc, pool_ok. intros Hw.
  destruct (free_packets w) as [|q rest] eqn:Hf; intros [= <- <-].
  - unfold packet_ok; simpl. rewrite Hf. split; [apply malloc_bytes_length|done].
  - apply Forall_cons in Hw as [??]. by rewrite free_set_free.
Qed.

Lemma packet_alloc_fields w :
  p_len (packet_alloc w).1 = 0 /\ p_channel (packet_alloc w).1 = -1.
Proof. unfold packet_alloc. by destruct (free_packets w). Qed.

Lemma packet_free_ok p w : packet_ok p -> pool_ok w -> pool_ok (packet_free p w).
Proof.
  unfold pool_ok, packet_free. rewrite free_set_free. intros. by constructor.
Qed.

(** A freed packet is the next one allocated, with its fields reset and its
    payload bytes as they were left. *)
Lemma packet_free_alloc p w :
  packet_alloc (packet_free p w) =
    (mkPacket 0 (-1) (p_data p), set_free_packets (free_packets w) w).
Proof.
  unfold packet_alloc, packet_free. by rewrite free_set_free, set_free_set.
Qed.
End Pool.

Create HintDb qemud.
#[export] Hint Resolve packet_free_ok : qemud.
