(* ===== verification/QemudSerial.v ===== *)
(** * qemud: framing on the serial port

    Models the "SERIAL CONNECTION STATE" part of [src/emulator/qemud/qemud.c]:
    [serial_fd_receive], which cuts the byte stream of the serial port into
    packets, and [serial_send], which frames a packet.  The receiver the serial
    object posts to and the output queue it writes to are parameters, so the
    multiplexer instantiates them with its own handlers.

    The reference is [serial_byte], an automaton that consumes one byte at a
    time; [serial_fd_receive] is proved equal to folding it over the chunk. *)
From S2P Require Import Prelude QemudPacket.
Local Open Scope Z_scope.

Definition HEADER_SIZE : Z := 6.
Definition CHANNEL_OFFSET : nat := 0.
Definition LENGTH_OFFSET : nat := 2.
Definition CHANNEL_SIZE : nat := 2.
Definition LENGTH_SIZE : nat := 4.
Definition CHANNEL_CONTROL : Z := 0.

(** The input half of [struct Serial]; [fdhandler] and [receiver] are the
    parameters [enqueue] and [post] below. *)
Record Serial : Type := mkSerial {
  in_len : Z;
  in_datalen : Z;
  in_channel : Z;
  in_packet : Packet
}.

Section Serial.
Context {W : Type} {Pool : PacketPool W} {Laws : PacketPoolLaws W}.
(** [receiver_post (s->receiver, p)] and [fdhandler_enqueue (s->fdhandler, p)]. *)
Context (post : Packet -> W -> result W).
Context (enqueue : Packet -> W -> result W).

(** Lines 1112-1124: a header is complete, extract size and channel. *)
Definition parse_header (inp : Packet) : Z * Z :=
  let datalen := Hex.hex2int (slice (p_data inp) LENGTH_OFFSET LENGTH_SIZE) in
  let channel := Hex.hex2int (slice (p_data inp) CHANNEL_OFFSET CHANNEL_SIZE) in
  (if datalen <=? 0 then 0 else datalen, channel).

(** Lines 1137-1149: a payload is complete, post it unless its channel is
    malformed; a posted packet is replaced by a new one. *)
Definition packet_done (inp : Packet) (inpos channel : Z) (w : W)
    : result (Packet * W) :=
  if channel <? 0 then Ok (inp, w)
  else
    let inp := set_p_channel channel (set_p_len inpos inp) in
    w ← post inp w;
    Ok (packet_alloc w).

Fixpoint serial_loop (fuel : nat) (s : Serial) (p : Packet) (inpos rpos : Z) (w : W)
    : result (Serial * W) :=
  if negb (rpos <? p_len p)
  then Ok (mkSerial inpos (in_datalen s) (in_channel s) (in_packet s), w)
  else
    match fuel with
    | O => Err OutOfFuel
    | S fuel =>
        let avail := p_len p - rpos in
        if in_datalen s =? 0 then
          let wanted := HEADER_SIZE - inpos in
          let avail := if avail >? wanted then wanted else avail in
          src ← read_block (p_data p) rpos avail;
          data ← write_block (p_data (in_packet s)) inpos src;
          let inp := set_p_data data (in_packet s) in
          let inpos := inpos + avail in
          let rpos := rpos + avail in
          if inpos =? HEADER_SIZE then
            let hd := parse_header inp in
            serial_loop fuel (mkSerial (in_len s) hd.1 hd.2 inp) p 0 rpos w
          else
            serial_loop fuel
              (mkSerial (in_len s) (in_datalen s) (in_channel s) inp) p inpos rpos w
        else
          let wanted := in_datalen s - inpos in
          let avail := if avail >? wanted then wanted else avail in
          src ← read_block (p_data p) rpos avail;
          data ← write_block (p_data (in_packet s)) inpos src;
          let inp := set_p_data data (in_packet s) in
          let inpos := inpos + avail in
          let rpos := rpos + avail in
          if inpos =? in_datalen s then
            r ← packet_done inp inpos (in_channel s) w;
            serial_loop fuel (mkSerial (in_len s) 0 (in_channel s) r.1) p 0 rpos r.2
          else
            serial_loop fuel
              (mkSerial (in_len s) (in_datalen s) (in_channel s) inp) p inpos rpos w
    end.

Definition serial_fd_receive (s : Serial) (p : Packet) (w : W) : result (Serial * W) :=
  r ← serial_loop (Z.to_nat (p_len p)) s p (in_len s) 0 w;
  Ok (r.1, packet_free p r.2).

Definition serial_send (p : Packet) (w : W) : result W :=
  let '(h, w) := packet_alloc w in
  let h := set_p_len HEADER_SIZE h in
  d ← write_block (p_data h) (Z.of_nat LENGTH_OFFSET) (Hex.int2hex (p_len p) LENGTH_SIZE);
  d ← write_block d (Z.of_nat CHANNEL_OFFSET) (Hex.int2hex (p_channel p) CHANNEL_SIZE);
  w ← enqueue (set_p_data d h) w;
  enqueue p w.

(** [serial_init], the fields it sets. *)
Definition serial_init (w : W) : Serial * W :=
  let '(p, w) := packet_alloc w in (mkSerial 0 0 0 p, w).

(** ** The reference automaton: one byte at a time *)
Definition serial_byte (sw : Serial * W) (b : Z) : result (Serial * W) :=
  let '(s, w) := sw in
  data ← write_block (p_data (in_packet s)) (in_len s) [b];
  let inp := set_p_data data (in_packet s) in
  let inpos := in_len s + 1 in
  if in_datalen s =? 0 then
    if inpos =? HEADER_SIZE then
      let hd := parse_header inp in Ok (mkSerial 0 hd.1 hd.2 inp, w)
    else Ok (mkSerial inpos 0 (in_channel s) inp, w)
  else
    if inpos =? in_datalen s then
      r ← packet_done inp inpos (in_channel s) w;
      Ok (mkSerial 0 0 (in_channel s) r.1, r.2)
    else Ok (mkSerial inpos (in_datalen s) (in_channel s) inp, w).

(** Between two bytes: the bytes still expected are at least one. *)
Definition serial_ok (s : Serial) : Prop :=
  0 <= in_datalen s /\ 0 <= in_len s /\
  in_len s < (if in_datalen s =? 0 then HEADER_SIZE else in_datalen s).

Definition wanted_of (s : Serial) : Z :=
  (if in_datalen s =? 0 then HEADER_SIZE else in_datalen s) - in_len s.

Lemma serial_init_ok w : serial_ok (serial_init w).1.
Proof.
  unfold serial_init, serial_ok. destruct (packet_alloc w). simpl.
  unfold HEADER_SIZE. lia.
Qed.

Lemma parse_header_nonneg inp : 0 <= (parse_header inp).1.
Proof. unfold parse_header; simpl. destruct (_ <=? 0) eqn:E; lia. Qed.

Lemma serial_ok_fresh dl ch inp : 0 <= dl -> serial_ok (mkSerial 0 dl ch inp).
Proof.
  unfold serial_ok, HEADER_SIZE; simpl. intros. destruct (dl =? 0) eqn:E; lia.
Qed.

Lemma serial_byte_ok s w b s' w' :
  serial_ok s -> serial_byte (s, w) b = Ok (s', w') -> serial_ok s'.
Proof.
  unfold serial_ok, serial_byte. intros (Hd & Hl & Hw) H.
  apply bind_ok in H as (data & _ & H).
  destruct (in_datalen s =? 0) eqn:E0.
  - destruct (in_len s + 1 =? HEADER_SIZE) eqn:E1.
    + pose proof (parse_header_nonneg (set_p_data data (in_packet s))) as Hp.
      destruct (parse_header _) as [dl ch]. injection H as <- <-.
      by apply serial_ok_fresh.
    + injection H as <- <-. simpl. apply Z.eqb_neq in E1. unfold HEADER_SIZE in *. lia.
  - destruct (in_len s + 1 =? in_datalen s) eqn:E1.
    + apply bind_ok in H as (r & _ & H). injection H as <- <-. by apply serial_ok_fresh.
    + injection H as <- <-; simpl. rewrite E0. apply Z.eqb_neq in E1. lia.
Qed.

Definition serial_advance (s : Serial) (n : Z) (d : list Z) : Serial :=
  mkSerial (in_len s + n) (in_datalen s) (in_channel s) (set_p_data d (in_packet s)).

Lemma serial_byte_partial s w b :
  1 < wanted_of s ->
  serial_byte (s, w) b =
    (d ← write_block (p_data (in_packet s)) (in_len s) [b];
     Ok (serial_advance s 1 d, w)).
Proof.
  unfold serial_byte, wanted_of, serial_advance. intros Hw.
  destruct (write_block _ _ _) as [d|]; simpl; [|done].
  destruct (in_datalen s =? 0) eqn:E0.
  - destruct (in_len s + 1 =? HEADER_SIZE) eqn:E1; [lia|].
    apply Z.eqb_eq in E0. by rewrite E0.
  - destruct (in_len s + 1 =? in_datalen s) eqn:E1; [lia|]. done.
Qed.

Lemma serial_advance_ok s n d :
  serial_ok s -> 0 <= n < wanted_of s -> serial_ok (serial_advance s n d).
Proof. unfold serial_ok, wanted_of, serial_advance; simpl. lia. Qed.

(** A run of bytes that does not complete what is expected is one copy. *)
Lemma serial_bytes_partial bs s w :
  serial_ok s -> bs <> [] -> Z.of_nat (length bs) < wanted_of s ->
  foldM serial_byte (s, w) bs =
    (d ← write_block (p_data (in_packet s)) (in_len s) bs;
     Ok (serial_advance s (Z.of_nat (length bs)) d, w)).
Proof.
  revert s; induction bs as [|b bs IH]; intros s Hok Hne Hn; [done|].
  simpl length in Hn. cbn [foldM]. rewrite serial_byte_partial by lia.
  destruct bs as [|b' bs].
  { by destruct (write_block _ _ _). }
  rewrite (write_block_cons _ _ b (b' :: bs)) by (destruct Hok; lia).
  destruct (write_block (p_data (in_packet s)) (in_len s) [b]) as [d|e] eqn:Hwb;
    cbn [mbind result_bind]; [|done].
  rewrite IH; [|apply serial_advance_ok; [done|lia]|done|unfold wanted_of in *; simpl in *; lia].
  unfold serial_advance; simpl. destruct (write_block d _ _); simpl; [|done].
  do 3 f_equal. lia.
Qed.

(** What happens once the [wanted_of s] bytes expected have been copied. *)
Definition serial_complete (s : Serial) (d : list Z) (w : W) : result (Serial * W) :=
  let inp := set_p_data d (in_packet s) in
  if in_datalen s =? 0 then
    Ok (mkSerial 0 (parse_header inp).1 (parse_header inp).2 inp, w)
  else
    r ← packet_done inp (in_datalen s) (in_channel s) w;
    Ok (mkSerial 0 0 (in_channel s) r.1, r.2).

Lemma serial_byte_last s w b :
  wanted_of s = 1 ->
  serial_byte (s, w) b =
    (d ← write_block (p_data (in_packet s)) (in_len s) [b]; serial_complete s d w).
Proof.
  unfold serial_byte, wanted_of, serial_complete. intros Hw.
  destruct (write_block _ _ _) as [d|]; cbn [mbind result_bind]; [|done].
  destruct (in_datalen s =? 0) eqn:E0.
  - by replace (in_len s + 1) with HEADER_SIZE by lia.
  - replace (in_len s + 1) with (in_datalen s) by lia. by rewrite Z.eqb_refl.
Qed.

Lemma serial_bytes_complete bs s w :
  serial_ok s -> Z.of_nat (length bs) = wanted_of s ->
  foldM serial_byte (s, w) bs =
    (d ← write_block (p_data (in_packet s)) (in_len s) bs; serial_complete s d w).
Proof.
  intros Hok Hn. destruct bs as [|b bs _] using rev_ind.
  { destruct Hok as (?&?&?). unfold wanted_of in Hn. simpl in Hn. lia. }
  rewrite length_app in Hn; simpl in Hn.
  destruct bs as [|b' bs].
  { simpl app. rewrite foldM_one. apply serial_byte_last. simpl in Hn; lia. }
  rewrite foldM_app, serial_bytes_partial by (done || lia).
  rewrite write_block_app by (destruct Hok; lia).
  destruct (write_block _ _ (b' :: bs)) as [d|]; cbn [mbind result_bind]; [|done].
  rewrite foldM_one, serial_byte_last; [done|].
  unfold wanted_of, serial_advance in *; simpl in *; lia.
Qed.

(** The chunk [serial_fd_receive] still has to look at. *)
Definition remaining (p : Packet) (rpos : Z) : list Z :=
  slice (p_data p) (Z.to_nat rpos) (Z.to_nat (p_len p - rpos)).

Definition at_pos (s : Serial) (inpos : Z) : Serial :=
  mkSerial inpos (in_datalen s) (in_channel s) (in_packet s).

Lemma read_remaining p rpos n :
  0 <= rpos -> 0 <= n <= p_len p - rpos -> p_len p <= Z.of_nat (length (p_data p)) ->
  read_block (p_data p) rpos n = Ok (take (Z.to_nat n) (remaining p rpos)) /\
  remaining p rpos = take (Z.to_nat n) (remaining p rpos) ++ remaining p (rpos + n) /\
  length (take (Z.to_nat n) (remaining p rpos)) = Z.to_nat n.
Proof.
  intros Hr Hn Hp. unfold read_block, remaining, slice.
  rewrite decide_True by lia. rewrite take_take, Nat.min_l by lia.
  split; [done|]. split.
  - rewrite <- (take_drop (Z.to_nat n) (take _ _)) at 1.
    rewrite take_take, Nat.min_l by lia. f_equal.
    rewrite skipn_firstn_comm, drop_drop. f_equal; [lia|]. f_equal. lia.
  - rewrite length_take, length_drop. lia.
Qed.

(** The loop is the fold of the automaton over what remains of the chunk. *)
Lemma serial_loop_fold fuel s p inpos rpos w :
  serial_ok (at_pos s inpos) -> 0 <= rpos ->
  p_len p <= Z.of_nat (length (p_data p)) -> p_len p - rpos <= Z.of_nat fuel ->
  serial_loop fuel s p inpos rpos w =
    foldM serial_byte (at_pos s inpos, w) (remaining p rpos).
Proof.
  revert s inpos rpos w; induction fuel as [|fuel IH]; intros s inpos rpos w Hok Hr Hp Hf;
    cbn [serial_loop].
  all: destruct (rpos <? p_len p) eqn:Hlt; cbn [negb];
    [|unfold remaining; by replace (Z.to_nat (p_len p - rpos)) with O by lia].
  { lia. }
  set (wanted := wanted_of (at_pos s inpos)).
  assert (Hw : 0 < wanted).
  { unfold wanted, wanted_of. destruct Hok as (?&?&?). simpl in *. lia. }
  set (n := if p_len p - rpos >? wanted then wanted else p_len p - rpos).
  assert (Hn : 0 < n <= p_len p - rpos /\ n <= wanted) by (unfold n; destruct (_ >? _) eqn:?; lia).
  destruct (read_remaining p rpos n) as (Hrd & Hsplit & Hlen); [lia..|].
  rewrite Hsplit, foldM_app.
  set (src := take (Z.to_nat n) (remaining p rpos)) in *.
  assert (Hdone : n = wanted \/ n < wanted) by lia.
  destruct Hdone as [Hdone|Hpart].
  - rewrite serial_bytes_complete by (done || lia).
    unfold serial_complete, wanted, wanted_of, at_pos in *; simpl in *.
    destruct (in_datalen s =? 0) eqn:E0.
    + fold n. rewrite Hrd. cbn [mbind result_bind].
      destruct (write_block _ _ _) as [d|]; cbn [mbind result_bind]; [|done].
      replace (inpos + n =? HEADER_SIZE) with true by lia.
      apply IH; [|lia..]. apply serial_ok_fresh.
      apply (parse_header_nonneg (set_p_data d (in_packet s))).
    + fold n. rewrite Hrd. cbn [mbind result_bind].
      destruct (write_block _ _ _) as [d|]; cbn [mbind result_bind]; [|done].
      replace (inpos + n) with (in_datalen s) by lia. rewrite Z.eqb_refl.
      destruct (packet_done _ _ _ _) as [[q w']|]; cbn [mbind result_bind]; [|done].
      apply IH; [|lia..]. by apply serial_ok_fresh.
  - rewrite serial_bytes_partial; [|done| |lia].
    2:{ intros Hnil. rewrite Hnil in Hlen. simpl in Hlen. lia. }
    rewrite Hlen.
    unfold serial_advance, wanted, wanted_of, at_pos in *; simpl in *.
    destruct (in_datalen s =? 0) eqn:E0.
    + fold n. rewrite Hrd. cbn [mbind result_bind].
      destruct (write_block _ _ _) as [d|]; cbn [mbind result_bind]; [|done].
      replace (inpos + n =? HEADER_SIZE) with false by lia.
      rewrite Z2Nat.id by lia. apply IH; [|lia..].
      unfold serial_ok, at_pos in *; simpl in *. rewrite E0 in *. lia.
    + fold n. rewrite Hrd. cbn [mbind result_bind].
      destruct (write_block _ _ _) as [d|]; cbn [mbind result_bind]; [|done].
      replace (inpos + n =? in_datalen s) with false by lia.
      rewrite Z2Nat.id by lia. apply IH; [|lia..].
      unfold serial_ok, at_pos in *; simpl in *. rewrite E0 in *. lia.
Qed.

Lemma serial_loop_receive s p w :
  serial_ok s -> 0 <= p_len p <= Z.of_nat (length (p_data p)) ->
  serial_loop (Z.to_nat (p_len p)) s p (in_len s) 0 w =
    foldM serial_byte (s, w) (payload p).
Proof.
  intros Hok Hp. rewrite serial_loop_fold; [|by destruct s|lia..].
  unfold remaining, payload, slice. rewrite drop_0, Z.sub_0_r. by destruct s.
Qed.

Lemma serial_fold_ok bs s w s' w' :
  serial_ok s -> foldM serial_byte (s, w) bs = Ok (s', w') -> serial_ok s'.
Proof.
  intros Hok H.
  apply (foldM_ind serial_byte (fun sw => serial_ok sw.1) bs (s, w) (s', w')); [|done|done].
  intros [s1 w1] b [s2 w2] _ ??. by eapply serial_byte_ok.
Qed.
End Serial.

(** ** The abstract decoder and the frames it accepts *)

Inductive dstate : Type :=
  | InHeader (buf : list Z)
  | InBody (channel len : Z) (buf : list Z).

Definition message : Type := Z * list Z.

Definition decode_byte (st : dstate) (b : Z) : dstate * list message :=
  match st with
  | InHeader buf =>
      let buf := buf ++ [b] in
      if decide (length buf = 6)%nat then
        let n := Hex.hex2int (slice buf LENGTH_OFFSET LENGTH_SIZE) in
        let ch := Hex.hex2int (slice buf CHANNEL_OFFSET CHANNEL_SIZE) in
        (if n <=? 0 then InHeader [] else InBody ch n [], [])
      else (InHeader buf, [])
  | InBody ch n buf =>
      let buf := buf ++ [b] in
      if decide (Z.of_nat (length buf) = n)
      then (InHeader [], if ch <? 0 then [] else [(ch, buf)])
      else (InBody ch n buf, [])
  end.

Fixpoint decode (st : dstate) (bs : list Z) : dstate * list message :=
  match bs with
  | [] => (st, [])
  | b :: bs =>
      let '(st1, m1) := decode_byte st b in
      let '(st2, m2) := decode st1 bs in (st2, m1 ++ m2)
  end.

(** The announced sizes met while decoding never exceed a packet. *)
Definition fits (st : dstate) : Prop :=
  match st with InHeader _ => True | InBody _ n _ => n <= Z.of_nat MAX_PAYLOAD end.

Fixpoint decode_fits (st : dstate) (bs : list Z) : Prop :=
  match bs with
  | [] => fits st
  | b :: bs => fits st /\ decode_fits (decode_byte st b).1 bs
  end.

(** A frame on the wire: what [serial_send] writes for a message. *)
Definition frame (m : message) : list Z :=
  Hex.int2hex m.1 CHANNEL_SIZE ++ Hex.int2hex (Z.of_nat (length m.2)) LENGTH_SIZE ++ m.2.

#[global] Arguments frame : simpl never.

Definition message_ok (m : message) : Prop :=
  0 <= m.1 < 256 /\ 0 < Z.of_nat (length m.2) <= Z.of_nat MAX_PAYLOAD.

Lemma decode_app st bs1 bs2 :
  decode st (bs1 ++ bs2) =
    let '(st1, m1) := decode st bs1 in
    let '(st2, m2) := decode st1 bs2 in (st2, m1 ++ m2).
Proof.
  revert st; induction bs1 as [|b bs1 IH]; intros st; simpl.
  { by destruct (decode st bs2). }
  destruct (decode_byte st b) as [st1 m1]. rewrite IH.
  destruct (decode st1 bs1) as [st2 m2]. destruct (decode st2 bs2).
  by rewrite app_assoc.
Qed.

Lemma decode_body ch n buf bs :
  0 <= ch -> Z.of_nat (length buf + length bs) = n -> bs <> [] ->
  decode (InBody ch n buf) bs = (InHeader [], [(ch, buf ++ bs)]).
Proof.
  intros Hch; revert buf; induction bs as [|b bs IH]; intros buf Hn Hne; [done|].
  simpl. rewrite length_app. simpl in *. case_decide as Hd.
  - destruct bs; [|simpl in *; lia]. simpl.
    destruct (ch <? 0) eqn:?; [lia|]. done.
  - rewrite IH; [by rewrite <-app_assoc|rewrite length_app; simpl; lia|].
    intros ->. simpl in *. lia.
Qed.

Lemma decode_fits_body ch n buf bs rest :
  Z.of_nat (length buf + length bs) = n -> bs <> [] -> n <= Z.of_nat MAX_PAYLOAD ->
  decode_fits (InHeader []) rest ->
  decode_fits (InBody ch n buf) (bs ++ rest).
Proof.
  revert buf; induction bs as [|b bs IH]; intros buf Hn Hne Hfit Hrest; [done|].
  simpl. rewrite length_app. simpl in *. split; [done|]. case_decide as Hd.
  - destruct bs; [|simpl in *; lia]. done.
  - apply IH; [rewrite length_app; simpl; lia| |done|done].
    intros ->. simpl in *. lia.
Qed.

(** The six header bytes, split off one by one. *)
Lemma frame_header m :
  message_ok m ->
  exists c0 c1 l0 l1 l2 l3,
    frame m = [c0; c1; l0; l1; l2; l3] ++ m.2 /\
    Hex.hex2int [c0; c1] = m.1 /\
    Hex.hex2int [l0; l1; l2; l3] = Z.of_nat (length m.2).
Proof.
  intros [Hch Hlen]. unfold frame, CHANNEL_SIZE, LENGTH_SIZE.
  pose proof (Hex.hex2int_int2hex_mod m.1 2 ltac:(lia) ltac:(lia)) as Hc.
  pose proof (Hex.hex2int_int2hex_mod (Z.of_nat (length m.2)) 4 ltac:(lia) ltac:(lia)) as Hl.
  rewrite Z.mod_small in Hc by (simpl; lia).
  rewrite Z.mod_small in Hl by (unfold MAX_PAYLOAD in *; simpl; lia).
  do 6 eexists. split; [reflexivity|]. split; [exact Hc|exact Hl].
Qed.

Lemma decode_frame m rest :
  message_ok m ->
  decode (InHeader []) (frame m ++ rest) =
    let '(st, ms) := decode (InHeader []) rest in (st, m :: ms).
Proof.
  intros Hm. destruct (frame_header m Hm) as (c0 & c1 & l0 & l1 & l2 & l3 & -> & Hc & Hl).
  destruct Hm as [Hch Hlen]. rewrite <-app_assoc. simpl.
  unfold slice, LENGTH_OFFSET, LENGTH_SIZE, CHANNEL_OFFSET, CHANNEL_SIZE. simpl.
  rewrite Hc, Hl. destruct (_ <=? 0) eqn:?; [lia|].
  rewrite decode_app, decode_body; [|lia|done|intros H; rewrite H in Hlen; simpl in Hlen; lia].
  destruct (decode _ rest). by destruct m.
Qed.

Lemma decode_fits_frame m rest :
  message_ok m -> decode_fits (InHeader []) rest ->
  decode_fits (InHeader []) (frame m ++ rest).
Proof.
  intros Hm Hrest.
  destruct (frame_header m Hm) as (c0 & c1 & l0 & l1 & l2 & l3 & -> & Hc & Hl).
  destruct Hm as [Hch Hlen]. rewrite <-app_assoc. simpl.
  unfold slice, LENGTH_OFFSET, LENGTH_SIZE, CHANNEL_OFFSET, CHANNEL_SIZE. simpl.
  rewrite Hc, Hl. destruct (_ <=? 0) eqn:?; [lia|].
  repeat split. apply decode_fits_body; [done| |lia|done].
  intros H; rewrite H in Hlen; simpl in Hlen; lia.
Qed.

Lemma decode_frames ms :
  Forall message_ok ms -> decode (InHeader []) (concat (map frame ms)) = (InHeader [], ms).
Proof.
  induction 1 as [|m ms Hm _ IH]; [done|]. cbn [map concat].
  by rewrite decode_frame, IH.
Qed.

Lemma decode_fits_frames ms :
  Forall message_ok ms -> decode_fits (InHeader []) (concat (map frame ms)).
Proof. induction 1; cbn [map concat]; [done|]. by apply decode_fits_frame. Qed.

(** ** Refinement: the automaton implements the decoder

    What the serial code needs to know of the receiver it posts to.
    [world_ok] is the invariant of the receiver's world, [after w ms w'] says
    that [w'] is [w] after the messages [ms] have been posted. *)
Class ReceiverSpec (W : Type) `{PacketPool W} (post : Packet -> W -> result W) : Type := {
  world_ok : W -> Prop;
  after : W -> list message -> W -> Prop;
  world_ok_pool : forall w, world_ok w -> pool_ok w;
  world_ok_set : forall l w, world_ok w -> Forall packet_ok l -> world_ok (set_free_packets l w);
  after_refl : forall w, after w [] w;
  after_set : forall l w, after w [] (set_free_packets l w);
  after_trans : forall w1 ms1 w2 ms2 w3,
    after w1 ms1 w2 -> after w2 ms2 w3 -> after w1 (ms1 ++ ms2) w3;
  post_spec : forall p w, packet_ok p -> 0 < p_len p <= Z.of_nat MAX_PAYLOAD -> world_ok w ->
    exists w', post p w = Ok w' /\ world_ok w' /\ after w [(p_channel p, payload p)] w'
}.

Section Refinement.
Context {W : Type} {Pool : PacketPool W} {Laws : PacketPoolLaws W}.
Context (post : Packet -> W -> result W) {Spec : ReceiverSpec W post}.

(** The buffered bytes of the decoder are the first [in_len] of the packet. *)
Definition refines (st : dstate) (s : Serial) (w : W) : Prop :=
  packet_ok (in_packet s) /\ world_ok w /\
  match st with
  | InHeader buf =>
      in_datalen s = 0 /\ in_len s = Z.of_nat (length buf) /\ (length buf < 6)%nat /\
      take (length buf) (p_data (in_packet s)) = buf
  | InBody ch n buf =>
      in_datalen s = n /\ in_channel s = ch /\ in_len s = Z.of_nat (length buf) /\
      0 < n /\ Z.of_nat (length buf) < n /\
      take (length buf) (p_data (in_packet s)) = buf
  end.

(** Allocation and release keep the receiver's invariant and post nothing. *)
Lemma packet_alloc_world w p w' :
  world_ok w -> packet_alloc w = (p, w') -> packet_ok p /\ world_ok w' /\ after w [] w'.
Proof.
  intros Hw Ha. pose proof (packet_alloc_ok w p w' (world_ok_pool w Hw) Ha) as [Hp _].
  split; [done|]. unfold packet_alloc in Ha.
  pose proof (world_ok_pool w Hw) as Hpool. unfold pool_ok in Hpool.
  destruct (free_packets w) as [|q rest]; injection Ha as _ <-.
  - split; [done|apply after_refl].
  - apply Forall_cons in Hpool as [_ ?]. split; [by apply world_ok_set|apply after_set].
Qed.

Lemma packet_free_world p w :
  world_ok w -> packet_ok p -> world_ok (packet_free p w) /\ after w [] (packet_free p w).
Proof.
  intros Hw Hp. unfold packet_free. split; [|apply after_set].
  apply world_ok_set; [done|]. constructor; [done|]. by apply world_ok_pool.
Qed.

Lemma after_nil_l w1 w2 ms w3 : after w1 [] w2 -> after w2 ms w3 -> after w1 ms w3.
Proof. apply (after_trans w1 [] w2 ms w3). Qed.

Lemma after_nil_r w1 ms w2 w3 : after w1 ms w2 -> after w2 [] w3 -> after w1 ms w3.
Proof. intros H1 H2. rewrite <-(app_nil_r ms). by eapply after_trans. Qed.

Lemma refines_init w : world_ok w ->
  refines (InHeader []) (serial_init w).1 (serial_init w).2 /\
  after w [] (serial_init w).2.
Proof.
  intros Hw. unfold serial_init. destruct (packet_alloc w) as [p w'] eqn:Ha.
  apply packet_alloc_world in Ha as (? & ? & ?); [|done].
  split; [|done]. unfold refines; simpl. repeat split; auto; lia.
Qed.

Lemma refines_serial_ok st s w : refines st s w -> serial_ok s.
Proof.
  unfold refines, serial_ok, HEADER_SIZE. intros (_ & _ & H). destruct st.
  - destruct H as (-> & -> & ? & ?). simpl. lia.
  - destruct H as (-> & ? & -> & ? & ? & ?). destruct (_ =? 0) eqn:?; lia.
Qed.

Lemma slice_take {A} (l : list A) off len n :
  (off + len <= n)%nat -> slice (take n l) off len = slice l off len.
Proof.
  intros. unfold slice. rewrite skipn_firstn_comm, take_take. f_equal. lia.
Qed.

(** The byte lands right after the buffered ones. *)
Lemma write_next (p : Packet) buf b :
  packet_ok p -> (length buf < MAX_PAYLOAD)%nat -> take (length buf) (p_data p) = buf ->
  exists d, write_block (p_data p) (Z.of_nat (length buf)) [b] = Ok d /\
    length d = MAX_PAYLOAD /\ take (length (buf ++ [b])) d = buf ++ [b].
Proof.
  intros Hp Hlt Hbuf. unfold packet_ok in Hp.
  destruct (write_block (p_data p) (Z.of_nat (length buf)) [b]) as [d|] eqn:Hw.
  - exists d. split; [done|]. split; [by apply write_block_length in Hw as ->|].
    apply write_block_take in Hw. rewrite Nat2Z.id, Hbuf in Hw.
    by rewrite length_app.
  - rewrite write_block_ok in Hw by (simpl; lia). done.
Qed.

Lemma packet_done_posts p n ch w buf :
  packet_ok p -> world_ok w -> n = Z.of_nat (length buf) -> 0 < n <= Z.of_nat MAX_PAYLOAD ->
  take (length buf) (p_data p) = buf ->
  exists q w', packet_done post p n ch w = Ok (q, w') /\ packet_ok q /\ world_ok w' /\
    after w (if ch <? 0 then [] else [(ch, buf)]) w'.
Proof.
  intros Hp Hw Hn Hb Hbuf. unfold packet_done. destruct (ch <? 0) eqn:Hc.
  { exists p, w. split_and!; [done..|apply after_refl]. }
  destruct (post_spec (set_p_channel ch (set_p_len n p)) w)
    as (w1 & -> & Hw1 & Haft); [done..|]. simpl.
  destruct (packet_alloc w1) as [q w2] eqn:Ha.
  apply packet_alloc_world in Ha as (Hq & Hw2 & Ha2); [|done].
  exists q, w2. split_and!; [done..|]. eapply after_nil_r; [|done].
  unfold payload in Haft; simpl in Haft. by rewrite Hn, Nat2Z.id, Hbuf in Haft.
Qed.

Lemma serial_byte_refines st s w b :
  refines st s w -> fits st ->
  exists s' w', serial_byte post (s, w) b = Ok (s', w') /\
    refines (decode_byte st b).1 s' w' /\
    after w (decode_byte st b).2 w'.
Proof.
  intros (Hp & Hw & Hst) Hfit. unfold serial_byte. destruct st as [buf|ch n buf].
  - destruct Hst as (Hdl & Hil & Hlt & Hbuf). rewrite Hil.
    destruct (write_next (in_packet s) buf b) as (d & -> & Hd & Hbuf');
      [done|unfold MAX_PAYLOAD; lia|done|].
    cbn [mbind result_bind]. rewrite Hdl. cbn [Z.eqb]. simpl decode_byte.
    pose proof (length_app buf [b]) as Hl. simpl in Hl.
    case_decide as H6.
    + replace (Z.of_nat (length buf) + 1 =? HEADER_SIZE) with true
        by (unfold HEADER_SIZE; lia).
      eexists _, _. split; [reflexivity|]. split; [|apply after_refl].
      unfold parse_header. cbn [set_p_data p_data fst snd].
      rewrite H6 in Hbuf'.
      rewrite <-(slice_take d LENGTH_OFFSET LENGTH_SIZE 6) by (cbv; lia).
      rewrite <-(slice_take d CHANNEL_OFFSET CHANNEL_SIZE 6) by (cbv; lia).
      rewrite Hbuf'. destruct (_ <=? 0) eqn:Hn; unfold refines; simpl.
      * repeat split; auto. lia.
      * apply Z.leb_gt in Hn. repeat split; auto.
    + replace (Z.of_nat (length buf) + 1 =? HEADER_SIZE) with false
        by (unfold HEADER_SIZE; lia).
      eexists _, _. split; [reflexivity|]. split; [|apply after_refl].
      unfold refines; simpl. repeat split; auto; lia.
  - destruct Hst as (Hdl & Hch & Hil & Hn & Hlt & Hbuf). rewrite Hil.
    simpl in Hfit.
    destruct (write_next (in_packet s) buf b) as (d & -> & Hd & Hbuf'); [done|lia|done|].
    cbn [mbind result_bind]. rewrite Hdl, Hch.
    replace (n =? 0) with false by lia. simpl decode_byte.
    pose proof (length_app buf [b]) as Hl. simpl in Hl.
    case_decide as Hend.
    + replace (Z.of_nat (length buf) + 1 =? n) with true by lia.
      destruct (packet_done_posts (set_p_data d (in_packet s))
        (Z.of_nat (length buf) + 1) ch w (buf ++ [b]))
        as (q & w' & -> & Hq & Hw' & Hobs); [done|done|lia|lia|done|].
      eexists _, _. split; [reflexivity|]. split; [|done].
      unfold refines; simpl. repeat split; auto; lia.
    + replace (Z.of_nat (length buf) + 1 =? n) with false by lia.
      eexists _, _. split; [reflexivity|]. split; [|apply after_refl].
      unfold refines; simpl. repeat split; auto; lia.
Qed.

Lemma serial_fold_refines bs st s w :
  refines st s w -> decode_fits st bs ->
  exists s' w', foldM (serial_byte post) (s, w) bs = Ok (s', w') /\
    refines (decode st bs).1 s' w' /\
    after w (decode st bs).2 w'.
Proof.
  revert st s w; induction bs as [|b bs IH]; intros st s w Hr Hf.
  { exists s, w. split_and!; [done..|apply after_refl]. }
  destruct Hf as [Hfit Hf].
  destruct (serial_byte_refines st s w b Hr Hfit) as (s1 & w1 & Hb & Hr1 & Ho1).
  cbn [foldM decode]. rewrite Hb. cbn [mbind result_bind].
  destruct (decode_byte st b) as [st1 m1]. simpl in *.
  destruct (IH st1 s1 w1 Hr1 Hf) as (s2 & w2 & -> & Hr2 & Ho2).
  destruct (decode st1 bs) as [st2 m2]. simpl in *.
  exists s2, w2. split; [done|]. split; [done|].
  by eapply after_trans.
Qed.

Definition chunk_ok (p : Packet) : Prop :=
  packet_ok p /\ 0 <= p_len p <= Z.of_nat MAX_PAYLOAD.

(** One chunk read from the serial port, as the decoder sees it. *)
Lemma serial_fd_receive_refines st s w p :
  refines st s w -> chunk_ok p -> decode_fits st (payload p) ->
  exists s' w', serial_fd_receive post s p w = Ok (s', w') /\
    refines (decode st (payload p)).1 s' w' /\
    after w (decode st (payload p)).2 w'.
Proof.
  intros Hr [Hp Hlen] Hf. unfold packet_ok in Hp. unfold serial_fd_receive.
  rewrite serial_loop_receive by (lia || eauto using refines_serial_ok).
  destruct (serial_fold_refines (payload p) st s w Hr Hf) as (s' & w' & -> & Hr' & Ho).
  simpl. exists s', (packet_free p w'). split; [done|].
  destruct Hr' as (? & Hw' & ?). destruct (packet_free_world p w' Hw' Hp).
  split; [by split_and!|]. by eapply after_nil_r.
Qed.

(** Successive chunks. *)
Definition serial_receive_all (s : Serial) (chunks : list Packet) (w : W)
    : result (Serial * W) :=
  foldM (fun sw p => serial_fd_receive post sw.1 p sw.2) (s, w) chunks.

Lemma decode_fits_app st bs1 bs2 :
  decode_fits st (bs1 ++ bs2) ->
  decode_fits st bs1 /\ decode_fits (decode st bs1).1 bs2.
Proof.
  revert st; induction bs1 as [|b bs1 IH]; intros st; simpl.
  { intros H. split; [|done]. destruct bs2; [done|by destruct H]. }
  intros [Hf H]. apply IH in H as [??].
  destruct (decode_byte st b) as [st1 m1]. simpl in *.
  by destruct (decode st1 bs1).
Qed.

Lemma serial_receive_all_refines chunks st s w :
  refines st s w -> Forall chunk_ok chunks ->
  decode_fits st (concat (map payload chunks)) ->
  exists s' w', serial_receive_all s chunks w = Ok (s', w') /\
    refines (decode st (concat (map payload chunks))).1 s' w' /\
    after w (decode st (concat (map payload chunks))).2 w'.
Proof.
  unfold serial_receive_all. intros Hr Hc; revert st s w Hr.
  induction Hc as [|p chunks Hp _ IH]; intros st s w Hr Hf.
  { exists s, w. split_and!; [done..|apply after_refl]. }
  cbn [map concat] in *. apply decode_fits_app in Hf as [Hf1 Hf2].
  destruct (serial_fd_receive_refines st s w p Hr Hp Hf1) as (s1 & w1 & Hx & Hr1 & Ho1).
  cbn [foldM fst snd]. rewrite Hx. cbn [mbind result_bind].
  destruct (IH _ _ _ Hr1 Hf2) as (s2 & w2 & -> & Hr2 & Ho2).
  exists s2, w2. split; [done|]. rewrite decode_app.
  destruct (decode st (payload p)) as [st1 m1]. simpl in *.
  destruct (decode st1 _) as [st2 m2]. simpl in *.
  split; [done|]. by eapply after_trans.
Qed.
End Refinement.

(** ** Sending *)
Section Sending.
Context {W : Type} {Pool : PacketPool W} {Laws : PacketPoolLaws W}.
Context (enqueue : Packet -> W -> result W).

(** [serial_send] queues a header and then the packet itself, and the two
    payloads form the frame of the packet. *)
Lemma serial_send_enqueues p w :
  chunk_ok p -> pool_ok w ->
  exists h, packet_ok h /\ p_len h = HEADER_SIZE /\
    serial_send enqueue p w = (w ← enqueue h (packet_alloc w).2; enqueue p w) /\
    payload h ++ payload p = frame (p_channel p, payload p).
Proof.
  intros [Hp Hlen] Hw. unfold serial_send.
  destruct (packet_alloc w) as [h w'] eqn:Ha.
  apply packet_alloc_ok in Ha as [Hh _]; [|done]. unfold packet_ok in *.
  set (l := Hex.int2hex (p_len p) LENGTH_SIZE).
  set (c := Hex.int2hex (p_channel p) CHANNEL_SIZE).
  assert (Hl : length l = 4%nat) by apply Hex.length_int2hex.
  assert (Hc : length c = 2%nat) by apply Hex.length_int2hex.
  unfold LENGTH_OFFSET, CHANNEL_OFFSET, MAX_PAYLOAD in *.
  cbn [p_data set_p_len].
  rewrite write_block_ok by lia.
  cbn [mbind result_bind].
  set (d := take _ (p_data h) ++ l ++ _).
  assert (Hd : length d = 4000%nat).
  { unfold d. rewrite !length_app, length_take, length_drop, Hh. lia. }
  rewrite write_block_ok by lia.
  cbn [mbind result_bind].
  set (d' := take _ d ++ c ++ drop _ d).
  assert (Hd' : length d' = 4000%nat).
  { unfold d'. rewrite !length_app, length_take, length_drop. lia. }
  exists (set_p_data d' (set_p_len HEADER_SIZE h)). split; [done|]. split; [done|].
  split; [done|].
  assert (Hpl : Z.of_nat (length (payload p)) = p_len p).
  { unfold payload. rewrite length_take. lia. }
  unfold frame. cbn [fst snd]. rewrite Hpl. fold l c.
  rewrite app_assoc. f_equal. unfold payload; cbn [p_data p_len set_p_data set_p_len].
  unfold d', d. destruct (p_data h) as [|x0 [|x1 xs]]; [done..|].
  reflexivity.
Qed.
End Sending.

(** ** A world with nothing but the pool and a log of what was posted *)
Module LogWorld.

Record world : Type := mkWorld { lw_free : list Packet; lw_log : list message }.

#[export] Instance pool : PacketPool world := {
  free_packets := lw_free;
  set_free_packets l w := mkWorld l (lw_log w);
  malloc_bytes := replicate MAX_PAYLOAD 0
}.

#[export] Instance pool_laws : PacketPoolLaws world.
Proof.
  split; [done|done|]. apply length_replicate.
Qed.

Definition log_post (p : Packet) (w : world) : result world :=
  Ok (mkWorld (lw_free w) (lw_log w ++ [(p_channel p, payload p)])).

#[export] Instance log : ReceiverSpec world log_post.
Proof.
  refine {| world_ok := pool_ok;
            after w ms w' := lw_log w' = lw_log w ++ ms |}.
  - done.
  - done.
  - intros w. by rewrite app_nil_r.
  - intros l w. simpl. by rewrite app_nil_r.
  - intros w1 ms1 w2 ms2 w3 H1 H2. by rewrite H2, H1, app_assoc.
  - intros p w _ _ Hw. eexists. split; [reflexivity|]. done.
Defined.

Definition empty : world := mkWorld [] [].

(** A chunk as [fd_read] leaves it in a packet. *)
Definition chunk (bs : list Z) : Packet :=
  mkPacket (Z.of_nat (length bs)) (-101) (bs ++ replicate (MAX_PAYLOAD - length bs) 0).

Definition run (chunks : list (list Z)) : result (list message) :=
  let '(s, w) := serial_init empty in
  r ← serial_receive_all log_post s (map chunk chunks) w;
  Ok (lw_log r.2).

End LogWorld.

Import LogWorld.

(** ** Main theorems *)

(** [serial_fd_receive] always terminates, and is the byte automaton run
    over the chunk: however the loop slices the chunk, the state, the packets
    posted and the faults are those of the bytes consumed one at a time. *)
Theorem serial_fd_receive_fold {W : Type} {Pool : PacketPool W} {Laws : PacketPoolLaws W}
    (post : Packet -> W -> result W) (s : Serial) (p : Packet) (w : W) :
  serial_ok s -> 0 <= p_len p <= Z.of_nat (length (p_data p)) ->
  serial_fd_receive post s p w =
    (r ← foldM (serial_byte post) (s, w) (payload p); Ok (r.1, packet_free p r.2)) /\
  (forall s' w', serial_fd_receive post s p w = Ok (s', w') -> serial_ok s').
Proof.
  intros Hok Hp. unfold serial_fd_receive. rewrite serial_loop_receive by done.
  split; [done|]. intros s' w' H. apply bind_ok in H as ([s1 w1] & H & [= <- <-]).
  by eapply serial_fold_ok.
Qed.

Lemma serial_fd_receive_fold_witness :
  serial_fd_receive LogWorld.log_post (serial_init LogWorld.empty).1
      (LogWorld.chunk (bytes "050003abc")) LogWorld.empty =
    (r ← foldM (serial_byte LogWorld.log_post)
           ((serial_init LogWorld.empty).1, LogWorld.empty)
           (payload (LogWorld.chunk (bytes "050003abc")));
     Ok (r.1, packet_free (LogWorld.chunk (bytes "050003abc")) r.2)).
Proof.
  apply (serial_fd_receive_fold LogWorld.log_post); [apply serial_init_ok|].
  split; vm_compute; discriminate.
Defined.

(** Framed messages are delivered, in any chunking. *)
Lemma frames_delivered {W : Type} {Pool : PacketPool W} {Laws : PacketPoolLaws W}
    (post : Packet -> W -> result W) {Spec : ReceiverSpec W post}
    (ms : list message) (chunks : list Packet) (w : W) :
  Forall message_ok ms -> Forall chunk_ok chunks -> world_ok w ->
  concat (map payload chunks) = concat (map frame ms) ->
  exists s' w',
    serial_receive_all post (serial_init w).1 chunks (serial_init w).2 = Ok (s', w') /\
    after w ms w' /\ in_len s' = 0 /\ in_datalen s' = 0 /\ world_ok w'.
Proof.
  intros Hms Hc Hw Heq.
  assert (Hf : decode_fits (InHeader []) (concat (map payload chunks)))
    by (rewrite Heq; by apply decode_fits_frames).
  destruct (refines_init post w Hw) as [Hinit Ha].
  destruct (serial_receive_all_refines post chunks _ _ _ Hinit Hc Hf)
    as (s' & w' & Hr & Href & Ho).
  exists s', w'. rewrite Heq, decode_frames in Ho, Href by done. simpl in *.
  split; [done|]. split; [by eapply after_nil_l|].
  by destruct Href as (_ & ? & ? & ? & _).
Qed.

(** Whatever the sizes in which [read] returns the bytes of the serial port,
    [serial_fd_receive] delivers to the receiver exactly the messages that were
    framed, in order, each once, and ends between two frames. *)
Theorem serial_receive_frames {W : Type} {Pool : PacketPool W} {Laws : PacketPoolLaws W}
    (post : Packet -> W -> result W) {Spec : ReceiverSpec W post}
    (ms : list message) (chunks : list Packet) (w : W) :
  Forall message_ok ms -> Forall chunk_ok chunks -> world_ok w ->
  concat (map payload chunks) = concat (map frame ms) ->
  exists s' w',
    serial_receive_all post (serial_init w).1 chunks (serial_init w).2 = Ok (s', w') /\
    after w ms w' /\ in_len s' = 0 /\ in_datalen s' = 0.
Proof.
  intros Hms Hc Hw Heq.
  destruct (frames_delivered post ms chunks w Hms Hc Hw Heq) as (s' & w' & ? & ? & ? & ? & _).
  by exists s', w'.
Qed.

Lemma serial_receive_frames_witness :
  exists s' w',
    serial_receive_all log_post (serial_init empty).1
      [chunk (bytes "05000"); chunk (bytes "3abcff0002"); chunk (bytes "hi")]
      (serial_init empty).2 = Ok (s', w') /\
    after empty [(5, bytes "abc"); (255, bytes "hi")] w' /\
    in_len s' = 0 /\ in_datalen s' = 0.
Proof.
  apply (serial_receive_frames log_post).
  - repeat constructor; vm_compute; congruence.
  - repeat constructor; vm_compute; congruence.
  - constructor.
  - vm_compute. reflexivity.
Defined.

(** Two ways of cutting the same byte stream into chunks post the same
    messages, as long as no frame announces more than a packet holds (complete
    frames, truncated ones, empty and malformed ones alike). *)
Theorem serial_receive_chunking {W : Type} {Pool : PacketPool W} {Laws : PacketPoolLaws W}
    (post : Packet -> W -> result W) {Spec : ReceiverSpec W post}
    (chunks1 chunks2 : list Packet) (w : W) :
  Forall chunk_ok chunks1 -> Forall chunk_ok chunks2 -> world_ok w ->
  concat (map payload chunks1) = concat (map payload chunks2) ->
  decode_fits (InHeader []) (concat (map payload chunks1)) ->
  exists s1 w1 s2 w2 ms,
    serial_receive_all post (serial_init w).1 chunks1 (serial_init w).2 = Ok (s1, w1) /\
    serial_receive_all post (serial_init w).1 chunks2 (serial_init w).2 = Ok (s2, w2) /\
    after w ms w1 /\ after w ms w2 /\
    in_len s1 = in_len s2 /\ in_datalen s1 = in_datalen s2.
Proof.
  intros H1 H2 Hw Heq Hf. destruct (refines_init post w Hw) as [Hinit Ha].
  destruct (serial_receive_all_refines post chunks1 _ _ _ Hinit H1 Hf)
    as (s1 & w1 & Hr1 & Href1 & Ho1).
  rewrite Heq in Hf.
  destruct (serial_receive_all_refines post chunks2 _ _ _ Hinit H2 Hf)
    as (s2 & w2 & Hr2 & Href2 & Ho2).
  rewrite Heq in *.
  exists s1, w1, s2, w2, (decode (InHeader []) (concat (map payload chunks2))).2.
  split_and!; [done|done|by eapply after_nil_l|by eapply after_nil_l|..].
  all: destruct Href1 as (_ & _ & Href1), Href2 as (_ & _ & Href2).
  all: destruct (decode _ _).1; simpl in *.
  all: repeat match goal with H : _ /\ _ |- _ => destruct H end; congruence.
Qed.

Lemma serial_receive_chunking_witness :
  exists s1 w1 s2 w2 ms,
    serial_receive_all log_post (serial_init empty).1
      [chunk (bytes "0500"); chunk (bytes "03abczz0001x0a00")] (serial_init empty).2
      = Ok (s1, w1) /\
    serial_receive_all log_post (serial_init empty).1
      [chunk (bytes "050003abczz0001x0a00")] (serial_init empty).2 = Ok (s2, w2) /\
    after empty ms w1 /\ after empty ms w2 /\
    in_len s1 = in_len s2 /\ in_datalen s1 = in_datalen s2.
Proof.
  apply (serial_receive_chunking log_post).
  - repeat constructor; vm_compute; congruence.
  - repeat constructor; vm_compute; congruence.
  - constructor.
  - vm_compute. reflexivity.
  - vm_compute. repeat split; discriminate.
Defined.

(** [serial_send] puts in the output queue a header packet followed by the
    packet, and what the peer's [serial_fd_receive] then reads from the port,
    in any chunks, is the message with its channel and its bytes. *)
Theorem serial_send_receive {W : Type} {Pool : PacketPool W} {Laws : PacketPoolLaws W}
    (post enqueue : Packet -> W -> result W) {Spec : ReceiverSpec W post}
    (p : Packet) (w peer : W) (chunks : list Packet) :
  chunk_ok p -> 0 < p_len p -> 0 <= p_channel p < 256 -> pool_ok w ->
  Forall chunk_ok chunks -> world_ok peer ->
  exists h,
    serial_send enqueue p w = (w1 ← enqueue h (packet_alloc w).2; enqueue p w1) /\
    (concat (map payload chunks) = payload h ++ payload p ->
     exists s' w',
       serial_receive_all post (serial_init peer).1 chunks (serial_init peer).2
         = Ok (s', w') /\
       after peer [(p_channel p, payload p)] w').
Proof.
  intros Hp Hlen Hch Hw Hc Hpeer.
  destruct (serial_send_enqueues enqueue p w Hp Hw) as (h & _ & _ & Hs & Hfr).
  exists h. split; [done|]. intros Heq.
  assert (Hok : message_ok (p_channel p, payload p)).
  { destruct Hp as [Hpd Hpl]. unfold packet_ok in Hpd. split; [done|].
    unfold payload; simpl. rewrite length_take, Hpd. unfold MAX_PAYLOAD in *. lia. }
  destruct (frames_delivered post [(p_channel p, payload p)] chunks peer)
    as (s' & w' & Hr & Ho & _); [by constructor|done|done| |by exists s', w'].
  cbn [map concat]. by rewrite app_nil_r, Heq.
Qed.

Lemma serial_send_receive_witness :
  exists h,
    serial_send log_post (set_p_channel 7 (chunk (bytes "ping"))) empty =
      (w1 ← log_post h (packet_alloc empty).2;
       log_post (set_p_channel 7 (chunk (bytes "ping"))) w1) /\
    (concat (map payload [chunk (bytes "07"); chunk (bytes "0004ping")])
       = payload h ++ payload (set_p_channel 7 (chunk (bytes "ping"))) ->
     exists s' w',
       serial_receive_all log_post (serial_init empty).1
         [chunk (bytes "07"); chunk (bytes "0004ping")] (serial_init empty).2
         = Ok (s', w') /\
       after empty [(p_channel (set_p_channel 7 (chunk (bytes "ping"))),
                     payload (set_p_channel 7 (chunk (bytes "ping"))))] w').
Proof.
  apply (serial_send_receive log_post log_post).
  - repeat constructor; vm_compute; congruence.
  - reflexivity.
  - split; vm_compute; congruence.
  - constructor.
  - repeat constructor; vm_compute; congruence.
  - constructor.
Defined.

(** The size field of a frame is not checked against the 4000 bytes of a
    packet: once a frame announces more, receiving more than 4000 bytes of its
    payload writes past the end of the packet. *)
Theorem serial_oversized_frame_overflows {W : Type} {Pool : PacketPool W}
    {Laws : PacketPoolLaws W} (post : Packet -> W -> result W)
    (ch n : Z) (bs : list Z) (w : W) :
  Z.of_nat MAX_PAYLOAD < n < 65536 -> Z.of_nat MAX_PAYLOAD < Z.of_nat (length bs) <= n ->
  pool_ok w ->
  foldM (serial_byte post) (serial_init w)
    (Hex.int2hex ch CHANNEL_SIZE ++ Hex.int2hex n LENGTH_SIZE ++ bs) = Err OutOfBounds.
Proof.
  intros Hn Hbs Hw. rewrite app_assoc, foldM_app.
  set (hd := Hex.int2hex ch CHANNEL_SIZE ++ Hex.int2hex n LENGTH_SIZE).
  unfold serial_init. destruct (packet_alloc w) as [p w1] eqn:Ha.
  apply packet_alloc_ok in Ha as [Hp _]; [|done]. unfold packet_ok in Hp.
  assert (Hhd : length hd = 6%nat).
  { unfold hd. by rewrite length_app, !Hex.length_int2hex. }
  rewrite serial_bytes_complete by (first [by apply serial_ok_fresh | by rewrite Hhd]).
  cbn [in_packet in_len].
  rewrite write_block_ok by (rewrite ?Hhd, ?Hp; unfold MAX_PAYLOAD; lia).
  cbn [mbind result_bind]. unfold serial_complete. cbn [in_datalen in_packet Z.eqb].
  set (d := take _ _ ++ _ ++ _).
  assert (Hdl : length d = MAX_PAYLOAD).
  { unfold d. rewrite !length_app, length_take, length_drop, Hhd, Hp.
    unfold MAX_PAYLOAD. lia. }
  assert (Hph : (parse_header (set_p_data d p)).1 = n).
  { unfold parse_header. cbn [fst p_data set_p_data].
    replace (slice d LENGTH_OFFSET LENGTH_SIZE) with (Hex.int2hex n LENGTH_SIZE).
    - rewrite Hex.hex2int_int2hex_mod by (unfold LENGTH_SIZE; lia).
      change (16 ^ Z.of_nat LENGTH_SIZE) with 65536.
      rewrite Z.mod_small by (unfold MAX_PAYLOAD in *; lia).
      destruct (n <=? 0) eqn:?; [unfold MAX_PAYLOAD in *; lia|done].
    - unfold d, hd, slice. reflexivity. }
  rewrite Hph. cbn [mbind result_bind].
  set (s := mkSerial 0 n _ _).
  assert (Hs : serial_ok s) by (apply serial_ok_fresh; lia).
  assert (Hwant : wanted_of s = n).
  { unfold wanted_of, s; simpl. destruct (n =? 0) eqn:?; lia. }
  destruct (decide (Z.of_nat (length bs) = n)) as [He|Hne].
  - rewrite serial_bytes_complete by (done || lia).
    rewrite write_block_err; [done|].
    change (p_data (in_packet s)) with d. change (in_len s) with 0. lia.
  - rewrite serial_bytes_partial; [|done| |lia].
    + rewrite write_block_err; [done|].
    change (p_data (in_packet s)) with d. change (in_len s) with 0. lia.
    + intros ->. simpl in Hbs. lia.
Qed.

Lemma serial_oversized_frame_overflows_witness :
  foldM (serial_byte log_post) (serial_init empty)
    (Hex.int2hex 1 CHANNEL_SIZE ++ Hex.int2hex 65535 LENGTH_SIZE ++ replicate 4001 65)
    = Err OutOfBounds.
Proof.
  apply (serial_oversized_frame_overflows log_post).
  - split; reflexivity.
  - split; [reflexivity|]. vm_compute. discriminate.
  - constructor.
Defined.
