(* ===== verification/PrefList.v ===== *)
(** * Intrusive lists with a back reference to the incoming link

    [FDHandler] and [Client] of [src/emulator/qemud/qemud.c] carry their own
    links: [next], and [pref], the address of the pointer that points to the
    object (a list head or the [next] field of the previous object).  This file
    models those cells, the insertion and removal code, and proves that they
    implement prepending to and deleting from a list. *)
From S2P Require Import Prelude.

(** What [pref] can point to. *)
Inductive slot : Type :=
  | Head (label : nat)
  | NextOf (a : nat).

Record pnode : Type := mkNode { n_next : option nat; n_pref : slot }.

(** The heads of the lists (by label) and the link cells of the live objects. *)
Record plist : Type := mkPlist { heads : gmap nat nat; nodes : gmap nat pnode }.

#[export] Instance slot_eq_dec : EqDecision slot.
Proof. solve_decision. Defined.

Definition empty_plist : plist := mkPlist ∅ ∅.

Definition set_next (v : option nat) (n : pnode) : pnode := mkNode v (n_pref n).
Definition set_pref (s : slot) (n : pnode) : pnode := mkNode (n_next n) s.

(** [*slot] *)
Definition read_slot (pl : plist) (s : slot) : option nat :=
  match s with
  | Head h => heads pl !! h
  | NextOf a => nodes pl !! a ≫= n_next
  end.

(** [*slot = v] *)
Definition write_slot (pl : plist) (s : slot) (v : option nat) : result plist :=
  match s with
  | Head h => Ok (mkPlist (partial_alter (fun _ => v) h (heads pl)) (nodes pl))
  | NextOf a =>
      match nodes pl !! a with
      | None => Err UseAfterFree
      | Some n => Ok (mkPlist (heads pl) (<[a := set_next v n]> (nodes pl)))
      end
  end.

Definition write_pref (pl : plist) (a : nat) (s : slot) : result plist :=
  match nodes pl !! a with
  | None => Err UseAfterFree
  | Some n => Ok (mkPlist (heads pl) (<[a := set_pref s n]> (nodes pl)))
  end.

(** [fdhandler_remove]; the same two statements open [client_free]. *)
Definition pl_remove (a : nat) (pl : plist) : result plist :=
  match nodes pl !! a with
  | None => Err UseAfterFree
  | Some n =>
      pl ← write_slot pl (n_pref n) (n_next n);
      match n_next n with
      | None => Ok pl
      | Some b => write_pref pl b (n_pref n)
      end
  end.

(** [fdhandler_prepend (f, list)]; [client_new] ends with the same code. *)
Definition pl_prepend (a label : nat) (pl : plist) : result plist :=
  let first := heads pl !! label in
  let pl := mkPlist (<[label := a]> (heads pl))
                    (<[a := mkNode first (Head label)]> (nodes pl)) in
  match first with
  | None => Ok pl
  | Some b => write_pref pl b (NextOf a)
  end.

(** The cells of an object that is freed go with it. *)
Definition pl_forget (a : nat) (pl : plist) : plist :=
  mkPlist (heads pl) (delete a (nodes pl)).

(** ** Representation of a list *)

Fixpoint lseg (pl : plist) (s : slot) (l : list nat) : Prop :=
  read_slot pl s = head l /\
  match l with
  | [] => True
  | a :: l' => (exists n, nodes pl !! a = Some n /\ n_pref n = s) /\ lseg pl (NextOf a) l'
  end.

Definition pl_repr (pl : plist) (label : nat) (l : list nat) : Prop :=
  NoDup l /\ lseg pl (Head label) l.

(** [lseg] only looks at its starting slot and at the cells of its members. *)
Lemma lseg_frame pl pl' s l :
  read_slot pl' s = read_slot pl s ->
  (forall a, a ∈ l -> nodes pl' !! a = nodes pl !! a) ->
  lseg pl s l -> lseg pl' s l.
Proof.
  revert s; induction l as [|a l IH]; intros s Hs Hn; simpl.
  - by rewrite Hs.
  - intros (Hr & (n & Hn' & Hp) & Hl). rewrite Hs. split; [done|]. split.
    + exists n. by rewrite Hn by set_solver.
    + apply IH; [|set_solver|done]. simpl. by rewrite Hn by set_solver.
Qed.

Lemma lseg_lookup pl s l a : lseg pl s l -> a ∈ l -> is_Some (nodes pl !! a).
Proof.
  revert s; induction l as [|b l IH]; intros s; simpl.
  - by intros _ ?%elem_of_nil.
  - intros (_ & (n & Hn & _) & Hl) [->|Hin]%elem_of_cons; eauto.
Qed.

(** Replacing the head of a segment's starting slot. *)
Lemma lseg_cons_inv pl s a l :
  lseg pl s (a :: l) ->
  read_slot pl s = Some a /\
  exists n, nodes pl !! a = Some n /\ n_pref n = s /\ n_next n = head l /\
    lseg pl (NextOf a) l.
Proof.
  simpl. intros (Hr & (n & Hn & Hp) & Hl). split; [done|].
  exists n. split; [done|]. split; [done|]. split; [|done].
  destruct l; destruct Hl as [Hl _]; simpl in Hl; rewrite Hn in Hl; exact Hl.
Qed.

(** ** Prepending *)

Lemma pl_prepend_ok pl label l a :
  pl_repr pl label l -> a ∉ l ->
  exists pl', pl_prepend a label pl = Ok pl' /\ pl_repr pl' label (a :: l) /\
    (forall b, b <> a -> b ∉ l -> nodes pl' !! b = nodes pl !! b) /\
    (forall h, h <> label -> heads pl' !! h = heads pl !! h) /\
    (forall b, is_Some (nodes pl' !! b) <-> b = a \/ is_Some (nodes pl !! b)).
Proof.
  intros [Hnd Hl] Ha. unfold pl_prepend.
  assert (Hnd' : NoDup (a :: l)) by by constructor.
  destruct l as [|b l].
  - destruct Hl as [Hh _]. simpl in Hh. rewrite Hh. eexists. split; [reflexivity|].
    split; [split; [done|]|split; [|split]]; simpl.
    + split; [by simplify_map_eq|]. split; [eexists; by simplify_map_eq|].
      by simplify_map_eq.
    + intros. by simplify_map_eq.
    + intros. by simplify_map_eq.
    + intros b. destruct (decide (b = a)) as [->|]; simplify_map_eq; naive_solver.
  - apply lseg_cons_inv in Hl as (Hh & n & Hn & Hp & Hnx & Hl). simpl in Hh.
    rewrite Hh. unfold write_pref; simpl.
    assert (Hab : a <> b) by set_solver.
    rewrite lookup_insert_ne, Hn by done. eexists. split; [reflexivity|].
    apply NoDup_cons in Hnd as [Hbl Hnd].
    split; [split; [done|]|split; [|split]]; simpl.
    + split; [by simplify_map_eq|]. split; [eexists; by simplify_map_eq|].
      split; [by simplify_map_eq|]. split; [eexists; by simplify_map_eq|].
      eapply lseg_frame; [..|exact Hl]; simpl; [by simplify_map_eq|].
      intros c Hc. rewrite !lookup_insert_ne by set_solver. done.
    + intros c ??. rewrite !lookup_insert_ne by set_solver. done.
    + intros. by simplify_map_eq.
    + intros c. destruct (decide (c = a)) as [->|]; [simplify_map_eq; naive_solver|].
      destruct (decide (c = b)) as [->|]; simplify_map_eq; naive_solver.
Qed.

(** ** Removing *)

(** Splicing the tail of a segment onto another starting slot. *)
Lemma lseg_splice pl pl' a l s :
  NoDup l -> lseg pl (NextOf a) l -> read_slot pl' s = head l ->
  (forall b, b ∈ tail l -> nodes pl' !! b = nodes pl !! b) ->
  (forall b l', l = b :: l' -> nodes pl' !! b = set_pref s <$> nodes pl !! b) ->
  lseg pl' s l.
Proof.
  intros Hnd Hl Hs Htl Hhd. destruct l as [|b l]; [done|].
  apply lseg_cons_inv in Hl as (_ & n & Hn & _ & Hnx & Hl).
  split; [done|]. rewrite (Hhd b l eq_refl), Hn. simpl.
  split; [eexists; split; [reflexivity|done]|].
  apply NoDup_cons in Hnd as [Hbl _].
  eapply lseg_frame; [..|exact Hl]; [|auto].
  simpl. rewrite (Hhd b l eq_refl), Hn. done.
Qed.

(** What writing a slot changes: the slot. *)
Lemma write_slot_ok pl s o :
  (forall c, s = NextOf c -> is_Some (nodes pl !! c)) ->
  exists pl1, write_slot pl s o = Ok pl1 /\ read_slot pl1 s = o /\
    (forall b, (forall c, s = NextOf c -> b <> c) -> nodes pl1 !! b = nodes pl !! b) /\
    (forall h, s <> Head h -> heads pl1 !! h = heads pl !! h) /\
    (forall c n, s = NextOf c -> nodes pl !! c = Some n ->
       exists n', nodes pl1 !! c = Some n' /\ n_pref n' = n_pref n).
Proof.
  intros Hc. destruct s as [h|c]; simpl.
  - eexists. split; [reflexivity|]. simpl. split; [by rewrite lookup_partial_alter_eq|].
    split; [done|]. split; [|done].
    intros h' ?. by rewrite lookup_partial_alter_ne by congruence.
  - destruct (Hc c eq_refl) as [nc Hn]. rewrite Hn. eexists.
    split; [reflexivity|]. simpl. split; [by simplify_map_eq|]. split; [|split; [done|]].
    + intros b Hb. by rewrite lookup_insert_ne by (intros <-; by eapply Hb).
    + intros c' n' [= <-] ?. simplify_map_eq. by eexists.
Qed.

(** Removing a member of a segment that starts at [s]. *)
Lemma lseg_remove pl pl' s l1 a l2 :
  NoDup (l1 ++ a :: l2) ->
  (match s with NextOf b => b ∉ l1 ++ a :: l2 | Head _ => True end) ->
  lseg pl s (l1 ++ a :: l2) ->
  pl_remove a pl = Ok pl' ->
  lseg pl' s (l1 ++ l2) /\
  (forall b, b ∉ l1 ++ l2 -> (forall c, s = NextOf c -> b <> c) ->
     nodes pl' !! b = nodes pl !! b) /\
  (forall h, s <> Head h -> heads pl' !! h = heads pl !! h) /\
  (forall c n, s = NextOf c -> nodes pl !! c = Some n ->
     exists n', nodes pl' !! c = Some n' /\ n_pref n' = n_pref n).
Proof.
  revert s; induction l1 as [|b l1 IH]; intros s Hnd Hs Hl Hr.
  - simpl in *. apply lseg_cons_inv in Hl as (Hrd & n & Hn & Hp & Hnx & Hl).
    apply NoDup_cons in Hnd as [Hal Hnd].
    unfold pl_remove in Hr. rewrite Hn, Hp, Hnx in Hr.
    destruct (write_slot_ok pl s (head l2)) as (pl1 & Hw & Hrd1 & Hn1 & Hh1 & Hk1).
    { intros c ->. simpl in Hrd. destruct (nodes pl !! c); [by eexists|done]. }
    rewrite Hw in Hr. simpl in Hr.
    destruct l2 as [|b l2]; simpl in Hr.
    { injection Hr as <-. split; [by split|]. split; [|by split]. intros. by apply Hn1. }
    unfold write_pref in Hr.
    assert (Hsb : forall c, s = NextOf c -> b <> c) by (intros c -> ->; set_solver).
    rewrite (Hn1 b Hsb) in Hr. destruct (nodes pl !! b) as [nb|] eqn:Hb; [|done].
    injection Hr as <-. split; [|split; [|split]].
    + apply (lseg_splice pl _ a); [done|done| |..].
      * destruct s as [h|c]; simpl in *; [done|].
        rewrite lookup_insert_ne by (by apply not_eq_sym, not_eq_sym, Hsb). done.
      * simpl. intros c Hc. apply NoDup_cons in Hnd as [??].
        rewrite lookup_insert_ne by set_solver.
        apply Hn1. intros c' ->. set_solver.
      * intros ? ? [= <- <-]. simpl. by simplify_map_eq.
    + simpl. intros c Hc Hcs. rewrite lookup_insert_ne by set_solver. by apply Hn1.
    + simpl. done.
    + simpl. intros c n' -> Hc. rewrite lookup_insert_ne by (by apply Hsb). by eapply Hk1.
  - simpl in Hl, Hnd, Hs.
    destruct Hl as (Hrd & (n & Hn & Hp) & Hl).
    apply NoDup_cons in Hnd as [Hbl Hnd].
    destruct (IH (NextOf b) Hnd Hbl Hl Hr) as (Hl' & Hfr & Hhd & Hk).
    assert (Hsr : read_slot pl' s = read_slot pl s).
    { destruct s as [h|c]; simpl.
      - by apply Hhd.
      - rewrite Hfr; [done|set_solver|set_solver]. }
    split; [|split; [|split]].
    + simpl. split; [by rewrite Hsr|]. split; [|done].
      destruct (Hk b n eq_refl Hn) as (n' & Hn' & Hp'). exists n'. by rewrite Hp'.
    + intros c Hc Hcs. apply Hfr; [set_solver|]. intros c' [= <-]. set_solver.
    + intros h _. by apply Hhd.
    + intros c n' -> Hc. rewrite Hfr; [by eexists|set_solver|set_solver].
Qed.

(** A segment from a slot: its removal code never touches a freed cell. *)
Lemma lseg_remove_succeeds pl s l1 a l2 :
  lseg pl s (l1 ++ a :: l2) ->
  (forall c, s = NextOf c -> is_Some (nodes pl !! c)) ->
  exists pl', pl_remove a pl = Ok pl'.
Proof.
  revert s; induction l1 as [|b l1 IH]; intros s Hl Hs.
  - simpl in Hl. apply lseg_cons_inv in Hl as (Hrd & n & Hn & Hp & Hnx & Hl).
    unfold pl_remove. rewrite Hn, Hp, Hnx.
    assert (exists pl1, write_slot pl s (head l2) = Ok pl1 /\
      forall b, is_Some (nodes pl !! b) -> is_Some (nodes pl1 !! b)) as (pl1 & -> & Hk).
    { destruct s as [h|c]; simpl; [by eexists|].
      destruct (Hs c eq_refl) as [nc Hc]. rewrite Hc. eexists. split; [reflexivity|].
      simpl. intros b ?. destruct (decide (b = c)) as [->|]; by simplify_map_eq. }
    simpl. destruct l2 as [|b l2]; simpl; [by eexists|].
    apply lseg_cons_inv in Hl as (_ & nb & Hb & _).
    destruct (Hk b) as [nb' Hb']; [by eexists|].
    unfold write_pref. rewrite Hb'. by eexists.
  - destruct Hl as (_ & (n & Hn & _) & Hl). apply (IH (NextOf b)); [done|].
    intros c [= <-]. by eexists.
Qed.

Definition without (a : nat) (l : list nat) : list nat := filter (fun b => b <> a) l.

Lemma without_absent a l : a ∉ l -> without a l = l.
Proof.
  unfold without. induction l as [|b l IH]; [done|]. intros Ha.
  rewrite filter_cons_True by set_solver. by rewrite IH by set_solver.
Qed.

Lemma without_middle l1 a l2 : NoDup (l1 ++ a :: l2) -> without a (l1 ++ a :: l2) = l1 ++ l2.
Proof.
  intros (H1 & H2 & H3)%NoDup_app. apply NoDup_cons in H3 as [H3 H4].
  unfold without. rewrite filter_app, filter_cons_False by (by intros ?).
  fold (without a l1) (without a l2).
  rewrite !without_absent; [done|done|]. intros Hin. apply (H2 a); [done|]. by left.
Qed.

Lemma elem_of_without a b l : b ∈ without a l <-> b ∈ l /\ b <> a.
Proof. unfold without. rewrite list_elem_of_filter. tauto. Qed.

Lemma NoDup_without a l : NoDup l -> NoDup (without a l).
Proof. apply NoDup_filter. Qed.

Lemma pl_remove_ok pl label l a :
  pl_repr pl label l -> a ∈ l ->
  exists pl', pl_remove a pl = Ok pl' /\ pl_repr pl' label (without a l) /\
    (forall b, b ∉ without a l -> nodes pl' !! b = nodes pl !! b) /\
    (forall b, is_Some (nodes pl' !! b) <-> is_Some (nodes pl !! b)) /\
    (forall h, h <> label -> heads pl' !! h = heads pl !! h).
Proof.
  intros [Hnd Hl] Ha. apply list_elem_of_split in Ha as (l1 & l2 & ->).
  destruct (lseg_remove_succeeds pl _ l1 a l2 Hl) as (pl' & Hr); [done|].
  exists pl'. split; [done|].
  rewrite without_middle by done.
  destruct (lseg_remove pl pl' (Head label) l1 a l2 Hnd I Hl Hr) as (Hl' & Hfr & Hh & _).
  assert (Hnd' : NoDup (l1 ++ l2)).
  { rewrite <-(without_middle l1 a l2) by done. by apply NoDup_without. }
  split; [by split|]. split; [intros b Hb; by apply Hfr|].
  split; [|intros h ?; apply Hh; congruence].
  intros b. destruct (decide (b ∈ l1 ++ l2)) as [Hb|Hb]; [|by rewrite Hfr].
  split; intros _.
  - apply (lseg_lookup _ _ _ b Hl). set_solver.
  - by apply (lseg_lookup _ _ _ b Hl').
Qed.

(** A list none of whose cells changed is still there. *)
Lemma pl_repr_frame pl pl' label l :
  pl_repr pl label l -> heads pl' !! label = heads pl !! label ->
  (forall a, a ∈ l -> nodes pl' !! a = nodes pl !! a) -> pl_repr pl' label l.
Proof. intros [? Hl] ??. split; [done|]. by eapply lseg_frame. Qed.

Lemma pl_forget_repr pl label l a :
  pl_repr pl label l -> a ∉ l -> pl_repr (pl_forget a pl) label l.
Proof.
  intros Hl Ha. apply (pl_repr_frame pl); [done|done|].
  intros b Hb. simpl. by rewrite lookup_delete_ne by set_solver.
Qed.

Lemma pl_empty_repr label : pl_repr empty_plist label [].
Proof. split; [constructor|]. split; [|done]. simpl. by rewrite lookup_empty. Qed.

Lemma pl_repr_head pl label l : pl_repr pl label l -> heads pl !! label = head l.
Proof. intros [_ H]. by destruct l; destruct H. Qed.
