(* ===== verification/QemudLooper.v ===== *)
(** * qemud: the event loop

    Models the "FD EVENT LOOP" part of [src/emulator/qemud/qemud.c]: the
    [Looper] with its array of [LoopHook]s, registration and removal of file
    descriptors, the event masks, and one turn of [looper_loop].  The kernel's
    epoll instance is its interest list, a finite map from descriptors to the
    registered mask and [data.ptr], with the documented effect of [EPOLL_CTL_ADD],
    [EPOLL_CTL_MOD] and [EPOLL_CTL_DEL] (which fail without effect when the
    descriptor is, or is not, registered).  A hook pointer is its array index. *)
From S2P Require Import Prelude.
Local Open Scope Z_scope.

Definition EPOLLIN : Z := 1.
Definition EPOLLOUT : Z := 4.
Definition EPOLLERR : Z := 8.
Definition EPOLLHUP : Z := 16.

Definition MAX_CHANNELS : Z := 16.
Definition HOOK_PENDING : Z := Z.shiftl 1 0.
Definition HOOK_CLOSING : Z := Z.shiftl 1 1.

(** [c & mask], as a C condition. *)
Definition has (x mask : Z) : bool := negb (Z.land x mask =? 0).

(** [struct LoopHook]; [U] is what [ev_user] and [ev_func] stand for. *)
Record LoopHook (U : Type) : Type := mkHook {
  h_fd : Z;
  h_wanted : Z;
  h_events : Z;
  h_state : Z;
  h_user : U
}.
Arguments mkHook {U}. Arguments h_fd {U}. Arguments h_wanted {U}.
Arguments h_events {U}. Arguments h_state {U}. Arguments h_user {U}.

(** The interest list: descriptor to (events, data.ptr). *)
Abbreviation epoll_set := (gmap Z (Z * nat)).

Record Looper (U : Type) : Type := mkLooper {
  l_epoll : epoll_set;
  l_max_fds : Z;
  l_hooks : list (LoopHook U)          (** the first [num_fds] hooks *)
}.
Arguments mkLooper {U}. Arguments l_epoll {U}. Arguments l_max_fds {U}.
Arguments l_hooks {U}.

Definition epoll_ctl_add (e : epoll_set) (fd : Z) (ev : Z * nat) : epoll_set :=
  match e !! fd with Some _ => e | None => <[fd := ev]> e end.
Definition epoll_ctl_mod (e : epoll_set) (fd : Z) (ev : Z * nat) : epoll_set :=
  match e !! fd with Some _ => <[fd := ev]> e | None => e end.
Definition epoll_ctl_del (e : epoll_set) (fd : Z) : epoll_set := delete fd e.

Section Looper.
Context {U : Type}.
Implicit Types (l : Looper U) (h : LoopHook U).

Definition num_fds l : Z := Z.of_nat (length (l_hooks l)).

Definition looper_init : Looper U := mkLooper ∅ 0 [].

(** [looper_done]: the arrays are freed and the epoll descriptor closed. *)
Definition looper_done (l : Looper U) : Looper U := mkLooper ∅ 0 [].

(** The first hook with this descriptor, as an index. *)
Fixpoint looper_find_from (hs : list (LoopHook U)) (n : nat) (fd : Z) : option nat :=
  match hs with
  | [] => None
  | h :: hs => if h_fd h =? fd then Some n else looper_find_from hs (S n) fd
  end.
Definition looper_find l (fd : Z) : option nat := looper_find_from (l_hooks l) 0 fd.

(** The loop of [looper_grow] over the hooks from index [n] on. *)
Fixpoint regrow (hs : list (LoopHook U)) (n : nat) (e : epoll_set) : epoll_set :=
  match hs with
  | [] => e
  | h :: hs => regrow hs (S n) (epoll_ctl_mod e (h_fd h) (h_wanted h, n))
  end.

Definition looper_grow l : Looper U :=
  let old_max := l_max_fds l in
  let new_max := old_max + Z.shiftr old_max 1 + 4 in
  mkLooper (regrow (l_hooks l) 0 (l_epoll l)) new_max (l_hooks l).

Definition looper_add l (fd : Z) (u : U) : Looper U :=
  let l := if num_fds l >=? l_max_fds l then looper_grow l else l in
  let hook := mkHook fd 0 0 0 u in
  mkLooper (epoll_ctl_add (l_epoll l) fd (0, length (l_hooks l))) (l_max_fds l)
    (l_hooks l ++ [hook]).

Definition set_state (s : Z) h : LoopHook U :=
  mkHook (h_fd h) (h_wanted h) (h_events h) s (h_user h).
Definition set_wanted (w : Z) h : LoopHook U :=
  mkHook (h_fd h) w (h_events h) (h_state h) (h_user h).
Definition set_pending (ev : Z) h : LoopHook U :=
  mkHook (h_fd h) (h_wanted h) ev HOOK_PENDING (h_user h).

Definition looper_del l (fd : Z) : Looper U :=
  match looper_find l fd with
  | None => l
  | Some n =>
      mkLooper (epoll_ctl_del (l_epoll l) fd) (l_max_fds l)
        (alter (fun h => set_state (Z.lor (h_state h) HOOK_CLOSING) h) n (l_hooks l))
  end.

(** [looper_enable] and [looper_disable] once the hook is found. *)
Definition looper_set_wanted l (n : nat) (fd : Z) (wanted : Z) : Looper U :=
  mkLooper (epoll_ctl_mod (l_epoll l) fd (wanted, n)) (l_max_fds l)
    (alter (set_wanted wanted) n (l_hooks l)).

Definition looper_enable l (fd events : Z) : Looper U :=
  match looper_find l fd with
  | None => l
  | Some n =>
      match l_hooks l !! n with
      | None => l
      | Some h =>
          if has events (Z.lnot (h_wanted h))
          then looper_set_wanted l n fd (Z.lor (h_wanted h) events) else l
      end
  end.

Definition looper_disable l (fd events : Z) : Looper U :=
  match looper_find l fd with
  | None => l
  | Some n =>
      match l_hooks l !! n with
      | None => l
      | Some h =>
          if has events (h_wanted h)
          then looper_set_wanted l n fd (Z.land (h_wanted h) (Z.lnot events)) else l
      end
  end.

(** Lines 524-529: mark the hooks that [epoll_wait] reported. *)
Definition mark_pending l (ready : list (nat * Z)) : Looper U :=
  mkLooper (l_epoll l) (l_max_fds l)
    (fold_left (fun hs r => alter (set_pending r.2) r.1 hs) ready (l_hooks l)).

(** Lines 541-557: remove the closed hooks, filling each hole with the last. *)
Fixpoint remove_closed (fuel : nat) (n : nat) l : result (Looper U) :=
  match l_hooks l !! n with
  | None => Ok l
  | Some hook =>
      match fuel with
      | O => Err OutOfFuel
      | S fuel =>
          if negb (has (h_state hook) HOOK_CLOSING) then remove_closed fuel (S n) l
          else
            match last (l_hooks l) with
            | None => Err OutOfBounds
            | Some lst =>
                let hs := removelast (<[n := lst]> (l_hooks l)) in
                remove_closed fuel n
                  (mkLooper (epoll_ctl_mod (l_epoll l) (h_fd lst) (h_wanted lst, n))
                     (l_max_fds l) hs)
            end
      end
  end.
End Looper.

(** ** One turn of the loop, over a world that contains the looper *)
Class HasLooper (W U : Type) : Type := {
  get_looper : W -> Looper U;
  set_looper : Looper U -> W -> W
}.

Section Turn.
Context {W U : Type} {HL : HasLooper W U}.
(** [hook->ev_func (hook->ev_user, hook->events)] *)
Context (callback : U -> Z -> W -> result W).

(** Lines 531-539.  The hooks are read again at each step because callbacks
    may add some. *)
Fixpoint run_hooks (fuel n : nat) (w : W) : result W :=
  match l_hooks (get_looper w) !! n with
  | None => Ok w
  | Some hook =>
      match fuel with
      | O => Err OutOfFuel
      | S fuel =>
          if has (h_state hook) HOOK_PENDING then
            let l := get_looper w in
            let hs := alter (fun h => set_state (Z.land (h_state h) (Z.lnot HOOK_PENDING)) h)
                        n (l_hooks l) in
            w ← callback (h_user hook) (h_events hook)
                  (set_looper (mkLooper (l_epoll l) (l_max_fds l) hs) w);
            run_hooks fuel (S n) w
          else run_hooks fuel (S n) w
      end
  end.

(** What one call of [epoll_wait] returns: interrupted, an error, or the ready
    list (hook pointer, events). *)
Inductive wait_result : Type :=
  | WaitEINTR
  | WaitError
  | WaitReady (ready : list (nat * Z)).

(** Each callback adds at most one hook, so twice the hooks bounds the turn. *)
Definition looper_turn (ready : list (nat * Z)) (w : W) : result W :=
  let w := set_looper (mark_pending (get_looper w) ready) w in
  w ← run_hooks (2 * length (l_hooks (get_looper w)) + 1) 0 w;
  l ← remove_closed (length (l_hooks (get_looper w))) 0 (get_looper w);
  Ok (set_looper l w).

(** [looper_loop], for the given results of [epoll_wait]. *)
Fixpoint looper_loop (waits : list wait_result) (w : W) : result W :=
  match waits with
  | [] => Ok w
  | WaitEINTR :: waits => looper_loop waits w
  | WaitError :: _ => Ok w
  | WaitReady [] :: waits => looper_loop waits w
  | WaitReady ready :: waits =>
      w ← looper_turn ready w;
      looper_loop waits w
  end.
End Turn.

(** ** Abstract specification: a map from descriptor to handler and mask

    [view l fd] is what the kernel would do with an event on [fd]: which hook
    it would mark, and for which events.  [represents l m]: the looper is
    coherent and implements the map [m]. *)
Section Spec.
Context {U : Type}.
Implicit Types (l : Looper U) (h : LoopHook U) (m : gmap Z (U * Z)).

Definition closing h : bool := has (h_state h) HOOK_CLOSING.

Definition view l (fd : Z) : option (U * Z) :=
  match l_epoll l !! fd with
  | Some (ev, n) => (fun h => (h_user h, ev)) <$> l_hooks l !! n
  | None => None
  end.

Record coherent l : Prop := {
  co_fds : forall i j h h', l_hooks l !! i = Some h -> l_hooks l !! j = Some h' ->
    h_fd h = h_fd h' -> i = j;
  co_hook : forall n h, l_hooks l !! n = Some h ->
    l_epoll l !! h_fd h = if closing h then None else Some (h_wanted h, n);
  co_epoll : forall fd ev n, l_epoll l !! fd = Some (ev, n) ->
    exists h, l_hooks l !! n = Some h /\ h_fd h = fd;
  co_room : num_fds l <= l_max_fds l
}.

Definition represents l m : Prop :=
  coherent l /\ forall fd, m !! fd = view l fd.

(** No hook waits for removal: what holds between two turns. *)
Definition settled l : Prop := forall n h, l_hooks l !! n = Some h -> closing h = false.

(** The descriptor is in no hook, closed ones included. *)
Definition unused l (fd : Z) : Prop := forall n h, l_hooks l !! n = Some h -> h_fd h <> fd.

Lemma looper_find_from_spec hs n fd :
  match looper_find_from hs n fd with
  | Some k => exists i h, k = (n + i)%nat /\ hs !! i = Some h /\ h_fd h = fd
  | None => forall i h, hs !! i = Some h -> h_fd h <> fd
  end.
Proof.
  revert n; induction hs as [|h hs IH]; intros n; simpl; [done|].
  destruct (h_fd h =? fd) eqn:E.
  - exists 0%nat, h. split; [lia|]. split; [done|lia].
  - specialize (IH (S n)). destruct (looper_find_from hs (S n) fd).
    + destruct IH as (i & h' & -> & ? & ?). exists (S i), h'. split; [lia|done].
    + intros [|i] h' Hi; simplify_eq/=; [lia|eauto].
Qed.

(** [looper_find] is the index of the descriptor's hook. *)
Lemma looper_find_some l fd n :
  coherent l -> looper_find l fd = Some n <->
  exists h, l_hooks l !! n = Some h /\ h_fd h = fd.
Proof.
  intros Hl. unfold looper_find. pose proof (looper_find_from_spec (l_hooks l) 0 fd) as H.
  split.
  - intros E. rewrite E in H. destruct H as (i & h & -> & ? & ?). eauto.
  - intros (h & Hn & Hfd). destruct (looper_find_from _ _ _) as [k|].
    + destruct H as (i & h' & -> & Hi & Hfd'). f_equal. simpl.
      apply (co_fds _ Hl _ _ _ _ Hi Hn). congruence.
    + by apply H in Hn.
Qed.

Lemma looper_find_none l fd : unused l fd -> looper_find l fd = None.
Proof.
  intros Hu. unfold looper_find. pose proof (looper_find_from_spec (l_hooks l) 0 fd) as H.
  destruct (looper_find_from _ _ _); [|done].
  destruct H as (i & h & _ & Hi & Hfd). by apply Hu in Hi.
Qed.

Lemma view_some l fd u ev :
  coherent l -> view l fd = Some (u, ev) ->
  exists n h, l_hooks l !! n = Some h /\ h_fd h = fd /\ h_user h = u /\
    h_wanted h = ev /\ closing h = false.
Proof.
  intros Hl Hv. unfold view in Hv.
  destruct (l_epoll l !! fd) as [[ev' n]|] eqn:He; [|done].
  destruct (co_epoll _ Hl _ _ _ He) as (h & Hn & Hfd). rewrite Hn in Hv. simplify_eq/=.
  pose proof (co_hook _ Hl _ _ Hn) as Hh. rewrite He in Hh.
  destruct (closing h) eqn:Hc; simplify_eq. by exists n, h.
Qed.

Lemma view_hook l n h :
  coherent l -> l_hooks l !! n = Some h -> closing h = false ->
  view l (h_fd h) = Some (h_user h, h_wanted h).
Proof.
  intros Hl Hn Hc. unfold view. rewrite (co_hook _ Hl _ _ Hn), Hc, Hn. done.
Qed.

Lemma view_unused l fd : coherent l -> unused l fd -> view l fd = None.
Proof.
  intros Hl Hu. unfold view. destruct (l_epoll l !! fd) as [[ev n]|] eqn:He; [|done].
  destruct (co_epoll _ Hl _ _ _ He) as (h & Hn & Hfd). by apply Hu in Hn.
Qed.

Lemma looper_init_represents : represents (looper_init (U:=U)) ∅.
Proof.
  split; [split|]; simpl; intros; try done.
Qed.

Lemma regrow_id hs n e :
  (forall i h, hs !! i = Some h ->
     e !! h_fd h = None \/ e !! h_fd h = Some (h_wanted h, (n + i)%nat)) ->
  regrow hs n e = e.
Proof.
  revert n; induction hs as [|h hs IH]; intros n Hh; simpl; [done|].
  assert (epoll_ctl_mod e (h_fd h) (h_wanted h, n) = e) as ->.
  { unfold epoll_ctl_mod. destruct (Hh 0%nat h eq_refl) as [->|E]; [done|].
    rewrite E. rewrite Nat.add_0_r in E. by apply insert_id. }
  apply IH. intros i h' Hi. destruct (Hh (S i) h' Hi) as [?|E]; [by left|right].
  rewrite E. do 2 f_equal. lia.
Qed.

(** Growing the arrays changes nothing but the room, and there is then room. *)
Lemma looper_grow_eq l :
  coherent l ->
  looper_grow l =
    mkLooper (l_epoll l) (l_max_fds l + Z.shiftr (l_max_fds l) 1 + 4) (l_hooks l).
Proof.
  intros Hl. unfold looper_grow. rewrite regrow_id; [done|].
  intros i h Hi. rewrite (co_hook _ Hl _ _ Hi). destruct (closing h); auto.
Qed.

Lemma has_state_0 : has 0 HOOK_CLOSING = false.
Proof. reflexivity. Qed.

Lemma looper_add_represents l m fd u :
  represents l m -> unused l fd ->
  represents (looper_add l fd u) (<[fd := (u, 0)]> m).
Proof.
  intros [Hl Hm] Hu.
  set (l1 := if num_fds l >=? l_max_fds l then looper_grow l else l).
  assert (Heq : l_epoll l1 = l_epoll l /\ l_hooks l1 = l_hooks l /\
    num_fds l + 1 <= l_max_fds l1).
  { pose proof (co_room _ Hl) as Hr. unfold l1.
    destruct (_ >=? _) eqn:E; [|split_and!; [done..|lia]].
    rewrite looper_grow_eq by done. simpl. split; [done|]. split; [done|].
    unfold num_fds in *. rewrite Z.shiftr_div_pow2 by lia.
    pose proof (Z.div_pos (l_max_fds l) (2 ^ 1)).
    lia. }
  destruct Heq as (He1 & Hh1 & Hroom).
  assert (Hnone : l_epoll l !! fd = None).
  { destruct (l_epoll l !! fd) as [[ev n]|] eqn:He; [|done].
    destruct (co_epoll _ Hl _ _ _ He) as (h & Hn & Hfd). by apply Hu in Hn. }
  unfold looper_add. fold l1. unfold epoll_ctl_add. rewrite He1, Hh1, Hnone.
  assert (Hlook : forall n h, (l_hooks l ++ [mkHook fd 0 0 0 u]) !! n = Some h ->
    l_hooks l !! n = Some h \/ n = length (l_hooks l) /\ h = mkHook fd 0 0 0 u).
  { intros n h [?|[Hge Hn]]%lookup_app_Some; [by left|right].
    destruct (n - length (l_hooks l))%nat eqn:En; simplify_eq/=. split; [lia|done]. }
  split; [split|].
  - simpl. intros i j h h' Hi Hj Hfd.
    apply Hlook in Hi as [Hi|[-> ->]], Hj as [Hj|[-> ->]]; simpl in *.
    + by eapply co_fds.
    + by apply Hu in Hi.
    + symmetry in Hfd. by apply Hu in Hj.
    + done.
  - simpl. intros n h Hn. apply Hlook in Hn as [Hn|[-> ->]].
    + rewrite lookup_insert_ne by (intros E; by apply Hu in Hn).
      by apply co_hook.
    + simpl. rewrite lookup_insert_eq. done.
  - simpl. intros fd' ev n Hn. destruct (decide (fd = fd')) as [->|].
    + rewrite lookup_insert_eq in Hn. simplify_eq. eexists.
      split; [by apply list_lookup_middle|done].
    + rewrite lookup_insert_ne in Hn by done.
      destruct (co_epoll _ Hl _ _ _ Hn) as (h & Hh & ?). exists h. split; [|done].
      by apply lookup_app_l_Some.
  - unfold num_fds in *; simpl. rewrite length_app; simpl. lia.
  - intros fd'. unfold view; simpl. destruct (decide (fd = fd')) as [->|].
    + rewrite !lookup_insert_eq. by rewrite list_lookup_middle.
    + rewrite !lookup_insert_ne, Hm by done. unfold view.
      destruct (l_epoll l !! fd') as [[ev k]|] eqn:He; [|done].
      destruct (co_epoll _ Hl _ _ _ He) as (h & Hh & _).
      by rewrite (lookup_app_l_Some _ _ _ _ Hh), Hh.
Qed.

Lemma looper_add_settled l fd u : settled l -> settled (looper_add l fd u).
Proof.
  intros Hs n h. unfold looper_add.
  assert (Hh : l_hooks (if num_fds l >=? l_max_fds l then looper_grow l else l) = l_hooks l)
    by (by destruct (_ >=? _)).
  simpl. rewrite Hh. intros [?|[Hge Hn]]%lookup_app_Some; [by eapply Hs|].
  destruct (n - length (l_hooks l))%nat; simplify_eq/=. done.
Qed.

(** Updating one hook without touching its descriptor. *)
Lemma alter_hook_lookup (f : LoopHook U -> LoopHook U) (hs : list (LoopHook U)) (n k : nat) h :
  alter f n hs !! k = Some h ->
  exists h0, hs !! k = Some h0 /\ h = if decide (n = k) then f h0 else h0.
Proof.
  rewrite list_lookup_alter. case_decide; [subst|by eauto].
  destruct (hs !! k); intros; simplify_eq/=; eauto.
Qed.

Lemma closing_lor s : has (Z.lor s HOOK_CLOSING) HOOK_CLOSING = true.
Proof.
  unfold has. rewrite Z.land_lor_distr_l. change (Z.land HOOK_CLOSING HOOK_CLOSING) with 2.
  destruct (_ =? 0) eqn:E; [|done]. apply Z.eqb_eq in E.
  apply Z.lor_eq_0_iff in E as [_ ?]. lia.
Qed.

Lemma looper_del_represents l m fd :
  represents l m -> represents (looper_del l fd) (delete fd m).
Proof.
  intros [Hl Hm]. unfold looper_del.
  destruct (looper_find l fd) as [n|] eqn:Hf.
  2:{ split; [done|]. intros fd'. destruct (decide (fd = fd')) as [<-|].
      - rewrite lookup_delete_eq. symmetry. destruct (view l fd) as [[u ev]|] eqn:Hv; [|done].
        apply view_some in Hv as (n & h & Hn & Hfd & _); [|done].
        assert (looper_find l fd = Some n) by (apply looper_find_some; eauto). congruence.
      - by rewrite lookup_delete_ne. }
  apply looper_find_some in Hf as (h & Hn & Hfd); [|done].
  set (f := fun h => set_state (Z.lor (h_state h) HOOK_CLOSING) h).
  split; [split|].
  - simpl. intros i j h1 h2 Hi Hj E.
    apply alter_hook_lookup in Hi as (h1' & Hi & ->), Hj as (h2' & Hj & ->).
    apply (co_fds _ Hl _ _ _ _ Hi Hj). by destruct (decide (n = i)), (decide (n = j)).
  - simpl. intros k hk Hk. apply alter_hook_lookup in Hk as (h0 & Hk & ->).
    unfold epoll_ctl_del. case_decide as Hnk.
    + subst k. simplify_eq. change (h_fd (f h)) with (h_fd h). rewrite lookup_delete_eq.
      unfold closing, f, set_state; simpl. by rewrite closing_lor.
    + rewrite lookup_delete_ne; [by apply co_hook|].
      intros E. apply Hnk. apply (co_fds _ Hl _ _ _ _ Hn Hk). congruence.
  - simpl. intros fd' ev k. unfold epoll_ctl_del. intros [Hne He]%lookup_delete_Some.
    destruct (co_epoll _ Hl _ _ _ He) as (hk & Hk & Hfd').
    rewrite list_lookup_alter. case_decide; [subst|by eauto].
    rewrite Hk. eexists. split; [reflexivity|done].
  - unfold num_fds; simpl. rewrite length_alter. by apply co_room.
  - intros fd'. unfold view; simpl. unfold epoll_ctl_del.
    destruct (decide (fd = fd')) as [->|]; [by rewrite !lookup_delete_eq|].
    rewrite !lookup_delete_ne, Hm by done. unfold view.
    destruct (l_epoll l !! fd') as [[ev k]|] eqn:He; [|done].
    rewrite list_lookup_alter. case_decide; [subst k|done].
    by destruct (l_hooks l !! n).
Qed.

Lemma looper_set_wanted_represents l m n h fd w :
  represents l m -> l_hooks l !! n = Some h -> h_fd h = fd -> closing h = false ->
  represents (looper_set_wanted l n fd w) (<[fd := (h_user h, w)]> m).
Proof.
  intros [Hl Hm] Hn Hfd Hc.
  pose proof (co_hook _ Hl _ _ Hn) as Hh. rewrite Hc, Hfd in Hh.
  unfold looper_set_wanted, epoll_ctl_mod. rewrite Hh.
  split; [split|]; simpl.
  - intros i j h1 h2 Hi Hj E.
    apply alter_hook_lookup in Hi as (h1' & Hi & ->), Hj as (h2' & Hj & ->).
    apply (co_fds _ Hl _ _ _ _ Hi Hj). by destruct (decide (n = i)), (decide (n = j)).
  - intros k hk Hk. apply alter_hook_lookup in Hk as (h0 & Hk & ->).
    case_decide as Hnk.
    + subst k. simplify_eq. simpl. rewrite lookup_insert_eq.
      unfold closing in *; simpl. by rewrite Hc.
    + rewrite lookup_insert_ne; [by apply co_hook|].
      intros E. apply Hnk. apply (co_fds _ Hl _ _ _ _ Hn Hk). congruence.
  - intros fd' ev k Hk. rewrite list_lookup_alter.
    destruct (decide (fd = fd')) as [->|].
    + rewrite lookup_insert_eq in Hk. simplify_eq. rewrite decide_True, Hn by done.
      by eexists.
    + rewrite lookup_insert_ne in Hk by done.
      destruct (co_epoll _ Hl _ _ _ Hk) as (hk & Hk' & ?).
      case_decide; [subst|by eauto]. rewrite Hk'. by eexists.
  - unfold num_fds; simpl. rewrite length_alter. by apply co_room.
  - intros fd'. unfold view; simpl.
    destruct (decide (fd = fd')) as [->|].
    + by rewrite !lookup_insert_eq, list_lookup_alter_eq, Hn.
    + rewrite !lookup_insert_ne, Hm by done. unfold view.
      destruct (l_epoll l !! fd') as [[ev k]|] eqn:He; [|done].
      rewrite list_lookup_alter. case_decide; [subst k|done].
      by destruct (l_hooks l !! n).
Qed.

Lemma has_lnot_lor x y : has x (Z.lnot y) = false -> Z.lor y x = y.
Proof.
  unfold has. intros H. apply negb_false_iff, Z.eqb_eq in H.
  apply Z.bits_inj'. intros n Hn. rewrite Z.lor_spec.
  apply (f_equal (fun z => Z.testbit z n)) in H.
  rewrite Z.land_spec, Z.lnot_spec, Z.bits_0 in H by done.
  by destruct (Z.testbit x n), (Z.testbit y n).
Qed.

Lemma has_land_lnot x y : has x y = false -> Z.land y (Z.lnot x) = y.
Proof.
  unfold has. intros H. apply negb_false_iff, Z.eqb_eq in H.
  apply Z.bits_inj'. intros n Hn. rewrite Z.land_spec, Z.lnot_spec by done.
  apply (f_equal (fun z => Z.testbit z n)) in H.
  rewrite Z.land_spec, Z.bits_0 in H.
  by destruct (Z.testbit x n), (Z.testbit y n).
Qed.

(** The hook [looper_find] returns for a monitored descriptor. *)
Lemma represents_find l m fd u ev :
  represents l m -> m !! fd = Some (u, ev) ->
  exists n h, looper_find l fd = Some n /\ l_hooks l !! n = Some h /\ h_fd h = fd /\
    h_user h = u /\ h_wanted h = ev /\ closing h = false.
Proof.
  intros [Hl Hm] H. rewrite Hm in H.
  apply view_some in H as (n & h & ? & ? & ? & ? & ?); [|done].
  exists n, h. split; [|done]. apply looper_find_some; eauto.
Qed.

Lemma looper_enable_represents l m fd u ev events :
  represents l m -> m !! fd = Some (u, ev) ->
  represents (looper_enable l fd events) (<[fd := (u, Z.lor ev events)]> m).
Proof.
  intros Hr Hm. destruct (represents_find _ _ _ _ _ Hr Hm) as (n & h & Hf & Hn & Hfd & <- & <- & Hc).
  unfold looper_enable. rewrite Hf, Hn. destruct (has _ _) eqn:Hh.
  - by apply looper_set_wanted_represents.
  - rewrite has_lnot_lor by done. by rewrite insert_id.
Qed.

Lemma looper_disable_represents l m fd u ev events :
  represents l m -> m !! fd = Some (u, ev) ->
  represents (looper_disable l fd events) (<[fd := (u, Z.land ev (Z.lnot events))]> m).
Proof.
  intros Hr Hm. destruct (represents_find _ _ _ _ _ Hr Hm) as (n & h & Hf & Hn & Hfd & <- & <- & Hc).
  unfold looper_disable. rewrite Hf, Hn. destruct (has _ _) eqn:Hh.
  - by apply looper_set_wanted_represents.
  - rewrite has_land_lnot by done. by rewrite insert_id.
Qed.

(** Changing the [state] or [events] of hooks, without closing or reopening
    any, keeps the looper coherent and its map. *)
Definition same_hook (h h' : LoopHook U) : Prop :=
  h_fd h' = h_fd h /\ h_wanted h' = h_wanted h /\ h_user h' = h_user h /\
  closing h' = closing h.

Lemma represents_same_hooks l m hs :
  represents l m -> Forall2 same_hook (l_hooks l) hs ->
  represents (mkLooper (l_epoll l) (l_max_fds l) hs) m.
Proof.
  intros [Hl Hm] Hs. split; [split|]; simpl.
  - intros i j h h' Hi Hj E.
    destruct (Forall2_lookup_r _ _ _ _ _ Hs Hi) as (h1 & Hi1 & E1 & _).
    destruct (Forall2_lookup_r _ _ _ _ _ Hs Hj) as (h2 & Hj2 & E2 & _).
    apply (co_fds _ Hl _ _ _ _ Hi1 Hj2). congruence.
  - intros n h Hn. destruct (Forall2_lookup_r _ _ _ _ _ Hs Hn) as (h1 & H1 & -> & -> & _ & ->).
    by apply co_hook.
  - intros fd ev n He. destruct (co_epoll _ Hl _ _ _ He) as (h & Hn & Hfd).
    destruct (Forall2_lookup_l _ _ _ _ _ Hs Hn) as (h1 & H1 & E1 & _).
    exists h1. split; [done|congruence].
  - unfold num_fds; simpl. rewrite <-(Forall2_length _ _ _ Hs). by apply co_room.
  - intros fd. rewrite Hm. unfold view; simpl.
    destruct (l_epoll l !! fd) as [[ev n]|]; [|done].
    destruct (l_hooks l !! n) as [h|] eqn:Hn.
    + destruct (Forall2_lookup_l _ _ _ _ _ Hs Hn) as (h1 & -> & _ & _ & E & _).
      simpl. by rewrite E.
    + apply lookup_ge_None in Hn. rewrite (Forall2_length _ _ _ Hs) in Hn.
      by apply lookup_ge_None in Hn as ->.
Qed.

Lemma Forall2_alter_same (R : LoopHook U -> LoopHook U -> Prop) f (hs : list (LoopHook U)) (n : nat) :
  (forall h, R h h) -> (forall h, hs !! n = Some h -> R h (f h)) ->
  Forall2 R hs (alter f n hs).
Proof.
  intros Hrefl Hf. apply Forall2_same_length_lookup. split; [by rewrite length_alter|].
  intros i h h' Hi Hi'. apply alter_hook_lookup in Hi' as (h0 & H0 & ->).
  simplify_eq. case_decide; [subst; auto|auto].
Qed.

Lemma same_hook_refl h : same_hook h h.
Proof. done. Qed.

(** Marking hooks pending: with no hook waiting for removal, nothing is lost. *)
Lemma mark_pending_represents l m ready :
  represents l m -> settled l ->
  represents (mark_pending l ready) m /\ settled (mark_pending l ready).
Proof.
  intros Hr Hs. unfold mark_pending.
  assert (Hgen : forall hs, Forall2 same_hook (l_hooks l) hs ->
    Forall2 same_hook (l_hooks l)
      (fold_left (fun hs r => alter (set_pending r.2) r.1 hs) ready hs)).
  { induction ready as [|[n ev] ready IH]; intros hs Hhs; simpl; [done|].
    apply IH. apply Forall2_same_length_lookup. split.
    { rewrite length_alter. by eapply Forall2_length. }
    intros i h h' Hi Hi'. apply alter_hook_lookup in Hi' as (h0 & H0 & ->).
    destruct (Forall2_lookup_lr _ _ _ _ _ _ Hhs Hi H0) as (E1 & E2 & E3 & E4).
    case_decide; [|done]. split_and!; [done..|].
    rewrite (Hs _ _ Hi). reflexivity. }
  specialize (Hgen (l_hooks l)).
  assert (H : Forall2 same_hook (l_hooks l) (l_hooks l))
    by (apply Forall_Forall2_diag, Forall_forall; done).
  specialize (Hgen H). split; [by apply represents_same_hooks|].
  intros n h Hn. simpl in Hn.
  destruct (Forall2_lookup_r _ _ _ _ _ Hgen Hn) as (h1 & H1 & _ & _ & _ & ->).
  by eapply Hs.
Qed.

(** Moving the last element over the [n]th. *)
Lemma swap_remove_lookup {A} (hs : list A) n lst :
  (0 < length hs)%nat ->
  forall i x, removelast (<[n := lst]> hs) !! i = Some x <->
    (i < pred (length hs))%nat /\ (if decide (i = n) then x = lst else hs !! i = Some x).
Proof.
  intros Hlen i x. rewrite removelast_firstn_len, length_insert.
  destruct (decide (i < pred (length hs))%nat) as [Hi|Hi].
  - rewrite lookup_take_lt by done. case_decide as E.
    + subst. rewrite list_lookup_insert_eq by lia. naive_solver.
    + rewrite list_lookup_insert_ne by done. naive_solver.
  - rewrite lookup_take_ge by lia. naive_solver.
Qed.

(** The interest list, seen through the moved hook. *)
Lemma moved_hook_epoll l lst n :
  l_epoll l !! h_fd lst = (if closing lst then None else Some (h_wanted lst, pred (length (l_hooks l)))) ->
  forall fd, epoll_ctl_mod (l_epoll l) (h_fd lst) (h_wanted lst, n) !! fd =
    if decide (fd = h_fd lst) then (if closing lst then None else Some (h_wanted lst, n))
    else l_epoll l !! fd.
Proof.
  intros Hle fd. unfold epoll_ctl_mod. rewrite Hle.
  destruct (closing lst); case_decide; subst; try done.
  - by rewrite lookup_insert_eq.
  - by rewrite lookup_insert_ne.
Qed.

(** One removal step: the hole is filled with the last hook. *)
Lemma remove_step_represents l m n h lst :
  represents l m -> l_hooks l !! n = Some h -> closing h = true ->
  last (l_hooks l) = Some lst ->
  represents
    (mkLooper (epoll_ctl_mod (l_epoll l) (h_fd lst) (h_wanted lst, n)) (l_max_fds l)
       (removelast (<[n := lst]> (l_hooks l)))) m.
Proof.
  intros [Hl Hm] Hn Hc Hlast.
  set (hs := l_hooks l) in *. set (hs' := removelast (<[n := lst]> hs)).
  assert (Hlen : (0 < length hs)%nat) by (apply lookup_lt_Some in Hn; lia).
  rewrite last_lookup in Hlast.
  pose proof (swap_remove_lookup hs n lst Hlen) as Hlk. fold hs' in Hlk.
  assert (Hother : forall i x, hs !! i = Some x -> i <> n -> h_fd x <> h_fd h).
  { intros i x Hi Hne E. apply Hne. by apply (co_fds _ Hl _ _ _ _ Hi Hn). }
  pose proof (co_hook _ Hl _ _ Hn) as Hhe. rewrite Hc in Hhe.
  pose proof (co_hook _ Hl _ _ Hlast) as Hle.
  set (e' := epoll_ctl_mod (l_epoll l) (h_fd lst) (h_wanted lst, n)).
  pose proof (moved_hook_epoll l lst n Hle) as He'. fold e' in He'.
  assert (Hnl : closing lst = false -> n <> pred (length hs)).
  { intros ? ->. rewrite Hlast in Hn. congruence. }
  split; [split|]; simpl; fold e' hs'.
  - intros i j x y Hi Hj E. apply Hlk in Hi as [Hi1 Hi2], Hj as [Hj1 Hj2].
    destruct (decide (i = n)) as [->|], (decide (j = n)) as [->|]; simplify_eq; try done.
    + pose proof (co_fds _ Hl _ _ _ _ Hlast Hj2 E). lia.
    + pose proof (co_fds _ Hl _ _ _ _ Hi2 Hlast E). lia.
    + by apply (co_fds _ Hl _ _ _ _ Hi2 Hj2).
  - intros i x Hi. apply Hlk in Hi as [Hi1 Hi2]. rewrite He'.
    destruct (decide (i = n)) as [->|]; [subst x; by rewrite decide_True|].
    rewrite decide_False; [by apply (co_hook _ Hl)|].
    intros E. pose proof (co_fds _ Hl _ _ _ _ Hi2 Hlast E). lia.
  - intros fd ev k. rewrite He'. case_decide as E.
    + destruct (closing lst) eqn:Hcl; [done|]. intros [= <- <-]. exists lst.
      specialize (Hnl eq_refl). split; [|done]. apply Hlk.
      apply lookup_lt_Some in Hn. rewrite decide_True by done. split; [lia|done].
    + intros He. destruct (co_epoll _ Hl _ _ _ He) as (x & Hx & Hfd).
      exists x. split; [|done]. fold hs in Hx. apply Hlk.
      assert (k <> n) by (intros ->; rewrite Hn in Hx; simplify_eq; congruence).
      assert (k <> pred (length hs)) by (intros ->; rewrite Hlast in Hx; simplify_eq; done).
      apply lookup_lt_Some in Hx as ?. rewrite decide_False by done. split; [lia|done].
  - unfold num_fds; simpl. unfold hs'. rewrite removelast_firstn_len, length_take, length_insert.
    pose proof (co_room _ Hl) as Hroom. unfold num_fds in Hroom. fold hs in Hroom. lia.
  - intros fd. rewrite Hm. unfold view; simpl. fold e' hs hs'. rewrite He'.
    case_decide as E.
    + subst fd. rewrite Hle. destruct (closing lst) eqn:Hcl; [done|].
      rewrite Hlast. simpl.
      assert (hs' !! n = Some lst) as ->; [|done].
      apply Hlk. specialize (Hnl eq_refl). apply lookup_lt_Some in Hn.
      rewrite decide_True by done. split; [lia|done].
    + destruct (l_epoll l !! fd) as [[ev k]|] eqn:He; [|done].
      destruct (co_epoll _ Hl _ _ _ He) as (x & Hx & Hfd). fold hs in Hx.
      assert (k <> n) by (intros ->; rewrite Hn in Hx; simplify_eq; congruence).
      assert (k <> pred (length hs)) by (intros ->; rewrite Hlast in Hx; simplify_eq; done).
      assert (hs' !! k = Some x) as ->; [|by rewrite Hx].
      apply lookup_lt_Some in Hx as ?. apply Hlk. rewrite decide_False by done.
      split; [lia|done].
Qed.

(** The removal loop terminates, keeps the map, and leaves no closed hook. *)
Lemma remove_closed_represents fuel n l m :
  represents l m -> (length (l_hooks l) - n <= fuel)%nat ->
  (forall i h, (i < n)%nat -> l_hooks l !! i = Some h -> closing h = false) ->
  exists l', remove_closed fuel n l = Ok l' /\ represents l' m /\ settled l' /\
    (forall fd, unused l fd -> unused l' fd).
Proof.
  revert n l; induction fuel as [|fuel IH]; intros n l Hr Hf Hlt; cbn [remove_closed].
  all: destruct (l_hooks l !! n) as [h|] eqn:Hn;
    [|exists l; split; [done|]; split; [done|]; split; [|done];
      intros i h Hi; apply (Hlt i); [|done];
      apply lookup_ge_None in Hn; apply lookup_lt_Some in Hi; lia].
  { apply lookup_lt_Some in Hn. lia. }
  apply lookup_lt_Some in Hn as Hnlt.
  fold (closing h). destruct (closing h) eqn:Hc; simpl.
  - destruct (last (l_hooks l)) as [lst|] eqn:Hlast.
    2:{ apply last_None in Hlast. rewrite Hlast in Hn. done. }
    destruct (IH n (mkLooper (epoll_ctl_mod (l_epoll l) (h_fd lst) (h_wanted lst, n))
      (l_max_fds l) (removelast (<[n := lst]> (l_hooks l))))) as (l' & ? & ? & ? & Hu).
    + by eapply remove_step_represents.
    + simpl. rewrite removelast_firstn_len, length_take, length_insert. lia.
    + simpl. intros i hi Hi. rewrite removelast_firstn_len, length_insert.
      rewrite lookup_take_lt by lia. rewrite list_lookup_insert_ne by lia. by apply Hlt.
    + exists l'. split_and!; [done..|]. intros fd Hfd. apply Hu. intros i hi. simpl.
      rewrite removelast_firstn_len. intros [Hi _]%lookup_take_Some.
      apply list_lookup_insert_Some in Hi as [(_ & <- & _)|[_ Hi]]; [|by eapply Hfd].
      rewrite last_lookup in Hlast. by eapply Hfd.
  - apply IH; [done|lia|]. intros i hi Hi Hhi.
    destruct (decide (i = n)) as [->|]; [congruence|apply (Hlt i); [lia|done]].
Qed.
End Spec.

(** ** Hooks that wait for nothing

    Between two turns no hook is pending; the operations a callback may call
    never make one pending, so that a turn calls exactly the hooks that
    [epoll_wait] reported. *)
Section Calm.
Context {U : Type}.
Implicit Types (l : Looper U).

Definition calm l : Prop := Forall (fun h => has (h_state h) HOOK_PENDING = false) (l_hooks l).

(** [l'] has as many hooks as [l], and no new pending one. *)
Record steady (l l' : Looper U) : Prop := {
  st_length : length (l_hooks l') = length (l_hooks l);
  st_calm : calm l -> calm l'
}.

#[export] Instance steady_preorder : PreOrder steady.
Proof. split; [by split|]. intros ??? [] []. split; [congruence|auto]. Qed.

Lemma calm_alter l e mx f n :
  (forall h, has (h_state h) HOOK_PENDING = false -> has (h_state (f h)) HOOK_PENDING = false) ->
  steady l (mkLooper e mx (alter f n (l_hooks l))).
Proof.
  intros Hf. split; unfold calm; simpl; [by rewrite length_alter|].
  intros Hc. apply Forall_lookup. intros i h Hi. rewrite Forall_lookup in Hc.
  destruct (decide (n = i)) as [<-|Hne].
  - rewrite list_lookup_alter_eq in Hi. apply fmap_Some in Hi as (h0 & H0 & ->).
    by eapply Hf, Hc.
  - rewrite list_lookup_alter_ne in Hi by done. by eapply Hc.
Qed.

Lemma pending_closing s : has s HOOK_PENDING = false -> has (Z.lor s HOOK_CLOSING) HOOK_PENDING = false.
Proof.
  unfold has. rewrite Z.land_lor_distr_l.
  change (Z.land HOOK_CLOSING HOOK_PENDING) with 0. by rewrite Z.lor_0_r.
Qed.

Lemma looper_del_steady l fd : steady l (looper_del l fd).
Proof.
  unfold looper_del. destruct (looper_find l fd); [|done].
  apply calm_alter. intros h. apply pending_closing.
Qed.

Lemma looper_enable_steady l fd ev : steady l (looper_enable l fd ev).
Proof.
  unfold looper_enable. destruct (looper_find l fd) as [n|]; [|done].
  destruct (l_hooks l !! n); [|done]. destruct (has _ _); [|done]. by apply calm_alter.
Qed.

Lemma looper_disable_steady l fd ev : steady l (looper_disable l fd ev).
Proof.
  unfold looper_disable. destruct (looper_find l fd) as [n|]; [|done].
  destruct (l_hooks l !! n); [|done]. destruct (has _ _); [|done]. by apply calm_alter.
Qed.

Lemma looper_add_calm l fd u :
  calm l -> calm (looper_add l fd u) /\
  length (l_hooks (looper_add l fd u)) = S (length (l_hooks l)).
Proof.
  intros Hc. unfold looper_add, calm.
  assert (Hh : l_hooks (if num_fds l >=? l_max_fds l then looper_grow l else l) = l_hooks l)
    by (by destruct (_ >=? _)).
  simpl. rewrite Hh, length_app. split; [|simpl; lia].
  apply Forall_app. split; [done|]. by constructor.
Qed.

Lemma remove_closed_calm fuel n l l' :
  calm l -> remove_closed fuel n l = Ok l' -> calm l'.
Proof.
  revert n l; induction fuel as [|fuel IH]; intros n l Hc; cbn [remove_closed].
  all: destruct (l_hooks l !! n) as [h|]; [|by intros [= <-]].
  { done. }
  destruct (has _ _); simpl; [|by apply IH].
  destruct (last (l_hooks l)) as [lst|] eqn:Hl; [|done]. apply IH. unfold calm. simpl.
  rewrite removelast_firstn_len. apply Forall_take, Forall_insert; [done|].
  rewrite last_lookup in Hl. unfold calm in Hc. rewrite Forall_lookup in Hc. by eapply Hc.
Qed.

End Calm.

Section CalmRun.
Context {W U : Type} {HL : HasLooper W U} (callback : U -> Z -> W -> result W).

Lemma run_hooks_calm fuel n (w : W) :
  calm (get_looper w) -> (length (l_hooks (get_looper w)) - n <= fuel)%nat ->
  run_hooks callback fuel n w = Ok w.
Proof.
  intros Hc. revert n; induction fuel as [|fuel IH]; intros n Hlen; cbn [run_hooks].
  all: destruct (l_hooks (get_looper w) !! n) as [h|] eqn:Hn; [|done].
  { apply lookup_lt_Some in Hn. lia. }
  unfold calm in Hc. rewrite Forall_lookup in Hc. rewrite (Hc _ _ Hn).
  apply IH. lia.
Qed.

(** The hooks before the first pending one are skipped. *)
Lemma run_hooks_skip k fuel n (w : W) :
  (forall i h, (n <= i < n + k)%nat -> l_hooks (get_looper w) !! i = Some h ->
     has (h_state h) HOOK_PENDING = false) ->
  (n + k <= length (l_hooks (get_looper w)))%nat ->
  run_hooks callback (k + fuel) n w = run_hooks callback fuel (n + k) w.
Proof.
  revert n; induction k as [|k IH]; intros n Hc Hlen.
  { by rewrite Nat.add_0_r. }
  cbn [Nat.add run_hooks].
  destruct (l_hooks (get_looper w) !! n) as [h|] eqn:Hn.
  2:{ apply lookup_ge_None in Hn. lia. }
  rewrite (Hc n h) by (done || lia). rewrite IH; [|intros i hi Hi; apply Hc; lia|lia].
  f_equal. lia.
Qed.
End CalmRun.

(** Enabling and adding hooks: no hook becomes closed, descriptors stay. *)
Section Fresh.
Context {U : Type}.
Implicit Types (l : Looper U).

Lemma looper_enable_lookup l fd ev n h :
  l_hooks (looper_enable l fd ev) !! n = Some h ->
  exists h0, l_hooks l !! n = Some h0 /\ h_fd h = h_fd h0 /\ closing h = closing h0.
Proof.
  unfold looper_enable. destruct (looper_find l fd) as [k|]; [|by exists h].
  destruct (l_hooks l !! k); [|by exists h]. destruct (has _ _); [|by exists h].
  simpl. intros (h0 & H0 & ->)%alter_hook_lookup. exists h0. by case_decide.
Qed.

Lemma looper_enable_settled l fd ev : settled l -> settled (looper_enable l fd ev).
Proof. intros Hs n h (h0 & H0 & _ & ->)%looper_enable_lookup. by eapply Hs. Qed.

Lemma looper_enable_unused l fd ev fd' : unused l fd' -> unused (looper_enable l fd ev) fd'.
Proof. intros Hu n h (h0 & H0 & -> & _)%looper_enable_lookup. by eapply Hu. Qed.

Lemma looper_add_unused l fd u fd' : unused l fd' -> fd <> fd' -> unused (looper_add l fd u) fd'.
Proof.
  intros Hu Hne n h. unfold looper_add.
  assert (Hh : l_hooks (if num_fds l >=? l_max_fds l then looper_grow l else l) = l_hooks l)
    by (by destruct (_ >=? _)).
  simpl. rewrite Hh. intros [Hn|[_ Hn]]%lookup_app_Some; [by eapply Hu|].
  apply list_lookup_singleton_Some in Hn as [_ <-]. done.
Qed.
End Fresh.
