(* ===== verification/QemudMux.v ===== *)
(** * qemud: descriptor handlers, clients and the multiplexer

    Models the "FD HANDLERS", "CLIENTS" and "GLOBAL MULTIPLEXER" parts of
    [src/emulator/qemud/qemud.c] over one shared world: the heap of live
    [FDHandler] and [Client] objects with their intrusive lists, the looper, the
    packet pool, the serial object.  An access to an object that was freed is
    the fault [UseAfterFree]; [fatal] is the fault [FatalExit].  The results of
    the system calls are consumed from [w_env], in order. *)
From S2P Require Import Prelude QemudPacket QemudSerial PrefList QemudLooper.
Local Open Scope Z_scope.

(** The objects a [Receiver]'s [user] points to; they determine the functions
    behind [post] and [close]. *)
Inductive endpoint : Type :=
  | SerialEnd                 (** serial_fd_receive, serial_fd_close *)
  | ControlEnd                (** multiplexer_control_accept, multiplexer_control_close *)
  | ClientEnd (c : nat).      (** client_fd_receive, client_fd_close *)

(** [r_post], [r_close]: whether the function pointers are non-NULL. *)
Record Receiver : Type := mkReceiver {
  r_user : endpoint;
  r_post : bool;
  r_close : bool
}.

Record FDHandler : Type := mkFDHandler {
  f_fd : Z;
  f_closing : bool;
  f_receiver : Receiver;
  f_out_pos : Z;
  f_out : list Packet          (** [out_first], linked by [next], [out_ptail] at its end *)
}.

Record Client : Type := mkClient {
  c_channel : Z;
  c_registered : bool;
  c_fdhandler : option nat
}.

(** [ev_func]: the two event callbacks; [ev_user] is the handler's address. *)
Inductive ev_func : Type := EvHandler | EvAccept.
Abbreviation ev_user := (nat * ev_func)%type.

(** The result of one system call. *)
Inductive sysret : Type :=
  | SysEINTR
  | SysFail
  | SysData (bs : list Z)      (** read: the bytes *)
  | SysCount (n : Z).          (** write: the count; accept: the descriptor *)

(** Labels of the handler lists. *)
Definition active_list : nat := 0.
Definition closing_list : nat := 1.
(** Label of the client list. *)
Definition clients_list : nat := 0.

Record World : Type := mkWorld {
  w_looper : Looper ev_user;
  w_fds : gmap nat FDHandler;
  w_fdl : plist;
  w_clients : gmap nat Client;
  w_cll : plist;
  w_last_channel : Z;
  w_serial : Serial;
  w_serial_fdh : nat;
  w_free : list Packet;
  w_next : nat;                          (** next fresh address *)
  w_env : list sysret;
  w_written : list (Z * list Z)          (** bytes accepted by descriptors *)
}.

Definition upd_looper (l : Looper ev_user) (w : World) : World :=
  mkWorld l (w_fds w) (w_fdl w) (w_clients w) (w_cll w) (w_last_channel w)
    (w_serial w) (w_serial_fdh w) (w_free w) (w_next w) (w_env w) (w_written w).
Definition upd_fds (m : gmap nat FDHandler) (w : World) : World :=
  mkWorld (w_looper w) m (w_fdl w) (w_clients w) (w_cll w) (w_last_channel w)
    (w_serial w) (w_serial_fdh w) (w_free w) (w_next w) (w_env w) (w_written w).
Definition upd_fdl (pl : plist) (w : World) : World :=
  mkWorld (w_looper w) (w_fds w) pl (w_clients w) (w_cll w) (w_last_channel w)
    (w_serial w) (w_serial_fdh w) (w_free w) (w_next w) (w_env w) (w_written w).
Definition upd_clients (m : gmap nat Client) (w : World) : World :=
  mkWorld (w_looper w) (w_fds w) (w_fdl w) m (w_cll w) (w_last_channel w)
    (w_serial w) (w_serial_fdh w) (w_free w) (w_next w) (w_env w) (w_written w).
Definition upd_cll (pl : plist) (w : World) : World :=
  mkWorld (w_looper w) (w_fds w) (w_fdl w) (w_clients w) pl (w_last_channel w)
    (w_serial w) (w_serial_fdh w) (w_free w) (w_next w) (w_env w) (w_written w).
Definition upd_last_channel (n : Z) (w : World) : World :=
  mkWorld (w_looper w) (w_fds w) (w_fdl w) (w_clients w) (w_cll w) n
    (w_serial w) (w_serial_fdh w) (w_free w) (w_next w) (w_env w) (w_written w).
Definition upd_serial (s : Serial) (w : World) : World :=
  mkWorld (w_looper w) (w_fds w) (w_fdl w) (w_clients w) (w_cll w) (w_last_channel w)
    s (w_serial_fdh w) (w_free w) (w_next w) (w_env w) (w_written w).
Definition upd_serial_fdh (f : nat) (w : World) : World :=
  mkWorld (w_looper w) (w_fds w) (w_fdl w) (w_clients w) (w_cll w) (w_last_channel w)
    (w_serial w) f (w_free w) (w_next w) (w_env w) (w_written w).
Definition upd_free (l : list Packet) (w : World) : World :=
  mkWorld (w_looper w) (w_fds w) (w_fdl w) (w_clients w) (w_cll w) (w_last_channel w)
    (w_serial w) (w_serial_fdh w) l (w_next w) (w_env w) (w_written w).
Definition upd_next (n : nat) (w : World) : World :=
  mkWorld (w_looper w) (w_fds w) (w_fdl w) (w_clients w) (w_cll w) (w_last_channel w)
    (w_serial w) (w_serial_fdh w) (w_free w) n (w_env w) (w_written w).
Definition upd_env (e : list sysret) (w : World) : World :=
  mkWorld (w_looper w) (w_fds w) (w_fdl w) (w_clients w) (w_cll w) (w_last_channel w)
    (w_serial w) (w_serial_fdh w) (w_free w) (w_next w) e (w_written w).
Definition upd_written (l : list (Z * list Z)) (w : World) : World :=
  mkWorld (w_looper w) (w_fds w) (w_fdl w) (w_clients w) (w_cll w) (w_last_channel w)
    (w_serial w) (w_serial_fdh w) (w_free w) (w_next w) (w_env w) l.

#[export] Instance world_pool : PacketPool World := {
  free_packets := w_free;
  set_free_packets := upd_free;
  malloc_bytes := replicate MAX_PAYLOAD 0
}.

#[export] Instance world_pool_laws : PacketPoolLaws World.
Proof. split; [done|done|]. apply length_replicate. Qed.

#[export] Instance world_looper : HasLooper World ev_user := {
  get_looper := w_looper;
  set_looper := upd_looper
}.

(** ** System calls, retried while interrupted *)

Fixpoint sys_call (env : list sysret) : sysret * list sysret :=
  match env with
  | [] => (SysFail, [])
  | SysEINTR :: env => sys_call env
  | r :: env => (r, env)
  end.

(** The bytes read, [None] for an error. *)
Definition fd_read (len : nat) (w : World) : option (list Z) * World :=
  let '(r, env) := sys_call (w_env w) in
  (match r with SysData bs => Some (take len bs) | _ => None end, upd_env env w).

(** The number of bytes accepted, at most what was given. *)
Definition fd_write (fd : Z) (from : list Z) (w : World) : option Z * World :=
  let '(r, env) := sys_call (w_env w) in
  match r with
  | SysCount n =>
      let n := Z.max 0 (Z.min n (Z.of_nat (length from))) in
      (Some n, upd_written (w_written w ++ [(fd, take (Z.to_nat n) from)]) (upd_env env w))
  | _ => (None, upd_env env w)
  end.

Definition fd_accept (w : World) : Z * World :=
  let '(r, env) := sys_call (w_env w) in
  (match r with SysCount fd => fd | _ => -1 end, upd_env env w).

(** ** Descriptor handlers *)

Definition fdh (f : nat) (w : World) : result FDHandler :=
  from_option_or UseAfterFree (w_fds w !! f).
Definition put_fdh (f : nat) (F : FDHandler) (w : World) : World :=
  upd_fds (<[f := F]> (w_fds w)) w.

Definition set_receiver (r : Receiver) (F : FDHandler) : FDHandler :=
  mkFDHandler (f_fd F) (f_closing F) r (f_out_pos F) (f_out F).
Definition set_closing (F : FDHandler) : FDHandler :=
  mkFDHandler (f_fd F) true (f_receiver F) (f_out_pos F) (f_out F).
Definition set_out (pos : Z) (q : list Packet) (F : FDHandler) : FDHandler :=
  mkFDHandler (f_fd F) (f_closing F) (f_receiver F) pos q.

Definition fdhandler_remove (f : nat) (w : World) : result World :=
  pl ← pl_remove f (w_fdl w); Ok (upd_fdl pl w).

Definition fdhandler_prepend (f label : nat) (w : World) : result World :=
  pl ← pl_prepend f label (w_fdl w); Ok (upd_fdl pl w).

Section Closing.
(** [r->close (r->user)], tied below to the clients' [close] functions. *)
Context (call_close : endpoint -> World -> result World).

Definition receiver_close (f : nat) (w : World) : result World :=
  F ← fdh f w;
  w ← (if r_close (f_receiver F) then call_close (r_user (f_receiver F)) w else Ok w);
  F ← fdh f w;
  Ok (put_fdh f (set_receiver (mkReceiver (r_user (f_receiver F)) false false) F) w).

Definition fdhandler_close (f : nat) (w : World) : result World :=
  w ← receiver_close f w;
  w ← fdhandler_remove f w;
  F ← fdh f w;
  let w := fold_left (fun w p => packet_free p w) (f_out F) w in
  let w := if f_fd F >=? 0 then upd_looper (looper_del (w_looper w) (f_fd F)) w else w in
  Ok (upd_fdl (pl_forget f (w_fdl w)) (upd_fds (delete f (w_fds w)) w)).

Definition fdhandler_shutdown (f : nat) (w : World) : result World :=
  F ← fdh f w;
  let F := set_receiver (mkReceiver (r_user (f_receiver F)) (r_post (f_receiver F)) false) F in
  let w := put_fdh f F w in
  match f_out F with
  | _ :: _ =>
      if negb (f_closing F) then
        let w := put_fdh f (set_closing F) w in
        w ← fdhandler_remove f w;
        fdhandler_prepend f closing_list w
      else fdhandler_close f w
  | [] => fdhandler_close f w
  end.
End Closing.

Definition fdhandler_enqueue (f : nat) (p : Packet) (w : World) : result World :=
  F ← fdh f w;
  match f_out F with
  | [] =>
      let w := put_fdh f (set_out 0 [p] F) w in
      Ok (upd_looper (looper_enable (w_looper w) (f_fd F) EPOLLOUT) w)
  | first => Ok (put_fdh f (set_out (f_out_pos F) (first ++ [p]) F) w)
  end.

Definition fdhandler_new (fd : Z) (recv : Receiver) (w : World) : result (nat * World) :=
  let f := w_next w in
  let w := upd_next (S f) (put_fdh f (mkFDHandler fd false recv 0 []) w) in
  w ← fdhandler_prepend f active_list w;
  let l := looper_add (w_looper w) fd (f, EvHandler) in
  Ok (f, upd_looper (looper_enable l fd EPOLLIN) w).

Definition fdhandler_new_accept (fd : Z) (recv : Receiver) (w : World)
    : result (nat * World) :=
  let f := w_next w in
  let w := upd_next (S f) (put_fdh f (mkFDHandler fd false recv 0 []) w) in
  w ← fdhandler_prepend f active_list w;
  let l := looper_add (w_looper w) fd (f, EvAccept) in
  Ok (f, upd_looper (looper_enable l fd EPOLLIN) w).

(** ** Clients and multiplexer *)

Definition client (c : nat) (w : World) : result Client :=
  from_option_or UseAfterFree (w_clients w !! c).
Definition put_client (c : nat) (C : Client) (w : World) : World :=
  upd_clients (<[c := C]> (w_clients w)) w.

(** [c = mult->clients; c != NULL; c = c->next]: the first client with the
    channel, from [cur] on. *)
Fixpoint find_client_from (fuel : nat) (cur : option nat) (channel : Z) (w : World)
    : result (option nat) :=
  match cur with
  | None => Ok None
  | Some c =>
      match fuel with
      | O => Err OutOfFuel
      | S fuel =>
          C ← client c w;
          if c_channel C =? channel then Ok (Some c)
          else
            n ← from_option_or UseAfterFree (nodes (w_cll w) !! c);
            find_client_from fuel (n_next n) channel w
      end
  end.

Definition multiplexer_find_client (channel : Z) (w : World) : result (option nat) :=
  find_client_from (size (w_clients w)) (heads (w_cll w) !! clients_list) channel w.

Definition multiplexer_serial_send (channel : Z) (p : Packet) (w : World) : result World :=
  serial_send (fdhandler_enqueue (w_serial_fdh w)) (set_p_channel channel p) w.

(** Lines 1550-1555: the next channel number no client uses. *)
Fixpoint pick_channel (fuel : nat) (w : World) : result (Z * World) :=
  match fuel with
  | O => Err OutOfFuel
  | S fuel =>
      let last := s32 (w_last_channel w + 1) in
      let w := upd_last_channel last w in
      let channel := Z.land last 255 in
      c ← multiplexer_find_client channel w;
      match c with
      | Some _ => pick_channel fuel w
      | None => Ok (channel, w)
      end
  end.

(** [%.*s]: at most [n] bytes, stopping at a NUL. *)
Fixpoint until_nul (bs : list Z) : list Z :=
  match bs with
  | [] => []
  | b :: bs => if b =? 0 then [] else b :: until_nul bs
  end.

(** [snprintf (p->data, sizeof p->data, ...)] of the text [s]. *)
Definition snprintf_data (s : list Z) (p : Packet) : result Packet :=
  d ← write_block (p_data p) 0 (take (MAX_PAYLOAD - 1) s ++ [0]);
  Ok (set_p_data d p).

(** Lines 1558-1568: the request, once the channel is chosen. *)
Definition send_connect (p service : Packet) (channel : Z) (w : World) : result (Z * World) :=
  let s := bytes "connect:"
             ++ until_nul (take (Z.to_nat (p_len service)) (p_data service))
             ++ bytes ":" ++ Hex.int2hex channel 2 in
  p ← snprintf_data s p;
  if Z.of_nat (length s) >=? Z.of_nat MAX_PAYLOAD
  then Ok (-1, packet_free p w)
  else
    let p := set_p_len (Z.of_nat (length s)) (set_p_channel CHANNEL_CONTROL p) in
    w ← serial_send (fdhandler_enqueue (w_serial_fdh w)) p w;
    Ok (channel, w).

(** The channel numbers a search goes through before it repeats itself. *)
Definition pick_fuel : nat := 256.

Definition multiplexer_open_channel (service : Packet) (w : World) : result (Z * World) :=
  let '(p, w) := packet_alloc w in
  r ← pick_channel pick_fuel w;
  send_connect p service r.1 r.2.

Definition multiplexer_close_channel (channel : Z) (w : World) : result World :=
  let '(p, w) := packet_alloc w in
  let s := bytes "disconnect:" ++ Hex.int2hex channel 2 in
  p ← snprintf_data s p;
  if Z.of_nat (length s) >? Z.of_nat MAX_PAYLOAD then Ok w
  else
    let p := set_p_len (Z.of_nat (length s)) (set_p_channel CHANNEL_CONTROL p) in
    serial_send (fdhandler_enqueue (w_serial_fdh w)) p w.

Section ClientClose.
Context (call_close : endpoint -> World -> result World).

Definition client_free (c : nat) (w : World) : result World :=
  pl ← pl_remove c (w_cll w);
  let w := upd_cll pl w in
  C ← client c w;
  w ← (match c_fdhandler C with
       | Some f => fdhandler_shutdown call_close f w
       | None => Ok w
       end);
  Ok (upd_cll (pl_forget c (w_cll w)) (upd_clients (delete c (w_clients w)) w)).

Definition client_fd_close (c : nat) (w : World) : result World :=
  C ← client c w;
  let w := put_client c (mkClient (c_channel C) (c_registered C) None) w in
  w ← (if c_channel C >? 0 then multiplexer_close_channel (c_channel C) w else Ok w);
  client_free c w.
End ClientClose.

(** The knot: closing a client's handler closes the client, which has then no
    handler left to close. *)
Fixpoint close_receiver (depth : nat) (e : endpoint) (w : World) : result World :=
  match depth with
  | O => Err OutOfFuel
  | S depth =>
      match e with
      | ClientEnd c => client_fd_close (close_receiver depth) c w
      | SerialEnd => Err FatalExit            (* serial_fd_close *)
      | ControlEnd => Err FatalExit           (* multiplexer_control_close *)
      end
  end.
Definition call_close : endpoint -> World -> result World := close_receiver 1.

Definition client_fd_receive (c : nat) (p : Packet) (w : World) : result World :=
  C ← client c w;
  if c_registered C then multiplexer_serial_send (c_channel C) p w
  else if c_channel C >? 0 then client_free call_close c (packet_free p w)
  else
    r ← multiplexer_open_channel p w;
    let '(channel, w) := r : Z * World in
    C ← client c w;
    let w := put_client c (mkClient channel (c_registered C) (c_fdhandler C)) w in
    if channel <? 0 then client_free call_close c (packet_free p w)
    else Ok (packet_free p w).

(** [fdhandler_enqueue (c->fdhandler, p)] *)
Definition client_enqueue (c : nat) (p : Packet) (w : World) : result World :=
  C ← client c w;
  f ← from_option_or NullDeref (c_fdhandler C);
  fdhandler_enqueue f p w.

Definition client_registration (c : nat) (registered : bool) (w : World) : result World :=
  let '(p, w) := packet_alloc w in
  d ← write_block (p_data p) 0 (if registered then bytes "OK" else bytes "KO");
  let p := set_p_len 2 (set_p_data d p) in
  w ← client_enqueue c p w;
  C ← client c w;
  let channel := if registered then c_channel C else -1 in
  Ok (put_client c (mkClient channel registered (c_fdhandler C)) w).

Definition client_send (c : nat) (p : Packet) (w : World) : result World :=
  client_enqueue c p w.

Definition client_new (fd : Z) (w : World) : result (nat * World) :=
  let c := w_next w in
  let w := upd_next (S c) (put_client c (mkClient (-1) false None) w) in
  r ← fdhandler_new fd (mkReceiver (ClientEnd c) true true) w;
  let '(f, w) := r : nat * World in
  let w := put_client c (mkClient (-1) false (Some f)) w in
  pl ← pl_prepend c clients_list (w_cll w);
  Ok (c, upd_cll pl w).

(** [p->len == 13 && !memcmp (p->data, prefix, 11)] *)
Definition is_command (prefix : list Z) (p : Packet) : bool :=
  (p_len p =? 13) && bool_decide (slice (p_data p) 0 11 = prefix).

Definition multiplexer_handle_control (p : Packet) (w : World) : result World :=
  let channel := Hex.hex2int (slice (p_data p) 11 2) in
  w ← (if is_command (bytes "ok:connect:") p then
         c ← multiplexer_find_client channel w;
         match c with Some c => client_registration c true w | None => Ok w end
       else if is_command (bytes "ko:connect:") p then
         c ← multiplexer_find_client channel w;
         match c with Some c => client_registration c false w | None => Ok w end
       else if is_command (bytes "disconnect:") p then
         c ← multiplexer_find_client channel w;
         match c with Some c => client_free call_close c w | None => Ok w end
       else Ok w);
  Ok (packet_free p w).

Definition multiplexer_serial_receive (p : Packet) (w : World) : result World :=
  if p_channel p =? CHANNEL_CONTROL then multiplexer_handle_control p w
  else
    c ← multiplexer_find_client (p_channel p) w;
    match c with
    | Some c => client_send c p w
    | None => Ok (packet_free p w)
    end.

Definition multiplexer_control_accept (p : Packet) (w : World) : result World :=
  r ← client_new (p_channel p) w;
  Ok (packet_free p r.2).

(** [serial_fd_receive] on [mult->serial]. *)
Definition mux_serial_fd_receive (p : Packet) (w : World) : result World :=
  r ← serial_fd_receive multiplexer_serial_receive (w_serial w) p w;
  Ok (upd_serial r.1 r.2).

(** [r->post (r->user, p)], or the release of the packet. *)
Definition receiver_post (r : Receiver) (p : Packet) (w : World) : result World :=
  if r_post r then
    match r_user r with
    | SerialEnd => mux_serial_fd_receive p w
    | ControlEnd => multiplexer_control_accept p w
    | ClientEnd c => client_fd_receive c p w
    end
  else Ok (packet_free p w).

(** ** Event callbacks *)

(** Lines 905-917: EPOLLIN. *)
Definition fdhandler_event_in (f : nat) (w : World) : result World :=
  let '(p, w) := packet_alloc w in
  F ← fdh f w;
  let '(r, w) := fd_read MAX_PAYLOAD w in
  match r with
  | None => Ok (packet_free p w)
  | Some [] => Ok w
  | Some bs =>
      d ← write_block (p_data p) 0 bs;
      receiver_post (f_receiver F)
        (mkPacket (Z.of_nat (length bs)) (-101) d) w
  end.

(** Lines 926-945: EPOLLOUT. *)
Definition fdhandler_event_out (f : nat) (w : World) : result World :=
  F ← fdh f w;
  match f_out F with
  | [] => Ok w
  | p :: rest =>
      let avail := p_len p - f_out_pos F in
      from ← read_block (p_data p) (f_out_pos F) avail;
      let '(r, w) := fd_write (f_fd F) from w in
      match r with
      | None => Ok w
      | Some len =>
          let pos := f_out_pos F + len in
          if pos >=? p_len p then
            let w := packet_free p (put_fdh f (set_out 0 rest F) w) in
            match rest with
            | [] => Ok (upd_looper (looper_disable (w_looper w) (f_fd F) EPOLLOUT) w)
            | _ => Ok w
            end
          else Ok (put_fdh f (set_out pos (p :: rest) F) w)
      end
  end.

Definition fdhandler_event (f : nat) (events : Z) (w : World) : result World :=
  w ← (if has events EPOLLIN then fdhandler_event_in f w else Ok w);
  if has events (Z.lor EPOLLHUP EPOLLERR) then fdhandler_close call_close f w
  else if has events EPOLLOUT then fdhandler_event_out f w
  else Ok w.

(** Lines 980-994: EPOLLIN on the control socket; [true] when the event is
    done (accept failed). *)
Definition fdhandler_accept_in (f : nat) (w : World) : result (bool * World) :=
  let '(p, w) := packet_alloc w in
  F ← fdh f w;
  d ← write_block (p_data p) 0 [1];
  let '(fd, w) := fd_accept w in
  let p := mkPacket 1 fd d in
  if fd <? 0 then Ok (true, packet_free p w)
  else w ← receiver_post (f_receiver F) p w; Ok (false, w).

Definition fdhandler_accept_event (f : nat) (events : Z) (w : World) : result World :=
  r ← (if has events EPOLLIN then fdhandler_accept_in f w else Ok (false, w));
  let '(stop, w) := r : bool * World in
  if stop then Ok w
  else if has events (Z.lor EPOLLHUP EPOLLERR) then fdhandler_close call_close f w
  else Ok w.

(** What [looper_loop] calls. *)
Definition ev_call (u : ev_user) (events : Z) (w : World) : result World :=
  match u.2 with
  | EvHandler => fdhandler_event u.1 events w
  | EvAccept => fdhandler_accept_event u.1 events w
  end.

(** ** Start-up *)

Definition zero_packet : Packet := mkPacket 0 0 [].
Definition zero_world (env : list sysret) : World :=
  mkWorld looper_init ∅ empty_plist ∅ empty_plist 0 (mkSerial 0 0 0 zero_packet) 0
    [] 0 env [].

(** [multiplexer_init], given the descriptors of the serial port and of the
    control socket. *)
Definition multiplexer_init (serial_fd control_fd : Z) (w : World) : result World :=
  r ← fdhandler_new serial_fd (mkReceiver SerialEnd true true) w;
  let '(f, w) := r : nat * World in
  let w := upd_serial_fdh f w in
  let '(s, w) := serial_init w in
  let w := upd_serial s w in
  r ← fdhandler_new_accept control_fd (mkReceiver ControlEnd true true) w;
  Ok r.2.

(** The daemon: start-up, then the loop on the given [epoll_wait] results. *)
Definition qemud (serial_fd control_fd : Z) (waits : list wait_result) (env : list sysret)
    : result World :=
  w ← multiplexer_init serial_fd control_fd (zero_world env);
  looper_loop ev_call waits w.
