(* ===== verification/QemudInv.v ===== *)
(** * qemud: the invariant of the daemon

    The well-formedness of the world of [QemudMux] between two callbacks, and
    its preservation by every operation on descriptor handlers and clients:
    the intrusive lists hold exactly the live objects, handlers and clients
    point to each other, the looper monitors exactly the live descriptors with
    EPOLLOUT wanted exactly when a handler has queued packets, and no two
    clients share a channel. *)
From S2P Require Import Prelude QemudPacket QemudSerial PrefList QemudLooper QemudMux.
Local Open Scope Z_scope.

Definition handler_mask (F : FDHandler) : Z :=
  match f_out F with [] => EPOLLIN | _ => Z.lor EPOLLIN EPOLLOUT end.

Definition handler_kind (F : FDHandler) : ev_func :=
  match r_user (f_receiver F) with ControlEnd => EvAccept | _ => EvHandler end.

(** The part of the looper's map a handler accounts for. *)
Definition monitored (m : gmap Z (ev_user * Z)) (f : nat) (F : FDHandler) : Prop :=
  m !! f_fd F = Some ((f, handler_kind F), handler_mask F).

Definition looper_ok (l : Looper ev_user) (fds : gmap nat FDHandler) : Prop :=
  exists m, represents l m /\
    (forall f F, fds !! f = Some F -> monitored m f F) /\
    (forall fd u ev, m !! fd = Some (u, ev) -> exists F, fds !! u.1 = Some F /\ f_fd F = fd).

Definition queue_ok (F : FDHandler) : Prop :=
  Forall chunk_ok (f_out F) /\ 0 <= f_out_pos F /\
  forall p, head (f_out F) = Some p -> f_out_pos F <= p_len p.

Record handler_ok (F : FDHandler) : Prop := {
  ho_fd : 0 <= f_fd F;
  ho_queue : queue_ok F;
  ho_closing : f_closing F = true ->
    r_close (f_receiver F) = false /\
    exists c, r_user (f_receiver F) = ClientEnd c;
  ho_active : f_closing F = false ->
    r_post (f_receiver F) = true /\ r_close (f_receiver F) = true
}.

(** A client and its handler being torn down: links to and from them may
    already be gone. *)
Abbreviation teardown := (option (nat * nat)).

(** The handler [f] points back to what it belongs to. *)
Definition linked (clients : gmap nat Client) (sf : nat) (f : nat) (F : FDHandler) : Prop :=
  match r_user (f_receiver F) with
  | SerialEnd => f = sf
  | ControlEnd => f_out F = []
  | ClientEnd c => exists C, clients !! c = Some C /\ c_fdhandler C = Some f
  end.

Record InvC (ex : teardown) (l : Looper ev_user) (fds : gmap nat FDHandler) (fdl : plist)
    (clients : gmap nat Client) (cll : plist) (next : nat) (pool : list Packet) (sf : nat)
    (la lc lcl : list nat) : Prop := {
  i_looper : looper_ok l fds;
  i_active : pl_repr fdl active_list la;
  i_closing : pl_repr fdl closing_list lc;
  i_disjoint : forall f, f ∈ la -> f ∉ lc;
  i_fds : forall f, is_Some (fds !! f) <-> f ∈ la \/ f ∈ lc;
  i_status : forall f F, fds !! f = Some F -> f_closing F = true <-> f ∈ lc;
  i_handler : forall f F, fds !! f = Some F -> handler_ok F;
  i_clients : pl_repr cll clients_list lcl;
  i_dom : forall c, snd <$> ex <> Some c -> is_Some (clients !! c) <-> c ∈ lcl;
  i_fresh : forall a, a ∈ la \/ a ∈ lc \/ a ∈ lcl \/ is_Some (clients !! a) -> (a < next)%nat;
  i_linked : forall f F, fds !! f = Some F -> f_closing F = false -> fst <$> ex <> Some f ->
    linked clients sf f F;
  i_client : forall c C, clients !! c = Some C -> snd <$> ex <> Some c ->
    exists f F, c_fdhandler C = Some f /\ fds !! f = Some F /\ f_closing F = false /\
      r_user (f_receiver F) = ClientEnd c;
  i_serial : exists F, fds !! sf = Some F /\ f_closing F = false /\
    r_user (f_receiver F) = SerialEnd;
  i_channel : forall c C, clients !! c = Some C -> -1 <= c_channel C < 256;
  i_unique : forall c1 c2 C1 C2, clients !! c1 = Some C1 -> clients !! c2 = Some C2 ->
    c_channel C1 = c_channel C2 -> c_channel C1 <> -1 -> c1 = c2;
  i_pool : Forall packet_ok pool
}.
Arguments i_looper {_ _ _ _ _ _ _ _ _ _ _ _} _.
Arguments i_active {_ _ _ _ _ _ _ _ _ _ _ _} _.
Arguments i_closing {_ _ _ _ _ _ _ _ _ _ _ _} _.
Arguments i_disjoint {_ _ _ _ _ _ _ _ _ _ _ _} _.
Arguments i_fds {_ _ _ _ _ _ _ _ _ _ _ _} _.
Arguments i_status {_ _ _ _ _ _ _ _ _ _ _ _} _.
Arguments i_handler {_ _ _ _ _ _ _ _ _ _ _ _} _.
Arguments i_clients {_ _ _ _ _ _ _ _ _ _ _ _} _.
Arguments i_dom {_ _ _ _ _ _ _ _ _ _ _ _} _.
Arguments i_fresh {_ _ _ _ _ _ _ _ _ _ _ _} _.
Arguments i_linked {_ _ _ _ _ _ _ _ _ _ _ _} _.
Arguments i_client {_ _ _ _ _ _ _ _ _ _ _ _} _.
Arguments i_serial {_ _ _ _ _ _ _ _ _ _ _ _} _.
Arguments i_channel {_ _ _ _ _ _ _ _ _ _ _ _} _.
Arguments i_unique {_ _ _ _ _ _ _ _ _ _ _ _} _.
Arguments i_pool {_ _ _ _ _ _ _ _ _ _ _ _} _.

Definition Inv (ex : teardown) (w : World) (la lc lcl : list nat) : Prop :=
  InvC ex (w_looper w) (w_fds w) (w_fdl w) (w_clients w) (w_cll w) (w_next w) (w_free w)
    (w_serial_fdh w) la lc lcl.

Lemma Inv_pool ex w la lc lcl : Inv ex w la lc lcl -> pool_ok w.
Proof. apply i_pool. Qed.

(** ** The looper against the heap of handlers *)

Lemma monitored_unique m f1 F1 f2 F2 :
  monitored m f1 F1 -> monitored m f2 F2 -> f_fd F1 = f_fd F2 -> f1 = f2.
Proof. unfold monitored. intros H1 H2 E. rewrite E in H1. congruence. Qed.

(** Replacing a handler by one with the same descriptor, kind and mask. *)
Lemma looper_ok_put l fds f F F' :
  looper_ok l fds -> fds !! f = Some F -> f_fd F' = f_fd F ->
  handler_kind F' = handler_kind F -> handler_mask F' = handler_mask F ->
  looper_ok l (<[f := F']> fds).
Proof.
  intros (m & Hr & H1 & H2) Hf Efd Ek Em. exists m. split; [done|]. split.
  - intros g G [[<- <-]|[Hne HG]]%lookup_insert_Some; [|by apply H1].
    unfold monitored. rewrite Efd, Ek, Em. by apply H1.
  - intros fd u ev Hu. destruct (H2 _ _ _ Hu) as (G & HG & E).
    destruct (decide (f = u.1)) as [->|].
    + exists F'. rewrite lookup_insert_eq. split; [done|]. congruence.
    + exists G. by rewrite lookup_insert_ne.
Qed.

(** The mask of one monitored descriptor changes together with its handler. *)
Lemma looper_ok_mask l l' fds f F F' :
  looper_ok l fds -> fds !! f = Some F -> f_fd F' = f_fd F ->
  handler_kind F' = handler_kind F ->
  (forall m, represents l m -> m !! f_fd F = Some ((f, handler_kind F), handler_mask F) ->
     represents l' (<[f_fd F := ((f, handler_kind F), handler_mask F')]> m)) ->
  looper_ok l' (<[f := F']> fds).
Proof.
  intros (m & Hr & H1 & H2) Hf Efd Ek Hl'. eexists. split; [by apply Hl', H1|]. split.
  - intros g G [[<- <-]|[Hne HG]]%lookup_insert_Some; unfold monitored.
    + by rewrite Efd, Ek, lookup_insert_eq.
    + rewrite lookup_insert_ne; [by apply H1|].
      intros E. apply Hne. by apply (monitored_unique m f F g G); auto.
  - intros fd u ev [[<- [= <- <-]]|[Hne Hu]]%lookup_insert_Some.
    + exists F'. simpl. by rewrite lookup_insert_eq.
    + destruct (H2 _ _ _ Hu) as (G & HG & E). exists G.
      rewrite lookup_insert_ne; [done|]. intros ->. congruence.
Qed.

(** A new handler on a descriptor no hook mentions. *)
Lemma looper_ok_new l fds f F :
  looper_ok l fds -> unused l (f_fd F) -> fds !! f = None -> f_out F = [] ->
  looper_ok (looper_enable (looper_add l (f_fd F) (f, handler_kind F)) (f_fd F) EPOLLIN)
    (<[f := F]> fds).
Proof.
  intros (m & Hr & H1 & H2) Hu Hf Hout.
  assert (Hnone : m !! f_fd F = None).
  { destruct Hr as [Hl Hm]. rewrite Hm. by apply view_unused. }
  exists (<[f_fd F := ((f, handler_kind F), EPOLLIN)]> m). split; [|split].
  - pose proof (looper_add_represents l m (f_fd F) (f, handler_kind F) Hr Hu) as Ha.
    eapply looper_enable_represents in Ha; [|by apply lookup_insert_eq].
    rewrite insert_insert_eq in Ha. exact Ha.
  - intros g G [[<- <-]|[Hne HG]]%lookup_insert_Some; unfold monitored.
    + rewrite lookup_insert_eq. unfold handler_mask. by rewrite Hout.
    + rewrite lookup_insert_ne; [by apply H1|].
      intros E. apply H1 in HG. unfold monitored in HG. congruence.
  - intros fd u ev [[<- [= <- <-]]|[Hne Hu']]%lookup_insert_Some.
    + exists F. simpl. by rewrite lookup_insert_eq.
    + destruct (H2 _ _ _ Hu') as (G & HG & E). exists G.
      rewrite lookup_insert_ne; [done|]. intros ->. congruence.
Qed.

Lemma looper_ok_del l fds f F :
  looper_ok l fds -> fds !! f = Some F ->
  looper_ok (looper_del l (f_fd F)) (delete f fds).
Proof.
  intros (m & Hr & H1 & H2) Hf. exists (delete (f_fd F) m).
  split; [by apply looper_del_represents|]. split.
  - intros g G [Hne HG]%lookup_delete_Some. unfold monitored.
    rewrite lookup_delete_ne; [by apply H1|].
    intros E. apply Hne. by apply (monitored_unique m f F g G); auto.
  - intros fd u ev [Hne Hu]%lookup_delete_Some.
    destruct (H2 _ _ _ Hu) as (G & HG & E). exists G.
    rewrite lookup_delete_ne; [done|]. intros ->. congruence.
Qed.

(** ** Frame lemmas for the heap *)

Lemma packet_alloc_world_upd (w : World) :
  Forall packet_ok (w_free w) ->
  exists p pool, packet_alloc w = (p, upd_free pool w) /\ packet_ok p /\
    Forall packet_ok pool /\ p_len p = 0 /\ p_channel p = -1.
Proof.
  intros Hp. unfold packet_alloc. simpl. destruct (w_free w) as [|q rest] eqn:E.
  - exists (mkPacket 0 (-1) malloc_bytes), []. split.
    { rewrite <-E. by destruct w. }
    split_and!; [apply (malloc_bytes_length (W:=World))|constructor|done|done].
  - apply Forall_cons in Hp as [Hq Hr].
    by exists (mkPacket 0 (-1) (p_data q)), rest.
Qed.

Lemma InvC_pool ex l fds fdl cl cll nx pool pool' sf la lc lcl :
  InvC ex l fds fdl cl cll nx pool sf la lc lcl -> Forall packet_ok pool' ->
  InvC ex l fds fdl cl cll nx pool' sf la lc lcl.
Proof. intros [] ?. by split. Qed.

Lemma Inv_free_packet ex w la lc lcl p :
  Inv ex w la lc lcl -> packet_ok p -> Inv ex (packet_free p w) la lc lcl.
Proof.
  intros H Hp. eapply InvC_pool; [exact H|]. constructor; [done|].
  by apply (i_pool H).
Qed.

(** A handler is replaced by one that keeps its receiver's user, its status
    and its well-formedness. *)
Lemma InvC_put ex l l' fds fdl cl cll nx pool sf la lc lcl f F F' :
  InvC ex l fds fdl cl cll nx pool sf la lc lcl -> fds !! f = Some F ->
  looper_ok l' (<[f := F']> fds) -> handler_ok F' ->
  f_closing F' = f_closing F -> r_user (f_receiver F') = r_user (f_receiver F) ->
  (r_user (f_receiver F) = ControlEnd -> f_out F' = []) ->
  InvC ex l' (<[f := F']> fds) fdl cl cll nx pool sf la lc lcl.
Proof.
  intros [] Hf Hl Hok Hcl Hu Hctl. split; auto.
  - intros g. rewrite <-i_fds0. destruct (decide (f = g)) as [->|].
    + rewrite lookup_insert_eq, Hf. split; by eexists.
    + by rewrite lookup_insert_ne.
  - intros g G [[<- <-]|[Hne HG]]%lookup_insert_Some; [|by eapply i_status0].
    rewrite Hcl. by eapply i_status0.
  - intros g G [[<- <-]|[Hne HG]]%lookup_insert_Some; [done|by eapply i_handler0].
  - intros g G [[<- <-]|[Hne HG]]%lookup_insert_Some; [|by apply i_linked0].
    rewrite Hcl. intros Hc Hx. specialize (i_linked0 _ _ Hf Hc Hx).
    unfold linked in *. rewrite Hu. destruct (r_user (f_receiver F)); auto.
  - intros c C HC Hx. destruct (i_client0 c C HC Hx) as (g & G & E1 & E2 & E3 & E4).
    exists g. destruct (decide (f = g)) as [->|].
    + exists F'. rewrite lookup_insert_eq. simplify_eq. split_and!; [done|done|..]; congruence.
    + exists G. by rewrite lookup_insert_ne.
  - destruct i_serial0 as (G & E1 & E2 & E3). destruct (decide (f = sf)) as [->|].
    + exists F'. rewrite lookup_insert_eq. simplify_eq. split_and!; [done|..]; congruence.
    + exists G. by rewrite lookup_insert_ne.
Qed.

(** ** What an operation that only queues output leaves alone *)
Record quiet (w w' : World) : Prop := {
  q_clients : w_clients w' = w_clients w;
  q_cll : w_cll w' = w_cll w;
  q_serial : w_serial w' = w_serial w;
  q_sf : w_serial_fdh w' = w_serial_fdh w;
  q_next : w_next w' = w_next w;
  q_fdl : w_fdl w' = w_fdl w;
  q_looper : steady (w_looper w) (w_looper w');
  q_fds : forall f F, w_fds w !! f = Some F -> exists F', w_fds w' !! f = Some F' /\
    f_fd F' = f_fd F /\ f_receiver F' = f_receiver F /\ f_closing F' = f_closing F;
  q_out : forall f F F', w_fds w !! f = Some F -> w_fds w' !! f = Some F' ->
    f_out F <> [] -> f_out F' <> []
}.

#[export] Instance quiet_preorder : PreOrder quiet.
Proof.
  split.
  - intros w. split; try done; [intros f F HF; by exists F|]. intros f F F' H1 H2. congruence.
  - intros w1 w2 w3 [] []. split; try congruence.
    { by transitivity (w_looper w2). }
    2:{ intros f F F' H1 H3 Hout. destruct (q_fds0 f F H1) as (F2 & H2 & _). eauto. }
    intros f F HF. destruct (q_fds0 f F HF) as (F2 & H2 & E1 & E2 & E3).
    destruct (q_fds1 f F2 H2) as (F3 & H3 & E4 & E5 & E6).
    exists F3. split_and!; [done|congruence..].
Qed.

Lemma quiet_same_fds w w' :
  w_clients w' = w_clients w /\ w_cll w' = w_cll w /\ w_serial w' = w_serial w /\
  w_serial_fdh w' = w_serial_fdh w /\ w_next w' = w_next w /\ w_fdl w' = w_fdl w /\
  w_looper w' = w_looper w /\ w_fds w' = w_fds w -> quiet w w'.
Proof.
  intros (? & ? & ? & ? & ? & ? & E & Ef). split; try done; rewrite ?E, ?Ef; [done|..].
  - intros f F HF. by exists F.
  - intros f F F' Hf1 Hf2. congruence.
Qed.

Lemma queue_ok_app F p :
  queue_ok F -> chunk_ok p -> f_out F <> [] ->
  queue_ok (set_out (f_out_pos F) (f_out F ++ [p]) F).
Proof.
  intros (Hq & Hpos & Hhd) Hp Hne. split; [|split]; simpl.
  - apply Forall_app. split; [done|]. by constructor.
  - done.
  - intros q. destruct (f_out F) as [|q' l]; [done|]. apply Hhd.
Qed.

(** ** Output: the queue of a handler is a byte stream *)

(** The bytes a handler still has to write. *)
Definition pending (F : FDHandler) : list Z :=
  drop (Z.to_nat (f_out_pos F)) (concat (map payload (f_out F))).

Lemma pending_enqueue F p :
  queue_ok F -> f_out F <> [] ->
  pending (set_out (f_out_pos F) (f_out F ++ [p]) F) = pending F ++ payload p.
Proof.
  intros (Hq & Hpos & Hhd) Hne. unfold pending. simpl.
  rewrite map_app, concat_app. simpl. rewrite app_nil_r.
  apply drop_app_le. destruct (f_out F) as [|q l]; [done|]. simpl.
  apply Forall_cons in Hq as [[Hl Hlen] _]. specialize (Hhd q eq_refl).
  rewrite length_app. unfold payload. rewrite length_take. unfold packet_ok in Hl. lia.
Qed.

(** [fdhandler_enqueue]: the packet is at the end of the handler's queue, and
    EPOLLOUT is monitored. *)
Lemma fdhandler_enqueue_ok ex w la lc lcl f F p :
  Inv ex w la lc lcl -> w_fds w !! f = Some F -> r_user (f_receiver F) <> ControlEnd ->
  chunk_ok p ->
  exists w' F', fdhandler_enqueue f p w = Ok w' /\ Inv ex w' la lc lcl /\ quiet w w' /\
    w_fds w' = <[f := F']> (w_fds w) /\ f_out F' = f_out F ++ [p] /\
    pending F' = pending F ++ payload p.
Proof.
  intros HI Hf Hu Hp. unfold fdhandler_enqueue, fdh. rewrite Hf. simpl.
  destruct (i_handler HI _ _ Hf) as [Hfd Hq Hc Ha].
  assert (Hquiet : forall l F', steady (w_looper w) l -> f_fd F' = f_fd F ->
    f_receiver F' = f_receiver F -> f_out F' <> [] ->
    f_closing F' = f_closing F -> quiet w (upd_looper l (put_fdh f F' w))).
  { intros l F' Hst E1 E2 E4 E3. split; try done.
    2:{ intros g G G' HG. simpl. intros [[<- <-]|[_ ?]]%lookup_insert_Some; [done|congruence]. }
    intros g G HG. simpl.
    destruct (decide (f = g)) as [->|].
    - exists F'. rewrite lookup_insert_eq. simplify_eq. done.
    - exists G. by rewrite lookup_insert_ne. }
  pose proof (i_looper HI) as HL.
  destruct (f_out F) as [|q l] eqn:Hout.
  - eexists _, (set_out 0 [p] F). split; [reflexivity|]. split; [|split_and!; try done].
    3:{ unfold pending. rewrite Hout. simpl. by rewrite drop_0, app_nil_r, drop_nil. }
    2:{ apply Hquiet; try done. apply looper_enable_steady. }
    eapply InvC_put; [exact HI|exact Hf|..]; try done.
    + eapply looper_ok_mask; [exact HL|exact Hf|done|done|].
      intros m Hr Hm. unfold handler_mask in *. rewrite Hout in Hm.
      exact (looper_enable_represents _ _ _ _ _ EPOLLOUT Hr Hm).
    + split; simpl; [done| |done|done].
      split; [|split]; simpl; [by constructor|lia|].
      intros ? [= <-]. destruct Hp; lia.
  - eexists _, (set_out (f_out_pos F) ((q :: l) ++ [p]) F). split; [reflexivity|].
    split; [|split_and!; try done].
    3:{ rewrite <-Hout. apply pending_enqueue; [done|by rewrite Hout]. }
    2:{ apply (Hquiet (w_looper w)); done. }
    eapply (InvC_put ex (w_looper w)); [exact HI|exact Hf|..]; try done.
    + eapply looper_ok_put; [exact HL|exact Hf|done|done|].
      unfold handler_mask. by rewrite Hout.
    + split; simpl; [done| |done|done].
      pose proof (queue_ok_app F p Hq Hp) as Hqa. rewrite Hout in Hqa. by apply Hqa.
Qed.

Lemma Inv_serial_handler ex w la lc lcl :
  Inv ex w la lc lcl -> exists F, w_fds w !! w_serial_fdh w = Some F /\
    f_closing F = false /\ r_user (f_receiver F) = SerialEnd.
Proof. apply i_serial. Qed.

(** The bytes waiting to go out on the serial port. *)
Definition serial_out (w : World) : list Z :=
  match w_fds w !! w_serial_fdh w with Some F => pending F | None => [] end.

Lemma serial_out_same w w' :
  w_fds w' = w_fds w -> w_serial_fdh w' = w_serial_fdh w -> serial_out w' = serial_out w.
Proof. unfold serial_out. by intros -> ->. Qed.

(** Only the serial port's queue changes, and it grows by [bs]. *)
Record sends (w : World) (bs : list Z) (w' : World) : Prop := {
  s_quiet : quiet w w';
  s_out : serial_out w' = serial_out w ++ bs;
  s_others : forall f, f <> w_serial_fdh w -> w_fds w' !! f = w_fds w !! f
}.

Lemma sends_nothing w w' :
  quiet w w' -> w_fds w' = w_fds w -> sends w [] w'.
Proof.
  intros Hq Ef. split; [done| |by rewrite Ef].
  rewrite app_nil_r. apply serial_out_same; [done|apply (q_sf _ _ Hq)].
Qed.

(** [serial_send] on the daemon's serial handler queues one frame. *)
Lemma serial_send_ok ex w la lc lcl p :
  Inv ex w la lc lcl -> chunk_ok p ->
  exists w', serial_send (fdhandler_enqueue (w_serial_fdh w)) p w = Ok w' /\
    Inv ex w' la lc lcl /\ sends w (frame (p_channel p, payload p)) w'.
Proof.
  intros HI Hp.
  destruct (serial_send_enqueues (fdhandler_enqueue (w_serial_fdh w)) p w Hp
    (Inv_pool _ _ _ _ _ HI)) as (h & Hh & Hhl & -> & Hframe).
  destruct (packet_alloc_world_upd w (Inv_pool _ _ _ _ _ HI))
    as (q & pool & Ha & _ & Hpool & _). rewrite Ha. simpl.
  assert (HI1 : Inv ex (upd_free pool w) la lc lcl) by by eapply InvC_pool.
  destruct (Inv_serial_handler _ _ _ _ _ HI1) as (F & HF & Hc & Hu). simpl in HF.
  destruct (fdhandler_enqueue_ok _ _ _ _ _ _ _ h HI1 HF) as (w2 & F2 & -> & HI2 & Hq2 & Ef2 & _ & Ep2);
    [by rewrite Hu|split; [done|rewrite Hhl; unfold HEADER_SIZE, MAX_PAYLOAD; lia]|].
  simpl. destruct (Inv_serial_handler _ _ _ _ _ HI2) as (F3 & HF3 & Hc3 & Hu3).
  rewrite (q_sf _ _ Hq2) in HF3. simpl in HF3.
  destruct (fdhandler_enqueue_ok _ _ _ _ _ _ _ p HI2 HF3) as (w3 & F4 & -> & HI3 & Hq3 & Ef3 & _ & Ep3);
    [by rewrite Hu3|done|].
  exists w3. split; [done|]. split; [done|]. split.
  { transitivity w2; [|done]. destruct Hq2. by split. }
  2:{ intros f Hf. rewrite Ef3, Ef2. simpl. by rewrite !lookup_insert_ne. }
  assert (F3 = F2) as -> by (rewrite Ef2 in HF3; simpl in HF3; rewrite lookup_insert_eq in HF3; congruence).
  unfold serial_out. rewrite (q_sf _ _ Hq3), (q_sf _ _ Hq2), Ef3. simpl.
  by rewrite lookup_insert_eq, HF, Ep3, Ep2, <-app_assoc, Hframe.
Qed.

(** Allocating a packet first makes no difference. *)
Lemma sends_upd_free pool w bs w' : sends (upd_free pool w) bs w' -> sends w bs w'.
Proof. intros [[] ? ?]. by split; [split|..]. Qed.

Lemma sends_upd_last n w bs w' : sends (upd_last_channel n w) bs w' -> sends w bs w'.
Proof. intros [[] ? ?]. by split; [split|..]. Qed.

Lemma snprintf_data_ok s p :
  packet_ok p -> exists d, snprintf_data s p = Ok (set_p_data d p) /\ length d = MAX_PAYLOAD /\
    ((length s < MAX_PAYLOAD)%nat -> take (length s) d = s).
Proof.
  intros Hp. unfold packet_ok in Hp. unfold snprintf_data.
  destruct (write_block (p_data p) 0 (take (MAX_PAYLOAD - 1) s ++ [0])) as [d|] eqn:E.
  - exists d. split; [done|]. split; [by apply write_block_length in E as ->|].
    intros Hs. rewrite take_ge in E by lia. unfold write_block, memcpy_at in E.
    rewrite decide_True in E by done. case_decide; [|done]. injection E as <-. simpl.
    by rewrite <-app_assoc, take_app_length.
  - rewrite write_block_ok in E; [done|lia|].
    rewrite length_app, length_take, Hp. cbn [length]. unfold MAX_PAYLOAD. lia.
Qed.

Lemma multiplexer_close_channel_ok ex w la lc lcl ch :
  Inv ex w la lc lcl ->
  exists w', multiplexer_close_channel ch w = Ok w' /\ Inv ex w' la lc lcl /\
    sends w (frame (CHANNEL_CONTROL, bytes "disconnect:" ++ Hex.int2hex ch 2)) w'.
Proof.
  intros HI. unfold multiplexer_close_channel.
  destruct (packet_alloc_world_upd w (Inv_pool _ _ _ _ _ HI))
    as (q & pool & -> & Hq & Hpool & _).
  assert (HI1 : Inv ex (upd_free pool w) la lc lcl) by by eapply InvC_pool.
  set (s := bytes "disconnect:" ++ Hex.int2hex ch 2).
  assert (Hs : length s = 13%nat) by reflexivity.
  destruct (snprintf_data_ok s q Hq) as (d & -> & Hd & Ht). cbn [mbind result_bind]. rewrite Hs.
  change (Z.of_nat 13 >? Z.of_nat MAX_PAYLOAD) with false. cbv iota.
  destruct (serial_send_ok ex (upd_free pool w) la lc lcl
    (set_p_len (Z.of_nat 13) (set_p_channel CHANNEL_CONTROL (set_p_data d q))) HI1)
    as (w' & Hs' & HI' & Hq').
  { split; [done|]. simpl. unfold MAX_PAYLOAD. lia. }
  exists w'. split; [exact Hs'|]. split; [done|]. apply (sends_upd_free pool).
  assert (Hpay : payload (set_p_len (Z.of_nat 13) (set_p_channel CHANNEL_CONTROL (set_p_data d q))) = s).
  { unfold payload. cbn [p_len p_data set_p_len set_p_channel set_p_data].
    rewrite Nat2Z.id, <-Hs, Ht; [done|]. unfold MAX_PAYLOAD. lia. }
  rewrite Hpay in Hq'. exact Hq'.
Qed.

(** ** Looking a client up *)

Lemma clients_size ex w la lc lcl :
  Inv ex w la lc lcl -> ex = None -> size (w_clients w) = length lcl.
Proof.
  intros HI ->. destruct (i_clients HI) as [Hnd _].
  rewrite <-size_dom, <-(size_list_to_set (C:=gset nat) lcl) by done.
  f_equal. apply set_eq. intros c. rewrite elem_of_dom, elem_of_list_to_set.
  by apply (i_dom HI).
Qed.

Lemma find_client_from_ok w ch l s fuel :
  lseg (w_cll w) s l -> (forall c, c ∈ l -> is_Some (w_clients w !! c)) ->
  (length l <= fuel)%nat ->
  exists r, find_client_from fuel (head l) ch w = Ok r /\
    match r with
    | Some c => exists C, w_clients w !! c = Some C /\ c_channel C = ch
    | None => forall c C, c ∈ l -> w_clients w !! c = Some C -> c_channel C <> ch
    end.
Proof.
  revert s fuel; induction l as [|c l IH]; intros s fuel Hl Hlive Hfuel.
  - exists None. split; [by destruct fuel|]. by intros ?? ?%elem_of_nil.
  - destruct fuel as [|fuel]; simpl in Hfuel; [lia|].
    apply lseg_cons_inv in Hl as (_ & n & Hn & _ & Hnx & Hl).
    destruct (Hlive c) as [C HC]; [by left|].
    cbn [find_client_from head]. unfold client. rewrite HC. simpl.
    destruct (c_channel C =? ch) eqn:E.
    { exists (Some c). split; [done|]. exists C. split; [done|lia]. }
    rewrite Hn. simpl. rewrite Hnx.
    destruct (IH (NextOf c) fuel Hl) as (r & -> & Hr); [set_solver|lia|].
    exists r. split; [done|]. destruct r; [done|].
    intros c' C' [->|Hin]%elem_of_cons HC'; [|by eapply Hr].
    simplify_eq. lia.
Qed.

Lemma multiplexer_find_client_ok w la lc lcl ch :
  Inv None w la lc lcl ->
  exists r, multiplexer_find_client ch w = Ok r /\
    match r with
    | Some c => exists C, w_clients w !! c = Some C /\ c_channel C = ch
    | None => forall c C, w_clients w !! c = Some C -> c_channel C <> ch
    end.
Proof.
  intros HI. unfold multiplexer_find_client.
  pose proof (i_clients HI) as Hl.
  assert (Hdom : forall c, is_Some (w_clients w !! c) <-> c ∈ lcl)
    by (intros c; by apply (i_dom HI)).
  rewrite (pl_repr_head _ _ _ Hl), (clients_size _ _ _ _ _ HI eq_refl).
  destruct Hl as [_ Hl].
  destruct (find_client_from_ok w ch lcl _ (length lcl) Hl) as (r & -> & Hr);
    [intros; by apply Hdom|lia|].
  exists r. split; [done|]. destruct r; [done|].
  intros c C HC. apply (Hr c C); [apply Hdom; by eexists|done].
Qed.

(** ** Allocating a channel *)

Definition channel_free (w : World) (ch : Z) : Prop :=
  forall c C, w_clients w !! c = Some C -> c_channel C <> ch.

Lemma s32_congruent z : exists q, s32 z = z + q * 256.
Proof.
  exists (- 2 ^ 24 * ((z + 2 ^ 31) / 2 ^ 32)). unfold s32.
  pose proof (Z.div_mod (z + 2 ^ 31) (2 ^ 32)). lia.
Qed.

Lemma low_byte_s32 z : Z.land (s32 z) 255 = z mod 256.
Proof.
  change 255 with (Z.ones 8). rewrite Z.land_ones by lia.
  destruct (s32_congruent z) as [q ->]. change (2 ^ 8) with 256.
  by rewrite Z.mod_add by lia.
Qed.

Lemma low_byte_succ z k : (s32 (z + 1) + k) mod 256 = (z + (k + 1)) mod 256.
Proof.
  destruct (s32_congruent (z + 1)) as [q ->].
  replace (z + 1 + q * 256 + k) with (z + (k + 1) + q * 256) by lia.
  by rewrite Z.mod_add by lia.
Qed.

(** The search succeeds within [fuel] steps when one of the next [fuel] numbers
    is free, and returns the first free one. *)
Lemma pick_channel_ok fuel w la lc lcl k :
  Inv None w la lc lcl -> 0 < k <= Z.of_nat fuel ->
  channel_free w ((w_last_channel w + k) mod 256) ->
  exists ch last, pick_channel fuel w = Ok (ch, upd_last_channel last w) /\
    0 <= ch < 256 /\ channel_free w ch /\
    exists j, 0 < j <= k /\ ch = (w_last_channel w + j) mod 256.
Proof.
  revert w k; induction fuel as [|fuel IH]; intros w k HI Hk Hfree; [lia|].
  cbn [pick_channel]. rewrite low_byte_s32.
  set (w1 := upd_last_channel (s32 (w_last_channel w + 1)) w).
  assert (HI1 : Inv None w1 la lc lcl) by exact HI.
  destruct (multiplexer_find_client_ok w1 la lc lcl ((w_last_channel w + 1) mod 256) HI1)
    as (r & -> & Hr). cbn [mbind result_bind].
  destruct r as [c|].
  - assert (k <> 1).
    { intros ->. destruct Hr as (C & HC & E). by apply (Hfree c C). }
    destruct (IH w1 (k - 1) HI1) as (ch & last & -> & Hch & Hf & j & Hj & ->); [lia| |].
    { unfold w1; cbn [w_last_channel upd_last_channel].
      rewrite low_byte_succ. by replace (k - 1 + 1) with k by lia. }
    eexists _, last. split; [reflexivity|]. split; [done|]. split; [done|].
    exists (j + 1). split; [lia|]. unfold w1; cbn [w_last_channel upd_last_channel]. apply low_byte_succ.
  - exists ((w_last_channel w + 1) mod 256), (s32 (w_last_channel w + 1)).
    split; [done|]. split; [apply Z.mod_pos_bound; lia|]. split; [exact Hr|].
    exists 1. split; [lia|done].
Qed.

Lemma channel_free_dec w ch :
  {channel_free w ch} + {exists c C, w_clients w !! c = Some C /\ c_channel C = ch}.
Proof.
  destruct (decide (map_Forall (fun _ C => c_channel C <> ch) (w_clients w))) as [H|H].
  - left. intros c C HC. by apply (H c C).
  - right. apply map_not_Forall in H as (c & C & HC & E); [|intros; apply _].
    exists c, C. split; [done|]. destruct (decide (c_channel C = ch)); [done|].
    by destruct E.
Qed.

(** Fewer clients than channel numbers: one of any 256 consecutive is free. *)
Lemma some_channel_free w la lc lcl z :
  Inv None w la lc lcl -> (length lcl <= 255)%nat ->
  exists k, 0 < k <= 256 /\ channel_free w ((z + k) mod 256).
Proof.
  intros HI Hlen.
  set (ks := map (fun i => (z + Z.of_nat (S i)) mod 256) (seq 0 256)).
  set (used := omap (fun c => c_channel <$> w_clients w !! c) lcl).
  destruct (decide (Forall (fun ch => ch ∈ used) ks)) as [Hall|Hnot].
  - exfalso.
    assert (Hnd : NoDup ks).
    { apply NoDup_fmap_2_strong; [|apply NoDup_seq].
      intros i j Hi Hj E. apply elem_of_seq in Hi, Hj.
      pose proof (Z.div_mod (z + Z.of_nat (S i)) 256).
      pose proof (Z.div_mod (z + Z.of_nat (S j)) 256). lia. }
    assert (Hsub : ks ⊆ used) by (intros x; revert x; by apply Forall_forall).
    pose proof (NoDup_submseteq ks used Hnd Hsub) as Hsm.
    apply submseteq_length in Hsm.
    assert ((length used <= length lcl)%nat).
    { unfold used. clear. induction lcl as [|c l IH]; simpl; [lia|].
      unfold omap in IH. destruct (_ <$> _); simpl; lia. }
    unfold ks in Hsm. rewrite length_map, length_seq in Hsm. lia.
  - apply not_Forall_Exists in Hnot; [|intros; apply _].
    apply Exists_exists in Hnot as (ch & Hch & Hun).
    apply list_elem_of_fmap in Hch as (i & -> & Hi). apply elem_of_seq in Hi.
    exists (Z.of_nat (S i)). split; [lia|].
    intros c C HC E. apply Hun. simpl. unfold used. apply list_elem_of_omap.
    exists c. rewrite HC. split; [|simpl; by rewrite E].
    apply (i_dom HI); [done|by eexists].
Qed.

(** The request for a service. *)
Definition connect_text (service : Packet) (ch : Z) : list Z :=
  bytes "connect:" ++ until_nul (payload service) ++ bytes ":" ++ Hex.int2hex ch 2.

Lemma send_connect_ok w la lc lcl q p ch :
  Inv None w la lc lcl -> packet_ok q ->
  exists ch' w', send_connect q p ch w = Ok (ch', w') /\ Inv None w' la lc lcl /\
    (if decide (length (connect_text p ch) < MAX_PAYLOAD)%nat
     then ch' = ch /\ sends w (frame (CHANNEL_CONTROL, connect_text p ch)) w'
     else ch' = -1 /\ sends w [] w').
Proof.
  intros HI Hq. unfold send_connect. fold (payload p) (connect_text p ch).
  generalize (connect_text p ch). intros s.
  destruct (snprintf_data_ok s q Hq) as (d & -> & Hd & Ht). cbn [mbind result_bind].
  destruct (_ >=? _) eqn:E.
  - exists (-1), (packet_free (set_p_data d q) w). split; [done|].
    split; [by apply Inv_free_packet|].
    rewrite decide_False by lia. split; [done|].
    by apply sends_nothing; [apply quiet_same_fds; split_and!|].
  - destruct (serial_send_ok None w la lc lcl
      (set_p_len (Z.of_nat (length s)) (set_p_channel CHANNEL_CONTROL (set_p_data d q))) HI)
      as (w' & Hs & HI' & Hq').
    { split; [done|]. cbn [p_len set_p_len]. lia. }
    exists ch, w'. rewrite Hs. split; [done|]. split; [done|].
    rewrite decide_True by lia. split; [done|].
    unfold payload in Hq'. cbn [p_channel p_len p_data set_p_len set_p_channel set_p_data] in Hq'.
    by rewrite Nat2Z.id, Ht in Hq' by lia.
Qed.

(** A channel number above the low byte of the counter that no client has. *)
Definition number_above (w : World) : Prop :=
  exists n, w_last_channel w mod 256 < n < 256 /\ channel_free w n.

(** The search stays below such a number. *)
Lemma search_above last n j :
  last mod 256 < n < 256 -> 0 < j <= n - last mod 256 -> 0 < (last + j) mod 256.
Proof.
  intros Hn Hj. pose proof (Z.mod_pos_bound last 256 ltac:(lia)).
  rewrite <-Zplus_mod_idemp_l, Z.mod_small by lia. lia.
Qed.

Lemma connect_text_length p ch :
  length (connect_text p ch) = (length (until_nul (payload p)) + 11)%nat.
Proof.
  unfold connect_text. rewrite !length_app, Hex.length_int2hex.
  change (length (bytes "connect:")) with 8%nat. change (length (bytes ":")) with 1%nat. lia.
Qed.

(** [quiet], and only the channel counter moves. *)
Lemma multiplexer_open_channel_ok w la lc lcl p :
  Inv None w la lc lcl -> (length lcl <= 255)%nat ->
  exists ch w', multiplexer_open_channel p w = Ok (ch, w') /\ Inv None w' la lc lcl /\
    ((ch = -1 /\ sends w [] w') \/
     (0 <= ch < 256 /\ channel_free w ch /\
      sends w (frame (CHANNEL_CONTROL, connect_text p ch)) w')) /\
    (ch <> -1 <-> (length (until_nul (payload p)) + 11 < MAX_PAYLOAD)%nat) /\
    (ch <> -1 -> number_above w -> 0 < ch).
Proof.
  intros HI Hlen. unfold multiplexer_open_channel.
  destruct (packet_alloc_world_upd w (Inv_pool _ _ _ _ _ HI)) as (q & pool & -> & Hq & Hpool & _).
  assert (HI1 : Inv None (upd_free pool w) la lc lcl) by by eapply InvC_pool.
  destruct (some_channel_free _ _ _ _ (w_last_channel w) HI1 Hlen) as (k & Hk & Hfree).
  destruct (pick_channel_ok pick_fuel _ _ _ _ k HI1 Hk Hfree) as (ch & last & Hpick & Hch & Hf & _).
  assert (Habove : number_above w -> 0 < ch).
  { intros (n & Hn & Hnf). pose proof (Z.mod_pos_bound (w_last_channel w) 256 ltac:(lia)) as Hlow.
    destruct (pick_channel_ok pick_fuel (upd_free pool w) la lc lcl (n - w_last_channel w mod 256) HI1)
      as (ch1 & last1 & Hpick1 & _ & _ & j & Hj & ->); [unfold pick_fuel; lia| |].
    - cbn [w_last_channel upd_free]. rewrite <-Zplus_mod_idemp_l, Z.mod_small by lia.
      by replace (w_last_channel w mod 256 + (n - w_last_channel w mod 256)) with n by lia.
    - rewrite Hpick in Hpick1. injection Hpick1 as -> _. by apply (search_above _ n). }
  rewrite Hpick. cbn [mbind result_bind fst snd].
  destruct (send_connect_ok (upd_last_channel last (upd_free pool w)) la lc lcl q p ch HI1 Hq)
    as (ch' & w' & -> & HI' & Hch').
  exists ch', w'. split; [done|]. split; [done|]. rewrite connect_text_length in Hch'.
  case_decide as Hfit; destruct Hch' as [-> Hout%sends_upd_last%sends_upd_free].
  - split; [by right|]. split; [|by intros _]. split; [done|lia].
  - split; [by left|]. split; [|done]. split; [done|lia].
Qed.
