(* ===== verification/QemudOps.v ===== *)
(** * qemud: the operations keep the invariant

    Registration, creation and tear-down of clients and handlers, shutdown with
    and without queued output, on the worlds of [QemudInv]: each operation
    succeeds (no freed object is touched) and re-establishes [Inv]. *)
From S2P Require Import Prelude QemudPacket QemudSerial PrefList QemudLooper QemudMux QemudInv.
Local Open Scope Z_scope.

(** ** Changes of one component of the world *)

Section Components.
Context {l : Looper ev_user} {fds : gmap nat FDHandler} {fdl : plist}.
Context {cl : gmap nat Client} {cll : plist} {nx : nat} {pool : list Packet} {sf : nat}.
Context {la lc lcl : list nat}.

(** A client changes its channel or its registration. *)
Lemma InvC_client ex c C C' :
  InvC ex l fds fdl cl cll nx pool sf la lc lcl -> cl !! c = Some C ->
  c_fdhandler C' = c_fdhandler C -> -1 <= c_channel C' < 256 ->
  (forall c2 C2, cl !! c2 = Some C2 -> c2 <> c -> c_channel C' <> -1 ->
    c_channel C2 <> c_channel C') ->
  InvC ex l fds fdl (<[c := C']> cl) cll nx pool sf la lc lcl.
Proof.
  intros [] HC Hf Hch Hun. split; auto.
  - intros c2 Hx. rewrite lookup_insert_is_Some, <-i_dom by done.
    destruct (decide (c = c2)) as [<-|]; [|tauto]. rewrite HC. split; [by eexists|by left].
  - intros a Ha. apply i_fresh. rewrite lookup_insert_is_Some in Ha.
    destruct Ha as [?|[?|[?|[<-|[? ?]]]]]; eauto 6.
  - intros g G HG Hc Hx. specialize (i_linked g G HG Hc Hx). unfold linked in *.
    destruct (r_user (f_receiver G)) as [| |c2]; [done|done|].
    destruct i_linked as (C2 & H2 & E). destruct (decide (c = c2)) as [<-|].
    + exists C'. rewrite lookup_insert_eq. split; [done|]. congruence.
    + exists C2. by rewrite lookup_insert_ne.
  - intros c2 C2 [[<- <-]|[Hne H2]]%lookup_insert_Some Hx; [|by apply i_client].
    rewrite Hf. by apply i_client.
  - intros c2 C2 [[<- <-]|[Hne H2]]%lookup_insert_Some; [done|by eapply i_channel].
  - intros c1 c2 C1 C2 [[<- <-]|[Hn1 H1]]%lookup_insert_Some
      [[<- <-]|[Hn2 H2]]%lookup_insert_Some E Hne; [done| | |by eapply i_unique].
    + by destruct (Hun c2 C2 H2 (not_eq_sym Hn2) Hne).
    + destruct (Hun c1 C1 H1 (not_eq_sym Hn1)); congruence.
Qed.

(** The tear-down of a client and of its handler starts. *)
Lemma InvC_weaken f c :
  InvC None l fds fdl cl cll nx pool sf la lc lcl ->
  InvC (Some (f, c)) l fds fdl cl cll nx pool sf la lc lcl.
Proof. intros []. split; auto. Qed.

(** The client forgets its handler. *)
Lemma InvC_unlink f c C C' :
  InvC (Some (f, c)) l fds fdl cl cll nx pool sf la lc lcl ->
  cl !! c = Some C -> c_fdhandler C = Some f -> c_channel C' = c_channel C ->
  InvC (Some (f, c)) l fds fdl (<[c := C']> cl) cll nx pool sf la lc lcl.
Proof.
  intros [] HC Hf Hch. split; auto.
  - intros c2 Hx. rewrite lookup_insert_ne by (intros ->; by apply Hx). by apply i_dom.
  - intros a Ha. apply i_fresh. rewrite lookup_insert_is_Some in Ha.
    destruct Ha as [?|[?|[?|[<-|[? ?]]]]]; eauto 6.
  - intros g G HG Hc Hx. specialize (i_linked g G HG Hc Hx). unfold linked in *.
    destruct (r_user (f_receiver G)) as [| |c2]; [done|done|].
    destruct i_linked as (C2 & H2 & E). exists C2. split; [|done].
    rewrite lookup_insert_ne; [done|]. intros <-. apply Hx. simpl. congruence.
  - intros c2 C2 [[<- <-]|[Hne H2]]%lookup_insert_Some Hx; [by destruct Hx|by apply i_client].
  - intros c2 C2 [[<- <-]|[Hne H2]]%lookup_insert_Some; [|by eapply i_channel].
    rewrite Hch. by eapply i_channel.
  - intros c1 c2 C1 C2 H1 H2 E Hne.
    apply lookup_insert_Some in H1, H2.
    destruct H1 as [[<- <-]|[Hn1 H1]], H2 as [[<- <-]|[Hn2 H2]]; [done| | |by eapply i_unique].
    + eapply i_unique; [exact HC|exact H2|congruence|congruence].
    + eapply i_unique; [exact H1|exact HC|congruence|congruence].
Qed.

(** The client leaves the list of clients. *)
Lemma InvC_unlist f c :
  InvC (Some (f, c)) l fds fdl cl cll nx pool sf la lc lcl -> c ∈ lcl ->
  exists cll', pl_remove c cll = Ok cll' /\
    InvC (Some (f, c)) l fds fdl cl cll' nx pool sf la lc (without c lcl).
Proof.
  intros [] Hc. destruct (pl_remove_ok _ _ _ _ i_clients Hc) as (cll' & Hr & Hl & _).
  exists cll'. split; [done|]. split; auto.
  - intros c2 Hx. rewrite i_dom, elem_of_without by done.
    split; [|by intros []]. intros ?. split; [done|]. intros ->. by apply Hx.
  - intros a. rewrite elem_of_without. intros Ha. apply i_fresh. tauto.
Qed.

(** The client is freed. *)
Lemma InvC_gone f c C :
  InvC (Some (f, c)) l fds fdl cl cll nx pool sf la lc lcl -> c ∉ lcl ->
  cl !! c = Some C -> (forall g, c_fdhandler C = Some g -> g = f) ->
  InvC (Some (f, c)) l fds fdl (delete c cl) (pl_forget c cll) nx pool sf la lc lcl.
Proof.
  intros [] Hc HC Hg. split; auto.
  - by apply pl_forget_repr.
  - intros c2 Hx. rewrite lookup_delete_ne by (intros ->; by apply Hx). by apply i_dom.
  - intros a Ha. apply i_fresh.
    destruct Ha as [?|[?|[?|[C2 [? ?]%lookup_delete_Some]]]]; eauto 6.
  - intros g G HG Hcl Hx. specialize (i_linked g G HG Hcl Hx). unfold linked in *.
    destruct (r_user (f_receiver G)) as [| |c2]; [done|done|].
    destruct i_linked as (C2 & H2 & E). exists C2. split; [|done].
    rewrite lookup_delete_ne; [done|]. intros <-. apply Hx. simpl. f_equal.
    symmetry. apply Hg. congruence.
  - intros c2 C2 [Hne H2]%lookup_delete_Some. by apply i_client.
  - intros c2 C2 [Hne H2]%lookup_delete_Some. by eapply i_channel.
  - intros c1 c2 C1 C2 [? ?]%lookup_delete_Some [? ?]%lookup_delete_Some. by eapply i_unique.
Qed.

(** Both are gone: the tear-down is over. *)
Lemma InvC_done f c :
  InvC (Some (f, c)) l fds fdl cl cll nx pool sf la lc lcl -> c ∉ lcl -> cl !! c = None ->
  (forall F, fds !! f = Some F -> f_closing F = true) ->
  InvC None l fds fdl cl cll nx pool sf la lc lcl.
Proof.
  intros [] Hc HC Hf. split; auto.
  - intros c2 _. destruct (decide (c2 = c)) as [->|].
    + rewrite HC. split; [by intros []|done].
    + apply i_dom. simpl. congruence.
  - intros g G HG Hcl _. apply i_linked; [done|done|]. simpl. intros [= <-].
    rewrite (Hf G HG) in Hcl. done.
  - intros c2 C2 H2 _. apply i_client; [done|]. simpl. congruence.
Qed.

End Components.

(** ** A handler leaves the active list *)

(** The handler leaves whichever list it is on; the other one stays. *)
Lemma fdhandler_unlist fdl la lc f :
  pl_repr fdl active_list la -> pl_repr fdl closing_list lc ->
  (forall g, g ∈ la -> g ∉ lc) -> f ∈ la \/ f ∈ lc ->
  exists fdl', pl_remove f fdl = Ok fdl' /\
    pl_repr fdl' active_list (without f la) /\ pl_repr fdl' closing_list (without f lc) /\
    pl_repr (pl_forget f fdl') active_list (without f la) /\
    pl_repr (pl_forget f fdl') closing_list (without f lc).
Proof.
  intros Ha Hc Hd Hf.
  cut (exists fdl', pl_remove f fdl = Ok fdl' /\
    pl_repr fdl' active_list (without f la) /\ pl_repr fdl' closing_list (without f lc)).
  { intros (fdl' & ? & ? & ?). exists fdl'. split_and!; [done|done|done|..];
      apply pl_forget_repr; try done; rewrite elem_of_without; by intros []. }
  destruct Hf as [Hf|Hf].
  - destruct (pl_remove_ok _ _ _ _ Ha Hf) as (fdl' & Hr & Hl & Hn & _ & Hh).
    exists fdl'. split; [done|]. split; [done|].
    rewrite without_absent by auto. eapply pl_repr_frame; [exact Hc|by apply Hh|].
    intros b Hb. apply Hn. rewrite elem_of_without. intros [??]. by apply (Hd b).
  - destruct (pl_remove_ok _ _ _ _ Hc Hf) as (fdl' & Hr & Hl & Hn & _ & Hh).
    exists fdl'. split; [done|]. split; [|done].
    rewrite without_absent by (intros ?; by apply (Hd f)).
    eapply pl_repr_frame; [exact Ha|by apply Hh|].
    intros b Hb. apply Hn. rewrite elem_of_without. intros [??]. by apply (Hd b).
Qed.

(** [handler_ok] of what [fdhandler_shutdown] leaves on the closing list. *)
Definition shut (F : FDHandler) : FDHandler :=
  set_closing (set_receiver (mkReceiver (r_user (f_receiver F)) (r_post (f_receiver F)) false) F).

Section Handlers.
Context {l : Looper ev_user} {fds : gmap nat FDHandler} {fdl : plist}.
Context {cl : gmap nat Client} {cll : plist} {nx : nat} {pool : list Packet} {sf : nat}.
Context {la lc lcl : list nat}.

(** Output is pending: the handler moves to the closing list. *)
Lemma InvC_to_closing f c F :
  InvC (Some (f, c)) l fds fdl cl cll nx pool sf la lc lcl ->
  fds !! f = Some F -> f_closing F = false -> r_user (f_receiver F) = ClientEnd c ->
  f_out F <> [] ->
  exists fdl1 fdl2, pl_remove f fdl = Ok fdl1 /\ pl_prepend f closing_list fdl1 = Ok fdl2 /\
    InvC (Some (f, c)) l (<[f := shut F]> fds) fdl2 cl cll nx pool sf
      (without f la) (f :: lc) lcl.
Proof.
  intros [] Hf Hcl Hu Hout.
  assert (Hfc : f ∉ lc) by (intros H; apply (i_status _ _ Hf) in H; congruence).
  assert (Hfa : f ∈ la).
  { destruct (proj1 (i_fds f)) as [|]; [by eexists|done|done]. }
  destruct (fdhandler_unlist _ _ _ _ i_active i_closing i_disjoint (or_introl Hfa))
    as (fdl1 & Hr & Ha1 & Hc1 & _).
  rewrite (without_absent f lc) in Hc1 by done.
  destruct (pl_prepend_ok _ _ _ _ Hc1 Hfc) as (fdl2 & Hp & Hc2 & Hn & Hh & _).
  exists fdl1, fdl2. split; [done|]. split; [done|]. split; auto.
  - by eapply looper_ok_put.
  - eapply pl_repr_frame; [exact Ha1|by apply Hh|].
    intros b [Hb Hne]%elem_of_without. apply Hn; auto.
  - intros g. rewrite elem_of_without, elem_of_cons. intros [Hg Hne] [->|Hin]; [done|].
    by apply (i_disjoint g).
  - intros g. rewrite lookup_insert_is_Some, i_fds, elem_of_without, elem_of_cons.
    destruct (decide (f = g)) as [<-|Hne]; naive_solver.
  - intros g G. rewrite elem_of_cons.
    intros [[<- <-]|[Hne HG]]%lookup_insert_Some; [naive_solver|].
    rewrite (i_status g G HG). naive_solver.
  - intros g G [[<- <-]|[Hne HG]]%lookup_insert_Some; [|by eapply i_handler].
    destruct (i_handler f F Hf). split; simpl; [done|done| |done].
    intros _. split; [done|by exists c].
  - intros a. rewrite elem_of_without, elem_of_cons. intros Ha. apply i_fresh. naive_solver.
  - intros g G [[<- <-]|[Hne HG]]%lookup_insert_Some; [done|]. by apply i_linked.
  - intros c2 C2 H2 Hx. destruct (i_client c2 C2 H2 Hx) as (g & G & ? & HG & ? & HuG).
    exists g, G. rewrite lookup_insert_ne; [done|]. intros <-. simplify_eq. apply Hx.
    simpl. congruence.
  - destruct i_serial as (G & HG & ? & HuG). exists G. rewrite lookup_insert_ne; [done|].
    intros ->. simplify_eq. congruence.
Qed.

(** The handler is released. *)
Lemma InvC_release ex f F :
  InvC ex l fds fdl cl cll nx pool sf la lc lcl -> fds !! f = Some F ->
  (f_closing F = true \/
   exists c, ex = Some (f, c) /\ r_user (f_receiver F) = ClientEnd c) ->
  exists fdl', pl_remove f fdl = Ok fdl' /\
    InvC ex (looper_del l (f_fd F)) (delete f fds) (pl_forget f fdl') cl cll nx pool sf
      (without f la) (without f lc) lcl.
Proof.
  intros [] Hf Hwhy.
  destruct (fdhandler_unlist fdl la lc f) as (fdl' & Hr & _ & _ & Ha & Hc); auto.
  { apply i_fds. by eexists. }
  exists fdl'. split; [done|]. split; auto.
  - by apply looper_ok_del.
  - intros g. rewrite !elem_of_without. intros [??] [??]. by apply (i_disjoint g).
  - intros g. rewrite !elem_of_without, lookup_delete_is_Some, i_fds. naive_solver.
  - intros g G [Hne HG]%lookup_delete_Some. rewrite elem_of_without, (i_status g G HG).
    naive_solver.
  - intros g G [Hne HG]%lookup_delete_Some. by eapply i_handler.
  - intros a. rewrite !elem_of_without. intros Ha'. apply i_fresh. naive_solver.
  - intros g G [Hne HG]%lookup_delete_Some. by apply i_linked.
  - intros c2 C2 H2 Hx. destruct (i_client c2 C2 H2 Hx) as (g & G & ? & HG & ? & HuG).
    exists g, G. rewrite lookup_delete_ne; [done|]. intros <-. simplify_eq.
    destruct Hwhy as [|(c & -> & Hu)]; [congruence|]. apply Hx. simpl. congruence.
  - destruct i_serial as (G & HG & HcG & HuG). exists G. rewrite lookup_delete_ne; [done|].
    intros ->. simplify_eq. destruct Hwhy as [|(c & -> & Hu)]; congruence.
Qed.
End Handlers.

(** What [fdhandler_close] does once the receiver has been told. *)
Definition released (f : nat) (F : FDHandler) (fdl : plist) (w : World) : World :=
  upd_fdl (pl_forget f fdl)
    (upd_fds (delete f (w_fds w)) (upd_looper (looper_del (w_looper w) (f_fd F))
      (upd_free (rev (f_out F) ++ w_free w) w))).

Lemma free_all_packets q (w : World) :
  fold_left (fun w p => packet_free p w) q w = upd_free (rev q ++ w_free w) w.
Proof.
  revert w; induction q as [|p q IH]; intros w; simpl; [by destruct w|].
  rewrite IH. unfold packet_free. simpl. by rewrite <-app_assoc.
Qed.

(** [fdhandler_close] of a handler whose receiver has no [close] function, or
    whose [close] function has just run. *)
Lemma fdhandler_close_ok close f w w1 F ex la lc lcl :
  receiver_close close f w = Ok (put_fdh f (set_receiver (mkReceiver (r_user (f_receiver F))
    false false) F) w1) ->
  Inv ex w1 la lc lcl -> w_fds w1 !! f = Some F ->
  (f_closing F = true \/
   exists c, ex = Some (f, c) /\ r_user (f_receiver F) = ClientEnd c) ->
  exists fdl', fdhandler_close close f w = Ok (released f F fdl' w1) /\
    Inv ex (released f F fdl' w1) (without f la) (without f lc) lcl.
Proof.
  intros Hclose HI Hf Hwhy. unfold fdhandler_close. rewrite Hclose.
  destruct (InvC_release _ _ _ HI Hf Hwhy) as (fdl' & Hr & HI').
  exists fdl'. cbn [mbind result_bind]. unfold fdhandler_remove. cbn [w_fdl put_fdh upd_fds].
  rewrite Hr. cbn [mbind result_bind]. unfold fdh. simpl. rewrite lookup_insert_eq. simpl.
  destruct (i_handler HI _ _ Hf) as [Hfd Hq _ _].
  rewrite free_all_packets. rewrite (proj2 (Z.geb_le _ _)) by done. simpl.
  rewrite delete_insert_eq. split; [done|].
  eapply InvC_pool; [exact HI'|]. apply Forall_app. split; [|apply (i_pool HI)].
  apply Forall_rev. destruct Hq as [Hq _]. eapply Forall_impl; [exact Hq|]. by intros ? [].
Qed.

(** A handler on the closing list is closed. *)
Lemma fdhandler_close_closing_ok close f w F la lc lcl :
  Inv None w la lc lcl -> w_fds w !! f = Some F -> f_closing F = true ->
  exists fdl', fdhandler_close close f w = Ok (released f F fdl' w) /\
    Inv None (released f F fdl' w) (without f la) (without f lc) lcl.
Proof.
  intros HI Hf Hcl. destruct (i_handler HI _ _ Hf) as [_ _ Hc _].
  destruct (Hc Hcl) as (Hrc & _).
  eapply fdhandler_close_ok; [|done|done|by left].
  unfold receiver_close, fdh. by rewrite Hf; simpl; rewrite Hrc; simpl; rewrite Hf.
Qed.

(** ** Tear-down of a client *)

Lemma put_fdh_twice f F1 F2 w : put_fdh f F2 (put_fdh f F1 w) = put_fdh f F2 w.
Proof. unfold put_fdh. simpl. by rewrite insert_insert_eq. Qed.

Lemma fdh_put f F w : fdh f (put_fdh f F w) = Ok F.
Proof. unfold fdh, put_fdh. simpl. by rewrite lookup_insert_eq. Qed.

(** What every operation keeps of the rest of the world. *)
Record kept (w w' : World) : Prop := {
  k_serial : w_serial w' = w_serial w;
  k_sf : w_serial_fdh w' = w_serial_fdh w;
  k_looper : steady (w_looper w) (w_looper w')
}.

#[export] Instance kept_preorder : PreOrder kept.
Proof.
  split; [done|]. intros w1 w2 w3 [] []. split; [congruence..|].
  by transitivity (w_looper w2).
Qed.

Lemma quiet_kept w w' : quiet w w' -> kept w w'.
Proof. intros []. by split. Qed.

(** [fdhandler_shutdown] of the handler of a client being torn down. *)
Lemma fdhandler_shutdown_ok close w la lc lcl f c F :
  Inv (Some (f, c)) w la lc lcl -> w_fds w !! f = Some F -> f_closing F = false ->
  r_user (f_receiver F) = ClientEnd c ->
  exists w' la' lc', fdhandler_shutdown close f w = Ok w' /\
    Inv (Some (f, c)) w' la' lc' lcl /\ w_clients w' = w_clients w /\ w_cll w' = w_cll w /\
    (forall F', w_fds w' !! f = Some F' -> f_closing F' = true) /\
    (f_out F <> [] -> w_fds w' !! f = Some (shut F)) /\
    (f_out F = [] -> w_fds w' !! f = None) /\
    (forall g, g <> f -> w_fds w' !! g = w_fds w !! g) /\ kept w w'.
Proof.
  intros HI Hf Hcl Hu. unfold fdhandler_shutdown, fdh at 1. rewrite Hf.
  cbn [mbind result_bind from_option_or set_receiver f_out f_closing]. rewrite Hcl.
  destruct (f_out F) as [|p q] eqn:Hout.
  - match goal with |- context [fdhandler_close _ f ?w0] =>
      destruct (fdhandler_close_ok close f w0 w F (Some (f, c)) la lc lcl) as (fdl' & Hr & HI')
    end.
    { unfold receiver_close. rewrite fdh_put. cbn [mbind result_bind].
      cbn [set_receiver f_receiver r_close mbind result_bind]. rewrite fdh_put.
      cbn [mbind result_bind]. by rewrite put_fdh_twice. }
    { exact HI. } { done. } { right. by exists c. }
    eexists _, _, _. split; [exact Hr|]. split; [exact HI'|]. simpl.
    split_and!; [done|done| |done| | |split; try done; apply looper_del_steady].
    + by rewrite lookup_delete_eq.
    + by rewrite lookup_delete_eq.
    + intros g Hne. by rewrite lookup_delete_ne.
  - destruct (InvC_to_closing f c F HI Hf Hcl Hu) as (fdl1 & fdl2 & H1 & H2 & HI');
      [by rewrite Hout|].
    rewrite put_fdh_twice. cbn [negb]. unfold fdhandler_remove. cbn [w_fdl put_fdh upd_fds].
    rewrite H1. cbn [mbind result_bind]. unfold fdhandler_prepend. cbn [w_fdl upd_fdl].
    rewrite H2. cbn [mbind result_bind].
    eexists _, _, _. split; [done|]. split; [exact HI'|]. simpl.
    rewrite lookup_insert_eq. split_and!; [done|done| |done|done| |done].
    + by intros ? [= <-].
    + intros g Hne. by rewrite lookup_insert_ne.
Qed.

Lemma client_handler w la lc lcl c C :
  Inv None w la lc lcl -> w_clients w !! c = Some C ->
  exists f F, c_fdhandler C = Some f /\ w_fds w !! f = Some F /\ f_closing F = false /\
    r_user (f_receiver F) = ClientEnd c /\ c ∈ lcl.
Proof.
  intros HI HC. destruct (i_client HI c C HC) as (f & F & ? & ? & ? & ?); [done|].
  exists f, F. split_and!; try done. apply (i_dom HI c); [done|by eexists].
Qed.

(** A handler of the client with queued output is still there. *)
Definition flushed (c : nat) (w w' : World) : Prop :=
  forall f F, w_fds w !! f = Some F -> r_user (f_receiver F) = ClientEnd c ->
    f_closing F = false -> f_out F <> [] -> exists F', w_fds w' !! f = Some F'.

Lemma flushed_quiet c w w' : quiet w w' -> flushed c w w'.
Proof. intros [] f F Hf _ _ _. destruct (q_fds f F Hf) as (F' & ? & _). by exists F'. Qed.

(** The client is freed: its handler is gone, or flushing its queue on the
    closing list. *)
Lemma client_free_ok close w la lc lcl c C :
  Inv None w la lc lcl -> w_clients w !! c = Some C ->
  exists w' la' lc', client_free close c w = Ok w' /\
    Inv None w' la' lc' (without c lcl) /\ w_clients w' = delete c (w_clients w) /\ kept w w' /\
    flushed c w w' /\ (forall g, c_fdhandler C <> Some g -> w_fds w' !! g = w_fds w !! g).
Proof.
  intros HI HC. destruct (client_handler _ _ _ _ _ _ HI HC) as (f & F & Hcf & Hf & Hcl & Hu & Hc).
  pose proof (InvC_weaken f c HI) as HI1.
  destruct (InvC_unlist f c HI1 Hc) as (cll' & Hr & HI2).
  unfold client_free. rewrite Hr. cbn [mbind result_bind]. unfold client.
  cbn [w_clients upd_cll]. rewrite HC. cbn [mbind result_bind from_option_or]. rewrite Hcf.
  destruct (fdhandler_shutdown_ok close (upd_cll cll' w) _ _ _ f c F HI2 Hf Hcl Hu)
    as (w1 & la1 & lc1 & -> & HI3 & Ecl & Ecll & Hnof & Hshut & _ & Hother & Hk).
  cbn [mbind result_bind].
  eexists _, la1, lc1. split; [done|]. cbn [w_clients upd_cll upd_clients]. rewrite Ecl.
  split; [|split_and!; [done|destruct Hk; by split| |]].
  3:{ intros g Hg. simpl. apply Hother. congruence. }
  2:{ intros g G HG HGu HGc Hout. destruct (decide (g = f)) as [->|Hne].
      - simplify_eq. eexists. by apply Hshut.
      - exists G. simpl. by rewrite Hother. }
  assert (Hnc : c ∉ without c lcl) by (rewrite elem_of_without; by intros []).
  apply (InvC_done f c); [|done|simpl; by rewrite lookup_delete_eq|done].
  apply (InvC_gone f c C); [by rewrite <-Ecl|done|done|]. intros g. congruence.
Qed.

(** What the emulator is told when a client goes away. *)
Definition goodbye (C : Client) : list Z :=
  if c_channel C >? 0
  then frame (CHANNEL_CONTROL, bytes "disconnect:" ++ Hex.int2hex (c_channel C) 2) else [].

(** The peer closed the connection: the client tells the emulator and is freed
    with its handler. *)
Lemma client_fd_close_ok w la lc lcl f c F C :
  Inv None w la lc lcl -> w_fds w !! f = Some F -> f_closing F = false ->
  r_user (f_receiver F) = ClientEnd c -> w_clients w !! c = Some C -> c_fdhandler C = Some f ->
  c ∈ lcl ->
  exists w' F', call_close (ClientEnd c) w = Ok w' /\
    Inv (Some (f, c)) w' la lc (without c lcl) /\ w_clients w' = delete c (w_clients w) /\
    w_fds w' !! f = Some F' /\ f_fd F' = f_fd F /\ f_receiver F' = f_receiver F /\
    f_closing F' = false /\ kept w w' /\ serial_out w' = serial_out w ++ goodbye C /\
    (forall g, g <> w_serial_fdh w -> w_fds w' !! g = w_fds w !! g).
Proof.
  intros HI Hf Hcl Hu HC Hcf Hc. unfold call_close, close_receiver, client_fd_close.
  unfold client at 1. rewrite HC. cbn [mbind result_bind from_option_or].
  set (C' := mkClient (c_channel C) (c_registered C) None).
  assert (HI1 : Inv (Some (f, c)) (put_client c C' w) la lc lcl).
  { eapply InvC_unlink; [by apply InvC_weaken|done|done|done]. }
  assert (exists w1, (if c_channel C >? 0
      then multiplexer_close_channel (c_channel C) (put_client c C' w)
      else Ok (put_client c C' w)) = Ok w1 /\ Inv (Some (f, c)) w1 la lc lcl /\
      sends (put_client c C' w) (goodbye C) w1) as (w1 & -> & HI2 & [Hq Hout Hothers]).
  { unfold goodbye. destruct (_ >? _); [by apply multiplexer_close_channel_ok|].
    eexists. split; [done|]. split; [done|]. by apply sends_nothing. }
  cbn [mbind result_bind]. unfold client_free.
  destruct (InvC_unlist f c HI2 Hc) as (cll' & -> & HI3). cbn [mbind result_bind].
  assert (HC1 : w_clients w1 !! c = Some C').
  { rewrite (q_clients _ _ Hq). simpl. by rewrite lookup_insert_eq. }
  unfold client. cbn [w_clients upd_cll]. rewrite HC1. cbn [mbind result_bind from_option_or].
  unfold C' at 1. cbn [c_fdhandler mbind result_bind].
  destruct (q_fds _ _ Hq f F Hf) as (F' & Hf' & ? & ? & ?).
  eexists _, F'. split; [done|]. split.
  { apply (InvC_gone f c C'); [exact HI3| |done|done]. rewrite elem_of_without. by intros []. }
  simpl. rewrite (q_clients _ _ Hq). simpl. rewrite delete_insert_eq.
  split_and!; [done|done|done|done|congruence| |exact Hout|exact Hothers].
  destruct Hq. by split.
Qed.

(** A handler whose peer hung up is closed, with the client it belongs to. *)
Lemma fdhandler_hangup_ok w la lc lcl f F c :
  Inv None w la lc lcl -> w_fds w !! f = Some F -> r_user (f_receiver F) = ClientEnd c ->
  exists w' la' lc' lcl', fdhandler_close call_close f w = Ok w' /\
    Inv None w' la' lc' lcl' /\ w_fds w' !! f = None /\
    w_clients w' = (if f_closing F then w_clients w else delete c (w_clients w)) /\
    (length lcl' <= length lcl)%nat /\ kept w w' /\
    (f_closing F = false -> exists C, w_clients w !! c = Some C /\ c_fdhandler C = Some f /\
       serial_out w' = serial_out w ++ goodbye C /\
       forall g, g <> f -> g <> w_serial_fdh w -> w_fds w' !! g = w_fds w !! g).
Proof.
  intros HI Hf Hu. destruct (f_closing F) eqn:Hcl.
  - destruct (fdhandler_close_closing_ok call_close f w F la lc lcl HI Hf Hcl)
      as (fdl' & Hr & HI').
    eexists _, _, _, _. split; [exact Hr|]. split; [exact HI'|]. simpl.
    rewrite lookup_delete_eq.
    split_and!; [done|done|lia|split; try done; apply looper_del_steady|done].
  - pose proof (i_linked HI f F Hf Hcl) as Hlk. unfold linked in Hlk. rewrite Hu in Hlk.
    destruct Hlk as (C & HC & Hcf); [done|].
    destruct (client_handler _ _ _ _ _ _ HI HC) as (_ & _ & _ & _ & _ & _ & Hc).
    destruct (client_fd_close_ok w la lc lcl f c F C HI Hf Hcl Hu HC Hcf Hc)
      as (w1 & F1 & Hr1 & HI1 & Ecl & Hf1 & Efd & Er & Hc1 & Hk & Hout & Hothers).
    destruct (fdhandler_close_ok call_close f w w1 F1 (Some (f, c)) la lc (without c lcl))
      as (fdl' & Hr & HI'); [|done|done| |].
    { unfold receiver_close, fdh. rewrite Hf. cbn [mbind result_bind from_option_or].
      destruct (i_handler HI f F Hf) as [_ _ _ Ha]. destruct (Ha Hcl) as [_ ->].
      rewrite Hu, Hr1. cbn [mbind result_bind]. rewrite Hf1. simpl. by rewrite Er, Hu. }
    { right. exists c. by rewrite Er. }
    assert (Hnc : c ∉ without c lcl) by (rewrite elem_of_without; by intros []).
    eexists _, _, _, _. split; [exact Hr|]. split.
    { apply (InvC_done f c); [exact HI'|done|simpl; by rewrite Ecl, lookup_delete_eq|].
      simpl. by rewrite lookup_delete_eq. }
    simpl. rewrite lookup_delete_eq. split_and!; [done|done|apply length_filter| |].
    { destruct Hk. split; [done|done|]. etransitivity; [done|apply looper_del_steady]. }
    intros _. exists C. split; [done|]. split; [done|]. split.
    + rewrite <-Hout. unfold serial_out. simpl. rewrite lookup_delete_ne; [done|].
      rewrite (k_sf _ _ Hk). intros ->. destruct (i_serial HI) as (G & HG & _ & HGu). congruence.
    + intros g Hne Hsf. simpl. rewrite lookup_delete_ne by done. by apply Hothers.
Qed.

(** ** Registration and data *)

(** [fdhandler_enqueue (c->fdhandler, p)]: the packet joins the queue of the
    client's handler, the clients do not change. *)
Lemma client_enqueue_ok w la lc lcl c C p :
  Inv None w la lc lcl -> w_clients w !! c = Some C -> chunk_ok p ->
  exists w' f F F', client_enqueue c p w = Ok w' /\ Inv None w' la lc lcl /\ quiet w w' /\
    c_fdhandler C = Some f /\ w_fds w !! f = Some F /\
    w_fds w' = <[f := F']> (w_fds w) /\ pending F' = pending F ++ payload p.
Proof.
  intros HI HC Hp.
  destruct (client_handler _ _ _ _ _ _ HI HC) as (f & F & Hcf & Hf & Hcl & Hu & Hc).
  unfold client_enqueue, client. rewrite HC. cbn [mbind result_bind from_option_or].
  rewrite Hcf. cbn [mbind result_bind from_option_or].
  destruct (fdhandler_enqueue_ok None w la lc lcl f F p HI Hf)
    as (w' & F' & Hr & HI' & Hq & Hfds & _ & Hout); [by rewrite Hu|done|].
  by exists w', f, F, F'.
Qed.

(** The answer "OK" or "KO" is queued and the client is (un)registered. *)
Lemma client_registration_ok w la lc lcl c C (registered : bool) :
  Inv None w la lc lcl -> w_clients w !! c = Some C ->
  exists w' f F F', client_registration c registered w = Ok w' /\ Inv None w' la lc lcl /\
    w_clients w' = <[c := mkClient (if registered then c_channel C else -1) registered
                            (c_fdhandler C)]> (w_clients w) /\
    c_fdhandler C = Some f /\ w_fds w !! f = Some F /\
    w_fds w' = <[f := F']> (w_fds w) /\
    pending F' = pending F ++ (if registered then bytes "OK" else bytes "KO") /\
    w_next w' = w_next w /\ kept w w'.
Proof.
  intros HI HC. unfold client_registration.
  destruct (packet_alloc_world_upd w (i_pool HI)) as (q & pool & -> & Hq & Hpool & _).
  assert (HI1 : Inv None (upd_free pool w) la lc lcl) by by eapply InvC_pool.
  set (word := if registered then bytes "OK" else bytes "KO").
  assert (Hw : length word = 2%nat) by (by destruct registered).
  unfold packet_ok in Hq.
  destruct (write_block (p_data q) 0 word) as [d|] eqn:E.
  2:{ rewrite write_block_ok in E; [done|lia|]. rewrite Hw, Hq. unfold MAX_PAYLOAD. lia. }
  pose proof (write_block_length _ _ _ _ E) as Hd. cbn [mbind result_bind].
  set (p := set_p_len 2 (set_p_data d q)).
  assert (Hp : chunk_ok p).
  { split; [unfold packet_ok, p; simpl; congruence|]. simpl. unfold MAX_PAYLOAD. lia. }
  destruct (client_enqueue_ok (upd_free pool w) la lc lcl c C p HI1 HC Hp)
    as (w1 & f & F & F' & -> & HI2 & Hqt & Hcf & Hf & Hfds & Hout).
  cbn [mbind result_bind]. unfold client. rewrite (q_clients _ _ Hqt).
  cbn [w_clients upd_free]. rewrite HC. cbn [mbind result_bind from_option_or].
  eexists _, f, F, F'. split; [done|]. split.
  { eapply InvC_client; [exact HI2|rewrite (q_clients _ _ Hqt); exact HC|done|..]; simpl.
    - pose proof (i_channel HI c C HC). destruct registered; lia.
    - rewrite (q_clients _ _ Hqt). cbn [w_clients upd_free].
      intros c2 C2 H2 Hne Hch E2. destruct registered; [|done].
      apply Hne. by apply (i_unique HI c2 c C2 C); [..|congruence]. }
  simpl. rewrite (q_clients _ _ Hqt). split_and!; try done.
  - rewrite Hout. f_equal. unfold payload, p. simpl. rewrite write_block_ok in E by
      (rewrite ?Hw, ?Hq; unfold MAX_PAYLOAD; lia).
    injection E as <-. simpl. by destruct registered.
  - by rewrite (q_next _ _ Hqt).
  - destruct Hqt. by split.
Qed.

(** ** Data from a client *)

Lemma client_live c C w : w_clients w !! c = Some C -> client c w = Ok C.
Proof. unfold client. by intros ->. Qed.

Lemma Inv_put_client w la lc lcl c C C' :
  Inv None w la lc lcl -> w_clients w !! c = Some C ->
  c_fdhandler C' = c_fdhandler C -> -1 <= c_channel C' < 256 ->
  (c_channel C' = -1 \/ channel_free w (c_channel C')) ->
  Inv None (put_client c C' w) la lc lcl.
Proof.
  intros HI HC Hf Hch Hfree. eapply InvC_client; [exact HI|exact HC|done|done|].
  intros c2 C2 H2 Hne Hn. destruct Hfree as [|Hfree]; [done|]. by apply (Hfree c2).
Qed.

(** [client_fd_receive] on every branch: forward, protocol error, or the name
    of the service the client wants. *)
Lemma client_fd_receive_ok w la lc lcl c C p :
  Inv None w la lc lcl -> w_clients w !! c = Some C -> chunk_ok p ->
  (length lcl <= 255)%nat ->
  exists w' la' lc' lcl', client_fd_receive c p w = Ok w' /\ Inv None w' la' lc' lcl' /\
    (length lcl' <= length lcl)%nat /\ kept w w' /\ flushed c w w'.
Proof.
  intros HI HC Hp Hlen. unfold client_fd_receive. rewrite (client_live c C) by done.
  cbn [mbind result_bind]. destruct (c_registered C).
  { destruct (serial_send_ok None w la lc lcl (set_p_channel (c_channel C) p) HI Hp)
      as (w' & Hr & HI' & [Hq _ _]).
    exists w', la, lc, lcl. split_and!; [exact Hr|done|done|by apply quiet_kept|].
    by apply flushed_quiet. }
  destruct (c_channel C >? 0).
  { destruct (client_free_ok call_close (packet_free p w) la lc lcl c C)
      as (w' & la' & lc' & Hr & HI' & _ & Hk & Hfl & _); [by apply Inv_free_packet, Hp|done|].
    exists w', la', lc', (without c lcl). split_and!; [done|done|apply length_filter| |done].
    destruct Hk; by split. }
  destruct (multiplexer_open_channel_ok w la lc lcl p HI Hlen)
    as (ch & w1 & -> & HI1 & Hch & _).
  assert (Hq : quiet w w1) by (by destruct Hch as [[_ [? _ _]]|(_ & _ & [? _ _])]).
  assert (Hch' : ch = -1 \/ 0 <= ch < 256 /\ channel_free w ch) by naive_solver. clear Hch.
  cbn [mbind result_bind]. rewrite (client_live c C) by (by rewrite (q_clients _ _ Hq)).
  cbn [mbind result_bind].
  set (C' := mkClient ch (c_registered C) (c_fdhandler C)).
  assert (HI2 : Inv None (put_client c C' w1) la lc lcl).
  { eapply Inv_put_client; [exact HI1|by rewrite (q_clients _ _ Hq)|done|simpl; lia|].
    simpl. destruct Hch' as [|[? Hfree]]; [by left|right].
    intros c2 C2. rewrite (q_clients _ _ Hq). apply Hfree. }
  destruct (ch <? 0).
  - destruct (client_free_ok call_close (packet_free p (put_client c C' w1)) la lc lcl c C')
      as (w' & la' & lc' & Hr & HI' & _ & Hk & Hfl & _);
      [by apply Inv_free_packet, Hp|by apply lookup_insert_eq|].
    exists w', la', lc', (without c lcl). split_and!; [done|done|apply length_filter| |].
    { transitivity w1; [by apply quiet_kept|]. destruct Hk; by split. }
    intros f F Hf Hu Hcl Hout. destruct (client_handler _ _ _ _ _ _ HI HC)
      as (f' & F' & Hcf & Hf' & _). pose proof (i_linked HI f F Hf Hcl) as Hlk.
    unfold linked in Hlk. rewrite Hu in Hlk. destruct Hlk as (C1 & HC1 & Hcf1); [done|].
    destruct (q_fds _ _ Hq f F Hf) as (F1 & Hf1 & _ & Er & Ec).
    eapply Hfl; [exact Hf1|congruence|congruence|].
    by apply (q_out _ _ Hq f F F1).
  - exists (packet_free p (put_client c C' w1)), la, lc, lcl.
    split_and!; [done|by apply Inv_free_packet, Hp|done| |].
    { transitivity w1; [by apply quiet_kept|]. by split. }
    intros f F Hf Hu Hcl Hout. destruct (q_fds _ _ Hq f F Hf) as (F1 & Hf1 & _). by exists F1.
Qed.

(** ** A new client *)

Lemma InvC_new l fds fdl cl cll n pool sf la lc lcl F :
  InvC None l fds fdl cl cll n pool sf la lc lcl ->
  unused l (f_fd F) -> 0 <= f_fd F -> f_out F = [] -> f_out_pos F = 0 ->
  f_closing F = false -> f_receiver F = mkReceiver (ClientEnd n) true true ->
  exists fdl' cll', pl_prepend (S n) active_list fdl = Ok fdl' /\
    pl_prepend n clients_list cll = Ok cll' /\
    InvC None (looper_enable (looper_add l (f_fd F) (S n, EvHandler)) (f_fd F) EPOLLIN)
      (<[S n := F]> fds) fdl' (<[n := mkClient (-1) false (Some (S n))]> cl) cll' (S (S n))
      pool sf (S n :: la) lc (n :: lcl).
Proof.
  intros [] Hu Hfd Hout Hpos Hcl Hrecv.
  assert (Hfr : forall a, a ∈ la \/ a ∈ lc \/ a ∈ lcl \/ is_Some (cl !! a) ->
    a <> n /\ a <> S n) by (intros a Ha; apply i_fresh in Ha; lia).
  assert (Hnf : fds !! S n = None).
  { apply eq_None_not_Some. intros H. apply i_fds in H.
    destruct (Hfr (S n)) as [_ []]; [tauto|done]. }
  assert (Hnc : cl !! n = None).
  { apply eq_None_not_Some. intros H. destruct (Hfr n) as [[] _]; [tauto|done]. }
  destruct (pl_prepend_ok fdl active_list la (S n) i_active)
    as (fdl' & Hr & Ha & Hn & Hh & _); [intros H; apply (Hfr (S n)); auto|].
  destruct (pl_prepend_ok cll clients_list lcl n i_clients)
    as (cll' & Hrc & Hac & _); [intros H; destruct (Hfr n); auto|].
  exists fdl', cll'. split; [done|]. split; [done|]. split; auto.
  - pose proof (looper_ok_new l fds (S n) F i_looper Hu Hnf Hout) as HL.
    unfold handler_kind in HL. by rewrite Hrecv in HL.
  - eapply pl_repr_frame; [exact i_closing|by apply Hh|].
    intros a Hin. apply Hn; [apply Hfr; auto|]. intros ?. by apply (i_disjoint a).
  - intros g [->|Hg]%elem_of_cons; [|by apply i_disjoint]. intros ?.
    apply (Hfr (S n)); auto.
  - intros g. rewrite lookup_insert_is_Some, i_fds, elem_of_cons.
    destruct (decide (S n = g)); naive_solver.
  - intros g G [[<- <-]|[Hne HG]]%lookup_insert_Some; [|by apply i_status].
    rewrite Hcl. split; [done|]. intros ?. destruct (Hfr (S n)); auto.
  - intros g G [[<- <-]|[Hne HG]]%lookup_insert_Some; [|by eapply i_handler].
    split; [done| |congruence|by rewrite Hrecv].
    split; [|split]; rewrite ?Hout, ?Hpos; [constructor|done|done].
  - intros c _. rewrite lookup_insert_is_Some, (i_dom c), elem_of_cons by done.
    destruct (decide (n = c)); naive_solver.
  - intros a. rewrite !elem_of_cons, lookup_insert_is_Some. intros Hx.
    assert (a = n \/ a = S n \/ a ∈ la \/ a ∈ lc \/ a ∈ lcl \/ is_Some (cl !! a)) as Hx'
      by naive_solver.
    destruct Hx' as [->|[->|Hx']]; [lia|lia|]. apply i_fresh in Hx'. lia.
  - intros g G [[<- <-]|[Hne HG]]%lookup_insert_Some Hc Hx; unfold linked.
    + rewrite Hrecv. simpl. eexists. by rewrite lookup_insert_eq.
    + specialize (i_linked g G HG Hc Hx). unfold linked in i_linked.
      destruct (r_user (f_receiver G)) as [| |c]; [done|done|].
      destruct i_linked as (C & HC & E). exists C. by rewrite lookup_insert_ne by congruence.
  - intros c C [[<- <-]|[Hne HC]]%lookup_insert_Some Hx.
    + exists (S n), F. rewrite lookup_insert_eq, Hrecv. done.
    + destruct (i_client c C HC Hx) as (f & G & ? & HG & ?). exists f, G.
      rewrite lookup_insert_ne by congruence. done.
  - destruct i_serial as (G & HG & ?). exists G.
    rewrite lookup_insert_ne by congruence. done.
  - intros c C [[<- <-]|[Hne HC]]%lookup_insert_Some; [simpl; lia|by eapply i_channel].
  - intros c1 c2 C1 C2 [[<- <-]|[Hn1 H1]]%lookup_insert_Some
      [[<- <-]|[Hn2 H2]]%lookup_insert_Some E Hne; simpl in *;
      [done|congruence|congruence|by eapply i_unique].
Qed.

Lemma client_new_ok w la lc lcl fd :
  Inv None w la lc lcl -> unused (w_looper w) fd -> 0 <= fd ->
  exists w', client_new fd w = Ok (w_next w, w') /\
    Inv None w' (S (w_next w) :: la) lc (w_next w :: lcl) /\
    w_clients w' = <[w_next w := mkClient (-1) false (Some (S (w_next w)))]> (w_clients w) /\
    w_serial w' = w_serial w /\ w_serial_fdh w' = w_serial_fdh w /\
    (calm (w_looper w) -> calm (w_looper w') /\
       length (l_hooks (w_looper w')) = S (length (l_hooks (w_looper w)))).
Proof.
  intros HI Hu Hfd. set (n := w_next w).
  set (F := mkFDHandler fd false (mkReceiver (ClientEnd n) true true) 0 []).
  destruct (InvC_new _ _ _ _ _ _ _ _ _ _ _ F HI) as (fdl' & cll' & H1 & H2 & HI'); try done.
  fold n in H1, H2, HI'. unfold client_new, fdhandler_new, fdhandler_prepend. fold n. simpl. fold n. fold F.
  rewrite H1. simpl. rewrite H2. simpl. eexists. split; [done|]. simpl.
  split; [unfold Inv; simpl; rewrite insert_insert_eq; exact HI'|].
  rewrite insert_insert_eq. split_and!; try done.
  intros Hc. destruct (looper_add_calm _ fd (S n, EvHandler) Hc) as [Hc1 Hl1].
  destruct (looper_enable_steady (looper_add (w_looper w) fd (S n, EvHandler)) fd EPOLLIN).
  split; [auto|congruence].
Qed.
