(* ===== verification/QemudDaemon.v ===== *)
(** * qemud: the daemon as a whole

    Messages from the emulator, event callbacks, turns of the loop: the
    invariant of [QemudInv] holds from start-up on, as long as the events are
    those of [event_ok], and then no callback touches freed memory. *)
From S2P Require Import Prelude QemudPacket QemudSerial PrefList QemudLooper QemudMux QemudInv.
From S2P Require Import QemudOps.
Local Open Scope Z_scope.

(** ** Messages from the emulator *)

(** The client found, and the only one when the channel is a number. *)
Lemma find_client_unique w la lc lcl c C ch :
  Inv None w la lc lcl -> w_clients w !! c = Some C -> c_channel C = ch -> ch <> -1 ->
  multiplexer_find_client ch w = Ok (Some c).
Proof.
  intros HI HC Hch Hne.
  destruct (multiplexer_find_client_ok w la lc lcl ch HI) as ([c'|] & -> & Hr).
  - destruct Hr as (C' & HC' & Hch'). do 2 f_equal.
    apply (i_unique HI c' c C' C); congruence.
  - by destruct (Hr c C HC).
Qed.

Definition alive (w : World) : Prop :=
  exists la lc lcl, Inv None w la lc lcl /\ (length lcl <= 255)%nat.

(** A step of the daemon that ends in a well-formed world. *)
Definition safe (w : World) (r : result World) : Prop :=
  exists w', r = Ok w' /\ alive w' /\ kept w w'.

Lemma safe_ret w w' : alive w' -> kept w w' -> safe w (Ok w').
Proof. intros. by exists w'. Qed.

Lemma safe_weaken w w1 r : kept w w1 -> safe w1 r -> safe w r.
Proof. intros Hk (w' & -> & Ha & Hk'). exists w'. split_and!; [done|done|by etransitivity]. Qed.

Lemma alive_free w p : alive w -> packet_ok p -> alive (packet_free p w).
Proof. intros (la & lc & lcl & HI & Hl) Hp. exists la, lc, lcl. split; [by apply Inv_free_packet|done]. Qed.

Lemma kept_free w p : kept w (packet_free p w).
Proof. by split. Qed.

Lemma safe_free w r p :
  safe w r -> packet_ok p -> safe w (w ← r; Ok (packet_free p w)).
Proof.
  intros (w' & -> & Ha & Hk) Hp. exists (packet_free p w'). split; [done|].
  split; [by apply alive_free|]. etransitivity; [done|by split].
Qed.

Lemma safe_find w ch (k : option nat -> World -> result World) :
  alive w -> (forall la lc lcl c C, Inv None w la lc lcl -> (length lcl <= 255)%nat ->
    w_clients w !! c = Some C -> c_channel C = ch -> safe w (k (Some c) w)) ->
  safe w (k None w) ->
  safe w (c ← multiplexer_find_client ch w; k c w).
Proof.
  intros (la & lc & lcl & HI & Hl) Hs Hn.
  destruct (multiplexer_find_client_ok w la lc lcl ch HI) as ([c|] & -> & Hr); [|exact Hn].
  destruct Hr as (C & HC & Hch). by eapply Hs.
Qed.

Lemma client_registration_safe w la lc lcl c C b :
  Inv None w la lc lcl -> (length lcl <= 255)%nat -> w_clients w !! c = Some C ->
  safe w (client_registration c b w).
Proof.
  intros HI Hl HC.
  destruct (client_registration_ok w la lc lcl c C b HI HC)
    as (w' & f & F & F' & Hr & HI' & _ & _ & _ & _ & _ & _ & Hk).
  exists w'. split; [done|]. split; [by exists la, lc, lcl|done].
Qed.

Lemma client_free_safe w la lc lcl c C :
  Inv None w la lc lcl -> (length lcl <= 255)%nat -> w_clients w !! c = Some C ->
  safe w (client_free call_close c w).
Proof.
  intros HI Hl HC.
  destruct (client_free_ok call_close w la lc lcl c C HI HC) as (w' & la' & lc' & Hr & HI' & _ & Hk & _).
  exists w'. split; [done|]. split; [|done]. exists la', lc', (without c lcl). split; [done|].
  etransitivity; [apply length_filter|done].
Qed.

Lemma multiplexer_handle_control_safe w p :
  alive w -> packet_ok p -> safe w (multiplexer_handle_control p w).
Proof.
  intros Ha Hp. unfold multiplexer_handle_control. apply safe_free; [|done].
  destruct (is_command (bytes "ok:connect:") p); [|destruct (is_command (bytes "ko:connect:") p);
    [|destruct (is_command (bytes "disconnect:") p)]].
  - apply (safe_find w _ (fun c w => match c with Some c => client_registration c true w
      | None => Ok w end)); [done| |by apply safe_ret].
    intros. by eapply client_registration_safe.
  - apply (safe_find w _ (fun c w => match c with Some c => client_registration c false w
      | None => Ok w end)); [done| |by apply safe_ret].
    intros. by eapply client_registration_safe.
  - apply (safe_find w _ (fun c w => match c with Some c => client_free call_close c w
      | None => Ok w end)); [done| |by apply safe_ret].
    intros. by eapply client_free_safe.
  - by apply safe_ret.
Qed.

Lemma multiplexer_serial_receive_safe w p :
  alive w -> chunk_ok p -> safe w (multiplexer_serial_receive p w).
Proof.
  intros Ha Hp. unfold multiplexer_serial_receive. destruct (_ =? _).
  { by apply multiplexer_handle_control_safe, Hp. }
  apply (safe_find w _ (fun c w => match c with Some c => client_send c p w
      | None => Ok (packet_free p w) end)); [done| |].
  - intros la lc lcl c C HI Hl HC _.
    destruct (client_enqueue_ok w la lc lcl c C p HI HC Hp) as (w' & f & F & F' & Hr & HI' & Hq & _).
    exists w'. split; [done|]. split; [by exists la, lc, lcl|by apply quiet_kept].
  - apply safe_ret; [by apply alive_free, Hp|by split].
Qed.

(** The multiplexer keeps the promise the serial framing relies on. *)
#[export] Instance mux_receiver : ReceiverSpec World multiplexer_serial_receive.
Proof.
  refine {| world_ok := alive; after w _ w' := kept w w' |}.
  - intros w (la & lc & lcl & HI & _). by eapply Inv_pool.
  - intros l w (la & lc & lcl & HI & Hl) Hp. exists la, lc, lcl. split; [|done].
    by eapply InvC_pool.
  - done.
  - done.
  - intros. by etransitivity.
  - intros p w Hp Hlen Ha. destruct (multiplexer_serial_receive_safe w p Ha) as (w' & ? & ? & ?);
      [split; [done|lia]|]. by exists w'.
Defined.

(** ** Output *)

(** The queue shrinks; EPOLLOUT is disabled when it becomes empty. *)
Lemma Inv_dequeue w la lc lcl f F pos q :
  Inv None w la lc lcl -> w_fds w !! f = Some F -> f_out F <> [] ->
  r_user (f_receiver F) <> ControlEnd -> queue_ok (set_out pos q F) ->
  Inv None (upd_looper (match q with
      | [] => looper_disable (w_looper w) (f_fd F) EPOLLOUT
      | _ => w_looper w end) (put_fdh f (set_out pos q F) w)) la lc lcl.
Proof.
  intros HI Hf Hout Hu Hq. destruct (i_handler HI f F Hf) as [Hfd _ Hc Ha].
  eapply InvC_put; [exact HI|exact Hf| |by split|done|done|done].
  assert (Hm : handler_mask F = Z.lor EPOLLIN EPOLLOUT)
    by (unfold handler_mask; by destruct (f_out F)).
  destruct q as [|p q].
  - eapply looper_ok_mask; [apply (i_looper HI)|exact Hf|done|done|].
    intros m Hr Hm'. rewrite Hm in Hm'.
    exact (looper_disable_represents _ _ _ _ _ EPOLLOUT Hr Hm').
  - eapply looper_ok_put; [apply (i_looper HI)|exact Hf|done|done|by rewrite Hm].
Qed.

(** What a handler has not written of the packet it is writing. *)
Definition unwritten (F : FDHandler) (p : Packet) : list Z :=
  slice (p_data p) (Z.to_nat (f_out_pos F)) (Z.to_nat (p_len p - f_out_pos F)).

Section Pending.
Context (F : FDHandler) (p : Packet) (rest : list Packet).
Context (Hout : f_out F = p :: rest) (Hpos : 0 <= f_out_pos F <= p_len p).
Context (Hlen : p_len p <= Z.of_nat (length (p_data p))).

Lemma unwritten_length : Z.of_nat (length (unwritten F p)) = p_len p - f_out_pos F.
Proof using Hpos Hlen. unfold unwritten, slice. rewrite length_take, length_drop. lia. Qed.

Lemma pending_head : pending F = unwritten F p ++ concat (map payload rest).
Proof using Hout Hpos Hlen.
  unfold pending. rewrite Hout. simpl. unfold unwritten, slice, payload.
  rewrite drop_app_le by (rewrite length_take; lia). f_equal.
  rewrite take_drop_commute. f_equal. f_equal. lia.
Qed.

(** Writing a part of the packet leaves the rest of what was pending. *)
Lemma pending_partial len :
  0 <= len <= p_len p - f_out_pos F ->
  pending F = take (Z.to_nat len) (unwritten F p) ++
              pending (set_out (f_out_pos F + len) (p :: rest) F).
Proof using Hout Hpos Hlen.
  intros Hl. rewrite pending_head. unfold pending. simpl. unfold payload.
  rewrite <-(take_drop (Z.to_nat len) (unwritten F p)) at 1. rewrite <-app_assoc. f_equal.
  rewrite drop_app_le by (rewrite length_take; lia). f_equal.
  unfold unwritten, slice. rewrite take_drop_commute, drop_drop.
  f_equal; [lia|f_equal; lia].
Qed.
End Pending.

(** One EPOLLOUT event: a prefix of the pending bytes is written, the rest stays
    pending, and the event stays monitored exactly while packets are queued. *)
Lemma fdhandler_event_out_ok w la lc lcl f F :
  Inv None w la lc lcl -> w_fds w !! f = Some F ->
  (r_user (f_receiver F) = ControlEnd -> f_out F = []) ->
  exists w' F' bs, fdhandler_event_out f w = Ok w' /\ Inv None w' la lc lcl /\ kept w w' /\
    w_fds w' = <[f := F']> (w_fds w) /\ f_receiver F' = f_receiver F /\ f_fd F' = f_fd F /\
    f_closing F' = f_closing F /\
    pending F = bs ++ pending F' /\
    concat (map snd (w_written w')) = concat (map snd (w_written w)) ++ bs /\
    w_clients w' = w_clients w /\
    (forall fd bs', (fd, bs') ∈ w_written w' -> (fd, bs') ∈ w_written w \/ fd = f_fd F).
Proof.
  intros HI Hf Hctl.
  destruct (i_handler HI f F Hf) as [Hfd Hq Hc Ha].
  assert (Hsame : <[f := F]> (w_fds w) = w_fds w) by by apply insert_id.
  unfold fdhandler_event_out, fdh. rewrite Hf. cbn [mbind result_bind from_option_or].
  destruct (f_out F) as [|p rest] eqn:Hout.
  { exists w, F, []. split_and!; try done; [by rewrite app_nil_r|by left]. }
  pose proof Hq as (Hqs & Hpos & Hhd). rewrite Hout in Hqs, Hhd.
  apply Forall_cons in Hqs as [[Hl Hlen] Hrest]. specialize (Hhd p eq_refl).
  unfold packet_ok in Hl. unfold read_block. rewrite decide_True by lia.
  cbn [mbind result_bind]. unfold fd_write. destruct (sys_call (w_env w)) as [r env].
  fold (unwritten F p). set (from := unwritten F p).
  assert (Hlp : p_len p <= Z.of_nat (length (p_data p))) by lia.
  pose proof (unwritten_length F p ltac:(lia) Hlp) as Hfrom. fold from in Hfrom.
  pose proof (pending_head F p rest Hout ltac:(lia) Hlp) as Hpend.
  assert (Hsyscall : forall n, concat (map snd (w_written w ++ [(f_fd F, take n from)])) =
    concat (map snd (w_written w)) ++ take n from).
  { intros n. rewrite map_app, concat_app. simpl. by rewrite app_nil_r. }
  assert (Hfds : forall n fd bs', (fd, bs') ∈ w_written w ++ [(f_fd F, take n from)] ->
    (fd, bs') ∈ w_written w \/ fd = f_fd F).
  { intros n fd bs' [?|Hin]%elem_of_app; [by left|right].
    apply list_elem_of_singleton in Hin. congruence. }
  destruct r as [| |bs|n];
    try (exists (upd_env env w), F, []; split_and!; try done; [by rewrite app_nil_r|by left]).
  set (len := 0 `max` (n `min` Z.of_nat (length from))).
  assert (0 <= len <= Z.of_nat (length from)) by lia. clearbody len.
  assert (Hctl' : r_user (f_receiver F) <> ControlEnd) by (intros E; by apply Hctl in E).
  set (w1 := upd_written (w_written w ++ [(f_fd F, take (Z.to_nat len) from)]) (upd_env env w)).
  destruct (f_out_pos F + len >=? p_len p) eqn:Hdone.
  - assert (Hlen' : len = Z.of_nat (length from)) by lia.
    assert (Ht : take (Z.to_nat len) from = from) by (apply take_ge; lia).
    assert (HI' : Inv None (upd_looper (match rest with
      | [] => looper_disable (w_looper w) (f_fd F) EPOLLOUT
      | _ => w_looper w end) (put_fdh f (set_out 0 rest F) w1)) la lc lcl).
    { eapply (Inv_dequeue w1); [exact HI|done|by rewrite Hout|done|].
      split; [done|]. split; [done|]. simpl. intros q Hhq.
      destruct rest as [|q' ?]; [done|]. injection Hhq as <-.
      by apply Forall_cons in Hrest as [[_ ?] _]; lia. }
    exists (packet_free p (upd_looper (match rest with
      | [] => looper_disable (w_looper w) (f_fd F) EPOLLOUT
      | _ => w_looper w end) (put_fdh f (set_out 0 rest F) w1))), (set_out 0 rest F), from.
    split; [by destruct rest|]. split; [|split_and!; try done].
    + eapply InvC_pool; [exact HI'|]. constructor; [done|apply (i_pool HI)].
    + destruct rest; split; try done. apply looper_disable_steady.
    + simpl. by rewrite Hsyscall, Ht.
    + apply Hfds.
  - exists (put_fdh f (set_out (f_out_pos F + len) (p :: rest) F) w1),
      (set_out (f_out_pos F + len) (p :: rest) F), (take (Z.to_nat len) from).
    split; [done|]. split; [|split_and!; try done].
    + eapply (Inv_dequeue w1 la lc lcl f F _ (p :: rest)); [exact HI|done|by rewrite Hout|done|].
      split; [by constructor|]. split; simpl; [lia|]. intros q [= <-]. lia.
    + apply (pending_partial F p rest Hout); lia.
    + simpl. apply Hsyscall.
    + apply Hfds.
Qed.

(** ** Input *)

(** The bytes the next [read] returns, if any. *)
Definition read_bytes (w : World) : list Z :=
  match (fd_read MAX_PAYLOAD w).1 with Some bs => bs | None => [] end.

Lemma write_block_prefix (d bs d' : list Z) :
  write_block d 0 bs = Ok d' -> take (length bs) d' = bs.
Proof.
  unfold write_block, memcpy_at. rewrite decide_True by done. case_decide; [|done].
  simpl. intros [= <-]. by rewrite take_app_length.
Qed.

(** EPOLLIN on a handler: nothing happens, or the bytes read are posted. *)
Lemma fdhandler_event_in_cases w la lc lcl f F :
  Inv None w la lc lcl -> w_fds w !! f = Some F ->
  exists w1, Inv None w1 la lc lcl /\ quiet w w1 /\
    ((read_bytes w = [] /\ fdhandler_event_in f w = Ok w1) \/
     exists p, chunk_ok p /\ payload p = read_bytes w /\
       fdhandler_event_in f w = receiver_post (f_receiver F) p w1).
Proof.
  intros HI Hf. unfold fdhandler_event_in, read_bytes, fd_read.
  destruct (packet_alloc_world_upd w (i_pool HI)) as (p & pool & -> & Hp & Hpool & _).
  cbn [w_env upd_free]. destruct (sys_call (w_env w)) as [r env].
  unfold fdh. cbn [w_fds upd_free]. rewrite Hf. cbn [mbind result_bind from_option_or fst snd].
  assert (HI1 : Inv None (upd_env env (upd_free pool w)) la lc lcl) by by eapply InvC_pool.
  assert (Hq1 : quiet w (upd_env env (upd_free pool w))) by by apply quiet_same_fds; split_and!.
  destruct r as [| |bs|n].
  1, 2, 4: exists (packet_free p (upd_env env (upd_free pool w))); split;
    [by apply Inv_free_packet|split; [by apply quiet_same_fds; split_and!|by left]].
  exists (upd_env env (upd_free pool w)). split; [done|]. split; [done|].
  assert (Hbs : (length (take MAX_PAYLOAD bs) <= MAX_PAYLOAD)%nat) by (rewrite length_take; lia).
  destruct (take MAX_PAYLOAD bs) as [|b bs'] eqn:Hread; [by left|right].
  unfold packet_ok in Hp.
  destruct (write_block (p_data p) 0 (b :: bs')) as [d|] eqn:E.
  2:{ rewrite write_block_ok in E; [done|lia|lia]. }
  pose proof (write_block_length _ _ _ _ E) as Hd. apply write_block_prefix in E.
  exists (mkPacket (Z.of_nat (length (b :: bs'))) (-101) d).
  split; [|split; [|done]].
  - split; [unfold packet_ok; simpl; congruence|]. cbn [p_len]. lia.
  - unfold payload. cbn [p_len p_data]. by rewrite Nat2Z.id.
Qed.

(** The serial decoder [st] describes the daemon's serial object. *)
Definition running (st : dstate) (w : World) : Prop :=
  refines multiplexer_serial_receive st (w_serial w) w.

Lemma running_alive st w : running st w -> alive w.
Proof. by intros (_ & Ha & _). Qed.

Lemma running_kept st w w' : running st w -> alive w' -> kept w w' -> running st w'.
Proof. intros (Hp & _ & Hst) Ha [E _]. split; rewrite E; [done|]. by split. Qed.

(** What a turn's event may be, and the decoder's state after it.  Excluded are
    the events the daemon does not survive: a hang-up of the serial port or of
    the control socket ([fatal]), input on a handler that is being flushed or
    that comes with a hang-up, a frame longer than a packet, and an accepted
    descriptor that the system would not return or that is one too many. *)
Inductive event_ok (st : dstate) (w : World) (f : nat) (F : FDHandler) (ev : Z) : dstate -> Prop :=
  | ev_client c : r_user (f_receiver F) = ClientEnd c -> f_closing F = false ->
      has ev (Z.lor EPOLLHUP EPOLLERR) = false -> (has ev EPOLLOUT = true -> f_out F <> []) ->
      event_ok st w f F ev st
  | ev_closing c : r_user (f_receiver F) = ClientEnd c -> f_closing F = true ->
      has ev EPOLLIN = false -> event_ok st w f F ev st
  | ev_hangup c : r_user (f_receiver F) = ClientEnd c -> has ev EPOLLIN = false ->
      has ev (Z.lor EPOLLHUP EPOLLERR) = true -> event_ok st w f F ev st
  | ev_serial : r_user (f_receiver F) = SerialEnd ->
      has ev (Z.lor EPOLLHUP EPOLLERR) = false ->
      (has ev EPOLLIN = true -> decode_fits st (read_bytes w)) ->
      event_ok st w f F ev
        (if has ev EPOLLIN then (decode st (read_bytes w)).1 else st)
  | ev_control : r_user (f_receiver F) = ControlEnd ->
      has ev (Z.lor EPOLLHUP EPOLLERR) = false ->
      (has ev EPOLLIN = true -> (fd_accept w).1 < 0 \/
         ((size (w_clients w) < 255)%nat /\
          forall g G, w_fds w !! g = Some G -> f_fd G <> (fd_accept w).1)) ->
      event_ok st w f F ev st.

(** ** Callbacks *)

Lemma unused_of_handlers w la lc lcl fd :
  Inv None w la lc lcl -> settled (w_looper w) ->
  (forall g G, w_fds w !! g = Some G -> f_fd G <> fd) -> unused (w_looper w) fd.
Proof.
  intros HI Hs Hfd n h Hn E. destruct (i_looper HI) as (m & [Hco Hm] & _ & H2).
  pose proof (co_hook _ Hco _ _ Hn) as He. rewrite (Hs _ _ Hn), E in He.
  assert (Hv : m !! fd = Some (h_user h, h_wanted h)).
  { rewrite Hm. unfold view. by rewrite He, Hn. }
  destruct (H2 _ _ _ Hv) as (G & HG & EG). by apply (Hfd _ _ HG).
Qed.

(** A callback's outcome: a running world, with the hooks still calm and at
    most one more of them. *)
Definition turned (st : dstate) (w : World) (r : result World) : Prop :=
  exists w', r = Ok w' /\ running st w' /\
    (calm (w_looper w) -> calm (w_looper w') /\
      (length (l_hooks (w_looper w')) <= S (length (l_hooks (w_looper w))))%nat).

Lemma turned_kept st w w' : running st w -> alive w' -> kept w w' -> turned st w (Ok w').
Proof.
  intros Hr Ha Hk. exists w'. split; [done|]. split; [by eapply running_kept|].
  destruct Hk as [_ _ [-> Hc]]. split; [auto|lia].
Qed.

Lemma turned_safe st w r : running st w -> safe w r -> turned st w r.
Proof. intros Hr (w' & -> & Ha & Hk). by apply turned_kept. Qed.

(** The control socket has no output, the serial port and the clients may. *)
Lemma control_no_output w la lc lcl f F :
  Inv None w la lc lcl -> w_fds w !! f = Some F -> r_user (f_receiver F) = ControlEnd ->
  f_out F = [].
Proof.
  intros HI Hf Hu. destruct (f_closing F) eqn:Hcl.
  - destruct (i_handler HI f F Hf) as [_ _ Hc _]. destruct (Hc Hcl) as (_ & c & ?). congruence.
  - pose proof (i_linked HI f F Hf Hcl) as Hlk. unfold linked in Hlk. rewrite Hu in Hlk. auto.
Qed.

Lemma fdhandler_event_out_safe w la lc lcl f F :
  Inv None w la lc lcl -> (length lcl <= 255)%nat -> w_fds w !! f = Some F ->
  safe w (fdhandler_event_out f w).
Proof.
  intros HI Hl Hf.
  destruct (fdhandler_event_out_ok w la lc lcl f F HI Hf) as (w' & F' & bs & -> & HI' & Hk & _);
    [by eapply control_no_output|].
  apply safe_ret; [by exists la, lc, lcl|done].
Qed.

(** [kept], except that the serial object may have advanced. *)
Record kept_but_serial (w w' : World) : Prop := {
  kb_sf : w_serial_fdh w' = w_serial_fdh w;
  kb_looper : steady (w_looper w) (w_looper w')
}.

Lemma fdhandler_event_client st w f F c ev :
  running st w -> w_fds w !! f = Some F -> r_user (f_receiver F) = ClientEnd c ->
  f_closing F = false -> has ev (Z.lor EPOLLHUP EPOLLERR) = false ->
  (has ev EPOLLOUT = true -> f_out F <> []) ->
  turned st w (fdhandler_event f ev w).
Proof.
  intros Hr Hf Hu Hcl Hhup Hout. destruct (running_alive _ _ Hr) as (la & lc & lcl & HI & Hl).
  assert (Hin : exists w1 la' lc' lcl', (if has ev EPOLLIN then fdhandler_event_in f w else Ok w)
      = Ok w1 /\ Inv None w1 la' lc' lcl' /\ (length lcl' <= length lcl)%nat /\ kept w w1 /\
      flushed c w w1).
  { destruct (has ev EPOLLIN).
    2:{ exists w, la, lc, lcl. split_and!; try done. intros g G HG _ _ _. by exists G. }
    destruct (fdhandler_event_in_cases w la lc lcl f F HI Hf)
      as (w1 & HI1 & Hq & [[_ ->]|(p & Hp & _ & ->)]).
    { exists w1, la, lc, lcl.
      split_and!; [done|done|done|by apply quiet_kept|by apply flushed_quiet]. }
    pose proof (i_linked HI f F Hf Hcl) as Hlk. unfold linked in Hlk. rewrite Hu in Hlk.
    destruct Hlk as (C & HC & Hcf); [done|].
    destruct (client_fd_receive_ok w1 la lc lcl c C p HI1)
      as (w2 & la' & lc' & lcl' & Hr2 & HI2 & Hl2 & Hk2 & Hfl2);
      [by rewrite (q_clients _ _ Hq)|done|done|].
    exists w2, la', lc', lcl'. unfold receiver_post.
    destruct (i_handler HI f F Hf) as [_ _ _ Ha]. destruct (Ha Hcl) as [-> _]. rewrite Hu.
    split_and!; [done|done|done|transitivity w1; [by apply quiet_kept|done]|].
    intros g G HG HGu HGc HGo. destruct (q_fds _ _ Hq g G HG) as (G1 & HG1 & _ & Er & Ec).
    eapply Hfl2; [exact HG1|congruence|congruence|]. by apply (q_out _ _ Hq g G G1). }
  destruct Hin as (w1 & la' & lc' & lcl' & Hin & HI1 & Hl1 & Hk1 & Hfl).
  unfold fdhandler_event. rewrite Hin. cbn [mbind result_bind]. rewrite Hhup.
  destruct (has ev EPOLLOUT).
  2:{ apply turned_kept; [done| |done]. exists la', lc', lcl'. split; [done|lia]. }
  destruct (Hfl f F Hf Hu Hcl (Hout eq_refl)) as (F1 & Hf1).
  apply turned_safe; [done|]. apply (safe_weaken w w1); [done|].
  eapply fdhandler_event_out_safe; [exact HI1|lia|exact Hf1].
Qed.

(** A flushed handler: output, or the end of the connection. *)
Lemma fdhandler_event_flush st w f F c ev :
  running st w -> w_fds w !! f = Some F -> r_user (f_receiver F) = ClientEnd c ->
  has ev EPOLLIN = false ->
  f_closing F = true \/ has ev (Z.lor EPOLLHUP EPOLLERR) = true ->
  turned st w (fdhandler_event f ev w).
Proof.
  intros Hr Hf Hu Hin Hwhy. destruct (running_alive _ _ Hr) as (la & lc & lcl & HI & Hl).
  unfold fdhandler_event. rewrite Hin. cbn [mbind result_bind].
  apply turned_safe; [done|]. destruct (has ev (Z.lor EPOLLHUP EPOLLERR)).
  - destruct (fdhandler_hangup_ok w la lc lcl f F c HI Hf Hu)
      as (w' & la' & lc' & lcl' & -> & HI' & _ & _ & Hl' & Hk & _).
    apply safe_ret; [|done]. exists la', lc', lcl'. split; [done|lia].
  - destruct (has ev EPOLLOUT); [by eapply fdhandler_event_out_safe|].
    apply safe_ret; [by exists la, lc, lcl|done].
Qed.

(** The serial port: the decoder advances over the bytes read. *)
Lemma fdhandler_event_serial st w f F ev :
  running st w -> w_fds w !! f = Some F -> r_user (f_receiver F) = SerialEnd ->
  has ev (Z.lor EPOLLHUP EPOLLERR) = false ->
  (has ev EPOLLIN = true -> decode_fits st (read_bytes w)) ->
  turned (if has ev EPOLLIN then (decode st (read_bytes w)).1 else st) w (fdhandler_event f ev w).
Proof.
  intros Hr Hf Hu Hhup Hfit. destruct (running_alive _ _ Hr) as (la & lc & lcl & HI & Hl).
  assert (Hcl : f_closing F = false).
  { destruct (f_closing F) eqn:E; [|done]. destruct (i_handler HI f F Hf) as [_ _ Hc _].
    destruct (Hc E) as (_ & c & ?). congruence. }
  assert (Hsf : f = w_serial_fdh w).
  { pose proof (i_linked HI f F Hf Hcl) as Hlk. unfold linked in Hlk. rewrite Hu in Hlk. auto. }
  set (st' := if has ev EPOLLIN then _ else _).
  assert (Hin : exists w1 : World, (if has ev EPOLLIN then fdhandler_event_in f w else Ok w) = Ok w1 /\
      running st' w1 /\ kept_but_serial w w1).
  { unfold st'. destruct (has ev EPOLLIN); [|by exists w].
    destruct (fdhandler_event_in_cases w la lc lcl f F HI Hf)
      as (w1 & HI1 & Hq & [[-> ->]|(p & Hp & Hpay & ->)]).
    - exists w1. split; [done|]. split; [|destruct Hq; by split].
      eapply running_kept; [done|by exists la, lc, lcl|by apply quiet_kept].
    - unfold receiver_post. destruct (i_handler HI f F Hf) as [_ _ _ Ha].
      destruct (Ha Hcl) as [-> _]. rewrite Hu. rewrite <-Hpay in Hfit |- *.
      assert (Hr1 : running st w1).
      { eapply running_kept; [done|by exists la, lc, lcl|by apply quiet_kept]. }
      destruct (serial_fd_receive_refines multiplexer_serial_receive st (w_serial w1) w1 p Hr1 Hp)
        as (s' & w2 & Hrecv & Href & Hk); [by apply Hfit|].
      unfold mux_serial_fd_receive. rewrite Hrecv. cbn [mbind result_bind fst snd].
      exists (upd_serial s' w2). split; [done|]. split.
      + destruct Href as (? & (la2 & lc2 & lcl2 & HI2 & Hl2) & ?).
        split; [done|]. split; [by exists la2, lc2, lcl2|done].
      + destruct Hq, Hk. split; simpl; [congruence|by etransitivity]. }
  destruct Hin as (w1 & Hin & Hr1 & [Esf Hst]). unfold fdhandler_event. rewrite Hin.
  cbn [mbind result_bind]. rewrite Hhup.
  assert (Hout : turned st' w1 (if has ev EPOLLOUT then fdhandler_event_out f w1 else Ok w1)).
  { destruct (running_alive _ _ Hr1) as (la1 & lc1 & lcl1 & HI1 & Hl1).
    destruct (has ev EPOLLOUT); [|by apply turned_kept; [|exists la1, lc1, lcl1|]].
    destruct (i_serial HI1) as (F1 & HF1 & _). rewrite Esf, <-Hsf in HF1.
    apply turned_safe; [done|]. by eapply fdhandler_event_out_safe. }
  destruct Hout as (w2 & -> & Hr2 & Hc2). exists w2. destruct Hst as [El Hcm].
  split; [done|]. split; [done|]. intros Hc. destruct (Hc2 (Hcm Hc)). split; [done|lia].
Qed.

(** The control socket: a new client, or nothing when accept fails. *)
Lemma fdhandler_accept_ok st w f F ev :
  running st w -> settled (w_looper w) -> w_fds w !! f = Some F ->
  r_user (f_receiver F) = ControlEnd -> has ev (Z.lor EPOLLHUP EPOLLERR) = false ->
  (has ev EPOLLIN = true -> (fd_accept w).1 < 0 \/
     ((size (w_clients w) < 255)%nat /\
      forall g G, w_fds w !! g = Some G -> f_fd G <> (fd_accept w).1)) ->
  turned st w (fdhandler_accept_event f ev w).
Proof.
  intros Hr Hs Hf Hu Hhup Hacc. destruct (running_alive _ _ Hr) as (la & lc & lcl & HI & Hl).
  unfold fdhandler_accept_event. destruct (has ev EPOLLIN).
  2:{ cbn [mbind result_bind]. rewrite Hhup. apply turned_kept; [done|by exists la, lc, lcl|done]. }
  specialize (Hacc eq_refl). unfold fdhandler_accept_in, fd_accept in *.
  destruct (packet_alloc_world_upd w (i_pool HI)) as (p & pool & -> & Hp & Hpool & _).
  unfold fdh. cbn [w_fds upd_free]. rewrite Hf. cbn [mbind result_bind from_option_or].
  unfold packet_ok in Hp.
  destruct (write_block (p_data p) 0 [1]) as [d|] eqn:E.
  2:{ rewrite write_block_ok in E; [done|lia|]. rewrite Hp. simpl. unfold MAX_PAYLOAD. lia. }
  pose proof (write_block_length _ _ _ _ E) as Hd. cbn [mbind result_bind].
  cbn [w_env upd_free]. destruct (sys_call (w_env w)) as [r env]. cbn [fst snd] in Hacc.
  set (fd := match r with SysCount fd => fd | _ => -1 end) in *.
  set (w1 := upd_env env (upd_free pool w)).
  assert (HI1 : Inv None w1 la lc lcl) by by eapply InvC_pool.
  assert (Hq : forall x, packet_ok (mkPacket 1 x d)) by (unfold packet_ok; simpl; congruence).
  destruct (fd <? 0) eqn:Hneg.
  { cbn [mbind result_bind]. apply turned_kept; [done| |by split].
    exists la, lc, lcl. split; [by apply Inv_free_packet|done]. }
  destruct Hacc as [|[Hn Hfresh]]; [lia|].
  unfold receiver_post. assert (Hcl : f_closing F = false).
  { destruct (f_closing F) eqn:Ec; [|done]. destruct (i_handler HI f F Hf) as [_ _ Hc _].
    destruct (Hc Ec) as (_ & c & ?). congruence. }
  destruct (i_handler HI f F Hf) as [_ _ _ Ha]. destruct (Ha Hcl) as [-> _]. rewrite Hu.
  unfold multiplexer_control_accept. cbn [p_channel].
  assert (Hun : unused (w_looper w1) fd) by (by eapply (unused_of_handlers w)).
  destruct (client_new_ok w1 la lc lcl fd HI1 Hun) as (w2 & -> & HI2 & _ & Es & Esf & Hl2); [lia|].
  cbn [mbind result_bind fst snd]. rewrite Hhup.
  rewrite (clients_size None w la lc lcl HI eq_refl) in Hn.
  exists (packet_free (mkPacket 1 fd d) w2). split; [done|]. split.
  - destruct Hr as (? & _ & ?). split; [simpl; by rewrite Es|]. split; [|simpl; by rewrite Es].
    eexists _, _, _. split; [by apply Inv_free_packet|]. cbn [length]. lia.
  - intros Hc. destruct (Hl2 Hc) as [? E2]. split; [done|]. simpl. rewrite E2. simpl. lia.
Qed.

(** Every callback on an event of [event_ok]. *)
Lemma ev_call_ok st w f F ev st' :
  running st w -> settled (w_looper w) -> w_fds w !! f = Some F -> event_ok st w f F ev st' ->
  turned st' w (ev_call (f, handler_kind F) ev w).
Proof.
  intros Hr Hs Hf Hev. unfold ev_call. cbn [fst snd]. unfold handler_kind.
  destruct Hev as [c Hu Hcl Hh Ho|c Hu Hcl Hi|c Hu Hi Hh|Hu Hh Hfit|Hu Hh Hacc]; rewrite Hu.
  - by eapply fdhandler_event_client.
  - by eapply fdhandler_event_flush; [..|left].
  - by eapply fdhandler_event_flush; [..|right].
  - by eapply fdhandler_event_serial.
  - by eapply fdhandler_accept_ok.
Qed.

(** ** One turn of the loop *)

(** The looper while hook [n] is being called for the events [ev]. *)
Definition serviced (l : Looper ev_user) (n : nat) (ev : Z) : Looper ev_user :=
  mkLooper (l_epoll l) (l_max_fds l)
    (alter (fun h => mkHook (h_fd h) (h_wanted h) ev 0 (h_user h)) n (l_hooks l)).

Lemma serviced_ok l m n ev :
  represents l m -> settled l -> calm l ->
  represents (serviced l n ev) m /\ settled (serviced l n ev) /\ calm (serviced l n ev).
Proof.
  intros Hr Hs Hc. unfold serviced. split; [|split].
  - apply represents_same_hooks; [done|]. apply Forall2_same_length_lookup.
    split; [by rewrite length_alter|]. intros i h h' Hi Hi'.
    apply alter_hook_lookup in Hi' as (h0 & H0 & ->). simplify_eq.
    case_decide; [|done]. split_and!; try done. by rewrite (Hs _ _ Hi).
  - intros i h Hi. simpl in Hi. apply alter_hook_lookup in Hi as (h0 & H0 & ->).
    case_decide; [done|by eapply Hs].
  - apply (calm_alter l); [done|done].
Qed.

(** Skipping to the pending hook, calling it, and on to the end of the array. *)
Lemma run_hooks_one w n h ev w' :
  calm (w_looper w) -> l_hooks (w_looper w) !! n = Some h ->
  ev_call (h_user h) ev (upd_looper (serviced (w_looper w) n ev) w) = Ok w' ->
  calm (w_looper w') ->
  (length (l_hooks (w_looper w')) <= S (length (l_hooks (w_looper w))))%nat ->
  run_hooks ev_call (2 * length (l_hooks (w_looper w)) + 1) 0
    (upd_looper (mark_pending (w_looper w) [(n, ev)]) w) = Ok w'.
Proof.
  intros Hc Hn Hcall Hc' Hlen. apply lookup_lt_Some in Hn as Hlt.
  set (l := w_looper w) in *. set (w1 := upd_looper _ w).
  replace (2 * length (l_hooks l) + 1)%nat with (n + S (2 * length (l_hooks l) - n))%nat by lia.
  rewrite run_hooks_skip.
  2:{ intros i hi [_ Hi] Hhi. simpl in Hhi. rewrite list_lookup_alter_ne in Hhi by lia.
      unfold calm in Hc. rewrite Forall_lookup in Hc. by eapply Hc. }
  2:{ simpl. rewrite length_alter. lia. }
  cbn [Nat.add run_hooks]. cbn [get_looper world_looper w1 w_looper upd_looper mark_pending
    l_hooks fold_left fst snd].
  rewrite list_lookup_alter_eq, Hn. cbn [fmap option_fmap option_map].
  change (has (h_state (set_pending ev h)) HOOK_PENDING) with true. cbv iota.
  change (h_user (set_pending ev h)) with (h_user h).
  change (h_events (set_pending ev h)) with ev.
  cbn [l_epoll l_max_fds]. fold l. rewrite list_alter_alter_eq.
  match goal with |- context [ev_call _ _ ?w2] =>
    replace w2 with (upd_looper (serviced l n ev) w) by reflexivity end.
  rewrite Hcall. cbn [mbind result_bind]. apply run_hooks_calm; [done|].
  change (get_looper w') with (w_looper w'). lia.
Qed.

(** The world between two turns. *)
Record daemon_ok (st : dstate) (w : World) : Prop := {
  d_running : running st w;
  d_settled : settled (w_looper w);
  d_calm : calm (w_looper w)
}.

Lemma running_looper st w l' :
  running st w -> (forall m, represents (w_looper w) m -> represents l' m) ->
  running st (upd_looper l' w).
Proof.
  intros (Hp & (la & lc & lcl & HI & Hl) & Hst) Hrep. split; [done|]. split; [|done].
  exists la, lc, lcl. split; [|done]. destruct HI. split; try done.
  destruct i_looper as (m & Hr & ?). exists m. split; [by apply Hrep|done].
Qed.

Lemma hook_monitored w la lc lcl n h :
  Inv None w la lc lcl -> settled (w_looper w) -> l_hooks (w_looper w) !! n = Some h ->
  exists F, w_fds w !! (h_user h).1 = Some F /\ f_fd F = h_fd h /\
    h_user h = ((h_user h).1, handler_kind F).
Proof.
  intros HI Hs Hn. destruct (i_looper HI) as (m & [Hco Hm] & H1 & H2).
  pose proof (co_hook _ Hco _ _ Hn) as He. rewrite (Hs _ _ Hn) in He.
  assert (Hv : m !! h_fd h = Some (h_user h, h_wanted h)).
  { rewrite Hm. unfold view. by rewrite He, Hn. }
  destruct (H2 _ _ _ Hv) as (F & HF & EF). exists F. split; [done|]. split; [done|].
  specialize (H1 _ _ HF). unfold monitored in H1. rewrite EF, Hv in H1. congruence.
Qed.

Lemma event_ok_looper st w f F ev st' l :
  event_ok st w f F ev st' -> event_ok st (upd_looper l w) f F ev st'.
Proof.
  assert (Ea : (fd_accept (upd_looper l w)).1 = (fd_accept w).1).
  { unfold fd_accept. cbn [w_env upd_looper]. by destruct (sys_call _). }
  assert (Er : read_bytes w = read_bytes (upd_looper l w)).
  { unfold read_bytes, fd_read. cbn [w_env upd_looper]. by destruct (sys_call _). }
  intros [| | | |? ? Hacc]; [by eapply ev_client|by eapply ev_closing|by eapply ev_hangup| |].
  - rewrite Er in *. by apply ev_serial.
  - apply ev_control; [done|done|]. by rewrite Ea.
Qed.

(** A turn on one ready descriptor. *)
Lemma looper_turn_ok st w n h F ev st' :
  daemon_ok st w -> l_hooks (w_looper w) !! n = Some h ->
  w_fds w !! (h_user h).1 = Some F -> event_ok st w (h_user h).1 F ev st' ->
  exists w', looper_turn ev_call [(n, ev)] w = Ok w' /\ daemon_ok st' w'.
Proof.
  intros [Hr Hs Hc] Hn HF Hev.
  assert (Hserv : forall m, represents (w_looper w) m -> represents (serviced (w_looper w) n ev) m)
    by (intros m Hm; by eapply serviced_ok).
  destruct (running_alive _ _ Hr) as (la & lc & lcl & HI & _).
  destruct (i_looper HI) as (m0 & Hm0 & _).
  destruct (serviced_ok _ _ n ev Hm0 Hs Hc) as (_ & Hs1 & Hc1).
  destruct (hook_monitored w la lc lcl n h HI Hs Hn) as (F' & HF' & _ & Hk).
  assert (F' = F) as -> by congruence.
  destruct (ev_call_ok st (upd_looper (serviced (w_looper w) n ev) w) (h_user h).1 F ev st')
    as (w1 & Hcall & Hr1 & Hcalm1); [by apply running_looper|done|done|by apply event_ok_looper|].
  rewrite <-Hk in Hcall. destruct (Hcalm1 Hc1) as [Hc2 Hl2]. clear Hcalm1.
  unfold looper_turn. cbn [get_looper set_looper world_looper].
  assert (Hlen : length (l_hooks (mark_pending (w_looper w) [(n, ev)])) =
    length (l_hooks (w_looper w))) by (simpl; apply length_alter).
  cbn [w_looper upd_looper]. rewrite Hlen.
  simpl in Hl2. rewrite length_alter in Hl2.
  rewrite (run_hooks_one w n h ev w1 Hc Hn Hcall Hc2 Hl2). cbn [mbind result_bind].
  destruct (running_alive _ _ Hr1) as (la1 & lc1 & lcl1 & HI1 & _).
  destruct (i_looper HI1) as (m1 & Hm1 & _).
  destruct (remove_closed_represents (length (l_hooks (w_looper w1))) 0 _ _ Hm1)
    as (l2 & Hrm & _ & Hs2 & _); [lia|intros; lia|].
  rewrite Hrm. cbn [mbind result_bind]. eexists. split; [done|]. split; [|done|].
  - apply running_looper; [done|]. intros m Hm.
    destruct (remove_closed_represents (length (l_hooks (w_looper w1))) 0 _ _ Hm)
      as (l3 & Hrm3 & Hm3 & _); [lia|intros; lia|]. congruence.
  - by eapply remove_closed_calm.
Qed.

(** ** Start-up *)

Lemma looper_ok_init : looper_ok looper_init ∅.
Proof.
  exists ∅. split; [apply looper_init_represents|]. split; [intros f F; by rewrite lookup_empty|].
  intros fd u ev. by rewrite lookup_empty.
Qed.

(** The serial port and the control socket, and nothing else. *)
Lemma InvC_start l pl F0 F1 :
  looper_ok l (<[1%nat := F1]> (<[0%nat := F0]> ∅)) ->
  pl_repr pl active_list [1%nat; 0%nat] -> pl_repr pl closing_list [] ->
  handler_ok F0 -> handler_ok F1 -> f_closing F0 = false -> f_closing F1 = false ->
  r_user (f_receiver F0) = SerialEnd -> r_user (f_receiver F1) = ControlEnd ->
  f_out F1 = [] ->
  InvC None l (<[1%nat := F1]> (<[0%nat := F0]> ∅)) pl ∅ empty_plist 2 [] 0 [1%nat; 0%nat] [] [].
Proof.
  intros Hl Ha Hc H0 H1 C0 C1 U0 U1 O1.
  assert (Hcases : forall f F,
    (<[1%nat := F1]> (<[0%nat := F0]> ∅) : gmap nat FDHandler) !! f = Some F ->
    (f = 1%nat /\ F = F1) \/ (f = 0%nat /\ F = F0)).
  { intros f F [[<- <-]|[_ [[<- <-]|[_ H]]%lookup_insert_Some]]%lookup_insert_Some; auto.
    by rewrite lookup_empty in H. }
  assert (Hnone : forall c C, (∅ : gmap nat Client) !! c = Some C -> False)
    by (intros c C; by rewrite lookup_empty).
  split; try done.
  - intros f _. apply not_elem_of_nil.
  - intros f. rewrite !lookup_insert_is_Some, !elem_of_cons, lookup_empty.
    split; [intros [<-|[? [<-|[? [? ?]]]]]; naive_solver|].
    intros [[->|[->|H]]|H]; [by left|by right; split; [|left]|..];
      by apply elem_of_nil in H.
  - intros f F H. rewrite elem_of_nil. by destruct (Hcases f F H) as [[_ ->]|[_ ->]]; rewrite ?C0, ?C1.
  - intros f F H. by destruct (Hcases f F H) as [[_ ->]|[_ ->]].
  - apply pl_empty_repr.
  - intros c _. rewrite lookup_empty, elem_of_nil. split; [by intros []|done].
  - intros a. rewrite lookup_empty, !elem_of_cons, !elem_of_nil.
    intros [[->|[->|[]]]|[[]|[[]|[? ?]]]]; [lia|lia|done].
  - intros f F H _ _. unfold linked.
    by destruct (Hcases f F H) as [[-> ->]|[-> ->]]; rewrite ?U0, ?U1.
  - exists F0. by rewrite lookup_insert_ne, lookup_insert_eq.
Qed.

#[local] Opaque looper_add looper_enable replicate.

Lemma multiplexer_init_ok sfd cfd env :
  0 <= sfd -> 0 <= cfd -> sfd <> cfd ->
  exists w, multiplexer_init sfd cfd (zero_world env) = Ok w /\ daemon_ok (InHeader []) w.
Proof.
  intros Hs Hc Hne.
  set (F0 := mkFDHandler sfd false (mkReceiver SerialEnd true true) 0 []).
  set (F1 := mkFDHandler cfd false (mkReceiver ControlEnd true true) 0 []).
  set (l1 := looper_enable (looper_add looper_init sfd (0%nat, EvHandler)) sfd EPOLLIN).
  set (l2 := looper_enable (looper_add l1 cfd (1%nat, EvAccept)) cfd EPOLLIN).
  assert (Hu0 : forall fd, unused (looper_init (U:=ev_user)) fd) by (intros fd n h; by destruct n).
  assert (Hl1 : looper_ok l1 (<[0%nat := F0]> ∅)) 
    by (apply (looper_ok_new looper_init ∅ 0 F0); [apply looper_ok_init|apply Hu0|done|done]).
  assert (Hl2 : looper_ok l2 (<[1%nat := F1]> (<[0%nat := F0]> ∅))).
  { apply (looper_ok_new l1 _ 1 F1); [exact Hl1| |done|done].
    by apply looper_enable_unused, looper_add_unused, Hne. }
  destruct (pl_prepend_ok empty_plist active_list [] 0) as (pl1 & Hp1 & Ha1 & _ & Hh1 & _);
    [apply pl_empty_repr|by intros ?%elem_of_nil|].
  destruct (pl_prepend_ok pl1 active_list [0%nat] 1) as (pl2 & Hp2 & Ha2 & _ & Hh2 & _);
    [done|by intros ?%list_elem_of_singleton|].
  unfold multiplexer_init, fdhandler_new, fdhandler_new_accept, fdhandler_prepend.
  simpl. rewrite Hp1. simpl. rewrite Hp2. simpl. eexists. split; [done|].
  split; simpl; fold F0 F1 l1 l2.
  - split; [apply length_replicate|]. split; [|split_and!; simpl; try done; lia].
    exists [1%nat; 0%nat], [], []. split; [|simpl; lia].
    assert (Hq : queue_ok F0 /\ queue_ok F1) by (repeat split; simpl; (done || constructor)).
    destruct Hq. apply (InvC_start l2 pl2 F0 F1); try done; [|by split..].
    split; [constructor|]. split; [|done]. simpl. rewrite Hh2, Hh1 by done. done.
  - apply looper_enable_settled, looper_add_settled, looper_enable_settled, looper_add_settled.
    intros n h. by destruct n.
  - apply looper_enable_steady, looper_add_calm, looper_enable_steady, looper_add_calm.
    constructor.
Qed.

(** ** Runs *)

(** The results of [epoll_wait] are one ready descriptor at a time, each with
    events of [event_ok]; interruptions, empty results and the final error are
    free. *)
Inductive benign : dstate -> World -> list wait_result -> Prop :=
  | benign_nil st w : benign st w []
  | benign_eintr st w waits : benign st w waits -> benign st w (WaitEINTR :: waits)
  | benign_error st w waits : benign st w (WaitError :: waits)
  | benign_none st w waits : benign st w waits -> benign st w (WaitReady [] :: waits)
  | benign_turn st st' w n h F ev waits :
      l_hooks (w_looper w) !! n = Some h -> w_fds w !! (h_user h).1 = Some F ->
      event_ok st w (h_user h).1 F ev st' ->
      (forall w', looper_turn ev_call [(n, ev)] w = Ok w' -> benign st' w' waits) ->
      benign st w (WaitReady [(n, ev)] :: waits).

Lemma looper_loop_ok st w waits :
  benign st w waits -> daemon_ok st w ->
  exists w' st', looper_loop ev_call waits w = Ok w' /\ daemon_ok st' w'.
Proof.
  induction 1 as [st w|st w waits _ IH|st w waits|st w waits _ IH
    |st st' w n h F ev waits Hn HF Hev _ IH]; intros Hd; cbn [looper_loop]; eauto.
  destruct (looper_turn_ok st w n h F ev st' Hd Hn HF Hev) as (w' & Ht & Hd').
  rewrite Ht. cbn [mbind result_bind]. by apply (IH w').
Qed.

Lemma qemud_ok sfd cfd waits env :
  0 <= sfd -> 0 <= cfd -> sfd <> cfd ->
  (forall w, multiplexer_init sfd cfd (zero_world env) = Ok w -> benign (InHeader []) w waits) ->
  exists w st, qemud sfd cfd waits env = Ok w /\ daemon_ok st w.
Proof.
  intros Hs Hc Hne Hb. unfold qemud.
  destruct (multiplexer_init_ok sfd cfd env Hs Hc Hne) as (w0 & Hi & Hd).
  rewrite Hi. cbn [mbind result_bind]. apply (looper_loop_ok (InHeader [])); auto.
Qed.
