(* ===== verification/QemudSpec.v ===== *)
(** * qemud: what the multiplexer promises

    The abstract state of the multiplexer is a table of clients with their
    channel, whether the emulator accepted them, and the bytes still to be
    written to them; [deliver] is the specification of a message from the
    emulator.  [abstract] reads the table off a world of [QemudMux]. *)
From S2P Require Import Prelude QemudPacket QemudSerial PrefList QemudLooper QemudMux QemudInv.
From S2P Require Import QemudOps QemudDaemon.
Local Open Scope Z_scope.

Record aclient : Type := mkA { a_channel : Z; a_registered : bool; a_out : list Z }.

Abbreviation table := (gmap nat aclient).

Definition abstract_client (fds : gmap nat FDHandler) (C : Client) : option aclient :=
  f ← c_fdhandler C;
  F ← fds !! f;
  Some (mkA (c_channel C) (c_registered C) (pending F)).

Definition abstract (w : World) : table := omap (abstract_client (w_fds w)) (w_clients w).

(** The messages of the protocol, lines 33-92 of qemud.c. *)
Inductive command : Type :=
  | Data (ch : Z) (bs : list Z)
  | OkConnect (ch : Z)
  | KoConnect (ch : Z)
  | Disconnect (ch : Z)
  | Unknown.

Definition command_of (p : Packet) : command :=
  if p_channel p =? CHANNEL_CONTROL then
    let ch := Hex.hex2int (slice (p_data p) 11 2) in
    if is_command (bytes "ok:connect:") p then OkConnect ch
    else if is_command (bytes "ko:connect:") p then KoConnect ch
    else if is_command (bytes "disconnect:") p then Disconnect ch
    else Unknown
  else Data (p_channel p) (payload p).

Definition at_channel (ch : Z) (f : aclient -> aclient) (a : aclient) : aclient :=
  if a_channel a =? ch then f a else a.

Definition deliver (cmd : command) (m : table) : table :=
  match cmd with
  | Data ch bs =>
      at_channel ch (fun a => mkA (a_channel a) (a_registered a) (a_out a ++ bs)) <$> m
  | OkConnect ch =>
      at_channel ch (fun a => mkA (a_channel a) true (a_out a ++ bytes "OK")) <$> m
  | KoConnect ch =>
      at_channel ch (fun a => mkA (-1) false (a_out a ++ bytes "KO")) <$> m
  | Disconnect ch => filter (fun ca => a_channel ca.2 <> ch) m
  | Unknown => m
  end.

(** A malformed channel number reads as -1. *)
Definition well_addressed (cmd : command) : Prop :=
  match cmd with
  | Data ch _ | OkConnect ch | KoConnect ch | Disconnect ch => ch <> -1
  | Unknown => True
  end.

(** ** Reading the table *)

Lemma abstract_lookup w c : abstract w !! c = w_clients w !! c ≫= abstract_client (w_fds w).
Proof. apply lookup_omap. Qed.

Lemma abstract_live w la lc lcl c C :
  Inv None w la lc lcl -> w_clients w !! c = Some C ->
  exists f F, c_fdhandler C = Some f /\ w_fds w !! f = Some F /\
    r_user (f_receiver F) = ClientEnd c /\
    abstract w !! c = Some (mkA (c_channel C) (c_registered C) (pending F)).
Proof.
  intros HI HC. destruct (client_handler _ _ _ _ _ _ HI HC) as (f & F & Hcf & Hf & _ & Hu & _).
  exists f, F. split_and!; try done. rewrite abstract_lookup, HC. simpl.
  unfold abstract_client. rewrite Hcf. simpl. by rewrite Hf.
Qed.

Lemma abstract_channel w c a :
  abstract w !! c = Some a -> exists C, w_clients w !! c = Some C /\ c_channel C = a_channel a.
Proof.
  rewrite abstract_lookup. destruct (w_clients w !! c) as [C|]; [|done]. simpl.
  unfold abstract_client. destruct (c_fdhandler C) as [f|]; [|done]. simpl.
  destruct (w_fds w !! f); [|done]. intros [= <-]. by exists C.
Qed.

(** Two clients never share a handler, so one client's entry changes alone. *)
Lemma abstract_update w w' la lc lcl c C C' f F F' :
  Inv None w la lc lcl -> w_clients w !! c = Some C -> c_fdhandler C = Some f ->
  w_fds w !! f = Some F -> c_fdhandler C' = Some f ->
  w_clients w' = <[c := C']> (w_clients w) -> w_fds w' = <[f := F']> (w_fds w) ->
  abstract w' = <[c := mkA (c_channel C') (c_registered C') (pending F')]> (abstract w).
Proof.
  intros HI HC Hcf Hf Hcf' Ec Ef. apply map_eq. intros i. rewrite abstract_lookup, Ec, Ef.
  destruct (decide (c = i)) as [<-|Hne].
  - rewrite !lookup_insert_eq. simpl. unfold abstract_client. rewrite Hcf'. simpl.
    by rewrite lookup_insert_eq.
  - rewrite !lookup_insert_ne, abstract_lookup by done.
    destruct (w_clients w !! i) as [D|] eqn:HD; [|done]. simpl. unfold abstract_client.
    destruct (client_handler _ _ _ _ _ _ HI HD) as (g & G & -> & HG & _ & HGu & _). simpl.
    rewrite lookup_insert_ne; [done|]. intros <-.
    destruct (client_handler _ _ _ _ _ _ HI HC) as (f1 & F1 & ? & ? & _ & ? & _). congruence.
Qed.

(** [at_channel] changes the only entry with the channel. *)
Lemma at_channel_unique w la lc lcl c C a g :
  Inv None w la lc lcl -> w_clients w !! c = Some C -> c_channel C <> -1 ->
  abstract w !! c = Some a -> a_channel a = c_channel C ->
  at_channel (c_channel C) g <$> abstract w = <[c := g a]> (abstract w).
Proof.
  intros HI HC Hne Ha Hch. apply map_eq. intros i. rewrite lookup_fmap.
  destruct (decide (c = i)) as [<-|Hi].
  - rewrite lookup_insert_eq, Ha. simpl. unfold at_channel. by rewrite Hch, Z.eqb_refl.
  - rewrite lookup_insert_ne by done. destruct (abstract w !! i) as [b|] eqn:Hb; [|done].
    simpl. unfold at_channel. destruct (a_channel b =? c_channel C) eqn:E; [|done].
    destruct (abstract_channel _ _ _ Hb) as (D & HD & Ed). exfalso. apply Hi.
    apply (i_unique HI c i C D); [done|done|lia|done].
Qed.

(** ... or nothing, when no client has it. *)
Lemma at_channel_absent w ch g :
  (forall c C, w_clients w !! c = Some C -> c_channel C <> ch) ->
  at_channel ch g <$> abstract w = abstract w.
Proof.
  intros Hn. apply map_eq. intros i. rewrite lookup_fmap.
  destruct (abstract w !! i) as [b|] eqn:Hb; [|done]. simpl. unfold at_channel.
  destruct (abstract_channel _ _ _ Hb) as (D & HD & Ed).
  destruct (a_channel b =? ch) eqn:E; [|done]. destruct (Hn i D HD). lia.
Qed.

Lemma abstract_same w w' :
  w_clients w' = w_clients w -> w_fds w' = w_fds w -> abstract w' = abstract w.
Proof. unfold abstract. by intros -> ->. Qed.

(** A freed client leaves the table. *)
Lemma abstract_delete w w' la lc lcl c C f :
  Inv None w la lc lcl -> w_clients w !! c = Some C -> c_fdhandler C = Some f ->
  w_clients w' = delete c (w_clients w) ->
  (forall g, c_fdhandler C <> Some g -> w_fds w' !! g = w_fds w !! g) ->
  abstract w' = delete c (abstract w).
Proof.
  intros HI HC Hcf Ec Ef. apply map_eq. intros i. rewrite abstract_lookup, Ec.
  destruct (decide (c = i)) as [<-|Hne]; [by rewrite !lookup_delete_eq|].
  rewrite !lookup_delete_ne, abstract_lookup by done.
  destruct (w_clients w !! i) as [D|] eqn:HD; [|done]. simpl. unfold abstract_client.
  destruct (client_handler _ _ _ _ _ _ HI HD) as (g & G & -> & HG & _ & HGu & _). simpl.
  rewrite Ef; [done|]. rewrite Hcf. intros [= <-].
  destruct (client_handler _ _ _ _ _ _ HI HC) as (f1 & F1 & ? & ? & _ & ? & _). congruence.
Qed.

Lemma filter_channel_unique w la lc lcl c C a :
  Inv None w la lc lcl -> w_clients w !! c = Some C -> c_channel C <> -1 ->
  abstract w !! c = Some a -> a_channel a = c_channel C ->
  filter (fun ca => a_channel ca.2 <> c_channel C) (abstract w) = delete c (abstract w).
Proof.
  intros HI HC Hne Ha Hch. apply map_eq. intros i.
  destruct (decide (c = i)) as [<-|Hi].
  - rewrite lookup_delete_eq. apply map_lookup_filter_None. right. intros b Hb. simpl.
    simplify_eq. intros H. by apply H.
  - rewrite lookup_delete_ne by done. destruct (abstract w !! i) as [b|] eqn:Hb.
    + apply map_lookup_filter_Some. split; [done|]. simpl. intros E.
      destruct (abstract_channel _ _ _ Hb) as (D & HD & Ed). apply Hi.
      apply (i_unique HI c i C D); [done|done|congruence|done].
    + apply map_lookup_filter_None. by left.
Qed.

Lemma filter_channel_absent w ch :
  (forall c C, w_clients w !! c = Some C -> c_channel C <> ch) ->
  filter (fun ca => a_channel ca.2 <> ch) (abstract w) = abstract w.
Proof.
  intros Hn. apply map_eq. intros i. destruct (abstract w !! i) as [b|] eqn:Hb.
  - apply map_lookup_filter_Some. split; [done|]. simpl.
    destruct (abstract_channel _ _ _ Hb) as (D & HD & <-). by apply (Hn i).
  - apply map_lookup_filter_None. by left.
Qed.

(** ** Each message *)

Lemma data_refines w la lc lcl c C p :
  Inv None w la lc lcl -> w_clients w !! c = Some C -> c_channel C <> -1 -> chunk_ok p ->
  exists w', client_send c p w = Ok w' /\
    abstract w' = deliver (Data (c_channel C) (payload p)) (abstract w).
Proof.
  intros HI HC Hne Hp.
  destruct (client_enqueue_ok w la lc lcl c C p HI HC Hp)
    as (w' & f & F & F' & Hr & HI' & Hq & Hcf & Hf & Hfds & Hpend).
  exists w'. split; [done|]. destruct (abstract_live _ _ _ _ _ _ HI HC) as (g & G & ? & ? & _ & Ha).
  simplify_eq. cbn [deliver]. rewrite (at_channel_unique w la lc lcl c C _ _ HI HC Hne Ha eq_refl).
  rewrite (abstract_update w w' la lc lcl c C C f F F' HI HC Hcf Hf Hcf); [|..|done].
  - by rewrite Hpend.
  - rewrite (q_clients _ _ Hq). symmetry. by apply insert_id.
Qed.

Lemma registration_refines w la lc lcl c C (b : bool) :
  Inv None w la lc lcl -> w_clients w !! c = Some C -> c_channel C <> -1 ->
  exists w', client_registration c b w = Ok w' /\
    abstract w' = deliver (if b then OkConnect (c_channel C) else KoConnect (c_channel C))
                    (abstract w).
Proof.
  intros HI HC Hne.
  destruct (client_registration_ok w la lc lcl c C b HI HC)
    as (w' & f & F & F' & Hr & HI' & Ecl & Hcf & Hf & Hfds & Hpend & _).
  exists w'. split; [done|]. destruct (abstract_live _ _ _ _ _ _ HI HC) as (g & G & ? & ? & _ & Ha).
  simplify_eq.
  assert (Hup : forall C', c_fdhandler C' = Some f -> w_clients w' = <[c := C']> (w_clients w) ->
    abstract w' = <[c := mkA (c_channel C') (c_registered C') (pending F')]> (abstract w))
    by (intros; by eapply abstract_update).
  rewrite (Hup (mkClient (if b then c_channel C else -1) b (c_fdhandler C)) Hcf Ecl), Hpend. destruct b; cbn [deliver];
    by rewrite (at_channel_unique w la lc lcl c C _ _ HI HC Hne Ha eq_refl).
Qed.

Lemma disconnect_refines w la lc lcl c C :
  Inv None w la lc lcl -> w_clients w !! c = Some C -> c_channel C <> -1 ->
  exists w', client_free call_close c w = Ok w' /\
    abstract w' = deliver (Disconnect (c_channel C)) (abstract w).
Proof.
  intros HI HC Hne.
  destruct (client_free_ok call_close w la lc lcl c C HI HC)
    as (w' & la' & lc' & Hr & HI' & Ecl & Hk & _ & Hother).
  exists w'. split; [done|]. destruct (abstract_live _ _ _ _ _ _ HI HC) as (f & F & Hcf & ? & _ & Ha).
  cbn [deliver]. rewrite (filter_channel_unique w la lc lcl c C _ HI HC Hne Ha eq_refl).
  by eapply abstract_delete.
Qed.

Lemma route_refines w (ch : Z) cmd (k : nat -> World -> result World) :
  alive w -> ch <> -1 ->
  (forall la lc lcl c C, Inv None w la lc lcl -> w_clients w !! c = Some C -> c_channel C = ch ->
     exists w', k c w = Ok w' /\ abstract w' = deliver cmd (abstract w)) ->
  ((forall c C, w_clients w !! c = Some C -> c_channel C <> ch) ->
     deliver cmd (abstract w) = abstract w) ->
  exists w', (c ← multiplexer_find_client ch w;
              match c with Some c => k c w | None => Ok w end) = Ok w' /\
    abstract w' = deliver cmd (abstract w).
Proof.
  intros (la & lc & lcl & HI & _) Hne Hsome Hnone.
  destruct (multiplexer_find_client_ok w la lc lcl ch HI) as ([c|] & -> & Hr);
    cbn [mbind result_bind].
  - destruct Hr as (C & HC & Hch). by eapply Hsome.
  - exists w. split; [done|]. by rewrite Hnone.
Qed.

Lemma handle_control_refines w p :
  alive w -> packet_ok p -> p_channel p = CHANNEL_CONTROL -> well_addressed (command_of p) ->
  exists w', multiplexer_handle_control p w = Ok w' /\
    abstract w' = deliver (command_of p) (abstract w).
Proof.
  intros Ha Hp Hch. unfold command_of, multiplexer_handle_control. rewrite Hch, Z.eqb_refl.
  set (ch := Hex.hex2int _). intros Hwa.
  match goal with |- exists w', (x ← ?m; _) = _ /\ abstract _ = ?t =>
    cut (exists w1, m = Ok w1 /\ abstract w1 = t) end.
  { intros (w1 & -> & <-). by eexists. }
  destruct (is_command (bytes "ok:connect:") p).
  { apply (route_refines w ch _ (fun c w => client_registration c true w)); [done|done| |].
    - intros la lc lcl c C HI HC <-. by apply (registration_refines w la lc lcl c C true).
    - by apply at_channel_absent. }
  destruct (is_command (bytes "ko:connect:") p).
  { apply (route_refines w ch _ (fun c w => client_registration c false w)); [done|done| |].
    - intros la lc lcl c C HI HC <-. by apply (registration_refines w la lc lcl c C false).
    - by apply at_channel_absent. }
  destruct (is_command (bytes "disconnect:") p); [|by exists w].
  apply (route_refines w ch _ (fun c w => client_free call_close c w)); [done|done| |].
  - intros la lc lcl c C HI HC <-. by apply (disconnect_refines w la lc lcl c C).
  - by apply filter_channel_absent.
Qed.

Lemma serial_receive_refines w p :
  alive w -> chunk_ok p -> well_addressed (command_of p) ->
  exists w', multiplexer_serial_receive p w = Ok w' /\
    abstract w' = deliver (command_of p) (abstract w).
Proof.
  intros Ha Hp Hwa. unfold multiplexer_serial_receive. destruct (p_channel p =? CHANNEL_CONTROL) eqn:E.
  { apply handle_control_refines; [done|apply Hp|lia|done]. }
  unfold command_of in *. rewrite E in *. simpl in Hwa.
  destruct Ha as (la & lc & lcl & HI & _).
  destruct (multiplexer_find_client_ok w la lc lcl (p_channel p) HI) as ([c|] & -> & Hr);
    cbn [mbind result_bind].
  - destruct Hr as (C & HC & Hch). rewrite <-Hch in *. by apply (data_refines w la lc lcl c C p).
  - eexists. split; [done|]. cbn [deliver]. by rewrite at_channel_absent.
Qed.

(** ** From the bytes of the serial port to the table *)

(** [command_of], on the channel and payload of a message. *)
Definition is_command_text (prefix bs : list Z) : bool :=
  bool_decide (length bs = 13%nat) && bool_decide (slice bs 0 11 = prefix).

Definition command_of_message (m : message) : command :=
  let '(channel, bs) := m in
  if channel =? CHANNEL_CONTROL then
    let ch := Hex.hex2int (slice bs 11 2) in
    if is_command_text (bytes "ok:connect:") bs then OkConnect ch
    else if is_command_text (bytes "ko:connect:") bs then KoConnect ch
    else if is_command_text (bytes "disconnect:") bs then Disconnect ch
    else Unknown
  else Data channel bs.

Lemma is_command_payload prefix p :
  chunk_ok p -> is_command prefix p = is_command_text prefix (payload p).
Proof.
  intros [Hp Hl]. unfold packet_ok in Hp. unfold is_command, is_command_text, payload, slice.
  rewrite !drop_0, length_take, take_take.
  destruct (p_len p =? 13) eqn:E.
  - rewrite (bool_decide_true (_ `min` _ = 13)%nat) by (unfold MAX_PAYLOAD in *; lia).
    by rewrite Nat.min_l by lia.
  - rewrite (bool_decide_false (_ `min` _ = 13)%nat); [done|]. lia.
Qed.

Lemma command_of_payload p :
  chunk_ok p -> command_of p = command_of_message (p_channel p, payload p).
Proof.
  intros Hp. unfold command_of, command_of_message. rewrite !is_command_payload by done.
  destruct (_ =? _); [|done]. cbv zeta.
  assert (Hch : length (payload p) = 13%nat ->
    slice (payload p) 11 2 = slice (p_data p) 11 2).
  { unfold payload, slice. rewrite length_take. intros E.
    rewrite skipn_firstn_comm, take_take. f_equal. lia. }
  unfold is_command_text. destruct (decide (length (payload p) = 13%nat)) as [E|E].
  - by rewrite Hch.
  - by rewrite !(bool_decide_false (length _ = _)).
Qed.

(** The refusal that the protocol documents, with a reason after the channel
    number (line 61): the daemon knows only the form without one. *)
Definition refusal_with_reason (m : message) : Prop :=
  m.1 = CHANNEL_CONTROL /\ slice m.2 0 11 = bytes "ko:connect:" /\ (13 < length m.2)%nat.

#[export] Instance refusal_with_reason_dec m : Decision (refusal_with_reason m).
Proof. unfold refusal_with_reason. apply _. Defined.

(** The code takes it for an unknown message. *)
Lemma reason_not_understood m : refusal_with_reason m -> command_of_message m = Unknown.
Proof.
  destruct m as [ch bs]. intros (E & _ & Hlen). cbn [fst snd] in *. unfold command_of_message. subst ch.
  unfold is_command_text. by rewrite (bool_decide_eq_false_2 (length bs = 13%nat)) by lia.
Qed.

Definition deliver_all (ms : list message) (m : table) : table :=
  fold_left (fun m msg => deliver (command_of_message msg) m) ms m.

(** What the messages are to do by the protocol, a refusal being one with a
    reason or without. *)
Definition protocol_command (m : message) : command :=
  if decide (refusal_with_reason m) then KoConnect (Hex.hex2int (slice m.2 11 2)) else command_of_message m.

Definition protocol (ms : list message) (m : table) : table :=
  fold_left (fun m msg => deliver (protocol_command msg) m) ms m.

Lemma protocol_delivers ms : forall m,
  Forall (fun msg => ~ refusal_with_reason msg) ms -> protocol ms m = deliver_all ms m.
Proof.
  induction ms as [|msg ms IH]; intros m Hms; [done|]. apply Forall_cons in Hms as [Hmsg Hms].
  unfold protocol, deliver_all in *. cbn [fold_left]. rewrite IH by done.
  unfold protocol_command. by rewrite decide_False.
Qed.

(** The receiver contract of the serial code, with the table as its effect. *)
Definition mux_delivers : ReceiverSpec World multiplexer_serial_receive.
Proof.
  refine {| world_ok := alive;
            after w ms w' := Forall (well_addressed ∘ command_of_message) ms ->
              abstract w' = deliver_all ms (abstract w) |}.
  - intros w (la & lc & lcl & HI & _). by eapply Inv_pool.
  - intros l w (la & lc & lcl & HI & Hl) Hp. exists la, lc, lcl. split; [|done].
    by eapply InvC_pool.
  - done.
  - done.
  - intros w1 ms1 w2 ms2 w3 H1 H2 [Hm1 Hm2]%Forall_app. unfold deliver_all.
    rewrite fold_left_app, H2, H1; done.
  - intros p w Hp Hlen Ha. assert (Hc : chunk_ok p) by (split; [done|lia]).
    destruct (multiplexer_serial_receive_safe w p Ha Hc) as (w' & Hr & Ha' & _).
    exists w'. split; [done|]. split; [done|].
    intros [Hwa _]%Forall_cons.
    change (well_addressed (command_of_message (p_channel p, payload p))) in Hwa.
    rewrite <-command_of_payload in Hwa by done.
    destruct (serial_receive_refines w p Ha Hc Hwa) as (w2 & Hr2 & Ht).
    assert (w2 = w') as -> by congruence. unfold deliver_all. cbn [fold_left].
    by rewrite <-command_of_payload.
Defined.

Lemma frames_update_table w ms chunks :
  alive w -> Forall message_ok ms -> Forall chunk_ok chunks ->
  concat (map payload chunks) = concat (map frame ms) ->
  Forall (well_addressed ∘ command_of_message) ms ->
  exists s' w',
    serial_receive_all multiplexer_serial_receive (serial_init w).1 chunks (serial_init w).2
      = Ok (s', w') /\
    abstract w' = deliver_all ms (abstract w) /\ alive w' /\ in_len s' = 0.
Proof.
  intros Ha Hms Hc Heq Hwa.
  destruct (frames_delivered (Spec := mux_delivers) multiplexer_serial_receive ms chunks w
    Hms Hc Ha Heq) as (s' & w' & Hr & Hafter & H0 & _ & Ha').
  exists s', w'. split_and!; try done. by apply Hafter.
Qed.

(** ** Data from a client, and its hang-up *)

(** Sending to the serial port leaves the table alone. *)
Lemma sends_abstract w la lc lcl bs w' :
  Inv None w la lc lcl -> sends w bs w' -> abstract w' = abstract w.
Proof.
  intros HI [Hq _ Hothers]. apply map_eq. intros c. rewrite !abstract_lookup, (q_clients _ _ Hq).
  destruct (w_clients w !! c) as [C|] eqn:HC; [|done]. simpl. unfold abstract_client.
  destruct (client_handler _ _ _ _ _ _ HI HC) as (f & F & -> & HF & _ & HFu & _). simpl.
  rewrite Hothers; [done|]. intros ->. destruct (i_serial HI) as (G & HG & _ & HGu). congruence.
Qed.

(** A connection request: it names the service and the channel. *)
Definition request_for (name : list Z) (ch : Z) (bs : list Z) : Prop :=
  (exists r, bs = bytes "connect:" ++ r) /\ (exists l r, bs = l ++ name ++ r) /\
  (exists l r, bs = l ++ Hex.int2hex ch 2 ++ r).

Lemma connect_text_request p ch : request_for (until_nul (payload p)) ch (connect_text p ch).
Proof.
  unfold connect_text. split; [by eexists|]. split; [by eexists (bytes "connect:"), _|].
  exists (bytes "connect:" ++ until_nul (payload p) ++ bytes ":"), []. by rewrite app_nil_r, <-!app_assoc.
Qed.

(** The daemon's reaction to data from client [c]: the table and the bytes sent
    to the emulator. *)
Definition client_data (c : nat) (p : Packet) (m m' : table) (sent : list Z) : Prop :=
  exists a, m !! c = Some a /\
    if a_registered a then m' = m /\ sent = frame (a_channel a, payload p)
    else if a_channel a >? 0 then m' = delete c m /\ sent = []
    else if bool_decide (length (until_nul (payload p)) + 11 < MAX_PAYLOAD)%nat then
      exists ch bs, 0 < ch < 256 /\ (forall c' a', m !! c' = Some a' -> a_channel a' <> ch) /\
        m' = <[c := mkA ch false (a_out a)]> m /\ request_for (until_nul (payload p)) ch bs /\
        sent = frame (CHANNEL_CONTROL, bs)
    else m' = delete c m /\ sent = [].

(** A client that is freed, with the packet at hand. *)
Lemma free_refines w la lc lcl c C p :
  Inv None w la lc lcl -> w_clients w !! c = Some C -> chunk_ok p ->
  exists w', client_free call_close c (packet_free p w) = Ok w' /\
    abstract w' = delete c (abstract w) /\ serial_out w' = serial_out w.
Proof.
  intros HI HC Hp. destruct (abstract_live _ _ _ _ _ _ HI HC) as (f & F & Hcf & HF & HFu & Ha).
  destruct (client_free_ok call_close (packet_free p w) la lc lcl c C)
    as (w' & la' & lc' & Hr & HI' & Ecl & Hk & _ & Hother); [by apply Inv_free_packet, Hp|done|].
  exists w'. split; [done|]. split; [by eapply abstract_delete|].
  unfold serial_out. rewrite (k_sf _ _ Hk), Hother; [done|].
  simpl. intros ?. destruct (i_serial HI) as (G & HG & _ & HGu). congruence.
Qed.

(** A new channel, or registration, of a client. *)
Lemma put_client_refines w la lc lcl c C C' a :
  Inv None w la lc lcl -> w_clients w !! c = Some C -> abstract w !! c = Some a ->
  c_fdhandler C' = c_fdhandler C ->
  abstract (put_client c C' w) = <[c := mkA (c_channel C') (c_registered C') (a_out a)]> (abstract w).
Proof.
  intros HI HC Ha Ef. destruct (abstract_live _ _ _ _ _ _ HI HC) as (f & F & Hcf & HF & _ & Ha').
  rewrite Ha in Ha'. injection Ha' as ->. cbn [a_out].
  eapply (abstract_update w); [exact HI|done|exact Hcf|exact HF|congruence|done|].
  symmetry. by apply insert_id.
Qed.

(** A service that is asked for: the client gets its channel, or is dropped
    when the name leaves no room for the request. *)
Lemma new_service_refines w la lc lcl c C p :
  Inv None w la lc lcl -> (length lcl <= 255)%nat -> w_clients w !! c = Some C -> chunk_ok p ->
  c_channel C = -1 -> c_registered C = false -> number_above w ->
  exists w' sent, client_fd_receive c p w = Ok w' /\
    client_data c p (abstract w) (abstract w') sent /\ serial_out w' = serial_out w ++ sent.
Proof.
  intros HI Hlen HC Hp Hch Hreg Habove.
  destruct (abstract_live _ _ _ _ _ _ HI HC) as (f & F & Hcf & HF & _ & Ha).
  unfold client_fd_receive, client_data. rewrite (client_live c C) by done.
  cbn [mbind result_bind]. rewrite Hreg, Hch. cbn [Z.gtb Z.compare].
  destruct (multiplexer_open_channel_ok w la lc lcl p HI Hlen)
    as (ch & w1 & -> & HI1 & Hopen & Hfits & Hpos).
  assert (Hs : exists bs, sends w bs w1) by (destruct Hopen as [[_ ?]|(_ & _ & ?)]; by eexists).
  destruct Hs as [bs0 Hs0]. pose proof (s_quiet _ _ _ Hs0) as Hq.
  pose proof (sends_abstract w la lc lcl _ w1 HI Hs0) as Hsame. clear bs0 Hs0.
  assert (HC1 : w_clients w1 !! c = Some C) by (by rewrite (q_clients _ _ Hq)).
  cbn [mbind result_bind]. rewrite (client_live c C) by done. cbn [mbind result_bind]. rewrite Hreg.
  assert (Hput : abstract (put_client c (mkClient ch false (c_fdhandler C)) w1) =
    <[c := mkA ch false (pending F)]> (abstract w)).
  { rewrite <-Hsame in Ha |- *. by apply (put_client_refines w1 la lc lcl c C (mkClient ch false _) _ HI1 HC1 Ha). }
  destruct Hopen as [[-> Hs]|(Hrange & Hfree & Hs)].
  - destruct (free_refines (put_client c (mkClient (-1) false (c_fdhandler C)) w1) la lc lcl c
      (mkClient (-1) false (c_fdhandler C)) p) as (w' & Hr & Habs & Hout); [|by apply lookup_insert_eq|done|].
    { eapply Inv_put_client; [exact HI1|done|done|simpl; lia|by left]. }
    exists w', []. split; [exact Hr|]. split; [|by rewrite Hout, <-(s_out _ _ _ Hs)].
    eexists. split; [exact Ha|]. cbn [a_registered a_channel]. rewrite Hreg, Hch. cbn [Z.gtb Z.compare].
    rewrite bool_decide_eq_false_2 by (by intros H%Hfits). by rewrite Habs, Hput, delete_insert_eq.
  - rewrite (proj2 (Z.ltb_ge ch 0)) by lia. eexists _, _. split; [done|].
    split; [|exact (s_out _ _ _ Hs)]. eexists. split; [exact Ha|].
    cbn [a_registered a_channel a_out]. rewrite Hreg, Hch. cbn [Z.gtb Z.compare].
    rewrite bool_decide_eq_true_2 by (apply Hfits; lia).
    exists ch, (connect_text p ch). split; [split; [apply Hpos; [lia|done]|lia]|].
    split; [|by split; [exact Hput|split; [apply connect_text_request|]]].
    intros c' a' Ha'. destruct (abstract_channel _ _ _ Ha') as (D & HD & <-). by apply (Hfree c').
Qed.

Lemma client_fd_receive_refines w c C p :
  alive w -> w_clients w !! c = Some C -> chunk_ok p ->
  0 < c_channel C \/ (c_channel C = -1 /\ c_registered C = false /\ number_above w) ->
  exists w' sent, client_fd_receive c p w = Ok w' /\
    client_data c p (abstract w) (abstract w') sent /\ serial_out w' = serial_out w ++ sent.
Proof.
  intros (la & lc & lcl & HI & Hlen) HC Hp [Hpos|(Hch & Hreg & Habove)];
    [|by eapply new_service_refines].
  destruct (abstract_live _ _ _ _ _ _ HI HC) as (f & F & Hcf & HF & HFu & Ha).
  unfold client_fd_receive, client_data. rewrite (client_live c C) by done.
  cbn [mbind result_bind]. destruct (c_registered C) eqn:Hreg.
  - destruct (serial_send_ok None w la lc lcl (set_p_channel (c_channel C) p) HI Hp)
      as (w' & Hr & HI' & Hs).
    exists w', (frame (c_channel C, payload p)). split; [exact Hr|]. split.
    + eexists. split; [exact Ha|]. simpl. split; [by eapply sends_abstract|done].
    + apply (s_out _ _ _ Hs).
  - rewrite (proj2 (Z.gtb_gt (c_channel C) 0)) by lia.
    destruct (free_refines w la lc lcl c C p HI HC Hp) as (w' & Hr & Habs & Hout).
    exists w', []. split; [exact Hr|]. split; [|by rewrite app_nil_r].
    eexists. split; [exact Ha|]. cbn [a_registered a_channel].
    by rewrite (proj2 (Z.gtb_gt (c_channel C) 0)) by lia.
Qed.

Lemma hangup_refines w f F c C :
  alive w -> w_fds w !! f = Some F -> f_closing F = false ->
  r_user (f_receiver F) = ClientEnd c -> w_clients w !! c = Some C ->
  exists w', fdhandler_close call_close f w = Ok w' /\ w_fds w' !! f = None /\
    abstract w' = delete c (abstract w) /\ serial_out w' = serial_out w ++ goodbye C.
Proof.
  intros (la & lc & lcl & HI & Hlen) Hf Hcl Hu HC.
  destruct (fdhandler_hangup_ok w la lc lcl f F c HI Hf Hu)
    as (w' & la' & lc' & lcl' & Hr & HI' & Hgone & Ecl & _ & Hk & Hout).
  destruct (Hout Hcl) as (C' & HC' & Hcf & Hserial & Hothers). rewrite Hcl in Ecl.
  assert (C' = C) as -> by congruence.
  exists w'. split; [done|]. split; [done|]. split; [|done].
  apply map_eq. intros i. rewrite abstract_lookup, Ecl.
  destruct (decide (c = i)) as [<-|Hne]; [by rewrite !lookup_delete_eq|].
  rewrite !lookup_delete_ne, abstract_lookup by done.
  destruct (w_clients w !! i) as [D|] eqn:HD; [|done]. simpl. unfold abstract_client.
  destruct (client_handler _ _ _ _ _ _ HI HD) as (g & G & -> & HG & _ & HGu & _). simpl.
  rewrite Hothers; [done|congruence|].
  intros ->. destruct (i_serial HI) as (S & HS & _ & HSu). congruence.
Qed.
