(* ===== verification/QemudTheorems.v ===== *)
(** * qemud: the properties of the daemon

    The theorems about the daemon as a whole, each with a concrete run as its
    witness, and the runs that the daemon does not survive. *)
From S2P Require Import Prelude QemudPacket QemudSerial PrefList QemudLooper QemudMux QemudInv.
From S2P Require Import QemudOps QemudDaemon QemudSpec.
Local Open Scope Z_scope.

(** ** A session

    A client connects on descriptor 5, asks for the service "gps", its request
    goes out on the serial port (header and body), the emulator accepts it on
    channel 1, and the answer is written to the client. *)
Definition session_env : list sysret :=
  [SysCount 5; SysData (bytes "gps"); SysCount 100; SysCount 100;
   SysData (bytes "00000dok:connect:01"); SysCount 9].
Definition session : list (nat * Z) :=
  [(1%nat, 1); (2%nat, 1); (0%nat, 4); (0%nat, 4); (0%nat, 1); (2%nat, 4)].
Definition session_waits : list wait_result := map (fun r => WaitReady [r]) session.

Definition world_of (r : result World) : World :=
  match r with Ok w => w | Err _ => zero_world [] end.
Definition after_turns (k : nat) : World :=
  world_of (qemud 3 4 (take k session_waits) session_env).

Lemma session_turn k n ev st st' waits h F :
  looper_turn ev_call [(n, ev)] (after_turns k) = Ok (after_turns (S k)) ->
  l_hooks (w_looper (after_turns k)) !! n = Some h ->
  w_fds (after_turns k) !! (h_user h).1 = Some F ->
  event_ok st (after_turns k) (h_user h).1 F ev st' ->
  benign st' (after_turns (S k)) waits ->
  benign st (after_turns k) (WaitReady [(n, ev)] :: waits).
Proof.
  intros Ht Hn HF Hev Hb. eapply benign_turn; [done|done|done|].
  intros w' Hw. assert (w' = after_turns (S k)) as -> by congruence. done.
Qed.

Definition hook_of (k n : nat) : LoopHook ev_user :=
  default (mkHook 0 0 0 0 (0%nat, EvHandler)) (l_hooks (w_looper (after_turns k)) !! n).
Definition fdh_of (k n : nat) : FDHandler :=
  default (mkFDHandler 0 false (mkReceiver SerialEnd true true) 0 [])
    (w_fds (after_turns k) !! (h_user (hook_of k n)).1).

Ltac turn k n := eapply (session_turn k n _ _ _ _ (hook_of k n) (fdh_of k n));
  [vm_compute; reflexivity|vm_compute; reflexivity|vm_compute; reflexivity| |].

Lemma session_benign :
  forall w, multiplexer_init 3 4 (zero_world session_env) = Ok w ->
    benign (InHeader []) w session_waits.
Proof.
  assert (E : forall w, multiplexer_init 3 4 (zero_world session_env) = Ok w -> w = after_turns 0).
  { intros w Hw. unfold after_turns, qemud. simpl take. rewrite Hw. reflexivity. }
  intros w Hw. rewrite (E w Hw). clear w Hw E.
  turn 0%nat 1%nat.
  { apply ev_control; [vm_compute; reflexivity|vm_compute; reflexivity|]. intros _. right. split; [vm_compute; lia|].
    assert (Hfd : map_Forall (fun _ G => f_fd G <> (fd_accept (after_turns 0)).1) (w_fds (after_turns 0)))
      by (apply (bool_decide_unpack _); vm_compute; exact I).
    exact Hfd. }
  turn 1%nat 2%nat.
  { eapply ev_client; vm_compute; [reflexivity|reflexivity|reflexivity|discriminate]. }
  turn 2%nat 0%nat.
  { apply ev_serial; vm_compute; [reflexivity|reflexivity|discriminate]. }
  turn 3%nat 0%nat.
  { apply ev_serial; vm_compute; [reflexivity|reflexivity|discriminate]. }
  turn 4%nat 0%nat.
  { apply ev_serial; [vm_compute; reflexivity|vm_compute; reflexivity|].
    intros _. vm_compute. repeat split; discriminate || exact I. }
  turn 5%nat 2%nat.
  { eapply ev_client; vm_compute; [reflexivity|reflexivity|reflexivity|discriminate]. }
  apply benign_nil.
Qed.

Lemma benign_take k st w waits : benign st w waits -> benign st w (take k waits).
Proof.
  intros H. revert k. induction H as [| | | |st st' w n h F ev waits Hn HF Hev _ IH]; intros [|k];
    simpl; try (constructor; auto; done).
  eapply benign_turn; eauto.
Qed.

Lemma session_alive k : alive (after_turns k).
Proof.
  destruct (qemud_ok 3 4 (take k session_waits) session_env) as (w & st & Hr & Hd); [lia..| |].
  { intros w Hw. by apply benign_take, session_benign. }
  unfold after_turns. rewrite Hr. by eapply running_alive, d_running.
Qed.

(** ** Safety *)

(** C1 The daemon, from start-up on and for any number of turns with events of
    [event_ok], never touches a freed handler, client or packet, never writes
    past a packet, never calls [fatal], and every turn terminates.  In the
    state it reaches, no two clients share a channel, every client and its
    handler point to each other, and the kernel monitors each handler's
    descriptor, for output exactly when the handler has packets queued. *)
Theorem qemud_never_faults sfd cfd waits env :
  0 <= sfd -> 0 <= cfd -> sfd <> cfd ->
  (forall w, multiplexer_init sfd cfd (zero_world env) = Ok w -> benign (InHeader []) w waits) ->
  exists w, qemud sfd cfd waits env = Ok w /\
    (forall c1 c2 C1 C2, w_clients w !! c1 = Some C1 -> w_clients w !! c2 = Some C2 ->
       c_channel C1 = c_channel C2 -> c_channel C1 <> -1 -> c1 = c2) /\
    (forall c C, w_clients w !! c = Some C -> exists f F, c_fdhandler C = Some f /\
       w_fds w !! f = Some F /\ r_user (f_receiver F) = ClientEnd c) /\
    (forall f F, w_fds w !! f = Some F -> exists n h,
       l_epoll (w_looper w) !! f_fd F = Some (handler_mask F, n) /\
       l_hooks (w_looper w) !! n = Some h /\ h_user h = (f, handler_kind F)).
Proof.
  intros Hs Hc Hne Hb. destruct (qemud_ok sfd cfd waits env Hs Hc Hne Hb) as (w & st & Hr & Hd).
  destruct (running_alive _ _ (d_running _ _ Hd)) as (la & lc & lcl & HI & _).
  exists w. split; [done|]. split; [apply (i_unique HI)|]. split.
  - intros c C HC. destruct (client_handler _ _ _ _ _ _ HI HC) as (f & F & ? & ? & _ & ? & _).
    by exists f, F.
  - intros f F HF. destruct (i_looper HI) as (m & [_ Hm] & H1 & _).
    specialize (H1 f F HF). unfold monitored in H1. rewrite Hm in H1. unfold view in H1.
    destruct (l_epoll _ !! _) as [[ev n]|]; [|done].
    destruct (l_hooks _ !! n) as [h|] eqn:Hn; [|done]. exists n, h.
    simpl in H1. split_and!; congruence.
Qed.

Lemma qemud_never_faults_witness :
  exists w, qemud 3 4 session_waits session_env = Ok w /\
    (forall c1 c2 C1 C2, w_clients w !! c1 = Some C1 -> w_clients w !! c2 = Some C2 ->
       c_channel C1 = c_channel C2 -> c_channel C1 <> -1 -> c1 = c2) /\
    (forall c C, w_clients w !! c = Some C -> exists f F, c_fdhandler C = Some f /\
       w_fds w !! f = Some F /\ r_user (f_receiver F) = ClientEnd c) /\
    (forall f F, w_fds w !! f = Some F -> exists n h,
       l_epoll (w_looper w) !! f_fd F = Some (handler_mask F, n) /\
       l_hooks (w_looper w) !! n = Some h /\ h_user h = (f, handler_kind F)).
Proof. apply (qemud_never_faults 3 4); [lia|lia|lia|exact session_benign]. Defined.

(** ** The multiplexer against its specification *)

(** C2 End to end from the serial port: the bytes of framed messages, however
    [read] cuts them, change the table of clients as the [protocol] says, message
    by message: data is appended to the output of the one client on the channel,
    "ok:connect" and "ko:connect" answer it, "disconnect" removes it, everything
    else changes nothing; and the daemon's invariant holds again.  The world is
    one that the daemon reaches, with at most 255 clients ([alive]); a message has
    a channel number of a byte and 1 to 4000 bytes ([message_ok]), its channel
    number is well formed ([well_addressed]), and it is not a refusal with a
    reason, which the code ignores ([reason_ignored] below). *)
Theorem serial_bytes_update_table w ms chunks :
  alive w -> Forall message_ok ms -> Forall chunk_ok chunks ->
  concat (map payload chunks) = concat (map frame ms) ->
  Forall (well_addressed ∘ command_of_message) ms -> Forall (fun m => ~ refusal_with_reason m) ms ->
  exists s' w',
    serial_receive_all multiplexer_serial_receive (serial_init w).1 chunks (serial_init w).2
      = Ok (s', w') /\
    abstract w' = protocol ms (abstract w) /\ alive w' /\ in_len s' = 0.
Proof. intros Ha Hm Hc Hb Hw Hr. rewrite protocol_delivers by done. by apply frames_update_table. Qed.

Definition text_chunk (bs : list Z) : Packet := LogWorld.chunk bs.

Lemma serial_bytes_update_table_witness :
  exists s' w',
    serial_receive_all multiplexer_serial_receive (serial_init (after_turns 4)).1
      [text_chunk (bytes "00000dok:conn"); text_chunk (bytes "ect:010100");
       text_chunk (bytes "02hi")] (serial_init (after_turns 4)).2 = Ok (s', w') /\
    abstract w' = protocol [(0, bytes "ok:connect:01"); (1, bytes "hi")]
                    (abstract (after_turns 4)) /\ alive w' /\ in_len s' = 0.
Proof.
  apply serial_bytes_update_table.
  - apply session_alive.
  - repeat constructor; vm_compute; congruence.
  - repeat constructor; vm_compute; congruence.
  - vm_compute. reflexivity.
  - repeat constructor; vm_compute; congruence.
  - repeat constructor; intros (_ & E & _); vm_compute in E; congruence.
Defined.

(** A refusal in the documented form: the client is not told. *)
Example reason_ignored :
  let m := (0, bytes "ko:connect:01:no such service") in
  refusal_with_reason m /\
  protocol [m] (abstract (after_turns 4)) <> abstract (after_turns 4) /\
  match serial_receive_all multiplexer_serial_receive (serial_init (after_turns 4)).1
          [text_chunk (frame m)] (serial_init (after_turns 4)).2 with
  | Ok (_, w') => abstract w' = abstract (after_turns 4)
  | Err _ => False
  end.
Proof.
  split; [repeat split; vm_compute; lia|]. split; [|vm_compute; reflexivity].
  intros E. apply (f_equal (fun t : table => a_out <$> t !! 2%nat)) in E. vm_compute in E. congruence.
Qed.

(** C3 Data from a client.  Accepted, it goes to the emulator in one frame
    under the client's channel.  Waiting for the answer, the client is dropped.
    New, the data is a service name: when the name leaves room for the request, the
    client gets a channel number above zero that no client has, and the emulator
    gets one control message, which names the service and the channel; else the
    client is dropped.  In each case nothing else changes, nothing more is sent
    and there is no fault.  The client has a channel number above zero, or it has
    none and a number above the low byte of the counter is free ([number_above]),
    without which the search comes round to channel 0. *)
Theorem client_data_handled w c C p :
  alive w -> w_clients w !! c = Some C -> chunk_ok p ->
  0 < c_channel C \/ (c_channel C = -1 /\ c_registered C = false /\ number_above w) ->
  exists w' sent, client_fd_receive c p w = Ok w' /\
    client_data c p (abstract w) (abstract w') sent /\ serial_out w' = serial_out w ++ sent.
Proof. apply client_fd_receive_refines. Qed.

Definition client_of (k c : nat) : Client :=
  default (mkClient 0 false None) (w_clients (after_turns k) !! c).

Lemma client_data_handled_witness :
  exists w' sent, client_fd_receive 2 (text_chunk (bytes "gps")) (after_turns 1) = Ok w' /\
    client_data 2 (text_chunk (bytes "gps")) (abstract (after_turns 1)) (abstract w') sent /\
    serial_out w' = serial_out (after_turns 1) ++ sent.
Proof.
  apply (client_data_handled _ _ (client_of 1 2)).
  - apply session_alive.
  - vm_compute. reflexivity.
  - split; vm_compute; [reflexivity|split; discriminate].
  - right. split; [vm_compute; reflexivity|]. split; [vm_compute; reflexivity|].
    exists 1. split; [vm_compute; split; reflexivity|].
    assert (Hfree : map_Forall (fun _ C => c_channel C <> 1) (w_clients (after_turns 1)))
      by (apply (bool_decide_unpack _); vm_compute; exact I).
    exact Hfree.
Defined.



(** ** Output *)

(** C5 One EPOLLOUT event writes a prefix of the bytes pending on the handler,
    in the order they were queued, to the handler's own descriptor; exactly the
    rest stays pending; nothing is lost or repeated whatever [write] accepts. *)
Theorem fdhandler_output_exact w f F :
  alive w -> w_fds w !! f = Some F ->
  exists w' F' bs, fdhandler_event_out f w = Ok w' /\ w_fds w' = <[f := F']> (w_fds w) /\
    pending F = bs ++ pending F' /\
    concat (map snd (w_written w')) = concat (map snd (w_written w)) ++ bs /\
    (forall fd bs', (fd, bs') ∈ w_written w' -> (fd, bs') ∈ w_written w \/ fd = f_fd F).
Proof.
  intros (la & lc & lcl & HI & _) Hf.
  destruct (fdhandler_event_out_ok w la lc lcl f F HI Hf)
    as (w' & F' & bs & Hr & _ & _ & Ef & _ & _ & _ & Hp & Hw & _ & Hfd);
    [by eapply control_no_output|].
  exists w', F', bs. by split_and!.
Qed.

Lemma fdhandler_output_exact_witness :
  exists w' F' bs, fdhandler_event_out 0 (after_turns 2) = Ok w' /\
    w_fds w' = <[0%nat := F']> (w_fds (after_turns 2)) /\
    pending (fdh_of 2 0) = bs ++ pending F' /\
    concat (map snd (w_written w')) = concat (map snd (w_written (after_turns 2))) ++ bs /\
    (forall fd bs', (fd, bs') ∈ w_written w' ->
       (fd, bs') ∈ w_written (after_turns 2) \/ fd = f_fd (fdh_of 2 0)).
Proof.
  apply (fdhandler_output_exact (after_turns 2) 0 (fdh_of 2 0));
    [apply session_alive|vm_compute; reflexivity].
Defined.

(** ** The looper *)

(** C16 The looper is a map from descriptors to (callback, event mask): whatever
    slots its hooks moved to, after adding a descriptor, setting and clearing
    events, deleting it, and the removal of closed hooks at the end of a turn,
    the kernel reports exactly the events of the map, to the map's callback. *)
Theorem looper_is_a_map (l : Looper ev_user) m fd u events u0 ev0 :
  represents l m ->
  (unused l fd -> represents (looper_add l fd u) (<[fd := (u, 0)]> m)) /\
  (m !! fd = Some (u0, ev0) ->
     represents (looper_enable l fd events) (<[fd := (u0, Z.lor ev0 events)]> m) /\
     represents (looper_disable l fd events) (<[fd := (u0, Z.land ev0 (Z.lnot events))]> m)) /\
  represents (looper_del l fd) (delete fd m) /\
  exists l', remove_closed (length (l_hooks l)) 0 l = Ok l' /\ represents l' m /\ settled l'.
Proof.
  intros Hr. split; [by apply looper_add_represents|]. split.
  { intros Hm. split; [by apply looper_enable_represents|by apply looper_disable_represents]. }
  split; [by apply looper_del_represents|].
  destruct (remove_closed_represents (length (l_hooks l)) 0 l m Hr) as (l' & ? & ? & ? & _);
    [lia|intros; lia|]. by exists l'.
Qed.

Definition one_hook : Looper ev_user := looper_add looper_init 3 (0%nat, EvHandler).

Lemma looper_is_a_map_witness :
  let u := (0%nat, EvHandler) in
  let m : gmap Z (ev_user * Z) := <[3 := (u, 0)]> ∅ in
  (unused one_hook 3 -> represents (looper_add one_hook 3 u) (<[3 := (u, 0)]> m)) /\
  (m !! 3 = Some (u, 0) ->
     represents (looper_enable one_hook 3 5) (<[3 := (u, Z.lor 0 5)]> m) /\
     represents (looper_disable one_hook 3 5) (<[3 := (u, Z.land 0 (Z.lnot 5))]> m)) /\
  represents (looper_del one_hook 3) (delete 3 m) /\
  exists l', remove_closed (length (l_hooks one_hook)) 0 one_hook = Ok l' /\
    represents l' m /\ settled l'.
Proof.
  apply looper_is_a_map. apply looper_add_represents; [apply looper_init_represents|].
  intros n h. by destruct n.
Defined.

(** ** Runs the daemon does not survive

    What [qemud_never_faults] has to exclude. *)

(** [epoll_wait] reports the serial port and a client together; the emulator's
    message disconnects the client, whose handler is freed, and its hook, still
    pending, is called all the same (lines 533-538). *)
Example batch_calls_freed_handler :
  qemud 3 4 [WaitReady [(1%nat, EPOLLIN)]; WaitReady [(2%nat, EPOLLIN)];
             WaitReady [(0%nat, EPOLLIN); (2%nat, EPOLLIN)]]
    [SysCount 5; SysData (bytes "gps"); SysData (bytes "00000ddisconnect:01");
     SysData (bytes "x")] = Err UseAfterFree.
Proof. vm_compute. reflexivity. Qed.

(** A client that sends data twice before the emulator's answer and hangs up:
    the data frees the handler that the hang-up then closes (lines 905-922). *)
Example data_with_hangup_closes_twice :
  qemud 3 4 [WaitReady [(1%nat, EPOLLIN)]; WaitReady [(2%nat, EPOLLIN)];
             WaitReady [(2%nat, Z.lor EPOLLIN EPOLLHUP)]]
    [SysCount 5; SysData (bytes "gps"); SysData (bytes "x")] = Err UseAfterFree.
Proof. vm_compute. reflexivity. Qed.

(** [fdhandler_shutdown] forgets to stop posting: data that arrives while the
    handler flushes its queue is posted to the freed client (line 859). *)
Example flushing_handler_posts_to_freed_client :
  qemud 3 4 [WaitReady [(1%nat, EPOLLIN)]; WaitReady [(2%nat, EPOLLIN)];
             WaitReady [(0%nat, EPOLLIN)]; WaitReady [(2%nat, EPOLLIN)]]
    [SysCount 5; SysData (bytes "gps");
     SysData (bytes "00000dok:connect:0100000ddisconnect:01"); SysData (bytes "x")]
  = Err UseAfterFree.
Proof. vm_compute. reflexivity. Qed.

(** The flushed handler is never freed: once its queue is empty it stays on the
    closing list, its descriptor open (lines 926-945, against line 851). *)
Example flushed_handler_stays :
  exists w, qemud 3 4 [WaitReady [(1%nat, EPOLLIN)]; WaitReady [(2%nat, EPOLLIN)];
      WaitReady [(0%nat, EPOLLIN)]; WaitReady [(2%nat, EPOLLOUT)]]
    [SysCount 5; SysData (bytes "gps");
     SysData (bytes "00000dok:connect:0100000ddisconnect:01"); SysCount 2] = Ok w /\
    exists F, w_fds w !! 3%nat = Some F /\ f_out F = [] /\ f_closing F = true.
Proof. eexists. split; [vm_compute; reflexivity|]. eexists. vm_compute. repeat split. Qed.

(** A malformed channel number reads as -1, which is the channel of every client that
    has none: the emulator's "ok:connect:zz" registers it (line 1438). *)
Example malformed_channel_registers_client :
  exists w C, qemud 3 4 [WaitReady [(1%nat, EPOLLIN)]; WaitReady [(0%nat, EPOLLIN)]]
    [SysCount 5; SysData (bytes "00000dok:connect:zz")] = Ok w /\
    w_clients w !! 2%nat = Some C /\ c_registered C = true /\ c_channel C = -1.
Proof. do 2 eexists. split; [vm_compute; reflexivity|]. vm_compute. repeat split. Qed.

(** A descriptor closed and accepted again within one turn: [looper_find] returns
    the closed hook, and the new client's descriptor ends up with an empty event
    mask, never monitored (lines 374, 465, 552). *)
Example reused_descriptor_not_monitored :
  exists w, qemud 3 4 [WaitReady [(1%nat, EPOLLIN)]; WaitReady [(2%nat, EPOLLIN)];
      WaitReady [(0%nat, EPOLLIN); (1%nat, EPOLLIN)]]
    [SysCount 5; SysData (bytes "gps"); SysData (bytes "00000ddisconnect:01"); SysCount 5] = Ok w /\
    (exists C, w_clients w !! 4%nat = Some C) /\ l_epoll (w_looper w) !! 5 = Some (0, 2%nat).
Proof. eexists. split; [vm_compute; reflexivity|]. vm_compute. split; [by eexists|done]. Qed.
