(* ===== verification/GpsNmea.v ===== *)
(** * gps_qemu: from NMEA sentences to fixes

    Models the tokenizer and the reader of [src/emulator/gps/gps_qemu.c]: the
    characters that come from the "gps" channel of qemud are collected into
    sentences, which are cut into tokens and turned into location fixes.  A
    token is two pointers into a block of memory.  Floating point arithmetic
    and the constants of the GPS interface, which the repository does not
    define, are type classes; [mktime] and the date of today are parameters. *)
From S2P Require Import Prelude.
Local Open Scope Z_scope.
#[local] Arguments Z.mul : simpl never.
#[local] Arguments Z.add : simpl never.
#[local] Arguments Z.sub : simpl never.
#[local] Arguments Z.leb : simpl never.
#[local] Arguments Z.ltb : simpl never.
#[local] Arguments Z.eqb : simpl never.

(** ** The environment *)

(** [double], with [strtod] on the characters of a string, and [float]. *)
Class Double (F : Type) : Type := {
  strtod : list Z -> F;
  of_int : Z -> F;
  to_int : F -> Z;
  fopp : F -> F;
  fadd : F -> F -> F;
  fsub : F -> F -> F;
  fmul : F -> F -> F;
  fdiv : F -> F -> F;
  ffloor : F -> F;
  to_single : F -> F
}.

(** The [flags] of [GpsLocation]. *)
Class GpsFlags : Type := {
  HAS_LAT_LONG : Z;
  HAS_ALTITUDE : Z;
  HAS_SPEED : Z;
  HAS_BEARING : Z
}.

(** ** The tokenizer *)

Record Token : Type := mkToken { tok_mem : list Z; tok_p : Z; tok_end : Z }.

Definition MAX_NMEA_TOKENS : Z := 16.

(** [memchr (mem + p, c, n)] *)
Fixpoint memchr (mem : list Z) (c p : Z) (n : nat) : result (option Z) :=
  match n with
  | O => Ok None
  | S n =>
      x ← peek mem p;
      if x =? c then Ok (Some p) else memchr mem c (p + 1) n
  end.

(** The initial dollar, the newline and the checksum are left out. *)
Definition trim (mem : list Z) (p end_ : Z) : result (Z * Z) :=
  p ← (if p <? end_ then c ← peek mem p; Ok (if c =? 36 then p + 1 else p) else Ok p);
  end_ ← (if p <? end_ then
            c ← peek mem (end_ - 1);
            if c =? 10 then
              let end_ := end_ - 1 in
              if p <? end_ then c ← peek mem (end_ - 1); Ok (if c =? 13 then end_ - 1 else end_)
              else Ok end_
            else Ok end_
          else Ok end_);
  end_ ← (if p + 3 <=? end_ then c ← peek mem (end_ - 3); Ok (if c =? 42 then end_ - 3 else end_)
          else Ok end_);
  Ok (p, end_).

Fixpoint token_loop (fuel : nat) (mem : list Z) (p end_ : Z) (tokens : list Token)
    : result (list Token) :=
  if p <? end_ then
    match fuel with
    | O => Err OutOfFuel
    | S fuel =>
        found ← memchr mem 44 p (Z.to_nat (end_ - p));
        let q := default end_ found in
        let tokens :=
          if p <? q then
            if Z.of_nat (length tokens) <? MAX_NMEA_TOKENS then tokens ++ [mkToken mem p q]
            else tokens
          else tokens in
        token_loop fuel mem (if q <? end_ then q + 1 else q) end_ tokens
    end
  else Ok tokens.

Definition nmea_tokenizer_init (mem : list Z) (p end_ : Z) : result (list Token) :=
  '(p, end_) ← trim mem p end_;
  token_loop (Z.to_nat (end_ - p)) mem p end_ [].

(** The dummy token is the empty string. *)
Definition nmea_tokenizer_get (tokens : list Token) (index : nat) : Token :=
  default (mkToken [0] 0 0) (tokens !! index).

Fixpoint str2int_loop (len : nat) (mem : list Z) (p acc : Z) : result Z :=
  match len with
  | O => Ok acc
  | S len =>
      x ← peek mem p;
      let c := x - 48 in
      if (0 <=? c) && (c <? 10) then str2int_loop len mem (p + 1) (s32 (acc * 10 + c))
      else Ok (-1)
  end.

Definition str2int (mem : list Z) (p end_ : Z) : result Z :=
  str2int_loop (Z.to_nat (end_ - p)) mem p 0.

(** ** The reader *)

Section Reader.
Context {F : Type} {FD : Double F} {FG : GpsFlags}.
Context (long_bits : Z).
(** Of the fields [tm_year], [tm_mon], [tm_mday], [tm_hour], [tm_min], [tm_sec]. *)
Context (mktime : Z -> Z -> Z -> Z -> Z -> Z -> Z).
(** [tm_year], [tm_mon] and [tm_mday] of the current UTC date. *)
Context (today : Z * Z * Z).

(** A [long] after wrap-around. *)
Definition long (z : Z) : Z := (z + 2 ^ (long_bits - 1)) mod 2 ^ long_bits - 2 ^ (long_bits - 1).

Definition TEMP_SIZE : Z := 16.

Definition str2float (mem : list Z) (p end_ : Z) : result F :=
  let len := end_ - p in
  if TEMP_SIZE <=? len then Ok (of_int 0)
  else s ← read_block mem p len; Ok (strtod (default s (until_nul s))).

(** [size] and [accuracy] are never read or written after the reset. *)
Record GpsLocation : Type := mkLocation {
  flags : Z;
  latitude : F;
  longitude : F;
  altitude : F;
  speed : F;
  bearing : F;
  timestamp : Z
}.

Definition NMEA_MAX_SIZE : nat := 83.

(** [r_sent]: the fixes handed to callbacks so far, with the callback. *)
Record NmeaReader : Type := mkReader {
  r_pos : Z;
  r_overflow : bool;
  utc_year : Z;
  utc_mon : Z;
  utc_day : Z;
  utc_diff : Z;
  r_fix : GpsLocation;
  r_callback : option nat;
  r_in : list Z;
  r_sent : list (nat * GpsLocation)
}.

Definition set_input (pos : Z) (overflow : bool) (in_ : list Z) (r : NmeaReader) : NmeaReader :=
  mkReader pos overflow (utc_year r) (utc_mon r) (utc_day r) (utc_diff r) (r_fix r) (r_callback r)
    in_ (r_sent r).

Definition set_date (year mon day : Z) (r : NmeaReader) : NmeaReader :=
  mkReader (r_pos r) (r_overflow r) year mon day (utc_diff r) (r_fix r) (r_callback r) (r_in r)
    (r_sent r).

Definition set_fix (fix_ : GpsLocation) (r : NmeaReader) : NmeaReader :=
  mkReader (r_pos r) (r_overflow r) (utc_year r) (utc_mon r) (utc_day r) (utc_diff r) fix_
    (r_callback r) (r_in r) (r_sent r).

Definition with_flags (fl : Z) (f : GpsLocation) : GpsLocation :=
  mkLocation fl (latitude f) (longitude f) (altitude f) (speed f) (bearing f) (timestamp f).

(** [callback (&r->fix); r->fix.flags = 0;] *)
Definition hand_out (cb : nat) (r : NmeaReader) : NmeaReader :=
  mkReader (r_pos r) (r_overflow r) (utc_year r) (utc_mon r) (utc_day r) (utc_diff r)
    (with_flags 0 (r_fix r)) (r_callback r) (r_in r) (r_sent r ++ [(cb, r_fix r)]).

(** The seconds of a broken-down time: seconds, minutes, hours, day of the
    year, year. *)
Definition seconds_of (t : Z * Z * Z * Z * Z) : Z :=
  let '(sec, min, hour, yday, year) := t in
  s32 (sec + 60 * (min + 60 * (hour + 24 * (yday + 365 * year)))).

Definition nmea_reader_update_utc_diff (tm_utc tm_local : Z * Z * Z * Z * Z) : Z :=
  s32 (seconds_of tm_utc - seconds_of tm_local).

Definition nmea_reader_init (tm_utc tm_local : Z * Z * Z * Z * Z) : NmeaReader :=
  mkReader 0 false (-1) (-1) (-1) (nmea_reader_update_utc_diff tm_utc tm_local)
    (mkLocation 0 (of_int 0) (of_int 0) (of_int 0) (of_int 0) (of_int 0) 0) None
    (replicate (S NMEA_MAX_SIZE) 0) [].

Definition nmea_reader_set_callback (cb : option nat) (r : NmeaReader) : NmeaReader :=
  let r := mkReader (r_pos r) (r_overflow r) (utc_year r) (utc_mon r) (utc_day r) (utc_diff r)
             (r_fix r) cb (r_in r) (r_sent r) in
  match cb with
  | Some c => if negb (flags (r_fix r) =? 0) then hand_out c r else r
  | None => r
  end.

Definition nmea_reader_update_time (tok : Token) (r : NmeaReader) : result (Z * NmeaReader) :=
  if tok_end tok <? tok_p tok + 6 then Ok (-1, r)
  else
    let r := if utc_year r <? 0
             then let '(y, m, d) := today in set_date (y + 1900) (m + 1) d r else r in
    hour ← str2int (tok_mem tok) (tok_p tok) (tok_p tok + 2);
    minute ← str2int (tok_mem tok) (tok_p tok + 2) (tok_p tok + 4);
    seconds ← str2float (tok_mem tok) (tok_p tok + 4) (tok_end tok);
    let fix_time := long (mktime (utc_year r - 1900) (utc_mon r - 1) (utc_day r) hour minute
                            (to_int seconds) + utc_diff r) in
    let f := r_fix r in
    Ok (0, set_fix (mkLocation (flags f) (latitude f) (longitude f) (altitude f) (speed f) (bearing f)
                      (fix_time * 1000)) r).

Definition nmea_reader_update_date (date time : Token) (r : NmeaReader) : result (Z * NmeaReader) :=
  let tok := date in
  if negb (tok_p tok + 6 =? tok_end tok) then Ok (-1, r)
  else
    day ← str2int (tok_mem tok) (tok_p tok) (tok_p tok + 2);
    mon ← str2int (tok_mem tok) (tok_p tok + 2) (tok_p tok + 4);
    y ← str2int (tok_mem tok) (tok_p tok + 4) (tok_p tok + 6);
    let year := y + 2000 in
    if Z.lor (Z.lor day mon) year <? 0 then Ok (-1, r)
    else nmea_reader_update_time time (set_date year mon day r).

Definition convert_from_hhmm (tok : Token) : result F :=
  val ← str2float (tok_mem tok) (tok_p tok) (tok_end tok);
  let degrees := to_int (fdiv (ffloor val) (of_int 100)) in
  let minutes := fsub val (fmul (of_int degrees) (of_int 100)) in
  Ok (fadd (of_int degrees) (fdiv minutes (of_int 60))).

Definition nmea_reader_update_latlong (lat_ : Token) (latitudeHemi : Z) (lon_ : Token)
    (longitudeHemi : Z) (r : NmeaReader) : result (Z * NmeaReader) :=
  if tok_end lat_ <? tok_p lat_ + 6 then Ok (-1, r)
  else
    lat ← convert_from_hhmm lat_;
    let lat := if latitudeHemi =? 83 then fopp lat else lat in
    if tok_end lon_ <? tok_p lon_ + 6 then Ok (-1, r)
    else
      lon ← convert_from_hhmm lon_;
      let lon := if longitudeHemi =? 87 then fopp lon else lon in
      let f := r_fix r in
      Ok (0, set_fix (mkLocation (Z.lor (flags f) HAS_LAT_LONG) lat lon (altitude f) (speed f)
                        (bearing f) (timestamp f)) r).

Definition nmea_reader_update_altitude (tok : Token) (r : NmeaReader) : result (Z * NmeaReader) :=
  if tok_end tok <=? tok_p tok then Ok (-1, r)
  else
    v ← str2float (tok_mem tok) (tok_p tok) (tok_end tok);
    let f := r_fix r in
    Ok (0, set_fix (mkLocation (Z.lor (flags f) HAS_ALTITUDE) (latitude f) (longitude f) v (speed f)
                      (bearing f) (timestamp f)) r).

Definition nmea_reader_update_bearing (tok : Token) (r : NmeaReader) : result (Z * NmeaReader) :=
  if tok_end tok <=? tok_p tok then Ok (-1, r)
  else
    v ← str2float (tok_mem tok) (tok_p tok) (tok_end tok);
    let f := r_fix r in
    Ok (0, set_fix (mkLocation (Z.lor (flags f) HAS_BEARING) (latitude f) (longitude f) (altitude f)
                      (speed f) (to_single v) (timestamp f)) r).

Definition nmea_reader_update_speed (tok : Token) (r : NmeaReader) : result (Z * NmeaReader) :=
  if tok_end tok <=? tok_p tok then Ok (-1, r)
  else
    v ← str2float (tok_mem tok) (tok_p tok) (tok_end tok);
    let f := r_fix r in
    Ok (0, set_fix (mkLocation (Z.lor (flags f) HAS_SPEED) (latitude f) (longitude f) (altitude f)
                      (to_single v) (bearing f) (timestamp f)) r).

(** [tok.p[0]] *)
Definition tok_char (tok : Token) : result Z := peek (tok_mem tok) (tok_p tok).

Definition parse_gga (tzer : list Token) (r : NmeaReader) : result NmeaReader :=
  '(_, r) ← nmea_reader_update_time (nmea_tokenizer_get tzer 1) r;
  ns ← tok_char (nmea_tokenizer_get tzer 3);
  ew ← tok_char (nmea_tokenizer_get tzer 5);
  '(_, r) ← nmea_reader_update_latlong (nmea_tokenizer_get tzer 2) ns (nmea_tokenizer_get tzer 4) ew r;
  '(_, r) ← nmea_reader_update_altitude (nmea_tokenizer_get tzer 9) r;
  Ok r.

Definition parse_rmc (tzer : list Token) (r : NmeaReader) : result NmeaReader :=
  status ← tok_char (nmea_tokenizer_get tzer 2);
  if status =? 65 then
    '(_, r) ← nmea_reader_update_date (nmea_tokenizer_get tzer 9) (nmea_tokenizer_get tzer 1) r;
    ns ← tok_char (nmea_tokenizer_get tzer 4);
    ew ← tok_char (nmea_tokenizer_get tzer 6);
    '(_, r) ← nmea_reader_update_latlong (nmea_tokenizer_get tzer 3) ns (nmea_tokenizer_get tzer 5) ew r;
    '(_, r) ← nmea_reader_update_bearing (nmea_tokenizer_get tzer 8) r;
    '(_, r) ← nmea_reader_update_speed (nmea_tokenizer_get tzer 7) r;
    Ok r
  else Ok r.

Definition nmea_reader_parse (r : NmeaReader) : result NmeaReader :=
  if r_pos r <? 9 then Ok r
  else
    tzer ← nmea_tokenizer_init (r_in r) 0 (r_pos r);
    let tok := nmea_tokenizer_get tzer 0 in
    if tok_end tok <? tok_p tok + 5 then Ok r
    else
      id ← read_block (tok_mem tok) (tok_p tok + 2) 3;
      r ← (if bool_decide (id = bytes "GGA") then parse_gga tzer r
           else if bool_decide (id = bytes "GSA") then Ok r
           else if bool_decide (id = bytes "RMC") then parse_rmc tzer r
           else Ok r);
      Ok (if negb (flags (r_fix r) =? 0)
          then match r_callback r with Some cb => hand_out cb r | None => r end
          else r).

Definition nmea_reader_addc (r : NmeaReader) (c : Z) : result NmeaReader :=
  if r_overflow r then Ok (set_input (r_pos r) (negb (c =? 10)) (r_in r) r)
  else if Z.of_nat (length (r_in r)) - 1 <=? r_pos r then Ok (set_input 0 true (r_in r) r)
  else
    in_ ← poke (r_in r) (r_pos r) c;
    let r := set_input (r_pos r + 1) (r_overflow r) in_ r in
    if c =? 10 then
      r ← nmea_reader_parse r;
      Ok (set_input 0 (r_overflow r) (r_in r) r)
    else Ok r.
End Reader.

(** ** Sentences as texts *)

(** The pieces between commas; empty ones are left out. *)
Fixpoint pieces_from (cur s : list Z) : list (list Z) :=
  match s with
  | [] => [cur]
  | c :: s => if c =? 44 then cur :: pieces_from [] s else pieces_from (cur ++ [c]) s
  end.

Definition keep (t : list Z) : list (list Z) := match t with [] => [] | _ => [t] end.

Definition fields (s : list Z) : list (list Z) := concat (map keep (pieces_from [] s)).

Definition chop_dollar (s : list Z) : list Z :=
  match s with c :: t => if c =? 36 then t else s | [] => [] end.

(** Without its last character when that is [c]. *)
Definition chop_last (c : Z) (s : list Z) : list Z :=
  match last s with Some x => if x =? c then removelast s else s | None => s end.

Definition chop_newline (s : list Z) : list Z :=
  match last s with
  | Some x => if x =? 10 then chop_last 13 (removelast s) else s
  | None => s
  end.

Definition chop_checksum (s : list Z) : list Z :=
  match s !! (length s - 3)%nat with
  | Some x => if (3 <=? length s)%nat && (x =? 42) then take (length s - 3) s else s
  | None => s
  end.

(** The body of a sentence, and its fields. *)
Definition body (s : list Z) : list Z := chop_checksum (chop_newline (chop_dollar s)).

Definition sentence_fields (s : list Z) : list (list Z) := take 16 (fields (body s)).

(** A token and its text; a token can be read at its start even when empty. *)
Definition tok_is (tok : Token) (t : list Z) : Prop :=
  exists pre post, tok_mem tok = pre ++ t ++ post /\ tok_p tok = Z.of_nat (length pre) /\
    tok_end tok = tok_p tok + Z.of_nat (length t) /\ (t = [] -> exists post', post = 0 :: post').

(** A range of a block. *)
Definition range_is (mem : list Z) (p e : Z) (s : list Z) : Prop :=
  exists pre post, mem = pre ++ s ++ post /\ p = Z.of_nat (length pre) /\
    e = p + Z.of_nat (length s).

Lemma pieces_from_run cur run s : lacks 44 run -> pieces_from cur (run ++ s) = pieces_from (cur ++ run) s.
Proof.
  intros H. revert cur. induction H as [|c run Hc _ IH]; intros cur; [by rewrite app_nil_r|].
  cbn [app pieces_from]. rewrite (proj2 (Z.eqb_neq c 44) Hc), IH. by rewrite <-app_assoc.
Qed.

Lemma fields_last s : lacks 44 s -> fields s = keep s.
Proof.
  intros H. unfold fields. rewrite <-(app_nil_r s) at 1. rewrite pieces_from_run by done. simpl.
  by rewrite app_nil_r.
Qed.

Lemma fields_comma s1 s2 : lacks 44 s1 -> fields (s1 ++ 44 :: s2) = keep s1 ++ fields s2.
Proof. intros H. unfold fields. by rewrite pieces_from_run. Qed.

Lemma memchr_run mem c pre run post n p :
  mem = pre ++ run ++ post -> p = Z.of_nat (length pre) -> lacks c run -> (length run <= n)%nat ->
  memchr mem c p n = memchr mem c (p + Z.of_nat (length run)) (n - length run).
Proof.
  intros -> -> Hr. revert pre n. induction Hr as [|x run Hx _ IH]; intros pre n Hn.
  - simpl. by rewrite Z.add_0_r, Nat.sub_0_r.
  - destruct n as [|n]; [simpl in Hn; lia|]. cbn [memchr app]. rewrite peek_at.
    cbn [mbind result_bind]. rewrite (proj2 (Z.eqb_neq x c) Hx).
    replace (pre ++ x :: run ++ post) with ((pre ++ [x]) ++ run ++ post) by same_list.
    replace (Z.of_nat (length pre) + 1) with (Z.of_nat (length (pre ++ [x]))) by len.
    rewrite IH by (simpl in Hn; lia). cbn [length]. f_equal. len.
Qed.

Lemma token_loop_spec s : forall fuel mem p e tokens texts,
  range_is mem p e s -> (length s <= fuel)%nat -> Forall2 tok_is tokens (take 16 texts) ->
  exists tokens', token_loop fuel mem p e tokens = Ok tokens' /\
                  Forall2 tok_is tokens' (take 16 (texts ++ fields s)).
Proof.
  assert (Hadd : forall mem p q t tokens texts (c : list Z),
    range_is mem p q t -> t <> [] -> Forall2 tok_is tokens (take 16 texts) ->
    Forall2 tok_is (if Z.of_nat (length tokens) <? MAX_NMEA_TOKENS then tokens ++ [mkToken mem p q]
                    else tokens) (take 16 (texts ++ [t]))).
  { intros mem p q t tokens texts _ (pre & post & Hm & Hp & Hq) Ht H.
    pose proof (Forall2_length _ _ _ H) as Hl. rewrite length_take in Hl.
    unfold MAX_NMEA_TOKENS. destruct (Z.ltb_spec (Z.of_nat (length tokens)) 16).
    - rewrite (take_ge (texts ++ [t])) by len. rewrite take_ge in H by lia.
      apply Forall2_app; [done|]. constructor; [|constructor].
      exists pre, post. by split_and!.
    - rewrite take_app_le by lia. done. }
  induction s as [|s Hne Hs|s1 s2 Hs IH] using (cut_ind 44);
    intros fuel mem p e tokens texts Hr Hf Ht; pose proof Hr as (pre & post & Hm & Hp & He).
  - simpl in He. unfold fields. simpl. rewrite app_nil_r. exists tokens.
    split; [|done]. destruct fuel; simpl; by rewrite (proj2 (Z.ltb_ge _ _)) by lia.
  - assert (Hpos : (0 < length s)%nat) by (destruct s; simpl; [done|lia]).
    destruct fuel as [|fuel]; [lia|]. cbn [token_loop].
    rewrite (proj2 (Z.ltb_lt p e)) by lia.
    rewrite (memchr_run mem 44 pre s post) by (done || lia).
    replace (Z.to_nat (e - p) - length s)%nat with 0%nat by lia. cbn [memchr mbind result_bind default].
    rewrite (proj2 (Z.ltb_lt p e)) by lia. rewrite Z.ltb_irrefl.
    rewrite fields_last by done. unfold keep. destruct s as [|c s]; [done|].
    eexists. split; [destruct fuel; simpl; by rewrite Z.ltb_irrefl|]. by apply Hadd.
  - rewrite length_app in Hf, He. simpl in Hf, He. destruct fuel as [|fuel]; [lia|].
    cbn [token_loop]. rewrite (proj2 (Z.ltb_lt p e)) by lia.
    rewrite (memchr_run mem 44 pre s1 (44 :: s2 ++ post)) by (done || (rewrite Hm; same_list) || lia).
    destruct (Z.to_nat (e - p) - length s1)%nat as [|n] eqn:En; [lia|]. cbn [memchr].
    rewrite (peek_in mem (pre ++ s1) 44 (s2 ++ post)); [|rewrite Hm; same_list|len].
    cbn [mbind result_bind]. rewrite Z.eqb_refl. cbn [mbind result_bind default from_option id].
    rewrite (proj2 (Z.ltb_lt (p + _) e)) by lia. rewrite fields_comma, app_assoc by done.
    apply IH.
    + exists (pre ++ s1 ++ [44]), post. split; [rewrite Hm; same_list|]. split; len.
    + lia.
    + unfold keep. destruct s1 as [|c s1].
      * rewrite app_nil_r. simpl length. rewrite (proj2 (Z.ltb_ge p _)) by lia. done.
      * rewrite (proj2 (Z.ltb_lt p _)) by (simpl; lia). apply Hadd; [done| |done|done].
        exists pre, ((44 :: s2) ++ post). split; [rewrite Hm; same_list|]. by split.
Qed.

Lemma range_head mem p e c t : range_is mem p e (c :: t) -> peek mem p = Ok c /\ range_is mem (p + 1) e t.
Proof.
  intros (pre & post & Hm & Hp & He). split; [by apply (peek_in _ pre c (t ++ post))|].
  exists (pre ++ [c]), post. split; [rewrite Hm; same_list|]. split; [len|simpl in He; lia].
Qed.

Lemma range_last mem p e t c :
  range_is mem p e (t ++ [c]) -> peek mem (e - 1) = Ok c /\ range_is mem p (e - 1) t.
Proof.
  intros (pre & post & Hm & Hp & He). rewrite length_app in He. simpl in He. split.
  - apply (peek_in _ (pre ++ t) c post); [rewrite Hm; same_list|len].
  - exists pre, (c :: post). split; [rewrite Hm; same_list|]. split; [done|lia].
Qed.

Lemma range_take mem p e s k :
  range_is mem p e s -> (k <= length s)%nat -> range_is mem p (p + Z.of_nat k) (take k s).
Proof.
  intros (pre & post & Hm & Hp & He) Hk. exists pre, (drop k s ++ post).
  split; [by rewrite (app_assoc (take k s)), take_drop|]. rewrite length_take. split; [done|lia].
Qed.

Lemma range_peek mem p e s k x :
  range_is mem p e s -> s !! k = Some x -> peek mem (p + Z.of_nat k) = Ok x.
Proof.
  intros (pre & post & Hm & Hp & He) Hx. pose proof (take_drop_middle s k x Hx) as Hs.
  pose proof (lookup_lt_Some _ _ _ Hx).
  apply (peek_in _ (pre ++ take k s) x (drop (S k) s ++ post)).
  - rewrite Hm. rewrite <-Hs at 1. same_list.
  - len.
Qed.

Lemma last_snoc_cases (s : list Z) : s = [] \/ exists t x, s = t ++ [x].
Proof. destruct s as [|x t _] using rev_ind; [by left|right; by exists t, x]. Qed.

Lemma trim_spec mem p e s :
  range_is mem p e s -> exists p' e', trim mem p e = Ok (p', e') /\ range_is mem p' e' (body s).
Proof.
  intros H0. unfold trim, body.
  assert (H1 : exists p', (if p <? e then c ← peek mem p; Ok (if c =? 36 then p + 1 else p) else Ok p) =
                 Ok p' /\ range_is mem p' e (chop_dollar s)).
  { pose proof H0 as (_ & _ & _ & _ & He). destruct s as [|c t].
    - rewrite (proj2 (Z.ltb_ge p e)) by (simpl in He; lia). by exists p.
    - rewrite (proj2 (Z.ltb_lt p e)) by (simpl in He; lia).
      destruct (range_head _ _ _ _ _ H0) as [-> Ht]. cbn [mbind result_bind chop_dollar].
      destruct (c =? 36); by eexists. }
  destruct H1 as (p' & -> & H1). cbn [mbind result_bind]. revert H1. generalize (chop_dollar s) as s1.
  clear p s H0. intros s1 H1.
  assert (H2 : exists e', (if p' <? e then
      c ← peek mem (e - 1);
      if c =? 10 then
        if p' <? e - 1 then c ← peek mem (e - 1 - 1); Ok (if c =? 13 then e - 1 - 1 else e - 1)
        else Ok (e - 1)
      else Ok e else Ok e) = Ok e' /\ range_is mem p' e' (chop_newline s1)).
  { pose proof H1 as (_ & _ & _ & _ & He). destruct (last_snoc_cases s1) as [->|(t & x & ->)].
    - rewrite (proj2 (Z.ltb_ge p' e)) by (simpl in He; lia). by exists e.
    - rewrite length_app in He. simpl in He. rewrite (proj2 (Z.ltb_lt p' e)) by lia.
      destruct (range_last _ _ _ _ _ H1) as [-> Ht]. cbn [mbind result_bind].
      unfold chop_newline. rewrite last_snoc. destruct (x =? 10); [|by exists e].
      rewrite removelast_last. unfold chop_last.
      destruct (last_snoc_cases t) as [->|(t2 & y & ->)].
      + rewrite (proj2 (Z.ltb_ge p' _)) by (simpl in He; lia). by eexists.
      + rewrite length_app in He. simpl in He. rewrite (proj2 (Z.ltb_lt p' _)) by lia.
        destruct (range_last _ _ _ _ _ Ht) as [-> Ht2]. cbn [mbind result_bind].
        rewrite last_snoc, removelast_last. destruct (y =? 13); by eexists. }
  destruct H2 as (e' & -> & H2). cbn [mbind result_bind]. revert H2. generalize (chop_newline s1) as s2.
  clear H1 s1. intros s2 H2. pose proof H2 as (_ & _ & _ & _ & He).
  unfold chop_checksum. destruct (Z.leb_spec (p' + 3) e') as [Hle|Hlt].
  - destruct (lookup_lt_is_Some_2 s2 (length s2 - 3)) as [x Hx]; [lia|]. rewrite Hx.
    rewrite (proj2 (Nat.leb_le 3 _)) by lia.
    replace (e' - 3) with (p' + Z.of_nat (length s2 - 3)) by lia.
    rewrite (range_peek _ _ _ _ _ _ H2 Hx). cbn [mbind result_bind andb].
    destruct (x =? 42); eexists _, _; (split; [reflexivity|]); [|done].
    apply (range_take mem p' e'); [done|lia].
  - cbn [mbind result_bind]. eexists _, _. split; [reflexivity|].
    destruct (s2 !! (length s2 - 3)%nat) as [x|]; [|done].
    by rewrite (proj2 (Nat.leb_gt 3 _)) by lia.
Qed.

(** The tokens of a sentence. *)
Lemma tokenizer_spec mem p e s :
  range_is mem p e s ->
  exists tokens, nmea_tokenizer_init mem p e = Ok tokens /\ Forall2 tok_is tokens (sentence_fields s).
Proof.
  intros H0. unfold nmea_tokenizer_init.
  destruct (trim_spec mem p e s H0) as (p' & e' & -> & H1). cbn [mbind result_bind].
  pose proof H1 as (_ & _ & _ & _ & He).
  destruct (token_loop_spec (body s) (Z.to_nat (e' - p')) mem p' e' [] [] H1) as (tokens & Ht & H2);
    [lia|constructor|]. by exists tokens.
Qed.

(** The text of a field; a missing one is empty. *)
Definition field (fs : list (list Z)) (i : nat) : list Z := default [] (fs !! i).

Lemma tokenizer_get_spec tokens fs i :
  Forall2 tok_is tokens fs -> tok_is (nmea_tokenizer_get tokens i) (field fs i).
Proof.
  intros H. unfold nmea_tokenizer_get, field. destruct (fs !! i) as [t|] eqn:Ef.
  - destruct (Forall2_lookup_r _ _ _ _ _ H Ef) as (tok & -> & Ht). done.
  - apply lookup_ge_None_1 in Ef. pose proof (Forall2_length _ _ _ H) as Hl.
    rewrite (lookup_ge_None_2 tokens) by lia. exists [], [0]. split_and!; try done.
    intros _. by exists [].
Qed.

(** ** What a sentence does to the reader *)

Section Texts.
Context {F : Type} {FD : Double F} {FG : GpsFlags}.
Context (long_bits : Z) (mktime : Z -> Z -> Z -> Z -> Z -> Z -> Z) (today : Z * Z * Z).
Abbreviation Reader := (NmeaReader (F := F)).

Definition is_digit (c : Z) : bool := (48 <=? c) && (c <=? 57).

(** A number, or -1 when a character is not a digit. *)
Definition int_of (s : list Z) : Z :=
  if forallb is_digit s then fold_left (fun n c => n * 10 + (c - 48)) s 0 else -1.

Definition float_of (s : list Z) : F :=
  if 16 <=? Z.of_nat (length s) then of_int 0 else strtod (default s (until_nul s)).

(** Degrees and minutes, as in [4807.038]. *)
Definition degrees_of (s : list Z) : F :=
  let val := float_of s in
  let degrees := to_int (fdiv (ffloor val) (of_int 100)) in
  fadd (of_int degrees) (fdiv (fsub val (fmul (of_int degrees) (of_int 100))) (of_int 60)).

Definition first_char (s : list Z) : Z := hd 0 s.

Definition time_text (t : list Z) (r : Reader) : Reader :=
  if (length t <? 6)%nat then r
  else
    let r := if utc_year r <? 0
             then set_date (today.1.1 + 1900) (today.1.2 + 1) today.2 r else r in
    let at_ := mktime (utc_year r - 1900) (utc_mon r - 1) (utc_day r) (int_of (take 2 t))
                 (int_of (take 2 (drop 2 t))) (to_int (float_of (drop 4 t))) in
    let f := r_fix r in
    set_fix (mkLocation (flags f) (latitude f) (longitude f) (altitude f) (speed f) (bearing f)
               (long long_bits (at_ + utc_diff r) * 1000)) r.

Definition date_text (d t : list Z) (r : Reader) : Reader :=
  if negb (length d =? 6)%nat then r
  else
    let day := int_of (take 2 d) in
    let mon := int_of (take 2 (drop 2 d)) in
    let year := int_of (drop 4 d) + 2000 in
    if Z.lor (Z.lor day mon) year <? 0 then r else time_text t (set_date year mon day r).

Definition latlong_text (lat ns lon ew : list Z) (r : Reader) : Reader :=
  if (length lat <? 6)%nat || (length lon <? 6)%nat then r
  else
    let f := r_fix r in
    set_fix (mkLocation (Z.lor (flags f) HAS_LAT_LONG)
      (if first_char ns =? 83 then fopp (degrees_of lat) else degrees_of lat)
      (if first_char ew =? 87 then fopp (degrees_of lon) else degrees_of lon)
      (altitude f) (speed f) (bearing f) (timestamp f)) r.

Definition altitude_text (t : list Z) (r : Reader) : Reader :=
  match t with
  | [] => r
  | _ => let f := r_fix r in
         set_fix (mkLocation (Z.lor (flags f) HAS_ALTITUDE) (latitude f) (longitude f) (float_of t)
           (speed f) (bearing f) (timestamp f)) r
  end.

Definition bearing_text (t : list Z) (r : Reader) : Reader :=
  match t with
  | [] => r
  | _ => let f := r_fix r in
         set_fix (mkLocation (Z.lor (flags f) HAS_BEARING) (latitude f) (longitude f) (altitude f)
           (speed f) (to_single (float_of t)) (timestamp f)) r
  end.

Definition speed_text (t : list Z) (r : Reader) : Reader :=
  match t with
  | [] => r
  | _ => let f := r_fix r in
         set_fix (mkLocation (Z.lor (flags f) HAS_SPEED) (latitude f) (longitude f) (altitude f)
           (to_single (float_of t)) (bearing f) (timestamp f)) r
  end.

Definition gga_fields (fs : list (list Z)) (r : Reader) : Reader :=
  altitude_text (field fs 9)
    (latlong_text (field fs 2) (field fs 3) (field fs 4) (field fs 5) (time_text (field fs 1) r)).

Definition rmc_fields (fs : list (list Z)) (r : Reader) : Reader :=
  if first_char (field fs 2) =? 65 then
    speed_text (field fs 7) (bearing_text (field fs 8)
      (latlong_text (field fs 3) (field fs 4) (field fs 5) (field fs 6)
         (date_text (field fs 9) (field fs 1) r)))
  else r.

(** A fix that has data goes to the callback, if there is one. *)
Definition send_fix (r : Reader) : Reader :=
  if negb (flags (r_fix r) =? 0)
  then match r_callback r with Some cb => hand_out cb r | None => r end
  else r.

Definition apply_sentence (s : list Z) (r : Reader) : Reader :=
  let fs := sentence_fields s in
  if (length s <? 9)%nat || (length (field fs 0) <? 5)%nat then r
  else
    let id := take 3 (drop 2 (field fs 0)) in
    send_fix (if bool_decide (id = bytes "GGA") then gga_fields fs r
              else if bool_decide (id = bytes "RMC") then rmc_fields fs r
              else r).

(** ** The operations on tokens do that *)

Lemma tok_range tok t : tok_is tok t -> range_is (tok_mem tok) (tok_p tok) (tok_end tok) t.
Proof. intros (pre & post & Hm & Hp & He & _). by exists pre, post. Qed.

Lemma range_sub mem p e s i n :
  range_is mem p e s -> (i + n <= length s)%nat ->
  range_is mem (p + Z.of_nat i) (p + Z.of_nat i + Z.of_nat n) (take n (drop i s)).
Proof.
  intros (pre & post & Hm & Hp & He) Hl.
  exists (pre ++ take i s), (drop n (drop i s) ++ post). split.
  - rewrite Hm, <-app_assoc, (app_assoc (take n _)), take_drop, (app_assoc (take i s)), take_drop. done.
  - split; len.
Qed.

Lemma range_block mem p e s : range_is mem p e s -> read_block mem p (e - p) = Ok s.
Proof. intros (pre & post & Hm & Hp & He). apply (block_in _ pre s post); [done|done|lia]. Qed.

Lemma str2int_two mem p e a b :
  range_is mem p e [a; b] -> str2int mem p e = Ok (int_of [a; b]).
Proof.
  intros Hr. pose proof Hr as (_ & _ & _ & _ & He). simpl in He.
  destruct (range_head _ _ _ _ _ Hr) as [Ha Hr1]. destruct (range_head _ _ _ _ _ Hr1) as [Hb _].
  unfold str2int. replace (Z.to_nat (e - p)) with 2%nat by lia.
  cbn [str2int_loop]. rewrite Ha. cbn [mbind result_bind]. unfold int_of. cbn [forallb].
  unfold is_digit. replace (a <=? 57) with (a - 48 <? 10) by lia.
  replace (48 <=? a) with (0 <=? a - 48) by lia.
  destruct ((0 <=? a - 48) && (a - 48 <? 10)) eqn:Ea; [|done]. rewrite Hb. cbn [mbind result_bind].
  replace (b <=? 57) with (b - 48 <? 10) by lia. replace (48 <=? b) with (0 <=? b - 48) by lia.
  destruct ((0 <=? b - 48) && (b - 48 <? 10)) eqn:Eb; [|done]. cbn [andb fold_left].
  f_equal. rewrite (s32_small (0 * 10 + _)) by lia. apply s32_small. lia.
Qed.

Lemma str2int_pair tok t i :
  tok_is tok t -> (i + 2 <= length t)%nat ->
  str2int (tok_mem tok) (tok_p tok + Z.of_nat i) (tok_p tok + Z.of_nat i + 2) =
  Ok (int_of (take 2 (drop i t))).
Proof.
  intros Ht Hl. pose proof (range_sub _ _ _ _ i 2 (tok_range _ _ Ht) Hl) as Hr.
  assert (H2 : length (take 2 (drop i t)) = 2%nat) by (rewrite length_take, length_drop; lia).
  destruct (take 2 (drop i t)) as [|a [|b [|c l]]]; [done|done| |done]. by apply str2int_two.
Qed.

Lemma str2float_range mem p e s : range_is mem p e s -> str2float mem p e = Ok (float_of s).
Proof.
  intros Hr. unfold str2float, float_of, TEMP_SIZE. pose proof (range_block _ _ _ _ Hr) as Hb.
  destruct Hr as (_ & _ & _ & _ & He). replace (e - p) with (Z.of_nat (length s)) in * by lia.
  destruct (16 <=? Z.of_nat (length s)); [done|]. by rewrite Hb.
Qed.

Lemma str2float_from tok t i :
  tok_is tok t -> (i <= length t)%nat ->
  str2float (tok_mem tok) (tok_p tok + Z.of_nat i) (tok_end tok) = Ok (float_of (drop i t)).
Proof.
  intros Ht Hl. apply str2float_range. pose proof (tok_range _ _ Ht) as Hr.
  pose proof (range_sub _ _ _ _ i (length t - i) Hr ltac:(lia)) as Hs.
  rewrite take_ge in Hs by len. destruct Hr as (_ & _ & _ & _ & He).
  replace (tok_end tok) with (tok_p tok + Z.of_nat i + Z.of_nat (length t - i)) by lia. done.
Qed.

Lemma tok_length tok t : tok_is tok t -> tok_end tok = tok_p tok + Z.of_nat (length t).
Proof. by intros (_ & _ & _ & _ & He & _). Qed.

Lemma tok_char_spec tok t : tok_is tok t -> tok_char tok = Ok (first_char t).
Proof.
  intros (pre & post & Hm & Hp & He & Hn). unfold tok_char. destruct t as [|c t].
  - destruct (Hn eq_refl) as [post' ->]. by apply (peek_in _ pre 0 post').
  - by apply (peek_in _ pre c (t ++ post)).
Qed.

Lemma update_time_spec tok t r :
  tok_is tok t ->
  exists ret, nmea_reader_update_time long_bits mktime today tok r = Ok (ret, time_text t r).
Proof.
  intros Ht. unfold nmea_reader_update_time, time_text. rewrite (tok_length _ _ Ht).
  destruct (Nat.ltb_spec (length t) 6) as [Hlt|Hge].
  { rewrite (proj2 (Z.ltb_lt _ _)) by lia. by eexists. }
  rewrite (proj2 (Z.ltb_ge _ _)) by lia. rewrite <-(tok_length _ _ Ht).
  pose proof (str2int_pair tok t 0 Ht ltac:(lia)) as H0.
  pose proof (str2int_pair tok t 2 Ht ltac:(lia)) as H2.
  pose proof (str2float_from tok t 4 Ht ltac:(lia)) as H4.
  rewrite Z.add_0_r in H0. change (Z.of_nat 2) with 2 in H2. change (Z.of_nat 4) with 4 in H4.
  replace (tok_p tok + 2 + 2) with (tok_p tok + 4) in H2 by lia.
  rewrite H0. cbn [mbind result_bind]. rewrite H2. cbn [mbind result_bind]. rewrite H4.
  cbn [mbind result_bind]. rewrite drop_0. destruct today as [[y m] d]. by eexists.
Qed.

Lemma update_date_spec dtok d ttok t r :
  tok_is dtok d -> tok_is ttok t ->
  exists ret, nmea_reader_update_date long_bits mktime today dtok ttok r = Ok (ret, date_text d t r).
Proof.
  intros Hd Ht. unfold nmea_reader_update_date, date_text. rewrite (tok_length _ _ Hd).
  destruct (Nat.eqb_spec (length d) 6) as [H6|Hn].
  2:{ rewrite (proj2 (Z.eqb_neq _ _)) by lia. by eexists. }
  rewrite (proj2 (Z.eqb_eq _ _)) by lia. cbn [negb].
  pose proof (str2int_pair dtok d 0 Hd ltac:(lia)) as H0.
  pose proof (str2int_pair dtok d 2 Hd ltac:(lia)) as H2.
  pose proof (str2int_pair dtok d 4 Hd ltac:(lia)) as H4.
  rewrite Z.add_0_r in H0. change (Z.of_nat 2) with 2 in H2. change (Z.of_nat 4) with 4 in H4.
  replace (tok_p dtok + 2 + 2) with (tok_p dtok + 4) in H2 by lia.
  replace (tok_p dtok + 4 + 2) with (tok_p dtok + 6) in H4 by lia.
  rewrite (take_ge (drop 4 d)) in H4 by len.
  rewrite H0. cbn [mbind result_bind]. rewrite H2. cbn [mbind result_bind]. rewrite H4.
  cbn [mbind result_bind]. rewrite drop_0.
  destruct (Z.lor _ _ <? 0); [by eexists|]. by apply update_time_spec.
Qed.

Lemma convert_spec tok t : tok_is tok t -> convert_from_hhmm tok = Ok (degrees_of t).
Proof.
  intros Ht. unfold convert_from_hhmm. by rewrite (str2float_range _ _ _ _ (tok_range _ _ Ht)).
Qed.

Lemma update_latlong_spec latk lat lonk lon ns ew r :
  tok_is latk lat -> tok_is lonk lon ->
  exists ret, nmea_reader_update_latlong latk (first_char ns) lonk (first_char ew) r =
    Ok (ret, latlong_text lat ns lon ew r).
Proof.
  intros Ha Ho. unfold nmea_reader_update_latlong, latlong_text.
  rewrite (tok_length _ _ Ha), (tok_length _ _ Ho).
  destruct (Nat.ltb_spec (length lat) 6) as [H1|H1].
  { rewrite (proj2 (Z.ltb_lt _ _)) by lia. by eexists. }
  rewrite (proj2 (Z.ltb_ge _ _)) by lia. rewrite (convert_spec _ _ Ha). cbn [mbind result_bind orb].
  destruct (Nat.ltb_spec (length lon) 6) as [H2|H2].
  { rewrite (proj2 (Z.ltb_lt _ _)) by lia. by eexists. }
  rewrite (proj2 (Z.ltb_ge _ _)) by lia. rewrite (convert_spec _ _ Ho). by eexists.
Qed.

Lemma update_optional_spec tok t (r : Reader) k k' :
  tok_is tok t -> (forall v, k v = Ok (0, k' v)) ->
  exists ret,
    (if tok_end tok <=? tok_p tok then Ok (-1, r)
     else v ← str2float (tok_mem tok) (tok_p tok) (tok_end tok); k v) =
    Ok (ret, match t with [] => r | _ => k' (float_of t) end).
Proof.
  intros Ht Hk. rewrite (str2float_range _ _ _ _ (tok_range _ _ Ht)), (tok_length _ _ Ht).
  destruct t as [|c t].
  - rewrite (proj2 (Z.leb_le _ _)) by (simpl; lia). by eexists.
  - rewrite (proj2 (Z.leb_gt _ _)) by (simpl; lia). cbn [mbind result_bind]. rewrite Hk. by eexists.
Qed.

Lemma update_altitude_spec tok t r :
  tok_is tok t -> exists ret, nmea_reader_update_altitude tok r = Ok (ret, altitude_text t r).
Proof.
  intros Ht. exact (update_optional_spec tok t r _ (fun v => set_fix (mkLocation (Z.lor (flags (r_fix r)) HAS_ALTITUDE) (latitude (r_fix r))
  (longitude (r_fix r)) v (speed (r_fix r)) (bearing (r_fix r)) (timestamp (r_fix r))) r) Ht
    (fun v => eq_refl)).
Qed.

Lemma update_bearing_spec tok t r :
  tok_is tok t -> exists ret, nmea_reader_update_bearing tok r = Ok (ret, bearing_text t r).
Proof.
  intros Ht. exact (update_optional_spec tok t r _ (fun v => set_fix (mkLocation (Z.lor (flags (r_fix r)) HAS_BEARING) (latitude (r_fix r))
  (longitude (r_fix r)) (altitude (r_fix r)) (speed (r_fix r)) (to_single v) (timestamp (r_fix r))) r) Ht
    (fun v => eq_refl)).
Qed.

Lemma update_speed_spec tok t r :
  tok_is tok t -> exists ret, nmea_reader_update_speed tok r = Ok (ret, speed_text t r).
Proof.
  intros Ht. exact (update_optional_spec tok t r _ (fun v => set_fix (mkLocation (Z.lor (flags (r_fix r)) HAS_SPEED) (latitude (r_fix r))
  (longitude (r_fix r)) (altitude (r_fix r)) (to_single v) (bearing (r_fix r)) (timestamp (r_fix r))) r) Ht
    (fun v => eq_refl)).
Qed.

Section Tokens.
Context (tokens : list Token) (fs : list (list Z)) (Htok : Forall2 tok_is tokens fs).

Lemma get_is i : tok_is (nmea_tokenizer_get tokens i) (field fs i).
Proof using Htok. by apply tokenizer_get_spec. Qed.

Lemma parse_gga_spec r : parse_gga long_bits mktime today tokens r = Ok (gga_fields fs r).
Proof using Htok.
  unfold parse_gga, gga_fields.
  destruct (update_time_spec _ _ r (get_is 1)) as [? ->]. cbn [mbind result_bind].
  rewrite (tok_char_spec _ _ (get_is 3)). cbn [mbind result_bind].
  rewrite (tok_char_spec _ _ (get_is 5)). cbn [mbind result_bind].
  destruct (update_latlong_spec _ _ _ _ (field fs 3) (field fs 5)
    (time_text (field fs 1) r) (get_is 2) (get_is 4)) as [? ->].
  cbn [mbind result_bind].
  match goal with |- context [nmea_reader_update_altitude _ ?s] =>
    destruct (update_altitude_spec _ _ s (get_is 9)) as [? ->] end. done.
Qed.

Lemma parse_rmc_spec r : parse_rmc long_bits mktime today tokens r = Ok (rmc_fields fs r).
Proof using Htok.
  unfold parse_rmc, rmc_fields. rewrite (tok_char_spec _ _ (get_is 2)). cbn [mbind result_bind].
  destruct (first_char (field fs 2) =? 65); [|done].
  destruct (update_date_spec _ _ _ _ r (get_is 9) (get_is 1)) as [? ->]. cbn [mbind result_bind].
  rewrite (tok_char_spec _ _ (get_is 4)). cbn [mbind result_bind].
  rewrite (tok_char_spec _ _ (get_is 6)). cbn [mbind result_bind].
  destruct (update_latlong_spec _ _ _ _ (field fs 4) (field fs 6)
    (date_text (field fs 9) (field fs 1) r) (get_is 3) (get_is 5)) as [? ->].
  cbn [mbind result_bind].
  match goal with |- context [nmea_reader_update_bearing _ ?s] =>
    destruct (update_bearing_spec _ _ s (get_is 8)) as [? ->] end. cbn [mbind result_bind].
  match goal with |- context [nmea_reader_update_speed _ ?s] =>
    destruct (update_speed_spec _ _ s (get_is 7)) as [? ->] end. done.
Qed.
End Tokens.

(** A sentence in the buffer does what its text says. *)
Lemma parse_spec s junk r :
  r_in r = s ++ junk -> r_pos r = Z.of_nat (length s) ->
  nmea_reader_parse long_bits mktime today r = Ok (apply_sentence s r).
Proof.
  intros Hin Hpos. unfold nmea_reader_parse, apply_sentence. rewrite Hpos.
  destruct (Nat.ltb_spec (length s) 9) as [H9|H9].
  { by rewrite (proj2 (Z.ltb_lt _ _)) by lia. }
  rewrite (proj2 (Z.ltb_ge _ _)) by lia.
  destruct (tokenizer_spec (r_in r) 0 (Z.of_nat (length s)) s) as (tokens & -> & Htok).
  { exists [], junk. by split_and!. }
  cbn [mbind result_bind]. pose proof (tokenizer_get_spec _ _ 0 Htok) as H0.
  rewrite (tok_length _ _ H0). cbn [orb].
  destruct (Nat.ltb_spec (length (field (sentence_fields s) 0)) 5) as [H5|H5].
  { by rewrite (proj2 (Z.ltb_lt _ _)) by lia. }
  rewrite (proj2 (Z.ltb_ge _ _)) by lia.
  pose proof (range_block _ _ _ _ (range_sub _ _ _ _ 2 3 (tok_range _ _ H0) ltac:(lia))) as Hid.
  replace (_ + Z.of_nat 2 + Z.of_nat 3 - (_ + Z.of_nat 2)) with 3 in Hid by lia.
  change (Z.of_nat 2) with 2 in Hid. rewrite Hid. cbn [mbind result_bind]. unfold send_fix.
  case_bool_decide as EG; [by rewrite (parse_gga_spec _ _ Htok)|].
  case_bool_decide as ES; [by rewrite bool_decide_eq_false_2 by (rewrite ES; discriminate)|].
  case_bool_decide as ER; [by rewrite (parse_rmc_spec _ _ Htok)|done].
Qed.

(** ** A stream of characters *)

Definition feed (r : Reader) (cs : list Z) : result Reader :=
  foldM (nmea_reader_addc long_bits mktime today) r cs.

(** The lines of a stream, without their newline; an unfinished one is left out. *)
Fixpoint complete_from (cur s : list Z) : list (list Z) :=
  match s with
  | [] => []
  | c :: s => if c =? 10 then cur :: complete_from [] s else complete_from (cur ++ [c]) s
  end.

Definition complete_lines (s : list Z) : list (list Z) := complete_from [] s.

(** The sentences that reach the parser.  A line that does not fit is dropped;
    one that fits but for its newline takes the next line with it ([skip]). *)
Fixpoint accepted (skip : bool) (lines : list (list Z)) : list (list Z) :=
  match lines with
  | [] => []
  | l :: lines =>
      if skip then accepted false lines
      else if (length l <? NMEA_MAX_SIZE)%nat then (l ++ [10]) :: accepted false lines
      else accepted (length l =? NMEA_MAX_SIZE)%nat lines
  end.

(** The reader but for the characters it collects. *)
Definition core (r : Reader) : Reader := set_input 0 false [] r.

(** Between two lines. *)
Definition between (skip : bool) (r : Reader) : Prop :=
  r_pos r = 0 /\ r_overflow r = skip /\ length (r_in r) = S NMEA_MAX_SIZE.

Lemma core_set_input p o i r : core (set_input p o i r) = core r.
Proof. done. Qed.

Lemma set_input_self (r : Reader) : set_input (r_pos r) (r_overflow r) (r_in r) r = r.
Proof. by destruct r. Qed.

(** A sentence does not depend on, or change, what is being collected. *)
Section Input.
Context (p : Z) (o : bool) (i : list Z).
Abbreviation put := (set_input (F := F) p o i).

Lemma time_text_input t r : time_text t (put r) = put (time_text t r).
Proof. unfold time_text. destruct (length t <? 6)%nat; [done|]. simpl. by destruct (utc_year r <? 0). Qed.

Lemma date_text_input d t r : date_text d t (put r) = put (date_text d t r).
Proof.
  unfold date_text. destruct (negb _); [done|]. destruct (Z.lor _ _ <? 0); [done|]. by rewrite <-time_text_input.
Qed.

Lemma latlong_text_input lat ns lon ew r :
  latlong_text lat ns lon ew (put r) = put (latlong_text lat ns lon ew r).
Proof. unfold latlong_text. by destruct (_ || _). Qed.

Lemma altitude_text_input t r : altitude_text t (put r) = put (altitude_text t r).
Proof. by destruct t. Qed.

Lemma bearing_text_input t r : bearing_text t (put r) = put (bearing_text t r).
Proof. by destruct t. Qed.

Lemma speed_text_input t r : speed_text t (put r) = put (speed_text t r).
Proof. by destruct t. Qed.

Lemma send_fix_input r : send_fix (put r) = put (send_fix r).
Proof. unfold send_fix. simpl. destruct (negb _); [|done]. by destruct (r_callback r). Qed.

Lemma apply_sentence_input s r : apply_sentence s (put r) = put (apply_sentence s r).
Proof.
  unfold apply_sentence. destruct (_ || _); [done|].
  case_bool_decide; [|case_bool_decide; [|apply send_fix_input]]; rewrite <-send_fix_input; f_equal.
  - unfold gga_fields. by rewrite time_text_input, latlong_text_input, altitude_text_input.
  - unfold rmc_fields. destruct (_ =? 65); [|done].
    by rewrite date_text_input, latlong_text_input, bearing_text_input, speed_text_input.
Qed.
End Input.

Lemma addc_store (r : Reader) (c : Z) (cur b : list Z) :
  r_overflow r = false -> r_pos r = Z.of_nat (length cur) -> length (r_in r) = S NMEA_MAX_SIZE ->
  (length cur < NMEA_MAX_SIZE)%nat -> write_block (r_in r) (Z.of_nat (length cur)) [c] = Ok b ->
  nmea_reader_addc long_bits mktime today r c =
    let r1 := set_input (Z.of_nat (length cur) + 1) false b r in
    if c =? 10 then
      r ← nmea_reader_parse long_bits mktime today r1; Ok (set_input 0 (r_overflow r) (r_in r) r)
    else Ok r1.
Proof.
  intros Ho Hp Hl Hlen Hw. unfold nmea_reader_addc. rewrite Ho, Hl, Hp.
  rewrite (proj2 (Z.leb_gt _ _)) by lia. unfold poke. by rewrite Hw.
Qed.

Lemma store_fits (r : Reader) (c : Z) (cur : list Z) :
  length (r_in r) = S NMEA_MAX_SIZE -> (length cur < NMEA_MAX_SIZE)%nat ->
  take (length cur) (r_in r) = cur ->
  exists b, write_block (r_in r) (Z.of_nat (length cur)) [c] = Ok b /\
    length b = S NMEA_MAX_SIZE /\ take (length (cur ++ [c])) b = cur ++ [c].
Proof.
  intros Hl Hlen Ht.
  destruct (write_block (r_in r) (Z.of_nat (length cur)) [c]) as [b|e] eqn:Ew;
    [|rewrite write_block_ok in Ew by (simpl; lia); done].
  exists b. split; [done|]. split; [by rewrite (write_block_length _ _ _ _ Ew)|].
  pose proof (write_block_take _ _ _ _ Ew) as Hb. rewrite Nat2Z.id, Ht in Hb. by rewrite length_app.
Qed.

Lemma feed_cons r c cs :
  feed r (c :: cs) = (r' ← nmea_reader_addc long_bits mktime today r c; feed r' cs).
Proof. done. Qed.

Lemma feed_app r a b : feed r (a ++ b) = (r' ← feed r a; feed r' b).
Proof. apply foldM_app. Qed.

Definition next_skip (skip : bool) (l : list Z) : bool :=
  if skip then false else (length l =? NMEA_MAX_SIZE)%nat.

Definition line_sentences (skip : bool) (l : list Z) : list (list Z) :=
  if skip then [] else if (length l <? NMEA_MAX_SIZE)%nat then [l ++ [10]] else [].

(** A newline after characters that were collected. *)
Lemma addc_newline r cur :
  r_overflow r = false -> r_pos r = Z.of_nat (length cur) -> take (length cur) (r_in r) = cur ->
  length (r_in r) = S NMEA_MAX_SIZE -> (length cur <= NMEA_MAX_SIZE)%nat ->
  exists r', nmea_reader_addc long_bits mktime today r 10 = Ok r' /\
    between (length cur =? NMEA_MAX_SIZE)%nat r' /\
    core r' = if (length cur <? NMEA_MAX_SIZE)%nat then apply_sentence (cur ++ [10]) (core r) else core r.
Proof.
  intros Ho Hp Ht Hl Hlen.
  destruct (Nat.eqb_spec (length cur) NMEA_MAX_SIZE) as [E|E].
  { unfold nmea_reader_addc. rewrite Ho, Hl, Hp. rewrite (proj2 (Z.leb_le _ _)) by lia.
    rewrite (proj2 (Nat.ltb_ge _ _)) by lia. eexists. split; [reflexivity|]. by split. }
  rewrite (proj2 (Nat.ltb_lt _ _)) by lia.
  destruct (store_fits r 10 cur Hl ltac:(lia) Ht) as (b & Hw & Hbl & Hbt).
  rewrite (addc_store r 10 cur b) by (done || lia). rewrite Z.eqb_refl. cbv zeta.
  rewrite (parse_spec (cur ++ [10]) (drop (length (cur ++ [10])) b));
    [|simpl; rewrite <-Hbt at 1; by rewrite take_drop|simpl; len].
  cbn [mbind result_bind]. rewrite apply_sentence_input.
  eexists. split; [reflexivity|]. split; [by split|].
  rewrite !core_set_input. unfold core at 2. by rewrite apply_sentence_input.
Qed.

Definition apply_sentences (ss : list (list Z)) (r : Reader) : Reader :=
  fold_left (fun r s => apply_sentence s r) ss r.

(** What the buffer holds in the middle of a line. *)
Definition collects (skip : bool) (l : list Z) (r : Reader) : Prop :=
  lacks 10 l /\ length (r_in r) = S NMEA_MAX_SIZE /\
  (if skip then r_overflow r = true /\ r_pos r = 0
   else if (length l <=? NMEA_MAX_SIZE)%nat
   then r_overflow r = false /\ r_pos r = Z.of_nat (length l) /\ take (length l) (r_in r) = l
   else r_overflow r = true /\ r_pos r = 0).

(** A character that is dropped. *)
Lemma addc_dropped (r : Reader) c :
  r_overflow r = true ->
  nmea_reader_addc long_bits mktime today r c = Ok (set_input (r_pos r) (negb (c =? 10)) (r_in r) r).
Proof. intros Ho. unfold nmea_reader_addc. by rewrite Ho. Qed.

Lemma addc_full (r : Reader) c :
  r_overflow r = false -> length (r_in r) = S NMEA_MAX_SIZE -> r_pos r = Z.of_nat NMEA_MAX_SIZE ->
  nmea_reader_addc long_bits mktime today r c = Ok (set_input 0 true (r_in r) r).
Proof.
  intros Ho Hl Hp. unfold nmea_reader_addc. rewrite Ho, Hl, Hp.
  by rewrite (proj2 (Z.leb_le _ _)) by lia.
Qed.

(** One character. *)
Lemma addc_char r c skip l :
  collects skip l r -> c <> 10 ->
  exists r', nmea_reader_addc long_bits mktime today r c = Ok r' /\ collects skip (l ++ [c]) r' /\
    core r' = core r.
Proof.
  intros (Hl & Hn & Hr) Hc.
  assert (Hl' : lacks 10 (l ++ [c])) by (apply Forall_app; split; [done|by repeat constructor]).
  assert (Hdrop : r_overflow r = true /\ r_pos r = 0 ->
    exists r', nmea_reader_addc long_bits mktime today r c = Ok r' /\ core r' = core r /\
      length (r_in r') = S NMEA_MAX_SIZE /\ r_overflow r' = true /\ r_pos r' = 0).
  { intros [Ho Hp]. rewrite addc_dropped, (proj2 (Z.eqb_neq c 10) Hc) by done. by eexists. }
  unfold collects. rewrite length_app. cbn [length]. destruct skip.
  { destruct (Hdrop Hr) as (r' & ? & ? & ? & ? & ?). by exists r'. }
  destruct (Nat.leb_spec (length l) NMEA_MAX_SIZE) as [Hfit|Hlong].
  2:{ destruct (Hdrop Hr) as (r' & ? & ? & ? & ? & ?). exists r'.
      by rewrite (proj2 (Nat.leb_gt (length l + 1) _)) by lia. }
  destruct Hr as (Ho & Hp & Ht). destruct (Nat.eq_dec (length l) NMEA_MAX_SIZE) as [Efull|Hroom].
  - rewrite addc_full by congruence. rewrite (proj2 (Nat.leb_gt (length l + 1) _)) by lia. by eexists.
  - rewrite (proj2 (Nat.leb_le (length l + 1) _)) by lia.
    destruct (store_fits r c l Hn ltac:(lia) Ht) as (b & Hw & Hbl & Hbt).
    rewrite (addc_store r c l b) by (done || lia). cbv zeta.
    rewrite (proj2 (Z.eqb_neq c 10) Hc). eexists. split; [reflexivity|].
    rewrite length_app in Hbt. cbn [length] in Hbt. rewrite core_set_input. split_and!; try done.
    cbn [r_pos set_input]. lia.
Qed.

Lemma addc_line_end r skip l :
  collects skip l r ->
  exists r', nmea_reader_addc long_bits mktime today r 10 = Ok r' /\ between (next_skip skip l) r' /\
    core r' = apply_sentences (line_sentences skip l) (core r).
Proof.
  intros (Hl & Hn & Hr).
  assert (Hdrop : r_overflow r = true /\ r_pos r = 0 ->
    exists r', nmea_reader_addc long_bits mktime today r 10 = Ok r' /\ between false r' /\
      core r' = core r).
  { intros [Ho Hp]. rewrite addc_dropped by done. eexists. split; [reflexivity|].
    split; [by split|]. by rewrite core_set_input. }
  unfold next_skip, line_sentences. destruct skip; [by apply Hdrop|].
  destruct (Nat.leb_spec (length l) NMEA_MAX_SIZE) as [Hfit|Hlong].
  - destruct Hr as (Ho & Hp & Ht).
    destruct (addc_newline r l Ho Hp Ht Hn Hfit) as (r' & -> & Hb & Hc).
    exists r'. split; [done|]. split; [done|]. rewrite Hc. by destruct (_ <? _)%nat.
  - rewrite (proj2 (Nat.ltb_ge _ _)) by lia. rewrite (proj2 (Nat.eqb_neq _ _)) by lia. by apply Hdrop.
Qed.

Lemma between_collects skip (r : Reader) : between skip r -> collects skip [] r.
Proof.
  intros (Hp & Ho & Hn). split; [constructor|]. split; [done|]. destruct skip; by split_and!.
Qed.
(** The characters of a line that is not finished. *)
Lemma feed_partial skip r cur l :
  lacks 10 l -> collects skip cur r ->
  exists r', feed r l = Ok r' /\ core r' = core r /\ collects skip (cur ++ l) r'.
Proof.
  intros Hl. revert r cur. induction Hl as [|c l Hc _ IH]; intros r cur Hr.
  - exists r. by rewrite app_nil_r.
  - destruct (addc_char r c skip cur Hr Hc) as (r1 & Ha & Hr1 & Hc1).
    rewrite feed_cons, Ha. cbn [mbind result_bind].
    destruct (IH r1 (cur ++ [c]) Hr1) as (r' & Hf & Hc' & Hr'). exists r'.
    split; [done|]. split; [congruence|]. by rewrite <-app_assoc in Hr'.
Qed.

(** A whole line. *)
Lemma feed_line skip r l :
  lacks 10 l -> between skip r -> exists r', feed r (l ++ [10]) = Ok r' /\
    between (next_skip skip l) r' /\ core r' = apply_sentences (line_sentences skip l) (core r).
Proof.
  intros Hl Hb%between_collects. destruct (feed_partial skip r [] l Hl Hb) as (r1 & Hf & Hc & Hr1).
  rewrite feed_app, Hf. cbn [mbind result_bind]. unfold feed. rewrite foldM_one, <-Hc.
  by apply addc_line_end.
Qed.

Lemma accepted_cons skip l lines :
  accepted skip (l :: lines) = line_sentences skip l ++ accepted (next_skip skip l) lines.
Proof.
  unfold line_sentences, next_skip. cbn [accepted]. destruct skip; [done|].
  destruct (Nat.ltb_spec (length l) NMEA_MAX_SIZE); [|done].
  by rewrite (proj2 (Nat.eqb_neq _ _)) by lia.
Qed.

Lemma complete_lines_line l s : lacks 10 l -> complete_lines (l ++ 10 :: s) = l :: complete_lines s.
Proof.
  intros H. unfold complete_lines. enough (G : forall cur, complete_from cur (l ++ 10 :: s) =
    (cur ++ l) :: complete_from [] s) by exact (G []).
  induction H as [|c l Hc _ IH]; intros cur; [by rewrite app_nil_r|].
  cbn [app complete_from]. rewrite (proj2 (Z.eqb_neq c 10) Hc), IH. by rewrite <-app_assoc.
Qed.

Lemma complete_lines_none l : lacks 10 l -> complete_lines l = [].
Proof.
  intros H. unfold complete_lines. generalize (@nil Z). induction H as [|c l Hc _ IH]; intros cur; [done|].
  cbn [complete_from]. by rewrite (proj2 (Z.eqb_neq c 10) Hc).
Qed.

Lemma feed_stream s : forall skip r, between skip r ->
  exists r', feed r s = Ok r' /\
    core r' = apply_sentences (accepted skip (complete_lines s)) (core r).
Proof.
  induction s as [|s Hne Hs|l s Hl IH] using (cut_ind 10); intros skip r Hb.
  - by exists r.
  - rewrite complete_lines_none by done.
    destruct (feed_partial skip r [] s Hs (between_collects _ _ Hb)) as (r' & Hf & Hc & _). by exists r'.
  - rewrite complete_lines_line, accepted_cons by done.
    replace (l ++ 10 :: s) with ((l ++ [10]) ++ s) by same_list. rewrite feed_app.
    destruct (feed_line skip r l Hl Hb) as (r1 & -> & Hb1 & Hc1). cbn [mbind result_bind].
    destruct (IH _ r1 Hb1) as (r' & Hf & Hc). exists r'. split; [done|].
    unfold apply_sentences in *. rewrite fold_left_app, Hc, Hc1. done.
Qed.

(** C27 Whatever characters come from the channel, in pieces of any size, the
    reader never leaves its buffer; the state it reaches and the fixes it hands
    out are those of the accepted sentences, in their order, each applied to
    the fields of its text.  The accepted sentences are the lines of at most 83
    characters with their newline, but for the line after one of exactly 83
    characters without it. *)
Theorem nmea_stream_sentences r pieces :
  between false r ->
  exists r', foldM feed r pieces = Ok r' /\
    core r' = apply_sentences (accepted false (complete_lines (concat pieces))) (core r).
Proof.
  intros Hb. destruct (feed_stream (concat pieces) false r Hb) as (r' & Hf & Hc).
  exists r'. split; [|done]. unfold feed in *. by rewrite foldM_concat.
Qed.

(** ** Well-formed sentences *)

(** A sentence with these fields and these two characters of checksum. *)
Definition nmea (fs : list (list Z)) (cs : list Z) : list Z :=
  [36] ++ commas fs ++ [42] ++ cs ++ [13].

Definition field_ok (f : list Z) : Prop := f <> [] /\ lacks 44 f /\ lacks 10 f.

Lemma commas_lacks c fs : c <> 44 -> Forall (lacks c) fs -> lacks c (commas fs).
Proof.
  intros Hc. induction 1 as [|f fs Hf _ IH]; [constructor|]. destruct fs as [|g fs]; [done|].
  apply Forall_app. split; [done|]. constructor; [done|exact IH].
Qed.

Lemma fields_commas fs : Forall field_ok fs -> fs <> [] -> fields (commas fs) = fs.
Proof.
  induction 1 as [|f fs (Hf & Hc & _) _ IH]; [done|]. intros _. destruct fs as [|g fs].
  - cbn [commas]. rewrite fields_last by done. by destruct f.
  - change (commas (f :: g :: fs)) with (f ++ 44 :: commas (g :: fs)).
    rewrite fields_comma, IH by done. by destruct f.
Qed.

Lemma nmea_body fs cs : length cs = 2%nat -> body (nmea fs cs ++ [10]) = commas fs.
Proof.
  intros Hcs. destruct cs as [|c1 [|c2 [|? ?]]]; try done. unfold body, nmea.
  cbn [app chop_dollar]. change (36 =? 36) with true. cbv iota.
  unfold chop_newline. rewrite last_snoc, removelast_last. change (10 =? 10) with true. cbv iota.
  replace (commas fs ++ [42; c1; c2; 13]) with ((commas fs ++ [42; c1; c2]) ++ [13]) by same_list.
  unfold chop_last. rewrite last_snoc, removelast_last. change (13 =? 13) with true. cbv iota.
  unfold chop_checksum. rewrite length_app. cbn [length].
  replace (length (commas fs) + 3 - 3)%nat with (length (commas fs)) by lia.
  rewrite lookup_app_r, Nat.sub_diag by lia. change ([42; c1; c2] !! 0%nat) with (Some 42). cbv iota.
  rewrite (proj2 (Nat.leb_le 3 _)) by lia. change (42 =? 42) with true. cbn [andb].
  apply take_app_length.
Qed.

Lemma nmea_fields fs cs :
  length cs = 2%nat -> Forall field_ok fs -> fs <> [] ->
  sentence_fields (nmea fs cs ++ [10]) = take 16 fs.
Proof. intros. unfold sentence_fields. by rewrite nmea_body, fields_commas. Qed.

(** A sentence of the usual length is accepted. *)
Lemma feed_nmea r fs cs :
  between false r -> length cs = 2%nat -> lacks 10 cs -> Forall field_ok fs -> fs <> [] ->
  (length (nmea fs cs) < NMEA_MAX_SIZE)%nat ->
  exists r', feed r (nmea fs cs ++ [10]) = Ok r' /\ core r' = apply_sentence (nmea fs cs ++ [10]) (core r).
Proof.
  intros Hb Hcs Hcs10 Hfs Hne Hlen.
  assert (Hl : lacks 10 (nmea fs cs)).
  { unfold nmea, lacks. rewrite !Forall_app. split_and!; [by repeat constructor| |by repeat constructor|done|by repeat constructor].
    apply commas_lacks; [done|]. eapply Forall_impl; [exact Hfs|]. by intros f (_ & _ & ?). }
  destruct (feed_line false r (nmea fs cs) Hl Hb) as (r' & Hf & _ & Hc). exists r'. split; [done|].
  rewrite Hc. unfold line_sentences. by rewrite (proj2 (Nat.ltb_lt _ _)) by done.
Qed.

(** The date of a reader, or today. *)
Definition date_of (r : Reader) : Z * Z * Z :=
  if utc_year r <? 0 then (today.1.1 + 1900, today.1.2 + 1, today.2) else (utc_year r, utc_mon r, utc_day r).

(** Milliseconds of a time of day on a date. *)
Definition stamp_of (date : Z * Z * Z) (time : list Z) (diff : Z) : Z :=
  long long_bits (mktime (date.1.1 - 1900) (date.1.2 - 1) date.2 (int_of (take 2 time))
    (int_of (take 2 (drop 2 time))) (to_int (float_of (drop 4 time))) + diff) * 1000.

Definition signed (c negative : Z) (v : F) : F := if c =? negative then fopp v else v.

Lemma time_text_fix t (r : Reader) :
  (6 <= length t)%nat ->
  r_fix (time_text t r) = mkLocation (flags (r_fix r)) (latitude (r_fix r)) (longitude (r_fix r))
    (altitude (r_fix r)) (speed (r_fix r)) (bearing (r_fix r)) (stamp_of (date_of r) t (utc_diff r)) /\
  r_callback (time_text t r) = r_callback r /\ r_sent (time_text t r) = r_sent r.
Proof.
  intros Ht. unfold time_text, date_of. rewrite (proj2 (Nat.ltb_ge _ _)) by lia.
  destruct (utc_year r <? 0); by split_and!.
Qed.

Lemma apply_gga s (r : Reader) fs sid :
  sentence_fields s = fs -> (9 <= length s)%nat -> field fs 0 = sid -> length sid = 5%nat /\ drop 2 sid = bytes "GGA" ->
  apply_sentence s r = send_fix (gga_fields fs r).
Proof.
  intros <- Hs <- [Hl Hd]. unfold apply_sentence. rewrite (proj2 (Nat.ltb_ge _ 9)) by lia.
  rewrite Hl. change (5 <? 5)%nat with false. cbn [orb].
  rewrite bool_decide_eq_true_2; [done|]. rewrite take_ge by (rewrite length_drop; lia). done.
Qed.

(** A GGA sentence with a time, a position and an altitude that comes to a
    reader between two lines makes exactly one call of the callback, with the
    position in degrees (negative in the south and in the west), the altitude,
    the time on the known date (or today), and what was known before of speed
    and bearing. *)
Theorem gga_sentence_fix r cb sid time lat ns lon ew quality sats hdop alt rest cs :
  let fs := [sid; time; lat; ns; lon; ew; quality; sats; hdop; alt] ++ rest in
  between false r -> r_callback r = Some cb -> HAS_LAT_LONG <> 0 ->
  Forall field_ok fs -> length cs = 2%nat -> lacks 10 cs ->
  (length (nmea fs cs) < NMEA_MAX_SIZE)%nat ->
  length sid = 5%nat -> drop 2 sid = bytes "GGA" ->
  (6 <= length time)%nat -> (6 <= length lat)%nat -> (6 <= length lon)%nat ->
  exists r', feed r (nmea fs cs ++ [10]) = Ok r' /\
    r_sent r' = r_sent r ++
      [(cb, mkLocation (Z.lor (Z.lor (flags (r_fix r)) HAS_LAT_LONG) HAS_ALTITUDE)
         (signed (first_char ns) 83 (degrees_of lat)) (signed (first_char ew) 87 (degrees_of lon))
         (float_of alt) (speed (r_fix r)) (bearing (r_fix r)) (stamp_of (date_of r) time (utc_diff r)))] /\
    flags (r_fix r') = 0.
Proof.
  intros fs Hb Hcb Hflag Hfs Hcs Hcs10 Hlen Hid Hgga Htime Hlat Hlon.
  destruct (feed_nmea r fs cs Hb Hcs Hcs10 Hfs ltac:(done) Hlen) as (r' & Hf & Hc).
  exists r'. split; [done|].
  change (r_sent r') with (r_sent (core r')). change (r_fix r') with (r_fix (core r')). rewrite Hc.
  rewrite (apply_gga _ _ (take 16 fs) sid);
    [|by apply nmea_fields|unfold nmea, fs; cbn [commas app]; len|done|by split].
  unfold gga_fields. change (field (take 16 fs) 9) with alt. change (field (take 16 fs) 1) with time.
  change (field (take 16 fs) 2) with lat. change (field (take 16 fs) 3) with ns.
  change (field (take 16 fs) 4) with lon. change (field (take 16 fs) 5) with ew.
  destruct (time_text_fix time (core r) Htime) as (Efix & Ecb & Esent).
  assert (Ht : altitude_text alt (latlong_text lat ns lon ew (time_text time (core r))) =
    set_fix (mkLocation (Z.lor (Z.lor (flags (r_fix r)) HAS_LAT_LONG) HAS_ALTITUDE)
         (signed (first_char ns) 83 (degrees_of lat)) (signed (first_char ew) 87 (degrees_of lon))
         (float_of alt) (speed (r_fix r)) (bearing (r_fix r)) (stamp_of (date_of r) time (utc_diff r)))
      (time_text time (core r))).
  { assert (Halt : alt <> []) by (apply (Forall_lookup_1 _ _ 9 alt) in Hfs; [apply Hfs|done]).
    unfold latlong_text. rewrite !(proj2 (Nat.ltb_ge _ 6)) by lia. cbn [orb]. cbv zeta. rewrite Efix.
    unfold altitude_text. destruct alt; done. }
  rewrite Ht. unfold send_fix. cbn [r_fix set_fix flags r_callback]. rewrite Ecb.
  assert (Hnz : Z.lor (Z.lor (flags (r_fix r)) HAS_LAT_LONG) HAS_ALTITUDE <> 0)
    by (intros [[_ E]%Z.lor_eq_0_iff _]%Z.lor_eq_0_iff; done).
  rewrite (proj2 (Z.eqb_neq _ 0) Hnz). cbn [negb]. cbn [core set_input r_callback]. rewrite Hcb.
  cbn [hand_out r_sent r_fix set_fix with_flags flags]. rewrite Esent. done.
Qed.
End Texts.

(** ** A concrete machine

    Rational numbers for [double], a proleptic Gregorian calendar in UTC for
    [mktime], the bits of the GPS interface of Android. *)
Module Concrete.
Import QArith.
Local Open Scope Z_scope.

Definition digits_value (s : list Z) : Z := fold_left (fun n c => n * 10 + (c - 48)) s 0.

Fixpoint leading_digits (s : list Z) : list Z :=
  match s with c :: s => if is_digit c then c :: leading_digits s else [] | [] => [] end.

(** Digits, a point, digits. *)
Definition decimal (s : list Z) : Q :=
  let whole := leading_digits s in
  let frac := match drop (length whole) s with
              | c :: t => if c =? 46 then leading_digits t else []
              | [] => []
              end in
  Qred (Qmake (digits_value (whole ++ frac)) (Z.to_pos (10 ^ Z.of_nat (length frac)))).

#[export] Instance rational : Double Q := {|
  strtod := decimal;
  of_int := inject_Z;
  to_int q := Z.quot (Qnum q) (Zpos (Qden q));
  fopp q := Qred (Qopp q);
  fadd p q := Qred (Qplus p q);
  fsub p q := Qred (Qminus p q);
  fmul p q := Qred (Qmult p q);
  fdiv p q := Qred (Qdiv p q);
  ffloor q := inject_Z (Qnum q / Zpos (Qden q));
  to_single q := q
|}.

#[export] Instance android_flags : GpsFlags := {|
  HAS_LAT_LONG := 1; HAS_ALTITUDE := 2; HAS_SPEED := 4; HAS_BEARING := 8
|}.

Definition utc (year mon day hour min sec : Z) : Z :=
  let m := mon + 1 in
  let y := year + 1900 - (if m <=? 2 then 1 else 0) in
  let yoe := y mod 400 in
  let doy := (153 * (if 2 <? m then m - 3 else m + 9) + 2) / 5 + day - 1 in
  let days := y / 400 * 146097 + yoe * 365 + yoe / 4 - yoe / 100 + doy - 719468 in
  sec + 60 * (min + 60 * (hour + 24 * days)).

(** 2012-03-04 *)
Definition a_day : Z * Z * Z := (112, 2, 4).

Definition fresh : NmeaReader (F := Q) := nmea_reader_init (0, 0, 12, 63, 112) (0, 0, 12, 63, 112).

Definition line (s : string) : list Z := bytes s ++ [13; 10].

Definition run (cb : option nat) (lines : list string) : result (NmeaReader (F := Q)) :=
  foldM (feed 32 utc a_day) (nmea_reader_set_callback cb fresh) (map line lines).

Definition gga : string := "$GPGGA,123519,4807.038,N,01131.000,E,1,08,0.9,545.4,M,46.9,M*47".
Definition rmc : string := "$GPRMC,225446,A,4916.45,N,12311.12,W,000.5,054.7,191194*68".

Definition sent (r : result (NmeaReader (F := Q))) : list (nat * GpsLocation (F := Q)) :=
  match r with Ok r => r_sent r | Err _ => [] end.

Definition year_of (r : result (NmeaReader (F := Q))) : Z := match r with Ok r => utc_year r | Err _ => 0 end.

(** Empty fields disappear, so that those after them move: with no speed and no
    course in the sentence, the date is taken for the speed. *)
Example date_becomes_speed :
  map (fun f => (flags f.2, speed f.2)) (sent (run (Some 7%nat)
    ["$GPRMC,225446,A,4916.45,N,12311.12,W,,,191112*68"])) = [(5, inject_Z 191112)].
Proof. vm_compute. reflexivity. Qed.

(** A year that is not a number is not noticed: -1 is added to 2000. *)
Example year_not_a_number :
  year_of (run None ["$GPRMC,225446,A,4916.45,N,12311.12,W,000.5,054.7,1911xx*68"]) = 1999.
Proof. vm_compute. reflexivity. Qed.

(** Two digits of a year before 2000 are a year of this century; its seconds
    do not fit the 32 bits of a [long]. *)
Example year_of_this_century :
  map (fun f => timestamp f.2) (sent (run (Some 7%nat) [rmc])) = [-353921610000].
Proof. vm_compute. reflexivity. Qed.

(** The newline of a line of exactly 83 characters sets the overflow flag, and
    the sentence on the next line is lost; a longer line costs nothing else. *)
Example long_line_takes_next :
  (length (sent (foldM (feed 32 utc a_day) (nmea_reader_set_callback (Some 7%nat) fresh)
     [repeat 65 83 ++ [10]; line gga])),
   length (sent (foldM (feed 32 utc a_day) (nmea_reader_set_callback (Some 7%nat) fresh)
     [repeat 65 84 ++ [10]; line gga]))) = (0%nat, 1%nat).
Proof. vm_compute. reflexivity. Qed.

(** One hour east of Greenwich, [mktime] takes the hour off and [utc_diff] takes
    it off again: the fix of 12:35:19 is given as of 10:35:19. *)
Example zone_counted_twice :
  let east := nmea_reader_set_callback (Some 7%nat)
                (nmea_reader_init (0, 0, 12, 63, 112) (0, 0, 13, 63, 112)) in
  map (fun f => timestamp f.2)
    (sent (feed 32 (fun y mo d h mi s => utc y mo d h mi s - 3600) a_day east (line gga))) =
  [utc 112 2 4 10 35 19 * 1000].
Proof. vm_compute. reflexivity. Qed.

Lemma nmea_stream_sentences_witness :
  between false fresh /\
  exists r', foldM (feed 32 utc a_day) fresh [line gga; line rmc] = Ok r' /\
    core r' = apply_sentences 32 utc a_day
                (accepted false (complete_lines (concat [line gga; line rmc]))) (core fresh).
Proof.
  assert (H : between false fresh) by (split; [done|by split]).
  split; [exact H|exact (nmea_stream_sentences 32 utc a_day fresh _ H)].
Defined.

Lemma gga_sentence_fix_witness :
  let r := nmea_reader_set_callback (Some 7%nat) fresh in
  let s := nmea (map bytes ["GPGGA"; "123519"; "4807.038"; "N"; "01131.000"; "E"; "1"; "08"; "0.9";
             "545.4"; "M"; "46.9"; "M"])%string (bytes "47") ++ [10] in
  exists r', feed 32 utc a_day r s = Ok r' /\
    r_sent r' = r_sent r ++
      [(7%nat, mkLocation (Z.lor (Z.lor (flags (r_fix r)) HAS_LAT_LONG) HAS_ALTITUDE)
         (signed (first_char (bytes "N")) 83 (degrees_of (bytes "4807.038")))
         (signed (first_char (bytes "E")) 87 (degrees_of (bytes "01131.000")))
         (float_of (bytes "545.4")) (speed (r_fix r)) (bearing (r_fix r))
         (stamp_of 32 utc (date_of a_day r) (bytes "123519") (utc_diff r)))] /\
    flags (r_fix r') = 0.
Proof.
  intros r s.
  apply (gga_sentence_fix 32 utc a_day r 7%nat (bytes "GPGGA") (bytes "123519") (bytes "4807.038")
    (bytes "N") (bytes "01131.000") (bytes "E") (bytes "1") (bytes "08") (bytes "0.9")
    (bytes "545.4") [bytes "M"; bytes "46.9"; bytes "M"]);
    try (by vm_compute); try (vm_compute; lia).
  all: repeat constructor; done.
Defined.
End Concrete.
