(* ===== verification/GpsThread.v ===== *)
(** * gps_qemu: the thread, and its life

    Models the rest of [src/emulator/gps/gps_qemu.c]: the loop of
    [gps_state_thread], which takes commands and characters in the order in
    which epoll reports them, and the functions that start and end it.  The
    thread is related to an abstract one, which keeps an unbounded line instead
    of a buffer.  The bits of epoll are those of [QemudLooper]. *)
From S2P Require Import Prelude.
From S2P Require Import QemudLooper.
From S2P Require Import GpsNmea.
Local Open Scope Z_scope.
#[local] Arguments Z.mul : simpl never.
#[local] Arguments Z.add : simpl never.
#[local] Arguments Z.sub : simpl never.

(** ** The loop *)

Definition CMD_QUIT : Z := 0.
Definition CMD_START : Z := 1.
Definition CMD_STOP : Z := 2.

(** What [read] can answer: bytes (none at the end of the stream), [EINTR], or
    another error. *)
Inductive read_answer : Type :=
  | ReadBytes (l : list Z)
  | ReadIntr
  | ReadFail.

(** One entry of the array filled by [epoll_wait], with the answers that the
    calls of [read] made because of it get. *)
Record Event : Type := mkEvent {
  ev_events : Z;
  ev_fd : Z;
  ev_reads : list read_answer
}.

(** [do { ret = read (fd, &cmd, 1); } while (EINTR)]; 255 as a [char] is -1. *)
Fixpoint read_command (answers : list read_answer) : result Z :=
  match answers with
  | [] => Err OutOfFuel
  | ReadIntr :: answers => read_command answers
  | ReadFail :: _ => Ok (-1)
  | ReadBytes l :: _ => Ok (hd (-1) l)
  end.

Section Thread.
Context {F : Type} {FD : Double F} {FG : GpsFlags}.
Context (long_bits : Z) (mktime : Z -> Z -> Z -> Z -> Z -> Z -> Z) (today : Z * Z * Z).
(** [state->callbacks.location_cb], [state->control[1]] and [state->fd] *)
Context (location_cb : option nat) (control_fd gps_fd : Z).
Abbreviation Reader := (NmeaReader (F := F)).

Record Thread : Type := mkThread { returned : bool; started : bool; reader : Reader }.

(** The inner loop, which reads until there is nothing left. *)
Fixpoint drain (r : Reader) (answers : list read_answer) : result Reader :=
  match answers with
  | [] => Err OutOfFuel
  | ReadIntr :: answers => drain r answers
  | ReadFail :: _ => Ok r
  | ReadBytes l :: answers =>
      r ← foldM (nmea_reader_addc long_bits mktime today) r l;
      drain r answers
  end.

Definition on_command (cmd : Z) (t : Thread) : Thread :=
  if cmd =? CMD_QUIT then mkThread true (started t) (reader t)
  else if cmd =? CMD_START then
    if negb (started t)
    then mkThread false true (nmea_reader_set_callback location_cb (reader t)) else t
  else if cmd =? CMD_STOP then
    if started t then mkThread false false (nmea_reader_set_callback None (reader t)) else t
  else t.

Definition thread_event (t : Thread) (ev : Event) : result Thread :=
  if returned t then Ok t
  else if has (ev_events ev) (Z.lor EPOLLERR EPOLLHUP) then Ok (mkThread true (started t) (reader t))
  else if has (ev_events ev) EPOLLIN then
    if ev_fd ev =? control_fd then cmd ← read_command (ev_reads ev); Ok (on_command cmd t)
    else if ev_fd ev =? gps_fd then r ← drain (reader t) (ev_reads ev); Ok (mkThread false (started t) r)
    else Ok t
  else Ok t.

(** One answer of [epoll_wait]: [None] for an error. *)
Definition thread_turn (t : Thread) (events : option (list Event)) : result Thread :=
  match events with
  | None => Ok t
  | Some events => foldM thread_event t events
  end.

Definition gps_state_thread (tm_utc tm_local : Z * Z * Z * Z * Z) (turns : list (option (list Event)))
    : result Thread :=
  foldM thread_turn (mkThread false false (nmea_reader_init tm_utc tm_local)) turns.

(** ** The abstract thread

    It keeps the current line, however long; [a_skip] says that the line will
    be ignored. *)
Record Abstract : Type := mkAbstract {
  a_returned : bool;
  a_started : bool;
  a_skip : bool;
  a_line : list Z;
  a_reader : Reader
}.

Definition a_char (a : Abstract) (c : Z) : Abstract :=
  if c =? 10 then
    mkAbstract (a_returned a) (a_started a) (next_skip (a_skip a) (a_line a)) []
      (apply_sentences long_bits mktime today (line_sentences (a_skip a) (a_line a)) (a_reader a))
  else mkAbstract (a_returned a) (a_started a) (a_skip a) (a_line a ++ [c]) (a_reader a).

Definition a_command (cmd : Z) (a : Abstract) : Abstract :=
  if cmd =? CMD_QUIT then mkAbstract true (a_started a) (a_skip a) (a_line a) (a_reader a)
  else if (cmd =? CMD_START) && negb (a_started a) then
    mkAbstract false true (a_skip a) (a_line a) (nmea_reader_set_callback location_cb (a_reader a))
  else if (cmd =? CMD_STOP) && a_started a then
    mkAbstract false false (a_skip a) (a_line a) (nmea_reader_set_callback None (a_reader a))
  else a.

(** The bytes that come before the first failure. *)
Fixpoint bytes_read (answers : list read_answer) : list Z :=
  match answers with
  | ReadBytes l :: answers => l ++ bytes_read answers
  | ReadIntr :: answers => bytes_read answers
  | ReadFail :: _ | [] => []
  end.

Fixpoint command_read (answers : list read_answer) : Z :=
  match answers with
  | ReadIntr :: answers => command_read answers
  | ReadBytes l :: _ => hd (-1) l
  | ReadFail :: _ | [] => -1
  end.

Definition a_event (a : Abstract) (ev : Event) : Abstract :=
  if a_returned a then a
  else if has (ev_events ev) (Z.lor EPOLLERR EPOLLHUP)
  then mkAbstract true (a_started a) (a_skip a) (a_line a) (a_reader a)
  else if has (ev_events ev) EPOLLIN then
    if ev_fd ev =? control_fd then a_command (command_read (ev_reads ev)) a
    else if ev_fd ev =? gps_fd then fold_left a_char (bytes_read (ev_reads ev)) a
    else a
  else a.

(** ** The refinement *)

Record thread_is (t : Thread) (a : Abstract) : Prop := {
  is_returned : returned t = a_returned a;
  is_started : started t = a_started a;
  is_collecting : collects (a_skip a) (a_line a) (reader t);
  is_reader : core (reader t) = a_reader a
}.

(** The reads that an event causes come to an end. *)
Definition reads_end (ev : Event) : Prop :=
  if ev_fd ev =? control_fd then exists x, x ∈ ev_reads ev /\ x <> ReadIntr
  else ReadFail ∈ ev_reads ev.

Lemma set_callback_input cb p o i (r : Reader) :
  nmea_reader_set_callback cb (set_input p o i r) = set_input p o i (nmea_reader_set_callback cb r).
Proof. unfold nmea_reader_set_callback. destruct cb; [|done]. simpl. by destruct (negb _). Qed.

Lemma set_callback_kept cb (r : Reader) :
  r_in (nmea_reader_set_callback cb r) = r_in r /\ r_pos (nmea_reader_set_callback cb r) = r_pos r /\
  r_overflow (nmea_reader_set_callback cb r) = r_overflow r.
Proof. unfold nmea_reader_set_callback. destruct cb; [|done]. simpl. by destruct (negb _). Qed.

Lemma set_callback_collects cb skip l (r : Reader) :
  collects skip l r -> collects skip l (nmea_reader_set_callback cb r).
Proof. unfold collects. by destruct (set_callback_kept cb r) as (-> & -> & ->). Qed.

Lemma chars_is (a : Abstract) (r : Reader) l :
  collects (a_skip a) (a_line a) r -> core r = a_reader a ->
  exists r', foldM (nmea_reader_addc long_bits mktime today) r l = Ok r' /\
    let a' := fold_left a_char l a in
    collects (a_skip a') (a_line a') r' /\ core r' = a_reader a' /\
    a_returned a' = a_returned a /\ a_started a' = a_started a.
Proof.
  revert a r. induction l as [|c l IH]; intros a r Hr Hc; [by exists r|].
  cbn [foldM fold_left]. unfold a_char at 2 4 6 8 10.
  destruct (Z.eqb_spec c 10) as [->|Hc10].
  - destruct (addc_line_end long_bits mktime today r _ _ Hr) as (r1 & -> & Hb%between_collects & Hc1).
    cbn [mbind result_bind]. rewrite Hc in Hc1.
    apply (IH (mkAbstract (a_returned a) (a_started a) (next_skip (a_skip a) (a_line a)) []
      (apply_sentences long_bits mktime today (line_sentences (a_skip a) (a_line a)) (a_reader a))) r1 Hb Hc1).
  - destruct (addc_char long_bits mktime today r c _ _ Hr Hc10) as (r1 & -> & Hr1 & Hc1).
    cbn [mbind result_bind]. rewrite Hc in Hc1.
    apply (IH (mkAbstract (a_returned a) (a_started a) (a_skip a) (a_line a ++ [c]) (a_reader a)) r1 Hr1 Hc1).
Qed.

Lemma drain_bytes r answers :
  ReadFail ∈ answers ->
  drain r answers = foldM (nmea_reader_addc long_bits mktime today) r (bytes_read answers).
Proof.
  revert r. induction answers as [|x answers IH]; intros r; [by intros ?%elem_of_nil|].
  intros [<-|H]%elem_of_cons; [done|]. destruct x as [l| |]; cbn [drain bytes_read]; [|by apply IH|done].
  rewrite foldM_app. destruct (foldM _ r l); [|done]. by apply IH.
Qed.

Lemma read_command_result answers :
  (exists x, x ∈ answers /\ x <> ReadIntr) -> read_command answers = Ok (command_read answers).
Proof.
  intros (x & Hx & Hn). induction answers as [|y answers IH]; [by apply elem_of_nil in Hx|].
  apply elem_of_cons in Hx. destruct y as [l| |]; [done| |done]. destruct Hx as [->|Hx]; [done|]. by apply IH.
Qed.

Lemma command_is cmd t a :
  thread_is t a -> returned t = false -> thread_is (on_command cmd t) (a_command cmd a).
Proof.
  intros [Hr Hs Hc He] Hf.
  assert (Hcb : forall cb, core (nmea_reader_set_callback cb (reader t)) =
                           nmea_reader_set_callback cb (a_reader a))
    by (intros cb; rewrite <-He; symmetry; apply set_callback_input).
  unfold on_command, a_command. destruct (cmd =? CMD_QUIT); [by split|].
  rewrite <-Hs. destruct (cmd =? CMD_START) eqn:E1.
  - apply Z.eqb_eq in E1. subst cmd. destruct (started t) eqn:Es; cbn [negb andb].
    + change (CMD_START =? CMD_STOP) with false. cbn [andb]. split; (done || congruence).
    + split; [done|done|by apply set_callback_collects|apply Hcb].
  - cbn [andb]. destruct (cmd =? CMD_STOP); [|split; (done || congruence)].
    destruct (started t) eqn:Es; cbn [andb]; [|split; (done || congruence)].
    split; [done|done|by apply set_callback_collects|apply Hcb].
Qed.

Lemma event_is t a ev :
  thread_is t a -> reads_end ev ->
  exists t', thread_event t ev = Ok t' /\ thread_is t' (a_event a ev).
Proof.
  intros Hta Hend. pose proof Hta as [Hr Hs Hc He]. unfold thread_event, a_event. rewrite <-Hr.
  destruct (returned t) eqn:Ert; [by exists t|].
  destruct (has _ (Z.lor EPOLLERR EPOLLHUP)); [by eexists|].
  destruct (has _ EPOLLIN); [|by exists t]. unfold reads_end in Hend.
  destruct (ev_fd ev =? control_fd).
  { rewrite read_command_result by done. eexists. split; [reflexivity|]. by apply command_is. }
  destruct (ev_fd ev =? gps_fd); [|by exists t].
  rewrite drain_bytes by done.
  destruct (chars_is a (reader t) (bytes_read (ev_reads ev)) Hc He) as (r' & -> & H1 & H2 & H3 & H4).
  eexists. split; [reflexivity|]. split; cbn [returned started reader]; congruence || done.
Qed.

Definition a_turn (a : Abstract) (events : option (list Event)) : Abstract :=
  match events with None => a | Some events => fold_left a_event events a end.

Definition turn_ends (events : option (list Event)) : Prop :=
  match events with None => True | Some events => Forall reads_end events end.

Lemma turn_is t a events :
  thread_is t a -> turn_ends events ->
  exists t', thread_turn t events = Ok t' /\ thread_is t' (a_turn a events).
Proof.
  destruct events as [events|]; [|by exists t]. cbn [turn_ends thread_turn a_turn]. intros H Hev. revert t a H.
  induction Hev as [|ev events He _ IH]; intros t a H; [by exists t|].
  destruct (event_is t a ev H He) as (t1 & Ht & H1). cbn [foldM fold_left]. rewrite Ht.
  cbn [mbind result_bind]. by apply IH.
Qed.

Definition a_init (tm_utc tm_local : Z * Z * Z * Z * Z) : Abstract :=
  mkAbstract false false false [] (core (nmea_reader_init tm_utc tm_local)).

Lemma thread_init_is tm_utc tm_local :
  thread_is (mkThread false false (nmea_reader_init tm_utc tm_local)) (a_init tm_utc tm_local).
Proof. split; [done|done| |done]. apply between_collects. by split_and!. Qed.

Lemma run_is tm_utc tm_local turns :
  Forall turn_ends turns ->
  exists t, gps_state_thread tm_utc tm_local turns = Ok t /\
    thread_is t (fold_left a_turn turns (a_init tm_utc tm_local)).
Proof.
  intros H. unfold gps_state_thread. pose proof (thread_init_is tm_utc tm_local) as Hi.
  revert Hi. generalize (a_init tm_utc tm_local) as a.
  generalize (mkThread false false (nmea_reader_init tm_utc tm_local)) as t.
  induction H as [|ev turns He _ IH]; intros t a Hi; [by exists t|].
  destruct (turn_is t a ev Hi He) as (t1 & Ht & H1). cbn [foldM fold_left]. rewrite Ht.
  cbn [mbind result_bind]. by apply IH.
Qed.

(** ** Fixes go out only between start and stop *)

(** The callback of the reader, and the fixes handed out so far. *)
Record delivery_ok (a : Abstract) : Prop := {
  ok_callback : r_callback (a_reader a) = if a_started a then location_cb else None;
  ok_sent : Forall (fun s => location_cb = Some s.1) (r_sent (a_reader a))
}.

(** What a sentence may change. *)
Definition extends (r r' : Reader) : Prop :=
  r_callback r' = r_callback r /\
  exists l, r_sent r' = r_sent r ++ l /\ Forall (fun s => r_callback r = Some s.1) l.

#[local] Instance extends_preorder : PreOrder extends.
Proof.
  split.
  - intros r. split; [done|]. exists []. by rewrite app_nil_r.
  - intros r1 r2 r3 [E1 (l1 & H1 & F1)] [E2 (l2 & H2 & F2)]. split; [congruence|].
    exists (l1 ++ l2). rewrite H2, H1, app_assoc. split; [done|].
    apply Forall_app. rewrite E1 in F2. done.
Qed.

Lemma send_fix_extends (r : Reader) : extends r (send_fix r).
Proof.
  unfold send_fix. destruct (negb _); [|done]. destruct (r_callback r) as [cb|] eqn:Ec; [|done].
  split; [done|]. exists [(cb, r_fix r)]. split; [done|]. by repeat constructor.
Qed.

(** Reading a field changes neither. *)
Definition quiet (r r' : Reader) : Prop := r_callback r' = r_callback r /\ r_sent r' = r_sent r.

#[local] Instance quiet_preorder : PreOrder quiet.
Proof. split; [by intros r|]. intros r1 r2 r3 [E1 H1] [E2 H2]. split; congruence. Qed.

Lemma quiet_extends r r' : quiet r r' -> extends r r'.
Proof. intros [Hc Hs]. split; [done|]. exists []. by rewrite app_nil_r. Qed.

Lemma time_text_quiet t r : quiet r (time_text long_bits mktime today t r).
Proof. unfold time_text. destruct (_ <? _)%nat; [done|]. by destruct (utc_year r <? 0). Qed.

Lemma date_text_quiet d t r : quiet r (date_text long_bits mktime today d t r).
Proof.
  unfold date_text. destruct (negb _); [done|]. destruct (Z.lor _ _ <? 0); [done|].
  etrans; [|apply time_text_quiet]. done.
Qed.

Lemma latlong_text_quiet lat ns lon ew r : quiet r (latlong_text lat ns lon ew r).
Proof. unfold latlong_text. by destruct (_ || _). Qed.

Lemma altitude_text_quiet t r : quiet r (altitude_text t r).
Proof. by destruct t. Qed.

Lemma bearing_text_quiet t r : quiet r (bearing_text t r).
Proof. by destruct t. Qed.

Lemma speed_text_quiet t r : quiet r (speed_text t r).
Proof. by destruct t. Qed.

Lemma fields_quiet fs r :
  quiet r (gga_fields long_bits mktime today fs r) /\ quiet r (rmc_fields long_bits mktime today fs r).
Proof.
  split.
  - unfold gga_fields. etrans; [|apply altitude_text_quiet]. etrans; [|apply latlong_text_quiet].
    apply time_text_quiet.
  - unfold rmc_fields. destruct (_ =? 65); [|done]. etrans; [|apply speed_text_quiet].
    etrans; [|apply bearing_text_quiet]. etrans; [|apply latlong_text_quiet]. apply date_text_quiet.
Qed.

Lemma apply_sentence_extends s (r : Reader) : extends r (apply_sentence long_bits mktime today s r).
Proof.
  unfold apply_sentence. destruct (_ || _); [done|]. etrans; [|apply send_fix_extends].
  case_bool_decide; [|case_bool_decide; [|done]]; apply quiet_extends, fields_quiet.
Qed.

Lemma apply_sentences_extends ss (r : Reader) : extends r (apply_sentences long_bits mktime today ss r).
Proof.
  unfold apply_sentences. revert r. induction ss as [|s ss IH]; intros r; [done|].
  cbn [fold_left]. etrans; [apply apply_sentence_extends|apply IH].
Qed.

Lemma extends_delivery (a : Abstract) r' st :
  delivery_ok a -> extends (a_reader a) r' -> st = a_started a ->
  r_callback r' = (if st then location_cb else None) /\
  Forall (fun s => location_cb = Some s.1) (r_sent r').
Proof.
  intros [Hc Hs] [Ec (l & -> & Hl)] ->. split; [congruence|]. apply Forall_app. split; [done|].
  rewrite Hc in Hl. destruct (a_started a); [done|].
  destruct l as [|x l]; [constructor|]. by apply Forall_cons in Hl as [? _].
Qed.

Lemma chars_delivery l a :
  delivery_ok a -> delivery_ok (fold_left a_char l a) /\
    (a_started a = false -> r_sent (a_reader (fold_left a_char l a)) = r_sent (a_reader a)).
Proof.
  revert a. induction l as [|c l IH]; intros a Ha; [done|]. cbn [fold_left].
  assert (H : delivery_ok (a_char a c) /\ a_started (a_char a c) = a_started a /\
              (a_started a = false -> r_sent (a_reader (a_char a c)) = r_sent (a_reader a))).
  { unfold a_char. destruct (c =? 10); [|by destruct Ha].
    pose proof (apply_sentences_extends (line_sentences (a_skip a) (a_line a)) (a_reader a)) as He.
    split; [by destruct (extends_delivery a _ (a_started a) Ha He eq_refl)|]. split; [done|]. intros Hst. cbn [a_reader].
    destruct He as [_ (x & -> & Hx)], Ha as [Hc _]. rewrite Hc, Hst in Hx.
    destruct x as [|y x]; [by rewrite app_nil_r|]. by apply Forall_cons in Hx as [? _]. }
  destruct H as (H1 & H2 & H3). destruct (IH _ H1) as [H4 H5]. split; [done|]. intros Hst.
  rewrite H5, H3; congruence.
Qed.

Lemma set_callback_delivery cb (r : Reader) :
  (cb = location_cb \/ cb = None) -> Forall (fun s => location_cb = Some s.1) (r_sent r) ->
  r_callback (nmea_reader_set_callback cb r) = cb /\
  Forall (fun s => location_cb = Some s.1) (r_sent (nmea_reader_set_callback cb r)).
Proof.
  intros Hcb Hs. unfold nmea_reader_set_callback. destruct cb as [c|]; [|done]. simpl.
  destruct (negb _); [|done]. split; [done|]. apply Forall_app. split; [done|].
  constructor; [|constructor]. by destruct Hcb.
Qed.

(** The commands that an event brings. *)
Definition is_start (ev : Event) : Prop :=
  ev_fd ev = control_fd /\ command_read (ev_reads ev) = CMD_START.

Lemma event_delivery a ev :
  delivery_ok a -> delivery_ok (a_event a ev) /\
    (a_started a = false -> ~ is_start ev ->
     a_started (a_event a ev) = false /\ r_sent (a_reader (a_event a ev)) = r_sent (a_reader a)).
Proof.
  intros Ha. pose proof Ha as [Hc Hs]. unfold a_event. destruct (a_returned a); [done|].
  destruct (has _ (Z.lor EPOLLERR EPOLLHUP)); [by split|]. destruct (has _ EPOLLIN); [|done].
  destruct (Z.eqb_spec (ev_fd ev) control_fd) as [Efd|Efd].
  - unfold a_command. destruct (_ =? CMD_QUIT); [by split|].
    destruct (Z.eqb_spec (command_read (ev_reads ev)) CMD_START) as [Es|Es]; cbn [andb].
    + destruct (a_started a) eqn:Est; cbn [negb]; [rewrite Es; by split|].
      split; [|intros _ Hn; by destruct Hn].
      by destruct (set_callback_delivery location_cb (a_reader a) (or_introl eq_refl) Hs).
    + destruct (_ =? CMD_STOP); cbn [andb]; [|done]. destruct (a_started a) eqn:Est; [|done].
      split; [|done]. by destruct (set_callback_delivery None (a_reader a) (or_intror eq_refl) Hs).
  - destruct (ev_fd ev =? gps_fd); [|done]. destruct (chars_delivery (bytes_read (ev_reads ev)) a Ha) as [H1 H2].
    split; [done|]. intros Hst _. split; [|by apply H2].
    clear -Hst. revert a Hst. induction (bytes_read (ev_reads ev)) as [|c l IH]; intros a Hst; [done|].
    cbn [fold_left]. apply IH. unfold a_char. by destruct (c =? 10).
Qed.

Lemma events_delivery evs a :
  delivery_ok a -> delivery_ok (fold_left a_event evs a) /\
    (a_started a = false -> Forall (fun ev => ~ is_start ev) evs ->
     a_started (fold_left a_event evs a) = false /\
     r_sent (a_reader (fold_left a_event evs a)) = r_sent (a_reader a)).
Proof.
  revert a. induction evs as [|ev evs IH]; intros a Ha; [done|]. cbn [fold_left].
  destruct (event_delivery a ev Ha) as [H1 H2]. destruct (IH _ H1) as [H3 H4]. split; [done|].
  intros Hst [Hn Hns]%Forall_cons. destruct (H2 Hst Hn) as [H5 H6]. destruct (H4 H5 Hns) as [H7 H8].
  split; congruence.
Qed.

Lemma run_delivery tm_utc tm_local turns : delivery_ok (fold_left a_turn turns (a_init tm_utc tm_local)).
Proof.
  assert (H : delivery_ok (a_init tm_utc tm_local)) by (split; [done|constructor]).
  revert H. generalize (a_init tm_utc tm_local) as a. induction turns as [|[evs|] turns IH]; intros a H; [done| |by apply IH].
  apply IH. cbn [a_turn]. by apply events_delivery.
Qed.

(** ** Types *)

Definition in_bits (b z : Z) : Prop := - 2 ^ (b - 1) <= z < 2 ^ (b - 1).

(** All flags a fix can have. *)
Definition fix_flags : Z := Z.lor (Z.lor (Z.lor HAS_LAT_LONG HAS_ALTITUDE) HAS_SPEED) HAS_BEARING.

Definition fix_typed (f : GpsLocation (F := F)) : Prop :=
  Z.lor (flags f) fix_flags = fix_flags /\ in_bits 64 (timestamp f).

(** The fields of a reader have values of their C types, the buffer its size. *)
Record reader_typed (r : Reader) : Prop := {
  typed_pos : 0 <= r_pos r <= Z.of_nat NMEA_MAX_SIZE;
  typed_in : length (r_in r) = S NMEA_MAX_SIZE;
  typed_year : in_bits 32 (utc_year r);
  typed_mon : in_bits 32 (utc_mon r);
  typed_day : in_bits 32 (utc_day r);
  typed_diff : in_bits 32 (utc_diff r);
  typed_fix : fix_typed (r_fix r);
  typed_sent : Forall (fun s => fix_typed s.2) (r_sent r)
}.
(** What a sentence works on: all but the buffer. *)
Definition data_typed (r : Reader) : Prop :=
  in_bits 32 (utc_year r) /\ in_bits 32 (utc_mon r) /\ in_bits 32 (utc_day r) /\
  in_bits 32 (utc_diff r) /\ fix_typed (r_fix r) /\ Forall (fun s => fix_typed s.2) (r_sent r).

Lemma add_flag x f :
  Z.lor f fix_flags = fix_flags -> Z.lor x fix_flags = fix_flags ->
  Z.lor (Z.lor x f) fix_flags = fix_flags.
Proof. intros Hf Hx. by rewrite <-Z.lor_assoc, Hf. Qed.

Lemma known_flags :
  Z.lor HAS_LAT_LONG fix_flags = fix_flags /\ Z.lor HAS_ALTITUDE fix_flags = fix_flags /\
  Z.lor HAS_SPEED fix_flags = fix_flags /\ Z.lor HAS_BEARING fix_flags = fix_flags.
Proof.
  split_and!; apply Z.bits_inj; intros n; unfold fix_flags; rewrite !Z.lor_spec;
    destruct (Z.testbit HAS_LAT_LONG n), (Z.testbit HAS_ALTITUDE n), (Z.testbit HAS_SPEED n), (Z.testbit HAS_BEARING n); done.
Qed.

(** A fix with one more flag, and the same time. *)
Lemma fix_with_flag (f g : GpsLocation (F := F)) x :
  fix_typed f -> flags g = Z.lor (flags f) x -> timestamp g = timestamp f ->
  Z.lor x fix_flags = fix_flags -> fix_typed g.
Proof. intros [Hf Ht] Eg Et Hx. split; [rewrite Eg; by apply add_flag|by rewrite Et]. Qed.

Lemma set_fix_typed f r : data_typed r -> fix_typed f -> data_typed (set_fix f r).
Proof. by intros (? & ? & ? & ? & _ & ?). Qed.

Lemma int_of_two s : (length s <= 2)%nat -> -1 <= int_of s <= 99.
Proof.
  intros Hs. destruct s as [|x [|y [|z s]]]; [| | |simpl in Hs; lia]; unfold int_of, is_digit; simpl; [lia| |];
    repeat match goal with |- context [?a <=? ?b] => destruct (Z.leb_spec a b) end; simpl; lia.
Qed.

Lemma latlong_text_typed lat ns lon ew r : data_typed r -> data_typed (latlong_text lat ns lon ew r).
Proof.
  intros H. unfold latlong_text. destruct (_ || _); [done|]. apply set_fix_typed; [done|].
  eapply fix_with_flag; [apply H|done|done|apply known_flags].
Qed.

Lemma altitude_text_typed t r : data_typed r -> data_typed (altitude_text t r).
Proof.
  intros H. destruct t; [done|]. apply set_fix_typed; [done|].
  eapply fix_with_flag; [apply H|done|done|apply known_flags].
Qed.

Lemma bearing_text_typed t r : data_typed r -> data_typed (bearing_text t r).
Proof.
  intros H. destruct t; [done|]. apply set_fix_typed; [done|].
  eapply fix_with_flag; [apply H|done|done|apply known_flags].
Qed.

Lemma speed_text_typed t r : data_typed r -> data_typed (speed_text t r).
Proof.
  intros H. destruct t; [done|]. apply set_fix_typed; [done|].
  eapply fix_with_flag; [apply H|done|done|apply known_flags].
Qed.

Lemma hand_out_typed cb r : data_typed r -> data_typed (hand_out cb r).
Proof.
  intros (? & ? & ? & ? & Hf & Hs). do 4 (split; [done|]). split.
  - split; [apply Z.lor_0_l|apply Hf].
  - apply Forall_app. split; [done|]. constructor; [done|constructor].
Qed.

Lemma set_callback_typed cb r : data_typed r -> data_typed (nmea_reader_set_callback cb r).
Proof.
  intros H. unfold nmea_reader_set_callback. destruct cb as [c|]; [|done]. simpl.
  destruct (negb _); [|done]. by apply hand_out_typed.
Qed.

Section Typing.
Context (Hlong : long_bits = 32).
Context (Htoday : in_bits 32 (today.1.1 + 1900) /\ in_bits 32 (today.1.2 + 1) /\ in_bits 32 today.2).

Lemma time_text_typed t r : data_typed r -> data_typed (time_text long_bits mktime today t r).
Proof using Hlong Htoday.
  intros H. unfold time_text. destruct (_ <? _)%nat; [done|].
  assert (Hlong' : forall z, in_bits 64 (long long_bits z * 1000)).
  { intros z. rewrite Hlong. unfold long, in_bits.
    pose proof (Z.mod_pos_bound (z + 2 ^ (32 - 1)) (2 ^ 32) ltac:(lia)). lia. }
  assert (Hdate : data_typed (set_date (today.1.1 + 1900) (today.1.2 + 1) today.2 r))
    by (destruct H as (_ & _ & _ & ?), Htoday as (? & ? & ?); done).
  destruct (utc_year r <? 0); (apply set_fix_typed; [done|]); split; try apply H; apply Hlong'.
Qed.

Lemma date_text_typed d t r : data_typed r -> data_typed (date_text long_bits mktime today d t r).
Proof using Hlong Htoday.
  intros H. unfold date_text. destruct (Nat.eqb_spec (length d) 6) as [Hd|Hd]; [|done]. cbn [negb].
  destruct (Z.lor _ _ <? 0); [done|]. apply time_text_typed.
  pose proof (int_of_two (take 2 d) ltac:(len)). pose proof (int_of_two (take 2 (drop 2 d)) ltac:(len)).
  pose proof (int_of_two (drop 4 d) ltac:(len)).
  destruct H as (_ & _ & _ & H). split_and!; try apply H; unfold in_bits; simpl utc_year; simpl utc_mon; simpl utc_day; lia.
Qed.

Lemma apply_sentence_typed s r : data_typed r -> data_typed (apply_sentence long_bits mktime today s r).
Proof using Hlong Htoday.
  intros H. unfold apply_sentence. destruct (_ || _); [done|].
  assert (Hsend : forall r, data_typed r -> data_typed (send_fix r)).
  { intros r' H'. unfold send_fix. destruct (negb _); [|done]. destruct (r_callback r'); [|done].
    by apply hand_out_typed. }
  apply Hsend. case_bool_decide; [|case_bool_decide; [|done]].
  - by apply altitude_text_typed, latlong_text_typed, time_text_typed.
  - unfold rmc_fields. destruct (_ =? 65); [|done].
    by apply speed_text_typed, bearing_text_typed, latlong_text_typed, date_text_typed.
Qed.

Lemma a_event_typed a ev : data_typed (a_reader a) -> data_typed (a_reader (a_event a ev)).
Proof using Hlong Htoday.
  intros H. unfold a_event. destruct (a_returned a); [done|]. destruct (has _ _); [done|].
  destruct (has _ _); [|done]. destruct (_ =? control_fd).
  - unfold a_command. destruct (_ =? CMD_QUIT); [done|].
    destruct ((_ =? CMD_START) && _); [by apply set_callback_typed|].
    destruct ((_ =? CMD_STOP) && _); [by apply set_callback_typed|done].
  - destruct (_ =? gps_fd); [|done]. revert a H. induction (bytes_read _) as [|c l IH]; intros a H; [done|].
    cbn [fold_left]. apply IH. unfold a_char. destruct (c =? 10); [|done]. cbn [a_reader].
    unfold line_sentences. destruct (a_skip a); [done|]. destruct (_ <? _)%nat; [|done].
    by apply apply_sentence_typed.
Qed.

(** C29 Whatever arrives, the fields of the reader keep values of their C types,
    the position stays in the buffer, and a fix only has flags that the reader
    knows, with a time of 64 bits; [long] has 32 bits, and the date of today
    fits an [int]. *)
Theorem gps_reader_typed utc tm_local turns t :
  Forall turn_ends turns -> gps_state_thread utc tm_local turns = Ok t -> reader_typed (reader t).
Proof using Hlong Htoday.
  intros Hturns Hrun. destruct (run_is utc tm_local turns Hturns) as (t1 & Ht1 & Ha).
  rewrite Hrun in Ht1. injection Ht1 as <-.
  assert (Hd : data_typed (a_reader (fold_left a_turn turns (a_init utc tm_local)))).
  { assert (Hi : data_typed (a_reader (a_init utc tm_local))).
    { do 3 (split; [done|]). split; [apply s32_range|]. split; [split; [apply Z.lor_0_l|done]|constructor]. }
    clear -Hi Hlong Htoday. revert Hi. generalize (a_init utc tm_local) as a.
    induction turns as [|[evs|] turns IH]; intros a Hi; [done| |by apply IH]. apply IH. cbn [a_turn].
    revert a Hi. induction evs as [|ev evs IHe]; intros a Hi; [done|]. by apply IHe, a_event_typed. }
  destruct Ha as [_ _ (_ & Hn & Hb) Hcore]. rewrite <-Hcore in Hd. destruct Hd as (? & ? & ? & ? & ? & ?). split; try done.
  destruct (a_skip _); [lia|]. destruct (Nat.leb_spec (length (a_line (fold_left a_turn turns (a_init utc tm_local)))) NMEA_MAX_SIZE); lia.
Qed.
End Typing.

(** The thread does what the abstract one does, which has no buffer: as long
    as the calls of [read] that an event causes come to an end, every turn of
    the loop ends, the buffer is never left, and commands and sentences take
    effect in the order in which they arrive, wherever the reads and the
    commands cut a sentence. *)
Theorem gps_thread_refines tm_utc tm_local turns :
  Forall turn_ends turns ->
  exists t, gps_state_thread tm_utc tm_local turns = Ok t /\
    thread_is t (fold_left a_turn turns (a_init tm_utc tm_local)).
Proof. apply run_is. Qed.

(** No fix goes anywhere but to the callback for locations, and a turn that
    begins while the thread is stopped, and brings no command to start, hands
    out no fix, whatever sentences arrive. *)
Theorem gps_fixes_only_when_started tm_utc tm_local turns evs t :
  Forall turn_ends turns -> Forall reads_end evs ->
  gps_state_thread tm_utc tm_local turns = Ok t ->
  Forall (fun s => location_cb = Some s.1) (r_sent (reader t)) /\
  (started t = false -> Forall (fun ev => ~ is_start ev) evs ->
   exists t', thread_turn t (Some evs) = Ok t' /\ started t' = false /\
     r_sent (reader t') = r_sent (reader t)).
Proof.
  intros Hturns Hevs Hrun. destruct (run_is tm_utc tm_local turns Hturns) as (t1 & Ht1 & Ha).
  rewrite Hrun in Ht1. injection Ht1 as <-.
  assert (Hsent : forall u b, thread_is u b -> r_sent (reader u) = r_sent (a_reader b))
    by (intros u b [_ _ _ <-]; done).
  pose proof (run_delivery tm_utc tm_local turns) as Hd. rewrite (Hsent _ _ Ha).
  split; [apply Hd|]. intros Hst Hns. destruct (turn_is t _ (Some evs) Ha Hevs) as (t' & Ht' & Ha').
  exists t'. split; [done|]. rewrite (Hsent _ _ Ha'), (is_started _ _ Ha').
  apply events_delivery; [done| |done]. by rewrite <-(is_started _ _ Ha).
Qed.
End Thread.

(** ** Concrete runs *)
Section Runs.
Import Concrete.

(** Commands come on descriptor 3, characters on descriptor 4; the callback is
    function 7. *)
Definition command_event (cmd : Z) : Event := mkEvent EPOLLIN 3 [ReadIntr; ReadBytes [cmd]].
Definition input_event (l : list Z) : Event := mkEvent EPOLLIN 4 [ReadBytes (take 32 l); ReadBytes (drop 32 l); ReadFail].

Definition noon : Z * Z * Z * Z * Z := (0, 0, 12, 63, 112).

Definition session (turns : list (option (list Event))) : result Thread :=
  gps_state_thread 32 utc a_day (Some 7%nat) 3 4 noon noon turns.

Definition fixes (turns : list (option (list Event))) : list (nat * Z) :=
  match session turns with Ok t => map (fun s => (s.1, flags s.2)) (r_sent (reader t)) | Err _ => [] end.

(** The latest fix is kept while the thread is stopped, and goes out when it is
    started; a command to start cuts no sentence. *)
Example fix_waits_for_start :
  (fixes [Some [input_event (line gga)]; None],
   fixes [Some [input_event (line gga); command_event CMD_START]],
   fixes [Some [input_event (take 20 (line gga)); command_event CMD_START]; Some [input_event (drop 20 (line gga))]],
   fixes [Some [command_event CMD_START; command_event CMD_STOP]; Some [input_event (line gga)]]) =
  ([], [(7%nat, 3)], [(7%nat, 3)], []).
Proof. vm_compute. reflexivity. Qed.

(** At the end of the stream [read] answers 0 again and again: the inner loop
    has no way out, and no command is read any more. *)
Lemma drain_never_ends r n :
  drain 32 utc a_day r (replicate n (ReadBytes [])) = Err OutOfFuel.
Proof. induction n as [|n IH]; [done|]. exact IH. Qed.

Definition some_turns : list (option (list Event)) :=
  [Some [command_event CMD_START; input_event (line gga)]; Some [command_event CMD_STOP]].

Lemma some_turns_end : Forall (turn_ends 3) some_turns /\ Forall (reads_end 3) [input_event (line rmc)].
Proof.
  assert (Hin : forall l, reads_end 3 (input_event l))
    by (intros l; apply list_elem_of_In; right; right; by left).
  assert (Hcmd : forall c, reads_end 3 (command_event c))
    by (intros c; exists (ReadBytes [c]); split; [apply list_elem_of_In; right; by left|done]).
  split; [|by repeat constructor]. repeat constructor; apply Hcmd || apply Hin.
Qed.

Lemma gps_thread_refines_witness :
  Forall (turn_ends 3) some_turns /\
  exists t, session some_turns = Ok t /\
    thread_is t (fold_left (a_turn 32 utc a_day (Some 7%nat) 3 4) some_turns
      (a_init noon noon)).
Proof.
  split; [apply some_turns_end|].
  exact (gps_thread_refines 32 utc a_day (Some 7%nat) 3 4 noon noon some_turns (proj1 some_turns_end)).
Defined.

Definition after_turns : Thread (F := QArith_base.Q) :=
  match session some_turns with
  | Ok t => t
  | Err _ => mkThread true true fresh
  end.

Lemma gps_fixes_only_when_started_witness :
  Forall (fun s => Some 7%nat = Some s.1) (r_sent (reader after_turns)) /\
  exists t', thread_turn 32 utc a_day (Some 7%nat) 3 4 after_turns (Some [input_event (line rmc)]) = Ok t' /\
    started t' = false /\ r_sent (reader t') = r_sent (reader after_turns).
Proof.
  assert (Hrun : gps_state_thread 32 utc a_day (Some 7%nat) 3 4 noon noon some_turns = Ok after_turns)
    by (vm_compute; reflexivity).
  destruct (gps_fixes_only_when_started 32 utc a_day (Some 7%nat) 3 4 noon noon some_turns
    [input_event (line rmc)] after_turns (proj1 some_turns_end) (proj2 some_turns_end) Hrun) as [H1 H2].
  split; [exact H1|]. apply H2; [vm_compute; reflexivity|].
  constructor; [|constructor]. intros [E _]. discriminate E.
Defined.

Lemma gps_reader_typed_witness : reader_typed (reader after_turns).
Proof.
  apply (gps_reader_typed 32 utc a_day (Some 7%nat) 3 4 eq_refl) with
    (utc := noon) (tm_local := noon) (turns := some_turns).
  - split_and!; vm_compute; (done || lia).
  - exact (proj1 some_turns_end).
  - vm_compute. reflexivity.
Defined.
End Runs.

(** ** Starting and ending the thread *)
Module Life.

(** The calls of the operating system, with their answers. *)
Inductive Call : Type :=
  | CallOpen (fd : Z)
  | CallPair (fd0 fd1 : Z)
  | CallCreate (thread : Z)
  | CallWrite (fd cmd : Z)
  | CallJoin (thread : Z)
  | CallClose (fd : Z).

Record GpsState : Type := mkState {
  init : bool;
  fd : Z;
  callbacks : option nat;
  thread : Z;
  control : Z * Z
}.

(** [_gps_state] is zero at first. *)
Definition gps_state_zero : GpsState := mkState false 0 None 0 (0, 0).

Definition gps_state_done (s : GpsState) : GpsState * list Call :=
  (mkState false (-1) (callbacks s) (thread s) (-1, -1),
   [CallWrite (control s).1 CMD_QUIT; CallJoin (thread s); CallClose (control s).1;
    CallClose (control s).2; CallClose (fd s)]).

(** The call is repeated while it is interrupted. *)
Definition gps_state_start (intr : nat) (s : GpsState) : list Call :=
  replicate (S intr) (CallWrite (control s).1 CMD_START).

Definition gps_state_stop (intr : nat) (s : GpsState) : list Call :=
  replicate (S intr) (CallWrite (control s).1 CMD_STOP).

(** [channel]: the answer of [qemud_channel_open]; [ends]: that of [socketpair],
    with the descriptors; [created]: that of [create_thread_cb]. *)
Definition gps_state_init (channel : Z) (ends : option (Z * Z)) (created : Z) (cb : option nat)
    (s : GpsState) : GpsState * list Call :=
  let s := mkState true channel (callbacks s) (thread s) (-1, -1) in
  if channel <? 0 then (s, [CallOpen channel])
  else match ends with
       | None => let '(s, calls) := gps_state_done s in (s, CallOpen channel :: calls)
       | Some (c0, c1) =>
           let s := mkState true channel (callbacks s) created (c0, c1) in
           let calls := [CallOpen channel; CallPair c0 c1; CallCreate created] in
           if created =? 0 then let '(s, calls') := gps_state_done s in (s, calls ++ calls')
           else (mkState true channel cb created (c0, c1), calls)
       end.

(** The calls of the interface, with what the system answers. *)
Inductive Use : Type :=
  | UseInit (channel : Z) (ends : option (Z * Z)) (created : Z) (cb : option nat)
  | UseCleanup
  | UseStart (intr : nat)
  | UseStop (intr : nat).

Definition qemu_gps_init (channel : Z) (ends : option (Z * Z)) (created : Z) (cb : option nat)
    (s : GpsState) : Z * GpsState * list Call :=
  let '(s, calls) := if negb (init s) then gps_state_init channel ends created cb s else (s, []) in
  (if fd s <? 0 then -1 else 0, s, calls).

Definition qemu_gps_cleanup (s : GpsState) : GpsState * list Call :=
  if init s then gps_state_done s else (s, []).

Definition qemu_gps_start (intr : nat) (s : GpsState) : Z * list Call :=
  if negb (init s) then (-1, []) else (0, gps_state_start intr s).

Definition qemu_gps_stop (intr : nat) (s : GpsState) : Z * list Call :=
  if negb (init s) then (-1, []) else (0, gps_state_stop intr s).

Definition use (st : GpsState * list Call) (u : Use) : GpsState * list Call :=
  let '(s, calls) := st in
  match u with
  | UseInit channel ends created cb =>
      let '(_, s, new) := qemu_gps_init channel ends created cb s in (s, calls ++ new)
  | UseCleanup => let '(s, new) := qemu_gps_cleanup s in (s, calls ++ new)
  | UseStart intr => (s, calls ++ (qemu_gps_start intr s).2)
  | UseStop intr => (s, calls ++ (qemu_gps_stop intr s).2)
  end.

(** What a process holds after some calls: threads not joined, and descriptors
    not closed; [None] after a call on one it does not hold. *)
Definition held (o : option (list Z * list Z)) (c : Call) : option (list Z * list Z) :=
  '(threads, fds) ← o;
  match c with
  | CallOpen f => Some (threads, fds ++ [f])
  | CallPair f g => Some (threads, fds ++ [f; g])
  | CallCreate t => Some (threads ++ [t], fds)
  | CallWrite f _ => if bool_decide (f ∈ fds) then o else None
  | CallJoin t => if bool_decide (t ∈ threads) then Some (filter (fun x => x <> t) threads, fds) else None
  | CallClose f => if bool_decide (f ∈ fds) then Some (threads, filter (fun x => x <> f) fds) else None
  end.

Definition holds_after (calls : list Call) : option (list Z * list Z) := fold_left held calls (Some ([], [])).

(** The system gives what is asked for. *)
Definition granted (u : Use) : Prop :=
  match u with
  | UseInit channel ends created _ =>
      0 <= channel /\ created <> 0 /\ exists c0 c1, ends = Some (c0, c1) /\ NoDup [channel; c0; c1]
  | _ => True
  end.

Definition resources (s : GpsState) : list Z * list Z :=
  if init s then ([thread s], [fd s; (control s).1; (control s).2]) else ([], []).

Definition distinct (s : GpsState) : Prop :=
  init s = true -> NoDup [fd s; (control s).1; (control s).2].

Lemma holds_after_app c1 c2 : holds_after (c1 ++ c2) = fold_left held c2 (holds_after c1).
Proof. unfold holds_after. by rewrite fold_left_app. Qed.

Lemma held_close f fds ts :
  f ∈ fds -> held (Some (ts, fds)) (CallClose f) = Some (ts, filter (fun x => x <> f) fds).
Proof. intros H. simpl. by rewrite bool_decide_eq_true_2. Qed.

Lemma held_write f cmd fds ts : f ∈ fds -> held (Some (ts, fds)) (CallWrite f cmd) = Some (ts, fds).
Proof. intros H. simpl. by rewrite bool_decide_eq_true_2. Qed.

Lemma held_writes s cmd n :
  init s = true ->
  fold_left held (replicate n (CallWrite (control s).1 cmd)) (Some (resources s)) = Some (resources s).
Proof.
  intros Hi. unfold resources. rewrite Hi. induction n as [|n IH]; [done|].
  cbn [replicate fold_left]. by rewrite held_write by set_solver.
Qed.

Lemma held_join t fds : held (Some ([t], fds)) (CallJoin t) = Some ([], fds).
Proof.
  simpl. rewrite bool_decide_eq_true_2 by set_solver. by rewrite filter_cons_False by naive_solver.
Qed.

Lemma held_done s :
  init s = true -> distinct s ->
  fold_left held (gps_state_done s).2 (Some (resources s)) = Some ([], []).
Proof.
  intros Hi Hd. specialize (Hd Hi). unfold resources. rewrite Hi. destruct s as [i f cb t [c0 c1]].
  cbn [Life.fd control thread fst snd gps_state_done] in *.
  assert (f <> c0 /\ f <> c1 /\ c0 <> c1) as (N1 & N2 & N3).
  { apply NoDup_cons in Hd as [H1 [H2 _]%NoDup_cons]. set_solver. }
  cbn [fold_left]. rewrite held_write, held_join by set_solver.
  repeat first [rewrite held_close by set_solver
               | rewrite filter_cons_True by naive_solver
               | rewrite filter_cons_False by naive_solver].
  done.
Qed.

(** The state after some uses, and what the process holds, go together. *)
Definition in_step (st : GpsState * list Call) : Prop :=
  distinct st.1 /\ holds_after st.2 = Some (resources st.1).

Lemma use_in_step st u : in_step st -> granted u -> in_step (use st u).
Proof.
  destruct st as [s calls]. intros [Hd Hh] Hu. cbn [fst snd] in *.
  assert (Hwrite : forall intr cmd, in_step (s, calls ++
    (if negb (init s) then (-1, []) else (0, replicate (S intr) (CallWrite (control s).1 cmd))).2)).
  { intros intr cmd. split; [done|]. cbn [fst snd]. rewrite holds_after_app, Hh.
    destruct (init s) eqn:Hi; [|done]. by apply held_writes. }
  destruct u as [channel ends created cb| |intr|intr]; cbn [use]; [| |apply Hwrite|apply Hwrite].
  - destruct Hu as (Hc & Ht & c0 & c1 & -> & Hnd). unfold qemu_gps_init. destruct (init s) eqn:Hi; cbn [negb].
    { split; [done|]. cbn [fst snd]. by rewrite app_nil_r. }
    unfold gps_state_init. rewrite (proj2 (Z.ltb_ge _ _)), (proj2 (Z.eqb_neq _ _)) by done.
    split; [by intros _|]. cbn [fst snd]. rewrite holds_after_app, Hh. unfold resources. by rewrite Hi.
  - unfold qemu_gps_cleanup. destruct (init s) eqn:Hi.
    + split; [done|]. cbn [fst snd gps_state_done]. rewrite holds_after_app, Hh.
      exact (held_done s Hi Hd).
    + split; [done|]. cbn [fst snd]. by rewrite app_nil_r.
Qed.

(** As long as the system grants the channel, the socket pair and the thread,
    whatever order the interface is used in, no call is made on a descriptor or
    a thread that is not held, and exactly the thread, the channel and the pair
    are held while the state is initialised, nothing when it is not. *)
Theorem gps_resources_exact uses :
  Forall granted uses ->
  let st := fold_left use uses (gps_state_zero, []) in
  holds_after st.2 = Some (resources st.1).
Proof.
  intros H. apply (proj2 (A := distinct (fold_left use uses (gps_state_zero, [])).1)).
  change (in_step (fold_left use uses (gps_state_zero, []))).
  assert (Hi : in_step (gps_state_zero, [])) by (split; [by intros ?|done]).
  revert Hi. generalize (gps_state_zero, @nil Call) as st. induction H as [|u uses Hu _ IH]; intros st Hi; [done|].
  by apply IH, use_in_step.
Qed.

(** Without the daemon, [init] is set all the same: the cleanup writes to
    descriptor -1 and joins a thread that was never created. *)
Example cleanup_without_daemon :
  let st := fold_left use [UseInit (-1) None 0 None; UseCleanup] (gps_state_zero, []) in
  st.2 = [CallOpen (-1); CallWrite (-1) CMD_QUIT; CallJoin 0; CallClose (-1); CallClose (-1); CallClose (-1)]
  /\ holds_after st.2 = None.
Proof. split; reflexivity. Qed.

Lemma gps_resources_exact_witness :
  let uses := [UseInit 5 (Some (6, 7)) 1 None; UseStart 2; UseStop 0; UseCleanup; UseInit 5 (Some (6, 7)) 2 None] in
  Forall granted uses /\
  holds_after (fold_left use uses (gps_state_zero, [])).2 =
    Some (resources (fold_left use uses (gps_state_zero, [])).1).
Proof.
  intros uses. assert (H : Forall granted uses).
  { assert (Hn : NoDup [5; 6; 7]) by (apply (bool_decide_unpack _); reflexivity).
    repeat constructor; try done; exists 6, 7; by split. }
  split; [exact H|exact (gps_resources_exact uses H)].
Defined.
End Life.
