(* ===== verification/Mksdcard.v ===== *)
(** * mksdcard: a blank FAT32 image

    Models [src/emulator/mksdcard/mksdcard.c]: the geometry of the disk, the
    boot sector and the sector of file system information, the file that is
    written, and [main].  A sector is a block of bytes; [fwrite] may write less
    than it is asked to.  The clock is an argument. *)
From S2P Require Import Prelude.
Local Open Scope Z_scope.
#[local] Arguments Z.mul : simpl never.
#[local] Arguments Z.add : simpl never.
#[local] Arguments Z.sub : simpl never.
#[local] Arguments Z.quot : simpl never.

(** ** Geometry *)

Definition BYTES_PER_SECTOR : Z := 512.
Definition RESERVED_SECTORS : Z := 32.
Definition BACKUP_BOOT_SECTOR : Z := 6.
Definition NUM_FATS : Z := 2.
Definition MAX_SECTORS_PER_DISK : Z := 2147483647.
Definition MAX_DISK_SIZE : Z := MAX_SECTORS_PER_DISK * BYTES_PER_SECTOR.

(** A [long long] after wrap-around. *)
Definition wide (z : Z) : Z := (z + 2 ^ 63) mod 2 ^ 64 - 2 ^ 63.

(** Of the fields [tm_mday], [tm_mon], [tm_sec], [tm_min], [tm_hour], [tm_year]. *)
Definition get_serial_id (mday mon sec min hour year : Z) : Z :=
  let lo := u16 (mday + Z.shiftl (mon + 1) 8 + Z.shiftl sec 8) in
  let hi := u16 (min + Z.shiftl hour 8 + (year + 1900)) in
  s32 (lo + s32 (Z.shiftl hi 16)).

Definition get_sectors_per_cluster (disk_size : Z) : Z :=
  let disk_MB := Z.quot disk_size (1024 * 1024) in
  if disk_MB <? 260 then 1
  else if disk_MB <? 8192 then 4
  else if disk_MB <? 16384 then 8
  else if disk_MB <? 32768 then 16
  else 32.

Definition get_sectors_per_fat (disk_size sectors_per_cluster : Z) : Z :=
  let disk_size := wide (disk_size - RESERVED_SECTORS * BYTES_PER_SECTOR) in
  let disk_size := Z.quot disk_size BYTES_PER_SECTOR in
  let divider := Z.quot (256 * sectors_per_cluster + NUM_FATS) 2 in
  s32 (Z.quot (disk_size + (divider - 1)) divider).

(** ** Sectors *)

Definition POKEB (v : Z) : list Z := [u8 v].
Definition POKES (v : Z) : list Z := [u8 v; u8 (Z.shiftr v 8)].
Definition POKEW (v : Z) : list Z := [u8 v; u8 (Z.shiftr v 8); u8 (Z.shiftr v 16); u8 (Z.shiftr v 24)].

(** [strncpy (dst, src, n)], of the characters before the NUL of [src] *)
Definition strncpy (src : list Z) (n : nat) : list Z := take n (src ++ replicate n 0).

(** The stores into the boot sector, in their order. *)
Definition boot_stores (sectors_per_cluster sectors_per_fat sectors_per_disk serial_id : Z)
    (label : list Z) : list (Z * list Z) :=
  [(0, POKEB 0xeb);
   (1, POKEB 0x5a);
   (2, POKEB 0x90);
   (3, bytes "MSWIN4.1" ++ [0]);
   (0x0b, POKES BYTES_PER_SECTOR);
   (0xd, POKEB sectors_per_cluster);
   (0xe, POKES RESERVED_SECTORS);
   (0x10, POKEB NUM_FATS);
   (0x11, POKES 0);
   (0x13, POKES 0);
   (0x15, POKEB 0xF8);
   (0x16, POKES 0);
   (0x18, POKES 9);
   (0x1a, POKES 2);
   (0x1c, POKEW 0);
   (0x20, POKEW sectors_per_disk);
   (0x24, POKEW sectors_per_fat);
   (0x28, POKES 0);
   (0x2a, POKES 0);
   (0x2c, POKEW 2);
   (0x30, POKES 1);
   (0x32, POKES BACKUP_BOOT_SECTOR);
   (0x40, POKEB 0x80);
   (0x42, POKEB 0x29);
   (0x43, POKEW serial_id);
   (0x47, strncpy label 11);
   (0x52, bytes "FAT32   ");
   (BYTES_PER_SECTOR - 2, POKEB 0x55);
   (BYTES_PER_SECTOR - 1, POKEB 0xAA)].

Definition info_stores (free_count : Z) : list (Z * list Z) :=
  [(0, POKEW 0x41615252);
   (484, POKEW 0x61417272);
   (488, POKEW free_count);
   (492, POKEW 3);
   (508, POKEW 0xAA550000)].

Definition fat_stores : list (Z * list Z) :=
  [(0, POKEW 0x0ffffff8);
   (4, POKEW 0x0fffffff);
   (8, POKEW 0x0fffffff)].

Definition put_bytes (mem : list Z) (s : Z * list Z) : result (list Z) := write_block mem s.1 s.2.

(** [s_boot_sector] and [s_fsinfo_sector] after the call. *)
Definition boot_sector_init (boot info : list Z) (disk_size serial_id : Z) (label : option (list Z))
    : result (list Z * list Z) :=
  let sectors_per_cluster := get_sectors_per_cluster disk_size in
  let sectors_per_fat := get_sectors_per_fat disk_size sectors_per_cluster in
  let sectors_per_disk := s32 (Z.quot disk_size BYTES_PER_SECTOR) in
  let label := default (bytes "SDCARD") label in
  boot ← foldM put_bytes boot
           (boot_stores sectors_per_cluster sectors_per_fat sectors_per_disk serial_id label);
  let free_count := s32 (sectors_per_disk - 32 - 2 * sectors_per_fat) in
  info ← foldM put_bytes info (info_stores free_count);
  Ok (boot, info).

Definition fat_init (fat : list Z) : result (list Z) := foldM put_bytes fat fat_stores.

Definition zero_sector : list Z := replicate 512 0.

(** ** The file *)

Section Writing.
(** Of the n-th call of [fwrite]: [None] when everything is written, or how much is. *)
Context (wrote : nat -> option nat).

Record File : Type := mkFile { f_calls : nat; f_data : list Z }.

Definition fwrite (data : list Z) (f : File) : nat * File :=
  let n := match wrote (f_calls f) with Some k => Nat.min k (length data) | None => length data end in
  (n, mkFile (S (f_calls f)) (f_data f ++ take n data)).

(** True for a failure. *)
Definition write_sector (sector : list Z) (f : File) : result (bool * File) :=
  sector ← read_block sector 0 BYTES_PER_SECTOR;
  let '(n, f) := fwrite sector f in
  Ok (negb (Z.of_nat n =? BYTES_PER_SECTOR), f).

Definition EMPTY_SIZE : Z := 256 * 1024.

Fixpoint empty_loop (fuel : nat) (count : Z) (f : File) : result (bool * File) :=
  if 0 <? count then
    match fuel with
    | O => Err OutOfFuel
    | S fuel =>
        let len := if count <? EMPTY_SIZE then count else EMPTY_SIZE in
        let '(n, f) := fwrite (replicate (Z.to_nat len) 0) f in
        if negb (Z.of_nat n =? len) then Ok (true, f) else empty_loop fuel (count - len) f
    end
  else Ok (false, f).

Definition write_empty (count : Z) (f : File) : result (bool * File) :=
  let count := count * BYTES_PER_SECTOR in
  empty_loop (Z.to_nat (count / EMPTY_SIZE + 1)) count f.

(** [if (p) goto FailWrite; k] *)
Definition or_fail (p k : File -> result (bool * File)) (f : File) : result (bool * File) :=
  '(failed, f) ← p f;
  if failed : bool then Ok (true, f) else k f.

Definition write_image (boot info fat : list Z) (sectors_per_fat sectors_per_disk : Z)
    : File -> result (bool * File) :=
  or_fail (write_sector boot)
  (or_fail (write_sector info)
  (or_fail (if 0 <? BACKUP_BOOT_SECTOR
            then or_fail (write_empty (BACKUP_BOOT_SECTOR - 2))
                 (or_fail (write_sector boot)
                 (or_fail (write_sector info)
                          (write_empty (RESERVED_SECTORS - 2 - BACKUP_BOOT_SECTOR))))
            else write_empty (RESERVED_SECTORS - 2))
  (or_fail (write_sector fat)
  (or_fail (write_empty (sectors_per_fat - 1))
  (or_fail (write_sector fat)
  (or_fail (write_empty (sectors_per_fat - 1))
           (write_empty (sectors_per_disk - RESERVED_SECTORS - 2 * sectors_per_fat)))))))).

(** ** [main] *)

Definition is_digit (c : Z) : bool := (48 <=? c) && (c <=? 57).
Definition is_space (c : Z) : bool := (c =? 32) || ((9 <=? c) && (c <=? 13)).

Fixpoint skip_spaces (s : list Z) : list Z :=
  match s with c :: t => if is_space c then skip_spaces t else s | [] => [] end.

Fixpoint digits (s : list Z) (n : Z) : Z * list Z :=
  match s with c :: t => if is_digit c then digits t (n * 10 + (c - 48)) else (n, s) | [] => (n, []) end.

(** [strtoll (s, &end, 10)]: the value, the rest, and whether it is out of range. *)
Definition strtoll (s : list Z) : Z * list Z * bool :=
  let t := skip_spaces s in
  let '(neg, t) := match t with
                   | c :: u => if c =? 45 then (true, u) else if c =? 43 then (false, u) else (false, t)
                   | [] => (false, [])
                   end in
  match t with
  | c :: _ =>
      if is_digit c then
        let '(n, rest) := digits t 0 in
        let n := if neg : bool then - n else n in
        if n <? - 2 ^ 63 then (- 2 ^ 63, rest, true)
        else if 2 ^ 63 <=? n then (2 ^ 63 - 1, rest, true)
        else (n, rest, false)
      else (0, s, false)
  | [] => (0, s, false)
  end.

Inductive Outcome : Type :=
  | Usage
  | Failed
  | Created (image : list Z).

(** [argv] without the name of the program: the label and the other arguments,
    or [None] for the usage. *)
Fixpoint options (label : option (list Z)) (argv : list (list Z))
    : option (option (list Z) * list (list Z)) :=
  match argv with
  | (45 :: arg) :: rest =>
      match arg with
      | 108 :: [] =>
          match rest with
          | [] => None
          | arg :: rest => options (Some arg) rest
          end
      | 108 :: _ => options (Some (drop 2 arg)) rest
      | _ => None
      end
  | _ => Some (label, argv)
  end.

Definition scaled_size (size : list Z) : option Z :=
  let '(disk_size, end_, out_of_range) := strtoll size in
  if (disk_size <=? 0) || out_of_range then None
  else
    let disk_size :=
      match end_ with
      | c :: _ => if c =? 75 then wide (disk_size * 1024)
                  else if c =? 77 then wide (disk_size * (1024 * 1024))
                  else if c =? 71 then wide (disk_size * (1024 * 1024 * 1024))
                  else disk_size
      | [] => disk_size
      end in
    if disk_size <? 9 * 1024 * 1024 then None
    else if MAX_DISK_SIZE <? disk_size then None
    else Some disk_size.

(** [can_open]: whether [fopen] succeeds. *)
Definition main (serial_id : Z) (can_open : bool) (argv : list (list Z)) : result Outcome :=
  match options None argv with
  | Some (label, [size; file]) =>
      match scaled_size size with
      | None => Ok Usage
      | Some disk_size =>
          let sectors_per_disk := s32 (Z.quot disk_size BYTES_PER_SECTOR) in
          let sectors_per_fat := get_sectors_per_fat disk_size (get_sectors_per_cluster disk_size) in
          '(boot, info) ← boot_sector_init zero_sector zero_sector disk_size serial_id None;
          fat ← fat_init zero_sector;
          if negb can_open then Ok Failed
          else
            '(failed, f) ← write_image boot info fat sectors_per_fat sectors_per_disk (mkFile 0 []);
            Ok (if failed : bool then Failed else Created (f_data f))
      end
  | _ => Ok Usage
  end.
End Writing.

(** ** What is stored can be read back *)

(** A little-endian number. *)
Fixpoint le_value (bs : list Z) : Z :=
  match bs with [] => 0 | b :: bs => b + 256 * le_value bs end.

Definition field_at (mem : list Z) (off : Z) (n : nat) : result Z :=
  bs ← read_block mem off (Z.of_nat n); Ok (le_value bs).

Lemma POKEB_value v : 0 <= v < 2 ^ 8 -> le_value (POKEB v) = v.
Proof. intros Hv. unfold POKEB, u8. cbn [le_value]. rewrite Z.mod_small; lia. Qed.

Lemma POKES_value v : 0 <= v < 2 ^ 16 -> le_value (POKES v) = v.
Proof.
  intros Hv. unfold POKES, u8. cbn [le_value]. rewrite !Z.shiftr_div_pow2 by lia.
  change (2 ^ 8) with 256. Z.div_mod_to_equations. lia.
Qed.

Lemma POKEW_value v : le_value (POKEW v) = u32 v.
Proof.
  unfold POKEW, u8, u32. cbn [le_value]. rewrite !Z.shiftr_div_pow2 by lia.
  change (2 ^ 8) with 256. change (2 ^ 16) with (256 * 256). change (2 ^ 24) with (256 * 256 * 256).
  rewrite <-!Z.div_div by lia. change (2 ^ 32) with (256 * (256 * (256 * 256))).
  rewrite !Z.rem_mul_r by lia. rewrite !Z.div_div by lia. lia.
Qed.

(** Stores that fit, and reads that a store does not touch. *)
Definition fits (n : Z) (s : Z * list Z) : bool := (0 <=? s.1) && (s.1 + Z.of_nat (length s.2) <=? n).

Definition spares (off n : Z) (s : Z * list Z) : bool :=
  (s.1 + Z.of_nat (length s.2) <=? off) || (off + n <=? s.1).

Lemma put_bytes_fits mem s :
  fits (Z.of_nat (length mem)) s = true ->
  exists pre mid post, mem = pre ++ mid ++ post /\ s.1 = Z.of_nat (length pre) /\
    length mid = length s.2 /\ put_bytes mem s = Ok (pre ++ s.2 ++ post).
Proof.
  intros [H0 H1]%andb_prop. apply Z.leb_le in H0, H1.
  exists (take (Z.to_nat s.1) mem), (take (length s.2) (drop (Z.to_nat s.1) mem)),
    (drop (length s.2) (drop (Z.to_nat s.1) mem)).
  split; [by rewrite !take_drop|]. split; [len|]. split; [len|].
  unfold put_bytes, write_block, memcpy_at. rewrite !decide_True by lia. rewrite drop_drop. done.
Qed.

Lemma read_spared mem mem' s off n :
  put_bytes mem s = Ok mem' -> fits (Z.of_nat (length mem)) s = true -> spares off n s = true ->
  read_block mem' off n = read_block mem off n.
Proof.
  intros Hs Hf Hsp. destruct (put_bytes_fits mem s Hf) as (pre & mid & post & -> & Hp & Hm & Hs').
  rewrite Hs in Hs'. injection Hs' as ->. unfold read_block. rewrite !length_app, Hm.
  destruct (decide _) as [(H0 & Hn & Hle)|]; [|done]. unfold slice. f_equal.
  apply orb_prop in Hsp as [H%Z.leb_le|H%Z.leb_le].
  - rewrite !drop_app, !(drop_ge pre), !(drop_ge mid), !(drop_ge s.2) by lia. by rewrite Hm.
  - by rewrite !take_drop_commute, !take_app_le by lia.
Qed.

Lemma store_length mem s mem' : put_bytes mem s = Ok mem' -> length mem' = length mem.
Proof. apply write_block_length. Qed.

(** The block holds what its k-th store wrote, where no later one overwrites it. *)
Definition stored (stores : list (Z * list Z)) (mem : list Z) : Prop :=
  forall k a d off n, stores !! k = Some (a, d) ->
    a <= off -> off + Z.of_nat n <= a + Z.of_nat (length d) ->
    forallb (spares off (Z.of_nat n)) (drop (S k) stores) = true ->
    read_block mem off (Z.of_nat n) = Ok (take n (drop (Z.to_nat (off - a)) d)).

(** What a list of stores leaves at a place: the bytes of the last store there. *)
Lemma stores_read stores mem :
  forallb (fits (Z.of_nat (length mem))) stores = true ->
  exists mem', foldM put_bytes mem stores = Ok mem' /\ length mem' = length mem /\
    stored stores mem'.
Proof.
  assert (Hkeep : forall post m m' off n, foldM put_bytes m post = Ok m' ->
    forallb (fits (Z.of_nat (length m))) post = true -> forallb (spares off n) post = true ->
    read_block m' off n = read_block m off n).
  { intros post. induction post as [|s post IH]; intros m m' off n; [by intros [= ->]|].
    cbn [foldM forallb]. intros Hr [Hf Hfs]%andb_prop [Hs Hss]%andb_prop.
    destruct (put_bytes m s) as [m1|] eqn:E1; [|done]. cbn [mbind result_bind] in Hr.
    pose proof (store_length _ _ _ E1) as Hl.
    rewrite (IH m1 m' off n Hr) by (rewrite ?Hl; done). by apply (read_spared _ _ s). }
  revert mem. induction stores as [|s stores IH]; intros mem Hfit.
  { exists mem. by split_and!; [| |intros [|] *]. }
  cbn [forallb] in Hfit. apply andb_prop in Hfit as [Hf Hfs].
  destruct (put_bytes_fits mem s Hf) as (p & mid & q & Hmem & Hp & Hm & Hs). cbn [foldM]. rewrite Hs.
  cbn [mbind result_bind]. pose proof (store_length _ _ _ Hs) as Hl.
  destruct (IH (p ++ s.2 ++ q)) as (mem' & Hmem' & Hlen & Hread); [by rewrite Hl|].
  exists mem'. split; [done|]. split; [congruence|].
  intros k a d off n Hk Ha Hn Hpost. destruct k as [|k].
  - injection Hk as ->. cbn [fst snd drop] in *.
    rewrite (Hkeep stores _ mem' off (Z.of_nat n) Hmem') by (rewrite ?Hl; done). subst a.
    apply (block_in _ (p ++ take (Z.to_nat (off - Z.of_nat (length p))) d) _
      (drop n (drop (Z.to_nat (off - Z.of_nat (length p))) d) ++ q)); [|len|len].
    rewrite <-app_assoc. f_equal. rewrite (app_assoc (take n _)), take_drop, app_assoc, take_drop. done.
  - by apply (Hread k).
Qed.

(** ** The sectors *)

Lemma strncpy_length src n : length (strncpy src n) = n.
Proof. unfold strncpy. rewrite length_take, length_app, length_replicate. lia. Qed.

(** The disks that [main] accepts. *)
Definition accepted (disk_size : Z) : Prop := 9 * 1024 * 1024 <= disk_size <= MAX_DISK_SIZE.

(** Sectors of the disk, of a cluster, of a FAT; whole clusters of data. *)
Definition disk_sectors (disk_size : Z) : Z := Z.quot disk_size BYTES_PER_SECTOR.
Definition cluster_sectors (disk_size : Z) : Z := get_sectors_per_cluster disk_size.
Definition fat_sectors (disk_size : Z) : Z := get_sectors_per_fat disk_size (cluster_sectors disk_size).
Definition data_clusters (disk_size : Z) : Z :=
  (disk_sectors disk_size - RESERVED_SECTORS - NUM_FATS * fat_sectors disk_size)
    / cluster_sectors disk_size.

Lemma accepted_bounds disk_size :
  accepted disk_size ->
  disk_sectors disk_size = disk_size / 512 /\ 18432 <= disk_sectors disk_size <= MAX_SECTORS_PER_DISK.
Proof.
  unfold accepted, disk_sectors, MAX_DISK_SIZE, BYTES_PER_SECTOR, MAX_SECTORS_PER_DISK. intros H.
  rewrite Z.quot_div_nonneg by lia. split; [done|]. Z.div_mod_to_equations. lia.
Qed.

(** The size of a cluster, with what it says about the disk. *)
Lemma cluster_cases disk_size :
  accepted disk_size ->
  let c := cluster_sectors disk_size in let s := disk_sectors disk_size in
  (c = 1 /\ s < 532480) \/ (c = 4 /\ 532480 <= s) \/ (c = 8 /\ 16777216 <= s) \/
  (c = 16 /\ 33554432 <= s) \/ (c = 32 /\ 67108864 <= s).
Proof.
  intros H c s. destruct (accepted_bounds _ H) as [Hs _]. unfold c, s. rewrite Hs. clear c s Hs.
  unfold accepted, MAX_DISK_SIZE, MAX_SECTORS_PER_DISK, BYTES_PER_SECTOR in H.
  unfold cluster_sectors, get_sectors_per_cluster. rewrite Z.quot_div_nonneg by lia.
  repeat match goal with |- context [?a <? ?b] => destruct (Z.ltb_spec a b) end;
    Z.div_mod_to_equations; lia.
Qed.

(** The computation from Microsoft, without the casts. *)
Lemma fat_sectors_value disk_size :
  accepted disk_size ->
  let c := cluster_sectors disk_size in
  fat_sectors disk_size = (disk_sectors disk_size - 32 + 128 * c) / (128 * c + 1).
Proof.
  intros H c. pose proof (accepted_bounds _ H) as [Hs Hb]. pose proof (cluster_cases _ H) as Hc.
  fold c in Hc. cbv zeta in Hc. unfold fat_sectors, get_sectors_per_fat. fold c.
  unfold accepted, MAX_DISK_SIZE, MAX_SECTORS_PER_DISK in *.
  unfold RESERVED_SECTORS, BYTES_PER_SECTOR, NUM_FATS in *.
  assert (Hw : wide (disk_size - 32 * 512) = disk_size - 32 * 512)
    by (unfold wide; rewrite Z.mod_small; lia).
  rewrite Hw. assert (Hd : Z.quot (256 * c + 2) 2 = 128 * c + 1)
    by (rewrite Z.quot_div_nonneg by lia; Z.div_mod_to_equations; lia).
  rewrite Hd. assert (Hq : Z.quot (disk_size - 32 * 512) 512 = disk_sectors disk_size - 32)
    by (rewrite Hs, Z.quot_div_nonneg by lia; Z.div_mod_to_equations; lia).
  rewrite Hq, Z.quot_div_nonneg by lia.
  replace (disk_sectors disk_size - 32 + (128 * c + 1 - 1)) with (disk_sectors disk_size - 32 + 128 * c) by lia.
  apply s32_small. split; [apply (Z.le_trans _ 0); [lia|apply Z.div_pos; lia]|].
  apply Z.div_lt_upper_bound; lia.
Qed.

(** The sizes fit their fields. *)
Lemma fat_sizes disk_size :
  accepted disk_size ->
  let s := disk_sectors disk_size in let c := cluster_sectors disk_size in
  let f := fat_sectors disk_size in
  4 * (data_clusters disk_size + 2) <= f * BYTES_PER_SECTOR /\
  0 < data_clusters disk_size /\ 0 < f /\ RESERVED_SECTORS + 2 * f < s < 2 ^ 31 /\ 0 < c < 2 ^ 8 /\
  c * (128 * f - (data_clusters disk_size + 2)) <= 130 * c + f.
Proof.
  intros H s c f. pose proof (accepted_bounds _ H) as [_ Hb]. pose proof (cluster_cases _ H) as Hc.
  pose proof (fat_sectors_value _ H) as Hf. unfold data_clusters. fold s c f in Hb, Hc, Hf |- *.
  cbv zeta in Hc. unfold RESERVED_SECTORS, NUM_FATS, BYTES_PER_SECTOR, MAX_SECTORS_PER_DISK in *.
  clearbody s c f. clear H disk_size.
  destruct Hc as [[-> ?]|[[-> ?]|[[-> ?]|[[-> ?]|[-> ?]]]]];
    Z.div_mod_to_equations; lia.
Qed.

(** For every accepted size the computed FAT has an entry of four bytes for
    every cluster of the disk and for the two reserved ones, and the reserved
    sectors and both FATs leave room for clusters; no more than 130 entries, and
    one for as many sectors of the FAT as a cluster has, are wasted.  No number
    overflows an [int]. *)
Theorem fat_covers_disk disk_size :
  accepted disk_size ->
  let s := disk_sectors disk_size in let c := cluster_sectors disk_size in
  let f := fat_sectors disk_size in
  4 * (data_clusters disk_size + 2) <= f * BYTES_PER_SECTOR /\
  0 < data_clusters disk_size /\ 0 < f /\ RESERVED_SECTORS + 2 * f < s < 2 ^ 31 /\ 0 < c < 2 ^ 8 /\
  c * (128 * f - (data_clusters disk_size + 2)) <= 130 * c + f.
Proof. apply fat_sizes. Qed.

(** All stores of the boot sector fit. *)
Lemma boot_stores_fit c f s serial label :
  forallb (fits 512) (boot_stores c f s serial label) = true.
Proof.
  unfold boot_stores. cbn [forallb]. unfold fits at 26. cbn [fst snd]. rewrite strncpy_length. reflexivity.
Qed.

(** The number in a field is the one that was stored there. *)
Lemma field_read mem off d n :
  read_block mem off (Z.of_nat n) = Ok d -> field_at mem off n = Ok (le_value d).
Proof. intros H. unfold field_at. by rewrite H. Qed.

(** A field that is written by the k-th store, and by no later one. *)
Lemma stored_field stores mem k off d :
  stored stores mem -> stores !! k = Some (off, d) ->
  forallb (spares off (Z.of_nat (length d))) (drop (S k) stores) = true ->
  field_at mem off (length d) = Ok (le_value d).
Proof.
  intros Hst Hk Hs. apply field_read. rewrite (Hst k off d off (length d) Hk) by (done || lia).
  rewrite Z.sub_diag. f_equal. by apply take_ge.
Qed.

Lemma boot_sector_ok disk_size serial label :
  exists boot info, boot_sector_init zero_sector zero_sector disk_size serial label = Ok (boot, info) /\
    length boot = 512%nat /\ length info = 512%nat.
Proof.
  unfold boot_sector_init. cbv zeta.
  match goal with |- context [boot_stores ?c ?f ?s ?i ?l] =>
    destruct (stores_read (boot_stores c f s i l) zero_sector (boot_stores_fit _ _ _ _ _))
      as (boot & Hboot & Hb & _) end.
  match goal with |- context [info_stores ?n] =>
    destruct (stores_read (info_stores n) zero_sector eq_refl) as (info & Hinfo & Hi & _) end.
  exists boot, info. rewrite Hboot. cbn [mbind result_bind]. rewrite Hinfo.
  split; [reflexivity|]. split; [exact Hb|exact Hi].
Qed.

Lemma fat_ok : exists fat, fat_init zero_sector = Ok fat /\ length fat = 512%nat.
Proof. eexists. by split; [vm_compute|]. Qed.

Lemma eleven src : exists c0 c1 c2 c3 c4 c5 c6 c7 c8 c9 c10,
  strncpy src 11 = [c0; c1; c2; c3; c4; c5; c6; c7; c8; c9; c10].
Proof.
  pose proof (strncpy_length src 11) as H. revert H. generalize (strncpy src 11). intros d H.
  do 11 (destruct d as [|? d]; [done|]). destruct d; [|done]. by repeat eexists.
Qed.

(** The boot sector and the sector of information about the file system are
    filled without leaving them, and a driver that reads their fields finds the
    geometry that was computed, untruncated: the sizes of a sector, a cluster,
    a FAT and the disk, the reserved sectors, two FATs, the cluster of the root
    directory, the numbers of the sectors of information and of the copy, the
    label, the signatures; the free count is in sectors. *)
Theorem boot_sector_fields disk_size serial label :
  accepted disk_size ->
  exists boot info,
    boot_sector_init zero_sector zero_sector disk_size serial label = Ok (boot, info) /\
    length boot = 512%nat /\ length info = 512%nat /\
    read_block boot 0x03 8 = Ok (bytes "MSWIN4.1") /\
    field_at boot 0x0b 2 = Ok BYTES_PER_SECTOR /\
    field_at boot 0x0d 1 = Ok (cluster_sectors disk_size) /\
    field_at boot 0x0e 2 = Ok RESERVED_SECTORS /\
    field_at boot 0x10 1 = Ok NUM_FATS /\
    field_at boot 0x20 4 = Ok (disk_sectors disk_size) /\
    field_at boot 0x24 4 = Ok (fat_sectors disk_size) /\
    field_at boot 0x2c 4 = Ok 2 /\
    field_at boot 0x30 2 = Ok 1 /\
    field_at boot 0x32 2 = Ok BACKUP_BOOT_SECTOR /\
    read_block boot 0x47 11 = Ok (strncpy (default (bytes "SDCARD") label) 11) /\
    field_at boot 510 1 = Ok 0x55 /\ field_at boot 511 1 = Ok 0xAA /\
    field_at info 488 4 = Ok (disk_sectors disk_size - 32 - 2 * fat_sectors disk_size) /\
    field_at info 492 4 = Ok 3.
Proof.
  intros H. pose proof (fat_sizes _ H) as (_ & _ & Hf & Hs & Hc & _).
  unfold RESERVED_SECTORS in Hs. unfold boot_sector_init. fold (cluster_sectors disk_size). fold (fat_sectors disk_size).
  fold (disk_sectors disk_size).
  assert (Hsmall : s32 (disk_sectors disk_size) = disk_sectors disk_size)
    by (apply s32_small; lia). rewrite Hsmall.
  rewrite (s32_small (_ - _)) by lia.
  revert Hf Hs Hc. clear H Hsmall. generalize (cluster_sectors disk_size) as c.
  generalize (disk_sectors disk_size) as s. generalize (fat_sectors disk_size) as f.
  generalize (default (bytes "SDCARD") label) as l. intros l f s c Hf Hs Hc.
  destruct (stores_read (boot_stores c f s serial l) zero_sector (boot_stores_fit _ _ _ _ _))
    as (boot & Hboot & Hblen & Hb).
  destruct (stores_read (info_stores (s - 32 - 2 * f)) zero_sector eq_refl) as (info & Hinfo & Hilen & Hi).
  exists boot, info. rewrite Hboot. cbn [mbind result_bind]. rewrite Hinfo. split; [done|].
  split; [done|]. split; [done|].
  pose proof (eleven l) as (l0 & l1 & l2 & l3 & l4 & l5 & l6 & l7 & l8 & l9 & l10 & Hl).
  assert (Hfield : forall k off d, boot_stores c f s serial l !! k = Some (off, d) ->
    forallb (spares off (Z.of_nat (length d))) (drop (S k) (boot_stores c f s serial l)) = true ->
    field_at boot off (length d) = Ok (le_value d)) by (intros k off d; exact (stored_field _ _ k off d Hb)).
  unfold boot_stores in Hb, Hfield. rewrite Hl in Hb, Hfield |- *.
  split; [exact (Hb 3%nat 3 _ 3 8%nat eq_refl ltac:(done) ltac:(done) eq_refl)|].
  split; [exact (Hfield 4%nat 0x0b _ eq_refl eq_refl)|].
  split; [etrans; [exact (Hfield 5%nat 0x0d _ eq_refl eq_refl)|]; f_equal; apply POKEB_value; lia|].
  split; [exact (Hfield 6%nat 0x0e _ eq_refl eq_refl)|].
  split; [exact (Hfield 7%nat 0x10 _ eq_refl eq_refl)|].
  split; [etrans; [exact (Hfield 15%nat 0x20 _ eq_refl eq_refl)|]; rewrite POKEW_value; f_equal; apply u32_small; lia|].
  split; [etrans; [exact (Hfield 16%nat 0x24 _ eq_refl eq_refl)|]; rewrite POKEW_value; f_equal; apply u32_small; lia|].
  split; [exact (Hfield 19%nat 0x2c _ eq_refl eq_refl)|].
  split; [exact (Hfield 20%nat 0x30 _ eq_refl eq_refl)|].
  split; [exact (Hfield 21%nat 0x32 _ eq_refl eq_refl)|].
  split; [exact (Hb 25%nat 0x47 _ 0x47 11%nat eq_refl ltac:(done) ltac:(done) eq_refl)|].
  split; [exact (Hfield 27%nat 510 _ eq_refl eq_refl)|].
  split; [exact (Hfield 28%nat 511 _ eq_refl eq_refl)|].
  split; [|exact (stored_field _ _ 3 492 _ Hi eq_refl eq_refl)].
  etrans; [exact (stored_field _ _ 2 488 _ Hi eq_refl eq_refl)|].
  rewrite POKEW_value; f_equal; apply u32_small; lia.
Qed.

(** ** The image *)

Definition zeros (count : Z) : list Z := replicate (Z.to_nat (count * 512)) 0.

#[local] Arguments zeros : simpl never.

(** The layout of the comment in [main]. *)
Definition layout (boot info fat : list Z) (sectors_per_fat sectors_per_disk : Z) : list Z :=
  boot ++ info ++ (zeros 4 ++ boot ++ info ++ zeros 24) ++
  fat ++ zeros (sectors_per_fat - 1) ++ fat ++ zeros (sectors_per_fat - 1) ++
  zeros (sectors_per_disk - 32 - 2 * sectors_per_fat).

Section Images.
Context (wrote : nat -> option nat).

(** The code ends; when it succeeds it has written exactly these bytes, and it
    does succeed when every call of [fwrite] does. *)
Definition emits (p : File -> result (bool * File)) (bs : list Z) : Prop :=
  forall f, exists failed f', p f = Ok (failed, f') /\
    (failed = false -> f_data f' = f_data f ++ bs) /\ ((forall n, wrote n = None) -> failed = false).

Lemma fwrite_emits data f n f' :
  fwrite wrote data f = (n, f') ->
  (n = length data -> f_data f' = f_data f ++ data) /\
  ((forall k, wrote k = None) -> n = length data).
Proof.
  unfold fwrite. intros [= <- <-]. cbn [f_data]. split; [by intros ->; rewrite take_ge by lia|].
  intros Hall. by rewrite Hall.
Qed.

Lemma write_sector_emits sector : length sector = 512%nat -> emits (write_sector wrote sector) sector.
Proof.
  intros Hl f. unfold write_sector.
  rewrite (block_in sector [] sector [] 0 BYTES_PER_SECTOR) by (by rewrite ?app_nil_r || (rewrite Hl; done) || done).
  cbn [mbind result_bind]. destruct (fwrite wrote sector f) as [n f'] eqn:Ew.
  apply fwrite_emits in Ew as [Hd Hn]. eexists _, f'. split; [reflexivity|].
  unfold BYTES_PER_SECTOR. destruct (Z.eqb_spec (Z.of_nat n) 512) as [E|E]; cbn [negb].
  - split; [|done]. intros _. apply Hd. lia.
  - split; [done|]. intros Hall. specialize (Hn Hall). lia.
Qed.

Lemma empty_loop_emits fuel : forall count, count <= Z.of_nat fuel * EMPTY_SIZE ->
  emits (empty_loop wrote fuel count) (replicate (Z.to_nat count) 0).
Proof.
  unfold EMPTY_SIZE. induction fuel as [|fuel IH]; intros count Hfuel f; cbn [empty_loop].
  - rewrite (proj2 (Z.ltb_ge 0 count)) by lia. exists false, f. split; [done|].
    replace (Z.to_nat count) with 0%nat by lia. by rewrite app_nil_r.
  - destruct (Z.ltb_spec 0 count) as [Hpos|Hneg].
    2:{ exists false, f. split; [done|]. replace (Z.to_nat count) with 0%nat by lia. by rewrite app_nil_r. }
    unfold EMPTY_SIZE. set (len := if count <? 256 * 1024 then count else 256 * 1024).
    assert (Hlen : 0 < len <= count /\ count - len <= Z.of_nat fuel * (256 * 1024))
      by (unfold len; destruct (Z.ltb_spec count (256 * 1024)); lia).
    destruct (fwrite wrote (replicate (Z.to_nat len) 0) f) as [n f1] eqn:Ew.
    apply fwrite_emits in Ew as [Hd Hn]. rewrite length_replicate in Hd, Hn.
    destruct (Z.eqb_spec (Z.of_nat n) len) as [E|E]; cbn [negb].
    + destruct (IH (count - len) ltac:(lia) f1) as (failed & f' & Hr & Hok & Hall).
      exists failed, f'. split; [exact Hr|]. split; [|exact Hall]. intros Hfail.
      rewrite Hok, Hd, <-app_assoc, <-replicate_add by (done || lia). f_equal. f_equal. lia.
    + exists true, f1. split; [done|]. split; [done|]. intros Hall. specialize (Hn Hall). lia.
Qed.

Lemma write_empty_emits count : emits (write_empty wrote count) (zeros count).
Proof.
  unfold write_empty, zeros, BYTES_PER_SECTOR. intros f. apply empty_loop_emits. unfold EMPTY_SIZE.
  pose proof (Z.mul_succ_div_gt (count * 512) (256 * 1024) ltac:(lia)).
  destruct (Z.le_gt_cases 0 (count * 512)); lia.
Qed.

Lemma or_fail_emits p k bs1 bs2 : emits p bs1 -> emits k bs2 -> emits (or_fail p k) (bs1 ++ bs2).
Proof.
  intros Hp Hk f. unfold or_fail. destruct (Hp f) as (failed & f1 & -> & Hd1 & Hn1).
  cbn [mbind result_bind]. destruct failed.
  - exists true, f1. split; [done|]. split; [done|]. intros Hall. by specialize (Hn1 Hall).
  - destruct (Hk f1) as (failed & f2 & Hr & Hd2 & Hn2). exists failed, f2. split; [done|].
    split; [|done]. intros Hf. by rewrite Hd2, Hd1, app_assoc by done.
Qed.

Lemma write_image_emits boot info fat spf spd :
  length boot = 512%nat -> length info = 512%nat -> length fat = 512%nat ->
  emits (write_image wrote boot info fat spf spd) (layout boot info fat spf spd).
Proof.
  intros Hb Hi Hf. unfold write_image, layout. change (0 <? BACKUP_BOOT_SECTOR) with true. cbv iota.
  repeat apply or_fail_emits; by first [apply write_sector_emits|apply write_empty_emits].
Qed.

Lemma zeros_length count : 0 <= count -> Z.of_nat (length (zeros count)) = count * 512.
Proof. intros H. unfold zeros. rewrite length_replicate. lia. Qed.

Lemma layout_length boot info fat spf spd :
  length boot = 512%nat -> length info = 512%nat -> length fat = 512%nat ->
  0 < spf -> 32 + 2 * spf <= spd -> Z.of_nat (length (layout boot info fat spf spd)) = spd * 512.
Proof.
  intros Hb Hi Hf Hs Hd. unfold layout. rewrite !length_app, Hb, Hi, Hf.
  pose proof (zeros_length (spf - 1) ltac:(lia)). pose proof (zeros_length (spd - 32 - 2 * spf) ltac:(lia)).
  pose proof (zeros_length 4 ltac:(lia)). pose proof (zeros_length 24 ltac:(lia)). lia.
Qed.
End Images.

Lemma no_options size file :
  head size <> Some 45 -> options None [size; file] = Some (None, [size; file]).
Proof.
  intros H. destruct size as [|c s]; [done|]. cbn [head] in H. unfold options.
  repeat match goal with |- context [match ?x with _ => _ end] => is_var x; destruct x end; congruence.
Qed.

Section Main.
Context (wrote : nat -> option nat).

(** For every accepted size [main] ends, and either fails and leaves no file,
    or leaves the image: the boot sector and the information, their copies at
    sector 6, two identical FATs from sector 32 on with the first three entries
    reserved, and zeros; its length is the size rounded down to whole sectors.
    It succeeds when the file can be opened and every write does. *)
Theorem mksdcard_image serial can_open size file disk_size :
  head size <> Some 45 -> scaled_size size = Some disk_size ->
  exists boot info fat,
    boot_sector_init zero_sector zero_sector disk_size serial None = Ok (boot, info) /\
    fat_init zero_sector = Ok fat /\
    let image := layout boot info fat (fat_sectors disk_size) (disk_sectors disk_size) in
    Z.of_nat (length image) = disk_size - disk_size mod 512 /\
    (main wrote serial can_open [size; file] = Ok Failed \/
     main wrote serial can_open [size; file] = Ok (Created image)) /\
    (can_open = true -> (forall n, wrote n = None) ->
     main wrote serial can_open [size; file] = Ok (Created image)).
Proof.
  intros Hsize Hscaled.
  assert (Hacc : accepted disk_size).
  { unfold scaled_size in Hscaled. destruct (strtoll size) as [[n rest] oor].
    destruct (_ || _); [done|]. revert Hscaled.
    match goal with |- context [?x <? 9 * 1024 * 1024] => generalize x end. intros d.
    destruct (Z.ltb_spec d (9 * 1024 * 1024)); [done|].
    destruct (Z.ltb_spec MAX_DISK_SIZE d); [done|]. intros [= <-]. by split. }
  destruct (boot_sector_ok disk_size serial None) as (boot & info & Hinit & Hb & Hi).
  destruct fat_ok as (fat & Hfat & Hf).
  pose proof (fat_sizes _ Hacc) as (_ & _ & Hspf & Hspd & _).
  pose proof (accepted_bounds _ Hacc) as [Hquot _].
  exists boot, info, fat. split; [done|]. split; [done|]. cbv zeta.
  split.
  { unfold RESERVED_SECTORS in Hspd. rewrite (layout_length boot info fat _ _ Hb Hi Hf) by lia. rewrite Hquot.
    Z.div_mod_to_equations. lia. }
  assert (Hmain : main wrote serial can_open [size; file] =
    if negb can_open then Ok Failed
    else '(failed, f) ← write_image wrote boot info fat (fat_sectors disk_size) (disk_sectors disk_size)
           (mkFile 0 []); Ok (if failed : bool then Failed else Created (f_data f))).
  { unfold main. rewrite (no_options size) by done. rewrite Hscaled. cbv zeta. rewrite Hinit. cbn [mbind result_bind].
    rewrite Hfat. cbn [mbind result_bind].
    fold (disk_sectors disk_size). rewrite (s32_small (disk_sectors _)) by (unfold RESERVED_SECTORS in Hspd; lia).
    done. }
  rewrite Hmain. clear Hmain.
  destruct (write_image_emits wrote boot info fat (fat_sectors disk_size) (disk_sectors disk_size) Hb Hi Hf
    (mkFile 0 [])) as (failed & f' & Hr & Hd & Hn).
  destruct can_open; cbn [negb]; [|by split; [left|]]. rewrite Hr. cbn [mbind result_bind].
  destruct failed; [split; [by left|]; intros _ Hall; by specialize (Hn Hall)|].
  rewrite (Hd eq_refl). by split; [right|].
Qed.
End Main.

(** ** Concrete disks *)

Lemma nine_mega : accepted (9 * 1024 * 1024).
Proof. by vm_compute. Qed.

Lemma fat_covers_disk_witness :
  accepted (9 * 1024 * 1024) /\
  4 * (data_clusters (9 * 1024 * 1024) + 2) <= fat_sectors (9 * 1024 * 1024) * BYTES_PER_SECTOR.
Proof. split; [exact nine_mega|]. exact (proj1 (fat_covers_disk (9 * 1024 * 1024) nine_mega)). Defined.

Lemma boot_sector_fields_witness :
  exists boot info,
    boot_sector_init zero_sector zero_sector (9 * 1024 * 1024) 0x12345678 (Some (bytes "CARD")) =
      Ok (boot, info) /\
    field_at boot 0x20 4 = Ok 18432 /\ field_at boot 0x24 4 = Ok 143.
Proof.
  destruct (boot_sector_fields (9 * 1024 * 1024) 0x12345678 (Some (bytes "CARD")) nine_mega)
    as (boot & info & Hr & _ & _ & _ & _ & _ & _ & _ & Hs & Hf & _).
  exists boot, info. split; [exact Hr|]. split; [exact Hs|exact Hf].
Defined.

(** Nothing is short. *)
Definition all_written (n : nat) : option nat := None.

Lemma mksdcard_image_witness :
  exists boot info fat,
    boot_sector_init zero_sector zero_sector (9 * 1024 * 1024) 0 None = Ok (boot, info) /\
    main all_written 0 true [bytes "9M"; bytes "sd.img"] = Ok (Created (layout boot info fat 143 18432)).
Proof.
  destruct (mksdcard_image all_written 0 true (bytes "9M") (bytes "sd.img") (9 * 1024 * 1024)
    ltac:(discriminate) eq_refl) as (boot & info & fat & Hinit & _ & _ & _ & Hmain).
  exists boot, info, fat. split; [exact Hinit|exact (Hmain eq_refl (fun n => eq_refl))].
Defined.

(** The free count of the information sector counts sectors, not clusters. *)
Example free_count_in_sectors :
  let size := 260 * 1024 * 1024 in
  (disk_sectors size - 32 - 2 * fat_sectors size, data_clusters size) = (530372, 132593).
Proof. vm_compute. reflexivity. Qed.

(** A label is parsed, and ignored. *)
Lemma label_ignored wrote serial can_open label size file :
  head size <> Some 45 ->
  main wrote serial can_open [bytes "-l"; label; size; file] = main wrote serial can_open [size; file].
Proof.
  intros H. unfold main. change (options None [bytes "-l"; label; size; file]) with
    (options (Some label) [size; file]).
  rewrite no_options by done. destruct size as [|c s]; [done|]. cbn [head] in H. unfold options.
  repeat match goal with |- context [match ?x with _ => _ end] => is_var x; destruct x end; congruence || done.
Qed.

(** A label that follows its option directly loses its first character. *)
Example label_loses_character : options None [bytes "-lCARD"] = Some (Some (bytes "ARD"), []).
Proof. reflexivity. Qed.

(** A size that does not fit [long long] wraps around and is accepted. *)
Example size_wraps : scaled_size (bytes "17179869185G") = Some (1024 * 1024 * 1024).
Proof. vm_compute. reflexivity. Qed.
