(* ===== verification/Hashmap.v ===== *)
(** * libcutils: the hash map

    Models [src/libs/libcutils/hashmap.c]: chained buckets whose number is a
    power of two, a secondary hash, expansion past a load factor of 3/4.  Keys
    and values are pointers; [hash] and [equals] are the caller's functions.
    Whether an allocation succeeds is an argument of each operation that
    allocates.  [size_t] has [size_bits] bits. *)
From S2P Require Import Prelude.
Local Open Scope Z_scope.

Section Hashmap.
Context {K V : Type} `{EqDecision K}.
Context (NULL : V).
Context (hash : K -> Z) (equals : K -> K -> bool).
Context (size_bits : Z).

Definition size_t (z : Z) : Z := z mod 2 ^ size_bits.

(** [next] is the tail of the list. *)
Record Entry : Type := mkEntry { e_key : K; e_hash : Z; e_value : V }.

Record Hashmap : Type := mkHashmap {
  buckets : list (list Entry);
  bucketCount : Z;
  size : Z
}.

(** The loop of [hashmapCreate]: the first power of two above the minimum. *)
Fixpoint grow_count (fuel : nat) (count minimum : Z) : result Z :=
  match fuel with
  | O => Err OutOfFuel
  | S fuel =>
      if count <=? minimum then grow_count fuel (size_t (Z.shiftl count 1)) minimum else Ok count
  end.

(** [None]: an allocation failed. *)
Definition hashmapCreate (alloc_map alloc_buckets : bool) (initialCapacity : Z)
    : result (option Hashmap) :=
  if alloc_map then
    let minimumBucketCount := size_t (initialCapacity * 4) / 3 in
    count ← grow_count (Z.to_nat size_bits) 1 minimumBucketCount;
    if alloc_buckets
    then Ok (Some (mkHashmap (replicate (Z.to_nat count) []) count 0))
    else Ok None
  else Ok None.

(** [int] arithmetic wraps; [>>] is on [unsigned int]. *)
Definition mix1 (h : Z) : Z := s32 (h + Z.lnot (s32 (Z.shiftl h 9))).
Definition mix2 (h : Z) : Z := s32 (Z.lxor (u32 h) (Z.shiftr (u32 h) 14)).
Definition mix3 (h : Z) : Z := s32 (h + s32 (Z.shiftl h 4)).
Definition mix4 (h : Z) : Z := s32 (Z.lxor (u32 h) (Z.shiftr (u32 h) 10)).

Definition hashKey (key : K) : Z := mix4 (mix3 (mix2 (mix1 (hash key)))).

Definition hashmapSize (map : Hashmap) : Z := size map.

Definition calculateIndex (bucketCount hash : Z) : Z :=
  Z.land (size_t hash) (bucketCount - 1).

(** Lines 106-113: one entry moves to the front of its new bucket. *)
Definition move_entry (newBucketCount : Z) (newBuckets : list (list Entry)) (entry : Entry)
    : result (list (list Entry)) :=
  let index := Z.to_nat (calculateIndex newBucketCount (e_hash entry)) in
  b ← get newBuckets index;
  put newBuckets index (entry :: b).

Definition expandIfNecessary (alloc : bool) (map : Hashmap) : result Hashmap :=
  if size map >? size_t (bucketCount map * 3) / 4 then
    let newBucketCount := size_t (Z.shiftl (bucketCount map) 1) in
    if alloc then
      newBuckets ← foldM (fun nb bucket => foldM (move_entry newBucketCount) nb bucket)
                     (replicate (Z.to_nat newBucketCount) []) (buckets map);
      Ok (mkHashmap newBuckets newBucketCount (size map))
    else Ok map
  else Ok map.

(** [char_value]: the value of a plain [char] of the machine ([s8] or [u8]). *)
Definition hashmapHash (char_value : Z -> Z) (data : list Z) : Z :=
  fold_left (fun h b => s32 (s32 (h * 31) + char_value b)) data (s32 (Z.of_nat (length data))).

Definition createEntry (alloc : bool) (key : K) (hash : Z) (value : V) : option Entry :=
  if alloc then Some (mkEntry key hash value) else None.

Definition equalKeys (keyA : K) (hashA : Z) (keyB : K) (hashB : Z) : bool :=
  if decide (keyA = keyB) then true
  else if negb (hashA =? hashB) then false
  else equals keyA keyB.

(** What the loop of [hashmapPut] found in the bucket. *)
Inductive put_result : Type :=
  | Added (bucket : list Entry)
  | Replaced (oldValue : V) (bucket : list Entry)
  | NoMemory.

(** The loop over [p]: the result is the bucket as the loop leaves it. *)
Fixpoint put_loop (alloc : bool) (key : K) (hash : Z) (value : V) (p : list Entry) : put_result :=
  match p with
  | [] =>
      match createEntry alloc key hash value with
      | Some e => Added [e]
      | None => NoMemory
      end
  | current :: next =>
      if equalKeys (e_key current) (e_hash current) key hash
      then Replaced (e_value current) (mkEntry (e_key current) (e_hash current) value :: next)
      else match put_loop alloc key hash value next with
           | Added b => Added (current :: b)
           | Replaced v b => Replaced v (current :: b)
           | NoMemory => NoMemory
           end
  end.

Definition set_bucket (index : nat) (b : list Entry) (map : Hashmap) : result Hashmap :=
  bs ← put (buckets map) index b;
  Ok (mkHashmap bs (bucketCount map) (size map)).

Definition set_size (n : Z) (map : Hashmap) : Hashmap :=
  mkHashmap (buckets map) (bucketCount map) (size_t n).

Definition bucket_of (map : Hashmap) (hash : Z) : nat :=
  Z.to_nat (calculateIndex (bucketCount map) hash).

Definition hashmapPut (alloc_entry alloc_buckets : bool) (map : Hashmap) (key : K) (value : V)
    : result (V * Hashmap) :=
  let hash := hashKey key in
  let index := bucket_of map hash in
  b ← get (buckets map) index;
  match put_loop alloc_entry key hash value b with
  | Added b =>
      map ← set_bucket index b map;
      map ← expandIfNecessary alloc_buckets (set_size (size map + 1) map);
      Ok (NULL, map)
  | Replaced oldValue b => map ← set_bucket index b map; Ok (oldValue, map)
  | NoMemory => Ok (NULL, map)
  end.

Fixpoint find_entry (key : K) (hash : Z) (entry : list Entry) : option Entry :=
  match entry with
  | [] => None
  | e :: next => if equalKeys (e_key e) (e_hash e) key hash then Some e else find_entry key hash next
  end.

Definition hashmapGet (map : Hashmap) (key : K) : result V :=
  let hash := hashKey key in
  b ← get (buckets map) (bucket_of map hash);
  Ok (match find_entry key hash b with Some e => e_value e | None => NULL end).

Definition hashmapContainsKey (map : Hashmap) (key : K) : result bool :=
  let hash := hashKey key in
  b ← get (buckets map) (bucket_of map hash);
  Ok (match find_entry key hash b with Some _ => true | None => false end).

(** [initialValue (key, context)] is a function of the key. *)
Definition hashmapMemoize (alloc_entry alloc_buckets : bool) (map : Hashmap) (key : K)
    (initialValue : K -> V) : result (V * Hashmap) :=
  let hash := hashKey key in
  let index := bucket_of map hash in
  b ← get (buckets map) index;
  match find_entry key hash b with
  | Some e => Ok (e_value e, map)
  | None =>
      match createEntry alloc_entry key hash NULL with
      | None => Ok (NULL, map)
      | Some e =>
          let value := initialValue key in
          map ← set_bucket index (b ++ [mkEntry (e_key e) (e_hash e) value]) map;
          map ← expandIfNecessary alloc_buckets (set_size (size map + 1) map);
          Ok (value, map)
      end
  end.

Fixpoint remove_loop (key : K) (hash : Z) (p : list Entry) : option (V * list Entry) :=
  match p with
  | [] => None
  | current :: next =>
      if equalKeys (e_key current) (e_hash current) key hash then Some (e_value current, next)
      else '(v, b) ← remove_loop key hash next; Some (v, current :: b)
  end.

Definition hashmapRemove (map : Hashmap) (key : K) : result (V * Hashmap) :=
  let hash := hashKey key in
  let index := bucket_of map hash in
  b ← get (buckets map) index;
  match remove_loop key hash b with
  | Some (value, b) =>
      map ← set_bucket index b map;
      Ok (value, set_size (size map - 1) map)
  | None => Ok (NULL, map)
  end.

(** [callback] on an accumulator, its [bool] result deciding whether to go on. *)
Fixpoint for_each_bucket {A} (callback : K -> V -> A -> A * bool) (entry : list Entry) (a : A)
    : A * bool :=
  match entry with
  | [] => (a, true)
  | e :: next =>
      let '(a, go_on) := callback (e_key e) (e_value e) a in
      if go_on then for_each_bucket callback next a else (a, false)
  end.

Fixpoint for_each_buckets {A} (callback : K -> V -> A -> A * bool) (bs : list (list Entry)) (a : A)
    : A :=
  match bs with
  | [] => a
  | b :: bs =>
      let '(a, go_on) := for_each_bucket callback b a in
      if go_on then for_each_buckets callback bs a else a
  end.

Definition hashmapForEach {A} (map : Hashmap) (callback : K -> V -> A -> A * bool) (a : A) : A :=
  for_each_buckets callback (buckets map) a.

Definition hashmapCurrentCapacity (map : Hashmap) : Z := size_t (bucketCount map * 3) / 4.

Fixpoint bucket_collisions (entry : list Entry) (collisions : Z) : Z :=
  match entry with
  | [] => collisions
  | _ :: next =>
      bucket_collisions next
        (match next with [] => collisions | _ => size_t (collisions + 1) end)
  end.

Definition hashmapCountCollisions (map : Hashmap) : Z :=
  fold_left (fun c b => bucket_collisions b c) (buckets map) 0.

End Hashmap.

(** [hashmapIntHash], [hashmapIntEquals]: keys that point to integers. *)
Definition hashmapIntHash (key : Z) : Z := key.
Definition hashmapIntEquals (keyA keyB : Z) : bool := keyA =? keyB.

(** ** Specification

    [same] is what the map takes for one key; the caller promises that it is an
    equivalence and that equal keys have equal hashes. *)
Section Spec.
Context {K V : Type} `{EqDecision K} (NULL : V) (hash : K -> Z) (equals : K -> K -> bool).
Context (size_bits : Z).

Definition same (a b : K) : Prop := a = b \/ equals a b = true.

#[export] Instance same_dec a b : Decision (same a b).
Proof. unfold same. apply _. Defined.

Class HashContract : Prop := {
  hc_hash : forall a b, equals a b = true -> hash a = hash b;
  hc_sym : forall a b, equals a b = true -> equals b a = true;
  hc_trans : forall a b c, equals a b = true -> equals b c = true -> same a c
}.

Context {HC : HashContract}.
Implicit Types (map : Hashmap (K := K) (V := V)) (e : Entry (K := K) (V := V)).

Lemma same_refl a : same a a.
Proof. by left. Qed.
Lemma same_sym a b : same a b -> same b a.
Proof. intros [->|H]; [by left|right; by apply hc_sym]. Qed.
Lemma same_trans a b c : same a b -> same b c -> same a c.
Proof. intros [->|H1] [->|H2]; [by left|by right|by right|by eapply hc_trans]. Qed.
Lemma same_hashKey a b : same a b -> hashKey hash a = hashKey hash b.
Proof. intros [->|H]; [done|]. unfold hashKey. by rewrite (hc_hash a b H). Qed.

(** Entries with pairwise different keys. *)
Fixpoint distinct (l : list (Entry (K := K) (V := V))) : Prop :=
  match l with
  | [] => True
  | e :: l => Forall (fun e' => ~ same (e_key e) (e_key e')) l /\ distinct l
  end.

Definition entries map : list Entry := concat (buckets map).

(** The value of the first entry with the key; by [distinct], the only one. *)
Fixpoint lookup_key (l : list (Entry (K := K) (V := V))) (k : K) : option V :=
  match l with
  | [] => None
  | e :: l => if decide (same (e_key e) k) then Some (e_value e) else lookup_key l k
  end.

(** ** Lists of entries *)

Lemma distinct_perm l l' : l ≡ₚ l' -> distinct l -> distinct l'.
Proof.
  induction 1 as [|e l l' Hp IH|e1 e2 l|l1 l2 l3 _ IH1 _ IH2]; simpl; auto.
  - intros [Hf Hd]. split; [by rewrite <-Hp|auto].
  - intros [[H1 Hf1]%Forall_cons [Hf2 Hd]]. split_and!; [|done|done].
    constructor; [|done]. intros Hs. by apply H1, same_sym.
Qed.

Lemma distinct_app l1 l2 : distinct (l1 ++ l2) -> distinct l1 /\ distinct l2.
Proof.
  induction l1 as [|e l1 IH]; simpl; [done|].
  intros [[Hf1 Hf2]%Forall_app Hd]. by destruct (IH Hd).
Qed.

Lemma lookup_key_some l k v :
  distinct l -> lookup_key l k = Some v <-> exists e, e ∈ l /\ same (e_key e) k /\ e_value e = v.
Proof.
  induction l as [|e l IH]; simpl; intros Hd.
  { split; [done|]. intros (e & H%elem_of_nil & _). done. }
  destruct Hd as [Hf Hd]. specialize (IH Hd). destruct (decide (same (e_key e) k)) as [Hs|Hs].
  - split; [intros [= <-]; exists e; split_and!; [by left|done|done]|].
    intros (e' & [->|Hin]%elem_of_cons & Hs' & <-); [done|].
    rewrite Forall_forall in Hf. destruct (Hf e' Hin).
    eapply same_trans; [exact Hs|by apply same_sym].
  - rewrite IH. split.
    + intros (e' & ? & ? & ?). exists e'. split_and!; [by right|done|done].
    + intros (e' & [->|Hin]%elem_of_cons & Hs' & <-); [done|by exists e'].
Qed.

Lemma lookup_key_ext l l' k :
  distinct l -> distinct l' ->
  (forall e, same (e_key e) k -> e ∈ l <-> e ∈ l') -> lookup_key l k = lookup_key l' k.
Proof.
  intros Hd Hd' Hiff. apply option_eq. intros v. rewrite !lookup_key_some by done.
  split; intros (e & Hin & Hs & <-); exists e; split_and!; try done; by apply Hiff.
Qed.

Lemma lookup_key_perm l l' k : l ≡ₚ l' -> distinct l -> lookup_key l k = lookup_key l' k.
Proof.
  intros Hp Hd. apply lookup_key_ext; [done|by eapply distinct_perm|].
  intros e _. by rewrite Hp.
Qed.

Lemma lookup_key_none l k : lookup_key l k = None -> Forall (fun e => ~ same (e_key e) k) l.
Proof.
  induction l as [|e l IH]; simpl; [constructor|].
  destruct (decide _); [done|]. by constructor; auto.
Qed.

(** The entries through one bucket. *)
Lemma concat_bucket (bs : list (list (Entry (K := K) (V := V)))) i b :
  bs !! i = Some b -> exists rest, concat bs ≡ₚ b ++ rest /\
    (forall b', concat (<[i := b']> bs) ≡ₚ b' ++ rest).
Proof.
  intros Hi. exists (concat (take i bs) ++ concat (drop (S i) bs)). split.
  - rewrite <-(take_drop_middle bs i b Hi) at 1. rewrite concat_app. simpl. solve_Permutation.
  - intros b'. apply lookup_lt_Some in Hi. rewrite insert_take_drop by done.
    rewrite concat_app. simpl. solve_Permutation.
Qed.

#[local] Opaque hashKey.

(** ** The invariant *)

Definition placed (count : Z) (bs : list (list (Entry (K := K) (V := V)))) : Prop :=
  forall i b e, bs !! i = Some b -> e ∈ b ->
    e_hash e = hashKey hash (e_key e) /\
    Z.to_nat (calculateIndex size_bits count (e_hash e)) = i.

Record wf map : Prop := {
  wf_count : exists n, 0 <= n < size_bits /\ bucketCount map = 2 ^ n;
  wf_length : Z.of_nat (length (buckets map)) = bucketCount map;
  wf_placed : placed (bucketCount map) (buckets map);
  wf_distinct : distinct (entries map);
  wf_size : size map = Z.of_nat (length (entries map)) /\ size map < 2 ^ size_bits
}.

Lemma calculateIndex_range n h :
  0 <= n < size_bits -> 0 <= calculateIndex size_bits (2 ^ n) h < 2 ^ n.
Proof.
  intros Hn. unfold calculateIndex. rewrite Z.sub_1_r, <-Z.ones_equiv, Z.land_ones by lia.
  apply Z.mod_pos_bound. lia.
Qed.

Lemma bucket_exists map h :
  wf map -> exists b, buckets map !! bucket_of size_bits map h = Some b.
Proof.
  intros [(n & Hn & Hc) Hl _ _ _]. apply lookup_lt_is_Some. unfold bucket_of. rewrite Hc in *.
  pose proof (calculateIndex_range n h Hn). lia.
Qed.

(** A key is only ever in the bucket of its hash. *)
Lemma lookup_in_bucket map k b :
  wf map -> buckets map !! bucket_of size_bits map (hashKey hash k) = Some b ->
  lookup_key (entries map) k = lookup_key b k /\ distinct b.
Proof.
  intros Hwf Hb. destruct (concat_bucket _ _ _ Hb) as (rest & Hp & _).
  pose proof (distinct_perm _ _ Hp (wf_distinct _ Hwf)) as Hd.
  destruct (distinct_app _ _ Hd) as [Hdb _]. split; [|done].
  apply lookup_key_ext; [apply (wf_distinct _ Hwf)|done|]. intros e Hs. split.
  - intros Hin. apply elem_of_concat in Hin as (b' & Hin & (i & Hi)%list_elem_of_lookup_1).
    destruct (wf_placed _ Hwf i b' e Hi Hin) as [Hh Hx].
    rewrite Hh, (same_hashKey _ _ Hs) in Hx. unfold bucket_of in Hb.
    rewrite Hx, Hi in Hb. by injection Hb as ->.
  - intros Hin. unfold entries. rewrite Hp. apply elem_of_app. by left.
Qed.

Lemma equalKeys_same e k :
  e_hash e = hashKey hash (e_key e) ->
  equalKeys equals (e_key e) (e_hash e) k (hashKey hash k) = bool_decide (same (e_key e) k).
Proof.
  intros Hh. unfold equalKeys. rewrite Hh. case_decide as E.
  { rewrite bool_decide_true; [done|by left]. }
  destruct (hashKey hash (e_key e) =? hashKey hash k) eqn:Eh; simpl.
  - destruct (equals (e_key e) k) eqn:Eq; symmetry; [apply bool_decide_eq_true; by right|].
    apply bool_decide_eq_false. intros [|]; congruence.
  - symmetry. apply bool_decide_eq_false. intros Hs. apply same_hashKey in Hs. lia.
Qed.

Definition hashed (l : list (Entry (K := K) (V := V))) : Prop :=
  Forall (fun e => e_hash e = hashKey hash (e_key e)) l.

Lemma bucket_hashed map i b : wf map -> buckets map !! i = Some b -> hashed b.
Proof.
  intros Hwf Hb. apply Forall_forall. intros e Hin. by apply (wf_placed _ Hwf i b e).
Qed.

Lemma find_entry_lookup b k :
  hashed b -> e_value <$> find_entry equals k (hashKey hash k) b = lookup_key b k.
Proof.
  induction 1 as [|e b He _ IH]; simpl; [done|]. rewrite equalKeys_same by done.
  case_bool_decide; [by rewrite decide_True|by rewrite decide_False].
Qed.

(** ** Expansion *)

Definition moved_ok (count : Z) (nb : list (list (Entry (K := K) (V := V)))) : Prop :=
  Z.of_nat (length nb) = count /\ placed count nb.

Lemma move_entry_ok n nb e :
  0 <= n < size_bits -> moved_ok (2 ^ n) nb -> e_hash e = hashKey hash (e_key e) ->
  exists nb', move_entry size_bits (2 ^ n) nb e = Ok nb' /\ moved_ok (2 ^ n) nb' /\
    concat nb' ≡ₚ e :: concat nb.
Proof.
  intros Hn [Hl Hp] He. unfold move_entry.
  pose proof (calculateIndex_range n (e_hash e) Hn) as Hr.
  destruct (lookup_lt_is_Some_2 nb (Z.to_nat (calculateIndex size_bits (2 ^ n) (e_hash e))))
    as [b Hb]; [lia|].
  destruct (concat_bucket _ _ _ Hb) as (rest & Hc & Hc').
  unfold get, put. rewrite Hb. cbn [from_option_or mbind result_bind].
  rewrite decide_True by lia. eexists. split; [done|]. split; [split|].
  - by rewrite length_insert.
  - intros i b' e' Hi Hin. apply list_lookup_insert_Some in Hi as [(<- & <- & _)|[Hne Hi]].
    + apply elem_of_cons in Hin as [->|Hin]; [done|by eapply Hp].
    + by eapply Hp.
  - by rewrite Hc', Hc.
Qed.

Lemma move_entries_ok n nb l :
  0 <= n < size_bits -> moved_ok (2 ^ n) nb -> hashed l ->
  exists nb', foldM (move_entry size_bits (2 ^ n)) nb l = Ok nb' /\ moved_ok (2 ^ n) nb' /\
    concat nb' ≡ₚ concat nb ++ l.
Proof.
  intros Hn Hok Hl. revert nb Hok. induction Hl as [|e l He _ IH]; intros nb Hok.
  { exists nb. by rewrite app_nil_r. }
  destruct (move_entry_ok n nb e Hn Hok He) as (nb1 & Hm & Hok1 & Hp1).
  destruct (IH nb1 Hok1) as (nb2 & Hf & Hok2 & Hp2).
  exists nb2. cbn [foldM]. rewrite Hm. cbn [mbind result_bind]. split; [done|]. split; [done|].
  rewrite Hp2, Hp1. simpl. apply Permutation_middle.
Qed.

Lemma concat_replicate_nil {A} n : concat (replicate n (@nil A)) = [].
Proof. by induction n. Qed.

Lemma entries_hashed map : wf map -> hashed (entries map).
Proof.
  intros Hwf. apply Forall_forall. intros e Hin.
  apply elem_of_concat in Hin as (b & Hin & (i & Hi)%list_elem_of_lookup_1).
  by apply (wf_placed _ Hwf i b e).
Qed.

(** The bucket array never outgrows [size_t] when the entries fit in memory. *)
Lemma expandIfNecessary_ok alloc map :
  4 <= size_bits -> wf map -> size map <= 2 ^ (size_bits - 4) ->
  exists map', expandIfNecessary size_bits alloc map = Ok map' /\ wf map' /\
    entries map' ≡ₚ entries map /\ size map' = size map.
Proof.
  intros Hbits Hwf Hsize. unfold expandIfNecessary.
  destruct (size map >? _) eqn:Hover; [|by exists map].
  destruct alloc; [|by exists map].
  destruct (wf_count _ Hwf) as (n & Hn & Hc). rewrite Hc in *.
  assert (Hn1 : n < size_bits - 1).
  { destruct (decide (n = size_bits - 1)) as [->|]; [|lia]. exfalso.
    unfold size_t in Hover.
    assert (E : 2 ^ (size_bits - 1) * 3 = 2 ^ (size_bits - 1) + 1 * 2 ^ size_bits).
    { replace size_bits with (Z.succ (size_bits - 1)) at 3 by lia. rewrite Z.pow_succ_r by lia. lia. }
    rewrite E, Z.mod_add in Hover by (apply Z.pow_nonzero; lia).
    rewrite Z.mod_small in Hover by (split; [lia|apply Z.pow_lt_mono_r; lia]).
    assert (E2 : 2 ^ (size_bits - 1) = 2 ^ (size_bits - 4) * 8).
    { replace (size_bits - 1) with (size_bits - 4 + 3) by lia. by rewrite Z.pow_add_r by lia. }
    rewrite E2 in Hover. replace (2 ^ (size_bits - 4) * 8) with (2 ^ (size_bits - 4) * 2 * 4) in Hover by lia.
    rewrite Z.div_mul in Hover by lia. lia. }
  assert (Enew : size_t size_bits (Z.shiftl (2 ^ n) 1) = 2 ^ (n + 1)).
  { unfold size_t. rewrite Z.shiftl_mul_pow2, <-Z.pow_add_r by lia.
    apply Z.mod_small. split; [lia|apply Z.pow_lt_mono_r; lia]. }
  rewrite Enew, foldM_concat.
  destruct (move_entries_ok (n + 1) (replicate (Z.to_nat (2 ^ (n + 1))) []) (entries map))
    as (nb & Hf & [Hl Hp] & Hperm); [lia| |by apply entries_hashed|].
  { split; [rewrite length_replicate; lia|]. intros i b e Hi Hin.
    apply lookup_replicate in Hi as [-> _]. by apply elem_of_nil in Hin. }
  unfold entries in Hf. rewrite Hf. cbn [mbind result_bind].
  eexists. split; [done|]. rewrite concat_replicate_nil in Hperm. simpl in Hperm.
  split; [|by split]. destruct (wf_size _ Hwf). split; simpl; try done.
  - exists (n + 1). split; [lia|done].
  - eapply distinct_perm; [symmetry; exact Hperm|apply (wf_distinct _ Hwf)].
  - by rewrite Hperm.
Qed.

(** ** Changing one bucket *)

Lemma placed_insert count (bs : list (list (Entry (K := K) (V := V)))) i b b' :
  placed count bs -> bs !! i = Some b ->
  (forall e, e ∈ b' -> e_hash e = hashKey hash (e_key e) /\
     Z.to_nat (calculateIndex size_bits count (e_hash e)) = i) ->
  placed count (<[i := b']> bs).
Proof.
  intros Hp Hi Hb j c e Hj Hin. apply list_lookup_insert_Some in Hj as [(<- & <- & _)|[_ Hj]].
  - by apply Hb.
  - by eapply Hp.
Qed.

Lemma set_bucket_eq map i b b' :
  buckets map !! i = Some b ->
  set_bucket i b' map = Ok (mkHashmap (<[i := b']> (buckets map)) (bucketCount map) (size map)).
Proof.
  intros Hi. unfold set_bucket, put. apply lookup_lt_Some in Hi. by rewrite decide_True.
Qed.

(** A bucket replaced by one with entries of its own keys. *)
Lemma wf_set_bucket map i b b' n :
  wf map -> buckets map !! i = Some b ->
  (forall e, e ∈ b' -> e_hash e = hashKey hash (e_key e) /\
     Z.to_nat (calculateIndex size_bits (bucketCount map) (e_hash e)) = i) ->
  distinct (concat (<[i := b']> (buckets map))) ->
  n = Z.of_nat (length (concat (<[i := b']> (buckets map)))) -> n < 2 ^ size_bits ->
  wf (mkHashmap (<[i := b']> (buckets map)) (bucketCount map) n).
Proof.
  intros [] Hi Hb Hd Hn Hlt. split; simpl; try done.
  - by rewrite length_insert.
  - by eapply placed_insert.
Qed.

Lemma put_loop_spec alloc k v b :
  hashed b ->
  match lookup_key b k with
  | Some old => exists b1 c b2, b = b1 ++ c :: b2 /\ same (e_key c) k /\ e_value c = old /\
      put_loop equals alloc k (hashKey hash k) v b =
        Replaced old (b1 ++ mkEntry (e_key c) (e_hash c) v :: b2)
  | None => put_loop equals alloc k (hashKey hash k) v b =
      if alloc then Added (b ++ [mkEntry k (hashKey hash k) v]) else NoMemory
  end.
Proof.
  induction 1 as [|e b He _ IH]; simpl.
  { unfold createEntry. by destruct alloc. }
  rewrite equalKeys_same by done. case_bool_decide as Hs.
  - rewrite decide_True by done. by exists [], e, b.
  - rewrite decide_False by done. destruct (lookup_key b k) as [old|].
    + destruct IH as (b1 & c & b2 & -> & ? & ? & ->). by exists (e :: b1), c, b2.
    + rewrite IH. by destruct alloc.
Qed.

(** Lookups after an entry is added, replaced or removed. *)
Lemma distinct_cons_fresh l k h v :
  distinct l -> lookup_key l k = None -> distinct (mkEntry k h v :: l).
Proof.
  intros Hd Hn. split; [|done]. apply lookup_key_none in Hn. eapply Forall_impl; [exact Hn|].
  intros e He Hs. by apply He, same_sym.
Qed.

Lemma lookup_key_replaced c k v h l k' :
  same (e_key c) k ->
  lookup_key (mkEntry (e_key c) h v :: l) k' =
    if decide (same k k') then Some v else lookup_key (c :: l) k'.
Proof.
  intros Hs. simpl. destruct (decide (same k k')) as [H1|H1], (decide (same (e_key c) k')) as [H2|H2];
    try done.
  - destruct H2. by eapply same_trans.
  - destruct H1. eapply same_trans; [|done]. by apply same_sym.
Qed.

(** Replacing the value of an entry of a bucket. *)
Lemma replace_entry_ok map i b1 c b2 v :
  wf map -> buckets map !! i = Some (b1 ++ c :: b2) ->
  let c' := mkEntry (e_key c) (e_hash c) v in
  let map' := mkHashmap (<[i := b1 ++ c' :: b2]> (buckets map)) (bucketCount map) (size map) in
  wf map' /\ exists l, entries map ≡ₚ c :: l /\ entries map' ≡ₚ c' :: l.
Proof.
  intros Hwf Hb c' map'.
  destruct (concat_bucket _ _ _ Hb) as (rest & Hp & Hp'). destruct (wf_size _ Hwf) as [Hsz Hlt].
  assert (Hpc : entries map ≡ₚ c :: b1 ++ b2 ++ rest)
    by (unfold entries; rewrite Hp; solve_Permutation).
  assert (Hpc' : entries map' ≡ₚ c' :: b1 ++ b2 ++ rest)
    by (unfold entries; simpl; rewrite Hp'; solve_Permutation).
  split; [|by eexists].
  eapply wf_set_bucket; [done|exact Hb| | | |lia].
  - intros e Hin. apply elem_of_app in Hin as [Hin|[->|Hin]%elem_of_cons].
    + apply (wf_placed _ Hwf _ _ e Hb). apply elem_of_app. by left.
    + apply (wf_placed _ Hwf _ _ c Hb). apply elem_of_app. right. by left.
    + apply (wf_placed _ Hwf _ _ e Hb). apply elem_of_app. right. by right.
  - eapply distinct_perm; [symmetry; exact Hpc'|].
    pose proof (distinct_perm _ _ Hpc (wf_distinct _ Hwf)) as [? ?]. by split.
  - rewrite Hsz. unfold entries in Hpc, Hpc'. simpl in Hpc'. by rewrite Hpc', Hpc.
Qed.

(** Adding an entry for a new key at the end of its bucket. *)
Lemma add_entry_ok map b k v :
  let i := bucket_of size_bits map (hashKey hash k) in
  let e := mkEntry k (hashKey hash k) v in
  let map' := mkHashmap (<[i := b ++ [e]]> (buckets map)) (bucketCount map) (size map + 1) in
  wf map -> buckets map !! i = Some b -> lookup_key b k = None ->
  size map + 1 < 2 ^ size_bits ->
  wf map' /\ entries map' ≡ₚ e :: entries map.
Proof.
  intros i e map' Hwf Hb Hn Hlt. destruct (concat_bucket _ _ _ Hb) as (rest & Hp & Hp').
  destruct (wf_size _ Hwf) as [Hsz _].
  assert (Hpe : entries map' ≡ₚ e :: entries map)
    by (unfold map', entries; simpl; rewrite Hp', Hp; solve_Permutation).
  split; [|done]. eapply wf_set_bucket; [done|exact Hb| | | |lia].
  - intros e' [Hin| ->%list_elem_of_singleton]%elem_of_app; [|done].
    by apply (wf_placed _ Hwf _ _ e' Hb).
  - eapply distinct_perm; [symmetry; exact Hpe|].
    apply distinct_cons_fresh; [apply (wf_distinct _ Hwf)|].
    by rewrite (proj1 (lookup_in_bucket map k b Hwf Hb)).
  - unfold entries in Hpe. simpl in Hpe. rewrite Hpe. simpl. unfold entries in Hsz. lia.
Qed.

(** What [hashmapPut] does to the entries: the key of a replaced entry stays. *)
Lemma hashmapPut_entries alloc alloc_buckets map k v :
  4 <= size_bits -> wf map -> size map < 2 ^ (size_bits - 4) ->
  exists map', hashmapPut NULL hash equals size_bits alloc alloc_buckets map k v
      = Ok (default NULL (lookup_key (entries map) k), map') /\ wf map' /\
    match lookup_key (entries map) k with
    | Some old => exists c l, entries map ≡ₚ c :: l /\ same (e_key c) k /\ e_value c = old /\
        entries map' ≡ₚ mkEntry (e_key c) (e_hash c) v :: l
    | None => if alloc then entries map' ≡ₚ mkEntry k (hashKey hash k) v :: entries map else map' = map
    end.
Proof.
  intros Hbits Hwf Hsize. unfold hashmapPut.
  destruct (bucket_exists map (hashKey hash k) Hwf) as [b Hb].
  unfold get. rewrite Hb. cbn [from_option_or mbind result_bind].
  destruct (lookup_in_bucket map k b Hwf Hb) as [-> Hdb].
  pose proof (put_loop_spec alloc k v b (bucket_hashed _ _ _ Hwf Hb)) as Hput.
  pose proof (wf_size _ Hwf) as [Hsz Hlt].
  destruct (lookup_key b k) as [old|] eqn:Hold.
  - destruct Hput as (b1 & c & b2 & -> & Hs & Hv & ->).
    rewrite (set_bucket_eq _ _ _ _ Hb). cbn [mbind result_bind].
    destruct (replace_entry_ok map _ b1 c b2 v Hwf Hb) as (Hwf' & l & Hl & Hl').
    eexists. split; [reflexivity|]. split; [done|]. by exists c, l.
  - rewrite Hput. destruct alloc; [|by exists map].
    rewrite (set_bucket_eq _ _ _ _ Hb). cbn [mbind result_bind].
    assert (Hpow : 2 ^ (size_bits - 4) < 2 ^ size_bits) by (apply Z.pow_lt_mono_r; lia).
    destruct (add_entry_ok map b k v Hwf Hb Hold) as [Hwf1 Hpe]; [lia|].
    unfold set_size. cbn [size buckets bucketCount]. unfold size_t at 1. rewrite Z.mod_small by lia.
    destruct (expandIfNecessary_ok alloc_buckets _ Hbits Hwf1) as (map' & Hexp & Hwf' & Hperm & _);
      [simpl; lia|].
    rewrite Hexp. cbn [mbind result_bind]. exists map'. split; [done|]. split; [done|].
    rewrite Hperm. exact Hpe.
Qed.

(** With memory the old value is returned, and the map is updated at the key. *)
Lemma hashmapPut_ok alloc_buckets map k v :
  4 <= size_bits -> wf map -> size map < 2 ^ (size_bits - 4) ->
  exists map', hashmapPut NULL hash equals size_bits true alloc_buckets map k v
      = Ok (default NULL (lookup_key (entries map) k), map') /\ wf map' /\
    (forall k', lookup_key (entries map') k' =
       if decide (same k k') then Some v else lookup_key (entries map) k') /\
    size map' = size map + (if lookup_key (entries map) k is Some _ then 0 else 1).
Proof.
  intros Hbits Hwf Hsize.
  destruct (hashmapPut_entries true alloc_buckets map k v Hbits Hwf Hsize) as (map' & Hput & Hwf' & He).
  exists map'. split; [done|]. split; [done|].
  rewrite (proj1 (wf_size _ Hwf')), (proj1 (wf_size _ Hwf)).
  destruct (lookup_key (entries map) k) as [old|].
  - destruct He as (c & l & Hp & Hs & _ & Hp'). split; [|rewrite Hp, Hp'; simpl; lia]. intros k'.
    rewrite (lookup_key_perm _ _ k' Hp' (wf_distinct _ Hwf')).
    rewrite (lookup_key_perm _ _ k' Hp (wf_distinct _ Hwf)). by apply lookup_key_replaced.
  - split; [|rewrite He; simpl; lia]. intros k'.
    by rewrite (lookup_key_perm _ _ k' He (wf_distinct _ Hwf')).
Qed.

(** ** Reading *)

Lemma hashmapGet_ok map k :
  wf map -> hashmapGet NULL hash equals size_bits map k =
    Ok (default NULL (lookup_key (entries map) k)).
Proof.
  intros Hwf. unfold hashmapGet.
  destruct (bucket_exists map (hashKey hash k) Hwf) as [b Hb].
  unfold get. rewrite Hb. cbn [from_option_or mbind result_bind].
  rewrite (proj1 (lookup_in_bucket map k b Hwf Hb)).
  rewrite <-(find_entry_lookup b k) by by eapply bucket_hashed. by destruct (find_entry _ _ _ _).
Qed.

Lemma hashmapContainsKey_ok map k :
  wf map -> hashmapContainsKey hash equals size_bits map k =
    Ok (bool_decide (is_Some (lookup_key (entries map) k))).
Proof.
  intros Hwf. unfold hashmapContainsKey.
  destruct (bucket_exists map (hashKey hash k) Hwf) as [b Hb].
  unfold get. rewrite Hb. cbn [from_option_or mbind result_bind].
  rewrite (proj1 (lookup_in_bucket map k b Hwf Hb)).
  rewrite <-(find_entry_lookup b k) by by eapply bucket_hashed. by destruct (find_entry _ _ _ _).
Qed.

(** ** Removal *)

Lemma remove_loop_spec k b :
  hashed b ->
  match lookup_key b k with
  | Some old => exists b1 c b2, b = b1 ++ c :: b2 /\ same (e_key c) k /\ e_value c = old /\
      remove_loop equals k (hashKey hash k) b = Some (old, b1 ++ b2)
  | None => remove_loop equals k (hashKey hash k) b = None
  end.
Proof.
  induction 1 as [|e b He _ IH]; simpl; [done|].
  rewrite equalKeys_same by done. case_bool_decide as Hs.
  - rewrite decide_True by done. by exists [], e, b.
  - rewrite decide_False by done. destruct (lookup_key b k) as [old|].
    + destruct IH as (b1 & c & b2 & -> & ? & ? & ->). by exists (e :: b1), c, b2.
    + by rewrite IH.
Qed.

Lemma lookup_key_dropped c k l k' :
  same (e_key c) k -> distinct (c :: l) ->
  lookup_key l k' = if decide (same k k') then None else lookup_key (c :: l) k'.
Proof.
  intros Hs [Hf Hd]. simpl. destruct (decide (same k k')) as [H1|H1].
  - destruct (lookup_key l k') as [v|] eqn:E; [|done]. exfalso.
    apply lookup_key_some in E as (e & Hin & He & _); [|done].
    rewrite Forall_forall in Hf. apply (Hf e Hin).
    eapply same_trans; [exact Hs|]. eapply same_trans; [exact H1|by apply same_sym].
  - rewrite decide_False; [done|]. intros H2. apply H1.
    eapply same_trans; [|exact H2]. by apply same_sym.
Qed.

(** What [hashmapRemove] does to the entries. *)
Lemma hashmapRemove_entries map k :
  wf map ->
  exists map', hashmapRemove NULL hash equals size_bits map k
      = Ok (default NULL (lookup_key (entries map) k), map') /\ wf map' /\
    match lookup_key (entries map) k with
    | Some old => exists c, entries map ≡ₚ c :: entries map' /\ same (e_key c) k /\ e_value c = old
    | None => map' = map
    end.
Proof.
  intros Hwf. unfold hashmapRemove.
  destruct (bucket_exists map (hashKey hash k) Hwf) as [b Hb].
  unfold get. rewrite Hb. cbn [from_option_or mbind result_bind].
  pose proof (bucket_hashed _ _ _ Hwf Hb) as Hh. pose proof (remove_loop_spec k b Hh) as Hrm.
  pose proof (proj1 (lookup_in_bucket map k b Hwf Hb)) as Hlk. unfold bucket_of in Hb |- *.
  destruct (concat_bucket _ _ _ Hb) as (rest & Hp & Hp'). destruct (wf_size _ Hwf) as [Hsz Hlt].
  rewrite Hlk. destruct (lookup_key b k) as [old|] eqn:Hold; [|rewrite Hrm; by exists map].
  destruct Hrm as (b1 & c & b2 & -> & Hs & Hv & ->).
  rewrite (set_bucket_eq _ _ _ _ Hb). cbn [mbind result_bind].
  eexists. split; [reflexivity|]. set (bs' := <[_ := b1 ++ b2]> (buckets map)).
  assert (Hpc : entries map ≡ₚ c :: concat bs')
    by (unfold bs', entries; rewrite Hp, Hp'; solve_Permutation).
  pose proof (distinct_perm _ _ Hpc (wf_distinct _ Hwf)) as Hd.
  assert (Hlen : length (entries map) = S (length (concat bs'))) by (by rewrite Hpc).
  unfold set_size, size_t. simpl. rewrite Z.mod_small by lia. split; [|by exists c].
  eapply wf_set_bucket; [done|exact Hb| |apply Hd|unfold bs' in *; lia|lia].
  intros e Hin. apply (wf_placed _ Hwf _ _ e Hb).
  apply elem_of_app in Hin as [?|?]; apply elem_of_app; [by left|right; by right].
Qed.

Lemma hashmapRemove_ok map k :
  wf map ->
  exists map', hashmapRemove NULL hash equals size_bits map k
      = Ok (default NULL (lookup_key (entries map) k), map') /\ wf map' /\
    (forall k', lookup_key (entries map') k' =
       if decide (same k k') then None else lookup_key (entries map) k') /\
    size map' = size map - (if lookup_key (entries map) k is Some _ then 1 else 0).
Proof.
  intros Hwf. destruct (hashmapRemove_entries map k Hwf) as (map' & Hrm & Hwf' & He).
  exists map'. split; [done|]. split; [done|].
  rewrite (proj1 (wf_size _ Hwf')), (proj1 (wf_size _ Hwf)).
  destruct (lookup_key (entries map) k) as [old|] eqn:Hlk.
  - destruct He as (c & Hp & Hs & _). split; [|rewrite Hp; simpl; lia]. intros k'.
    rewrite (lookup_key_perm _ _ k' Hp (wf_distinct _ Hwf)). apply lookup_key_dropped; [done|].
    exact (distinct_perm _ _ Hp (wf_distinct _ Hwf)).
  - subst map'. split; [|lia]. intros k'. destruct (decide (same k k')) as [Hs|]; [|done].
    destruct (lookup_key (entries map) k') as [v|] eqn:E; [|done]. exfalso.
    apply lookup_key_some in E as (e & Hin & He & _); [|apply (wf_distinct _ Hwf)].
    apply lookup_key_none in Hlk. rewrite Forall_forall in Hlk. apply (Hlk e Hin).
    eapply same_trans; [exact He|by apply same_sym].
Qed.

(** ** Creation *)

Lemma grow_count_ok fuel n minimum :
  0 <= n -> minimum < 2 ^ (size_bits - 1) -> n < size_bits -> size_bits - n <= Z.of_nat fuel ->
  (n = 0 \/ 2 ^ (n - 1) <= minimum) ->
  exists n', grow_count size_bits fuel (2 ^ n) minimum = Ok (2 ^ n') /\ n <= n' < size_bits /\
    minimum < 2 ^ n' /\ (n' = 0 \/ 2 ^ (n' - 1) <= minimum).
Proof.
  revert n; induction fuel as [|fuel IH]; intros n Hn Hmin Hlt Hfuel Hprev; [lia|].
  cbn [grow_count]. destruct (2 ^ n <=? minimum) eqn:E.
  - assert (n < size_bits - 1).
    { apply (Z.pow_lt_mono_r_iff 2); lia. }
    assert (Enew : size_t size_bits (Z.shiftl (2 ^ n) 1) = 2 ^ (n + 1)).
    { unfold size_t. rewrite Z.shiftl_mul_pow2, <-Z.pow_add_r by lia.
      apply Z.mod_small. split; [lia|apply Z.pow_lt_mono_r; lia]. }
    rewrite Enew. destruct (IH (n + 1)) as (n' & ? & ? & ? & ?); [lia|done|lia|lia| |].
    { right. replace (n + 1 - 1) with n by lia. lia. }
    exists n'. split_and!; try done; lia.
  - exists n. split_and!; try done; lia.
Qed.

Lemma hashmapCreate_ok initialCapacity :
  3 <= size_bits -> 0 <= initialCapacity ->
  exists map, hashmapCreate (K := K) (V := V) size_bits true true initialCapacity = Ok (Some map) /\
    wf map /\ entries map = [] /\
    size_t size_bits (initialCapacity * 4) / 3 < bucketCount map.
Proof.
  intros Hbits Hcap. unfold hashmapCreate.
  pose proof (Z.mod_pos_bound (initialCapacity * 4) (2 ^ size_bits)) as Hmod.
  fold (size_t size_bits (initialCapacity * 4)) in Hmod. set (t := size_t size_bits _) in *.
  assert (Hpow : 2 ^ size_bits = 2 * 2 ^ (size_bits - 1))
    by (rewrite <-Z.pow_succ_r by lia; f_equal; lia).
  assert (Hp0 : 0 < 2 ^ (size_bits - 1)) by (apply Z.pow_pos_nonneg; lia).
  assert (Ht : t / 3 < 2 ^ (size_bits - 1)) by (apply Z.div_lt_upper_bound; lia).
  assert (Ht0 : 0 <= t / 3) by (apply Z.div_pos; lia).
  destruct (grow_count_ok (Z.to_nat size_bits) 0 (t / 3)) as (n & Hg & Hn & Hm & _); [lia..|by left|].
  change (2 ^ 0) with 1 in Hg. cbv zeta. rewrite Hg. cbn [mbind result_bind].
  eexists. split; [done|]. unfold entries; simpl. rewrite concat_replicate_nil.
  split; [|split; [done|exact Hm]]. split; simpl.
  - by exists n.
  - rewrite length_replicate. lia.
  - intros i b e Hi Hin. apply lookup_replicate in Hi as [-> _]. by apply elem_of_nil in Hin.
  - unfold entries. simpl. by rewrite concat_replicate_nil.
  - unfold entries. simpl. rewrite concat_replicate_nil. simpl. lia.
Qed.

(** ** Iteration *)

Lemma for_each_all {A} (f : K -> V -> A -> A) map a :
  hashmapForEach map (fun k v a => (f k v a, true)) a =
    fold_left (fun a e => f (e_key e) (e_value e) a) (entries map) a.
Proof.
  unfold hashmapForEach, entries. revert a. induction (buckets map) as [|b bs IH]; intros a; [done|].
  simpl. rewrite fold_left_app.
  assert (Hb : forall b a, for_each_bucket (fun k v a => (f k v a, true)) b a =
    (fold_left (fun a e => f (e_key e) (e_value e) a) b a, true)).
  { clear. induction b as [|e b IH]; intros a; simpl; auto. }
  by rewrite Hb.
Qed.

(** Iteration is over the list of all entries. *)
Lemma for_each_entries {A} (f : K -> V -> A -> A * bool) map a :
  hashmapForEach map f a = (for_each_bucket f (entries map) a).1.
Proof.
  unfold hashmapForEach, entries. revert a. induction (buckets map) as [|b bs IH]; intros a; [done|].
  cbn [for_each_buckets concat].
  assert (Happ : forall l1 l2 a, for_each_bucket f (l1 ++ l2) a =
    let '(a, go_on) := for_each_bucket f l1 a in if go_on then for_each_bucket f l2 a else (a, false)).
  { clear. induction l1 as [|e l1 IH]; intros l2 a; [done|]. cbn [app for_each_bucket].
    destruct (f (e_key e) (e_value e) a) as [a1 [|]]; [apply IH|done]. }
  rewrite Happ. destruct (for_each_bucket f b a) as [a1 [|]]; [apply IH|done].
Qed.

(** ** Whole histories

    Every operation against a partial function from keys to values, and
    sequences of operations by induction. *)
Inductive op : Type :=
  | OpPut (alloc_buckets : bool) (k : K) (v : V)
  | OpGet (k : K)
  | OpContains (k : K)
  | OpMemoize (alloc_buckets : bool) (k : K) (init : K -> V)
  | OpRemove (k : K).

Inductive answer : Type := AnsValue (v : V) | AnsBool (b : bool).

Definition run_op (map : Hashmap (K := K) (V := V)) (o : op)
    : result (answer * Hashmap (K := K) (V := V)) :=
  match o with
  | OpPut a k v => '(r, m) ← hashmapPut NULL hash equals size_bits true a map k v; Ok (AnsValue r, m)
  | OpGet k => r ← hashmapGet NULL hash equals size_bits map k; Ok (AnsValue r, map)
  | OpContains k => r ← hashmapContainsKey hash equals size_bits map k; Ok (AnsBool r, map)
  | OpMemoize a k f =>
      '(r, m) ← hashmapMemoize NULL hash equals size_bits true a map k f; Ok (AnsValue r, m)
  | OpRemove k => '(r, m) ← hashmapRemove NULL hash equals size_bits map k; Ok (AnsValue r, m)
  end.

Fixpoint run_ops (map : Hashmap (K := K) (V := V)) (os : list op)
    : result (list answer * Hashmap (K := K) (V := V)) :=
  match os with
  | [] => Ok ([], map)
  | o :: os =>
      '(r, m) ← run_op map o;
      '(rs, m) ← run_ops m os;
      Ok (r :: rs, m)
  end.

(** The reference: a function on keys. *)
Definition ref_set (k : K) (v : option V) (m : K -> option V) (k' : K) : option V :=
  if decide (same k k') then v else m k'.

Definition ref_op (m : K -> option V) (o : op) : answer * (K -> option V) :=
  match o with
  | OpPut _ k v => (AnsValue (default NULL (m k)), ref_set k (Some v) m)
  | OpGet k => (AnsValue (default NULL (m k)), m)
  | OpContains k => (AnsBool (bool_decide (is_Some (m k))), m)
  | OpMemoize _ k f =>
      match m k with
      | Some v => (AnsValue v, m)
      | None => (AnsValue (f k), ref_set k (Some (f k)) m)
      end
  | OpRemove k => (AnsValue (default NULL (m k)), ref_set k None m)
  end.

Fixpoint ref_ops (m : K -> option V) (os : list op) : list answer :=
  match os with
  | [] => []
  | o :: os => let '(r, m) := ref_op m o in r :: ref_ops m os
  end.

Lemma find_entry_none b k :
  hashed b -> find_entry equals k (hashKey hash k) b = None ->
  forall v, put_loop equals true k (hashKey hash k) v b = Added (b ++ [mkEntry k (hashKey hash k) v]).
Proof.
  intros Hh Hn v. pose proof (put_loop_spec true k v b Hh) as Hp.
  rewrite <-find_entry_lookup, Hn in Hp by done. exact Hp.
Qed.

(** Memoizing is a lookup, or a put of the initial value. *)
Lemma hashmapMemoize_put alloc map k f :
  wf map -> hashmapMemoize NULL hash equals size_bits true alloc map k f =
    match lookup_key (entries map) k with
    | Some v => Ok (v, map)
    | None => '(_, m) ← hashmapPut NULL hash equals size_bits true alloc map k (f k); Ok (f k, m)
    end.
Proof.
  intros Hwf. unfold hashmapMemoize, hashmapPut.
  destruct (bucket_exists map (hashKey hash k) Hwf) as [b Hb].
  unfold get. rewrite Hb. cbn [from_option_or mbind result_bind].
  pose proof (bucket_hashed _ _ _ Hwf Hb) as Hh.
  rewrite (proj1 (lookup_in_bucket map k b Hwf Hb)), <-(find_entry_lookup b k) by done.
  destruct (find_entry equals k (hashKey hash k) b) as [e|] eqn:E; [done|].
  cbn [fmap option_fmap option_map]. rewrite (find_entry_none b k Hh E).
  cbn [createEntry e_key e_hash]. rewrite (set_bucket_eq _ _ _ _ Hb). cbn [mbind result_bind].
  by destruct (expandIfNecessary _ _ _).
Qed.

Lemma run_op_ok map m o :
  4 <= size_bits -> wf map -> size map < 2 ^ (size_bits - 4) ->
  (forall k, lookup_key (entries map) k = m k) ->
  exists map', run_op map o = Ok ((ref_op m o).1, map') /\ wf map' /\
    (forall k, lookup_key (entries map') k = (ref_op m o).2 k) /\ size map' <= size map + 1.
Proof.
  intros Hbits Hwf Hsize Hm. destruct o as [a k v|k|k|a k f|k]; simpl.
  - destruct (hashmapPut_ok a map k v Hbits Hwf Hsize) as (map' & -> & Hwf' & Hl & Hsz).
    simpl. rewrite <-Hm. exists map'. split; [done|]. split; [done|].
    split; [|rewrite Hsz; destruct (lookup_key _ _); lia].
    intros k'. rewrite Hl. unfold ref_set. by rewrite <-Hm.
  - rewrite hashmapGet_ok, <-Hm by done. exists map. split_and!; [done|done|done|lia].
  - rewrite hashmapContainsKey_ok, <-Hm by done. exists map. split_and!; [done|done|done|lia].
  - rewrite hashmapMemoize_put, Hm by done. destruct (m k) as [v|] eqn:E.
    { exists map. split_and!; [done|done|done|lia]. }
    destruct (hashmapPut_ok a map k (f k) Hbits Hwf Hsize) as (map' & -> & Hwf' & Hl & Hsz).
    simpl. exists map'. split; [done|]. split; [done|].
    split; [|rewrite Hsz; destruct (lookup_key _ _); lia].
    intros k'. rewrite Hl. unfold ref_set. by rewrite <-Hm.
  - destruct (hashmapRemove_ok map k Hwf) as (map' & -> & Hwf' & Hl & Hsz).
    simpl. rewrite <-Hm. exists map'. split; [done|]. split; [done|].
    split; [|rewrite Hsz; destruct (lookup_key _ _); lia].
    intros k'. rewrite Hl. unfold ref_set. by rewrite <-Hm.
Qed.

Lemma run_ops_ok os map m :
  4 <= size_bits -> wf map -> size map + Z.of_nat (length os) <= 2 ^ (size_bits - 4) ->
  (forall k, lookup_key (entries map) k = m k) ->
  exists map', run_ops map os = Ok (ref_ops m os, map') /\ wf map'.
Proof.
  intros Hbits. revert map m. induction os as [|o os IH]; intros map m Hwf Hsize Hm.
  { by exists map. }
  simpl in Hsize. destruct (run_op_ok map m o Hbits Hwf ltac:(lia) Hm) as (map1 & Hr & Hwf1 & Hm1 & Hs1).
  cbn [run_ops ref_ops]. rewrite Hr. destruct (ref_op m o) as [r m1]. simpl in *.
  destruct (IH map1 m1 Hwf1 ltac:(lia) Hm1) as (map2 & -> & Hwf2). by exists map2.
Qed.
End Spec.

(** ** Theorems *)

Section Theorems.
Context {K V : Type} `{EqDecision K} (NULL : V) (hash : K -> Z) (equals : K -> K -> bool).
Context (size_bits : Z) {HC : HashContract hash equals}.

(** C30 A new hash map answers every sequence of put, get, containsKey, memoize
    and remove as a plain function from keys to values does: whatever the
    initial capacity, the hash function, the collisions and the expansions
    (refused ones included), for as many operations as entries fit in memory. *)
Theorem hashmap_refines_function initialCapacity os :
  4 <= size_bits -> 0 <= initialCapacity -> Z.of_nat (length os) <= 2 ^ (size_bits - 4) ->
  exists map map',
    hashmapCreate (K := K) (V := V) size_bits true true initialCapacity = Ok (Some map) /\
    run_ops NULL hash equals size_bits map os
      = Ok (ref_ops NULL equals (fun _ => None) os, map').
Proof.
  intros Hbits Hcap Hos.
  destruct (hashmapCreate_ok hash equals size_bits (V := V) initialCapacity)
    as (map & Hc & Hwf & He & _); [lia|done|].
  destruct (run_ops_ok NULL hash equals size_bits os map (fun _ => None)) as (map' & Hr & _);
    [done|done| |by rewrite He|by exists map, map'].
  destruct (wf_size _ _ _ _ Hwf) as [-> _]. rewrite He. simpl. lia.
Qed.

(** Expansion, refused or not, keeps the well-formedness of the map (a power
    of two of buckets, each entry in the bucket of its hash, no key twice, the
    size field exact), its entries up to order, and never leaves the arrays. *)
Theorem hashmap_expansion_keeps_entries alloc (map : Hashmap (K := K) (V := V)) :
  4 <= size_bits -> wf hash equals size_bits map -> size map <= 2 ^ (size_bits - 4) ->
  exists map', expandIfNecessary size_bits alloc map = Ok map' /\ wf hash equals size_bits map' /\
    entries map' ≡ₚ entries map /\ size map' = size map.
Proof. apply expandIfNecessary_ok. done. Qed.

(** [hashmapForEach] calls back once for every key the map holds, with the
    value [hashmapGet] returns, and for no other. *)
Theorem hashmap_for_each_complete (map : Hashmap (K := K) (V := V)) :
  wf hash equals size_bits map ->
  let visited := hashmapForEach map (fun k v l => (l ++ [(k, v)], true)) [] in
  Z.of_nat (length visited) = hashmapSize map /\
  (forall k v, (k, v) ∈ visited -> hashmapGet NULL hash equals size_bits map k = Ok v) /\
  (forall k, hashmapContainsKey hash equals size_bits map k
     = Ok (bool_decide (Exists (fun kv => same equals kv.1 k) visited))).
Proof.
  intros Hwf visited.
  assert (Hv : visited = List.map (fun e => (e_key e, e_value e)) (entries map)).
  { unfold visited. rewrite (for_each_all (fun k v l => l ++ [(k, v)])).
    assert (Hgen : forall (l : list (Entry (K := K) (V := V))) acc,
      fold_left (fun a e => a ++ [(e_key e, e_value e)]) l acc
        = acc ++ List.map (fun e => (e_key e, e_value e)) l).
    { induction l as [|e l IH]; intros acc; simpl; [by rewrite app_nil_r|].
      by rewrite IH, <-app_assoc. }
    by rewrite Hgen. }
  rewrite Hv. split; [|split].
  - rewrite length_map. unfold hashmapSize. by destruct (wf_size _ _ _ _ Hwf) as [-> _].
  - intros k v Hin. apply list_elem_of_fmap in Hin as (e & [= -> ->] & Hin).
    rewrite hashmapGet_ok by done.
    assert (lookup_key equals (entries map) (e_key e) = Some (e_value e)) as ->; [|done].
    apply (lookup_key_some hash equals); [by eapply (wf_distinct hash)|]. exists e. split_and!; [done|by left|done].
  - intros k. rewrite (hashmapContainsKey_ok hash) by done. f_equal. apply bool_decide_ext.
    split.
    + intros [v Hk]. apply (lookup_key_some hash equals) in Hk as (e & Hin & Hs & _); [|by eapply (wf_distinct hash)].
      apply Exists_exists. exists (e_key e, e_value e). split; [|done].
      apply list_elem_of_fmap. by exists e.
    + intros (kv & Hin & Hs)%Exists_exists. apply list_elem_of_fmap in Hin as (e & -> & Hin).
      exists (e_value e). apply (lookup_key_some hash equals); [by eapply (wf_distinct hash)|]. by exists e.
Qed.
End Theorems.

(** ** Integer keys *)

#[export] Instance int_contract : HashContract hashmapIntHash hashmapIntEquals.
Proof.
  unfold hashmapIntHash, hashmapIntEquals. split.
  - by intros a b ->%Z.eqb_eq.
  - intros a b. by rewrite Z.eqb_sym.
  - intros a b c ->%Z.eqb_eq ->%Z.eqb_eq. by left.
Qed.

Definition int_history : list (op (K := Z) (V := Z)) :=
  [OpPut true 1 10; OpPut true 2 20; OpPut true 3 30; OpPut false 4 40; OpPut true 1 11;
   OpGet 1; OpRemove 2; OpContains 2; OpMemoize true 5 (fun k => k * 100); OpGet 5; OpGet 7].

Lemma hashmap_refines_function_witness :
  exists map map',
    hashmapCreate (K := Z) (V := Z) 32 true true 0 = Ok (Some map) /\
    run_ops 0 hashmapIntHash hashmapIntEquals 32 map int_history
      = Ok (ref_ops 0 hashmapIntEquals (fun _ => None) int_history, map').
Proof. apply (hashmap_refines_function 0 hashmapIntHash hashmapIntEquals 32); vm_compute; congruence. Defined.

(** Two keys in a table that is due to expand. *)
Definition two_keys : Hashmap (K := Z) (V := Z) :=
  match hashmapCreate 32 true true 0 with
  | Ok (Some map) =>
      match run_ops 0 hashmapIntHash hashmapIntEquals 32 map [OpPut false 1 10; OpPut false 2 20] with
      | Ok (_, map) => map
      | Err _ => map
      end
  | _ => mkHashmap [] 0 0
  end.

Lemma two_keys_wf : wf hashmapIntHash hashmapIntEquals 32 two_keys.
Proof.
  destruct (hashmapCreate_ok hashmapIntHash hashmapIntEquals 32 (V := Z) 0) as (map & Hc & Hwf & He & _);
    [lia|lia|].
  destruct (run_ops_ok 0 hashmapIntHash hashmapIntEquals 32 [OpPut false 1 10; OpPut false 2 20]
    map (fun _ => None)) as (map' & Hr & Hwf'); [lia|done| |by rewrite He|].
  { destruct (wf_size _ _ _ _ Hwf) as [-> _]. rewrite He. simpl. lia. }
  unfold two_keys. rewrite Hc, Hr. done.
Qed.

Lemma hashmap_expansion_keeps_entries_witness :
  exists map', expandIfNecessary 32 true two_keys = Ok map' /\
    wf hashmapIntHash hashmapIntEquals 32 map' /\
    entries map' ≡ₚ entries two_keys /\ size map' = size two_keys.
Proof.
  apply (hashmap_expansion_keeps_entries hashmapIntHash hashmapIntEquals 32);
    [lia|apply two_keys_wf|vm_compute; congruence].
Defined.

Lemma hashmap_for_each_complete_witness :
  let visited := hashmapForEach two_keys (fun k v l => (l ++ [(k, v)], true)) [] in
  Z.of_nat (length visited) = hashmapSize two_keys /\
  (forall k v, (k, v) ∈ visited -> hashmapGet 0 hashmapIntHash hashmapIntEquals 32 two_keys k = Ok v) /\
  (forall k, hashmapContainsKey hashmapIntHash hashmapIntEquals 32 two_keys k
     = Ok (bool_decide (Exists (fun kv => same hashmapIntEquals kv.1 k) visited))).
Proof. apply (hashmap_for_each_complete 0 hashmapIntHash hashmapIntEquals 32). apply two_keys_wf. Defined.
