(* ===== verification/CString.v ===== *)
(** * bionic: strings and numbers

    Models the functions of the C library that the modelled programs lean on
    for parsing: [strtol] ([src/libs/libc/stdlib/strtol.c]), [strtok_r]
    ([src/libs/libc/string/strtok.c]) and [strlcpy]
    ([src/libs/libc/string/strlcpy.c]).  A string is the list of its characters
    before the NUL; a destination is a block of memory. *)
From S2P Require Import Prelude.
From stdpp Require Import pretty.
Local Open Scope Z_scope.
#[local] Arguments Z.mul : simpl never.
#[local] Arguments Z.add : simpl never.
#[local] Arguments Z.sub : simpl never.

(** ** [strtok_r] *)

(** Past the delimiters: [None] when only delimiters are left. *)
Fixpoint skip_delims (delim s : list Z) : option (list Z) :=
  match s with
  | [] => None
  | c :: t => if bool_decide (c ∈ delim) then skip_delims delim t else Some s
  end.

(** The token, and what is left of the string; [None] when the token ends with it. *)
Fixpoint scan_token (delim s : list Z) : list Z * option (list Z) :=
  match s with
  | [] => ([], None)
  | c :: t =>
      if bool_decide (c ∈ delim) then ([], Some t)
      else let '(tok, last) := scan_token delim t in (c :: tok, last)
  end.

(** [s]: the string or the one remembered, [None] for NULL; the token, and the
    string that is remembered. *)
Definition strtok_r (s : option (list Z)) (delim : list Z) : option (list Z) * option (list Z) :=
  match s with
  | None => (None, None)
  | Some s =>
      match skip_delims delim s with
      | None => (None, None)
      | Some s => let '(tok, last) := scan_token delim s in (Some tok, last)
      end
  end.

(** ** [strlcpy] *)

(** The characters that fit into [siz] bytes, NUL included. *)
Definition strlcpy (dst src : list Z) (siz : Z) : result (Z * list Z) :=
  if siz =? 0 then Ok (Z.of_nat (length src), dst)
  else
    dst ← write_block dst 0 (take (Z.to_nat (siz - 1)) src ++ [0]);
    Ok (Z.of_nat (length src), dst).

(** ** [strtol] *)

Definition isspace (c : Z) : bool := (c =? 32) || ((9 <=? c) && (c <=? 13)).
Definition isdigit (c : Z) : bool := (48 <=? c) && (c <=? 57).
Definition isupper (c : Z) : bool := (65 <=? c) && (c <=? 90).
Definition islower (c : Z) : bool := (97 <=? c) && (c <=? 122).

(** The value of a digit in some base. *)
Definition digit_of (c : Z) : option Z :=
  if isdigit c then Some (c - 48)
  else if isupper c then Some (c - (65 - 10))
  else if islower c then Some (c - (97 - 10))
  else None.

Fixpoint skip_space (s : list Z) : list Z :=
  match s with c :: t => if isspace c then skip_space t else s | [] => [] end.

Section Strtol.
Context (long_bits : Z).

Definition LONG_MIN : Z := - 2 ^ (long_bits - 1).
Definition LONG_MAX : Z := 2 ^ (long_bits - 1) - 1.

(** The loop over the digits: the accumulator, [any], and the rest of the string. *)
Fixpoint strtol_loop (neg : bool) (base cutoff cutlim : Z) (s : list Z) (acc any : Z)
    : Z * Z * list Z :=
  match s with
  | [] => (acc, any, [])
  | c :: t =>
      match digit_of c with
      | None => (acc, any, s)
      | Some c =>
          if base <=? c then (acc, any, s)
          else if any <? 0 then strtol_loop neg base cutoff cutlim t acc any
          else if neg then
            if (acc <? cutoff) || ((acc =? cutoff) && (cutlim <? c))
            then strtol_loop neg base cutoff cutlim t LONG_MIN (-1)
            else strtol_loop neg base cutoff cutlim t (acc * base - c) 1
          else
            if (cutoff <? acc) || ((acc =? cutoff) && (cutlim <? c))
            then strtol_loop neg base cutoff cutlim t LONG_MAX (-1)
            else strtol_loop neg base cutoff cutlim t (acc * base + c) 1
      end
  end.

Definition strtol_sign (s : list Z) : bool * list Z :=
  match s with
  | c :: t => if c =? 45 then (true, t) else if c =? 43 then (false, t) else (false, s)
  | [] => (false, [])
  end.

(** The base, and the string after a prefix. *)
Definition strtol_base (base : Z) (s : list Z) : Z * list Z :=
  let '(base, s) :=
    match s with
    | c :: x :: t =>
        if ((base =? 0) || (base =? 16)) && (c =? 48) && ((x =? 120) || (x =? 88)) then (16, t)
        else (base, s)
    | _ => (base, s)
    end in
  (if base =? 0 then match s with c :: _ => if c =? 48 then 8 else 10 | [] => 10 end else base, s).

Definition strtol_cutoff (neg : bool) (base : Z) : Z * Z :=
  let cutoff := if neg then LONG_MIN else LONG_MAX in
  let cutlim := Z.rem cutoff base in
  let cutoff := Z.quot cutoff base in
  if neg then
    let '(cutlim, cutoff) := if 0 <? cutlim then (cutlim - base, cutoff + 1) else (cutlim, cutoff) in
    (cutoff, - cutlim)
  else (cutoff, cutlim).

(** The value, the string at [*endptr], and whether [errno] is set to [ERANGE]. *)
Definition strtol (nptr : list Z) (base : Z) : Z * list Z * bool :=
  let '(neg, s) := strtol_sign (skip_space nptr) in
  let '(base, s) := strtol_base base s in
  let '(cutoff, cutlim) := strtol_cutoff neg base in
  let '(acc, any, rest) := strtol_loop neg base cutoff cutlim s 0 0 in
  (acc, if any =? 0 then nptr else rest, any <? 0).

(** ** What [strtol] means *)

(** The digits at the start of a string, and the rest. *)
Fixpoint digit_run (base : Z) (s : list Z) : list Z * list Z :=
  match s with
  | [] => ([], [])
  | c :: t =>
      match digit_of c with
      | None => ([], s)
      | Some d => if base <=? d then ([], s) else let '(ds, rest) := digit_run base t in (d :: ds, rest)
      end
  end.

Definition value_of (base : Z) (ds : list Z) : Z := fold_left (fun n d => n * base + d) ds 0.

(** A number brought into the range of a [long]. *)
Definition clamp (n : Z) : Z := Z.max LONG_MIN (Z.min LONG_MAX n).

Definition in_long (n : Z) : bool := (LONG_MIN <=? n) && (n <=? LONG_MAX).

Definition signed_value (neg : bool) (n : Z) : Z := if neg then - n else n.

Lemma digit_of_range c d : digit_of c = Some d -> 0 <= d < 36.
Proof.
  unfold digit_of, isdigit, isupper, islower.
  repeat match goal with |- context [?a <=? ?b] => destruct (Z.leb_spec a b) end;
    cbn [andb]; intros [= <-]; lia.
Qed.

(** The loop once it has overflowed: it only looks for the end. *)
Lemma strtol_loop_over neg base cutoff cutlim s acc :
  strtol_loop neg base cutoff cutlim s acc (-1) = (acc, -1, (digit_run base s).2).
Proof.
  induction s as [|c t IH]; [done|]. cbn [strtol_loop digit_run].
  destruct (digit_of c) as [d|]; [|done]. destruct (base <=? d); [done|].
  change (-1 <? 0) with true. cbv iota. rewrite IH. by destruct (digit_run base t).
Qed.

Lemma fold_value_ge base ds n :
  2 <= base -> Forall (fun d => 0 <= d) ds -> 0 <= n -> n <= fold_left (fun n d => n * base + d) ds n.
Proof.
  intros Hb Hds. revert n. induction Hds as [|d ds Hd _ IH]; intros n Hn; [done|]. cbn [fold_left].
  etrans; [|apply IH; nia]. nia.
Qed.

Lemma digit_run_range base s : Forall (fun d => 0 <= d) (digit_run base s).1.
Proof.
  induction s as [|c t IH]; [constructor|]. cbn [digit_run].
  destruct (digit_of c) as [d|] eqn:Ed; [|constructor]. destruct (base <=? d); [constructor|].
  destruct (digit_run base t) as [ds rest]. constructor; [|done]. apply digit_of_range in Ed. lia.
Qed.

Lemma cutoff_spec neg base cutoff cutlim n d :
  2 <= base -> 2 <= long_bits -> strtol_cutoff neg base = (cutoff, cutlim) -> 0 <= n -> 0 <= d < base ->
  in_long (signed_value neg n) = true ->
  (if neg then (signed_value neg n <? cutoff) || ((signed_value neg n =? cutoff) && (cutlim <? d))
   else (cutoff <? signed_value neg n) || ((signed_value neg n =? cutoff) && (cutlim <? d))) =
  negb (in_long (signed_value neg (n * base + d))).
Proof.
  intros Hbase Hlong. unfold strtol_cutoff, in_long, signed_value, LONG_MIN, LONG_MAX.
  assert (Hpow : 2 <= 2 ^ (long_bits - 1)) by (apply (Z.pow_le_mono_r 2 1); lia).
  generalize dependent (2 ^ (long_bits - 1)). intros M HM. destruct neg.
  - rewrite Z.quot_opp_l, Z.rem_opp_l by lia. rewrite Z.quot_div_nonneg, Z.rem_mod_nonneg by lia.
    pose proof (Z.mod_pos_bound M base ltac:(lia)) as Hmod. pose proof (Z.div_mod M base ltac:(lia)) as Hdiv.
    rewrite (proj2 (Z.ltb_ge 0 _)) by lia. intros [= <- <-] Hn Hd Hin.
    generalize dependent (M / base). generalize dependent (M mod base). intros r Hr q Hq.
    apply eq_true_iff_eq. rewrite negb_true_iff, orb_true_iff, andb_true_iff, andb_false_iff.
    rewrite !Z.ltb_lt, !Z.leb_gt, Z.eqb_eq. nia.
  - rewrite Z.quot_div_nonneg, Z.rem_mod_nonneg by lia.
    pose proof (Z.mod_pos_bound (M - 1) base ltac:(lia)) as Hmod.
    pose proof (Z.div_mod (M - 1) base ltac:(lia)) as Hdiv. intros [= <- <-] Hn Hd Hin.
    generalize dependent ((M - 1) / base). generalize dependent ((M - 1) mod base). intros r Hr q Hq.
    apply eq_true_iff_eq. rewrite negb_true_iff, orb_true_iff, andb_true_iff, andb_false_iff.
    rewrite !Z.ltb_lt, !Z.leb_gt, Z.eqb_eq. nia.
Qed.

Lemma clamp_in n : in_long n = true -> clamp n = n.
Proof. unfold in_long, clamp. rewrite andb_true_iff, !Z.leb_le. lia. Qed.

(** A number that is out of range, of which the accumulator takes the limit. *)
Lemma clamp_out neg n :
  2 <= long_bits -> 0 <= n -> in_long (signed_value neg n) = false ->
  clamp (signed_value neg n) = if neg then LONG_MIN else LONG_MAX.
Proof.
  intros Hb. unfold in_long, clamp, LONG_MIN, LONG_MAX, signed_value.
  assert (2 <= 2 ^ (long_bits - 1)) by (apply (Z.pow_le_mono_r 2 1); lia).
  rewrite andb_false_iff, !Z.leb_gt. destruct neg; lia.
Qed.

(** More digits do not bring a number back into the range. *)
Lemma out_stays_out neg n m :
  2 <= long_bits -> 0 <= n <= m -> in_long (signed_value neg n) = false ->
  in_long (signed_value neg m) = false.
Proof.
  intros Hb. unfold in_long, LONG_MIN, LONG_MAX, signed_value.
  assert (2 <= 2 ^ (long_bits - 1)) by (apply (Z.pow_le_mono_r 2 1); lia).
  rewrite !andb_false_iff, !Z.leb_gt. destruct neg; lia.
Qed.

Lemma strtol_loop_spec neg base cutoff cutlim s :
  2 <= base -> 2 <= long_bits -> strtol_cutoff neg base = (cutoff, cutlim) ->
  forall n any, 0 <= n -> 0 <= any -> in_long (signed_value neg n) = true ->
  let ds := (digit_run base s).1 in
  let v := signed_value neg (fold_left (fun n d => n * base + d) ds n) in
  strtol_loop neg base cutoff cutlim s (signed_value neg n) any =
    (clamp v, if in_long v then match ds with [] => any | _ => 1 end else -1, (digit_run base s).2).
Proof.
  intros Hbase Hb Hcut. induction s as [|c t IH]; intros n any Hn Hany Hin; cbn [strtol_loop digit_run].
  { cbn [fst snd fold_left]. by rewrite Hin, clamp_in. }
  destruct (digit_of c) as [d|] eqn:Ed; [|cbn [fst snd fold_left]; by rewrite Hin, clamp_in].
  destruct (Z.leb_spec base d) as [Hle|Hlt]; [cbn [fst snd fold_left]; by rewrite Hin, clamp_in|].
  rewrite (proj2 (Z.ltb_ge any 0)) by done. pose proof (digit_of_range _ _ Ed) as [Hd _].
  pose proof (cutoff_spec neg base cutoff cutlim n d Hbase Hb Hcut Hn (conj Hd Hlt) Hin) as Htest.
  pose proof (digit_run_range base t) as Hds.
  assert (Hnext : 0 <= n * base + d) by nia.
  destruct (digit_run base t) as [ds rest] eqn:Er. cbn [fst snd fold_left] in *.
  assert (Hover : in_long (signed_value neg (n * base + d)) = false ->
    strtol_loop neg base cutoff cutlim t (if neg then LONG_MIN else LONG_MAX) (-1) =
    (clamp (signed_value neg (fold_left (fun n d => n * base + d) ds (n * base + d))),
     if in_long (signed_value neg (fold_left (fun n d => n * base + d) ds (n * base + d))) then 1 else -1, rest)).
  { intros Hout. rewrite strtol_loop_over, Er.
    pose proof (fold_value_ge base ds (n * base + d) Hbase Hds Hnext) as Hge.
    rewrite (out_stays_out neg (n * base + d)) by (lia || done).
    rewrite clamp_out by (lia || (apply (out_stays_out neg (n * base + d)); lia || done)). done. }
  assert (Hgo : in_long (signed_value neg (n * base + d)) = true ->
    strtol_loop neg base cutoff cutlim t (signed_value neg (n * base + d)) 1 =
    (clamp (signed_value neg (fold_left (fun n d => n * base + d) ds (n * base + d))),
     if in_long (signed_value neg (fold_left (fun n d => n * base + d) ds (n * base + d))) then 1 else -1, rest)).
  { intros Hok. rewrite (IH _ 1 Hnext ltac:(lia) Hok). by destruct ds. }
  destruct neg; cbn [signed_value] in *.
  - rewrite Htest. destruct (in_long (- (n * base + d))); cbn [negb]; [|by apply Hover].
    replace (- n * base - d) with (- (n * base + d)) by lia. by apply Hgo.
  - rewrite Htest. destruct (in_long (n * base + d)); cbn [negb]; [by apply Hgo|by apply Hover].
Qed.

Lemma strtol_base_ge base s b' s' :
  base = 0 \/ 2 <= base -> strtol_base base s = (b', s') -> 2 <= b'.
Proof.
  intros Hb. unfold strtol_base.
  destruct (match s with c :: x :: t => _ | _ => _ end) as [b s1] eqn:E.
  assert (Hb1 : b = 0 \/ 2 <= b).
  { destruct s as [|c [|x t]]; [by injection E as <- <-..|].
    destruct (_ && _); injection E as <- <-; [by right|done]. }
  destruct (Z.eqb_spec b 0) as [Hz|Hz].
  - destruct s1 as [|c s1]; [by intros [= <- _]|]. by destruct (c =? 48); intros [= <- _].
  - intros [= <- _]. lia.
Qed.

Lemma strtol_value nptr base :
  2 <= long_bits -> base = 0 \/ 2 <= base ->
  let '(neg, s) := strtol_sign (skip_space nptr) in
  let '(base', s') := strtol_base base s in
  let '(ds, rest) := digit_run base' s' in
  let v := signed_value neg (value_of base' ds) in
  strtol nptr base =
    match ds with
    | [] => (0, nptr, false)
    | _ => (clamp v, rest, negb (in_long v))
    end.
Proof.
  intros Hb Hbase. unfold strtol. destruct (strtol_sign (skip_space nptr)) as [neg s].
  destruct (strtol_base base s) as [b' s'] eqn:Eb.
  pose proof (strtol_base_ge base s b' s' Hbase Eb) as Hb'.
  destruct (strtol_cutoff neg b') as [cutoff cutlim] eqn:Ec.
  assert (Hzero : in_long 0 = true).
  { unfold in_long, LONG_MIN, LONG_MAX.
    assert (2 <= 2 ^ (long_bits - 1)) by (apply (Z.pow_le_mono_r 2 1); lia).
    apply andb_true_iff. rewrite !Z.leb_le. lia. }
  assert (Hsz : signed_value neg 0 = 0) by (by destruct neg).
  pose proof (strtol_loop_spec neg b' cutoff cutlim s' Hb' Hb Ec 0 0 ltac:(lia) ltac:(lia)) as Hloop.
  rewrite Hsz in Hloop. specialize (Hloop Hzero). cbv zeta in Hloop. rewrite Hloop.
  destruct (digit_run b' s') as [ds rest]. cbn [fst snd]. unfold value_of.
  destruct ds as [|d ds].
  - cbn [fold_left]. by rewrite Hsz, Hzero, clamp_in.
  - match goal with |- context [in_long ?v] => destruct (in_long v) end; reflexivity.
Qed.

(** C34 For every string and base, [strtol] is the mathematical function: it
    reads spaces, a sign, a prefix and the longest run of digits of the base;
    the value of the digits is clamped to the range of [long], [ERANGE] is set
    exactly when that changes it, and the end is after the digits, or at the
    start of the string, with value 0, when there are none. *)
Theorem strtol_exact nptr base :
  2 <= long_bits -> base = 0 \/ 2 <= base ->
  let '(neg, s) := strtol_sign (skip_space nptr) in
  let '(base', s') := strtol_base base s in
  let '(ds, rest) := digit_run base' s' in
  let v := signed_value neg (value_of base' ds) in
  strtol nptr base =
    match ds with
    | [] => (0, nptr, false)
    | _ => (clamp v, rest, negb (in_long v))
    end.
Proof. intros. by apply strtol_value. Qed.
End Strtol.

(** ** Tokens *)

(** The pieces of a string between characters of [delim], the empty ones left out. *)
Definition pieces (delim s : list Z) : list (list Z) :=
  let '(tok, others) :=
    fold_right (fun c '(cur, others) =>
      if bool_decide (c ∈ delim) then ([], match cur with [] => others | _ => cur :: others end)
      else (c :: cur, others)) ([], []) s in
  match tok with [] => others | _ => tok :: others end.

Lemma pieces_delim delim c s : c ∈ delim -> pieces delim (c :: s) = pieces delim s.
Proof.
  intros Hc. unfold pieces. cbn [fold_right]. destruct (fold_right _ _ s) as [cur others].
  by rewrite bool_decide_eq_true_2.
Qed.

(** A scanned token is a piece. *)
Lemma pieces_token delim c s :
  ~ c ∈ delim ->
  pieces delim (c :: s) =
    let '(tok, last) := scan_token delim s in
    (c :: tok) :: match last with Some t => pieces delim t | None => [] end.
Proof.
  revert c. induction s as [|x s IH]; intros c Hc.
  { unfold pieces. simpl. by rewrite bool_decide_eq_false_2. }
  cbn [scan_token]. case_bool_decide as Hx.
  - unfold pieces. cbn [fold_right]. destruct (fold_right _ _ s) as [cur others].
    rewrite (bool_decide_eq_true_2 _ Hx), (bool_decide_eq_false_2 _ Hc). done.
  - specialize (IH x Hx). destruct (scan_token delim s) as [tok last]. revert IH. unfold pieces.
    cbn [fold_right]. destruct (fold_right _ _ s) as [cur others].
    rewrite (bool_decide_eq_false_2 _ Hx), (bool_decide_eq_false_2 _ Hc). by intros [= -> ->].
Qed.

(** One call gives the first piece, and remembers what gives the others. *)
Lemma strtok_r_pieces delim s :
  match strtok_r (Some s) delim with
  | (None, last) => pieces delim s = [] /\ last = None
  | (Some tok, last) =>
      tok <> [] /\ pieces delim s = tok :: match last with Some t => pieces delim t | None => [] end /\
      match last with Some t => (length t < length s)%nat | None => True end
  end.
Proof.
  unfold strtok_r. induction s as [|c s IH]; [done|]. cbn [skip_delims].
  case_bool_decide as Hc.
  - rewrite pieces_delim by done. destruct (skip_delims delim s) as [s'|]; [|done].
    destruct (scan_token delim s') as [tok last]. destruct IH as (H1 & H2 & H3). split_and!; try done.
    destruct last; [|done]. simpl. lia.
  - cbn [scan_token]. rewrite bool_decide_eq_false_2 by done. rewrite pieces_token by done.
    assert (Hlen : forall s tok t, scan_token delim s = (tok, Some t) -> (length t < length s)%nat).
    { clear. induction s as [|x s IH]; intros tok t; [done|]. cbn [scan_token].
      case_bool_decide; [intros [= _ <-]; simpl; lia|].
      destruct (scan_token delim s) as [tok' [t'|]] eqn:E; [|done]. intros [= _ <-].
      specialize (IH _ _ eq_refl). simpl. lia. }
    destruct (scan_token delim s) as [tok last] eqn:E. split_and!; [done|done|].
    destruct last as [t|]; [|done]. apply Hlen in E. simpl. lia.
Qed.

(** ** Copies *)

(** [strlcpy] stays in a destination of [siz] bytes and leaves a terminated
    prefix there. *)
Lemma strlcpy_exact dst src siz :
  0 < siz <= Z.of_nat (length dst) ->
  exists dst', strlcpy dst src siz = Ok (Z.of_nat (length src), dst') /\
    length dst' = length dst /\
    dst' = take (Z.to_nat (siz - 1)) src ++ [0] ++
           drop (S (Nat.min (Z.to_nat (siz - 1)) (length src))) dst.
Proof.
  intros Hs. unfold strlcpy. rewrite (proj2 (Z.eqb_neq siz 0)) by lia.
  rewrite write_block_ok by len. cbn [mbind result_bind]. eexists. split; [reflexivity|].
  split; [len|]. change (Z.to_nat 0) with 0%nat. rewrite take_0, <-app_assoc. cbn [app].
  do 3 f_equal. len.
Qed.

(** ** Decimal numbers *)

(** [%d] *)
Definition int_text (z : Z) : list Z := bytes (pretty z).

Lemma bytes_app a b : bytes (a +:+ b) = bytes a ++ bytes b.
Proof. induction a as [|c a IH]; [done|]. simpl. by rewrite IH. Qed.

(** Characters that are decimal digits, with their values. *)
Definition decimal_digit (c d : Z) : Prop := c = 48 + d /\ 0 <= d < 10.

Lemma pretty_char_digit d :
  (d < 10)%N -> decimal_digit (Z.of_N (Ascii.N_of_ascii (pretty_N_char d))) (Z.of_N d).
Proof.
  intros H. assert (d = 0 \/ d = 1 \/ d = 2 \/ d = 3 \/ d = 4 \/ d = 5 \/ d = 6 \/ d = 7 \/ d = 8 \/ d = 9)%N
    as Hd by lia.
  by destruct Hd as [->|[->|[->|[->|[->|[->|[->|[->|[->| ->]]]]]]]]].
Qed.

(** The digits of a number, the first of which is not zero. *)
Lemma pretty_go_digits x s :
  exists cs ds, bytes (pretty_N_go x s) = cs ++ bytes s /\ Forall2 decimal_digit cs ds /\
    value_of 10 ds = Z.of_N x /\ ((0 < x)%N -> exists c cs', cs = c :: cs' /\ 49 <= c <= 57).
Proof.
  revert s. induction (N.lt_wf_0 x) as [x _ IH]. intros s.
  destruct (decide (0 < x)%N) as [Hx|Hx].
  2:{ replace x with 0%N by lia. rewrite pretty_N_go_0. exists [], []. by split_and!; [| |done|]. }
  rewrite pretty_N_go_step by done.
  destruct (IH (x / 10)%N ltac:(apply N.div_lt; lia) (String (pretty_N_char (x mod 10)) s))
    as (cs & ds & Hb & Hd & Hv & Hfirst).
  pose proof (pretty_char_digit (x mod 10) ltac:(by apply N.mod_lt)) as Hc.
  cbn [bytes] in Hb. set (c := Z.of_N (Ascii.N_of_ascii (pretty_N_char (x mod 10)))) in *.
  exists (cs ++ [c]), (ds ++ [Z.of_N (x mod 10)]).
  assert (Hval : value_of 10 (ds ++ [Z.of_N (x mod 10)]) = Z.of_N x).
  { unfold value_of in *. rewrite fold_left_app, Hv. cbn [fold_left].
    pose proof (N.div_mod x 10 ltac:(done)). lia. }
  split; [rewrite Hb; same_list|]. split; [apply Forall2_app; [done|by constructor]|]. split; [done|].
  intros _. destruct (decide (0 < x / 10)%N) as [Hq|Hq].
  - destruct (Hfirst Hq) as (c1 & cs' & -> & Hc1). by exists c1, (cs' ++ [c]).
  - assert (x / 10 = 0)%N as Hz by (apply N.le_0_r, N.nlt_ge, Hq). assert (Hcs : cs = []).
    { clear -Hb Hz. rewrite Hz, pretty_N_go_0 in Hb. cbn [bytes] in Hb. fold c in Hb.
      change (c :: bytes s) with ([] ++ c :: bytes s) in Hb. by apply app_inv_tail in Hb. }
    subst cs. exists c, []. split; [done|]. destruct Hc as [-> _].
    pose proof (N.div_mod x 10 ltac:(done)). pose proof (N.mod_lt x 10 ltac:(done)). lia.
Qed.

Lemma value_ge ds n :
  Forall (fun d => 0 <= d) ds -> n * 10 ^ Z.of_nat (length ds) <= fold_left (fun n d => n * 10 + d) ds n.
Proof.
  intros Hds. revert n. induction Hds as [|d ds Hd _ IH]; intros n; cbn [fold_left length]; [lia|].
  rewrite Nat2Z.inj_succ, Z.pow_succ_r by lia. etrans; [|apply IH].
  assert (0 <= 10 ^ Z.of_nat (length ds)) by (apply Z.pow_nonneg; lia). nia.
Qed.

(** An [int] has at most ten digits. *)
Lemma int_text_length z : - 2 ^ 31 <= z < 2 ^ 31 -> (length (int_text z) <= 11)%nat.
Proof.
  intros Hz. assert (Hpos : forall p, Zpos p <= 2 ^ 31 -> (length (bytes (pretty (Npos p))) <= 10)%nat).
  { intros p Hp. destruct (pretty_go_digits (Npos p) "") as (cs & ds & Hs & Hd & Hv & Hf).
    destruct (Hf ltac:(done)) as (c & cs' & -> & Hc). cbn [bytes] in Hs. rewrite app_nil_r in Hs.
    change (pretty (Npos p)) with (pretty_N_go (Npos p) ""). rewrite Hs.
    pose proof (Forall2_length _ _ _ Hd) as Hlen. destruct ds as [|d ds]; [done|].
    apply Forall2_cons in Hd as [[-> Hd1] Hd]. rewrite Hlen. cbn [length].
    unfold value_of in Hv. cbn [fold_left] in Hv.
    assert (Hds : Forall (fun d => 0 <= d) ds).
    { clear -Hd. induction Hd as [|c d cs ds [_ ?] _ IH]; constructor; [lia|done]. }
    pose proof (value_ge ds (0 * 10 + d) Hds) as Hge.
    destruct (Nat.le_gt_cases (length ds) 9) as [|Hbig]; [lia|].
    assert (10 ^ 10 <= 10 ^ Z.of_nat (length ds)) by (apply Z.pow_le_mono_r; lia). nia. }
  unfold int_text. destruct z as [|p|p]; [cbn; lia| |].
  - change (pretty (Zpos p)) with (pretty (Npos p)). specialize (Hpos p ltac:(lia)). lia.
  - change (bytes (pretty (Zneg p))) with (45 :: bytes (pretty (Npos p))). specialize (Hpos p ltac:(lia)).
    cbn [length]. lia.
Qed.

Lemma digit_run_digits base cs ds s :
  10 <= base -> Forall2 decimal_digit cs ds ->
  digit_run base (cs ++ s) = (ds ++ (digit_run base s).1, (digit_run base s).2).
Proof.
  intros Hb. induction 1 as [|c d cs ds [-> Hd] _ IH]; [cbn [app]; by destruct (digit_run base s)|].
  cbn [app digit_run]. unfold digit_of, isdigit.
  rewrite (proj2 (Z.leb_le 48 _)), (proj2 (Z.leb_le _ 57)) by lia. cbn [andb].
  replace (48 + d - 48) with d by lia. by rewrite (proj2 (Z.leb_gt base d)), IH by lia.
Qed.

(** Reading a number that was printed gives it back, in base 10 and in base 0. *)
Lemma strtol_int_text long_bits z base :
  2 <= long_bits -> in_long long_bits z = true -> base = 0 \/ base = 10 ->
  strtol long_bits (int_text z) base = (z, [], false) /\ int_text z <> [].
Proof.
  intros Hb Hz Hbase.
  assert (Hpos : forall p neg, in_long long_bits (signed_value neg (Zpos p)) = true ->
    exists c cs ds, bytes (pretty (Npos p)) = c :: cs /\ 49 <= c <= 57 /\ ds <> [] /\
      digit_run 10 (c :: cs) = (ds, []) /\ value_of 10 ds = Zpos p).
  { intros p neg _. destruct (pretty_go_digits (Npos p) "") as (cs & ds & Hs & Hd & Hv & Hf).
    destruct (Hf ltac:(done)) as (c & cs' & -> & Hc). cbn [bytes] in Hs. rewrite app_nil_r in Hs.
    exists c, cs', ds. split; [exact Hs|]. split; [done|]. split; [by inversion Hd|]. split; [|done].
    rewrite <-(app_nil_r (c :: cs')), (digit_run_digits 10 _ ds) by done. by rewrite app_nil_r. }
  assert (Hrun : forall p neg, in_long long_bits (signed_value neg (Zpos p)) = true -> 
    forall nptr, strtol_sign (skip_space nptr) = (neg, bytes (pretty (Npos p))) ->
    strtol long_bits nptr base = (signed_value neg (Zpos p), [], false)).
  { intros p neg Hin nptr Hnptr. destruct (Hpos p neg Hin) as (c & cs & ds & Hs & Hc & Hne & Hr & Hv).
    pose proof (strtol_value long_bits nptr base Hb ltac:(lia)) as H.
    rewrite Hnptr, Hs in H.
    assert (Hbs : strtol_base base (c :: cs) = (10, c :: cs)).
    { assert (Hc48 : (c =? 48) = false) by (apply Z.eqb_neq; lia).
      unfold strtol_base. destruct Hbase as [-> | ->], cs as [|x cs];
        repeat first [rewrite Hc48 | progress cbn -[Z.eqb] | rewrite andb_false_r]; reflexivity. }
    rewrite Hbs, Hr in H. cbv zeta in H. rewrite Hv, Hin, clamp_in in H by done. by destruct ds. }
  unfold int_text. destruct z as [|p|p].
  - split; [|done]. pose proof (strtol_value long_bits (bytes (pretty 0)) base Hb ltac:(lia)) as H.
    change (bytes (pretty 0)) with [48] in *.
    assert (H' : strtol long_bits [48] base = (clamp long_bits 0, [], negb (in_long long_bits 0)))
      by (destruct Hbase as [-> | ->]; exact H).
    by rewrite H', clamp_in, Hz by done.
  - assert (Hs : exists c cs, bytes (pretty (Npos p)) = c :: cs /\ 49 <= c <= 57)
      by (destruct (Hpos p false Hz) as (c & cs & _ & Hs & Hc & _); by exists c, cs).
    destruct Hs as (c & cs & Hs & Hc). split; [|change (pretty (Zpos p)) with (pretty (Npos p)); by rewrite Hs].
    apply (Hrun p false Hz). change (pretty (Zpos p)) with (pretty (Npos p)). rewrite Hs. cbn [skip_space].
    unfold isspace. rewrite (proj2 (Z.eqb_neq c 32)), (proj2 (Z.leb_gt c 13)) by lia. rewrite andb_false_r. cbn [orb].
    unfold strtol_sign. by rewrite (proj2 (Z.eqb_neq c 45)), (proj2 (Z.eqb_neq c 43)) by lia.
  - split; [|done]. by apply (Hrun p true Hz).
Qed.

Lemma strtol_exact_witness :
  (2 <= 32) /\ strtol 32 (bytes " -0x80000001z") 0 = (-2147483648, bytes "z", true).
Proof.
  split; [lia|].
  exact (strtol_exact 32 (bytes " -0x80000001z") 0 ltac:(lia) (or_introl eq_refl)).
Defined.
