(* ===== verification/StrParms.v ===== *)
(** * libcutils: strings of parameters

    Models [src/libs/libcutils/str_parms.c] over the hash map of [Hashmap] and
    the string functions of [CString].  A string on the heap is a pointer with
    its characters, and so are the structure and the hash map pointers there;
    [live] is the set of pointers that are allocated, and a [free] or an access
    of another one is a fault.  The array of buckets and the entries of a hash
    map count as part of its one block.  Allocations of strings succeed; those
    of the structure and the hash map, and [asprintf], succeed or fail as an
    argument says.  A key or value that the caller passes is its text. *)
From S2P Require Import Prelude.
From S2P Require Import Hashmap.
From S2P Require Import CString.
Local Open Scope Z_scope.
#[local] Arguments Z.mul : simpl never.
#[local] Arguments Z.add : simpl never.
#[local] Arguments Z.sub : simpl never.

(** A [char *]: the pointer and the string there. *)
Record Str : Type := mkStr { ptr : Z; text : list Z }.

#[export] Instance Str_eq_dec : EqDecision Str.
Proof. solve_decision. Defined.

Record Heap : Type := mkHeap { live : gset Z; next : Z }.

Definition strdup (s : list Z) (h : Heap) : Str * Heap :=
  (mkStr (next h) s, mkHeap ({[next h]} ∪ live h) (next h + 1)).

Definition malloc (h : Heap) : Z * Heap := (next h, mkHeap ({[next h]} ∪ live h) (next h + 1)).

Definition free_ptr (x : Z) (h : Heap) : result Heap :=
  if bool_decide (x ∈ live h) then Ok (mkHeap (live h ∖ {[x]}) (next h)) else Err UseAfterFree.

Definition free (s : Str) (h : Heap) : result Heap := free_ptr (ptr s) h.

Definition read_str (s : Str) (h : Heap) : result (list Z) :=
  if bool_decide (ptr s ∈ live h) then Ok (text s) else Err UseAfterFree.

Definition ENOENT : Z := 2.
Definition ENOMEM : Z := 12.
Definition EINVAL : Z := 22.

Section StrParms.
(** The value of a [char], and the sizes of [size_t] and [long]. *)
Context (char_value : Z -> Z) (size_bits long_bits : Z).

Definition str_eq (key_a key_b : Str) : bool := bool_decide (text key_a = text key_b).

Definition str_hash_fn (str : Str) : Z :=
  s32 (fold_left (fun hash c => u32 (u32 (u32 (Z.shiftl hash 5) + hash) + char_value c)) (text str) 5381).

Abbreviation Map := (Hashmap (K := Str) (V := option Str)).

(** [sp_self] and [map_ptr]: where the structure and its hash map are;
    [errno_nomem]: whether [errno] is [ENOMEM]. *)
Record StrParms : Type := mkParms {
  sp_self : Z;
  map_ptr : Z;
  sp_map : Map;
  sp_heap : Heap;
  errno_nomem : bool
}.

(** A key of the caller, which is not on the heap. *)
Definition outside (key : list Z) : Str := mkStr (-1) key.

(** Whether [hashmapPut] leaves [ENOMEM] in [errno]: the entry, or the bigger
    array of buckets, cannot be allocated. *)
Definition put_fails (alloc_entry alloc_buckets : bool) (m : Map) (key : Str) : bool :=
  match buckets m !! bucket_of size_bits m (hashKey str_hash_fn key) with
  | Some b =>
      match put_loop str_eq alloc_entry key (hashKey str_hash_fn key) None b with
      | NoMemory => true
      | Replaced _ _ => false
      | Added _ =>
          negb alloc_buckets &&
          (size_t size_bits (size m + 1) >? size_t size_bits (bucketCount m * 3) / 4)
      end
  | None => false
  end.

Definition put (alloc : bool * bool) (key value : Str) (p : StrParms) : result (option Str * StrParms) :=
  '(old, m) ← hashmapPut None str_hash_fn str_eq size_bits alloc.1 alloc.2 (sp_map p) key (Some value);
  Ok (old, mkParms (sp_self p) (map_ptr p) m (sp_heap p)
             (errno_nomem p || put_fails alloc.1 alloc.2 (sp_map p) key)).

Definition with_heap (h : Heap) (p : StrParms) : StrParms :=
  mkParms (sp_self p) (map_ptr p) (sp_map p) h (errno_nomem p).

(** [errno] may be [ENOMEM] from an earlier failure. *)
Definition str_parms_create (alloc_struct alloc_map alloc_buckets : bool) (errno_nomem : bool) (h : Heap)
    : result (option StrParms * Heap) :=
  if alloc_struct then
    let '(str_parms, h) := malloc h in
    m ← hashmapCreate size_bits alloc_map alloc_buckets 5;
    match m with
    | Some m =>
        let '(map, h) := malloc h in
        Ok (Some (mkParms str_parms map m h errno_nomem), h)
    | None => h ← free_ptr str_parms h; Ok (None, h)
    end
  else Ok (None, h).

(** The callback, on the map that is being iterated over; [true] to go on. *)
Definition remove_pair (ctxt_key : option (list Z)) (key : Str) (value : option Str)
    (r : result StrParms) : result StrParms * bool :=
  match r with
  | Err e => (Err e, false)
  | Ok p =>
      let do_remove :=
        '(_, m) ← hashmapRemove None str_hash_fn str_eq size_bits (sp_map p) key;
        h ← free key (sp_heap p);
        h ← match value with Some v => free v h | None => Ok h end;
        Ok (mkParms (sp_self p) (map_ptr p) m h (errno_nomem p)) in
      match ctxt_key with
      | None => (do_remove, true)
      | Some k =>
          match read_str key (sp_heap p) with
          | Err e => (Err e, false)
          | Ok t => if bool_decide (k = t) then (do_remove, false) else (Ok p, true)
          end
      end
  end.

(** Only the entry at hand is removed, so that the entries still to come are
    those of the map before the call. *)
Definition str_parms_del (p : StrParms) (key : option (list Z)) : result StrParms :=
  hashmapForEach (sp_map p) (remove_pair key) (Ok p).

(** The buckets up to [bucketCount] are walked; their entries and the array go
    with the block of the map. *)
Definition hashmapFree (map : Z) (m : Map) (h : Heap) : result Heap :=
  _ ← foldM (fun (_ : unit) i => match buckets m !! i with Some _ => Ok tt | None => Err OutOfBounds end)
        tt (seq 0 (Z.to_nat (bucketCount m)));
  free_ptr map h.

(** What is left of the heap. *)
Definition str_parms_destroy (p : StrParms) : result Heap :=
  p ← hashmapForEach (sp_map p) (remove_pair None) (Ok p);
  h ← hashmapFree (map_ptr p) (sp_map p) (sp_heap p);
  free_ptr (sp_self p) h.

(** [strchr (s, c)]: what is before and after the first [c]. *)
Fixpoint strchr (s : list Z) (c : Z) : option (list Z * list Z) :=
  match s with
  | [] => None
  | x :: t => if x =? c then Some ([], t)
              else match strchr t c with Some (a, b) => Some (x :: a, b) | None => None end
  end.

(** The body of the loop of [str_parms_create_str]. *)
Definition add_pair (alloc : bool * bool) (kvpair : list Z) (p : StrParms) : result StrParms :=
  match strchr kvpair 61 with
  | Some ([], _) => Ok p
  | eq =>
      let '(key, value) := match eq with Some (k, v) => (k, v) | None => (kvpair, []) end in
      let '(key, h) := strdup key (sp_heap p) in
      let '(value, h) := strdup value h in
      '(old_val, p) ← put alloc key value (with_heap h p);
      match old_val with
      | Some old_val =>
          h ← free old_val (sp_heap p);
          h ← free key h;
          Ok (with_heap h p)
      | None => Ok p
      end
  end.

Fixpoint pairs_loop (fuel : nat) (alloc : nat -> bool * bool) (kvpair : option (list Z))
    (tmpstr : option (list Z)) (p : StrParms) : result StrParms :=
  match kvpair with
  | Some (c :: kv) =>
      match fuel with
      | O => Err OutOfFuel
      | S fuel =>
          p ← add_pair (alloc fuel) (c :: kv) p;
          let '(kvpair, tmpstr) := strtok_r tmpstr [59] in
          pairs_loop fuel alloc kvpair tmpstr p
      end
  | _ => Ok p
  end.

(** [alloc_str]: whether the copy of the string can be allocated. *)
Definition str_parms_create_str (alloc_struct alloc_map alloc_buckets alloc_str : bool)
    (alloc : nat -> bool * bool) (errno_nomem : bool) (string : list Z) (h : Heap) : result (option StrParms * Heap) :=
  '(p, h) ← str_parms_create alloc_struct alloc_map alloc_buckets errno_nomem h;
  match p with
  | None => Ok (None, h)
  | Some p =>
      if negb alloc_str then h ← str_parms_destroy p; Ok (None, h)
      else
        let '(str, h) := strdup string (sp_heap p) in
        let '(kvpair, tmpstr) := strtok_r (Some string) [59] in
        p ← pairs_loop (S (length string)) alloc kvpair tmpstr (with_heap h p);
        h ← free str (sp_heap p);
        Ok (Some (with_heap h p), h)
  end.

Definition str_parms_add_str (alloc : bool * bool) (key value : list Z) (p : StrParms)
    : result (Z * StrParms) :=
  let '(tmp_key, h) := strdup key (sp_heap p) in
  let '(tmp_val, h) := strdup value h in
  '(old_val, p) ← put alloc tmp_key tmp_val (with_heap h p);
  match old_val with
  | Some old_val =>
      h ← free old_val (sp_heap p);
      h ← free tmp_key h;
      Ok (0, with_heap h p)
  | None =>
      if errno_nomem p then
        h ← free tmp_key (sp_heap p);
        h ← free tmp_val h;
        Ok (- ENOMEM, with_heap h p)
      else Ok (0, p)
  end.

(** [val_str] has room for every [int]. *)
Definition str_parms_add_int (alloc : bool * bool) (key : list Z) (value : Z) (p : StrParms)
    : result (Z * StrParms) :=
  str_parms_add_str alloc key (take 11 (int_text value)) p.

(** [print_float]: what [%.10f] prints. *)
Definition str_parms_add_float (print_float : list Z) (alloc : bool * bool) (key : list Z) (p : StrParms)
    : result (Z * StrParms) :=
  str_parms_add_str alloc key (take 22 print_float) p.

Definition str_parms_get_str (p : StrParms) (key val : list Z) (len : Z) : result (Z * list Z) :=
  value ← hashmapGet None str_hash_fn str_eq size_bits (sp_map p) (outside key);
  match value with
  | Some value => t ← read_str value (sp_heap p); strlcpy val t (size_t size_bits len)
  | None => Ok (- ENOENT, val)
  end.

(** [strtol] sets [errno] to [ERANGE]. *)
Definition str_parms_get_int (p : StrParms) (key : list Z) (val : Z) : result (Z * Z * StrParms) :=
  value ← hashmapGet None str_hash_fn str_eq size_bits (sp_map p) (outside key);
  match value with
  | None => Ok (- ENOENT, val, p)
  | Some value =>
      t ← read_str value (sp_heap p);
      let '(n, end_, erange) := strtol long_bits t 0 in
      Ok (if bool_decide (t <> []) && bool_decide (end_ = []) then 0 else - EINVAL, s32 n,
          mkParms (sp_self p) (map_ptr p) (sp_map p) (sp_heap p) (errno_nomem p && negb erange))
  end.

(** [strtof_end]: where [strtof] stops; its result is not used. *)
Definition str_parms_get_float {F : Type} (strtof_end : list Z -> list Z) (p : StrParms) (key : list Z)
    (val : F) : result (Z * F) :=
  value ← hashmapGet None str_hash_fn str_eq size_bits (sp_map p) (outside key);
  match value with
  | None => Ok (- ENOENT, val)
  | Some value =>
      t ← read_str value (sp_heap p);
      Ok (if bool_decide (t <> []) && bool_decide (strtof_end t = []) then 0 else - EINVAL, val)
  end.

(** The string so far, which is the only temporary one, and how often
    [asprintf] was called. *)
Definition combine_strings (prints : nat -> bool) (h : Heap) (key : Str) (value : option Str)
    (r : result (option (list Z) * nat)) : result (option (list Z) * nat) * bool :=
  match r, read_str key h, match value with Some v => read_str v h | None => Err NullDeref end with
  | Ok (old_str, n), Ok key, Ok value =>
      if prints n then
        (Ok (Some (match old_str with Some s => s ++ [59] | None => [] end ++ key ++ [61] ++ value), S n), true)
      else (Ok (None, S n), false)
  | Err e, _, _ | _, Err e, _ | _, _, Err e => (Err e, false)
  end.

Definition str_parms_to_str (prints : nat -> bool) (p : StrParms) : result (option (list Z)) :=
  if 0 <? hashmapSize (sp_map p) then
    '(str, _) ← hashmapForEach (sp_map p) (combine_strings prints (sp_heap p)) (Ok (None, 0%nat));
    Ok str
  else Ok (Some []).
End StrParms.

(** ** Strings as keys *)

#[export] Instance str_contract char_value : HashContract (str_hash_fn char_value) str_eq.
Proof.
  unfold str_eq. split.
  - intros a b H%bool_decide_eq_true_1. unfold str_hash_fn. by rewrite H.
  - intros a b H%bool_decide_eq_true_1. by apply bool_decide_eq_true_2.
  - intros a b c H1%bool_decide_eq_true_1 H2%bool_decide_eq_true_1. right.
    apply bool_decide_eq_true_2. congruence.
Qed.

Lemma same_text a b : same str_eq a b <-> text a = text b.
Proof.
  unfold same, str_eq. rewrite bool_decide_eq_true. split; [by intros [->|?]|by right].
Qed.

(** ** Ownership

    Every string of the map is allocated, no pointer is used twice, and nothing
    else is allocated but [ex]. *)
Section Ownership.
Context (char_value : Z -> Z) (size_bits long_bits : Z) (Hbits : 4 <= size_bits).
Abbreviation hashf := (str_hash_fn char_value).
Abbreviation Map := (Hashmap (K := Str) (V := option Str)).
Abbreviation Item := (Entry (K := Str) (V := option Str)).

Definition entry_ptrs (e : Item) : list Z :=
  ptr (e_key e) :: match e_value e with Some v => [ptr v] | None => [] end.

Definition ptrs (l : list Item) : list Z := l ≫= entry_ptrs.

Record owns (ex : gset Z) (m : Map) (h : Heap) : Prop := {
  own_wf : wf hashf str_eq size_bits m;
  own_live : live h = list_to_set (ptrs (entries m)) ∪ ex;
  own_nodup : NoDup (ptrs (entries m));
  own_extra : forall x, x ∈ ptrs (entries m) -> x ∉ ex;
  own_next : forall x, x ∈ live h -> x < next h;
  own_values : Forall (fun e => is_Some (e_value e)) (entries m)
}.

(** The map from texts to texts. *)
Definition represents (m : Map) (f : gmap (list Z) (list Z)) : Prop :=
  forall k, (v ← lookup_key str_eq (entries m) (outside k); text <$> v) = f !! k.

Lemma lookup_key_text (l : list Item) a b :
  text a = text b -> lookup_key str_eq l a = lookup_key str_eq l b.
Proof.
  intros H. induction l as [|e l IH]; [done|]. cbn [lookup_key]. rewrite IH.
  destruct (decide (same str_eq (e_key e) a)) as [Ha|Ha], (decide (same str_eq (e_key e) b)) as [Hb|Hb];
    try done; rewrite same_text in Ha, Hb; congruence.
Qed.

(** The key of an entry finds its value. *)
Lemma represents_entry m f e :
  wf hashf str_eq size_bits m -> represents m f -> e ∈ entries m ->
  f !! text (e_key e) = text <$> e_value e.
Proof.
  intros Hwf Hr He. rewrite <-Hr.
  rewrite (proj2 (lookup_key_some hashf str_eq (entries m) (outside (text (e_key e))) (e_value e)
    (wf_distinct _ _ _ _ Hwf))); [done|].
  exists e. split_and!; [done|by apply same_text|done].
Qed.

Lemma free_ptr_ok x h : x ∈ live h -> free_ptr x h = Ok (mkHeap (live h ∖ {[x]}) (next h)).
Proof. intros H. unfold free_ptr. by rewrite bool_decide_eq_true_2. Qed.

Lemma free_ok s h : ptr s ∈ live h -> free s h = Ok (mkHeap (live h ∖ {[ptr s]}) (next h)).
Proof. apply free_ptr_ok. Qed.

Lemma read_str_ok s h : ptr s ∈ live h -> read_str s h = Ok (text s).
Proof. intros H. unfold read_str. by rewrite bool_decide_eq_true_2. Qed.

Lemma ptrs_cons e l : ptrs (e :: l) = entry_ptrs e ++ ptrs l.
Proof. done. Qed.

Lemma ptrs_perm l l' : l ≡ₚ l' -> ptrs l ≡ₚ ptrs l'.
Proof. intros H. unfold ptrs. by rewrite H. Qed.

(** What ownership says about another list of the same entries. *)
Lemma owns_view ex m h l :
  owns ex m h -> entries m ≡ₚ l ->
  live h = list_to_set (ptrs l) ∪ ex /\ NoDup (ptrs l) /\ (forall x, x ∈ ptrs l -> x ∉ ex) /\
  Forall (fun e => is_Some (e_value e)) l.
Proof.
  intros Ho Hp. pose proof (ptrs_perm _ _ Hp) as Hpp. split_and!.
  - rewrite (own_live _ _ _ Ho). by rewrite (list_to_set_perm_L _ _ Hpp).
  - rewrite <-Hpp. apply (own_nodup _ _ _ Ho).
  - intros x Hx. apply (own_extra _ _ _ Ho). by rewrite Hpp.
  - rewrite <-Hp. apply (own_values _ _ _ Ho).
Qed.

Lemma view_owns ex m h l :
  wf hashf str_eq size_bits m -> entries m ≡ₚ l -> live h = list_to_set (ptrs l) ∪ ex -> NoDup (ptrs l) ->
  (forall x, x ∈ ptrs l -> x ∉ ex) -> (forall x, x ∈ live h -> x < next h) ->
  Forall (fun e => is_Some (e_value e)) l -> owns ex m h.
Proof.
  intros Hwf Hp Hl Hn Hx Hr Hv. pose proof (ptrs_perm _ _ Hp) as Hpp. split; [done| | | |done|].
  - by rewrite (list_to_set_perm_L _ _ Hpp).
  - by rewrite Hpp.
  - intros x. rewrite Hpp. apply Hx.
  - by rewrite Hp.
Qed.

(** The pointers of an entry are live. *)
Lemma entry_live ex m h e x : owns ex m h -> e ∈ entries m -> x ∈ entry_ptrs e -> x ∈ live h.
Proof.
  intros Ho He Hx. rewrite (own_live _ _ _ Ho). apply elem_of_union_l, elem_of_list_to_set.
  apply list_elem_of_bind. by exists e.
Qed.

(** An entry taken out, with its strings freed. *)
Lemma free_entry ex m h e m' :
  owns ex m h -> entries m ≡ₚ e :: entries m' -> wf hashf str_eq size_bits m' ->
  exists h1 h2, free (e_key e) h = Ok h1 /\
    match e_value e with Some v => free v h1 | None => Ok h1 end = Ok h2 /\ owns ex m' h2.
Proof.
  intros Ho Hp Hwf'. destruct (owns_view _ _ _ _ Ho Hp) as (Hlive & Hnd & Hex' & Hval).
  apply Forall_cons in Hval as [[v Hv] Hval]. rewrite ptrs_cons in Hlive, Hnd, Hex'.
  unfold entry_ptrs in *. rewrite Hv in *. cbn [app] in *.
  apply NoDup_cons in Hnd as [Hk Hnd]. apply NoDup_cons in Hnd as [Hvn Hnd].
  assert (Hkv : ptr (e_key e) <> ptr v) by set_solver.
  rewrite free_ok by (rewrite Hlive; set_solver).
  eexists _, _. split; [reflexivity|]. rewrite free_ok by (cbn [live]; rewrite Hlive; set_solver).
  split; [reflexivity|]. cbn [live next].
  assert (Hnew : (live h ∖ {[ptr (e_key e)]}) ∖ {[ptr v]} = list_to_set (ptrs (entries m')) ∪ ex).
  { rewrite Hlive. cbn [list_to_set]. pose proof (Hex' (ptr (e_key e))). pose proof (Hex' (ptr v)).
    apply set_eq. intros x. rewrite !elem_of_difference, !elem_of_union, !elem_of_singleton, !elem_of_list_to_set.
    set_solver. }
  split; cbn [live next]; [done|done|done| | |done].
  - intros x Hx. apply Hex'. by do 2 right.
  - intros x Hx. apply (own_next _ _ _ Ho). by apply elem_of_difference in Hx as [[? _]%elem_of_difference _].
Qed.

(** Two new strings. *)
Definition dup_heap (h : Heap) : Heap := mkHeap ({[next h + 1]} ∪ ({[next h]} ∪ live h)) (next h + 1 + 1).

Lemma new_not_live ex m h l :
  owns ex m h -> entries m ≡ₚ l ->
  forall x, x ∈ ptrs l \/ x ∈ ex -> x <> next h /\ x <> next h + 1.
Proof.
  intros Ho Hp x Hx. destruct (owns_view _ _ _ _ Ho Hp) as (Hl & _).
  assert (Hx' : x ∈ live h).
  { rewrite Hl. apply elem_of_union. destruct Hx; [left; by apply elem_of_list_to_set|by right]. }
  pose proof (own_next _ _ _ Ho x Hx'). lia.
Qed.

Lemma free_new ex m h k v :
  owns ex m h ->
  exists h1 h2, free (mkStr (next h) k) (dup_heap h) = Ok h1 /\
    free (mkStr (next h + 1) v) h1 = Ok h2 /\ owns ex m h2.
Proof.
  intros Ho. unfold dup_heap. rewrite free_ok by (cbn [ptr live]; set_solver).
  eexists _, _. split; [reflexivity|].
  assert (Hne : next h <> next h + 1) by lia.
  rewrite free_ok by (cbn [ptr live]; set_solver). split; [reflexivity|]. cbn [live next ptr].
  pose proof (own_next _ _ _ Ho) as Hr.
  assert (Hl : (({[next h + 1]} ∪ ({[next h]} ∪ live h)) ∖ {[next h]}) ∖ {[next h + 1]} = live h).
  { apply set_eq. intros x. rewrite !elem_of_difference, !elem_of_union, !elem_of_singleton.
    split; [tauto|]. intros Hx. specialize (Hr x Hx). split; [split; [tauto|lia]|lia]. }
  rewrite Hl. destruct Ho. split; try done. cbn [live next]. intros x Hx. specialize (Hr x Hx). lia.
Qed.

Lemma represents_set m m' f ks vs :
  represents m f ->
  (forall k', lookup_key str_eq (entries m') k' =
     if decide (same str_eq ks k') then Some (Some vs) else lookup_key str_eq (entries m) k') ->
  represents m' (<[text ks := text vs]> f).
Proof.
  intros Hr Hl k. rewrite Hl. destruct (decide (same str_eq ks (outside k))) as [Hs|Hs]; rewrite same_text in Hs.
  - cbn [text outside] in Hs. subst k. by rewrite lookup_insert_eq.
  - rewrite lookup_insert_ne by done. apply Hr.
Qed.

Lemma replaced_owns ex m h c l ov m' k v :
  owns ex m h -> entries m ≡ₚ c :: l -> e_value c = Some ov -> wf hashf str_eq size_bits m' ->
  entries m' ≡ₚ mkEntry (e_key c) (e_hash c) (Some (mkStr (next h + 1) v)) :: l ->
  exists h1 h2, free ov (dup_heap h) = Ok h1 /\ free (mkStr (next h) k) h1 = Ok h2 /\ owns ex m' h2.
Proof.
  intros Ho Hp Hov Hwf' Hp'. destruct (owns_view _ _ _ _ Ho Hp) as (Hlive & Hnd & Hx & Hval).
  apply Forall_cons in Hval as [_ Hval]. pose proof (new_not_live _ _ _ _ Ho Hp) as Hfresh.
  pose proof (own_next _ _ _ Ho) as Hnext.
  rewrite ptrs_cons in Hlive, Hnd, Hx, Hfresh. unfold entry_ptrs in Hlive, Hnd, Hx, Hfresh.
  rewrite Hov in Hlive, Hnd, Hx, Hfresh. cbn [app] in *. clear Ho Hp.
  apply NoDup_cons in Hnd as [Hk Hnd]. apply NoDup_cons in Hnd as [Hvn Hnd].
  apply not_elem_of_cons in Hk as [Hkv Hk].
  assert (Hov_fresh : ptr ov <> next h /\ ptr ov <> next h + 1) by (apply Hfresh; left; right; left).
  assert (Hk_fresh : ptr (e_key c) <> next h /\ ptr (e_key c) <> next h + 1) by (apply Hfresh; left; left).
  assert (Hl_fresh : forall x, x ∈ ptrs l -> x <> next h /\ x <> next h + 1)
    by (intros x Hin; apply Hfresh; left; by do 2 right).
  assert (Hex_fresh : forall x, x ∈ ex -> x <> next h /\ x <> next h + 1 /\ x <> ptr ov).
  { intros x Hin. destruct (Hfresh x (or_intror Hin)). split_and!; [done|done|]. intros ->.
    apply (Hx (ptr ov)); [right; left|done]. }
  cbn [list_to_set] in Hlive. unfold dup_heap.
  rewrite free_ok by (cbn [live]; rewrite Hlive; clear; set_solver).
  eexists _, _. split; [reflexivity|].
  rewrite free_ok by (cbn [ptr live]; rewrite elem_of_difference, elem_of_singleton; split; [clear; set_solver|lia]).
  split; [reflexivity|]. cbn [ptr live next].
  eapply view_owns; [done|exact Hp'| | | | |]; cbn [live next].
  - rewrite Hlive, ptrs_cons. cbn [entry_ptrs e_key e_value ptr app list_to_set]. apply set_eq. intros x.
    rewrite !elem_of_difference, !elem_of_union, !elem_of_singleton, !elem_of_list_to_set.
    split; [tauto|]. intros Hin. enough (x <> ptr ov /\ x <> next h) by tauto.
    destruct Hin as [[->|[->|Hin]]|Hin]; [split; [done|lia]|lia| |by destruct (Hex_fresh x Hin) as (? & _ & ?)].
    split; [by intros ->|]. by destruct (Hl_fresh x Hin).
  - rewrite ptrs_cons. cbn [entry_ptrs e_key e_value ptr app]. apply NoDup_cons. split.
    + apply not_elem_of_cons. split; [lia|done].
    + apply NoDup_cons. split; [|done]. intros Hin. by destruct (Hl_fresh _ Hin).
  - rewrite ptrs_cons. cbn [entry_ptrs e_key e_value ptr app]. intros x [->|[->|Hin]%elem_of_cons]%elem_of_cons.
    + apply Hx. left.
    + intros Hin. by destruct (Hex_fresh _ Hin) as (_ & ? & _).
    + apply Hx. by do 2 right.
  - intros x [[Hin _]%elem_of_difference _]%elem_of_difference.
    rewrite !elem_of_union, !elem_of_singleton in Hin. destruct Hin as [->|[->|Hin]]; [lia|lia|].
    specialize (Hnext x Hin). lia.
  - constructor; [by eexists|done].
Qed.

Lemma added_owns ex m h m' k v hk :
  owns ex m h -> wf hashf str_eq size_bits m' ->
  entries m' ≡ₚ mkEntry (mkStr (next h) k) hk (Some (mkStr (next h + 1) v)) :: entries m ->
  owns ex m' (dup_heap h).
Proof.
  intros Ho Hwf' Hp'. pose proof (new_not_live _ _ _ _ Ho (reflexivity _)) as Hfresh. destruct Ho as [_ Hlive Hnd Hx Hnext Hval].
  eapply view_owns; [done|exact Hp'| | | | |]; unfold dup_heap; cbn [live next].
  - rewrite Hlive, ptrs_cons. cbn [entry_ptrs e_key e_value ptr app list_to_set]. apply set_eq. intros x.
    rewrite !elem_of_union. tauto.
  - rewrite ptrs_cons. cbn [entry_ptrs e_key e_value ptr app]. apply NoDup_cons. split.
    + apply not_elem_of_cons. split; [lia|]. intros Hin. by destruct (Hfresh _ (or_introl Hin)).
    + apply NoDup_cons. split; [|done]. intros Hin. by destruct (Hfresh _ (or_introl Hin)).
  - rewrite ptrs_cons. cbn [entry_ptrs e_key e_value ptr app]. intros x [->|[->|Hin]%elem_of_cons]%elem_of_cons.
    + intros Hin. by destruct (Hfresh _ (or_intror Hin)).
    + intros Hin. by destruct (Hfresh _ (or_intror Hin)).
    + by apply Hx.
  - intros x Hin. rewrite !elem_of_union, !elem_of_singleton in Hin. destruct Hin as [->|[->|Hin]]; [lia|lia|].
    specialize (Hnext x Hin). lia.
  - constructor; [by eexists|done].
Qed.

(** When a new key leaves [ENOMEM] in [errno]. *)
Lemma put_fails_new ae ab m ks :
  wf hashf str_eq size_bits m -> lookup_key str_eq (entries m) ks = None ->
  put_fails char_value size_bits ae ab m ks =
    negb ae || (negb ab && (size_t size_bits (size m + 1) >? size_t size_bits (bucketCount m * 3) / 4)).
Proof.
  intros Hwf Hlk. unfold put_fails. destruct (bucket_exists _ _ _ m (hashKey hashf ks) Hwf) as [b Hb].
  rewrite Hb. rewrite (proj1 (lookup_in_bucket _ _ _ m ks b Hwf Hb)) in Hlk.
  pose proof (put_loop_spec hashf str_eq ae ks None b (bucket_hashed _ _ _ _ _ _ Hwf Hb)) as Hput.
  rewrite Hlk in Hput. rewrite Hput. by destruct ae.
Qed.

(** What the two fresh strings become: the old value and the new key are freed;
    or both are in the map; or, without memory for an entry, nothing changes. *)
Lemma put_spec ae ab ex m h f k v :
  owns ex m h -> represents m f -> size m < 2 ^ (size_bits - 4) ->
  let ks := mkStr (next h) k in let vs := mkStr (next h + 1) v in
  let r := hashmapPut None hashf str_eq size_bits ae ab m ks (Some vs) in
  (exists ov m' h1 h2, r = Ok (Some ov, m') /\ free ov (dup_heap h) = Ok h1 /\ free ks h1 = Ok h2 /\
     owns ex m' h2 /\ represents m' (<[k := v]> f) /\ size m' = size m) \/
  (ae = true /\ exists m', r = Ok (None, m') /\ owns ex m' (dup_heap h) /\
     represents m' (<[k := v]> f) /\ size m' = size m + 1) \/
  (ae = false /\ r = Ok (None, m) /\ put_fails char_value size_bits false ab m ks = true).
Proof using Hbits.
  intros Ho Hr Hsize ks vs r. pose proof (own_wf _ _ _ Ho) as Hwf.
  destruct (hashmapPut_entries None hashf str_eq size_bits ae ab m ks (Some vs) Hbits Hwf Hsize)
    as (m' & Hput & Hwf' & He). fold r in Hput.
  destruct (wf_size _ _ _ _ Hwf) as [Hsz _]. destruct (wf_size _ _ _ _ Hwf') as [Hsz' _].
  destruct (lookup_key str_eq (entries m) ks) as [old|] eqn:Hlk.
  - left. destruct He as (c & l & Hp & Hs & Hold & Hp').
    destruct (owns_view _ _ _ _ Ho Hp) as (_ & _ & _ & [[ov Hov] _]%Forall_cons).
    rewrite Hold in Hov. subst old. cbn [default] in Hput.
    destruct (replaced_owns _ _ _ c l ov m' k v Ho Hp Hov Hwf' Hp') as (h1 & h2 & H1 & H2 & Ho').
    exists ov, m', h1, h2. split; [by rewrite Hput, Hov|]. split; [done|]. split; [done|]. split; [done|].
    split; [|rewrite Hsz', Hsz, Hp, Hp'; done].
    apply (represents_set m m' f ks vs Hr). intros k'.
    rewrite (lookup_key_perm hashf str_eq _ _ k' Hp' (wf_distinct _ _ _ _ Hwf')).
    rewrite (lookup_key_perm hashf str_eq _ _ k' Hp (wf_distinct _ _ _ _ Hwf)).
    exact (lookup_key_replaced hashf str_eq c ks (Some vs) (e_hash c) l k' Hs).
  - right. pose proof (fun ae ab => put_fails_new ae ab m ks Hwf Hlk) as Hfails. destruct ae.
    + left. split; [done|]. exists m'. split; [done|]. split; [by eapply added_owns|].
      split; [|rewrite Hsz', Hsz, He; cbn [length]; lia].
      apply (represents_set m m' f ks vs Hr). intros k'.
      by rewrite (lookup_key_perm hashf str_eq _ _ k' He (wf_distinct _ _ _ _ Hwf')).
    + right. subst m'. split; [done|]. split; [done|]. by rewrite Hfails.
Qed.

(** ** Removal and iteration *)

Lemma distinct_same (l : list Item) c e :
  distinct str_eq l -> c ∈ l -> e ∈ l -> text (e_key c) = text (e_key e) -> c = e.
Proof.
  intros Hd Hc He Ht. induction l as [|x l IH]; [by apply elem_of_nil in Hc|].
  destruct Hd as [Hx Hd]. rewrite Forall_forall in Hx.
  apply elem_of_cons in Hc as [->|Hc], He as [->|He]; [done| | |by apply IH].
  - destruct (Hx e He). by apply same_text.
  - destruct (Hx c Hc). by apply same_text.
Qed.

(** Removing the entry of a key and freeing its strings. *)
Lemma remove_entry ex m h f e :
  owns ex m h -> represents m f -> e ∈ entries m ->
  exists m' h1 h2, hashmapRemove None hashf str_eq size_bits m (e_key e) = Ok (e_value e, m') /\
    free (e_key e) h = Ok h1 /\ match e_value e with Some v => free v h1 | None => Ok h1 end = Ok h2 /\
    owns ex m' h2 /\ represents m' (delete (text (e_key e)) f) /\ entries m ≡ₚ e :: entries m'.
Proof.
  intros Ho Hr He. pose proof (own_wf _ _ _ Ho) as Hwf. pose proof (wf_distinct _ _ _ _ Hwf) as Hd.
  destruct (hashmapRemove_entries None hashf str_eq size_bits m (e_key e) Hwf) as (m' & Hrm & Hwf' & Hcase).
  destruct (hashmapRemove_ok None hashf str_eq size_bits m (e_key e) Hwf) as (m2 & Hrm2 & _ & Hlk & _).
  rewrite Hrm in Hrm2. injection Hrm2 as <-.
  assert (Hval : lookup_key str_eq (entries m) (e_key e) = Some (e_value e)).
  { apply (lookup_key_some hashf str_eq); [done|]. exists e. split_and!; [done|by apply same_text|done]. }
  rewrite Hval in Hrm, Hcase. destruct Hcase as (c & Hp & Hs & _).
  assert (c = e) as ->.
  { apply (distinct_same (entries m)); [done|rewrite Hp; left|done|by apply same_text]. }
  destruct (free_entry ex m h e m' Ho Hp Hwf') as (h1 & h2 & H1 & H2 & Ho').
  exists m', h1, h2. split_and!; try done. intros k. rewrite Hlk.
  destruct (decide (same str_eq (e_key e) (outside k))) as [Hk|Hk]; rewrite same_text in Hk; cbn [text outside] in Hk.
  - subst k. by rewrite lookup_delete_eq.
  - rewrite lookup_delete_ne by done. apply Hr.
Qed.

Lemma remove_pair_all ex p f e :
  owns ex (sp_map p) (sp_heap p) -> represents (sp_map p) f -> e ∈ entries (sp_map p) ->
  exists p', remove_pair char_value size_bits None (e_key e) (e_value e) (Ok p) = (Ok p', true) /\
    owns ex (sp_map p') (sp_heap p') /\ represents (sp_map p') (delete (text (e_key e)) f) /\
    entries (sp_map p) ≡ₚ e :: entries (sp_map p') /\ errno_nomem p' = errno_nomem p.
Proof.
  intros Ho Hr He. destruct (remove_entry ex _ _ f e Ho Hr He) as (m' & h1 & h2 & Hrm & H1 & H2 & Ho' & Hr' & Hp).
  exists (mkParms (sp_self p) (map_ptr p) m' h2 (errno_nomem p)). split; [|done]. cbn [remove_pair].
  rewrite Hrm. cbn [mbind result_bind]. rewrite H1. cbn [mbind result_bind]. by rewrite H2.
Qed.

Lemma remove_all ex l : forall p f,
  owns ex (sp_map p) (sp_heap p) -> represents (sp_map p) f -> entries (sp_map p) ≡ₚ l ->
  exists p', (for_each_bucket (remove_pair char_value size_bits None) l (Ok p)).1 = Ok p' /\
    owns ex (sp_map p') (sp_heap p') /\ entries (sp_map p') = [] /\ errno_nomem p' = errno_nomem p.
Proof.
  induction l as [|e l IH]; intros p f Ho Hr Hp.
  { exists p. split; [done|]. split; [done|]. split; [by apply Permutation_nil_r in Hp|done]. }
  destruct (remove_pair_all ex p f e Ho Hr ltac:(rewrite Hp; left)) as (p1 & Hrm & Ho1 & Hr1 & Hp1 & He1).
  cbn [for_each_bucket]. rewrite Hrm.
  assert (Hl : entries (sp_map p1) ≡ₚ l)
    by (apply (Permutation_cons_inv (a := e)); by rewrite <-Hp1, <-Hp).
  destruct (IH p1 _ Ho1 Hr1 Hl) as (p' & Hgo & Ho' & Hn & He'). exists p'. split_and!; [done|done|done|congruence].
Qed.

Lemma remove_key ex k l : forall p f,
  owns ex (sp_map p) (sp_heap p) -> represents (sp_map p) f -> (forall e, e ∈ l -> e ∈ entries (sp_map p)) ->
  (forall e, e ∈ entries (sp_map p) -> text (e_key e) = k -> e ∈ l) ->
  exists p', (for_each_bucket (remove_pair char_value size_bits (Some k)) l (Ok p)).1 = Ok p' /\
    owns ex (sp_map p') (sp_heap p') /\ represents (sp_map p') (delete k f) /\
    errno_nomem p' = errno_nomem p /\ size (sp_map p') <= size (sp_map p).
Proof.
  induction l as [|e l IH]; intros p f Ho Hr Hin Hall.
  { exists p. split; [done|]. split; [done|]. split; [|split; [done|lia]].
    assert (Hnone : f !! k = None); [|by rewrite delete_id].
    rewrite <-Hr. destruct (lookup_key str_eq (entries (sp_map p)) (outside k)) as [v|] eqn:E; [|done].
    apply (lookup_key_some hashf str_eq) in E as (e & He & Hs & _); [|apply (wf_distinct _ _ _ _ (own_wf _ _ _ Ho))].
    apply same_text in Hs. by apply (Hall e He), elem_of_nil in Hs. }
  assert (He : e ∈ entries (sp_map p)) by (apply Hin; left).
  cbn [for_each_bucket remove_pair].
  rewrite read_str_ok by (eapply entry_live; [done|done|left]).
  case_bool_decide as Hk.
  - destruct (remove_entry ex _ _ f e Ho Hr He) as (m' & h1 & h2 & Hrm & H1 & H2 & Ho' & Hr' & Hp).
    rewrite Hrm. cbn [mbind result_bind]. rewrite H1. cbn [mbind result_bind]. rewrite H2.
    exists (mkParms (sp_self p) (map_ptr p) m' h2 (errno_nomem p)). split; [done|]. split; [done|]. split; [by rewrite Hk|].
    split; [done|]. cbn [sp_map]. destruct (wf_size _ _ _ _ (own_wf _ _ _ Ho)) as [-> _].
    destruct (wf_size _ _ _ _ (own_wf _ _ _ Ho')) as [-> _]. rewrite Hp. cbn [length]. lia.
  - apply IH; [done|done|intros x Hx; apply Hin; by right|].
    intros x Hx Ht. destruct (proj1 (elem_of_cons _ _ _) (Hall x Hx Ht)) as [->|]; [by destruct Hk|done].
Qed.

Lemma str_parms_del_ok ex p f key :
  owns ex (sp_map p) (sp_heap p) -> represents (sp_map p) f ->
  exists p', str_parms_del char_value size_bits p key = Ok p' /\ owns ex (sp_map p') (sp_heap p') /\
    represents (sp_map p') (match key with Some k => delete k f | None => ∅ end) /\
    errno_nomem p' = errno_nomem p /\ size (sp_map p') <= size (sp_map p).
Proof.
  intros Ho Hr. unfold str_parms_del. rewrite for_each_entries. destruct key as [k|].
  - by apply remove_key.
  - destruct (remove_all ex _ p f Ho Hr (reflexivity _)) as (p' & Hgo & Ho' & Hn & He).
    exists p'. split_and!; try done.
    + intros k. rewrite Hn, lookup_empty. done.
    + destruct (wf_size _ _ _ _ (own_wf _ _ _ Ho)) as [-> _].
      destruct (wf_size _ _ _ _ (own_wf _ _ _ Ho')) as [-> _]. rewrite Hn. cbn [length]. lia.
Qed.

(** Where the structure and its hash map are. *)
Definition places (p : StrParms) : Z * Z := (sp_self p, map_ptr p).

Lemma remove_pair_keeps key k v r p' :
  (remove_pair char_value size_bits key k v r).1 = Ok p' -> exists p, r = Ok p /\ places p' = places p.
Proof.
  destruct r as [p|]; [|done]. intros H. exists p. split; [done|].
  assert (Hdo : forall q : result StrParms, q = Ok p' ->
    q = ('(_, m) ← hashmapRemove None hashf str_eq size_bits (sp_map p) k;
         h ← free k (sp_heap p);
         h ← match v with Some v => free v h | None => Ok h end;
         Ok (mkParms (sp_self p) (map_ptr p) m h (errno_nomem p))) -> places p' = places p).
  { intros q -> Hq. symmetry in Hq. apply bind_ok in Hq as ([w m] & _ & Hq).
    apply bind_ok in Hq as (h & _ & Hq). apply bind_ok in Hq as (h2 & _ & [= <-]). done. }
  cbn [remove_pair] in H. destruct key as [key|]; [|exact (Hdo _ H eq_refl)].
  destruct (read_str k (sp_heap p)) as [t|]; [|done].
  case_bool_decide; [exact (Hdo _ H eq_refl)|]. by injection H as <-.
Qed.

Lemma remove_loop_keeps key l : forall r p',
  (for_each_bucket (remove_pair char_value size_bits key) l r).1 = Ok p' ->
  exists p, r = Ok p /\ places p' = places p.
Proof.
  induction l as [|e l IH]; intros r p' H; cbn [for_each_bucket] in H; [by exists p'|].
  pose proof (remove_pair_keeps key (e_key e) (e_value e) r) as Hk.
  destruct (remove_pair _ _ _ _ _ r) as [r1 []]; cbn [fst] in Hk, H.
  - destruct (IH _ _ H) as (p1 & -> & ->). by apply Hk.
  - by apply Hk.
Qed.

(** *** Giving everything back *)

Lemma hashmapFree_ok x m h :
  wf hashf str_eq size_bits m -> x ∈ live h ->
  hashmapFree x m h = Ok (mkHeap (live h ∖ {[x]}) (next h)).
Proof.
  intros Hwf Hx. unfold hashmapFree.
  destruct (foldM_total (fun (_ : unit) i => match buckets m !! i with Some _ => Ok tt | None => Err OutOfBounds end)
    (fun _ _ => tt) (fun _ => True) tt (seq 0 (Z.to_nat (bucketCount m)))) as [-> _]; [|done|].
  - intros [] i Hi%in_seq _. destruct (lookup_lt_is_Some_2 (buckets m) i) as [b ->]; [|done].
    rewrite <-(wf_length _ _ _ _ Hwf) in Hi. lia.
  - by apply free_ptr_ok.
Qed.

(** ** The operations against a map of texts *)

(** The state stands for [f], and owns its strings besides [ex]. *)
Definition stands_for (ex : gset Z) (p : StrParms) (f : gmap (list Z) (list Z)) : Prop :=
  owns ex (sp_map p) (sp_heap p) /\ represents (sp_map p) f.

(** Besides [ex], the structure, its hash map and the strings are allocated,
    and nothing else. *)
Definition structure_for (ex : gset Z) (p : StrParms) (f : gmap (list Z) (list Z)) : Prop :=
  stands_for ({[sp_self p; map_ptr p]} ∪ ex) p f /\
  sp_self p <> map_ptr p /\ (sp_self p ∉ ex) /\ (map_ptr p ∉ ex).

Lemma structure_moved ex p p' f :
  stands_for ({[sp_self p; map_ptr p]} ∪ ex) p' f -> places p' = places p ->
  sp_self p <> map_ptr p /\ (sp_self p ∉ ex) /\ (map_ptr p ∉ ex) -> structure_for ex p' f.
Proof. unfold structure_for. intros Hs [= -> ->] H. by split. Qed.

(** Nothing is left but what was there before. *)
Lemma str_parms_destroy_ok ex p f :
  structure_for ex p f -> exists h, str_parms_destroy char_value size_bits p = Ok h /\ live h = ex.
Proof.
  intros ([Ho Hr] & Hne & Hself & Hmap). unfold str_parms_destroy. rewrite for_each_entries.
  destruct (remove_all _ _ p f Ho Hr (reflexivity _)) as (p' & Hgo & Ho' & Hn & _).
  rewrite Hgo. cbn [mbind result_bind].
  destruct (remove_loop_keeps _ _ _ _ Hgo) as (? & [= <-] & [= -> ->]).
  assert (Hlive : live (sp_heap p') = {[sp_self p; map_ptr p]} ∪ ex)
    by (rewrite (own_live _ _ _ Ho'), Hn; cbn; by rewrite union_empty_l_L).
  rewrite (hashmapFree_ok _ _ _ (own_wf _ _ _ Ho')) by (rewrite Hlive; set_solver).
  cbn [mbind result_bind]. rewrite free_ptr_ok by (cbn [live]; rewrite Hlive; set_solver).
  eexists. split; [reflexivity|]. cbn [live]. rewrite Hlive. set_solver.
Qed.

(** With memory, [errno] is left alone. *)
Lemma put_fails_never m ks : put_fails char_value size_bits true true m ks = false.
Proof.
  unfold put_fails. destruct (buckets m !! _) as [b|]; [|done].
  assert (H : forall b : list Item,
    match put_loop str_eq true ks (hashKey hashf ks) (None : option Str) b with NoMemory => False | _ => True end).
  { clear. induction b as [|e b IH]; [done|]. cbn [put_loop]. destruct (equalKeys _ _ _ _ _); [done|].
    by destruct (put_loop _ _ _ _ _ b). }
  specialize (H b). by destruct (put_loop _ _ _ _ _ b).
Qed.

(** [put] with its clean-up, as both callers have it. *)
Lemma put_stands ex p f k v :
  stands_for ex p f -> size (sp_map p) < 2 ^ (size_bits - 4) ->
  exists old p', put char_value size_bits (true, true) (mkStr (next (sp_heap p)) k)
      (mkStr (next (sp_heap p) + 1) v) (with_heap (dup_heap (sp_heap p)) p) = Ok (old, p') /\
    errno_nomem p' = errno_nomem p /\
    size (sp_map p') <= size (sp_map p) + 1 /\
    match old with
    | Some ov => exists h1 h2, free ov (sp_heap p') = Ok h1 /\
        free (mkStr (next (sp_heap p)) k) h1 = Ok h2 /\ stands_for ex (with_heap h2 p') (<[k := v]> f)
    | None => stands_for ex p' (<[k := v]> f)
    end.
Proof using Hbits.
  intros [Ho Hr] Hsize. unfold put. cbn [fst snd with_heap sp_map].
  destruct (put_spec true true ex _ _ f k v Ho Hr Hsize)
    as [(ov & m' & h1 & h2 & Hput & H1 & H2 & Ho' & Hr' & Hs)|[(_ & m' & Hput & Ho' & Hr' & Hs)|(? & _)]];
    [| |done]; rewrite Hput; cbn [mbind result_bind]; rewrite put_fails_never; eexists _, _;
    (split; [reflexivity|]); cbn [errno_nomem with_heap sp_map]; rewrite orb_false_r; (split; [done|]).
  - split; [lia|]. exists h1, h2. by split_and!.
  - split; [lia|by split].
Qed.

(** Where the empty string is skipped, and the last pair of a key counts. *)
Definition ref_pair (f : gmap (list Z) (list Z)) (kv : list Z) : gmap (list Z) (list Z) :=
  match strchr kv 61 with
  | Some ([], _) => f
  | Some (k, v) => <[k := v]> f
  | None => <[kv := []]> f
  end.

Lemma add_pair_ok ex p f kv :
  stands_for ex p f -> size (sp_map p) < 2 ^ (size_bits - 4) ->
  exists p', add_pair char_value size_bits (true, true) kv p = Ok p' /\ stands_for ex p' (ref_pair f kv) /\
    size (sp_map p') <= size (sp_map p) + 1 /\ errno_nomem p' = errno_nomem p.
Proof using Hbits.
  intros Hs Hsize.
  assert (Hput : forall k v, exists p',
    (let '(key, h) := strdup k (sp_heap p) in
     let '(value, h) := strdup v h in
     '(old_val, p) ← put char_value size_bits (true, true) key value (with_heap h p);
     match old_val with
     | Some old_val => h ← free old_val (sp_heap p); h ← free key h; Ok (with_heap h p)
     | None => Ok p
     end) = Ok p' /\ stands_for ex p' (<[k := v]> f) /\ size (sp_map p') <= size (sp_map p) + 1 /\
    errno_nomem p' = errno_nomem p).
  { intros k v. destruct (put_stands ex p f k v Hs Hsize) as (old & p' & Hp & He & Hsz & Ho).
    cbn [strdup]. unfold dup_heap in Hp. cbn [next live]. rewrite Hp. cbn [mbind result_bind].
    destruct old as [ov|]; [|by exists p'].
    destruct Ho as (h1 & h2 & -> & H2 & Hs'). cbn [mbind result_bind]. rewrite H2. by eexists. }
  unfold add_pair, ref_pair. destruct (strchr kv 61) as [[[|c k] v]|]; [|apply Hput|apply Hput].
  exists p. split_and!; [done|done|lia|done].
Qed.

Lemma str_parms_add_str_ok ex p f k v :
  stands_for ex p f -> size (sp_map p) < 2 ^ (size_bits - 4) -> errno_nomem p = false ->
  exists p', str_parms_add_str char_value size_bits (true, true) k v p = Ok (0, p') /\
    stands_for ex p' (<[k := v]> f) /\ size (sp_map p') <= size (sp_map p) + 1 /\ errno_nomem p' = false.
Proof using Hbits.
  intros Hs Hsize Herr. destruct (put_stands ex p f k v Hs Hsize) as (old & p' & Hp & He & Hsz & Ho).
  unfold str_parms_add_str. cbn [strdup]. unfold dup_heap in Hp. cbn [next live]. rewrite Hp.
  cbn [mbind result_bind]. rewrite Herr in He. destruct old as [ov|].
  - destruct Ho as (h1 & h2 & -> & H2 & Hs'). cbn [mbind result_bind]. rewrite H2. by eexists.
  - rewrite He. by exists p'.
Qed.

(** Looking a text up. *)
Lemma get_text ex p f k :
  stands_for ex p f ->
  match f !! k with
  | Some t => exists v, hashmapGet None hashf str_eq size_bits (sp_map p) (outside k) = Ok (Some v) /\
      read_str v (sp_heap p) = Ok t
  | None => hashmapGet None hashf str_eq size_bits (sp_map p) (outside k) = Ok None
  end.
Proof.
  intros [Ho Hr]. pose proof (own_wf _ _ _ Ho) as Hwf.
  rewrite (hashmapGet_ok None hashf str_eq size_bits (sp_map p) (outside k) Hwf).
  rewrite <-(Hr k). destruct (lookup_key str_eq (entries (sp_map p)) (outside k)) as [v|] eqn:E; [|done].
  apply (lookup_key_some hashf str_eq) in E as (e & He & _ & <-); [|apply (wf_distinct _ _ _ _ Hwf)].
  pose proof (own_values _ _ _ Ho) as Hv. rewrite Forall_forall in Hv. destruct (Hv e He) as [v Hev].
  rewrite Hev. cbn. exists v. split; [done|]. apply read_str_ok. eapply entry_live; [done|done|].
  unfold entry_ptrs. rewrite Hev. right. left.
Qed.

(** *** Histories *)

Inductive Op : Type :=
  | AddStr (k v : list Z)
  | AddInt (k : list Z) (z : Z)
  | GetStr (k buf : list Z) (len : Z)
  | GetInt (k : list Z) (val : Z)
  | Del (key : option (list Z)).

Inductive Answer : Type :=
  | Code (ret : Z)
  | Text (ret : Z) (buf : list Z)
  | Number (ret val : Z).

Definition run_op (p : StrParms) (o : Op) : result (Answer * StrParms) :=
  match o with
  | AddStr k v => '(r, p) ← str_parms_add_str char_value size_bits (true, true) k v p; Ok (Code r, p)
  | AddInt k z => '(r, p) ← str_parms_add_int char_value size_bits (true, true) k z p; Ok (Code r, p)
  | GetStr k buf len => '(r, buf) ← str_parms_get_str char_value size_bits p k buf len; Ok (Text r buf, p)
  | GetInt k val => '(r, val, p) ← str_parms_get_int char_value size_bits long_bits p k val; Ok (Number r val, p)
  | Del key => p ← str_parms_del char_value size_bits p key; Ok (Code 0, p)
  end.

Definition run_ops (p : StrParms) (os : list Op) : result (list Answer * StrParms) :=
  foldM (fun '(as_, p) o => '(a, p) ← run_op p o; Ok (as_ ++ [a], p)) ([], p) os.

(** The reference: a finite map of texts. *)
Definition ref_op (f : gmap (list Z) (list Z)) (o : Op) : Answer * gmap (list Z) (list Z) :=
  match o with
  | AddStr k v => (Code 0, <[k := v]> f)
  | AddInt k z => (Code 0, <[k := int_text z]> f)
  | GetStr k buf len =>
      (match f !! k with
       | Some t => Text (Z.of_nat (length t))
           (take (Z.to_nat (len - 1)) t ++ [0] ++ drop (S (Nat.min (Z.to_nat (len - 1)) (length t))) buf)
       | None => Text (- ENOENT) buf
       end, f)
  | GetInt k val =>
      (match f !! k with
       | Some t =>
           let '(n, rest, _) := strtol long_bits t 0 in
           Number (if bool_decide (t <> []) && bool_decide (rest = []) then 0 else - EINVAL) (s32 n)
       | None => Number (- ENOENT) val
       end, f)
  | Del (Some k) => (Code 0, delete k f)
  | Del None => (Code 0, ∅)
  end.

Definition ref_ops (f : gmap (list Z) (list Z)) (os : list Op) : list Answer * gmap (list Z) (list Z) :=
  fold_left (fun '(as_, f) o => let '(a, f) := ref_op f o in (as_ ++ [a], f)) os ([], f).

(** The buffer has the size that is given for it, and numbers are those of [int]. *)
Definition op_ok (o : Op) : Prop :=
  match o with
  | GetStr _ buf len => 0 < len <= Z.of_nat (length buf) /\ len < 2 ^ size_bits
  | AddInt _ z => - 2 ^ 31 <= z < 2 ^ 31
  | _ => True
  end.

(** The structure and the hash map stay where they are. *)
Lemma put_keeps alloc k v p old p' : put char_value size_bits alloc k v p = Ok (old, p') -> places p' = places p.
Proof. unfold put. intros H. by apply bind_ok in H as ([o m] & _ & [= <- <-]). Qed.

Lemma add_str_keeps alloc k v p r p' :
  str_parms_add_str char_value size_bits alloc k v p = Ok (r, p') -> places p' = places p.
Proof.
  unfold str_parms_add_str. cbn [strdup]. intros H. apply bind_ok in H as ([old p1] & Hput & H).
  apply put_keeps in Hput. change (places (with_heap _ p)) with (places p) in Hput. rewrite <-Hput. destruct old as [ov|].
  - apply bind_ok in H as (h1 & _ & H). by apply bind_ok in H as (h2 & _ & [= _ <-]).
  - destruct (errno_nomem p1); [|by injection H as _ <-].
    apply bind_ok in H as (h1 & _ & H). by apply bind_ok in H as (h2 & _ & [= _ <-]).
Qed.

Lemma run_op_keeps p o a p' : run_op p o = Ok (a, p') -> places p' = places p.
Proof.
  destruct o as [k v|k z|k buf len|k val|key]; cbn [run_op]; intros H.
  - apply bind_ok in H as ([r q] & H & [= _ <-]). by eapply add_str_keeps.
  - apply bind_ok in H as ([r q] & H & [= _ <-]). by eapply add_str_keeps.
  - by apply bind_ok in H as ([r q] & _ & [= _ <-]).
  - apply bind_ok in H as ([[r q] p1] & H & [= _ <-]). unfold str_parms_get_int in H.
    apply bind_ok in H as ([value|] & _ & H); [|by injection H as _ _ <-].
    apply bind_ok in H as (t & _ & H). destruct (strtol _ _ _) as [[n e] er]. by injection H as _ _ <-.
  - apply bind_ok in H as (q & H & [= _ <-]). unfold str_parms_del in H. rewrite for_each_entries in H.
    by destruct (remove_loop_keeps _ _ _ _ H) as (? & [= <-] & ?).
Qed.

Lemma run_ops_keep p os as_ p' : run_ops p os = Ok (as_, p') -> places p' = places p.
Proof.
  unfold run_ops. intros H.
  apply (foldM_ind _ (fun s => places s.2 = places p)) in H; [done| |done].
  intros [l q] o [l' q'] _ Hq Hstep. apply bind_ok in Hstep as ([a q1] & Hrun & [= _ <-]).
  apply run_op_keeps in Hrun. cbn in *. congruence.
Qed.

Lemma parms_op_ok ex p f o :
  stands_for ex p f -> size (sp_map p) < 2 ^ (size_bits - 4) -> errno_nomem p = false -> op_ok o ->
  exists p', run_op p o = Ok ((ref_op f o).1, p') /\ stands_for ex p' (ref_op f o).2 /\
    size (sp_map p') <= size (sp_map p) + 1 /\ errno_nomem p' = false.
Proof using Hbits.
  intros Hs Hsize Herr Ho. destruct o as [k v|k z|k buf len|k val|key]; cbn [run_op ref_op fst snd].
  - destruct (str_parms_add_str_ok ex p f k v Hs Hsize Herr) as (p' & -> & H). by exists p'.
  - unfold str_parms_add_int. rewrite take_ge by by apply int_text_length.
    destruct (str_parms_add_str_ok ex p f k (int_text z) Hs Hsize Herr) as (p' & -> & H). by exists p'.
  - unfold str_parms_get_str. pose proof (get_text ex p f k Hs) as Hget. destruct Ho as [Hlen Hsz].
    destruct (f !! k) as [t|].
    + destruct Hget as (v & -> & Hd). cbn [mbind result_bind]. rewrite Hd. cbn [mbind result_bind].
      unfold size_t. rewrite Z.mod_small by lia.
      destruct (strlcpy_exact buf t len Hlen) as (buf' & -> & _ & ->). exists p. split_and!; (done || lia).
    + rewrite Hget. exists p. split_and!; (done || lia).
  - unfold str_parms_get_int. pose proof (get_text ex p f k Hs) as Hget. destruct (f !! k) as [t|].
    + destruct Hget as (v & -> & Hd). cbn [mbind result_bind]. rewrite Hd. cbn [mbind result_bind].
      destruct (strtol long_bits t 0) as [[n rest] erange]. eexists. split; [reflexivity|].
      cbn [sp_map errno_nomem]. rewrite Herr. split; [exact Hs|]. split; [lia|done].
    + rewrite Hget. exists p. split_and!; (done || lia).
  - destruct Hs as [Hown Hr].
    destruct (str_parms_del_ok ex p f key Hown Hr) as (p' & -> & Ho' & Hr' & He & Hsz).
    exists p'. rewrite He. split; [by destruct key|]. split; [by destruct key|]. split; [lia|done].
Qed.

Lemma parms_ops_ok ex os : forall p f as_,
  stands_for ex p f -> size (sp_map p) + Z.of_nat (length os) <= 2 ^ (size_bits - 4) ->
  errno_nomem p = false -> Forall op_ok os ->
  exists p', foldM (fun '(as_, p) o => '(a, p) ← run_op p o; Ok (as_ ++ [a], p)) (as_, p) os =
      Ok ((fold_left (fun '(as_, f) o => let '(a, f) := ref_op f o in (as_ ++ [a], f)) os (as_, f)).1, p') /\
    stands_for ex p' (fold_left (fun '(as_, f) o => let '(a, f) := ref_op f o in (as_ ++ [a], f)) os (as_, f)).2.
Proof using Hbits.
  induction os as [|o os IH]; intros p f as_ Hs Hsize Herr Hos; [by exists p|].
  apply Forall_cons in Hos as [Ho Hos]. cbn [length] in Hsize.
  destruct (parms_op_ok ex p f o Hs ltac:(lia) Herr Ho) as (p1 & Hr & Hs1 & Hsz & He1).
  cbn [foldM fold_left]. rewrite Hr. cbn [mbind result_bind]. destruct (ref_op f o) as [a f1].
  apply IH; [done|cbn [snd fst] in *; lia|done|done].
Qed.

(** *** Creation *)

(** The heap of a process: what is allocated lies below what comes next. *)
Definition heap_ok (h : Heap) : Prop := forall x, x ∈ live h -> x < next h.

Lemma str_parms_create_ok err h :
  heap_ok h ->
  exists p, str_parms_create size_bits true true true err h = Ok (Some p, sp_heap p) /\
    structure_for (live h) p ∅ /\ size (sp_map p) = 0 /\ errno_nomem p = err /\ heap_ok (sp_heap p).
Proof using Hbits.
  intros Hh. unfold str_parms_create. cbn [malloc].
  destruct (hashmapCreate_ok hashf str_eq size_bits (V := option Str) 5) as (m & -> & Hwf & He & _); [lia|lia|].
  cbn [mbind result_bind live next].
  exists (mkParms (next h) (next h + 1) m (mkHeap ({[next h + 1]} ∪ ({[next h]} ∪ live h)) (next h + 1 + 1)) err).
  split; [reflexivity|]. cbn [sp_map sp_heap errno_nomem].
  assert (Hheap : heap_ok (mkHeap ({[next h + 1]} ∪ ({[next h]} ∪ live h)) (next h + 1 + 1))).
  { intros x. cbn [live next]. rewrite !elem_of_union, !elem_of_singleton. intros [->|[->|Hx]]; [lia|lia|].
    specialize (Hh x Hx). lia. }
  assert (Hout : forall x, next h <= x -> x ∉ live h) by (intros x Hx Hin; specialize (Hh x Hin); lia).
  split; [|split; [destruct (wf_size _ _ _ _ Hwf) as [-> _]; by rewrite He|done]].
  split; [split|split_and!]; cbn [sp_map sp_heap sp_self map_ptr].
  - apply (view_owns _ m _ []); [done|by rewrite He| | | |exact Hheap|constructor].
    + cbn [live]. cbn. rewrite union_empty_l_L. set_solver.
    + constructor.
    + by intros x ?%elem_of_nil.
  - intros k. by rewrite He, lookup_empty.
  - lia.
  - apply Hout. lia.
  - apply Hout. lia.
Qed.

(** One more string besides. *)
Lemma owns_alloc ex m h s :
  owns ex m h -> (forall x, x ∈ ex -> x < next h) ->
  owns ({[next h]} ∪ ex) m (strdup s h).2.
Proof.
  intros [Hwf Hlive Hnd Hx Hnext Hval] Hex. split; [done| |done| | |done]; cbn [strdup snd live next].
  - rewrite Hlive. set_solver.
  - intros x Hin [->%elem_of_singleton|He]%elem_of_union; [|by apply (Hx x)].
    assert (Hl : next h ∈ live h) by (rewrite Hlive; by apply elem_of_union_l, elem_of_list_to_set).
    specialize (Hnext _ Hl). lia.
  - intros x [->%elem_of_singleton|He]%elem_of_union; [lia|]. specialize (Hnext x He). lia.
Qed.

Lemma owns_release ex m h s :
  owns ({[ptr s]} ∪ ex) m h -> ptr s ∉ ex ->
  exists h', free s h = Ok h' /\ owns ex m h'.
Proof.
  intros [Hwf Hlive Hnd Hx Hnext Hval] Hex. rewrite free_ok by (rewrite Hlive; set_solver).
  eexists. split; [reflexivity|].
  assert (Hp : ptr s ∉ ptrs (entries m)) by (intros Hin; apply (Hx _ Hin); set_solver).
  split; [done| |done| | |done]; cbn [live next].
  - rewrite Hlive. apply set_eq. intros x. rewrite elem_of_difference, !elem_of_union, elem_of_list_to_set, elem_of_singleton.
    split; [tauto|]. intros [Hin|Hin]; (split; [tauto|]); intros ->; done.
  - intros x Hin He. apply (Hx x Hin). set_solver.
  - intros x [Hin _]%elem_of_difference. by apply Hnext.
Qed.

(** The pairs of a string, in their order. *)
Lemma pairs_loop_ok ex n : forall s p f fuel,
  (length s <= n)%nat -> (length s < fuel)%nat -> stands_for ex p f ->
  size (sp_map p) + Z.of_nat (length s) <= 2 ^ (size_bits - 4) ->
  exists p', (let '(kvpair, tmpstr) := strtok_r (Some s) [59] in
      pairs_loop char_value size_bits fuel (fun _ => (true, true)) kvpair tmpstr p) = Ok p' /\
    stands_for ex p' (fold_left ref_pair (pieces [59] s) f) /\ errno_nomem p' = errno_nomem p.
Proof using Hbits.
  induction n as [|n IH]; intros s p f fuel Hn Hfuel Hs Hsize; pose proof (strtok_r_pieces [59] s) as Htok.
  { destruct s; [|simpl in Hn; lia]. exists p. destruct fuel; done. }
  destruct (strtok_r (Some s) [59]) as [[tok|] last].
  2:{ destruct Htok as [Hp ->]. rewrite Hp. exists p. destruct fuel; done. }
  destruct Htok as (Hne & Hp & Hlast). rewrite Hp. destruct tok as [|c tok]; [done|].
  destruct fuel as [|fuel]; [lia|]. cbn [pairs_loop fold_left].
  assert (Hpos : (0 < length s)%nat) by (destruct s; [done|simpl; lia]).
  destruct (add_pair_ok ex p f (c :: tok) Hs ltac:(lia)) as (p1 & -> & Hs1 & Hsz & He).
  cbn [mbind result_bind]. destruct last as [t|].
  - destruct (IH t p1 (ref_pair f (c :: tok)) fuel ltac:(lia) ltac:(lia) Hs1 ltac:(lia)) as (p' & Hr & Hs' & He').
    exists p'. split; [exact Hr|]. split; [done|congruence].
  - exists p1. destruct fuel; done.
Qed.

Lemma add_pair_keeps alloc kv p p' : add_pair char_value size_bits alloc kv p = Ok p' -> places p' = places p.
Proof.
  unfold add_pair. intros H.
  assert (Hput : forall k v, ('(old_val, q) ← put char_value size_bits alloc k v
      (with_heap (mkHeap ({[next (sp_heap p) + 1]} ∪ ({[next (sp_heap p)]} ∪ live (sp_heap p)))
         (next (sp_heap p) + 1 + 1)) p);
    match old_val with
    | Some old_val => h ← free old_val (sp_heap q); h ← free k h; Ok (with_heap h q)
    | None => Ok q
    end) = Ok p' -> places p' = places p).
  { clear H. intros k v H. apply bind_ok in H as ([old q] & Hput & H). apply put_keeps in Hput.
    change (places (with_heap _ p)) with (places p) in Hput. rewrite <-Hput.
    destruct old; [|by injection H as <-].
    apply bind_ok in H as (h1 & _ & H). by apply bind_ok in H as (h2 & _ & [= <-]). }
  destruct (strchr kv 61) as [[[|c k] v]|]; [by injection H as <-| |];
    exact (Hput (mkStr (next (sp_heap p)) _) (mkStr (next (sp_heap p) + 1) _) H).
Qed.

Lemma pairs_loop_keeps fuel alloc : forall kvpair tmpstr p p',
  pairs_loop char_value size_bits fuel alloc kvpair tmpstr p = Ok p' -> places p' = places p.
Proof.
  induction fuel as [|fuel IH]; intros [[|c kv]|] tmpstr p p' H; cbn [pairs_loop] in H;
    try done; try by injection H as <-.
  apply bind_ok in H as (p1 & H1 & H). destruct (strtok_r tmpstr [59]) as [kvpair2 tmpstr2].
  apply add_pair_keeps in H1. rewrite <-H1. by eapply IH.
Qed.

(** Every string is read as the map of its pairs. *)
Lemma str_parms_create_str_ok err s h :
  heap_ok h -> Z.of_nat (length s) <= 2 ^ (size_bits - 4) ->
  exists p, str_parms_create_str char_value size_bits true true true true (fun _ => (true, true)) err s h =
      Ok (Some p, sp_heap p) /\
    structure_for (live h) p (fold_left ref_pair (pieces [59] s) ∅) /\ errno_nomem p = err.
Proof using Hbits.
  intros Hh Hlen. unfold str_parms_create_str.
  destruct (str_parms_create_ok err h Hh) as (p & -> & [[Ho Hr] Hplace] & Hsz & He & Hh2).
  cbn [mbind result_bind negb].
  set (ex := {[sp_self p; map_ptr p]} ∪ live h) in *.
  assert (Hex : forall x, x ∈ ex -> x < next (sp_heap p)).
  { intros x Hx. apply Hh2. rewrite (own_live _ _ _ Ho). by apply elem_of_union_r. }
  pose proof (owns_alloc _ _ _ s Ho Hex) as Ho1. cbn [strdup snd] in Ho1 |- *.
  destruct (pairs_loop_ok ({[next (sp_heap p)]} ∪ ex) (length s) s
    (with_heap (mkHeap ({[next (sp_heap p)]} ∪ live (sp_heap p)) (next (sp_heap p) + 1)) p) ∅ (S (length s)))
    as (p1 & Hloop & [Ho2 Hr2] & He2);
    [lia|lia|by split|cbn [with_heap sp_map]; lia|].
  destruct (strtok_r (Some s) [59]) as [kvpair tmpstr]. rewrite Hloop. cbn [mbind result_bind].
  destruct (owns_release ex (sp_map p1) (sp_heap p1) (mkStr (next (sp_heap p)) s) Ho2) as (h' & -> & Ho').
  { intros Hin. specialize (Hex _ Hin). cbn [ptr] in Hex. lia. }
  cbn [mbind result_bind]. exists (with_heap h' p1). split; [reflexivity|]. apply pairs_loop_keeps in Hloop.
  split; [by apply (structure_moved _ p); [split|..]|]. cbn [with_heap errno_nomem] in *. congruence.
Qed.

(** *** Writing *)

(** Texts with a semicolon between them. *)
Fixpoint semicolons (ts : list (list Z)) : list Z :=
  match ts with
  | [] => []
  | [t] => t
  | t :: ts => t ++ 59 :: semicolons ts
  end.

Definition pair_text (e : Item) : list Z :=
  text (e_key e) ++ 61 :: match e_value e with Some v => text v | None => [] end.

Lemma combine_all ex m h l : forall acc n,
  owns ex m h -> (forall e, e ∈ l -> e ∈ entries m) ->
  exists n', (for_each_bucket (combine_strings (fun _ => true) h) l (Ok (acc, n))).1 =
    Ok (match acc, l with
        | _, [] => acc
        | None, _ => Some (semicolons (pair_text <$> l))
        | Some s, _ => Some (s ++ 59 :: semicolons (pair_text <$> l))
        end, n').
Proof.
  induction l as [|e l IH]; intros acc n Ho Hl; [exists n; by destruct acc|].
  assert (He : e ∈ entries m) by (apply Hl; left).
  pose proof (own_values _ _ _ Ho) as Hv. rewrite Forall_forall in Hv. destruct (Hv e He) as [v Hev].
  cbn [for_each_bucket combine_strings].
  rewrite read_str_ok by (eapply entry_live; [done|done|left]). rewrite Hev.
  rewrite read_str_ok by (eapply entry_live; [done|done|unfold entry_ptrs; rewrite Hev; right; left]).
  destruct (IH (Some (match acc with Some s => s ++ [59] | None => [] end ++ text (e_key e) ++ [61] ++ text v))
    (S n) Ho ltac:(intros; apply Hl; by right)) as (n' & Hgo).
  exists n'. rewrite Hgo. do 2 f_equal. change (pair_text <$> e :: l) with (pair_text e :: (pair_text <$> l)).
  assert (Hpt : pair_text e = text (e_key e) ++ 61 :: text v) by (unfold pair_text; by rewrite Hev).
  destruct l as [|e2 l].
  - cbn [semicolons fmap list_fmap]. rewrite Hpt. destruct acc; f_equal; same_list.
  - change (semicolons (pair_text e :: (pair_text <$> e2 :: l))) with
      (pair_text e ++ 59 :: semicolons (pair_text <$> e2 :: l)). rewrite Hpt.
    destruct acc; f_equal; rewrite <-!app_assoc; cbn [app]; rewrite <-?app_assoc; done.
Qed.

Lemma str_parms_to_str_ok ex p f :
  stands_for ex p f ->
  str_parms_to_str (fun _ => true) p = Ok (Some (semicolons (pair_text <$> entries (sp_map p)))).
Proof.
  intros [Ho Hr]. unfold str_parms_to_str, hashmapSize.
  destruct (wf_size _ _ _ _ (own_wf _ _ _ Ho)) as [-> _]. rewrite for_each_entries.
  destruct (combine_all ex _ _ (entries (sp_map p)) None 0 Ho ltac:(done)) as (n' & ->).
  destruct (entries (sp_map p)) as [|e l]; done.
Qed.

(** *** Reading what was written *)

Lemma scan_token_run t s : lacks 59 t -> scan_token [59] (t ++ 59 :: s) = (t, Some s) /\ scan_token [59] t = (t, None).
Proof.
  assert (Hd : forall c, c <> 59 -> bool_decide (c ∈ [59]) = false)
    by (intros c Hc; apply bool_decide_eq_false_2; by intros ->%list_elem_of_singleton).
  induction 1 as [|c t Hc _ [IH1 IH2]]; [done|]. cbn [app scan_token]. by rewrite Hd, IH1, IH2.
Qed.

Lemma pieces_semicolons ts : Forall (fun t => t <> [] /\ lacks 59 t) ts -> pieces [59] (semicolons ts) = ts.
Proof.
  induction 1 as [|t ts [Hne Hl] _ IH]; [done|]. destruct t as [|c t]; [done|].
  pose proof (proj1 (Forall_cons _ _ _) Hl) as [Hc Ht].
  assert (Hcd : ~ c ∈ [59]) by (by intros ->%list_elem_of_singleton).
  destruct ts as [|t2 ts].
  - cbn [semicolons]. rewrite pieces_token by done. by rewrite (proj2 (scan_token_run t [] Ht)).
  - change (semicolons ((c :: t) :: t2 :: ts)) with (c :: (t ++ 59 :: semicolons (t2 :: ts))).
    rewrite pieces_token by done. rewrite (proj1 (scan_token_run t _ Ht)). by rewrite IH.
Qed.

Lemma strchr_first k v : lacks 61 k -> strchr (k ++ 61 :: v) 61 = Some (k, v).
Proof.
  induction 1 as [|c k Hc _ IH]; [done|]. cbn [app strchr]. by rewrite (proj2 (Z.eqb_neq c 61) Hc), IH.
Qed.

(** Keys and values that a string of parameters can hold. *)
Definition clean (k v : list Z) : Prop := k <> [] /\ lacks 61 k /\ lacks 59 k /\ lacks 59 v.

Definition clean_entry (e : Item) : Prop :=
  exists v, e_value e = Some v /\ clean (text (e_key e)) (text v).

Lemma fold_pairs l : forall g k,
  distinct str_eq l -> Forall clean_entry l ->
  fold_left ref_pair (pair_text <$> l) g !! k =
    match (v ← lookup_key str_eq l (outside k); text <$> v) with Some t => Some t | None => g !! k end.
Proof.
  induction l as [|e l IH]; intros g k Hd Hc; [done|].
  apply Forall_cons in Hc as [(v & Hv & Hk & Heq & _) Hc]. destruct Hd as [He Hd].
  change (pair_text <$> e :: l) with (pair_text e :: (pair_text <$> l)). cbn [fold_left lookup_key].
  rewrite IH by done.
  assert (Hpair : ref_pair g (pair_text e) = <[text (e_key e) := text v]> g).
  { unfold ref_pair, pair_text. rewrite Hv, strchr_first by done. by destruct (text (e_key e)). }
  rewrite Hpair. destruct (decide (same str_eq (e_key e) (outside k))) as [Hs|Hs].
  - pose proof Hs as Ht. rewrite same_text in Ht. cbn [text outside] in Ht.
    assert (Hnone : lookup_key str_eq l (outside k) = None).
    { destruct (lookup_key str_eq l (outside k)) as [w|] eqn:E; [|done]. exfalso.
      apply (lookup_key_some hashf str_eq) in E as (e' & Hin & Hs' & _); [|done].
      rewrite Forall_forall in He. apply (He e' Hin). rewrite same_text in Hs' |- *. cbn [text outside] in Hs'. congruence. }
    rewrite Hnone, Hv. cbn. rewrite <-Ht. by rewrite lookup_insert_eq.
  - rewrite same_text in Hs. cbn [text outside] in Hs.
    destruct (v0 ← lookup_key str_eq l (outside k); text <$> v0); [done|]. by rewrite lookup_insert_ne.
Qed.

Lemma clean_entries ex p f :
  stands_for ex p f -> map_Forall clean f -> Forall clean_entry (entries (sp_map p)).
Proof.
  intros [Ho Hr] Hc. apply Forall_forall. intros e He. pose proof (own_values _ _ _ Ho) as Hv.
  rewrite Forall_forall in Hv. destruct (Hv e He) as [v Hev]. exists v. split; [done|].
  apply (Hc (text (e_key e)) (text v)).
  by rewrite (represents_entry _ _ _ (own_wf _ _ _ Ho) Hr He), Hev.
Qed.

Lemma written_is_read ex p f :
  stands_for ex p f -> map_Forall clean f ->
  fold_left ref_pair (pieces [59] (semicolons (pair_text <$> entries (sp_map p)))) ∅ = f.
Proof.
  intros Hs Hc. pose proof (clean_entries ex p f Hs Hc) as He. destruct Hs as [Ho Hr].
  rewrite pieces_semicolons.
  - apply map_eq. intros k.
    rewrite (fold_pairs _ _ _ (wf_distinct _ _ _ _ (own_wf _ _ _ Ho)) He), <-(Hr k), lookup_empty.
    by destruct (_ ≫= _).
  - apply Forall_fmap. eapply Forall_impl; [exact He|]. intros e (v & Hv & Hk & _ & H1 & H2).
    unfold pair_text. cbn. rewrite Hv. split; [by destruct (text (e_key e))|].
    apply Forall_app. split; [done|]. by constructor.
Qed.
End Ownership.

(** ** Theorems *)

Section Theorems.
Context (char_value : Z -> Z) (size_bits long_bits : Z) (Hbits : 4 <= size_bits).


(** A structure whose keys and values can stand in a string (keys not empty
    and without the equals sign, neither with a semicolon) is written to a
    string that is read back as the same map, with strings of its own. *)
Theorem str_parms_roundtrip ex p f err :
  stands_for char_value size_bits ex p f -> map_Forall clean f ->
  exists s, str_parms_to_str (fun _ => true) p = Ok (Some s) /\
    (Z.of_nat (length s) <= 2 ^ (size_bits - 4) ->
     exists p', str_parms_create_str char_value size_bits true true true true (fun _ => (true, true)) err s
         (sp_heap p) = Ok (Some p', sp_heap p') /\
       structure_for char_value size_bits (live (sp_heap p)) p' f).
Proof using Hbits.
  intros Hs Hc. eexists. split; [by eapply str_parms_to_str_ok|]. intros Hlen.
  destruct (str_parms_create_str_ok char_value size_bits Hbits err _ (sp_heap p)
    (own_next _ _ _ _ _ (proj1 Hs)) Hlen) as (p' & Hr & Hs' & _).
  exists p'. split; [exact Hr|]. by rewrite (written_is_read _ _ _ _ _ Hs Hc) in Hs'.
Qed.

(** An [int] that is added under a key is what the key is read as. *)
Lemma int_comes_back ex p f k z val :
  stands_for char_value size_bits ex p f -> size (sp_map p) < 2 ^ (size_bits - 4) ->
  errno_nomem p = false -> - 2 ^ 31 <= z < 2 ^ 31 -> 32 <= long_bits ->
  exists p', str_parms_add_int char_value size_bits (true, true) k z p = Ok (0, p') /\
    str_parms_get_int char_value size_bits long_bits p' k val = Ok (0, z, p').
Proof using Hbits.
  intros Hs Hsize He Hz Hlong. unfold str_parms_add_int. rewrite take_ge by by apply int_text_length.
  destruct (str_parms_add_str_ok char_value size_bits Hbits ex p f k (int_text z) Hs Hsize He)
    as (p' & Ha & Hs' & _ & He'). exists p'. split; [done|].
  pose proof (get_text char_value size_bits ex p' _ k Hs') as Hget. rewrite lookup_insert_eq in Hget.
  destruct Hget as (v & Hg & Hd). unfold str_parms_get_int. rewrite Hg. cbn [mbind result_bind].
  rewrite Hd. cbn [mbind result_bind].
  assert (Hin : in_long long_bits z = true).
  { assert (2 ^ 31 <= 2 ^ (long_bits - 1)) by (apply Z.pow_le_mono_r; lia).
    unfold in_long, LONG_MIN, LONG_MAX. apply andb_true_iff. rewrite !Z.leb_le. lia. }
  destruct (strtol_int_text long_bits z 0 ltac:(lia) Hin (or_introl eq_refl)) as [Hst Hne].
  rewrite Hst, (bool_decide_eq_true_2 _ Hne). rewrite s32_small by done. cbn [andb].
  rewrite He'. cbn [negb andb]. destruct p' as [s mp m h e]. cbn [errno_nomem] in He'. by rewrite He'.
Qed.
End Theorems.

(** ** Concrete runs *)

Definition empty_heap : Heap := mkHeap ∅ 1.

Definition some_ops : list Op :=
  [AddStr (bytes "rate") (bytes "8000"); AddInt (bytes "channels") 2; AddStr (bytes "rate") (bytes "0x1F40");
   GetInt (bytes "rate") 0; GetStr (bytes "channels") [9; 9; 9; 9] 4; Del (Some (bytes "rate"));
   GetInt (bytes "rate") 7].

Lemma some_ops_ok : Forall (op_ok 32) some_ops.
Proof. repeat constructor; cbn; lia. Qed.


(** What a string is read as. *)
Definition sample : StrParms :=
  match str_parms_create_str s8 32 true true true true (fun _ => (true, true)) false (bytes "a=1;b=2") empty_heap with
  | Ok (Some p, _) => p
  | _ => mkParms 0 0 (mkHashmap [] 0 0) empty_heap true
  end.

Definition sample_map : gmap (list Z) (list Z) := <[bytes "b" := bytes "2"]> (<[bytes "a" := bytes "1"]> ∅).

Lemma sample_whole : structure_for s8 32 ∅ sample sample_map.
Proof.
  assert (Hh : heap_ok empty_heap) by (intros x Hx; by apply elem_of_empty in Hx).
  destruct (str_parms_create_str_ok s8 32 ltac:(lia) false (bytes "a=1;b=2") empty_heap Hh ltac:(by vm_compute))
    as (p & Hp & Hs & _).
  assert (p = sample) as <- by (unfold sample; by rewrite Hp). exact Hs.
Qed.

Lemma sample_clean : map_Forall clean sample_map.
Proof.
  repeat apply map_Forall_insert_2; [..|apply map_Forall_empty];
    (split; [done|]); split_and!; by repeat constructor.
Qed.

Lemma str_parms_roundtrip_witness :
  exists s p', str_parms_to_str (fun _ => true) sample = Ok (Some s) /\
    str_parms_create_str s8 32 true true true true (fun _ => (true, true)) false s (sp_heap sample) =
      Ok (Some p', sp_heap p') /\
    structure_for s8 32 (live (sp_heap sample)) p' sample_map.
Proof.
  destruct (str_parms_roundtrip s8 32 ltac:(lia) _ sample sample_map false (proj1 sample_whole) sample_clean)
    as (s & Hw & Hread).
  assert (Hlen : Z.of_nat (length s) <= 2 ^ (32 - 4)).
  { assert (Hs : str_parms_to_str (fun _ => true) sample = Ok (Some (bytes "a=1;b=2"))) by (vm_compute; reflexivity).
    rewrite Hs in Hw. injection Hw as <-. by vm_compute. }
  destruct (Hread Hlen) as (p' & H). exists s, p'. split; [exact Hw|exact H].
Defined.

(** The entry is allocated, the bigger array of buckets is not: the key and the
    value are freed although they are in the map, and the next reader of the map
    uses them. *)
Example expansion_failure_dangles :
  match str_parms_create 32 true true true false empty_heap with
  | Ok (Some p, _) =>
      '(_, p) ← run_ops s8 32 32 p (map (fun c => AddStr [c] [c]) [97; 98; 99; 100; 101; 102]);
      '(r, p) ← str_parms_add_str s8 32 (true, false) (bytes "g") (bytes "g") p;
      s ← str_parms_to_str (fun _ => true) p;
      Ok (r, s)
  | _ => Err NullDeref
  end = Err UseAfterFree.
Proof. vm_compute. reflexivity. Qed.

(** The same when [errno] is [ENOMEM] from some earlier call: nothing fails, and
    the addition is undone on the heap but not in the map. *)
Example stale_errno_dangles :
  match str_parms_create 32 true true true true empty_heap with
  | Ok (Some p, _) =>
      '(r, p) ← str_parms_add_str s8 32 (true, true) (bytes "k") (bytes "v") p;
      s ← str_parms_to_str (fun _ => true) p;
      Ok (r, s)
  | _ => Err NullDeref
  end = Err UseAfterFree.
Proof. vm_compute. reflexivity. Qed.

(** [str_parms_get_float] never stores the number. *)
Lemma get_float_stores_nothing {F : Type} strtof_end p key (val : F) r v :
  str_parms_get_float s8 32 strtof_end p key val = Ok (r, v) -> v = val.
Proof.
  unfold str_parms_get_float. destruct (hashmapGet _ _ _ _ _ _) as [[value|]|]; [| |done];
    cbn [mbind result_bind]; [|by intros [= _ <-]].
  destruct (read_str value (sp_heap p)); [|done]. by intros [= _ <-].
Qed.

(** A [float] that does not fit 22 characters is stored with digits missing. *)
Example float_loses_digits :
  match str_parms_create 32 true true true false empty_heap with
  | Ok (Some p, _) =>
      '(_, p) ← str_parms_add_float s8 32 (bytes "1000000015047466219876688855040.0000000000") (true, true)
                  (bytes "x") p;
      str_parms_to_str (fun _ => true) p
  | _ => Err NullDeref
  end = Ok (Some (bytes "x=1000000015047466219876")).
Proof. vm_compute. reflexivity. Qed.
