(* ===== verification/StrUtf.v ===== *)
(** * libcutils: UTF-8 and UTF-16 strings

    Models [src/libs/libcutils/strdup8to16.c] and [strdup16to8.c]: Java's
    modified UTF-8 to UTF-16 and back.  A [char*] is the list of the bytes from
    it to the end of its object (bytes as unsigned values; every operation here
    masks them, so the sign of [char] does not matter); reading past the object
    is a fault, and so is writing more characters than the destination holds. *)
From Stdlib Require Import ZifyBool.
From S2P Require Import Prelude.
Local Open Scope Z_scope.

Definition UTF16_REPLACEMENT_CHAR : Z := 0xfffd.
Definition UNICODE_UPPER_LIMIT : Z := 0x10fffd.

Definition UTF8_SEQ_LENGTH (ch : Z) : Z :=
  Z.land (Z.shiftr 0xe5000000 (Z.land (Z.shiftr ch 3) 0x1e)) 3 + 1.

Definition UTF8_SHIFT_AND_MASK (unicode byte : Z) : Z :=
  Z.lor (u32 (Z.shiftl unicode 6)) (Z.land 0x3f byte).

(** [*p] *)
Definition deref (p : list Z) : result Z :=
  match p with [] => Err OutOfBounds | b :: _ => Ok b end.

Definition leaderMask (seq_len : Z) : Z :=
  match seq_len with 1 => 0xff | 2 => 0x1f | 3 => 0x0f | _ => 0x07 end.

(** The loop over the extension bytes, [n] of them still expected. *)
Fixpoint extension_loop (n : nat) (ret : Z) (p : list Z) : result (Z * list Z) :=
  match n with
  | O => Ok (ret, p)
  | S n =>
      b ← deref p;
      if b =? 0 then Ok (UTF16_REPLACEMENT_CHAR, p)
      else if negb (Z.land b 0xc0 =? 0x80) then Ok (UTF16_REPLACEMENT_CHAR, p)
      else extension_loop n (UTF8_SHIFT_AND_MASK ret b) (tail p)
  end.

(** The character, and where the pointer stands. *)
Definition getUtf32FromUtf8 (p : list Z) : result (Z * list Z) :=
  b ← deref p;
  if Z.land b 0xc0 =? 0x80 then Ok (UTF16_REPLACEMENT_CHAR, tail p)
  else
    let seq_len := UTF8_SEQ_LENGTH b in
    let ret := Z.land b (leaderMask seq_len) in
    if b =? 0 then Ok (ret, p)
    else extension_loop (Z.to_nat (seq_len - 1)) ret (tail p).

(** The UTF-16 characters one UTF-32 character is stored as. *)
Definition encode16 (ret : Z) : list Z :=
  if ret <=? 0xffff then [ret]
  else if ret <=? UNICODE_UPPER_LIMIT then
    [Z.lor 0xd800 (Z.shiftr (ret - 0x10000) 10); Z.lor 0xdc00 (Z.land (ret - 0x10000) 0x3ff)]
  else [UTF16_REPLACEMENT_CHAR].

(** [*dest++ = ...], in a destination of [cap] characters. *)
Definition write16 (cap : nat) (dest chars : list Z) : result (list Z) :=
  if decide (length dest + length chars <= cap)%nat then Ok (dest ++ chars) else Err OutOfBounds.

Fixpoint strcpy8to16_loop (fuel cap : nat) (dest p : list Z) : result (list Z) :=
  b ← deref p;
  if b =? 0 then Ok dest
  else match fuel with
       | O => Err OutOfFuel
       | S fuel =>
           '(ret, p) ← getUtf32FromUtf8 p;
           dest ← write16 cap dest (encode16 ret);
           strcpy8to16_loop fuel cap dest p
       end.

(** Each iteration consumes a byte. *)
Definition strcpy8to16 (cap : nat) (utf8Str : list Z) : result (list Z) :=
  strcpy8to16_loop (length utf8Str) cap [] utf8Str.

(** [length] bytes from [utf8Str]; [end - p] bytes are left when [p] has
    [length p] bytes to the end of the object. *)
Fixpoint strcpylen8to16_loop (fuel cap : nat) (dest p : list Z) (left : Z) : result (list Z) :=
  if left <=? 0 then Ok dest
  else match fuel with
       | O => Err OutOfFuel
       | S fuel =>
           '(ret, p') ← getUtf32FromUtf8 p;
           dest ← write16 cap dest (encode16 ret);
           strcpylen8to16_loop fuel cap dest p'
             (left - (Z.of_nat (length p) - Z.of_nat (length p')))
       end.

Definition strcpylen8to16 (fuel cap : nat) (utf8Str : list Z) (length : Z) : result (list Z) :=
  strcpylen8to16_loop fuel cap [] utf8Str length.

(** [len] and [expected] as the loop of [strlen8to16] keeps them. *)
Fixpoint strlen8to16_loop (p : list Z) (len expected : Z) : result Z :=
  match p with
  | [] => Err OutOfBounds
  | ic :: p =>
      if ic =? 0 then Ok len
      else if Z.land ic 0xc0 =? 0x80 then
        let expected := expected - 1 in
        strlen8to16_loop p (if expected <? 0 then len + 1 else len) expected
      else
        let expected := UTF8_SEQ_LENGTH ic - 1 in
        strlen8to16_loop p (if expected =? 3 then len + 1 + 1 else len + 1) expected
  end.

Definition strlen8to16 (utf8Str : list Z) : result Z := strlen8to16_loop utf8Str 0 0.

Section Size.
(** The largest [size_t]. *)
Context (SIZE_MAX : Z).

(** [alloc]: whether [malloc] returns a block.  [None] is NULL. *)
Definition strdup8to16 (alloc : bool) (s : option (list Z)) : result (option (list Z)) :=
  match s with
  | None => Ok None
  | Some s =>
      len ← strlen8to16 s;
      if negb (len =? 0) && (SIZE_MAX / len <? 2) then Ok None
      else if alloc then r ← strcpy8to16 (Z.to_nat len) s; Ok (Some r)
      else b ← deref s; if b =? 0 then Ok None else Err NullDeref
  end.

(** What one UTF-16 character adds. *)
Definition utf8_size (uic : Z) : Z :=
  if uic >? 0x07ff then 3 else if (uic >? 0x7f) || (uic =? 0) then 2 else 1.

Fixpoint paranoid_loop (utf16Str : list Z) (utf8Len : Z) : Z :=
  match utf16Str with
  | [] => if utf8Len =? SIZE_MAX then SIZE_MAX - 1 else utf8Len
  | uic :: rest =>
      let utf8Cur := utf8Len in
      let utf8Len := (utf8Len + utf8_size uic) mod (SIZE_MAX + 1) in
      if utf8Len <? utf8Cur then SIZE_MAX - 1 else paranoid_loop rest utf8Len
  end.

(** The [len] characters are the elements of the list. *)
Definition strnlen16to8 (utf16Str : list Z) : Z :=
  if Z.of_nat (length utf16Str) <? (SIZE_MAX - 1) / 3
  then fold_left (fun utf8Len uic => (utf8Len + utf8_size uic) mod (SIZE_MAX + 1)) utf16Str 0
  else paranoid_loop utf16Str 0.

Definition encode8 (uic : Z) : list Z :=
  if uic >? 0x07ff then
    [u8 (Z.lor (Z.shiftr uic 12) 0xe0);
     u8 (Z.lor (Z.land (Z.shiftr uic 6) 0x3f) 0x80);
     u8 (Z.lor (Z.land uic 0x3f) 0x80)]
  else if (uic >? 0x7f) || (uic =? 0) then
    [u8 (Z.lor (Z.shiftr uic 6) 0xc0); u8 (Z.lor (Z.land uic 0x3f) 0x80)]
  else [u8 uic].

(** Into a block of [cap] bytes; the terminator is written last. *)
Fixpoint strncpy16to8_loop (cap : nat) (utf8cur utf16Str : list Z) : result (list Z) :=
  match utf16Str with
  | [] => write16 cap utf8cur [0]
  | uic :: rest =>
      utf8cur ← write16 cap utf8cur (encode8 uic);
      strncpy16to8_loop cap utf8cur rest
  end.
Definition strncpy16to8 (cap : nat) (utf16Str : list Z) : result (list Z) :=
  strncpy16to8_loop cap [] utf16Str.

Definition strndup16to8 (alloc : bool) (s : option (list Z)) : result (option (list Z)) :=
  match s with
  | None => Ok None
  | Some s =>
      let len := strnlen16to8 s in
      if len >=? SIZE_MAX - 1 then Ok None
      else if alloc then r ← strncpy16to8 (Z.to_nat (len + 1)) s; Ok (Some r)
      else Ok None
  end.
End Size.

(** ** Facts about single bytes, by evaluation *)

Definition is_extension (b : Z) : bool := Z.land b 0xc0 =? 0x80.

Lemma seq_length_range b : 0 <= b < 256 -> 1 <= UTF8_SEQ_LENGTH b <= 4.
Proof.
  intros Hb. pose proof (forall_below 256 (fun b => (1 <=? UTF8_SEQ_LENGTH b)
    && (UTF8_SEQ_LENGTH b <=? 4)) eq_refl b Hb). lia.
Qed.

(** A leader keeps the bits its length leaves it. *)
Lemma leader_bits b :
  0 <= b < 256 -> is_extension b = false ->
  0 <= Z.land b (leaderMask (UTF8_SEQ_LENGTH b)) < 2 ^ (21 - 6 * (UTF8_SEQ_LENGTH b - 1)) /\
  (UTF8_SEQ_LENGTH b <= 3 ->
     Z.land b (leaderMask (UTF8_SEQ_LENGTH b)) < 2 ^ (16 - 6 * (UTF8_SEQ_LENGTH b - 1))).
Proof.
  intros Hb He.
  pose proof (forall_below 256 (fun b => is_extension b ||
    ((0 <=? Z.land b (leaderMask (UTF8_SEQ_LENGTH b))) &&
     (Z.land b (leaderMask (UTF8_SEQ_LENGTH b)) <? 2 ^ (21 - 6 * (UTF8_SEQ_LENGTH b - 1))) &&
     ((UTF8_SEQ_LENGTH b >? 3) ||
      (Z.land b (leaderMask (UTF8_SEQ_LENGTH b)) <? 2 ^ (16 - 6 * (UTF8_SEQ_LENGTH b - 1))))))
    eq_refl b Hb) as H.
  cbv beta in H. rewrite He in H. lia.
Qed.

Lemma shift_and_mask_bound k ret b :
  0 <= k <= 26 -> 0 <= ret < 2 ^ k -> 0 <= UTF8_SHIFT_AND_MASK ret b < 2 ^ (k + 6).
Proof.
  intros Hk Hr. unfold UTF8_SHIFT_AND_MASK. rewrite (Z.land_comm 0x3f).
  change 0x3f with (Z.ones 6). rewrite Z.land_ones by lia.
  pose proof (Z.mod_pos_bound b (2 ^ 6) ltac:(lia)) as Hm.
  rewrite Z.shiftl_mul_pow2 by lia.
  assert (2 ^ (k + 6) = 2 ^ k * 2 ^ 6) as Hp by (by rewrite Z.pow_add_r by lia).
  assert (2 ^ (k + 6) <= 2 ^ 32) by (apply Z.pow_le_mono_r; lia).
  rewrite u32_small by lia. rewrite lor_add_disjoint by lia. lia.
Qed.

(** ** How much [strlen8to16] counts *)

Fixpoint count8 (p : list Z) (expected : Z) : Z :=
  match p with
  | [] => 0
  | ic :: p =>
      if ic =? 0 then 0
      else if is_extension ic then
        (if expected - 1 <? 0 then 1 else 0) + count8 p (expected - 1)
      else
        (if UTF8_SEQ_LENGTH ic - 1 =? 3 then 2 else 1) + count8 p (UTF8_SEQ_LENGTH ic - 1)
  end.

(** A C string: non-zero bytes and their terminator. *)
Definition cstr (p : list Z) : Prop :=
  exists s, p = s ++ [0] /\ Forall (fun b => 0 < b < 256) s.

Lemma cstr_inv p :
  cstr p -> p = [0] \/ exists b p', p = b :: p' /\ 0 < b < 256 /\ cstr p'.
Proof.
  intros ([|b s] & -> & Hs); [by left|right]. apply Forall_cons in Hs as [Hb Hs].
  exists b, (s ++ [0]). split_and!; [done|lia|lia|by exists s].
Qed.

Lemma strlen8to16_loop_count p len expected :
  cstr p -> strlen8to16_loop p len expected = Ok (len + count8 p expected).
Proof.
  intros (s & -> & Hs). revert len expected. induction Hs as [|b s Hb _ IH]; intros len expected.
  { simpl. f_equal. lia. }
  simpl. fold (is_extension b). destruct (b =? 0) eqn:E; [lia|].
  destruct (is_extension b); rewrite IH; f_equal; [destruct (_ <? _)|destruct (_ =? 3)]; lia.
Qed.

Lemma count8_nonneg p expected : 0 <= count8 p expected.
Proof.
  revert expected; induction p as [|b p IH]; intros e; simpl; [lia|].
  destruct (b =? 0); [lia|].
  destruct (is_extension b); [specialize (IH (e - 1))|specialize (IH (UTF8_SEQ_LENGTH b - 1))];
    [destruct (_ <? _)|destruct (_ =? 3)]; lia.
Qed.

Lemma count8_unexpected p e : e <= 0 -> count8 p e = count8 p 0.
Proof.
  revert e; induction p as [|b p IH]; intros e He; simpl; [done|].
  destruct (b =? 0); [done|]. destruct (is_extension b); [|done].
  rewrite (IH (e - 1)), (IH (0 - 1)) by lia.
  by rewrite (proj2 (Z.ltb_lt (e - 1) 0)) by lia.
Qed.

(** Where the decoder stopped early, the next byte is a leader or the end. *)
Lemma count8_leader b p e e' : is_extension b = false -> count8 (b :: p) e = count8 (b :: p) e'.
Proof. intros He. simpl. by rewrite He. Qed.

(** ** One character *)

Lemma extension_loop_ok n k ret p :
  cstr p -> 0 <= k -> k + 6 * Z.of_nat n <= 26 -> 0 <= ret < 2 ^ k ->
  exists ret' p', extension_loop n ret p = Ok (ret', p') /\ cstr p' /\
    (length p' <= length p)%nat /\ count8 p (Z.of_nat n) = count8 p' 0 /\
    (ret' = UTF16_REPLACEMENT_CHAR \/ 0 <= ret' < 2 ^ (k + 6 * Z.of_nat n)).
Proof.
  revert k ret p; induction n as [|n IH]; intros k ret p Hp Hk Hkn Hr; cbn [extension_loop].
  { exists ret, p. split_and!; try done. right. by rewrite Z.add_0_r. }
  destruct (cstr_inv p Hp) as [->|(b & p' & -> & Hb & Hp')]; cbn [deref mbind result_bind].
  { exists UTF16_REPLACEMENT_CHAR, [0]. split_and!; [done|done|done|done|by left]. }
  rewrite (proj2 (Z.eqb_neq b 0)) by lia. fold (is_extension b).
  destruct (is_extension b) eqn:He; cbn [negb tail].
  - destruct (IH (k + 6) (UTF8_SHIFT_AND_MASK ret b) p' Hp')
      as (ret' & p2 & -> & Hp2 & Hl & Hc & Hret); [lia|lia|apply shift_and_mask_bound; lia|].
    exists ret', p2. split; [done|]. split; [done|]. split; [simpl; lia|]. split.
    + cbn [count8]. rewrite (proj2 (Z.eqb_neq b 0)) by lia. rewrite He.
      replace (Z.of_nat (S n) - 1) with (Z.of_nat n) by lia.
      rewrite (proj2 (Z.ltb_ge (Z.of_nat n) 0)) by lia. by rewrite Hc.
    + destruct Hret as [|Hret]; [by left|right].
      by replace (k + 6 * Z.of_nat (S n)) with (k + 6 + 6 * Z.of_nat n) by lia.
  - exists UTF16_REPLACEMENT_CHAR, (b :: p').
    split_and!; [done|done|done|by apply count8_leader|by left].
Qed.

Lemma encode16_length ret :
  (length (encode16 ret) <= 2)%nat /\ (ret < 2 ^ 16 -> length (encode16 ret) = 1%nat).
Proof.
  unfold encode16. destruct (ret <=? 0xffff) eqn:E; [simpl; lia|].
  destruct (ret <=? UNICODE_UPPER_LIMIT); simpl; split; lia.
Qed.

(** [getUtf32FromUtf8] stays in the string, advances, and its character needs no
    more UTF-16 characters than [strlen8to16] counts for the bytes consumed. *)
Lemma getUtf32FromUtf8_ok b p :
  cstr (b :: p) -> b <> 0 ->
  exists ret p', getUtf32FromUtf8 (b :: p) = Ok (ret, p') /\ cstr p' /\
    (length p' <= length p)%nat /\
    Z.of_nat (length (encode16 ret)) + count8 p' 0 <= count8 (b :: p) 0.
Proof.
  intros Hp Hb0. destruct (cstr_inv _ Hp) as [[= -> ->]|(b' & p' & [= <- <-] & Hb & Hp')]; [done|].
  unfold getUtf32FromUtf8. cbn [deref mbind result_bind]. fold (is_extension b).
  destruct (is_extension b) eqn:He.
  { exists UTF16_REPLACEMENT_CHAR, p. split_and!; [done|done|done|]. cbn [count8].
    rewrite (proj2 (Z.eqb_neq b 0)) by lia. rewrite He, (count8_unexpected p (0 - 1)) by lia.
    simpl. lia. }
  rewrite (proj2 (Z.eqb_neq b 0)) by lia.
  pose proof (seq_length_range b ltac:(lia)) as Hn.
  destruct (leader_bits b ltac:(lia) He) as [H21 H16].
  set (n := UTF8_SEQ_LENGTH b) in *. cbn [tail].
  assert (Hcount : count8 (b :: p) 0 = (if n - 1 =? 3 then 2 else 1) + count8 p (n - 1)).
  { cbn [count8]. rewrite (proj2 (Z.eqb_neq b 0)) by lia. by rewrite He. }
  destruct (decide (n <= 3)) as [Hn3|Hn3].
  - destruct (extension_loop_ok (Z.to_nat (n - 1)) (16 - 6 * (n - 1)) (Z.land b (leaderMask n)) p Hp')
      as (ret & p2 & -> & Hp2 & Hl & Hc & Hret); [lia|lia|lia|].
    exists ret, p2. split_and!; [done|done|done|].
    rewrite Z2Nat.id in Hc by lia. rewrite Hcount, Hc.
    assert (length (encode16 ret) = 1%nat) as ->; [|destruct (_ =? 3); lia].
    apply encode16_length. destruct Hret as [->|[_ Hret]]; [unfold UTF16_REPLACEMENT_CHAR; lia|].
    by replace (16 - 6 * (n - 1) + 6 * Z.of_nat (Z.to_nat (n - 1))) with 16 in Hret by lia.
  - destruct (extension_loop_ok (Z.to_nat (n - 1)) (21 - 6 * (n - 1)) (Z.land b (leaderMask n)) p Hp')
      as (ret & p2 & -> & Hp2 & Hl & Hc & Hret); [lia|lia|lia|].
    exists ret, p2. split_and!; [done|done|done|].
    rewrite Z2Nat.id in Hc by lia. rewrite Hcount, Hc.
    rewrite (proj2 (Z.eqb_eq (n - 1) 3)) by lia.
    pose proof (proj1 (encode16_length ret)). lia.
Qed.

(** ** Whole strings *)

Lemma strcpy8to16_loop_ok fuel cap dest p :
  cstr p -> (length p <= S fuel)%nat ->
  Z.of_nat (length dest) + count8 p 0 <= Z.of_nat cap ->
  exists dest', strcpy8to16_loop fuel cap dest p = Ok dest' /\ (length dest' <= cap)%nat.
Proof.
  revert dest p; induction fuel as [|fuel IH]; intros dest p Hp Hfuel Hcap;
    destruct (cstr_inv p Hp) as [->|(b & p' & -> & Hb & Hp')]; cbn [strcpy8to16_loop deref mbind result_bind].
  1, 3: exists dest; split; [done|]; simpl in Hcap; lia.
  { destruct p'; [|simpl in Hfuel; lia]. destruct Hp' as ([|? ?] & H & _); done. }
  rewrite (proj2 (Z.eqb_neq b 0)) by lia.
  destruct (getUtf32FromUtf8_ok b p' Hp ltac:(lia)) as (ret & p2 & -> & Hp2 & Hl & Hc).
  cbn [mbind result_bind]. pose proof (count8_nonneg p2 0).
  unfold write16. rewrite decide_True by lia. cbn [mbind result_bind].
  apply IH; [done|simpl in Hfuel; lia|]. rewrite length_app. lia.
Qed.

Lemma strcpy8to16_ok cap p :
  cstr p -> count8 p 0 <= Z.of_nat cap ->
  exists dest, strcpy8to16 cap p = Ok dest /\ (length dest <= cap)%nat.
Proof. intros Hp Hc. apply strcpy8to16_loop_ok; [done|lia|simpl; lia]. Qed.

(** ** From UTF-16 and back *)

Definition is_char16 (c : Z) : Prop := 0 <= c < 2 ^ 16.

Lemma utf8_size_bounds uic : 1 <= utf8_size uic <= 3.
Proof. unfold utf8_size. destruct (_ >? _); [lia|]. destruct (_ || _); lia. Qed.

Lemma encode8_length uic : Z.of_nat (length (encode8 uic)) = utf8_size uic.
Proof. unfold encode8, utf8_size. destruct (_ >? _); [done|]. by destruct (_ || _). Qed.

(** The leading and extension bytes, as numbers. *)
Lemma extension_byte x : 0 <= x < 64 ->
  u8 (Z.lor x 0x80) = 0x80 + x /\ is_extension (0x80 + x) = true /\ Z.land 0x3f (0x80 + x) = x.
Proof.
  intros Hx. pose proof (forall_below 64 (fun x => (u8 (Z.lor x 0x80) =? 0x80 + x)
    && is_extension (0x80 + x) && (Z.land 0x3f (0x80 + x) =? x)) eq_refl x Hx) as H.
  cbv beta in H. lia.
Qed.

Lemma leader3_byte x : 0 <= x < 16 ->
  u8 (Z.lor x 0xe0) = 0xe0 + x /\ is_extension (0xe0 + x) = false /\
  UTF8_SEQ_LENGTH (0xe0 + x) = 3 /\ Z.land (0xe0 + x) 0x0f = x.
Proof.
  intros Hx. pose proof (forall_below 16 (fun x => (u8 (Z.lor x 0xe0) =? 0xe0 + x)
    && negb (is_extension (0xe0 + x)) && (UTF8_SEQ_LENGTH (0xe0 + x) =? 3)
    && (Z.land (0xe0 + x) 0x0f =? x)) eq_refl x Hx) as H.
  cbv beta in H. lia.
Qed.

Lemma leader2_byte x : 0 <= x < 32 ->
  u8 (Z.lor x 0xc0) = 0xc0 + x /\ is_extension (0xc0 + x) = false /\
  UTF8_SEQ_LENGTH (0xc0 + x) = 2 /\ Z.land (0xc0 + x) 0x1f = x.
Proof.
  intros Hx. pose proof (forall_below 32 (fun x => (u8 (Z.lor x 0xc0) =? 0xc0 + x)
    && negb (is_extension (0xc0 + x)) && (UTF8_SEQ_LENGTH (0xc0 + x) =? 2)
    && (Z.land (0xc0 + x) 0x1f =? x)) eq_refl x Hx) as H.
  cbv beta in H. lia.
Qed.

Lemma ascii_byte x : 0 < x < 128 ->
  u8 x = x /\ is_extension x = false /\ UTF8_SEQ_LENGTH x = 1 /\ Z.land x 0xff = x.
Proof.
  intros Hx. pose proof (forall_below 128 (fun x => (u8 x =? x)
    && negb (is_extension x) && (UTF8_SEQ_LENGTH x =? 1) && (Z.land x 0xff =? x))
    eq_refl x ltac:(lia)) as H.
  cbv beta in H. lia.
Qed.

Lemma shift_and_mask_ext ret x :
  0 <= ret < 2 ^ 20 -> 0 <= x < 64 -> UTF8_SHIFT_AND_MASK ret (0x80 + x) = ret * 64 + x.
Proof.
  intros Hr Hx. unfold UTF8_SHIFT_AND_MASK.
  destruct (extension_byte x Hx) as (_ & _ & ->). rewrite Z.shiftl_mul_pow2 by lia.
  rewrite u32_small by lia. by rewrite lor_add_disjoint by lia.
Qed.

(** [encode8] as arithmetic. *)
Lemma encode8_cases c :
  is_char16 c ->
  (0x7ff < c /\ encode8 c = [0xe0 + c / 4096; 0x80 + c / 64 mod 64; 0x80 + c mod 64]) \/
  ((0x7f < c <= 0x7ff \/ c = 0) /\ encode8 c = [0xc0 + c / 64; 0x80 + c mod 64]) \/
  (0 < c <= 0x7f /\ encode8 c = [c]).
Proof.
  unfold is_char16. intros Hc. unfold encode8.
  change 0x3f with (Z.ones 6). rewrite !Z.land_ones, !Z.shiftr_div_pow2 by lia.
  change (2 ^ 12) with 4096. change (2 ^ 6) with 64.
  pose proof (Z.mod_pos_bound c 64). pose proof (Z.mod_pos_bound (c / 64) 64).
  assert (0 <= c / 4096 /\ c / 4096 < 16) by (split; [apply Z.div_pos|apply Z.div_lt_upper_bound]; lia).
  assert (0 <= c / 64) by (apply Z.div_pos; lia).
  destruct (c >? 0x7ff) eqn:E1; [left|right].
  - split; [lia|]. rewrite (proj1 (leader3_byte (c / 4096) ltac:(lia))).
    by rewrite (proj1 (extension_byte (c / 64 mod 64) ltac:(lia))),
      (proj1 (extension_byte (c mod 64) ltac:(lia))).
  - destruct ((c >? 0x7f) || (c =? 0)) eqn:E2; [left|right].
    + assert (c / 64 < 32) by (apply Z.div_lt_upper_bound; lia).
      split; [lia|]. rewrite (proj1 (leader2_byte (c / 64) ltac:(lia))).
      by rewrite (proj1 (extension_byte (c mod 64) ltac:(lia))).
    + split; [lia|]. by rewrite (proj1 (ascii_byte c ltac:(lia))).
Qed.

Lemma encode8_bytes c : is_char16 c -> Forall (fun b => 0 < b < 256) (encode8 c).
Proof.
  intros Hc. unfold is_char16 in Hc.
  pose proof (Z.mod_pos_bound c 64). pose proof (Z.mod_pos_bound (c / 64) 64).
  assert (0 <= c / 4096 /\ c / 4096 < 16) by (split; [apply Z.div_pos|apply Z.div_lt_upper_bound]; lia).
  assert (0 <= c / 64) by (apply Z.div_pos; lia).
  destruct (encode8_cases c Hc) as [[? ->]|[[Hr ->]|[? ->]]]; repeat constructor; try lia.
  assert (c / 64 < 32) by (apply Z.div_lt_upper_bound; lia). lia.
Qed.

(** One character, read back whatever follows it. *)
Lemma getUtf32FromUtf8_encode8 c p :
  is_char16 c -> getUtf32FromUtf8 (encode8 c ++ p) = Ok (c, p) /\
    (forall e, count8 (encode8 c ++ p) e = 1 + count8 p 0) /\
    exists b q, encode8 c ++ p = b :: q /\ b <> 0.
Proof.
  intros Hc. unfold is_char16 in Hc. unfold getUtf32FromUtf8.
  pose proof (Z.mod_pos_bound c 64). pose proof (Z.mod_pos_bound (c / 64) 64).
  assert (0 <= c / 4096 /\ c / 4096 < 16) by (split; [apply Z.div_pos|apply Z.div_lt_upper_bound]; lia).
  assert (0 <= c / 64) by (apply Z.div_pos; lia).
  assert (Hdm : c = c / 64 * 64 + c mod 64) by (rewrite Z.mul_comm; apply Z.div_mod; lia).
  assert (Hdm2 : c / 64 = c / 4096 * 64 + c / 64 mod 64).
  { change 4096 with (64 * 64). rewrite <-Z.div_div by lia. rewrite Z.mul_comm. apply Z.div_mod. lia. }
  destruct (encode8_cases c Hc) as [[Hr ->]|[[Hr ->]|[Hr ->]]]; cbn [app deref mbind result_bind].
  - destruct (leader3_byte (c / 4096)) as (_ & He & Hn & Hm); [lia|].
    destruct (extension_byte (c / 64 mod 64)) as (_ & He1 & _); [lia|].
    destruct (extension_byte (c mod 64)) as (_ & He2 & _); [lia|].
    cbn [count8]. fold (is_extension (0xe0 + c / 4096)). rewrite He, Hn, He1, He2.
    rewrite !(proj2 (Z.eqb_neq (_ + _) 0)) by lia. cbn [leaderMask tail]. rewrite Hm.
    change (Z.to_nat (3 - 1)) with 2%nat. cbn [extension_loop deref mbind result_bind].
    rewrite !(proj2 (Z.eqb_neq (_ + _) 0)) by lia. fold (is_extension (128 + c / 64 mod 64)).
    rewrite He1. cbn [negb tail deref mbind result_bind].
    rewrite !(proj2 (Z.eqb_neq (_ + _) 0)) by lia. fold (is_extension (128 + c mod 64)).
    rewrite He2. cbn [negb tail]. rewrite (shift_and_mask_ext (c / 4096)) by lia.
    rewrite shift_and_mask_ext by lia.
    split; [do 2 f_equal; lia|]. split;
    [intros e; change (1 + (0 + (0 + count8 p 0)) = 1 + count8 p 0); lia|]. do 2 eexists. split; [done|lia].
  - assert (c / 64 < 32) by (apply Z.div_lt_upper_bound; lia).
    destruct (leader2_byte (c / 64)) as (_ & He & Hn & Hm); [lia|].
    destruct (extension_byte (c mod 64)) as (_ & He2 & _); [lia|].
    cbn [count8]. fold (is_extension (0xc0 + c / 64)). rewrite He, Hn, He2.
    rewrite !(proj2 (Z.eqb_neq (_ + _) 0)) by lia. cbn [leaderMask tail]. rewrite Hm.
    change (Z.to_nat (2 - 1)) with 1%nat. cbn [extension_loop deref mbind result_bind].
    rewrite !(proj2 (Z.eqb_neq (_ + _) 0)) by lia. fold (is_extension (128 + c mod 64)).
    rewrite He2. cbn [negb tail]. rewrite !shift_and_mask_ext by lia.
    split; [do 2 f_equal; lia|]. split;
    [intros e; change (1 + (0 + count8 p 0) = 1 + count8 p 0); lia|]. do 2 eexists. split; [done|lia].
  - destruct (ascii_byte c) as (_ & He & Hn & Hm); [lia|].
    cbn [count8]. fold (is_extension c). rewrite He, Hn.
    rewrite !(proj2 (Z.eqb_neq c 0)) by lia. cbn [leaderMask tail]. rewrite Hm.
    split; [done|]. split; [done|]. do 2 eexists. split; [done|lia].
Qed.

Definition encoded (s : list Z) : list Z := concat (map encode8 s).

Lemma encoded_cstr s : Forall is_char16 s -> cstr (encoded s ++ [0]).
Proof.
  intros Hs. exists (encoded s). split; [done|]. unfold encoded.
  induction Hs as [|c s Hc _ IH]; simpl; [constructor|].
  apply Forall_app. split; [by apply encode8_bytes|done].
Qed.

Lemma encode16_char c : is_char16 c -> encode16 c = [c].
Proof. unfold is_char16, encode16. intros Hc. by rewrite (proj2 (Z.leb_le c 0xffff)) by lia. Qed.

Lemma strcpy8to16_loop_encoded s fuel cap dest :
  Forall is_char16 s -> (length s <= fuel)%nat -> (length dest + length s <= cap)%nat ->
  strcpy8to16_loop fuel cap dest (encoded s ++ [0]) = Ok (dest ++ s).
Proof.
  intros Hs. revert fuel dest. induction Hs as [|c s Hc _ IH]; intros fuel dest Hfuel Hcap.
  { destruct fuel; simpl; by rewrite app_nil_r. }
  unfold encoded. cbn [map concat]. fold (encoded s). rewrite <-app_assoc.
  destruct (getUtf32FromUtf8_encode8 c (encoded s ++ [0]) Hc) as (Hget & _ & b & q & Heq & Hb).
  destruct fuel as [|fuel]; [simpl in Hfuel; lia|]. simpl in Hfuel, Hcap.
  cbn [strcpy8to16_loop]. rewrite Hget, Heq. cbn [deref mbind result_bind].
  rewrite (proj2 (Z.eqb_neq b 0)) by done. cbn [mbind result_bind].
  unfold write16. rewrite encode16_char, decide_True by (done || simpl; lia).
  cbn [mbind result_bind]. rewrite IH by (rewrite ?length_app; simpl; lia).
  by rewrite <-app_assoc.
Qed.

Lemma count8_encoded s e : Forall is_char16 s -> count8 (encoded s ++ [0]) e = Z.of_nat (length s).
Proof.
  intros Hs. revert e. induction Hs as [|c s Hc _ IH]; intros e; [done|].
  unfold encoded. cbn [map concat]. fold (encoded s). rewrite <-app_assoc.
  destruct (getUtf32FromUtf8_encode8 c (encoded s ++ [0]) Hc) as (_ & -> & _).
  rewrite IH. cbn [length]. lia.
Qed.

Lemma length_encoded s : Z.of_nat (length (encoded s)) = fold_left (fun n c => n + utf8_size c) s 0.
Proof.
  unfold encoded. cut (forall n, n + Z.of_nat (length (concat (map encode8 s))) =
    fold_left (fun n c => n + utf8_size c) s n); [intros H; rewrite <-H; lia|].
  induction s as [|c s IH]; intros n; simpl; [lia|].
  rewrite <-IH, length_app, <-(encode8_length c). lia.
Qed.

Lemma length_encoded_le s : Z.of_nat (length (encoded s)) <= 3 * Z.of_nat (length s).
Proof.
  unfold encoded. induction s as [|c s IH]; simpl; [lia|]. rewrite length_app.
  pose proof (encode8_length c). pose proof (utf8_size_bounds c). lia.
Qed.

Lemma strncpy16to8_loop_ok cap dest s :
  (length dest + length (encoded s) + 1 <= cap)%nat ->
  strncpy16to8_loop cap dest s = Ok (dest ++ encoded s ++ [0]).
Proof.
  revert dest; induction s as [|c s IH]; intros dest Hcap.
  { simpl. unfold write16. by rewrite decide_True by (simpl in *; lia). }
  unfold encoded in *. cbn [map concat strncpy16to8_loop] in *. fold (encoded s) in *.
  rewrite length_app in Hcap. unfold write16. rewrite decide_True by lia.
  cbn [mbind result_bind]. rewrite IH by (rewrite length_app; lia). by rewrite <-!app_assoc.
Qed.

Section Theorems.
Context (SIZE_MAX : Z).

Lemma paranoid_loop_exact s n :
  4 <= SIZE_MAX -> 0 <= n <= SIZE_MAX ->
  paranoid_loop SIZE_MAX s n =
    if n + Z.of_nat (length (encoded s)) <? SIZE_MAX
    then n + Z.of_nat (length (encoded s)) else SIZE_MAX - 1.
Proof.
  intros Hmax. revert n; induction s as [|c s IH]; intros n Hn.
  { simpl. rewrite Z.add_0_r. destruct (n =? SIZE_MAX) eqn:E, (n <? SIZE_MAX) eqn:E2; lia. }
  cbn [paranoid_loop]. unfold encoded. cbn [map concat]. fold (encoded s).
  rewrite length_app. pose proof (encode8_length c) as Hlen. pose proof (utf8_size_bounds c) as Hsz.
  destruct (decide (n + utf8_size c <= SIZE_MAX)) as [Hle|Hgt].
  - rewrite Z.mod_small by lia. rewrite (proj2 (Z.ltb_ge (n + utf8_size c) n)) by lia.
    rewrite IH by lia. rewrite Nat2Z.inj_add, Hlen.
    by replace (n + utf8_size c + Z.of_nat (length (encoded s)))
      with (n + (utf8_size c + Z.of_nat (length (encoded s)))) by lia.
  - rewrite (Z.mod_eq (n + utf8_size c)) by lia.
    assert ((n + utf8_size c) / (SIZE_MAX + 1) = 1) as -> by (symmetry; apply (Z.div_unique _ _ _ (n + utf8_size c - (SIZE_MAX + 1))); lia).
    rewrite (proj2 (Z.ltb_lt (n + utf8_size c - (SIZE_MAX + 1) * 1) n)) by lia.
    by rewrite (proj2 (Z.ltb_ge (n + Z.of_nat _) SIZE_MAX)) by lia.
Qed.

Lemma strnlen16to8_exact s :
  4 <= SIZE_MAX ->
  strnlen16to8 SIZE_MAX s =
    if Z.of_nat (length (encoded s)) <? SIZE_MAX then Z.of_nat (length (encoded s)) else SIZE_MAX - 1.
Proof.
  intros Hmax. unfold strnlen16to8. destruct (Z.of_nat (length s) <? (SIZE_MAX - 1) / 3) eqn:E.
  2:{ rewrite paranoid_loop_exact by lia. by rewrite Z.add_0_l. }
  pose proof (length_encoded_le s) as Hle.
  assert (3 * ((SIZE_MAX - 1) / 3) <= SIZE_MAX - 1) by (apply Z.mul_div_le; lia).
  rewrite (proj2 (Z.ltb_lt (Z.of_nat _) SIZE_MAX)) by lia.
  cut (forall n, 0 <= n -> n + Z.of_nat (length (encoded s)) <= SIZE_MAX ->
    fold_left (fun len c => (len + utf8_size c) mod (SIZE_MAX + 1)) s n
      = n + Z.of_nat (length (encoded s))); [intros H'; apply H'; lia|].
  clear. induction s as [|c s IH]; intros n Hn Hb; [simpl; lia|].
  unfold encoded in *. cbn [map concat fold_left] in *. rewrite length_app in *.
  pose proof (encode8_length c). pose proof (utf8_size_bounds c).
  rewrite Z.mod_small by lia. rewrite IH by lia. lia.
Qed.

(** [strnlen16to8] never wraps: it is the number of bytes of the converted
    string, or [SIZE_MAX - 1] when that number does not fit, on the fast path and
    on the paranoid one. *)
Theorem strnlen16to8_saturates s :
  4 <= SIZE_MAX ->
  strnlen16to8 SIZE_MAX s =
    if Z.of_nat (length (encoded s)) <? SIZE_MAX then Z.of_nat (length (encoded s)) else SIZE_MAX - 1.
Proof. apply strnlen16to8_exact. Qed.

(** C39 [strdup8to16] converts every C string, malformed UTF-8 included, without
    reading past the terminator or writing past the block it allocated: the
    block has [strlen8to16] characters and the copy needs no more. *)
Theorem strdup8to16_in_bounds s :
  cstr s ->
  exists len, strlen8to16 s = Ok len /\ 0 <= len /\
    (2 * len <= SIZE_MAX -> exists r, strdup8to16 SIZE_MAX true (Some s) = Ok (Some r) /\
       Z.of_nat (length r) <= len).
Proof.
  intros Hs. exists (count8 s 0). unfold strdup8to16, strlen8to16.
  rewrite strlen8to16_loop_count by done. pose proof (count8_nonneg s 0) as Hc.
  split; [done|]. split; [done|]. intros Hfit. cbn [mbind result_bind]. rewrite Z.add_0_l.
  assert (Hdiv : negb (count8 s 0 =? 0) && (SIZE_MAX / count8 s 0 <? 2) = false).
  { destruct (count8 s 0 =? 0) eqn:E; [done|]. simpl. apply Z.ltb_ge.
    apply Z.div_le_lower_bound; lia. }
  rewrite Hdiv. destruct (strcpy8to16_ok (Z.to_nat (count8 s 0)) s Hs ltac:(lia)) as (r & -> & Hr).
  exists r. split; [done|lia].
Qed.

(** C37 A UTF-16 string survives the conversion to modified UTF-8 and back,
    embedded zeros and lone surrogates included; the bytes between contain no
    zero before the terminator. *)
Theorem utf16_roundtrip s :
  4 <= SIZE_MAX -> Forall is_char16 s -> Z.of_nat (length (encoded s)) < SIZE_MAX - 1 ->
  2 * Z.of_nat (length s) <= SIZE_MAX ->
  exists bytes, strndup16to8 SIZE_MAX true (Some s) = Ok (Some (bytes ++ [0])) /\
    Forall (fun b => 0 < b < 256) bytes /\
    strdup8to16 SIZE_MAX true (Some (bytes ++ [0])) = Ok (Some s).
Proof.
  intros Hmax Hs Hlen Hfit. exists (encoded s).
  unfold strndup16to8. rewrite strnlen16to8_exact by done.
  rewrite (proj2 (Z.ltb_lt (Z.of_nat _) SIZE_MAX)) by lia. cbv zeta.
  assert ((Z.of_nat (length (encoded s)) >=? SIZE_MAX - 1) = false) as -> by lia.
  unfold strncpy16to8. rewrite strncpy16to8_loop_ok by (simpl; lia).
  split; [done|]. destruct (encoded_cstr s Hs) as (bs & Heq & Hbs).
  apply app_inj_tail in Heq as [<- _]. split; [done|].
  unfold strdup8to16, strlen8to16. rewrite strlen8to16_loop_count by by apply encoded_cstr.
  rewrite count8_encoded by done. cbn [mbind result_bind]. rewrite Z.add_0_l.
  assert (Hdiv : negb (Z.of_nat (length s) =? 0) && (SIZE_MAX / Z.of_nat (length s) <? 2) = false).
  { destruct (Z.of_nat (length s) =? 0) eqn:E; [done|]. simpl. apply Z.ltb_ge.
    apply Z.div_le_lower_bound; lia. }
  rewrite Hdiv. unfold strcpy8to16. rewrite strcpy8to16_loop_encoded; [done|done| |simpl; lia].
  rewrite length_app. simpl.
  assert (forall c, (1 <= length (encode8 c))%nat) as H1
    by (intros c; pose proof (encode8_length c); pose proof (utf8_size_bounds c); lia).
  assert (length s <= length (encoded s))%nat; [|lia].
  clear -H1. unfold encoded. induction s as [|c s IH]; simpl; [lia|].
  rewrite length_app. specialize (H1 c). lia.
Qed.
End Theorems.

(** [strcpylen8to16] does not get past a zero byte inside its [length] bytes:
    the decoder never steps over one, and the loop writes zeros until it leaves
    the destination, however large that is. *)
Theorem strcpylen8to16_overruns_on_nul fuel cap rest length :
  0 < length -> (cap < fuel)%nat -> strcpylen8to16 fuel cap (0 :: rest) length = Err OutOfBounds.
Proof.
  intros Hlen Hfuel. unfold strcpylen8to16.
  assert (Hgen : forall fuel dest, (cap - List.length dest < fuel)%nat -> (List.length dest <= cap)%nat ->
    strcpylen8to16_loop fuel cap dest (0 :: rest) length = Err OutOfBounds).
  { clear fuel Hfuel. induction fuel as [|fuel IH]; intros dest Hf Hd; [lia|].
    cbn [strcpylen8to16_loop]. rewrite (proj2 (Z.leb_gt length 0)) by done.
    change (getUtf32FromUtf8 (0 :: rest)) with (Ok (0, 0 :: rest)). cbn [mbind result_bind].
    change (encode16 0) with [0]. unfold write16. case_decide as Hc; [|done].
    cbn [mbind result_bind]. rewrite Z.sub_diag, Z.sub_0_r. simpl in Hc.
    apply IH; rewrite length_app; simpl; lia. }
  apply Hgen; simpl; lia.
Qed.

(** ** Witnesses *)

Lemma strnlen16to8_saturates_witness :
  strnlen16to8 7 [65; 0x20ac; 0x20ac; 66] =
    if Z.of_nat (length (encoded [65; 0x20ac; 0x20ac; 66])) <? 7
    then Z.of_nat (length (encoded [65; 0x20ac; 0x20ac; 66])) else 7 - 1.
Proof. apply strnlen16to8_saturates. lia. Defined.

(** A truncated sequence, stray extension bytes, an invalid leader. *)
Definition malformed : list Z := [0xe2; 0x82; 65; 0x80; 0x80; 0xf8; 0x90; 0xf0; 0x9f; 0x98; 0x80].

Lemma strdup8to16_in_bounds_witness :
  exists len, strlen8to16 (malformed ++ [0]) = Ok len /\ 0 <= len /\
    (2 * len <= 4294967295 -> exists r, strdup8to16 4294967295 true (Some (malformed ++ [0])) = Ok (Some r) /\
       Z.of_nat (length r) <= len).
Proof.
  apply strdup8to16_in_bounds. exists malformed. split; [done|].
  unfold malformed. repeat constructor; lia.
Defined.

Lemma utf16_roundtrip_witness :
  exists bytes, strndup16to8 4294967295 true (Some [72; 0; 0xe9; 0x20ac; 0xd83d; 0xde00])
      = Ok (Some (bytes ++ [0])) /\
    Forall (fun b => 0 < b < 256) bytes /\
    strdup8to16 4294967295 true (Some (bytes ++ [0]))
      = Ok (Some [72; 0; 0xe9; 0x20ac; 0xd83d; 0xde00]).
Proof.
  apply utf16_roundtrip; [lia| |vm_compute; reflexivity|vm_compute; congruence].
  unfold is_char16. repeat constructor; lia.
Defined.

Lemma strcpylen8to16_overruns_on_nul_witness :
  strcpylen8to16 20 16 [0; 66; 0] 2 = Err OutOfBounds.
Proof. apply strcpylen8to16_overruns_on_nul; lia. Defined.
