(* ===== verification/Corkscrew.v ===== *)
(** * libcorkscrew: maps, memory access and the ARM unwinder

    Models [src/libs/libcorkscrew/map_info.c] (lookups), [ptrace.c] (word
    access), [backtrace-helper.c] and [arch-arm/backtrace-arm.c] (exception
    index search, byte stream, personality routines, the unwind loop).  The
    target is 32-bit ARM: [uintptr_t] and [size_t] are [uint32_t].  The
    memory of the process, [ptrace()] and the C library's
    [__gnu_Unwind_Find_exidx] are parameters. *)
From S2P Require Import Prelude.
Local Open Scope Z_scope.
#[local] Arguments Z.testbit : simpl never.
#[local] Arguments Z.land : simpl never.
#[local] Arguments Z.lor : simpl never.
#[local] Arguments Z.shiftl : simpl never.
#[local] Arguments Z.shiftr : simpl never.
#[local] Arguments Z.leb : simpl never.
#[local] Arguments Z.ltb : simpl never.
#[local] Arguments Z.mul : simpl never.
#[local] Arguments Z.add : simpl never.
#[local] Arguments Z.sub : simpl never.
#[local] Arguments Z.modulo : simpl never.

(** ** Maps *)

Record symbol : Type := mkSymbol { s_start : Z; s_end : Z; s_name : list Z }.

(** The [num_symbols] symbols. *)
Definition symbol_table : Type := list symbol.

Record map_info_data : Type := mkMapData {
  exidx_start : Z;
  exidx_size : Z;
  md_symbols : option symbol_table
}.

(** [next] is the tail of the list. *)
Record map_info : Type := mkMap {
  mi_start : Z;
  mi_end : Z;
  mi_readable : bool;
  mi_executable : bool;
  mi_data : option map_info_data;
  mi_name : list Z
}.

Fixpoint find_map_info (milist : list map_info) (addr : Z) : option map_info :=
  match milist with
  | [] => None
  | mi :: next =>
      if negb ((mi_start mi <=? addr) && (addr <? mi_end mi))
      then find_map_info next addr else Some mi
  end.

Definition is_readable_map (milist : list map_info) (addr : Z) : bool :=
  match find_map_info milist addr with Some mi => mi_readable mi | None => false end.

Definition is_executable_map (milist : list map_info) (addr : Z) : bool :=
  match find_map_info milist addr with Some mi => mi_executable mi | None => false end.

(** ** Results of the functions that return [bool]

    [Ok (inl a)] is [true] with its result; [Ok (inr gregs)] is [false], with
    the registers as the function leaves them. *)

Definition attempt (A : Type) : Type := result (A + list Z).

Definition try_bind {A B} (m : attempt A) (k : A -> attempt B) : attempt B :=
  match m with Ok (inl a) => k a | Ok (inr gregs) => Ok (inr gregs) | Err e => Err e end.

Definition succeed {A} (a : A) : attempt A := Ok (inl a).
Definition refuse {A} (gregs : list Z) : attempt A := Ok (inr gregs).

Definition lift {A} (m : result A) : attempt A :=
  match m with Ok a => succeed a | Err e => Err e end.

(** A reader without access to the registers. *)
Definition reading {A} (gregs : list Z) (r : result (option A)) : attempt A :=
  match r with
  | Ok (Some a) => succeed a
  | Ok None => refuse gregs
  | Err e => Err e
  end.

Notation "x <-? m ; k" := (try_bind m (fun x => k))
  (at level 20, m at level 100, k at level 200, right associativity) : c_scope.
Notation "' p <-? m ; k" := (try_bind m (fun x => match x with p => k end))
  (at level 20, p pattern, m at level 100, k at level 200, right associativity) : c_scope.
Local Open Scope c_scope.

Lemma try_bind_ok {A B} (m : attempt A) (k : A -> attempt B) b :
  try_bind m k = Ok (inl b) -> exists a, m = Ok (inl a) /\ k a = Ok (inl b).
Proof. destruct m as [[a|]|]; simpl; [by eauto|discriminate|discriminate]. Qed.

Section Corkscrew.

(** The word at an address of this process; [ptrace(PTRACE_PEEKTEXT, tid, addr)]
    as the value and [errno]; [__gnu_Unwind_Find_exidx] as start and count. *)
Context (load : Z -> Z).
Context (ptrace_peek : Z -> Z -> Z * Z).
Context (find_exidx : Z -> Z * Z).

Record memory_t : Type := mkMemory {
  tid : Z;
  memory_maps : list map_info
}.

Definition init_memory (maps : list map_info) : memory_t := mkMemory (-1) maps.
Definition init_memory_ptrace (tid : Z) : memory_t := mkMemory tid [].

Definition try_get_word (memory : memory_t) (ptr : Z) : option Z :=
  if negb (Z.land ptr 3 =? 0) then None
  else if tid memory <? 0 then
    if negb (is_readable_map (memory_maps memory) ptr) then None
    else Some (u32 (load ptr))
  else
    let '(value, errno) := ptrace_peek (tid memory) ptr in
    if (u32 value =? 0xffffffff) && negb (errno =? 0) then None else Some (u32 value).

(** ** The exception index *)

Definition R_SP : nat := 13%nat.
Definition R_LR : nat := 14%nat.
Definition R_PC : nat := 15%nat.
Definition EXIDX_CANTUNWIND : Z := 1.

(** [place + (((int32_t)(prel_offset << 1)) >> 1)] *)
Definition prel_to_absolute (place prel_offset : Z) : Z :=
  u32 (place + Z.shiftr (s32 (Z.shiftl prel_offset 1)) 1).

(** The loop of [get_exception_handler]: the handler found, 0 for none. *)
Fixpoint exidx_search (fuel : nat) (memory : memory_t) (pc exidx_start exidx_size low high : Z)
    : result Z :=
  match fuel with
  | O => Err OutOfFuel
  | S fuel =>
      if negb (low <? high) then Ok 0
      else
        let index := u32 (low + high) / 2 in
        let entry := u32 (exidx_start + u32 (index * 8)) in
        match try_get_word memory entry with
        | None => Ok 0
        | Some entry_prel_pc =>
            let entry_pc := prel_to_absolute entry entry_prel_pc in
            if pc <? entry_pc
            then exidx_search fuel memory pc exidx_start exidx_size low index
            else
              let entry_handler_ptr := u32 (entry + 4) in
              let handler :=
                match try_get_word memory entry_handler_ptr with
                | None => 0
                | Some entry_handler =>
                    if Z.testbit entry_handler 31 then entry_handler_ptr
                    else if negb (entry_handler =? EXIDX_CANTUNWIND)
                    then prel_to_absolute entry_handler_ptr entry_handler
                    else 0
                end in
              if u32 (index + 1) <? exidx_size then
                let next_entry := u32 (entry + 8) in
                match try_get_word memory next_entry with
                | None => Ok 0
                | Some next_entry_prel_pc =>
                    if prel_to_absolute next_entry next_entry_prel_pc <=? pc
                    then exidx_search fuel memory pc exidx_start exidx_size
                           (u32 (index + 1)) high
                    else Ok handler
                end
              else Ok handler
        end
  end.

(** Start and number of entries of the index that covers [pc]. *)
Definition exidx_of (memory : memory_t) (maps : list map_info) (pc : Z) : Z * Z :=
  if tid memory <? 0 then find_exidx pc
  else match find_map_info maps pc with
       | Some mi => match mi_data mi with Some d => (exidx_start d, exidx_size d) | None => (0, 0) end
       | None => (0, 0)
       end.

(** Each round halves the range, so 33 rounds are enough. *)
Definition exidx_fuel : nat := 33.

Definition get_exception_handler (memory : memory_t) (maps : list map_info) (pc : Z)
    : result Z :=
  if pc =? 0 then Ok 0
  else
    let '(exidx_start, exidx_size) := exidx_of memory maps pc in
    if negb (exidx_start =? 0)
    then exidx_search exidx_fuel memory pc exidx_start exidx_size 0 exidx_size
    else Ok 0.

(** ** The byte stream of unwind instructions *)

(** [word] is [None] until a word has been loaded. *)
Record byte_stream : Type := mkStream { ptr : Z; word : option Z }.

Definition next_of_word (stream : byte_stream) (w : option Z) (shift : Z)
    : result (option (Z * byte_stream)) :=
  match w with
  | None => Err Uninitialised
  | Some v => Ok (Some (u8 (Z.shiftr v shift), mkStream (u32 (ptr stream + 1)) w))
  end.

Definition try_next_byte (memory : memory_t) (stream : byte_stream)
    : result (option (Z * byte_stream)) :=
  match Z.land (ptr stream) 3 with
  | 0 => match try_get_word memory (ptr stream) with
         | None => Ok None
         | Some w => next_of_word stream (Some w) 24
         end
  | 1 => next_of_word stream (word stream) 16
  | 2 => next_of_word stream (word stream) 8
  | _ => next_of_word stream (word stream) 0
  end.

(** ** The registers *)

Definition get_reg (state : list Z) (reg : nat) : attempt Z :=
  lift (get state reg).

Definition set_reg (state : list Z) (reg : nat) (value : Z) : attempt (list Z) :=
  lift (put state reg (u32 value)).

(** The loop over the 16 registers, from register [i]. *)
Fixpoint pop_loop (n : nat) (memory : memory_t) (state : list Z) (mask sp : Z)
    (sp_updated : bool) (i : nat) : attempt (list Z * Z * bool) :=
  match n with
  | O => succeed (state, sp, sp_updated)
  | S n =>
      if Z.testbit mask (Z.of_nat i) then
        value <-? reading state (Ok (try_get_word memory sp));
        state <-? set_reg state i value;
        pop_loop n memory state mask (u32 (sp + 4)) (sp_updated || (i =? R_SP)%nat) (S i)
      else pop_loop n memory state mask sp sp_updated (S i)
  end.

Definition try_pop_registers (memory : memory_t) (state : list Z) (mask : Z)
    : attempt (list Z) :=
  sp <-? get_reg state R_SP;
  '(state, sp, sp_updated) <-? pop_loop 16 memory state mask sp false 0;
  if negb sp_updated then set_reg state R_SP sp else succeed state.

(** [set_reg(state, R_SP, state->gregs[R_SP] + delta)] *)
Definition add_sp (state : list Z) (delta : Z) : attempt (list Z) :=
  sp <-? get_reg state R_SP; set_reg state R_SP (sp + delta).

(** ** Built-in personality routines *)

(** [!(size--) || !try_next_byte(memory, stream, &op2)] guards every operand:
    the operand, the stream after it and the bytes left. *)
Definition next_operand (memory : memory_t) (state : list Z) (stream : byte_stream)
    (size : nat) : attempt (Z * byte_stream * nat) :=
  match size with
  | O => refuse state
  | S size =>
      '(op2, stream) <-? reading state (try_next_byte memory stream);
      succeed (op2, stream, size)
  end.

(** The [do ... while (op2 & 0x80)] loop of opcode 0xb2.  Shifting a 32-bit
    value by 32 or more is undefined.  The fuel exceeds the bytes left. *)
Fixpoint uleb128_loop (fuel : nat) (memory : memory_t) (state : list Z)
    (stream : byte_stream) (size : nat) (value shift : Z) : attempt (Z * byte_stream * nat) :=
  match fuel with
  | O => Err OutOfFuel
  | S fuel =>
      '(op2, stream, size) <-? next_operand memory state stream size;
      if 32 <=? shift then Err BadShift
      else
        let value := Z.lor value (u32 (Z.shiftl (Z.land op2 0x7f) shift)) in
        if Z.testbit op2 7
        then uleb128_loop fuel memory state stream size value (shift + 7)
        else succeed (value, stream, size)
  end.

Definition popcount (b : Z) : Z :=
  Z.of_nat (length (filter (fun i => Z.testbit b (Z.of_nat i) = true) (seq 0 8))).

(** What an instruction leaves: the registers, the stream, the bytes left,
    [pc_was_set], and whether it was "Finish". *)
Record machine : Type := mkMachine {
  gregs : list Z;
  stream : byte_stream;
  bytes_left : nat;
  pc_was_set : bool;
  finished : bool
}.

(** The instructions of one byte whose effect is on the registers only; the
    order of the tests is that of the [else if] chain. *)
Definition exec_op (memory : memory_t) (m : machine) (op : Z) : attempt machine :=
  let state := gregs m in
  let keep s := succeed (mkMachine s (stream m) (bytes_left m) (pc_was_set m) false) in
  let next k := '(op2, strm, size) <-? next_operand memory state (stream m) (bytes_left m);
                k op2 (fun s set => succeed (mkMachine s strm size set false)) in
  if Z.land op 0xc0 =? 0x00 then
    s <-? add_sp state (Z.shiftl (Z.land op 0x3f) 2 + 4); keep s
  else if Z.land op 0xc0 =? 0x40 then
    s <-? add_sp state (- Z.shiftl (Z.land op 0x3f) 2 - 4); keep s
  else if Z.land op 0xf0 =? 0x80 then
    next (fun op2 k =>
      let mask := Z.lor (Z.shiftl (Z.land op 0x0f) 12) (Z.shiftl op2 4) in
      if negb (mask =? 0) then
        s <-? try_pop_registers memory state mask;
        k s (pc_was_set m || Z.testbit mask (Z.of_nat R_PC))
      else refuse state)
  else if Z.land op 0xf0 =? 0x90 then
    if negb (op =? 0x9d) && negb (op =? 0x9f) then
      v <-? get_reg state (Z.to_nat (Z.land op 0x0f));
      s <-? set_reg state R_SP v; keep s
    else refuse state
  else if Z.land op 0xf8 =? 0xa0 then
    let mask := Z.land (Z.shiftr 0x0ff0 (7 - Z.land op 0x07)) 0x0ff0 in
    s <-? try_pop_registers memory state mask; keep s
  else if Z.land op 0xf8 =? 0xa8 then
    let mask := Z.lor (Z.land (Z.shiftr 0x0ff0 (7 - Z.land op 0x07)) 0x0ff0) 0x4000 in
    s <-? try_pop_registers memory state mask; keep s
  else if op =? 0xb0 then
    succeed (mkMachine state (stream m) (bytes_left m) (pc_was_set m) true)
  else if op =? 0xb1 then
    next (fun op2 k =>
      if negb (op2 =? 0) && (Z.land op2 0xf0 =? 0) then
        s <-? try_pop_registers memory state op2; k s (pc_was_set m)
      else refuse state)
  else if op =? 0xb2 then
    '(value, strm, size) <-?
      uleb128_loop (S (bytes_left m)) memory state (stream m) (bytes_left m) 0 0;
    s <-? add_sp state (Z.shiftl value 2 + 0x204);
    succeed (mkMachine s strm size (pc_was_set m) false)
  else if op =? 0xb3 then
    next (fun op2 k => s <-? add_sp state (Z.land op2 0x0f * 8 + 12); k s (pc_was_set m))
  else if Z.land op 0xf8 =? 0xb8 then
    s <-? add_sp state (Z.land op 0x07 * 8 + 12); keep s
  else if Z.land op 0xf8 =? 0xc0 then
    s <-? add_sp state (Z.land op 0x07 * 8 + 8); keep s
  else if op =? 0xc6 then
    next (fun op2 k => s <-? add_sp state (Z.land op2 0x0f * 8 + 8); k s (pc_was_set m))
  else if op =? 0xc7 then
    next (fun op2 k =>
      if negb (op2 =? 0) && (Z.land op2 0xf0 =? 0) then
        s <-? add_sp state (popcount op2 * 4); k s (pc_was_set m)
      else refuse state)
  else if (op =? 0xc8) || (op =? 0xc9) then
    next (fun op2 k => s <-? add_sp state (Z.land op2 0x0f * 8 + 8); k s (pc_was_set m))
  else if Z.b2z (op =? 0xf8) =? 0xd0 then
    s <-? add_sp state (Z.land op 0x07 * 8 + 8); keep s
  else refuse state.

(** The [while (size--)] loop; the fuel is the number of bytes. *)
Fixpoint exec_loop (fuel : nat) (memory : memory_t) (m : machine) : attempt machine :=
  match bytes_left m with
  | O => succeed m
  | S size =>
      match fuel with
      | O => Err OutOfFuel
      | S fuel =>
          '(op, strm) <-? reading (gregs m) (try_next_byte memory (stream m));
          m <-? exec_op memory (mkMachine (gregs m) strm size (pc_was_set m) false) op;
          if finished m then succeed m else exec_loop fuel memory m
      end
  end.

(** Size in bytes of the instructions. *)
Definition personality_size (memory : memory_t) (state : list Z) (stream : byte_stream)
    (pr_index : Z) : attempt (nat * byte_stream) :=
  if pr_index =? 0 then succeed (3%nat, stream)
  else if (pr_index =? 1) || (pr_index =? 2) then
    '(size_byte, stream) <-? reading state (try_next_byte memory stream);
    succeed (Z.to_nat (size_byte * 4 + 2), stream)
  else refuse state.

Definition execute_personality_routine (memory : memory_t) (state : list Z)
    (stream : byte_stream) (pr_index : Z) : attempt (list Z) :=
  '(size, stream) <-? personality_size memory state stream pr_index;
  m <-? exec_loop size memory (mkMachine state stream size false false);
  if negb (pc_was_set m)
  then lr <-? get_reg (gregs m) R_LR; set_reg (gregs m) R_PC lr
  else succeed (gregs m).

(** ** Frames *)

Record backtrace_frame : Type := mkFrame {
  absolute_pc : Z;
  stack_top : Z;
  stack_size : Z
}.

Record collected : Type := mkCollected {
  backtrace : list backtrace_frame;
  ignored_frames : Z;
  returned_frames : Z
}.

(** The index of the frame added, if one is. *)
Definition add_backtrace_entry (pc : Z) (c : collected) (ignore_depth max_depth : Z)
    : result (collected * option nat) :=
  if ignored_frames c <? ignore_depth then
    Ok (mkCollected (backtrace c) (u32 (ignored_frames c + 1)) (returned_frames c), None)
  else if max_depth <=? returned_frames c then Ok (c, None)
  else
    let i := Z.to_nat (returned_frames c) in
    b ← put (backtrace c) i (mkFrame pc 0 0);
    Ok (mkCollected b (ignored_frames c) (u32 (returned_frames c + 1)), Some i).

Definition try_get_half_word (memory : memory_t) (pc : Z) : option Z :=
  word ← try_get_word memory (Z.land pc (Z.lnot 2));
  Some (if negb (Z.land pc 2 =? 0) then u16 (Z.shiftr word 16) else Z.land word 0xffff).

Definition rewind_pc_arch (memory : memory_t) (pc : Z) : Z :=
  if negb (Z.land pc 1 =? 0) then
    let long :=
      match try_get_half_word memory (u32 (pc - 5)) with
      | Some prev1 =>
          (Z.land prev1 0xf000 =? 0xf000) &&
          match try_get_half_word memory (u32 (pc - 3)) with
          | Some prev2 => Z.land prev2 0xe000 =? 0xe000
          | None => false
          end
      | None => false
      end in
    if long then u32 (pc - 4) else u32 (pc - 2)
  else u32 (pc - 4).

(** [frame->stack_top = value] and [frame->stack_size = value - frame->stack_top] *)
Definition set_stack_top (b : list backtrace_frame) (i : nat) (v : Z)
    : result (list backtrace_frame) :=
  f ← get b i; put b i (mkFrame (absolute_pc f) v (stack_size f)).

Definition set_stack_size (b : list backtrace_frame) (i : nat) (sp : Z)
    : result (list backtrace_frame) :=
  f ← get b i;
  if stack_top f <? sp then put b i (mkFrame (absolute_pc f) (stack_top f) (u32 (sp - stack_top f)))
  else Ok b.

Definition on_frame (frame : option nat) (b : list backtrace_frame)
    (f : list backtrace_frame -> nat -> result (list backtrace_frame))
    : result (list backtrace_frame) :=
  match frame with Some i => f b i | None => Ok b end.

Definition with_backtrace (c : collected) (b : list backtrace_frame) : collected :=
  mkCollected b (ignored_frames c) (returned_frames c).

(** From the handler on: [(gregs, true)] when the unwinding goes on, with the
    stack size of the frame set. *)
Definition run_handler (memory : memory_t) (state : list Z) (c : collected)
    (frame : option nat) (handler : Z) : result (list Z * collected * bool) :=
  first ← try_next_byte memory (mkStream handler None);
  match first with
  | None => Ok (state, c, false)
  | Some (pr, strm) =>
      if negb (Z.land pr 0xf0 =? 0x80) then Ok (state, c, false)
      else
        r ← execute_personality_routine memory state strm (Z.land pr 0x0f);
        match r with
        | inr state => Ok (state, c, false)
        | inl state =>
            sp ← get state R_SP;
            b ← on_frame frame (backtrace c) (fun b i => set_stack_size b i sp);
            pc ← get state R_PC;
            Ok (state, with_backtrace c b, negb (pc =? 0))
        end
  end.

(** One round of the loop: whether it goes on. *)
Definition unwind_round (memory : memory_t) (maps : list map_info) (state : list Z)
    (c : collected) (ignore_depth max_depth index : Z) : result (list Z * collected * bool) :=
  pc ← get state R_PC;
  let pc := if negb (index =? 0) then rewind_pc_arch memory pc else pc in
  '(c, frame) ← add_backtrace_entry pc c ignore_depth max_depth;
  sp ← get state R_SP;
  b ← on_frame frame (backtrace c) (fun b i => set_stack_top b i sp);
  let c := with_backtrace c b in
  handler ← get_exception_handler memory maps pc;
  if handler =? 0 then
    lr ← get state R_LR;
    pc ← get state R_PC;
    if (index =? 0) && negb (lr =? 0) && negb (lr =? pc) then
      state ← put state R_PC lr; Ok (state, c, true)
    else Ok (state, c, false)
  else run_handler memory state c frame handler.

Fixpoint unwind_loop (fuel : nat) (memory : memory_t) (maps : list map_info) (state : list Z)
    (c : collected) (ignore_depth max_depth index : Z) : result (list Z * collected) :=
  if returned_frames c <? max_depth then
    match fuel with
    | O => Err OutOfFuel
    | S fuel =>
        '(state, c, go_on) ← unwind_round memory maps state c ignore_depth max_depth index;
        if (go_on : bool)
        then unwind_loop fuel memory maps state c ignore_depth max_depth (u32 (index + 1))
        else Ok (state, c)
    end
  else Ok (state, c).

(** Every round ignores or returns a frame, so the fuel is enough. *)
Definition unwind_backtrace_common (memory : memory_t) (maps : list map_info) (state : list Z)
    (b : list backtrace_frame) (ignore_depth max_depth : Z) : result (list backtrace_frame * Z) :=
  '(state, c) ← unwind_loop (Z.to_nat (ignore_depth + max_depth)) memory maps state
                  (mkCollected b 0 0) ignore_depth max_depth 0;
  lr ← get state R_LR;
  pc ← get state R_PC;
  c ← (if (returned_frames c <? max_depth) && negb (lr =? 0) && negb (lr =? pc)
          && is_executable_map maps lr
       then '(c, _) ← add_backtrace_entry (rewind_pc_arch memory lr) c ignore_depth max_depth; Ok c
       else Ok c);
  Ok (backtrace c, s32 (returned_frames c)).

(** The entry points: the registers come from the signal context, or from
    [ptrace(PTRACE_GETREGS)] ([None]: it failed). *)
Definition unwind_backtrace_signal_arch (gregs : list Z) (maps : list map_info)
    (b : list backtrace_frame) (ignore_depth max_depth : Z) : result (list backtrace_frame * Z) :=
  unwind_backtrace_common (init_memory maps) maps gregs b ignore_depth max_depth.

Definition unwind_backtrace_ptrace_arch (tid : Z) (uregs : option (list Z))
    (maps : list map_info) (b : list backtrace_frame) (ignore_depth max_depth : Z)
    : result (list backtrace_frame * Z) :=
  match uregs with
  | None => Ok (b, -1)
  | Some gregs =>
      unwind_backtrace_common (init_memory_ptrace tid) maps gregs b ignore_depth max_depth
  end.

(** ** Safety of the unwinder

    An attempt is safe when its results satisfy a predicate and the only fault
    it can reach is the undefined shift of a long uleb128 operand. *)

Definition safe {A} (P : A -> Prop) (m : attempt A) : Prop :=
  match m with
  | Ok (inl a) => P a
  | Ok (inr gregs) => length gregs = 16%nat
  | Err e => e = BadShift
  end.

Lemma safe_bind {A B} (P : A -> Prop) (Q : B -> Prop) (m : attempt A) (k : A -> attempt B) :
  safe P m -> (forall a, P a -> safe Q (k a)) -> safe Q (try_bind m k).
Proof. destruct m as [[a|g]|e]; simpl; auto. Qed.

Definition regs_ok (s : list Z) : Prop := length s = 16%nat.

Lemma get_reg_safe s reg : regs_ok s -> (reg < 16)%nat -> safe (fun _ => True) (get_reg s reg).
Proof.
  intros Hs Hr. unfold get_reg, get.
  destruct (s !! reg) eqn:E; [done|]. apply lookup_ge_None in E. unfold regs_ok in Hs. lia.
Qed.

Lemma set_reg_safe s reg v : regs_ok s -> (reg < 16)%nat -> safe regs_ok (set_reg s reg v).
Proof.
  intros Hs Hr. unfold set_reg, put, regs_ok in *. rewrite decide_True by lia. simpl.
  by rewrite length_insert.
Qed.

Lemma add_sp_safe s d : regs_ok s -> safe regs_ok (add_sp s d).
Proof.
  intros Hs. eapply safe_bind; [apply get_reg_safe; [done|unfold R_SP; lia]|].
  intros v _. apply set_reg_safe; [done|unfold R_SP; lia].
Qed.

Lemma pop_loop_safe n memory s mask sp upd i :
  regs_ok s -> (i + n = 16)%nat ->
  safe (fun r => regs_ok r.1.1) (pop_loop n memory s mask sp upd i).
Proof.
  revert s sp upd i; induction n as [|n IH]; intros s sp upd i Hs Hi; simpl; [done|].
  destruct (Z.testbit mask (Z.of_nat i)); [|apply IH; [done|lia]].
  apply (safe_bind (fun _ => True)); [by destruct (try_get_word memory sp)|].
  intros v _. eapply safe_bind; [apply (set_reg_safe s i v); [done|lia]|].
  intros s' Hs'. apply IH; [done|lia].
Qed.

Lemma try_pop_registers_safe memory s mask :
  regs_ok s -> safe regs_ok (try_pop_registers memory s mask).
Proof.
  intros Hs. eapply safe_bind; [apply get_reg_safe; [done|unfold R_SP; lia]|].
  intros sp _. eapply safe_bind; [by apply pop_loop_safe|].
  intros [[s' sp'] upd] Hs'. destruct upd; simpl; [done|].
  apply set_reg_safe; [done|unfold R_SP; lia].
Qed.

(** The stream holds a word, or is about to load one. *)
Definition stream_ok (st : byte_stream) : Prop :=
  is_Some (word st) \/ Z.land (ptr st) 3 = 0.

Lemma try_next_byte_ok memory st :
  stream_ok st ->
  try_next_byte memory st = Ok None \/
  exists b st', try_next_byte memory st = Ok (Some (b, st')) /\ is_Some (word st').
Proof.
  intros H. unfold try_next_byte.
  assert (Hw : Z.land (ptr st) 3 <> 0 -> exists w, word st = Some w)
    by (intros; destruct H as [H|H]; [exact H|done]).
  assert (Hn : forall w sh, exists b st',
    next_of_word st (Some w) sh = Ok (Some (b, st')) /\ is_Some (word st'))
    by (intros; eexists _, _; by split).
  destruct (decide (Z.land (ptr st) 3 = 0)) as [->|Hne].
  - destruct (try_get_word memory (ptr st)); [right; apply Hn|by left].
  - destruct (Hw Hne) as [w ->]. right.
    destruct (Z.land (ptr st) 3) as [|[[]|[]|]|]; apply Hn || done.
Qed.

Lemma next_byte_safe memory s st :
  regs_ok s -> stream_ok st ->
  safe (fun r => is_Some (word r.2)) (reading s (try_next_byte memory st)).
Proof.
  intros Hs Hst. destruct (try_next_byte_ok memory st Hst) as [->|(b & st' & -> & H)]; done.
Qed.

Lemma next_operand_safe memory s st size :
  regs_ok s -> stream_ok st ->
  safe (fun r => is_Some (word r.1.2) /\ (r.2 < size)%nat) (next_operand memory s st size).
Proof.
  intros Hs Hst. destruct size as [|size]; [done|]. simpl.
  eapply safe_bind; [by apply next_byte_safe|]. intros [b st'] H. split; [done|simpl; lia].
Qed.

Lemma uleb128_loop_safe fuel memory s st size value shift :
  regs_ok s -> stream_ok st -> (size < fuel)%nat ->
  safe (fun r => is_Some (word r.1.2) /\ (r.2 < size)%nat)
    (uleb128_loop fuel memory s st size value shift).
Proof.
  revert st size value shift.
  induction fuel as [|fuel IH]; intros st size value shift Hs Hst Hf; simpl; [lia|].
  eapply safe_bind; [by apply (next_operand_safe memory s st size)|]. intros [[op2 st'] size'] [H1 H2]; simpl in *.
  destruct (32 <=? shift); [done|].
  destruct (Z.testbit op2 7); [|done].
  assert (Hr := IH st' size' (Z.lor value (u32 (Z.shiftl (Z.land op2 127) shift))) (shift + 7)
                  Hs (or_introl H1) ltac:(lia)).
  unfold safe in *. destruct (uleb128_loop _ _ _ _ _ _ _) as [[a|]|]; [|done..].
  destruct Hr as [??]. split; [done|lia].
Qed.

(** The machine between two instructions. *)
Definition machine_ok (bound : nat) (m : machine) : Prop :=
  regs_ok (gregs m) /\ is_Some (word (stream m)) /\ (bytes_left m <= bound)%nat.

Lemma keep_safe m (r : attempt (list Z)) (k : list Z -> machine) :
  safe regs_ok r -> is_Some (word (stream m)) ->
  (forall s, gregs (k s) = s /\ stream (k s) = stream m /\ bytes_left (k s) = bytes_left m) ->
  safe (machine_ok (bytes_left m)) (try_bind r (fun s => succeed (k s))).
Proof.
  intros Hr Hw Hk. eapply safe_bind; [exact Hr|]. intros s Hs. simpl.
  destruct (Hk s) as (H1 & H2 & H3). unfold machine_ok. by rewrite H1, H2, H3.
Qed.

Lemma next_safe memory m (k : Z * byte_stream * nat -> attempt machine) :
  regs_ok (gregs m) -> is_Some (word (stream m)) ->
  (forall op2 st size, is_Some (word st) -> (size < bytes_left m)%nat ->
     safe (machine_ok (bytes_left m)) (k (op2, st, size))) ->
  safe (machine_ok (bytes_left m))
    (try_bind (next_operand memory (gregs m) (stream m) (bytes_left m)) k).
Proof.
  intros Hr Hw Hk. eapply safe_bind; [apply next_operand_safe; [done|by left]|].
  intros [[op2 st] size] [??]. by apply Hk.
Qed.

Lemma low_nibble_lt op : (Z.to_nat (Z.land op 0x0f) < 16)%nat.
Proof.
  change 0x0f with (Z.ones 4). rewrite Z.land_ones by lia.
  pose proof (Z.mod_pos_bound op (2 ^ 4)). lia.
Qed.

Lemma exec_op_safe memory m op :
  regs_ok (gregs m) -> is_Some (word (stream m)) ->
  safe (machine_ok (bytes_left m)) (exec_op memory m op).
Proof.
  intros Hr Hw.
  assert (Hno : forall g, regs_ok g -> safe (machine_ok (bytes_left m)) (refuse g)) by done.
  unfold exec_op.
  repeat (case_match; try (by apply Hno);
    try (apply keep_safe; [auto using add_sp_safe, try_pop_registers_safe|done|done])).
  all: try (apply next_safe; [done|done|]; intros op2 st size Hst Hsz; try case_match;
            try (by apply Hno);
            eapply safe_bind; [auto using add_sp_safe, try_pop_registers_safe|];
            intros s Hs; split_and!; simpl; [done|done|lia]).
  - eapply safe_bind; [apply get_reg_safe; [done|apply low_nibble_lt]|]. intros v _.
    apply keep_safe; [|done|done]. apply set_reg_safe; [done|unfold R_SP; lia].
  - split_and!; simpl; [done|done|lia].
  - eapply safe_bind; [apply uleb128_loop_safe; [done|by left|lia]|].
    intros [[v st] size] [Hst Hsz]. eapply safe_bind; [by apply add_sp_safe|].
    intros s Hs. simpl in *. split_and!; simpl; [done|done|lia].
Qed.

Lemma exec_loop_safe fuel memory m :
  regs_ok (gregs m) -> stream_ok (stream m) -> (bytes_left m <= fuel)%nat ->
  safe (fun m' => regs_ok (gregs m')) (exec_loop fuel memory m).
Proof.
  revert m; induction fuel as [|fuel IH]; intros m Hr Hst Hf.
  - simpl. destruct (bytes_left m) eqn:E; [done|lia].
  - simpl. destruct (bytes_left m) as [|size] eqn:E; [done|].
    eapply safe_bind; [by apply next_byte_safe|]. intros [op st] Hop. simpl in Hop.
    eapply safe_bind; [by apply exec_op_safe|]. intros m' (Hr' & Hw' & Hb'). simpl in Hb'.
    destruct (finished m'); [done|]. apply IH; [done|by left|lia].
Qed.

Lemma execute_personality_routine_safe memory s st pr :
  regs_ok s -> stream_ok st -> safe regs_ok (execute_personality_routine memory s st pr).
Proof.
  intros Hs Hst. unfold execute_personality_routine.
  apply (safe_bind (fun r => stream_ok r.2)).
  - unfold personality_size. case_match; [done|]. case_match; [|done].
    eapply safe_bind; [by apply next_byte_safe|]. intros [b st'] Hb. by left.
  - intros [size st'] Hst'. eapply safe_bind; [by apply exec_loop_safe|].
    intros m Hm. destruct (pc_was_set m); simpl; [done|].
    eapply safe_bind; [apply get_reg_safe; [done|unfold R_LR; lia]|].
    intros lr _. apply set_reg_safe; [done|unfold R_PC; lia].
Qed.

(** ** The exception index search *)

Lemma halves fuel low high :
  0 <= low < high -> high < 2 ^ 31 -> high - low < 2 ^ Z.of_nat (S fuel) ->
  let index := u32 (low + high) / 2 in
  low <= index < high /\ u32 (index + 1) = index + 1 /\
  index - low < 2 ^ Z.of_nat fuel /\ high - (index + 1) < 2 ^ Z.of_nat fuel.
Proof.
  intros ?? Hw. rewrite Nat2Z.inj_succ, Z.pow_succ_r in Hw by lia. cbv zeta.
  rewrite (u32_small (low + high)) by lia.
  pose proof (Z.div_mod (low + high) 2). pose proof (Z.mod_pos_bound (low + high) 2).
  rewrite u32_small by lia. lia.
Qed.

Lemma exidx_search_total fuel memory pc start size low high :
  0 <= low <= high -> high < 2 ^ 31 -> high - low < 2 ^ Z.of_nat fuel ->
  is_ok (exidx_search (S fuel) memory pc start size low high) = true.
Proof.
  revert low high; induction fuel as [|fuel IH]; intros low high H1 H2 H3.
  - simpl. rewrite (proj2 (Z.ltb_ge low high)); [done|]. change (2 ^ Z.of_nat 0) with 1 in H3. lia.
  - cbn [exidx_search]. destruct (Z.ltb_spec low high); [|done]. cbn [negb].
    destruct (halves fuel low high) as (Hi & Hs & Hl & Hr); [lia..|].
    destruct (try_get_word memory _); [|done].
    case_match; [apply IH; lia|]. case_match; [|done].
    destruct (try_get_word memory _) in |- *; [|done].
    case_match; [|done]. rewrite Hs. apply IH; lia.
Qed.

(** Entry [i] of the index at [start]: the address of its function and its handler. *)
Definition word_at (memory : memory_t) (a : Z) : Z := default 0 (try_get_word memory a).

Definition entry_pc (memory : memory_t) (start i : Z) : Z :=
  prel_to_absolute (start + i * 8) (word_at memory (start + i * 8)).

Definition entry_handler (memory : memory_t) (start i : Z) : Z :=
  let a := start + i * 8 + 4 in
  let w := word_at memory a in
  if Z.testbit w 31 then a else if w =? EXIDX_CANTUNWIND then 0 else prel_to_absolute a w.

(** The specification: the last entry whose function starts at or before [pc]. *)
Fixpoint exidx_linear (memory : memory_t) (start pc : Z) (n : nat) : Z :=
  match n with
  | O => 0
  | S i => if entry_pc memory start (Z.of_nat i) <=? pc
           then entry_handler memory start (Z.of_nat i)
           else exidx_linear memory start pc i
  end.

Record exidx_wf (memory : memory_t) (start size : Z) : Prop := {
  wf_fits : 0 < start /\ 0 <= size /\ start + size * 8 <= 2 ^ 32;
  wf_readable : forall i, 0 <= i < size ->
    is_Some (try_get_word memory (start + i * 8)) /\
    is_Some (try_get_word memory (start + i * 8 + 4));
  wf_sorted : forall i j, 0 <= i <= j -> j < size ->
    entry_pc memory start i <= entry_pc memory start j
}.

Lemma exidx_linear_at memory start size pc i n :
  exidx_wf memory start size -> 0 <= i -> Z.of_nat n <= size -> i < Z.of_nat n ->
  entry_pc memory start i <= pc ->
  (i + 1 < Z.of_nat n -> pc < entry_pc memory start (i + 1)) ->
  exidx_linear memory start pc n = entry_handler memory start i.
Proof.
  intros Hwf Hi. induction n as [|n IH]; intros Hn Hin Hle Hgt; [lia|]. simpl.
  destruct (decide (Z.of_nat n = i)) as [E|Hne].
  - rewrite E. by rewrite (proj2 (Z.leb_le _ _) Hle).
  - rewrite (proj2 (Z.leb_gt _ _)).
    + apply IH; [lia|lia|done|]. intros. apply Hgt. lia.
    + eapply Z.lt_le_trans; [apply Hgt; lia|]. apply (wf_sorted _ _ _ Hwf); lia.
Qed.

Lemma exidx_linear_none memory start pc n :
  (forall i, 0 <= i < Z.of_nat n -> pc < entry_pc memory start i) ->
  exidx_linear memory start pc n = 0.
Proof.
  induction n as [|n IH]; intros H; simpl; [done|].
  rewrite (proj2 (Z.leb_gt _ _)); [apply IH; intros; apply H; lia|apply H; lia].
Qed.

(** The range is empty: no function starts at or before [pc]. *)
Lemma exidx_linear_empty memory start size pc low :
  exidx_wf memory start size -> 0 <= low <= size ->
  (0 < low -> low < size /\ entry_pc memory start low <= pc) ->
  (low < size -> pc < entry_pc memory start low) ->
  exidx_linear memory start pc (Z.to_nat size) = 0.
Proof.
  intros Hwf Hl Hlow Hhigh. apply exidx_linear_none. intros i Hi.
  assert (low = 0) by (destruct (decide (low = 0)); [done|]; destruct Hlow; lia). subst.
  eapply Z.lt_le_trans; [apply Hhigh; lia|]. apply (wf_sorted _ _ _ Hwf); lia.
Qed.

Lemma exidx_search_linear fuel memory pc start size low high :
  exidx_wf memory start size -> size < 2 ^ 31 ->
  0 <= low <= high -> high <= size -> high - low < 2 ^ Z.of_nat fuel ->
  (0 < low -> low < size /\ entry_pc memory start low <= pc) ->
  (high < size -> pc < entry_pc memory start high) ->
  exidx_search (S fuel) memory pc start size low high =
  Ok (exidx_linear memory start pc (Z.to_nat size)).
Proof.
  intros Hwf Hsz. destruct (wf_fits _ _ _ Hwf) as (Hs & Hz & Hfit).
  revert low high. induction fuel as [|fuel IH]; intros low high Hlh Hh Hw Hlow Hhigh.
  - simpl. change (2 ^ Z.of_nat 0) with 1 in Hw.
    rewrite (proj2 (Z.ltb_ge low high)) by lia. simpl. f_equal. symmetry.
    assert (low = high) as <- by lia. apply (exidx_linear_empty memory start size pc low); try done; lia.
  - cbn [exidx_search]. destruct (Z.ltb_spec low high) as [Hlt|Hge]; cbn [negb].
    2:{ assert (low = high) as <- by lia. f_equal. symmetry.
        apply (exidx_linear_empty memory start size pc low); try done; lia. }
    destruct (halves fuel low high) as (Hi & Hsi & Hl & Hr); [lia..|].
    set (index := u32 (low + high) / 2) in *. clearbody index.
    assert (Ha : u32 (start + u32 (index * 8)) = start + index * 8)
      by (rewrite !u32_small; rewrite ?u32_small; lia).
    rewrite Hsi, !Ha.
    destruct (wf_readable _ _ _ Hwf index) as [[w Hw1] [wh Hw2]]; [lia|].
    rewrite Hw1.
    assert (Hpc : prel_to_absolute (start + index * 8) w = entry_pc memory start index)
      by (unfold entry_pc, word_at; by rewrite Hw1).
    rewrite Hpc. destruct (Z.ltb_spec pc (entry_pc memory start index)) as [Hp|Hp].
    { apply IH; lia. }
    rewrite (u32_small (start + index * 8 + 4)) by lia. rewrite Hw2.
    assert (Hfound : (index + 1 < size -> pc < entry_pc memory start (index + 1)) ->
      exidx_linear memory start pc (Z.to_nat size) = entry_handler memory start index)
      by (intros; apply (exidx_linear_at memory start size); try done; lia).
    assert (Hh' : (if Z.testbit wh 31 then start + index * 8 + 4
       else if negb (wh =? EXIDX_CANTUNWIND)
            then prel_to_absolute (start + index * 8 + 4) wh else 0) =
       entry_handler memory start index).
    { unfold entry_handler, word_at. rewrite Hw2. simpl. by destruct (wh =? _). }
    rewrite Hh'. destruct (Z.ltb_spec (index + 1) size) as [Hn|Hn].
    + rewrite (u32_small (start + index * 8 + 8)) by lia.
      replace (start + index * 8 + 8) with (start + (index + 1) * 8) by lia.
      destruct (wf_readable _ _ _ Hwf (index + 1)) as [[w' Hw1'] _]; [lia|]. rewrite Hw1'.
      assert (Hpc' : prel_to_absolute (start + (index + 1) * 8) w' =
                     entry_pc memory start (index + 1))
        by (unfold entry_pc, word_at; by rewrite Hw1').
      rewrite Hpc'. destruct (Z.leb_spec (entry_pc memory start (index + 1)) pc) as [Hq|Hq].
      * apply IH; try done; lia.
      * rewrite Hfound by done. done.
    + rewrite Hfound by lia. done.
Qed.

(** ** The unwind loop *)

Definition ends {A} (F : fault -> Prop) (P : A -> Prop) (m : result A) : Prop :=
  match m with Ok a => P a | Err e => F e end.

Lemma ends_bind {A B} F (P : A -> Prop) (Q : B -> Prop) (m : result A) (k : A -> result B) :
  ends F P m -> (forall a, P a -> ends F Q (k a)) -> ends F Q (a ← m; k a).
Proof. destruct m; simpl; auto. Qed.

Section Unwinding.
Context (memory : memory_t) (maps : list map_info).

(** What can go wrong: malformed exception data. *)
Definition malformed (e : fault) : Prop :=
  e = BadShift \/
  e = Uninitialised /\
    exists pc h, get_exception_handler memory maps pc = Ok h /\ Z.land h 3 <> 0.

Lemma get_reg_ends s i : regs_ok s -> (i < 16)%nat -> ends malformed (fun _ => True) (get s i).
Proof.
  intros Hs Hi. unfold get. destruct (s !! i) eqn:E; [done|].
  apply lookup_ge_None in E. unfold regs_ok in Hs. lia.
Qed.

Context (ignore_depth max_depth : Z) (b0 : list backtrace_frame).
Context (Hexidx : forall pc, 0 <= (exidx_of memory maps pc).2 < 2 ^ 31).
Context (Hignore : 0 <= ignore_depth < 2 ^ 32) (Hmax : 0 <= max_depth < 2 ^ 31).
Context (Hroom : max_depth <= Z.of_nat (length b0)).

(** Only the first [returned_frames] entries of the array have changed. *)
Definition frames_ok (c : collected) : Prop :=
  0 <= ignored_frames c <= ignore_depth /\
  0 <= returned_frames c <= max_depth /\
  length (backtrace c) = length b0 /\
  drop (Z.to_nat (returned_frames c)) (backtrace c) = drop (Z.to_nat (returned_frames c)) b0.

Definition progress (c : collected) : Z := ignored_frames c + returned_frames c.

Lemma handler_total pc : exists h, get_exception_handler memory maps pc = Ok h.
Proof.
  unfold get_exception_handler. case_match; [by eauto|].
  pose proof (Hexidx pc) as Hs. destruct (exidx_of memory maps pc) as [start size]. simpl in Hs.
  case_match; [|by eauto].
  pose proof (exidx_search_total 32 memory pc start size 0 size) as Ht.
  unfold exidx_fuel. destruct (exidx_search 33 memory pc start size 0 size); [by eauto|].
  simpl in Ht. discriminate Ht; lia.
Qed.

(** An entry below [returned_frames] may be updated. *)
Lemma on_frame_ok c frame f :
  frames_ok c ->
  (forall i, frame = Some i -> (i < Z.to_nat (returned_frames c))%nat) ->
  (forall b i, (i < length b)%nat -> exists x, f b i = Ok (<[i := x]> b)) ->
  ends malformed (fun b => frames_ok (with_backtrace c b)) (on_frame frame (backtrace c) f).
Proof.
  intros (H1 & H2 & H3 & H4) Hi Hf. destruct frame as [i|]; simpl; [|done].
  specialize (Hi i eq_refl). destruct (Hf (backtrace c) i) as [x ->]; [lia|].
  split_and!; simpl; [lia..|by rewrite length_insert|]. by rewrite drop_insert_lt.
Qed.

Lemma set_stack_top_ok v b i :
  (i < length b)%nat -> exists x, set_stack_top b i v = Ok (<[i := x]> b).
Proof.
  intros H. unfold set_stack_top, get, put. destruct (lookup_lt_is_Some_2 b i H) as [f ->].
  simpl. rewrite decide_True by done. by eexists.
Qed.

Lemma set_stack_size_ok sp b i :
  (i < length b)%nat -> exists x, set_stack_size b i sp = Ok (<[i := x]> b).
Proof.
  intros H. unfold set_stack_size, get, put. destruct (lookup_lt_is_Some_2 b i H) as [f E].
  rewrite E. simpl. case_match; [rewrite decide_True by done; by eexists|].
  exists f. by rewrite list_insert_id.
Qed.

Lemma add_backtrace_entry_ok pc c :
  frames_ok c ->
  ends malformed (fun '(c', frame) => frames_ok c' /\
      (returned_frames c < max_depth -> progress c' = progress c + 1) /\
      (forall i, frame = Some i -> (i < Z.to_nat (returned_frames c'))%nat))
    (add_backtrace_entry pc c ignore_depth max_depth).
Proof.
  intros (H1 & H2 & H3 & H4). unfold add_backtrace_entry, progress.
  destruct (Z.ltb_spec (ignored_frames c) ignore_depth).
  { simpl. rewrite u32_small by lia. unfold frames_ok; simpl. split_and!; try lia; done. }
  destruct (Z.leb_spec max_depth (returned_frames c)); simpl.
  { unfold frames_ok. split_and!; try lia; done. }
  unfold put. rewrite decide_True by lia. simpl. rewrite u32_small by lia.
  unfold frames_ok; simpl. split_and!; try lia.
  - by rewrite length_insert.
  - rewrite drop_insert_lt by lia.
    replace (Z.to_nat (returned_frames c + 1)) with (Z.to_nat (returned_frames c) + 1)%nat by lia.
    by rewrite <-!drop_drop, H4.
  - intros i [= <-]. lia.
Qed.

Lemma run_handler_ok s c frame handler pc :
  regs_ok s -> frames_ok c -> get_exception_handler memory maps pc = Ok handler ->
  (forall i, frame = Some i -> (i < Z.to_nat (returned_frames c))%nat) ->
  ends malformed (fun '(s', c', _) => regs_ok s' /\ frames_ok c' /\ progress c' = progress c)
    (run_handler memory s c frame handler).
Proof.
  intros Hs Hc Hh Hi. unfold run_handler.
  destruct (decide (Z.land handler 3 = 0)) as [Ha|Ha].
  2:{ unfold try_next_byte; simpl.
      destruct (Z.land handler 3) as [|[[]|[]|]|] eqn:E; try done; simpl;
        (right; split; [done|]; exists pc, handler; by rewrite E). }
  destruct (try_next_byte_ok memory (mkStream handler None)) as [->|(b & st & -> & Hst)];
    [by right|done|]. simpl.
  case_match; [done|].
  pose proof (execute_personality_routine_safe memory s st (Z.land b 0x0f) Hs (or_introl Hst)) as He.
  destruct (execute_personality_routine _ _ _ _) as [[s'|s']|e]; simpl in *; [|done|by left].
  eapply ends_bind; [apply get_reg_ends; [done|unfold R_SP; lia]|]. intros sp _.
  eapply ends_bind; [apply (on_frame_ok c frame); [done|done|apply set_stack_size_ok]|].
  intros b' Hb'. eapply ends_bind; [apply get_reg_ends; [done|unfold R_PC; lia]|].
  done.
Qed.

Lemma unwind_round_ok s c index :
  regs_ok s -> frames_ok c -> returned_frames c < max_depth ->
  ends malformed (fun '(s', c', _) => regs_ok s' /\ frames_ok c' /\ progress c' = progress c + 1)
    (unwind_round memory maps s c ignore_depth max_depth index).
Proof.
  intros Hs Hc Hr. unfold unwind_round.
  eapply ends_bind; [apply get_reg_ends; [done|unfold R_PC; lia]|]. intros pc0 _. cbv zeta.
  set (pc := if negb (index =? 0) then _ else _).
  eapply ends_bind; [by apply add_backtrace_entry_ok|]. intros [c1 frame] (Hc1 & Hp & Hi).
  eapply ends_bind; [apply get_reg_ends; [done|unfold R_SP; lia]|]. intros sp _.
  eapply ends_bind; [apply (on_frame_ok c1 frame); [done|done|apply set_stack_top_ok]|].
  intros b Hb.
  assert (Hp' : progress (with_backtrace c1 b) = progress c + 1) by exact (Hp Hr).
  destruct (handler_total pc) as [h Hh]. rewrite Hh. cbn [mbind result_bind].
  destruct (h =? 0).
  - eapply ends_bind; [apply get_reg_ends; [done|unfold R_LR; lia]|]. intros lr _.
    eapply ends_bind; [apply get_reg_ends; [done|unfold R_PC; lia]|]. intros pc' _.
    case_match; [|by auto]. unfold put. unfold regs_ok in *.
    rewrite decide_True by (unfold R_PC; lia). simpl. rewrite length_insert. by auto.
  - pose proof (run_handler_ok s (with_backtrace c1 b) frame h pc Hs Hb Hh Hi) as Hrun.
    destruct (run_handler _ _ _ _ _) as [[[s' c'] go]|]; simpl in *; [|done].
    destruct Hrun as (? & ? & Hpr). split_and!; [done|done|by rewrite Hpr].
Qed.

Lemma unwind_loop_ok fuel s c index :
  regs_ok s -> frames_ok c -> ignore_depth + max_depth - progress c <= Z.of_nat fuel ->
  ends malformed (fun '(s', c') => regs_ok s' /\ frames_ok c')
    (unwind_loop fuel memory maps s c ignore_depth max_depth index).
Proof.
  revert s c index; induction fuel as [|fuel IH]; intros s c index Hs Hc Hf; simpl.
  - destruct (Z.ltb_spec (returned_frames c) max_depth); [|done].
    destruct Hc as (? & ? & _). unfold progress in Hf. lia.
  - destruct (Z.ltb_spec (returned_frames c) max_depth); [|done].
    eapply ends_bind; [by apply unwind_round_ok|]. intros [[s' c'] go] (Hs' & Hc' & Hp).
    destruct go; [|done]. apply IH; [done|done|lia].
Qed.

End Unwinding.

(** ** Popping registers *)

(** The registers of [mask] from register [i] on, in ascending order. *)
Fixpoint regs_from (n : nat) (mask : Z) (i : nat) : list nat :=
  match n with
  | O => []
  | S n => if Z.testbit mask (Z.of_nat i) then i :: regs_from n mask (S i)
           else regs_from n mask (S i)
  end.

(** The registers [rs] hold successive words from [sp]; the others are kept. *)
Definition loaded (memory : memory_t) (rs : list nat) (sp : Z) (s s' : list Z) : Prop :=
  (forall k r, rs !! k = Some r -> s' !! r = Some (word_at memory (sp + 4 * Z.of_nat k))) /\
  (forall r, r ∉ rs -> s' !! r = s !! r).

Definition stack_readable (memory : memory_t) (sp : Z) (n : nat) : Prop :=
  0 <= sp /\ sp + 4 * Z.of_nat n < 2 ^ 32 /\
  forall k, (k < n)%nat -> is_Some (try_get_word memory (sp + 4 * Z.of_nat k)).

Lemma word_at_u32 memory a v : try_get_word memory a = Some v -> u32 v = v.
Proof.
  unfold try_get_word. intros H.
  assert (exists x, v = u32 x) as [x ->].
  { repeat case_match; simplify_eq; by eexists. }
  apply u32_small, u32_range.
Qed.

Lemma regs_from_ge n mask i r : r ∈ regs_from n mask i -> (i <= r < i + n)%nat.
Proof.
  revert i; induction n as [|n IH]; intros i; simpl; [by intros ?%elem_of_nil|].
  case_match; [intros [->|Hin]%elem_of_cons; [lia|]|intros Hin];
    apply IH in Hin; lia.
Qed.

Lemma pop_loop_loads n memory s mask sp upd i :
  regs_ok s -> (i + n = 16)%nat -> stack_readable memory sp (length (regs_from n mask i)) ->
  exists s', pop_loop n memory s mask sp upd i =
      succeed (s', sp + 4 * Z.of_nat (length (regs_from n mask i)),
               upd || bool_decide (R_SP ∈ regs_from n mask i)) /\
    regs_ok s' /\ loaded memory (regs_from n mask i) sp s s'.
Proof.
  revert s sp upd i; induction n as [|n IH]; intros s sp upd i Hs Hi (H0 & H1 & Hr); simpl in *.
  { exists s. rewrite Z.mul_0_r, Z.add_0_r, orb_false_r. split_and!; [done|done|by split]. }
  destruct (Z.testbit mask (Z.of_nat i)) eqn:Hb; [|apply IH; [done|lia|by split_and!]].
  cbn [length] in *. destruct (Hr 0%nat) as [v Hv]; [lia|].
  rewrite Z.mul_0_r, Z.add_0_r in Hv. rewrite Hv. cbn [reading try_bind succeed].
  unfold set_reg, put. rewrite decide_True by (unfold regs_ok in Hs; lia).
  cbn [lift try_bind succeed]. rewrite (u32_small (sp + 4)) by lia.
  rewrite (word_at_u32 memory sp v Hv).
  destruct (IH (<[i := v]> s) (sp + 4) (upd || (i =? R_SP)%nat) (S i)) as (s' & -> & Hs' & Hl & Hk).
  { unfold regs_ok. by rewrite length_insert. }
  { lia. }
  { split_and!; [lia|lia|]. intros k Hkn. destruct (Hr (S k)) as [w Hw]; [lia|]. exists w.
    rewrite <-Hw. f_equal. lia. }
  assert (Hni : i ∉ regs_from n mask (S i)) by (intros H%regs_from_ge; lia).
  assert (Hupd : upd || (i =? R_SP)%nat || bool_decide (R_SP ∈ regs_from n mask (S i)) =
                 upd || bool_decide (R_SP ∈ i :: regs_from n mask (S i))).
  { rewrite <-orb_assoc. f_equal. destruct (Nat.eqb_spec i R_SP) as [->|Hne]; cbn [orb].
    - symmetry. apply bool_decide_eq_true. by left.
    - apply bool_decide_ext. rewrite elem_of_cons. naive_solver. }
  exists s'. split_and!; [|done|split].
  - rewrite Hupd. replace (sp + 4 * Z.of_nat (S _)) with
      (sp + 4 + 4 * Z.of_nat (length (regs_from n mask (S i)))) by lia. done.
  - intros [|k] r; simpl.
    + intros [= <-]. rewrite (Hk i) by done. rewrite list_lookup_insert_eq by (unfold regs_ok in Hs; lia).
      unfold word_at. by rewrite Z.mul_0_r, Z.add_0_r, Hv.
    + intros H. rewrite (Hl k r H). f_equal. f_equal. lia.
  - intros r [Hne Hnr]%not_elem_of_cons. rewrite (Hk r Hnr). by rewrite list_lookup_insert_ne.
Qed.

Lemma try_pop_registers_loads memory s mask sp :
  regs_ok s -> s !! R_SP = Some sp ->
  let rs := regs_from 16 mask 0 in
  stack_readable memory sp (length rs) -> R_SP ∉ rs ->
  exists s', try_pop_registers memory s mask = succeed s' /\ regs_ok s' /\
    s' !! R_SP = Some (sp + 4 * Z.of_nat (length rs)) /\
    (forall k r, rs !! k = Some r -> s' !! r = Some (word_at memory (sp + 4 * Z.of_nat k))) /\
    (forall r, r ∉ rs -> r <> R_SP -> s' !! r = s !! r).
Proof.
  intros Hs Hsp rs Hst Hn. unfold try_pop_registers, get_reg, get. rewrite Hsp.
  cbn [from_option_or lift try_bind succeed].
  destruct (pop_loop_loads 16 memory s mask sp false 0 Hs eq_refl Hst)
    as (s' & -> & Hs' & Hl & Hk). fold rs.
  cbn [try_bind succeed orb]. rewrite bool_decide_false by done. cbn [negb].
  assert (Hlt : (R_SP < length s')%nat) by (unfold regs_ok, R_SP in *; lia).
  unfold set_reg, put. rewrite decide_True by done. cbn [lift succeed].
  destruct Hst as (? & ? & _). rewrite u32_small by (fold rs; lia).
  eexists. split_and!; [done| | | |].
  - unfold regs_ok. by rewrite length_insert.
  - by rewrite list_lookup_insert_eq.
  - intros k r HX. rewrite list_lookup_insert_ne by (intros <-; apply Hn; by eapply list_elem_of_lookup_2).
    by apply Hl.
  - intros r Hr Hne. rewrite list_lookup_insert_ne by done. by apply Hk.
Qed.

(** ** The four bytes of a word *)

Lemma land3 a : Z.land a 3 = a mod 4.
Proof. change 3 with (Z.ones 2). rewrite Z.land_ones by lia. done. Qed.

Definition aligned (h : Z) : Prop := 0 <= h /\ h mod 4 = 0 /\ h + 4 < 2 ^ 32.

Lemma next_byte_first memory h w0 w :
  aligned h -> try_get_word memory h = Some w ->
  try_next_byte memory (mkStream h w0) =
    Ok (Some (u8 (Z.shiftr w 24), mkStream (h + 1) (Some w))).
Proof.
  intros (? & Ha & ?) Hw. unfold try_next_byte. simpl. rewrite land3, Ha, Hw.
  unfold next_of_word; simpl. by rewrite u32_small by lia.
Qed.

Lemma next_byte_rest memory h w k :
  aligned h -> 1 <= k <= 3 ->
  try_next_byte memory (mkStream (h + k) (Some w)) =
    Ok (Some (u8 (Z.shiftr w (24 - 8 * k)), mkStream (h + (k + 1)) (Some w))).
Proof.
  intros (? & Ha & ?) Hk. unfold try_next_byte, next_of_word. simpl.
  rewrite u32_small by lia. rewrite land3.
  assert (E : (h + k) mod 4 = k)
    by (rewrite <-Zplus_mod_idemp_l, Ha; apply Z.mod_small; lia).
  rewrite E, Z.add_assoc.
  assert (k = 1 \/ k = 2 \/ k = 3) as [->|[->| ->]] by lia; reflexivity.
Qed.

(** The instruction "pop {r4-r[4+n], lr}", and its registers. *)
Lemma pop_r4_lr_mask n :
  (n < 8)%nat ->
  let op := 0xa8 + Z.of_nat n in
  (forall memory m, exec_op memory m op =
     try_bind (try_pop_registers memory (gregs m)
                 (Z.lor (Z.land (Z.shiftr 0x0ff0 (7 - Z.of_nat n)) 0x0ff0) 0x4000))
       (fun s => succeed (mkMachine s (stream m) (bytes_left m) (pc_was_set m) false))) /\
  regs_from 16 (Z.lor (Z.land (Z.shiftr 0x0ff0 (7 - Z.of_nat n)) 0x0ff0) 0x4000) 0 =
    seq 4 (S n) ++ [R_LR].
Proof. intros Hn. do 8 (destruct n as [|n]; [split; reflexivity|]). lia. Qed.

(** One word of inline instructions: personality routine 0, an instruction, two "Finish". *)
Definition inline_word (op : Z) : Z := 0x8000b0b0 + op * 2 ^ 16.

Lemma exec_op_finish memory m :
  exec_op memory m 0xb0 =
  succeed (mkMachine (gregs m) (stream m) (bytes_left m) (pc_was_set m) true).
Proof. reflexivity. Qed.

(** A handler made of one such word runs the instruction, then pc := lr. *)
Lemma inline_handler memory s h op s' lr :
  aligned h -> 0 <= op < 256 -> try_get_word memory h = Some (inline_word op) ->
  (forall m, exec_op memory m op =
     try_bind (try_pop_registers memory (gregs m)
                 (Z.lor (Z.land (Z.shiftr 0x0ff0 (7 - (op - 0xa8))) 0x0ff0) 0x4000))
       (fun s => succeed (mkMachine s (stream m) (bytes_left m) (pc_was_set m) false))) ->
  try_pop_registers memory s
    (Z.lor (Z.land (Z.shiftr 0x0ff0 (7 - (op - 0xa8))) 0x0ff0) 0x4000) = succeed s' ->
  regs_ok s' -> s' !! R_LR = Some lr -> u32 lr = lr ->
  exists st, try_next_byte memory (mkStream h None) = Ok (Some (0x80, st)) /\
    execute_personality_routine memory s st 0 = succeed (<[R_PC := lr]> s').
Proof.
  intros Ha Hop Hw Hex Hpop Hs' Hlr Hu.
  assert (Hb : forall j, 0 <= j <= 24 -> u8 (Z.shiftr (inline_word op) j) =
      (inline_word op / 2 ^ j) mod 256)
    by (intros; unfold u8; by rewrite Z.shiftr_div_pow2 by lia).
  assert (E0 : u8 (Z.shiftr (inline_word op) 24) = 0x80)
    by (rewrite Hb by lia; unfold inline_word; Z.div_mod_to_equations; lia).
  assert (E1 : u8 (Z.shiftr (inline_word op) 16) = op)
    by (rewrite Hb by lia; unfold inline_word; Z.div_mod_to_equations; lia).
  assert (E2 : u8 (Z.shiftr (inline_word op) 8) = 0xb0)
    by (rewrite Hb by lia; unfold inline_word; Z.div_mod_to_equations; lia).
  rewrite (next_byte_first memory h None _ Ha Hw), E0. eexists. split; [done|].
  unfold execute_personality_routine, personality_size. cbn [Z.eqb try_bind succeed].
  cbn [exec_loop bytes_left stream gregs pc_was_set].
  rewrite (next_byte_rest memory h _ 1 Ha) by lia.
  change (24 - 8 * 1) with 16. rewrite E1. cbn [reading try_bind succeed].
  rewrite Hex. cbn [gregs bytes_left stream pc_was_set]. rewrite Hpop.
  cbn [try_bind succeed gregs bytes_left stream pc_was_set finished].
  change (1 + 1) with 2. rewrite (next_byte_rest memory h _ 2 Ha) by lia.
  change (24 - 8 * 2) with 8. rewrite E2. cbn [reading try_bind succeed].
  rewrite exec_op_finish. cbn [try_bind succeed gregs pc_was_set finished negb].
  unfold get_reg, get. rewrite Hlr. cbn [from_option_or lift try_bind succeed].
  unfold set_reg, put. rewrite decide_True by (unfold regs_ok, R_PC in *; lia).
  by rewrite Hu.
Qed.

(** ** Properties *)

(** C38 Unwinding is safe whatever the memory, the maps, the registers and the
    exception tables hold: the loop ends, the array of frames is written below
    [max_depth] only, entries past the number returned are untouched, and the
    two faults left come from malformed tables: a uleb128 operand of more than
    five bytes (an undefined shift) and a handler whose address is not a
    multiple of four (the byte stream reads a word it never loaded). *)
Theorem unwind_backtrace_safe memory maps state b ignore_depth max_depth :
  (forall pc, 0 <= (exidx_of memory maps pc).2 < 2 ^ 31) ->
  0 <= ignore_depth < 2 ^ 32 -> 0 <= max_depth < 2 ^ 31 -> max_depth <= Z.of_nat (length b) ->
  length state = 16%nat ->
  match unwind_backtrace_common memory maps state b ignore_depth max_depth with
  | Ok (b', n) => 0 <= n <= max_depth /\ length b' = length b /\
                  drop (Z.to_nat n) b' = drop (Z.to_nat n) b
  | Err e => malformed memory maps e
  end.
Proof.
  intros Hx Hig Hmx Hroom Hs. unfold unwind_backtrace_common.
  assert (Hc0 : frames_ok ignore_depth max_depth b (mkCollected b 0 0))
    by (unfold frames_ok; simpl; split_and!; lia || done).
  change (match ?m with Ok _ => _ | Err e => _ end) with
    (ends (malformed memory maps) (fun '(b', n) => 0 <= n <= max_depth /\
       length b' = length b /\ drop (Z.to_nat n) b' = drop (Z.to_nat n) b) m).
  eapply ends_bind.
  { apply (unwind_loop_ok memory maps ignore_depth max_depth b Hx Hig Hmx Hroom); [done|done|].
    unfold progress; simpl. lia. }
  intros [s c] (Hs' & Hc).
  eapply ends_bind; [apply get_reg_ends; [done|unfold R_LR; lia]|]. intros lr _.
  eapply ends_bind; [apply get_reg_ends; [done|unfold R_PC; lia]|]. intros pc _.
  apply (ends_bind _ (frames_ok ignore_depth max_depth b)).
  - case_match; [|done].
    eapply ends_bind;
      [apply (add_backtrace_entry_ok memory maps _ _ b Hig Hmx Hroom); exact Hc|].
    by intros [c' frame] (? & _).
  - intros c' (? & ? & ? & ?). simpl. rewrite s32_small by lia. split_and!; try done; lia.
Qed.

(** The binary search of the exception index, on a sorted and readable
    index, finds what a linear scan finds: the handler of the last function
    that starts at or before the pc (in line or out of line), and no handler
    when there is no such function or it cannot be unwound. *)
Theorem get_exception_handler_finds memory maps pc start size :
  pc <> 0 -> exidx_of memory maps pc = (start, size) -> size < 2 ^ 31 ->
  exidx_wf memory start size ->
  get_exception_handler memory maps pc = Ok (exidx_linear memory start pc (Z.to_nat size)).
Proof.
  intros Hpc Hof Hsz Hwf. unfold get_exception_handler.
  rewrite (proj2 (Z.eqb_neq pc 0)), Hof by done.
  destruct (wf_fits _ _ _ Hwf) as (? & ? & ?).
  rewrite (proj2 (Z.eqb_neq start 0)) by lia. cbn [negb].
  apply (exidx_search_linear 32); try done; lia.
Qed.

(** A function that pushed r4-r[4+n] and lr, described by the
    instruction for that, is unwound exactly: the saved registers are
    restored, sp is what it was before the push, pc and lr are the saved lr,
    and no other register changes. *)
Theorem unwinds_pushed_registers memory s c h sp n :
  (n < 8)%nat -> length s = 16%nat -> s !! R_SP = Some sp ->
  stack_readable memory sp (n + 2) ->
  aligned h -> try_get_word memory h = Some (inline_word (0xa8 + Z.of_nat n)) ->
  exists s' lr, lr = word_at memory (sp + 4 * Z.of_nat (S n)) /\
    run_handler memory s c None h = Ok (s', c, negb (lr =? 0)) /\
    s' !! R_PC = Some lr /\ s' !! R_LR = Some lr /\
    s' !! R_SP = Some (sp + 4 * Z.of_nat (n + 2)) /\
    (forall k, (k <= n)%nat -> s' !! (4 + k)%nat = Some (word_at memory (sp + 4 * Z.of_nat k))) /\
    (forall r, (r < 4 \/ 4 + n < r < 13)%nat -> s' !! r = s !! r).
Proof.
  intros Hn Hs Hsp Hst Ha Hw.
  destruct (pop_r4_lr_mask n Hn) as [Hex Hregs].
  set (mask := Z.lor _ _) in *.
  assert (Hlen : length (regs_from 16 mask 0) = (n + 2)%nat)
    by (rewrite Hregs, length_app, length_seq; simpl; lia).
  assert (Hin : forall r, r ∈ regs_from 16 mask 0 <-> (4 <= r <= 4 + n \/ r = 14)%nat)
    by (intros; rewrite Hregs, elem_of_app, elem_of_seq, list_elem_of_singleton; unfold R_LR; lia).
  destruct (try_pop_registers_loads memory s mask sp Hs Hsp)
    as (s' & Hpop & Hs' & Hsp' & Hl & Hk); [by rewrite Hlen|rewrite Hin; unfold R_SP; lia|].
  assert (Hlr : s' !! R_LR = Some (word_at memory (sp + 4 * Z.of_nat (S n)))).
  { apply Hl. rewrite Hregs, lookup_app_r by (rewrite length_seq; lia).
    by rewrite length_seq, Nat.sub_diag. }
  assert (Hu : u32 (word_at memory (sp + 4 * Z.of_nat (S n))) =
               word_at memory (sp + 4 * Z.of_nat (S n))).
  { unfold word_at. destruct Hst as (_ & _ & Hst). destruct (Hst (S n)) as [v Hv]; [lia|].
    rewrite Hv. by apply word_at_u32 in Hv. }
  destruct (inline_handler memory s h (0xa8 + Z.of_nat n) s'
              (word_at memory (sp + 4 * Z.of_nat (S n))) Ha) as (st & Hf & Hrun);
    try done; try lia.
  { intros m. replace (0xa8 + Z.of_nat n - 0xa8) with (Z.of_nat n) by lia. apply Hex. }
  { by replace (0xa8 + Z.of_nat n - 0xa8) with (Z.of_nat n) by lia. }
  exists (<[R_PC := word_at memory (sp + 4 * Z.of_nat (S n))]> s'),
    (word_at memory (sp + 4 * Z.of_nat (S n))).
  split; [done|]. unfold run_handler. rewrite Hf. cbn [mbind result_bind].
  change (Z.land 0x80 0xf0 =? 0x80) with true. change (Z.land 0x80 0x0f) with 0.
  cbn [negb]. rewrite Hrun. cbn [mbind result_bind succeed].
  assert (Hlt : (R_PC < length s')%nat) by (unfold regs_ok, R_PC in *; lia).
  assert (Hother : forall r, r <> R_PC ->
    <[R_PC := word_at memory (sp + 4 * Z.of_nat (S n))]> s' !! r = s' !! r)
    by (intros; by rewrite list_lookup_insert_ne).
  unfold get. rewrite (Hother R_SP), Hsp' by done. cbn [from_option_or mbind result_bind on_frame].
  rewrite list_lookup_insert_eq by done. cbn [from_option_or mbind result_bind].
  split_and!.
  - by destruct c.
  - done.
  - by rewrite Hother.
  - by rewrite Hlen.
  - intros k Hkn. rewrite Hother by (unfold R_PC; lia). apply Hl.
    rewrite Hregs, lookup_app_l by (rewrite length_seq; lia). apply lookup_seq. lia.
  - intros r Hr. rewrite Hother by (unfold R_PC; lia). apply Hk; [rewrite Hin; lia|unfold R_SP; lia].
Qed.

(** The instructions 0xd0-0xd7 (pop VFP registers D8-D[8+n]) are never
    executed: the unwinder refuses them like the spare opcodes, because the
    condition compares a truth value with 0xd0.  The two-byte instructions
    0xc6 and 0xc7 are taken for the one-byte form of 0xc0-0xc5, and their
    operand stays in the stream as the next instruction. *)
Theorem vfp_and_wmmx_opcodes memory m op :
  (0xd0 <= op <= 0xd7 -> exec_op memory m op = refuse (gregs m)) /\
  (op = 0xc6 \/ op = 0xc7 ->
   exec_op memory m op =
     try_bind (add_sp (gregs m) (Z.land op 0x07 * 8 + 8))
       (fun s => succeed (mkMachine s (stream m) (bytes_left m) (pc_was_set m) false))).
Proof.
  split.
  - intros H. assert (op = 0xd0 \/ op = 0xd1 \/ op = 0xd2 \/ op = 0xd3 \/ op = 0xd4 \/
      op = 0xd5 \/ op = 0xd6 \/ op = 0xd7) as Ho by lia.
    by destruct Ho as [->|[->|[->|[->|[->|[->|[->| ->]]]]]]].
  - by intros [->| ->].
Qed.

End Corkscrew.

(** ** Witnesses: a process with code at 0x1000, an index of two functions at
    0x2000 (pop {r4, r5, lr}; no unwinding), a stack at 0x8000 *)

Definition demo_load (a : Z) : Z :=
  if a =? 0x2000 then 0x7ffff000        (* function at 0x1000 *)
  else if a =? 0x2004 then 0x80a9b0b0   (* inline: pop {r4, r5, lr}; finish *)
  else if a =? 0x2008 then 0x7ffff0f8   (* function at 0x1100 *)
  else if a =? 0x200c then 1            (* EXIDX_CANTUNWIND *)
  else if a =? 0x8000 then 44
  else if a =? 0x8004 then 55
  else if a =? 0x8008 then 0x1104
  else 0.

Definition demo_maps : list map_info :=
  [mkMap 0x1000 0x2000 true true None []; mkMap 0x2000 0x3000 true false None [];
   mkMap 0x8000 0x9000 true false None []].

Definition demo_peek (tid a : Z) : Z * Z := (0, 0).
Definition demo_exidx (pc : Z) : Z * Z := (0x2000, 2).
Definition demo_regs : list Z := [0; 1; 2; 3; 4; 5; 6; 7; 8; 9; 10; 11; 12; 0x8000; 0x1104; 0x1010].
Definition demo_frames : list backtrace_frame := replicate 4 (mkFrame 0 0 0).

Example demo_unwind :
  unwind_backtrace_common demo_load demo_peek demo_exidx (init_memory demo_maps) demo_maps
    demo_regs demo_frames 0 4 =
  Ok ([mkFrame 0x1010 0x8000 12; mkFrame 0x1100 0x800c 0; mkFrame 0 0 0; mkFrame 0 0 0], 2).
Proof. vm_compute. reflexivity. Qed.

Lemma unwind_backtrace_safe_witness :
  match unwind_backtrace_common demo_load demo_peek demo_exidx (init_memory demo_maps) demo_maps
          demo_regs demo_frames 1 4 with
  | Ok (b', n) => 0 <= n <= 4 /\ length b' = length demo_frames /\
                  drop (Z.to_nat n) b' = drop (Z.to_nat n) demo_frames
  | Err e => malformed demo_load demo_peek demo_exidx (init_memory demo_maps) demo_maps e
  end.
Proof.
  apply (unwind_backtrace_safe demo_load demo_peek demo_exidx (init_memory demo_maps) demo_maps
           demo_regs demo_frames 1 4); [|lia|lia|simpl; lia|reflexivity].
  intros pc. simpl. lia.
Defined.

Lemma demo_exidx_wf :
  exidx_wf demo_load demo_peek (init_memory demo_maps) 0x2000 2.
Proof.
  split.
  - lia.
  - intros i Hi. assert (i = 0 \/ i = 1) as [->| ->] by lia; split; eexists; reflexivity.
  - intros i j Hi Hj. assert (j = 0 \/ j = 1) as [->| ->] by lia;
      assert (i = 0 \/ i = 1) as [->| ->] by lia; vm_compute; try discriminate; lia.
Qed.

Lemma get_exception_handler_finds_witness :
  get_exception_handler demo_load demo_peek demo_exidx (init_memory demo_maps) demo_maps 0x1010 =
    Ok (exidx_linear demo_load demo_peek (init_memory demo_maps) 0x2000 0x1010 2) /\
  exidx_linear demo_load demo_peek (init_memory demo_maps) 0x2000 0x1010 2 = 0x2004.
Proof.
  split; [|vm_compute; reflexivity].
  apply (get_exception_handler_finds demo_load demo_peek demo_exidx (init_memory demo_maps)
           demo_maps 0x1010 0x2000 2); [lia|reflexivity|lia|apply demo_exidx_wf].
Defined.

Lemma unwinds_pushed_registers_witness :
  exists s' lr, lr = 0x1104 /\
    run_handler demo_load demo_peek (init_memory demo_maps) demo_regs
      (mkCollected demo_frames 0 0) None 0x2004 = Ok (s', mkCollected demo_frames 0 0, true) /\
    s' !! R_PC = Some lr /\ s' !! R_SP = Some 0x800c.
Proof.
  destruct (unwinds_pushed_registers demo_load demo_peek demo_exidx (init_memory demo_maps) demo_regs
      (mkCollected demo_frames 0 0) 0x2004 0x8000 1) as (s' & lr & Hlr & Hrun & Hpc & _ & Hsp & _).
  - lia.
  - reflexivity.
  - reflexivity.
  - split; [lia|]. split; [lia|]. intros k Hk.
    assert (k = 0 \/ k = 1 \/ k = 2)%nat as [->|[->| ->]] by lia; eexists; reflexivity.
  - split; [lia|]. split; [reflexivity|lia].
  - reflexivity.
  - exists s', lr. subst lr. split; [reflexivity|]. split; [exact Hrun|]. split; [exact Hpc|exact Hsp].
Defined.
