(* ===== verification/CorkscrewSync.v ===== *)
(** * libcorkscrew: the shared map list and the dump of another thread

    Models the reference-counted cache of [src/libs/libcorkscrew/map_info.c]
    ([acquire_my_map_info_list], [release_my_map_info_list], [dec_ref]) and
    the two thread protocols of [backtrace.c]: [unwind_backtrace] on the
    current thread, and [unwind_backtrace_thread], where the requester and the
    signal handlers of other threads synchronise through [tid_state].  The
    atomic operations are sequentially consistent in the model, and the code
    between two of them is one step. *)
From S2P Require Import Prelude.
From S2P Require Import Corkscrew.
Local Open Scope Z_scope.

(** ** The cache of the map list *)

Module MapCache.

(** [my_map_info_data_t] *)
Record data : Type := mkData { refs : Z; timestamp : Z }.

(** The lists that are allocated, by address, and [g_my_map_info_list]. *)
Record cache : Type := mkCache {
  lists : gmap nat data;
  g_my_map_info_list : option nat
}.

Definition MAX_CACHE_AGE : Z := 5 * 1000 * 1000000.

Definition the_data (c : cache) (milist : nat) : result data :=
  from_option_or UseAfterFree (lists c !! milist).

Definition set_data (c : cache) (milist : nat) (d : data) : cache :=
  mkCache (<[milist := d]> (lists c)) (g_my_map_info_list c).

(** [dec_ref]: the list and its data are freed with the last reference. *)
Definition dec_ref (c : cache) (milist : nat) : result cache :=
  d ← the_data c milist;
  let r := u32 (refs d - 1) in
  if r =? 0
  then Ok (mkCache (delete milist (lists c)) (g_my_map_info_list c))
  else Ok (set_data c milist (mkData r (timestamp d))).

(** Lines 146-156: a stale list is dropped. *)
Definition invalidate (c : cache) (time : Z) : result cache :=
  match g_my_map_info_list c with
  | None => Ok c
  | Some milist =>
      d ← the_data c milist;
      if MAX_CACHE_AGE <=? time - timestamp d then
        c ← dec_ref c milist; Ok (mkCache (lists c) None)
      else Ok c
  end.

(** Lines 158-169.  [loaded]: the address of the list read from /proc, if any;
    [malloc_ok]: whether its data could be allocated. *)
Definition reload (c : cache) (time : Z) (malloc_ok : bool) (loaded : option nat)
    : result cache :=
  match g_my_map_info_list c with
  | Some _ => Ok c
  | None =>
      match loaded with
      | None => Ok c
      | Some milist =>
          if malloc_ok then Ok (mkCache (<[milist := mkData 1 time]> (lists c)) (Some milist))
          else Err NullDeref
      end
  end.

Definition acquire_my_map_info_list (c : cache) (time : Z) (malloc_ok : bool)
    (loaded : option nat) : result (cache * option nat) :=
  c ← invalidate c time;
  c ← reload c time malloc_ok loaded;
  match g_my_map_info_list c with
  | None => Ok (c, None)
  | Some milist =>
      d ← the_data c milist;
      Ok (set_data c milist (mkData (u32 (refs d + 1)) (timestamp d)), Some milist)
  end.

Definition release_my_map_info_list (c : cache) (milist : option nat) : result cache :=
  match milist with None => Ok c | Some milist => dec_ref c milist end.

Fixpoint remove_one (x : nat) (l : list nat) : list nat :=
  match l with
  | [] => []
  | y :: l => if decide (x = y) then l else y :: remove_one x l
  end.

(** The calls of all threads, in the order in which they hold the mutex. *)
Inductive call : Type :=
  | Acquire (time : Z) (loaded : option nat)
  | Release (milist : nat).

(** The cache, and the references handed out and not yet given back. *)
Definition run_call (st : cache * list nat) (k : call) : result (cache * list nat) :=
  let '(c, held) := st in
  match k with
  | Acquire time loaded =>
      '(c, milist) ← acquire_my_map_info_list c time true loaded;
      Ok (c, match milist with Some m => m :: held | None => held end)
  | Release milist =>
      c ← release_my_map_info_list c (Some milist);
      Ok (c, remove_one milist held)
  end.

(** What the callers owe: a list is released by a holder, and the loader
    returns memory that is not in use. *)
Definition allowed (st : cache * list nat) (k : call) : Prop :=
  Z.of_nat (length st.2) < 2 ^ 32 - 2 /\
  match k with
  | Acquire _ (Some m) => lists st.1 !! m = None
  | Acquire _ None => True
  | Release m => m ∈ st.2
  end.

Fixpoint allowed_calls (st : cache * list nat) (ks : list call) : Prop :=
  match ks with
  | [] => True
  | k :: ks => allowed st k /\
      match run_call st k with Ok st => allowed_calls st ks | Err _ => True end
  end.

Definition holders (held : list nat) (m : nat) : Z := Z.of_nat (count_occ Nat.eq_dec held m).

Definition cached (c : cache) (m : nat) : Z :=
  if decide (g_my_map_info_list c = Some m) then 1 else 0.

(** The reference count of a list is the number of its holders, the cache
    included, and the lists without holders are freed. *)
Definition counted (st : cache * list nat) : Prop :=
  forall m, match lists st.1 !! m with
            | Some d => refs d = holders st.2 m + cached st.1 m /\ 0 < refs d
            | None => holders st.2 m + cached st.1 m = 0
            end.

Lemma holders_bound held m : 0 <= holders held m <= Z.of_nat (length held).
Proof. unfold holders. pose proof (count_occ_bound Nat.eq_dec m held). lia. Qed.

Lemma holders_cons held m m' :
  holders (m :: held) m' = holders held m' + (if decide (m = m') then 1 else 0).
Proof.
  unfold holders. simpl. destruct (Nat.eq_dec m m'), (decide (m = m')); try done; lia.
Qed.

Lemma holders_remove held m m' :
  m ∈ held -> holders (remove_one m held) m' = holders held m' - (if decide (m = m') then 1 else 0).
Proof.
  induction held as [|y held IH]; [by intros ?%elem_of_nil|]. simpl. intros Hin.
  destruct (decide (m = y)) as [->|Hne].
  - rewrite holders_cons. lia.
  - apply elem_of_cons in Hin as [?|Hin]; [done|]. rewrite !holders_cons, IH by done. lia.
Qed.

Lemma holders_pos held m : m ∈ held -> 0 < holders held m.
Proof.
  unfold holders. intros H. apply list_elem_of_In, (count_occ_In Nat.eq_dec) in H. lia.
Qed.

Lemma cached_range c m : 0 <= cached c m <= 1.
Proof. unfold cached. case_decide; lia. Qed.

(** Dropping one reference that is accounted for, to the cache ([drop] = 1
    for the new cache pointer [g]) or to a holder. *)
Lemma dec_ref_counted c held m g held' :
  counted (c, held) -> Z.of_nat (length held) < 2 ^ 32 - 2 ->
  (forall m', holders held' m' + cached (mkCache (lists c) g) m' =
              holders held m' + cached c m' - (if decide (m = m') then 1 else 0)) ->
  exists c', dec_ref c m = Ok c' /\ g_my_map_info_list c' = g_my_map_info_list c /\
    counted (mkCache (lists c') g, held').
Proof.
  intros Hc Hl Heq. unfold dec_ref, the_data, set_data.
  pose proof (Hc m) as Hm. pose proof (Heq m) as Hqm. simpl in Hm.
  rewrite decide_True in Hqm by done.
  pose proof (holders_bound held m). pose proof (cached_range c m).
  pose proof (holders_bound held' m). pose proof (cached_range (mkCache (lists c) g) m).
  destruct (lists c !! m) as [d|] eqn:E; [|lia]. destruct Hm as [Hr Hp]. simpl.
  rewrite u32_small by lia.
  assert (Hrest : forall m' l', m' <> m -> lists c !! m' = l' ->
    match l' with
    | Some d => refs d = holders held' m' + cached (mkCache (lists c) g) m' /\ 0 < refs d
    | None => holders held' m' + cached (mkCache (lists c) g) m' = 0
    end).
  { intros m' l' Hne <-. specialize (Hc m'). simpl in Hc. rewrite (Heq m').
    rewrite decide_False by done. destruct (lists c !! m'); lia. }
  destruct (Z.eqb_spec (refs d - 1) 0) as [Hz|Hz]; eexists; split; try done; split; try done;
    intros m'; simpl; destruct (decide (m' = m)) as [->|Hne].
  - rewrite lookup_delete_eq. unfold cached in *; simpl in *. lia.
  - rewrite lookup_delete_ne by done. unfold cached in *; simpl in *. by apply Hrest.
  - rewrite lookup_insert_eq. simpl. unfold cached in *; simpl in *. lia.
  - rewrite lookup_insert_ne by done. unfold cached in *; simpl in *. by apply Hrest.
Qed.

Lemma invalidate_counted c held time :
  counted (c, held) -> Z.of_nat (length held) < 2 ^ 32 - 2 ->
  exists c', invalidate c time = Ok c' /\ counted (c', held) /\ dom (lists c') ⊆ dom (lists c).
Proof.
  intros Hc Hl. unfold invalidate. destruct (g_my_map_info_list c) as [m|] eqn:Eg; [|by eauto].
  pose proof (Hc m) as Hm. simpl in Hm. unfold the_data.
  assert (Hcm : cached c m = 1) by (unfold cached; by rewrite decide_True).
  pose proof (holders_bound held m).
  destruct (lists c !! m) as [d|] eqn:E; [|lia]. simpl.
  case_match; [|by eauto].
  destruct (dec_ref_counted c held m None held Hc Hl) as (c' & Hd & Hg & Hc').
  { intros m'. unfold cached; cbn [g_my_map_info_list]. rewrite (decide_False (P := None = Some m')) by done.
    rewrite Eg. destruct (decide (m = m')) as [->|Hne]; [rewrite decide_True by done; lia|].
    rewrite decide_False by congruence. lia. }
  rewrite Hd. eexists. split; [done|]. split; [done|]. simpl.
  unfold dec_ref, the_data in Hd. rewrite E in Hd. simpl in Hd.
  case_match; simplify_eq; simpl; [set_solver|].
  rewrite dom_insert_L. apply elem_of_dom_2 in E. set_solver.
Qed.

Lemma reload_counted c held time loaded :
  counted (c, held) -> (forall m, loaded = Some m -> lists c !! m = None) ->
  exists c', reload c time true loaded = Ok c' /\ counted (c', held).
Proof.
  intros Hc Hf. unfold reload. destruct (g_my_map_info_list c) eqn:Eg; [by eauto|].
  destruct loaded as [m|]; [|by eauto]. eexists. split; [done|].
  specialize (Hf m eq_refl). intros m'. pose proof (Hc m') as Hm'. simpl in *.
  unfold cached in *; simpl in *. rewrite Eg in Hm'.
  destruct (decide (m' = m)) as [->|Hne].
  - rewrite lookup_insert_eq. simpl. rewrite Hf in Hm'. rewrite decide_True by done.
    rewrite decide_False in Hm' by done. lia.
  - rewrite lookup_insert_ne by done. rewrite decide_False by congruence.
    rewrite decide_False in Hm' by done. done.
Qed.

Lemma run_call_counted st k :
  counted st -> allowed st k -> exists st', run_call st k = Ok st' /\ counted st'.
Proof.
  destruct st as [c held]. intros Hc [Hl Hk]. simpl in Hl. destruct k as [time loaded|m]; simpl.
  - unfold acquire_my_map_info_list.
    destruct (invalidate_counted c held time Hc Hl) as (c1 & -> & Hc1 & Hd1).
    cbn [mbind result_bind].
    destruct (reload_counted c1 held time loaded Hc1) as (c2 & -> & Hc2).
    { intros m ->. simpl in Hk. apply not_elem_of_dom. apply not_elem_of_dom in Hk. set_solver. }
    cbn [mbind result_bind]. destruct (g_my_map_info_list c2) as [m|] eqn:Eg; [|by eexists].
    pose proof (Hc2 m) as Hm. simpl in Hm. pose proof (holders_bound held m).
    assert (Hcm : cached c2 m = 1) by (unfold cached; by rewrite decide_True).
    unfold the_data. destruct (lists c2 !! m) as [d|] eqn:E; [|lia]. simpl.
    eexists. split; [done|]. intros m'. simpl. rewrite holders_cons.
    pose proof (Hc2 m') as Hm'. simpl in Hm'. unfold cached in *; simpl.
    destruct (decide (m = m')) as [<-|Hne].
    + rewrite lookup_insert_eq. simpl. rewrite u32_small by lia. rewrite E in Hm'. lia.
    + rewrite lookup_insert_ne by done. destruct (lists c2 !! m'); lia.
  - destruct (dec_ref_counted c held m (g_my_map_info_list c) (remove_one m held) Hc Hl)
      as (c' & -> & Hg & Hc').
    { intros m'. rewrite holders_remove by done. unfold cached; simpl. lia. }
    eexists. split; [done|]. rewrite <-Hg in Hc'. by destruct c'.
Qed.

(** C40 The cache of the map list, under any interleaving of the calls of
    any number of threads that release only what they hold ([allowed_calls]: fewer than
    [2 ^ 32 - 2] references at a time, and lists that are loaded are in unused memory),
    while there is memory for the data of a list: no call touches a
    freed list, a list is allocated exactly while somebody (a caller or the
    cache) refers to it, and its count is the number of references. *)
Theorem map_cache_counts_references ks :
  let start := (mkCache ∅ None, []) in
  allowed_calls start ks ->
  exists c held, foldM run_call start ks = Ok (c, held) /\
    (forall m, is_Some (lists c !! m) <-> m ∈ held \/ g_my_map_info_list c = Some m) /\
    (forall m d, lists c !! m = Some d -> refs d = holders held m + cached c m).
Proof.
  intros start Hks.
  assert (Hgen : forall st, counted st -> allowed_calls st ks ->
    exists st', foldM run_call st ks = Ok st' /\ counted st').
  { clear. induction ks as [|k ks IH]; intros st Hst Hk; simpl; [by eauto|].
    destruct Hk as [Ha Hk]. destruct (run_call_counted st k Hst Ha) as (st' & E & Hst').
    rewrite E in *. by apply IH. }
  destruct (Hgen start) as ([c held] & Hrun & Hc); [intros m; by simpl|done|].
  exists c, held. split; [done|]. split.
  - intros m. specialize (Hc m). simpl in Hc. pose proof (holders_bound held m).
    pose proof (cached_range c m). split.
    + intros [d Hd]. rewrite Hd in Hc. destruct (decide (m ∈ held)) as [|Hn]; [by left|].
      right. assert (Hh : holders held m = 0).
      { unfold holders. rewrite (proj1 (count_occ_not_In Nat.eq_dec held m)); [done|].
        by rewrite <-list_elem_of_In. }
      unfold cached in *. case_decide; [done|lia].
    + intros H'. destruct (lists c !! m); [by eexists|]. destruct H' as [Hin|Hg].
      * apply holders_pos in Hin. lia.
      * unfold cached in *. rewrite decide_True in * by done. lia.
  - intros m d Hd. specialize (Hc m). simpl in Hc. rewrite Hd in Hc. by destruct Hc.
Qed.

(** A list outlives its replacement while a thread holds it. *)
Lemma map_cache_counts_references_witness :
  exists c held, foldM run_call (mkCache ∅ None, [])
      [Acquire 0 (Some 1%nat); Acquire 10 None; Acquire MAX_CACHE_AGE (Some 2%nat); Release 1%nat]
      = Ok (c, held) /\
    (forall m, is_Some (lists c !! m) <-> m ∈ held \/ g_my_map_info_list c = Some m) /\
    (forall m d, lists c !! m = Some d -> refs d = holders held m + cached c m).
Proof.
  apply map_cache_counts_references.
  split; [split; [simpl; lia|reflexivity]|]. simpl.
  split; [split; [simpl; lia|done]|]. simpl.
  split; [split; [simpl; lia|reflexivity]|]. simpl.
  split; [split; [simpl; lia|]|done]. simpl. right. left.
Defined.

End MapCache.

(** ** The current thread: [unwind_backtrace] *)

Section CurrentThread.
Context (load : Z -> Z).
Context (ptrace_peek : Z -> Z -> Z * Z).

Definition URC_END_OF_STACK : Z := 5.

(** The frames collected and whether the walk goes on. *)
Definition unwind_backtrace_callback (memory : memory_t) (ignore_depth max_depth : Z)
    (c : collected) (pc : Z) : result (collected * bool) :=
  c ← (if negb (pc =? 0)
       then '(c, _) ← add_backtrace_entry (rewind_pc_arch load ptrace_peek memory pc) c
                        ignore_depth max_depth; Ok c
       else Ok c);
  Ok (c, returned_frames c <? max_depth).

Definition callback_step (memory : memory_t) (ignore_depth max_depth : Z) (c : collected)
    (ip : Z) : result collected :=
  '(c, _) ← unwind_backtrace_callback memory ignore_depth max_depth c ip; Ok c.

(** [ips]: the instruction pointers for which [_Unwind_Backtrace] calls the
    callback, in order; [rc]: what it returns. *)
Definition unwind_backtrace (milist : list map_info) (b : list backtrace_frame)
    (ignore_depth max_depth : Z) (ips : list Z) (rc : Z) : result (list backtrace_frame * Z) :=
  let memory := init_memory milist in
  c ← foldM (callback_step memory ignore_depth max_depth) (mkCollected b 0 0) ips;
  if negb (returned_frames c =? 0) then Ok (backtrace c, s32 (returned_frames c))
  else Ok (backtrace c, if rc =? URC_END_OF_STACK then 0 else -1).

(** The frames the caller asked for, from those of the stack. *)
Definition wanted (milist : list map_info) (ignore_depth max_depth : Z) (ips : list Z)
    : list backtrace_frame :=
  let pcs := List.filter (fun ip => negb (ip =? 0)) ips in
  take (Z.to_nat max_depth) (drop (Z.to_nat ignore_depth)
    (map (fun pc => mkFrame (rewind_pc_arch load ptrace_peek (init_memory milist) pc) 0 0) pcs)).

(** [fs] are the frames seen so far. *)
Definition collected_of (b : list backtrace_frame) (ignore_depth max_depth : Z)
    (fs : list backtrace_frame) (c : collected) : Prop :=
  let kept := take (Z.to_nat max_depth) (drop (Z.to_nat ignore_depth) fs) in
  ignored_frames c = Z.min ignore_depth (Z.of_nat (length fs)) /\
  returned_frames c = Z.of_nat (length kept) /\
  backtrace c = kept ++ drop (length kept) b.

Lemma take_drop_snoc {A} (l : list A) x m n :
  take m (drop n (l ++ [x])) =
  if decide (length l < n)%nat then []
  else if decide (length l - n < m)%nat then take m (drop n l) ++ [x] else take m (drop n l).
Proof.
  case_decide as H1.
  - rewrite drop_ge; [by destruct m|]. rewrite length_app. simpl. lia.
  - rewrite drop_app_le by lia. case_decide as H2.
    + rewrite !take_ge; [done|rewrite length_drop; lia|rewrite length_app, length_drop; simpl; lia].
    + rewrite take_app_le; [done|rewrite length_drop; lia].
Qed.

Lemma add_entry_collects b ignore_depth max_depth fs c pc :
  0 <= ignore_depth < 2 ^ 32 -> 0 <= max_depth < 2 ^ 31 -> max_depth <= Z.of_nat (length b) ->
  collected_of b ignore_depth max_depth fs c ->
  exists c' i, add_backtrace_entry pc c ignore_depth max_depth = Ok (c', i) /\
    collected_of b ignore_depth max_depth (fs ++ [mkFrame pc 0 0]) c'.
Proof.
  intros Hi Hm Hb (H1 & H2 & H3). unfold add_backtrace_entry, collected_of.
  rewrite take_drop_snoc, length_app.
  set (kept := take _ _) in *. change (length [_]) with 1%nat.
  assert (Hk : length kept = Nat.min (Z.to_nat max_depth) (length fs - Z.to_nat ignore_depth))
    by (unfold kept; by rewrite length_take, length_drop).
  destruct (Z.ltb_spec (ignored_frames c) ignore_depth) as [Hlt|Hge].
  - rewrite decide_True by lia. eexists _, _. split; [done|]. simpl.
    rewrite u32_small by lia. assert (kept = []) as E by (apply length_zero_iff_nil; lia).
    rewrite E in *. simpl in *. split_and!; [lia|lia|done].
  - rewrite decide_False by lia. destruct (Z.leb_spec max_depth (returned_frames c)).
    + rewrite decide_False by lia. eexists _, _. split; [done|]. fold kept. split_and!; [lia|lia|done].
    + rewrite decide_True by lia. fold kept. unfold put.
      assert (Hlen : length (backtrace c) = length b)
        by (rewrite H3, length_app, length_drop; lia).
      rewrite decide_True by lia. cbn [mbind result_bind]. eexists _, _. split; [done|]. simpl.
      rewrite length_app. simpl. rewrite u32_small by lia. split_and!; [lia|lia|].
      rewrite H3, H2, Nat2Z.id, insert_app_r_alt, Nat.sub_diag by lia.
      rewrite (drop_S b (default (mkFrame 0 0 0) (b !! length kept)) (length kept)).
      * simpl. rewrite <-app_assoc. simpl. by rewrite Nat.add_1_r.
      * destruct (lookup_lt_is_Some_2 b (length kept)) as [x E]; [lia|]. by rewrite E.
Qed.

Lemma callback_step_collects milist b ignore_depth max_depth ip fs c :
  0 <= ignore_depth < 2 ^ 32 -> 0 <= max_depth < 2 ^ 31 -> max_depth <= Z.of_nat (length b) ->
  collected_of b ignore_depth max_depth fs c ->
  exists c', callback_step (init_memory milist) ignore_depth max_depth c ip = Ok c' /\
    collected_of b ignore_depth max_depth
      (fs ++ map (fun pc => mkFrame (rewind_pc_arch load ptrace_peek (init_memory milist) pc) 0 0)
               (List.filter (fun ip => negb (ip =? 0)) [ip])) c'.
Proof.
  intros Hi Hm Hb Hc. unfold callback_step, unwind_backtrace_callback. simpl.
  destruct (negb (ip =? 0)); simpl.
  - destruct (add_entry_collects b ignore_depth max_depth fs c
      (rewind_pc_arch load ptrace_peek (init_memory milist) ip) Hi Hm Hb Hc) as (c' & i & -> & Hc').
    by exists c'.
  - exists c. by rewrite app_nil_r.
Qed.

Lemma callbacks_collect milist b ignore_depth max_depth ips fs c :
  0 <= ignore_depth < 2 ^ 32 -> 0 <= max_depth < 2 ^ 31 -> max_depth <= Z.of_nat (length b) ->
  collected_of b ignore_depth max_depth fs c ->
  exists c', foldM (callback_step (init_memory milist) ignore_depth max_depth) c ips = Ok c' /\
    collected_of b ignore_depth max_depth
      (fs ++ map (fun pc => mkFrame (rewind_pc_arch load ptrace_peek (init_memory milist) pc) 0 0)
               (List.filter (fun ip => negb (ip =? 0)) ips)) c'.
Proof.
  intros Hi Hm Hb. revert fs c. induction ips as [|ip ips IH]; intros fs c Hc; simpl.
  { exists c. by rewrite app_nil_r. }
  destruct (callback_step_collects milist b ignore_depth max_depth ip fs c Hi Hm Hb Hc)
    as (c' & -> & Hc').
  cbn [mbind result_bind]. destruct (IH _ _ Hc') as (c2 & Hrun & Hc2).
  exists c2. split; [exact Hrun|]. rewrite <-app_assoc, <-map_app in Hc2.
  simpl in Hc2. by destruct (negb (ip =? 0)).
Qed.

(** Whatever frames the walk reports, and even if it reports frames after
    the callback said to stop: the array receives the rewound pcs of the
    non-null frames, the first [ignore_depth] left out and at most [max_depth]
    kept, the rest of the array is untouched, and the result is their number
    (0 or -1 when there are none). *)
Theorem unwind_backtrace_frames milist b ignore_depth max_depth ips rc :
  0 <= ignore_depth < 2 ^ 32 -> 0 <= max_depth < 2 ^ 31 -> max_depth <= Z.of_nat (length b) ->
  let fs := wanted milist ignore_depth max_depth ips in
  unwind_backtrace milist b ignore_depth max_depth ips rc =
    Ok (fs ++ drop (length fs) b,
        if decide (fs = []) then (if rc =? URC_END_OF_STACK then 0 else -1)
        else Z.of_nat (length fs)).
Proof.
  intros Hi Hm Hb fs. unfold unwind_backtrace.
  destruct (callbacks_collect milist b ignore_depth max_depth ips [] (mkCollected b 0 0) Hi Hm Hb)
    as (c & -> & H1 & H2 & H3).
  { unfold collected_of; simpl. rewrite drop_nil, take_nil. split_and!; [lia|done|done]. }
  cbn [app] in *. change (take _ (drop _ (map _ _))) with fs in H2, H3.
  cbn [mbind result_bind]. rewrite H2, H3.
  assert (length fs <= Z.to_nat max_depth)%nat by (unfold fs, wanted; rewrite length_take; lia).
  case_decide as Hf.
  - rewrite Hf. reflexivity.
  - destruct (Z.eqb_spec (Z.of_nat (length fs)) 0) as [E|_].
    { exfalso. apply Hf, length_zero_iff_nil. lia. }
    cbn [negb]. by rewrite s32_small by lia.
Qed.

End CurrentThread.

Lemma unwind_backtrace_frames_witness :
  let fs := wanted demo_load demo_peek demo_maps 1 2 [0x1010; 0; 0x1104; 0x1108; 0x110c] in
  unwind_backtrace demo_load demo_peek demo_maps demo_frames 1 2
      [0x1010; 0; 0x1104; 0x1108; 0x110c] 0 =
    Ok (fs ++ drop (length fs) demo_frames, if decide (fs = []) then -1 else 2) /\
  fs = [mkFrame 0x1100 0 0; mkFrame 0x1104 0 0].
Proof.
  split; [|reflexivity].
  apply (unwind_backtrace_frames demo_load demo_peek demo_maps demo_frames 1 2
           [0x1010; 0; 0x1104; 0x1108; 0x110c] 0); [lia|lia|simpl; lia].
Defined.

(** ** Another thread: [unwind_backtrace_thread] and the signal handler *)

Module Handshake.

Definition STATE_DUMPING : Z := -1.
Definition STATE_DONE : Z := -2.
Definition STATE_CANCEL : Z := -3.

(** The buffer and limits of a request, by address. *)
Record request : Type := mkRequest {
  map_info_list : Z;
  backtrace : Z;
  ignore_depth : Z;
  max_depth : Z
}.

(** Where the requester is, in lines 150-196. *)
Inductive location : Type :=
  | Sending                   (** [tid_state] is set, the signal not yet sent *)
  | Polling (wait_millis : Z) (** lines 159-171 *)
  | Chosen (tid_state : Z)    (** line 175, with its local [tid_state] *)
  | Reload                    (** line 180, the cancellation lost *)
  | Waiting (tid_state : Z).  (** lines 188-196 *)

(** [Idle frames]: outside [unwind_backtrace_thread]; [frames] is what the last
    call returned.  [g_unwind_signal_mutex] admits one requester. *)
Inductive requester : Type :=
  | Idle (frames : Z)
  | Busy (tid : Z) (r : request) (at_ : location).

(** A thread inside the signal handler. *)
Inductive handler : Type :=
  | Entered                   (** before the compare-and-set *)
  | Dumping                   (** in [unwind_backtrace_signal_arch] *)
  | Stored (frames : Z).      (** [returned_frames] is set, [tid_state] not yet *)

(** [dumped] is a history variable: the count the handler published for the
    current (or last) request. *)
Record state : Type := mkState {
  pc : requester;
  tid_state : Z;
  g_request : request;
  returned_frames : Z;
  installed : bool;
  pending : gset Z;
  handlers : gmap Z handler;
  dumped : option Z
}.

Definition at_loc (s : state) (p : requester) : state :=
  mkState p (tid_state s) (g_request s) (returned_frames s) (installed s) (pending s)
    (handlers s) (dumped s).

Definition with_tid_state (s : state) (v : Z) : state :=
  mkState (pc s) v (g_request s) (returned_frames s) (installed s) (pending s)
    (handlers s) (dumped s).

Definition with_pending (s : state) (p : gset Z) : state :=
  mkState (pc s) (tid_state s) (g_request s) (returned_frames s) (installed s) p
    (handlers s) (dumped s).

Definition with_handlers (s : state) (h : gmap Z handler) : state :=
  mkState (pc s) (tid_state s) (g_request s) (returned_frames s) (installed s) (pending s)
    h (dumped s).

(** Lines 140-150: the handler is installed, the request published. *)
Definition begin_request (s : state) (tid : Z) (r : request) : state :=
  mkState (Busy tid r Sending) tid r 0 true (pending s) (handlers s) None.

(** [sigaction] refuses: the result is -1. *)
Definition begin_fails (s : state) : state :=
  mkState (Idle (-1)) (tid_state s) (g_request s) (returned_frames s) (installed s) (pending s)
    (handlers s) None.

(** Lines 194-198 *)
Definition end_request (s : state) (seen : Z) : state :=
  mkState (Idle (if seen =? STATE_DONE then returned_frames s else -1)) (tid_state s)
    (g_request s) (returned_frames s) false (pending s) (handlers s) (dumped s).

(** One atomic access of the requester. *)
Definition requester_step (s : state) : option state :=
  match pc s with
  | Idle _ | Busy _ _ Sending => None
  | Busy tid r (Polling wait_millis) =>
      if negb (tid_state s =? tid) then Some (at_loc s (Busy tid r (Chosen (tid_state s))))
      else if negb (wait_millis =? 0)
      then Some (at_loc s (Busy tid r (Polling (s32 (wait_millis - 1)))))
      else Some (at_loc s (Busy tid r (Chosen (tid_state s))))
  | Busy tid r (Chosen seen) =>
      if seen =? tid then
        if tid_state s =? tid
        then Some (at_loc (with_tid_state s STATE_CANCEL) (Busy tid r (Waiting STATE_CANCEL)))
        else Some (at_loc s (Busy tid r Reload))
      else Some (at_loc s (Busy tid r (Waiting seen)))
  | Busy tid r Reload => Some (at_loc s (Busy tid r (Waiting (tid_state s))))
  | Busy tid r (Waiting seen) =>
      if seen =? STATE_DUMPING then Some (at_loc s (Busy tid r (Waiting (tid_state s))))
      else Some (end_request s seen)
  end.

(** [unwind_backtrace_thread_signal_handler] on thread [t]: its
    compare-and-set, then the dump (whose count is [frames]), then the two stores. *)
Definition handler_step (s : state) (t frames : Z) : option state :=
  match handlers s !! t with
  | None => None
  | Some Entered =>
      if tid_state s =? t
      then Some (with_handlers (with_tid_state s STATE_DUMPING) (<[t := Dumping]> (handlers s)))
      else Some (with_handlers s (delete t (handlers s)))
  | Some Dumping =>
      Some (mkState (pc s) (tid_state s) (g_request s) frames (installed s) (pending s)
              (<[t := Stored frames]> (handlers s)) (dumped s))
  | Some (Stored n) =>
      Some (mkState (pc s) STATE_DONE (g_request s) (returned_frames s) (installed s) (pending s)
              (delete t (handlers s)) (Some n))
  end.

(** The steps of the system.  A thread runs its handler with the signal
    blocked; a signal that finds no handler installed is dropped. *)
Inductive step : state -> state -> Prop :=
  | step_begin s frames tid r :
      pc s = Idle frames -> 0 < tid -> step s (begin_request s tid r)
  | step_begin_fails s frames :
      pc s = Idle frames -> step s (begin_fails s)
  | step_kill s tid r :
      pc s = Busy tid r Sending ->
      step s (at_loc (with_pending s ({[tid]} ∪ pending s)) (Busy tid r (Polling 250)))
  | step_kill_fails s tid r :
      pc s = Busy tid r Sending -> step s (at_loc s (Busy tid r (Chosen tid)))
  | step_requester s s' : requester_step s = Some s' -> step s s'
  | step_deliver s t :
      t ∈ pending s -> handlers s !! t = None ->
      step s (with_handlers (with_pending s (pending s ∖ {[t]}))
                (if installed s then <[t := Entered]> (handlers s) else handlers s))
  | step_handler s s' t frames : handler_step s t frames = Some s' -> step s s'.

Definition init : state :=
  mkState (Idle (-1)) 0 (mkRequest 0 0 0 0) 0 false ∅ ∅ None.

Definition reachable (s : state) : Prop := rtc step init s.

(** *** The invariant *)

Definition active (h : handler) : Prop := h <> Entered.

(** What [tid_state] can be at each place, [t] being the requested thread. *)
Definition place_ok (t : Z) (l : location) (v : Z) : Prop :=
  match l with
  | Sending => v = t \/ v = STATE_DUMPING \/ v = STATE_DONE
  | Polling wait_millis =>
      0 <= wait_millis <= 250 /\ (v = t \/ v = STATE_DUMPING \/ v = STATE_DONE)
  | Chosen seen =>
      seen = t /\ (v = t \/ v = STATE_DUMPING \/ v = STATE_DONE) \/
      seen = STATE_DUMPING /\ (v = STATE_DUMPING \/ v = STATE_DONE) \/
      seen = STATE_DONE /\ v = STATE_DONE
  | Reload => v = STATE_DUMPING \/ v = STATE_DONE
  | Waiting seen =>
      seen = STATE_CANCEL /\ v = STATE_CANCEL \/
      seen = STATE_DUMPING /\ (v = STATE_DUMPING \/ v = STATE_DONE) \/
      seen = STATE_DONE /\ v = STATE_DONE
  end.

Definition pc_ok (s : state) : Prop :=
  match pc s with
  | Idle frames =>
      (tid_state s = 0 \/ tid_state s = STATE_DONE \/ tid_state s = STATE_CANCEL) /\
      frames = default (-1) (dumped s)
  | Busy t r l =>
      0 < t /\ g_request s = r /\ installed s = true /\ place_ok t l (tid_state s) /\
      dumped s = (if decide (tid_state s = STATE_DONE) then Some (returned_frames s) else None)
  end.

Record inv (s : state) : Prop := {
  inv_pos : (forall t, t ∈ pending s -> 0 < t) /\
            (forall t, is_Some (handlers s !! t) -> 0 < t);
  inv_active : forall t h, handlers s !! t = Some h -> active h ->
    tid_state s = STATE_DUMPING /\ (exists r l, pc s = Busy t r l) /\
    (forall n, h = Stored n -> returned_frames s = n);
  inv_dumping : tid_state s = STATE_DUMPING ->
    exists t h, handlers s !! t = Some h /\ active h;
  inv_pc : pc_ok s
}.

Lemma inv_init : inv init.
Proof.
  split; simpl; [|intros t h H; by rewrite lookup_empty in H|discriminate|].
  - split; [set_solver|intros t [h H]; by rewrite lookup_empty in H].
  - split; [by left|done].
Qed.

(** Steps of the requester that leave the handlers alone. *)
Lemma inv_move s l l' t r :
  inv s -> pc s = Busy t r l ->
  place_ok t l' (tid_state s) -> inv (at_loc s (Busy t r l')).
Proof.
  intros [Hp Ha Hd Hpc] E Hl. unfold pc_ok in Hpc. rewrite E in Hpc.
  destruct Hpc as (H1 & H2 & H3 & _ & H5).
  split; [exact Hp| |exact Hd|by split_and!].
  intros t' h Hh Hact. destruct (Ha t' h Hh Hact) as (Hv & (r' & l0 & E') & Hn).
  split; [done|split; [|exact Hn]]. rewrite E in E'. injection E' as <- <- <-. by exists r, l'.
Qed.

(** No handler is active when [tid_state] is not DUMPING. *)
Lemma inv_quiet s t h :
  inv s -> tid_state s <> STATE_DUMPING -> handlers s !! t = Some h -> ~ active h.
Proof. intros Hi Hv Hh Ha. by destruct (inv_active s Hi t h Hh Ha). Qed.

Lemma inv_begin s frames t r :
  inv s -> pc s = Idle frames -> 0 < t -> inv (begin_request s t r).
Proof.
  intros Hi E Ht. pose proof (inv_pc s Hi) as Hpc. unfold pc_ok in Hpc. rewrite E in Hpc.
  destruct Hpc as [Hv _].
  assert (tid_state s <> STATE_DUMPING) by (unfold STATE_DUMPING, STATE_DONE, STATE_CANCEL in *; lia).
  split; simpl.
  - apply Hi.
  - intros t' h Hh Ha. by destruct (inv_quiet s t' h Hi).
  - unfold STATE_DUMPING. lia.
  - unfold pc_ok; simpl. split_and!; try done; [by left|].
    rewrite decide_False by (unfold STATE_DONE; lia). done.
Qed.

Lemma inv_end s t r seen :
  inv s -> pc s = Busy t r (Waiting seen) -> seen <> STATE_DUMPING -> inv (end_request s seen).
Proof.
  intros Hi E Hne. pose proof (inv_pc s Hi) as Hpc. unfold pc_ok in Hpc. rewrite E in Hpc.
  destruct Hpc as (_ & _ & _ & Hl & Hd). simpl in Hl.
  assert (Hv : seen = tid_state s /\ tid_state s <> STATE_DUMPING /\
    (tid_state s = STATE_DONE \/ tid_state s = STATE_CANCEL)).
  { destruct Hl as [[-> ->]|[[-> _]|[-> ->]]]; [|done|]; unfold STATE_DUMPING, STATE_DONE, STATE_CANCEL; lia. }
  destruct Hv as (-> & Hv & Hor). split; simpl.
  - apply Hi.
  - intros t' h Hh Ha. by destruct (inv_quiet s t' h Hi).
  - done.
  - unfold pc_ok; simpl. split; [by right|]. rewrite Hd.
    destruct Hor as [->| ->]; reflexivity.
Qed.

Lemma inv_requester s s' : inv s -> requester_step s = Some s' -> inv s'.
Proof.
  intros Hi. pose proof (inv_pc s Hi) as Hpc. unfold pc_ok in Hpc. unfold requester_step.
  destruct (pc s) as [f|t r l] eqn:E; [done|].
  destruct Hpc as (Ht & Hr & Hin & Hl & Hd). destruct l as [|w|seen| |seen]; [done| | | |].
  - simpl in Hl. destruct (Z.eqb_spec (tid_state s) t) as [Ev|Nv]; simpl.
    + destruct (Z.eqb_spec w 0); simpl; intros [= <-]; eapply inv_move; try done; simpl.
      * left. naive_solver.
      * rewrite s32_small by lia. split; [lia|by left].
    + intros [= <-]. eapply inv_move; try done; simpl. naive_solver.
  - simpl in Hl. destruct (Z.eqb_spec seen t) as [->|Nt].
    + destruct (Z.eqb_spec (tid_state s) t) as [Ev|Nv]; intros [= <-].
      * assert (Hnd : tid_state s <> STATE_DUMPING) by (unfold STATE_DUMPING; lia).
        split; simpl.
        -- apply Hi.
        -- intros t' h Hh Ha. by destruct (inv_quiet s t' h Hi).
        -- done.
        -- unfold pc_ok; simpl. split_and!; try done; [by left|].
           rewrite decide_False in Hd by (unfold STATE_DONE; lia). done.
      * eapply inv_move; try done; simpl.
        destruct Hl as [[_ Hl]|[[-> Hl]|[-> Hl]]]; naive_solver.
    + intros [= <-]. eapply inv_move; try done; simpl. naive_solver.
  - intros [= <-]. eapply inv_move; try done; simpl in *. naive_solver.
  - simpl in Hl. destruct (Z.eqb_spec seen STATE_DUMPING) as [->|Ns]; intros [= <-].
    + eapply inv_move; try done; simpl. naive_solver.
    + by eapply inv_end.
Qed.

Lemma handlers_pos_insert s t h :
  inv s -> 0 < t -> forall t', is_Some (<[t := h]> (handlers s) !! t') -> 0 < t'.
Proof.
  intros Hi Ht t' [h' H']. destruct (decide (t = t')) as [<-|]; [done|].
  rewrite lookup_insert_ne in H' by done. apply (inv_pos s Hi). by eexists.
Qed.

Lemma handlers_pos_delete s t :
  inv s -> forall t', is_Some (delete t (handlers s) !! t') -> 0 < t'.
Proof.
  intros Hi t' [h' H']. apply lookup_delete_Some in H' as [_ H'].
  apply (inv_pos s Hi). by eexists.
Qed.

(** The compare-and-set succeeds only inside a request for this very thread. *)
Lemma inv_cas s t :
  inv s -> handlers s !! t = Some Entered -> 0 < t -> tid_state s = t ->
  inv (with_handlers (with_tid_state s STATE_DUMPING) (<[t := Dumping]> (handlers s))).
Proof.
  intros Hi Eh Ht Ev. pose proof (inv_pc s Hi) as Hpc.
  assert (Hnd : tid_state s <> STATE_DUMPING) by (unfold STATE_DUMPING; lia).
  assert (Hbusy : exists r l, pc s = Busy t r l /\ place_ok t l STATE_DUMPING).
  { unfold pc_ok, STATE_DONE, STATE_CANCEL in Hpc. destruct (pc s) as [f|t0 r l]; [lia|].
    destruct Hpc as (H1 & _ & _ & Hl & _).
    destruct l; simpl in Hl; unfold STATE_DUMPING, STATE_DONE, STATE_CANCEL in *;
      eexists _, _; (split; [f_equal; lia|]); simpl; unfold STATE_DUMPING; lia. }
  destruct Hbusy as (r & l & E & Hl). split; simpl.
  - split; [apply Hi|by apply handlers_pos_insert].
  - intros t' h' H' Ha. destruct (decide (t = t')) as [<-|Hne].
    + rewrite lookup_insert_eq in H'. injection H' as <-. split_and!; [done|by eauto|done].
    + rewrite lookup_insert_ne in H' by done. by destruct (inv_quiet s t' h' Hi).
  - intros _. exists t, Dumping. by rewrite lookup_insert_eq.
  - unfold pc_ok in *; simpl. rewrite E in *. destruct Hpc as (H1 & H2 & H3 & _ & H5).
    split_and!; try done.
    rewrite decide_False in H5 by (unfold STATE_DONE; lia). done.
Qed.

Lemma inv_spurious s t :
  inv s -> handlers s !! t = Some Entered -> inv (with_handlers s (delete t (handlers s))).
Proof.
  intros Hi Eh. split; simpl.
  - split; [apply Hi|by apply handlers_pos_delete].
  - intros t' h' H'. apply lookup_delete_Some in H' as [_ H']. by apply (inv_active s Hi).
  - intros Hv. destruct (inv_dumping s Hi Hv) as (t' & h' & H' & Ha). exists t', h'.
    split; [|done]. rewrite lookup_delete_ne; [done|]. intros <-. rewrite Eh in H'. by injection H' as <-.
  - apply Hi.
Qed.

Lemma inv_handler s t frames s' : inv s -> handler_step s t frames = Some s' -> inv s'.
Proof.
  intros Hi. pose proof (inv_pc s Hi) as Hpc. unfold handler_step.
  destruct (handlers s !! t) as [h|] eqn:Eh; [|done].
  assert (Ht : 0 < t) by (apply (inv_pos s Hi); by eexists).
  destruct h as [| |n].
  - destruct (Z.eqb_spec (tid_state s) t) as [Ev|Nv]; intros [= <-];
      [by apply inv_cas|by apply inv_spurious].
  - destruct (inv_active s Hi t Dumping Eh) as (Hv & (r & l & E) & _); [done|]. intros [= <-].
    split; simpl.
    + split; [apply Hi|by apply handlers_pos_insert].
    + intros t' h' H' Ha. destruct (decide (t = t')) as [<-|Hne].
      * rewrite lookup_insert_eq in H'. injection H' as <-. split_and!; [done|by eauto|by intros ? [= ->]].
      * rewrite lookup_insert_ne in H' by done.
        destruct (inv_active s Hi t' h' H' Ha) as (_ & (r' & l' & E') & _). congruence.
    + intros _. exists t, (Stored frames). by rewrite lookup_insert_eq.
    + unfold pc_ok in *; simpl. rewrite E in *. rewrite Hv in *. by destruct Hpc as (H1 & H2 & H3 & H4 & H5).
  - destruct (inv_active s Hi t (Stored n) Eh) as (Hv & (r & l & E) & Hn); [done|]. intros [= <-].
    split; simpl.
    + split; [apply Hi|by apply handlers_pos_delete].
    + intros t' h' H' Ha. apply lookup_delete_Some in H' as [Hne H'].
      destruct (inv_active s Hi t' h' H' Ha) as (_ & (r' & l' & E') & _). congruence.
    + done.
    + unfold pc_ok in *; simpl. rewrite E in *. destruct Hpc as (H1 & H2 & H3 & H4 & H5).
      rewrite Hv in H4. split_and!; try done.
      * destruct l; simpl in *; unfold STATE_DUMPING, STATE_DONE, STATE_CANCEL in *; lia.
      * by rewrite (Hn n).
Qed.

Lemma inv_step s s' : inv s -> step s s' -> inv s'.
Proof.
  intros Hi Hs. destruct Hs as [s frames tid r E Ht|s frames E|s tid r E|s tid r E|s s' E|s t Hp Hh|s s' t frames E].
  - by eapply inv_begin.
  - destruct Hi as [H1 H2 H3 H4]. unfold pc_ok in H4. rewrite E in H4. destruct H4 as [H4 _].
    split; simpl; [done| |done|].
    + intros t h Hh Ha. destruct (H2 t h Hh Ha) as (_ & (r & l & E') & _). congruence.
    + unfold pc_ok; simpl. by split.
  - pose proof (inv_pc s Hi) as Hpc. unfold pc_ok in Hpc. rewrite E in Hpc.
    destruct Hpc as (Ht & Hr & Hin & Hl & Hd). destruct (inv_pos s Hi) as [Hp1 Hp2].
    split; simpl; [| |apply Hi|split_and!; by try lia].
    + split; [|done]. intros t [->%elem_of_singleton|H]%elem_of_union; [done|by apply Hp1].
    + intros t h Hh Ha. destruct (inv_active s Hi t h Hh Ha) as (Hv & (r' & l & E') & Hn).
      rewrite E in E'. injection E' as <- <- <-. split_and!; [done|by eauto|done].
  - eapply inv_move; [done|done|]. pose proof (inv_pc s Hi) as Hpc. unfold pc_ok in Hpc. rewrite E in Hpc.
    destruct Hpc as (_ & _ & _ & Hl & _). simpl in *. by left.
  - by eapply inv_requester.
  - destruct (inv_pos s Hi) as [Hp1 Hp2].
    assert (Hin : forall h', (if installed s then <[t := Entered]> (handlers s) else handlers s) !! t = Some h' ->
      h' = Entered).
    { intros h'. destruct (installed s); [by rewrite lookup_insert_eq; intros [= <-]|by rewrite Hh]. }
    assert (Hout : forall t', t <> t' ->
      (if installed s then <[t := Entered]> (handlers s) else handlers s) !! t' = handlers s !! t')
      by (intros; destruct (installed s); [by rewrite lookup_insert_ne|done]).
    split; simpl.
    + split; [intros t' H; apply Hp1; set_solver|]. intros t' [h' H'].
      destruct (decide (t = t')) as [<-|Hne]; [by apply Hp1|]. rewrite Hout in H' by done.
      apply Hp2. by eexists.
    + intros t' h' H' Ha. destruct (decide (t = t')) as [<-|Hne]; [by apply Hin in H'|].
      rewrite Hout in H' by done. by apply (inv_active s Hi).
    + intros Hv. destruct (inv_dumping s Hi Hv) as (t' & h' & H' & Ha). exists t', h'.
      split; [|done]. rewrite Hout; [done|]. intros <-. congruence.
    + apply Hi.
  - by eapply inv_handler.
Qed.

Lemma reachable_inv s : reachable s -> inv s.
Proof.
  intros H. unfold reachable in H.
  assert (Hgen : forall a b, rtc step a b -> inv a -> inv b)
    by (intros a b Hab; induction Hab; eauto using inv_step).
  by eapply Hgen, inv_init.
Qed.

(** *** The request always comes to an end *)

Definition ends_idle (s : state) : Prop :=
  exists s' frames, rtc step s s' /\ pc s' = Idle frames.

Lemma ends_idle_step s s' : step s s' -> ends_idle s' -> ends_idle s.
Proof. intros H (s2 & f & H2 & E). exists s2, f. split; [by eapply rtc_l|done]. Qed.

Lemma ends_idle_move s s' : requester_step s = Some s' -> ends_idle s' -> ends_idle s.
Proof. intros H. by apply ends_idle_step, step_requester. Qed.

Lemma waiting_ends_now s t r seen :
  pc s = Busy t r (Waiting seen) -> seen <> STATE_DUMPING -> ends_idle s.
Proof.
  intros E Hn. eapply ends_idle_move.
  { unfold requester_step. rewrite E. by rewrite (proj2 (Z.eqb_neq _ _) Hn). }
  eexists _, _. split; [apply rtc_refl|done].
Qed.

Lemma waiting_ends_done s t r seen :
  pc s = Busy t r (Waiting seen) -> tid_state s = STATE_DONE -> ends_idle s.
Proof.
  intros E Hv. destruct (decide (seen = STATE_DUMPING)) as [->|Hn]; [|by eapply waiting_ends_now].
  eapply ends_idle_move.
  { unfold requester_step. rewrite E. by rewrite Z.eqb_refl. }
  eapply (waiting_ends_now _ t r STATE_DONE); [by rewrite Hv|done].
Qed.

Lemma stored_ends s t r seen n :
  pc s = Busy t r (Waiting seen) -> handlers s !! t = Some (Stored n) -> ends_idle s.
Proof.
  intros E Hh. eapply ends_idle_step.
  { apply (step_handler s _ t 0). unfold handler_step. by rewrite Hh. }
  by eapply waiting_ends_done.
Qed.

Lemma waiting_ends s t r seen : inv s -> pc s = Busy t r (Waiting seen) -> ends_idle s.
Proof.
  intros Hi E. pose proof (inv_pc s Hi) as Hpc. unfold pc_ok in Hpc. rewrite E in Hpc.
  destruct Hpc as (_ & _ & _ & Hl & _). simpl in Hl.
  destruct (decide (seen = STATE_DUMPING)) as [->|Hn]; [|by eapply waiting_ends_now].
  destruct (decide (tid_state s = STATE_DONE)) as [|Hd]; [by eapply waiting_ends_done|].
  assert (Hv : tid_state s = STATE_DUMPING) by (unfold STATE_CANCEL, STATE_DUMPING, STATE_DONE in *; lia).
  destruct (inv_dumping s Hi Hv) as (t' & h & Hh & Ha).
  destruct (inv_active s Hi t' h Hh Ha) as (_ & (r' & l & E') & _).
  rewrite E in E'. injection E' as <- <- <-. destruct h as [| |n]; [done| |by eapply stored_ends].
  eapply ends_idle_step.
  { apply (step_handler s _ t 0). unfold handler_step. by rewrite Hh. }
  eapply (stored_ends _ t r STATE_DUMPING 0); simpl; [done|by rewrite lookup_insert_eq].
Qed.

Lemma reload_ends s t r : inv s -> pc s = Busy t r Reload -> ends_idle s.
Proof.
  intros Hi E. assert (Hs : requester_step s = Some (at_loc s (Busy t r (Waiting (tid_state s)))))
    by (unfold requester_step; by rewrite E).
  eapply ends_idle_move; [exact Hs|].
  eapply waiting_ends; [by eapply inv_requester|done].
Qed.

Lemma chosen_ends s t r seen : inv s -> pc s = Busy t r (Chosen seen) -> ends_idle s.
Proof.
  intros Hi E. destruct (requester_step s) as [s'|] eqn:Hs.
  - eapply ends_idle_move; [exact Hs|]. pose proof (inv_requester s s' Hi Hs) as Hi'.
    unfold requester_step in Hs. rewrite E in Hs.
    destruct (seen =? t); [destruct (tid_state s =? t)|]; injection Hs as <-;
      (by eapply waiting_ends) || by eapply reload_ends.
  - exfalso. unfold requester_step in Hs. rewrite E in Hs. by repeat case_match.
Qed.

Lemma polling_ends n s t r : inv s -> pc s = Busy t r (Polling (Z.of_nat n)) -> ends_idle s.
Proof.
  revert s; induction n as [|n IH]; intros s Hi E;
    (destruct (requester_step s) as [s'|] eqn:Hs;
     [|exfalso; unfold requester_step in Hs; rewrite E in Hs; by repeat case_match]);
    (eapply ends_idle_move; [exact Hs|]);
    pose proof (inv_requester s s' Hi Hs) as Hi';
    pose proof (inv_pc s Hi) as Hpc; unfold pc_ok in Hpc; rewrite E in Hpc;
    destruct Hpc as (_ & _ & _ & [Hw _] & _);
    unfold requester_step in Hs; rewrite E in Hs; destruct (tid_state s =? t) eqn:Ev;
    cbn [negb] in Hs.
  - injection Hs as <-. by eapply chosen_ends.
  - injection Hs as <-. by eapply chosen_ends.
  - destruct (Z.eqb_spec (Z.of_nat (S n)) 0); [lia|]. injection Hs as <-.
    apply IH; [done|]. simpl. rewrite s32_small by lia. do 2 f_equal. lia.
  - injection Hs as <-. by eapply chosen_ends.
Qed.

Lemma busy_ends s t r l : inv s -> pc s = Busy t r l -> ends_idle s.
Proof.
  intros Hi E. destruct l as [|w|seen| |seen].
  - eapply ends_idle_step; [by apply step_kill_fails|].
    eapply chosen_ends; [|done]. eapply inv_step; [done|by apply step_kill_fails].
  - pose proof (inv_pc s Hi) as Hpc. unfold pc_ok in Hpc. rewrite E in Hpc.
    destruct Hpc as (_ & _ & _ & [Hw _] & _).
    apply (polling_ends (Z.to_nat w) s t r Hi). by rewrite Z2Nat.id by lia.
  - by eapply chosen_ends.
  - by eapply reload_ends.
  - by eapply waiting_ends.
Qed.

(** C35 In every interleaving of the requester, the signals (late ones of
    earlier requests included) and the handlers of any number of threads: at
    most one thread dumps at a time; it is the thread of the current request,
    whose requester is still inside the call; and the parameters it reads,
    the frame buffer included, are those of that request. *)
Theorem handshake_exclusive s t h :
  reachable s -> handlers s !! t = Some h -> active h ->
  exists r l, pc s = Busy t r l /\ g_request s = r /\ tid_state s = STATE_DUMPING /\
    (forall t' h', handlers s !! t' = Some h' -> active h' -> t' = t).
Proof.
  intros Hr%reachable_inv Hh Ha. destruct (inv_active s Hr t h Hh Ha) as (Hv & (r & l & E) & _).
  exists r, l. pose proof (inv_pc s Hr) as Hpc. unfold pc_ok in Hpc. rewrite E in Hpc.
  split_and!; [done|apply Hpc|done|]. intros t' h' Hh' Ha'.
  destruct (inv_active s Hr t' h' Hh' Ha') as (_ & (r' & l' & E') & _). congruence.
Qed.

(** C36 A call returns the number of frames that the handler published for
    it, or -1 when no handler did; it never returns while a dump is going on,
    and a call that has started can always be completed. *)
Theorem handshake_result s :
  reachable s ->
  (forall frames, pc s = Idle frames ->
     frames = default (-1) (dumped s) /\
     (forall t h, handlers s !! t = Some h -> h = Entered)) /\
  (exists s' frames, rtc step s s' /\ pc s' = Idle frames).
Proof.
  intros Hr%reachable_inv. split.
  - intros frames E. pose proof (inv_pc s Hr) as Hpc. unfold pc_ok in Hpc. rewrite E in Hpc.
    destruct Hpc as [_ Hf]. split; [done|]. intros t h Hh.
    destruct h as [| |n]; [done|..];
      (destruct (inv_active s Hr t _ Hh) as (_ & (r & l & E') & _); [done|congruence]).
  - destruct (pc s) as [frames|t r l] eqn:E; [|by eapply busy_ends].
    exists s, frames. split; [apply rtc_refl|done].
Qed.

(** A request of thread 7 that is dumped. *)
Definition demo_request : request := mkRequest 100 200 0 32.
Definition demo_dumping : state :=
  mkState (Busy 7 demo_request (Polling 250)) STATE_DUMPING demo_request 0 true ∅
    {[7 := Dumping]} None.

Lemma demo_dumping_reachable : reachable demo_dumping.
Proof.
  unfold reachable.
  eapply rtc_l; [apply (step_begin _ (-1) 7 demo_request); [reflexivity|lia]|].
  eapply rtc_l; [apply step_kill; reflexivity|].
  eapply rtc_l; [apply (step_deliver _ 7); [|reflexivity]|].
  { apply (bool_decide_unpack _). vm_compute. exact I. }
  eapply rtc_l; [apply (step_handler _ _ 7 0); reflexivity|].
  apply rtc_refl.
Qed.

Lemma handshake_exclusive_witness :
  exists r l, pc demo_dumping = Busy 7 r l /\ g_request demo_dumping = r /\
    tid_state demo_dumping = STATE_DUMPING /\
    (forall t' h', handlers demo_dumping !! t' = Some h' -> active h' -> t' = 7).
Proof.
  apply (handshake_exclusive demo_dumping 7 Dumping demo_dumping_reachable).
  - reflexivity.
  - discriminate.
Defined.

Lemma handshake_result_witness :
  exists s' frames, rtc step demo_dumping s' /\ pc s' = Idle frames.
Proof. exact (proj2 (handshake_result demo_dumping demo_dumping_reachable)). Defined.

End Handshake.
