(* ===== verification/CorkscrewSymbols.v ===== *)
(** * libcorkscrew: symbol tables and the symbols of a backtrace

    Models [src/libs/libcorkscrew/symbol_table.c] ([load_symbol_table],
    [find_symbol], the comparators), [find_symbol_ptrace] of [ptrace.c], the
    symbol lookups of [backtrace.c], and the binary search of
    [src/libs/libc/stdlib/bsearch.c] they rely on.  The file is read through
    parameters: the ELF header, the section headers, the symbols and the
    strings at an offset of the mapping.  [qsort] is a parameter that sorts. *)
From S2P Require Import Prelude.
From S2P Require Import Corkscrew.
From stdpp Require Import sorting.
Local Open Scope Z_scope.
#[local] Arguments Z.mul : simpl never.
#[local] Arguments Z.add : simpl never.
#[local] Arguments Z.div : simpl never.
#[local] Arguments Z.modulo : simpl never.
#[local] Arguments Z.leb : simpl never.
#[local] Arguments Z.ltb : simpl never.

Definition qcompar (a b : symbol) : Z :=
  if s_start b <? s_start a then 1 else if s_start a <? s_start b then -1 else 0.

Definition bcompar (addr : Z) (symbol : symbol) : Z :=
  if addr <? s_start symbol then -1 else if s_end symbol <=? addr then 1 else 0.

(** [bsearch] with the comparator applied to the key: the index found.  Each
    round halves [lim], so [lim] bounds the rounds. *)
Fixpoint bsearch_loop {A} (fuel : nat) (compar : A -> Z) (table : list A) (base lim : nat)
    : result (option nat) :=
  match lim with
  | O => Ok None
  | S lim' =>
      match fuel with
      | O => Err OutOfFuel
      | S fuel =>
          let p := (base + lim / 2)%nat in
          x ← get table p;
          let cmp := compar x in
          if 0 <? cmp then bsearch_loop fuel compar table (S p) (lim' / 2)
          else if cmp =? 0 then Ok (Some p)
          else bsearch_loop fuel compar table base (lim / 2)
      end
  end.

Definition find_symbol (table : option symbol_table) (addr : Z) : result (option symbol) :=
  match table with
  | None => Ok None
  | Some symbols =>
      i ← bsearch_loop (length symbols) (bcompar addr) symbols 0 (length symbols);
      match i with None => Ok None | Some i => s ← get symbols i; Ok (Some s) end
  end.

(** ** Loading *)

Record Ehdr : Type := mkEhdr { is_elf : bool; e_shoff : Z; e_shnum : Z }.
Record Shdr : Type := mkShdr {
  sh_type : Z; sh_offset : Z; sh_size : Z; sh_entsize : Z; sh_link : Z
}.
Record Sym : Type := mkSym { st_name : Z; st_value : Z; st_size : Z; st_shndx : Z }.

Definition SHT_SYMTAB : Z := 2.
Definition SHT_DYNSYM : Z := 11.
Definition SHN_UNDEF : Z := 0.

(** What a run leaves: the table, and whether the descriptor was closed and
    the file unmapped (when they had been opened and mapped). *)
Record loaded : Type := mkLoaded {
  table : option symbol_table;
  opened : bool; closed : bool;
  mapped : bool; unmapped : bool
}.

Section Load.
Context (header : Ehdr).
Context (shdr_at : Z -> Shdr).
Context (sym_at : Z -> Sym).
Context (string_at : Z -> list Z).
Context (qsort : list symbol -> list symbol).

(** Section [i] of the table at [e_shoff] (40 bytes each), symbol [i] of a
    section at [offset] (16 bytes each). *)
Definition shdr (i : Z) : Shdr := shdr_at (u32 (e_shoff header + i * 40)).
Definition sym (offset i : Z) : Sym := sym_at (u32 (offset + i * 16)).

(** Lines 76-85: the last section of each kind. *)
Definition section_loop (idx : Z * Z) (i : Z) : Z * Z :=
  let '(sym_idx, dynsym_idx) := idx in
  (if sh_type (shdr i) =? SHT_SYMTAB then i else sym_idx,
   if sh_type (shdr i) =? SHT_DYNSYM then i else dynsym_idx).

Definition find_sections : Z * Z :=
  fold_left section_loop (seqZ 0 (e_shnum header)) (-1, -1).

(** Lines 99-104, 109-114: number of symbols, their offset, the offset of the
    strings; nothing for an absent section. *)
Definition section_symbols (idx : Z) : result (Z * Z * Z) :=
  if negb (idx =? -1) then
    let h := shdr idx in
    if sh_entsize h =? 0 then Err DivideByZero
    else Ok (s32 (sh_size h / sh_entsize h), sh_offset h, sh_offset (shdr (s32 (sh_link h))))
  else Ok (0, 0, 0).

Definition dynsym_defined (s : Sym) : bool := negb (st_shndx s =? SHN_UNDEF).

Definition symtab_defined (str : Z) (s : Sym) : bool :=
  negb (st_shndx s =? SHN_UNDEF) &&
  match string_at (u32 (str + st_name s)) with [] => false | _ => true end &&
  negb (st_value s =? 0) && negb (st_size s =? 0).

(** The counting loops, lines 120-124 and 131-138. *)
Definition count_symbols (keep : Sym -> bool) (offset num : Z) : Z :=
  fold_left (fun n i => if keep (sym offset i) then n + 1 else n) (seqZ 0 num) 0.

(** One entry, lines 155-161. *)
Definition symbol_of (str : Z) (s : Sym) : symbol :=
  mkSymbol (st_value s) (u32 (st_value s + st_size s)) (string_at (u32 (str + st_name s))).

(** The populating loops, lines 153-163 and 168-181: the array and [symbol_index]. *)
Definition fill_step (keep : Sym -> bool) (offset str : Z) (st : list symbol * Z) (i : Z)
    : result (list symbol * Z) :=
  let '(symbols, symbol_index) := st in
  let s := sym offset i in
  if keep s
  then symbols ← put symbols (Z.to_nat symbol_index) (symbol_of str s);
       Ok (symbols, symbol_index + 1)
  else Ok st.

Definition fill_symbols (keep : Sym -> bool) (offset str num : Z) (st : list symbol * Z)
    : result (list symbol * Z) :=
  foldM (fill_step keep offset str) st (seqZ 0 num).

(** Lines 96-185.  The array has room for what [malloc] was asked for (12 bytes
    per symbol, modulo 2^32); its entries are not initialised. *)
Definition build_table (alloc_symbols : bool) (sym_idx dynsym_idx : Z)
    : result (option symbol_table) :=
  '(dynnumsyms, dynsyms, dynstr) ← section_symbols dynsym_idx;
  '(numsyms, syms, str) ← section_symbols sym_idx;
  let dynsymbol_count := count_symbols dynsym_defined dynsyms dynnumsyms in
  let symbol_count := count_symbols (symtab_defined str) syms numsyms in
  let num_symbols := u32 (symbol_count + dynsymbol_count) in
  if alloc_symbols then
    let room := Z.to_nat (u32 (num_symbols * 12) / 12) in
    let symbols := replicate room (mkSymbol 0 0 []) in
    st ← fill_symbols dynsym_defined dynsyms dynstr dynnumsyms (symbols, 0);
    st ← fill_symbols (symtab_defined str) syms str numsyms st;
    Ok (Some (qsort (take (Z.to_nat num_symbols) st.1)))
  else Ok None.

(** The answers of [open], [fstat], [mmap] and the two [malloc]s are arguments. *)
Definition load_symbol_table (open_ok fstat_ok mmap_ok alloc_table alloc_symbols : bool)
    : result loaded :=
  if negb open_ok then Ok (mkLoaded None false false false false)
  else if negb fstat_ok then Ok (mkLoaded None true true false false)
  else if negb mmap_ok then Ok (mkLoaded None true true false false)
  else if negb (is_elf header) then Ok (mkLoaded None true true true false)
  else
    let '(sym_idx, dynsym_idx) := find_sections in
    if (dynsym_idx =? -1) && (sym_idx =? -1) then Ok (mkLoaded None true true true true)
    else if negb alloc_table then Ok (mkLoaded None true true true true)
    else
      t ← build_table alloc_symbols sym_idx dynsym_idx;
      Ok (mkLoaded t true true true true).

(** ** The loops fill the array exactly *)

Definition kept (keep : Sym -> bool) (offset num : Z) : list Sym :=
  List.filter keep (map (sym offset) (seqZ 0 num)).

Lemma count_symbols_kept keep offset num :
  count_symbols keep offset num = Z.of_nat (length (kept keep offset num)).
Proof.
  unfold count_symbols, kept.
  assert (H : forall l n, fold_left (fun n i => if keep (sym offset i) then n + 1 else n) l n =
    n + Z.of_nat (length (List.filter keep (map (sym offset) l)))).
  { induction l as [|i l IH]; intros n; simpl; [lia|]. rewrite IH.
    destruct (keep (sym offset i)); simpl; lia. }
  by rewrite H.
Qed.

Lemma fill_symbols_kept keep offset str num pre (rest : list symbol) :
  (length (kept keep offset num) <= length rest)%nat ->
  fill_symbols keep offset str num (pre ++ rest, Z.of_nat (length pre)) =
    Ok (pre ++ map (symbol_of str) (kept keep offset num) ++
          drop (length (kept keep offset num)) rest,
        Z.of_nat (length pre + length (kept keep offset num))).
Proof.
  unfold fill_symbols, kept. generalize (seqZ 0 num). intros l. revert pre rest.
  induction l as [|i l IH]; intros pre rest Hr; simpl in *.
  { by rewrite drop_0, Nat.add_0_r. }
  destruct (keep (sym offset i)) eqn:E; simpl in *; [|by apply IH].
  destruct rest as [|x rest]; simpl in Hr; [lia|].
  unfold put. rewrite Nat2Z.id, decide_True by (rewrite length_app; simpl; lia).
  cbn [mbind result_bind]. rewrite insert_app_r_alt, Nat.sub_diag by lia. simpl.
  rewrite (cons_middle _ pre rest), app_assoc.
  replace (Z.of_nat (length pre) + 1) with (Z.of_nat (length (pre ++ [symbol_of str (sym offset i)])))
    by (rewrite length_app; simpl; lia).
  rewrite IH by lia. rewrite <-app_assoc. simpl. do 3 f_equal. rewrite length_app. simpl. lia.
Qed.

(** The symbols a file defines. *)
Definition file_symbols (sym_idx dynsym_idx : Z) : result (list symbol) :=
  '(dynnumsyms, dynsyms, dynstr) ← section_symbols dynsym_idx;
  '(numsyms, syms, str) ← section_symbols sym_idx;
  Ok (map (symbol_of dynstr) (kept dynsym_defined dynsyms dynnumsyms) ++
      map (symbol_of str) (kept (symtab_defined str) syms numsyms)).

Lemma build_table_symbols sym_idx dynsym_idx all :
  file_symbols sym_idx dynsym_idx = Ok all -> Z.of_nat (length all) * 12 < 2 ^ 32 ->
  build_table true sym_idx dynsym_idx = Ok (Some (qsort all)).
Proof.
  unfold file_symbols, build_table.
  destruct (section_symbols dynsym_idx) as [[[dn doff] dstr]|]; [|done].
  destruct (section_symbols sym_idx) as [[[n off] str]|]; [|done].
  cbn [mbind result_bind]. intros [= <-]. rewrite !count_symbols_kept.
  rewrite length_app, !length_map.
  set (D := kept dynsym_defined doff dn). set (S := kept (symtab_defined str) off n). intros Hl.
  set (num := u32 (Z.of_nat (length S) + Z.of_nat (length D))).
  assert (Hn : num = Z.of_nat (length D + length S)) by (unfold num; rewrite u32_small; lia).
  assert (Hroom : Z.to_nat (u32 (num * 12) / 12) = (length D + length S)%nat).
  { rewrite u32_small by lia. rewrite Z.div_mul by lia. lia. }
  cbv zeta. rewrite Hroom.
  pose proof (fill_symbols_kept dynsym_defined doff dstr dn []
    (replicate (length D + length S) (mkSymbol 0 0 []))) as H1.
  cbn [app length] in H1. change (Z.of_nat 0) with 0 in H1. rewrite H1 by (rewrite length_replicate; fold D; lia).
  clear H1. fold D. cbn [mbind result_bind].
  rewrite drop_replicate. replace (length D + length S - length D)%nat with (length S) by lia.
  pose proof (fill_symbols_kept (symtab_defined str) off str n (map (symbol_of dstr) D)
    (replicate (length S) (mkSymbol 0 0 []))) as H2.
  rewrite length_map in H2. cbn [Nat.add]. rewrite H2 by (rewrite length_replicate; fold S; lia).
  clear H2. fold S. cbn [mbind result_bind fst]. do 3 f_equal.
  rewrite drop_ge, app_nil_r by (rewrite length_replicate; lia).
  apply take_ge. rewrite length_app, !length_map. lia.
Qed.

End Load.

(** ** Searching a sorted table *)

(** The search finds an element that compares equal, whenever one exists. *)
Lemma bsearch_loop_spec {A} fuel (compar : A -> Z) table base lim :
  (base + lim <= length table)%nat -> (lim <= fuel)%nat ->
  (forall i j x y, (i < j)%nat -> table !! i = Some x -> table !! j = Some y ->
     compar x <= 0 -> compar y <= 0) ->
  (forall i j x y, (i < j)%nat -> table !! i = Some x -> table !! j = Some y ->
     compar x < 0 -> compar y < 0) ->
  exists r, bsearch_loop fuel compar table base lim = Ok r /\
    match r with
    | Some p => exists x, table !! p = Some x /\ compar x = 0
    | None => forall p x, (base <= p < base + lim)%nat -> table !! p = Some x -> compar x <> 0
    end.
Proof.
  intros Hb Hf Hm1 Hm2. revert base lim Hb Hf.
  induction fuel as [|fuel IH]; intros base lim Hb Hf; cbn [bsearch_loop].
  { destruct lim; [|lia]. eexists; split; [done|]. simpl. lia. }
  destruct lim as [|lim']; [eexists; split; [done|]; simpl; lia|].
  pose proof (Nat.div_lt (S lim') 2). pose proof (Nat.div_mod_eq (S lim') 2).
  pose proof (Nat.mod_upper_bound (S lim') 2). pose proof (Nat.div_mod_eq lim' 2).
  pose proof (Nat.mod_upper_bound lim' 2).
  set (p := (base + S lim' / 2)%nat).
  destruct (lookup_lt_is_Some_2 table p) as [x Hx]; [unfold p; lia|].
  unfold get. rewrite Hx. cbn [from_option_or mbind result_bind].
  destruct (Z.ltb_spec 0 (compar x)) as [Hgt|Hle].
  - destruct (IH (S p) (lim' / 2)%nat) as (r & -> & Hr); [unfold p; lia|lia|].
    exists r. split; [done|]. destruct r as [q|]; [done|]. intros q y Hq Hy Hy0.
    destruct (decide (q <= p)%nat) as [Hqp|Hqp].
    + destruct (decide (q = p)) as [->|Hne]; [rewrite Hx in Hy; injection Hy as <-; lia|].
      assert (compar x <= 0) by (apply (Hm1 q p y x); try done; lia). lia.
    + apply (Hr q y); [unfold p in *; lia|done|done].
  - destruct (Z.eqb_spec (compar x) 0) as [Hz|Hnz].
    + eexists; split; [done|]. by exists x.
    + destruct (IH base (S lim' / 2)%nat) as (r & -> & Hr); [lia|lia|].
      exists r. split; [done|]. destruct r as [q|]; [done|]. intros q y Hq Hy Hy0.
      destruct (decide (q < p)%nat) as [Hqp|Hqp]; [by apply (Hr q y); [unfold p in *; lia|..]|].
      destruct (decide (q = p)) as [->|Hne]; [rewrite Hx in Hy; injection Hy as <-; lia|].
      assert (compar y < 0) by (apply (Hm2 p q x y); try done; lia). lia.
Qed.

(** A table as [find_symbol] wants it: sorted, the ranges not empty and disjoint. *)
Definition disjoint_table (symbols : symbol_table) : Prop :=
  (forall i s, symbols !! i = Some s -> s_start s < s_end s) /\
  (forall i j s t, (i < j)%nat -> symbols !! i = Some s -> symbols !! j = Some t ->
     s_end s <= s_start t).

Lemma bcompar_0 addr s : bcompar addr s = 0 <-> s_start s <= addr < s_end s.
Proof.
  unfold bcompar. destruct (Z.ltb_spec addr (s_start s)); [split; lia|].
  destruct (Z.leb_spec (s_end s) addr); split; lia.
Qed.

Lemma find_symbol_core symbols addr :
  disjoint_table symbols ->
  exists r, find_symbol (Some symbols) addr = Ok r /\
    (forall s, r = Some s <-> s ∈ symbols /\ s_start s <= addr < s_end s).
Proof.
  intros [Hne Hdis]. unfold find_symbol.
  destruct (bsearch_loop_spec (length symbols) (bcompar addr) symbols 0 (length symbols))
    as (r & -> & Hr); [lia|lia| | |].
  - intros i j x y Hij Hx Hy. specialize (Hdis i j x y Hij Hx Hy).
    pose proof (Hne i x Hx). unfold bcompar. repeat case_match; lia.
  - intros i j x y Hij Hx Hy. specialize (Hdis i j x y Hij Hx Hy).
    pose proof (Hne i x Hx). unfold bcompar. repeat case_match; lia.
  - cbn [mbind result_bind]. destruct r as [p|].
    + destruct Hr as (x & Hx & H0). unfold get. rewrite Hx. simpl. exists (Some x).
      apply bcompar_0 in H0. split; [done|]. intros s. split.
      * intros [= <-]. split; [by eapply list_elem_of_lookup_2|done].
      * intros [(q & Hq)%list_elem_of_lookup_1 Hs]. f_equal.
        destruct (Nat.lt_trichotomy p q) as [Hlt|[->|Hlt]]; [|congruence|].
        -- specialize (Hdis p q x s Hlt Hx Hq). lia.
        -- specialize (Hdis q p s x Hlt Hq Hx). lia.
    + exists None. split; [done|]. intros s. split; [done|].
      intros [(q & Hq)%list_elem_of_lookup_1 Hs]. exfalso.
      apply (Hr q s); [split; [lia|simpl; by eapply lookup_lt_Some]|done|by apply bcompar_0].
Qed.

(** On a sorted table of disjoint symbols, [find_symbol] returns the
    symbol that contains the address, and nothing when there is none. *)
Theorem find_symbol_finds symbols addr :
  disjoint_table symbols ->
  exists r, find_symbol (Some symbols) addr = Ok r /\
    (forall s, r = Some s <-> s ∈ symbols /\ s_start s <= addr < s_end s).
Proof. apply find_symbol_core. Qed.

(** Loading a symbol table, whatever fails on the way: the descriptor is
    closed on every path that opened it; the table holds the defined symbols
    of the two sections, each once, and the loops that fill it stay inside the
    array whose size the counting loops computed.  The file is unmapped on
    every path but one: when it is not an ELF file its mapping is leaked. *)
Theorem load_symbol_table_result header shdr_at sym_at string_at qsort
    open_ok fstat_ok mmap_ok alloc_table alloc_symbols all :
  (forall l, qsort l ≡ₚ l) ->
  let '(sym_idx, dynsym_idx) := find_sections header shdr_at in
  file_symbols header shdr_at sym_at string_at sym_idx dynsym_idx = Ok all ->
  Z.of_nat (length all) * 12 < 2 ^ 32 ->
  exists l, load_symbol_table header shdr_at sym_at string_at qsort
              open_ok fstat_ok mmap_ok alloc_table alloc_symbols = Ok l /\
    opened l = closed l /\
    (mapped l = unmapped l \/ is_elf header = false /\ mapped l = true /\ unmapped l = false) /\
    match table l with
    | Some t => t ≡ₚ all
    | None => open_ok && fstat_ok && mmap_ok && is_elf header && alloc_table && alloc_symbols = false
              \/ sym_idx = -1 /\ dynsym_idx = -1
    end.
Proof.
  intros Hq. destruct (find_sections header shdr_at) as [sym_idx dynsym_idx] eqn:Ef.
  intros Hall Hlen. unfold load_symbol_table. rewrite Ef.
  destruct open_ok; [|by eexists; repeat (split || left)].
  destruct fstat_ok; [|by eexists; repeat (split || left)].
  destruct mmap_ok; [|by eexists; repeat (split || left)].
  destruct (is_elf header); [|by eexists; split; [done|]; split; [done|]; split; [by right|left]].
  cbn [negb]. destruct ((dynsym_idx =? -1) && (sym_idx =? -1)) eqn:Ei.
  { apply andb_prop in Ei as [?%Z.eqb_eq ?%Z.eqb_eq].
    eexists; split; [done|]; split; [done|]; split; [by left|by right]. }
  destruct alloc_table; cbn [negb]; [|by eexists; repeat (split || left)].
  destruct alloc_symbols.
  - rewrite (build_table_symbols _ _ _ _ qsort _ _ all Hall Hlen). cbn [mbind result_bind].
    eexists; split; [done|]; split; [done|]; split; [by left|]. apply Hq.
  - unfold build_table, file_symbols in *.
    destruct (section_symbols header shdr_at dynsym_idx) as [[[? ?] ?]|]; [|done].
    destruct (section_symbols header shdr_at sym_idx) as [[[? ?] ?]|]; [|done].
    by eexists; repeat (split || left).
Qed.

(** ** The symbols of a backtrace *)

Record backtrace_symbol : Type := mkBSymbol {
  relative_pc : Z;
  relative_symbol_addr : Z;
  map_name : option (list Z);
  symbol_name : option (list Z);
  demangled_name : option (list Z)
}.

Definition init_backtrace_symbol (pc : Z) : backtrace_symbol := mkBSymbol pc 0 None None None.

Definition find_symbol_ptrace (maps : list map_info) (addr : Z)
    : result (option map_info * option symbol) :=
  match find_map_info maps addr with
  | None => Ok (None, None)
  | Some mi =>
      match mi_data mi with
      | Some d =>
          symbol ← find_symbol (md_symbols d) (u32 (addr - mi_start mi));
          Ok (Some mi, symbol)
      | None => Ok (Some mi, None)
      end
  end.

Section Symbols.
(** [demangle_symbol_name], which calls the C++ runtime, and [dladdr]:
    the address and name of the symbol, the base of its object. *)
Context (demangle : list Z -> option (list Z)).
Context (dladdr : Z -> option (Z * option (list Z) * Z)).

Definition named (mi : map_info) : option (list Z) :=
  match mi_name mi with [] => None | name => Some name end.

(** The body of the loop of [get_backtrace_symbols_ptrace]. *)
Definition backtrace_symbol_ptrace (maps : list map_info) (frame : backtrace_frame)
    : result backtrace_symbol :=
  let symbol := init_backtrace_symbol (absolute_pc frame) in
  '(mi, s) ← find_symbol_ptrace maps (absolute_pc frame);
  let symbol :=
    match mi with
    | None => symbol
    | Some mi => mkBSymbol (u32 (absolute_pc frame - mi_start mi)) 0 (named mi) None None
    end in
  Ok match s with
     | None => symbol
     | Some s => mkBSymbol (relative_pc symbol) (s_start s) (map_name symbol)
                   (Some (s_name s)) (demangle (s_name s))
     end.

(** The body of the loop of [get_backtrace_symbols]. *)
Definition backtrace_symbol_self (maps : list map_info) (frame : backtrace_frame)
    : backtrace_symbol :=
  let symbol := init_backtrace_symbol (absolute_pc frame) in
  match find_map_info maps (absolute_pc frame) with
  | None => symbol
  | Some mi =>
      let rel := u32 (absolute_pc frame - mi_start mi) in
      match dladdr (absolute_pc frame) with
      | Some (saddr, Some sname, fbase) =>
          mkBSymbol rel (u32 (saddr - fbase)) (named mi) (Some sname) (demangle sname)
      | _ => mkBSymbol rel 0 (named mi) None None
      end
  end.

(** The loops: entry [i] of the array of symbols describes frame [i]. *)
Definition symbol_step (of_frame : backtrace_frame -> result backtrace_symbol)
    (frames : list backtrace_frame) (symbols : list backtrace_symbol) (i : nat)
    : result (list backtrace_symbol) :=
  f ← get frames i;
  s ← of_frame f;
  put symbols i s.

Definition get_backtrace_symbols_ptrace (maps : list map_info) (backtrace : list backtrace_frame)
    (frames : nat) (symbols : list backtrace_symbol) : result (list backtrace_symbol) :=
  foldM (symbol_step (backtrace_symbol_ptrace maps) backtrace) symbols (seq 0 frames).

Definition get_backtrace_symbols (maps : list map_info) (backtrace : list backtrace_frame)
    (frames : nat) (symbols : list backtrace_symbol) : result (list backtrace_symbol) :=
  foldM (symbol_step (fun f => Ok (backtrace_symbol_self maps f)) backtrace) symbols (seq 0 frames).

Lemma symbol_step_at of_frame g bt symbols k f :
  bt !! k = Some f -> of_frame f = Ok g -> (k < length symbols)%nat ->
  symbol_step of_frame bt symbols k = Ok (<[k := g]> symbols).
Proof.
  intros Hf Hg Hk. unfold symbol_step, get, put. rewrite Hf. simpl. rewrite Hg. simpl.
  by rewrite decide_True.
Qed.

Lemma symbol_loop of_frame (g : backtrace_frame -> backtrace_symbol) bt n k symbols :
  (forall f, f ∈ bt -> of_frame f = Ok (g f)) ->
  (k + n <= length bt)%nat -> length symbols = length bt ->
  exists symbols', foldM (symbol_step of_frame bt) symbols (seq k n) = Ok symbols' /\
    length symbols' = length bt /\
    (forall i, (k <= i < k + n)%nat -> symbols' !! i = g <$> bt !! i) /\
    (forall i, ~ (k <= i < k + n)%nat -> symbols' !! i = symbols !! i).
Proof.
  intros Hg. revert k symbols; induction n as [|n IH]; intros k symbols Hk Hs; cbn [seq foldM].
  { exists symbols. split_and!; [done|done|lia|done]. }
  destruct (lookup_lt_is_Some_2 bt k) as [f Hf]; [lia|].
  rewrite (symbol_step_at of_frame (g f) bt symbols k f Hf); cycle 1.
  { apply Hg. by eapply list_elem_of_lookup_2. }
  { lia. }
  cbn [mbind result_bind].
  destruct (IH (S k) (<[k := g f]> symbols)) as (s' & Hrun & Hl & Hin & Hout);
    [lia|by rewrite length_insert|].
  exists s'. split; [exact Hrun|]. split; [done|]. split; intros i Hi.
  - destruct (decide (i = k)) as [->|Hne]; [|apply Hin; lia].
    rewrite Hout by lia. rewrite list_lookup_insert_eq by lia. by rewrite Hf.
  - rewrite Hout by lia. apply list_lookup_insert_ne. lia.
Qed.

(** What the symbol of a frame should be. *)
Definition describes_in (mi : map_info) (rel : Z) (s : backtrace_symbol) : Prop :=
  relative_pc s = rel /\ map_name s = named mi /\
  forall name, symbol_name s = Some name <->
    exists d symbols sym, mi_data mi = Some d /\ md_symbols d = Some symbols /\
      sym ∈ symbols /\ s_name sym = name /\
      s_start sym <= rel < s_end sym /\ relative_symbol_addr s = s_start sym.

Definition describes (maps : list map_info) (f : backtrace_frame) (s : backtrace_symbol) : Prop :=
  match find_map_info maps (absolute_pc f) with
  | None => s = init_backtrace_symbol (absolute_pc f)
  | Some mi => describes_in mi (u32 (absolute_pc f - mi_start mi)) s
  end.

Lemma find_map_info_in maps a mi : find_map_info maps a = Some mi -> mi ∈ maps.
Proof.
  induction maps as [|m maps IH]; simpl; [done|].
  case_match; [intros; right; by apply IH|intros [= <-]; left].
Qed.

Lemma backtrace_symbol_ptrace_ok maps f :
  (forall mi d symbols, mi ∈ maps -> mi_data mi = Some d -> md_symbols d = Some symbols ->
     disjoint_table symbols) ->
  exists s, backtrace_symbol_ptrace maps f = Ok s /\ describes maps f s.
Proof.
  intros Hd. unfold backtrace_symbol_ptrace, find_symbol_ptrace, describes.
  destruct (find_map_info maps (absolute_pc f)) as [mi|] eqn:Em; [|by eexists].
  apply find_map_info_in in Em.
  assert (Hno : (forall d symbols, mi_data mi = Some d -> md_symbols d <> Some symbols) ->
    forall rel, describes_in mi rel (mkBSymbol rel 0 (named mi) None None)).
  { intros Hn rel. split_and!; [done|done|]. intros name. split; [done|].
    intros (d & symbols & sym & H1 & H2 & _). by destruct (Hn d symbols H1). }
  destruct (mi_data mi) as [d|] eqn:Ed; [|eexists; split; [done|apply Hno; naive_solver]].
  destruct (md_symbols d) as [symbols|] eqn:Es;
    [|eexists; split; [done|apply Hno; naive_solver]].
  destruct (find_symbol_core symbols (u32 (absolute_pc f - mi_start mi))) as (r & -> & Hr);
    [by eapply Hd|].
  cbn [mbind result_bind]. eexists; split; [done|].
  destruct r as [sym|]; (split_and!; [done|done|]); intros name; simpl.
  - destruct (proj1 (Hr sym) eq_refl) as [Hin Hrange]. split.
    + intros [= <-]. exists d, symbols, sym. split_and!; try done; lia.
    + intros (d' & symbols' & sym' & E1 & H2 & H3 & <- & H5 & _).
      assert (d' = d) as -> by congruence. assert (symbols' = symbols) as -> by congruence.
      assert (Hs : Some sym = Some sym') by (by apply Hr). by injection Hs as ->.
  - split; [done|]. intros (d' & symbols' & sym' & E1 & H2 & H3 & _ & H5 & _).
    assert (d' = d) as -> by congruence. assert (symbols' = symbols) as -> by congruence. by assert (None = Some sym') by (by apply Hr).
Qed.

(** The symbols of a backtrace: every frame gets the map that contains
    it, its pc relative to that map, and the symbol of the map's table that
    contains the relative pc exactly when there is one; frames outside every
    map keep their absolute pc; the array is written for the frames given and
    nowhere else. *)
Theorem backtrace_symbols_describe maps bt frames symbols :
  (forall mi d symbols, mi ∈ maps -> mi_data mi = Some d -> md_symbols d = Some symbols ->
     disjoint_table symbols) ->
  (frames <= length bt)%nat -> length symbols = length bt ->
  exists symbols', get_backtrace_symbols_ptrace maps bt frames symbols = Ok symbols' /\
    length symbols' = length bt /\
    (forall i f, (i < frames)%nat -> bt !! i = Some f ->
       exists s, symbols' !! i = Some s /\ describes maps f s) /\
    (forall i, (frames <= i)%nat -> symbols' !! i = symbols !! i).
Proof.
  intros Hd Hf Hs. unfold get_backtrace_symbols_ptrace.
  pose (g f := match backtrace_symbol_ptrace maps f with
               | Ok s => s | Err _ => init_backtrace_symbol 0 end).
  assert (Hg : forall f, backtrace_symbol_ptrace maps f = Ok (g f) /\ describes maps f (g f)).
  { intros f. destruct (backtrace_symbol_ptrace_ok maps f Hd) as (s & E & H).
    unfold g. by rewrite E. }
  destruct (symbol_loop (backtrace_symbol_ptrace maps) g bt frames 0 symbols)
    as (s' & Hrun & Hl & Hin & Hout); [by intros; apply Hg|lia|done|].
  exists s'. split_and!; [exact Hrun|done| |intros; apply Hout; lia].
  intros i f Hi Hb. exists (g f). split; [|apply Hg]. rewrite Hin by lia. by rewrite Hb.
Qed.

End Symbols.

(** ** Witnesses *)

Definition demo_symbols : symbol_table :=
  [mkSymbol 0x10 0x20 (bytes "main"); mkSymbol 0x20 0x48 (bytes "open");
   mkSymbol 0x60 0x64 (bytes "read")].

Lemma demo_symbols_disjoint : disjoint_table demo_symbols.
Proof.
  split.
  - intros i s Hi. do 3 (destruct i as [|i]; [injection Hi as <-; simpl; lia|]). done.
  - intros i j s t Hij Hi Hj.
    do 3 (destruct j as [|j]; [do 3 (destruct i as [|i];
      [injection Hi as <-; injection Hj as <-; simpl; lia|]); lia|]). done.
Qed.

Lemma find_symbol_finds_witness :
  exists r, find_symbol (Some demo_symbols) 0x47 = Ok r /\
    (forall s, r = Some s <-> s ∈ demo_symbols /\ s_start s <= 0x47 < s_end s).
Proof. apply find_symbol_finds, demo_symbols_disjoint. Defined.

(** A file with one table of three symbols, one of them undefined. *)
Definition demo_header : Ehdr := mkEhdr true 100 2.
Definition demo_shdr (a : Z) : Shdr :=
  if a =? 100 then mkShdr 11 1000 48 16 1 else mkShdr 3 2000 0 0 0.
Definition demo_sym (a : Z) : Sym :=
  if a =? 1000 then mkSym 0 0 0 0 else if a =? 1016 then mkSym 1 0x40 8 7 else mkSym 6 0x10 4 7.
Definition demo_string (a : Z) : list Z := if a =? 2001 then bytes "open" else bytes "main".
Definition start_le (a b : symbol) : Prop := s_start a <= s_start b.

#[local] Instance start_le_dec a b : Decision (start_le a b).
Proof. unfold start_le. apply _. Defined.

Definition demo_qsort (l : list symbol) : list symbol := merge_sort start_le l.

Lemma load_symbol_table_result_witness :
  exists all l, file_symbols demo_header demo_shdr demo_sym demo_string (-1) 0 = Ok all /\
    load_symbol_table demo_header demo_shdr demo_sym demo_string demo_qsort
      true true true true true = Ok l /\ opened l = closed l /\
    (mapped l = unmapped l \/ is_elf demo_header = false /\ mapped l = true /\ unmapped l = false) /\
    match table l with
    | Some t => t ≡ₚ all
    | None => true && true && true && is_elf demo_header && true && true = false \/ -1 = -1 /\ 0 = -1
    end.
Proof.
  assert (Hq : forall l, demo_qsort l ≡ₚ l) by (intros l; apply merge_sort_Permutation).
  eexists.
  destruct (load_symbol_table_result demo_header demo_shdr demo_sym demo_string demo_qsort
    true true true true true _ Hq eq_refl) as (l & H1 & H2 & H3 & H4).
  { vm_compute. reflexivity. }
  exists l. split; [reflexivity|]. split; [exact H1|]. split; [exact H2|]. split; [exact H3|exact H4].
Defined.

Lemma backtrace_symbols_describe_witness :
  let maps := [mkMap 0x1000 0x2000 true true (Some (mkMapData 0 0 (Some demo_symbols))) (bytes "/a")] in
  let bt := [mkFrame 0x1045 0 0; mkFrame 0x9000 0 0] in
  exists symbols', get_backtrace_symbols_ptrace (fun _ => None) maps bt 2
      (replicate 2 (init_backtrace_symbol 0)) = Ok symbols' /\
    length symbols' = 2%nat /\
    (forall i f, (i < 2)%nat -> bt !! i = Some f ->
       exists s, symbols' !! i = Some s /\ describes maps f s) /\
    (forall i, (2 <= i)%nat -> symbols' !! i = replicate 2 (init_backtrace_symbol 0) !! i).
Proof.
  apply backtrace_symbols_describe; [|simpl; lia|reflexivity].
  intros mi d symbols Hin%list_elem_of_singleton. subst mi. intros [= <-] [= <-].
  apply demo_symbols_disjoint.
Defined.

(** A dynamic symbol of size zero (a mapping symbol, say) inside a function
    hides the function from the search: the loop over [.dynsym] keeps it. *)
Example zero_size_symbol_hides :
  find_symbol (Some [mkSymbol 0x10 0x40 (bytes "main"); mkSymbol 0x18 0x18 (bytes "mark")]) 0x20
    = Ok None /\
  dynsym_defined (mkSym 1 0x18 0 7) = true.
Proof. split; reflexivity. Qed.
