(* ===== verification/RecordStream.v ===== *)
(** * libcutils: record streams

    Models [src/libs/libcutils/record_stream.c]: records prefixed by a 32-bit
    big-endian length, cut out of a byte stream whose [read]s return pieces of
    any size.  The pointers are addresses of [ptr_bits] bits; [malloc] and
    [calloc] succeed (the code does not test them). *)
From S2P Require Import Prelude.
Local Open Scope Z_scope.
#[local] Arguments Z.mul : simpl never.
#[local] Arguments Z.add : simpl never.
#[local] Arguments Z.sub : simpl never.

Definition HEADER_SIZE : Z := 4.

Section RecordStream.
Context (ptr_bits : Z).

Definition ptr (a : Z) : Z := a mod 2 ^ ptr_bits.

(** [buffer] is the address of the block [bytes_]. *)
Record RecordStream : Type := mkRecordStream {
  maxRecordLen : Z;
  buffer : Z;
  contents : list Z;
  unconsumed : Z;
  read_end : Z;
  buffer_end : Z
}.

Definition record_stream_new (address maxRecordLen : Z) (garbage : list Z) : RecordStream :=
  mkRecordStream maxRecordLen address garbage address address
    (ptr (address + maxRecordLen + HEADER_SIZE)).

(** Reads of the block by address. *)
Definition load_block (rs : RecordStream) (a n : Z) : result (list Z) :=
  read_block (contents rs) (a - buffer rs) n.

Definition ntohl (b : list Z) : Z :=
  match b with
  | [b0; b1; b2; b3] => b0 * 2 ^ 24 + b1 * 2 ^ 16 + b2 * 2 ^ 8 + b3
  | _ => 0
  end.

(** [None] is NULL: no full record. *)
Definition getEndOfRecord (rs : RecordStream) (p_begin p_end : Z) : result (option Z) :=
  if p_end <? ptr (p_begin + HEADER_SIZE) then Ok None
  else
    header ← load_block rs p_begin 4;
    let len := ntohl header in
    let p_ret := ptr (p_begin + HEADER_SIZE + len) in
    if p_end <? p_ret then Ok None else Ok (Some p_ret).

(** The start and the length of the record, and the stream after it. *)
Definition getNextRecord (rs : RecordStream) : result (option (Z * Z * RecordStream)) :=
  record_end ← getEndOfRecord rs (unconsumed rs) (read_end rs);
  match record_end with
  | Some record_end =>
      let record_start := ptr (unconsumed rs + HEADER_SIZE) in
      Ok (Some (record_start, ptr (record_end - record_start),
                mkRecordStream (maxRecordLen rs) (buffer rs) (contents rs) record_end
                  (read_end rs) (buffer_end rs)))
  | None => Ok None
  end.

(** What a call reports: a record (its bytes), the end of the stream, an error
    of [read], [EAGAIN]. *)
Inductive outcome : Type :=
  | GotRecord (record : list Z)
  | EndOfStream
  | ReadError
  | Again.

(** Lines 153-164: the remainder moves to the beginning of the buffer. *)
Definition compact (rs : RecordStream) : result RecordStream :=
  if negb (unconsumed rs =? buffer rs) then
    let toMove := ptr (read_end rs - unconsumed rs) in
    rest ← load_block rs (unconsumed rs) toMove;
    c ← write_block (contents rs) 0 rest;
    Ok (mkRecordStream (maxRecordLen rs) (buffer rs) c (buffer rs)
          (ptr (buffer rs + toMove)) (buffer_end rs))
  else Ok rs.

(** Lines 176-185 *)
Definition finish_read (rs : RecordStream) : result (RecordStream * outcome) :=
  next ← getNextRecord rs;
  match next with
  | None => Ok (rs, Again)
  | Some (start, len, rs') =>
      record ← load_block rs' start len; Ok (rs', GotRecord record)
  end.

(** [read] gets the room and returns the bytes, none at the end of the stream;
    [None] is an error. *)
Definition record_stream_get_next (rs : RecordStream) (read : Z -> option (list Z))
    : result (RecordStream * outcome) :=
  next ← getNextRecord rs;
  match next with
  | Some (start, len, rs') =>
      record ← load_block rs' start len; Ok (rs', GotRecord record)
  | None =>
      if (unconsumed rs =? buffer rs) && (read_end rs =? buffer_end rs) then Err FatalExit
      else
        rs ← compact rs;
        match read (ptr (buffer_end rs - read_end rs)) with
        | None => Ok (rs, ReadError)
        | Some [] => Ok (rs, EndOfStream)
        | Some got =>
            c ← write_block (contents rs) (read_end rs - buffer rs) got;
            let rs := mkRecordStream (maxRecordLen rs) (buffer rs) c (unconsumed rs)
                        (ptr (read_end rs + Z.of_nat (length got))) (buffer_end rs) in
            finish_read rs
        end
  end.

(** ** A descriptor: the bytes still to come and the sizes of the next pieces *)

Record source : Type := mkSource { coming : list Z; sizes : list nat }.

(** A [read] returns at least one byte while there are any, and at most the room. *)
Definition piece (src : source) (room : Z) : nat :=
  Nat.min (length (coming src)) (Nat.min (Z.to_nat room)
    (Nat.max 1 (default (length (coming src)) (head (sizes src))))).

Definition source_read (src : source) (room : Z) : option (list Z) :=
  Some (take (piece src room) (coming src)).

(** The source after a call that read [n] bytes. *)
Definition source_after (src : source) (n : nat) : source :=
  mkSource (drop n (coming src)) (tail (sizes src)).

(** Whether the call reads, and how much. *)
Definition bytes_read (rs : RecordStream) (src : source) : result (option nat) :=
  next ← getNextRecord rs;
  match next with
  | Some _ => Ok None
  | None => rs ← compact rs; Ok (Some (piece src (ptr (buffer_end rs - read_end rs))))
  end.

(** A caller that collects records until the end of the stream. *)
Fixpoint collect (fuel : nat) (rs : RecordStream) (src : source) (got : list (list Z))
    : result (list (list Z)) :=
  match fuel with
  | O => Err OutOfFuel
  | S fuel =>
      n ← bytes_read rs src;
      '(rs, o) ← record_stream_get_next rs (source_read src);
      let src := match n with None => src | Some n => source_after src n end in
      match o with
      | GotRecord r => collect fuel rs src (got ++ [r])
      | Again => collect fuel rs src got
      | EndOfStream | ReadError => Ok got
      end
  end.

(** ** The format *)

Definition htonl (n : Z) : list Z :=
  [n / 2 ^ 24; (n / 2 ^ 16) mod 2 ^ 8; (n / 2 ^ 8) mod 2 ^ 8; n mod 2 ^ 8].

Definition frame (r : list Z) : list Z := htonl (Z.of_nat (length r)) ++ r.

Definition frames (rs : list (list Z)) : list Z := concat (map frame rs).

Lemma ntohl_htonl n : 0 <= n < 2 ^ 32 -> ntohl (htonl n) = n.
Proof. intros. unfold ntohl, htonl. Z.div_mod_to_equations. lia. Qed.

Lemma frame_length r : length (frame r) = (4 + length r)%nat.
Proof. done. Qed.

(** The buffer holds [held], from offset [o]; [address] leaves room for the
    arithmetic of the pointers. *)
Record stream_inv (rs : RecordStream) (o : nat) (held : list Z) : Prop := {
  r_max : 0 <= maxRecordLen rs <= 0xffff;
  r_addr : 0 < buffer rs /\ buffer rs + 2 ^ 17 + 8 < 2 ^ ptr_bits;
  r_len : Z.of_nat (length (contents rs)) = maxRecordLen rs + 4;
  r_end : buffer_end rs = buffer rs + maxRecordLen rs + 4;
  r_un : unconsumed rs = buffer rs + Z.of_nat o;
  r_re : read_end rs = buffer rs + Z.of_nat (o + length held);
  r_held : slice (contents rs) o (length held) = held;
  r_fits : (o + length held <= length (contents rs))%nat
}.

Lemma ptr_small a : 0 <= a < 2 ^ ptr_bits -> ptr a = a.
Proof. intros. unfold ptr. by rewrite Z.mod_small. Qed.

Lemma slice_slice {A} (l : list A) o n a k :
  (a + k <= n)%nat -> slice (slice l o n) a k = slice l (o + a) k.
Proof.
  intros. unfold slice. rewrite <-(drop_drop l). rewrite skipn_firstn_comm, take_take. f_equal. lia.
Qed.

Lemma load_held rs o held a n :
  stream_inv rs o held -> (a + n <= length held)%nat ->
  load_block rs (buffer rs + Z.of_nat (o + a)) (Z.of_nat n) = Ok (slice held a n).
Proof.
  intros Hi Ha. unfold load_block, read_block. destruct Hi.
  rewrite decide_True by lia.
  replace (Z.to_nat (buffer rs + Z.of_nat (o + a) - buffer rs)) with (o + a)%nat by lia.
  rewrite Nat2Z.id. f_equal. rewrite <-r_held0 at 1. symmetry. by rewrite slice_slice.
Qed.

Lemma load_header rs o held :
  stream_inv rs o held -> (4 <= length held)%nat ->
  load_block rs (buffer rs + Z.of_nat o) 4 = Ok (slice held 0 4).
Proof.
  intros Hi Hl. rewrite <-(load_held rs o held 0 4 Hi) by lia. by rewrite Nat.add_0_r.
Qed.

Lemma slice_0_app {A} (l1 l2 : list A) n : n = length l1 -> slice (l1 ++ l2) 0 n = l1.
Proof. intros ->. unfold slice. rewrite drop_0. by rewrite take_app_length. Qed.

Lemma slice_app_2 {A} (l1 l2 : list A) k n : k = length l1 -> slice (l1 ++ l2) k n = take n l2.
Proof. intros ->. unfold slice. by rewrite drop_app_length. Qed.

(** ** One record *)

Lemma end_of_full rs o r rest :
  stream_inv rs o (frame r ++ rest) -> Z.of_nat (length r) <= maxRecordLen rs ->
  getEndOfRecord rs (unconsumed rs) (read_end rs) =
    Ok (Some (buffer rs + Z.of_nat (o + 4 + length r))).
Proof.
  intros Hi Hr. pose proof Hi as []. rewrite length_app, frame_length in r_fits0, r_re0.
  unfold getEndOfRecord, HEADER_SIZE. rewrite r_un0, r_re0.
  rewrite ptr_small by lia. rewrite (proj2 (Z.ltb_ge _ _)) by lia.
  rewrite (load_header rs o _ Hi) by (rewrite length_app, frame_length; lia).
  cbn [mbind result_bind]. unfold frame. rewrite <-app_assoc, slice_0_app by done.
  rewrite ntohl_htonl by lia.
  rewrite ptr_small by lia. rewrite (proj2 (Z.ltb_ge _ _)) by lia. do 2 f_equal. lia.
Qed.

Lemma getNextRecord_full rs o r rest :
  stream_inv rs o (frame r ++ rest) -> Z.of_nat (length r) <= maxRecordLen rs ->
  exists rs', getNextRecord rs =
      Ok (Some (buffer rs + Z.of_nat (o + 4), Z.of_nat (length r), rs')) /\
    maxRecordLen rs' = maxRecordLen rs /\ stream_inv rs' (o + 4 + length r) rest /\
    load_block rs' (buffer rs + Z.of_nat (o + 4)) (Z.of_nat (length r)) = Ok r.
Proof.
  intros Hi Hr. pose proof (load_held rs o _ 4 (length r) Hi) as Hload.
  unfold getNextRecord. rewrite (end_of_full rs o r rest Hi Hr). cbn [mbind result_bind].
  pose proof Hi as []. rewrite length_app, frame_length in *.
  unfold HEADER_SIZE. rewrite r_un0, !ptr_small by lia.
  eexists. split; [do 3 f_equal; f_equal; lia|]. split; [done|].
  split.
  - split; simpl; try lia.
    replace (o + 4 + length r)%nat with (o + (4 + length r))%nat by lia.
    rewrite <-(slice_slice _ o (4 + length r + length rest)) by lia.
    rewrite r_held0. unfold slice. rewrite drop_app_ge by (rewrite frame_length; lia).
    rewrite frame_length. replace (4 + length r - (4 + length r))%nat with 0%nat by lia.
    rewrite drop_0. by apply take_ge.
  - unfold load_block in *. simpl. rewrite Hload by lia. f_equal. unfold slice, frame.
    rewrite <-app_assoc. change (drop 4 (htonl _ ++ r ++ rest)) with (r ++ rest).
    apply take_app_length.
Qed.

Lemma getNextRecord_short rs o held :
  stream_inv rs o held -> (length held < 4)%nat -> getNextRecord rs = Ok None.
Proof.
  intros Hi Hl. unfold getNextRecord, getEndOfRecord, HEADER_SIZE. pose proof Hi as [].
  rewrite r_un0, r_re0, ptr_small by lia. by rewrite (proj2 (Z.ltb_lt _ _)) by lia.
Qed.

Lemma getNextRecord_partial rs o held x r y :
  stream_inv rs o held -> held ++ x = frame r ++ y -> (length held < 4 + length r)%nat ->
  Z.of_nat (length r) <= maxRecordLen rs -> getNextRecord rs = Ok None.
Proof.
  intros Hi Hh Hl Hr. destruct (decide (length held < 4)%nat) as [|H4];
    [by eapply getNextRecord_short|].
  unfold getNextRecord, getEndOfRecord, HEADER_SIZE. pose proof Hi as [].
  rewrite r_un0, r_re0, ptr_small by lia. rewrite (proj2 (Z.ltb_ge _ _)) by lia.
  rewrite (load_header rs o held Hi) by lia. cbn [mbind result_bind].
  assert (Hs : slice held 0 4 = htonl (Z.of_nat (length r))).
  { unfold slice. rewrite drop_0. transitivity (take 4 (held ++ x)).
    - by rewrite take_app_le by lia.
    - by rewrite Hh. }
  rewrite Hs, ntohl_htonl by lia. rewrite ptr_small by lia.
  by rewrite (proj2 (Z.ltb_lt _ _)) by lia.
Qed.

(** A complete frame at the head of the held bytes. *)
Lemma prefix_split (held x : list Z) r y :
  held ++ x = frame r ++ y -> ~ (length held < 4 + length r)%nat ->
  exists rest, held = frame r ++ rest /\ rest ++ x = y.
Proof.
  intros H Hl. exists (drop (4 + length r) held).
  assert (Ht : take (4 + length r) held = frame r).
  { transitivity (take (4 + length r) (held ++ x)); [by rewrite take_app_le by lia|].
    rewrite H. apply take_app_length'. by rewrite frame_length. }
  split; [by rewrite <-Ht, take_drop|].
  transitivity (drop (4 + length r) (held ++ x)); [by rewrite drop_app_le by lia|].
  rewrite H. apply drop_app_length'. by rewrite frame_length.
Qed.

(** ** Reading *)

Lemma compact_ok rs o held :
  stream_inv rs o held ->
  exists rs', compact rs = Ok rs' /\ stream_inv rs' 0 held /\ maxRecordLen rs' = maxRecordLen rs /\
    buffer_end rs' = buffer_end rs.
Proof.
  intros Hi. unfold compact. pose proof Hi as [].
  destruct (Z.eqb_spec (unconsumed rs) (buffer rs)) as [E|E]; cbn [negb].
  { exists rs. assert (o = 0)%nat as -> by lia. done. }
  rewrite (ptr_small (read_end rs - unconsumed rs)) by lia.
  replace (read_end rs - unconsumed rs) with (Z.of_nat (length held)) by lia.
  rewrite r_un0. replace (buffer rs + Z.of_nat o) with (buffer rs + Z.of_nat (o + 0)) by lia.
  rewrite (load_held rs o held 0 (length held) Hi) by lia. cbn [mbind result_bind].
  unfold slice. rewrite drop_0, firstn_all.
  rewrite write_block_ok by lia. cbn [mbind result_bind].
  rewrite (ptr_small (buffer rs + Z.of_nat (length held))) by lia.
  eexists. split; [done|]. split; [|done].
  split; simpl; try lia.
  - rewrite length_app, length_drop. lia.
  - by apply slice_0_app.
  - rewrite length_app, length_drop. lia.
Qed.

Lemma append_ok rs held got :
  stream_inv rs 0 held -> (length held + length got <= length (contents rs))%nat ->
  exists c, write_block (contents rs) (read_end rs - buffer rs) got = Ok c /\
    stream_inv (mkRecordStream (maxRecordLen rs) (buffer rs) c (unconsumed rs)
      (ptr (read_end rs + Z.of_nat (length got))) (buffer_end rs)) 0 (held ++ got).
Proof.
  intros Hi Hf. pose proof Hi as []. rewrite r_re0.
  replace (buffer rs + Z.of_nat (0 + length held) - buffer rs) with (Z.of_nat (length held)) by lia.
  destruct (write_block (contents rs) (Z.of_nat (length held)) got) as [c|e] eqn:E.
  2:{ by rewrite write_block_ok in E by lia. }
  exists c. split; [done|]. pose proof (write_block_length _ _ _ _ E) as Hlc.
  pose proof (write_block_take _ _ _ _ E) as Ht. rewrite Nat2Z.id in Ht.
  rewrite ptr_small by lia.
  split; simpl; try lia; rewrite length_app; try lia.
  unfold slice in *. rewrite drop_0 in *. rewrite Ht. by rewrite r_held0.
Qed.

Lemma reading_call rs o held src :
  getNextRecord rs = Ok None -> stream_inv rs o held -> coming src <> [] ->
  (length held < length (contents rs))%nat ->
  exists n rs1, bytes_read rs src = Ok (Some n) /\ (0 < n <= length (coming src))%nat /\
    stream_inv rs1 0 (held ++ take n (coming src)) /\ maxRecordLen rs1 = maxRecordLen rs /\
    record_stream_get_next rs (source_read src) = finish_read rs1.
Proof.
  intros Hn Hi Hc Hl. unfold bytes_read, record_stream_get_next. rewrite Hn.
  cbn [mbind result_bind]. pose proof Hi as [].
  replace ((unconsumed rs =? buffer rs) && (read_end rs =? buffer_end rs)) with false
    by (symmetry; apply andb_false_iff; destruct (Z.eqb_spec (unconsumed rs) (buffer rs));
        [right; apply Z.eqb_neq; lia|by left]).
  destruct (compact_ok rs o held Hi) as (rs0 & -> & Hi0 & Hm0 & He0). cbn [mbind result_bind].
  pose proof Hi0 as []. rewrite ptr_small by lia.
  set (n := piece src (buffer_end rs0 - read_end rs0)).
  assert (Hpos : (0 < length (coming src))%nat) by (destruct (coming src); simpl; [done|lia]).
  assert (Hn' : (0 < n)%nat) by (unfold n, piece; lia).
  unfold source_read. fold n.
  destruct (take n (coming src)) as [|b got] eqn:Eg.
  { apply (f_equal length) in Eg. rewrite length_take in Eg. simpl in Eg. lia. }
  rewrite <-Eg. clear b got Eg.
  destruct (append_ok rs0 held (take n (coming src)) Hi0) as (c & Hw & Hi1).
  { rewrite length_take. unfold n, piece. lia. }
  rewrite Hw. cbn [mbind result_bind]. eexists n, _.
  split; [done|]. split; [unfold n, piece in *; lia|]. split; [exact Hi1|]. by split.
Qed.

(** The stream ends when the records do. *)
Lemma end_step rs o src :
  stream_inv rs o [] -> coming src = [] ->
  exists rs' n, bytes_read rs src = Ok n /\
    record_stream_get_next rs (source_read src) = Ok (rs', EndOfStream).
Proof.
  intros Hi Hc. pose proof (getNextRecord_short rs o [] Hi) as Hn. simpl in Hn.
  unfold bytes_read, record_stream_get_next. rewrite Hn by lia. cbn [mbind result_bind].
  pose proof Hi as []. simpl in *.
  replace ((unconsumed rs =? buffer rs) && (read_end rs =? buffer_end rs)) with false
    by (symmetry; apply andb_false_iff; destruct (Z.eqb_spec (unconsumed rs) (buffer rs));
        [right; apply Z.eqb_neq; lia|by left]).
  destruct (compact_ok rs o [] Hi) as (rs0 & -> & _). cbn [mbind result_bind].
  unfold source_read. rewrite Hc, take_nil. by eexists _, _.
Qed.

(** A call while there is a record to come: it gets it, or makes progress. *)
Lemma record_step rs o held src r later :
  stream_inv rs o held -> held ++ coming src = frame r ++ frames later ->
  Z.of_nat (length r) <= maxRecordLen rs ->
  exists rs' n oc o' held',
    bytes_read rs src = Ok n /\ record_stream_get_next rs (source_read src) = Ok (rs', oc) /\
    maxRecordLen rs' = maxRecordLen rs /\ stream_inv rs' o' held' /\
    let src' := match n with None => src | Some n => source_after src n end in
    (length (coming src') <= length (coming src))%nat /\
    ((oc = GotRecord r /\ held' ++ coming src' = frames later) \/
     (oc = Again /\ held' ++ coming src' = frame r ++ frames later /\
      (length (coming src') < length (coming src))%nat)).
Proof.
  intros Hi Hh Hr. destruct (decide (length held < 4 + length r)%nat) as [Hlt|Hge].
  - pose proof (getNextRecord_partial rs o held _ r _ Hi Hh Hlt Hr) as Hn.
    assert (Hc : coming src <> []).
    { intros Hc. rewrite Hc, app_nil_r in Hh. subst held.
      rewrite length_app, frame_length in Hlt. lia. }
    pose proof Hi as [].
    destruct (reading_call rs o held src Hn Hi Hc) as (n & rs1 & Hb & Hn0 & Hi1 & Hm1 & ->); [lia|].
    assert (Hh1 : (held ++ take n (coming src)) ++ drop n (coming src) = frame r ++ frames later)
      by (by rewrite <-app_assoc, take_drop).
    assert (Hd : (length (drop n (coming src)) < length (coming src))%nat)
      by (rewrite length_drop; lia).
    destruct (decide (length (held ++ take n (coming src)) < 4 + length r)%nat) as [Hlt1|Hge1].
    + exists rs1, (Some n), Again, 0%nat, (held ++ take n (coming src)).
      unfold finish_read.
      rewrite (getNextRecord_partial rs1 0 _ _ r _ Hi1 Hh1 Hlt1) by (rewrite Hm1; exact Hr).
      split_and!; try done; [simpl; lia|]. right. by split_and!.
    + destruct (prefix_split _ _ _ _ Hh1 Hge1) as (rest & Hheld & Hrest).
      rewrite Hheld in Hi1.
      destruct (getNextRecord_full rs1 0 r rest Hi1) as (rs2 & Hg & Hm2 & Hi2 & Hl2);
        [by rewrite Hm1|].
      exists rs2, (Some n), (GotRecord r), (0 + 4 + length r)%nat, rest.
      unfold finish_read. rewrite Hg. cbn [mbind result_bind]. rewrite Hl2.
      split_and!; try done; [congruence|simpl; lia|by left].
  - destruct (prefix_split _ _ _ _ Hh ltac:(lia)) as (rest & -> & Hrest).
    destruct (getNextRecord_full rs o r rest Hi Hr) as (rs' & Hg & Hm & Hi' & Hl).
    exists rs', None, (GotRecord r), (o + 4 + length r)%nat, rest.
    unfold bytes_read, record_stream_get_next. rewrite Hg. cbn [mbind result_bind].
    rewrite Hl. split_and!; try done. by left.
Qed.

Lemma collect_records fuel rs o held src records got :
  stream_inv rs o held -> held ++ coming src = frames records ->
  Forall (fun r => Z.of_nat (length r) <= maxRecordLen rs) records ->
  (length (coming src) + length records < fuel)%nat ->
  collect fuel rs src got = Ok (got ++ records).
Proof.
  revert rs o held src records got; induction fuel as [|fuel IH];
    intros rs o held src records got Hi Hh Hall Hf; [lia|]. cbn [collect].
  destruct records as [|r later].
  - apply app_eq_nil in Hh as [-> Hc].
    destruct (end_step rs o src Hi Hc) as (rs' & n & -> & ->). by rewrite app_nil_r.
  - apply Forall_cons in Hall as [Hr Hall].
    destruct (record_step rs o held src r later Hi Hh Hr)
      as (rs' & n & oc & o' & held' & -> & -> & Hm & Hi' & Hle & Hor).
    cbn [mbind result_bind]. simpl in Hf.
    assert (Hall' : Forall (fun r => Z.of_nat (length r) <= maxRecordLen rs') later)
      by (by rewrite Hm).
    destruct Hor as [[-> Hh']|[-> [Hh' Hlt]]].
    + rewrite (IH rs' o' held' _ later); try done; [by rewrite <-app_assoc|lia].
    + apply (IH rs' o' held'); try done; [|simpl; lia].
      apply Forall_cons. by rewrite Hm.
Qed.

(** Framing: whatever the sizes of the pieces in which the bytes arrive
    (down to one byte at a time), a stream of records no longer than
    [maxRecordLen] is cut into exactly those records, in order; the buffer is
    never overrun, the "max record length exceeded" assertion never fails, and
    the collection ends. *)
Theorem record_stream_roundtrip address maxRecordLen garbage records sizes :
  0 <= maxRecordLen <= 0xffff ->
  0 < address -> address + 2 ^ 17 + 8 < 2 ^ ptr_bits ->
  Z.of_nat (length garbage) = maxRecordLen + HEADER_SIZE ->
  Forall (fun r => Z.of_nat (length r) <= maxRecordLen) records ->
  exists fuel, collect fuel (record_stream_new address maxRecordLen garbage)
      (mkSource (frames records) sizes) [] = Ok records.
Proof.
  intros Hm Ha Hp Hg Hr. exists (S (length (frames records) + length records)).
  apply (collect_records _ _ 0 [] _ records []); try done; [|simpl; lia].
  unfold HEADER_SIZE in *. split; simpl; try lia; [|done].
  rewrite ptr_small; unfold HEADER_SIZE; lia.
Qed.

End RecordStream.

(** A header above [maxRecordLen] is not caught before the buffer is full,
    when an assertion fails; with 32-bit pointers a header near 2^32 makes the
    end of the record wrap around below its start, and a record of almost 4 GB
    outside the buffer is handed out. *)
Theorem oversized_headers :
  (exists rs, (forall read, record_stream_get_next 32 rs read = Err FatalExit) /\
     contents rs = htonl 5 ++ [1; 2; 3; 4] /\ maxRecordLen rs = 4) /\
  (forall a b c d,
     let rs := mkRecordStream 4 0x1000 (htonl 0xfffffff8 ++ [a; b; c; d]) 0x1000 0x1004 0x1008 in
     exists rs', getNextRecord 32 rs = Ok (Some (0x1004, 0xfffffff8, rs')) /\
       unconsumed rs' = 0x1004 - 8).
Proof.
  split.
  - exists (mkRecordStream 4 0x1000 (htonl 5 ++ [1; 2; 3; 4]) 0x1000 0x1008 0x1008).
    split; [|done]. intros read. reflexivity.
  - intros a b c d rs.
    exists (mkRecordStream 4 0x1000 (htonl 0xfffffff8 ++ [a; b; c; d]) (0x1004 - 8) 0x1004 0x1008).
    split; [|reflexivity]. vm_compute. reflexivity.
Qed.

(** Two records and an empty one, in pieces of 1, 2, 3, ... bytes. *)
Lemma record_stream_roundtrip_witness :
  exists fuel, collect 64 fuel (record_stream_new 64 0x1000 5 (repeat 0 9))
      (mkSource (frames [[1; 2; 3; 4; 5]; []; [6; 7]]) [1%nat; 2%nat; 3%nat; 1%nat; 9%nat]) [] =
    Ok [[1; 2; 3; 4; 5]; []; [6; 7]].
Proof.
  apply (record_stream_roundtrip 64 0x1000 5 (repeat 0 9) [[1; 2; 3; 4; 5]; []; [6; 7]]).
  - lia.
  - lia.
  - lia.
  - reflexivity.
  - repeat constructor; simpl; lia.
Defined.
