(* ===== verification/CArray.v ===== *)
(** * libcutils: the growable array

    Models [src/libs/libcutils/array.c]: an array of pointers whose capacity
    doubles.  Whether an allocation succeeds is an argument of the operations
    that may allocate; a failed [assert] is a fault.  [sizeof (void * )] is
    [word_size].  Fresh memory is not initialised ([None]). *)
From S2P Require Import Prelude.
Local Open Scope Z_scope.
#[local] Arguments Z.mul : simpl never.
#[local] Arguments Z.add : simpl never.
#[local] Arguments Z.sub : simpl never.

Section CArray.
Context {V : Type} (NULL : V).
Context (word_size : Z).

Definition INITIAL_CAPACITY : Z := 4.
Definition UINT_MAX : Z := 4294967295.
Definition MAX_CAPACITY : Z := s32 (UINT_MAX / word_size).

(** [slots] has [capacity] entries once allocated; [allocated] is
    [contents != NULL]. *)
Record Array : Type := mkArray {
  slots : list (option V);
  allocated : bool;
  size : Z;
  capacity : Z
}.

Definition arrayCreate : Array := mkArray [] false 0 0.

(** The doubling loop of [ensureCapacity]. *)
Fixpoint double_loop (fuel : nat) (newCapacity capacity : Z) : result Z :=
  if newCapacity <? capacity then
    match fuel with
    | O => Err OutOfFuel
    | S fuel =>
        let newCap := s32 (newCapacity * 2) in
        let newCap :=
          if (newCap <? newCapacity) || (MAX_CAPACITY <? newCap) then MAX_CAPACITY else newCap in
        double_loop fuel newCap capacity
    end
  else Ok newCapacity.

(** Doubling reaches any [int] in 31 rounds. *)
Definition double_fuel : nat := 32.

(** [malloc] or [realloc]: the old entries are kept. *)
Definition resize (a : Array) (newCapacity : Z) : list (option V) :=
  let old := if allocated a then take (Z.to_nat newCapacity) (slots a) else [] in
  old ++ replicate (Z.to_nat newCapacity - length old) None.

(** The result is the C result: 0 or -1. *)
Definition ensureCapacity (alloc : bool) (a : Array) (wanted : Z) : result (Array * Z) :=
  let oldCapacity := capacity a in
  if oldCapacity <? wanted then
    let newCapacity := if oldCapacity =? 0 then INITIAL_CAPACITY else oldCapacity in
    if MAX_CAPACITY <? wanted then Ok (a, -1)
    else
      newCapacity ← double_loop double_fuel newCapacity wanted;
      if (newCapacity <? 0) || (MAX_CAPACITY <? newCapacity) then Ok (a, -1)
      else if negb alloc then Ok (a, -1)
      else Ok (mkArray (resize a newCapacity) true (size a) newCapacity, 0)
  else Ok (a, 0).

(** [contents[i] = v] and [contents[i]] (a read of uninitialised memory is a fault). *)
Definition store (a : Array) (i : Z) (v : V) : result Array :=
  s ← write_block (slots a) i [Some v];
  Ok (mkArray s (allocated a) (size a) (capacity a)).

Definition fetch (a : Array) (i : Z) : result V :=
  b ← read_block (slots a) i 1;
  match b with [Some v] => Ok v | _ => Err Uninitialised end.

Definition with_size (a : Array) (n : Z) : Array :=
  mkArray (slots a) (allocated a) n (capacity a).

Definition arrayAdd (alloc : bool) (a : Array) (pointer : V) : result (Array * Z) :=
  '(a', r) ← ensureCapacity alloc a (s32 (size a + 1));
  if r <? 0 then Ok (a', r)
  else a' ← store a' (size a) pointer; Ok (with_size a' (s32 (size a' + 1)), 0).

Definition checkBounds (a : Array) (index : Z) : result unit :=
  if index <? size a then if 0 <=? index then Ok tt else Err FatalExit else Err FatalExit.

Definition arrayGet (a : Array) (index : Z) : result V :=
  _ ← checkBounds a index; fetch a index.

Definition arrayRemove (a : Array) (index : Z) : result (Array * V) :=
  _ ← checkBounds a index;
  pointer ← fetch a index;
  let newSize := size a - 1 in
  if negb (index =? newSize) then
    moved ← read_block (slots a) (index + 1) (newSize - index);
    s ← write_block (slots a) index moved;
    Ok (mkArray s (allocated a) newSize (capacity a), pointer)
  else Ok (with_size a newSize, pointer).

Definition arraySet (a : Array) (index : Z) (pointer : V) : result (Array * V) :=
  _ ← checkBounds a index;
  old ← fetch a index;
  a ← store a index pointer;
  Ok (a, old).

(** The [memset]: [contents + sizeof(void* ) * oldSize] advances by that many
    entries. *)
Definition arraySetSize (alloc : bool) (a : Array) (newSize : Z) : result (Array * Z) :=
  if negb (0 <=? newSize) then Err FatalExit
  else
    let oldSize := size a in
    if oldSize <? newSize then
      '(a, r) ← ensureCapacity alloc a newSize;
      if r <? 0 then Ok (a, r)
      else
        s ← write_block (slots a) (word_size * oldSize)
              (replicate (Z.to_nat (newSize - oldSize)) (Some NULL));
        Ok (mkArray s (allocated a) newSize (capacity a), 0)
    else Ok (with_size a newSize, 0).

Definition arraySize (a : Array) : Z := size a.

(** ** The array as a list *)

Context (Hword : 4 <= word_size <= 8).

Lemma max_capacity : MAX_CAPACITY = UINT_MAX / word_size /\ 2 ^ 28 < MAX_CAPACITY < 2 ^ 30.
Proof.
  unfold MAX_CAPACITY, UINT_MAX.
  assert (2 ^ 28 < 4294967295 / word_size < 2 ^ 30) by (Z.div_mod_to_equations; nia).
  rewrite s32_small by lia. done.
Qed.

Lemma double_loop_ok fuel n c :
  0 < n <= MAX_CAPACITY -> c <= MAX_CAPACITY -> c <= n * 2 ^ Z.of_nat fuel ->
  exists n', double_loop fuel n c = Ok n' /\ c <= n' /\ n <= n' <= MAX_CAPACITY.
Proof.
  destruct max_capacity as [_ Hm]. revert n; induction fuel as [|fuel IH]; intros n Hn Hc Hf; simpl.
  - destruct (Z.ltb_spec n c); [lia|]. exists n. split; [done|lia].
  - destruct (Z.ltb_spec n c); [|exists n; split; [done|lia]].
    rewrite s32_small by lia. rewrite (proj2 (Z.ltb_ge (n * 2) n)) by lia. cbn [orb].
    rewrite Nat2Z.inj_succ, Z.pow_succ_r in Hf by lia.
    assert (0 < 2 ^ Z.of_nat fuel) by (apply Z.pow_pos_nonneg; lia).
    destruct (Z.ltb_spec MAX_CAPACITY (n * 2)).
    + destruct (IH MAX_CAPACITY) as (n' & -> & Hq1 & Hq2); [lia|done|nia|].
      exists n'. split; [done|lia].
    + destruct (IH (n * 2)) as (n' & -> & Hq1 & Hq2); [lia|done|nia|].
      exists n'. split; [done|lia].
Qed.

(** The array holds the list [l]. *)
Record holds (a : Array) (l : list V) : Prop := {
  h_size : size a = Z.of_nat (length l);
  h_cap : 0 <= capacity a <= MAX_CAPACITY;
  h_slots : Z.of_nat (length (slots a)) = capacity a;
  h_alloc : allocated a = negb (capacity a =? 0);
  h_vals : take (length l) (slots a) = map Some l;
  h_fits : (length l <= length (slots a))%nat
}.

Lemma ensureCapacity_ok alloc a l wanted :
  holds a l -> 0 <= wanted ->
  exists a' r, ensureCapacity alloc a wanted = Ok (a', r) /\ holds a' l /\
    (r = -1 /\ a' = a /\ (alloc = false \/ MAX_CAPACITY < wanted) \/ r = 0 /\ wanted <= capacity a').
Proof.
  intros Hh Hw. unfold ensureCapacity. destruct (Z.ltb_spec (capacity a) wanted) as [Hlt|Hge].
  2:{ exists a, 0. split; [done|]. split; [done|]. by right. }
  destruct (Z.ltb_spec MAX_CAPACITY wanted) as [Hbig|Hok].
  { exists a, (-1). split; [done|]. split; [done|]. left. auto. }
  pose proof max_capacity as [_ Hm]. pose proof Hh as [].
  assert (Hn : 0 < (if capacity a =? 0 then INITIAL_CAPACITY else capacity a) <= MAX_CAPACITY)
    by (unfold INITIAL_CAPACITY; destruct (Z.eqb_spec (capacity a) 0); lia).
  destruct (double_loop_ok double_fuel _ wanted Hn Hok) as (n & -> & H1 & H2).
  { unfold double_fuel. change (2 ^ Z.of_nat 32) with 4294967296. nia. }
  cbn [mbind result_bind].
  rewrite (proj2 (Z.ltb_ge n 0)), (proj2 (Z.ltb_ge MAX_CAPACITY n)) by lia. cbn [orb].
  destruct alloc; cbn [negb].
  2:{ exists a, (-1). split; [done|]. split; [done|]. left. auto. }
  eexists _, 0. split; [done|]. split; [|by right].
  assert (Hc : capacity a <= n) by (destruct (Z.eqb_spec (capacity a) 0); lia).
  assert (Hr : resize a n = slots a ++ replicate (Z.to_nat n - length (slots a)) None).
  { unfold resize. rewrite h_alloc0. destruct (Z.eqb_spec (capacity a) 0) as [E|E]; cbn [negb].
    - assert (slots a = []) as -> by (apply length_zero_iff_nil; lia). done.
    - rewrite take_ge by lia. done. }
  split; simpl; rewrite ?Hr.
  - done.
  - lia.
  - rewrite length_app, length_replicate. lia.
  - destruct (Z.eqb_spec n 0); [lia|done].
  - by rewrite take_app_le.
  - rewrite length_app. lia.
Qed.

Lemma lookup_held a l i v : holds a l -> l !! i = Some v -> slots a !! i = Some (Some v).
Proof.
  intros Hh Hi. pose proof (lookup_lt_Some _ _ _ Hi).
  rewrite <-(lookup_take_lt (slots a) (length l)) by done.
  rewrite (h_vals a l Hh), list_lookup_fmap, Hi. done.
Qed.

Lemma fetch_held a l i v :
  holds a l -> 0 <= i -> l !! Z.to_nat i = Some v -> fetch a i = Ok v.
Proof.
  intros Hh H0 Hi. unfold fetch, read_block. pose proof (lookup_lt_Some _ _ _ Hi).
  destruct Hh as [] eqn:E. clear E. rewrite decide_True by lia.
  unfold slice. erewrite drop_S by (eapply lookup_held; [|exact Hi]; by split).
  done.
Qed.

Lemma held_take a l n :
  holds a l -> (n <= length l)%nat -> take n (slots a) = map Some (take n l).
Proof.
  intros Hh Hn. rewrite <-firstn_map, <-(h_vals a l Hh), take_take. f_equal. lia.
Qed.

Lemma store_held a l i v :
  holds a l -> 0 <= i < capacity a -> i <= Z.of_nat (length l) ->
  exists a', store a i v = Ok a' /\ allocated a' = allocated a /\ size a' = size a /\
    capacity a' = capacity a /\ length (slots a') = length (slots a) /\
    take (length l) (slots a') = map Some (<[Z.to_nat i := v]> l) /\
    take (Z.to_nat i + 1) (slots a') = map Some (take (Z.to_nat i) l) ++ [Some v].
Proof.
  intros Hh Hi Hl. pose proof Hh as []. unfold store.
  destruct (write_block (slots a) i [Some v]) as [s|e] eqn:E.
  2:{ by rewrite write_block_ok in E by (simpl; lia). }
  cbn [mbind result_bind]. eexists. split; [done|]. split_and!; try done; simpl.
  - by eapply write_block_length.
  - assert (Hs : s = <[Z.to_nat i := Some v]> (slots a)).
    { rewrite write_block_ok in E by (simpl; lia). injection E as <-. simpl.
      rewrite insert_take_drop by lia. by rewrite Nat.add_1_r. }
    rewrite Hs. rewrite take_insert, h_vals0.
    destruct (decide (Z.to_nat i < length l)%nat).
    + apply list_eq. intros j. rewrite list_lookup_fmap.
      destruct (decide (j = Z.to_nat i)) as [->|Hne].
      * rewrite !list_lookup_insert_eq by (rewrite ?length_map; lia). done.
      * by rewrite !list_lookup_insert_ne, list_lookup_fmap by done.
    + rewrite !list_insert_ge by (rewrite ?length_map; lia). done.
  - pose proof (write_block_take _ _ _ _ E) as Ht. simpl in Ht. rewrite Ht. f_equal.
    by apply (held_take a l); [|lia].
Qed.

Lemma arrayAdd_ok alloc a l v :
  holds a l ->
  exists a' r, arrayAdd alloc a v = Ok (a', r) /\
    (r = -1 /\ holds a' l /\ (alloc = false \/ MAX_CAPACITY <= Z.of_nat (length l)) \/
     r = 0 /\ holds a' (l ++ [v])).
Proof.
  intros Hh. pose proof Hh as []. pose proof max_capacity as [_ Hm].
  unfold arrayAdd. rewrite s32_small by lia.
  destruct (ensureCapacity_ok alloc a l (size a + 1) Hh) as (a1 & r & -> & Hh1 & Hr); [lia|].
  cbn [mbind result_bind]. destruct Hr as [(-> & -> & Hw)|[-> Hw]].
  { exists a, (-1). split; [done|]. left. split; [done|]. split; [done|].
    destruct Hw as [|Hw]; [by left|right; lia]. }
  rewrite (proj2 (Z.ltb_ge 0 0)) by lia. pose proof Hh1 as [].
  destruct (store_held a1 l (size a) v Hh1) as (a2 & -> & Ha & Hs & Hc & Hl & _ & Ht); [lia|lia|].
  cbn [mbind result_bind]. eexists _, 0. split; [done|]. right. split; [done|].
  split; simpl; rewrite ?length_app, ?Hs, ?Hc, ?Ha; simpl; try lia; try congruence.
  - rewrite s32_small; lia.
  - replace (length l + 1)%nat with (Z.to_nat (size a) + 1)%nat by lia. rewrite Ht, map_app.
    f_equal. f_equal. apply take_ge. lia.
Qed.

Lemma checkBounds_ok a l i :
  holds a l ->
  checkBounds a i = if decide (0 <= i < Z.of_nat (length l)) then Ok tt else Err FatalExit.
Proof.
  intros Hh. unfold checkBounds. rewrite (h_size a l Hh).
  destruct (Z.ltb_spec i (Z.of_nat (length l))); destruct (Z.leb_spec 0 i);
    (rewrite decide_True by lia; done) || (rewrite decide_False by lia; done).
Qed.

Lemma arrayRemove_ok a l i v :
  holds a l -> 0 <= i -> l !! Z.to_nat i = Some v ->
  exists a', arrayRemove a i = Ok (a', v) /\ holds a' (delete (Z.to_nat i) l).
Proof.
  intros Hh H0 Hi. pose proof (lookup_lt_Some _ _ _ Hi) as Hlt. pose proof Hh as [].
  unfold arrayRemove. rewrite (checkBounds_ok a l i Hh), decide_True by lia.
  cbn [mbind result_bind]. rewrite (fetch_held a l i v Hh H0 Hi). cbn [mbind result_bind].
  assert (Hd : length (delete (Z.to_nat i) l) = (length l - 1)%nat)
    by (rewrite length_delete by (by eexists); lia).
  destruct (Z.eqb_spec i (size a - 1)) as [E|E]; cbn [negb].
  - eexists. split; [done|]. split; simpl; rewrite ?Hd; try done; try lia.
    replace (Z.to_nat i) with (length l - 1)%nat by lia. rewrite delete_take_drop.
    replace (S (length l - 1)) with (length l) by lia. rewrite drop_all, app_nil_r.
    by apply (held_take a l); [|lia].
  - unfold read_block. rewrite decide_True by lia. cbn [mbind result_bind].
    set (moved := slice _ _ _).
    assert (Hm : moved = map Some (drop (S (Z.to_nat i)) l)).
    { unfold moved, slice. rewrite <-skipn_map, <-h_vals0.
      rewrite skipn_firstn_comm. f_equal; [lia|]. f_equal. lia. }
    assert (Hml : length moved = (length l - S (Z.to_nat i))%nat)
      by (rewrite Hm, length_map, length_drop; lia).
    destruct (write_block (slots a) i moved) as [s|e] eqn:Ew.
    2:{ by rewrite write_block_ok in Ew by lia. }
    cbn [mbind result_bind]. eexists. split; [done|].
    pose proof (write_block_length _ _ _ _ Ew) as Hsl.
    pose proof (write_block_take _ _ _ _ Ew) as Ht.
    split; simpl; rewrite ?Hd; try done; try lia.
    replace (length l - 1)%nat with (Z.to_nat i + length moved)%nat by lia.
    rewrite Ht, Hm, delete_take_drop, map_app. f_equal.
    by apply (held_take a l); [|lia].
Qed.

Lemma arraySet_ok a l i v old :
  holds a l -> 0 <= i -> l !! Z.to_nat i = Some old ->
  exists a', arraySet a i v = Ok (a', old) /\ holds a' (<[Z.to_nat i := v]> l).
Proof.
  intros Hh H0 Hi. pose proof (lookup_lt_Some _ _ _ Hi) as Hlt. pose proof Hh as [].
  unfold arraySet. rewrite (checkBounds_ok a l i Hh), decide_True by lia.
  cbn [mbind result_bind]. rewrite (fetch_held a l i old Hh H0 Hi). cbn [mbind result_bind].
  destruct (store_held a l i v Hh) as (a' & -> & Ha & Hs & Hc & Hl & Ht & _); [lia|lia|].
  cbn [mbind result_bind]. exists a'. split; [done|].
  split; rewrite ?length_insert; try lia; try congruence.
Qed.

Lemma arraySetSize_shrink alloc a l n :
  holds a l -> 0 <= n <= Z.of_nat (length l) ->
  exists a', arraySetSize alloc a n = Ok (a', 0) /\ holds a' (take (Z.to_nat n) l).
Proof.
  intros Hh Hn. pose proof Hh as []. unfold arraySetSize.
  rewrite (proj2 (Z.leb_le 0 n)), (proj2 (Z.ltb_ge (size a) n)) by lia. cbn [negb].
  eexists. split; [done|]. split; simpl; rewrite ?length_take; try lia; [done|].
  rewrite <-firstn_map, <-h_vals0, take_take. by rewrite Nat.min_l by lia.
Qed.

(** ** Sequences of operations *)

(** [alloc]: whether the allocation succeeds if the call needs one. *)
Inductive op : Type :=
  | OAdd (alloc : bool) (v : V)
  | OGet (index : Z)
  | OSet (index : Z) (v : V)
  | ORemove (index : Z)
  | OSize.

Inductive out : Type := RInt (n : Z) | RVal (v : V).

Definition run_op (a : Array) (o : op) : result (Array * out) :=
  match o with
  | OAdd alloc v => '(a, r) ← arrayAdd alloc a v; Ok (a, RInt r)
  | OGet i => v ← arrayGet a i; Ok (a, RVal v)
  | OSet i v => '(a, old) ← arraySet a i v; Ok (a, RVal old)
  | ORemove i => '(a, v) ← arrayRemove a i; Ok (a, RVal v)
  | OSize => Ok (a, RInt (arraySize a))
  end.

Fixpoint run_ops (a : Array) (ops : list op) : result (Array * list out) :=
  match ops with
  | [] => Ok (a, [])
  | o :: ops =>
      '(a, r) ← run_op a o;
      '(a, rs) ← run_ops a ops;
      Ok (a, r :: rs)
  end.

(** What the operations do to a list, for one answer. *)
Definition spec_op (l : list V) (o : op) (r : out) (l' : list V) : Prop :=
  match o, r with
  | OAdd alloc v, RInt n =>
      n = 0 /\ l' = l ++ [v] \/
      n = -1 /\ l' = l /\ (alloc = false \/ MAX_CAPACITY <= Z.of_nat (length l))
  | OGet i, RVal v => l !! Z.to_nat i = Some v /\ l' = l
  | OSet i v, RVal old => l !! Z.to_nat i = Some old /\ l' = <[Z.to_nat i := v]> l
  | ORemove i, RVal v => l !! Z.to_nat i = Some v /\ l' = delete (Z.to_nat i) l
  | OSize, RInt n => n = Z.of_nat (length l) /\ l' = l
  | _, _ => False
  end.

Fixpoint spec_ops (l : list V) (ops : list op) (rs : list out) (l' : list V) : Prop :=
  match ops, rs with
  | [], [] => l' = l
  | o :: ops, r :: rs => exists l1, spec_op l o r l1 /\ spec_ops l1 ops rs l'
  | _, _ => False
  end.

(** The index is inside the list. *)
Definition in_range (l : list V) (o : op) : bool :=
  match o with
  | OGet i | OSet i _ | ORemove i => (0 <=? i) && (i <? Z.of_nat (length l))
  | OAdd _ _ | OSize => true
  end.

Lemma index_in_range (l : list V) i :
  (0 <=? i) && (i <? Z.of_nat (length l)) = true -> 0 <= i /\ exists v, l !! Z.to_nat i = Some v.
Proof.
  intros [?%Z.leb_le ?%Z.ltb_lt]%andb_prop. split; [done|]. apply lookup_lt_is_Some_2. lia.
Qed.

Lemma array_op_ok a l o :
  holds a l -> in_range l o = true ->
  exists a' r l', run_op a o = Ok (a', r) /\ spec_op l o r l' /\ holds a' l'.
Proof.
  intros Hh Hr. destruct o as [alloc v|i|i v|i|]; simpl in *.
  - destruct (arrayAdd_ok alloc a l v Hh) as (a' & r & -> & Hor). cbn [mbind result_bind].
    destruct Hor as [(-> & Hh' & Hw)|[-> Hh']]; eexists _, _, _; (split; [done|]).
    + split; [by right|done].
    + split; [by left|done].
  - apply index_in_range in Hr as (H0 & v & Hv). unfold arrayGet.
    rewrite (checkBounds_ok a l i Hh), decide_True by (apply lookup_lt_Some in Hv; lia).
    cbn [mbind result_bind]. rewrite (fetch_held a l i v Hh H0 Hv). by eexists _, _, _.
  - apply index_in_range in Hr as (H0 & old & Hv).
    destruct (arraySet_ok a l i v old Hh H0 Hv) as (a' & -> & Hh'). by eexists _, _, _.
  - apply index_in_range in Hr as (H0 & v & Hv).
    destruct (arrayRemove_ok a l i v Hh H0 Hv) as (a' & -> & Hh'). by eexists _, _, _.
  - eexists _, _, _. split; [done|]. split; [|done]. split; [|done]. apply Hh.
Qed.

Lemma run_op_assert a l o :
  holds a l -> in_range l o = false -> run_op a o = Err FatalExit.
Proof.
  intros Hh Hr. destruct o as [alloc v|i|i v|i|]; simpl in *; try done;
    unfold arrayGet, arraySet, arrayRemove; rewrite (checkBounds_ok a l i Hh);
    (rewrite decide_False; [done|]); intros ?;
    apply andb_false_iff in Hr as [?%Z.leb_gt|?%Z.ltb_ge]; lia.
Qed.

Lemma holds_create : holds arrayCreate [].
Proof. pose proof max_capacity as [_ H]. split; simpl; try done; lia. Qed.

Lemma array_ops_ok a l ops :
  holds a l ->
  match run_ops a ops with
  | Ok (a', rs) => exists l', spec_ops l ops rs l' /\ holds a' l'
  | Err e => e = FatalExit
  end.
Proof.
  revert a l; induction ops as [|o ops IH]; intros a l Hh; simpl; [by exists l|].
  destruct (in_range l o) eqn:Hr.
  - destruct (array_op_ok a l o Hh Hr) as (a1 & r & l1 & -> & Hs & Hh1). cbn [mbind result_bind].
    specialize (IH a1 l1 Hh1). destruct (run_ops a1 ops) as [[a2 rs]|e]; cbn [mbind result_bind].
    + destruct IH as (l2 & Hs2 & Hh2). exists l2. split; [by exists l1|done].
    + done.
  - by rewrite (run_op_assert a l o Hh Hr).
Qed.

(** The array is a list: after any sequence of additions, reads, writes,
    removals and size queries from an empty array, the answers are those of a
    list, an addition is refused only when memory is short or the array is
    full, the element storage is never overrun and no element is read before
    it is written; only an index outside the list stops the run, by assertion. *)
Theorem array_is_a_list ops :
  match run_ops arrayCreate ops with
  | Ok (a, rs) => exists l, spec_ops [] ops rs l /\ holds a l
  | Err e => e = FatalExit
  end.
Proof. apply array_ops_ok, holds_create. Qed.

(** [arraySetSize] cuts a list correctly, but cannot grow a non-empty one:
    the offset of the [memset] is scaled twice, so that it clears entries from
    [word_size * oldSize] on, outside the array unless its capacity is that
    much larger than its size. *)
Theorem array_set_size alloc a l n :
  holds a l ->
  (0 <= n <= Z.of_nat (length l) ->
   exists a', arraySetSize alloc a n = Ok (a', 0) /\ holds a' (take (Z.to_nat n) l)) /\
  (0 < Z.of_nat (length l) < n -> n <= capacity a ->
   capacity a < word_size * Z.of_nat (length l) + (n - Z.of_nat (length l)) ->
   arraySetSize alloc a n = Err OutOfBounds).
Proof.
  intros Hh. split; [by apply arraySetSize_shrink|]. intros Hn Hc Hw. pose proof Hh as [].
  unfold arraySetSize. rewrite (proj2 (Z.leb_le 0 n)), (proj2 (Z.ltb_lt (size a) n)) by lia.
  cbn [negb]. unfold ensureCapacity. rewrite (proj2 (Z.ltb_ge (capacity a) n)) by lia.
  cbn [mbind result_bind]. rewrite (proj2 (Z.ltb_ge 0 0)) by lia.
  rewrite write_block_err; [done|]. rewrite length_replicate. lia.
Qed.

End CArray.

Lemma array_is_a_list_witness :
  match run_ops 8 arrayCreate
    [OAdd true 1; OAdd true 2; OAdd true 3; OAdd true 4; OAdd false 5; OAdd true 6;
     ORemove 1; OSet 0 9; OGet 2; OSize] with
  | Ok (a, rs) => exists l, spec_ops 8 [] [OAdd true 1; OAdd true 2; OAdd true 3; OAdd true 4;
      OAdd false 5; OAdd true 6; ORemove 1; OSet 0 9; OGet 2; OSize] rs l /\ holds 8 a l
  | Err e => e = FatalExit
  end.
Proof.
  apply (array_is_a_list 8). lia.
Defined.

(** An array of two elements in four slots grows to three. *)
Lemma array_set_size_witness :
  let a := mkArray [Some 1; Some 2; None; None] true 2 4 in
  arraySetSize 0 8 true a 3 = Err OutOfBounds.
Proof.
  apply (array_set_size 0 8 true (mkArray [Some 1; Some 2; None; None] true 2 4) [1; 2]).
  - split; try reflexivity; simpl; try lia. pose proof (max_capacity 8 ltac:(lia)) as [_ H]; lia.
  - simpl. lia.
  - simpl. lia.
  - simpl. lia.
Defined.
