(* ===== verification/LogFilter.v ===== *)
(** * liblog: filter specifications

    Models the filters of [src/libs/liblog/logprint.c]: priorities and their
    characters, rules such as [AT:d] and [*:i], filter strings split by
    [strsep], and the decision to print a line.  Strings are the lists of
    their bytes, without the terminator. *)
From S2P Require Import Prelude.
Local Open Scope Z_scope.

(** [android_LogPriority], in the order of the enumeration. *)
Inductive LogPriority : Type :=
  | LOG_UNKNOWN | LOG_DEFAULT | LOG_VERBOSE | LOG_DEBUG | LOG_INFO
  | LOG_WARN | LOG_ERROR | LOG_FATAL | LOG_SILENT.

#[export] Instance LogPriority_eq_dec : EqDecision LogPriority.
Proof. solve_decision. Defined.

Definition priority_value (p : LogPriority) : Z :=
  match p with
  | LOG_UNKNOWN => 0 | LOG_DEFAULT => 1 | LOG_VERBOSE => 2 | LOG_DEBUG => 3 | LOG_INFO => 4
  | LOG_WARN => 5 | LOG_ERROR => 6 | LOG_FATAL => 7 | LOG_SILENT => 8
  end.

(** The cast of an [int] of the range 0-7 to [android_LogPriority]. *)
Definition priority_of (n : Z) : LogPriority :=
  match n with
  | 1 => LOG_DEFAULT | 2 => LOG_VERBOSE | 3 => LOG_DEBUG | 4 => LOG_INFO
  | 5 => LOG_WARN | 6 => LOG_ERROR | 7 => LOG_FATAL | 8 => LOG_SILENT
  | _ => LOG_UNKNOWN
  end.

(** [AndroidLogPrintFormat] *)
Inductive LogPrintFormat : Type :=
  | FORMAT_OFF | FORMAT_BRIEF | FORMAT_PROCESS | FORMAT_TAG | FORMAT_THREAD
  | FORMAT_RAW | FORMAT_TIME | FORMAT_THREADTIME | FORMAT_LONG.

Definition FilterInfo : Type := list Z * LogPriority.

Record AndroidLogFormat : Type := mkFormat {
  global_pri : LogPriority;
  filters : list FilterInfo;
  format : LogPrintFormat
}.

Definition tolower (c : Z) : Z := if (65 <=? c) && (c <=? 90) then c + 32 else c.

(** The letter of a one-letter string literal. *)
Definition chr (s : string) : Z := List.hd 0 (bytes s).

Definition filterCharToPri (c0 : Z) : LogPriority :=
  let c := tolower c0 in
  if (chr "0" <=? c) && (c <=? chr "9") then
    if chr "0" + priority_value LOG_SILENT <=? c then LOG_VERBOSE
    else priority_of (c - chr "0")
  else if c =? chr "v" then LOG_VERBOSE
  else if c =? chr "d" then LOG_DEBUG
  else if c =? chr "i" then LOG_INFO
  else if c =? chr "w" then LOG_WARN
  else if c =? chr "e" then LOG_ERROR
  else if c =? chr "f" then LOG_FATAL
  else if c =? chr "s" then LOG_SILENT
  else if c =? chr "*" then LOG_DEFAULT
  else LOG_UNKNOWN.

Definition filterPriToChar (pri : LogPriority) : Z :=
  match pri with
  | LOG_VERBOSE => chr "V"
  | LOG_DEBUG => chr "D"
  | LOG_INFO => chr "I"
  | LOG_WARN => chr "W"
  | LOG_ERROR => chr "E"
  | LOG_FATAL => chr "F"
  | LOG_SILENT => chr "S"
  | LOG_DEFAULT | LOG_UNKNOWN => chr "?"
  end.

(** The loop over the list of filters. *)
Fixpoint find_filter (filters : list FilterInfo) (tag : list Z) (global : LogPriority)
    : LogPriority :=
  match filters with
  | [] => global
  | (mTag, mPri) :: p_next =>
      if bool_decide (tag = mTag) then
        if decide (mPri = LOG_DEFAULT) then global else mPri
      else find_filter p_next tag global
  end.

Definition filterPriForTag (f : AndroidLogFormat) (tag : list Z) : LogPriority :=
  find_filter (filters f) tag (global_pri f).

Definition android_log_shouldPrintLine (f : AndroidLogFormat) (tag : list Z)
    (pri : LogPriority) : bool :=
  priority_value (filterPriForTag f tag) <=? priority_value pri.

Definition android_log_format_new : AndroidLogFormat := mkFormat LOG_VERBOSE [] FORMAT_BRIEF.

Definition android_log_setPrintFormat (f : AndroidLogFormat) (fmt : LogPrintFormat)
    : AndroidLogFormat := mkFormat (global_pri f) (filters f) fmt.

Definition android_log_formatFromString (s : list Z) : LogPrintFormat :=
  if bool_decide (s = bytes "brief") then FORMAT_BRIEF
  else if bool_decide (s = bytes "process") then FORMAT_PROCESS
  else if bool_decide (s = bytes "tag") then FORMAT_TAG
  else if bool_decide (s = bytes "thread") then FORMAT_THREAD
  else if bool_decide (s = bytes "raw") then FORMAT_RAW
  else if bool_decide (s = bytes "time") then FORMAT_TIME
  else if bool_decide (s = bytes "threadtime") then FORMAT_THREADTIME
  else if bool_decide (s = bytes "long") then FORMAT_LONG
  else FORMAT_OFF.

(** [strcspn (s, reject)]: the length of the prefix without a byte of [reject]. *)
Fixpoint strcspn (s reject : list Z) : nat :=
  match s with
  | [] => 0
  | c :: s => if bool_decide (c ∈ reject) then 0 else S (strcspn s reject)
  end.

(** The byte at an offset of a C string: the terminator right after the end. *)
Definition char_at (s : list Z) (i : nat) : Z := default 0 (s !! i).

(** [strncmp (a, b, n) == 0] *)
Fixpoint strncmp_eq (a b : list Z) (n : nat) : bool :=
  match n with
  | O => true
  | S n =>
      match a, b with
      | [], [] => true
      | x :: a, y :: b => (x =? y) && strncmp_eq a b n
      | _, _ => false
      end
  end.

(** [None] is the result -1. *)
Definition android_log_addFilterRule (f : AndroidLogFormat) (filterExpression : list Z)
    : option AndroidLogFormat :=
  let tagNameLength := strcspn filterExpression (bytes ":") in
  if (tagNameLength =? 0)%nat then None
  else
    let colon := char_at filterExpression tagNameLength =? chr ":" in
    let pri := if colon then filterCharToPri (char_at filterExpression (tagNameLength + 1))
               else LOG_DEFAULT in
    if colon && bool_decide (pri = LOG_UNKNOWN) then None
    else if strncmp_eq (bytes "*") filterExpression tagNameLength then
      let pri := if decide (pri = LOG_DEFAULT) then LOG_DEBUG else pri in
      Some (mkFormat pri (filters f) (format f))
    else
      let pri := if decide (pri = LOG_DEFAULT) then LOG_VERBOSE else pri in
      let tagName := take tagNameLength filterExpression in
      Some (mkFormat (global_pri f) ((tagName, pri) :: filters f) (format f)).

(** [strsep (&p_cur, delim)]: the token and the rest, [None] when there is no
    delimiter left. *)
Definition strsep (p_cur delim : list Z) : list Z * option (list Z) :=
  let n := strcspn p_cur delim in
  (take n p_cur, match drop n p_cur with [] => None | _ :: rest => Some rest end).

Definition DELIM : list Z := [32; 9; 44].

(** The loop of [android_log_addFilterString]; the rules added before an
    invalid one stay, as [p_format] is changed in place. *)
Fixpoint filter_string_loop (fuel : nat) (f : AndroidLogFormat) (p_cur : option (list Z))
    : result (AndroidLogFormat * Z) :=
  match p_cur with
  | None => Ok (f, 0)
  | Some s =>
      match fuel with
      | O => Err OutOfFuel
      | S fuel =>
          let '(p_ret, p_cur) := strsep s DELIM in
          match p_ret with
          | [] => filter_string_loop fuel f p_cur
          | _ :: _ =>
              match android_log_addFilterRule f p_ret with
              | None => Ok (f, -1)
              | Some f => filter_string_loop fuel f p_cur
              end
          end
      end
  end.

(** Each token takes at least its delimiter. *)
Definition android_log_addFilterString (f : AndroidLogFormat) (filterString : list Z)
    : result (AndroidLogFormat * Z) :=
  filter_string_loop (S (length filterString)) f (Some filterString).

(** ** What a filter string means *)

(** The tokens of a string: the maximal pieces without a delimiter. *)
Fixpoint tokens (s word : list Z) : list (list Z) :=
  match s with
  | [] => [word]
  | c :: s => if bool_decide (c ∈ DELIM) then word :: tokens s [] else tokens s (word ++ [c])
  end.

Definition rule_words (s : list Z) : list (list Z) :=
  List.filter (fun w => match w with [] => false | _ => true end) (tokens s []).

(** A rule: the tag and the priority it stands for; [None] when it is invalid. *)
Definition parse_rule (w : list Z) : option (list Z * LogPriority) :=
  let tag := take (strcspn w (bytes ":")) w in
  let spec := drop (strcspn w (bytes ":")) w in
  if bool_decide (tag = []) then None
  else
    let pri := match spec with [] => LOG_DEFAULT | _ :: r => filterCharToPri (List.hd 0 r) end in
    let fallback := if bool_decide (tag = bytes "*") then LOG_DEBUG else LOG_VERBOSE in
    match pri with
    | LOG_UNKNOWN => None
    | LOG_DEFAULT => Some (tag, fallback)
    | p => Some (tag, p)
    end.

(** The priority of the last rule for a name. *)
Definition last_rule (rules : list (list Z * LogPriority)) (name : list Z) : option LogPriority :=
  foldl (fun found r => if bool_decide (r.1 = name) then Some r.2 else found) None rules.

(** The meaning of a list of rules: the last rule for the tag, or the last
    global one, or everything. *)
Definition priority_for (rules : list (list Z * LogPriority)) (tag : list Z) : LogPriority :=
  match last_rule (List.filter (fun r => negb (bool_decide (r.1 = bytes "*"))) rules) tag with
  | Some p => p
  | None => default LOG_VERBOSE (last_rule rules (bytes "*"))
  end.

(** The valid prefix of a list of words, and whether it is the whole list. *)
Fixpoint parse_rules (ws : list (list Z)) : list (list Z * LogPriority) * bool :=
  match ws with
  | [] => ([], true)
  | w :: ws =>
      match parse_rule w with
      | None => ([], false)
      | Some r => let '(rs, ok) := parse_rules ws in (r :: rs, ok)
      end
  end.

(** ** Rules *)

Lemma strcspn_le s reject : (strcspn s reject <= length s)%nat.
Proof. induction s; simpl; [lia|]. case_bool_decide; lia. Qed.

(** Adding one rule to the state. *)
Definition add_rule (f : AndroidLogFormat) (r : list Z * LogPriority) : AndroidLogFormat :=
  if bool_decide (r.1 = bytes "*") then mkFormat r.2 (filters f) (format f)
  else mkFormat (global_pri f) (r :: filters f) (format f).

Lemma star_tag w n :
  (0 < n <= length w)%nat -> strncmp_eq (bytes "*") w n = bool_decide (take n w = bytes "*").
Proof.
  intros Hn. change (bytes "*") with [42]. destruct w as [|x w]; [simpl in Hn; lia|].
  destruct n as [|n]; [lia|]. cbn [strncmp_eq take].
  destruct (Z.eqb_spec 42 x) as [<-|Hne]; cbn [andb].
  - destruct n as [|n]; cbn [strncmp_eq take]; [by rewrite bool_decide_true|].
    destruct w as [|y w]; [simpl in Hn; lia|]. cbn [take]. by rewrite bool_decide_false.
  - rewrite bool_decide_false; [done|congruence].
Qed.

Lemma colon_at w :
  (char_at w (strcspn w (bytes ":")) =? chr ":") =
    match drop (strcspn w (bytes ":")) w with [] => false | _ => true end.
Proof.
  induction w as [|c w IH]; simpl; [done|]. change (bytes ":") with [58] in *.
  case_bool_decide as H; simpl.
  - apply list_elem_of_singleton in H as ->. done.
  - exact IH.
Qed.

Lemma drop_char_at w n c r : drop n w = c :: r -> char_at w (n + 1) = List.hd 0 r.
Proof.
  intros H. unfold char_at. rewrite <-lookup_drop, H. simpl. by destruct r.
Qed.

Lemma addFilterRule_parse f w :
  android_log_addFilterRule f w = add_rule f <$> parse_rule w.
Proof.
  unfold android_log_addFilterRule, parse_rule. pose proof (strcspn_le w (bytes ":")) as Hle.
  destruct (Nat.eqb_spec (strcspn w (bytes ":")) 0) as [E|E].
  { rewrite E, take_0. by rewrite bool_decide_true. }
  assert (Hlen : length (take (strcspn w (bytes ":")) w) = strcspn w (bytes ":"))
    by (rewrite length_take; lia).
  rewrite (bool_decide_false (take _ w = [])) by (intros Ht; apply (f_equal length) in Ht; rewrite Hlen in Ht; done).
  rewrite star_tag by lia. rewrite colon_at.
  destruct (drop (strcspn w (bytes ":")) w) as [|c r] eqn:Ed; cbn [andb].
  - unfold add_rule. cbn [fmap option_fmap option_map fst snd].
    by destruct (bool_decide (take _ w = bytes "*")).
  - rewrite (drop_char_at _ _ _ _ Ed). unfold add_rule.
    destruct (filterCharToPri (List.hd 0 r)); cbn [fmap option_fmap option_map fst snd]; try done;
      by destruct (bool_decide (take _ w = bytes "*")).
Qed.

(** ** Strings *)

Lemma strcspn_split s reject :
  s = take (strcspn s reject) s ++ drop (strcspn s reject) s.
Proof. by rewrite take_drop. Qed.

Lemma tokens_strsep s word :
  tokens s word =
  match strsep s DELIM with
  | (t, None) => [word ++ t]
  | (t, Some rest) => (word ++ t) :: tokens rest []
  end.
Proof.
  revert word; induction s as [|c s IH]; intros word; unfold strsep; simpl.
  { by rewrite app_nil_r. }
  case_bool_decide as Hc; simpl.
  - by rewrite app_nil_r.
  - rewrite IH. unfold strsep. destruct (drop (strcspn s DELIM) s); by rewrite <-app_assoc.
Qed.

Lemma strsep_shorter s t rest : strsep s DELIM = (t, Some rest) -> (length rest < length s)%nat.
Proof.
  unfold strsep. intros [= _ H]. destruct (drop _ s) as [|c r] eqn:E; [done|].
  injection H as <-. apply (f_equal length) in E. rewrite length_drop in E. simpl in E. lia.
Qed.

(** The loop adds the rules of the words up to the first invalid one. *)
Lemma filter_string_loop_rules fuel f s :
  (length s < fuel)%nat ->
  filter_string_loop fuel f (Some s) =
    (let '(rs, ok) := parse_rules (rule_words s) in
     Ok (foldl add_rule f rs, if (ok : bool) then 0 else -1)).
Proof.
  revert f s; induction fuel as [|fuel IH]; intros f s Hf; [lia|]. cbn [filter_string_loop].
  unfold rule_words. rewrite tokens_strsep.
  destruct (strsep s DELIM) as [t [rest|]] eqn:Es; cbn [app].
  - pose proof (strsep_shorter _ _ _ Es).
    destruct t as [|c t]; cbn [List.filter]; [by rewrite IH by lia|].
    rewrite addFilterRule_parse. cbn [parse_rules].
    destruct (parse_rule (c :: t)) as [r|]; cbn [fmap option_fmap option_map]; [|done].
    rewrite IH by lia. unfold rule_words. by destruct (parse_rules _).
  - destruct t as [|c t]; cbn [List.filter].
    + destruct fuel; reflexivity.
    + rewrite addFilterRule_parse. cbn [parse_rules].
      destruct (parse_rule (c :: t)) as [r|]; cbn [fmap option_fmap option_map]; [|done].
      by destruct fuel.
Qed.

(** ** Priorities *)

Lemma last_rule_snoc rules r name :
  last_rule (rules ++ [r]) name = if bool_decide (r.1 = name) then Some r.2 else last_rule rules name.
Proof. unfold last_rule. by rewrite foldl_snoc. Qed.

(** A rule never carries the default priority. *)
Definition proper (r : list Z * LogPriority) : Prop := r.2 <> LOG_DEFAULT.

Lemma parse_rules_proper ws : Forall proper (parse_rules ws).1.
Proof.
  induction ws as [|w ws IH]; simpl; [done|].
  destruct (parse_rule w) as [r|] eqn:E; [|done].
  destruct (parse_rules ws) as [rs ok]. simpl in *. apply Forall_cons. split; [|done].
  unfold parse_rule in E. unfold proper. case_bool_decide; [done|].
  repeat case_match; simplify_eq; simpl; repeat case_bool_decide; done.
Qed.

(** The state after a list of rules, from the state of a new format. *)
Lemma rules_state rules :
  Forall proper rules ->
  let f := foldl add_rule android_log_format_new rules in
  global_pri f = default LOG_VERBOSE (last_rule rules (bytes "*")) /\
  forall tag global,
    find_filter (filters f) tag global =
      default global
        (last_rule (List.filter (fun r => negb (bool_decide (r.1 = bytes "*"))) rules) tag).
Proof.
  intros Hp. induction rules as [|r rules IH] using rev_ind; [by split|].
  apply Forall_app in Hp as [Hp Hr]. apply Forall_cons in Hr as [Hr _].
  destruct (IH Hp) as [Hg Hf]. rewrite foldl_snoc. cbv zeta in *.
  set (f := foldl add_rule android_log_format_new rules) in *.
  rewrite last_rule_snoc, List.filter_app. unfold add_rule at 1 2. cbn [List.filter].
  destruct (bool_decide (r.1 = bytes "*")); cbn [negb global_pri filters].
  - split; [done|]. intros tag global. by rewrite app_nil_r.
  - split; [done|]. intros tag global. rewrite last_rule_snoc.
    destruct r as [t p]. cbn [find_filter fst snd].
    rewrite (bool_decide_ext (tag = t) (t = tag)) by done.
    case_bool_decide; [|apply Hf]. by rewrite decide_False.
Qed.

(** A filter string means what its rules say: from a new format, the
    priority in force for any tag is that of the last rule for the tag, else
    of the last global rule, else VERBOSE; the words before the first invalid
    one take effect even when the string is refused; and the split ends. *)
Theorem filter_string_meaning s tag pri :
  let '(rules, ok) := parse_rules (rule_words s) in
  exists f, android_log_addFilterString android_log_format_new s =
      Ok (f, if (ok : bool) then 0 else -1) /\
    filterPriForTag f tag = priority_for rules tag /\
    (android_log_shouldPrintLine f tag pri = true <->
     priority_value (priority_for rules tag) <= priority_value pri).
Proof.
  pose proof (parse_rules_proper (rule_words s)) as Hp.
  destruct (parse_rules (rule_words s)) as [rules ok] eqn:E.
  exists (foldl add_rule android_log_format_new rules).
  destruct (rules_state rules Hp) as [Hg Hf].
  assert (Hpri : filterPriForTag (foldl add_rule android_log_format_new rules) tag =
                 priority_for rules tag).
  { unfold filterPriForTag, priority_for. rewrite Hf, Hg. by destruct (last_rule _ tag). }
  split; [|split; [done|]].
  - unfold android_log_addFilterString. rewrite filter_string_loop_rules by lia. by rewrite E.
  - unfold android_log_shouldPrintLine. rewrite Hpri. apply Z.leb_le.
Qed.

(** The tests of [logprint_run_tests], and the digits: 1 to 7 are priorities,
    8 and 9 mean VERBOSE, 0 is refused. *)
Example filter_tests :
  let after s := match android_log_addFilterString android_log_format_new (bytes s) with
                 | Ok (f, r) => (r, filterPriForTag f (bytes "random"))
                 | Err _ => (99, LOG_UNKNOWN)
                 end in
  after "*:i" = (0, LOG_INFO) /\ after "*" = (0, LOG_DEBUG) /\ after " " = (0, LOG_VERBOSE) /\
  after "*:i,random" = (0, LOG_VERBOSE) /\ after "random:w *:s" = (0, LOG_WARN) /\
  after "*:s random:d " = (0, LOG_DEBUG) /\ after "*:s random:z" = (-1, LOG_SILENT) /\
  after "random:7" = (0, LOG_FATAL) /\ after "random:9" = (0, LOG_VERBOSE) /\
  after "random:0" = (-1, LOG_VERBOSE).
Proof. vm_compute. repeat split; reflexivity. Qed.
