(* ===== verification/EventTags.v ===== *)
(** * liblog: the event tag map

    Models [src/libs/liblog/event_tag_map.c]: counting and parsing the lines of
    the tag file, sorting the tags, looking one up.  The file is the block of
    memory it is mapped to, which the parser writes terminators into; a tag
    string is a position in that block.  [qsort] is a parameter that sorts. *)
From stdpp Require Import sorting.
From S2P Require Import Prelude.
Local Open Scope Z_scope.
#[local] Arguments Z.mul : simpl never.
#[local] Arguments Z.add : simpl never.
#[local] Arguments Z.sub : simpl never.
#[local] Arguments Z.leb : simpl never.
#[local] Arguments Z.ltb : simpl never.
#[local] Arguments Z.eqb : simpl never.

Record EventTag : Type := mkTag { tagIndex : Z; tagStr : Z }.

Record EventTagMap : Type := mkTagMap {
  mapped_file : list Z;
  tagArray : list EventTag;
  numTags : Z
}.

Definition NL : Z := 10.

Definition isCharWhitespace (c : Z) : bool :=
  (c =? 32) || (c =? 10) || (c =? 13) || (c =? 9).

Definition isCharDigit (c : Z) : bool := (48 <=? c) && (c <=? 57).

Definition isCharValidTag (c : Z) : bool :=
  ((65 <=? c) && (c <=? 90)) || ((97 <=? c) && (c <=? 122)) || isCharDigit c || (c =? 95).

(** [while (test( *++cp)) ;] — where it stops. *)
Fixpoint skip (fuel : nat) (test : Z -> bool) (mem : list Z) (cp : Z) : result Z :=
  match fuel with
  | O => Err OutOfFuel
  | S fuel =>
      c ← peek mem (cp + 1);
      if test c then skip fuel test mem (cp + 1) else Ok (cp + 1)
  end.

(** A scan stops at the end of the mapping at the latest. *)
Definition skip_fuel (mem : list Z) : nat := S (length mem).

Section EventTags.
Context (ulong_bits : Z).
Context (qsort : list EventTag -> list EventTag).

(** The digits of a number in base 10. *)
Definition decimal (digits : list Z) : Z := fold_left (fun n c => n * 10 + (c - 48)) digits 0.

(** [strtoul] on a string of digits: it saturates. *)
Definition strtoul (digits : list Z) : Z := Z.min (decimal digits) (2 ^ ulong_bits - 1).

(** The mapping, the tag and the last character of the line; [None]: -1. *)
Definition scanTagLine (mem : list Z) (startp : Z) : result (list Z * option (EventTag * Z)) :=
  cp ← skip (skip_fuel mem) isCharDigit mem startp;
  mem ← poke mem cp 0;
  digits ← read_block mem startp (cp - startp);
  let val := strtoul digits in
  cp ← skip (skip_fuel mem) (fun c => negb (c =? NL) && isCharWhitespace c) mem cp;
  c ← peek mem cp;
  if c =? NL then Ok (mem, None)
  else
    let tag := mkTag (u32 val) cp in
    cp ← skip (skip_fuel mem) isCharValidTag mem cp;
    c ← peek mem cp;
    if c =? NL then mem ← poke mem cp 0; Ok (mem, Some (tag, cp))
    else if isCharWhitespace c then
      mem ← poke mem cp 0;
      cp ← skip (skip_fuel mem) (fun c => negb (c =? NL)) mem cp;
      Ok (mem, Some (tag, cp))
    else Ok (mem, None).

(** [unknown] is the state of the scan of a line. *)
Definition count_step (st : Z * bool) (c : Z) : Z * bool :=
  let '(numTags, unknown) := st in
  if c =? NL then (numTags, true)
  else if unknown then
    if isCharDigit c then (s32 (numTags + 1), false)
    else if isCharWhitespace c then (numTags, true)
    else (numTags, false)
  else (numTags, unknown).

Definition countMapLines (mem : list Z) : Z := (fold_left count_step mem (0, true)).1.

(** The loop of [parseMapLines]; [tags] are the tags stored so far. *)
Fixpoint parse_loop (fuel : nat) (numTags : Z) (mem : list Z) (cp : Z) (lineStart : bool)
    (tags : list EventTag) : result (list Z * option (list EventTag)) :=
  if cp <? Z.of_nat (length mem) then
    match fuel with
    | O => Err OutOfFuel
    | S fuel =>
        c ← peek mem cp;
        if c =? NL then parse_loop fuel numTags mem (cp + 1) true tags
        else if lineStart then
          if c =? 35 then parse_loop fuel numTags mem (cp + 1) false tags
          else if isCharDigit c then
            if numTags <=? Z.of_nat (length tags) then Ok (mem, None)
            else
              '(mem, r) ← scanTagLine mem cp;
              match r with
              | None => Ok (mem, None)
              | Some (tag, cp) => parse_loop fuel numTags mem (cp + 1) true (tags ++ [tag])
              end
          else if isCharWhitespace c then parse_loop fuel numTags mem (cp + 1) true tags
          else Ok (mem, None)
        else parse_loop fuel numTags mem (cp + 1) false tags
    end
  else Ok (mem, Some tags).

(** Every round moves forward. *)
Definition parseMapLines (numTags : Z) (mem : list Z) : result (list Z * option (list EventTag)) :=
  last ← peek mem (Z.of_nat (length mem) - 1);
  if negb (last =? NL) then Ok (mem, None)
  else
    '(mem, r) ← parse_loop (length mem) numTags mem 0 true [];
    match r with
    | Some tags =>
        if negb (Z.of_nat (length tags) =? numTags) then Ok (mem, None) else Ok (mem, Some tags)
    | None => Ok (mem, None)
    end.

Definition compareEventTags (tag1 tag2 : EventTag) : Z := s32 (tagIndex tag1 - tagIndex tag2).

(** The check for duplicates after the sort. *)
Fixpoint has_duplicate (tags : list EventTag) : bool :=
  match tags with
  | a :: (b :: _) as rest => (tagIndex b =? tagIndex a) || has_duplicate rest
  | _ => false
  end.

Definition sortTags (tags : list EventTag) : option (list EventTag) :=
  let tags := qsort tags in if has_duplicate tags then None else Some tags.

(** [None]: -1.  [alloc]: the answer of [calloc]. *)
Definition processFile (alloc : bool) (mem : list Z) : result (option EventTagMap) :=
  let numTags := countMapLines mem in
  if numTags <? 0 then Ok None
  else if negb alloc then Ok None
  else
    '(mem, r) ← parseMapLines numTags mem;
    match r with
    | None => Ok None
    | Some tags =>
        match sortTags tags with
        | None => Ok None
        | Some tags => Ok (Some (mkTagMap mem tags numTags))
        end
    end.

(** The arguments: the answers of [calloc], [open], [lseek] (the size, or a
    negative number), [mmap] (the mapping), [calloc] again. *)
Definition android_openEventTagMap (alloc open_ok : bool) (end_ : Z) (map : option (list Z))
    (alloc_tags : bool) : result (option EventTagMap) :=
  if negb alloc then Ok None
  else if negb open_ok then Ok None
  else if end_ <? 0 then Ok None
  else match map with
       | None => Ok None
       | Some mem => processFile alloc_tags mem
       end.

End EventTags.

(** The loop of [android_lookupEventTag]: the position of the string. *)
Fixpoint lookup_loop (fuel : nat) (tags : list EventTag) (tag lo hi : Z) : result (option Z) :=
  if lo <=? hi then
    match fuel with
    | O => Err OutOfFuel
    | S fuel =>
        let mid := Z.quot (s32 (lo + hi)) 2 in
        b ← read_block tags mid 1;
        t ← get b 0;
        let cmp := s32 (tagIndex t - tag) in
        if cmp <? 0 then lookup_loop fuel tags tag (mid + 1) hi
        else if 0 <? cmp then lookup_loop fuel tags tag lo (mid - 1)
        else Ok (Some (tagStr t))
    end
  else Ok None.

Definition android_lookupEventTag (map : EventTagMap) (tag : Z) : result (option Z) :=
  lookup_loop (length (tagArray map)) (tagArray map) tag 0 (numTags map - 1).

(** The C string at a position of the mapping. *)
Definition tag_string (map : EventTagMap) (pos : Z) : option (list Z) :=
  until_nul (drop (Z.to_nat pos) (mapped_file map)).

(** ** Scanning *)

(** The scan from before a run of characters stops at its end. *)
Lemma skip_run fuel test pre run c post cp :
  cp + 1 = Z.of_nat (length pre) -> (length run < fuel)%nat ->
  Forall (fun x => test x = true) run -> test c = false ->
  skip fuel test (pre ++ run ++ c :: post) cp = Ok (Z.of_nat (length pre + length run)).
Proof.
  revert fuel pre cp; induction run as [|x run IH]; intros fuel pre cp Hcp Hf Hr Hc;
    (destruct fuel as [|fuel]; [simpl in Hf; lia|]); simpl; rewrite Hcp.
  - rewrite peek_at. simpl. rewrite Hc. do 2 f_equal. lia.
  - apply Forall_cons in Hr as [Hx Hr]. rewrite peek_at. simpl. rewrite Hx.
    rewrite (cons_middle x pre (run ++ c :: post)), app_assoc.
    rewrite (IH fuel (pre ++ [x])); [|rewrite length_app; simpl; lia|simpl in Hf; lia|done|done].
    rewrite length_app. simpl. do 2 f_equal. lia.
Qed.

#[local] Arguments skip : simpl never.

(** The same with the memory up to re-association. *)
Lemma skip_in mem test pre run c post cp :
  mem = pre ++ run ++ c :: post -> cp + 1 = Z.of_nat (length pre) ->
  Forall (fun x => test x = true) run -> test c = false ->
  skip (skip_fuel mem) test mem cp = Ok (Z.of_nat (length pre + length run)).
Proof.
  intros -> Hcp Hr Hc. apply skip_run; try done. unfold skip_fuel. rewrite !length_app. lia.
Qed.

(** ** Lines *)

(** What may follow the name of a tag: nothing, or a white space and the rest
    of the line. *)
Inductive line : Type :=
  | Blank (ws : list Z)
  | Comment (ws text : list Z)
  | Tag (ws digits : list Z) (w : Z) (ws1 : list Z) (n0 : Z) (name : list Z)
        (trailing : option (Z * list Z)).

Definition space (c : Z) : bool := isCharWhitespace c && negb (c =? NL).

Definition line_ok (l : line) : Prop :=
  match l with
  | Blank ws => Forall (fun c => space c = true) ws
  | Comment ws text =>
      Forall (fun c => space c = true) ws /\ Forall (fun c => c <> NL) text
  | Tag ws digits w ws1 n0 name trailing =>
      Forall (fun c => space c = true) ws /\ digits <> [] /\
      Forall (fun c => isCharDigit c = true) digits /\
      space w = true /\ Forall (fun c => space c = true) ws1 /\
      isCharWhitespace n0 = false /\ n0 <> 0 /\
      Forall (fun c => isCharValidTag c = true) name /\
      match trailing with
      | None => True
      | Some (t, rest) => space t = true /\ Forall (fun c => c <> NL) rest
      end
  end.

(** The characters after the name, and what the parser leaves of them. *)
Definition tail_chars (trailing : option (Z * list Z)) : list Z :=
  match trailing with None => [NL] | Some (t, rest) => t :: rest ++ [NL] end.

Definition tail_left (trailing : option (Z * list Z)) : list Z :=
  match trailing with None => [0] | Some (t, rest) => 0 :: rest ++ [NL] end.

Definition chars (l : line) : list Z :=
  match l with
  | Blank ws => ws ++ [NL]
  | Comment ws text => ws ++ 35 :: text ++ [NL]
  | Tag ws digits w ws1 n0 name trailing =>
      ws ++ digits ++ w :: ws1 ++ n0 :: name ++ tail_chars trailing
  end.

Definition left (l : line) : list Z :=
  match l with
  | Tag ws digits w ws1 n0 name trailing =>
      ws ++ digits ++ 0 :: ws1 ++ n0 :: name ++ tail_left trailing
  | _ => chars l
  end.

(** The entry a line defines: its number and its name. *)
Definition entry_of (l : line) : list (Z * list Z) :=
  match l with
  | Tag _ digits _ _ n0 name _ => [(decimal digits, n0 :: name)]
  | _ => []
  end.

Lemma tail_length trailing : length (tail_left trailing) = length (tail_chars trailing).
Proof. by destruct trailing as [[t rest]|]. Qed.

Lemma left_length l : length (left l) = length (chars l).
Proof. destruct l; simpl; [done..|]. rewrite !length_app. simpl. rewrite !length_app. simpl.
  rewrite !length_app, tail_length. done.
Qed.

Lemma space_white c : space c = true -> isCharWhitespace c = true.
Proof. unfold space. by intros [? _]%andb_prop. Qed.

Lemma space_not_digit c : space c = true -> isCharDigit c = false.
Proof.
  unfold space, isCharWhitespace, isCharDigit. intros [H _]%andb_prop.
  destruct (Z.leb_spec 48 c); [|done].
  repeat match goal with H : context [?a =? ?b] |- _ => destruct (Z.eqb_spec a b) end; done || lia.
Qed.

Lemma space_not_nl c : space c = true -> (c =? NL) = false.
Proof. unfold space. intros [_ H]%andb_prop. by destruct (c =? NL). Qed.

Lemma space_not_valid c : space c = true -> isCharValidTag c = false.
Proof.
  intros Hs. pose proof (space_not_digit c Hs) as Hd. unfold space, isCharWhitespace in Hs.
  unfold isCharValidTag. rewrite Hd. apply andb_prop in Hs as [Hs _].
  destruct (Z.leb_spec 65 c), (Z.leb_spec 97 c), (Z.eqb_spec c 95); try lia;
    repeat match goal with H : context [?a =? ?b] |- _ => destruct (Z.eqb_spec a b) end;
    done || lia.
Qed.

Lemma digit_facts c :
  isCharDigit c = true -> (c =? NL) = false /\ (c =? 35) = false /\ isCharWhitespace c = false.
Proof.
  unfold isCharDigit, isCharWhitespace, NL. intros [?%Z.leb_le ?%Z.leb_le]%andb_prop.
  rewrite !(proj2 (Z.eqb_neq _ _)) by lia. done.
Qed.

Lemma valid_not_nl c : isCharValidTag c = true -> (c =? NL) = false /\ isCharWhitespace c = false.
Proof.
  unfold isCharValidTag, isCharDigit, isCharWhitespace, NL. intros H.
  destruct (Z.eqb_spec c 10); [subst; done|].
  rewrite !(proj2 (Z.eqb_neq c _)); [done|..]; intros ->; done.
Qed.

Section Parsing.
Context (ulong_bits : Z) (Hulong : 32 <= ulong_bits).
Context (qsort : list EventTag -> list EventTag).

(** The tag of a line that starts at a position. *)
Definition tag_at (pos : Z) (l : line) : list EventTag :=
  match l with
  | Tag ws digits w ws1 n0 name trailing =>
      [mkTag (u32 (strtoul ulong_bits digits))
         (pos + Z.of_nat (length ws + length digits + 1 + length ws1))]
  | _ => []
  end.

(** The end of a tag line, from right after the name. *)
Definition trailing_ok (trailing : option (Z * list Z)) : Prop :=
  match trailing with
  | None => True
  | Some (t, rest) => space t = true /\ Forall (fun c => c <> NL) rest
  end.

Definition scan_rest (mem : list Z) (tag : EventTag) (cp : Z)
    : result (list Z * option (EventTag * Z)) :=
  c ← peek mem cp;
  if c =? NL then mem ← poke mem cp 0; Ok (mem, Some (tag, cp))
  else if isCharWhitespace c then
    mem ← poke mem cp 0;
    cp ← skip (skip_fuel mem) (fun c => negb (c =? NL)) mem cp;
    Ok (mem, Some (tag, cp))
  else Ok (mem, None).

Lemma scan_rest_line mem tag pre trailing post cp :
  trailing_ok trailing -> mem = pre ++ tail_chars trailing ++ post ->
  cp = Z.of_nat (length pre) ->
  scan_rest mem tag cp =
    Ok (pre ++ tail_left trailing ++ post,
        Some (tag, Z.of_nat (length pre + length (tail_chars trailing)) - 1)).
Proof.
  intros Ht -> ->. unfold scan_rest. destruct trailing as [[t rest]|].
  - destruct Ht as [Ht Hr].
    rewrite (peek_in _ pre t (rest ++ [NL] ++ post)) by (done || same_list).
    cbn [mbind result_bind]. rewrite (space_not_nl t Ht), (space_white t Ht).
    rewrite (poke_in _ pre t (rest ++ [NL] ++ post)) by (done || same_list).
    cbn [mbind result_bind].
    rewrite (skip_in _ _ (pre ++ [0]) rest NL post).
    + simpl. rewrite <-app_assoc, !length_app. simpl. do 3 f_equal. f_equal. lia.
    + same_list.
    + rewrite length_app. simpl. lia.
    + eapply Forall_impl; [exact Hr|]. intros c Hc. simpl. by rewrite (proj2 (Z.eqb_neq _ _) Hc).
    + done.
  - rewrite (peek_in _ pre NL post) by done. cbn [mbind result_bind].
    rewrite (poke_in _ pre NL post) by done. simpl. do 3 f_equal. f_equal. lia.
Qed.

Lemma tail_head trailing post :
  trailing_ok trailing ->
  exists c r, tail_chars trailing ++ post = c :: r /\ isCharValidTag c = false.
Proof.
  destruct trailing as [[t rest]|]; simpl; [intros [Ht _]|intros _]; eexists _, _; split;
    [done|by apply space_not_valid|done|done].
Qed.

(** A tag line is scanned from its first digit. *)
Lemma scanTagLine_line mem pre ws digits w ws1 n0 name trailing post :
  line_ok (Tag ws digits w ws1 n0 name trailing) ->
  mem = pre ++ digits ++ w :: ws1 ++ n0 :: name ++ tail_chars trailing ++ post ->
  scanTagLine ulong_bits mem (Z.of_nat (length pre)) =
    Ok (pre ++ digits ++ 0 :: ws1 ++ n0 :: name ++ tail_left trailing ++ post,
        Some (mkTag (u32 (strtoul ulong_bits digits))
                (Z.of_nat (length pre + length digits + 1 + length ws1)),
              Z.of_nat (length pre + length digits + 1 + length ws1 + 1 + length name +
                        length (tail_chars trailing)) - 1)).
Proof.
  intros (_ & Hd & Hds & Hw & Hws & Hn0 & Hnz & Hname & Ht) ->.
  destruct digits as [|d ds]; [done|]. apply Forall_cons in Hds as [Hd0 Hds].
  destruct (tail_head trailing post Ht) as (c & r & Ec & Hc).
  assert (Hnl : (n0 =? NL) = false)
    by (destruct (Z.eqb_spec n0 NL); [subst; by unfold isCharWhitespace in Hn0|done]).
  set (rest := n0 :: name ++ tail_chars trailing ++ post).
  unfold scanTagLine.
  rewrite (skip_in _ _ (pre ++ [d]) ds w (ws1 ++ rest));
    [|same_list|len|done|by apply space_not_digit].
  cbn [mbind result_bind].
  rewrite (poke_in _ (pre ++ d :: ds) w (ws1 ++ rest));
    [|same_list|len].
  cbn [mbind result_bind].
  rewrite (block_in _ pre (d :: ds) (0 :: ws1 ++ rest));
    [|same_list|done|len].
  cbn [mbind result_bind].
  rewrite (skip_in _ _ (pre ++ (d :: ds) ++ [0]) ws1 n0 (name ++ tail_chars trailing ++ post));
    [|same_list|len
     |eapply Forall_impl; [exact Hws|]; intros x Hx; simpl; by rewrite (space_not_nl x Hx), (space_white x Hx)
     |by rewrite Hn0, andb_false_r].
  cbn [mbind result_bind].
  rewrite (peek_in _ (pre ++ (d :: ds) ++ 0 :: ws1) n0 (name ++ tail_chars trailing ++ post));
    [|same_list|len].
  cbn [mbind result_bind]. rewrite Hnl.
  rewrite (skip_in _ _ (pre ++ (d :: ds) ++ 0 :: ws1 ++ [n0]) name c r);
    [|rewrite <-Ec; same_list|len|done|done].
  cbn [mbind result_bind].
  set (tag := mkTag _ _). fold (scan_rest ((pre ++ d :: ds) ++ 0 :: ws1 ++ rest) tag
    (Z.of_nat (length (pre ++ (d :: ds) ++ 0 :: ws1 ++ [n0]) + length name))).
  rewrite (scan_rest_line _ tag (pre ++ (d :: ds) ++ 0 :: ws1 ++ n0 :: name) trailing post);
    [|done|same_list|len].
  f_equal. f_equal; [same_list|]. f_equal. f_equal.
  - unfold tag. f_equal. len.
  - len.
Qed.

(** One round of the loop. *)
Lemma parse_round fuel n mem pre c post b tags :
  mem = pre ++ c :: post ->
  parse_loop ulong_bits (S fuel) n mem (Z.of_nat (length pre)) b tags =
    (if c =? NL then parse_loop ulong_bits fuel n mem (Z.of_nat (length pre) + 1) true tags
     else if b then
       if c =? 35 then parse_loop ulong_bits fuel n mem (Z.of_nat (length pre) + 1) false tags
       else if isCharDigit c then
         if n <=? Z.of_nat (length tags) then Ok (mem, None)
         else
           '(mem, r) ← scanTagLine ulong_bits mem (Z.of_nat (length pre));
           match r with
           | None => Ok (mem, None)
           | Some (tag, cp) => parse_loop ulong_bits fuel n mem (cp + 1) true (tags ++ [tag])
           end
       else if isCharWhitespace c
       then parse_loop ulong_bits fuel n mem (Z.of_nat (length pre) + 1) true tags
       else Ok (mem, None)
     else parse_loop ulong_bits fuel n mem (Z.of_nat (length pre) + 1) false tags).
Proof.
  intros ->. cbn [parse_loop]. rewrite (proj2 (Z.ltb_lt _ _)) by len. by rewrite peek_at.
Qed.

Lemma parse_spaces fuel n mem pre ws post tags :
  Forall (fun c => space c = true) ws -> mem = pre ++ ws ++ post ->
  parse_loop ulong_bits (length ws + fuel) n mem (Z.of_nat (length pre)) true tags =
  parse_loop ulong_bits fuel n mem (Z.of_nat (length pre + length ws)) true tags.
Proof.
  revert pre. induction ws as [|w ws IH]; intros pre Hws Hmem.
  { simpl. by rewrite Nat.add_0_r. }
  apply Forall_cons in Hws as [Hw Hws]. cbn [length Nat.add].
  rewrite (parse_round _ n mem pre w (ws ++ post)) by exact Hmem.
  rewrite (space_not_nl w Hw), (space_not_digit w Hw), (space_white w Hw).
  assert (Hc : (w =? 35) = false) by (destruct (Z.eqb_spec w 35); [subst; by unfold space in Hw|done]).
  rewrite Hc. replace (Z.of_nat (length pre) + 1) with (Z.of_nat (length (pre ++ [w]))) by len.
  rewrite IH; [|done|rewrite Hmem; same_list]. f_equal. len.
Qed.

Lemma parse_text fuel n mem pre text post tags :
  Forall (fun c => c <> NL) text -> mem = pre ++ text ++ post ->
  parse_loop ulong_bits (length text + fuel) n mem (Z.of_nat (length pre)) false tags =
  parse_loop ulong_bits fuel n mem (Z.of_nat (length pre + length text)) false tags.
Proof.
  revert pre. induction text as [|w text IH]; intros pre Ht Hmem.
  { simpl. by rewrite Nat.add_0_r. }
  apply Forall_cons in Ht as [Hw Ht]. cbn [length Nat.add].
  rewrite (parse_round _ n mem pre w (text ++ post)) by exact Hmem.
  rewrite (proj2 (Z.eqb_neq w NL)) by done.
  replace (Z.of_nat (length pre) + 1) with (Z.of_nat (length (pre ++ [w]))) by len.
  rewrite IH; [|done|rewrite Hmem; same_list]. f_equal. len.
Qed.

Definition rounds (l : line) : nat :=
  match l with
  | Blank ws => length ws + 1
  | Comment ws text => length ws + (1 + (length text + 1))
  | Tag ws _ _ _ _ _ _ => length ws + 1
  end.

(** The loop takes a line at a time. *)
Lemma parse_line fuel n mem pre l post tags :
  line_ok l -> mem = pre ++ chars l ++ post ->
  Z.of_nat (length tags + length (entry_of l)) <= n ->
  parse_loop ulong_bits (rounds l + fuel) n mem (Z.of_nat (length pre)) true tags =
  parse_loop ulong_bits fuel n (pre ++ left l ++ post) (Z.of_nat (length pre + length (chars l)))
    true (tags ++ tag_at (Z.of_nat (length pre)) l).
Proof.
  intros Hl Hmem Hn. destruct l as [ws|ws text|ws digits w ws1 n0 name trailing].
  - cbn [rounds chars left tag_at] in *. rewrite <-Nat.add_assoc, app_nil_r.
    rewrite (parse_spaces _ n mem pre ws ([NL] ++ post)) by (done || rewrite Hmem; same_list).
    replace (length pre + length ws)%nat with (length (pre ++ ws)) by len.
    cbn [Nat.add]. rewrite (parse_round _ n mem (pre ++ ws) NL post) by (rewrite Hmem; same_list).
    rewrite Z.eqb_refl, <-Hmem. f_equal. len.
  - destruct Hl as [Hws Ht]. cbn [rounds chars left tag_at] in *.
    rewrite <-!Nat.add_assoc, app_nil_r.
    rewrite (parse_spaces _ n mem pre ws (35 :: text ++ [NL] ++ post))
      by (done || rewrite Hmem; same_list).
    replace (length pre + length ws)%nat with (length (pre ++ ws)) by len.
    cbn [Nat.add]. rewrite (parse_round _ n mem (pre ++ ws) 35 (text ++ [NL] ++ post))
      by (rewrite Hmem; same_list).
    change (35 =? NL) with false. change (35 =? 35) with true.
    replace (Z.of_nat (length (pre ++ ws)) + 1) with (Z.of_nat (length (pre ++ ws ++ [35]))) by len.
    rewrite (parse_text _ n mem _ text ([NL] ++ post)) by (done || rewrite Hmem; same_list).
    replace (length (pre ++ ws ++ [35%Z]) + length text)%nat
      with (length (pre ++ ws ++ 35%Z :: text)) by len.
    cbn [Nat.add].
    rewrite (parse_round _ n mem (pre ++ ws ++ 35 :: text) NL post) by (rewrite Hmem; same_list).
    rewrite Z.eqb_refl, <-Hmem. f_equal. len.
  - pose proof Hl as (Hws & Hd & Hds & _). cbn [rounds chars left entry_of length] in *.
    rewrite <-Nat.add_assoc.
    rewrite (parse_spaces _ n mem pre ws
      (digits ++ w :: ws1 ++ n0 :: name ++ tail_chars trailing ++ post))
      by (done || rewrite Hmem; same_list).
    replace (length pre + length ws)%nat with (length (pre ++ ws)) by len.
    destruct digits as [|d ds] eqn:Eds; [done|]. apply Forall_cons in Hds as [Hd0 _].
    destruct (digit_facts d Hd0) as (H1 & H2 & _).
    cbn [Nat.add].
    rewrite (parse_round _ n mem (pre ++ ws) d
      (ds ++ w :: ws1 ++ n0 :: name ++ tail_chars trailing ++ post)) by (rewrite Hmem; same_list).
    rewrite H1, H2, Hd0, (proj2 (Z.leb_gt n _)) by lia.
    rewrite <-Eds in *.
    rewrite (scanTagLine_line mem (pre ++ ws) ws digits w ws1 n0 name trailing post Hl)
      by (rewrite Hmem; same_list).
    cbn [mbind result_bind]. cbn [tag_at].
    f_equal; [same_list|len|]. do 3 f_equal. len.
Qed.

Fixpoint tags_of (pos : Z) (ls : list line) : list EventTag :=
  match ls with
  | [] => []
  | l :: ls => tag_at pos l ++ tags_of (pos + Z.of_nat (length (chars l))) ls
  end.

Definition file_of (ls : list line) : list Z := concat (map chars ls).
Definition file_left (ls : list line) : list Z := concat (map left ls).
Definition entries (ls : list line) : list (Z * list Z) := concat (map entry_of ls).
Definition all_rounds (ls : list line) : nat := list_sum (map rounds ls).

Lemma tag_at_length pos l : length (tag_at pos l) = length (entry_of l).
Proof. by destruct l. Qed.

Lemma parse_lines fuel n pre ls tags :
  Forall line_ok ls -> Z.of_nat (length tags + length (entries ls)) <= n ->
  parse_loop ulong_bits (all_rounds ls + fuel) n (pre ++ file_of ls) (Z.of_nat (length pre)) true tags =
  Ok (pre ++ file_left ls, Some (tags ++ tags_of (Z.of_nat (length pre)) ls)).
Proof.
  revert pre tags. induction ls as [|l ls IH]; intros pre tags Hls Hn.
  { unfold file_of, file_left. simpl. rewrite !app_nil_r.
    destruct fuel; cbn [parse_loop]; by rewrite (proj2 (Z.ltb_ge _ _)) by lia. }
  apply Forall_cons in Hls as [Hl Hls].
  unfold all_rounds, file_of, file_left, entries in *. simpl in *. rewrite length_app in Hn.
  rewrite <-Nat.add_assoc.
  rewrite (parse_line _ n _ pre l (concat (map chars ls))) by (done || lia).
  replace (Z.of_nat (length pre + length (chars l))) with (Z.of_nat (length (pre ++ left l)))
    by (rewrite length_app, left_length; lia).
  rewrite app_assoc. rewrite IH by (done || rewrite length_app, tag_at_length; lia).
  replace (Z.of_nat (length (pre ++ left l)))
    with (Z.of_nat (length pre) + Z.of_nat (length (chars l)))
    by (rewrite length_app, left_length; lia).
  by rewrite <-!app_assoc.
Qed.

Lemma rounds_le l : (rounds l <= length (chars l))%nat.
Proof.
  destruct l as [ws|ws text|ws digits w ws1 n0 name trailing]; simpl;
    repeat (rewrite length_app; simpl); lia.
Qed.

Lemma all_rounds_le ls : (all_rounds ls <= length (file_of ls))%nat.
Proof.
  unfold all_rounds, file_of. induction ls as [|l ls IH]; simpl; [lia|].
  rewrite length_app. pose proof (rounds_le l). lia.
Qed.

(** ** Counting *)

Lemma count_true_spaces n ws :
  Forall (fun c => space c = true) ws -> fold_left count_step ws (n, true) = (n, true).
Proof.
  induction ws as [|w ws IH]; intros Hws; [done|]. apply Forall_cons in Hws as [Hw Hws]. simpl.
  by rewrite (space_not_nl w Hw), (space_not_digit w Hw), (space_white w Hw), IH.
Qed.

Lemma count_false_text n text :
  Forall (fun c => c <> NL) text -> fold_left count_step text (n, false) = (n, false).
Proof.
  induction text as [|w text IH]; intros Ht; [done|]. apply Forall_cons in Ht as [Hw Ht]. simpl.
  by rewrite (proj2 (Z.eqb_neq w NL)), IH.
Qed.

Lemma count_to_end n text :
  Forall (fun c => c <> NL) text -> fold_left count_step (text ++ [NL]) (n, false) = (n, true).
Proof. intros Ht. by rewrite fold_left_app, count_false_text. Qed.

(** A tag line without its leading spaces and its first digit. *)
Lemma tag_rest_text ds w ws1 n0 name trailing :
  Forall (fun c => isCharDigit c = true) ds -> space w = true ->
  Forall (fun c => space c = true) ws1 -> isCharWhitespace n0 = false ->
  Forall (fun c => isCharValidTag c = true) name -> trailing_ok trailing ->
  exists text, Forall (fun c => c <> NL) text /\
    ds ++ w :: ws1 ++ n0 :: name ++ tail_chars trailing = text ++ [NL].
Proof.
  intros Hds Hw Hws Hn0 Hname Ht.
  assert (Hsp : forall c, space c = true -> c <> NL)
    by (intros c Hc ->; apply space_not_nl in Hc; done).
  exists (ds ++ w :: ws1 ++ n0 :: name ++
     match trailing with None => [] | Some (t, rest) => t :: rest end).
  split.
  - rewrite Forall_app, Forall_cons, Forall_app, Forall_cons, Forall_app. split_and!.
    + eapply Forall_impl; [exact Hds|]. intros c Hc ->. done.
    + by apply Hsp.
    + eapply Forall_impl; [exact Hws|]. exact Hsp.
    + intros ->. done.
    + eapply Forall_impl; [exact Hname|]. intros c Hc ->. done.
    + destruct trailing as [[t rest]|]; [|done]. destruct Ht as [Ht Hr].
      apply Forall_cons. split; [by apply Hsp|done].
  - destruct trailing as [[t rest]|]; same_list.
Qed.

Lemma count_line n l :
  line_ok l -> 0 <= n -> n + Z.of_nat (length (entry_of l)) < 2 ^ 31 ->
  fold_left count_step (chars l) (n, true) = (n + Z.of_nat (length (entry_of l)), true).
Proof.
  intros Hl Hn Hb. destruct l as [ws|ws text|ws digits w ws1 n0 name trailing];
    cbn [chars entry_of length] in *.
  - rewrite fold_left_app, count_true_spaces by done. simpl. by rewrite Z.add_0_r.
  - destruct Hl as [Hws Ht]. rewrite fold_left_app, count_true_spaces by done.
    cbn [fold_left]. change (count_step (n, true) 35) with (n, false).
    rewrite count_to_end by done. by rewrite Z.add_0_r.
  - destruct Hl as (Hws & Hd & Hds & Hw & Hws1 & Hn0 & _ & Hname & Ht).
    destruct digits as [|d ds]; [done|]. apply Forall_cons in Hds as [Hd0 Hds].
    rewrite fold_left_app, count_true_spaces by done. cbn [fold_left app].
    destruct (digit_facts d Hd0) as (H1 & _). unfold count_step at 2. rewrite H1, Hd0.
    rewrite s32_small by lia.
    destruct (tag_rest_text ds w ws1 n0 name trailing) as (text & Htext & ->); try done.
    by rewrite count_to_end.
Qed.

Lemma count_lines ls :
  Forall line_ok ls -> Z.of_nat (length (entries ls)) < 2 ^ 31 ->
  countMapLines (file_of ls) = Z.of_nat (length (entries ls)).
Proof.
  intros Hls Hb. unfold countMapLines, file_of.
  assert (H : forall n, 0 <= n -> n + Z.of_nat (length (entries ls)) < 2 ^ 31 ->
    fold_left count_step (concat (map chars ls)) (n, true) =
      (n + Z.of_nat (length (entries ls)), true)).
  { clear Hb. induction ls as [|l ls IH]; intros n Hn Hb; [simpl; by rewrite Z.add_0_r|].
    apply Forall_cons in Hls as [Hl Hls]. unfold entries in *. simpl in *.
    rewrite length_app in *. rewrite fold_left_app, count_line by (done || lia).
    rewrite IH by (done || lia). f_equal. lia. }
  rewrite H by lia. done.
Qed.

(** ** Names *)

Lemma until_nul_name name post :
  Forall (fun c => c <> 0) name -> until_nul (name ++ 0 :: post) = Some name.
Proof.
  induction name as [|c name IH]; intros Hn; [done|]. apply Forall_cons in Hn as [Hc Hn]. simpl.
  by rewrite (proj2 (Z.eqb_neq c 0)), IH.
Qed.

(** A tag of the array describes an entry of the file. *)
Definition describes (mem : list Z) (t : EventTag) (e : Z * list Z) : Prop :=
  tagIndex t = e.1 /\ until_nul (drop (Z.to_nat (tagStr t)) mem) = Some e.2.

Definition values_ok (ls : list line) : Prop := Forall (fun e => 0 <= e.1 < 2 ^ 31) (entries ls).

Lemma strtoul_small digits :
  0 <= decimal digits < 2 ^ 31 -> u32 (strtoul ulong_bits digits) = decimal digits.
Proof.
  intros H. unfold strtoul. assert (2 ^ 32 <= 2 ^ ulong_bits) by (apply Z.pow_le_mono_r; lia).
  rewrite Z.min_l by lia. apply u32_small. lia.
Qed.

Lemma tags_describe pre ls :
  Forall line_ok ls -> values_ok ls ->
  Forall2 (describes (pre ++ file_left ls)) (tags_of (Z.of_nat (length pre)) ls) (entries ls).
Proof.
  revert pre. induction ls as [|l ls IH]; intros pre Hls Hv; [constructor|].
  apply Forall_cons in Hls as [Hl Hls].
  unfold values_ok, file_left, entries in *. simpl in *. apply Forall_app in Hv as [Hv0 Hv].
  apply Forall2_app.
  - destruct l as [ws|ws text|ws digits w ws1 n0 name trailing]; simpl in *; [constructor..|].
    constructor; [|constructor]. apply Forall_cons in Hv0 as [Hv0 _].
    destruct Hl as (_ & _ & _ & _ & _ & _ & Hn0 & Hname & _).
    split; simpl; [by apply strtoul_small|].
    assert (Hs : exists post,
      pre ++ (ws ++ digits ++ 0 :: ws1 ++ n0 :: name ++ tail_left trailing) ++ concat (map left ls) =
      (pre ++ ws ++ digits ++ 0 :: ws1) ++ (n0 :: name) ++ 0 :: post).
    { destruct trailing as [[t rest]|]; eexists; same_list. }
    destruct Hs as [post ->].
    rewrite drop_app_length' by len.
    apply until_nul_name. apply Forall_cons. split; [done|].
    eapply Forall_impl; [exact Hname|]. intros c Hc ->. done.
  - replace (Z.of_nat (length pre) + Z.of_nat (length (chars l)))
      with (Z.of_nat (length (pre ++ left l))) by (rewrite length_app, left_length; lia).
    rewrite app_assoc. by apply IH.
Qed.

End Parsing.

(** ** Looking up *)

Definition sorted_tags (tags : list EventTag) : Prop :=
  forall i j a b, (i < j)%nat -> tags !! i = Some a -> tags !! j = Some b ->
    tagIndex a < tagIndex b.

Definition small_tags (tags : list EventTag) : Prop :=
  Forall (fun t => 0 <= tagIndex t < 2 ^ 31) tags.

Lemma lookup_loop_spec fuel tags tag lo hi :
  sorted_tags tags -> small_tags tags -> 0 <= tag < 2 ^ 31 ->
  Z.of_nat (length tags) < 2 ^ 30 -> 0 <= lo -> lo <= hi + 1 -> hi < Z.of_nat (length tags) ->
  hi - lo + 1 <= Z.of_nat fuel ->
  (forall i t, tags !! i = Some t -> tagIndex t = tag -> lo <= Z.of_nat i <= hi) ->
  exists r, lookup_loop fuel tags tag lo hi = Ok r /\
    forall pos, r = Some pos <-> exists t, t ∈ tags /\ tagIndex t = tag /\ tagStr t = pos.
Proof.
  intros Hs Hsm Ht Hlen. revert lo hi. induction fuel as [|fuel IH]; intros lo hi H0 H1 Hh Hf Hin;
    cbn [lookup_loop]; destruct (Z.leb_spec lo hi) as [Hle|Hgt]; try lia.
  1, 3: exists None; split; [done|]; intros pos; split; [done|];
    intros (t & (i & Hi)%list_elem_of_lookup_1 & Et & _); specialize (Hin i t Hi Et); lia.
  rewrite s32_small by lia. set (mid := Z.quot (lo + hi) 2).
  assert (Hm : lo <= mid <= hi).
  { unfold mid. rewrite Z.quot_div_nonneg by lia. Z.div_mod_to_equations. lia. }
  destruct (lookup_lt_is_Some_2 tags (Z.to_nat mid)) as [t Hmid]; [lia|].
  assert (Hb : read_block tags mid 1 = Ok [t]).
  { unfold read_block. rewrite decide_True by lia. unfold slice. by erewrite drop_S. }
  rewrite Hb. cbn [mbind result_bind get from_option_or lookup list_lookup].
  assert (Hts : 0 <= tagIndex t < 2 ^ 31)
    by (unfold small_tags in Hsm; rewrite Forall_lookup in Hsm; by eapply Hsm).
  unfold get. cbn [lookup list_lookup from_option_or mbind result_bind].
  rewrite s32_small by lia.
  destruct (Z.ltb_spec (tagIndex t - tag) 0) as [Hlt|Hge]; [|destruct (Z.ltb_spec 0 (tagIndex t - tag))].
  - apply IH; try lia. intros i u Hi Hu. specialize (Hin i u Hi Hu).
    destruct (decide (mid + 1 <= Z.of_nat i)); [lia|].
    destruct (decide (i = Z.to_nat mid)) as [->|]; [rewrite Hmid in Hi; injection Hi as ->; lia|].
    assert (tagIndex u < tagIndex t) by (apply (Hs i (Z.to_nat mid)); try done; lia). lia.
  - apply IH; try lia. intros i u Hi Hu. specialize (Hin i u Hi Hu).
    destruct (decide (Z.of_nat i <= mid - 1)); [lia|].
    destruct (decide (i = Z.to_nat mid)) as [->|]; [rewrite Hmid in Hi; injection Hi as ->; lia|].
    assert (tagIndex t < tagIndex u) by (apply (Hs (Z.to_nat mid) i); try done; lia). lia.
  - exists (Some (tagStr t)). split; [done|]. intros pos. split.
    + intros [= <-]. exists t. split_and!; [by eapply list_elem_of_lookup_2|lia|done].
    + intros (u & (i & Hi)%list_elem_of_lookup_1 & Hu & <-). f_equal. f_equal.
      destruct (Nat.lt_trichotomy i (Z.to_nat mid)) as [Hc|[->|Hc]]; [|congruence|].
      * pose proof (Hs i (Z.to_nat mid) u t Hc Hi Hmid). lia.
      * pose proof (Hs (Z.to_nat mid) i t u Hc Hmid Hi). lia.
Qed.

(** ** The whole map *)

Lemma has_duplicate_strict tags :
  (forall i j a b, (i < j)%nat -> tags !! i = Some a -> tags !! j = Some b ->
     tagIndex a <= tagIndex b) ->
  has_duplicate tags = false -> sorted_tags tags.
Proof.
  induction tags as [|a tags IH]; intros Hw Hd; [by intros i j x y _ H|].
  assert (Htl : sorted_tags tags).
  { apply IH.
    - intros i j x y Hij Hx Hy. by apply (Hw (S i) (S j)); [lia|..].
    - destruct tags; [done|]. cbn [has_duplicate] in Hd. by apply orb_false_elim in Hd as [_ Hd]. }
  destruct tags as [|b tags].
  - intros i [|j] x y Hij Hx Hy; [lia|done].
  - cbn [has_duplicate] in Hd. apply orb_false_elim in Hd as [Hab _]. apply Z.eqb_neq in Hab.
    assert (tagIndex a <= tagIndex b) by (by apply (Hw 0%nat 1%nat); [lia|..]).
    intros [|i] [|j] x y Hij Hx Hy; [lia| |lia|by apply (Htl i j); [lia|..]].
    injection Hx as <-. simpl in Hy.
    destruct j as [|j]; [injection Hy as <-; lia|].
    assert (tagIndex b < tagIndex y) by (by apply (Htl 0%nat (S j)); [lia|..]). lia.
Qed.

Lemma has_duplicate_not_nodup tags :
  has_duplicate tags = true -> ~ NoDup (map tagIndex tags).
Proof.
  induction tags as [|a tags IH]; [done|]. intros Hd. destruct tags as [|b tags]; [done|].
  cbn [has_duplicate] in Hd. simpl. rewrite NoDup_cons. intros [Hn Hnd].
  apply orb_prop in Hd as [Hd%Z.eqb_eq|Hd]; [|by apply IH].
  apply Hn. rewrite <-Hd. left.
Qed.

Lemma sorted_nodup tags : sorted_tags tags -> NoDup (map tagIndex tags).
Proof.
  intros Hs. apply NoDup_alt. intros i j x Hi Hj.
  rewrite list_lookup_fmap in Hi. rewrite list_lookup_fmap in Hj.
  destruct (tags !! i) as [a|] eqn:Ea; [|done]. destruct (tags !! j) as [b|] eqn:Eb; [|done].
  simpl in *. simplify_eq.
  destruct (Nat.lt_trichotomy i j) as [H|[H|H]]; [|done|].
  - pose proof (Hs i j a b H Ea Eb). lia.
  - pose proof (Hs j i b a H Eb Ea). lia.
Qed.

Lemma describes_indices mem tags es :
  Forall2 (describes mem) tags es -> map tagIndex tags = map fst es.
Proof. induction 1 as [|t e tags es [Ht _] _ IH]; [done|]. simpl. by rewrite Ht, IH. Qed.

Lemma describes_small mem tags es :
  Forall2 (describes mem) tags es -> Forall (fun e => 0 <= e.1 < 2 ^ 31) es -> small_tags tags.
Proof.
  induction 1 as [|t e tags es [Ht _] _ IH]; intros He; [constructor|].
  apply Forall_cons in He as [He Hes]. constructor; [by rewrite Ht|by apply IH].
Qed.

(** The names found through the tags are those of the entries. *)
Lemma describes_lookup mem tags es tag name :
  Forall2 (describes mem) tags es -> NoDup (map fst es) ->
  (exists t, t ∈ tags /\ tagIndex t = tag /\
     until_nul (drop (Z.to_nat (tagStr t)) mem) = Some name) <-> (tag, name) ∈ es.
Proof.
  intros H2 _. induction H2 as [|t e tags es [Ht Hn] _ IH].
  - split; [intros (t & H & _); by apply elem_of_nil in H|by intros ?%elem_of_nil].
  - rewrite elem_of_cons, <-IH. split.
    + intros (u & [->|Hu]%elem_of_cons & Eu & En); [left|by right; exists u].
      destruct e as [n s]. simpl in *. congruence.
    + intros [He|(u & Hu & E)]; [|exists u; split; [by right|done]].
      exists t. subst e. simpl in *. split; [by left|done].
Qed.

Section TagMap.
Context (ulong_bits : Z) (Hulong : 32 <= ulong_bits).
Context (qsort : list EventTag -> list EventTag).
Context (Hqsort : forall l, small_tags l -> qsort l ≡ₚ l /\
  forall i j a b, (i < j)%nat -> qsort l !! i = Some a -> qsort l !! j = Some b ->
    compareEventTags a b <= 0).

Lemma qsort_weak l :
  small_tags l -> forall i j a b, (i < j)%nat -> qsort l !! i = Some a -> qsort l !! j = Some b ->
  tagIndex a <= tagIndex b.
Proof.
  intros Hl i j a b Hij Ha Hb. destruct (Hqsort l Hl) as [Hp Hs].
  specialize (Hs i j a b Hij Ha Hb). unfold compareEventTags in Hs.
  assert (Hsm : forall k c, qsort l !! k = Some c -> 0 <= tagIndex c < 2 ^ 31).
  { intros k c Hk. unfold small_tags in Hl. rewrite Forall_forall in Hl. apply Hl.
    rewrite <-Hp. by eapply list_elem_of_lookup_2. }
  pose proof (Hsm i a Ha). pose proof (Hsm j b Hb). rewrite s32_small in Hs; lia.
Qed.

Lemma parseMapLines_lines ls :
  ls <> [] -> Forall line_ok ls -> Z.of_nat (length (entries ls)) < 2 ^ 31 ->
  parseMapLines ulong_bits (Z.of_nat (length (entries ls))) (file_of ls) =
    Ok (file_left ls, Some (tags_of ulong_bits 0 ls)).
Proof.
  intros Hne Hls Hb. unfold parseMapLines.
  assert (Hlast : exists pre, file_of ls = pre ++ [NL]).
  { destruct (exists_last Hne) as (ls' & l & ->). unfold file_of.
    rewrite map_app, concat_app. simpl. rewrite app_nil_r.
    assert (Hl : exists pre, chars l = pre ++ [NL]).
    { destruct l as [ws|ws text|ws digits w ws1 n0 name [[t rest]|]]; simpl.
      - by exists ws.
      - exists (ws ++ 35 :: text). same_list.
      - exists (ws ++ digits ++ w :: ws1 ++ n0 :: name ++ t :: rest). same_list.
      - exists (ws ++ digits ++ w :: ws1 ++ n0 :: name). same_list. }
    destruct Hl as [pre ->]. exists (concat (map chars ls') ++ pre). same_list. }
  destruct Hlast as [pre Hpre].
  rewrite (peek_in _ pre NL []) by (done || rewrite Hpre; len). cbn [mbind result_bind].
  rewrite Z.eqb_refl. cbn [negb].
  pose proof (all_rounds_le ls) as Hr.
  replace (length (file_of ls)) with (all_rounds ls + (length (file_of ls) - all_rounds ls))%nat by lia.
  pose proof (parse_lines ulong_bits (length (file_of ls) - all_rounds ls)
    (Z.of_nat (length (entries ls))) [] ls [] Hls) as Hp.
  cbn [app length] in Hp. change (Z.of_nat 0) with 0 in Hp. rewrite Hp by (simpl; lia).
  cbn [mbind result_bind].
  assert (Hlen : length (tags_of ulong_bits 0 ls) = length (entries ls)).
  { generalize 0. clear. unfold entries. induction ls as [|l ls IH]; intros pos; [done|]. simpl.
    by rewrite !length_app, tag_at_length, IH. }
  rewrite Hlen, Z.eqb_refl. done.
Qed.

(** A tag file made of blank lines, comments and tag lines (leading
    spaces, a number below 2^31, white space, a name, and a description) is
    accepted exactly when the numbers are distinct, and then looking up a
    number finds the name of its line, or nothing when there is none.  No
    character outside the mapping is read or written, the array of tags that
    the first pass sized is filled exactly, and every loop ends. *)
Theorem event_tag_map_roundtrip ls :
  ls <> [] -> Forall line_ok ls -> values_ok ls -> Z.of_nat (length (entries ls)) < 2 ^ 30 ->
  exists r, processFile ulong_bits qsort true (file_of ls) = Ok r /\
  match r with
  | None => ~ NoDup (map fst (entries ls))
  | Some map_ => NoDup (map fst (entries ls)) /\
      forall tag, 0 <= tag < 2 ^ 31 ->
        exists pos, android_lookupEventTag map_ tag = Ok pos /\
          forall name, (exists p, pos = Some p /\ tag_string map_ p = Some name) <->
                       (tag, name) ∈ entries ls
  end.
Proof.
  intros Hne Hls Hv Hb. unfold processFile. rewrite count_lines by (done || lia).
  rewrite (proj2 (Z.ltb_ge _ 0)) by lia. cbn [negb].
  rewrite parseMapLines_lines by (done || lia). cbn [mbind result_bind].
  set (tags := tags_of ulong_bits 0 ls).
  assert (Hdes : Forall2 (describes (file_left ls)) tags (entries ls))
    by (apply (tags_describe ulong_bits Hulong [] ls Hls Hv)).
  pose proof (describes_small _ _ _ Hdes Hv) as Hsm.
  pose proof (describes_indices _ _ _ Hdes) as Hidx.
  destruct (Hqsort tags Hsm) as [Hperm _].
  assert (Hpi : map tagIndex (qsort tags) ≡ₚ map fst (entries ls))
    by (rewrite <-Hidx; by apply fmap_Permutation).
  unfold sortTags. destruct (has_duplicate (qsort tags)) eqn:Hd.
  { eexists. split; [done|]. simpl. rewrite <-Hpi. by apply has_duplicate_not_nodup. }
  assert (Hso : sorted_tags (qsort tags)) by (apply has_duplicate_strict; [by apply qsort_weak|done]).
  assert (Hnd : NoDup (map fst (entries ls))) by (rewrite <-Hpi; by apply sorted_nodup).
  assert (Hlen : length (qsort tags) = length (entries ls))
    by (rewrite Hperm; by eapply Forall2_length).
  eexists. split; [done|]. split; [done|]. intros tag Ht.
  unfold android_lookupEventTag. cbn [tagArray numTags].
  destruct (lookup_loop_spec (length (qsort tags)) (qsort tags) tag 0 (Z.of_nat (length (entries ls)) - 1))
    as (pos & -> & Hpos); try done; try lia.
  { unfold small_tags. by rewrite Hperm. }
  { intros i t Hi _. apply lookup_lt_Some in Hi. lia. }
  exists pos. split; [done|]. intros name. rewrite <-(describes_lookup _ _ _ tag name Hdes Hnd).
  unfold tag_string. cbn [mapped_file]. split.
  - intros (p & -> & Hs). destruct (proj1 (Hpos p) eq_refl) as (t & Hin & Et & <-).
    exists t. by rewrite <-Hperm.
  - intros (t & Hin & Et & Hs). exists (tagStr t). split; [|done]. apply Hpos.
    exists t. by rewrite Hperm.
Qed.

End TagMap.

(** ** A file, and two malformed ones *)

Definition demo_lines : list line :=
  [Comment [] (bytes " tags"); Blank [32; 32];
   Tag [32] (bytes "2722") 32 [9] 98 (bytes "attery") (Some (32, bytes "(level|1)"));
   Tag [] (bytes "42") 32 [] 97 (bytes "nswer") None].

Definition by_index (a b : EventTag) : Prop := tagIndex a <= tagIndex b.

#[local] Instance by_index_dec a b : Decision (by_index a b) := decide (tagIndex a <= tagIndex b).

#[local] Instance by_index_total : Total by_index.
Proof. intros a b. unfold by_index. lia. Qed.

#[local] Instance by_index_trans : Transitive by_index.
Proof. intros a b c. unfold by_index. lia. Qed.

Definition sort_tags : list EventTag -> list EventTag := merge_sort by_index.

Lemma strongly_sorted_lookup {A} (R : relation A) l i j a b :
  StronglySorted R l -> (i < j)%nat -> l !! i = Some a -> l !! j = Some b -> R a b.
Proof.
  intros Hs Hij Ha Hb. rewrite <-(take_drop j l) in Hs.
  apply (StronglySorted_app_1_elem_of _ _ _ a b Hs).
  - apply (list_elem_of_lookup_2 _ i). by rewrite lookup_take_lt.
  - apply (list_elem_of_lookup_2 _ 0). by rewrite lookup_drop, Nat.add_0_r.
Qed.

Lemma sort_tags_ok l : small_tags l ->
  sort_tags l ≡ₚ l /\
  forall i j a b, (i < j)%nat -> sort_tags l !! i = Some a -> sort_tags l !! j = Some b ->
    compareEventTags a b <= 0.
Proof.
  intros Hl. assert (Hp : sort_tags l ≡ₚ l) by apply merge_sort_Permutation.
  split; [done|]. intros i j a b Hij Ha Hb.
  assert (Hab : by_index a b)
    by (exact (strongly_sorted_lookup by_index _ i j a b (StronglySorted_merge_sort _ l) Hij Ha Hb)).
  assert (Hsm : forall k c, sort_tags l !! k = Some c -> 0 <= tagIndex c < 2 ^ 31).
  { intros k c Hk. unfold small_tags in Hl. rewrite Forall_forall in Hl. apply Hl.
    rewrite <-Hp. by eapply list_elem_of_lookup_2. }
  pose proof (Hsm i a Ha). pose proof (Hsm j b Hb). unfold by_index, compareEventTags in *.
  rewrite s32_small; lia.
Qed.

Lemma event_tag_map_roundtrip_witness :
  (exists r, processFile 32 sort_tags true (file_of demo_lines) = Ok r /\
   match r with
   | None => ~ NoDup (map fst (entries demo_lines))
   | Some map_ => NoDup (map fst (entries demo_lines)) /\
       forall tag, 0 <= tag < 2 ^ 31 ->
         exists pos, android_lookupEventTag map_ tag = Ok pos /\
           forall name, (exists p, pos = Some p /\ tag_string map_ p = Some name) <->
                        (tag, name) ∈ entries demo_lines
   end) /\
  entries demo_lines = [(2722, bytes "battery"); (42, bytes "answer")].
Proof.
  split; [|reflexivity].
  apply (event_tag_map_roundtrip 32 ltac:(lia) sort_tags sort_tags_ok demo_lines).
  - discriminate.
  - repeat constructor; discriminate.
  - repeat constructor; simpl; discriminate.
  - simpl. lia.
Defined.

(** A number with nothing after it at the end of the file makes the parser
    read past the mapping; before another line it takes the text of that
    line. *)
Example number_at_end :
  processFile 32 sort_tags true (bytes "42" ++ [NL]) = Err OutOfBounds.
Proof. vm_compute. reflexivity. Qed.

Example number_takes_next_line :
  match processFile 32 sort_tags true (bytes "42" ++ [NL] ++ bytes "foo bar" ++ [NL]) with
  | Ok (Some map_) => tag_string map_ 3 = Some (bytes "foo") /\
                      android_lookupEventTag map_ 42 = Ok (Some 3)
  | _ => False
  end.
Proof. vm_compute. by split. Qed.
