(* ===== verification/LogEvent.v ===== *)
(** * liblog: text and binary log entries

    Models [src/libs/liblog/logprint.c], lines 343-690: splitting the buffer of
    a text entry, printing the values of a binary entry, and the whole
    conversion of a binary entry.  A pointer is a block and an offset; the
    block of event data is read, and the block of output is written, with a
    fault outside of them.  [size_bits] is the width of [size_t]. *)
From stdpp Require Import pretty.
From S2P Require Import Prelude.
From S2P Require Import LogFilter.
From S2P Require Import EventTags.
Local Open Scope Z_scope.
#[local] Arguments Z.mul : simpl never.
#[local] Arguments Z.add : simpl never.
#[local] Arguments Z.sub : simpl never.
#[local] Arguments Z.leb : simpl never.
#[local] Arguments Z.ltb : simpl never.
#[local] Arguments Z.eqb : simpl never.
#[local] Arguments Z.pow : simpl never.

Record logger_entry : Type := mkLoggerEntry {
  le_len : Z;      (** the length of the payload, 16 bits *)
  le_pid : Z;
  le_tid : Z;
  le_sec : Z;
  le_nsec : Z;
  le_msg : list Z  (** the payload *)
}.

(** A [const char *] of an entry: the block it points into and an offset. *)
Inductive text_ptr : Type :=
  | NullPtr
  | InMap (pos : Z)          (** the mapped tag file *)
  | InMsg (pos : Z)          (** [buf->msg] *)
  | InMessageBuf (pos : Z).  (** [messageBuf] *)

Record AndroidLogEntry : Type := mkLogEntry {
  tv_sec : Z;
  tv_nsec : Z;
  priority : Z;
  pid : Z;
  tid : Z;
  tag : text_ptr;
  messageLen : Z;
  message : text_ptr
}.

Section Width.
Context (size_bits : Z).

(** A value converted to [size_t]. *)
Definition to_size (z : Z) : Z := z mod 2 ^ size_bits.

(** ** Text entries *)

(** The loop over the payload from [i]: [msgStart] and [msgEnd]. *)
Fixpoint find_ends (fuel : nat) (msg : list Z) (len i msgStart : Z) : result (Z * Z) :=
  if i <? len then
    match fuel with
    | O => Err OutOfFuel
    | S fuel =>
        c ← peek msg i;
        if c =? 0 then
          if msgStart =? -1 then find_ends fuel msg len (i + 1) (i + 1)
          else Ok (msgStart, i)
        else find_ends fuel msg len (i + 1) msgStart
    end
  else Ok (msgStart, -1).

Definition set_header (buf : logger_entry) (e : AndroidLogEntry) : AndroidLogEntry :=
  mkLogEntry (le_sec buf) (le_nsec buf) (priority e) (le_pid buf) (le_tid buf) (tag e)
    (messageLen e) (message e).

(** The payload after the call, the entry, and the returned code. *)
Definition android_log_processLogBuffer (buf : logger_entry) (entry : AndroidLogEntry)
    : result (list Z * AndroidLogEntry * Z) :=
  let entry := set_header buf entry in
  let msg := le_msg buf in
  if le_len buf <? 3 then Ok (msg, entry, -1)
  else
    ends ← find_ends (Z.to_nat (le_len buf)) msg (le_len buf) 1 (-1);
    let '(msgStart, msgEnd) := ends : Z * Z in
    if msgStart =? -1 then Ok (msg, entry, -1)
    else
      forced ← (if msgEnd =? -1 then
                  msg ← poke msg (le_len buf - 1) 0; Ok (msg, le_len buf - 1)
                else Ok (msg, msgEnd));
      let '(msg, msgEnd) := forced : list Z * Z in
      c ← peek msg 0;
      Ok (msg, mkLogEntry (tv_sec entry) (tv_nsec entry) c (pid entry) (tid entry) (InMsg 1)
                 (to_size (msgEnd - msgStart)) (InMsg msgStart), 0).

(** ** Binary entries *)

Definition EVENT_TYPE_INT : Z := 0.
Definition EVENT_TYPE_LONG : Z := 1.
Definition EVENT_TYPE_STRING : Z := 2.
Definition EVENT_TYPE_LIST : Z := 3.

(** The event data read as [unsigned char]. *)
Definition ubyte (data : list Z) (pos : Z) : result Z := c ← peek data pos; Ok (u8 c).

Definition get4LE (data : list Z) (pos : Z) : result Z :=
  a ← ubyte data pos; b ← ubyte data (pos + 1);
  c ← ubyte data (pos + 2); d ← ubyte data (pos + 3);
  Ok (u32 (Z.lor (Z.lor (Z.lor a (Z.shiftl b 8)) (Z.shiftl c 16)) (Z.shiftl d 24))).

Definition get8LE (data : list Z) (pos : Z) : result Z :=
  low ← get4LE data pos;
  high ← get4LE data (pos + 4);
  Ok (u64 (Z.lor (Z.shiftl high 32) low)).

(** Two's complement: the value of [long long] after wrap-around. *)
Definition s64 (z : Z) : Z := (z + 2 ^ 63) mod 2 ^ 64 - 2 ^ 63.

(** The text of [%d] and [%lld]. *)
Definition decimal_text (z : Z) : list Z := bytes (pretty z).

(** [snprintf (buf + pos, size, ...)] of a text: what fits and a terminator. *)
Definition snprintf (buf : list Z) (pos size : Z) (text : list Z) : result (list Z) :=
  if size =? 0 then Ok buf
  else write_block buf pos (take (Z.to_nat (Z.min (size - 1) (Z.of_nat (length text)))) text ++ [0]).

(** [eventData], [eventDataLen], the block [outBuf] points into, the offset of
    [outBuf] and [outBufLen]. *)
Record printer : Type := mkPrinter {
  ev_pos : Z;
  ev_len : Z;
  out_block : list Z;
  out_pos : Z;
  out_len : Z
}.

Definition eat (n : Z) (st : printer) : printer :=
  mkPrinter (ev_pos st + n) (to_size (ev_len st - n)) (out_block st) (out_pos st) (out_len st).

(** Text written at [outBuf], which moves past the first [n] characters. *)
Definition put_text (text : list Z) (st : printer) : result printer :=
  b ← write_block (out_block st) (out_pos st) text;
  let n := Z.of_nat (length text) in
  Ok (mkPrinter (ev_pos st) (ev_len st) b (out_pos st + n) (to_size (out_len st - n))).

(** [if (outBufLen > 0) *outBuf++ = c; else goto no_room] — code 0 or 1. *)
Definition put_char (c : Z) (st : printer) : result (Z * printer) :=
  if 0 <? out_len st then st ← put_text [c] st; Ok (0, st) else Ok (1, st).

(** The end of the cases of a number. *)
Definition print_number (n : Z) (st : printer) : result (Z * printer) :=
  let text := decimal_text n in
  let outCount := Z.of_nat (length text) in
  b ← snprintf (out_block st) (out_pos st) (out_len st) text;
  if outCount <? out_len st
  then Ok (0, mkPrinter (ev_pos st) (ev_len st) b (out_pos st + outCount)
                (to_size (out_len st - outCount)))
  else Ok (1, mkPrinter (ev_pos st) (ev_len st) b (out_pos st) (out_len st)).

Section Event.
Context (data : list Z).

Definition print_int (st : printer) : result (Z * printer) :=
  if ev_len st <? 4 then Ok (-1, st)
  else v ← get4LE data (ev_pos st); print_number (s32 v) (eat 4 st).

Definition print_long (st : printer) : result (Z * printer) :=
  if ev_len st <? 8 then Ok (-1, st)
  else v ← get8LE data (ev_pos st); print_number (s64 v) (eat 8 st).

Definition print_string (st : printer) : result (Z * printer) :=
  if ev_len st <? 4 then Ok (-1, st)
  else
    strLen ← get4LE data (ev_pos st);
    let st := eat 4 st in
    if ev_len st <? strLen then Ok (-1, st)
    else if strLen <? out_len st then
      s ← read_block data (ev_pos st) strLen;
      st ← put_text s st;
      Ok (0, eat strLen st)
    else if 0 <? out_len st then
      s ← read_block data (ev_pos st) (out_len st);
      st ← put_text s st;
      Ok (1, st)
    else Ok (0, eat strLen st).

Section List.
Context (print : printer -> result (Z * printer)).

(** The loop over the [n] items that are left of [count]. *)
Fixpoint print_items (n : nat) (st : printer) : result (Z * printer) :=
  match n with
  | O => Ok (0, st)
  | S n =>
      '(r, st) ← print st;
      if negb (r =? 0) then Ok (r, st)
      else
        match n with
        | O => Ok (0, st)
        | _ =>
            '(r, st) ← put_char 44 st;
            if r =? 0 then print_items n st else Ok (r, st)
        end
  end.

Definition print_list (st : printer) : result (Z * printer) :=
  if ev_len st <? 1 then Ok (-1, st)
  else
    count ← ubyte data (ev_pos st);
    '(r, st) ← put_char 91 (eat 1 st);
    if negb (r =? 0) then Ok (r, st)
    else
      '(r, st) ← print_items (Z.to_nat count) st;
      if negb (r =? 0) then Ok (r, st)
      else put_char 93 st.
End List.

(** The code -1 of a direct return leaves the caller's pointers as they were;
    they are not used after it. *)
Fixpoint android_log_printBinaryEvent (fuel : nat) (st : printer) : result (Z * printer) :=
  match fuel with
  | O => Err OutOfFuel
  | S fuel =>
      if ev_len st <? 1 then Ok (-1, st)
      else
        type ← ubyte data (ev_pos st);
        let st := eat 1 st in
        if type =? EVENT_TYPE_INT then print_int st
        else if type =? EVENT_TYPE_LONG then print_long st
        else if type =? EVENT_TYPE_STRING then print_string st
        else if type =? EVENT_TYPE_LIST
        then print_list (android_log_printBinaryEvent fuel) st
        else Ok (-1, st)
  end.
End Event.

(** Every nested call has eaten a byte. *)
Definition event_fuel (len : Z) : nat := S (Z.to_nat len).

(** [messageBuf], its contents; [messageBufLen]; the map of tags. *)
Definition event_tag (map : option EventTagMap) (tagIndex : Z) : result (option Z) :=
  match map with
  | Some m => android_lookupEventTag m (s32 tagIndex)
  | None => Ok None
  end.

(** Lines 652-672: the mark of a full buffer and the final newline. *)
Definition finish_output (data : list Z) (messageBuf : Z) (r : Z) (st : printer) : result printer :=
  st ← (if r =? 1 then
          if messageBuf <? out_pos st then
            b ← write_block (out_block st) (out_pos st - 1) [33];
            Ok (mkPrinter (ev_pos st) 0 b (out_pos st) (out_len st))
          else
            st ← put_text [33] st;
            Ok (mkPrinter (ev_pos st) 0 (out_block st) (out_pos st) (out_len st))
        else Ok st);
  c ← (if ev_len st =? 1 then ubyte data (ev_pos st) else Ok 0);
  Ok (if (ev_len st =? 1) && (c =? 10) then eat 1 st else st).

(** The message buffer after the call, the entry, and the returned code. *)
Definition android_log_processBinaryLogBuffer (buf : logger_entry) (entry : AndroidLogEntry)
    (map : option EventTagMap) (block : list Z) (messageBufLen : Z)
    : result (list Z * AndroidLogEntry * Z) :=
  let entry := mkLogEntry (le_sec buf) (le_nsec buf) (priority_value LOG_INFO) (le_pid buf)
                 (le_tid buf) (tag entry) (messageLen entry) (message entry) in
  let data := le_msg buf in
  if le_len buf <? 4 then Ok (block, entry, -1)
  else
    tagIndex ← get4LE data 0;
    found ← event_tag map tagIndex;
    generated ← (match found with
                 | Some pos => Ok (block, InMap pos, 0, messageBufLen)
                 | None =>
                     let text := [91] ++ decimal_text (s32 tagIndex) ++ [93] in
                     let tagLen := Z.of_nat (length text) in
                     b ← snprintf block 0 (to_size messageBufLen) text;
                     Ok (b, InMessageBuf 0, tagLen + 1, messageBufLen - (tagLen + 1))
                 end);
    let '(block, tag_, messageBuf, messageBufLen) := generated : list Z * text_ptr * Z * Z in
    let entry := mkLogEntry (tv_sec entry) (tv_nsec entry) (priority entry) (pid entry) (tid entry)
                   tag_ (messageLen entry) (message entry) in
    '(r, st) ← android_log_printBinaryEvent data (event_fuel (le_len buf - 4))
      (mkPrinter 4 (le_len buf - 4) block messageBuf (to_size (messageBufLen - 1)));
    if r <? 0 then Ok (out_block st, entry, -1)
    else
      st ← finish_output data messageBuf r st;
      b ← write_block (out_block st) (out_pos st) [0];
      let len := to_size (out_pos st - messageBuf) in
      if negb (len =? to_size (messageBufLen - 1 - out_len st)) then Err FatalExit
      else Ok (b, mkLogEntry (tv_sec entry) (tv_nsec entry) (priority entry) (pid entry) (tid entry)
                    (tag entry) len (InMessageBuf messageBuf), 0).
End Width.

(** ** Text entries *)

Lemma find_ends_end fuel msg len i msgStart :
  len <= i -> find_ends fuel msg len i msgStart = Ok (msgStart, -1).
Proof. intros H. destruct fuel; simpl; by rewrite (proj2 (Z.ltb_ge i len)) by lia. Qed.

(** The scan over characters that are not NUL. *)
Lemma find_ends_run fuel msg pre run post len i msgStart :
  msg = pre ++ run ++ post -> i = Z.of_nat (length pre) ->
  Forall (fun c => c <> 0) run -> i + Z.of_nat (length run) <= len -> (length run <= fuel)%nat ->
  find_ends fuel msg len i msgStart =
  find_ends (fuel - length run) msg len (i + Z.of_nat (length run)) msgStart.
Proof.
  intros -> -> Hr. revert pre fuel. induction Hr as [|c run Hc _ IH]; intros pre fuel Hl Hf.
  - simpl. by rewrite Nat.sub_0_r, Z.add_0_r.
  - destruct fuel as [|fuel]; [simpl in Hf; lia|]. simpl length in *.
    cbn [find_ends]. rewrite (proj2 (Z.ltb_lt _ _)) by lia. cbn [app]. rewrite peek_at.
    cbn [mbind result_bind]. rewrite (proj2 (Z.eqb_neq c 0) Hc).
    replace (pre ++ c :: run ++ post) with ((pre ++ [c]) ++ run ++ post) by (by rewrite <-app_assoc).
    replace (Z.of_nat (length pre) + 1) with (Z.of_nat (length (pre ++ [c])))
      by (rewrite length_app; simpl; lia).
    rewrite IH; [|rewrite length_app; simpl; lia|lia].
    rewrite Nat.sub_succ. f_equal. rewrite length_app. simpl. lia.
Qed.

(** At a NUL. *)
Lemma find_ends_nul fuel msg pre post len i msgStart :
  msg = pre ++ 0 :: post -> i = Z.of_nat (length pre) -> i < len -> (0 < fuel)%nat ->
  find_ends fuel msg len i msgStart =
  if msgStart =? -1 then find_ends (fuel - 1) msg len (i + 1) (i + 1) else Ok (msgStart, i).
Proof.
  intros -> -> Hl Hf. destruct fuel as [|fuel]; [lia|]. cbn [find_ends].
  rewrite (proj2 (Z.ltb_lt _ _)) by lia. rewrite peek_at. cbn [mbind result_bind].
  rewrite Z.eqb_refl, Nat.sub_succ, Nat.sub_0_r. done.
Qed.

Lemma until_nul_split s t :
  until_nul s = Some t -> exists rest, s = t ++ 0 :: rest /\ Forall (fun c => c <> 0) t.
Proof.
  revert t; induction s as [|c s IH]; intros t; [done|]. simpl. destruct (c =? 0) eqn:Ec.
  - intros [= <-]. apply Z.eqb_eq in Ec as ->. by exists s.
  - destruct (until_nul s) as [u|]; [|done]. intros [= <-].
    destruct (IH u eq_refl) as (rest & -> & Hu). exists rest. split; [done|].
    constructor; [by apply Z.eqb_neq|done].
Qed.

Lemma until_nul_none s : until_nul s = None -> Forall (fun c => c <> 0) s.
Proof.
  induction s as [|c s IH]; [constructor|]. simpl. destruct (c =? 0) eqn:Ec; [done|].
  destruct (until_nul s) as [u|]; [done|]. intros _. constructor; [by apply Z.eqb_neq|by apply IH].
Qed.

(** Where the scan of a payload ends. *)
Lemma find_ends_payload prio body rest :
  find_ends (S (length body)) (prio :: body ++ rest) (Z.of_nat (S (length body))) 1 (-1) =
  Ok (match until_nul body with
      | None => (-1, -1)
      | Some tag =>
          (Z.of_nat (length tag) + 2,
           match until_nul (drop (S (length tag)) body) with
           | None => -1
           | Some text => Z.of_nat (length tag) + 2 + Z.of_nat (length text)
           end)
      end).
Proof.
  destruct (until_nul body) as [tag|] eqn:Et.
  - apply until_nul_split in Et as (after & -> & Htag).
    replace (drop (S (length tag)) (tag ++ 0 :: after)) with after
      by (rewrite drop_app_ge by lia; by replace (S (length tag) - length tag)%nat with 1%nat by lia).
    rewrite (find_ends_run _ _ [prio] tag (0 :: after ++ rest)) by (done || same_list || len).
    rewrite (find_ends_nul _ _ (prio :: tag) (after ++ rest)) by (done || same_list || len).
    change (-1 =? -1) with true. cbv iota.
    destruct (until_nul after) as [text|] eqn:Ea.
    + apply until_nul_split in Ea as (after' & -> & Htext).
      rewrite (find_ends_run _ _ (prio :: tag ++ [0]) text (0 :: after' ++ rest))
        by (done || same_list || len).
      rewrite (find_ends_nul _ _ (prio :: tag ++ 0 :: text) (after' ++ rest))
        by (done || same_list || len).
      rewrite (proj2 (Z.eqb_neq _ _)) by lia. do 2 f_equal; lia.
    + apply until_nul_none in Ea.
      rewrite (find_ends_run _ _ (prio :: tag ++ [0]) after rest) by (done || same_list || len).
      rewrite find_ends_end by len. do 2 f_equal. lia.
  - apply until_nul_none in Et.
    rewrite (find_ends_run _ _ [prio] body rest) by (done || same_list || len).
    rewrite find_ends_end by len. done.
Qed.

(** The C string at an offset of the payload. *)
Definition c_string (msg : list Z) (p : text_ptr) : option (list Z) :=
  match p with InMsg pos => until_nul (drop (Z.to_nat pos) msg) | _ => None end.

Lemma until_nul_app s rest :
  Forall (fun c => c <> 0) s -> until_nul (s ++ 0 :: rest) = Some s.
Proof.
  induction 1 as [|c s Hc _ IH]; [done|]. simpl. rewrite (proj2 (Z.eqb_neq c 0) Hc), IH. done.
Qed.

Lemma c_string_at msg pos pre s rest :
  msg = pre ++ s ++ 0 :: rest -> pos = Z.of_nat (length pre) -> Forall (fun c => c <> 0) s ->
  c_string msg (InMsg pos) = Some s.
Proof.
  intros -> -> Hs. unfold c_string. rewrite Nat2Z.id, drop_app_length. by apply until_nul_app.
Qed.

Lemma peek_head c msg : peek (c :: msg) 0 = Ok c.
Proof. exact (peek_at [] c msg). Qed.

Lemma to_size_small size_bits z : 0 <= z < 2 ^ size_bits -> to_size size_bits z = z.
Proof. intros. unfold to_size. by rewrite Z.mod_small. Qed.

Lemma to_size_minus_one size_bits : 0 < size_bits -> to_size size_bits (-1) = 2 ^ size_bits - 1.
Proof.
  intros. unfold to_size. pose proof (Z.pow_gt_1 2 size_bits).
  rewrite <-(Z_mod_plus_full _ 1), Z.mod_small; lia.
Qed.

Lemma removelast_tag (tag text : list Z) :
  text <> [] -> removelast (tag ++ 0 :: text) = tag ++ 0 :: removelast text.
Proof. intros H. rewrite removelast_app by done. by destruct text. Qed.

Lemma removelast_forall {A} (P : A -> Prop) l : Forall P l -> Forall P (removelast l).
Proof.
  destruct l as [|x l _] using rev_ind; [done|]. rewrite removelast_last. by intros [? _]%Forall_app.
Qed.

Lemma removelast_length {A} (l : list A) : length (removelast l) = (length l - 1)%nat.
Proof.
  destruct l as [|x l _] using rev_ind; [done|]. rewrite removelast_last, length_app. simpl. lia.
Qed.

Lemma poke_last prio body rest x :
  body <> [] ->
  poke (prio :: body ++ rest) (Z.of_nat (length body)) x = Ok (prio :: removelast body ++ x :: rest).
Proof.
  destruct body as [|y body _] using rev_ind; [done|]. intros _.
  rewrite removelast_last.
  apply (poke_in _ (prio :: body) y rest); [same_list|len].
Qed.

(** Every payload of a text entry: an entry is refused when it is shorter
    than three bytes or no character after the priority is NUL; otherwise the
    tag is what precedes the first NUL, and the message is what lies between it
    and the second NUL.  When the second NUL is missing the last character of
    the message is replaced by one; when nothing follows the first NUL, the
    length of the message is the largest value of its type. *)
Theorem text_entry_split size_bits prio body rest lpid ltid sec nsec entry :
  16 <= size_bits -> Z.of_nat (S (length body)) < 2 ^ 16 ->
  let buf := mkLoggerEntry (Z.of_nat (S (length body))) lpid ltid sec nsec (prio :: body ++ rest) in
  let refused := Ok (le_msg buf, set_header buf entry, -1) in
  ((length body < 2)%nat -> android_log_processLogBuffer size_bits buf entry = refused) /\
  ((2 <= length body)%nat ->
   match until_nul body with
   | None => android_log_processLogBuffer size_bits buf entry = refused
   | Some tag_ =>
       exists msg len, let p := InMsg (Z.of_nat (length tag_) + 2) in
       android_log_processLogBuffer size_bits buf entry =
         Ok (msg, mkLogEntry sec nsec prio lpid ltid (InMsg 1) len p, 0) /\
       c_string msg (InMsg 1) = Some tag_ /\
       let text := drop (S (length tag_)) body in
       match until_nul text with
       | Some t => msg = le_msg buf /\ len = Z.of_nat (length t) /\ c_string msg p = Some t
       | None =>
           msg = prio :: removelast body ++ 0 :: rest /\
           (text <> [] -> len = Z.of_nat (length text) - 1 /\
                          c_string msg p = Some (removelast text)) /\
           (text = [] -> len = 2 ^ size_bits - 1)
       end
   end).
Proof.
  intros Hw Hb buf refused. unfold android_log_processLogBuffer.
  assert (Hp : 2 ^ 16 <= 2 ^ size_bits) by (apply Z.pow_le_mono_r; lia).
  cbn [le_len le_msg buf set_header]. split; intros Hl.
  { by rewrite (proj2 (Z.ltb_lt _ 3)) by lia. }
  rewrite (proj2 (Z.ltb_ge _ 3)) by lia. rewrite Nat2Z.id, find_ends_payload.
  cbn [mbind result_bind].
  destruct (until_nul body) as [tg|] eqn:Et; [|done].
  apply until_nul_split in Et as (text & -> & Htag).
  replace (drop (S (length tg)) (tg ++ 0 :: text)) with text
    by (rewrite drop_app_ge by lia; by replace (S (length tg) - length tg)%nat with 1%nat by lia).
  rewrite (proj2 (Z.eqb_neq _ _)) by lia.
  rewrite length_app in Hb, Hl. simpl in Hb, Hl.
  destruct (until_nul text) as [t|] eqn:Ex.
  - apply until_nul_split in Ex as (after & -> & Ht).
    rewrite length_app in Hb. simpl in Hb.
    rewrite (proj2 (Z.eqb_neq _ _)) by lia. cbn [mbind result_bind].
    rewrite peek_head. cbn [mbind result_bind]. eexists _, _. split; [reflexivity|].
    split; [by apply (c_string_at _ _ [prio] tg ((t ++ 0 :: after) ++ rest)); [same_list|..]|].
    split; [done|]. split; [rewrite to_size_small; lia|].
    by apply (c_string_at _ _ (prio :: tg ++ [0]) t (after ++ rest)); [same_list|len|].
  - apply until_nul_none in Ex. change (-1 =? -1) with true. cbv iota.
    replace (Z.of_nat (S (length (tg ++ 0 :: text))) - 1)
      with (Z.of_nat (length (tg ++ 0 :: text))) by len.
    rewrite poke_last by (by destruct tg). cbn [mbind result_bind].
    rewrite peek_head. cbn [mbind result_bind]. eexists _, _. split; [reflexivity|].
    replace (Z.of_nat (length (tg ++ 0 :: text)) - (Z.of_nat (length tg) + 2))
      with (Z.of_nat (length text) - 1) by len.
    destruct (decide (text = [])) as [->|Hne].
    + rewrite removelast_last.
      split; [by apply (c_string_at _ _ [prio] tg rest)|]. split; [done|].
      split; [done|]. intros _. by rewrite to_size_minus_one by lia.
    + rewrite (removelast_tag tg text Hne). cbn [app]. rewrite <-app_assoc. cbn [app].
      split; [by apply (c_string_at _ _ [prio] tg (removelast text ++ 0 :: rest))|].
      split; [done|]. split; [|done]. intros _.
      assert (text <> [] -> (0 < length text)%nat) as Hpos by (destruct text; simpl; [done|lia]).
      specialize (Hpos Hne). split; [apply to_size_small; lia|].
      apply (c_string_at _ _ (prio :: tg ++ [0]) (removelast text) rest); [same_list|len|].
      by apply removelast_forall.
Qed.

Definition blank_entry : AndroidLogEntry := mkLogEntry 0 0 0 0 0 NullPtr 0 NullPtr.

Definition text_payload : list Z := bytes "app" ++ [0] ++ bytes "started" ++ [0].

Lemma text_entry_split_witness :
  exists msg len,
  android_log_processLogBuffer 32 (mkLoggerEntry 13 10 11 5 6 (4 :: text_payload ++ [7])) blank_entry =
    Ok (msg, mkLogEntry 5 6 4 10 11 (InMsg 1) len (InMsg 5), 0) /\
  c_string msg (InMsg 1) = Some (bytes "app") /\
  len = 7 /\ c_string msg (InMsg 5) = Some (bytes "started").
Proof.
  destruct (proj2 (text_entry_split 32 4 text_payload [7] 10 11 5 6 blank_entry
    ltac:(lia) ltac:(vm_compute; reflexivity)) ltac:(vm_compute; lia))
    as (msg & len & Hr & Ht & _ & Hl & Hm).
  exists msg, len. split; [exact Hr|]. split; [exact Ht|]. split; [exact Hl|exact Hm].
Defined.

(** ** The printer's operations *)

Section Printer.
Context (size_bits : Z).
Context (data : list Z).

(** The event data left is inside its block, and so is the room for output. *)
Definition printer_ok (st : printer) : Prop :=
  0 <= ev_pos st /\ 0 <= ev_len st < 2 ^ size_bits /\
  ev_pos st + ev_len st <= Z.of_nat (length data) /\
  0 <= out_pos st /\ 0 <= out_len st < 2 ^ size_bits /\
  out_pos st + out_len st <= Z.of_nat (length (out_block st)).

(** From [st] to [st'] the text was written at [outBuf], and nothing beyond
    the room that was left. *)
Definition printed (st : printer) (text : list Z) (st' : printer) : Prop :=
  Z.of_nat (length text) <= out_len st /\
  out_pos st' = out_pos st + Z.of_nat (length text) /\
  out_len st' = out_len st - Z.of_nat (length text) /\
  length (out_block st') = length (out_block st) /\
  take (Z.to_nat (out_pos st')) (out_block st') =
    take (Z.to_nat (out_pos st)) (out_block st) ++ text /\
  drop (Z.to_nat (out_pos st + out_len st)) (out_block st') =
    drop (Z.to_nat (out_pos st + out_len st)) (out_block st).

(** The event data between two states of the printer: [n] bytes were eaten. *)
Definition eaten (n : Z) (st st' : printer) : Prop :=
  ev_pos st' = ev_pos st + n /\ ev_len st' = ev_len st - n.

Lemma printed_nil st st' :
  out_pos st' = out_pos st -> out_len st' = out_len st -> out_block st' = out_block st ->
  0 <= out_len st -> printed st [] st'.
Proof.
  intros Hp Hl Hb H0. unfold printed. rewrite Hp, Hl, Hb, app_nil_r. simpl. split_and!; done || lia.
Qed.

Lemma printed_app st st1 st2 t1 t2 :
  printed st t1 st1 -> printed st1 t2 st2 -> printed st (t1 ++ t2) st2.
Proof.
  intros (A1 & A2 & A3 & A4 & A5 & A6) (B1 & B2 & B3 & B4 & B5 & B6). unfold printed.
  rewrite length_app. split_and!; try lia.
  - by rewrite B5, A5, app_assoc.
  - replace (out_pos st + out_len st) with (out_pos st1 + out_len st1) in * by lia. congruence.
Qed.

Lemma printed_ok st t st' n :
  printer_ok st -> printed st t st' -> eaten n st st' -> 0 <= n <= ev_len st -> printer_ok st'.
Proof.
  intros (A1 & A2 & A3 & A4 & A5 & A6) (B1 & B2 & B3 & B4 & B5 & B6) (C1 & C2) Hn.
  unfold printer_ok. rewrite B4. lia.
Qed.

Lemma eat_eaten st n :
  printer_ok st -> 0 <= n <= ev_len st -> eaten n st (eat size_bits n st) /\
  printed st [] (eat size_bits n st) /\ printer_ok (eat size_bits n st).
Proof.
  intros Hst Hn.
  assert (He : eaten n st (eat size_bits n st)).
  { destruct Hst as (_ & H & _). split; [done|]. simpl. rewrite to_size_small; lia. }
  assert (Hp : printed st [] (eat size_bits n st))
    by (apply printed_nil; [done..|]; destruct Hst; lia).
  split_and!; [done..|]. by eapply printed_ok.
Qed.

(** Text written in the room left, possibly followed by a terminator. *)
Lemma write_printed st text more b n :
  printer_ok st -> Z.of_nat (length text + length more) <= out_len st ->
  n = Z.of_nat (length text) ->
  write_block (out_block st) (out_pos st) (text ++ more) = Ok b ->
  printed st text (mkPrinter (ev_pos st) (ev_len st) b (out_pos st + n)
                     (to_size size_bits (out_len st - n))).
Proof.
  intros (A1 & A2 & A3 & A4 & A5 & A6) Hl -> Hw.
  rewrite write_block_ok in Hw by (rewrite ?length_app; lia). injection Hw as <-.
  unfold printed. cbn [out_pos out_len out_block].
  split_and!; [lia|done| | | |].
  - apply to_size_small. lia.
  - rewrite !length_app, length_take, length_drop. lia.
  - rewrite <-(app_assoc text more). rewrite (app_assoc _ text). apply take_app_length'.
    rewrite length_app, length_take. lia.
  - rewrite (drop_app_ge (take _ _)) by (rewrite length_take; lia).
    rewrite length_take, Nat.min_l by lia.
    rewrite drop_app_ge by (rewrite length_app; lia). rewrite drop_drop, length_app.
    f_equal. lia.
Qed.

Lemma put_text_printed st text :
  printer_ok st -> Z.of_nat (length text) <= out_len st ->
  exists st', put_text size_bits text st = Ok st' /\ printed st text st' /\ eaten 0 st st'.
Proof.
  intros Hst Hl. pose proof Hst as (A1 & A2 & A3 & A4 & A5 & A6). unfold put_text.
  destruct (write_block (out_block st) (out_pos st) text) as [b|e] eqn:Ew.
  - eexists. split; [reflexivity|]. split.
    + apply (write_printed st text [] b); [done|simpl; lia|done|by rewrite app_nil_r].
    + split; simpl; lia.
  - rewrite write_block_ok in Ew by lia. done.
Qed.

Lemma put_char_printed st c :
  printer_ok st ->
  exists r st' t, put_char size_bits c st = Ok (r, st') /\ printed st t st' /\ eaten 0 st st' /\
    ((r = 0 /\ t = [c] /\ 0 < out_len st) \/ (r = 1 /\ t = [] /\ out_len st = 0)).
Proof.
  intros Hst. pose proof Hst as (A1 & A2 & A3 & A4 & A5 & A6). unfold put_char.
  destruct (Z.ltb_spec 0 (out_len st)).
  - destruct (put_text_printed st [c] Hst) as (st' & -> & Hp & He); [simpl; lia|].
    exists 0, st', [c]. split_and!; try done. left. by split_and!.
  - exists 1, st, []. split; [done|]. split; [by apply printed_nil; try lia|].
    split; [split; lia|]. right. split_and!; [done..|lia].
Qed.

(** A number is printed whole, or there is no room for it and a terminator. *)
Lemma print_number_printed st n :
  printer_ok st ->
  exists r st' t, print_number size_bits n st = Ok (r, st') /\ printed st t st' /\ eaten 0 st st' /\
    ((r = 0 /\ t = decimal_text n /\ Z.of_nat (length t) < out_len st) \/
     (r = 1 /\ t = [] /\ out_len st <= Z.of_nat (length (decimal_text n)))).
Proof.
  intros Hst. pose proof Hst as (A1 & A2 & A3 & A4 & A5 & A6). unfold print_number, snprintf.
  set (t := decimal_text n).
  destruct (Z.eqb_spec (out_len st) 0) as [H0|H0].
  { cbn [mbind result_bind]. rewrite (proj2 (Z.ltb_ge _ _)) by lia.
    exists 1, (mkPrinter (ev_pos st) (ev_len st) (out_block st) (out_pos st) (out_len st)), [].
    split; [done|]. split; [apply printed_nil; done || lia|]. split; [split; simpl; lia|].
    right. split_and!; [done..|lia]. }
  set (k := Z.to_nat (Z.min (out_len st - 1) (Z.of_nat (length t)))).
  destruct (write_block (out_block st) (out_pos st) (take k t ++ [0])) as [b|e] eqn:Ew;
    [|rewrite write_block_ok in Ew by (rewrite ?length_app, ?length_take; simpl; lia); done].
  cbn [mbind result_bind]. destruct (Z.ltb_spec (Z.of_nat (length t)) (out_len st)) as [Hl|Hl].
  - eexists 0, _, t. split; [reflexivity|]. rewrite take_ge in Ew by lia.
    split; [by apply (write_printed st t [0] b); [|simpl; lia|..]|].
    split; [split; simpl; lia|]. left. by split_and!.
  - eexists 1, _, []. split; [reflexivity|].
    assert (Hp : printed st (take k t) (mkPrinter (ev_pos st) (ev_len st) b
        (out_pos st + Z.of_nat (length (take k t)))
        (to_size size_bits (out_len st - Z.of_nat (length (take k t))))))
      by (apply (write_printed st (take k t) [0]); [done|rewrite length_take; simpl; lia|done..]).
    destruct Hp as (_ & _ & _ & B4 & B5 & B6). split; [|split; [split; simpl; lia|right; by split_and!]].
    unfold printed. cbn [out_pos out_len out_block length] in *. split_and!; try lia; [|done].
    rewrite app_nil_r. apply (f_equal (take (Z.to_nat (out_pos st)))) in B5.
    rewrite take_take in B5.
    rewrite Nat.min_l in B5 by lia. rewrite B5. rewrite take_app_le by (rewrite length_take; lia).
    rewrite take_take. f_equal. lia.
Qed.
End Printer.

(** ** Any event data: no fault, and an end *)

Section AnyData.
Context (size_bits : Z) (Hsize : 32 <= size_bits).
Context (data : list Z).

Lemma size_pow : 2 ^ 32 <= 2 ^ size_bits.
Proof using Hsize. apply Z.pow_le_mono_r; lia. Qed.

Lemma ubyte_ok pos :
  0 <= pos < Z.of_nat (length data) -> exists c, ubyte data pos = Ok c /\ 0 <= c < 2 ^ 8.
Proof.
  intros H. destruct (lookup_lt_is_Some_2 data (Z.to_nat pos)) as [c Hc]; [lia|].
  rewrite <-(take_drop_middle data (Z.to_nat pos) c Hc). unfold ubyte.
  rewrite (peek_in _ (take (Z.to_nat pos) data) c (drop (S (Z.to_nat pos)) data));
    [|done|rewrite length_take; lia].
  exists (u8 c). split; [done|]. unfold u8. apply Z.mod_pos_bound. lia.
Qed.

Lemma get4LE_ok pos :
  0 <= pos -> pos + 4 <= Z.of_nat (length data) ->
  exists v, get4LE data pos = Ok v /\ 0 <= v < 2 ^ 32.
Proof.
  intros H0 H4. unfold get4LE.
  destruct (ubyte_ok pos) as (a & -> & _); [lia|].
  destruct (ubyte_ok (pos + 1)) as (b & -> & _); [lia|].
  destruct (ubyte_ok (pos + 2)) as (c & -> & _); [lia|].
  destruct (ubyte_ok (pos + 3)) as (d & -> & _); [lia|].
  eexists. split; [reflexivity|]. apply u32_range.
Qed.

Lemma get8LE_ok pos :
  0 <= pos -> pos + 8 <= Z.of_nat (length data) -> exists v, get8LE data pos = Ok v.
Proof.
  intros H0 H8. unfold get8LE.
  destruct (get4LE_ok pos) as (a & -> & _); [lia..|].
  destruct (get4LE_ok (pos + 4)) as (b & -> & _); [lia..|]. by eexists.
Qed.

Definition code (r : Z) : Prop := r = -1 \/ r = 0 \/ r = 1.

(** A run from [st] that returns: a code, text in the room left, bytes eaten. *)
Definition good (st : printer) (m : result (Z * printer)) : Prop :=
  exists r st' t n, m = Ok (r, st') /\ printed st t st' /\ eaten n st st' /\
    0 <= n <= ev_len st /\ code r.

Lemma good_ret st r : printer_ok size_bits data st -> code r -> good st (Ok (r, st)).
Proof.
  intros (A1 & A2 & A3 & A4 & A5 & A6) Hr. exists r, st, [], 0.
  split_and!; try done; try lia; [by apply printed_nil; try lia|split; lia].
Qed.

Lemma good_step st st1 t n m :
  printed st t st1 -> eaten n st st1 -> 0 <= n <= ev_len st -> good st1 m -> good st m.
Proof.
  intros Hp [He1 He2] Hn (r & st' & t' & n' & -> & Hp' & [He1' He2'] & Hn' & Hr).
  exists r, st', (t ++ t'), (n + n').
  split_and!; try done; try lia; [by eapply printed_app|split; lia].
Qed.

Lemma good_then st m k :
  printer_ok size_bits data st -> good st m ->
  (forall r st', printer_ok size_bits data st' -> ev_len st' <= ev_len st -> code r ->
     good st' (k (r, st'))) ->
  good st (m ≫= k).
Proof.
  intros Hst (r & st' & t & n & -> & Hp & He & Hn & Hr) Hk. cbn [mbind result_bind].
  assert (Hst' : printer_ok size_bits data st') by (by eapply printed_ok).
  apply (good_step st st' t n); try done. apply Hk; [done|destruct He; lia|done].
Qed.

Lemma good_eat st n m :
  printer_ok size_bits data st -> 0 <= n <= ev_len st ->
  (printer_ok size_bits data (eat size_bits n st) -> good (eat size_bits n st) m) -> good st m.
Proof.
  intros Hst Hn Hm. destruct (eat_eaten size_bits data st n Hst Hn) as (He & Hp & Hok).
  apply (good_step st (eat size_bits n st) [] n); try done. by apply Hm.
Qed.

Lemma eat_len st n : printer_ok size_bits data st -> 0 <= n <= ev_len st ->
  ev_len (eat size_bits n st) = ev_len st - n.
Proof. intros Hst Hn. by destruct (eat_eaten size_bits data st n Hst Hn) as ([_ H] & _). Qed.

Lemma good_put_char st c : printer_ok size_bits data st -> good st (put_char size_bits c st).
Proof.
  intros Hst. destruct (put_char_printed size_bits data st c Hst) as (r & st' & t & -> & Hp & He & Hr).
  exists r, st', t, 0. destruct Hst as (_ & ? & _).
  split_and!; try done; try lia. unfold code. naive_solver.
Qed.

Lemma good_number st n : printer_ok size_bits data st -> good st (print_number size_bits n st).
Proof.
  intros Hst.
  destruct (print_number_printed size_bits data st n Hst) as (r & st' & t & -> & Hp & He & Hr).
  exists r, st', t, 0. destruct Hst as (_ & ? & _).
  split_and!; try done; try lia. unfold code. naive_solver.
Qed.

Lemma block_ok pos n :
  0 <= pos -> 0 <= n -> pos + n <= Z.of_nat (length data) ->
  exists s, read_block data pos n = Ok s /\ Z.of_nat (length s) = n.
Proof.
  intros. unfold read_block. rewrite decide_True by lia. eexists. split; [done|].
  unfold slice. rewrite length_take, length_drop. lia.
Qed.

Lemma good_string st : printer_ok size_bits data st -> good st (print_string size_bits data st).
Proof using Hsize.
  intros Hst. pose proof Hst as (A1 & A2 & A3 & A4 & A5 & A6). unfold print_string.
  assert (Hr : forall s, printer_ok size_bits data s -> good s (Ok (-1, s)))
    by (intros s Hs; apply good_ret; [done|by left]).
  destruct (Z.ltb_spec (ev_len st) 4); [by apply Hr|].
  destruct (get4LE_ok (ev_pos st)) as (strLen & -> & Hs); [lia..|]. cbn [mbind result_bind].
  apply (good_eat st 4); [done|lia|]. set (st1 := eat size_bits 4 st). intros Hok1.
  pose proof Hok1 as (B1 & B2 & B3 & B4 & B5 & B6).
  destruct (Z.ltb_spec (ev_len st1) strLen); [by apply Hr|].
  assert (Hput : forall n k, 0 <= n <= ev_len st1 -> n <= out_len st1 ->
    (forall st2, printer_ok size_bits data st2 -> ev_len st2 = ev_len st1 -> good st2 (k st2)) ->
    good st1 (s ← read_block data (ev_pos st1) n; st ← put_text size_bits s st1; k st)).
  { intros n k Hn Ho Hk. destruct (block_ok (ev_pos st1) n) as (s & -> & Hl); [lia..|].
    cbn [mbind result_bind].
    destruct (put_text_printed size_bits data st1 s Hok1) as (st2 & -> & Hp & He); [lia|].
    cbn [mbind result_bind]. apply (good_step st1 st2 s 0); try done; [lia|].
    apply Hk; [eapply printed_ok; [done..|lia]|destruct He; lia]. }
  destruct (Z.ltb_spec strLen (out_len st1)).
  { apply (Hput strLen (fun st => Ok (0, eat size_bits strLen st))); [lia..|].
    intros st2 Hok2 El. apply (good_eat st2 strLen); [done|lia|]. intros Hok3. apply good_ret; [done|].
    by right; left. }
  destruct (Z.ltb_spec 0 (out_len st1)).
  { apply (Hput (out_len st1) (fun st => Ok (1, st))); [lia..|].
    intros st2 Hok2 El. apply good_ret; [done|]. by right; right. }
  apply (good_eat st1 strLen); [done|lia|]. intros Hok2. apply good_ret; [done|]. by right; left.
Qed.

Lemma good_items print L n :
  (forall st, printer_ok size_bits data st -> ev_len st <= L -> good st (print st)) ->
  forall st, printer_ok size_bits data st -> ev_len st <= L -> good st (print_items size_bits print n st).
Proof.
  intros Hp. induction n as [|n IH]; intros st Hst HL; [apply good_ret; [done|by right; left]|].
  cbn [print_items]. apply good_then; [done|by apply Hp|]. intros r st1 H1 HL1 Hr. cbv beta iota.
  destruct (Z.eqb_spec r 0) as [->|Hr0]; cbn [negb]; [|by apply good_ret].
  destruct n as [|n]; [by apply good_ret|].
  apply good_then; [done|by apply good_put_char|]. intros r st2 H2 HL2 Hr2. cbv beta iota.
  destruct (Z.eqb_spec r 0); [apply IH; [done|lia]|by apply good_ret].
Qed.

Lemma print_any fuel st :
  printer_ok size_bits data st -> ev_len st < Z.of_nat fuel ->
  good st (android_log_printBinaryEvent size_bits data fuel st).
Proof using Hsize.
  revert st. induction fuel as [|fuel IH]; intros st Hst Hf; [destruct Hst; lia|].
  pose proof Hst as (A1 & A2 & A3 & A4 & A5 & A6).
  assert (Hr : forall s, printer_ok size_bits data s -> good s (Ok (-1, s)))
    by (intros s Hs; apply good_ret; [done|by left]).
  cbn [android_log_printBinaryEvent]. destruct (Z.ltb_spec (ev_len st) 1); [by apply Hr|].
  destruct (ubyte_ok (ev_pos st)) as (type & -> & _); [lia|]. cbn [mbind result_bind].
  pose proof (eat_len st 1 Hst ltac:(lia)) as El.
  apply (good_eat st 1); [done|lia|]. set (st1 := eat size_bits 1 st) in *. intros Hok1.
  pose proof Hok1 as (B1 & B2 & B3 & B4 & B5 & B6). 
  destruct (type =? EVENT_TYPE_INT); [|destruct (type =? EVENT_TYPE_LONG);
    [|destruct (type =? EVENT_TYPE_STRING); [|destruct (type =? EVENT_TYPE_LIST); [|by apply Hr]]]].
  - unfold print_int. destruct (Z.ltb_spec (ev_len st1) 4); [by apply Hr|].
    destruct (get4LE_ok (ev_pos st1)) as (v & -> & _); [lia..|]. cbn [mbind result_bind].
    apply (good_eat st1 4); [done|lia|]. intros Hok2. by apply good_number.
  - unfold print_long. destruct (Z.ltb_spec (ev_len st1) 8); [by apply Hr|].
    destruct (get8LE_ok (ev_pos st1)) as (v & ->); [lia..|]. cbn [mbind result_bind].
    apply (good_eat st1 8); [done|lia|]. intros Hok2. by apply good_number.
  - by apply good_string.
  - unfold print_list. destruct (Z.ltb_spec (ev_len st1) 1); [by apply Hr|].
    destruct (ubyte_ok (ev_pos st1)) as (count & -> & _); [lia|]. cbn [mbind result_bind].
    pose proof (eat_len st1 1 Hok1 ltac:(lia)) as El2.
    apply (good_eat st1 1); [done|lia|]. set (st2 := eat size_bits 1 st1) in *. intros Hok2.
    apply good_then; [done|by apply good_put_char|]. intros r st3 Hok3 HL3 Hr3. cbv beta iota.
    destruct (Z.eqb_spec r 0) as [->|Hr0]; cbn [negb]; [|by apply good_ret].
    apply good_then; [done| |].
    + apply (good_items _ (ev_len st3)); [|done|lia]. intros s Hs HL. apply IH; [done|lia].
    + intros r st4 Hok4 HL4 Hr4. cbv beta iota.
      destruct (Z.eqb_spec r 0); cbn [negb]; [by apply good_put_char|by apply good_ret].
Qed.
End AnyData.

(** ** A whole binary entry *)

(** The message after a run that printed [t] with code [r]: a full buffer ends
    with an exclamation mark. *)
Definition shown (r : Z) (t : list Z) : list Z :=
  if r =? 1 then match t with [] => [33] | _ => removelast t ++ [33] end else t.

(** What comes before the message in the buffer: the tag number, when the map
    has no name for it. *)
Definition tag_header (found : option Z) (tagIndex : Z) : list Z :=
  match found with
  | Some _ => []
  | None => [91] ++ decimal_text (s32 tagIndex) ++ [93; 0]
  end.

Section Process.
Context (size_bits : Z) (Hsize : 32 <= size_bits).
Context (data : list Z).

Lemma drop_drop_eq {A} (l1 l2 : list A) (n m : nat) :
  (n <= m)%nat -> drop n l1 = drop n l2 -> drop m l1 = drop m l2.
Proof.
  intros Hn H. replace m with (n + (m - n))%nat by lia. rewrite <-!drop_drop. by rewrite H.
Qed.

(** Marking a full buffer. *)
Lemma mark_printed st0 st t b :
  printer_ok size_bits data st0 -> printed st0 t st -> t <> [] ->
  write_block (out_block st) (out_pos st - 1) [33] = Ok b ->
  printed st0 (removelast t ++ [33]) (mkPrinter (ev_pos st) 0 b (out_pos st) (out_len st)).
Proof.
  intros (_ & _ & _ & A4 & A5 & A6) (B1 & B2 & B3 & B4 & B5 & B6) Ht Hw.
  assert (Hlt : (0 < length t)%nat) by (destruct t; simpl; [done|lia]).
  assert (Hlen : length (removelast t ++ [33]) = length t)
    by (rewrite length_app, removelast_length; simpl; lia).
  rewrite write_block_ok in Hw by (simpl; lia). injection Hw as <-.
  unfold printed. rewrite Hlen. cbn [out_pos out_len out_block].
  split_and!; [lia..| | |].
  - rewrite length_app. simpl. rewrite length_take, length_drop. lia.
  - rewrite (cons_middle _ (take _ _)), (app_assoc (take _ _)). rewrite take_app_length'
      by (rewrite length_app, length_take; simpl; lia).
    rewrite app_assoc. f_equal.
    apply (f_equal (take (Z.to_nat (out_pos st - 1)))) in B5. rewrite take_take, Nat.min_l in B5 by lia.
    rewrite B5, take_app_ge by (rewrite length_take; lia). f_equal.
    rewrite length_take, Nat.min_l by lia.
    destruct t as [|c t _] using rev_ind; [done|]. rewrite removelast_last.
    rewrite length_app in *. simpl in *. apply take_app_length'. lia.
  - rewrite (cons_middle _ (take _ _)), (app_assoc (take _ _)), drop_app_ge by (rewrite length_app, length_take; simpl; lia).
    rewrite drop_drop, <-B6. f_equal. rewrite length_app, length_take. simpl. lia.
Qed.

Lemma finish_printed st0 st r t :
  printer_ok size_bits data st0 -> printer_ok size_bits data st -> printed st0 t st ->
  0 < out_len st0 -> r = 0 \/ r = 1 ->
  exists st', finish_output size_bits data (out_pos st0) r st = Ok st' /\
              printed st0 (shown r t) st'.
Proof.
  intros H0 Hst Hp Hroom Hr. pose proof Hp as (B1 & B2 & B3 & B4 & B5 & B6).
  pose proof Hst as (C1 & C2 & C3 & C4 & C5 & C6). unfold finish_output, shown.
  destruct Hr as [->| ->].
  - change (0 =? 1) with false. cbv iota. cbn [mbind result_bind].
    assert (Hsame : exists c, (if ev_len st =? 1 then ubyte data (ev_pos st) else Ok 0) = Ok c).
    { destruct (Z.eqb_spec (ev_len st) 1); [|by eexists].
      destruct (ubyte_ok data (ev_pos st)) as (c & -> & _); [lia|]. by eexists. }
    destruct Hsame as [c ->]. cbn [mbind result_bind]. eexists. split; [reflexivity|].
    by destruct ((ev_len st =? 1) && (c =? 10)).
  - change (1 =? 1) with true. cbv iota.
    destruct t as [|c t].
    + rewrite (proj2 (Z.ltb_ge _ _)) by (simpl in *; lia).
      destruct (put_text_printed size_bits data st [33] Hst) as (st2 & -> & Hp2 & He);
        [simpl in *; lia|].
      cbn [mbind result_bind ev_len]. change (0 =? 1) with false. cbn [andb mbind result_bind].
      eexists. split; [reflexivity|]. exact (printed_app _ _ _ [] [33] Hp Hp2).
    + rewrite (proj2 (Z.ltb_lt _ _)) by (simpl in *; lia).
      destruct (write_block (out_block st) (out_pos st - 1) [33]) as [b|e] eqn:Ew;
        [|rewrite write_block_ok in Ew by (destruct H0 as (?&?&?&?&?&?); simpl in *; lia); done].
      cbn [mbind result_bind ev_len]. change (0 =? 1) with false. cbn [andb mbind result_bind].
      eexists. split; [reflexivity|]. by apply (mark_printed st0 st (c :: t) b).
Qed.

(** The terminator. *)
Lemma terminate_printed st0 st t :
  printer_ok size_bits data st0 -> printed st0 t st ->
  out_pos st0 + out_len st0 < Z.of_nat (length (out_block st0)) ->
  exists b, write_block (out_block st) (out_pos st) [0] = Ok b /\
    length b = length (out_block st0) /\
    take (Z.to_nat (out_pos st) + 1) b = take (Z.to_nat (out_pos st0)) (out_block st0) ++ t ++ [0] /\
    drop (Z.to_nat (out_pos st0 + out_len st0 + 1)) b =
      drop (Z.to_nat (out_pos st0 + out_len st0 + 1)) (out_block st0).
Proof.
  intros (_ & _ & _ & A4 & A5 & A6) (B1 & B2 & B3 & B4 & B5 & B6) Hlt.
  destruct (write_block (out_block st) (out_pos st) [0]) as [b|e] eqn:Ew;
    [|rewrite write_block_ok in Ew by (simpl; lia); done].
  exists b. split; [done|]. pose proof (write_block_length _ _ _ _ Ew) as Hl.
  pose proof (write_block_take _ _ _ _ Ew) as Ht. split; [lia|]. split.
  - rewrite app_assoc, <-B5. exact Ht.
  - rewrite write_block_ok in Ew by (simpl; lia). injection Ew as <-.
    rewrite (cons_middle _ (take _ _)), (app_assoc (take _ _)), drop_app_ge by (rewrite length_app, length_take; simpl; lia).
    rewrite drop_drop.
    rewrite <-(drop_drop_eq (out_block st) _ (Z.to_nat (out_pos st0 + out_len st0))
      (Z.to_nat (out_pos st0 + out_len st0 + 1))) by (done || lia).
    f_equal. rewrite length_app, length_take. simpl. lia.
Qed.
End Process.

Definition tag_ptr (found : option Z) : text_ptr :=
  match found with Some pos => InMap pos | None => InMessageBuf 0 end.

Section Entry.
Context (size_bits : Z) (Hsize : 32 <= size_bits).
Context (buf : logger_entry) (entry : AndroidLogEntry) (map : option EventTagMap).
Context (block : list Z) (messageBufLen tagIndex : Z) (found : option Z).
Context (Hlen : 4 <= le_len buf < 2 ^ 16) (Hmsg : le_len buf <= Z.of_nat (length (le_msg buf))).
Context (Htag : get4LE (le_msg buf) 0 = Ok tagIndex).
Context (Hfound : event_tag map tagIndex = Ok found).

Definition header : list Z := tag_header found tagIndex.
Definition hlen : Z := Z.of_nat (length header).

Context (Hroom : hlen + 2 <= messageBufLen < 2 ^ 31)
        (Hblock : messageBufLen <= Z.of_nat (length block)).

(** The state of the printer when the values are printed. *)
Definition start : printer :=
  mkPrinter 4 (le_len buf - 4) (header ++ drop (length header) block) hlen (messageBufLen - hlen - 1).

(** The entry made for a message of this length. *)
Definition event_entry (len : Z) : AndroidLogEntry :=
  mkLogEntry (le_sec buf) (le_nsec buf) (priority_value LOG_INFO) (le_pid buf) (le_tid buf)
    (tag_ptr found) len (InMessageBuf hlen).

Lemma start_ok : printer_ok size_bits (le_msg buf) start.
Proof using Hsize Hlen Hmsg Hroom Hblock.
  pose proof (size_pow size_bits Hsize). pose proof (Zle_0_nat (length header)).
  unfold printer_ok, start. cbn [ev_pos ev_len out_pos out_len out_block].
  rewrite length_app, length_drop. unfold hlen in *. lia.
Qed.

Lemma header_snprintf :
  found = None ->
  let text := [91] ++ decimal_text (s32 tagIndex) ++ [93] in
  snprintf block 0 (to_size size_bits messageBufLen) text =
    Ok (header ++ drop (length header) block) /\
  Z.of_nat (length text) + 1 = hlen.
Proof using Hsize Hroom Hblock buf Hlen Hmsg.
  intros Hf text. pose proof (size_pow size_bits Hsize).
  assert (Eh : header = text ++ [0])
    by (unfold header, tag_header, text; rewrite Hf; by rewrite <-!app_assoc).
  assert (Hl : Z.of_nat (length text) + 1 = hlen)
    by (unfold hlen; rewrite Eh, length_app; simpl; lia).
  split; [|done]. unfold snprintf. rewrite to_size_small by lia.
  rewrite (proj2 (Z.eqb_neq _ 0)) by lia.
  rewrite take_ge by lia. rewrite <-Eh.
  rewrite write_block_ok by (unfold hlen in *; lia). simpl. done.
Qed.

(** The call up to the end of the printing. *)
Lemma process_start r st :
  android_log_printBinaryEvent size_bits (le_msg buf) (event_fuel (le_len buf - 4)) start = Ok (r, st) ->
  android_log_processBinaryLogBuffer size_bits buf entry map block messageBufLen =
    if r <? 0 then Ok (out_block st, mkLogEntry (le_sec buf) (le_nsec buf) (priority_value LOG_INFO)
        (le_pid buf) (le_tid buf) (tag_ptr found) (messageLen entry) (message entry), -1)
    else
      st ← finish_output size_bits (le_msg buf) hlen r st;
      b ← write_block (out_block st) (out_pos st) [0];
      let len := to_size size_bits (out_pos st - hlen) in
      if negb (len =? to_size size_bits (messageBufLen - hlen - 1 - out_len st)) then Err FatalExit
      else Ok (b, event_entry len, 0).
Proof using Hsize Hlen Hmsg Htag Hfound Hroom Hblock.
  intros Hrun. pose proof (size_pow size_bits Hsize). pose proof (Zle_0_nat (length header)) as Hh.
  unfold android_log_processBinaryLogBuffer. rewrite (proj2 (Z.ltb_ge _ 4)) by lia.
    rewrite Htag. cbn [mbind result_bind]. rewrite Hfound. cbn [mbind result_bind].
    assert (Hstart : mkPrinter 4 (le_len buf - 4) (header ++ drop (length header) block) hlen
              (to_size size_bits (messageBufLen - hlen - 1)) = start)
      by (unfold start; rewrite to_size_small by (unfold hlen in *; lia); done).
    destruct found as [pos|] eqn:Ef.
    - assert (Eh : header = []) by (unfold header, tag_header; by rewrite Ef).
      assert (El : hlen = 0) by (unfold hlen; by rewrite Eh).
      cbn [mbind result_bind]. rewrite <-Hstart, Eh, El, Z.sub_0_r in Hrun.
      cbn [app length] in Hrun. rewrite drop_0 in Hrun. rewrite Hrun, El, Z.sub_0_r. cbn [mbind result_bind].
      unfold event_entry. by rewrite Ef, El.
    - destruct (header_snprintf Ef) as [-> Hl]. cbn [mbind result_bind].
      rewrite Hl, Hstart, Hrun. cbn [mbind result_bind]. unfold event_entry. by rewrite Ef.
Qed.

(** The whole call from what the printer did. *)
Lemma process_run r st t n :
  android_log_printBinaryEvent size_bits (le_msg buf) (event_fuel (le_len buf - 4)) start = Ok (r, st) ->
  printed start t st -> eaten n start st -> 0 <= n <= ev_len start -> code r ->
  (r = -1 /\ exists b e, length b = length block /\
     drop (Z.to_nat messageBufLen) b = drop (Z.to_nat messageBufLen) block /\
     android_log_processBinaryLogBuffer size_bits buf entry map block messageBufLen = Ok (b, e, -1)) \/
  (r <> -1 /\ exists b, length b = length block /\
     drop (Z.to_nat messageBufLen) b = drop (Z.to_nat messageBufLen) block /\
     hlen + Z.of_nat (length (shown r t)) < messageBufLen /\
     take (length (header ++ shown r t) + 1) b = header ++ shown r t ++ [0] /\
     android_log_processBinaryLogBuffer size_bits buf entry map block messageBufLen =
       Ok (b, event_entry (Z.of_nat (length (shown r t))), 0)).
Proof using Hsize Hlen Hmsg Htag Hfound Hroom Hblock.
  intros Hrun Hp He Hn Hr. pose proof start_ok as H0.
  pose proof (size_pow size_bits Hsize).
  assert (Hst : printer_ok size_bits (le_msg buf) st) by (by eapply printed_ok).
  pose proof (Zle_0_nat (length header)) as Hh.
  assert (Hbl : length (out_block start) = length block)
    by (simpl; rewrite length_app, length_drop; unfold hlen in *; lia).
  assert (Hdr : forall k, (length header <= k)%nat -> drop k (out_block start) = drop k block).
  { intros k Hk. simpl. rewrite drop_app_ge by done. rewrite drop_drop. f_equal. lia. }
  pose proof (process_start r st Hrun) as Hgen.
  destruct (Z.eqb_spec r (-1)) as [->|Hr1].
  { left. split; [done|]. destruct Hp as (_ & _ & _ & B4 & _ & B6).
    eexists (out_block st), _. split; [lia|]. split; [|by rewrite Hgen].
    rewrite <-(Hdr (Z.to_nat messageBufLen)) by (unfold hlen in *; lia).
    eapply drop_drop_eq; [|done]. simpl. lia. }
  right. split; [done|]. assert (Hr' : r = 0 \/ r = 1) by (destruct Hr as [?|[?|?]]; [done|by left|by right]).
  destruct (finish_printed size_bits Hsize (le_msg buf) start st r t) as (st2 & Hfin & Hp2);
    [done..|simpl; lia|done|].
  destruct (terminate_printed size_bits Hsize (le_msg buf) start st2 (shown r t)) as (b & Hw & Hb1 & Hb2 & Hb3);
    [done..|rewrite Hbl; simpl; lia|].
  pose proof Hp2 as (C1 & C2 & C3 & _). cbn [out_pos out_len out_block start] in C1, C2, C3, Hb2, Hb3.
  exists b. split; [lia|]. split; [|split; [lia|split]].
  - replace (hlen + (messageBufLen - hlen - 1) + 1) with messageBufLen in Hb3 by lia.
    rewrite Hb3. apply Hdr. unfold hlen in *. lia.
  - replace (length (header ++ shown r t)) with (Z.to_nat (out_pos st2))
      by (rewrite length_app; unfold hlen in *; lia).
    rewrite Hb2. f_equal. apply take_app_length'. unfold hlen. lia.
  - rewrite Hgen, (proj2 (Z.ltb_ge _ _)) by lia.
    change (out_pos start) with hlen in Hfin. rewrite Hfin. cbn [mbind result_bind]. rewrite Hw.
    cbn [mbind result_bind]. replace (out_pos st2 - hlen) with (Z.of_nat (length (shown r t))) by lia.
    replace (messageBufLen - hlen - 1 - out_len st2) with (Z.of_nat (length (shown r t))) by lia.
    rewrite Z.eqb_refl. cbn [negb]. rewrite to_size_small by (unfold hlen in *; lia). done.
Qed.
End Entry.

(** Whatever the payload of a binary entry holds, the conversion ends, reads
    nothing outside the payload and writes nothing outside the first
    [messageBufLen] characters of the buffer, which has room for the generated
    tag and for two more characters.  It refuses the payload, or leaves in the
    buffer the tag, the message that the entry describes and a terminator. *)
Theorem binary_entry_ends size_bits buf entry map block messageBufLen tagIndex found :
  32 <= size_bits -> 4 <= le_len buf < 2 ^ 16 -> le_len buf <= Z.of_nat (length (le_msg buf)) ->
  get4LE (le_msg buf) 0 = Ok tagIndex -> event_tag map tagIndex = Ok found ->
  Z.of_nat (length (tag_header found tagIndex)) + 2 <= messageBufLen < 2 ^ 31 ->
  messageBufLen <= Z.of_nat (length block) ->
  exists b e r,
    android_log_processBinaryLogBuffer size_bits buf entry map block messageBufLen = Ok (b, e, r) /\
    length b = length block /\
    drop (Z.to_nat messageBufLen) b = drop (Z.to_nat messageBufLen) block /\
    (r = -1 \/
     r = 0 /\ tag e = tag_ptr found /\
     exists text, message e = InMessageBuf (Z.of_nat (length (tag_header found tagIndex))) /\
       messageLen e = Z.of_nat (length text) /\
       Z.of_nat (length (tag_header found tagIndex ++ text)) < messageBufLen /\
       take (length (tag_header found tagIndex ++ text) + 1) b =
         tag_header found tagIndex ++ text ++ [0]).
Proof.
  intros Hs Hl Hm Ht Hf Hr Hb.
  pose proof (start_ok size_bits Hs buf block messageBufLen tagIndex found Hl Hm Hr Hb) as H0.
  destruct (print_any size_bits Hs (le_msg buf) (event_fuel (le_len buf - 4)) _ H0)
    as (r & st & t & n & Hrun & Hp & He & Hn & Hcode); [simpl; unfold event_fuel; lia|].
  destruct (process_run size_bits Hs buf entry map block messageBufLen tagIndex found Hl Hm Ht Hf Hr
    Hb r st t n Hrun Hp He Hn Hcode) as [(-> & b & e & H1 & H2 & ->)|(_ & b & H1 & H2 & H3 & H4 & ->)].
  - exists b, e, (-1). split_and!; try done. by left.
  - exists b, (event_entry buf tagIndex found (Z.of_nat (length (shown r t)))), 0.
    split_and!; try done. right. split_and!; try done. exists (shown r t).
    split_and!; try done. unfold hlen, header in H3. rewrite length_app. lia.
Qed.

(** A payload whose string is longer than the payload is. *)
Definition bad_payload : list Z := [5; 0; 0; 0; 3; 2; 0; 7; 0; 0; 0; 2; 99; 0; 0; 0; 65].

Lemma binary_entry_ends_witness :
  exists b e r,
    android_log_processBinaryLogBuffer 32 (mkLoggerEntry 17 1 2 3 4 bad_payload) blank_entry None
      (replicate 20 0) 18 = Ok (b, e, r) /\
    length b = 20%nat /\ drop 18 b = [0; 0].
Proof.
  destruct (binary_entry_ends 32 (mkLoggerEntry 17 1 2 3 4 bad_payload) blank_entry None
    (replicate 20 0) 18 5 None ltac:(lia) ltac:(by vm_compute) ltac:(vm_compute; discriminate)
    ltac:(vm_compute; reflexivity) eq_refl ltac:(by vm_compute) ltac:(vm_compute; discriminate))
    as (b & e & r & Hr & Hl & Hd & _).
  exists b, e, r. split; [exact Hr|]. split; [exact Hl|exact Hd].
Defined.

(** Without the two characters the conversion writes outside the buffer. *)
Example small_buffer_overruns :
  android_log_processBinaryLogBuffer 32 (mkLoggerEntry 9 1 2 3 4 [5; 0; 0; 0; 0; 7; 0; 0; 0])
    blank_entry None (replicate 4 0) 4 = Err OutOfBounds /\
  android_log_processBinaryLogBuffer 32 (mkLoggerEntry 9 1 2 3 4 [5; 0; 0; 0; 0; 7; 0; 0; 0])
    blank_entry None (replicate 5 0) 5 = Err OutOfBounds.
Proof. vm_compute. by split. Qed.

(** With room for no character a string disappears, and nothing tells so. *)
Example string_dropped :
  exists e, android_log_processBinaryLogBuffer 32
    (mkLoggerEntry 10 1 2 3 4 [5; 0; 0; 0; 2; 1; 0; 0; 0; 65]) blank_entry None (replicate 5 0) 5 =
    Ok (bytes "[5]" ++ [0; 0], e, 0) /\ messageLen e = 0.
Proof.
  exists (mkLogEntry 3 4 4 1 2 (InMessageBuf 0) 0 (InMessageBuf 4)). vm_compute. by split.
Qed.

(** ** The values of an event *)

#[local] Set Warnings "-register-all".
Inductive event : Type :=
  | EInt (z : Z)
  | ELong (z : Z)
  | EString (s : list Z)
  | EList (es : list event).

Section EventInd.
Context (P : event -> Prop).
Context (HI : forall z, P (EInt z)) (HL : forall z, P (ELong z)) (HS : forall s, P (EString s)).
Context (HE : forall es, Forall P es -> P (EList es)).

Fixpoint event_nested_ind (e : event) : P e :=
  match e with
  | EInt z => HI z
  | ELong z => HL z
  | EString s => HS s
  | EList es =>
      HE es ((fix go es : Forall P es :=
                match es with
                | [] => Forall_nil_2 P
                | e :: es => Forall_cons_2 P e es (event_nested_ind e) (go es)
                end) es)
  end.
End EventInd.

Fixpoint little_endian (n : nat) (z : Z) : list Z :=
  match n with
  | O => []
  | S n => z mod 2 ^ 8 :: little_endian n (z / 2 ^ 8)
  end.

Fixpoint encode (e : event) : list Z :=
  match e with
  | EInt z => EVENT_TYPE_INT :: little_endian 4 z
  | ELong z => EVENT_TYPE_LONG :: little_endian 8 z
  | EString s => EVENT_TYPE_STRING :: little_endian 4 (Z.of_nat (length s)) ++ s
  | EList es => EVENT_TYPE_LIST :: Z.of_nat (length es) :: concat (map encode es)
  end.

Fixpoint render (e : event) : list Z :=
  match e with
  | EInt z => decimal_text z
  | ELong z => decimal_text z
  | EString s => s
  | EList es => [91] ++ commas (map render es) ++ [93]
  end.

Fixpoint event_ok (e : event) : Prop :=
  match e with
  | EInt z => - 2 ^ 31 <= z < 2 ^ 31
  | ELong z => - 2 ^ 63 <= z < 2 ^ 63
  | EString s => Z.of_nat (length s) < 2 ^ 32
  | EList es => (length es <= 255)%nat /\ foldr (fun e P => event_ok e /\ P) True es
  end.

Lemma event_ok_list es :
  event_ok (EList es) -> (length es <= 255)%nat /\ Forall event_ok es.
Proof.
  simpl. intros [Hl H]. split; [done|]. clear Hl.
  induction es as [|e es IH]; constructor; [apply H|apply IH, H].
Qed.

Lemma little_endian_length n z : length (little_endian n z) = n.
Proof. revert z; induction n as [|n IH]; intros z; simpl; [done|by rewrite IH]. Qed.

Lemma little_endian_app n m z :
  little_endian (n + m) z = little_endian n z ++ little_endian m (z / 2 ^ (8 * Z.of_nat n)).
Proof.
  revert z; induction n as [|n IH]; intros z; [simpl; by rewrite Z.div_1_r|].
  cbn [little_endian Nat.add app]. rewrite IH. do 3 f_equal. rewrite Z.div_div by lia.
  rewrite <-Z.pow_add_r by lia. do 2 f_equal. lia.
Qed.

Lemma ubyte_at data pre c post pos :
  data = pre ++ c :: post -> pos = Z.of_nat (length pre) -> 0 <= c < 2 ^ 8 ->
  ubyte data pos = Ok c.
Proof.
  intros -> -> Hc. unfold ubyte. rewrite peek_at. cbn [mbind result_bind]. unfold u8.
  by rewrite Z.mod_small.
Qed.

Lemma join_bytes a b c d :
  0 <= a < 2 ^ 8 -> 0 <= b < 2 ^ 8 -> 0 <= c < 2 ^ 8 -> 0 <= d < 2 ^ 8 ->
  Z.lor (Z.lor (Z.lor a (Z.shiftl b 8)) (Z.shiftl c 16)) (Z.shiftl d 24) =
  a + b * 2 ^ 8 + c * 2 ^ 16 + d * 2 ^ 24.
Proof.
  intros Ha Hb Hc Hd. rewrite !Z.shiftl_mul_pow2 by lia.
  rewrite (Z.lor_comm a), lor_add_disjoint by lia.
  rewrite (Z.lor_comm _ (c * _)), lor_add_disjoint by lia.
  rewrite (Z.lor_comm _ (d * _)), lor_add_disjoint by lia. lia.
Qed.

Lemma get4LE_at data pre z post pos :
  data = pre ++ little_endian 4 z ++ post -> pos = Z.of_nat (length pre) ->
  get4LE data pos = Ok (u32 z).
Proof.
  intros Hd ->. unfold get4LE. cbn [little_endian app] in Hd.
  set (a := z mod 2 ^ 8) in *. set (b := z / 2 ^ 8 mod 2 ^ 8) in *.
  set (c := z / 2 ^ 8 / 2 ^ 8 mod 2 ^ 8) in *. set (d := z / 2 ^ 8 / 2 ^ 8 / 2 ^ 8 mod 2 ^ 8) in *.
  assert (Hm : forall x, 0 <= x mod 2 ^ 8 < 2 ^ 8) by (intros; apply Z.mod_pos_bound; lia).
  rewrite (ubyte_at data pre a (b :: c :: d :: post) (Z.of_nat (length pre))) by (done || apply Hm).
  rewrite (ubyte_at data (pre ++ [a]) b (c :: d :: post) (Z.of_nat (length pre) + 1))
    by (apply Hm || (rewrite Hd; same_list) || len).
  rewrite (ubyte_at data (pre ++ [a; b]) c (d :: post) (Z.of_nat (length pre) + 2))
    by (apply Hm || (rewrite Hd; same_list) || len).
  rewrite (ubyte_at data (pre ++ [a; b; c]) d post (Z.of_nat (length pre) + 3))
    by (apply Hm || (rewrite Hd; same_list) || len).
  cbn [mbind result_bind]. rewrite join_bytes by apply Hm. f_equal.
  replace (a + b * 2 ^ 8 + c * 2 ^ 16 + d * 2 ^ 24) with (u32 z).
  { unfold u32. by rewrite Z.mod_mod. }
  unfold u32. replace (2 ^ 32) with (2 ^ 8 * (2 ^ 8 * (2 ^ 8 * 2 ^ 8))) by reflexivity.
  rewrite !Z.rem_mul_r by lia. fold a b c d.
  replace (2 ^ 24) with (2 ^ 8 * 2 ^ 16) by reflexivity.
  replace (2 ^ 16) with (2 ^ 8 * 2 ^ 8) by reflexivity. ring.
Qed.

Lemma get8LE_at data pre z post pos :
  data = pre ++ little_endian 8 z ++ post -> pos = Z.of_nat (length pre) ->
  get8LE data pos = Ok (u64 z).
Proof.
  intros Hd ->. unfold get8LE. change 8%nat with (4 + 4)%nat in Hd.
  rewrite little_endian_app, <-app_assoc in Hd.
  rewrite (get4LE_at _ pre z _ _ Hd eq_refl). cbn [mbind result_bind].
  rewrite (get4LE_at data (pre ++ little_endian 4 z) (z / 2 ^ (8 * Z.of_nat 4)) post);
    [|rewrite Hd; by rewrite <-app_assoc|rewrite length_app, little_endian_length; lia].
  cbn [mbind result_bind]. f_equal.
  rewrite Z.shiftl_mul_pow2, lor_add_disjoint by (lia || apply u32_range).
  change (8 * Z.of_nat 4) with 32.
  replace (u32 (z / 2 ^ 32) * 2 ^ 32 + u32 z) with (u64 z); [unfold u64; by rewrite Z.mod_mod|].
  unfold u64, u32. replace (2 ^ 64) with (2 ^ 32 * 2 ^ 32) by reflexivity.
  rewrite Z.rem_mul_r by lia. ring.
Qed.

Lemma s64_u64 z : - 2 ^ 63 <= z < 2 ^ 63 -> s64 (u64 z) = z.
Proof. intros. unfold s64, u64. rewrite Zplus_mod_idemp_l, Z.mod_small; lia. Qed.

Section Events.
Context (size_bits : Z) (Hsize : 32 <= size_bits).
Context (data : list Z).
Abbreviation ok := (printer_ok size_bits data).

(** A run that prints a text for [len] bytes of event data, or what fits of it
    with code 1; [gap] allows a text that is cut without the code. *)
Definition prints (gap : printer -> printer -> Prop) (st : printer) (len : Z) (text : list Z)
    (m : result (Z * printer)) : Prop :=
  exists r st' t n, m = Ok (r, st') /\ printed st t st' /\ eaten n st st' /\ 0 <= n <= ev_len st /\
    t `prefix_of` text /\
    ((r = 0 /\ n = len /\ (t = text \/ gap st st')) \/
     (r = 1 /\ out_len st <= Z.of_nat (length text))).

Definition never (st st' : printer) : Prop := False.
Definition starved (st st' : printer) : Prop := out_len st = 0.
Definition filled (st st' : printer) : Prop := out_len st' = 0.

Lemma prints_mono (gap gap' : printer -> printer -> Prop) st len text m :
  (forall st' t, printed st t st' -> gap st st' -> gap' st st') ->
  prints gap st len text m -> prints gap' st len text m.
Proof.
  intros Hg (r & st' & t & n & -> & Hp & He & Hn & Ht & Hr). exists r, st', t, n.
  split_and!; try done; try lia. destruct Hr as [(-> & -> & [->|Hgap])|[-> Hr]].
  - left. split_and!; try done. by left.
  - left. split_and!; try done. right. by eapply Hg.
  - by right.
Qed.

Lemma starved_filled st len text m :
  ok st -> prints starved st len text m -> prints filled st len text m.
Proof.
  intros Hst. apply prints_mono. intros st' t (B1 & _ & B3 & _) Hs. unfold starved, filled in *. lia.
Qed.

Lemma prints_eat gap st k len text m :
  ok st -> 0 <= k <= ev_len st -> (forall st', gap (eat size_bits k st) st' -> gap st st') ->
  prints gap (eat size_bits k st) len text m -> prints gap st (k + len) text m.
Proof.
  intros Hst Hk Hg (r & st' & t & n & -> & Hp & He & Hn & Ht & Hr).
  destruct (eat_eaten size_bits data st k Hst Hk) as (He1 & Hp1 & _).
  pose proof (eat_len size_bits data st k Hst Hk) as El.
  exists r, st', t, (k + n). split_and!; try done; try lia.
  - destruct He, He1. split; lia.
  - destruct Hr as [(-> & -> & Hr)|[-> Hr]]; [left|by right]. split_and!; try done.
    destruct Hr as [Hr|Hr]; [by left|right; by apply Hg].
Qed.

(** One run after another; code 1 of the first ends both. *)
Lemma prints_then st len1 len2 text1 text2 m k :
  ok st -> prints filled st len1 text1 m -> (forall st', k (1, st') = Ok (1, st')) ->
  (forall st', ok st' -> eaten len1 st st' -> prints filled st' len2 text2 (k (0, st'))) ->
  prints filled st (len1 + len2) (text1 ++ text2) (m ≫= k).
Proof.
  intros Hst (r & st' & t & n & -> & Hp & He & Hn & Ht & Hr) H1 Hk. cbn [mbind result_bind].
  assert (Hst' : ok st') by (by eapply printed_ok).
  destruct Hr as [(-> & -> & Hr)|[-> Hr]].
  2:{ rewrite H1. exists 1, st', t, n. split_and!; try done; try lia.
      - by apply prefix_app_r.
      - right. split; [done|]. rewrite length_app. lia. }
  destruct (Hk st' Hst' He) as (r & st2 & t2 & n2 & -> & Hp2 & He2 & Hn2 & Ht2 & Hr2).
  exists r, st2, (t ++ t2), (len1 + n2).
  pose proof Hp as (B1 & _ & B3 & _). pose proof Hp2 as (C1 & _ & C3 & _).
  assert (Hcut : t = text1 \/ t2 = [] /\ out_len st' = 0).
  { destruct Hr as [->|Hr]; [by left|right]. unfold filled in Hr. split; [|done].
    destruct t2; [done|simpl in C1; lia]. }
  split_and!; try done.
  - by eapply printed_app.
  - destruct He, He2. split; lia.
  - lia.
  - destruct He. lia.
  - destruct Hcut as [->|[-> _]]; [by apply prefix_app|]. rewrite app_nil_r. by apply prefix_app_r.
  - rewrite length_app. destruct Hr2 as [(-> & -> & Hr2)|[-> Hr2]]; [left|right].
    + split_and!; [done..|]. destruct Hcut as [->|[-> Hz]].
      * destruct Hr2 as [->|Hr2]; [by left|by right].
      * right. unfold filled. simpl in C3. lia.
    + split; [done|]. destruct Hcut as [->|[_ Hz]]; [lia|].
      apply prefix_length in Ht. lia.
Qed.

(** The last character makes sure that the whole text was printed. *)
Lemma prints_last st len text c m k :
  ok st -> prints filled st len text m -> (forall st', k (1, st') = Ok (1, st')) ->
  (forall st', k (0, st') = put_char size_bits c st') ->
  prints never st len (text ++ [c]) (m ≫= k).
Proof.
  intros Hst (r & st' & t & n & -> & Hp & He & Hn & Ht & Hr) H1 H0. cbn [mbind result_bind].
  assert (Hst' : ok st') by (by eapply printed_ok).
  pose proof Hp as (B1 & _ & B3 & _).
  destruct Hr as [(-> & -> & Hr)|[-> Hr]].
  2:{ rewrite H1. exists 1, st', t, n. split_and!; try done; try lia.
      - by apply prefix_app_r.
      - right. split; [done|]. rewrite length_app. lia. }
  rewrite H0.
  destruct (put_char_printed size_bits data st' c Hst') as (r & st2 & t2 & -> & Hp2 & He2 & Hr2).
  exists r, st2, (t ++ t2), len. split_and!; try done; try lia.
  - by eapply printed_app.
  - destruct He, He2. split; lia.
  - destruct Hr2 as [(-> & -> & Hz)|(-> & -> & Hz)].
    + destruct Hr as [->|Hr]; [done|]. unfold filled in Hr. lia.
    + rewrite app_nil_r. by apply prefix_app_r.
  - destruct Hr2 as [(-> & -> & Hz)|(-> & -> & Hz)]; [left|right].
    + split_and!; [done..|]. left. destruct Hr as [->|Hr]; [done|]. unfold filled in Hr. lia.
    + split; [done|]. apply prefix_length in Ht. rewrite length_app. lia.
Qed.

Lemma put_char_prints st c : ok st -> prints filled st 0 [c] (put_char size_bits c st).
Proof.
  intros Hst. pose proof Hst as (_ & ? & _).
  destruct (put_char_printed size_bits data st c Hst) as (r & st' & t & -> & Hp & He & Hr).
  exists r, st', t, 0. split_and!; try done; try lia.
  - destruct Hr as [(_ & -> & _)|(_ & -> & _)]; [done|apply prefix_nil].
  - destruct Hr as [(-> & -> & _)|(-> & -> & Hz)]; [left|right; simpl; lia].
    split_and!; try done. by left.
Qed.

Lemma number_prints st z : ok st -> prints never st 0 (decimal_text z) (print_number size_bits z st).
Proof.
  intros Hst. pose proof Hst as (_ & ? & _).
  destruct (print_number_printed size_bits data st z Hst) as (r & st' & t & -> & Hp & He & Hr).
  exists r, st', t, 0. split_and!; try done; try lia.
  - destruct Hr as [(_ & -> & _)|(_ & -> & _)]; [done|apply prefix_nil].
  - destruct Hr as [(-> & -> & _)|(-> & -> & Hz)]; [left|by right].
    split_and!; try done. by left.
Qed.

(** [s] is in the event data from where the printer is. *)
Definition at_data (st : printer) (s : list Z) : Prop :=
  exists pre post, data = pre ++ s ++ post /\ ev_pos st = Z.of_nat (length pre) /\
    Z.of_nat (length s) <= ev_len st.

Lemma at_data_step st st' s1 s2 n :
  at_data st (s1 ++ s2) -> n = Z.of_nat (length s1) -> eaten n st st' -> at_data st' s2.
Proof.
  intros (pre & post & Hd & Hp & Hl) -> [He1 He2]. rewrite length_app in Hl.
  exists (pre ++ s1), post. split; [rewrite Hd; by rewrite <-!app_assoc|].
  rewrite length_app. lia.
Qed.

Lemma at_data_eat st s1 s2 n :
  ok st -> at_data st (s1 ++ s2) -> n = Z.of_nat (length s1) -> at_data (eat size_bits n st) s2.
Proof.
  intros Hst Hd ->. eapply at_data_step; [done|done|].
  destruct Hd as (pre & post & _ & _ & Hl). rewrite length_app in Hl.
  by apply (eat_eaten size_bits data); [|lia].
Qed.

Lemma at_data_app st s1 s2 : at_data st (s1 ++ s2) -> at_data st s1.
Proof.
  intros (pre & post & Hd & Hp & Hl). rewrite length_app in Hl.
  exists pre, (s2 ++ post). split; [by rewrite Hd, <-app_assoc|]. lia.
Qed.

Lemma at_data_head st c s :
  at_data st (c :: s) -> 0 <= c < 2 ^ 8 -> ubyte data (ev_pos st) = Ok c.
Proof. intros (pre & post & Hd & Hp & _) Hc. by apply (ubyte_at _ pre c (s ++ post)). Qed.

Lemma at_data_get4 st z s : at_data st (little_endian 4 z ++ s) -> get4LE data (ev_pos st) = Ok (u32 z).
Proof.
  intros (pre & post & Hd & Hp & _). apply (get4LE_at _ pre z (s ++ post)); [|done].
  by rewrite Hd, <-app_assoc.
Qed.

Lemma at_data_block st s k :
  at_data st s -> (k <= length s)%nat -> read_block data (ev_pos st) (Z.of_nat k) = Ok (take k s).
Proof.
  intros (pre & post & Hd & Hp & _) Hk. apply (block_in _ pre (take k s) (drop k s ++ post)).
  - by rewrite (app_assoc (take k s)), take_drop.
  - done.
  - rewrite length_take. lia.
Qed.

Lemma put_prints gap st text len :
  ok st -> Z.of_nat (length text) <= out_len st -> 0 <= len <= ev_len st ->
  prints gap st len text (st ← put_text size_bits text st; Ok (0, eat size_bits len st)).
Proof.
  intros Hst Hl Hlen.
  destruct (put_text_printed size_bits data st text Hst Hl) as (st1 & -> & Hp & He).
  cbn [mbind result_bind]. assert (H1 : ok st1) by (eapply printed_ok; [done..|lia]).
  destruct He as [He1 He2].
  destruct (eat_eaten size_bits data st1 len H1) as ([Hs1 Hs2] & Hp2 & _); [lia|].
  exists 0, (eat size_bits len st1), text, len. split; [done|].
  split; [rewrite <-(app_nil_r text); by eapply printed_app|].
  split; [split; lia|]. split; [lia|]. split; [done|]. left. split_and!; try done. by left.
Qed.

Lemma string_prints st s :
  ok st -> at_data st (little_endian 4 (Z.of_nat (length s)) ++ s) ->
  Z.of_nat (length s) < 2 ^ 32 ->
  prints starved st (4 + Z.of_nat (length s)) s (print_string size_bits data st).
Proof using Hsize.
  intros Hst Hd Hs. unfold print_string.
  assert (Hl : 4 + Z.of_nat (length s) <= ev_len st).
  { destruct Hd as (_ & _ & _ & _ & Hl). rewrite length_app, little_endian_length in Hl. lia. }
  rewrite (proj2 (Z.ltb_ge _ _)) by lia. rewrite (at_data_get4 st _ s Hd).
  cbn [mbind result_bind]. rewrite u32_small by lia.
  apply prints_eat; [done|lia|done|].
  pose proof (at_data_eat st _ _ 4 Hst Hd) as Hd1. rewrite little_endian_length in Hd1.
  specialize (Hd1 eq_refl).
  destruct (eat_eaten size_bits data st 4 Hst) as ([He1 He2] & Hp1 & Hok1); [lia|].
  set (st1 := eat size_bits 4 st) in *.
  rewrite (proj2 (Z.ltb_ge _ _)) by lia.
  pose proof Hok1 as (B1 & B2 & B3 & B4 & B5 & B6).
  destruct (Z.ltb_spec (Z.of_nat (length s)) (out_len st1)) as [Hfit|Hfit].
  { rewrite (at_data_block st1 s (length s) Hd1) by lia. rewrite firstn_all.
    cbn [mbind result_bind]. apply put_prints; [done|lia|lia]. }
  destruct (Z.ltb_spec 0 (out_len st1)) as [Hpos|Hpos].
  - replace (out_len st1) with (Z.of_nat (Z.to_nat (out_len st1))) at 1 by lia.
    rewrite (at_data_block st1 s _ Hd1) by lia. cbn [mbind result_bind].
    set (t := take (Z.to_nat (out_len st1)) s).
    assert (Ht : length t = Z.to_nat (out_len st1)) by (unfold t; rewrite length_take; lia).
    destruct (put_text_printed size_bits data st1 t Hok1) as (st2 & -> & Hp & He); [lia|].
    exists 1, st2, t, 0. split; [done|]. split; [done|]. split; [done|]. split; [lia|].
    split; [apply prefix_take|]. by right.
  - destruct (eat_eaten size_bits data st1 (Z.of_nat (length s)) Hok1) as (He & Hp & _); [lia|].
    eexists 0, _, [], _. split; [reflexivity|]. split; [done|]. split; [done|]. split; [lia|].
    split; [apply prefix_nil|]. left. split_and!; try done. right. unfold starved. lia.
Qed.

Lemma items_prints print es :
  Forall (fun e => forall st, ok st -> at_data st (encode e) ->
            prints starved st (Z.of_nat (length (encode e))) (render e) (print st)) es ->
  forall st, ok st -> at_data st (concat (map encode es)) ->
  prints filled st (Z.of_nat (length (concat (map encode es)))) (commas (map render es))
    (print_items size_bits print (length es) st).
Proof.
  induction 1 as [|e es He _ IH]; intros st Hst Hd.
  { destruct Hst as (_ & ? & _ & _ & ? & _). exists 0, st, [], 0.
    split_and!; try done; try lia; [by apply printed_nil; try lia|split; lia|].
    left. split_and!; try done. by left. }
  cbn [map concat] in *. cbn [length print_items].
  pose proof (starved_filled _ _ _ _ Hst (He st Hst (at_data_app _ _ _ Hd))) as Hm.
  assert (Hnext : forall st', ok st' -> eaten (Z.of_nat (length (encode e))) st st' ->
            at_data st' (concat (map encode es)))
    by (intros st' _ H; by eapply at_data_step).
  rewrite length_app, Nat2Z.inj_add. destruct es as [|e2 es].
  - cbn [map concat commas length]. rewrite <-(app_nil_r (render e)).
    apply prints_then; [done|done|done|]. intros st' Hst' _.
    destruct Hst' as (_ & ? & _ & _ & ? & _). exists 0, st', [], 0.
    split_and!; try done; try lia; [by apply printed_nil; try lia|split; lia|].
    left. split_and!; try done. by left.
  - change (commas (render e :: map render (e2 :: es)))
      with (render e ++ [44] ++ commas (map render (e2 :: es))).
    apply prints_then; [done|done|done|]. intros st' Hst' He'. cbv beta iota.
    change (negb (0 =? 0)) with false. cbv iota. cbn [length].
    rewrite <-(Z.add_0_l (Z.of_nat (length (concat _)))).
    apply prints_then; [done|by apply put_char_prints|done|]. intros st2 Hst2 [E1 E2].
    cbv beta iota. rewrite Z.eqb_refl. apply (IH st2 Hst2).
    destruct (Hnext st' Hst' He') as (pre & post & Hdd & Hpp & Hll).
    exists pre, post. split; [done|]. lia.
Qed.

Lemma concat_length_in {A} (ls : list (list A)) l : l ∈ ls -> (length l <= length (concat ls))%nat.
Proof.
  induction 1 as [l ls|l l' ls _ IH]; simpl; rewrite length_app; lia.
Qed.

(** The cases of a list after its count. *)
Lemma list_prints print es st :
  Forall (fun e => forall st, ok st -> at_data st (encode e) ->
            prints starved st (Z.of_nat (length (encode e))) (render e) (print st)) es ->
  ok st -> at_data st (concat (map encode es)) ->
  prints never st (Z.of_nat (length (concat (map encode es)))) (render (EList es))
    ('(r, st) ← put_char size_bits 91 st;
     if negb (r =? 0) then Ok (r, st)
     else
       '(r, st) ← print_items size_bits print (length es) st;
       if negb (r =? 0) then Ok (r, st) else put_char size_bits 93 st).
Proof.
  intros Hes Hst Hd. cbn [render]. rewrite app_assoc.
  set (first := '(r, st) ← put_char size_bits 91 st;
     if negb (r =? 0) then Ok (r, st) else print_items size_bits print (length es) st).
  assert (Hfirst : prints filled st (Z.of_nat (length (concat (map encode es))))
            ([91] ++ commas (map render es)) first).
  { rewrite <-(Z.add_0_l (Z.of_nat _)). apply prints_then; [done|by apply put_char_prints|done|].
    intros st' Hst' [E1 E2]. cbv beta iota. change (negb (0 =? 0)) with false. cbv iota.
    apply items_prints; [done|done|]. destruct Hd as (pre & post & Hdd & Hpp & Hll).
    exists pre, post. split; [done|]. lia. }
  pose proof (prints_last st _ _ 93 first
    (fun x => if negb (x.1 =? 0) then Ok x else put_char size_bits 93 x.2) Hst Hfirst
    (fun _ => eq_refl) (fun _ => eq_refl)) as H.
  revert H. unfold first. destruct (put_char size_bits 91 st) as [[r1 st1]|]; [|done].
  cbn [mbind result_bind]. destruct (negb (r1 =? 0)) eqn:E1; cbn [mbind result_bind fst snd].
  - by rewrite E1.
  - by destruct (print_items size_bits print (length es) st1) as [[r2 st2]|].
Qed.

Lemma print_event e fuel st :
  event_ok e -> ok st -> at_data st (encode e) -> (length (encode e) <= fuel)%nat ->
  prints starved st (Z.of_nat (length (encode e))) (render e)
    (android_log_printBinaryEvent size_bits data fuel st).
Proof using Hsize.
  revert fuel st. induction e as [z|z|s|es IH] using event_nested_ind;
    intros fuel st He Hst Hd Hf; (destruct fuel as [|fuel]; [simpl in Hf; lia|]);
    pose proof Hd as (_ & _ & _ & _ & Hl); cbn [encode] in Hd, Hl, Hf |- *;
    cbn [length] in Hl, Hf |- *; cbn [android_log_printBinaryEvent];
    rewrite (proj2 (Z.ltb_ge _ _)) by lia; rewrite (at_data_head st _ _ Hd) by done;
    cbn [mbind result_bind]; rewrite Nat2Z.inj_succ, <-Z.add_1_l;
    destruct (eat_eaten size_bits data st 1 Hst) as ([He1 He2] & _ & Hok1); try lia;
    (apply prints_eat; [done|lia|done|]);
    pose proof (at_data_eat st [_] _ 1 Hst Hd eq_refl) as Hd1;
    set (st1 := eat size_bits 1 st) in *.
  - rewrite little_endian_length in *. change (EVENT_TYPE_INT =? EVENT_TYPE_INT) with true. cbv iota.
    unfold print_int. rewrite (proj2 (Z.ltb_ge _ _)) by lia.
    rewrite <-(app_nil_r (little_endian _ _)) in Hd1.
    rewrite (at_data_get4 _ _ _ Hd1). cbn [mbind result_bind]. rewrite s32_u32 by done.
    apply (prints_eat starved st1 4 0); [done|lia|done|].
    apply (prints_mono never); [done|]. apply number_prints.
    by apply (eat_eaten size_bits data st1 4 Hok1); lia.
  - rewrite little_endian_length in *. change (EVENT_TYPE_LONG =? EVENT_TYPE_INT) with false.
    change (EVENT_TYPE_LONG =? EVENT_TYPE_LONG) with true. cbv iota.
    unfold print_long. rewrite (proj2 (Z.ltb_ge _ _)) by lia.
    destruct Hd1 as (pre & post & Hdd & Hpp & _).
    rewrite (get8LE_at _ pre z post _ Hdd Hpp). cbn [mbind result_bind]. rewrite s64_u64 by done.
    apply (prints_eat starved st1 8 0); [done|lia|done|].
    apply (prints_mono never); [done|]. apply number_prints.
    by apply (eat_eaten size_bits data st1 8 Hok1); lia.
  - change (EVENT_TYPE_STRING =? EVENT_TYPE_INT) with false.
    change (EVENT_TYPE_STRING =? EVENT_TYPE_LONG) with false.
    change (EVENT_TYPE_STRING =? EVENT_TYPE_STRING) with true. cbv iota.
    rewrite length_app, little_endian_length, Nat2Z.inj_add. by apply string_prints.
  - change (EVENT_TYPE_LIST =? EVENT_TYPE_INT) with false.
    change (EVENT_TYPE_LIST =? EVENT_TYPE_LONG) with false.
    change (EVENT_TYPE_LIST =? EVENT_TYPE_STRING) with false.
    change (EVENT_TYPE_LIST =? EVENT_TYPE_LIST) with true. cbv iota.
    apply event_ok_list in He as [Hn Hes].
    unfold print_list. rewrite (proj2 (Z.ltb_ge _ _)) by (simpl in Hl; lia).
    rewrite (at_data_head st1 _ _ Hd1) by lia. cbn [mbind result_bind].
    cbn [length]. rewrite Nat2Z.inj_succ, <-Z.add_1_l.
    destruct (eat_eaten size_bits data st1 1 Hok1) as ([He3 He4] & _ & Hok2); [lia|].
    apply prints_eat; [done|simpl in Hl; lia|done|].
    pose proof (at_data_eat st1 [_] _ 1 Hok1 Hd1 eq_refl) as Hd2.
    set (st2 := eat size_bits 1 st1) in *.
    set (print := android_log_printBinaryEvent size_bits data fuel).
    rewrite Nat2Z.id. apply (prints_mono never); [done|]. apply list_prints; [|done..].
    rewrite Forall_forall in IH, Hes |- *. intros e He st' Hst' Hd'.
    apply IH; [done|by apply Hes|done|done|].
    pose proof (concat_length_in (map encode es) (encode e) (list_elem_of_fmap_2 encode es e He)) as Hc.
    simpl in Hf. lia.
Qed.
End Events.

(** A payload made of a tag number, an event (a number, a string, or a list
    of events) and possibly a newline is converted to the text of the event,
    which follows the number of the tag when it has no name, when that text is
    shorter than the room left.  Otherwise the message is a beginning of that
    text, and when it is not all of it, its last character is an exclamation
    mark. *)
Theorem binary_entry_rendered size_bits buf entry map block messageBufLen tagIndex found e newline rest :
  32 <= size_bits -> event_ok e -> 0 <= tagIndex < 2 ^ 32 ->
  newline = [] \/ newline = [10] ->
  le_msg buf = little_endian 4 tagIndex ++ encode e ++ newline ++ rest ->
  le_len buf = Z.of_nat (4 + length (encode e) + length newline) -> le_len buf < 2 ^ 16 ->
  event_tag map tagIndex = Ok found ->
  let header := tag_header found tagIndex in
  let room := messageBufLen - Z.of_nat (length header) - 1 in
  0 < room -> messageBufLen < 2 ^ 31 -> messageBufLen <= Z.of_nat (length block) ->
  exists b text,
    android_log_processBinaryLogBuffer size_bits buf entry map block messageBufLen =
      Ok (b, event_entry buf tagIndex found (Z.of_nat (length text)), 0) /\
    take (length (header ++ text) + 1) b = header ++ text ++ [0] /\
    Z.of_nat (length text) <= room /\
    (Z.of_nat (length (render e)) < room -> text = render e) /\
    (text = render e \/ exists t, text = t ++ [33] /\ t `prefix_of` render e).
Proof.
  intros Hs He Htag Hnl Hmsg Hlen Hlen16 Hf hd room Hroom Hmb Hb.
  assert (Htag' : get4LE (le_msg buf) 0 = Ok tagIndex).
  { rewrite (get4LE_at _ [] tagIndex (encode e ++ newline ++ rest)) by (done || rewrite Hmsg; done).
    by rewrite u32_small. }
  assert (Hl : 4 <= le_len buf < 2 ^ 16) by lia.
  assert (Hm : le_len buf <= Z.of_nat (length (le_msg buf)))
    by (rewrite Hmsg, !length_app, little_endian_length; lia).
  assert (Hr : hlen tagIndex found + 2 <= messageBufLen < 2 ^ 31)
    by (unfold hlen, header; fold hd; lia).
  pose proof (start_ok size_bits Hs buf block messageBufLen tagIndex found Hl Hm Hr Hb) as H0.
  destruct (print_event size_bits Hs (le_msg buf) e (event_fuel (le_len buf - 4)) _ He H0)
    as (r & st & t & n & Hrun & Hp & Hea & Hn & Ht & Hcode).
  { exists (little_endian 4 tagIndex), (newline ++ rest). split; [done|].
    split; [done|]. cbn [ev_len start]. lia. }
  { unfold event_fuel. lia. }
  destruct (process_run size_bits Hs buf entry map block messageBufLen tagIndex found Hl Hm Htag' Hf Hr
    Hb r st t n Hrun Hp Hea Hn) as [(-> & _)|(_ & b & H1 & H2 & H3 & H4 & Hres)].
  { destruct Hcode as [(-> & _)|[-> _]]; [by right; left|by right; right]. }
  { destruct Hcode as [(? & _)|[? _]]; lia. }
  exists b, (shown r t). split; [done|]. split; [done|].
  unfold hlen, header in H3. fold hd in H3. split; [lia|].
  assert (Hout : out_len (start buf block messageBufLen tagIndex found) = room) by reflexivity.
  destruct Hcode as [(-> & _ & [->|Hst])|[-> Hfull]].
  - split; [done|by left].
  - unfold starved in Hst. lia.
  - rewrite Hout in Hfull. split; [lia|]. right. unfold shown. change (1 =? 1) with true. cbv iota.
    destruct t as [|c t]; [by exists []; split; [|apply prefix_nil]|].
    exists (removelast (c :: t)). split; [done|].
    etransitivity; [|exact Ht]. destruct (exists_last (l := c :: t)) as (l & x & E); [done|].
    rewrite E, removelast_last. by apply prefix_app_r.
Qed.

Definition demo_event : event := EList [EInt (-42); EString (bytes "hi"); EList [ELong 7]].

Definition demo_entry : logger_entry :=
  mkLoggerEntry 30 1 2 3 4 (little_endian 4 2722 ++ encode demo_event ++ [10] ++ []).

Lemma binary_entry_rendered_witness :
  exists b text,
    android_log_processBinaryLogBuffer 32 demo_entry blank_entry None (replicate 30 0) 30 =
      Ok (b, event_entry demo_entry 2722 None (Z.of_nat (length text)), 0) /\
    take (7 + length text + 1) b = bytes "[2722]" ++ [0] ++ text ++ [0] /\
    text = bytes "[-42,hi,[7]]".
Proof.
  destruct (binary_entry_rendered 32 demo_entry blank_entry None (replicate 30 0) 30 2722 None demo_event
    [10] []) as (b & text & Hr & Ht & _ & Hfit & _).
  - lia.
  - split; [simpl; lia|]. repeat split; simpl; lia.
  - lia.
  - by right.
  - reflexivity.
  - reflexivity.
  - by vm_compute.
  - reflexivity.
  - by vm_compute.
  - by vm_compute.
  - by vm_compute.
  - exists b, text. split; [exact Hr|]. split; [exact Ht|].
    rewrite Hfit by (by vm_compute). vm_compute. reflexivity.
Defined.
