(* ===== verification/LogFormat.v ===== *)
(** * liblog: formatting and printing a line

    Models [src/libs/liblog/logprint.c], lines 694-933: the header of a line in
    each format, the size of the buffer, the strings appended to it with
    [strcat] and [strncat], and the call of [write].  The text of the date, the
    block that [malloc] returns (with whatever it holds) and the answer of
    [write] are arguments. *)
From S2P Require Import Prelude.
From S2P Require Import LogFilter.
From S2P Require Import EventTags.
From S2P Require Import LogEvent.
Local Open Scope Z_scope.
#[local] Arguments Z.mul : simpl never.
#[local] Arguments Z.add : simpl never.
#[local] Arguments Z.sub : simpl never.
#[local] Arguments Z.leb : simpl never.
#[local] Arguments Z.ltb : simpl never.
#[local] Arguments Z.eqb : simpl never.
#[local] Arguments Z.pow : simpl never.

(** ** The conversions of [printf] *)

(** [%5d] and [%-8s] *)
Definition pad_left (n : nat) (s : list Z) : list Z := replicate (n - length s) 32 ++ s.
Definition pad_right (n : nat) (s : list Z) : list Z := s ++ replicate (n - length s) 32.

(** [%03ld] *)
Definition pad_zeros (n : nat) (z : Z) : list Z :=
  if z <? 0 then 45 :: replicate (n - S (length (decimal_text (- z)))) 48 ++ decimal_text (- z)
  else replicate (n - length (decimal_text z)) 48 ++ decimal_text z.

(** The string that [snprintf] leaves in a buffer of this size. *)
Definition fit (size : nat) (s : list Z) : list Z := take (size - 1) s.

Definition PREFIX_SIZE : nat := 128.

(** [timeBuf] and the milliseconds *)
Definition stamp (timeBuf : list Z) (entry : AndroidLogEntry) : list Z :=
  timeBuf ++ [46] ++ pad_zeros 3 (Z.quot (tv_nsec entry) 1000000).

(** Lines 742-796: the text of the prefix and of the suffix, and whether they
    are a header and a footer. *)
Definition prefix_text (fmt : LogPrintFormat) (entry : AndroidLogEntry) (tag_ timeBuf : list Z) : list Z :=
  let priChar := filterPriToChar (priority_of (priority entry)) in
  let pid5 := pad_left 5 (decimal_text (pid entry)) in
  let tid5 := pad_left 5 (decimal_text (tid entry)) in
  let tag8 := pad_right 8 tag_ in
  match fmt with
  | FORMAT_TAG => [priChar] ++ bytes "/" ++ tag8 ++ bytes ": "
  | FORMAT_PROCESS => [priChar] ++ bytes "(" ++ pid5 ++ bytes ") "
  | FORMAT_THREAD => [priChar] ++ bytes "(" ++ pid5 ++ bytes ":" ++ tid5 ++ bytes ") "
  | FORMAT_RAW => []
  | FORMAT_TIME =>
      stamp timeBuf entry ++ bytes " " ++ [priChar] ++ bytes "/" ++ tag8 ++ bytes "(" ++ pid5 ++
      bytes "): "
  | FORMAT_THREADTIME =>
      stamp timeBuf entry ++ bytes " " ++ pid5 ++ bytes " " ++ tid5 ++ bytes " " ++ [priChar] ++
      bytes " " ++ tag8 ++ bytes ": "
  | FORMAT_LONG =>
      bytes "[ " ++ stamp timeBuf entry ++ bytes " " ++ pid5 ++ bytes ":" ++ tid5 ++ bytes " " ++
      [priChar] ++ bytes "/" ++ tag8 ++ bytes " ]" ++ [10]
  | FORMAT_BRIEF | FORMAT_OFF =>
      [priChar] ++ bytes "/" ++ tag8 ++ bytes "(" ++ pid5 ++ bytes "): "
  end.

Definition suffix_text (fmt : LogPrintFormat) (tag_ : list Z) : list Z :=
  match fmt with
  | FORMAT_PROCESS => bytes "  (" ++ tag_ ++ bytes ")" ++ [10]
  | FORMAT_LONG => [10; 10]
  | _ => [10]
  end.

Definition header_footer (fmt : LogPrintFormat) : bool :=
  match fmt with FORMAT_LONG => true | _ => false end.

(** ** The lines of the message *)

(** The loop of lines 825-827 from [pm]: where it stops, and the number. *)
Fixpoint count_newlines (fuel : nat) (msg : list Z) (len pm numLines : Z) : result (Z * Z) :=
  if pm <? len then
    match fuel with
    | O => Err OutOfFuel
    | S fuel =>
        c ← peek msg pm;
        count_newlines fuel msg len (pm + 1) (if c =? 10 then numLines + 1 else numLines)
    end
  else Ok (pm, numLines).

Definition count_lines (msg : list Z) (len : Z) : result Z :=
  '(pm, numLines) ← count_newlines (Z.to_nat len) msg len 0 0;
  if 0 <? pm then
    c ← peek msg (pm - 1);
    Ok (if negb (c =? 10) then numLines + 1 else numLines)
  else Ok numLines.

(** The next newline, or the end of the message. *)
Fixpoint find_newline (fuel : nat) (msg : list Z) (len pm : Z) : result Z :=
  if pm <? len then
    match fuel with
    | O => Err OutOfFuel
    | S fuel =>
        c ← peek msg pm;
        if negb (c =? 10) then find_newline fuel msg len (pm + 1) else Ok pm
    end
  else Ok pm.

(** ** Appending *)

(** Where the string that starts at [p] ends. *)
Fixpoint str_end (fuel : nat) (block : list Z) (p : Z) : result Z :=
  match fuel with
  | O => Err OutOfBounds
  | S fuel => c ← peek block p; if c =? 0 then Ok p else str_end fuel block (p + 1)
  end.

Definition strcat (block : list Z) (p : Z) (s : list Z) : result (list Z) :=
  e ← str_end (S (length block)) block p;
  write_block block e (s ++ [0]).

(** At most [n] characters of the string at [off] of a block. *)
Definition string_at (msg : list Z) (off n : Z) : result (list Z) :=
  let s := slice msg (Z.to_nat off) (Z.to_nat n) in
  match until_nul s with
  | Some t => Ok t
  | None => if Z.of_nat (length s) <? n then Err OutOfBounds else Ok s
  end.

Definition strncat (block : list Z) (p : Z) (msg : list Z) (off n : Z) : result (list Z) :=
  s ← string_at msg off n; strcat block p s.

Section Lines.
Context (prefix suffix : list Z) (msg : list Z) (len : Z).

(** The loop of lines 859-877: the buffer and where [p] is. *)
Fixpoint line_loop (fuel : nat) (ret : list Z) (p pm : Z) : result (list Z * Z) :=
  if pm <? len then
    match fuel with
    | O => Err OutOfFuel
    | S fuel =>
        e ← find_newline (Z.to_nat len) msg len pm;
        let lineLen := e - pm in
        ret ← strcat ret p prefix;
        let p := p + Z.of_nat (length prefix) in
        ret ← strncat ret p msg pm lineLen;
        let p := p + lineLen in
        ret ← strcat ret p suffix;
        let p := p + Z.of_nat (length suffix) in
        c ← peek msg e;
        line_loop fuel ret p (if c =? 10 then e + 1 else e)
    end
  else Ok (ret, p).

Definition append_message (with_header_footer : bool) (ret : list Z) : result (list Z * Z) :=
  if with_header_footer then
    ret ← strcat ret 0 prefix;
    ret ← strncat ret (Z.of_nat (length prefix)) msg 0 len;
    ret ← strcat ret (Z.of_nat (length prefix) + len) suffix;
    Ok (ret, Z.of_nat (length prefix) + len + Z.of_nat (length suffix))
  else line_loop (Z.to_nat len) ret 0 0.
End Lines.

(** [in_default]: the line is in [defaultBuffer]. *)
Record log_line : Type := mkLine { in_default : bool; line_block : list Z; outLength : Z }.

Section Format.
Context (size_bits : Z).
(** The block that [malloc] returns for a size, if any. *)
Context (malloc : Z -> option (list Z)).

(** [tag_] is the string [entry->tag], [msg] the memory from [entry->message]
    on, [timeBuf] the date; [None]: NULL. *)
Definition android_log_formatLogLine (p_format : AndroidLogFormat) (defaultBuffer : list Z)
    (defaultBufferSize : Z) (entry : AndroidLogEntry) (tag_ msg timeBuf : list Z)
    : result (option log_line) :=
  let fmt := format p_format in
  let prefixBuf := fit PREFIX_SIZE (prefix_text fmt entry tag_ timeBuf) in
  let suffixBuf := fit PREFIX_SIZE (suffix_text fmt tag_) in
  numLines ← (if header_footer fmt then Ok 1 else count_lines msg (messageLen entry));
  let bufferSize := to_size size_bits
    (numLines * Z.of_nat (length prefixBuf + length suffixBuf) + messageLen entry + 1) in
  let buffer := if bufferSize <=? defaultBufferSize then Some (true, defaultBuffer)
                else (fun b => (false, b)) <$> malloc bufferSize in
  match buffer with
  | None => Ok None
  | Some (in_default, ret) =>
      ret ← poke ret 0 0;
      '(ret, p) ← append_message prefixBuf suffixBuf msg (messageLen entry) (header_footer fmt) ret;
      Ok (Some (mkLine in_default ret p))
  end.

(** [answer]: what [write] returns the first time it is not interrupted.  The
    returned code, and the characters written. *)
Definition android_log_printLogLine (p_format : AndroidLogFormat) (defaultBuffer : list Z)
    (entry : AndroidLogEntry) (tag_ msg timeBuf : list Z) (answer : Z) : result (Z * list Z) :=
  line ← android_log_formatLogLine p_format defaultBuffer 512 entry tag_ msg timeBuf;
  match line with
  | None => Ok (-1, [])
  | Some l =>
      text ← read_block (line_block l) 0 (outLength l);
      if answer <? 0 then Ok (0, []) else Ok (answer, take (Z.to_nat answer) text)
  end.
End Format.

(** ** The lines of a text *)

Definition NEWLINE : Z := 10.

(** The lines of a text; [cur] is what has been seen of the current one. *)
Fixpoint lines_from (cur s : list Z) : list (list Z) :=
  match s with
  | [] => match cur with [] => [] | _ => [cur] end
  | c :: s => if c =? 10 then cur :: lines_from [] s else lines_from (cur ++ [c]) s
  end.

Definition lines_of (s : list Z) : list (list Z) := lines_from [] s.

(** A text in a format. *)
Definition layout (with_header_footer : bool) (prefix suffix text : list Z) : list Z :=
  if with_header_footer then prefix ++ text ++ suffix
  else concat (map (fun l => prefix ++ l ++ suffix) (lines_of text)).

Definition no_newline (s : list Z) : Prop := lacks 10 s.
Definition no_nul (s : list Z) : Prop := lacks 0 s.

Lemma lines_from_run cur run s :
  no_newline run -> lines_from cur (run ++ s) = lines_from (cur ++ run) s.
Proof.
  intros H. revert cur. induction H as [|c run Hc _ IH]; intros cur; [by rewrite app_nil_r|].
  cbn [app lines_from]. rewrite (proj2 (Z.eqb_neq c 10) Hc), IH. by rewrite <-app_assoc.
Qed.

Lemma lines_of_line line rest :
  no_newline line -> lines_of (line ++ 10 :: rest) = line :: lines_of rest.
Proof. intros H. unfold lines_of. rewrite lines_from_run by done. done. Qed.

Lemma lines_of_last line : line <> [] -> no_newline line -> lines_of line = [line].
Proof.
  intros Hne H. unfold lines_of. rewrite <-(app_nil_r line), lines_from_run by done.
  rewrite app_nil_r. by destruct line.
Qed.

Lemma lines_length s : (length (concat (lines_of s)) <= length s)%nat.
Proof.
  induction s as [|line Hne Hl|line rest Hl IH] using (cut_ind 10); [done| |].
  - rewrite lines_of_last by done. simpl. by rewrite app_nil_r.
  - rewrite lines_of_line by done. simpl. rewrite !length_app. simpl. lia.
Qed.

Lemma layout_lines_length prefix suffix s :
  (length (layout false prefix suffix s) <=
   length (lines_of s) * (length prefix + length suffix) + length s)%nat.
Proof.
  pose proof (lines_length s) as H. revert H. cbn [layout]. generalize (lines_of s) as ls.
  generalize (length s) as n. intros n ls.
  assert (length (concat (map (fun l => prefix ++ l ++ suffix) ls)) =
          length ls * (length prefix + length suffix) + length (concat ls))%nat; [|lia].
  induction ls as [|l ls IH]; simpl; [done|]. rewrite !length_app, IH. lia.
Qed.

(** ** The number of lines *)

Lemma count_newlines_run fuel msg pre run post len pm n :
  msg = pre ++ run ++ post -> pm = Z.of_nat (length pre) -> no_newline run ->
  pm + Z.of_nat (length run) <= len -> (length run <= fuel)%nat ->
  count_newlines fuel msg len pm n =
  count_newlines (fuel - length run) msg len (pm + Z.of_nat (length run)) n.
Proof.
  intros -> -> Hr. revert fuel pre. induction Hr as [|c run Hc _ IH]; intros fuel pre Hl Hf.
  - simpl. by rewrite Nat.sub_0_r, Z.add_0_r.
  - destruct fuel as [|fuel]; [simpl in Hf; lia|]. cbn [length app] in *.
    cbn [count_newlines]. rewrite (proj2 (Z.ltb_lt _ _)) by lia. rewrite peek_at.
    cbn [mbind result_bind]. rewrite (proj2 (Z.eqb_neq c 10) Hc).
    replace (pre ++ c :: run ++ post) with ((pre ++ [c]) ++ run ++ post) by (by rewrite <-app_assoc).
    replace (Z.of_nat (length pre) + 1) with (Z.of_nat (length (pre ++ [c]))) by len.
    rewrite IH; [|len|lia]. rewrite Nat.sub_succ. f_equal. len.
Qed.

Lemma count_newlines_end fuel msg len pm n :
  len <= pm -> count_newlines fuel msg len pm n = Ok (pm, n).
Proof. intros H. destruct fuel; simpl; by rewrite (proj2 (Z.ltb_ge _ _)) by lia. Qed.

(** The count from [pre], which is empty or ends with a newline. *)
Lemma count_lines_spec fuel msg pre s post n :
  msg = pre ++ s ++ post -> (length s <= fuel)%nat ->
  (pre = [] \/ exists pre', pre = pre' ++ [10]) ->
  exists m, count_newlines fuel msg (Z.of_nat (length (pre ++ s))) (Z.of_nat (length pre)) n =
    Ok (Z.of_nat (length (pre ++ s)), m) /\
  (if 0 <? Z.of_nat (length (pre ++ s)) then
     c ← peek msg (Z.of_nat (length (pre ++ s)) - 1);
     Ok (if negb (c =? 10) then m + 1 else m)
   else Ok m) = Ok (n + Z.of_nat (length (lines_of s))).
Proof.
  revert fuel pre n. induction s as [|line Hne Hl|line rest Hl IH] using (cut_ind 10);
    intros fuel pre n Hm Hf Hpre.
  - rewrite app_nil_r, count_newlines_end by lia. exists n. split; [done|].
    simpl length. rewrite Z.add_0_r. destruct Hpre as [->|(pre' & ->)]; [done|].
    rewrite (proj2 (Z.ltb_lt 0 _)) by len.
    rewrite (peek_in msg pre' 10 post); [|rewrite Hm; same_list|len]. done.
  - rewrite (count_newlines_run _ msg pre line post) by (done || len).
    rewrite count_newlines_end by len. exists n. split; [f_equal; f_equal; len|].
    destruct (exists_last Hne) as (l & c & ->). pose proof Hl as [_ Hc]%Forall_app.
    apply Forall_cons in Hc as [Hc _].
    rewrite (proj2 (Z.ltb_lt 0 _)) by len.
    rewrite (peek_in msg (pre ++ l) c post); [|rewrite Hm; same_list|len].
    cbn [mbind result_bind]. rewrite (proj2 (Z.eqb_neq c 10) Hc). cbn [negb].
    rewrite lines_of_last by (done || by destruct l). done.
  - rewrite length_app in Hf. simpl in Hf.
    rewrite (count_newlines_run _ msg pre line (10 :: rest ++ post)) by (done || (rewrite Hm; same_list) || len).
    destruct (fuel - length line)%nat as [|fuel'] eqn:Ef; [lia|].
    cbn [count_newlines]. rewrite (proj2 (Z.ltb_lt _ _)) by len.
    rewrite (peek_in msg (pre ++ line) 10 (rest ++ post)); [|rewrite Hm; same_list|len].
    cbn [mbind result_bind]. change (10 =? 10) with true. cbv iota.
    replace (Z.of_nat (length pre) + Z.of_nat (length line) + 1)
      with (Z.of_nat (length (pre ++ line ++ [10]))) by len.
    replace (pre ++ line ++ 10 :: rest) with ((pre ++ line ++ [10]) ++ rest) by same_list.
    destruct (IH fuel' (pre ++ line ++ [10]) (n + 1)) as (m & Hc & Hn).
    + rewrite Hm. same_list.
    + lia.
    + right. exists (pre ++ line). same_list.
    + exists m. split; [done|]. rewrite Hn, lines_of_line by done. f_equal. simpl. lia.
Qed.

(** ** Appending *)

Lemma str_end_at fuel pre s rest :
  no_nul s -> (length s < fuel)%nat ->
  str_end fuel (pre ++ s ++ 0 :: rest) (Z.of_nat (length pre)) = Ok (Z.of_nat (length (pre ++ s))).
Proof.
  intros Hs. revert fuel pre. induction Hs as [|c s Hc _ IH]; intros fuel pre Hf;
    (destruct fuel as [|fuel]; [simpl in Hf; lia|]); cbn [app str_end]; rewrite peek_at;
    cbn [mbind result_bind].
  - by rewrite Z.eqb_refl, app_nil_r.
  - rewrite (proj2 (Z.eqb_neq c 0) Hc).
    replace (pre ++ c :: s ++ 0 :: rest) with ((pre ++ [c]) ++ s ++ 0 :: rest) by same_list.
    replace (Z.of_nat (length pre) + 1) with (Z.of_nat (length (pre ++ [c]))) by len.
    rewrite IH by (simpl in Hf; lia). do 2 f_equal. len.
Qed.

(** The block holds a string that ends at [p]. *)
Definition holds (block : list Z) (p : Z) (s rest : list Z) : Prop :=
  block = s ++ 0 :: rest /\ p = Z.of_nat (length s).

Lemma strcat_holds block p s rest t :
  holds block p s rest -> (length t <= length rest)%nat ->
  exists block', strcat block p t = Ok block' /\
    holds block' (p + Z.of_nat (length t)) (s ++ t) (drop (length t) rest).
Proof.
  intros [-> ->] Hl. unfold strcat.
  pose proof (str_end_at (S (length (s ++ 0 :: rest))) s [] rest (Forall_nil_2 _) ltac:(len)) as He.
  rewrite app_nil_r in He. cbn [app] in He. rewrite He. cbn [mbind result_bind]. rewrite write_block_ok by len.
  rewrite Nat2Z.id, take_app_length. eexists. split; [reflexivity|]. split; [|len].
  rewrite drop_app_ge by lia. replace (length s + length (t ++ [0%Z]) - length s)%nat
    with (S (length t)) by len. cbn [drop]. same_list.
Qed.

Lemma string_at_in msg pre s post off n :
  msg = pre ++ s ++ post -> off = Z.of_nat (length pre) -> n = Z.of_nat (length s) -> no_nul s ->
  string_at msg off n = Ok s.
Proof.
  intros -> -> -> Hs. unfold string_at, slice. rewrite !Nat2Z.id, drop_app_length, take_app_length.
  destruct (until_nul s) as [t|] eqn:E.
  - apply until_nul_split in E as (rest & -> & _). apply Forall_app in Hs as [_ Hs].
    by apply Forall_cons in Hs as [? _].
  - by rewrite Z.ltb_irrefl.
Qed.

Lemma find_newline_line fuel msg pre line rest len pm :
  msg = pre ++ line ++ rest -> pm = Z.of_nat (length pre) -> no_newline line ->
  pm + Z.of_nat (length line) <= len ->
  (pm + Z.of_nat (length line) = len /\ (length line <= fuel)%nat \/
   (length line < fuel)%nat /\ exists rest', rest = 10 :: rest') ->
  find_newline fuel msg len pm = Ok (pm + Z.of_nat (length line)).
Proof.
  intros -> -> Hl. revert fuel pre. induction Hl as [|c line Hc _ IH]; intros fuel pre Hle Hend.
  - simpl length in *. rewrite Z.add_0_r in *. destruct Hend as [[-> _]|[Hf (rest' & ->)]].
    + destruct fuel; simpl; by rewrite Z.ltb_irrefl.
    + destruct fuel as [|fuel]; [lia|]. cbn [find_newline app].
      destruct (Z.ltb_spec (Z.of_nat (length pre)) len); [|done]. rewrite peek_at.
      cbn [mbind result_bind]. done.
  - simpl length in *. destruct fuel as [|fuel]; [lia|]. cbn [find_newline app].
    rewrite (proj2 (Z.ltb_lt _ _)) by lia. rewrite peek_at.
    cbn [mbind result_bind]. rewrite (proj2 (Z.eqb_neq c 10) Hc). cbn [negb].
    replace (pre ++ c :: line ++ rest) with ((pre ++ [c]) ++ line ++ rest) by same_list.
    replace (Z.of_nat (length pre) + 1) with (Z.of_nat (length (pre ++ [c]))) by len.
    rewrite IH; [f_equal; len|len|].
    destruct Hend as [[<- ?]|[? Hend]]; [left; split; [len|lia]|right; split; [lia|done]].
Qed.

(** One line between a prefix and a suffix. *)
Lemma append_line prefix suffix msg off ret p out rest line n :
  holds ret p out rest -> (length (prefix ++ line ++ suffix) <= length rest)%nat ->
  string_at msg off n = Ok line -> n = Z.of_nat (length line) ->
  exists r1 r2 r3,
    strcat ret p prefix = Ok r1 /\
    strncat r1 (p + Z.of_nat (length prefix)) msg off n = Ok r2 /\
    strcat r2 (p + Z.of_nat (length prefix) + n) suffix = Ok r3 /\
    holds r3 (p + Z.of_nat (length prefix) + n + Z.of_nat (length suffix))
      (out ++ prefix ++ line ++ suffix) (drop (length (prefix ++ line ++ suffix)) rest).
Proof.
  intros H0 Hl Hs ->. rewrite !length_app in Hl.
  destruct (strcat_holds _ _ _ _ prefix H0) as (r1 & E1 & H1); [lia|].
  destruct (strcat_holds _ _ _ _ line H1) as (r2 & E2 & H2); [rewrite length_drop; lia|].
  destruct (strcat_holds _ _ _ _ suffix H2) as (r3 & E3 & H3); [rewrite !length_drop; lia|].
  exists r1, r2, r3. split; [done|]. split; [unfold strncat; by rewrite Hs|]. split; [done|].
  revert H3. rewrite !drop_drop, !length_app, <-!app_assoc.
  by replace (length prefix + length line + length suffix)%nat
    with (length prefix + (length line + length suffix))%nat by lia.
Qed.

Lemma line_loop_end fuel prefix suffix msg len ret p pm :
  len <= pm -> line_loop prefix suffix msg len fuel ret p pm = Ok (ret, p).
Proof. intros H. destruct fuel; simpl; by rewrite (proj2 (Z.ltb_ge _ _)) by lia. Qed.

Lemma layout_line prefix suffix line rest :
  no_newline line ->
  layout false prefix suffix (line ++ 10 :: rest) =
  (prefix ++ line ++ suffix) ++ layout false prefix suffix rest.
Proof. intros H. cbn [layout]. by rewrite lines_of_line. Qed.

(** One round of the loop; [c] is the character after the line. *)
Lemma line_round prefix suffix msg len pre line c after fuel ret p out rest :
  msg = pre ++ line ++ c :: after -> no_newline line -> no_nul line ->
  Z.of_nat (length pre) < len -> Z.of_nat (length (pre ++ line)) <= len ->
  (Z.of_nat (length (pre ++ line)) = len \/ Z.of_nat (length (pre ++ line)) < len /\ c = 10) ->
  holds ret p out rest -> (length (prefix ++ line ++ suffix) <= length rest)%nat ->
  exists ret' p', line_loop prefix suffix msg len (S fuel) ret p (Z.of_nat (length pre)) =
      line_loop prefix suffix msg len fuel ret' p'
        (Z.of_nat (length (pre ++ line)) + if c =? 10 then 1 else 0) /\
    holds ret' p' (out ++ prefix ++ line ++ suffix) (drop (length (prefix ++ line ++ suffix)) rest).
Proof.
  intros Hm Hl Hnul Hlt Hle Hend H0 Hroom. rewrite length_app in Hle, Hend.
  cbn [line_loop]. rewrite (proj2 (Z.ltb_lt _ _)) by done.
  rewrite (find_newline_line _ msg pre line (c :: after)); [|done|done|done|lia|].
  2:{ destruct Hend as [Hend|[Hend ->]]; [left; lia|right; split; [lia|by eexists]]. }
  cbn [mbind result_bind].
  replace (Z.of_nat (length pre) + Z.of_nat (length line) - Z.of_nat (length pre))
    with (Z.of_nat (length line)) by lia.
  destruct (append_line prefix suffix msg (Z.of_nat (length pre)) ret p out rest line
    (Z.of_nat (length line))) as (r1 & r2 & r3 & -> & E2 & E3 & H3); [done|done| |done|].
  { by apply (string_at_in _ pre line (c :: after)). }
  cbn [mbind result_bind]. rewrite E2. cbn [mbind result_bind]. rewrite E3. cbn [mbind result_bind].
  rewrite (peek_in msg (pre ++ line) c after) by (rewrite ?Hm; same_list || len).
  cbn [mbind result_bind]. exists r3, (p + Z.of_nat (length prefix) + Z.of_nat (length line) +
    Z.of_nat (length suffix)). split; [|done]. f_equal. rewrite length_app. destruct (c =? 10); lia.
Qed.

Lemma line_loop_spec prefix suffix msg s post :
  post <> [] -> no_nul s ->
  forall pre fuel ret p out rest,
  msg = pre ++ s ++ post -> (length s <= fuel)%nat -> holds ret p out rest ->
  (length (layout false prefix suffix s) <= length rest)%nat ->
  exists ret' p', line_loop prefix suffix msg (Z.of_nat (length (pre ++ s))) fuel ret p
                    (Z.of_nat (length pre)) = Ok (ret', p') /\
    exists rest', holds ret' p' (out ++ layout false prefix suffix s) rest'.
Proof.
  intros Hpost. induction s as [|line Hne Hl|line more Hl IH] using (cut_ind 10);
    intros Hnul pre fuel ret p out rest Hm Hf H0 Hroom.
  - exists ret, p. rewrite app_nil_r, line_loop_end by lia. split; [done|].
    exists rest. cbn. by rewrite app_nil_r.
  - assert (El : layout false prefix suffix line = prefix ++ line ++ suffix)
      by (cbn [layout]; rewrite lines_of_last by done; simpl; by rewrite app_nil_r).
    rewrite El in *.
    assert (Hpos : (0 < length line)%nat) by (destruct line; simpl; [done|lia]).
    destruct fuel as [|fuel]; [lia|]. destruct post as [|c post]; [done|].
    destruct (line_round prefix suffix msg (Z.of_nat (length (pre ++ line))) pre line c post fuel ret p
      out rest) as (ret' & p' & -> & H3); try done; [len|by left|].
    rewrite line_loop_end by (destruct (c =? 10); lia).
    exists ret', p'. split; [done|]. by eexists.
  - apply Forall_app in Hnul as [Hn1 Hn2]. apply Forall_cons in Hn2 as [_ Hn2].
    rewrite layout_line in Hroom |- * by done. rewrite length_app in Hroom.
    rewrite length_app in Hf. simpl in Hf. destruct fuel as [|fuel]; [lia|].
    destruct (line_round prefix suffix msg (Z.of_nat (length (pre ++ line ++ 10 :: more))) pre line 10
      (more ++ post) fuel ret p out rest) as (ret' & p' & -> & H3);
      [rewrite Hm; same_list|done|done|len|len|right; split; [len|done]|done|lia|].
    change (10 =? 10) with true. cbv iota.
    replace (pre ++ line ++ 10 :: more) with ((pre ++ line ++ [10]) ++ more) by same_list.
    replace (Z.of_nat (length (pre ++ line)) + 1)
      with (Z.of_nat (length (pre ++ line ++ [10]))) by len.
    rewrite (app_assoc out). eapply (IH Hn2); [rewrite Hm; same_list|lia|exact H3|].
    rewrite length_drop. lia.
Qed.

(** ** A whole line *)

(** A string in a block from its start. *)
Definition block_holds (block s : list Z) : Prop :=
  take (length s + 1) block = s ++ [0].

Lemma holds_block block p s rest : holds block p s rest -> block_holds block s.
Proof.
  intros [-> _]. unfold block_holds. rewrite cons_middle, app_assoc. apply take_app_length'. len.
Qed.

Section Whole.
Context (size_bits : Z) (malloc : Z -> option (list Z)).
Context (Hmalloc : forall n b, malloc n = Some b -> Z.of_nat (length b) = n).
Context (p_format : AndroidLogFormat) (entry : AndroidLogEntry) (tag_ text more timeBuf : list Z).

Definition prefix : list Z := fit PREFIX_SIZE (prefix_text (format p_format) entry tag_ timeBuf).
Definition suffix : list Z := fit PREFIX_SIZE (suffix_text (format p_format) tag_).

(** What a line should be. *)
Definition line : list Z := layout (header_footer (format p_format)) prefix suffix text.

Definition numLines : Z :=
  if header_footer (format p_format) then 1 else Z.of_nat (length (lines_of text)).

Definition needed : Z :=
  numLines * Z.of_nat (length prefix + length suffix) + Z.of_nat (length text) + 1.

Lemma line_fits : Z.of_nat (length line) < needed.
Proof.
  unfold line, needed, numLines. destruct (header_footer (format p_format)).
  - cbn [layout]. rewrite !length_app. lia.
  - pose proof (layout_lines_length prefix suffix text). lia.
Qed.

Lemma count_lines_text :
  more <> [] ->
  (if header_footer (format p_format) then Ok 1
   else count_lines (text ++ more) (Z.of_nat (length text))) = Ok numLines.
Proof.
  intros Hm. unfold numLines. destruct (header_footer (format p_format)); [done|].
  destruct (count_lines_spec (length text) (text ++ more) [] text more 0) as (m & Hc & Hn);
    [done|lia|by left|].
  unfold count_lines. rewrite Nat2Z.id. cbn [app length] in Hc, Hn. change (Z.of_nat 0) with 0 in Hc.
  rewrite Hc. cbn [mbind result_bind]. rewrite Z.add_0_l in Hn. exact Hn.
Qed.

Lemma append_message_line ret :
  more <> [] -> no_nul text -> Z.of_nat (length ret) >= needed -> (0 < length ret)%nat ->
  exists ret', append_message prefix suffix (text ++ more) (Z.of_nat (length text))
    (header_footer (format p_format)) (<[0%nat := 0]> ret) = Ok (ret', Z.of_nat (length line)) /\
    block_holds ret' line.
Proof.
  intros Hm Hnul Hr Hpos. pose proof line_fits as Hfit.
  destruct ret as [|c ret]; [simpl in Hpos; lia|]. cbn [insert list_insert].
  assert (H0 : holds (0 :: ret) 0 [] ret) by done.
  assert (Hroom : (length line <= length ret)%nat) by (simpl in Hr; lia).
  unfold append_message. unfold line in *. destruct (header_footer (format p_format)).
  - cbn [layout] in *.
    destruct (append_line prefix suffix (text ++ more) 0 (0 :: ret) 0 [] ret text
      (Z.of_nat (length text)) H0 Hroom) as (r1 & r2 & r3 & -> & E2 & E3 & H3); [|done|].
    { by apply (string_at_in _ [] text more). }
    rewrite Z.add_0_l in E2, E3, H3.
    cbn [mbind result_bind]. rewrite E2. cbn [mbind result_bind]. rewrite E3. cbn [mbind result_bind].
    exists r3. split; [do 2 f_equal; len|]. by eapply holds_block.
  - destruct (line_loop_spec prefix suffix (text ++ more) text more Hm Hnul [] (length text)
      (0 :: ret) 0 [] ret eq_refl (le_n _) H0 Hroom) as (ret' & p' & E & rest' & H').
    rewrite Nat2Z.id. cbn [app length] in E. change (Z.of_nat 0) with 0 in E. rewrite E. exists ret'.
    split; [by destruct H' as [_ ->]|by eapply holds_block].
Qed.

(** The line in a buffer that is large enough. *)
Lemma write_line (in_default_ : bool) ret :
  more <> [] -> no_nul text -> Z.of_nat (length ret) >= needed ->
  exists block,
    (ret ← poke ret 0 0;
     '(ret, p) ← append_message prefix suffix (text ++ more) (Z.of_nat (length text))
                   (header_footer (format p_format)) ret;
     Ok (Some (mkLine in_default_ ret p))) =
      Ok (Some (mkLine in_default_ block (Z.of_nat (length line)))) /\
    block_holds block line.
Proof.
  intros Hm Hnul Hr. pose proof line_fits.
  destruct (append_message_line ret Hm Hnul Hr ltac:(lia)) as (ret' & E & Hh).
  exists ret'. split; [|done]. destruct ret as [|c ret]; [simpl in Hr; lia|].
  rewrite (poke_in _ [] c ret) by done. cbn [app mbind result_bind].
  cbn [insert list_insert] in E. by rewrite E.
Qed.

(** The buffer that is chosen, and whether it is the default one. *)
Definition chosen (defaultBuffer : list Z) (defaultBufferSize : Z) : option (bool * list Z) :=
  if needed <=? defaultBufferSize then Some (true, defaultBuffer)
  else (fun b => (false, b)) <$> malloc needed.

Lemma format_line defaultBuffer defaultBufferSize :
  messageLen entry = Z.of_nat (length text) -> no_nul text -> more <> [] ->
  needed < 2 ^ size_bits -> defaultBufferSize <= Z.of_nat (length defaultBuffer) ->
  match chosen defaultBuffer defaultBufferSize with
  | None => android_log_formatLogLine size_bits malloc p_format defaultBuffer defaultBufferSize
      entry tag_ (text ++ more) timeBuf = Ok None
  | Some (d, _) =>
      exists block, android_log_formatLogLine size_bits malloc p_format defaultBuffer
        defaultBufferSize entry tag_ (text ++ more) timeBuf =
          Ok (Some (mkLine d block (Z.of_nat (length line)))) /\ block_holds block line
  end.
Proof using Hmalloc.
  intros Hlen Hnul Hm Hsz Hdef. unfold android_log_formatLogLine, chosen. rewrite Hlen.
  fold prefix suffix. rewrite count_lines_text by done. cbn [mbind result_bind].
  pose proof line_fits as Hfit. fold needed. rewrite to_size_small by lia.
  destruct (Z.leb_spec needed defaultBufferSize); [apply write_line; done || lia|].
  destruct (malloc needed) as [b|] eqn:Em; cbn; [|done].
  apply write_line; [done..|]. rewrite (Hmalloc _ _ Em). lia.
Qed.

Lemma read_block_holds block s : block_holds block s -> read_block block 0 (Z.of_nat (length s)) = Ok s.
Proof.
  intros Hb. apply (block_in _ [] s (0 :: drop (length s + 1) block)); [|done..].
  rewrite <-(take_drop (length s + 1) block) at 1. rewrite Hb. same_list.
Qed.

(** A message that holds no NUL is formatted as its lines, each between the
    prefix and the suffix of the format (which are cut at 127 characters), or
    as the whole message between the header and the footer.  The buffer is the
    default one when it is large enough, or a block of the size computed
    before; nothing is read or written outside of them, and the line is
    terminated.  Only a failing [malloc] makes the result NULL.  Printing hands
    exactly that line to [write], and reports how much of it was written. *)
Theorem format_line_exact defaultBuffer defaultBufferSize :
  messageLen entry = Z.of_nat (length text) -> no_nul text -> more <> [] ->
  needed < 2 ^ size_bits -> defaultBufferSize <= Z.of_nat (length defaultBuffer) ->
  match chosen defaultBuffer defaultBufferSize with
  | None => android_log_formatLogLine size_bits malloc p_format defaultBuffer defaultBufferSize
      entry tag_ (text ++ more) timeBuf = Ok None
  | Some (d, _) =>
      exists block, android_log_formatLogLine size_bits malloc p_format defaultBuffer
        defaultBufferSize entry tag_ (text ++ more) timeBuf =
          Ok (Some (mkLine d block (Z.of_nat (length line)))) /\ block_holds block line
  end /\
  (defaultBufferSize = 512 -> forall answer,
     android_log_printLogLine size_bits malloc p_format defaultBuffer entry tag_ (text ++ more)
       timeBuf answer =
     Ok (if chosen defaultBuffer 512 is Some _ then
           if answer <? 0 then (0, []) else (answer, take (Z.to_nat answer) line)
         else (-1, []))).
Proof using Hmalloc.
  intros Hlen Hnul Hm Hsz Hdef.
  pose proof (format_line defaultBuffer defaultBufferSize Hlen Hnul Hm Hsz Hdef) as Hf.
  split; [exact Hf|]. intros -> answer. unfold android_log_printLogLine.
  destruct (chosen defaultBuffer 512) as [[d b]|]; [|by rewrite Hf].
  destruct Hf as (block & -> & Hb). cbn [mbind result_bind line_block outLength].
  rewrite read_block_holds by done. cbn [mbind result_bind]. by destruct (answer <? 0).
Qed.
End Whole.

(** ** Two messages *)

Definition plain_malloc (n : Z) : option (list Z) :=
  if n <? 0 then None else Some (replicate (Z.to_nat n) 170).

Lemma plain_malloc_ok n b : plain_malloc n = Some b -> Z.of_nat (length b) = n.
Proof.
  unfold plain_malloc. destruct (Z.ltb_spec n 0); [done|]. intros [= <-]. rewrite length_replicate. lia.
Qed.

Definition two_lines : list Z := bytes "on" ++ [10] ++ bytes "off".

Definition two_lines_entry : AndroidLogEntry := mkLogEntry 0 0 4 77 78 (InMsg 1) 6 (InMsg 6).

Lemma format_line_exact_witness :
  exists block,
    android_log_formatLogLine 32 plain_malloc android_log_format_new (replicate 40 1) 40 two_lines_entry
      (bytes "lamp") (two_lines ++ [0]) [] =
      Ok (Some (mkLine false block 45)) /\
    block_holds block (bytes "I/lamp    (   77): on" ++ [10] ++ bytes "I/lamp    (   77): off" ++ [10]).
Proof.
  destruct (format_line_exact 32 plain_malloc plain_malloc_ok android_log_format_new two_lines_entry
    (bytes "lamp") two_lines [0] [] (replicate 40 1) 40) as [H _].
  - reflexivity.
  - repeat constructor; discriminate.
  - discriminate.
  - by vm_compute.
  - by vm_compute.
  - vm_compute in H |- *. exact H.
Defined.

(** A NUL in the message ends the string, but not the pointer to it: the next
    [strcat] scans what the buffer held before. *)
Example nul_in_message :
  android_log_formatLogLine 32 plain_malloc (android_log_setPrintFormat android_log_format_new FORMAT_RAW)
    (replicate 64 170) 64 (mkLogEntry 0 0 4 77 78 (InMsg 1) 3 (InMsg 6)) (bytes "lamp")
    [65; 0; 66; 0] [] = Err OutOfBounds.
Proof. vm_compute. reflexivity. Qed.

(** A long tag pushes the newline out of the suffix of the process format. *)
Example process_suffix_cut :
  suffix (android_log_setPrintFormat android_log_format_new FORMAT_PROCESS) (replicate 130 97) =
  bytes "  (" ++ replicate 124 97.
Proof. vm_compute. reflexivity. Qed.
