(* ===== verification/RangeManip.v ===== *)
(** * Ranges of bytes of the GL translator

    Models [src/emulator/opengl/host/libs/Translator/GLcommon/RangeManip.cpp] and
    [include/GLcommon/RangeManip.h]: a [Range] of bytes of a vertex buffer and a
    [RangeList], with which the translator remembers what it still has to convert.

    A list means how many of its ranges cover each byte ([count]).  Deleting a
    range moves exactly what lies in it to the list of deleted ranges, however the
    list overlaps ([delRanges_counts]); [merge] is the identity, because
    [rangeUnion] answers [false] in both cases. *)
From S2P Require Import Prelude.

Local Open Scope Z_scope.

(** ** class Range *)

Record Range := mkRange { m_start : Z; m_end : Z; m_size : Z }.

#[export] Instance Range_eq_dec : EqDecision Range.
Proof. solve_decision. Defined.

(** [Range(int start, int size)] and [setRange]. *)
Definition setRange (start size : Z) : Range := mkRange start (s32 (start + size)) size.

(** [operator ==]. *)
Definition range_eqb (a b : Range) : bool :=
  (m_start a =? m_start b) && (m_size a =? m_size b) && (m_end a =? m_end b).

(** The answer, and [rOut] where it is set. *)
Definition rangeIntersection (a r : Range) : bool * option Range :=
  if (m_end r <? m_start a) || (m_end a <? m_start r) then (false, None)
  else
    let max_start := if m_start r <? m_start a then m_start a else m_start r in
    let min_end := if m_end a <? m_end r then m_end a else m_end r in
    let size := s32 (min_end - max_start) in
    if negb (size =? 0) then (true, Some (setRange max_start (s32 (min_end - max_start))))
    else (false, None).

Definition rangeUnion (a r : Range) : bool * option Range :=
  if (m_end r <? m_start a) || (m_end a <? m_start r) then (false, None)
  else
    let min_start := if m_start a <? m_start r then m_start a else m_start r in
    let max_end := if m_end r <? m_end a then m_end a else m_end r in
    let size := s32 (max_end - min_start) in
    if negb (size =? 0) then (false, Some (setRange min_start (s32 (max_end - min_start))))
    else (false, None).

(** ** class RangeList *)

(** The vector of the class. *)
Abbreviation RangeList := (list Range).

Definition addRange (l : RangeList) (r : Range) : RangeList := l ++ [r].

Fixpoint addRanges (l rl : RangeList) : RangeList :=
  match rl with [] => l | r :: rl => addRanges (addRange l r) rl end.

(** [list.erase(list.begin() + i)] at the end of the vector is undefined; the
    guard of the source lets that index through. *)
Definition erase (l : RangeList) (i : nat) : result RangeList :=
  if Nat.ltb (length l) i then Ok l
  else if Nat.ltb i (length l) then Ok (take i l ++ drop (S i) l)
  else Err OutOfBounds.

(** What is left of [old], put at the beginning of the list. *)
Definition split_range (old inter : Range) (l : RangeList) : RangeList :=
  if range_eqb inter old then l
  else
    let l := if negb (m_start old =? m_start inter)
             then setRange (m_start old) (s32 (m_start inter - m_start old)) :: l else l in
    if negb (m_end old =? m_end inter)
    then setRange (m_end inter) (s32 (m_end old - m_end inter)) :: l else l.

(** The loop over the list; [i] stays where it is after a hit ([i--], [i++]). *)
Fixpoint delRange_loop (fuel : nat) (r : Range) (i : nat) (l deleted : RangeList)
  : result (RangeList * RangeList) :=
  match fuel with
  | O => Err OutOfFuel
  | S fuel =>
      match l !! i with
      | None => Ok (l, deleted)
      | Some old =>
          match rangeIntersection r old with
          | (true, Some inter) =>
              l ← erase l i;
              delRange_loop fuel r i (split_range old inter l) (addRange deleted inter)
          | _ => delRange_loop fuel r (S i) l deleted
          end
      end
  end.

Definition delRange (l : RangeList) (r : Range) (deleted : RangeList)
  : result (RangeList * RangeList) :=
  if m_size r =? 0 then Ok (l, deleted)
  else delRange_loop (3 * length l + 1) r 0 l deleted.

Definition delRanges (l rl deleted : RangeList) : result (RangeList * RangeList) :=
  foldM (fun '(l, deleted) r => delRange l r deleted) (l, deleted) rl.

(** The inner loop of [merge]: [Some] list when two ranges were united. *)
Fixpoint merge_inner (fuel : nat) (l : RangeList) (i j : nat) : result (option RangeList) :=
  match fuel with
  | O => Err OutOfFuel
  | S fuel =>
      match l !! j with
      | None => Ok None
      | Some b =>
          a ← get l i;
          match rangeUnion a b with
          | (true, Some temp) => l' ← erase (<[i := temp]> l) j; Ok (Some l')
          | _ => merge_inner fuel l i (S j)
          end
      end
  end.

Fixpoint merge_outer (fuel : nat) (l : RangeList) (i : nat) : result (option RangeList) :=
  match fuel with
  | O => Err OutOfFuel
  | S fuel =>
      if Nat.ltb (S i) (length l) then
        m ← merge_inner (S (length l)) l i (S i);
        match m with Some l' => Ok (Some l') | None => merge_outer fuel l (S i) end
      else Ok None
  end.

Fixpoint merge_loop (fuel : nat) (l : RangeList) : result RangeList :=
  match fuel with
  | O => Err OutOfFuel
  | S fuel =>
      m ← merge_outer (S (length l)) l 0;
      match m with Some l' => merge_loop fuel l' | None => Ok l end
  end.

Definition merge (l : RangeList) : result RangeList :=
  match l with [] => Ok l | _ => merge_loop (S (length l)) l end.

(** ** The bytes that a range and a list cover *)

Definition covers (r : Range) (x : Z) : bool := (m_start r <=? x) && (x <? m_end r).

Fixpoint count (l : RangeList) (x : Z) : nat :=
  match l with [] => 0 | r :: l => (if covers r x then 1 else 0) + count l x end.

(** A range of bytes of a buffer: [m_end] and [m_size] agree. *)
Definition wf (r : Range) : Prop :=
  0 <= m_start r <= m_end r /\ m_end r < 2 ^ 31 /\ m_size r = m_end r - m_start r.

Lemma count_app l1 l2 x : count (l1 ++ l2) x = (count l1 x + count l2 x)%nat.
Proof. induction l1; simpl; lia. Qed.

Lemma wf_setRange s n : 0 <= s -> 0 <= n -> s + n < 2 ^ 31 -> wf (setRange s n).
Proof.
  intros. unfold wf, setRange; simpl. rewrite s32_small by lia. lia.
Qed.

Lemma covers_setRange s n x :
  0 <= s -> 0 <= n -> s + n < 2 ^ 31 -> covers (setRange s n) x = (s <=? x) && (x <? s + n).
Proof. intros. unfold covers, setRange; simpl. by rewrite s32_small by lia. Qed.

Ltac bools := repeat match goal with
  | H : (_ && _)%bool = _ |- _ => first [apply andb_true_iff in H; destruct H | apply andb_false_iff in H]
  | H : (_ || _)%bool = false |- _ => apply orb_false_iff in H; destruct H
  | H : (_ || _)%bool = true |- _ => apply orb_true_iff in H
  | H : negb _ = true |- _ => apply negb_true_iff in H
  | H : negb _ = false |- _ => apply negb_false_iff in H
  | H : (_ <? _) = true |- _ => apply Z.ltb_lt in H
  | H : (_ <? _) = false |- _ => apply Z.ltb_ge in H
  | H : (_ <=? _) = true |- _ => apply Z.leb_le in H
  | H : (_ <=? _) = false |- _ => apply Z.leb_gt in H
  | H : (_ =? _) = true |- _ => apply Z.eqb_eq in H
  | H : (_ =? _) = false |- _ => apply Z.eqb_neq in H
  end.

Ltac split_ifs := repeat match goal with
  | |- context [if ?b then _ else _] => destruct b eqn:?
  end.

(** The intersection, computed without wrapping around. *)
Definition inter_of (a r : Range) : Range :=
  mkRange (Z.max (m_start a) (m_start r)) (Z.min (m_end a) (m_end r))
          (Z.min (m_end a) (m_end r) - Z.max (m_start a) (m_start r)).

Definition meets (a r : Range) : bool :=
  Z.max (m_start a) (m_start r) <? Z.min (m_end a) (m_end r).

Lemma rangeIntersection_ok a r :
  wf a -> wf r ->
  rangeIntersection a r = if meets a r then (true, Some (inter_of a r)) else (false, None).
Proof.
  intros (Ha & Ha' & Has) (Hr & Hr' & Hrs). unfold rangeIntersection, meets.
  replace (if m_start r <? m_start a then m_start a else m_start r)
    with (Z.max (m_start a) (m_start r)) by (destruct (Z.ltb_spec (m_start r) (m_start a)); lia).
  replace (if m_end a <? m_end r then m_end a else m_end r)
    with (Z.min (m_end a) (m_end r)) by (destruct (Z.ltb_spec (m_end a) (m_end r)); lia).
  cbv zeta. destruct (Z.ltb_spec (Z.max (m_start a) (m_start r)) (Z.min (m_end a) (m_end r))).
  - rewrite s32_small by lia. split_ifs; bools; try lia.
    unfold setRange, inter_of. rewrite s32_small by lia. do 3 f_equal. lia.
  - destruct (_ || _) eqn:E; [done|]. bools.
    rewrite s32_small by lia. split_ifs; bools; try lia. done.
Qed.

(** ** One range deleted *)

Fixpoint hits (r : Range) (l : RangeList) : nat :=
  match l with [] => 0 | a :: l => (if meets r a then 1 else 0) + hits r l end.

(** Both ends of a range satisfy [B]: what is known of all boundaries is known
    of the boundaries of what is left and of what is deleted. *)
Definition ends (B : Z -> Prop) (r : Range) : Prop := B (m_start r) /\ B (m_end r).

Definition inside (r p : Range) : Prop :=
  m_start r <= m_start p /\ m_start p < m_end p /\ m_end p <= m_end r.

Lemma meets_covers r a x : meets r a = false -> covers r x = true -> covers a x = false.
Proof. unfold meets, covers. intros. destruct (_ && _) eqn:E; [|done]. bools. lia. Qed.

Lemma hits_app r l1 l2 : hits r (l1 ++ l2) = (hits r l1 + hits r l2)%nat.
Proof. induction l1 as [|a l1 IH]; simpl; lia. Qed.

Lemma hits_none r l : Forall (fun a => meets r a = false) l -> hits r l = 0%nat.
Proof. induction 1 as [|a l Ha H IH]; simpl; [done|]. by rewrite Ha. Qed.

(** What is left of a range that meets [r]: up to two pieces. *)
Definition pieces (r old : Range) : RangeList :=
  (if m_end old =? Z.min (m_end r) (m_end old) then []
   else [mkRange (m_end r) (m_end old) (m_end old - m_end r)]) ++
  (if m_start old =? Z.max (m_start r) (m_start old) then []
   else [mkRange (m_start old) (m_start r) (m_start r - m_start old)]).

Lemma split_range_ok r old l :
  wf r -> wf old -> meets r old = true ->
  split_range old (inter_of r old) l = pieces r old ++ l.
Proof.
  intros (Hr & Hr' & Hrs) (Ho & Ho' & Hos) Hm. unfold meets in Hm. bools.
  unfold split_range, range_eqb, pieces. simpl.
  destruct (Z.eqb_spec (m_end old) (Z.min (m_end r) (m_end old)));
    destruct (Z.eqb_spec (m_start old) (Z.max (m_start r) (m_start old))); simpl;
    split_ifs; bools; subst; try lia; try done; simpl;
    unfold setRange; rewrite ?s32_small by (rewrite ?s32_small; lia); repeat (f_equal; try lia).
Qed.

Lemma pieces_ok r old :
  wf r -> wf old -> meets r old = true ->
  Forall wf (pieces r old) /\ Forall (fun p => meets r p = false) (pieces r old) /\
  (length (pieces r old) <= 2)%nat /\
  (forall x, count (pieces r old) x = if covers r x then 0%nat else count [old] x) /\
  (forall B : Z -> Prop, ends B r -> ends B old -> Forall (ends B) (pieces r old)).
Proof.
  intros (Hr & Hr' & Hrs) (Ho & Ho' & Hos) Hm. unfold meets in Hm. bools.
  unfold pieces, wf, meets, ends, covers, count.
  destruct (Z.eqb_spec (m_end old) (Z.min (m_end r) (m_end old)));
    destruct (Z.eqb_spec (m_start old) (Z.max (m_start r) (m_start old)));
    simpl; (split_and!; [| | |intros x|intros B [] []]);
    rewrite ?Forall_cons, ?Forall_nil; simpl;
    repeat split; try apply Z.ltb_ge; try lia; try done.
  all: unfold covers; simpl; split_ifs; bools; try lia.
  all: repeat match goal with H : _ \/ _ |- _ => destruct H end; bools; lia.
Qed.

Lemma inter_covers r old x : covers (inter_of r old) x = covers r x && covers old x.
Proof.
  unfold covers; simpl. apply eq_true_iff_eq. rewrite !andb_true_iff, !Z.leb_le, !Z.ltb_lt. lia.
Qed.

(** What a deletion of [r] from [l] must give. *)
Record deletion (r : Range) (l l' del' : RangeList) : Prop := {
  del_wf : Forall wf l' /\ Forall wf del';
  del_left : forall x, count l' x = if covers r x then 0%nat else count l x;
  del_moved : forall x, count del' x = if covers r x then count l x else 0%nat;
  del_inside : Forall (inside r) del';
  del_ends : forall B : Z -> Prop, ends B r -> Forall (ends B) l ->
             Forall (ends B) l' /\ Forall (ends B) del'
}.

Lemma deletion_done r l :
  Forall wf l -> Forall (fun a => meets r a = false) l -> deletion r l l [].
Proof.
  intros Hw Hm. split; auto; intros x; destruct (covers r x) eqn:E; try done.
  - induction Hm as [|a l Ha Hm IH]; simpl; [done|]. apply Forall_cons_1 in Hw as [_ Hw].
    rewrite (meets_covers r a x) by done. rewrite IH by done. done.
  - induction Hm as [|a l Ha Hm IH]; simpl; [done|]. apply Forall_cons_1 in Hw as [_ Hw].
    rewrite (meets_covers r a x) by done. rewrite <-IH by done. done.
Qed.

Lemma deletion_hit r pre old post l' del' :
  wf r -> wf old -> meets r old = true ->
  deletion r (pieces r old ++ pre ++ post) l' del' ->
  deletion r (pre ++ old :: post) l' (inter_of r old :: del').
Proof.
  intros Hr Ho Hm D. destruct (pieces_ok r old Hr Ho Hm) as (_ & _ & _ & Hc & HB).
  destruct D as [[Hw1 Hw2] Hl Hd Hi He]. unfold meets in Hm. bools.
  destruct Hr as (Hr & Hr' & Hrs), Ho as (Ho & Ho' & Hos).
  split.
  - split; [done|]. constructor; [|done]. unfold wf, inter_of; simpl. lia.
  - intros x. rewrite Hl. rewrite !count_app, Hc. simpl. destruct (covers r x); lia.
  - intros x. simpl. rewrite inter_covers, Hd, !count_app, Hc. simpl.
    destruct (covers r x); simpl; lia.
  - constructor; [|done]. unfold inside, inter_of; simpl. lia.
  - intros B HBr HBl. apply Forall_app in HBl as [HB1 HB2]. apply Forall_cons in HB2 as [HB2 HB3].
    destruct (He B HBr) as [? ?]; [rewrite !Forall_app; auto|]. split; [done|].
    constructor; [|done]. destruct HBr, HB2. unfold ends, inter_of; simpl.
    split; [destruct (Z.max_spec (m_start r) (m_start old)) as [[_ ->]|[_ ->]]
           |destruct (Z.min_spec (m_end r) (m_end old)) as [[_ ->]|[_ ->]]]; done.
Qed.

Lemma erase_at (pre : RangeList) old post :
  erase (pre ++ old :: post) (length pre) = Ok (pre ++ post).
Proof.
  unfold erase. rewrite (proj2 (Nat.ltb_ge _ _)), (proj2 (Nat.ltb_lt _ _)) by len.
  rewrite take_app_length, drop_app_ge by lia.
  by replace (S (length pre) - length pre)%nat with 1%nat by lia.
Qed.

(** The loop terminates, whatever it inserts in front of the place where it is. *)
Lemma delRange_loop_ok fuel r i l del :
  wf r -> Forall wf l -> Forall (fun a => meets r a = false) (take i l) ->
  (2 * hits r l + (length l - i) < fuel)%nat ->
  exists l' del', delRange_loop fuel r i l del = Ok (l', del ++ del') /\ deletion r l l' del'.
Proof.
  intros Hr. revert i l del. induction fuel as [|fuel IH]; intros i l del Hl Hpre Hf; [lia|].
  cbn [delRange_loop]. destruct (l !! i) as [old|] eqn:Ei; rewrite ?Ei.
  - apply take_drop_middle in Ei as El. assert (Hi : (i < length l)%nat) by by eapply lookup_lt_Some.
    set (pre := take i l) in *. set (post := drop (S i) l) in *.
    assert (Hlen : length pre = i) by (subst pre; len). rewrite <-El in Hl.
    apply Forall_app in Hl as [Hl1 Hl2]. apply Forall_cons in Hl2 as [Ho Hl2].
    rewrite rangeIntersection_ok by done. destruct (meets r old) eqn:Em.
    + rewrite <-El, <-Hlen, erase_at. simpl. rewrite split_range_ok by done.
      destruct (pieces_ok r old Hr Ho Em) as (Hw & Hm & Hn & _ & _).
      assert (Hhl : hits r l = S (hits r pre + hits r post))
        by (rewrite <-El, hits_app; simpl; rewrite Em; lia).
      assert (Hll : length l = S (length pre + length post)) by (rewrite <-El; len).
      destruct (IH (length pre) (pieces r old ++ pre ++ post) (addRange del (inter_of r old)))
        as (l' & del' & E & D).
      * rewrite !Forall_app. auto.
      * rewrite app_assoc, take_app_le by len. apply Forall_take. by apply Forall_app.
      * rewrite !hits_app, (hits_none r (pieces r old)) by done. len.
      * exists l', (inter_of r old :: del'). split; [|by apply deletion_hit].
        rewrite E. unfold addRange. by rewrite <-app_assoc.
    + destruct (IH (S i) l del) as (l' & del' & E & D); [|by rewrite (take_S_r _ _ _ Ei), Forall_app; auto| |eauto].
      * rewrite <-El. by apply Forall_app; auto.
      * lia.
  - exists l, []. rewrite app_nil_r. split; [done|]. apply deletion_done; [done|].
    apply lookup_ge_None in Ei. by rewrite take_ge in Hpre by done.
Qed.

Lemma hits_le r l : (hits r l <= length l)%nat.
Proof. induction l as [|a l IH]; simpl; [lia|]. destruct (meets r a); lia. Qed.

Lemma delRange_ok l r del :
  wf r -> Forall wf l ->
  exists l' del', delRange l r del = Ok (l', del ++ del') /\ deletion r l l' del'.
Proof.
  intros Hr Hl. unfold delRange. destruct (Z.eqb_spec (m_size r) 0) as [E|E].
  - exists l, []. rewrite app_nil_r. split; [done|]. apply deletion_done; [done|].
    apply Forall_forall. intros a Ha. rewrite Forall_forall in Hl. specialize (Hl a Ha).
    destruct Hr as (? & ? & ?), Hl as (? & ? & ?). unfold meets. apply Z.ltb_ge. lia.
  - apply delRange_loop_ok; [done|done|constructor|]. pose proof (hits_le r l). lia.
Qed.

(** ** Several ranges deleted *)

Definition covered (rl : RangeList) (x : Z) : bool := existsb (fun r => covers r x) rl.

Record deletions (rl l l' del' : RangeList) : Prop := {
  dels_wf : Forall wf l' /\ Forall wf del';
  dels_left : forall x, count l' x = if covered rl x then 0%nat else count l x;
  dels_moved : forall x, count del' x = if covered rl x then count l x else 0%nat;
  dels_inside : Forall (fun p => exists r, In r rl /\ inside r p) del';
  dels_ends : forall B : Z -> Prop, Forall (ends B) rl -> Forall (ends B) l ->
              Forall (ends B) l' /\ Forall (ends B) del'
}.

Lemma delRanges_ok l rl del :
  Forall wf rl -> Forall wf l ->
  exists l' del', delRanges l rl del = Ok (l', del ++ del') /\ deletions rl l l' del'.
Proof.
  unfold delRanges. intros Hrl. revert l del.
  induction Hrl as [|r rl Hr Hrl IH]; intros l del Hl; simpl.
  - exists l, []. rewrite app_nil_r. split; [done|]. split; auto.
  - destruct (delRange_ok l r del Hr Hl) as (l1 & d1 & E & [[W1 W2] L M I N]).
    rewrite E. simpl. destruct (IH l1 (del ++ d1) W1) as (l2 & d2 & E2 & [[V1 V2] L' M' I' N']).
    exists l2, (d1 ++ d2). rewrite E2, <-app_assoc. split; [done|]. split.
    + split; [done|]. by apply Forall_app.
    + intros x. rewrite L', L. simpl. by destruct (covers r x), (covered rl x).
    + intros x. rewrite count_app, M, M', L. simpl. destruct (covers r x), (covered rl x); simpl; lia.
    + apply Forall_app. split.
      * eapply Forall_impl; [exact I|]. intros p Hp. exists r. simpl. auto.
      * eapply Forall_impl; [exact I'|]. intros p (q & Hq & Hp). exists q. simpl. auto.
    + intros B HB HBl. apply Forall_cons in HB as [HB1 HB2]. destruct (N B HB1 HBl) as [Na Nb].
      destruct (N' B HB2 Na). split; [done|]. by apply Forall_app.
Qed.

(** C26 Deleting ranges ends, never erases outside of the vector, and moves each
    covered byte, as many times as the list covers it, to the list of deleted
    ranges; the bytes of no deleted range stay. *)
Theorem delRanges_counts l rl del :
  Forall wf l -> Forall wf rl ->
  exists l' del', delRanges l rl del = Ok (l', del') /\
    forall x, count l' x = (if covered rl x then 0%nat else count l x) /\
              count del' x = (count del x + if covered rl x then count l x else 0)%nat.
Proof.
  intros Hl Hrl. destruct (delRanges_ok l rl del Hrl Hl) as (l' & d' & E & D).
  exists l', (del ++ d'). split; [done|]. intros x. rewrite count_app.
  split; [apply D|]. f_equal. apply D.
Qed.

(** ** Uniting ranges *)

Lemma rangeUnion_false a r : fst (rangeUnion a r) = false.
Proof. unfold rangeUnion. destruct (_ || _); [done|]. cbv zeta. by destruct (negb _). Qed.

Lemma merge_inner_none fuel l i j :
  (i < length l)%nat -> (length l - j < fuel)%nat -> merge_inner fuel l i j = Ok None.
Proof.
  intros Hi. revert j. induction fuel as [|fuel IH]; intros j Hf; [lia|]. simpl.
  destruct (l !! j) as [b|] eqn:Ej; [|done]. apply lookup_lt_Some in Ej.
  destruct (lookup_lt_is_Some_2 l i Hi) as [a Ea]. unfold get. rewrite Ea. simpl.
  pose proof (rangeUnion_false a b) as Hu. destruct (rangeUnion a b) as [u o]. simpl in Hu. subst u.
  apply IH. lia.
Qed.

Lemma merge_outer_none fuel l i :
  (length l - i < fuel)%nat -> merge_outer fuel l i = Ok None.
Proof.
  revert i. induction fuel as [|fuel IH]; intros i Hf; [lia|]. cbn [merge_outer].
  destruct (Nat.ltb_spec (S i) (length l)); [|done].
  rewrite merge_inner_none by lia. simpl. apply IH. lia.
Qed.

(** The comment of the header promises the union; the code never unites. *)
Lemma merge_is_identity l : merge l = Ok l.
Proof.
  unfold merge. destruct l as [|a l]; [done|]. cbn [merge_loop].
  rewrite merge_outer_none by lia. done.
Qed.

Example delRanges_counts_witness :
  exists l' del',
    delRanges [setRange 0 64; setRange 16 16] [setRange 8 16; setRange 40 4] [] = Ok (l', del') /\
    forall x, count l' x = (if covered [setRange 8 16; setRange 40 4] x then 0%nat
                            else count [setRange 0 64; setRange 16 16] x) /\
              count del' x = (count [] x + if covered [setRange 8 16; setRange 40 4] x
                              then count [setRange 0 64; setRange 16 16] x else 0)%nat.
Proof.
  apply (delRanges_counts [setRange 0 64; setRange 16 16] [setRange 8 16; setRange 40 4] []).
  - repeat constructor; vm_compute; congruence.
  - repeat constructor; vm_compute; congruence.
Defined.

(** Two ranges that touch stay two. *)
Example touching_ranges_stay :
  merge [setRange 0 16; setRange 16 16] = Ok [setRange 0 16; setRange 16 16].
Proof. reflexivity. Qed.

(** ** Covered at all *)

Lemma covered_count l x : covered l x = negb (Nat.eqb (count l x) 0).
Proof. induction l as [|r l IH]; simpl; [done|]. rewrite IH. by destruct (covers r x). Qed.

Lemma covered_true l x : covered l x = true <-> (0 < count l x)%nat.
Proof. rewrite covered_count. destruct (Nat.eqb_spec (count l x) 0); simpl; split; try done; lia. Qed.

Lemma covered_in l x : covered l x = true <-> exists r, In r l /\ covers r x = true.
Proof. unfold covered. rewrite existsb_exists. done. Qed.
