(* ===== verification/VertexBuffer.v ===== *)
(** * Vertex arrays and buffers of the GL translator

    Models, in [src/emulator/opengl/host/libs/Translator/], [GLcommon/GLESbuffer.cpp],
    [GLcommon/GLESpointer.cpp], the array and buffer functions of
    [GLcommon/GLEScontext.cpp] and the set-up of arrays of [GLES_V2/GLESv2Context.cpp].

    The host's GL has no fixed point numbers.  Before a draw, arrays of [GL_FIXED]
    are converted to floats: client arrays into a temporary array, vertex buffers in
    place, where a [RangeList] remembers which bytes are still to be converted.
    Memory is a map from blocks to bytes, so that pointers into freed blocks and
    accesses outside of a block are faults. *)
From S2P Require Import Prelude RangeManip.

Local Open Scope Z_scope.

Definition GL_BYTE : Z := 0x1400.
Definition GL_UNSIGNED_BYTE : Z := 0x1401.
Definition GL_SHORT : Z := 0x1402.
Definition GL_UNSIGNED_SHORT : Z := 0x1403.
Definition GL_FLOAT : Z := 0x1406.
Definition GL_FIXED : Z := 0x140C.
Definition GL_ARRAY_BUFFER : Z := 0x8892.
Definition GL_STATIC_DRAW : Z := 0x88E4.

(** ** Memory *)

Record ptr := mkPtr { p_block : Z; p_off : Z }.

#[export] Instance ptr_eq_dec : EqDecision ptr.
Proof. solve_decision. Defined.

Definition shift (p : ptr) (n : Z) : ptr := mkPtr (p_block p) (p_off p + n).

Abbreviation heap := (gmap Z (list Z)).

Definition load (h : heap) (p : ptr) (n : Z) : result (list Z) :=
  b ← from_option_or UseAfterFree (h !! p_block p); read_block b (p_off p) n.

Definition store (h : heap) (p : ptr) (bs : list Z) : result heap :=
  b ← from_option_or UseAfterFree (h !! p_block p);
  b' ← write_block b (p_off p) bs;
  Ok (<[p_block p := b']> h).

Definition deref {A} (p : option A) : result A := from_option_or NullDeref p.

(** ** The objects *)

Record GLESbuffer := mkBuffer {
  b_size : Z;
  b_usage : Z;
  b_data : option Z;                (** the block *)
  m_conversionManager : RangeList;
  b_wasBound : bool
}.

Record GLESpointer := mkPointer {
  m_psize : Z;
  m_type : Z;
  m_stride : Z;
  m_enabled : bool;
  m_normalize : bool;
  m_data : option ptr;
  m_buffer : option Z;              (** the address of a [GLESbuffer] *)
  m_bufferName : Z;
  m_buffOffset : Z;
  m_isVBO : bool
}.

Record ArrayData := mkArray {
  a_data : option ptr;
  a_type : Z;
  a_stride : Z;
  a_allocated : bool
}.

Record GLESConversionArrays := mkArrays { m_arrays : gmap Z ArrayData; m_current : Z }.

(** A context, with the memory of the process, the buffer objects by address and
    the object data of the names of vertex buffers in its share group. *)
Record GLEScontext := mkContext {
  c_heap : heap;
  c_next : Z;                       (** the next block *)
  c_buffers : gmap Z GLESbuffer;
  c_objects : gmap Z Z;
  m_arrayBuffer : Z;
  m_elementBuffer : Z;
  m_map : gmap Z GLESpointer
}.

Definition set_heap (h : heap) (c : GLEScontext) :=
  mkContext h (c_next c) (c_buffers c) (c_objects c) (m_arrayBuffer c) (m_elementBuffer c) (m_map c).
Definition set_next (n : Z) (c : GLEScontext) :=
  mkContext (c_heap c) n (c_buffers c) (c_objects c) (m_arrayBuffer c) (m_elementBuffer c) (m_map c).
Definition set_buffers (b : gmap Z GLESbuffer) (c : GLEScontext) :=
  mkContext (c_heap c) (c_next c) b (c_objects c) (m_arrayBuffer c) (m_elementBuffer c) (m_map c).
Definition set_bindings (a e : Z) (c : GLEScontext) :=
  mkContext (c_heap c) (c_next c) (c_buffers c) (c_objects c) a e (m_map c).
Definition set_map (m : gmap Z GLESpointer) (c : GLEScontext) :=
  mkContext (c_heap c) (c_next c) (c_buffers c) (c_objects c) (m_arrayBuffer c) (m_elementBuffer c) m.

(** A method called through the address of a buffer object. *)
Definition buffer_at (c : GLEScontext) (a : Z) : result GLESbuffer :=
  from_option_or UseAfterFree (c_buffers c !! a).
Definition put_buffer (a : Z) (b : GLESbuffer) (c : GLEScontext) : GLEScontext :=
  set_buffers (<[a := b]> (c_buffers c)) c.

Section Arrays.
(** What the bytes of a fresh block are: a function of block and index. *)
Variable junk : Z -> Z -> Z.

(** [new unsigned char[n]]: a new block. *)
Definition new_array (n : Z) (c : GLEScontext) : Z * GLEScontext :=
  (c_next c,
   set_next (c_next c + 1) (set_heap (<[c_next c := map (junk (c_next c)) (seqZ 0 n)]> (c_heap c)) c)).

(** ** class GLESbuffer *)

Definition new_GLESbuffer : GLESbuffer := mkBuffer 0 GL_STATIC_DRAW None [] false.

Definition getData (b : GLESbuffer) : option ptr := (fun k => mkPtr k 0) <$> b_data b.

Definition fullyConverted (b : GLESbuffer) : bool := Nat.eqb (length (m_conversionManager b)) 0.

Definition setBuffer (a size usage : Z) (data : option ptr) (c : GLEScontext)
  : result GLEScontext :=
  b ← buffer_at c a;
  let c := match b_data b with
           | Some old => set_heap (delete old (c_heap c)) c
           | None => c end in
  let '(k, c) := new_array size c in
  c ← match data with
      | Some p => bs ← load (c_heap c) p size; h ← store (c_heap c) (mkPtr k 0) bs; Ok (set_heap h c)
      | None => Ok c end;
  Ok (put_buffer a (mkBuffer size usage (Some k) [setRange 0 (s32 size)] (b_wasBound b)) c).

(** The sum of an [int] and an [unsigned] is unsigned. *)
Definition setSubBuffer (a offset size : Z) (data : option ptr) (c : GLEScontext)
  : result (bool * GLEScontext) :=
  b ← buffer_at c a;
  if b_size b <? u32 (offset + size) then Ok (false, c)
  else
    src ← deref data; dst ← deref (getData b);
    bs ← load (c_heap c) src size;
    h ← store (c_heap c) (shift dst offset) bs;
    conv ← merge (addRange (m_conversionManager b) (setRange offset (s32 size)));
    Ok (true, put_buffer a (mkBuffer (b_size b) (b_usage b) (b_data b) conv (b_wasBound b))
                (set_heap h c)).

(** The ranges of [rIn] that are still to be converted; they count as converted
    from now on. *)
Definition getConversions (a : Z) (rIn : RangeList) (c : GLEScontext)
  : result (RangeList * GLEScontext) :=
  b ← buffer_at c a;
  '(conv, rOut) ← delRanges (m_conversionManager b) rIn [];
  rOut ← merge rOut;
  Ok (rOut, put_buffer a (mkBuffer (b_size b) (b_usage b) (b_data b) conv (b_wasBound b)) c).

(** ** class GLESpointer *)

Definition new_GLESpointer : GLESpointer :=
  mkPointer 4 GL_FLOAT 0 false false None None 0 0 false.

Definition enable (e : bool) (p : GLESpointer) : GLESpointer :=
  mkPointer (m_psize p) (m_type p) (m_stride p) e (m_normalize p) (m_data p) (m_buffer p)
    (m_bufferName p) (m_buffOffset p) (m_isVBO p).

Definition setArray (size type stride : Z) (data : option ptr) (normalize : bool) (p : GLESpointer)
  : GLESpointer :=
  mkPointer size type stride (m_enabled p) normalize data None 0 (m_buffOffset p) false.

Definition pointer_setBuffer (size type stride : Z) (buf : option Z) (name offset : Z)
  (normalize : bool) (p : GLESpointer) : GLESpointer :=
  mkPointer size type stride (m_enabled p) normalize None buf name (u32 offset) true.

(** A NULL block with an offset is no pointer that the code could use. *)
Definition getBufferData (c : GLEScontext) (p : GLESpointer) : result (option ptr) :=
  match m_buffer p with
  | None => Ok None
  | Some a => b ← buffer_at c a; Ok ((fun d => shift d (m_buffOffset p)) <$> getData b)
  end.

Definition getPointerData (c : GLEScontext) (p : GLESpointer) : result (option ptr) :=
  if m_isVBO p then getBufferData c p else Ok (m_data p).

Definition getBufferConversions (p : GLESpointer) (rl : RangeList) (c : GLEScontext)
  : result (RangeList * GLEScontext) := a ← deref (m_buffer p); getConversions a rl c.

Definition bufferNeedConversion (p : GLESpointer) (c : GLEScontext) : result bool :=
  a ← deref (m_buffer p); b ← buffer_at c a; Ok (negb (fullyConverted b)).

(** ** Conversion of values *)

(** The bits of the nearest [float] to the signed [x], divided by 65536. *)
Definition X2F (x : Z) : Z :=
  if x =? 0 then 0
  else
    let m := Z.abs x in
    let e := Z.log2 m in
    let q := if e <=? 23 then Z.shiftl m (23 - e)
             else
               let s := e - 23 in
               let q := Z.shiftr m s in let r := m mod 2 ^ s in
               if (2 ^ (s - 1) <? r) || ((r =? 2 ^ (s - 1)) && Z.odd q) then q + 1 else q in
    (if x <? 0 then 2 ^ 31 else 0) + Z.shiftl (e - 16 + 127) 23 + (q - 2 ^ 23).

(** Fixed point to float, and byte to short. *)
Inductive conversion := FixedToFloat | ByteToShort.

Definition in_width (k : conversion) : Z := match k with FixedToFloat => 4 | ByteToShort => 1 end.
Definition out_width (k : conversion) : Z := match k with FixedToFloat => 4 | ByteToShort => 2 end.

Definition convert_value (k : conversion) (bs : list Z) : list Z :=
  match k with
  | FixedToFloat => le_bytes 4 (X2F (s32 (le_value bs)))
  | ByteToShort => le_bytes 2 (u16 (s8 (le_value bs)))
  end.

(** "filling attrib": [n] values from [src] to [dst]. *)
Fixpoint convert_attrib (k : conversion) (n : nat) (src dst : ptr) (h : heap) : result heap :=
  match n with
  | O => Ok h
  | S n =>
      bs ← load h src (in_width k);
      h ← store h dst (convert_value k bs);
      convert_attrib k n (shift src (in_width k)) (shift dst (out_width k)) h
  end.

(** [for(i = 0; i < nBytes; i += strideOut)]. *)
Fixpoint convert_direct (fuel : nat) (k : conversion) (i : Z) (dataIn : ptr) (strideIn : Z)
  (dataOut : ptr) (nBytes strideOut : Z) (attribSize : nat) (h : heap) : result heap :=
  match fuel with
  | O => Err OutOfFuel
  | S fuel =>
      if i <? nBytes then
        h ← convert_attrib k attribSize dataIn (shift dataOut i) h;
        convert_direct fuel k (i + strideOut) (shift dataIn strideIn) strideIn dataOut nBytes
          strideOut attribSize h
      else Ok h
  end.

Definition convertFixedDirectLoop (dataIn : ptr) (strideIn : Z) (dataOut : ptr)
  (nBytes strideOut attribSize : Z) : heap -> result heap :=
  convert_direct (S (Z.to_nat nBytes)) FixedToFloat 0 dataIn strideIn dataOut nBytes strideOut
    (Z.to_nat attribSize).

Definition convertByteDirectLoop (dataIn : ptr) (strideIn : Z) (dataOut : ptr)
  (nBytes strideOut attribSize : Z) : heap -> result heap :=
  convert_direct (S (Z.to_nat nBytes)) ByteToShort 0 dataIn strideIn dataOut nBytes strideOut
    (Z.to_nat attribSize).

(** The [i]th index of an array of bytes or of shorts. *)
Definition index_at (indices : list Z) (indices_type i : Z) : result Z :=
  bs ← (if indices_type =? GL_UNSIGNED_BYTE then read_block indices i 1
        else read_block indices (2 * i) 2);
  Ok (le_value bs).

Definition convert_indexed (k : conversion) (dataIn : ptr) (strideIn : Z) (dataOut : ptr)
  (strideOut attribSize : Z) (h : heap) (index : Z) : result heap :=
  convert_attrib k (Z.to_nat attribSize) (shift dataIn (u32 (index * strideIn)))
    (shift dataOut (u32 (index * strideOut))) h.

(** [for(i = 0; i < count; i++)] over the indices of an array. *)
Definition convert_indirect (k : conversion) (dataIn : ptr) (strideIn : Z) (dataOut : ptr)
  (count indices_type : Z) (indices : list Z) (strideOut attribSize : Z) (h : heap) : result heap :=
  foldM (fun h i => index ← index_at indices indices_type i;
                    convert_indexed k dataIn strideIn dataOut strideOut attribSize h index)
    h (seqZ 0 count).

Definition convertFixedIndirectLoop := convert_indirect FixedToFloat.
Definition convertByteIndirectLoop := convert_indirect ByteToShort.

(** ** Ranges and indices *)

(** [getStride() ? getStride() : attribSize]. *)
Definition stride_or (p : GLESpointer) (n : Z) : Z := if m_stride p =? 0 then n else m_stride p.

Definition directToBytesRanges (first count : Z) (p : GLESpointer) (list : RangeList) : RangeList :=
  let attribSize := m_psize p * 4 in
  let stride := stride_or p attribSize in
  let start := s32 (m_buffOffset p + first * attribSize) in
  if m_stride p =? 0 then addRange list (setRange start (s32 (count * attribSize)))
  else foldl (fun l i => addRange l (setRange (s32 (start + i * stride)) attribSize)) list (seqZ 0 count).

Definition indirectToBytesRanges (indices : list Z) (indices_type count : Z) (p : GLESpointer)
  (list : RangeList) : result RangeList :=
  let attribSize := m_psize p * 4 in
  let stride := stride_or p attribSize in
  let start := s32 (m_buffOffset p) in
  foldM (fun l i =>
           index ← (bs ← (if indices_type =? GL_UNSIGNED_SHORT then read_block indices (2 * i) 2
                          else read_block indices i 1); Ok (le_value bs));
           Ok (addRange l (setRange (s32 (start + index * stride)) attribSize)))
    list (seqZ 0 count).

(** [indices[n++] = x] in an array of shorts. *)
Definition push_index (s : list Z * Z) (x : Z) : result (list Z * Z) :=
  let '(indices, n) := s in
  indices ← write_block indices (2 * n) (le_bytes 2 (u16 x));
  Ok (indices, n + 1).

Definition bytesRangesToIndices (ranges : RangeList) (p : GLESpointer) (indices : list Z)
  : result (list Z * Z) :=
  let attribSize := m_psize p * 4 in
  let stride := stride_or p attribSize in
  let offset := s32 (m_buffOffset p) in
  if (attribSize =? 0) || (stride =? 0) then
    match ranges with [] => Ok (indices, 0) | _ => Err DivideByZero end
  else
    foldM (fun s r =>
             let startIndex := Z.quot (m_start r - offset) stride in
             let nElements := Z.quot (m_size r) attribSize in
             foldM (fun s j => push_index s (startIndex + j)) s (seqZ 0 nElements))
      (indices, 0) ranges.

(** ** class GLESConversionArrays *)

Definition no_array : ArrayData := mkArray None 0 0 false.

Definition getCurrentArray (s : GLESConversionArrays) : ArrayData :=
  default no_array (m_arrays s !! m_current s).

Definition put_array (x : ArrayData) (s : GLESConversionArrays) : GLESConversionArrays :=
  mkArrays (<[m_current s := x]> (m_arrays s)) (m_current s).

Definition allocArr (size type : Z) (s : GLESConversionArrays) (c : GLEScontext)
  : GLESConversionArrays * GLEScontext :=
  let x := getCurrentArray s in
  if type =? GL_FIXED then
    let '(k, c) := new_array (4 * size) c in (put_array (mkArray (Some (mkPtr k 0)) GL_FLOAT 0 true) s, c)
  else if type =? GL_BYTE then
    let '(k, c) := new_array (2 * size) c in (put_array (mkArray (Some (mkPtr k 0)) GL_SHORT 0 true) s, c)
  else (put_array (mkArray (a_data x) (a_type x) 0 true) s, c).

Definition setArr (data : option ptr) (stride type : Z) (s : GLESConversionArrays)
  : GLESConversionArrays := put_array (mkArray data type stride false) s.

(** [operator++]. *)
Definition next_array (s : GLESConversionArrays) : GLESConversionArrays :=
  mkArrays (m_arrays s) (u32 (m_current s + 1)).

(** ** class GLEScontext: conversions *)

Definition convertDirect (s : GLESConversionArrays) (first count : Z) (p : GLESpointer)
  (c : GLEScontext) : result (GLESConversionArrays * GLEScontext) :=
  let type := m_type p in
  let attribSize := m_psize p in
  let size := u32 (attribSize * count + first) in
  let bytes := if type =? GL_FIXED then 4 else 1 in
  let '(s, c) := allocArr size type s c in
  let stride := stride_or p (bytes * attribSize) in
  if type =? GL_FIXED then
    data ← deref (m_data p); out ← deref (a_data (getCurrentArray s));
    h ← convertFixedDirectLoop (shift data (first * stride)) stride out (u32 (size * 4))
          (attribSize * 4) attribSize (c_heap c);
    Ok (s, set_heap h c)
  else if type =? GL_BYTE then
    data ← deref (m_data p); out ← deref (a_data (getCurrentArray s));
    h ← convertByteDirectLoop (shift data (first * stride)) stride out (u32 (size * 2))
          (attribSize * 2) attribSize (c_heap c);
    Ok (s, set_heap h c)
  else Ok (s, c).

(** The part that both conversions of a buffer share: the ranges still to be
    converted become indices, and the elements with these indices are converted
    in place.  [new GLushort[count]] holds the indices. *)
Definition convert_ranges (count : Z) (ranges : RangeList) (p : GLESpointer) (data : option ptr)
  (stride : Z) (c : GLEScontext) : result GLEScontext :=
  '(conversions, c) ← getBufferConversions p ranges c;
  if Nat.eqb (length conversions) 0 then Ok c
  else
    '(indices, n) ← bytesRangesToIndices conversions p (replicate (Z.to_nat (2 * count)) 0);
    d ← deref data;
    h ← convertFixedIndirectLoop d stride d n GL_UNSIGNED_SHORT indices stride (m_psize p) (c_heap c);
    Ok (set_heap h c).

Definition convertDirectVBO (s : GLESConversionArrays) (first count : Z) (p : GLESpointer)
  (c : GLEScontext) : result (GLESConversionArrays * GLEScontext) :=
  let stride := stride_or p (4 * m_psize p) in
  buf ← getBufferData c p;
  let data := (fun d => shift d (first * stride)) <$> buf in
  need ← bufferNeedConversion p c;
  c ← if (need : bool) then convert_ranges count (directToBytesRanges first count p []) p data stride c
      else Ok c;
  Ok (setArr data (m_stride p) GL_FLOAT s, c).

Definition findMaxIndex (count type : Z) (indices : list Z) : result Z :=
  foldM (fun max i => x ← index_at indices type i; Ok (if max <? x then x else max))
    0 (seqZ 0 count).

(** The type of the vertices is passed where that of the indices belongs. *)
Definition convertIndirect (s : GLESConversionArrays) (count indices_type : Z) (indices : list Z)
  (p : GLESpointer) (c : GLEScontext) : result (GLESConversionArrays * GLEScontext) :=
  let type := m_type p in
  max ← findMaxIndex count type indices;
  let maxElements := max + 1 in
  let attribSize := m_psize p in
  let size := attribSize * maxElements in
  let bytes := if type =? GL_FIXED then 4 else 1 in
  let '(s, c) := allocArr size type s c in
  let stride := stride_or p (bytes * attribSize) in
  if type =? GL_FIXED then
    data ← deref (m_data p); out ← deref (a_data (getCurrentArray s));
    h ← convertFixedIndirectLoop data stride out count indices_type indices (attribSize * 4)
          attribSize (c_heap c);
    Ok (s, set_heap h c)
  else if type =? GL_BYTE then
    data ← deref (m_data p); out ← deref (a_data (getCurrentArray s));
    h ← convertByteIndirectLoop data stride out count indices_type indices (attribSize * 2)
          attribSize (c_heap c);
    Ok (s, set_heap h c)
  else Ok (s, c).

Definition convertIndirectVBO (s : GLESConversionArrays) (count indices_type : Z)
  (indices : list Z) (p : GLESpointer) (c : GLEScontext)
  : result (GLESConversionArrays * GLEScontext) :=
  let stride := stride_or p (4 * m_psize p) in
  data ← getBufferData c p;
  need ← bufferNeedConversion p c;
  c ← if (need : bool) then
        ranges ← indirectToBytesRanges indices indices_type count p [];
        convert_ranges count ranges p data stride c
      else Ok c;
  Ok (setArr data (m_stride p) GL_FLOAT s, c).

(** ** class GLEScontext: buffers and pointers *)

Definition bindBuffer (target buffer : Z) (c : GLEScontext) : GLEScontext :=
  if target =? GL_ARRAY_BUFFER then set_bindings buffer (m_elementBuffer c) c
  else set_bindings (m_arrayBuffer c) buffer c.

Definition unbindBuffer (buffer : Z) (c : GLEScontext) : GLEScontext :=
  set_bindings (if m_arrayBuffer c =? buffer then 0 else m_arrayBuffer c)
               (if m_elementBuffer c =? buffer then 0 else m_elementBuffer c) c.

Definition getBuffer (target : Z) (c : GLEScontext) : Z :=
  if target =? GL_ARRAY_BUFFER then m_arrayBuffer c else m_elementBuffer c.

Definition isBindedBuffer (target : Z) (c : GLEScontext) : bool :=
  if target =? GL_ARRAY_BUFFER then negb (m_arrayBuffer c =? 0) else negb (m_elementBuffer c =? 0).

(** [getObjectData(VERTEXBUFFER, name).Ptr()]. *)
Definition vbo_of (name : Z) (c : GLEScontext) : option Z := c_objects c !! name.

Definition getBindedBuffer (target : Z) (c : GLEScontext) : result (option ptr) :=
  let name := getBuffer target c in
  if name =? 0 then Ok None
  else a ← deref (vbo_of name c); b ← buffer_at c a; Ok (getData b).

Definition getBufferSize (target : Z) (c : GLEScontext) : result Z :=
  a ← deref (vbo_of (getBuffer target c) c); b ← buffer_at c a; Ok (b_size b).

Definition getBufferUsage (target : Z) (c : GLEScontext) : result Z :=
  a ← deref (vbo_of (getBuffer target c) c); b ← buffer_at c a; Ok (b_usage b).

Definition setBufferData (target size : Z) (data : option ptr) (usage : Z) (c : GLEScontext)
  : result (bool * GLEScontext) :=
  let name := getBuffer target c in
  if name =? 0 then Ok (false, c)
  else a ← deref (vbo_of name c); c ← setBuffer a (u32 size) usage data c; Ok (true, c).

Definition setBufferSubData (target offset size : Z) (data : option ptr) (c : GLEScontext)
  : result (bool * GLEScontext) :=
  let name := getBuffer target c in
  if name =? 0 then Ok (false, c)
  else a ← deref (vbo_of name c); setSubBuffer a offset (u32 size) data c.

(** The argument [data] of the source is an offset when a buffer is bound. *)
Definition setPointer (arrType size type stride : Z) (data : option ptr) (data_offset : Z)
  (normalize : bool) (c : GLEScontext) : result GLEScontext :=
  p ← deref (m_map c !! arrType);
  let bufferName := m_arrayBuffer c in
  if negb (bufferName =? 0) then
    let offset := u32 data_offset in
    a ← deref (vbo_of bufferName c); b ← buffer_at c a;
    Ok (set_map (<[arrType := pointer_setBuffer size type stride (Some a) bufferName (s32 offset)
                                normalize p]> (m_map c)) c)
  else Ok (set_map (<[arrType := setArray size type stride data normalize p]> (m_map c)) c).

Definition enableArr (arr : Z) (e : bool) (c : GLEScontext) : result GLEScontext :=
  p ← deref (m_map c !! arr); Ok (set_map (<[arr := enable e p]> (m_map c)) c).

Definition isArrEnabled (arr : Z) (c : GLEScontext) : result bool :=
  p ← deref (m_map c !! arr); Ok (m_enabled p).

(** ** class GLESv2Context

    The arrays that the host's GL is told of ([glVertexAttribPointer]), in order. *)
Record attrib_call := mkCall {
  v_index : Z; v_size : Z; v_type : Z; v_normalized : bool; v_stride : Z; v_data : ptr
}.

Definition setupArr (arr : option ptr) (arrayType dataType size stride : Z) (normalized : bool)
  : list attrib_call :=
  match arr with
  | None => []
  | Some d => [mkCall arrayType size dataType normalized stride d]
  end.

Definition needConvert (s : GLESConversionArrays) (first count type : Z) (indices : list Z)
  (direct : bool) (p : GLESpointer) (c : GLEScontext)
  : result (bool * GLESConversionArrays * GLEScontext) :=
  if negb (m_type p =? GL_FIXED) then Ok (false, s, c)
  else
    '(s, c) ← (if negb (m_isVBO p) then
                 if direct then convertDirect s first count p c
                 else convertIndirect s count type indices p c
               else if direct then convertDirectVBO s first count p c
               else convertIndirectVBO s count type indices p c);
    Ok (true, s, c).

Definition setup_array (first count type : Z) (indices : list Z) (direct : bool)
  (st : GLESConversionArrays * GLEScontext * list attrib_call) (entry : Z * GLESpointer)
  : result (GLESConversionArrays * GLEScontext * list attrib_call) :=
  let '(s, c, calls) := st in
  let '(array_id, p) := entry in
  if negb (m_enabled p) then Ok (s, c, calls)
  else
    '(converted, s, c) ← needConvert s first count type indices direct p c;
    if (converted : bool) then
      let a := getCurrentArray s in
      Ok (next_array s, c,
          calls ++ setupArr (a_data a) array_id (a_type a) (m_psize p) (a_stride a) (m_normalize p))
    else
      d ← getPointerData c p;
      Ok (s, c, calls ++ setupArr d array_id (m_type p) (m_psize p) (m_stride p) (m_normalize p)).

(** [arrays] are the entries of the map in the order of their keys. *)
Definition setupArraysPointers (arrays : list (Z * GLESpointer)) (first count type : Z)
  (indices : list Z) (direct : bool) (s : GLESConversionArrays) (c : GLEScontext)
  : result (GLESConversionArrays * GLEScontext * list attrib_call) :=
  foldM (setup_array first count type indices direct) (s, c, []) arrays.

End Arrays.

(** ** Elements of a buffer

    The [e]th element starts at [o + e * s] and has [4 * k] bytes. *)
(** The floats for [k] numbers. *)
Fixpoint floats (k : nat) (bs : list Z) : list Z :=
  match k with
  | O => []
  | S k => convert_value FixedToFloat (take 4 bs) ++ floats k (drop 4 bs)
  end.

Lemma floats_length n bs : length (floats n bs) = (4 * n)%nat.
Proof.
  revert bs; induction n as [|n IH]; intros; cbn [floats]; [done|].
  rewrite length_app, IH. cbn [convert_value]. rewrite le_bytes_length. lia.
Qed.

(** Memory with one block replaced. *)
Lemma load_in h k pre bs post off n :
  h !! k = Some (pre ++ bs ++ post) -> off = Z.of_nat (length pre) -> n = Z.of_nat (length bs) ->
  load h (mkPtr k off) n = Ok bs.
Proof. intros E -> ->. unfold load. simpl. rewrite E. simpl. by eapply block_in. Qed.

Lemma store_in h k pre bs post off bs' :
  h !! k = Some (pre ++ bs ++ post) -> off = Z.of_nat (length pre) -> length bs' = length bs ->
  store h (mkPtr k off) bs' = Ok (<[k := pre ++ bs' ++ post]> h).
Proof.
  intros E -> Hl. unfold store. simpl. rewrite E. simpl.
  rewrite write_block_ok by (rewrite ?length_app; lia). simpl. do 2 f_equal.
  rewrite Nat2Z.id, take_app_length. do 2 f_equal.
  rewrite drop_app_ge by lia. replace (length pre + length bs' - length pre)%nat with (length bs) by lia.
  by rewrite drop_app_length.
Qed.

Lemma convert_attrib_in_place n h blk pre bs post off :
  h !! blk = Some (pre ++ bs ++ post) -> off = Z.of_nat (length pre) -> length bs = (4 * n)%nat ->
  convert_attrib FixedToFloat n (mkPtr blk off) (mkPtr blk off) h =
  Ok (<[blk := pre ++ floats n bs ++ post]> h).
Proof.
  revert h pre bs off. induction n as [|n IH]; intros h pre bs off E Eo Hl.
  - destruct bs; [|simpl in Hl; lia]. simpl. by rewrite insert_id.
  - cbn [convert_attrib floats in_width out_width].
    rewrite <-(take_drop 4 bs), <-app_assoc in E.
    rewrite (load_in _ _ pre (take 4 bs) (drop 4 bs ++ post)) by (try done; len). cbn [mbind result_bind].
    rewrite (store_in _ _ pre (take 4 bs) (drop 4 bs ++ post))
      by (try done; rewrite ?length_take; cbn [convert_value]; rewrite ?le_bytes_length; lia).
    unfold shift. cbn [p_block p_off mbind result_bind].
    set (w := convert_value FixedToFloat (take 4 bs)).
    assert (Hw : length w = 4%nat) by apply le_bytes_length.
    rewrite (IH _ (pre ++ w) (drop 4 bs)).
    + by rewrite insert_insert_eq, <-!app_assoc.
    + rewrite lookup_insert_eq. by rewrite <-!app_assoc.
    + rewrite length_app. lia.
    + len.
Qed.

(** ** Arrays of indices *)

Definition shorts (xs : list Z) : list Z := concat (map (fun x => le_bytes 2 (u16 x)) xs).

Lemma shorts_length xs : length (shorts xs) = (2 * length xs)%nat.
Proof.
  unfold shorts. induction xs as [|x xs IH]; cbn [map concat length]; [done|].
  rewrite length_app, le_bytes_length, IH. lia.
Qed.

Lemma push_indices xs pre rest n :
  length pre = (2 * Z.to_nat n)%nat -> 0 <= n -> (2 * length xs <= length rest)%nat ->
  foldM push_index (pre ++ rest, n) xs =
  Ok (pre ++ shorts xs ++ drop (2 * length xs) rest, n + Z.of_nat (length xs)).
Proof.
  revert pre rest n. induction xs as [|x xs IH]; intros pre rest n Hp Hn Hl.
  - simpl. do 2 f_equal. lia.
  - cbn [foldM]. unfold push_index at 2. cbn [length] in Hl.
    rewrite write_block_ok by (rewrite ?length_app, ?le_bytes_length; lia). cbn [mbind result_bind].
    rewrite le_bytes_length. replace (Z.to_nat (2 * n)) with (length pre) by lia.
    rewrite take_app_length, drop_app_ge by lia.
    replace (length pre + 2 - length pre)%nat with 2%nat by lia. rewrite app_assoc.
    rewrite IH by (rewrite ?length_app, ?le_bytes_length; rewrite ?length_drop; lia).
    cbn [shorts map concat length]. rewrite <-!app_assoc, drop_drop.
    do 2 f_equal; [|lia]. do 3 f_equal. f_equal. lia.
Qed.

Lemma index_in_shorts pre x post rest i :
  i = Z.of_nat (length pre) -> 0 <= x < 2 ^ 16 ->
  index_at (shorts (pre ++ x :: post) ++ rest) GL_UNSIGNED_SHORT i = Ok x.
Proof.
  intros -> Hx. unfold index_at. cbn [Z.eqb]. replace (GL_UNSIGNED_SHORT =? GL_UNSIGNED_BYTE) with false by done.
  rewrite (block_in _ (shorts pre) (le_bytes 2 (u16 x)) (shorts post ++ rest)).
  - cbn [mbind result_bind]. rewrite le_value_bytes; [unfold u16; by rewrite Z.mod_small|].
    unfold u16. apply Z.mod_pos_bound. lia.
  - unfold shorts. rewrite map_app, concat_app. cbn [map concat]. by rewrite <-!app_assoc.
  - rewrite shorts_length. lia.
  - by rewrite le_bytes_length.
Qed.

Lemma indices_of_shorts xs rest :
  Forall (fun x => 0 <= x < 2 ^ 16) xs ->
  Forall2 (fun i x => index_at (shorts xs ++ rest) GL_UNSIGNED_SHORT i = Ok x)
    (seqZ 0 (Z.of_nat (length xs))) xs.
Proof.
  intros H. apply Forall2_same_length_lookup. split; [rewrite length_seqZ; lia|].
  intros i j x Hj Hx. apply lookup_seqZ in Hj as [-> Hj].
  rewrite <-(take_drop_middle xs i x Hx). apply index_in_shorts.
  - apply lookup_lt_Some in Hx. len.
  - rewrite Forall_forall in H. apply H. by eapply list_elem_of_lookup_2.
Qed.

Lemma foldM_shift {S} (f : S -> Z -> result S) s a n :
  foldM (fun s j => f s (a + j)) s (seqZ 0 n) = foldM f s (seqZ a n).
Proof.
  assert (H : forall l s, foldM (fun s j => f s (a + j)) s l = foldM f s (map (Z.add a) l)).
  { induction l as [|j l IH]; intros t; simpl; [done|]. destruct (f t (a + j)); simpl; auto. }
  rewrite H. f_equal. unfold seqZ. rewrite map_map. apply map_ext. lia.
Qed.

Section Elements.
Context (o s : Z) (k : nat).
Hypothesis Hk : (0 < k)%nat.
Hypothesis Ho : 0 <= o.
Hypothesis Hs : 4 * Z.of_nat k <= s.

Local Abbreviation A := (4 * Z.of_nat k).

Definition pos (e : Z) : Z := o + e * s.

Definition in_block (n : Z) (e : Z) : Prop := 0 <= e /\ pos e + A <= n.

(** No boundary is strictly inside of an element. *)
Definition aligned (x : Z) : Prop := x < o \/ (x - o) mod s = 0 \/ A <= (x - o) mod s.

Definition element (b : list Z) (e : Z) : list Z := slice b (Z.to_nat (pos e)) (4 * k).

(** A block after the conversion of one element. *)
Definition convert_element (b : list Z) (e : Z) : list Z :=
  take (Z.to_nat (pos e)) b ++ floats k (element b e) ++ drop (Z.to_nat (pos e) + 4 * k) b.

Lemma convert_element_length b e :
  in_block (Z.of_nat (length b)) e -> length (convert_element b e) = length b.
Proof.
  intros [He Hn]. unfold convert_element, pos in *. rewrite !length_app, floats_length.
   rewrite length_take, length_drop. nia.
Qed.

Lemma pos_le e e' : 0 <= e -> e < e' -> pos e + A <= pos e'.
Proof. unfold pos.  nia. Qed.

Lemma pos_inj_far e e' : 0 <= e -> 0 <= e' -> e <> e' -> pos e + A <= pos e' \/ pos e' + A <= pos e.
Proof.
  intros. destruct (decide (e < e')); [left; by apply pos_le|right; apply pos_le; lia].
Qed.

Lemma element_convert_same b e :
  in_block (Z.of_nat (length b)) e -> element (convert_element b e) e = floats k (element b e).
Proof.
  intros [He Hn]. unfold element at 1, convert_element, slice.
  assert (0 <= pos e) by (unfold pos; nia).
  rewrite drop_app_length' by len. apply take_app_length'. by rewrite floats_length.
Qed.

Lemma element_convert_other b e e' :
  in_block (Z.of_nat (length b)) e -> in_block (Z.of_nat (length b)) e' -> e <> e' ->
  element (convert_element b e) e' = element b e'.
Proof.
  intros [He Hn] [He' Hn'] Hne. assert (0 <= pos e) by (unfold pos; nia).
  assert (0 <= pos e') by (unfold pos; nia).
  assert (Hl : length (convert_element b e) = length b) by (by apply convert_element_length).
  apply list_eq. intros i. unfold element, slice.
  destruct (decide (i < 4 * k)%nat); [|by rewrite !lookup_take_ge by lia].
  rewrite !lookup_take_lt, !lookup_drop by lia. unfold convert_element.
  destruct (pos_inj_far e e' He He' Hne) as [Hf|Hf].
  - rewrite lookup_app_r by len. rewrite lookup_app_r by (rewrite floats_length; len).
    rewrite lookup_drop. f_equal. rewrite floats_length. len.
  - rewrite lookup_app_l by len. rewrite lookup_take_lt by lia. done.
Qed.

(** The elements of a list without repetitions, converted in any order. *)
Lemma convert_elements b es :
  NoDup es -> Forall (in_block (Z.of_nat (length b))) es ->
  let b' := foldl convert_element b es in
  length b' = length b /\
  forall e, in_block (Z.of_nat (length b)) e ->
    element b' e = if decide (e ∈ es) then floats k (element b e) else element b e.
Proof.
  intros Hn. revert b. induction Hn as [|x es Hx Hn IH]; intros b Hb; cbn [foldl].
  - split; [done|]. intros e _. rewrite decide_False; [done|]. apply not_elem_of_nil.
  - apply Forall_cons in Hb as [Hbx Hb]. pose proof (convert_element_length b x Hbx) as Hl.
    destruct (IH (convert_element b x)) as [IHl IHe]; [by rewrite Hl|]. split; [congruence|].
    intros e He. rewrite IHe by (by rewrite Hl). destruct (decide (e = x)) as [->|Hne].
    + rewrite decide_False by done. rewrite decide_True by (by left).
      by apply element_convert_same.
    + rewrite element_convert_other by done.
      destruct (decide (e ∈ es)); [rewrite decide_True by (by right)|rewrite decide_False]; try done.
      intros [|]%elem_of_cons; done.
Qed.

Lemma convert_indexed_ok h blk b e :
  h !! blk = Some b -> in_block (Z.of_nat (length b)) e -> e * s < 2 ^ 32 ->
  convert_indexed FixedToFloat (mkPtr blk o) s (mkPtr blk o) s (Z.of_nat k) h e =
  Ok (<[blk := convert_element b e]> h).
Proof.
  intros E [He Hn] Hb. unfold convert_indexed, shift. cbn [p_block p_off].
  rewrite u32_small, Nat2Z.id by nia. fold (pos e).
  assert (0 <= pos e) by (unfold pos; nia).
  rewrite (convert_attrib_in_place _ _ _ (take (Z.to_nat (pos e)) b) (element b e)
             (drop (Z.to_nat (pos e) + 4 * k) b)); [done| | |].
  - rewrite E. f_equal. unfold element, slice. rewrite <-drop_drop. by rewrite !take_drop.
  - rewrite length_take. lia.
  - unfold element, slice. len.
Qed.

Lemma convert_list_ok h blk b es :
  h !! blk = Some b -> Forall (in_block (Z.of_nat (length b))) es -> Z.of_nat (length b) < 2 ^ 31 ->
  foldM (convert_indexed FixedToFloat (mkPtr blk o) s (mkPtr blk o) s (Z.of_nat k)) h es =
  Ok (<[blk := foldl convert_element b es]> h).
Proof.
  intros E Hes Hb. revert h b E Hes Hb. induction es as [|e es IH]; intros h b E Hes Hb.
  - simpl. by rewrite insert_id.
  - apply Forall_cons in Hes as [He Hes]. cbn [foldM foldl].
    pose proof (convert_element_length b e He) as Hl.
    rewrite (convert_indexed_ok _ _ b) by (try done; destruct He; unfold pos in *; nia).
    cbn [mbind result_bind].
    rewrite (IH _ (convert_element b e)) by (rewrite ?lookup_insert_eq, ?Hl; done).
    by rewrite insert_insert_eq.
Qed.

(** ** Ranges as runs of elements *)

(** Elements [i], ..., [i + m - 1] as a range: one element, or elements that touch. *)
Definition is_run (r : Range) (i m : Z) : Prop :=
  0 <= i /\ 0 <= m /\ (m = 1 \/ s = A) /\ m_start r = pos i /\ m_end r = pos i + m * A.

Definition run_elements (r : Range) : list Z :=
  seqZ (Z.quot (m_start r - o) s) (Z.quot (m_size r) A).

Lemma run_elements_of r i m : wf r -> is_run r i m -> run_elements r = seqZ i m.
Proof.
  intros (_ & _ & Hz) (Hi & Hm & _ & Hst & Hen). unfold run_elements. f_equal.
  - rewrite Hst. unfold pos. replace (o + i * s - o) with (i * s) by lia. apply Z.quot_mul. lia.
  - replace (m_size r) with (m * A) by lia. apply Z.quot_mul. lia.
Qed.

(** A part of a run with aligned ends is a run. *)
Lemma inside_run r d i m :
  is_run r i m -> inside r d -> ends aligned d -> exists i' m', is_run d i' m'.
Proof.
  intros (Hi & Hm & Hms & Hst & Hen) (H1 & H2 & H3) [B1 B2]. unfold aligned in *.
  assert (0 <= i * s) by nia. rewrite Hst in *. rewrite Hen in *.
  unfold pos in *. destruct Hms as [->|Hsa].
  - assert (Hx : forall x, 0 <= x < s -> (o + i * s + x - o) mod s = x).
    { intros x Hx. replace (o + i * s + x - o) with (x + i * s) by lia.
      rewrite Z.mod_add, Z.mod_small; lia. }
    assert (E1 : m_start d = o + i * s).
    { destruct (decide (m_start d = o + i * s)); [done|].
      specialize (Hx (m_start d - (o + i * s))).
      replace (o + i * s + (m_start d - (o + i * s)) - o) with (m_start d - o) in Hx by lia. lia. }
    assert (E2 : m_end d = o + i * s + A).
    { destruct (decide (m_end d = o + i * s + A)); [lia|].
      specialize (Hx (m_end d - (o + i * s))).
      replace (o + i * s + (m_end d - (o + i * s)) - o) with (m_end d - o) in Hx by lia. lia. }
    exists i, 1. unfold is_run, pos. lia.
  - rewrite Hsa in *. assert (Hmod : forall x, 0 <= x mod A < A) by (intros; apply Z.mod_pos_bound; lia).
    pose proof (Hmod (m_start d - o)). pose proof (Hmod (m_end d - o)).
    exists ((m_start d - o) / A), ((m_end d - o) / A - (m_start d - o) / A).
    pose proof (Z.div_mod (m_start d - o) A). pose proof (Z.div_mod (m_end d - o) A).
    unfold is_run, pos. rewrite Hsa. nia.
Qed.

Lemma run_covers r i m e :
  is_run r i m -> 0 <= e -> covers r (pos e) = true <-> i <= e < i + m.
Proof.
  intros (Hi & Hm & Hms & Hst & Hen) He. unfold covers. rewrite andb_true_iff, Z.leb_le, Z.ltb_lt.
  rewrite Hst, Hen. unfold pos. destruct Hms as [->|Hsa]; [|rewrite Hsa]; nia.
Qed.

(** The pointer describes these elements. *)
Definition describes (p : GLESpointer) : Prop :=
  m_psize p = Z.of_nat k /\ m_buffOffset p = o /\ stride_or p A = s.

Lemma bytesRangesToIndices_ok p ranges cap :
  describes p -> o < 2 ^ 31 -> (length (concat (map run_elements ranges)) <= cap)%nat ->
  exists rest,
    bytesRangesToIndices ranges p (replicate (2 * cap) 0) =
    Ok (shorts (concat (map run_elements ranges)) ++ rest,
        Z.of_nat (length (concat (map run_elements ranges)))).
Proof.
  intros (Hk1 & Ho1 & Hs1) Hob Hcap. unfold bytesRangesToIndices. cbv zeta.
  rewrite Hk1, Ho1. replace (Z.of_nat k * 4) with A by lia. rewrite Hs1.
  destruct (Z.eqb_spec A 0); [lia|]. destruct (Z.eqb_spec s 0); [lia|]. cbn [orb].
  rewrite s32_small by lia.
  pose proof (push_indices (concat (map run_elements ranges)) [] (replicate (2 * cap) 0) 0) as P.
  rewrite Z.add_0_l in P. cbn [app] in P.
  exists (drop (2 * length (concat (map run_elements ranges))) (replicate (2 * cap) 0)).
  rewrite <-P by (rewrite ?length_replicate; simpl; lia).
  rewrite <-foldM_concat. clear P Hcap. generalize (replicate (2 * cap) 0, 0).
  induction ranges as [|r rl IH]; intros t; cbn [foldM map]; [done|].
  rewrite foldM_shift. fold (run_elements r).
  destruct (foldM push_index t (run_elements r)); cbn [mbind result_bind]; [apply IH|done].
Qed.

Lemma run_ends r i m : is_run r i m -> ends aligned r.
Proof.
  intros (Hi & Hm & Hms & Hst & Hen). unfold ends, aligned. rewrite Hst, Hen. unfold pos. split.
  - right; left. replace (o + i * s - o) with (i * s) by lia. apply Z.mod_mul. lia.
  - right. destruct Hms as [->|Hsa].
    + replace (o + i * s + 1 * A - o) with (A + i * s) by lia. rewrite Z.mod_add by lia.
      destruct (decide (A = s)) as [->|]; [left; apply Z.mod_same; lia|].
      right. rewrite Z.mod_small; lia.
    + left. rewrite Hsa. replace (o + i * A + m * A - o) with ((i + m) * A) by lia. apply Z.mod_mul. lia.
Qed.

Definition runs (rl : RangeList) : Prop := Forall (fun r => wf r /\ exists i m, is_run r i m) rl.

Definition elements_of (rl : RangeList) : list Z := concat (map run_elements rl).

Lemma elem_of_elements rl e :
  runs rl -> e ∈ elements_of rl <-> 0 <= e /\ covered rl (pos e) = true.
Proof.
  intros H. unfold elements_of. induction H as [|r rl (Hw & i & m & Hr) H IH]; cbn [map concat covered existsb].
  - rewrite elem_of_nil. split; [done|by intros []].
  - rewrite elem_of_app, IH, (run_elements_of r i m Hw Hr), elem_of_seqZ, orb_true_iff.
    pose proof Hr as (Hi & _). fold (covered rl (pos e)).
    split; [intros [Hx|[Hx Hy]]|intros [Hx [Hy|Hy]]]; [|by auto| |by auto].
    + split; [lia|]. left. apply (run_covers r i m); [done|lia|lia].
    + left. apply (run_covers r i m e) in Hy; [lia|done|done].
Qed.

Lemma NoDup_elements rl :
  runs rl -> (forall x, (count rl x <= 1)%nat) -> NoDup (elements_of rl).
Proof.
  intros H Hc. induction H as [|r rl (Hw & i & m & Hr) H IH]; [apply NoDup_nil_2|].
  unfold elements_of. cbn [map concat]. fold (elements_of rl). apply NoDup_app. split_and!.
  - unfold run_elements. apply NoDup_seqZ.
  - intros e He He'. rewrite (run_elements_of r i m Hw Hr), elem_of_seqZ in He.
    apply elem_of_elements in He' as [He0 He']; [|done]. apply covered_true in He'.
    specialize (Hc (pos e)). cbn [count] in Hc.
    rewrite (proj2 (run_covers r i m e Hr He0)) in Hc by lia. lia.
  - apply IH. intros x. specialize (Hc x). cbn [count] in Hc. destruct (covers r x); lia.
Qed.

(** ** The state of a buffer between draws *)

Record ready (p : GLESpointer) (a blk : Z) (c : GLEScontext) (bs : list Z) (conv : RangeList) : Prop := {
  r_describes : describes p;
  r_vbo : m_isVBO p = true /\ m_buffer p = Some a;
  r_buffer : exists B, c_buffers c !! a = Some B /\ b_data B = Some blk /\ m_conversionManager B = conv;
  r_block : c_heap c !! blk = Some bs;
  r_length : Z.of_nat (length bs) < 2 ^ 31 /\ o < 2 ^ 31;
  r_conv : Forall wf conv /\ Forall (ends aligned) conv /\ forall x, (count conv x <= 1)%nat
}.

Lemma getBufferData_ready p a blk c bs conv :
  ready p a blk c bs conv -> getBufferData c p = Ok (Some (mkPtr blk o)).
Proof.
  intros [(_ & Ho1 & _) [_ Hb] (B & HB & Hd & _) _ _ _]. unfold getBufferData. rewrite Hb.
  unfold buffer_at. rewrite HB. cbn. unfold getData. rewrite Hd, Ho1. done.
Qed.

(** What a conversion asks for: runs that cover the elements [es] and no others. *)
Definition requests (n : Z) (rl : RangeList) (es : list Z) : Prop :=
  runs rl /\ Forall (fun e => in_block n e /\ e < 2 ^ 16) es /\
  forall e, 0 <= e -> covered rl (pos e) = true <-> e ∈ es.

(** The pending ones among the elements asked for are converted, once each. *)
Lemma convert_ranges_ok p a blk c bs conv rl es cnt :
  ready p a blk c bs conv -> requests (Z.of_nat (length bs)) rl es ->
  Z.of_nat (length es) <= cnt ->
  exists c' idx conv',
    convert_ranges cnt rl p (Some (mkPtr blk o)) s c = Ok c' /\
    ready p a blk c' (foldl convert_element bs idx) conv' /\
    NoDup idx /\ Forall (in_block (Z.of_nat (length bs))) idx /\
    (forall e, e ∈ idx <-> e ∈ es /\ covered conv (pos e) = true) /\
    (forall e, 0 <= e -> covered conv' (pos e) = covered conv (pos e) && negb (covered rl (pos e))).
Proof.
  intros [Hd [Hv Hb] (B & HB & Hbd & Hbc) Hblk [Hlen Hoff] (Hw & He & Hc1)] (Hruns & Hes & Hcov) Hcnt.
  assert (Hrw : Forall wf rl) by (eapply Forall_impl; [exact Hruns|by intros ? []]).
  assert (Hre : Forall (ends aligned) rl)
    by (eapply Forall_impl; [exact Hruns|intros ? (_ & i & m & Hx); by apply (run_ends _ i m)]).
  destruct (delRanges_ok conv rl [] Hrw Hw) as (conv' & D & E & [[W1 W2] L M I N]).
  destruct (N aligned Hre He) as [N1 N2].
  assert (HD : runs D).
  { apply Forall_forall. intros d Hdin. rewrite Forall_forall in W2, I, N2.
    split; [by apply W2|]. destruct (I d Hdin) as (r & Hr & Hin).
    apply list_elem_of_In in Hr. unfold runs in Hruns. rewrite Forall_forall in Hruns.
    destruct (Hruns r Hr) as (_ & i & m & Hrun). eapply inside_run; [done|done|by apply N2]. }
  assert (HcD : forall x, (count D x <= 1)%nat)
    by (intros x; rewrite M; specialize (Hc1 x); destruct (covered rl x); lia).
  assert (Hidx : forall e, e ∈ elements_of D <-> e ∈ es /\ covered conv (pos e) = true).
  { intros e. rewrite elem_of_elements by done. rewrite (covered_count D), M, (covered_count conv).
    split.
    - intros [He0 Hx]. rewrite <-Hcov by done. destruct (covered rl (pos e)); [done|]. done.
    - intros [Hin Hx]. rewrite Forall_forall in Hes. destruct (Hes e Hin) as [[He0 _] _].
      split; [done|]. apply Hcov in Hin; [|done]. by rewrite Hin. }
  assert (Hnd : NoDup (elements_of D)) by (by apply NoDup_elements).
  assert (Hbl : Forall (fun e => in_block (Z.of_nat (length bs)) e /\ e < 2 ^ 16) (elements_of D)).
  { apply Forall_forall. intros e Hin. apply Hidx in Hin as [Hin _].
    rewrite Forall_forall in Hes. by apply Hes. }
  assert (Hin1 : Forall (in_block (Z.of_nat (length bs))) (elements_of D))
    by (eapply Forall_impl; [exact Hbl|by intros ? []]).
  assert (Hlidx : (length (elements_of D) <= length es)%nat).
  { apply submseteq_length. apply NoDup_submseteq; [done|]. intros e Hin. by apply Hidx in Hin as [? _]. }
  destruct (convert_elements bs (elements_of D) Hnd Hin1) as [Hl' _].
  set (B' := mkBuffer (b_size B) (b_usage B) (b_data B) conv' (b_wasBound B)).
  exists (set_heap (<[blk := foldl convert_element bs (elements_of D)]> (c_heap c)) (put_buffer a B' c)),
    (elements_of D), conv'. split_and!; [|split|done|done|done|].
  - unfold convert_ranges, getBufferConversions, getConversions, buffer_at. rewrite Hb. cbn [deref from_option_or mbind result_bind].
    rewrite HB. cbn [from_option_or mbind result_bind]. rewrite Hbc, E. cbn [mbind result_bind app].
    rewrite merge_is_identity. cbn [mbind result_bind]. fold B'.
    destruct D as [|d D']; cbn [length Nat.eqb].
    + cbn. rewrite insert_id by done. by destruct c.
    + destruct (bytesRangesToIndices_ok p (d :: D') (Z.to_nat cnt) Hd Hoff) as (rest & EI);
        [fold (elements_of (d :: D')); lia|].
      fold (elements_of (d :: D')) in EI.
      replace (Z.to_nat (2 * cnt)) with (2 * Z.to_nat cnt)%nat by lia. rewrite EI.
      cbn [mbind result_bind]. unfold convertFixedIndirectLoop, convert_indirect.
      rewrite (foldM_values _ _ _ _ (elements_of (d :: D'))).
      * destruct Hd as (-> & _ & _). rewrite (convert_list_ok _ _ bs) by done. done.
      * apply indices_of_shorts. eapply Forall_impl; [exact Hbl|]. intros e [[? _] ?]; lia.
  - done.
  - done.
  - exists B'. split; [|done]. cbn. by rewrite lookup_insert_eq.
  - cbn. by rewrite lookup_insert_eq.
  - by rewrite Hl'.
  - split_and!; [done|done|]. intros x. rewrite L. specialize (Hc1 x). destruct (covered rl x); lia.
  - intros e _. rewrite !(covered_count conv'), L, (covered_count conv). by destruct (covered rl (pos e)), (Nat.eqb (count conv (pos e)) 0).
Qed.

Lemma requests_map n es :
  n < 2 ^ 31 -> Forall (fun e => in_block n e /\ e < 2 ^ 16) es ->
  requests n (map (fun e => setRange (s32 (pos e)) A) es) es.
Proof.
  intros Hn Hes. assert (Hr : Forall (fun e => is_run (setRange (s32 (pos e)) A) e 1 /\
                                              wf (setRange (s32 (pos e)) A)) es).
  { eapply Forall_impl; [exact Hes|]. intros e [[He Hb] _].
    assert (0 <= pos e) by (unfold pos; nia). rewrite s32_small by lia. split; [|by apply wf_setRange; lia].
    unfold is_run, setRange. cbn. rewrite s32_small by lia. lia. }
  split_and!; [|done|].
  - unfold runs. rewrite Forall_map. eapply Forall_impl; [exact Hr|]. intros e [H1 H2]. eauto.
  - intros e He. rewrite covered_in. split.
    + intros (r & Hin & Hc). apply in_map_iff in Hin as (e' & <- & Hin). apply list_elem_of_In in Hin.
      rewrite Forall_forall in Hr. destruct (Hr e' Hin) as [H1 _].
      apply (run_covers _ _ _ e H1) in Hc; [|done]. by replace e with e' by lia.
    + intros Hin. exists (setRange (s32 (pos e)) A). split.
      * apply in_map_iff. exists e. split; [done|]. by apply list_elem_of_In.
      * rewrite Forall_forall in Hr. destruct (Hr e Hin) as [H1 _]. apply (run_covers _ _ _ e H1); lia.
Qed.

Lemma requests_run n cnt :
  n < 2 ^ 31 -> s = A -> 0 <= cnt -> Forall (fun e => in_block n e /\ e < 2 ^ 16) (seqZ 0 cnt) ->
  o < 2 ^ 31 -> requests n [setRange o (s32 (cnt * A))] (seqZ 0 cnt).
Proof.
  intros Hn Hsa Hcnt Hes Hob.
  assert (Hb : o + cnt * A < 2 ^ 31).
  { destruct (decide (cnt = 0)) as [->|]; [lia|]. rewrite Forall_forall in Hes.
    destruct (Hes (cnt - 1)) as [[_ Hx] _]; [apply elem_of_seqZ; lia|]. unfold pos in Hx. nia. }
  assert (0 <= cnt * A) by nia. rewrite s32_small by lia.
  assert (Hr : is_run (setRange o (cnt * A)) 0 cnt).
  { unfold is_run, setRange, pos. cbn. rewrite s32_small by lia. lia. }
  split_and!; [|done|].
  - apply Forall_singleton. split; [apply wf_setRange; lia|by eauto].
  - intros e He. cbn [covered existsb]. rewrite orb_false_r, (run_covers _ _ _ e Hr He), elem_of_seqZ. lia.
Qed.

(** ** Draws *)

Inductive draw :=
  | DrawArrays (count : Z)
  | DrawElements (count type : Z) (indices : list Z).

(** What the array functions do to the pointer for a draw from the first element on. *)
Definition convert_for (p : GLESpointer) (c : GLEScontext) (d : draw) : result GLEScontext :=
  snd <$> match d with
          | DrawArrays count => convertDirectVBO (mkArrays ∅ 0) 0 count p c
          | DrawElements count type indices => convertIndirectVBO (mkArrays ∅ 0) count type indices p c
          end.

(** The elements that a draw uses. *)
Definition drawn (d : draw) : list Z :=
  match d with
  | DrawArrays count => seqZ 0 count
  | DrawElements count type ix =>
      map (fun i => le_value (if type =? GL_UNSIGNED_SHORT then slice ix (Z.to_nat (2 * i)) 2
                              else slice ix (Z.to_nat i) 1)) (seqZ 0 count)
  end.

(** Its elements are in the buffer, its indices in their array. *)
Definition valid_draw (n : Z) (d : draw) : Prop :=
  Forall (fun e => in_block n e /\ e < 2 ^ 16) (drawn d) /\
  match d with
  | DrawArrays count => 0 <= count
  | DrawElements count type ix =>
      0 <= count /\ (if type =? GL_UNSIGNED_SHORT then 2 * count else count) <= Z.of_nat (length ix)
  end.

Lemma foldl_addRange f l es : foldl (fun l (e : Z) => addRange l (f e)) l es = l ++ map f es.
Proof.
  revert l. induction es as [|e es IH]; intros l; cbn [foldl map]; [by rewrite app_nil_r|].
  rewrite IH. unfold addRange. by rewrite <-app_assoc.
Qed.

Lemma foldM_addRange f l es :
  foldM (fun l (e : Z) => Ok (addRange l (f e))) l es = Ok (l ++ map f es).
Proof.
  revert l. induction es as [|e es IH]; intros l; cbn [foldM map]; [by rewrite app_nil_r|].
  cbn [mbind result_bind]. rewrite IH. unfold addRange. by rewrite <-app_assoc.
Qed.

Lemma direct_requests n p cnt :
  describes p -> n < 2 ^ 31 -> o < 2 ^ 31 -> valid_draw n (DrawArrays cnt) ->
  requests n (directToBytesRanges 0 cnt p []) (seqZ 0 cnt).
Proof.
  intros (Hk1 & Ho1 & Hs1) Hn Hob [Hes Hc]. cbn [drawn] in Hes. unfold directToBytesRanges. cbv zeta.
  rewrite Hk1, Ho1. replace (Z.of_nat k * 4) with A by lia. rewrite Z.mul_0_l, Z.add_0_r.
  unfold stride_or in *. destruct (Z.eqb_spec (m_stride p) 0).
  - unfold addRange. cbn [app]. rewrite (s32_small o) by lia. by apply requests_run.
  - rewrite foldl_addRange. cbn [app]. rewrite (s32_small o) by lia. rewrite Hs1.
    by apply requests_map.
Qed.

Lemma indirect_requests n p cnt ty ix :
  describes p -> n < 2 ^ 31 -> o < 2 ^ 31 -> valid_draw n (DrawElements cnt ty ix) ->
  exists rl, indirectToBytesRanges ix ty cnt p [] = Ok rl /\ requests n rl (drawn (DrawElements cnt ty ix)).
Proof.
  intros (Hk1 & Ho1 & Hs1) Hn Hob [Hes (Hc & Hl)].
  exists (map (fun e => setRange (s32 (pos e)) A) (drawn (DrawElements cnt ty ix))).
  split; [|by apply requests_map]. unfold indirectToBytesRanges. cbv zeta.
  rewrite Hk1, Ho1. replace (Z.of_nat k * 4) with A by lia. rewrite Hs1, s32_small by lia.
  rewrite (foldM_values _ (fun l x => Ok (addRange l (setRange (s32 (o + x * s)) A))) [] _
             (drawn (DrawElements cnt ty ix))).
  - by rewrite (foldM_addRange (fun e => setRange (s32 (pos e)) A)).
  - unfold drawn. rewrite Forall2_fmap_r. apply Forall_Forall2_diag. apply Forall_forall.
    intros i Hi. apply elem_of_seqZ in Hi. unfold read_block.
    destruct (Z.eqb_spec ty GL_UNSIGNED_SHORT); rewrite decide_True by lia; done.
Qed.

(** ** Each element is converted once *)

(** Pending elements are raw, all others converted. *)
Definition half_converted (raw bs : list Z) (conv : RangeList) : Prop :=
  length bs = length raw /\
  forall e, in_block (Z.of_nat (length raw)) e ->
    element bs e = if covered conv (pos e) then element raw e else floats k (element raw e).

Lemma half_converted_step raw bs conv (idx : list Z) conv' rl (es : list Z) :
  half_converted raw bs conv -> NoDup idx -> Forall (in_block (Z.of_nat (length bs))) idx ->
  (forall e, 0 <= e -> covered rl (pos e) = true <-> e ∈ es) ->
  (forall e, e ∈ idx <-> e ∈ es /\ covered conv (pos e) = true) ->
  (forall e, 0 <= e -> covered conv' (pos e) = covered conv (pos e) && negb (covered rl (pos e))) ->
  half_converted raw (foldl convert_element bs idx) conv'.
Proof.
  intros [Hl Hh] Hnd Hin Hcov Hidx Hconv. destruct (convert_elements bs idx Hnd Hin) as [Hl' He].
  split; [congruence|]. intros e Hb. pose proof (Hb) as [Hb0 _].
  rewrite He by (by rewrite Hl). rewrite (Hh e Hb), Hconv by done.
  specialize (Hidx e). specialize (Hcov e Hb0).
  destruct (decide (e ∈ idx)) as [H|H]; destruct (covered conv (pos e)); destruct (covered rl (pos e));
    cbn; try done; exfalso; intuition congruence.
Qed.

Lemma convert_for_ok p a blk c raw bs conv d :
  ready p a blk c bs conv -> half_converted raw bs conv -> valid_draw (Z.of_nat (length raw)) d ->
  exists c' bs' conv',
    convert_for p c d = Ok c' /\ ready p a blk c' bs' conv' /\ half_converted raw bs' conv' /\
    forall e, 0 <= e ->
      covered conv' (pos e) = covered conv (pos e) && negb (bool_decide (e ∈ drawn d)).
Proof.
  intros R Hh Hv. pose proof R as [(Hk1 & Ho1 & Hs1) [Hvb Hb] (B & HB & Hbd & Hbc) _ [Hlen Hoff] _].
  pose proof Hh as [Hl _]. rewrite <-Hl in Hv.
  assert (Hstr : stride_or p (4 * m_psize p) = s) by (by rewrite Hk1).
  assert (Hneed : bufferNeedConversion p c = Ok (negb (Nat.eqb (length conv) 0))).
  { unfold bufferNeedConversion, buffer_at. rewrite Hb. cbn. rewrite HB. cbn.
    unfold fullyConverted. by rewrite Hbc. }
  destruct conv as [|r0 conv0].
  { exists c, bs, []. split_and!; [|done|done|by intros].
    unfold convert_for, convertDirectVBO, convertIndirectVBO. rewrite (getBufferData_ready _ _ _ _ _ _ R).
    cbn [mbind result_bind]. rewrite Hneed. by destruct d. }
  set (conv := r0 :: conv0) in *.
  assert (Hreq : exists rl cnt,
            requests (Z.of_nat (length bs)) rl (drawn d) /\ Z.of_nat (length (drawn d)) <= cnt /\
            convert_for p c d = convert_ranges cnt rl p (Some (mkPtr blk o)) s c).
  { destruct d as [cnt|cnt ty ix].
    - exists (directToBytesRanges 0 cnt p []), cnt. split_and!.
      + by apply direct_requests.
      + destruct Hv as [_ Hc]. cbn [drawn]. rewrite length_seqZ. lia.
      + unfold convert_for, convertDirectVBO. rewrite (getBufferData_ready _ _ _ _ _ _ R).
        cbn [mbind result_bind]. rewrite Hneed, Hstr. cbn [length Nat.eqb negb fmap option_fmap option_map].
        unfold shift. cbn [p_block p_off]. rewrite Z.add_0_r.
        by destruct (convert_ranges _ _ _ _ _ _).
    - destruct (indirect_requests (Z.of_nat (length bs)) p cnt ty ix) as (rl & E & Hr); try done.
      exists rl, cnt. split_and!; [done| |].
      + destruct Hv as [_ [Hc _]]. cbn [drawn]. rewrite length_map, length_seqZ. lia.
      + unfold convert_for, convertIndirectVBO. rewrite (getBufferData_ready _ _ _ _ _ _ R).
        cbn [mbind result_bind]. rewrite Hneed, Hstr. cbn [length Nat.eqb negb]. rewrite E.
        cbn [mbind result_bind]. by destruct (convert_ranges _ _ _ _ _ _). }
  destruct Hreq as (rl & cnt & Hreq & Hcnt & ->).
  destruct (convert_ranges_ok p a blk c bs conv rl _ cnt R Hreq Hcnt)
    as (c' & idx & conv' & E & R' & Hnd & Hin & Hidx & Hconv).
  destruct Hreq as (_ & _ & Hcov).
  exists c', (foldl convert_element bs idx), conv'. split_and!; [done|done| |].
  - by eapply half_converted_step.
  - intros e He. rewrite Hconv by done. do 2 f_equal. apply eq_true_iff_eq.
    by rewrite bool_decide_eq_true, Hcov.
Qed.

Lemma draws_ok p a blk raw ds :
  Forall (valid_draw (Z.of_nat (length raw))) ds -> forall c bs conv,
  ready p a blk c bs conv -> half_converted raw bs conv ->
  exists c' bs' conv',
    foldM (convert_for p) c ds = Ok c' /\ ready p a blk c' bs' conv' /\ half_converted raw bs' conv' /\
    forall e, 0 <= e ->
      covered conv' (pos e) = covered conv (pos e) && negb (bool_decide (e ∈ concat (map drawn ds))).
Proof.
  induction 1 as [|d ds Hd Hds IH]; intros c bs conv R Hh; cbn [foldM map concat].
  - exists c, bs, conv. split_and!; [done|done|done|]. intros e _. rewrite bool_decide_false by apply not_elem_of_nil.
    by rewrite andb_true_r.
  - destruct (convert_for_ok p a blk c raw bs conv d R Hh Hd) as (c1 & bs1 & conv1 & -> & R1 & H1 & C1).
    destruct (IH c1 bs1 conv1 R1 H1) as (c2 & bs2 & conv2 & E2 & R2 & H2 & C2).
    exists c2, bs2, conv2. split_and!; [done|done|done|]. intros e He. rewrite C2, C1 by done.
    rewrite <-andb_assoc, <-negb_orb. do 2 f_equal. apply eq_true_iff_eq.
    rewrite orb_true_iff, !bool_decide_eq_true. by rewrite elem_of_app.
Qed.
End Elements.

(** ** A buffer filled, described and drawn *)

(** [glBufferData], [glVertexAttribPointer] with fixed point numbers, and draws. *)
Definition fill_and_draw (junk : Z -> Z -> Z) (q : ptr) (n arrType size stride offset : Z)
  (ds : list draw) (c : GLEScontext) : result GLEScontext :=
  '(_, c) ← setBufferData junk GL_ARRAY_BUFFER n (Some q) GL_STATIC_DRAW c;
  c ← setPointer arrType size GL_FIXED stride None offset false c;
  p ← deref (m_map c !! arrType);
  foldM (convert_for p) c ds.

Lemma setBuffer_ok junk a usage q raw c b :
  c_buffers c !! a = Some b -> load (c_heap c) q (Z.of_nat (length raw)) = Ok raw ->
  b_data b <> Some (p_block q) -> p_block q <> c_next c ->
  exists c', setBuffer junk a (Z.of_nat (length raw)) usage (Some q) c = Ok c' /\
    c_buffers c' !! a = Some (mkBuffer (Z.of_nat (length raw)) usage (Some (c_next c))
                               [setRange 0 (s32 (Z.of_nat (length raw)))] (b_wasBound b)) /\
    c_heap c' !! c_next c = Some raw /\
    c_objects c' = c_objects c /\ m_arrayBuffer c' = m_arrayBuffer c /\ m_map c' = m_map c.
Proof.
  intros Hb Hload Hne Hnn. unfold setBuffer, buffer_at. rewrite Hb. cbn [from_option_or mbind result_bind].
  set (c1 := match b_data b with Some old => set_heap (delete old (c_heap c)) c | None => c end).
  assert (H1 : c_next c1 = c_next c /\ c_heap c1 !! p_block q = c_heap c !! p_block q /\
               c_buffers c1 = c_buffers c /\ c_objects c1 = c_objects c /\
               m_arrayBuffer c1 = m_arrayBuffer c /\ m_map c1 = m_map c).
  { subst c1. destruct (b_data b) as [old|]; [|done]. cbn. split_and!; try done.
    apply lookup_delete_ne. congruence. }
  destruct H1 as (H1 & H2 & H3 & H4 & H5 & H6). unfold new_array.
  rewrite <-H1 in Hnn. unfold load in Hload. rewrite <-H2 in Hload.
  assert (Hl : load (<[c_next c1:=map (junk (c_next c1)) (seqZ 0 (Z.of_nat (length raw)))]> (c_heap c1)) q
                 (Z.of_nat (length raw)) = Ok raw).
  { unfold load. rewrite lookup_insert_ne by congruence. done. }
  cbn [c_heap set_heap set_next]. rewrite Hl. cbn [mbind result_bind].
  rewrite (store_in _ _ [] (map (junk (c_next c1)) (seqZ 0 (Z.of_nat (length raw)))) []).
  - eexists. split; [reflexivity|]. cbn. rewrite H1, H3, H4, H5, H6, app_nil_r, !lookup_insert_eq. done.
  - cbn. by rewrite app_nil_r, lookup_insert_eq.
  - done.
  - rewrite length_map, length_seqZ. lia.
Qed.



(** ** A buffer of four numbers *)

Definition demo_bytes : list Z := concat (map (le_bytes 4) [65536; 131072; 196608; 262144]).
Definition demo_junk (blk i : Z) : Z := 0.

(** Buffer 5, bound, and the client's array at block 1. *)
Definition demo_context : GLEScontext :=
  mkContext {[1 := demo_bytes]} 10 {[7 := new_GLESbuffer]} {[5 := 7]} 5 0 {[0 := new_GLESpointer]}.

Definition demo_draws : list draw :=
  [DrawElements 3 GL_UNSIGNED_BYTE [2; 0; 2]; DrawArrays 2].


(** Elements 0, 1 and 2 are now 1.0, 2.0 and 3.0; the last one is still raw. *)
Example demo_result :
  (c ← fill_and_draw demo_junk (mkPtr 1 0) 16 0 1 0 0 demo_draws demo_context;
   from_option_or UseAfterFree (c_heap c !! 10)) =
  Ok (concat (map (le_bytes 4) [0x3F800000; 0x40000000; 0x40400000; 262144])).
Proof. vm_compute. reflexivity. Qed.

(** A draw from element 1 on converts element 2, because both the indices and
    the address of the data count the first element. *)
Example first_counts_twice :
  (c ← fill_and_draw demo_junk (mkPtr 1 0) 16 0 1 0 0 [] demo_context;
   p ← deref (m_map c !! 0);
   '(_, c) ← convertDirectVBO (mkArrays ∅ 0) 1 1 p c;
   from_option_or UseAfterFree (c_heap c !! 10)) =
  Ok (concat (map (le_bytes 4) [65536; 131072; 0x40400000; 262144])).
Proof. vm_compute. reflexivity. Qed.

(** Filling a buffer with [glBufferSubData] lists its bytes twice, since ranges
    are never united: the first draw writes behind the array of indices. *)
Example sub_data_overflows_indices :
  ('(_, c) ← setBufferData demo_junk GL_ARRAY_BUFFER 16 None GL_STATIC_DRAW demo_context;
   '(_, c) ← setBufferSubData GL_ARRAY_BUFFER 0 16 (Some (mkPtr 1 0)) c;
   c ← setPointer 0 1 GL_FIXED 0 None 0 false c;
   p ← deref (m_map c !! 0);
   convertDirectVBO (mkArrays ∅ 0) 0 4 p c) = Err OutOfBounds.
Proof. vm_compute. reflexivity. Qed.

(** The check of the size is on unsigned numbers: a negative offset passes it. *)
Example negative_offset_passes :
  ('(_, c) ← setBufferData demo_junk GL_ARRAY_BUFFER 16 None GL_STATIC_DRAW demo_context;
   setBufferSubData GL_ARRAY_BUFFER (-4) 8 (Some (mkPtr 1 0)) c) = Err OutOfBounds.
Proof. vm_compute. reflexivity. Qed.

(** The greatest of three byte indices is looked for among three shorts. *)
Example byte_indices_read_as_shorts :
  convertIndirect demo_junk (mkArrays ∅ 0) 3 GL_UNSIGNED_BYTE [0; 1; 2]
    (setArray 1 GL_FIXED 0 (Some (mkPtr 1 0)) false new_GLESpointer) demo_context = Err OutOfBounds.
Proof. vm_compute. reflexivity. Qed.
