(* ===== verification/SmartPtr.v ===== *)
(** * Reference counted pointers

    Models the class template of
    [src/emulator/opengl/shared/OpenglCodecCommon/SmartPtr.h] (and its copy for the
    translator), with which the renderer and the translator hold contexts, surfaces,
    colour buffers, share groups and object data.  The uses have [threadSafe] false,
    so there is no lock.

    A [Store] has the objects of one class and their counters; the value of a
    pointer variable is the object's address, or none.  The contract is
    [counts_ok]: an object is in the store exactly while some variable points to
    it, and its counter is their number.  The clients prove that the number of
    their variables is what they say ([uses]). *)
From S2P Require Import Prelude.

Local Open Scope Z_scope.

(** ** Sums over a map

    The number of uses that the variables in a map, or in the fields of a map of
    objects, make up. *)
Section Sums.
Context {K : Type} `{Countable K} {V : Type}.

Definition sum_map (f : V -> nat) (m : gmap K V) : nat := map_fold (fun _ v n => f v + n)%nat 0%nat m.

Lemma sum_map_insert f m k v : m !! k = None -> sum_map f (<[k := v]> m) = (f v + sum_map f m)%nat.
Proof. intros E. unfold sum_map. apply (map_fold_insert_L (fun _ v n => f v + n)%nat); [lia|done]. Qed.

Lemma sum_map_delete f m k v : m !! k = Some v -> sum_map f m = (f v + sum_map f (delete k m))%nat.
Proof.
  intros E. rewrite <-(insert_delete_id m k v E) at 1. apply sum_map_insert. apply lookup_delete_eq.
Qed.

Lemma sum_map_replace f m k v v' :
  m !! k = Some v -> (sum_map f (<[k := v']> m) + f v = f v' + sum_map f m)%nat.
Proof.
  intros E. rewrite <-insert_delete_eq, sum_map_insert by apply lookup_delete_eq.
  rewrite (sum_map_delete f m k v E). lia.
Qed.

(** An entry written, whether there was one or not. *)
Lemma sum_map_set f m k v : sum_map f (<[k := v]> m) = (f v + sum_map f (delete k m))%nat.
Proof. rewrite <-insert_delete_eq. apply sum_map_insert, lookup_delete_eq. Qed.

Lemma sum_map_split f m k :
  sum_map f m = (match m !! k with Some v => f v | None => 0 end + sum_map f (delete k m))%nat.
Proof.
  destruct (m !! k) as [v|] eqn:E; [by apply sum_map_delete|]. by rewrite delete_id.
Qed.

Lemma sum_map_ext f g m : (forall v, f v = g v) -> sum_map f m = sum_map g m.
Proof.
  intros E. induction m as [|k v m Hk IH] using map_ind; [done|].
  by rewrite !sum_map_insert, E, IH by done.
Qed.

Lemma sum_map_lookup f m k v : m !! k = Some v -> (f v <= sum_map f m)%nat.
Proof. intros E. rewrite (sum_map_delete f m k v E). lia. Qed.

Lemma sum_map_pos f m : (0 < sum_map f m)%nat -> exists k v, m !! k = Some v /\ (0 < f v)%nat.
Proof.
  induction m as [|k v m Hk IH] using map_ind; [intros H'; unfold sum_map in H'; rewrite map_fold_empty in H'; lia|].
  rewrite sum_map_insert by done. intros Hp. destruct (decide (f v = 0%nat)) as [E|E].
  - destruct IH as (k' & v' & Hk' & Hv'); [lia|]. exists k', v'. split; [|done].
    rewrite lookup_insert_ne; [done|]. intros ->. congruence.
  - exists k, v. rewrite lookup_insert_eq. split; [done|lia].
Qed.

Lemma sum_map_empty f : sum_map f ∅ = 0%nat.
Proof. done. Qed.
End Sums.

Section SmartPtr.
Context {T : Type}.

Record Store := mkStore { s_objects : gmap Z T; s_counts : gmap Z Z }.

(** [SmartPtr(T* ptr)] for a fresh object at address [a]. *)
Definition construct (a : Z) (obj : T) (s : Store) : Store :=
  mkStore (<[a := obj]> (s_objects s)) (<[a := 1]> (s_counts s)).

(** Counter incremented by a copy. *)
Definition use (p : option Z) (s : Store) : result Store :=
  match p with
  | None => Ok s
  | Some a =>
      n ← from_option_or UseAfterFree (s_counts s !! a);
      Ok (mkStore (s_objects s) (<[a := s32 (n + 1)]> (s_counts s)))
  end.

(** Counter decremented; the object that was deleted, whose destructor the caller
    runs.  [android_atomic_dec] returns the value before. *)
Definition release (p : option Z) (s : Store) : result (option T * Store) :=
  match p with
  | None => Ok (None, s)
  | Some a =>
      iVal ← from_option_or UseAfterFree (s_counts s !! a);
      if 1 <? iVal then Ok (None, mkStore (s_objects s) (<[a := s32 (iVal - 1)]> (s_counts s)))
      else
        obj ← from_option_or UseAfterFree (s_objects s !! a);
        Ok (Some obj, mkStore (delete a (s_objects s)) (delete a (s_counts s)))
  end.

(** [operator=] on a variable with value [p]: its new value, what was deleted. *)
Definition assign (p rhs : option Z) (s : Store) : result (option Z * option T * Store) :=
  if decide (p = rhs) then Ok (p, None, s)
  else
    '(dead, s) ← release p s;
    s ← use rhs s;
    Ok (rhs, dead, s).

(** [operator->]. *)
Definition arrow (p : option Z) (s : Store) : result T :=
  a ← from_option_or NullDeref p; from_option_or UseAfterFree (s_objects s !! a).

(** A method that changes the object. *)
Definition put_object (p : option Z) (obj : T) (s : Store) : result Store :=
  _ ← arrow p s;
  a ← from_option_or NullDeref p;
  Ok (mkStore (<[a := obj]> (s_objects s)) (s_counts s)).

(** ** The contract *)

Definition counts_ok (s : Store) (uses : Z -> nat) : Prop :=
  forall a,
    (is_Some (s_objects s !! a) <-> (0 < uses a)%nat) /\
    s_counts s !! a = (if Nat.eqb (uses a) 0 then None else Some (Z.of_nat (uses a))) /\
    Z.of_nat (uses a) < 2 ^ 31 - 1.

(** The contribution of one variable to the number of uses. *)
Definition points (p : option Z) (a : Z) : nat := if decide (p = Some a) then 1 else 0.

Lemma points_none a : points None a = 0%nat.
Proof. unfold points. by rewrite decide_False. Qed.

Lemma points_self a : points (Some a) a = 1%nat.
Proof. unfold points. by rewrite decide_True. Qed.

Lemma points_other a b : a <> b -> points (Some a) b = 0%nat.
Proof. intros. unfold points. rewrite decide_False by congruence. done. Qed.

Lemma points_pos p a : (0 < points p a)%nat -> p = Some a.
Proof. unfold points. destruct (decide (p = Some a)); [done|lia]. Qed.

Lemma counts_ok_ext s u u' : (forall a, u a = u' a) -> counts_ok s u -> counts_ok s u'.
Proof. intros H Hc a. rewrite <-H. apply Hc. Qed.

Lemma counts_ok_empty u : (forall a, u a = 0%nat) -> counts_ok (mkStore ∅ ∅) u.
Proof.
  intros Hu a. rewrite (Hu a). split_and!; [split; [intros [x Hx]; discriminate|lia]|done|done].
Qed.

Lemma counts_ok_alive s u a : counts_ok s u -> (0 < u a)%nat -> exists obj, s_objects s !! a = Some obj.
Proof. intros Hc H. destruct (Hc a) as [H1 _]. apply H1 in H as [obj E]. eauto. Qed.

Lemma counts_ok_dead s u a : counts_ok s u -> s_objects s !! a = None -> u a = 0%nat.
Proof.
  intros Hc E. destruct (Hc a) as [H1 _]. destruct (decide (u a = 0%nat)); [done|].
  destruct H1 as [_ H1]. destruct H1 as [x Hx]; [lia|congruence].
Qed.

Lemma construct_ok s u a obj :
  counts_ok s u -> s_objects s !! a = None ->
  counts_ok (construct a obj s) (fun b => u b + points (Some a) b)%nat.
Proof.
  intros Hc Ha b. pose proof (counts_ok_dead s u a Hc Ha) as H0. cbn.
  destruct (decide (a = b)) as [->|Hne].
  - rewrite points_self, H0, !lookup_insert_eq. cbn. split_and!; [|done|lia].
    split; [lia|eauto].
  - rewrite points_other, Nat.add_0_r, !lookup_insert_ne by done. apply Hc.
Qed.

Lemma use_ok s u p :
  counts_ok s u -> (forall a, p = Some a -> 0 < u a)%nat ->
  (forall a, p = Some a -> Z.of_nat (u a) < 2 ^ 31 - 2) ->
  exists s', use p s = Ok s' /\ s_objects s' = s_objects s /\
             counts_ok s' (fun b => u b + points p b)%nat.
Proof.
  intros Hc Hp Hb. destruct p as [a|]; cbn [use].
  - specialize (Hp a eq_refl). specialize (Hb a eq_refl). destruct (Hc a) as (H1 & H2 & H3).
    rewrite H2. destruct (Nat.eqb_spec (u a) 0); [lia|]. cbn. eexists. split; [done|]. split; [done|].
    intros b. cbn. rewrite s32_small by lia. destruct (decide (a = b)) as [->|Hne].
    + rewrite points_self, lookup_insert_eq. destruct (Nat.eqb_spec (u b + 1) 0); [lia|].
      split_and!; [|f_equal; lia|lia]. rewrite H1. lia.
    + rewrite points_other, Nat.add_0_r, lookup_insert_ne by done. apply Hc.
  - exists s. split_and!; [done|done|]. eapply counts_ok_ext; [|exact Hc]. intros; by rewrite points_none.
Qed.

(** What [use] and [release] do to the objects. *)
Lemma use_objects p s s' : use p s = Ok s' -> s_objects s' = s_objects s.
Proof.
  destruct p as [a|]; cbn [use]; [|by intros [= <-]]. destruct (s_counts s !! a); cbn; [|done]. by intros [= <-].
Qed.

Lemma release_objects p s dead s' :
  release p s = Ok (dead, s') -> s_objects s' = s_objects s \/ exists a, s_objects s' = delete a (s_objects s).
Proof.
  destruct p as [a|]; cbn [release]; [|by intros [= <- <-]; left].
  destruct (s_counts s !! a) as [n|]; cbn; [|done]. destruct (1 <? n); [by intros [= <- <-]; left|].
  destruct (s_objects s !! a); cbn; [|done]. intros [= <- <-]. right. by exists a.
Qed.

(** A copy that is made and dropped. *)
Lemma use_release s u p :
  counts_ok s u -> (forall a, p = Some a -> 0 < u a)%nat ->
  (forall a, p = Some a -> Z.of_nat (u a) < 2 ^ 31 - 2) ->
  exists s', use p s = Ok s' /\ release p s' = Ok (None, s).
Proof.
  intros Hc Hp Hb. destruct p as [a|]; [|by exists s]. specialize (Hp a eq_refl). specialize (Hb a eq_refl).
  destruct (Hc a) as (_ & H2 & _). destruct (Nat.eqb_spec (u a) 0); [lia|]. cbn [use]. rewrite H2. cbn.
  eexists. split; [done|]. cbn. rewrite lookup_insert_eq. cbn. rewrite s32_small by lia.
  destruct (Z.ltb_spec 1 (Z.of_nat (u a) + 1)); [|lia]. rewrite insert_insert_eq.
  replace (s32 (Z.of_nat (u a) + 1 - 1)) with (Z.of_nat (u a)) by (rewrite s32_small; lia).
  rewrite insert_id by done. by destruct s.
Qed.

(** The last variable that lets go deletes the object, no other one does. *)
Lemma release_ok s u p :
  counts_ok s (fun b => u b + points p b)%nat ->
  exists dead s', release p s = Ok (dead, s') /\ counts_ok s' u /\
    match p with
    | None => dead = None /\ s' = s
    | Some a =>
        if Nat.eqb (u a) 0 then dead = s_objects s !! a /\ s_objects s' = delete a (s_objects s)
        else dead = None /\ s_objects s' = s_objects s
    end.
Proof.
  intros Hc. destruct p as [a|]; cbn [release].
  - destruct (Hc a) as (H1 & H2 & H3). rewrite H2. rewrite points_self in *.
    destruct (Nat.eqb_spec (u a + 1) 0); [lia|]. cbn [from_option_or mbind result_bind].
    destruct (Nat.eqb_spec (u a) 0) as [E|E].
    + rewrite E in *. cbn. destruct H1 as [_ [obj Ho]]; [lia|]. rewrite Ho. cbn.
      eexists _, _. split; [done|]. split; [|done]. intros b. cbn. destruct (decide (a = b)) as [->|Hne].
      * rewrite E, !lookup_delete_eq. cbn. split_and!; [|done|lia]. split; [by intros []|lia].
      * rewrite !lookup_delete_ne by done. specialize (Hc b). cbv beta in Hc. by rewrite points_other, Nat.add_0_r in Hc.
    + destruct (Z.ltb_spec 1 (Z.of_nat (u a + 1))); [|lia].
      eexists _, _. split; [done|]. split; [|done]. intros b. cbn. rewrite s32_small by lia.
      destruct (decide (a = b)) as [->|Hne].
      * rewrite lookup_insert_eq. destruct (Nat.eqb_spec (u b) 0); [lia|].
        split_and!; [rewrite H1; lia|f_equal; lia|lia].
      * rewrite lookup_insert_ne by done. specialize (Hc b). cbv beta in Hc. by rewrite points_other, Nat.add_0_r in Hc.
  - eexists _, _. split; [done|]. split; [|done]. eapply counts_ok_ext; [|exact Hc].
    intros b; cbv beta; by rewrite points_none, Nat.add_0_r.
Qed.
End SmartPtr.
Arguments Store : clear implicits.
