(* ===== verification/NameSpace.v ===== *)
(** * Object names and share groups of the GL translator

    Models [src/emulator/opengl/host/libs/Translator/GLcommon/objectNameManager.cpp]
    and its header.  A context names its objects by local names; a [NameSpace]
    maps them to global names, which the host's GL library hands out; a
    [ShareGroup] has a name space for each type of object and data attached to
    objects; the [ObjectNameManager] finds share groups by name.  The mutexes make
    each method one step.

    - [genName_fresh]: a generated name is new, and the search for it ends.
    - [local_names_roundtrip]: local and global names are in bijection, as long as
      no global name is replaced.
    - [groups_live_while_used]: share groups and object data live exactly as long
      as they are referred to. *)
From S2P Require Import Prelude SmartPtr.

Local Open Scope Z_scope.

(** [NamedObjectType]: an enumeration whose last value is a bound. *)
Definition VERTEXBUFFER : Z := 0.
Definition TEXTURE : Z := 1.
Definition RENDERBUFFER : Z := 2.
Definition FRAMEBUFFER : Z := 3.
Definition SHADER : Z := 4.
Definition NUM_OBJECT_TYPES : Z := 5.

(** [std::map<ObjectLocalName, unsigned int>]. *)
Record NameSpace := mkNameSpace { m_nextName : Z; m_localToGlobalMap : gmap Z Z; m_type : Z }.

(** Object data are addresses of objects of other classes. *)
Record ShareGroup := mkShareGroup {
  m_nameSpace : list NameSpace;
  m_objectsData : option (gmap (Z * Z) (option Z))
}.

(** [m_groups] only ever gets a key that it does not have. *)
Record ObjectNameManager := mkManager { m_groups : gmap Z (option Z) }.

(** The objects of the process: the share groups and the object data, by address,
    the next free address, and how many names the GL library has given out. *)
Record Objects := mkObjects {
  o_groups : Store ShareGroup;
  o_data : Store Z;
  o_next : Z;
  o_calls : nat
}.

Definition set_groups (s : Store ShareGroup) (o : Objects) := mkObjects s (o_data o) (o_next o) (o_calls o).
Definition set_data (s : Store Z) (o : Objects) := mkObjects (o_groups o) s (o_next o) (o_calls o).

Section Names.
(** The name that the GL library gives in its [n]th call, for a type of object. *)
Variable host : Z -> nat -> Z.

(** ** class GlobalNameSpace *)

Definition global_genName (p_type : Z) (o : Objects) : Z * Objects :=
  if NUM_OBJECT_TYPES <=? p_type then (0, o)
  else if (p_type =? VERTEXBUFFER) || (p_type =? TEXTURE) || (p_type =? RENDERBUFFER)
          || (p_type =? FRAMEBUFFER)
  then (host p_type (o_calls o), mkObjects (o_groups o) (o_data o) (o_next o) (S (o_calls o)))
  else (0, o).

(** The body is empty: names are never given back to the GL library. *)
Definition global_deleteName (p_type p_name : Z) (o : Objects) : Objects := o.

(** ** class NameSpace *)

Definition new_NameSpace (p_type : Z) : NameSpace := mkNameSpace 0 ∅ p_type.

Definition gen_local (fuel : nat) (next : Z) (m : gmap Z Z) : result Z :=
  next_free (2 ^ 64) (fun localName => (localName =? 0) || bool_decide (is_Some (m !! localName))) fuel next.

Definition gen_fuel (m : gmap Z Z) : nat := size m + 2.

Definition genName (ns : NameSpace) (p_localName : Z) (genGlobal genLocal : bool) (o : Objects)
  : result (Z * NameSpace * Objects) :=
  '(localName, next) ←
    (if genLocal
     then n ← gen_local (gen_fuel (m_localToGlobalMap ns)) (m_nextName ns) (m_localToGlobalMap ns);
          Ok (n, n)
     else Ok (p_localName, m_nextName ns));
  if genGlobal then
    let '(globalName, o) := global_genName (m_type ns) o in
    Ok (localName, mkNameSpace next (<[localName := globalName]> (m_localToGlobalMap ns)) (m_type ns), o)
  else Ok (localName, mkNameSpace next (m_localToGlobalMap ns) (m_type ns), o).

Definition getGlobalName (ns : NameSpace) (p_localName : Z) : Z :=
  match m_localToGlobalMap ns !! p_localName with Some g => g | None => 0 end.

(** The map is traversed in the order of its keys: the least one is found. *)
Definition least (a : Z) (acc : option Z) : option Z :=
  match acc with Some b => Some (Z.min a b) | None => Some a end.

Definition getLocalName (ns : NameSpace) (p_globalName : Z) : Z :=
  match map_fold (fun l g acc => if g =? p_globalName then least l acc else acc) None
          (m_localToGlobalMap ns) with
  | Some l => l
  | None => 0
  end.

Definition deleteName (ns : NameSpace) (p_localName : Z) (o : Objects) : NameSpace * Objects :=
  match m_localToGlobalMap ns !! p_localName with
  | Some g => (mkNameSpace (m_nextName ns) (delete p_localName (m_localToGlobalMap ns)) (m_type ns),
               global_deleteName (m_type ns) g o)
  | None => (ns, o)
  end.

Definition isObject (ns : NameSpace) (p_localName : Z) : bool :=
  bool_decide (is_Some (m_localToGlobalMap ns !! p_localName)).

Definition replaceGlobalName (ns : NameSpace) (p_localName p_globalName : Z) (o : Objects)
  : NameSpace * Objects :=
  match m_localToGlobalMap ns !! p_localName with
  | Some g => (mkNameSpace (m_nextName ns) (<[p_localName := p_globalName]> (m_localToGlobalMap ns))
                 (m_type ns), global_deleteName (m_type ns) g o)
  | None => (ns, o)
  end.

(** ** class ShareGroup *)

Definition new_ShareGroup : ShareGroup :=
  mkShareGroup (map (fun i => new_NameSpace i) (seqZ 0 NUM_OBJECT_TYPES)) None.

Definition name_space (g : ShareGroup) (p_type : Z) : result NameSpace :=
  if p_type <? 0 then Err OutOfBounds else get (m_nameSpace g) (Z.to_nat p_type).

Definition set_name_space (p_type : Z) (ns : NameSpace) (g : ShareGroup) : ShareGroup :=
  mkShareGroup (<[Z.to_nat p_type := ns]> (m_nameSpace g)) (m_objectsData g).

(** The object data that a pointer lets go of: its class has a destructor of its own. *)
Definition drop_data (p : option Z) (o : Objects) : result Objects :=
  '(_, s) ← release p (o_data o); Ok (set_data s o).

(** The destructor: the name spaces, then the map with its pointers. *)
Definition delete_ShareGroup (g : ShareGroup) (o : Objects) : result Objects :=
  match m_objectsData g with
  | None => Ok o
  | Some m => foldM (fun o '(_, p) => drop_data p o) o (map_to_list m)
  end.

(** [~ShareGroupPtr]. *)
Definition drop_group (p : option Z) (o : Objects) : result Objects :=
  '(dead, s) ← release p (o_groups o);
  match dead with
  | Some g => delete_ShareGroup g (set_groups s o)
  | None => Ok (set_groups s o)
  end.

(** A method of the share group that [p] points to. *)
Definition group (p : option Z) (o : Objects) : result ShareGroup := arrow p (o_groups o).
Definition put_group (p : option Z) (g : ShareGroup) (o : Objects) : result Objects :=
  s ← put_object p g (o_groups o); Ok (set_groups s o).

Definition sg_genName (p : option Z) (p_type p_localName : Z) (genLocal : bool) (o : Objects)
  : result (Z * Objects) :=
  if NUM_OBJECT_TYPES <=? p_type then Ok (0, o)
  else
    g ← group p o; ns ← name_space g p_type;
    '(localName, ns, o) ← genName ns p_localName true genLocal o;
    o ← put_group p (set_name_space p_type ns g) o;
    Ok (localName, o).

Definition sg_genGlobalName (p : option Z) (p_type : Z) (o : Objects) : result (Z * Objects) :=
  if NUM_OBJECT_TYPES <=? p_type then Ok (0, o)
  else
    g ← group p o; ns ← name_space g p_type;
    Ok (global_genName (m_type ns) o).

Definition sg_getGlobalName (p : option Z) (p_type p_localName : Z) (o : Objects) : result Z :=
  if NUM_OBJECT_TYPES <=? p_type then Ok 0
  else g ← group p o; ns ← name_space g p_type; Ok (getGlobalName ns p_localName).

Definition sg_getLocalName (p : option Z) (p_type p_globalName : Z) (o : Objects) : result Z :=
  if NUM_OBJECT_TYPES <=? p_type then Ok 0
  else g ← group p o; ns ← name_space g p_type; Ok (getLocalName ns p_globalName).

(** [map->erase(id)]: the entry is unlinked, then its pointer is destroyed. *)
Definition erase_data (id : Z * Z) (g : ShareGroup) : ShareGroup * option Z :=
  match m_objectsData g with
  | None => (g, None)
  | Some m =>
      match m !! id with
      | None => (g, None)
      | Some p => (mkShareGroup (m_nameSpace g) (Some (delete id m)), p)
      end
  end.

Definition sg_deleteName (p : option Z) (p_type p_localName : Z) (o : Objects) : result Objects :=
  if NUM_OBJECT_TYPES <=? p_type then Ok o
  else
    g ← group p o; ns ← name_space g p_type;
    let '(ns, o) := deleteName ns p_localName o in
    let '(g, d) := erase_data (p_type, p_localName) (set_name_space p_type ns g) in
    o ← put_group p g o;
    drop_data d o.

Definition sg_isObject (p : option Z) (p_type p_localName : Z) (o : Objects) : result bool :=
  if NUM_OBJECT_TYPES <=? p_type then Ok false
  else g ← group p o; ns ← name_space g p_type; Ok (isObject ns p_localName).

Definition sg_replaceGlobalName (p : option Z) (p_type p_localName p_globalName : Z) (o : Objects)
  : result Objects :=
  if NUM_OBJECT_TYPES <=? p_type then Ok o
  else
    g ← group p o; ns ← name_space g p_type;
    let '(ns, o) := replaceGlobalName ns p_localName p_globalName o in
    put_group p (set_name_space p_type ns g) o.

(** [insert] does nothing when the object already has data.  The pair holds a
    copy of [data]; the copy in the map is made from it. *)
Definition sg_setObjectData (p : option Z) (p_type p_localName : Z) (data : option Z) (o : Objects)
  : result Objects :=
  if NUM_OBJECT_TYPES <=? p_type then Ok o
  else
    g ← group p o;
    let m := default ∅ (m_objectsData g) in
    let id := (p_type, p_localName) in
    match m !! id with
    | Some _ => put_group p (mkShareGroup (m_nameSpace g) (Some m)) o
    | None =>
        s ← use data (o_data o);
        put_group p (mkShareGroup (m_nameSpace g) (Some (<[id := data]> m))) (set_data s o)
    end.

(** The answer is a pointer of the caller. *)
Definition sg_getObjectData (p : option Z) (p_type p_localName : Z) (o : Objects)
  : result (option Z * Objects) :=
  if NUM_OBJECT_TYPES <=? p_type then Ok (None, o)
  else
    g ← group p o;
    match m_objectsData g ≫= (fun m => m !! (p_type, p_localName)) with
    | Some d => s ← use d (o_data o); Ok (d, set_data s o)
    | None => Ok (None, o)
    end.

(** ** class ObjectNameManager *)

Definition new_manager : ObjectNameManager := mkManager ∅.

(** A copy of the pointer for the caller. *)
Definition hand_out (p : option Z) (o : Objects) : result Objects :=
  s ← use p (o_groups o); Ok (set_groups s o).

Definition createShareGroup (p_groupName : Z) (m : ObjectNameManager) (o : Objects)
  : result (option Z * ObjectNameManager * Objects) :=
  match m_groups m !! p_groupName with
  | Some p => o ← hand_out p o; Ok (p, m, o)
  | None =>
      let a := o_next o in
      let o := mkObjects (construct a new_ShareGroup (o_groups o)) (o_data o) (a + 1) (o_calls o) in
      o ← hand_out (Some a) o;
      Ok (Some a, mkManager (<[p_groupName := Some a]> (m_groups m)), o)
  end.

Definition getShareGroup (p_groupName : Z) (m : ObjectNameManager) (o : Objects)
  : result (option Z * Objects) :=
  match m_groups m !! p_groupName with
  | Some p => o ← hand_out p o; Ok (p, o)
  | None => Ok (None, o)
  end.

Definition attachShareGroup (p_groupName p_existingGroupName : Z) (m : ObjectNameManager)
  (o : Objects) : result (option Z * ObjectNameManager * Objects) :=
  match m_groups m !! p_existingGroupName with
  | None => Ok (None, m, o)
  | Some p =>
      o ← hand_out p o;
      match m_groups m !! p_groupName with
      | None => o ← hand_out p o; Ok (p, mkManager (<[p_groupName := p]> (m_groups m)), o)
      | Some _ => Ok (p, m, o)
      end
  end.

Definition deleteShareGroup (p_groupName : Z) (m : ObjectNameManager) (o : Objects)
  : result (ObjectNameManager * Objects) :=
  match m_groups m !! p_groupName with
  | None => Ok (m, o)
  | Some p => o ← drop_group p o; Ok (mkManager (delete p_groupName (m_groups m)), o)
  end.

(** The first key of the map. *)
Definition getGlobalContext (m : ObjectNameManager) : option Z :=
  map_fold (fun name _ acc => least name acc) None (m_groups m).

(** ** The clients

    Contexts hold a share group each ([GLEScontext::m_shareGroup]). *)
Record Client := mkClient {
  cl_manager : ObjectNameManager;
  cl_contexts : gmap Z (option Z);
  cl_objects : Objects
}.

Inductive client_op :=
  | CreateContext (c name : Z)              (** [setShareGroup(createShareGroup(name))] *)
  | ShareContext (c name existing : Z)      (** [setShareGroup(attachShareGroup(...))] *)
  | DestroyContext (c : Z)
  | DeleteGroupName (name : Z)
  | GenName (c : Z) (t : nat) (l : Z) (genLocal : bool)
  | DeleteName (c : Z) (t : nat) (l : Z)
  | ReplaceName (c : Z) (t : nat) (l g : Z)
  | SetData (c : Z) (t : nat) (l : Z)       (** with a new object *)
  | GetData (c : Z) (t : nat) (l : Z).      (** the pointer is dropped after use *)

(** A call through the share group of a context, if it has one. *)
Definition through (c : Z) (s : Client) (f : option Z -> Objects -> result Objects) : result Client :=
  match cl_contexts s !! c with
  | Some (Some a) =>
      o ← f (Some a) (cl_objects s); Ok (mkClient (cl_manager s) (cl_contexts s) o)
  | _ => Ok s
  end.

Definition client_step (s : Client) (op : client_op) : result Client :=
  let o := cl_objects s in
  match op with
  | CreateContext c name =>
      match cl_contexts s !! c with
      | Some _ => Ok s
      | None =>
          '(p, m, o) ← createShareGroup name (cl_manager s) o;
          Ok (mkClient m (<[c := p]> (cl_contexts s)) o)
      end
  | ShareContext c name existing =>
      match cl_contexts s !! c with
      | Some _ => Ok s
      | None =>
          '(p, m, o) ← attachShareGroup name existing (cl_manager s) o;
          Ok (mkClient m (<[c := p]> (cl_contexts s)) o)
      end
  | DestroyContext c =>
      match cl_contexts s !! c with
      | None => Ok s
      | Some p => o ← drop_group p o; Ok (mkClient (cl_manager s) (delete c (cl_contexts s)) o)
      end
  | DeleteGroupName name =>
      '(m, o) ← deleteShareGroup name (cl_manager s) o; Ok (mkClient m (cl_contexts s) o)
  | GenName c t l genLocal => through c s (fun p o => snd <$> sg_genName p (Z.of_nat t) l genLocal o)
  | DeleteName c t l => through c s (fun p o => sg_deleteName p (Z.of_nat t) l o)
  | ReplaceName c t l g => through c s (fun p o => sg_replaceGlobalName p (Z.of_nat t) l g o)
  | SetData c t l =>
      through c s (fun p o =>
        let d := o_next o in
        let o := mkObjects (o_groups o) (construct d 0 (o_data o)) (d + 1) (o_calls o) in
        o ← sg_setObjectData p (Z.of_nat t) l (Some d) o;
        drop_data (Some d) o)
  | GetData c t l =>
      through c s (fun p o => '(d, o) ← sg_getObjectData p (Z.of_nat t) l o; drop_data d o)
  end.

Definition init_client : Client := mkClient new_manager ∅ (mkObjects (mkStore ∅ ∅) (mkStore ∅ ∅) 1 0).

(** ** A generated name is new *)

Lemma gen_local_ok next m :
  Z.of_nat (size m) + 2 <= 2 ^ 64 ->
  exists l, gen_local (gen_fuel m) next m = Ok l /\ 0 < l < 2 ^ 64 /\ m !! l = None.
Proof.
  intros Hsz. unfold gen_local, gen_fuel.
  destruct (next_free_ok (2 ^ 64) (fun l => (l =? 0) || bool_decide (is_Some (m !! l))) (size m + 2) next
              (0 :: (map_to_list m).*1)) as (l & E & Ht & Hl).
  - lia.
  - cbn [length]. rewrite length_fmap, length_map_to_list. lia.
  - intros n Hn. apply orb_true_iff in Hn as [Hn|Hn]; [apply Z.eqb_eq in Hn; subst; by left|right].
    apply bool_decide_eq_true in Hn as [g Hg]. apply list_elem_of_fmap. exists (n, g).
    split; [done|by apply elem_of_map_to_list].
  - exists l. split; [exact E|]. apply orb_false_iff in Ht as [H1 H2]. apply Z.eqb_neq in H1.
    apply bool_decide_eq_false in H2. split; [lia|]. destruct (m !! l) eqn:El; [|done].
    destruct H2; eauto.
Qed.


(** A name that the translator makes up for a new object is not 0 and not in
    use, the search for it ends even when the counter has wrapped around, and
    exactly this name gets the next global name. *)
Theorem genName_fresh ns p_localName o :
  Z.of_nat (size (m_localToGlobalMap ns)) + 2 <= 2 ^ 64 -> 0 <= m_type ns < SHADER ->
  exists l ns' o',
    genName ns p_localName true true o = Ok (l, ns', o') /\
    0 < l < 2 ^ 64 /\ m_localToGlobalMap ns !! l = None /\
    m_localToGlobalMap ns' = <[l := host (m_type ns) (o_calls o)]> (m_localToGlobalMap ns) /\
    o_calls o' = S (o_calls o) /\ isObject ns' l = true /\ isObject ns l = false.
Proof.
  intros Hsz Ht. destruct (gen_local_ok (m_nextName ns) _ Hsz) as (l & E & Hl & Hm).
  unfold genName, global_genName. rewrite E. cbn [mbind result_bind].
  unfold SHADER in Ht. unfold NUM_OBJECT_TYPES. destruct (Z.leb_spec 5 (m_type ns)); [lia|].
  replace ((m_type ns =? VERTEXBUFFER) || (m_type ns =? TEXTURE) || (m_type ns =? RENDERBUFFER)
           || (m_type ns =? FRAMEBUFFER)) with true.
  2:{ symmetry. rewrite !orb_true_iff, !Z.eqb_eq. unfold VERTEXBUFFER, TEXTURE, RENDERBUFFER, FRAMEBUFFER. lia. }
  eexists l, _, _. split_and!; [done|lia|lia|done|done|done| |].
  - unfold isObject. cbn. rewrite lookup_insert_eq. by apply bool_decide_eq_true_2; eauto.
  - unfold isObject. rewrite Hm. apply bool_decide_eq_false_2. by intros [].
Qed.

(** ** Well-formed name spaces *)

(** The names of a type are those that the GL library gave out for it, each once. *)
Definition good_names (t : Z) (calls : nat) (m : gmap Z Z) : Prop :=
  (forall l g, m !! l = Some g -> exists i, (i < calls)%nat /\ g = host t i) /\
  (forall l l' g, m !! l = Some g -> m !! l' = Some g -> l = l').

Definition fresh_names : Prop := forall t i j, host t i = host t j -> i = j.

Lemma good_names_insert t calls m l :
  fresh_names -> good_names t calls m -> good_names t (S calls) (<[l := host t calls]> m).
Proof.
  intros host_fresh [H1 H2]. split.
  - intros l' g. rewrite lookup_insert_Some. intros [[_ <-]|[_ Hg]]; [exists calls; auto|].
    destruct (H1 l' g Hg) as (i & Hi & ->). exists i. auto.
  - intros l1 l2 g. rewrite !lookup_insert_Some. intros [[<- Ha]|[_ Ha]] [[<- Hb]|[_ Hb]]; try done.
    + destruct (H1 l2 g Hb) as (i & Hi & E). rewrite <-Ha in E. apply host_fresh in E. lia.
    + destruct (H1 l1 g Ha) as (i & Hi & E). rewrite <-Hb in E. apply host_fresh in E. lia.
    + by apply (H2 l1 l2 g).
Qed.

Lemma good_names_delete t calls m l : good_names t calls m -> good_names t calls (delete l m).
Proof.
  intros [H1 H2]. split.
  - intros l' g Hg. apply lookup_delete_Some in Hg as [_ Hg]. by apply (H1 l').
  - intros l1 l2 g Ha Hb. apply lookup_delete_Some in Ha as [_ Ha]. apply lookup_delete_Some in Hb as [_ Hb].
    by apply (H2 l1 l2 g).
Qed.

Lemma good_names_mono t calls calls' m : (calls <= calls')%nat -> good_names t calls m -> good_names t calls' m.
Proof.
  intros Hc [H1 H2]. split; [|done]. intros l g Hg. destruct (H1 l g Hg) as (i & Hi & E).
  exists i. split; [lia|done].
Qed.

Lemma least_if_comm (b b' : bool) l l' acc :
  (if b then least l (if b' then least l' acc else acc) else if b' then least l' acc else acc) =
  (if b' then least l' (if b then least l acc else acc) else if b then least l acc else acc).
Proof. destruct b, b', acc; cbn; try done; f_equal; lia. Qed.

(** With one local name for a global name, the search finds it. *)
Lemma getLocalName_found ns l g :
  m_localToGlobalMap ns !! l = Some g ->
  (forall l', m_localToGlobalMap ns !! l' = Some g -> l' = l) -> getLocalName ns g = l.
Proof.
  intros Hg Hu. unfold getLocalName.
  assert (H : forall m, (forall l', m !! l' = Some g -> l' = l) ->
            map_fold (fun l g' acc => if g' =? g then least l acc else acc) None m =
            if bool_decide (m !! l = Some g) then Some l else None).
  { intros m. induction m as [|k v m Hk IH] using map_ind; intros Hm.
    - rewrite map_fold_empty. by rewrite bool_decide_false.
    - rewrite map_fold_insert_L; [|intros; apply least_if_comm|done]. rewrite IH; clear IH.
      2:{ intros l' H. apply Hm. rewrite lookup_insert_ne; [done|]. intros ->. congruence. }
      destruct (decide (k = l)) as [->|Hne].
      + rewrite lookup_insert_eq, Hk. rewrite (bool_decide_eq_false_2 (None = Some g)) by done.
        destruct (Z.eqb_spec v g) as [->|Hv]; cbn.
        * by rewrite bool_decide_eq_true_2.
        * rewrite bool_decide_eq_false_2; [done|congruence].
      + rewrite lookup_insert_ne by done. destruct (Z.eqb_spec v g) as [->|Hv]; [|done].
        exfalso. apply Hne. apply Hm. by rewrite lookup_insert_eq. }
  rewrite H by done. by rewrite bool_decide_eq_true_2.
Qed.

Lemma good_names_roundtrip t calls ns l :
  (forall t i, host t i <> 0) -> good_names t calls (m_localToGlobalMap ns) -> isObject ns l = true ->
  getGlobalName ns l <> 0 /\ getLocalName ns (getGlobalName ns l) = l.
Proof.
  intros host_nonzero [H1 H2] Ho. unfold isObject in Ho. apply bool_decide_eq_true in Ho as [g Hg].
  unfold getGlobalName. rewrite Hg. split.
  - destruct (H1 l g Hg) as (i & _ & ->). apply host_nonzero.
  - apply getLocalName_found; [done|]. intros l' Hl'. by apply (H2 l' l g).
Qed.

(** ** The invariant

    [gu] and [du] count the pointers to groups and to data that are variables of
    the clients; [nr] says that no global name is replaced; [K] bounds all counts. *)
Definition data_uses (g : ShareGroup) (d : Z) : nat :=
  match m_objectsData g with None => 0 | Some m => sum_map (fun p => points p d) m end.

Definition wf_space (nr : Prop) (K calls t : nat) (ns : NameSpace) : Prop :=
  m_type ns = Z.of_nat t /\ (size (m_localToGlobalMap ns) <= K)%nat /\
  (nr -> fresh_names -> (t < 4)%nat -> good_names (Z.of_nat t) calls (m_localToGlobalMap ns)).

Definition wf_group (nr : Prop) (K calls : nat) (g : ShareGroup) : Prop :=
  length (m_nameSpace g) = 5%nat /\
  forall t ns, m_nameSpace g !! t = Some ns -> wf_space nr K calls t ns.

Record OInv (nr : Prop) (K : nat) (gu du : Z -> nat) (o : Objects) : Prop := {
  oi_groups : counts_ok (o_groups o) gu;
  oi_data : counts_ok (o_data o)
              (fun d => sum_map (fun g => data_uses g d) (s_objects (o_groups o)) + du d)%nat;
  oi_next : forall a, o_next o <= a ->
              s_objects (o_groups o) !! a = None /\ s_objects (o_data o) !! a = None;
  oi_wf : forall a g, s_objects (o_groups o) !! a = Some g -> wf_group nr K (o_calls o) g;
  oi_bound : (forall a, (gu a <= K)%nat) /\
             (forall d, (sum_map (fun g => data_uses g d) (s_objects (o_groups o)) + du d <= K)%nat)
}.

Definition small (K : nat) : Prop := Z.of_nat K < 2 ^ 31 - 8.

Lemma wf_space_mono nr K K' calls calls' t ns :
  (K <= K')%nat -> (calls <= calls')%nat -> wf_space nr K calls t ns -> wf_space nr K' calls' t ns.
Proof.
  intros HK Hc (H1 & H2 & H3). split_and!; [done|lia|]. intros Hn Hf Ht.
  eapply good_names_mono; [exact Hc|by apply H3].
Qed.

Lemma wf_group_mono nr K K' calls calls' g :
  (K <= K')%nat -> (calls <= calls')%nat -> wf_group nr K calls g -> wf_group nr K' calls' g.
Proof.
  intros HK Hc [H1 H2]. split; [done|]. intros t ns Hns. eapply wf_space_mono; [done|done|by apply H2].
Qed.

Lemma OInv_mono nr K K' gu du o : (K <= K')%nat -> OInv nr K gu du o -> OInv nr K' gu du o.
Proof.
  intros HK [H1 H2 H3 H4 [H5 H6]]. split; try done.
  - intros a g Hg. eapply wf_group_mono; [exact HK|done|by apply (H4 a)].
  - split; [intros a; specialize (H5 a)|intros d; specialize (H6 d)]; lia.
Qed.

Lemma OInv_ext nr K gu gu' du du' o :
  (forall a, gu a = gu' a) -> (forall d, du d = du' d) -> OInv nr K gu du o -> OInv nr K gu' du' o.
Proof.
  intros Hg Hd [H1 H2 H3 H4 [H5 H6]]. split; try done.
  - by eapply counts_ok_ext.
  - eapply counts_ok_ext; [|exact H2]. intros d. cbn. by rewrite Hd.
  - split; intros a; [rewrite <-Hg|rewrite <-Hd]; auto.
Qed.

(** ** Pointers taken and let go *)

Lemma hand_out_ok nr K gu du o p :
  OInv nr K gu du o -> small K -> (forall a, p = Some a -> 0 < gu a)%nat ->
  exists o', hand_out p o = Ok o' /\ OInv nr (S K) (fun a => gu a + points p a)%nat du o'.
Proof.
  intros [H1 H2 H3 H4 [H5 H6]] HK Hp. unfold small in HK.
  destruct (use_ok (o_groups o) gu p H1 Hp) as (s & E & Eo & Hc).
  { intros a _. specialize (H5 a). lia. }
  unfold hand_out. rewrite E. cbn [mbind result_bind]. eexists. split; [done|].
  split; cbn [set_groups o_groups o_data o_next o_calls]; rewrite ?Eo; try done.
  - intros a g Hg. eapply wf_group_mono; [|done|by apply (H4 a)]. lia.
  - split; [intros a; specialize (H5 a); unfold points; destruct (decide _)|intros d; specialize (H6 d)]; lia.
Qed.

Lemma drop_data_ok nr K gu du o p :
  OInv nr K gu (fun d => du d + points p d)%nat o ->
  exists o', drop_data p o = Ok o' /\ OInv nr K gu du o' /\
             o_groups o' = o_groups o /\ o_calls o' = o_calls o.
Proof.
  intros [H1 H2 H3 H4 [H5 H6]].
  destruct (release_ok (o_data o)
              (fun d => sum_map (fun g => data_uses g d) (s_objects (o_groups o)) + du d)%nat p)
    as (dead & s & E & Hc & Hs).
  { eapply counts_ok_ext; [|exact H2]. intros d. cbn. lia. }
  unfold drop_data. rewrite E. cbn [mbind result_bind]. eexists. split; [done|]. split; [|done].
  split; cbn [set_data o_groups o_data o_next o_calls]; try done.
  - intros a Ha. destruct (H3 a Ha) as [Ha1 Ha2]. split; [done|].
    destruct p as [b|]; [|by destruct Hs as [_ ->]].
    destruct (Nat.eqb _ 0); destruct Hs as [_ ->]; [|done]. rewrite lookup_delete_None. auto.
  - split; [done|]. intros d. specialize (H6 d). cbn in H6. lia.
Qed.

Definition list_uses (l : list (Z * Z * option Z)) (d : Z) : nat :=
  foldr (fun '(_, p) n => points p d + n)%nat 0%nat l.

Lemma drop_list_ok nr K gu du l o :
  OInv nr K gu (fun d => du d + list_uses l d)%nat o ->
  exists o', foldM (fun o '(_, p) => drop_data p o) o l = Ok o' /\ OInv nr K gu du o'.
Proof.
  revert o. induction l as [|[id p] l IH]; intros o HI; cbn [foldM].
  - exists o. split; [done|]. eapply OInv_ext; [done| |exact HI]. intros d. cbn. lia.
  - destruct (drop_data_ok nr K gu (fun d => du d + list_uses l d)%nat o p) as (o1 & -> & H1 & _ & _).
    { eapply OInv_ext; [done| |exact HI]. intros d. cbv beta. change (list_uses ((id, p) :: l) d) with (points p d + list_uses l d)%nat. lia. }
    cbn [mbind result_bind]. by apply IH.
Qed.

Lemma data_uses_list g m d : m_objectsData g = Some m -> data_uses g d = list_uses (map_to_list m) d.
Proof.
  intros E. unfold data_uses. rewrite E. unfold sum_map. rewrite map_fold_foldr. unfold list_uses.
  induction (map_to_list m) as [|[k v] l IH]; cbn; [done|]. by rewrite IH.
Qed.

Lemma drop_group_ok nr K gu du o p :
  OInv nr K (fun a => gu a + points p a)%nat du o ->
  exists o', drop_group p o = Ok o' /\ OInv nr K gu du o'.
Proof.
  intros [H1 H2 H3 H4 [H5 H6]]. destruct (release_ok (o_groups o) gu p H1) as (dead & s & E & Hc & Hs).
  assert (Hgu : forall a, (gu a <= K)%nat) by (intros a; specialize (H5 a); cbn in H5; lia).
  unfold drop_group. rewrite E. cbn [mbind result_bind].
  destruct p as [a|].
  2:{ destruct Hs as [-> ->]. eexists. split; [done|]. split; try done. }
  destruct (Nat.eqb_spec (gu a) 0) as [Ez|Ez]; destruct Hs as [-> Es].
  2:{ eexists. split; [done|]. split; cbn [set_groups o_groups o_data o_next o_calls]; rewrite ?Es; done. }
  destruct (counts_ok_alive _ _ a H1) as [g Hg]; [rewrite points_self; lia|]. rewrite Hg.
  assert (HI : OInv nr K gu (fun d => du d + data_uses g d)%nat (set_groups s o)).
  { split; cbn [set_groups o_groups o_data o_next o_calls]; rewrite ?Es; try done.
    - eapply counts_ok_ext; [|exact H2]. intros d. cbn.
      rewrite (sum_map_delete (fun g => data_uses g d) _ a g Hg). lia.
    - intros b Hb. destruct (H3 b Hb) as [Hb1 Hb2]. rewrite lookup_delete_None. auto.
    - intros b g' Hb. apply lookup_delete_Some in Hb as [_ Hb]. by apply (H4 b).
    - split; [done|]. intros d. specialize (H6 d). rewrite (sum_map_delete (fun g => data_uses g d) _ a g Hg) in H6. lia. }
  unfold delete_ShareGroup. destruct (m_objectsData g) as [m|] eqn:Em.
  - apply drop_list_ok. eapply OInv_ext; [done| |exact HI]. intros d. cbn. by rewrite (data_uses_list g m) by done.
  - eexists. split; [done|]. eapply OInv_ext; [done| |exact HI]. intros d. cbn. unfold data_uses. rewrite Em. lia.
Qed.

(** ** A share group changed *)

(** The group at [a] becomes [g']; pointers to data move between it and the clients. *)
Lemma put_group_ok nr K gu du du' o a g g' :
  OInv nr K gu du o -> s_objects (o_groups o) !! a = Some g -> wf_group nr K (o_calls o) g' ->
  (forall d, du' d + data_uses g' d = du d + data_uses g d)%nat ->
  exists o', put_group (Some a) g' o = Ok o' /\ OInv nr K gu du' o' /\
             s_objects (o_groups o') !! a = Some g'.
Proof.
  intros [H1 H2 H3 H4 [H5 H6]] Hg Hw Hd. unfold put_group, put_object, arrow.
  cbn [from_option_or mbind result_bind]. rewrite Hg. cbn [from_option_or mbind result_bind].
  eexists. split; [done|]. cbn [set_groups o_groups o_data o_next o_calls s_objects s_counts].
  assert (Hsum : forall d, (sum_map (fun g => data_uses g d) (<[a:=g']> (s_objects (o_groups o))) + du' d =
                            sum_map (fun g => data_uses g d) (s_objects (o_groups o)) + du d)%nat).
  { intros d. pose proof (sum_map_replace (fun g => data_uses g d) (s_objects (o_groups o)) a g g' Hg).
    cbv beta in H. specialize (Hd d). lia. }
  split; [|by rewrite lookup_insert_eq].
  split; cbn [set_groups o_groups o_data o_next o_calls s_objects s_counts].
  - intros b. destruct (H1 b) as (Hb1 & Hb2 & Hb3). split_and!; [|done|done].
    rewrite <-Hb1. cbn. destruct (decide (a = b)) as [->|]; [|by rewrite lookup_insert_ne].
    rewrite lookup_insert_eq, Hg. split; eauto.
  - eapply counts_ok_ext; [|exact H2]. intros d. cbv beta. by rewrite Hsum.
  - intros b Hb. destruct (H3 b Hb) as [Hb1 Hb2]. split; [|done].
    rewrite lookup_insert_ne; [done|]. intros ->. congruence.
  - intros b g0. rewrite lookup_insert_Some. intros [[_ <-]|[_ Hb]]; [done|by apply (H4 b)].
  - split; [done|]. intros d. rewrite Hsum. apply H6.
Qed.

Lemma alive nr K gu du o a : OInv nr K gu du o -> (0 < gu a)%nat ->
  exists g, s_objects (o_groups o) !! a = Some g /\ wf_group nr K (o_calls o) g.
Proof.
  intros HI Ha. destruct (counts_ok_alive _ _ a (oi_groups _ _ _ _ _ HI) Ha) as [g Hg].
  exists g. split; [done|]. by apply (oi_wf _ _ _ _ _ HI a).
Qed.

Lemma group_at a g o : s_objects (o_groups o) !! a = Some g -> group (Some a) o = Ok g.
Proof. intros Hg. unfold group, arrow. cbn. by rewrite Hg. Qed.

Lemma name_space_at nr K calls g (t : nat) :
  wf_group nr K calls g -> (t < 5)%nat ->
  exists ns, name_space g (Z.of_nat t) = Ok ns /\ m_nameSpace g !! t = Some ns /\
             wf_space nr K calls t ns.
Proof.
  intros [Hl Hw] Ht. destruct (lookup_lt_is_Some_2 (m_nameSpace g) t) as [ns Hns]; [lia|].
  exists ns. split; [|by auto]. unfold name_space. destruct (Z.ltb_spec (Z.of_nat t) 0); [lia|].
  unfold get. by rewrite Nat2Z.id, Hns.
Qed.

Lemma wf_set_name_space nr K calls g (t : nat) ns :
  wf_group nr K calls g -> (t < 5)%nat -> wf_space nr K calls t ns ->
  wf_group nr K calls (set_name_space (Z.of_nat t) ns g).
Proof.
  intros [Hl Hw] Ht Hns. split; cbn; [by rewrite length_insert|]. rewrite Nat2Z.id. intros t' ns'.
  rewrite list_lookup_insert_Some. intros [(<- & <- & _)|[_ H]]; [done|by apply Hw].
Qed.

Lemma guard_type (t : nat) : (t < 5)%nat -> (NUM_OBJECT_TYPES <=? Z.of_nat t) = false.
Proof. intros. unfold NUM_OBJECT_TYPES. apply Z.leb_gt. lia. Qed.

Lemma guard_type_out (t : nat) : ~ (t < 5)%nat -> (NUM_OBJECT_TYPES <=? Z.of_nat t) = true.
Proof. intros. unfold NUM_OBJECT_TYPES. apply Z.leb_le. lia. Qed.

(** The GL library is asked for a name of the types that it knows. *)
Lemma global_genName_cases (t : nat) o :
  (t < 5)%nat ->
  global_genName (Z.of_nat t) o =
  if Nat.ltb t 4 then (host (Z.of_nat t) (o_calls o),
                       mkObjects (o_groups o) (o_data o) (o_next o) (S (o_calls o)))
  else (0, o).
Proof. intros Ht. do 5 (destruct t as [|t]; [done|]). lia. Qed.

Lemma size_insert_le (m : gmap Z Z) l g : (size (<[l := g]> m) <= S (size m))%nat.
Proof.
  destruct (m !! l) eqn:E; [rewrite map_size_insert_Some by eauto; lia|].
  by rewrite map_size_insert_None.
Qed.

Lemma genName_ok nr K gu du o (t : nat) ns l genLocal :
  OInv nr K gu du o -> small K -> (t < 5)%nat -> wf_space nr K (o_calls o) t ns ->
  exists l' ns' o',
    genName ns l true genLocal o = Ok (l', ns', o') /\ OInv nr K gu du o' /\
    wf_space nr (S K) (o_calls o') t ns' /\ o_groups o' = o_groups o /\
    (o_calls o <= o_calls o')%nat.
Proof.
  intros HI HK Ht (W1 & W2 & W3). unfold genName.
  assert (HL : exists l' next, (if genLocal
     then n ← gen_local (gen_fuel (m_localToGlobalMap ns)) (m_nextName ns) (m_localToGlobalMap ns); Ok (n, n)
     else Ok (l, m_nextName ns)) = Ok (l', next)).
  { destruct genLocal; [|eauto]. destruct (gen_local_ok (m_nextName ns) (m_localToGlobalMap ns)) as (n & -> & _).
    - unfold small in HK. lia.
    - cbn. eauto. }
  destruct HL as (l' & next & ->). cbn [mbind result_bind]. rewrite W1, global_genName_cases by done.
  pose proof (size_insert_le (m_localToGlobalMap ns) l') as Hsz.
  destruct (Nat.ltb_spec t 4).
  - eexists _, _, _. split; [done|]. split_and!; [|split_and!| |]; cbn; try done.
    + destruct HI as [H1 H2 H3 H4 H5]. split; cbn; try done.
      intros a g Hg. apply (wf_group_mono nr K K (o_calls o)); [lia|lia|by apply (H4 a)].
    + specialize (Hsz (host (Z.of_nat t) (o_calls o))). lia.
    + intros Hn Hf Ht4. apply good_names_insert; [done|by apply W3].
    + lia.
  - eexists _, _, _. split; [done|]. split_and!; [done|split_and!|done|done]; cbn; try done.
    + specialize (Hsz 0). lia.
    + intros _ _ Ht4. lia.
Qed.

Lemma sg_genName_ok nr K gu du o a (t : nat) l genLocal :
  OInv nr K gu du o -> small K -> (0 < gu a)%nat ->
  exists l' o', sg_genName (Some a) (Z.of_nat t) l genLocal o = Ok (l', o') /\ OInv nr (S K) gu du o'.
Proof.
  intros HI HK Ha. unfold sg_genName. destruct (decide (t < 5)%nat) as [Ht|Ht].
  2:{ rewrite guard_type_out by done. eexists _, _. split; [done|]. eapply OInv_mono; [|exact HI]. lia. }
  rewrite guard_type by done. destruct (alive _ _ _ _ _ a HI Ha) as (g & Hg & Hw).
  rewrite (group_at a g) by done. cbn [mbind result_bind].
  destruct (name_space_at _ _ _ _ t Hw Ht) as (ns & -> & _ & Hns). cbn [mbind result_bind].
  destruct (genName_ok _ _ _ _ _ t ns l genLocal HI HK Ht Hns) as (l' & ns' & o1 & -> & HI1 & Hns' & Eg & Hc).
  cbn [mbind result_bind].
  destruct (put_group_ok nr (S K) gu du du o1 a g (set_name_space (Z.of_nat t) ns' g)) as (o2 & -> & HI2 & _).
  - eapply OInv_mono; [|exact HI1]. lia.
  - by rewrite Eg.
  - apply wf_set_name_space; [|done|done]. eapply wf_group_mono; [|exact Hc|exact Hw]. lia.
  - done.
  - cbn. eauto.
Qed.

Lemma wf_deleteName nr K calls t ns l o :
  wf_space nr K calls t ns -> (deleteName ns l o).2 = o /\ wf_space nr K calls t (deleteName ns l o).1.
Proof.
  intros (W1 & W2 & W3). unfold deleteName. destruct (_ !! l) as [g|] eqn:E; [|done].
  split; [done|]. split_and!; cbn; [done| |].
  - rewrite map_size_delete_Some by eauto. lia.
  - intros Hn Hf Ht. apply good_names_delete. by apply W3.
Qed.

Lemma sg_deleteName_ok nr K gu du o a (t : nat) l :
  OInv nr K gu du o -> (0 < gu a)%nat ->
  exists o', sg_deleteName (Some a) (Z.of_nat t) l o = Ok o' /\ OInv nr K gu du o'.
Proof.
  intros HI Ha. unfold sg_deleteName. destruct (decide (t < 5)%nat) as [Ht|Ht].
  2:{ rewrite guard_type_out by done. eauto. }
  rewrite guard_type by done. destruct (alive _ _ _ _ _ a HI Ha) as (g & Hg & Hw).
  rewrite (group_at a g) by done. cbn [mbind result_bind].
  destruct (name_space_at _ _ _ _ t Hw Ht) as (ns & -> & _ & Hns). cbn [mbind result_bind].
  destruct (wf_deleteName _ _ _ _ _ l o Hns) as [E Hns'].
  destruct (deleteName ns l o) as [ns' o1]. cbn in E, Hns'. subst o1.
  pose proof (wf_set_name_space _ _ _ _ t ns' Hw Ht Hns') as Hw'.
  set (g1 := set_name_space (Z.of_nat t) ns' g) in *.
  assert (He : exists g2 p, erase_data (Z.of_nat t, l) g1 = (g2, p) /\
            wf_group nr K (o_calls o) g2 /\ forall d, (data_uses g d = points p d + data_uses g2 d)%nat).
  { unfold erase_data. assert (Em : m_objectsData g1 = m_objectsData g) by done. rewrite Em.
    destruct (m_objectsData g) as [m|] eqn:Eg.
    - destruct (m !! (Z.of_nat t, l)) as [p|] eqn:Ep.
      + eexists _, _. split; [done|]. split; [done|]. intros d. unfold data_uses. rewrite Eg. cbn [m_objectsData].
        by apply (sum_map_delete (fun p => points p d)).
      + eexists _, _. split; [done|]. split; [done|]. intros d. unfold data_uses. rewrite Em, Eg, points_none. done.
    - eexists _, _. split; [done|]. split; [done|]. intros d. unfold data_uses. rewrite Em, Eg, points_none. done. }
  destruct He as (g2 & p & -> & Hw2 & Hd).
  destruct (put_group_ok nr K gu du (fun d => du d + points p d)%nat o a g g2 HI Hg Hw2) as (o1 & -> & HI1 & _).
  { intros d. specialize (Hd d). lia. }
  cbn [mbind result_bind]. destruct (drop_data_ok _ _ _ _ _ _ HI1) as (o2 & -> & HI2 & _). eauto.
Qed.

Lemma sg_replaceGlobalName_ok nr K gu du o a (t : nat) l x :
  OInv nr K gu du o -> ~ nr -> (0 < gu a)%nat ->
  exists o', sg_replaceGlobalName (Some a) (Z.of_nat t) l x o = Ok o' /\ OInv nr K gu du o'.
Proof.
  intros HI Hnr Ha. unfold sg_replaceGlobalName. destruct (decide (t < 5)%nat) as [Ht|Ht].
  2:{ rewrite guard_type_out by done. eauto. }
  rewrite guard_type by done. destruct (alive _ _ _ _ _ a HI Ha) as (g & Hg & Hw).
  rewrite (group_at a g) by done. cbn [mbind result_bind].
  destruct (name_space_at _ _ _ _ t Hw Ht) as (ns & -> & _ & Hns). cbn [mbind result_bind].
  assert (Hns' : exists ns', replaceGlobalName ns l x o = (ns', o) /\ wf_space nr K (o_calls o) t ns').
  { unfold replaceGlobalName. destruct (_ !! l) eqn:E; [|by eauto]. eexists. split; [done|].
    destruct Hns as (W1 & W2 & _). split_and!; cbn; [done| |done]. rewrite map_size_insert_Some by eauto. done. }
  destruct Hns' as (ns' & -> & Hns').
  destruct (put_group_ok nr K gu du du o a g (set_name_space (Z.of_nat t) ns' g) HI Hg) as (o1 & -> & HI1 & _);
    [by apply wf_set_name_space|done|eauto].
Qed.

(** A new object of data, held by the client. *)
Lemma construct_data_ok nr K gu du o :
  OInv nr K gu du o ->
  OInv nr (S K) gu (fun d => du d + points (Some (o_next o)) d)%nat
    (mkObjects (o_groups o) (construct (o_next o) 0 (o_data o)) (o_next o + 1) (o_calls o)).
Proof.
  intros [H1 H2 H3 H4 [H5 H6]]. destruct (H3 (o_next o)) as [_ Hn]; [lia|].
  split; cbn [o_groups o_data o_next o_calls]; try done.
  - eapply counts_ok_ext; [|exact (construct_ok _ _ (o_next o) 0 H2 Hn)]. intros d. cbn. lia.
  - intros a Ha. destruct (H3 a) as [Ha1 Ha2]; [lia|]. split; [done|]. cbn.
    rewrite lookup_insert_ne; [done|lia].
  - intros a g Hg. apply (wf_group_mono nr K (S K) (o_calls o)); [lia|lia|by apply (H4 a)].
  - split; [intros a; specialize (H5 a); lia|]. intros d. specialize (H6 d). unfold points. destruct (decide _); lia.
Qed.

(** ** Data attached and looked up *)

Lemma sg_setObjectData_ok nr K gu du o a (t : nat) l p :
  OInv nr K gu du o -> small K -> (0 < gu a)%nat -> (forall d, p = Some d -> 0 < du d)%nat ->
  exists o', sg_setObjectData (Some a) (Z.of_nat t) l p o = Ok o' /\ OInv nr (S K) gu du o'.
Proof.
  intros HI HK Ha Hp. assert (HI' : OInv nr (S K) gu du o) by (eapply OInv_mono; [|exact HI]; lia).
  unfold sg_setObjectData. destruct (decide (t < 5)%nat) as [Ht|Ht].
  2:{ rewrite guard_type_out by done. eauto. }
  rewrite guard_type by done. destruct (alive _ _ _ _ _ a HI Ha) as (g & Hg & Hw).
  rewrite (group_at a g) by done. cbn [mbind result_bind].
  assert (Hdu : forall d, data_uses g d = sum_map (fun p => points p d) (default ∅ (m_objectsData g))).
  { intros d. unfold data_uses. by destruct (m_objectsData g). }
  destruct (default ∅ (m_objectsData g) !! (Z.of_nat t, l)) as [q|] eqn:Eq.
  - destruct (put_group_ok nr (S K) gu du du o a g
                (mkShareGroup (m_nameSpace g) (Some (default ∅ (m_objectsData g)))) HI' Hg)
      as (o1 & -> & HI1 & _); [|intros d; rewrite Hdu; done|eauto].
    destruct Hw as [Hw1 Hw2]. split; [done|]. intros t' ns Hns. eapply wf_space_mono; [| |by apply Hw2]; lia.
  - destruct HI' as [H1 H2 H3 H4 [H5 H6]].
    destruct (use_ok _ _ p H2) as (s & E & Eo & Hc).
    + intros d Hd. specialize (Hp d Hd). lia.
    + intros d Hd. destruct HI as [_ _ _ _ [_ Hb]]. specialize (Hb d). unfold small in HK. lia.
    + rewrite E. cbn [mbind result_bind].
      assert (HI2 : OInv nr (S K) gu (fun d => du d + points p d)%nat (set_data s o)).
      { split; cbn [set_data o_groups o_data o_next o_calls]; try done.
        - eapply counts_ok_ext; [|exact Hc]. intros d. cbn. lia.
        - by rewrite Eo.
        - split; [done|]. intros d. destruct HI as [_ _ _ _ [_ Hb]]. specialize (Hb d).
          unfold points. destruct (decide _); lia. }
      destruct (put_group_ok nr (S K) gu _ du _ a g
                  (mkShareGroup (m_nameSpace g) (Some (<[(Z.of_nat t, l):=p]> (default ∅ (m_objectsData g)))))
                  HI2 Hg) as (o1 & -> & HI1 & _); [| |eauto].
      * destruct Hw as [Hw1 Hw2]. split; [done|]. intros t' ns Hns. eapply wf_space_mono; [| |by apply Hw2]; cbn; lia.
      * intros d. cbn [data_uses m_objectsData]. rewrite sum_map_insert by done. rewrite Hdu. lia.
Qed.

Lemma sg_getObjectData_ok nr K gu du o a (t : nat) l :
  OInv nr K gu du o -> small K -> (0 < gu a)%nat ->
  exists p o', sg_getObjectData (Some a) (Z.of_nat t) l o = Ok (p, o') /\
               OInv nr (S K) gu (fun d => du d + points p d)%nat o'.
Proof.
  intros HI HK Ha. assert (HI' : OInv nr (S K) gu du o) by (eapply OInv_mono; [|exact HI]; lia).
  assert (Hnone : exists p o', Ok (None, o) = Ok (p, o') /\ OInv nr (S K) gu (fun d => du d + points p d)%nat o').
  { eexists _, _. split; [done|]. eapply OInv_ext; [done| |exact HI']. intros d. cbn. by rewrite points_none, Nat.add_0_r. }
  unfold sg_getObjectData. destruct (decide (t < 5)%nat) as [Ht|Ht].
  2:{ by rewrite guard_type_out by done. }
  rewrite guard_type by done. destruct (alive _ _ _ _ _ a HI Ha) as (g & Hg & Hw).
  rewrite (group_at a g) by done. cbn [mbind result_bind].
  destruct (m_objectsData g) as [m|] eqn:Em; cbn [mbind option_bind]; [|done].
  destruct (m !! (Z.of_nat t, l)) as [p|] eqn:Ep; [|done].
  destruct HI as [H1 H2 H3 H4 [H5 H6]]. destruct (use_ok _ _ p H2) as (s & E & Eo & Hc).
  - intros d ->. pose proof (sum_map_lookup (fun p => points p d) m _ _ Ep) as Hl. cbv beta in Hl.
    rewrite points_self in Hl.
    pose proof (sum_map_lookup (fun g => data_uses g d) _ _ _ Hg) as Hl2. cbv beta in Hl2.
    unfold data_uses at 1 in Hl2. rewrite Em in Hl2. lia.
  - intros d _. specialize (H6 d). unfold small in HK. lia.
  - rewrite E. cbn [mbind result_bind]. eexists _, _. split; [done|].
    split; cbn [set_data o_groups o_data o_next o_calls]; try done.
    + eapply counts_ok_ext; [|exact Hc]. intros d. cbn. lia.
    + by rewrite Eo.
    + intros b g' Hb. apply (wf_group_mono nr K (S K) (o_calls o)); [lia|lia|by apply (H4 b)].
    + split; [intros b; specialize (H5 b); lia|]. intros d. specialize (H6 d). unfold points. destruct (decide _); lia.
Qed.

Lemma wf_new_group nr K calls : wf_group nr K calls new_ShareGroup.
Proof.
  split; [done|]. intros t ns. cbn. intros Hns.
  assert (Hx : ns = new_NameSpace (Z.of_nat t)).
  { do 5 (destruct t as [|t]; [cbn in Hns; by injection Hns as <-|]). done. }
  subst ns. split_and!; [done|cbn; rewrite map_size_empty; lia|].
  intros _ _ _. split; cbn; intros *; by rewrite lookup_empty.
Qed.

Lemma construct_group_ok nr K gu du o :
  OInv nr K gu du o ->
  OInv nr (S K) (fun a => gu a + points (Some (o_next o)) a)%nat du
    (mkObjects (construct (o_next o) new_ShareGroup (o_groups o)) (o_data o) (o_next o + 1) (o_calls o)).
Proof.
  intros [H1 H2 H3 H4 [H5 H6]]. destruct (H3 (o_next o)) as [Hn _]; [lia|].
  assert (Hs : forall d, sum_map (fun g => data_uses g d) (<[o_next o:=new_ShareGroup]> (s_objects (o_groups o))) =
                         sum_map (fun g => data_uses g d) (s_objects (o_groups o))).
  { intros d. by rewrite sum_map_insert by done. }
  split; cbn [o_groups o_data o_next o_calls]; try done.
  - by apply construct_ok.
  - eapply counts_ok_ext; [|exact H2]. intros d. cbn. by rewrite Hs.
  - intros a Ha. destruct (H3 a) as [Ha1 Ha2]; [lia|]. split; [|done]. cbn.
    rewrite lookup_insert_ne; [done|lia].
  - intros a g. cbn. rewrite lookup_insert_Some. intros [[_ <-]|[_ Hg]]; [apply wf_new_group|].
    apply (wf_group_mono nr K (S K) (o_calls o)); [lia|lia|by apply (H4 a)].
  - split; [intros a; specialize (H5 a); unfold points; destruct (decide _); lia|].
    intros d. specialize (H6 d). cbn. rewrite Hs. lia.
Qed.

(** The names and the contexts that refer to a group. *)
Definition group_uses (s : Client) (a : Z) : nat :=
  (sum_map (fun p => points p a) (m_groups (cl_manager s)) +
   sum_map (fun p => points p a) (cl_contexts s))%nat.

Definition Inv (nr : Prop) (K : nat) (s : Client) : Prop :=
  OInv nr K (group_uses s) (fun _ => 0%nat) (cl_objects s).

Definition replaces (op : client_op) : Prop := match op with ReplaceName _ _ _ _ => True | _ => False end.

Lemma named_used s k p a :
  m_groups (cl_manager s) !! k = Some p -> p = Some a -> (0 < group_uses s a)%nat.
Proof.
  intros Hk ->. unfold group_uses. pose proof (sum_map_lookup (fun p => points p a) _ _ _ Hk) as H.
  cbv beta in H. rewrite points_self in H. lia.
Qed.

Lemma context_used s k a : cl_contexts s !! k = Some (Some a) -> (0 < group_uses s a)%nat.
Proof.
  intros Hk. unfold group_uses. pose proof (sum_map_lookup (fun p => points p a) _ _ _ Hk) as H.
  cbv beta in H. rewrite points_self in H. lia.
Qed.

Lemma small_S K : small (S K) -> small K.
Proof. unfold small. lia. Qed.

Ltac uses := intros; unfold group_uses; cbn; rewrite ?sum_map_insert by done; lia.

Lemma create_ok nr K s c name :
  Inv nr K s -> small (4 + K) -> cl_contexts s !! c = None ->
  exists s', client_step s (CreateContext c name) = Ok s' /\ Inv nr (4 + K) s'.
Proof.
  intros HI HK Hc. cbn [client_step]. rewrite Hc. unfold createShareGroup.
  destruct (m_groups (cl_manager s) !! name) as [p|] eqn:En.
  - destruct (hand_out_ok _ _ _ _ _ p HI) as (o & -> & HI1).
    + unfold small in *. lia.
    + intros a Hp. by eapply named_used.
    + cbn [mbind result_bind]. eexists. split; [done|]. apply (OInv_mono nr (S K)); [lia|].
      eapply OInv_ext; [| |exact HI1]; [uses|done].
  - apply construct_group_ok in HI.
    destruct (hand_out_ok _ _ _ _ _ (Some (o_next (cl_objects s))) HI) as (o & -> & HI1).
    + unfold small in *. lia.
    + intros a [= <-]. rewrite points_self. lia.
    + cbn [mbind result_bind]. eexists. split; [done|]. apply (OInv_mono nr (S (S K))); [lia|].
      eapply OInv_ext; [| |exact HI1]; [|done]. uses.
Qed.

Lemma share_ok nr K s c name existing :
  Inv nr K s -> small (4 + K) -> cl_contexts s !! c = None ->
  exists s', client_step s (ShareContext c name existing) = Ok s' /\ Inv nr (4 + K) s'.
Proof.
  intros HI HK Hc. cbn [client_step]. rewrite Hc. unfold attachShareGroup.
  destruct (m_groups (cl_manager s) !! existing) as [p|] eqn:En.
  - assert (Hp : forall a, p = Some a -> (0 < group_uses s a)%nat) by (intros a Ha; by eapply named_used).
    destruct (hand_out_ok _ _ _ _ _ p HI) as (o & -> & HI1); [unfold small in *; lia|done|].
    cbn [mbind result_bind]. destruct (m_groups (cl_manager s) !! name) as [q|] eqn:Eq.
    + eexists. split; [done|]. apply (OInv_mono nr (S K)); [lia|].
      eapply OInv_ext; [| |exact HI1]; [uses|done].
    + destruct (hand_out_ok _ _ _ _ _ p HI1) as (o2 & -> & HI2).
      * unfold small in *. lia.
      * intros a Ha. specialize (Hp a Ha). lia.
      * cbn [mbind result_bind]. eexists. split; [done|]. apply (OInv_mono nr (S (S K))); [lia|].
        eapply OInv_ext; [| |exact HI2]; [|done]. uses.
  - cbn [mbind result_bind]. eexists. split; [done|]. apply (OInv_mono nr K); [lia|].
    eapply OInv_ext; [| |exact HI]; [|done]. intros a. unfold group_uses. cbn.
    rewrite (sum_map_insert (fun p => points p a)), points_none by done. lia.
Qed.

Lemma through_ok nr K s c f :
  Inv nr K s ->
  (forall a, (0 < group_uses s a)%nat ->
     exists o', f (Some a) (cl_objects s) = Ok o' /\ OInv nr (4 + K) (group_uses s) (fun _ => 0%nat) o') ->
  exists s', through c s f = Ok s' /\ Inv nr (4 + K) s'.
Proof.
  intros HI Hf. unfold through. destruct (cl_contexts s !! c) as [[a|]|] eqn:Ec.
  - destruct (Hf a) as (o' & -> & HI'); [by eapply context_used|]. cbn. eauto.
  - exists s. split; [done|]. eapply OInv_mono; [|exact HI]. lia.
  - exists s. split; [done|]. eapply OInv_mono; [|exact HI]. lia.
Qed.

Lemma client_step_ok nr K s op :
  Inv nr K s -> small (4 + K) -> (nr -> ~ replaces op) -> nr \/ ~ nr ->
  exists s', client_step s op = Ok s' /\ Inv nr (4 + K) s'.
Proof.
  intros HI HK Hnr Hdec. assert (HI4 : Inv nr (4 + K) s) by (eapply OInv_mono; [|exact HI]; lia).
  assert (HK0 : small K) by (unfold small in *; lia).
  destruct op as [c name|c name existing|c|name|c t l gl|c t l|c t l x|c t l|c t l].
  - destruct (cl_contexts s !! c) eqn:Ec; [cbn; rewrite Ec; eauto|by apply create_ok].
  - destruct (cl_contexts s !! c) eqn:Ec; [cbn; rewrite Ec; eauto|by apply share_ok].
  - cbn. destruct (cl_contexts s !! c) as [p|] eqn:Ec; [|eauto].
    destruct (drop_group_ok nr K (group_uses (mkClient (cl_manager s) (delete c (cl_contexts s)) (cl_objects s)))
                (fun _ => 0%nat) (cl_objects s) p) as (o & -> & HI1).
    + eapply OInv_ext; [| |exact HI]; [|done]. intros a. unfold group_uses. cbn.
      rewrite (sum_map_delete (fun p => points p a) _ c p Ec). lia.
    + cbn. eexists. split; [done|]. eapply OInv_mono; [|exact HI1]. lia.
  - cbn. unfold deleteShareGroup. destruct (m_groups (cl_manager s) !! name) as [p|] eqn:En.
    2:{ cbn. eexists. split; [done|]. by destruct s. }
    destruct (drop_group_ok nr K
                (group_uses (mkClient (mkManager (delete name (m_groups (cl_manager s)))) (cl_contexts s) (cl_objects s)))
                (fun _ => 0%nat) (cl_objects s) p) as (o & -> & HI1).
    + eapply OInv_ext; [| |exact HI]; [|done]. intros a. unfold group_uses. cbn.
      rewrite (sum_map_delete (fun p => points p a) _ name p En). lia.
    + cbn. eexists. split; [done|]. eapply OInv_mono; [|exact HI1]. lia.
  - apply through_ok; [done|]. intros a Ha.
    destruct (sg_genName_ok _ _ _ _ _ a t l gl HI HK0 Ha) as (l' & o' & -> & HI1). cbn.
    eexists. split; [done|]. eapply OInv_mono; [|exact HI1]. lia.
  - apply through_ok; [done|]. intros a Ha.
    destruct (sg_deleteName_ok _ _ _ _ _ a t l HI Ha) as (o' & -> & HI1).
    eexists. split; [done|]. eapply OInv_mono; [|exact HI1]. lia.
  - apply through_ok; [done|]. intros a Ha. destruct Hdec as [Hn|Hn]; [by destruct (Hnr Hn)|].
    destruct (sg_replaceGlobalName_ok _ _ _ _ _ a t l x HI Hn Ha) as (o' & -> & HI1).
    eexists. split; [done|]. eapply OInv_mono; [|exact HI1]. lia.
  - apply through_ok; [done|]. intros a Ha. cbv zeta. pose proof (construct_data_ok _ _ _ _ _ HI) as HI1.
    destruct (sg_setObjectData_ok nr (S K) _ _ _ a t l (Some (o_next (cl_objects s))) HI1) as (o1 & -> & HI2);
      [unfold small in *; lia|done|intros d [= <-]; rewrite points_self; lia|].
    cbn [mbind result_bind].
    destruct (drop_data_ok nr (S (S K)) (group_uses s) (fun _ => 0%nat) o1 (Some (o_next (cl_objects s))))
      as (o2 & -> & HI3 & _); [done|].
    eexists. split; [done|]. eapply OInv_mono; [|exact HI3]. lia.
  - apply through_ok; [done|]. intros a Ha.
    destruct (sg_getObjectData_ok _ _ _ _ _ a t l HI HK0 Ha) as (p & o1 & -> & HI1). cbn [mbind result_bind].
    destruct (drop_data_ok nr (S K) (group_uses s) (fun _ => 0%nat) o1 p) as (o2 & -> & HI2 & _); [done|].
    eexists. split; [done|]. eapply OInv_mono; [|exact HI2]. lia.
Qed.

Lemma init_client_inv nr : Inv nr 0 init_client.
Proof.
  split; [| |intros a _; done|intros a g; discriminate|].
  - intros a. change (group_uses init_client a) with 0%nat.
    split_and!; [split; [intros [x Hx]; discriminate|lia]|done|lia].
  - intros d. cbv beta. change (sum_map (fun g => data_uses g d) (s_objects (o_groups (cl_objects init_client)))) with 0%nat.
    split_and!; [split; [intros [x Hx]; discriminate|lia]|done|lia].
  - split; [done|]. intros d.
    change (sum_map (fun g => data_uses g d) (s_objects (o_groups (cl_objects init_client)))) with 0%nat. lia.
Qed.

Lemma client_run_ok nr K s ops :
  Inv nr K s -> small (4 * length ops + K) -> (nr -> Forall (fun op => ~ replaces op) ops) -> nr \/ ~ nr ->
  exists s', foldM client_step s ops = Ok s' /\ Inv nr (4 * length ops + K) s'.
Proof.
  revert K s. induction ops as [|op ops IH]; intros K s HI HK Hnr Hdec; cbn [foldM].
  - exists s. done.
  - destruct (client_step_ok nr K s op HI) as (s1 & -> & HI1); [|..].
    + unfold small in *. cbn [length] in HK. lia.
    + intros H. specialize (Hnr H). by apply Forall_cons in Hnr as [? _].
    + done.
    + cbn [mbind result_bind]. destruct (IH (4 + K)%nat s1 HI1) as (s2 & -> & HI2).
      * unfold small in *. cbn [length] in HK. lia.
      * intros H. specialize (Hnr H). by apply Forall_cons in Hnr as [_ ?].
      * done.
      * exists s2. split; [done|]. eapply OInv_mono; [|exact HI2]. cbn [length]. lia.
Qed.

(** Who refers to a share group, and to an object of data. *)
Definition refers_to_group (s : Client) (a : Z) : Prop :=
  (exists name, m_groups (cl_manager s) !! name = Some (Some a)) \/
  (exists c, cl_contexts s !! c = Some (Some a)).

Definition refers_to_data (o : Objects) (d : Z) : Prop :=
  exists a g m id, s_objects (o_groups o) !! a = Some g /\ m_objectsData g = Some m /\ m !! id = Some (Some d).

(** C18 Whatever contexts do with their share groups, in any order, no freed share
    group or object of data is touched and nothing is freed twice: a share group
    exists exactly as long as a name or a context refers to it, and data exactly as
    long as a share group has them attached to an object. *)
Theorem groups_live_while_used ops :
  4 * Z.of_nat (length ops) < 2 ^ 31 - 8 ->
  exists s, foldM client_step init_client ops = Ok s /\
    (forall a, is_Some (s_objects (o_groups (cl_objects s)) !! a) <-> refers_to_group s a) /\
    (forall d, is_Some (s_objects (o_data (cl_objects s)) !! d) <-> refers_to_data (cl_objects s) d).
Proof.
  intros Hl. destruct (client_run_ok False 0 init_client ops (init_client_inv _)) as (s & E & HI);
    [unfold small; lia|tauto|tauto|].
  exists s. split; [done|]. destruct HI as [H1 H2 _ _ _]. split.
  - intros a. destruct (H1 a) as [-> _]. unfold refers_to_group, group_uses. split.
    + intros H. assert (Hs : (0 < sum_map (fun p => points p a) (m_groups (cl_manager s)) \/
                         0 < sum_map (fun p => points p a) (cl_contexts s))%nat) by lia.
      destruct Hs as [Hs|Hs]; apply sum_map_pos in Hs as (k & p & Hk & Hp); apply points_pos in Hp; subst p; eauto.
    + intros [[k Hk]|[k Hk]]; apply (sum_map_lookup (fun p => points p a)) in Hk; cbv beta in Hk;
        rewrite points_self in Hk; lia.
  - intros d. destruct (H2 d) as [-> _]. rewrite Nat.add_0_r. unfold refers_to_data. split.
    + intros Hs. apply sum_map_pos in Hs as (a & g & Hg & Hp). unfold data_uses in Hp.
      destruct (m_objectsData g) as [m|] eqn:Em; [|lia].
      apply sum_map_pos in Hp as (id & p & Hid & Hp). apply points_pos in Hp. subst p. by exists a, g, m, id.
    + intros (a & g & m & id & Hg & Em & Hid). apply (sum_map_lookup (fun p => points p d)) in Hid. cbv beta in Hid.
      rewrite points_self in Hid. apply (sum_map_lookup (fun g => data_uses g d)) in Hg. cbv beta in Hg.
      unfold data_uses at 1 in Hg. rewrite Em in Hg. lia.
Qed.

(** C19 As long as the GL library gives out each name once and never 0, and no global
    name is replaced, local and global names of buffers, textures, renderbuffers and
    framebuffers (not of shaders and programs) are in bijection in every share group,
    whatever was generated, bound or deleted before, in fewer than about [2 ^ 29]
    operations. *)
Theorem local_names_roundtrip ops :
  4 * Z.of_nat (length ops) < 2 ^ 31 - 8 -> Forall (fun op => ~ replaces op) ops ->
  fresh_names -> (forall t i, host t i <> 0) ->
  exists s, foldM client_step init_client ops = Ok s /\
    forall a g (t : nat) ns l,
      s_objects (o_groups (cl_objects s)) !! a = Some g -> (t < 4)%nat -> m_nameSpace g !! t = Some ns ->
      isObject ns l = true ->
      getGlobalName ns l <> 0 /\ getLocalName ns (getGlobalName ns l) = l.
Proof.
  intros Hl Hops Hf Hnz. destruct (client_run_ok True 0 init_client ops (init_client_inv _)) as (s & E & HI);
    [unfold small; lia|done|by left|].
  exists s. split; [done|]. intros a g t ns l Hg Ht Hns Ho. destruct HI as [_ _ _ H4 _].
  destruct (H4 a g Hg) as [_ Hw]. destruct (Hw t ns Hns) as (_ & _ & Hgood).
  by apply (good_names_roundtrip (Z.of_nat t) (o_calls (cl_objects s))); [|apply Hgood|].
Qed.
End Names.

(** ** Examples *)

Definition demo_host (t : Z) (n : nat) : Z := Z.of_nat n + 1.

Definition demo_space : NameSpace := mkNameSpace (2 ^ 64 - 1) {[1 := 7]} TEXTURE.

Example genName_fresh_witness :
  exists l ns' o',
    genName demo_host demo_space 0 true true (cl_objects init_client) = Ok (l, ns', o') /\
    0 < l < 2 ^ 64 /\ m_localToGlobalMap demo_space !! l = None /\
    m_localToGlobalMap ns' = <[l := demo_host (m_type demo_space) 0]> (m_localToGlobalMap demo_space) /\
    o_calls o' = 1%nat /\ isObject ns' l = true /\ isObject demo_space l = false.
Proof.
  apply (genName_fresh demo_host demo_space 0 (cl_objects init_client)).
  - vm_compute. discriminate.
  - vm_compute. split; [discriminate|reflexivity].
Defined.

(** The counter wraps around; 0 and the name in use are passed over. *)
Example wrapped_counter :
  gen_local (gen_fuel {[1 := 7]}) (2 ^ 64 - 1) {[1 := 7]} = Ok 2.
Proof. vm_compute. reflexivity. Qed.

Definition demo_ops : list client_op :=
  [CreateContext 10 10; GenName 10 1 0 true; SetData 10 1 1; ShareContext 11 11 10; GenName 11 1 5 false;
   DestroyContext 10; DeleteGroupName 10; SetData 11 1 5; DeleteName 11 1 1; GetData 11 1 5].

Example groups_live_while_used_witness :
  exists s, foldM (client_step demo_host) init_client demo_ops = Ok s /\
    (forall a, is_Some (s_objects (o_groups (cl_objects s)) !! a) <-> refers_to_group s a) /\
    (forall d, is_Some (s_objects (o_data (cl_objects s)) !! d) <-> refers_to_data (cl_objects s) d).
Proof. apply (groups_live_while_used demo_host demo_ops). reflexivity. Defined.

Example local_names_roundtrip_witness :
  exists s, foldM (client_step demo_host) init_client demo_ops = Ok s /\
    forall a g (t : nat) ns l,
      s_objects (o_groups (cl_objects s)) !! a = Some g -> (t < 4)%nat -> m_nameSpace g !! t = Some ns ->
      isObject ns l = true ->
      getGlobalName ns l <> 0 /\ getLocalName ns (getGlobalName ns l) = l.
Proof.
  apply (local_names_roundtrip demo_host demo_ops).
  - reflexivity.
  - repeat constructor; intros H; exact H.
  - intros t i j H. unfold demo_host in H. lia.
  - intros t i. unfold demo_host. lia.
Defined.

(** After the last context and the last name are gone, so are group and data. *)
Example last_reference_frees :
  (s ← foldM (client_step demo_host) init_client (demo_ops ++ [DestroyContext 11; DeleteGroupName 11]);
   Ok (map_to_list (s_objects (o_groups (cl_objects s))), map_to_list (s_objects (o_data (cl_objects s))))) =
  Ok ([], []).
Proof. vm_compute. reflexivity. Qed.

(** Attaching a name that has a group answers another group than the name's. *)
Example attach_leaves_old_group :
  (s ← foldM (client_step demo_host) init_client
         [CreateContext 10 10; CreateContext 20 20; ShareContext 30 20 10];
   Ok (bool_decide (cl_contexts s !! 30 = m_groups (cl_manager s) !! 20))) = Ok false.
Proof. vm_compute. reflexivity. Qed.

(** Data assigned to an object that has data are dropped at once: the second
    object of the client is gone, the first one stays attached. *)
Example second_data_dropped :
  (s ← foldM (client_step demo_host) init_client
         [CreateContext 10 10; GenName 10 1 0 true; SetData 10 1 1; SetData 10 1 1];
   Ok (o_next (cl_objects s), (map_to_list (s_objects (o_data (cl_objects s)))).*1)) = Ok (4, [2]).
Proof. vm_compute. reflexivity. Qed.
