(* ===== verification/Renderer.v ===== *)
(** * The renderer's frame buffer

    Models, in [src/emulator/opengl/host/libs/libOpenglRender/], [FrameBuffer.cpp],
    [WindowSurface.cpp], [ColorBuffer.cpp] and [RenderContext.cpp]: the table of
    contexts, window surfaces and colour buffers that the threads of the guest's
    connections share, and what each operation does to it and to the EGL bindings
    of the calling thread.  The lock of the frame buffer makes each operation one
    step; several threads are interleavings of steps.

    Calls of the host's EGL and GL libraries are recorded in a trace; whether a
    call that can fail succeeds, and which numbers it answers, is decided by the
    environment.  [RendererProofs] has the theorems. *)
From S2P Require Import Prelude SmartPtr.

Local Open Scope string_scope.
Local Open Scope Z_scope.

(** ** Objects *)

Record RenderContext := mkRenderContext { rc_ctx : Z; rc_config : Z; rc_isGL2 : bool }.

Record ColorBuffer := mkColorBuffer {
  m_tex : Z;
  m_blitTex : Z;
  m_eglImage : Z;
  m_blitEGLImage : Z;
  cb_width : Z;
  cb_height : Z;
  m_fbo : Z;
  m_internalFormat : Z;
  m_warYInvertBug : bool
}.

Record WindowSurface := mkWindowSurface {
  ws_eglSurface : Z;
  m_attachedColorBuffer : option Z;
  m_readContext : option Z;
  m_drawContext : option Z;
  ws_width : Z;
  ws_height : Z;
  m_pbufWidth : Z;
  m_pbufHeight : Z;
  ws_config : Z
}.

(** [RenderThreadInfo]; the decoders keep a plain pointer to data inside of a context. *)
Record ThreadInfo := mkThreadInfo {
  currContext : option Z;
  currDrawSurf : option Z;
  currReadSurf : option Z;
  glDec_data : option Z;
  gl2Dec_data : option Z
}.

Definition no_thread : ThreadInfo := mkThreadInfo None None None None None.

Record ColorBufferRef := mkColorBufferRef { cbr_cb : option Z; cbr_refcount : Z }.

(** What is current in a thread: draw surface, read surface, context. *)
Record Binding := mkBinding { b_draw : Z; b_read : Z; b_ctx : Z }.
Definition no_binding : Binding := mkBinding 0 0 0.

#[export] Instance Binding_eq_dec : EqDecision Binding.
Proof. solve_decision. Defined.

Record FrameBuffer := mkFrameBuffer {
  s_nextHandle : Z;
  m_width : Z;
  m_height : Z;
  has_eglimage : bool;
  m_contexts : gmap Z (option Z);
  m_windows : gmap Z (option Z);
  m_colorbuffers : gmap Z ColorBufferRef;
  m_eglSurface : Z;
  m_eglContext : Z;
  m_pbufSurface : Z;
  m_prev : Binding;                (** m_prevDrawSurf, m_prevReadSurf, m_prevContext *)
  m_subWin : Z;
  m_lastPostedColorBuffer : Z;
  m_zRot : Z;                      (** degrees *)
  m_eglContextInitialized : bool;
  m_onPost : bool;
  s_theFrameBuffer : bool          (** between [initialize] and [finalize] *)
}.

(** A call of EGL or GL with its numbers. *)
Definition call : Type := string * list Z.

Record World := mkWorld {
  w_fb : FrameBuffer;
  w_contexts : Store RenderContext;
  w_colors : Store ColorBuffer;
  w_windows : Store WindowSurface;
  w_threads : gmap Z ThreadInfo;
  w_current : gmap Z Binding;
  w_next : Z;                      (** the next address, or name of EGL or GL *)
  w_tick : nat;                    (** how many questions the environment has answered *)
  w_trace : list call
}.

Definition set_fb x w := mkWorld x (w_contexts w) (w_colors w) (w_windows w) (w_threads w) (w_current w) (w_next w) (w_tick w) (w_trace w).
Definition set_contexts x w := mkWorld (w_fb w) x (w_colors w) (w_windows w) (w_threads w) (w_current w) (w_next w) (w_tick w) (w_trace w).
Definition set_colors x w := mkWorld (w_fb w) (w_contexts w) x (w_windows w) (w_threads w) (w_current w) (w_next w) (w_tick w) (w_trace w).
Definition set_windows x w := mkWorld (w_fb w) (w_contexts w) (w_colors w) x (w_threads w) (w_current w) (w_next w) (w_tick w) (w_trace w).
Definition set_threads x w := mkWorld (w_fb w) (w_contexts w) (w_colors w) (w_windows w) x (w_current w) (w_next w) (w_tick w) (w_trace w).
Definition set_current x w := mkWorld (w_fb w) (w_contexts w) (w_colors w) (w_windows w) (w_threads w) x (w_next w) (w_tick w) (w_trace w).
Definition set_next x w := mkWorld (w_fb w) (w_contexts w) (w_colors w) (w_windows w) (w_threads w) (w_current w) x (w_tick w) (w_trace w).
Definition set_tick x w := mkWorld (w_fb w) (w_contexts w) (w_colors w) (w_windows w) (w_threads w) (w_current w) (w_next w) x (w_trace w).
Definition set_trace x w := mkWorld (w_fb w) (w_contexts w) (w_colors w) (w_windows w) (w_threads w) (w_current w) (w_next w) (w_tick w) x.

Definition fb_contexts m (f : FrameBuffer) :=
  mkFrameBuffer (s_nextHandle f) (m_width f) (m_height f) (has_eglimage f) m (m_windows f)
    (m_colorbuffers f) (m_eglSurface f) (m_eglContext f) (m_pbufSurface f) (m_prev f)
    (m_subWin f) (m_lastPostedColorBuffer f) (m_zRot f) (m_eglContextInitialized f)
    (m_onPost f) (s_theFrameBuffer f).
Definition fb_windows m (f : FrameBuffer) :=
  mkFrameBuffer (s_nextHandle f) (m_width f) (m_height f) (has_eglimage f) (m_contexts f) m
    (m_colorbuffers f) (m_eglSurface f) (m_eglContext f) (m_pbufSurface f) (m_prev f)
    (m_subWin f) (m_lastPostedColorBuffer f) (m_zRot f) (m_eglContextInitialized f)
    (m_onPost f) (s_theFrameBuffer f).
Definition fb_colorbuffers m (f : FrameBuffer) :=
  mkFrameBuffer (s_nextHandle f) (m_width f) (m_height f) (has_eglimage f) (m_contexts f) (m_windows f)
    m (m_eglSurface f) (m_eglContext f) (m_pbufSurface f) (m_prev f) (m_subWin f)
    (m_lastPostedColorBuffer f) (m_zRot f) (m_eglContextInitialized f) (m_onPost f)
    (s_theFrameBuffer f).
Definition fb_nextHandle n (f : FrameBuffer) :=
  mkFrameBuffer n (m_width f) (m_height f) (has_eglimage f) (m_contexts f) (m_windows f)
    (m_colorbuffers f) (m_eglSurface f) (m_eglContext f) (m_pbufSurface f) (m_prev f)
    (m_subWin f) (m_lastPostedColorBuffer f) (m_zRot f) (m_eglContextInitialized f)
    (m_onPost f) (s_theFrameBuffer f).
Definition fb_prev b (f : FrameBuffer) :=
  mkFrameBuffer (s_nextHandle f) (m_width f) (m_height f) (has_eglimage f) (m_contexts f) (m_windows f)
    (m_colorbuffers f) (m_eglSurface f) (m_eglContext f) (m_pbufSurface f) b (m_subWin f)
    (m_lastPostedColorBuffer f) (m_zRot f) (m_eglContextInitialized f) (m_onPost f)
    (s_theFrameBuffer f).
Definition fb_subwin s n (f : FrameBuffer) :=
  mkFrameBuffer (s_nextHandle f) (m_width f) (m_height f) (has_eglimage f) (m_contexts f) (m_windows f)
    (m_colorbuffers f) s (m_eglContext f) (m_pbufSurface f) (m_prev f) n
    (m_lastPostedColorBuffer f) (m_zRot f) (m_eglContextInitialized f) (m_onPost f)
    (s_theFrameBuffer f).
Definition fb_posted n (f : FrameBuffer) :=
  mkFrameBuffer (s_nextHandle f) (m_width f) (m_height f) (has_eglimage f) (m_contexts f) (m_windows f)
    (m_colorbuffers f) (m_eglSurface f) (m_eglContext f) (m_pbufSurface f) (m_prev f)
    (m_subWin f) n (m_zRot f) (m_eglContextInitialized f) (m_onPost f) (s_theFrameBuffer f).
Definition fb_rotated z (f : FrameBuffer) :=
  mkFrameBuffer (s_nextHandle f) (m_width f) (m_height f) (has_eglimage f) (m_contexts f) (m_windows f)
    (m_colorbuffers f) (m_eglSurface f) (m_eglContext f) (m_pbufSurface f) (m_prev f)
    (m_subWin f) (m_lastPostedColorBuffer f) z (m_eglContextInitialized f) (m_onPost f)
    (s_theFrameBuffer f).
Definition fb_initialized (f : FrameBuffer) :=
  mkFrameBuffer (s_nextHandle f) (m_width f) (m_height f) (has_eglimage f) (m_contexts f) (m_windows f)
    (m_colorbuffers f) (m_eglSurface f) (m_eglContext f) (m_pbufSurface f) (m_prev f)
    (m_subWin f) (m_lastPostedColorBuffer f) (m_zRot f) true (m_onPost f)
    (s_theFrameBuffer f).
Definition fb_finalized (f : FrameBuffer) :=
  mkFrameBuffer (s_nextHandle f) (m_width f) (m_height f) (has_eglimage f) (m_contexts f) (m_windows f)
    (m_colorbuffers f) (m_eglSurface f) (m_eglContext f) (m_pbufSurface f) (m_prev f)
    (m_subWin f) (m_lastPostedColorBuffer f) (m_zRot f) (m_eglContextInitialized f)
    (m_onPost f) false.

(** ** Computations on the world *)

Definition M (A : Type) : Type := World -> result (A * World).

#[export] Instance M_ret : MRet M := fun A a w => Ok (a, w).
#[export] Instance M_bind : MBind M := fun A B k m w =>
  match m w with Ok (a, w') => k a w' | Err e => Err e end.

Definition read {A} (f : World -> A) : M A := fun w => Ok (f w, w).
Definition modify (f : World -> World) : M unit := fun w => Ok (tt, f w).
Definition modify_fb (f : FrameBuffer -> FrameBuffer) : M unit := modify (fun w => set_fb (f (w_fb w)) w).
Definition lift {A} (r : result A) : M A := fun w => a ← r; Ok (a, w).
Definition fail {A} (e : fault) : M A := fun w => Err e.
Definition when (b : bool) (m : M unit) : M unit := if b then m else mret tt.

(** A call without an answer. *)
Definition gl (name : string) (args : list Z) : M unit :=
  modify (fun w => set_trace (w_trace w ++ [(name, args)]) w).

(** The library that a context of its kind uses: [s_gl] or [s_gl2]. *)
Definition of_kind (gl2 : bool) (name : string) : string := if gl2 then "s_gl2." ++ name else name.

(** A new address or name. *)
Definition fresh : M Z := fun w => Ok (w_next w, set_next (w_next w + 1) w).

Section Env.
(** The answer to the [n]th question to EGL, GL or the window system. *)
Variable env : nat -> Z.

Definition ask : M Z := fun w => Ok (env (w_tick w), set_tick (S (w_tick w)) w).

(** A call that fails, or gives a new handle. *)
Definition create_handle (name : string) (args : list Z) : M Z :=
  gl name args;; a ← ask; if a =? 0 then mret 0 else fresh.

(** ** EGL bindings of the thread [t] *)

Definition eglGetCurrent (t : Z) : M Binding := read (fun w => default no_binding (w_current w !! t)).

Definition eglMakeCurrent (t : Z) (b : Binding) : M bool :=
  gl "eglMakeCurrent" [b_draw b; b_read b; b_ctx b];;
  a ← ask;
  if a =? 0 then mret false
  else modify (fun w => set_current (<[t := b]> (w_current w)) w);; mret true.

(** ** class FrameBuffer: bindings *)

Definition bind_locked (t : Z) : M bool :=
  prev ← eglGetCurrent t;
  fb ← read w_fb;
  ok ← eglMakeCurrent t (mkBinding (m_pbufSurface fb) (m_pbufSurface fb) (m_eglContext fb));
  if (negb ok : bool) then mret false
  else modify_fb (fb_prev prev);; mret true.

Definition initGLState : M unit :=
  gl "glMatrixMode" [0x1701];; gl "glLoadIdentity" [];; gl "glOrthof" [-1; 1; -1; 1; -1; 1];;
  gl "glMatrixMode" [0x1700];; gl "glLoadIdentity" [].

Definition bindSubwin_locked (t : Z) : M bool :=
  prev ← eglGetCurrent t;
  fb ← read w_fb;
  ok ← eglMakeCurrent t (mkBinding (m_eglSurface fb) (m_eglSurface fb) (m_eglContext fb));
  if (negb ok : bool) then mret false
  else
    when (negb (m_eglContextInitialized fb)) (initGLState;; modify_fb fb_initialized);;
    modify_fb (fb_prev prev);; mret true.

Definition unbind_locked (t : Z) : M bool :=
  fb ← read w_fb;
  ok ← eglMakeCurrent t (m_prev fb);
  if (negb ok : bool) then mret false
  else modify_fb (fb_prev no_binding);; mret true.

(** ** Pointers to contexts

    Local pointers and parameters passed by value are copies. *)

Definition use_context (p : option Z) : M unit :=
  s ← read w_contexts; s ← lift (use p s); modify (set_contexts s).

(** [~RenderContext]. *)
Definition delete_RenderContext (c : RenderContext) : M unit :=
  when (negb (rc_ctx c =? 0)) (gl "eglDestroyContext" [rc_ctx c]).

Definition drop_context (p : option Z) : M unit :=
  s ← read w_contexts; '(dead, s) ← lift (release p s); modify (set_contexts s);;
  match dead with Some c => delete_RenderContext c | None => mret tt end.

Definition context (p : option Z) : M RenderContext :=
  s ← read w_contexts; lift (arrow p s).

(** ** Pointers to colour buffers *)

Definition use_color (p : option Z) : M unit :=
  s ← read w_colors; s ← lift (use p s); modify (set_colors s).

(** [~ColorBuffer]: neither the second texture nor its image is destroyed. *)
Definition delete_ColorBuffer (t : Z) (c : ColorBuffer) : M unit :=
  _ ← bind_locked t;
  gl "glDeleteTextures" [1; m_tex c];;
  when (negb (m_eglImage c =? 0)) (gl "eglDestroyImageKHR" [m_eglImage c]);;
  when (negb (m_fbo c =? 0)) (gl "glDeleteFramebuffersOES" [1; m_fbo c]);;
  _ ← unbind_locked t;
  mret tt.

Definition drop_color (t : Z) (p : option Z) : M unit :=
  s ← read w_colors; '(dead, s) ← lift (release p s); modify (set_colors s);;
  match dead with Some c => delete_ColorBuffer t c | None => mret tt end.

Definition color (p : option Z) : M ColorBuffer :=
  s ← read w_colors; lift (arrow p s).
Definition put_color (p : option Z) (c : ColorBuffer) : M unit :=
  s ← read w_colors; s ← lift (put_object p c s); modify (set_colors s).

(** ** Pointers to window surfaces *)

Definition use_window (p : option Z) : M unit :=
  s ← read w_windows; s ← lift (use p s); modify (set_windows s).

(** [~WindowSurface], then its pointers in the reverse order of their declaration. *)
Definition delete_WindowSurface (t : Z) (s : WindowSurface) : M unit :=
  gl "eglDestroySurface" [ws_eglSurface s];;
  drop_context (m_drawContext s);; drop_context (m_readContext s);;
  drop_color t (m_attachedColorBuffer s).

Definition drop_window (t : Z) (p : option Z) : M unit :=
  s ← read w_windows; '(dead, s) ← lift (release p s); modify (set_windows s);;
  match dead with Some x => delete_WindowSurface t x | None => mret tt end.

Definition window (p : option Z) : M WindowSurface :=
  s ← read w_windows; lift (arrow p s).
Definition put_window (p : option Z) (x : WindowSurface) : M unit :=
  s ← read w_windows; s ← lift (put_object p x s); modify (set_windows s).

(** [p = rhs] for pointer variables: the old object goes before the new one is used. *)
Definition assign_context (old new : option Z) : M unit :=
  if decide (old = new) then mret tt else drop_context old;; use_context new.
Definition assign_color (t : Z) (old new : option Z) : M unit :=
  if decide (old = new) then mret tt else drop_color t old;; use_color new.
Definition assign_window (t : Z) (old new : option Z) : M unit :=
  if decide (old = new) then mret tt else drop_window t old;; use_window new.

(** ** class RenderContext *)

(** The EGL configs behind the guest's config numbers ([FBConfig::s_fbConfigs]). *)
Variable s_fbConfigs : list Z.

Definition FBConfig_get (p_config : Z) : option Z :=
  if p_config <? 0 then None else s_fbConfigs !! Z.to_nat p_config.

Definition RenderContext_create (p_config : Z) (p_shareContext : option Z) (p_isGL2 : bool)
  : M (option RenderContext) :=
  match FBConfig_get p_config with
  | None => mret None
  | Some fbconf =>
      share ← match p_shareContext with
              | Some _ => c ← context p_shareContext; mret (rc_ctx c)
              | None => mret 0
              end;
      ctx ← create_handle "eglCreateContext" [fbconf; share; if p_isGL2 then 2 else 1];
      if ctx =? 0 then delete_RenderContext (mkRenderContext 0 0 p_isGL2);; mret None
      else mret (Some (mkRenderContext ctx p_config p_isGL2))
  end.

(** ** class ColorBuffer *)

Definition GL_RGB : Z := 0x1907.
Definition GL_RGBA : Z := 0x1908.
Definition GL_RGB565_OES : Z := 0x8D62.
Definition GL_RGB5_A1_OES : Z := 0x8057.
Definition GL_RGBA4_OES : Z := 0x8056.
Definition GL_TEXTURE_2D : Z := 0x0DE1.
Definition GL_FRAMEBUFFER_COMPLETE_OES : Z := 0x8CD5.

Definition tex_internal_format (p_internalFormat : Z) : option Z :=
  if (p_internalFormat =? GL_RGB) || (p_internalFormat =? GL_RGB565_OES) then Some GL_RGB
  else if (p_internalFormat =? GL_RGBA) || (p_internalFormat =? GL_RGB5_A1_OES)
          || (p_internalFormat =? GL_RGBA4_OES) then Some GL_RGBA
  else None.

(** The bytes of the first image: a product of [int]s. *)
Definition zBuff_size (fmt w h : Z) : Z := s32 ((if fmt =? GL_RGB then 3 else 4) * w * h).

(** Generate, bind and define a texture with its parameters; [new char[n]] throws for a
    negative number.  The last argument is the size of the image, or 0 for no image. *)
Definition new_texture (fmt w h : Z) (image : bool) : M Z :=
  tex ← fresh;
  gl "glGenTextures" [1; tex];; gl "glBindTexture" [GL_TEXTURE_2D; tex];;
  let n := if image then zBuff_size fmt w h else 0 in
  if n <? 0 then fail FatalExit
  else
  gl "glTexImage2D" [GL_TEXTURE_2D; 0; fmt; w; h; 0; fmt; 0x1401; n];;
  gl "glTexParameteri" [GL_TEXTURE_2D; 0x2800; 0x2600];;
  gl "glTexParameteri" [GL_TEXTURE_2D; 0x2801; 0x2600];;
  gl "glTexParameteri" [GL_TEXTURE_2D; 0x2802; 0x2901];;
  gl "glTexParameteri" [GL_TEXTURE_2D; 0x2803; 0x2901];;
  gl "glTexEnvi" [0x2300; 0x2200; 0x1E01];;
  mret tex.

(** Without the extension [m_blitEGLImage] stays uninitialised. *)
Definition ColorBuffer_create (t p_width p_height p_internalFormat : Z) : M (option ColorBuffer) :=
  match tex_internal_format p_internalFormat with
  | None => mret None
  | Some fmt =>
      ok ← bind_locked t;
      if (negb ok : bool) then mret None
      else
        tex ← new_texture fmt p_width p_height true;
        blitTex ← new_texture fmt p_width p_height false;
        fb ← read w_fb;
        cur ← eglGetCurrent t;
        images ← (if has_eglimage fb
                  then i ← create_handle "eglCreateImageKHR" [b_ctx cur; 0x30B1; tex];
                       j ← create_handle "eglCreateImageKHR" [b_ctx cur; 0x30B1; blitTex];
                       mret (i, j)
                  else junk ← ask; mret (0, junk));
        _ ← unbind_locked t;
        mret (Some (mkColorBuffer tex blitTex (fst images) (snd images) p_width p_height 0 fmt false))
  end.

Definition subUpdate (t : Z) (p : option Z) (x y width height p_format p_type : Z) : M unit :=
  ok ← bind_locked t;
  if (negb ok : bool) then mret tt
  else
    c ← color p;
    gl "glBindTexture" [GL_TEXTURE_2D; m_tex c];; gl "glPixelStorei" [0x0CF5; 1];;
    gl "glTexSubImage2D" [GL_TEXTURE_2D; 0; x; y; width; height; p_format; p_type];;
    _ ← unbind_locked t; mret tt.

(** [bind_fbo]: the framebuffer object is made on the first use. *)
Definition bind_fbo (p : option Z) : M bool :=
  c ← color p;
  if negb (m_fbo c =? 0) then gl "glBindFramebufferOES" [0x8D40; m_fbo c];; mret true
  else
    f ← fresh;
    let set_fbo n := mkColorBuffer (m_tex c) (m_blitTex c) (m_eglImage c) (m_blitEGLImage c) (cb_width c)
                       (cb_height c) n (m_internalFormat c) (m_warYInvertBug c) in
    gl "glGenFramebuffersOES" [1; f];; put_color p (set_fbo f);;
    gl "glBindFramebufferOES" [0x8D40; f];;
    gl "glFramebufferTexture2DOES" [0x8D40; 0x8CE0; GL_TEXTURE_2D; m_tex c; 0];;
    status ← ask;
    if negb (status =? GL_FRAMEBUFFER_COMPLETE_OES) then
      gl "glBindFramebufferOES" [0x8D40; 0];; gl "glDeleteFramebuffersOES" [1; f];;
      put_color p (set_fbo 0);; mret false
    else mret true.

(** The texture coordinates are flipped unless [flipy]. *)
Definition drawTexQuad (flipy : bool) : M unit :=
  gl "glClientActiveTexture" [0x84C0];; gl "glEnableClientState" [0x8078];;
  gl "glTexCoordPointer" (if flipy then [0; 1; 0; 0; 1; 1; 1; 0] else [0; 0; 0; 1; 1; 0; 1; 1]);;
  gl "glEnableClientState" [0x8074];;
  gl "glVertexPointer" [-1; -1; 0; -1; 1; 0; 1; -1; 0; 1; 1; 0];;
  gl "glDrawArrays" [0x0005; 0; 4].

Definition thread_info (t : Z) : M ThreadInfo := read (fun w => default no_thread (w_threads w !! t)).
Definition put_thread (t : Z) (i : ThreadInfo) : M unit :=
  modify (fun w => set_threads (<[t := i]> (w_threads w)) w).

Definition blitFromCurrentReadBuffer (t : Z) (p : option Z) : M bool :=
  i ← thread_info t;
  match currContext i with
  | None => mret false
  | Some _ =>
      ctx ← context (currContext i);
      let s_gl name := gl (of_kind (rc_isGL2 ctx) name) in
      c ← color p;
      currTexBind ← ask;
      tmpTex ← fresh;
      s_gl "glGenTextures" [1; tmpTex];; s_gl "glBindTexture" [GL_TEXTURE_2D; tmpTex];;
      s_gl "glEGLImageTargetTexture2DOES" [GL_TEXTURE_2D; m_blitEGLImage c];;
      s_gl "glCopyTexImage2D" [GL_TEXTURE_2D; 0; m_internalFormat c; 0; 0; cb_width c; cb_height c; 0];;
      ok ← bind_locked t;
      when ok (
        fbo ← bind_fbo p;
        when fbo (
          x ← ask; y ← ask; vw ← ask; vh ← ask;
          gl "glViewport" [0; 0; cb_width c; cb_height c];;
          gl "glBindTexture" [GL_TEXTURE_2D; m_blitTex c];; gl "glEnable" [GL_TEXTURE_2D];;
          gl "glTexEnvi" [0x2300; 0x2200; 0x1E01];;
          drawTexQuad (negb (m_warYInvertBug c));;
          gl "glBindFramebufferOES" [0x8D40; 0];; gl "glViewport" [x; y; vw; vh]);;
        _ ← unbind_locked t; mret tt);;
      s_gl "glDeleteTextures" [1; tmpTex];; s_gl "glBindTexture" [GL_TEXTURE_2D; currTexBind];;
      mret true
  end.

(** [bindToTexture] and [bindToRenderbuffer] differ in the call. *)
Definition bind_image (name : string) (target t : Z) (p : option Z) : M bool :=
  c ← color p;
  if negb (m_eglImage c =? 0) then
    i ← thread_info t;
    match currContext i with
    | Some _ => ctx ← context (currContext i); gl (of_kind (rc_isGL2 ctx) name) [target; m_eglImage c];; mret true
    | None => mret false
    end
  else mret false.

Definition bindToTexture := bind_image "glEGLImageTargetTexture2DOES" GL_TEXTURE_2D.
Definition bindToRenderbuffer := bind_image "glEGLImageTargetRenderbufferStorageOES" 0x8D41.

Definition ColorBuffer_post (p : option Z) : M bool :=
  c ← color p;
  gl "glBindTexture" [GL_TEXTURE_2D; m_tex c];; gl "glEnable" [GL_TEXTURE_2D];;
  gl "glTexEnvi" [0x2300; 0x2200; 0x1E01];; drawTexQuad true;; mret true.

(** ** class WindowSurface *)

Definition with_surface (s pw ph : Z) (x : WindowSurface) : WindowSurface :=
  mkWindowSurface s (m_attachedColorBuffer x) (m_readContext x) (m_drawContext x) (ws_width x)
    (ws_height x) pw ph (ws_config x).
Definition with_size (width height : Z) (x : WindowSurface) : WindowSurface :=
  mkWindowSurface (ws_eglSurface x) (m_attachedColorBuffer x) (m_readContext x) (m_drawContext x)
    width height (m_pbufWidth x) (m_pbufHeight x) (ws_config x).
Definition with_attached (p : option Z) (x : WindowSurface) : WindowSurface :=
  mkWindowSurface (ws_eglSurface x) p (m_readContext x) (m_drawContext x) (ws_width x) (ws_height x)
    (m_pbufWidth x) (m_pbufHeight x) (ws_config x).
Definition with_read (p : option Z) (x : WindowSurface) : WindowSurface :=
  mkWindowSurface (ws_eglSurface x) (m_attachedColorBuffer x) p (m_drawContext x) (ws_width x)
    (ws_height x) (m_pbufWidth x) (m_pbufHeight x) (ws_config x).
Definition with_draw (p : option Z) (x : WindowSurface) : WindowSurface :=
  mkWindowSurface (ws_eglSurface x) (m_attachedColorBuffer x) (m_readContext x) p (ws_width x)
    (ws_height x) (m_pbufWidth x) (m_pbufHeight x) (ws_config x).

(** On the object itself; [create] calls it before any pointer owns the object. *)
Definition resizePbuffer (t p_width p_height : Z) (x : WindowSurface) : M (bool * WindowSurface) :=
  if negb (ws_eglSurface x =? 0) && (m_pbufWidth x =? p_width) && (m_pbufHeight x =? p_height)
  then mret (true, x)
  else
    prev ← eglGetCurrent t;
    let prevPbuf := ws_eglSurface x in
    let need := negb (prevPbuf =? 0) && ((b_read prev =? prevPbuf) || (b_draw prev =? prevPbuf)) in
    when need (_ ← eglMakeCurrent t no_binding; mret tt);;
    when (negb (prevPbuf =? 0)) (gl "eglDestroySurface" [prevPbuf]);;
    s ← create_handle "eglCreatePbufferSurface" [ws_config x; p_width; p_height];
    if s =? 0 then mret (false, with_surface 0 (m_pbufWidth x) (m_pbufHeight x) x)
    else
      when need (
        _ ← eglMakeCurrent t (mkBinding (if b_draw prev =? prevPbuf then s else b_draw prev)
                                        (if b_read prev =? prevPbuf then s else b_read prev) (b_ctx prev));
        mret tt);;
      mret (true, with_surface s p_width p_height x).

Definition new_WindowSurface (config : Z) : WindowSurface :=
  mkWindowSurface 0 None None None 0 0 0 0 config.

Definition WindowSurface_create (t p_config p_width p_height : Z) : M (option WindowSurface) :=
  match FBConfig_get p_config with
  | None => mret None
  | Some fbconf =>
      r ← resizePbuffer t p_width p_height (new_WindowSurface fbconf);
      if negb (fst r) then delete_WindowSurface t (snd r);; mret None
      else mret (Some (with_size p_width p_height (snd r)))
  end.

(** The context is asked for without a check that the surface was ever bound. *)
Definition blitToColorBuffer (t : Z) (p : option Z) : M unit :=
  x ← window p;
  if (ws_width x =? 0) && (ws_height x =? 0) then mret tt
  else
    cb ← color (m_attachedColorBuffer x);
    if negb (cb_width cb =? ws_width x) || negb (cb_height cb =? ws_height x) then mret tt
    else
      prev ← eglGetCurrent t;
      ctx ← context (m_drawContext x);
      ok ← eglMakeCurrent t (mkBinding (ws_eglSurface x) (ws_eglSurface x) (rc_ctx ctx));
      if (negb ok : bool) then mret tt
      else
        _ ← blitFromCurrentReadBuffer t (m_attachedColorBuffer x);
        _ ← eglMakeCurrent t prev; mret tt.

Definition flushColorBuffer (t : Z) (p : option Z) : M unit :=
  x ← window p;
  match m_attachedColorBuffer x with Some _ => blitToColorBuffer t p | None => mret tt end.

Definition setColorBuffer (t : Z) (p p_colorBuffer : option Z) : M unit :=
  x ← window p;
  assign_color t (m_attachedColorBuffer x) p_colorBuffer;;
  let x := with_attached p_colorBuffer x in
  put_window p x;;
  cb ← color p_colorBuffer;
  if negb (cb_width cb =? ws_width x) || negb (cb_height cb =? ws_height x) then
    x ← (if negb (m_pbufWidth x =? 0) && negb (m_pbufHeight x =? 0)
         then r ← resizePbuffer t (cb_width cb) (cb_height cb) x; mret (snd r)
         else mret x);
    put_window p (with_size (cb_width cb) (cb_height cb) x)
  else mret tt.

Inductive SurfaceBindType := SURFACE_BIND_READ | SURFACE_BIND_DRAW | SURFACE_BIND_READDRAW.

Definition bind_read (p p_ctx : option Z) : M unit :=
  x ← window p; assign_context (m_readContext x) p_ctx;; put_window p (with_read p_ctx x).
Definition bind_draw (p p_ctx : option Z) : M unit :=
  x ← window p; assign_context (m_drawContext x) p_ctx;; put_window p (with_draw p_ctx x).

Definition bind (p p_ctx : option Z) (type : SurfaceBindType) : M unit :=
  match type with
  | SURFACE_BIND_READ => bind_read p p_ctx
  | SURFACE_BIND_DRAW => bind_draw p p_ctx
  | SURFACE_BIND_READDRAW => bind_read p p_ctx;; bind_draw p p_ctx
  end.

(** ** class FrameBuffer *)

(** [genHandle]: colour buffers are not looked at. *)
Definition next_handle (fuel : nat) (n : Z) (fb : FrameBuffer) : result Z :=
  next_free (2 ^ 32) (fun id => (id =? 0) || bool_decide (is_Some (m_contexts fb !! id))
                                || bool_decide (is_Some (m_windows fb !! id))) fuel n.

Definition handle_fuel (fb : FrameBuffer) : nat := size (m_contexts fb) + size (m_windows fb) + 2.

Definition genHandle : M Z :=
  fb ← read w_fb;
  id ← lift (next_handle (handle_fuel fb) (s_nextHandle fb) fb);
  modify_fb (fb_nextHandle id);; mret id.

Definition new_context (c : RenderContext) : M Z :=
  a ← fresh; modify (fun w => set_contexts (construct a c (w_contexts w)) w);; mret a.
Definition new_color (c : ColorBuffer) : M Z :=
  a ← fresh; modify (fun w => set_colors (construct a c (w_colors w)) w);; mret a.
Definition new_window (x : WindowSurface) : M Z :=
  a ← fresh; modify (fun w => set_windows (construct a x (w_windows w)) w);; mret a.

(** [m_colorbuffers[ret]] may be the entry of a colour buffer that is still open. *)
Definition createColorBuffer (t p_width p_height p_internalFormat : Z) : M Z :=
  o ← ColorBuffer_create t p_width p_height p_internalFormat;
  match o with
  | None => mret 0
  | Some c =>
      a ← new_color c;
      ret ← genHandle;
      fb ← read w_fb;
      assign_color t (r ← m_colorbuffers fb !! ret; cbr_cb r) (Some a);;
      modify_fb (fun fb => fb_colorbuffers (<[ret := mkColorBufferRef (Some a) 1]> (m_colorbuffers fb)) fb);;
      drop_color t (Some a);;
      mret ret
  end.

Definition createRenderContext_with (p_config : Z) (share : option Z) (p_isGL2 : bool) : M Z :=
  use_context share;;
  o ← RenderContext_create p_config share p_isGL2;
  drop_context share;;
  match o with
  | None => mret 0
  | Some c =>
      a ← new_context c;
      ret ← genHandle;
      fb ← read w_fb;
      assign_context (mjoin (m_contexts fb !! ret)) (Some a);;
      modify_fb (fun fb => fb_contexts (<[ret := Some a]> (m_contexts fb)) fb);;
      drop_context (Some a);;
      mret ret
  end.

Definition createRenderContext (p_config p_share : Z) (p_isGL2 : bool) : M Z :=
  fb ← read w_fb;
  if negb (p_share =? 0) then
    match m_contexts fb !! p_share with
    | None => mret 0
    | Some s =>
        use_context s;;
        ret ← createRenderContext_with p_config s p_isGL2;
        drop_context s;; mret ret
    end
  else createRenderContext_with p_config None p_isGL2.

Definition createWindowSurface (t p_config p_width p_height : Z) : M Z :=
  o ← WindowSurface_create t p_config p_width p_height;
  match o with
  | None => mret 0
  | Some x =>
      a ← new_window x;
      ret ← genHandle;
      fb ← read w_fb;
      assign_window t (mjoin (m_windows fb !! ret)) (Some a);;
      modify_fb (fun fb => fb_windows (<[ret := Some a]> (m_windows fb)) fb);;
      drop_window t (Some a);;
      mret ret
  end.

Definition DestroyRenderContext (p_context : Z) : M unit :=
  fb ← read w_fb;
  match m_contexts fb !! p_context with
  | None => mret tt
  | Some p =>
      modify_fb (fun fb => fb_contexts (delete p_context (m_contexts fb)) fb);; drop_context p
  end.

Definition DestroyWindowSurface (t p_surface : Z) : M unit :=
  fb ← read w_fb;
  match m_windows fb !! p_surface with
  | None => mret tt
  | Some p =>
      modify_fb (fun fb => fb_windows (delete p_surface (m_windows fb)) fb);; drop_window t p
  end.

Definition openColorBuffer (p_colorbuffer : Z) : M unit :=
  fb ← read w_fb;
  match m_colorbuffers fb !! p_colorbuffer with
  | None => mret tt
  | Some c =>
      let c := mkColorBufferRef (cbr_cb c) (u32 (cbr_refcount c + 1)) in
      modify_fb (fun fb => fb_colorbuffers (<[p_colorbuffer := c]> (m_colorbuffers fb)) fb)
  end.

Definition closeColorBuffer (t p_colorbuffer : Z) : M unit :=
  fb ← read w_fb;
  match m_colorbuffers fb !! p_colorbuffer with
  | None => mret tt
  | Some c =>
      let n := u32 (cbr_refcount c - 1) in
      if n =? 0 then
        modify_fb (fun fb => fb_colorbuffers (delete p_colorbuffer (m_colorbuffers fb)) fb);;
        drop_color t (cbr_cb c)
      else
        modify_fb (fun fb => fb_colorbuffers (<[p_colorbuffer := mkColorBufferRef (cbr_cb c) n]>
                                               (m_colorbuffers fb)) fb)
  end.

Definition flushWindowSurfaceColorBuffer (t p_surface : Z) : M bool :=
  fb ← read w_fb;
  match m_windows fb !! p_surface with
  | None => mret false
  | Some w => flushColorBuffer t w;; mret true
  end.

Definition setWindowSurfaceColorBuffer (t p_surface p_colorbuffer : Z) : M bool :=
  fb ← read w_fb;
  match m_windows fb !! p_surface with
  | None => mret false
  | Some w =>
      match m_colorbuffers fb !! p_colorbuffer with
      | None => mret false
      | Some c =>
          use_color (cbr_cb c);; setColorBuffer t w (cbr_cb c);; drop_color t (cbr_cb c);; mret true
      end
  end.

Definition with_color_buffer (p_colorbuffer : Z) (f : option Z -> M bool) : M bool :=
  fb ← read w_fb;
  match m_colorbuffers fb !! p_colorbuffer with
  | None => mret false
  | Some c => f (cbr_cb c)
  end.

Definition updateColorBuffer (t p_colorbuffer x y width height format type : Z) : M bool :=
  with_color_buffer p_colorbuffer (fun cb => subUpdate t cb x y width height format type;; mret true).

Definition bindColorBufferToTexture (t p_colorbuffer : Z) : M bool :=
  with_color_buffer p_colorbuffer (bindToTexture t).
Definition bindColorBufferToRenderbuffer (t p_colorbuffer : Z) : M bool :=
  with_color_buffer p_colorbuffer (bindToRenderbuffer t).

(** [bindContext]: the context and the surfaces that the handles name, held by local
    variables; nothing for an unbind, and [None] for a bad handle. *)
Definition find_handles (t p_context p_drawSurface p_readSurface : Z)
  : M (option (option Z * option Z * option Z)) :=
  fb ← read w_fb;
  if negb (p_context =? 0) || negb (p_drawSurface =? 0) || negb (p_readSurface =? 0) then
    match m_contexts fb !! p_context with
    | None => mret None
    | Some ctx =>
        use_context ctx;;
        match m_windows fb !! p_drawSurface with
        | None => drop_context ctx;; mret None
        | Some draw =>
            use_window draw;;
            if negb (p_readSurface =? p_drawSurface) then
              match m_windows fb !! p_readSurface with
              | None => drop_context ctx;; drop_window t draw;; mret None
              | Some rd => use_window rd;; mret (Some (ctx, draw, rd))
              end
            else use_window draw;; mret (Some (ctx, draw, draw))
        end
    end
  else mret (Some (None, None, None)).

(** [p ? p->getEGLSurface() : EGL_NO_SURFACE]. *)
Definition surface_of (p : option Z) : M Z :=
  match p with Some _ => x ← window p; mret (ws_eglSurface x) | None => mret 0 end.
Definition egl_context_of (p : option Z) : M Z :=
  match p with Some _ => c ← context p; mret (rc_ctx c) | None => mret 0 end.

(** [p->bind(ctx, type)]: the parameter is a copy. *)
Definition call_bind (p ctx : option Z) (type : SurfaceBindType) : M unit :=
  use_context ctx;; bind p ctx type;; drop_context ctx.

Definition bind_surfaces (ctx draw rd : option Z) (same : bool) : M unit :=
  match draw, rd with
  | Some _, Some _ =>
      if same then call_bind draw ctx SURFACE_BIND_READDRAW
      else call_bind draw ctx SURFACE_BIND_DRAW;; call_bind rd ctx SURFACE_BIND_READ
  | _, _ => mret tt
  end.

(** The thread takes over copies; the decoders keep the address of the data in [ctx]. *)
Definition update_thread (t : Z) (ctx draw rd : option Z) : M unit :=
  i ← thread_info t;
  assign_context (currContext i) ctx;;
  assign_window t (currDrawSurf i) draw;;
  assign_window t (currReadSurf i) rd;;
  match ctx with
  | Some _ =>
      c ← context ctx;
      if rc_isGL2 c then put_thread t (mkThreadInfo ctx draw rd (glDec_data i) ctx)
      else put_thread t (mkThreadInfo ctx draw rd ctx (gl2Dec_data i))
  | None => put_thread t (mkThreadInfo ctx draw rd None None)
  end.

(** From [eglMakeCurrent] on, with the three pointers held by local variables. *)
Definition bind_held (t : Z) (same : bool) (ctx draw rd : option Z) : M bool :=
  d ← surface_of draw; r ← surface_of rd; c ← egl_context_of ctx;
  ok ← eglMakeCurrent t (mkBinding d r c);
  if (negb ok : bool) then
    drop_context ctx;; drop_window t rd;; drop_window t draw;; mret false
  else
    i ← thread_info t;
    '(draw, rd) ← match draw, rd with
                    | None, None =>
                        use_window (currDrawSurf i);; use_window (currReadSurf i);;
                        mret (currDrawSurf i, currReadSurf i)
                    | _, _ => mret (draw, rd)
                    end;
    bind_surfaces ctx draw rd same;;
    update_thread t ctx draw rd;;
    drop_context ctx;; drop_window t rd;; drop_window t draw;; mret true.

Definition bindContext (t p_context p_drawSurface p_readSurface : Z) : M bool :=
  o ← find_handles t p_context p_drawSurface p_readSurface;
  match o with
  | None => mret false
  | Some (ctx, draw, rd) => bind_held t (p_readSurface =? p_drawSurface) ctx draw rd
  end.

(** [post], under the lock. *)
Definition post (t p_colorbuffer : Z) : M bool :=
  fb ← read w_fb;
  match m_colorbuffers fb !! p_colorbuffer with
  | None => mret false
  | Some c =>
      modify_fb (fb_posted p_colorbuffer);;
      if m_subWin fb =? 0 then mret false
      else
        ok ← bindSubwin_locked t;
        if (negb ok : bool) then mret false
        else
          gl "glPushMatrix" [];; gl "glRotatef" [m_zRot fb; 0; 0; 1];;
          when (negb (m_zRot fb =? 0)) (gl "glClear" [0x4000]);;
          ret ← ColorBuffer_post (cbr_cb c);
          gl "glPopMatrix" [];;
          when ret (
            when (m_onPost fb) (
              gl "glReadPixels" [0; 0; m_width fb; m_height fb; GL_RGBA; 0x1401];;
              gl "onPost" [m_width fb; m_height fb; -1; GL_RGBA; 0x1401]);;
            gl "eglSwapBuffers" [m_eglSurface fb]);;
          _ ← unbind_locked t;
          mret ret
  end.

Definition repost (t : Z) : M bool :=
  fb ← read w_fb;
  if negb (m_lastPostedColorBuffer fb =? 0) then post t (m_lastPostedColorBuffer fb) else mret false.

Definition setDisplayRotation (t zRot : Z) : M unit :=
  modify_fb (fb_rotated zRot);; _ ← repost t; mret tt.

(** The window stays when its surface is made and cannot be bound. *)
Definition setupSubWindow (t p_window p_x p_y p_width p_height zRot : Z) : M bool :=
  fb ← read w_fb;
  if negb (m_subWin fb =? 0) then mret false
  else
    win ← create_handle "createSubWindow" [p_window; p_x; p_y; p_width; p_height];
    if win =? 0 then mret false
    else
      surface ← create_handle "eglCreateWindowSurface" [win];
      modify_fb (fb_subwin surface win);;
      if surface =? 0 then
        gl "destroySubWindow" [win];; modify_fb (fb_subwin 0 0);; mret false
      else
        ok ← bindSubwin_locked t;
        if (negb ok : bool) then mret false
        else
          gl "glViewport" [0; 0; p_width; p_height];;
          modify_fb (fb_rotated zRot);;
          fb ← read w_fb;
          _ ← post t (m_lastPostedColorBuffer fb);
          _ ← unbind_locked t;
          mret true.

Definition removeSubWindow (t : Z) : M bool :=
  fb ← read w_fb;
  if m_subWin fb =? 0 then mret false
  else
    _ ← eglMakeCurrent t no_binding;
    gl "eglDestroySurface" [m_eglSurface fb];; gl "destroySubWindow" [m_subWin fb];;
    modify_fb (fb_subwin 0 0);; mret true.

(** One after the other. *)
Fixpoint for_each {A} (f : A -> M unit) (l : list A) : M unit :=
  match l with [] => mret tt | x :: l => f x;; for_each f l end.

(** [finalize]; the tables are cleared in the order of the model's maps. *)
Definition finalize (t : Z) : M unit :=
  fb ← read w_fb;
  if (negb (s_theFrameBuffer fb) : bool) then mret tt
  else
    _ ← removeSubWindow t;
    let colors := (map_to_list (m_colorbuffers fb)).*2 in
    let windows := (map_to_list (m_windows fb)).*2 in
    let contexts := (map_to_list (m_contexts fb)).*2 in
    modify_fb (fb_colorbuffers ∅);; for_each (fun c => drop_color t (cbr_cb c)) colors;;
    modify_fb (fb_windows ∅);; for_each (drop_window t) windows;;
    modify_fb (fb_contexts ∅);; for_each drop_context contexts;;
    _ ← eglMakeCurrent t no_binding;
    gl "eglDestroyContext" [m_eglContext fb];; gl "eglDestroySurface" [m_pbufSurface fb];;
    modify_fb fb_finalized.

(** The end of [RenderThread::Main]: the information of the thread, with its
    pointers, is not freed where the compiler's thread-local variables are used. *)
Definition end_of_thread (t : Z) : M unit :=
  cur ← eglGetCurrent t;
  when (negb (b_ctx cur =? 0)) (_ ← eglMakeCurrent t no_binding; mret tt).

(** ** The calls of the guest ([RenderControl.cpp]) and of the window's owner
    ([render_api.cpp]) *)

Definition with_fb {A} (none : A) (f : M A) : M A :=
  fb ← read w_fb; if s_theFrameBuffer fb then f else mret none.

Definition EGL_FALSE : Z := 0.
Definition EGL_TRUE : Z := 1.

(** The parameters [FB_WIDTH] ... [FB_MAX_SWAP_INTERVAL]. *)
Definition rcGetFBParam (param : Z) : M Z :=
  with_fb 0 (
    fb ← read w_fb;
    mret (match param with
          | 1 => m_width fb
          | 2 => m_height fb
          | 3 | 4 => 72
          | 5 => 60
          | 6 | 7 => 1
          | _ => 0
          end)).

Definition rcCreateContext (config share glVersion : Z) : M Z :=
  with_fb 0 (createRenderContext (s32 config) share (glVersion =? 2)).
Definition rcDestroyContext (context : Z) : M unit := with_fb tt (DestroyRenderContext context).
Definition rcCreateWindowSurface (t config width height : Z) : M Z :=
  with_fb 0 (createWindowSurface t (s32 config) (s32 width) (s32 height)).
Definition rcDestroyWindowSurface (t windowSurface : Z) : M unit :=
  with_fb tt (DestroyWindowSurface t windowSurface).
Definition rcCreateColorBuffer (t width height internalFormat : Z) : M Z :=
  with_fb 0 (createColorBuffer t (s32 width) (s32 height) internalFormat).
Definition rcOpenColorBuffer (colorbuffer : Z) : M unit := with_fb tt (openColorBuffer colorbuffer).
Definition rcCloseColorBuffer (t colorbuffer : Z) : M unit := with_fb tt (closeColorBuffer t colorbuffer).
Definition rcFlushWindowColorBuffer (t windowSurface : Z) : M Z :=
  with_fb (-1) (_ ← flushWindowSurfaceColorBuffer t windowSurface; mret 0).
Definition rcSetWindowColorBuffer (t windowSurface colorBuffer : Z) : M unit :=
  with_fb tt (_ ← setWindowSurfaceColorBuffer t windowSurface colorBuffer; mret tt).
Definition rcMakeCurrent (t context drawSurf readSurf : Z) : M Z :=
  with_fb EGL_FALSE (
    ret ← bindContext t context drawSurf readSurf;
    mret (if (ret : bool) then EGL_TRUE else EGL_FALSE)).
Definition rcFBPost (t colorBuffer : Z) : M unit := with_fb tt (_ ← post t colorBuffer; mret tt).
Definition rcBindTexture (t colorBuffer : Z) : M unit :=
  with_fb tt (_ ← bindColorBufferToTexture t colorBuffer; mret tt).
Definition rcBindRenderbuffer (t colorBuffer : Z) : M unit :=
  with_fb tt (_ ← bindColorBufferToRenderbuffer t colorBuffer; mret tt).
Definition rcUpdateColorBuffer (t colorBuffer x y width height format type : Z) : M Z :=
  with_fb (-1) (_ ← updateColorBuffer t colorBuffer x y width height format type; mret 0).

(** A call of the guest over the connection of one thread, or of the owner. *)
Inductive event :=
| GetFBParam (param : Z)
| CreateContext (config share glVersion : Z)
| DestroyContext (context : Z)
| CreateWindowSurface (config width height : Z)
| DestroyWindowSurfaceCall (windowSurface : Z)
| CreateColorBuffer (width height internalFormat : Z)
| OpenColorBuffer (colorbuffer : Z)
| CloseColorBuffer (colorbuffer : Z)
| FlushWindowColorBuffer (windowSurface : Z)
| SetWindowColorBuffer (windowSurface colorBuffer : Z)
| MakeCurrent (context drawSurf readSurf : Z)
| FBPost (colorBuffer : Z)
| BindTexture (colorBuffer : Z)
| BindRenderbuffer (colorBuffer : Z)
| UpdateColorBuffer (colorBuffer x y width height format type : Z)
| EndOfThread
| CreateSubWindow (window x y width height zRot : Z)
| DestroySubWindow
| SetDisplayRotation (zRot : Z)
| RepaintDisplay.

Definition answer {A} (f : A -> Z) (m : M A) : M Z := a ← m; mret (f a).
Definition nothing (_ : unit) : Z := 0.
Definition flag (b : bool) : Z := if b then 1 else 0.

(** The thread [t] handles [e]; the answer goes back to the caller. *)
Definition handle (t : Z) (e : event) : M Z :=
  match e with
  | GetFBParam param => rcGetFBParam param
  | CreateContext config share glVersion => rcCreateContext config share glVersion
  | DestroyContext context => answer nothing (rcDestroyContext context)
  | CreateWindowSurface config width height => rcCreateWindowSurface t config width height
  | DestroyWindowSurfaceCall windowSurface => answer nothing (rcDestroyWindowSurface t windowSurface)
  | CreateColorBuffer width height internalFormat => rcCreateColorBuffer t width height internalFormat
  | OpenColorBuffer colorbuffer => answer nothing (rcOpenColorBuffer colorbuffer)
  | CloseColorBuffer colorbuffer => answer nothing (rcCloseColorBuffer t colorbuffer)
  | FlushWindowColorBuffer windowSurface => rcFlushWindowColorBuffer t windowSurface
  | SetWindowColorBuffer windowSurface colorBuffer =>
      answer nothing (rcSetWindowColorBuffer t windowSurface colorBuffer)
  | MakeCurrent context drawSurf readSurf => rcMakeCurrent t context drawSurf readSurf
  | FBPost colorBuffer => answer nothing (rcFBPost t colorBuffer)
  | BindTexture colorBuffer => answer nothing (rcBindTexture t colorBuffer)
  | BindRenderbuffer colorBuffer => answer nothing (rcBindRenderbuffer t colorBuffer)
  | UpdateColorBuffer colorBuffer x y width height format type =>
      rcUpdateColorBuffer t colorBuffer x y width height format type
  | EndOfThread => answer nothing (end_of_thread t)
  | CreateSubWindow window x y width height zRot =>
      answer flag (with_fb false (setupSubWindow t window x y width height zRot))
  | DestroySubWindow => answer flag (with_fb false (removeSubWindow t))
  | SetDisplayRotation zRot => answer nothing (with_fb tt (setDisplayRotation t zRot))
  | RepaintDisplay => answer flag (with_fb false (repost t))
  end.

Definition handle_all (events : list (Z * event)) : M unit :=
  for_each (fun '(t, e) => _ ← handle t e; mret tt) events.
End Env.

(** The host calls through a null pointer: a flush of a window whose colour buffer
    has its size while no context was ever bound to draw on it. *)
Definition blits_unbound (p : option Z) (w : World) : bool :=
  match a ← p; s_objects (w_windows w) !! a with
  | None => false
  | Some x =>
      match c ← m_attachedColorBuffer x; s_objects (w_colors w) !! c with
      | None => false
      | Some cb =>
          negb ((ws_width x =? 0) && (ws_height x =? 0)) && (cb_width cb =? ws_width x)
          && (cb_height cb =? ws_height x) && bool_decide (m_drawContext x = None)
      end
  end.

(** The size of the first image does not fit an [int], and comes out negative. *)
Definition image_too_large (width height internalFormat : Z) : bool :=
  match tex_internal_format internalFormat with
  | Some fmt => zBuff_size fmt width height <? 0
  | None => false
  end.

(** What can end the host's process. *)
Definition crashes (e : event) (w : World) : bool :=
  match e with
  | CreateColorBuffer width height internalFormat => image_too_large (s32 width) (s32 height) internalFormat
  | FlushWindowColorBuffer h =>
      s_theFrameBuffer (w_fb w) && blits_unbound (mjoin (m_windows (w_fb w) !! h)) w
  | _ => false
  end.

(** After [initialize]: nothing created, and the names below [w_next] given to the
    frame buffer's own context and surface. *)
Definition init_fb (width height : Z) (onPost : bool) : FrameBuffer :=
  mkFrameBuffer 0 width height true ∅ ∅ ∅ 0 1 2 no_binding 0 0 0 false onPost true.

Definition init_world (width height : Z) (onPost : bool) : World :=
  mkWorld (init_fb width height onPost) (mkStore ∅ ∅) (mkStore ∅ ∅) (mkStore ∅ ∅) ∅ ∅ 3 0 [].
