(* ===== verification/RendererProofs.v ===== *)
(** * The renderer's objects live while they are used

    Theorems on [Renderer].  A weakest precondition [wp] for its computations; the
    computations that change no pointer ([Quiet]); an invariant that ties the
    counters of the three stores to the pointers in the frame buffer's tables, the
    threads' information and the window surfaces, with those of local variables
    added while an operation runs. *)
From S2P Require Import Prelude SmartPtr Renderer.

Local Open Scope Z_scope.

(** ** Weakest preconditions *)

(** [m] returns from [w], with [Q]. *)
Definition wp {A} (m : M A) (Q : A -> World -> Prop) (w : World) : Prop :=
  exists a w', m w = Ok (a, w') /\ Q a w'.

Section Wp.
Context {A B : Type}.
Implicit Types (Q : A -> World -> Prop) (m : M A) (k : A -> M B) (w : World).

Lemma wp_ret Q a w : Q a w -> wp (mret a) Q w.
Proof. exists a, w. done. Qed.

Lemma wp_bind (Q : B -> World -> Prop) m k w : wp m (fun a => wp (k a) Q) w -> wp (mbind k m) Q w.
Proof. intros (a & w1 & E & b & w2 & E2 & H). exists b, w2. split; [|done]. unfold mbind, M_bind. by rewrite E. Qed.

Lemma wp_mono Q Q' m w : wp m Q w -> (forall a w', Q a w' -> Q' a w') -> wp m Q' w.
Proof. intros (a & w1 & E & H) HQ. exists a, w1. auto. Qed.

Lemma wp_read Q (f : World -> A) w : Q (f w) w -> wp (read f) Q w.
Proof. eexists _, _. done. Qed.

Lemma wp_lift Q r a w : r = Ok a -> Q a w -> wp (lift r) Q w.
Proof. intros -> H. eexists _, _. done. Qed.

Lemma wp_run m Q w : wp m Q w -> exists a w', m w = Ok (a, w') /\ Q a w'.
Proof. done. Qed.
End Wp.

Lemma wp_modify (Q : unit -> World -> Prop) f w : Q tt (f w) -> wp (modify f) Q w.
Proof. eexists _, _. done. Qed.

Lemma wp_modify_fb (Q : unit -> World -> Prop) f w : Q tt (set_fb (f (w_fb w)) w) -> wp (modify_fb f) Q w.
Proof. apply wp_modify. Qed.

Lemma wp_when (Q : unit -> World -> Prop) (b : bool) m w :
  (b = true -> wp m Q w) -> (b = false -> Q tt w) -> wp (when b m) Q w.
Proof. destruct b; cbn; intros H1 H2; [by apply H1|apply wp_ret; auto]. Qed.

(** ** Computations that move no pointer *)

(** What the threads share, apart from the objects. *)
Definition tables (w : World) :=
  (m_contexts (w_fb w), m_windows (w_fb w), m_colorbuffers (w_fb w), w_threads w, s_theFrameBuffer (w_fb w)).

Record quiet (w w' : World) : Prop := mkQuiet {
  q_tables : tables w' = tables w;
  q_contexts : w_contexts w' = w_contexts w;
  q_windows : w_windows w' = w_windows w;
  q_color_counts : s_counts (w_colors w') = s_counts (w_colors w);
  q_colors : forall a, is_Some (s_objects (w_colors w') !! a) <-> is_Some (s_objects (w_colors w) !! a);
  q_next : w_next w <= w_next w'
}.

#[export] Instance quiet_preorder : PreOrder quiet.
Proof.
  split.
  - intros w. split; [done..|lia].
  - intros w1 w2 w3 [] []. split; try congruence; [|lia]. intros a. by rewrite q_colors1.
Qed.

Definition Quiet_if (P : World -> Prop) {A} (m : M A) : Prop :=
  forall w, P w -> wp m (fun _ w' => quiet w w') w.
Abbreviation Quiet := (Quiet_if (fun _ => True)).
Definition stable (P : World -> Prop) : Prop := forall w w', quiet w w' -> P w -> P w'.

Create HintDb quiet.

Section Quiet.
Variable P : World -> Prop.
Hypothesis HP : stable P.

Lemma Quiet_any {A} (m : M A) : Quiet m -> Quiet_if P m.
Proof. intros H w _. by apply H. Qed.

Lemma Quiet_bind {A B} (m : M A) (k : A -> M B) :
  Quiet_if P m -> (forall a, Quiet_if P (k a)) -> Quiet_if P (mbind k m).
Proof.
  intros Hm Hk w Hw. apply wp_bind. eapply wp_mono; [by apply Hm|]. cbv beta. intros a w1 H1.
  eapply wp_mono; [apply Hk; by eapply HP|]. cbv beta. intros b w2 H2. by etransitivity.
Qed.

Lemma Quiet_ret {A} (a : A) : Quiet_if P (mret a).
Proof. intros w _. apply wp_ret. done. Qed.

Lemma Quiet_read {A} (f : World -> A) : Quiet_if P (read f).
Proof. intros w _. apply wp_read. done. Qed.

Lemma Quiet_when b m : Quiet_if P m -> Quiet_if P (when b m).
Proof. intros H. destruct b; [done|apply Quiet_ret]. Qed.

Lemma Quiet_ite {A} (b : bool) (m m' : M A) : Quiet_if P m -> Quiet_if P m' -> Quiet_if P (if b then m else m').
Proof. by destruct b. Qed.
End Quiet.

Lemma quiet_step {A} (m : M A) w : Quiet m -> wp m (fun _ w' => quiet w w') w.
Proof. intros H. by apply H. Qed.

Lemma stable_true : stable (fun _ => True).
Proof. done. Qed.

#[export] Hint Resolve stable_true Quiet_ret Quiet_read : quiet.

(** Leaves to [quiet] what is not sequence or choice. *)
Ltac quiet_go :=
  repeat first
    [ progress intros
    | solve [auto with quiet]
    | solve [apply Quiet_any; auto with quiet]
    | apply Quiet_bind; [auto with quiet| |]
    | apply Quiet_when
    | apply Quiet_ite
    | match goal with |- Quiet_if _ (match ?x with _ => _ end) => destruct x end ].

Section Env.
Variable env : nat -> Z.
Variable s_fbConfigs : list Z.

Lemma Quiet_gl name args : Quiet (gl name args).
Proof. intros w _. apply wp_modify. done. Qed.

Lemma Quiet_fresh : Quiet fresh.
Proof. intros w _. eexists _, _. split; [done|]. split; cbn; [done..|lia]. Qed.

Lemma Quiet_ask : Quiet (ask env).
Proof. intros w _. eexists _, _. split; [done|]. split; [done..|cbn; lia]. Qed.

Lemma Quiet_current f : Quiet (modify (fun w => set_current (f w) w)).
Proof. intros w _. by apply wp_modify. Qed.

(** The frame buffer's fields other than its tables. *)
Definition off_tables (f : FrameBuffer -> FrameBuffer) : Prop :=
  forall fb, m_contexts (f fb) = m_contexts fb /\ m_windows (f fb) = m_windows fb /\
             m_colorbuffers (f fb) = m_colorbuffers fb /\ s_theFrameBuffer (f fb) = s_theFrameBuffer fb.

Lemma Quiet_modify_fb f : off_tables f -> Quiet (modify_fb f).
Proof.
  intros Hf w _. apply wp_modify_fb. split; cbn; try done. unfold tables. cbn.
  by destruct (Hf (w_fb w)) as (-> & -> & -> & ->).
Qed.

Lemma off_prev b : off_tables (fb_prev b). Proof. done. Qed.
Lemma off_subwin s n : off_tables (fb_subwin s n). Proof. done. Qed.
Lemma off_posted n : off_tables (fb_posted n). Proof. done. Qed.
Lemma off_rotated z : off_tables (fb_rotated z). Proof. done. Qed.
Lemma off_initialized : off_tables fb_initialized. Proof. done. Qed.
Lemma off_handle n : off_tables (fb_nextHandle n). Proof. done. Qed.

Hint Resolve Quiet_gl Quiet_fresh Quiet_ask Quiet_current Quiet_modify_fb
  off_prev off_subwin off_posted off_rotated off_initialized off_handle : quiet.

Lemma Quiet_create_handle name args : Quiet (create_handle env name args).
Proof. unfold create_handle. quiet_go. Qed.
Hint Resolve Quiet_create_handle : quiet.

Lemma Quiet_makeCurrent t b : Quiet (eglMakeCurrent env t b).
Proof. unfold eglMakeCurrent. quiet_go. Qed.
Hint Resolve Quiet_makeCurrent : quiet.

Lemma Quiet_getCurrent t : Quiet (eglGetCurrent t).
Proof. unfold eglGetCurrent. quiet_go. Qed.
Hint Resolve Quiet_getCurrent : quiet.

Lemma Quiet_bind_locked t : Quiet (bind_locked env t).
Proof. unfold bind_locked. quiet_go. Qed.

Lemma Quiet_unbind_locked t : Quiet (unbind_locked env t).
Proof. unfold unbind_locked. quiet_go. Qed.

Lemma Quiet_bindSubwin_locked t : Quiet (bindSubwin_locked env t).
Proof. unfold bindSubwin_locked, initGLState. quiet_go. Qed.
Hint Resolve Quiet_bind_locked Quiet_unbind_locked Quiet_bindSubwin_locked : quiet.

Lemma Quiet_delete_context c : Quiet (delete_RenderContext c).
Proof. unfold delete_RenderContext. quiet_go. Qed.

Lemma Quiet_delete_color t c : Quiet (delete_ColorBuffer env t c).
Proof. unfold delete_ColorBuffer. quiet_go. Qed.

Lemma Quiet_new_texture fmt w h image : (zBuff_size fmt w h <? 0) = false -> Quiet (new_texture fmt w h image).
Proof.
  intros Hn. unfold new_texture. cbv zeta.
  assert (E : ((if image then zBuff_size fmt w h else 0) <? 0) = false) by (by destruct image).
  rewrite E. quiet_go.
Qed.
Hint Resolve Quiet_delete_context Quiet_delete_color : quiet.

Lemma Quiet_ColorBuffer_create t w h f :
  image_too_large w h f = false -> Quiet (ColorBuffer_create env t w h f).
Proof.
  unfold image_too_large, ColorBuffer_create. destruct (tex_internal_format f) as [fmt|]; intros Hn; [|quiet_go].
  pose proof (Quiet_new_texture fmt w h true Hn). pose proof (Quiet_new_texture fmt w h false Hn). quiet_go.
Qed.

Lemma Quiet_drawTexQuad b : Quiet (drawTexQuad b).
Proof. unfold drawTexQuad. quiet_go. Qed.

Lemma Quiet_resizePbuffer t w h x : Quiet (resizePbuffer env t w h x).
Proof. unfold resizePbuffer. cbv zeta. quiet_go. Qed.
Hint Resolve Quiet_drawTexQuad Quiet_resizePbuffer : quiet.

(** ** Uses of objects that exist *)

Definition color_alive (p : option Z) (w : World) : Prop :=
  exists a, p = Some a /\ is_Some (s_objects (w_colors w) !! a).
Definition context_alive (p : option Z) (w : World) : Prop :=
  exists a, p = Some a /\ is_Some (s_objects (w_contexts w) !! a).
Definition threads_alive (w : World) : Prop :=
  forall t i, w_threads w !! t = Some i -> currContext i = None \/ context_alive (currContext i) w.

(** The colour buffer exists, and so do the contexts of the threads. *)
Definition ready (p : option Z) (w : World) : Prop := color_alive p w /\ threads_alive w.

Lemma stable_context p : stable (context_alive p).
Proof. intros w w' [] (a & -> & H). exists a. split; [done|]. by rewrite q_contexts0. Qed.

Lemma stable_ready p : stable (ready p).
Proof.
  intros w w' Hq [(a & -> & H) Ht]. split.
  - exists a. split; [done|]. by rewrite (q_colors _ _ Hq).
  - intros t i Hi. assert (E : w_threads w' = w_threads w) by (pose proof (q_tables _ _ Hq) as E; by injection E).
    rewrite E in Hi. destruct (Ht t i Hi) as [?|H1]; [by left|right]. by eapply stable_context.
Qed.
Hint Resolve stable_context stable_ready : quiet.

Lemma wp_color Q p w : color_alive p w -> (forall c, Q c w) -> wp (color p) Q w.
Proof.
  intros (a & -> & c & E) H. exists c, w. split; [|done]. unfold color, arrow, mbind, M_bind, read, lift. cbn.
  by rewrite E.
Qed.

Lemma Quiet_color p : Quiet_if (ready p) (color p).
Proof. intros w [H _]. apply wp_color; [done|]. done. Qed.

Lemma Quiet_put_color p c : Quiet_if (ready p) (put_color p c).
Proof.
  intros w [(a & -> & c0 & E) _]. unfold put_color, put_object, arrow.
  apply wp_bind, wp_read, wp_bind. eapply wp_lift; [cbn; by rewrite E|]. apply wp_modify.
  split; cbn; try done. intros b. destruct (decide (a = b)) as [->|]; [|by rewrite lookup_insert_ne].
  rewrite lookup_insert_eq, E. split; eauto.
Qed.
Hint Resolve Quiet_color Quiet_put_color : quiet.

Lemma wp_context Q p w : context_alive p w -> (forall c, Q c w) -> wp (context p) Q w.
Proof.
  intros (a & -> & c & E) H. exists c, w. split; [|done]. unfold context, arrow, mbind, M_bind, read, lift. cbn.
  by rewrite E.
Qed.

(** The context of the calling thread, where the code asks for it. *)
Lemma Quiet_current_context {A} p t (none : M A) (f : option Z -> RenderContext -> M A) :
  Quiet_if (ready p) none -> (forall q c, Quiet_if (ready p) (f q c)) ->
  Quiet_if (ready p) (i ← thread_info t;
                      match currContext i with
                      | None => none
                      | Some _ => c ← context (currContext i); f (currContext i) c
                      end).
Proof.
  intros Hn Hf w Hw. unfold thread_info. apply wp_bind, wp_read. cbv beta.
  destruct (w_threads w !! t) as [i|] eqn:Ei; cbn [default no_thread currContext]; [|by apply Hn].
  cbn [from_option id]. destruct (proj2 Hw t i Ei) as [->|H]; [by apply Hn|].
  destruct (currContext i) eqn:Ec; [|by apply Hn].
  apply wp_bind, wp_context; [done|]. intros c. by apply Hf.
Qed.

Lemma Quiet_subUpdate t p x y w h f ty : Quiet_if (ready p) (subUpdate env t p x y w h f ty).
Proof. unfold subUpdate. quiet_go. Qed.

Lemma Quiet_bind_fbo p : Quiet_if (ready p) (bind_fbo env p).
Proof. unfold bind_fbo. cbv zeta. quiet_go. Qed.
Hint Resolve Quiet_subUpdate Quiet_bind_fbo : quiet.

Lemma Quiet_blit t p : Quiet_if (ready p) (blitFromCurrentReadBuffer env t p).
Proof.
  apply (Quiet_current_context p t (mret false) (fun _ _ => _)); [quiet_go|]. intros q c. quiet_go.
Qed.

Lemma Quiet_bind_image name target t p : Quiet_if (ready p) (bind_image name target t p).
Proof.
  unfold bind_image. apply Quiet_bind; [auto with quiet..|]. intros c. apply Quiet_ite; [|quiet_go].
  apply (Quiet_current_context p t (mret false) (fun _ _ => _)); [quiet_go|]. intros q x. quiet_go.
Qed.

Lemma Quiet_ColorBuffer_post p : Quiet_if (ready p) (ColorBuffer_post p).
Proof. unfold ColorBuffer_post. quiet_go. Qed.
Hint Resolve Quiet_blit Quiet_bind_image Quiet_ColorBuffer_post : quiet.

Lemma Quiet_RenderContext_create cfg p gl2 :
  Quiet_if (fun w => p = None \/ context_alive p w) (RenderContext_create env s_fbConfigs cfg p gl2).
Proof.
  assert (Hs : stable (fun w => p = None \/ context_alive p w)).
  { intros w w' Hq [?|H]; [by left|right]. by eapply stable_context. }
  unfold RenderContext_create. destruct (FBConfig_get _ _); [|quiet_go].
  apply Quiet_bind; [done| |intros; quiet_go].
  destruct p; [|quiet_go]. intros w [?|H]; [done|]. apply wp_bind, wp_context; [done|]. intros c. by apply wp_ret.
Qed.

(** ** The stores agree with the pointers *)

(** [cu], [wu] and [bu] count the pointers to contexts, windows and colour buffers;
    none has more than [K]. *)
Record St (K : nat) (cu wu bu : Z -> nat) T (O : gmap Z WindowSurface) (w : World) : Prop := mkSt {
  st_contexts : counts_ok (w_contexts w) cu;
  st_windows : counts_ok (w_windows w) wu;
  st_colors : counts_ok (w_colors w) bu;
  st_fresh : forall a, w_next w <= a ->
    s_objects (w_contexts w) !! a = None /\ s_objects (w_windows w) !! a = None /\
    s_objects (w_colors w) !! a = None;
  st_bound : forall a, (cu a <= K /\ wu a <= K /\ bu a <= K)%nat;
  st_tables : tables w = T;
  st_objects : s_objects (w_windows w) = O
}.

Definition small (K : nat) : Prop := Z.of_nat K < 2 ^ 31 - 64.

Lemma St_quiet K cu wu bu T O w w' : quiet w w' -> St K cu wu bu T O w -> St K cu wu bu T O w'.
Proof.
  intros [Q1 Q2 Q3 Q4 Q5 Q6] [H1 H2 H3 H4 H5 H6 H7].
  split; rewrite ?Q2, ?Q3; try done; [| |congruence].
  - intros a. destruct (H3 a) as (E1 & E2 & E3). by rewrite Q5, Q4.
  - intros a Ha. destruct (H4 a) as (E1 & E2 & E3); [lia|]. split_and!; [done..|].
    destruct (s_objects (w_colors w') !! a) eqn:E; [|done].
    destruct (proj1 (Q5 a)) as [x Hx]; [by rewrite E|congruence].
Qed.

Lemma St_ext K cu wu bu cu' wu' bu' T O w :
  (forall a, cu a = cu' a) -> (forall a, wu a = wu' a) -> (forall a, bu a = bu' a) ->
  St K cu wu bu T O w -> St K cu' wu' bu' T O w.
Proof.
  intros Hc Hw Hb [H1 H2 H3 H4 H5 H6 H7].
  split; [eapply counts_ok_ext; [|done]; done..|done| |done|done].
  intros a. rewrite <-Hc, <-Hw, <-Hb. apply H5.
Qed.

Lemma St_mono K K' cu wu bu T O w : (K <= K')%nat -> St K cu wu bu T O w -> St K' cu wu bu T O w.
Proof. intros HK [H1 H2 H3 H4 H5 H6 H7]. split; try done. intros a. specialize (H5 a). lia. Qed.

Lemma wp_quiet {A} (P : World -> Prop) (m : M A) K cu wu bu T O w (Q : A -> World -> Prop) :
  Quiet_if P m -> P w -> St K cu wu bu T O w ->
  (forall a w', quiet w w' -> St K cu wu bu T O w' -> Q a w') -> wp m Q w.
Proof.
  intros Hm HP HS HQ. eapply wp_mono; [by apply Hm|]. cbv beta. intros a w' Hq.
  apply HQ; [done|by eapply St_quiet].
Qed.

Lemma points_le1 p a : (points p a <= 1)%nat.
Proof. unfold points. destruct (decide _); lia. Qed.

(** Pointers to contexts. *)
Lemma use_context_ok K cu wu bu T O w p :
  St K cu wu bu T O w -> small K -> (forall a, p = Some a -> 0 < cu a)%nat ->
  wp (use_context p) (fun _ w' => St (S K) (fun a => cu a + points p a)%nat wu bu T O w') w.
Proof.
  intros [H1 H2 H3 H4 H5 H6 H7] HK Hp. unfold small in HK.
  destruct (use_ok _ cu p H1 Hp) as (s & E & Eo & Hc); [intros a _; specialize (H5 a); lia|].
  apply wp_bind, wp_read, wp_bind. eapply wp_lift; [done|]. apply wp_modify.
  split; cbn [set_contexts w_contexts w_windows w_colors w_next]; rewrite ?Eo; try done.
  intros a. specialize (H5 a). pose proof (points_le1 p a). lia.
Qed.

Lemma drop_context_ok K cu wu bu T O w p :
  St K (fun a => cu a + points p a)%nat wu bu T O w ->
  wp (drop_context p) (fun _ w' => St K cu wu bu T O w') w.
Proof.
  intros [H1 H2 H3 H4 H5 H6 H7]. destruct (release_ok _ cu p H1) as (dead & s & E & Hc & Hs).
  apply wp_bind, wp_read, wp_bind. eapply wp_lift; [done|]. cbv beta iota. apply wp_bind, wp_modify.
  assert (HS : St K cu wu bu T O (set_contexts s w)).
  { split; cbn [set_contexts w_contexts w_windows w_colors w_next]; try done.
    - intros a Ha. destruct (H4 a Ha) as (E1 & E2 & E3). split_and!; [|done..].
      destruct p as [b|]; [|by destruct Hs as [_ ->]].
      destruct (Nat.eqb _ 0); destruct Hs as [_ ->]; [|done]. rewrite lookup_delete_None. auto.
    - intros a. specialize (H5 a). cbv beta in H5. lia. }
  destruct dead as [c|]; [|by apply wp_ret].
  eapply wp_quiet; [apply Quiet_delete_context|done|exact HS|done].
Qed.

Lemma assign_context_ok K cu wu bu T O w old new :
  St K (fun a => cu a + points old a)%nat wu bu T O w -> small K -> (forall a, new = Some a -> 0 < cu a)%nat ->
  wp (assign_context old new) (fun _ w' => St (S K) (fun a => cu a + points new a)%nat wu bu T O w') w.
Proof.
  intros HS HK Hn. unfold assign_context. destruct (decide (old = new)) as [->|_].
  - apply wp_ret. eapply St_mono; [|done]. lia.
  - apply wp_bind. eapply wp_mono; [by apply drop_context_ok|]. cbv beta. intros _ w1 H1. by apply use_context_ok.
Qed.

(** Pointers to colour buffers. *)
Lemma use_color_ok K cu wu bu T O w p :
  St K cu wu bu T O w -> small K -> (forall a, p = Some a -> 0 < bu a)%nat ->
  wp (use_color p) (fun _ w' => St (S K) cu wu (fun a => bu a + points p a)%nat T O w') w.
Proof.
  intros [H1 H2 H3 H4 H5 H6 H7] HK Hp. unfold small in HK.
  destruct (use_ok _ bu p H3 Hp) as (s & E & Eo & Hc); [intros a _; specialize (H5 a); lia|].
  apply wp_bind, wp_read, wp_bind. eapply wp_lift; [done|]. apply wp_modify.
  split; cbn [set_colors w_contexts w_windows w_colors w_next]; rewrite ?Eo; try done.
  intros a. specialize (H5 a). pose proof (points_le1 p a). lia.
Qed.

Lemma drop_color_ok K cu wu bu T O w t p :
  St K cu wu (fun a => bu a + points p a)%nat T O w ->
  wp (drop_color env t p) (fun _ w' => St K cu wu bu T O w') w.
Proof.
  intros [H1 H2 H3 H4 H5 H6 H7]. destruct (release_ok _ bu p H3) as (dead & s & E & Hc & Hs).
  apply wp_bind, wp_read, wp_bind. eapply wp_lift; [done|]. cbv beta iota. apply wp_bind, wp_modify.
  assert (HS : St K cu wu bu T O (set_colors s w)).
  { split; cbn [set_colors w_contexts w_windows w_colors w_next]; try done.
    - intros a Ha. destruct (H4 a Ha) as (E1 & E2 & E3). split_and!; [done..|].
      destruct p as [b|]; [|by destruct Hs as [_ ->]].
      destruct (Nat.eqb _ 0); destruct Hs as [_ ->]; [|done]. rewrite lookup_delete_None. auto.
    - intros a. specialize (H5 a). cbv beta in H5. lia. }
  destruct dead as [c|]; [|by apply wp_ret].
  eapply wp_quiet; [apply Quiet_delete_color|done|exact HS|done].
Qed.

Lemma assign_color_ok K cu wu bu T O w t old new :
  St K cu wu (fun a => bu a + points old a)%nat T O w -> small K -> (forall a, new = Some a -> 0 < bu a)%nat ->
  wp (assign_color env t old new) (fun _ w' => St (S K) cu wu (fun a => bu a + points new a)%nat T O w') w.
Proof.
  intros HS HK Hn. unfold assign_color. destruct (decide (old = new)) as [->|_].
  - apply wp_ret. eapply St_mono; [|done]. lia.
  - apply wp_bind. eapply wp_mono; [by apply drop_color_ok|]. cbv beta. intros _ w1 H1. by apply use_color_ok.
Qed.

(** New objects, held by one local variable. *)
Lemma new_context_ok K cu wu bu T O w c :
  St K cu wu bu T O w ->
  wp (new_context c) (fun a w' => St (S K) (fun b => cu b + points (Some a) b)%nat wu bu T O w') w.
Proof.
  intros [H1 H2 H3 H4 H5 H6 H7]. destruct (H4 (w_next w)) as (E1 & E2 & E3); [lia|].
  apply wp_bind. eexists _, _. split; [done|]. apply wp_bind, wp_modify, wp_ret.
  split; cbn; try done; [by apply construct_ok| |].
  - intros a Ha. destruct (H4 a) as (F1 & F2 & F3); [lia|]. split_and!; [|done..].
    rewrite lookup_insert_ne; [done|lia].
  - intros a. specialize (H5 a). pose proof (points_le1 (Some (w_next w)) a). lia.
Qed.

Lemma new_color_ok K cu wu bu T O w c :
  St K cu wu bu T O w ->
  wp (new_color c) (fun a w' => St (S K) cu wu (fun b => bu b + points (Some a) b)%nat T O w') w.
Proof.
  intros [H1 H2 H3 H4 H5 H6 H7]. destruct (H4 (w_next w)) as (E1 & E2 & E3); [lia|].
  apply wp_bind. eexists _, _. split; [done|]. apply wp_bind, wp_modify, wp_ret.
  split; cbn; try done; [by apply construct_ok| |].
  - intros a Ha. destruct (H4 a) as (F1 & F2 & F3); [lia|]. split_and!; [done..|].
    rewrite lookup_insert_ne; [done|lia].
  - intros a. specialize (H5 a). pose proof (points_le1 (Some (w_next w)) a). lia.
Qed.

(** ** Window surfaces hold pointers, too *)

Definition held_contexts (x : WindowSurface) (a : Z) : nat :=
  (points (m_readContext x) a + points (m_drawContext x) a)%nat.
Definition held_color (x : WindowSurface) (a : Z) : nat := points (m_attachedColorBuffer x) a.

Definition all_contexts (O : gmap Z WindowSurface) (a : Z) : nat := sum_map (fun x => held_contexts x a) O.
Definition all_colors (O : gmap Z WindowSurface) (a : Z) : nat := sum_map (fun x => held_color x a) O.

(** [St] with the pointers inside of the windows apart from those that [cu] and
    [bu] count. *)
Definition Inside (K : nat) (cu wu bu : Z -> nat) T (O : gmap Z WindowSurface) (w : World) : Prop :=
  St K (fun a => cu a + all_contexts O a)%nat wu (fun a => bu a + all_colors O a)%nat T O w.
Definition Held (K : nat) (cu wu bu : Z -> nat) T (w : World) : Prop := exists O, Inside K cu wu bu T O w.

Lemma Held_ext K cu wu bu cu' wu' bu' T w :
  (forall a, cu a = cu' a) -> (forall a, wu a = wu' a) -> (forall a, bu a = bu' a) ->
  Held K cu wu bu T w -> Held K cu' wu' bu' T w.
Proof.
  intros Hc Hw Hb [O HO]. exists O. eapply St_ext; [| | |exact HO]; intros a; cbv beta; rewrite ?Hc, ?Hw, ?Hb; done.
Qed.

Lemma Held_mono K K' cu wu bu T w : (K <= K')%nat -> Held K cu wu bu T w -> Held K' cu wu bu T w.
Proof. intros HK [O HO]. exists O. by eapply St_mono. Qed.

Lemma Held_quiet K cu wu bu T w w' : quiet w w' -> Held K cu wu bu T w -> Held K cu wu bu T w'.
Proof. intros Hq [O HO]. exists O. by eapply St_quiet. Qed.

Lemma wp_held {A} (P : World -> Prop) (m : M A) K cu wu bu T w (Q : A -> World -> Prop) :
  Quiet_if P m -> P w -> Held K cu wu bu T w ->
  (forall a w', Held K cu wu bu T w' -> Q a w') -> wp m Q w.
Proof.
  intros Hm HP HS HQ. eapply wp_mono; [by apply Hm|]. cbv beta. intros a w' Hq.
  apply HQ. by eapply Held_quiet.
Qed.

Lemma held_use_context K cu wu bu T w p :
  Held K cu wu bu T w -> small K -> (forall a, p = Some a -> 0 < cu a)%nat ->
  wp (use_context p) (fun _ w' => Held (S K) (fun a => cu a + points p a)%nat wu bu T w') w.
Proof.
  intros [O HO] HK Hp. eapply wp_mono; [eapply use_context_ok; [done..|]|].
  - intros a Ha. specialize (Hp a Ha). cbv beta. lia.
  - cbv beta. intros _ w' HS. exists O. eapply St_ext; [| | |exact HS]; intros a; cbv beta; lia.
Qed.

Lemma held_drop_context K cu wu bu T w p :
  Held K (fun a => cu a + points p a)%nat wu bu T w ->
  wp (drop_context p) (fun _ w' => Held K cu wu bu T w') w.
Proof.
  intros [O HO]. eapply wp_mono; [eapply (drop_context_ok K (fun a => cu a + all_contexts O a)%nat)|].
  - eapply St_ext; [| | |exact HO]; intros a; cbv beta; [lia|done..].
  - cbv beta. intros _ w' HS. by exists O.
Qed.

Lemma held_assign_context K cu wu bu T w old new :
  Held K (fun a => cu a + points old a)%nat wu bu T w -> small K -> (forall a, new = Some a -> 0 < cu a)%nat ->
  wp (assign_context old new) (fun _ w' => Held (S K) (fun a => cu a + points new a)%nat wu bu T w') w.
Proof.
  intros HS HK Hn. unfold assign_context. destruct (decide (old = new)) as [->|_].
  - apply wp_ret. eapply Held_mono; [|done]. lia.
  - apply wp_bind. eapply wp_mono; [by apply held_drop_context|]. cbv beta. intros _ w1 H1. by apply held_use_context.
Qed.

Lemma held_use_color K cu wu bu T w p :
  Held K cu wu bu T w -> small K -> (forall a, p = Some a -> 0 < bu a)%nat ->
  wp (use_color p) (fun _ w' => Held (S K) cu wu (fun a => bu a + points p a)%nat T w') w.
Proof.
  intros [O HO] HK Hp. eapply wp_mono; [eapply use_color_ok; [done..|]|].
  - intros a Ha. specialize (Hp a Ha). cbv beta. lia.
  - cbv beta. intros _ w' HS. exists O. eapply St_ext; [| | |exact HS]; intros a; cbv beta; lia.
Qed.

Lemma held_drop_color K cu wu bu T w t p :
  Held K cu wu (fun a => bu a + points p a)%nat T w ->
  wp (drop_color env t p) (fun _ w' => Held K cu wu bu T w') w.
Proof.
  intros [O HO]. eapply wp_mono; [eapply (drop_color_ok K _ _ (fun a => bu a + all_colors O a)%nat)|].
  - eapply St_ext; [| | |exact HO]; intros a; cbv beta; [done..|lia].
  - cbv beta. intros _ w' HS. by exists O.
Qed.

Lemma held_assign_color K cu wu bu T w t old new :
  Held K cu wu (fun a => bu a + points old a)%nat T w -> small K -> (forall a, new = Some a -> 0 < bu a)%nat ->
  wp (assign_color env t old new) (fun _ w' => Held (S K) cu wu (fun a => bu a + points new a)%nat T w') w.
Proof.
  intros HS HK Hn. unfold assign_color. destruct (decide (old = new)) as [->|_].
  - apply wp_ret. eapply Held_mono; [|done]. lia.
  - apply wp_bind. eapply wp_mono; [by apply held_drop_color|]. cbv beta. intros _ w1 H1. by apply held_use_color.
Qed.

Lemma held_new_context K cu wu bu T w c :
  Held K cu wu bu T w ->
  wp (new_context c) (fun a w' => Held (S K) (fun b => cu b + points (Some a) b)%nat wu bu T w') w.
Proof.
  intros [O HO]. eapply wp_mono; [by eapply new_context_ok|]. cbv beta. intros a w' HS. exists O.
  eapply St_ext; [| | |exact HS]; intros b; cbv beta; lia.
Qed.

Lemma held_new_color K cu wu bu T w c :
  Held K cu wu bu T w ->
  wp (new_color c) (fun a w' => Held (S K) cu wu (fun b => bu b + points (Some a) b)%nat T w') w.
Proof.
  intros [O HO]. eapply wp_mono; [by eapply new_color_ok|]. cbv beta. intros a w' HS. exists O.
  eapply St_ext; [| | |exact HS]; intros b; cbv beta; lia.
Qed.

Lemma held_new_window K cu wu bu T w x :
  Held K cu wu bu T w -> (forall a, held_contexts x a = 0 /\ held_color x a = 0)%nat ->
  wp (new_window x) (fun a w' => Held (S K) cu (fun b => wu b + points (Some a) b)%nat bu T w') w.
Proof.
  intros [O [H1 H2 H3 H4 H5 H6 H7]] Hx. destruct (H4 (w_next w)) as (E1 & E2 & E3); [lia|].
  apply wp_bind. eexists _, _. split; [done|]. apply wp_bind, wp_modify, wp_ret.
  exists (<[w_next w := x]> O). rewrite H7 in E2.
  assert (Hc : forall a, all_contexts (<[w_next w := x]> O) a = all_contexts O a).
  { intros a. unfold all_contexts. rewrite sum_map_insert by done. by rewrite (proj1 (Hx a)). }
  assert (Hb : forall a, all_colors (<[w_next w := x]> O) a = all_colors O a).
  { intros a. unfold all_colors. rewrite sum_map_insert by done. by rewrite (proj2 (Hx a)). }
  split; cbn; try done.
  - eapply counts_ok_ext; [|exact H1]. intros a. cbv beta. by rewrite Hc.
  - apply construct_ok; [done|by rewrite H7].
  - eapply counts_ok_ext; [|exact H3]. intros a. cbv beta. by rewrite Hb.
  - intros a Ha. destruct (H4 a) as (F1 & F2 & F3); [lia|]. split_and!; [done| |done].
    rewrite lookup_insert_ne; [done|lia].
  - intros a. specialize (H5 a). rewrite Hc, Hb. pose proof (points_le1 (Some (w_next w)) a). lia.
  - by rewrite H7.
Qed.

Lemma held_use_window K cu wu bu T w p :
  Held K cu wu bu T w -> small K -> (forall a, p = Some a -> 0 < wu a)%nat ->
  wp (use_window p) (fun _ w' => Held (S K) cu (fun a => wu a + points p a)%nat bu T w') w.
Proof.
  intros [O [H1 H2 H3 H4 H5 H6 H7]] HK Hp. unfold small in HK.
  destruct (use_ok _ wu p H2 Hp) as (s & E & Eo & Hc); [intros a _; specialize (H5 a); lia|].
  apply wp_bind, wp_read, wp_bind. eapply wp_lift; [done|]. apply wp_modify. exists O.
  split; cbn [set_windows w_contexts w_windows w_colors w_next]; rewrite ?Eo; try done.
  intros a. specialize (H5 a). pose proof (points_le1 p a). lia.
Qed.

(** The pointers of a window are moved out when it is deleted. *)
Lemma held_delete_window K cu wu bu T w t x :
  Held K (fun a => cu a + held_contexts x a)%nat wu (fun a => bu a + held_color x a)%nat T w ->
  wp (delete_WindowSurface env t x) (fun _ w' => Held K cu wu bu T w') w.
Proof.
  intros HS. unfold delete_WindowSurface. apply wp_bind.
  eapply wp_held; [apply Quiet_gl|done|exact HS|]. intros _ w1 H1. apply wp_bind.
  eapply wp_mono; [eapply (held_drop_context K (fun a => cu a + points (m_readContext x) a)%nat)|].
  { eapply Held_ext; [| | |exact H1]; intros a; unfold held_contexts; cbv beta; [lia|done..]. }
  cbv beta. intros _ w2 H2. apply wp_bind. eapply wp_mono; [by eapply held_drop_context|].
  cbv beta. intros _ w3 H3. by apply held_drop_color.
Qed.

Lemma held_drop_window K cu wu bu T w t p :
  Held K cu (fun a => wu a + points p a)%nat bu T w ->
  wp (drop_window env t p) (fun _ w' => Held K cu wu bu T w') w.
Proof.
  intros [O [H1 H2 H3 H4 H5 H6 H7]]. destruct (release_ok _ wu p H2) as (dead & s & E & Hc & Hs).
  apply wp_bind, wp_read, wp_bind. eapply wp_lift; [done|]. cbv beta iota. apply wp_bind, wp_modify.
  assert (HS : dead = None -> s_objects s = O -> Held K cu wu bu T (set_windows s w)).
  { intros -> Eo. exists O. split; cbn [set_windows w_contexts w_windows w_colors w_next]; rewrite ?Eo; try done.
    - intros a Ha. destruct (H4 a Ha) as (F1 & F2 & F3). rewrite H7 in F2. done.
    - intros a. specialize (H5 a). cbv beta in H5. lia. }
  destruct p as [b|].
  2:{ destruct Hs as [-> ->]. apply wp_ret. by apply HS. }
  destruct (Nat.eqb_spec (wu b) 0); destruct Hs as [-> Eo]; rewrite H7 in *; [|by apply wp_ret, HS].
  destruct (O !! b) as [x|] eqn:Ex.
  2:{ destruct (H2 b) as [Hb _]. rewrite points_self, H7, Ex in Hb. destruct Hb as [_ [y Hy]]; [lia|done]. }
  apply held_delete_window.
  exists (delete b O).
  assert (Ec : forall a, all_contexts O a = (held_contexts x a + all_contexts (delete b O) a)%nat)
    by (intros a; exact (sum_map_delete (fun x => held_contexts x a) O b x Ex)).
  assert (Eb : forall a, all_colors O a = (held_color x a + all_colors (delete b O) a)%nat)
    by (intros a; exact (sum_map_delete (fun x => held_color x a) O b x Ex)).
  split; cbn [set_windows w_contexts w_windows w_colors w_next]; rewrite ?Eo; try done.
  - eapply counts_ok_ext; [|exact H1]. intros a. cbv beta. rewrite Ec. lia.
  - eapply counts_ok_ext; [|exact H3]. intros a. cbv beta. rewrite Eb. lia.
  - intros a Ha. destruct (H4 a Ha) as (F1 & F2 & F3). split_and!; [done| |done].
    rewrite lookup_delete_None. auto.
  - intros a. specialize (H5 a). cbv beta in H5. rewrite Ec, Eb in H5. lia.
Qed.

Lemma held_assign_window K cu wu bu T w t old new :
  Held K cu (fun a => wu a + points old a)%nat bu T w -> small K -> (forall a, new = Some a -> 0 < wu a)%nat ->
  wp (assign_window env t old new) (fun _ w' => Held (S K) cu (fun a => wu a + points new a)%nat bu T w') w.
Proof.
  intros HS HK Hn. unfold assign_window. destruct (decide (old = new)) as [->|_].
  - apply wp_ret. eapply Held_mono; [|done]. lia.
  - apply wp_bind. eapply wp_mono; [by apply held_drop_window|]. cbv beta. intros _ w1 H1. by apply held_use_window.
Qed.

(** ** Methods of a window surface *)

Lemma wp_window K cu wu bu T O w a (Q : WindowSurface -> World -> Prop) :
  St K cu wu bu T O w -> (0 < wu a)%nat -> (forall x, O !! a = Some x -> Q x w) -> wp (window (Some a)) Q w.
Proof.
  intros HS Ha HQ. destruct (counts_ok_alive _ _ a (st_windows _ _ _ _ _ _ _ HS) Ha) as [x Hx].
  exists x, w. split; [|by apply HQ; rewrite <-(st_objects _ _ _ _ _ _ _ HS)].
  unfold window, arrow, mbind, M_bind, read, lift. cbn. by rewrite Hx.
Qed.

Lemma put_window_ok K cu cu1 wu bu bu1 T O w a x x' :
  St K cu1 wu bu1 T O w -> O !! a = Some x ->
  (forall b, cu1 b + held_contexts x b = cu b + held_contexts x' b + all_contexts O b)%nat ->
  (forall b, bu1 b + held_color x b = bu b + held_color x' b + all_colors O b)%nat ->
  wp (put_window (Some a) x') (fun _ w' => Inside K cu wu bu T (<[a := x']> O) w') w.
Proof.
  intros [H1 H2 H3 H4 H5 H6 H7] Hx Hc Hb.
  unfold put_window, put_object, arrow. apply wp_bind, wp_read, wp_bind.
  eapply wp_lift; [cbn; by rewrite H7, Hx|]. apply wp_modify.
  assert (Ec : forall b, cu1 b = (cu b + all_contexts (<[a := x']> O) b)%nat).
  { intros b. pose proof (sum_map_replace (fun x => held_contexts x b) O a x x' Hx) as E. cbv beta in E.
    specialize (Hc b). unfold all_contexts in *. lia. }
  assert (Eb : forall b, bu1 b = (bu b + all_colors (<[a := x']> O) b)%nat).
  { intros b. pose proof (sum_map_replace (fun x => held_color x b) O a x x' Hx) as E. cbv beta in E.
    specialize (Hb b). unfold all_colors in *. lia. }
  split; cbn [set_windows w_contexts w_windows w_colors w_next s_objects]; try done.
  - eapply counts_ok_ext; [|exact H1]. exact Ec.
  - intros b. destruct (H2 b) as (F1 & F2 & F3). split_and!; [|done..]. rewrite <-F1. cbn. rewrite H7.
    destruct (decide (a = b)) as [->|]; [rewrite lookup_insert_eq, Hx; split; eauto|by rewrite lookup_insert_ne].
  - eapply counts_ok_ext; [|exact H3]. exact Eb.
  - intros b Hl. destruct (H4 b Hl) as (F1 & F2 & F3). split_and!; [done| |done].
    rewrite H7 in F2. rewrite lookup_insert_ne; [done|]. intros ->. congruence.
  - intros b. rewrite <-Ec, <-Eb. apply H5.
Qed.

Lemma held_contexts_le O a x b : O !! a = Some x -> (held_contexts x b <= all_contexts O b)%nat.
Proof. apply (sum_map_lookup (fun x => held_contexts x b)). Qed.
Lemma held_color_le O a x b : O !! a = Some x -> (held_color x b <= all_colors O b)%nat.
Proof. apply (sum_map_lookup (fun x => held_color x b)). Qed.

(** One of the two pointers to contexts is assigned. *)
Lemma assign_in_window K cu wu bu T O w a x old new x' :
  Inside K cu wu bu T O w -> small K -> O !! a = Some x -> (forall c, new = Some c -> 0 < cu c)%nat ->
  (forall b, held_contexts x b + points new b = held_contexts x' b + points old b)%nat ->
  (forall b, points old b <= held_contexts x b)%nat -> (forall b, held_color x' b = held_color x b) ->
  wp (assign_context old new;; put_window (Some a) x') (fun _ w' => Held (S K) cu wu bu T w') w.
Proof.
  intros HS HK Hx Hn Hp Hle Hb. apply wp_bind.
  eapply wp_mono.
  { eapply (assign_context_ok K (fun b => cu b + (all_contexts O b - points old b))%nat); [|done|].
    - eapply St_ext; [| | |exact HS]; intros b; cbv beta; [|done..].
      specialize (Hle b). pose proof (held_contexts_le O a x b Hx). lia.
    - intros c Hc. specialize (Hn c Hc). lia. }
  cbv beta. intros _ w1 H1. eapply wp_mono; [eapply (put_window_ok _ cu _ _ bu); [exact H1|exact Hx| |]|].
  3:{ cbv beta. intros _ w2 H2. by eexists. }
  - intros b. cbv beta. specialize (Hp b). specialize (Hle b). pose proof (held_contexts_le O a x b Hx). lia.
  - intros b. cbv beta. rewrite Hb. lia.
Qed.

Lemma bind_read_ok K cu wu bu T w a ctx :
  Held K cu wu bu T w -> small K -> (0 < wu a)%nat -> (forall c, ctx = Some c -> 0 < cu c)%nat ->
  wp (bind_read (Some a) ctx) (fun _ w' => Held (S K) cu wu bu T w') w.
Proof.
  intros [O HS] HK Ha Hc. unfold bind_read. apply wp_bind. eapply wp_window; [exact HS|done|]. intros x Hx.
  eapply assign_in_window; [exact HS|done|exact Hx|done|..]; intros b; unfold held_contexts; cbn; first [done|lia].
Qed.

Lemma bind_draw_ok K cu wu bu T w a ctx :
  Held K cu wu bu T w -> small K -> (0 < wu a)%nat -> (forall c, ctx = Some c -> 0 < cu c)%nat ->
  wp (bind_draw (Some a) ctx) (fun _ w' => Held (S K) cu wu bu T w') w.
Proof.
  intros [O HS] HK Ha Hc. unfold bind_draw. apply wp_bind. eapply wp_window; [exact HS|done|]. intros x Hx.
  eapply assign_in_window; [exact HS|done|exact Hx|done|..]; intros b; unfold held_contexts; cbn; first [done|lia].
Qed.

Lemma small_le K K' : (K <= K')%nat -> small K' -> small K.
Proof. unfold small. lia. Qed.

Lemma call_bind_ok K cu wu bu T w a ctx type :
  Held K cu wu bu T w -> small (3 + K) -> (0 < wu a)%nat -> (forall c, ctx = Some c -> 0 < cu c)%nat ->
  wp (call_bind (Some a) ctx type) (fun _ w' => Held (3 + K) cu wu bu T w') w.
Proof.
  intros HS HK Ha Hc. unfold call_bind. apply wp_bind.
  eapply wp_mono; [eapply held_use_context; [done| |done]; eapply small_le; [|done]; lia|].
  cbv beta. intros _ w1 H1.
  assert (Hc1 : forall c, ctx = Some c -> (0 < cu c + points ctx c)%nat) by (intros c E; specialize (Hc c E); lia).
  apply wp_bind.
  assert (HB : wp (bind (Some a) ctx type)
                 (fun _ w' => Held (3 + K) (fun c => cu c + points ctx c)%nat wu bu T w') w1).
  { destruct type; cbn [bind].
    - eapply wp_mono; [eapply bind_read_ok; [exact H1| |done..]; eapply small_le; [|done]; lia|].
      cbv beta. intros _ w2. apply Held_mono. lia.
    - eapply wp_mono; [eapply bind_draw_ok; [exact H1| |done..]; eapply small_le; [|done]; lia|].
      cbv beta. intros _ w2. apply Held_mono. lia.
    - apply wp_bind. eapply wp_mono; [eapply bind_read_ok; [exact H1| |done..]; eapply small_le; [|done]; lia|].
      cbv beta. intros _ w2 H2. eapply bind_draw_ok; [exact H2| |done..]. eapply small_le; [|done]. lia. }
  eapply wp_mono; [exact HB|]. cbv beta. intros _ w2 H2. by apply held_drop_context.
Qed.

(** A new surface leaves the pointers of the window alone. *)
Lemma resizePbuffer_ok t pw ph x w :
  wp (resizePbuffer env t pw ph x)
    (fun r w' => quiet w w' /\ (forall b, held_contexts r.2 b = held_contexts x b) /\
                 forall b, held_color r.2 b = held_color x b) w.
Proof.
  unfold resizePbuffer. cbv zeta. destruct (_ && _ && _).
  { by apply wp_ret. }
  apply wp_bind, wp_read. apply wp_bind.
  eapply wp_mono; [apply quiet_step; quiet_go|]. cbv beta. intros _ w1 H1. apply wp_bind.
  eapply wp_mono; [apply quiet_step; quiet_go|]. cbv beta. intros _ w2 H2. apply wp_bind.
  eapply wp_mono; [apply quiet_step; quiet_go|]. cbv beta. intros s w3 H3.
  assert (Hq : quiet w w3) by (by do 2 (etransitivity; [eassumption|])).
  destruct (s =? 0); [by apply wp_ret|]. apply wp_bind.
  eapply wp_mono; [apply quiet_step; quiet_go|]. cbv beta. intros _ w4 H4. apply wp_ret.
  split; [by etransitivity|]. done.
Qed.

Lemma color_alive_use K cu wu bu T O w c : St K cu wu bu T O w -> (0 < bu c)%nat -> color_alive (Some c) w.
Proof.
  intros HS Hc. destruct (counts_ok_alive _ _ c (st_colors _ _ _ _ _ _ _ HS) Hc) as [x Hx]. exists c.
  split; [done|]. by rewrite Hx.
Qed.

Lemma setColorBuffer_ok K cu wu bu T w t a c :
  Held K cu wu bu T w -> small (2 + K) -> (0 < wu a)%nat -> (0 < bu c)%nat ->
  wp (setColorBuffer env t (Some a) (Some c)) (fun _ w' => Held (1 + K) cu wu bu T w') w.
Proof.
  intros [O HS] HK Ha Hc. unfold setColorBuffer. apply wp_bind. eapply wp_window; [exact HS|done|]. intros x Hx.
  apply wp_bind. eapply wp_mono.
  { eapply (assign_color_ok K _ _ (fun b => bu b + (all_colors O b - held_color x b))%nat); [| |].
    - eapply St_ext; [| | |exact HS]; intros b; cbv beta; [done..|].
      pose proof (held_color_le O a x b Hx). change (points (m_attachedColorBuffer x) b) with (held_color x b). lia.
    - eapply small_le; [|done]. lia.
    - intros b [= <-]. lia. }
  cbv beta. intros _ w1 H1. cbv zeta. apply wp_bind.
  eapply wp_mono.
  { eapply (put_window_ok _ cu _ _ bu); [exact H1|exact Hx| |]; intros b; cbv beta.
    - unfold held_contexts. cbn. lia.
    - unfold held_color at 3. cbn [m_attachedColorBuffer with_attached].
      pose proof (held_color_le O a x b Hx). lia. }
  cbv beta. intros _ w2 H2. apply wp_bind, wp_color; [eapply color_alive_use; [exact H2|]; cbv beta; lia|].
  intros cb. destruct (_ || _); [|apply wp_ret; by eexists]. apply wp_bind.
  eapply wp_mono.
  { instantiate (1 := fun y w' => quiet w2 w' /\ (forall b, held_contexts y b = held_contexts x b) /\
                                  forall b, held_color y b = points (Some c) b).
    destruct (_ && _); [|by apply wp_ret]. apply wp_bind. eapply wp_mono; [apply resizePbuffer_ok|]. cbv beta.
    intros r w3 (Hq & Hr1 & Hr2). by apply wp_ret. }
  cbv beta. intros y w3 (Hq & Hy1 & Hy2). eapply wp_mono.
  { eapply (put_window_ok _ cu _ _ bu).
    - eapply St_quiet; [exact Hq|exact H2].
    - apply lookup_insert_eq.
    - intros b. cbv beta. change (held_contexts (with_size (cb_width cb) (cb_height cb) y) b) with (held_contexts y b).
      rewrite Hy1. change (held_contexts (with_attached (Some c) x) b) with (held_contexts x b). lia.
    - intros b. cbv beta. change (held_color (with_size (cb_width cb) (cb_height cb) y) b) with (held_color y b).
      rewrite Hy2. change (held_color (with_attached (Some c) x) b) with (points (Some c) b). lia. }
  cbv beta. intros _ w4 H4. by eexists.
Qed.

Lemma attached_alive K cu wu bu T O w a x c :
  Inside K cu wu bu T O w -> O !! a = Some x -> m_attachedColorBuffer x = Some c -> color_alive (Some c) w.
Proof.
  intros HS Hx Ec. eapply color_alive_use; [exact HS|]. cbv beta. pose proof (held_color_le O a x c Hx) as Hl.
  unfold held_color in Hl. rewrite Ec, points_self in Hl. lia.
Qed.

Lemma flush_ok K cu wu bu T w t a :
  Held K cu wu bu T w -> threads_alive w -> (0 < wu a)%nat -> blits_unbound (Some a) w = false ->
  wp (flushColorBuffer env t (Some a)) (fun _ w' => Held K cu wu bu T w') w.
Proof.
  intros [O HS] Ht Ha Hb. unfold flushColorBuffer. apply wp_bind. eapply wp_window; [exact HS|done|]. intros x Hx.
  destruct (m_attachedColorBuffer x) as [c|] eqn:Ec; [|apply wp_ret; by exists O].
  pose proof (attached_alive _ _ _ _ _ _ _ _ _ _ HS Hx Ec) as Hal.
  unfold blitToColorBuffer. apply wp_bind. eapply wp_window; [exact HS|done|]. intros x' Hx'.
  assert (x' = x) as -> by congruence. destruct (_ && _) eqn:Ez; [apply wp_ret; by exists O|].
  rewrite Ec. apply wp_bind. destruct Hal as (c' & [= <-] & cb & Ecb).
  exists cb, w. split.
  { unfold color, arrow, mbind, M_bind, read, lift. cbn. by rewrite Ecb. }
  destruct (_ || _) eqn:Es; [apply wp_ret; by exists O|]. apply wp_bind, wp_read, wp_bind.
  destruct (m_drawContext x) as [d|] eqn:Ed.
  2:{ exfalso. unfold blits_unbound in Hb. cbn in Hb. rewrite (st_objects _ _ _ _ _ _ _ HS), Hx, Ec in Hb.
      cbn in Hb. rewrite Ecb, Ez, Ed in Hb. apply orb_false_iff in Es as [E1 E2]. apply negb_false_iff in E1, E2.
      by rewrite E1, E2 in Hb. }
  apply wp_context.
  { destruct (counts_ok_alive _ _ d (st_contexts _ _ _ _ _ _ _ HS)) as [y Hy]; [|exists d; by rewrite Hy].
    cbv beta. pose proof (held_contexts_le O a x d Hx) as Hl. unfold held_contexts in Hl.
    rewrite Ed, points_self in Hl. lia. }
  intros y. apply (wp_held (ready (Some c)) _ K cu wu bu T); [|split; [exists c; by rewrite Ecb|done]|by exists O|done].
  quiet_go.
Qed.

Lemma flush_unbound t a w : blits_unbound (Some a) w = true -> flushColorBuffer env t (Some a) w = Err NullDeref.
Proof.
  unfold blits_unbound. cbn [mbind option_bind]. destruct (_ !! a) as [x|] eqn:Ex; [|done].
  destruct (m_attachedColorBuffer x) as [c|] eqn:Ec; cbn [mbind option_bind]; [|done].
  destruct (s_objects (w_colors w) !! c) as [cb|] eqn:Ecb; [|done]. intros H.
  apply andb_true_iff in H as [H Hd]. apply bool_decide_eq_true in Hd. apply andb_true_iff in H as [H Hh].
  apply andb_true_iff in H as [H Hw]. apply negb_true_iff in H.
  assert (Hwin : window (Some a) w = Ok (x, w)).
  { unfold window, arrow, mbind, M_bind, read, lift. cbn. by rewrite Ex. }
  assert (Hcol : color (Some c) w = Ok (cb, w)).
  { unfold color, arrow, mbind, M_bind, read, lift. cbn. by rewrite Ecb. }
  unfold flushColorBuffer, mbind, M_bind. rewrite Hwin, Ec. unfold blitToColorBuffer, mbind, M_bind.
  rewrite Hwin, H, Ec, Hcol, Hw, Hh, Hd. done.
Qed.
End Env.

#[export] Hint Resolve Quiet_gl Quiet_fresh Quiet_ask Quiet_current Quiet_modify_fb
  off_prev off_subwin off_posted off_rotated off_initialized off_handle
  Quiet_create_handle Quiet_makeCurrent Quiet_getCurrent Quiet_bind_locked Quiet_unbind_locked
  Quiet_bindSubwin_locked Quiet_delete_context Quiet_delete_color
  Quiet_drawTexQuad Quiet_resizePbuffer stable_context stable_ready
  Quiet_color Quiet_put_color Quiet_subUpdate Quiet_bind_fbo Quiet_blit Quiet_bind_image
  Quiet_ColorBuffer_post : quiet.
