(* ===== verification/RendererTheorems.v ===== *)
(** * The renderer, call by call

    The invariant of [RendererProofs] is kept by every call of the guest and of the
    window's owner, in every thread; what the calls return and what they change. *)
From S2P Require Import Prelude SmartPtr Renderer RendererProofs.

Local Open Scope Z_scope.

(** ** Uses of objects by the tables and the threads *)

Abbreviation Tables := (gmap Z (option Z) * gmap Z (option Z) * gmap Z ColorBufferRef * gmap Z ThreadInfo * bool)%type.

Definition context_uses (T : Tables) (a : Z) : nat :=
  let '(C, _, _, H, _) := T in
  (sum_map (fun p => points p a) C + sum_map (fun i => points (currContext i) a) H)%nat.
Definition window_uses (T : Tables) (a : Z) : nat :=
  let '(_, W, _, H, _) := T in
  (sum_map (fun p => points p a) W +
   sum_map (fun i => points (currDrawSurf i) a + points (currReadSurf i) a)%nat H)%nat.
Definition color_uses (T : Tables) (a : Z) : nat :=
  let '(_, _, B, _, _) := T in sum_map (fun r => points (cbr_cb r) a) B.

(** No table has a null pointer for a window or a colour buffer. *)
Record tables_ok (K : nat) (T : Tables) : Prop := mkTablesOk {
  ok_windows : forall h p, T.1.1.1.2 !! h = Some p -> is_Some p;
  ok_colors : forall h r, T.1.1.2 !! h = Some r -> is_Some (cbr_cb r);
  ok_size : (size (T.1.1.1.1) + size (T.1.1.1.2) <= K)%nat
}.

Definition Inv (K : nat) (w : World) : Prop :=
  Held K (context_uses (tables w)) (window_uses (tables w)) (color_uses (tables w)) (tables w) w /\
  tables_ok K (tables w).

Lemma Held_tables K cu wu bu T w : Held K cu wu bu T w -> tables w = T.
Proof. intros [O HO]. exact (st_tables _ _ _ _ _ _ _ HO). Qed.

Lemma Inv_intro K cu wu bu T w :
  Held K cu wu bu T w -> (forall a, cu a = context_uses T a) -> (forall a, wu a = window_uses T a) ->
  (forall a, bu a = color_uses T a) -> tables_ok K T -> Inv K w.
Proof.
  intros HH Hc Hw Hb Ht. pose proof (Held_tables _ _ _ _ _ _ HH) as <-. split; [|done].
  eapply Held_ext; [..|exact HH]; done.
Qed.

Lemma tables_ok_mono K K' T : (K <= K')%nat -> tables_ok K T -> tables_ok K' T.
Proof. intros HK [H1 H2 H3]. split; [done..|lia]. Qed.

Lemma Inv_mono K K' w : (K <= K')%nat -> Inv K w -> Inv K' w.
Proof. intros HK [H1 H2]. split; [by eapply Held_mono|by eapply tables_ok_mono]. Qed.

Section Env.
Variable env : nat -> Z.
Variable s_fbConfigs : list Z.

Lemma Inv_threads K w : Inv K w -> threads_alive w.
Proof.
  intros [[O HS] _] t i Hi. destruct (currContext i) as [a|] eqn:Ea; [right|by left].
  destruct (counts_ok_alive _ _ a (st_contexts _ _ _ _ _ _ _ HS)) as [x Hx]; [|exists a; by rewrite Hx].
  cbv beta. unfold tables, context_uses. pose proof (sum_map_lookup (fun i => points (currContext i) a) _ _ _ Hi) as Hl.
  cbv beta in Hl. rewrite Ea, points_self in Hl. lia.
Qed.

Lemma context_live K w h a : Inv K w -> m_contexts (w_fb w) !! h = Some (Some a) -> (0 < context_uses (tables w) a)%nat.
Proof.
  intros _ Hh. unfold tables, context_uses. pose proof (sum_map_lookup (fun p => points p a) _ _ _ Hh) as Hl.
  cbv beta in Hl. rewrite points_self in Hl. lia.
Qed.

Lemma window_used w h a : m_windows (w_fb w) !! h = Some (Some a) -> (0 < window_uses (tables w) a)%nat.
Proof.
  intros Hh. unfold tables, window_uses. pose proof (sum_map_lookup (fun p => points p a) _ _ _ Hh) as Hl.
  cbv beta in Hl. rewrite points_self in Hl. lia.
Qed.

Lemma color_used w h r a :
  m_colorbuffers (w_fb w) !! h = Some r -> cbr_cb r = Some a -> (0 < color_uses (tables w) a)%nat.
Proof.
  intros Hh Ea. unfold tables, color_uses. pose proof (sum_map_lookup (fun r => points (cbr_cb r) a) _ _ _ Hh) as Hl.
  cbv beta in Hl. rewrite Ea, points_self in Hl. lia.
Qed.

(** ** The tables changed *)

Lemma held_fb_contexts K cu wu bu C W B H l w f :
  Held K cu wu bu (C, W, B, H, l) w ->
  wp (modify_fb (fun fb => fb_contexts (f (m_contexts fb)) fb))
    (fun _ w' => Held K cu wu bu (f C, W, B, H, l) w') w.
Proof.
  intros [O [H1 H2 H3 H4 H5 H6 H7]]. apply wp_modify_fb. exists O. split; try done.
  unfold tables in *. cbn. by injection H6 as -> -> -> -> ->.
Qed.

Lemma held_fb_windows K cu wu bu C W B H l w f :
  Held K cu wu bu (C, W, B, H, l) w ->
  wp (modify_fb (fun fb => fb_windows (f (m_windows fb)) fb))
    (fun _ w' => Held K cu wu bu (C, f W, B, H, l) w') w.
Proof.
  intros [O [H1 H2 H3 H4 H5 H6 H7]]. apply wp_modify_fb. exists O. split; try done.
  unfold tables in *. cbn. by injection H6 as -> -> -> -> ->.
Qed.

Lemma held_fb_colors K cu wu bu C W B H l w f :
  Held K cu wu bu (C, W, B, H, l) w ->
  wp (modify_fb (fun fb => fb_colorbuffers (f (m_colorbuffers fb)) fb))
    (fun _ w' => Held K cu wu bu (C, W, f B, H, l) w') w.
Proof.
  intros [O [H1 H2 H3 H4 H5 H6 H7]]. apply wp_modify_fb. exists O. split; try done.
  unfold tables in *. cbn. by injection H6 as -> -> -> -> ->.
Qed.

Lemma held_put_thread K cu wu bu C W B H l w t i :
  Held K cu wu bu (C, W, B, H, l) w ->
  wp (put_thread t i) (fun _ w' => Held K cu wu bu (C, W, B, <[t := i]> H, l) w') w.
Proof.
  intros [O [H1 H2 H3 H4 H5 H6 H7]]. apply wp_modify. exists O. split; try done.
  unfold tables in *. cbn. by injection H6 as -> -> -> -> ->.
Qed.

(** ** Handles *)

Lemma next_handle_ok fb n :
  Z.of_nat (handle_fuel fb) <= 2 ^ 32 ->
  exists id, next_handle (handle_fuel fb) n fb = Ok id /\ 0 < id < 2 ^ 32 /\
             m_contexts fb !! id = None /\ m_windows fb !! id = None.
Proof.
  intros Hsz. unfold next_handle.
  destruct (next_free_ok (2 ^ 32)
              (fun id => (id =? 0) || bool_decide (is_Some (m_contexts fb !! id))
                         || bool_decide (is_Some (m_windows fb !! id))) (handle_fuel fb) n
              (0 :: (map_to_list (m_contexts fb)).*1 ++ (map_to_list (m_windows fb)).*1)) as (l & E & Ht & Hl).
  - done.
  - cbn [length]. rewrite length_app, !length_fmap, !length_map_to_list. unfold handle_fuel. lia.
  - intros m Hm. rewrite elem_of_cons, elem_of_app, !list_elem_of_fmap.
    apply orb_true_iff in Hm as [Hm|Hm]; [apply orb_true_iff in Hm as [Hm|Hm]|].
    + left. by apply Z.eqb_eq.
    + right; left. apply bool_decide_eq_true in Hm as [p Hp]. exists (m, p). by rewrite elem_of_map_to_list.
    + right; right. apply bool_decide_eq_true in Hm as [p Hp]. exists (m, p). by rewrite elem_of_map_to_list.
  - exists l. split; [exact E|]. apply orb_false_iff in Ht as [Ht H3]. apply orb_false_iff in Ht as [H1 H2].
    apply Z.eqb_neq in H1. apply bool_decide_eq_false in H2, H3. split; [lia|].
    split; apply eq_None_not_Some; done.
Qed.

Lemma genHandle_wp w :
  Z.of_nat (handle_fuel (w_fb w)) <= 2 ^ 32 ->
  wp genHandle (fun id w' => quiet w w' /\ 0 < id < 2 ^ 32 /\ m_contexts (w_fb w) !! id = None /\
                             m_windows (w_fb w) !! id = None) w.
Proof.
  intros Hsz. destruct (next_handle_ok (w_fb w) (s_nextHandle (w_fb w)) Hsz) as (id & E & Hid).
  apply wp_bind, wp_read, wp_bind. eapply wp_lift; [done|]. apply wp_bind, wp_modify_fb, wp_ret. done.
Qed.

Lemma held_genHandle K cu wu bu T w :
  Held K cu wu bu T w -> tables_ok K T -> small K ->
  wp genHandle (fun id w' => Held K cu wu bu T w' /\ 0 < id < 2 ^ 32 /\
                             T.1.1.1.1 !! id = None /\ T.1.1.1.2 !! id = None) w.
Proof.
  intros HH [_ _ Hsz] HK. pose proof (Held_tables _ _ _ _ _ _ HH) as <-.
  eapply wp_mono; [apply genHandle_wp|].
  - unfold handle_fuel. unfold small in HK. cbn in Hsz. lia.
  - cbv beta. intros id w' (Hq & Hid). split; [by eapply Held_quiet|done].
Qed.

Lemma after_ret {A} (a : A) K w : Inv K w -> wp (mret a) (fun _ w' => Inv (8 + K) w') w.
Proof. intros HI. apply wp_ret. eapply Inv_mono; [|done]. lia. Qed.

Lemma quiet_inv {A} (m : M A) (P : World -> Prop) K w :
  Quiet_if P m -> P w -> Inv K w -> wp m (fun _ w' => Inv K w') w.
Proof.
  intros Hm HP [HH Ht]. eapply wp_mono; [by apply Hm|]. cbv beta. intros a w' Hq. unfold Inv.
  rewrite (q_tables _ _ Hq). split; [by eapply Held_quiet|done].
Qed.

Ltac tables_of w :=
  let E := fresh "E" in
  destruct (tables w) as [[[[C W] B] H] l] eqn:E; cbn [fst snd] in *.

Lemma createColorBuffer_ok K w t wd ht f :
  Inv K w -> small (8 + K) -> image_too_large wd ht f = false -> wp (createColorBuffer env t wd ht f) (fun _ w' => Inv (8 + K) w') w.
Proof.
  intros HI HK Hsz. unfold createColorBuffer. apply wp_bind.
  eapply wp_mono; [eapply quiet_inv; [by apply Quiet_ColorBuffer_create|done|exact HI]|]. cbv beta.
  intros o w1 H1. destruct o as [c|]; [|by apply after_ret]. clear HI. destruct H1 as [HH Ht].
  tables_of w1. apply wp_bind. eapply wp_mono; [by eapply held_new_color|]. cbv beta. intros a w2 H2.
  apply wp_bind. eapply wp_mono.
  { eapply held_genHandle; [exact H2|eapply tables_ok_mono; [|exact Ht]; lia|eapply small_le; [|done]; lia]. }
  cbv beta. intros ret w3 (H3 & Hid & _). apply wp_bind, wp_read, wp_bind.
  assert (EB : m_colorbuffers (w_fb w3) = B) by (pose proof (Held_tables _ _ _ _ _ _ H3) as E3; by injection E3).
  rewrite EB. set (old := r ← B !! ret; cbr_cb r).
  assert (Hsum : forall b, sum_map (fun r => points (cbr_cb r) b) B =
                           (points old b + sum_map (fun r => points (cbr_cb r) b) (delete ret B))%nat).
  { intros b. rewrite (sum_map_split _ B ret). unfold old. by destruct (B !! ret). }
  eapply wp_mono.
  { eapply (held_assign_color env (S K) _ _
      (fun b => sum_map (fun r => points (cbr_cb r) b) (delete ret B) + points (Some a) b)%nat).
    - eapply Held_ext; [| | |exact H3]; intros b; cbv beta; cbn [color_uses]; [done..|]. rewrite Hsum. lia.
    - eapply small_le; [|done]. lia.
    - intros b [= <-]. rewrite points_self. lia. }
  cbv beta. intros _ w4 H4. apply wp_bind.
  eapply wp_mono; [apply (held_fb_colors _ _ _ _ _ _ _ _ _ _ (fun B => <[ret := mkColorBufferRef (Some a) 1]> B) H4)|].
  cbv beta. intros _ w5 H5. apply wp_bind. eapply wp_mono; [eapply held_drop_color; exact H5|]. cbv beta. intros _ w6 H6.
  apply wp_ret. apply (Inv_mono (S (S K))); [lia|]. eapply Inv_intro; [exact H6|done|done|..].
  - intros b. cbn [color_uses]. rewrite sum_map_set. cbn [cbr_cb]. lia.
  - destruct Ht as [Ht1 Ht2 Ht3]. split; cbn in *; [done| |lia].
    intros h r Hr. apply lookup_insert_Some in Hr as [[_ <-]|[_ Hr]]; [done|by eapply Ht2].
Qed.

(** [Inv], with more pointers to contexts in local variables. *)
Definition Extra (K : nat) (ex : Z -> nat) (w : World) : Prop :=
  Held K (fun a => context_uses (tables w) a + ex a)%nat (window_uses (tables w)) (color_uses (tables w))
    (tables w) w /\ tables_ok K (tables w).

Lemma Extra_intro K ex cu wu bu T w :
  Held K cu wu bu T w -> (forall a, cu a = context_uses T a + ex a)%nat -> (forall a, wu a = window_uses T a) ->
  (forall a, bu a = color_uses T a) -> tables_ok K T -> Extra K ex w.
Proof.
  intros HH Hc Hw Hb Ht. pose proof (Held_tables _ _ _ _ _ _ HH) as <-. split; [|done].
  eapply Held_ext; [..|exact HH]; done.
Qed.

Lemma context_alive_use K cu wu bu T w p :
  Held K cu wu bu T w -> (forall a, p = Some a -> 0 < cu a)%nat -> p = None \/ context_alive p w.
Proof.
  intros [O HS] Hp. destruct p as [a|]; [right|by left]. specialize (Hp a eq_refl).
  destruct (counts_ok_alive _ _ a (st_contexts _ _ _ _ _ _ _ HS)) as [x Hx]; [cbv beta; lia|].
  exists a. by rewrite Hx.
Qed.

Lemma createRenderContext_with_ok K ex w cfg share gl2 :
  Extra K ex w -> small (4 + K) -> (forall a, share = Some a -> 0 < context_uses (tables w) a + ex a)%nat ->
  wp (createRenderContext_with env s_fbConfigs cfg share gl2) (fun _ w' => Extra (4 + K) ex w') w.
Proof.
  intros [HH Ht] HK Hs. unfold createRenderContext_with. tables_of w. apply wp_bind.
  eapply wp_mono; [eapply held_use_context; [exact HH|eapply small_le; [|done]; lia|exact Hs]|]. cbv beta.
  intros _ w1 H1. apply wp_bind. eapply wp_held; [apply Quiet_RenderContext_create| |exact H1|].
  { eapply context_alive_use; [exact H1|]. intros a Ha. specialize (Hs a Ha). cbv beta. lia. }
  intros o w2 H2. apply wp_bind. eapply wp_mono; [eapply held_drop_context; exact H2|]. cbv beta. intros _ w3 H3.
  destruct o as [c|]; [|apply wp_ret].
  2:{ eapply Extra_intro; [eapply Held_mono; [|exact H3]; lia|done..|]. eapply tables_ok_mono; [|exact Ht]; lia. }
  apply wp_bind. eapply wp_mono; [eapply held_new_context; exact H3|]. cbv beta. intros a w4 H4.
  apply wp_bind. eapply wp_mono.
  { eapply held_genHandle; [exact H4|eapply tables_ok_mono; [|exact Ht]; lia|eapply small_le; [|done]; lia]. }
  cbv beta. intros ret w5 (H5 & Hid & Hc & _). cbn [fst snd] in Hc. apply wp_bind, wp_read, wp_bind.
  assert (EC : m_contexts (w_fb w5) = C) by (pose proof (Held_tables _ _ _ _ _ _ H5) as E5; by injection E5).
  rewrite EC, Hc. cbn [mjoin option_join]. eapply wp_mono.
  { eapply (held_assign_context (S (S K)) (fun b => context_uses (C, W, B, H, l) b + ex b + points (Some a) b)%nat);
      [|eapply small_le; [|done]; lia|].
    - eapply Held_ext; [| | |exact H5]; intros b; cbv beta; [rewrite points_none; lia|done..].
    - intros b [= <-]. rewrite points_self. lia. }
  cbv beta. intros _ w6 H6. apply wp_bind.
  eapply wp_mono; [apply (held_fb_contexts _ _ _ _ _ _ _ _ _ _ (fun C => <[ret := Some a]> C) H6)|].
  cbv beta. intros _ w7 H7. apply wp_bind. eapply wp_mono; [eapply held_drop_context; exact H7|].
  cbv beta. intros _ w8 H8. apply wp_ret. eapply Extra_intro; [eapply Held_mono; [|exact H8]; lia|..]; try done.
  - intros b. cbv beta. cbn [context_uses]. rewrite (sum_map_insert (fun p => points p b)) by done. lia.
  - destruct Ht as [Ht1 Ht2 Ht3]. split; cbn in *; [done..|]. rewrite map_size_insert_None by done. lia.
Qed.

Lemma Extra_none K w : Inv K w <-> Extra K (fun _ => 0%nat) w.
Proof.
  unfold Inv, Extra. split; intros [H1 H2]; (split; [|done]); (eapply Held_ext; [..|exact H1]; intros; cbv beta; lia).
Qed.

Lemma createRenderContext_ok K w cfg share gl2 :
  Inv K w -> small (8 + K) ->
  wp (createRenderContext env s_fbConfigs cfg share gl2) (fun _ w' => Inv (8 + K) w') w.
Proof.
  intros HI HK. unfold createRenderContext. apply wp_bind, wp_read. destruct (negb _).
  - destruct (m_contexts (w_fb w) !! share) as [p|] eqn:Ep; [|by apply after_ret].
    destruct (id HI) as [HH Ht]. apply wp_bind.
    assert (Hp : forall a, p = Some a -> (0 < context_uses (tables w) a)%nat).
    { intros a ->. by eapply context_live. }
    eapply wp_mono; [eapply held_use_context; [exact HH|eapply small_le; [|done]; lia|exact Hp]|]. cbv beta.
    intros _ w1 H1. apply wp_bind. pose proof (Held_tables _ _ _ _ _ _ H1) as E1.
    eapply wp_mono.
    { eapply (createRenderContext_with_ok (S K) (points p)).
      - eapply Extra_intro; [exact H1|done..|]. eapply tables_ok_mono; [|exact Ht]; lia.
      - unfold small in *. lia.
      - rewrite E1. intros a Ha. specialize (Hp a Ha). lia. }
    cbv beta. intros ret w2 [H2 Ht2]. apply wp_bind.
    eapply wp_mono; [eapply held_drop_context; exact H2|]. cbv beta. intros _ w3 H3. apply wp_ret.
    eapply Inv_intro; [eapply Held_mono; [|exact H3]; lia|done..|]. eapply tables_ok_mono; [|exact Ht2]; lia.
  - eapply wp_mono; [eapply createRenderContext_with_ok; [by apply Extra_none|eapply small_le; [|done]; lia|done]|]. cbv beta.
    intros _ w' H'. apply Extra_none in H'. eapply Inv_mono; [|exact H']. lia.
Qed.

Lemma WindowSurface_create_ok K w t cfg wd ht :
  Inv K w ->
  wp (WindowSurface_create env s_fbConfigs t cfg wd ht)
    (fun o w' => Inv K w' /\ forall x, o = Some x -> forall a, held_contexts x a = 0 /\ held_color x a = 0)%nat w.
Proof.
  intros HI. unfold WindowSurface_create. destruct (FBConfig_get _ _) as [c|]; [|by apply wp_ret].
  apply wp_bind. eapply wp_mono; [apply resizePbuffer_ok|]. cbv beta. intros r w1 (Hq & Hr1 & Hr2).
  assert (Hr : forall a, held_contexts r.2 a = 0%nat /\ held_color r.2 a = 0%nat).
  { intros a. rewrite Hr1, Hr2. unfold held_contexts, held_color. cbn. by rewrite points_none. }
  assert (H1 : Inv K w1).
  { destruct HI as [HH Ht]. unfold Inv. rewrite (q_tables _ _ Hq). split; [by eapply Held_quiet|done]. }
  destruct (negb _).
  - apply wp_bind. eapply wp_mono; [eapply (held_delete_window env K (context_uses (tables w1)) (window_uses (tables w1)) (color_uses (tables w1)))|].
    + eapply Held_ext; [..|exact (proj1 H1)]; intros a; destruct (Hr a) as [E1 E2]; cbv beta; rewrite ?E1, ?E2; lia.
    + cbv beta. intros _ w2 H2. apply wp_ret. split; [|done]. eapply Inv_intro; [exact H2|done..|apply H1].
  - apply wp_ret. split; [done|]. intros x [= <-]. exact Hr.
Qed.

Lemma createWindowSurface_ok K w t cfg wd ht :
  Inv K w -> small (8 + K) ->
  wp (createWindowSurface env s_fbConfigs t cfg wd ht) (fun _ w' => Inv (8 + K) w') w.
Proof.
  intros HI HK. unfold createWindowSurface. apply wp_bind.
  eapply wp_mono; [by eapply WindowSurface_create_ok|]. cbv beta. intros o w1 [H1 Hx].
  destruct o as [x|]; [|by apply after_ret]. specialize (Hx x eq_refl). clear HI. destruct H1 as [HH Ht].
  tables_of w1. apply wp_bind. eapply wp_mono; [eapply held_new_window; [exact HH|exact Hx]|].
  cbv beta. intros a w2 H2. apply wp_bind. eapply wp_mono.
  { eapply held_genHandle; [exact H2|eapply tables_ok_mono; [|exact Ht]; lia|eapply small_le; [|done]; lia]. }
  cbv beta. intros ret w3 (H3 & Hid & _ & Hc). cbn [fst snd] in Hc. apply wp_bind, wp_read, wp_bind.
  assert (EC : m_windows (w_fb w3) = W) by (pose proof (Held_tables _ _ _ _ _ _ H3) as E3; by injection E3).
  rewrite EC, Hc. cbn [mjoin option_join]. eapply wp_mono.
  { eapply (held_assign_window env (S K) _ (fun b => window_uses (C, W, B, H, l) b + points (Some a) b)%nat);
      [|eapply small_le; [|done]; lia|].
    - eapply Held_ext; [| | |exact H3]; intros b; cbv beta; [done|rewrite points_none; lia|done].
    - intros b [= <-]. rewrite points_self. lia. }
  cbv beta. intros _ w4 H4. apply wp_bind.
  eapply wp_mono; [apply (held_fb_windows _ _ _ _ _ _ _ _ _ _ (fun W => <[ret := Some a]> W) H4)|].
  cbv beta. intros _ w5 H5. apply wp_bind. eapply wp_mono; [eapply held_drop_window; exact H5|].
  cbv beta. intros _ w6 H6. apply wp_ret. eapply Inv_intro; [eapply Held_mono; [|exact H6]; lia|..]; try done.
  - intros b. cbv beta. cbn [window_uses]. rewrite (sum_map_insert (fun p => points p b)) by done. lia.
  - destruct Ht as [Ht1 Ht2 Ht3]. split; cbn in *; [|done|].
    + intros h p Hh. apply lookup_insert_Some in Hh as [[_ <-]|[_ Hh]]; [done|by eapply Ht1].
    + rewrite map_size_insert_None by done. lia.
Qed.

(** ** Objects destroyed, opened and closed *)

Lemma DestroyRenderContext_ok K w h : Inv K w -> wp (DestroyRenderContext h) (fun _ w' => Inv K w') w.
Proof.
  intros HI. destruct HI as [HH Ht]. unfold DestroyRenderContext. apply wp_bind, wp_read.
  destruct (m_contexts (w_fb w) !! h) as [p|] eqn:Ep; [|by apply wp_ret].
  assert (Ep' : (tables w).1.1.1.1 !! h = Some p) by exact Ep. clear Ep. tables_of w. apply wp_bind.
  eapply wp_mono; [apply (held_fb_contexts _ _ _ _ _ _ _ _ _ _ (fun C => delete h C) HH)|]. cbv beta. intros _ w1 H1.
  assert (Hs : forall a, context_uses (C, W, B, H, l) a = (context_uses (delete h C, W, B, H, l) a + points p a)%nat).
  { intros a. cbn [context_uses]. rewrite (sum_map_delete (fun p => points p a) C h p Ep'). lia. }
  eapply wp_mono.
  { eapply (held_drop_context K (context_uses (delete h C, W, B, H, l))). eapply Held_ext; [..|exact H1]; done. }
  cbv beta. intros _ w2 H2. eapply Inv_intro; [exact H2|done..|]. destruct Ht as [Ht1 Ht2 Ht3].
  split; cbn in *; [done..|]. rewrite map_size_delete_Some by eauto. lia.
Qed.

Lemma DestroyWindowSurface_ok K w t h : Inv K w -> wp (DestroyWindowSurface env t h) (fun _ w' => Inv K w') w.
Proof.
  intros HI. destruct HI as [HH Ht]. unfold DestroyWindowSurface. apply wp_bind, wp_read.
  destruct (m_windows (w_fb w) !! h) as [p|] eqn:Ep; [|by apply wp_ret].
  assert (Ep' : (tables w).1.1.1.2 !! h = Some p) by exact Ep. clear Ep. tables_of w. apply wp_bind.
  eapply wp_mono; [apply (held_fb_windows _ _ _ _ _ _ _ _ _ _ (fun W => delete h W) HH)|]. cbv beta. intros _ w1 H1.
  assert (Hs : forall a, window_uses (C, W, B, H, l) a = (window_uses (C, delete h W, B, H, l) a + points p a)%nat).
  { intros a. cbn [window_uses]. rewrite (sum_map_delete (fun p => points p a) W h p Ep'). lia. }
  eapply wp_mono.
  { eapply (held_drop_window env K _ (window_uses (C, delete h W, B, H, l))). eapply Held_ext; [..|exact H1]; done. }
  cbv beta. intros _ w2 H2. eapply Inv_intro; [exact H2|done..|]. destruct Ht as [Ht1 Ht2 Ht3].
  split; cbn in *; [|done|].
  - intros h' p' Hh. apply lookup_delete_Some in Hh as [_ Hh]. by eapply Ht1.
  - rewrite map_size_delete_Some by eauto. lia.
Qed.

(** A reference of the guest counted. *)
Lemma recount_ok K w h r n :
  Inv K w -> m_colorbuffers (w_fb w) !! h = Some r ->
  wp (modify_fb (fun fb => fb_colorbuffers (<[h := mkColorBufferRef (cbr_cb r) n]> (m_colorbuffers fb)) fb))
    (fun _ w' => Inv K w') w.
Proof.
  intros [HH Ht] Er. assert (Er' : (tables w).1.1.2 !! h = Some r) by exact Er. clear Er. tables_of w.
  eapply wp_mono; [apply (held_fb_colors _ _ _ _ _ _ _ _ _ _
    (fun B => <[h := mkColorBufferRef (cbr_cb r) n]> B) HH)|]. cbv beta. intros _ w1 H1.
  eapply Inv_intro; [exact H1|done|done|..].
  - intros a. cbn [color_uses]. rewrite sum_map_set, (sum_map_delete _ B h r Er'). done.
  - destruct Ht as [Ht1 Ht2 Ht3]. split; cbn in *; [done| |done].
    intros h' r' Hh. apply lookup_insert_Some in Hh as [[_ <-]|[_ Hh]]; [exact (Ht2 h r Er')|by eapply Ht2].
Qed.

Lemma openColorBuffer_ok K w h : Inv K w -> wp (openColorBuffer h) (fun _ w' => Inv K w') w.
Proof.
  intros HI. unfold openColorBuffer. apply wp_bind, wp_read.
  destruct (m_colorbuffers (w_fb w) !! h) as [r|] eqn:Er; [|by apply wp_ret]. by apply recount_ok.
Qed.

Lemma closeColorBuffer_ok K w t h : Inv K w -> wp (closeColorBuffer env t h) (fun _ w' => Inv K w') w.
Proof.
  intros HI. unfold closeColorBuffer. apply wp_bind, wp_read.
  destruct (m_colorbuffers (w_fb w) !! h) as [r|] eqn:Er; [|by apply wp_ret]. cbv zeta.
  destruct (_ =? 0); [|by apply recount_ok]. destruct HI as [HH Ht].
  assert (Er' : (tables w).1.1.2 !! h = Some r) by exact Er. clear Er. tables_of w. apply wp_bind.
  eapply wp_mono; [apply (held_fb_colors _ _ _ _ _ _ _ _ _ _ (fun B => delete h B) HH)|]. cbv beta. intros _ w1 H1.
  assert (Hs : forall a, color_uses (C, W, B, H, l) a = (color_uses (C, W, delete h B, H, l) a + points (cbr_cb r) a)%nat).
  { intros a. cbn [color_uses]. rewrite (sum_map_delete (fun r => points (cbr_cb r) a) B h r Er'). lia. }
  eapply wp_mono.
  { eapply (held_drop_color env K _ _ (color_uses (C, W, delete h B, H, l))). eapply Held_ext; [..|exact H1]; done. }
  cbv beta. intros _ w2 H2. eapply Inv_intro; [exact H2|done..|]. destruct Ht as [Ht1 Ht2 Ht3].
  split; cbn in *; [done| |done].
  intros h' r' Hh. apply lookup_delete_Some in Hh as [_ Hh]. by eapply Ht2.
Qed.

(** ** Colour buffers shown and drawn on *)

Lemma Inv_ready K w h r : Inv K w -> m_colorbuffers (w_fb w) !! h = Some r -> ready (cbr_cb r) w.
Proof.
  intros HI Er. split; [|by eapply Inv_threads]. destruct HI as [[O HS] Ht].
  destruct (ok_colors _ _ Ht h r Er) as [a Ea]. rewrite Ea. eapply color_alive_use; [exact HS|].
  cbv beta. pose proof (color_used w h r a Er Ea). lia.
Qed.

Lemma with_color_buffer_ok K w h f :
  Inv K w -> (forall p, Quiet_if (ready p) (f p)) -> wp (with_color_buffer h f) (fun _ w' => Inv K w') w.
Proof.
  intros HI Hf. unfold with_color_buffer. apply wp_bind, wp_read.
  destruct (m_colorbuffers (w_fb w) !! h) as [r|] eqn:Er; [|by apply wp_ret].
  eapply quiet_inv; [apply Hf|by eapply Inv_ready|done].
Qed.

Lemma Quiet_post t h : forall w r, m_colorbuffers (w_fb w) !! h = Some r -> ready (cbr_cb r) w ->
  wp (post env t h) (fun _ w' => quiet w w') w.
Proof.
  intros w r Er Hr. unfold post. apply wp_bind, wp_read. rewrite Er. generalize (w_fb w). intros fb.
  assert (HQ : Quiet_if (ready (cbr_cb r)) (modify_fb (fb_posted h);;
     if m_subWin fb =? 0 then mret false else
       ok ← bindSubwin_locked env t;
       if (negb ok : bool) then mret false
       else
         gl "glPushMatrix" [];; gl "glRotatef" [m_zRot fb; 0; 0; 1];;
         when (negb (m_zRot fb =? 0)) (gl "glClear" [0x4000]);;
         ret ← ColorBuffer_post (cbr_cb r);
         gl "glPopMatrix" [];;
         when ret (
           when (m_onPost fb) (
             gl "glReadPixels" [0; 0; m_width fb; m_height fb; GL_RGBA; 0x1401];;
             gl "onPost" [m_width fb; m_height fb; -1; GL_RGBA; 0x1401]);;
           gl "eglSwapBuffers" [m_eglSurface fb]);;
         _ ← unbind_locked env t;
         mret ret)).
  { quiet_go. }
  by apply HQ.
Qed.

Lemma post_ok K w t h : Inv K w -> wp (post env t h) (fun _ w' => Inv K w') w.
Proof.
  intros HI. destruct (m_colorbuffers (w_fb w) !! h) as [r|] eqn:Er.
  - eapply wp_mono; [eapply Quiet_post; [done|by eapply Inv_ready]|]. cbv beta. intros _ w' Hq.
    destruct HI as [HH Ht]. unfold Inv. rewrite (q_tables _ _ Hq). split; [by eapply Held_quiet|done].
  - unfold post. apply wp_bind, wp_read. rewrite Er. by apply wp_ret.
Qed.

(** ** Contexts made current *)

(** The pointers that [bindContext] holds, besides those of [T]. *)
Definition Binds (K : nat) (T : Tables) (ctx draw rd : option Z) (w : World) : Prop :=
  Held K (fun a => context_uses T a + points ctx a)%nat
    (fun a => window_uses T a + points rd a + points draw a)%nat (color_uses T) T w.

Lemma Binds_mono K K' T ctx draw rd w : (K <= K')%nat -> Binds K T ctx draw rd w -> Binds K' T ctx draw rd w.
Proof. apply Held_mono. Qed.

Lemma find_handles_ok K w t c d r :
  Inv K w -> small (4 + K) ->
  wp (find_handles env t c d r)
    (fun o w' => match o with
                 | None => Inv (3 + K) w'
                 | Some (ctx, draw, rd) => Binds (3 + K) (tables w) ctx draw rd w'
                 end) w.
Proof.
  intros [HH Ht] HK. unfold find_handles. apply wp_bind, wp_read.
  assert (HI : forall k w', (k <= 3)%nat ->
            Held (k + K) (context_uses (tables w)) (window_uses (tables w)) (color_uses (tables w)) (tables w) w' ->
            Inv (3 + K) w').
  { intros k w' Hk H'. eapply Inv_intro; [eapply Held_mono; [|exact H']; lia|done..|].
    eapply tables_ok_mono; [|exact Ht]. lia. }
  destruct (_ || _).
  2:{ apply wp_ret. apply (Binds_mono K); [lia|]. eapply Held_ext; [..|exact HH]; intros a; cbv beta;
      rewrite ?points_none; lia. }
  destruct (m_contexts (w_fb w) !! c) as [ctx|] eqn:Ec.
  2:{ apply wp_ret. by apply (HI 0%nat); [lia|]. }
  apply wp_bind. eapply wp_mono.
  { eapply held_use_context; [exact HH|eapply small_le; [|done]; lia|]. intros a ->. by eapply context_live. }
  cbv beta. intros _ w1 H1. destruct (m_windows (w_fb w) !! d) as [draw|] eqn:Ed.
  2:{ apply wp_bind. eapply wp_mono; [eapply held_drop_context; exact H1|]. cbv beta. intros _ w2 H2.
      apply wp_ret. by apply (HI 1%nat); [lia|]. }
  apply wp_bind. eapply wp_mono.
  { eapply held_use_window; [exact H1|eapply small_le; [|done]; lia|]. intros a ->. by eapply window_used. }
  cbv beta. intros _ w2 H2. destruct (negb _).
  - destruct (m_windows (w_fb w) !! r) as [rd|] eqn:Er.
    + apply wp_bind. eapply wp_mono.
      { eapply held_use_window; [exact H2|eapply small_le; [|done]; lia|]. intros a ->.
        pose proof (window_used w r a Er). cbv beta. lia. }
      cbv beta. intros _ w3 H3. apply wp_ret. eapply Held_ext; [..|exact H3]; intros a; cbv beta; lia.
    + apply wp_bind. eapply wp_mono; [eapply held_drop_context; exact H2|]. cbv beta. intros _ w3 H3.
      apply wp_bind. eapply wp_mono; [eapply held_drop_window; exact H3|]. cbv beta. intros _ w4 H4.
      apply wp_ret. by apply (HI 2%nat); [lia|].
  - apply wp_bind. eapply wp_mono.
    { eapply held_use_window; [exact H2|eapply small_le; [|done]; lia|]. intros a ->.
      pose proof (window_used w d a Ed). cbv beta. lia. }
    cbv beta. intros _ w3 H3. apply wp_ret. eapply Held_ext; [..|exact H3]; intros a; cbv beta; lia.
Qed.

Lemma surface_of_ok K cu wu bu T w p :
  Held K cu wu bu T w -> (forall a, p = Some a -> 0 < wu a)%nat ->
  wp (surface_of p) (fun _ w' => w' = w) w.
Proof.
  intros [O HS] Hp. destruct p as [a|]; cbn [surface_of]; [|by apply wp_ret].
  apply wp_bind. eapply wp_window; [exact HS|by apply Hp|]. intros x Hx. by apply wp_ret.
Qed.

Lemma egl_context_of_ok K cu wu bu T w p :
  Held K cu wu bu T w -> (forall a, p = Some a -> 0 < cu a)%nat ->
  wp (egl_context_of p) (fun _ w' => w' = w) w.
Proof.
  intros HH Hp. destruct (context_alive_use _ _ _ _ _ _ p HH Hp) as [->|Ha]; [by apply wp_ret|].
  destruct p as [a|]; [|by apply wp_ret]. apply wp_bind, wp_context; [done|]. intros c. by apply wp_ret.
Qed.

Lemma bind_surfaces_ok K T ctx draw rd same w :
  Binds K T ctx draw rd w -> small (6 + K) ->
  wp (bind_surfaces ctx draw rd same) (fun _ w' => Binds (6 + K) T ctx draw rd w') w.
Proof.
  intros HB HK. assert (Hc : forall c, ctx = Some c -> (0 < context_uses T c + points ctx c)%nat).
  { intros c ->. rewrite points_self. lia. }
  assert (Hmono : Binds (6 + K) T ctx draw rd w) by (eapply Binds_mono; [|exact HB]; lia).
  destruct draw as [d|]; [|by apply wp_ret]. destruct rd as [r|]; [|by apply wp_ret].
  cbn [bind_surfaces]. destruct same.
  - eapply wp_mono.
    { eapply call_bind_ok; [exact HB|eapply small_le; [|done]; lia| |exact Hc]. cbv beta. rewrite points_self. lia. }
    cbv beta. intros _ w'. apply Held_mono. lia.
  - apply wp_bind. eapply wp_mono.
    { eapply call_bind_ok; [exact HB|eapply small_le; [|done]; lia| |exact Hc]. cbv beta. rewrite points_self. lia. }
    cbv beta. intros _ w1 H1.
    eapply wp_mono; [eapply call_bind_ok; [exact H1| | |exact Hc]|].
    + eapply small_le; [|done]. lia.
    + cbv beta. rewrite (points_self r). lia.
    + cbv beta. intros _ w'. apply Held_mono. lia.
Qed.

Lemma let_go_ok K T t ctx draw rd (b : bool) w :
  Binds K T ctx draw rd w -> tables_ok K T ->
  wp (drop_context ctx;; drop_window env t rd;; drop_window env t draw;; mret b) (fun _ w' => Inv K w') w.
Proof.
  intros HB Ht. apply wp_bind. eapply wp_mono; [eapply held_drop_context; exact HB|]. cbv beta. intros _ w1 H1.
  apply wp_bind. eapply wp_mono.
  { eapply (held_drop_window env K _ (fun a => window_uses T a + points draw a)%nat).
    eapply Held_ext; [..|exact H1]; intros a; cbv beta; first [reflexivity|lia]. }
  cbv beta. intros _ w2 H2. apply wp_bind. eapply wp_mono; [eapply held_drop_window; exact H2|]. cbv beta.
  intros _ w3 H3. apply wp_ret. by eapply Inv_intro; [exact H3|done..|].
Qed.

(** Pointers of the thread [t], and those of everything else. *)
Lemma thread_contexts C W B H l t a :
  context_uses (C, W, B, H, l) a =
  (context_uses (C, W, B, delete t H, l) a + points (currContext (default no_thread (H !! t))) a)%nat.
Proof. cbn [context_uses]. rewrite (sum_map_split _ H t). destruct (H !! t); cbn; rewrite ?points_none; lia. Qed.

Lemma thread_windows C W B H l t a :
  window_uses (C, W, B, H, l) a =
  (window_uses (C, W, B, delete t H, l) a + points (currDrawSurf (default no_thread (H !! t))) a +
   points (currReadSurf (default no_thread (H !! t))) a)%nat.
Proof. cbn [window_uses]. rewrite (sum_map_split _ H t). destruct (H !! t); cbn; rewrite ?points_none; lia. Qed.

Lemma update_thread_ok K C W B H l t ctx draw rd w :
  Binds K (C, W, B, H, l) ctx draw rd w -> small (3 + K) ->
  wp (update_thread env t ctx draw rd)
    (fun _ w' => exists H', Binds (3 + K) (C, W, B, H', l) ctx draw rd w') w.
Proof.
  intros HB HK. unfold update_thread, thread_info. apply wp_bind, wp_read.
  assert (EH : w_threads w = H) by (pose proof (Held_tables _ _ _ _ _ _ HB) as E; by injection E).
  rewrite EH. set (i := default no_thread (H !! t)). apply wp_bind. eapply wp_mono.
  { eapply (held_assign_context K (fun a => context_uses (C, W, B, delete t H, l) a + points ctx a)%nat).
    - eapply Held_ext; [..|exact HB]; intros a; cbv beta; [|done..]. rewrite (thread_contexts _ _ _ _ _ t). fold i. lia.
    - eapply small_le; [|done]. lia.
    - intros a ->. rewrite points_self. lia. }
  cbv beta. intros _ w1 H1. apply wp_bind. eapply wp_mono.
  { eapply (held_assign_window env (S K) _ (fun a => window_uses (C, W, B, delete t H, l) a +
              points (currReadSurf i) a + points rd a + points draw a)%nat).
    - eapply Held_ext; [..|exact H1]; intros a; cbv beta; [done| |done]. rewrite (thread_windows _ _ _ _ _ t). fold i. lia.
    - eapply small_le; [|done]. lia.
    - intros a ->. rewrite points_self. lia. }
  cbv beta. intros _ w2 H2. apply wp_bind. eapply wp_mono.
  { eapply (held_assign_window env (S (S K)) _ (fun a => window_uses (C, W, B, delete t H, l) a +
              points rd a + points draw a + points draw a)%nat).
    - eapply Held_ext; [..|exact H2]; intros a; cbv beta; [done| |done]. lia.
    - eapply small_le; [|done]. lia.
    - intros a ->. rewrite points_self. lia. }
  cbv beta. intros _ w3 H3.
  assert (Hput : forall g g2, wp (put_thread t (mkThreadInfo ctx draw rd g g2))
            (fun _ w' => exists H', Binds (3 + K) (C, W, B, H', l) ctx draw rd w') w3).
  { intros g g2. eapply wp_mono; [eapply held_put_thread; exact H3|]. cbv beta. intros _ w4 H4. eexists.
    eapply Held_ext; [..|exact H4]; intros a; cbv beta; [| |done].
    - cbn [context_uses]. rewrite (sum_map_set _ H t). cbn [currContext]. lia.
    - cbn [window_uses]. rewrite (sum_map_set _ H t). cbn [currDrawSurf currReadSurf]. lia. }
  destruct ctx as [c|]; [|by apply Hput].
  apply wp_bind, wp_context; [|intros x; destruct (rc_isGL2 x); by apply Hput].
  destruct (context_alive_use _ _ _ _ _ _ (Some c) H3) as [?|Ha]; [|done|done].
  intros a [= <-]. cbv beta. rewrite points_self. lia.
Qed.

Lemma bind_held_ok K T t same ctx draw rd w :
  Binds K T ctx draw rd w -> tables_ok K T -> small (12 + K) ->
  wp (bind_held env t same ctx draw rd) (fun _ w' => Inv (12 + K) w') w.
Proof.
  intros HB Ht HK. unfold bind_held.
  assert (Hd : forall a, draw = Some a -> (0 < window_uses T a + points rd a + points draw a)%nat).
  { intros a ->. rewrite (points_self a). lia. }
  assert (Hr : forall a, rd = Some a -> (0 < window_uses T a + points rd a + points draw a)%nat).
  { intros a ->. rewrite (points_self a). lia. }
  assert (Hc : forall a, ctx = Some a -> (0 < context_uses T a + points ctx a)%nat).
  { intros a ->. rewrite (points_self a). lia. }
  apply wp_bind. eapply wp_mono; [eapply surface_of_ok; [exact HB|exact Hd]|]. cbv beta. intros d w1 ->.
  apply wp_bind. eapply wp_mono; [eapply surface_of_ok; [exact HB|exact Hr]|]. cbv beta. intros r w1 ->.
  apply wp_bind. eapply wp_mono; [eapply egl_context_of_ok; [exact HB|exact Hc]|]. cbv beta. intros c w1 ->.
  clear Hd Hr Hc. apply wp_bind. eapply wp_held; [apply Quiet_makeCurrent|done|exact HB|]. intros ok w1 H1.
  destruct (negb ok).
  { eapply let_go_ok; [eapply Binds_mono; [|exact H1]; lia|]. eapply tables_ok_mono; [|exact Ht]. lia. }
  destruct T as [[[[C W] B] H] l]. unfold thread_info. apply wp_bind, wp_read.
  assert (EH : w_threads w1 = H) by (pose proof (Held_tables _ _ _ _ _ _ H1) as E; by injection E).
  rewrite EH. set (i := default no_thread (H !! t)). apply wp_bind.
  eapply (wp_mono (fun '(draw, rd) w' => Binds (2 + K) (C, W, B, H, l) ctx draw rd w')).
  { assert (Hkeep : Binds (2 + K) (C, W, B, H, l) ctx draw rd w1) by (eapply Binds_mono; [|exact H1]; lia).
    destruct draw as [d'|]; [by apply wp_ret|]. destruct rd as [r'|]; [by apply wp_ret|].
    apply wp_bind. eapply wp_mono.
    { eapply held_use_window; [exact H1|eapply small_le; [|done]; lia|]. intros a Ha. cbv beta.
      rewrite (thread_windows _ _ _ _ _ t). fold i. rewrite Ha, points_self. lia. }
    cbv beta. intros _ w2 H2. apply wp_bind. eapply wp_mono.
    { eapply held_use_window; [exact H2|eapply small_le; [|done]; lia|]. intros a Ha. cbv beta.
      rewrite (thread_windows _ _ _ _ _ t). fold i. rewrite Ha, points_self. lia. }
    cbv beta. intros _ w3 H3. apply wp_ret.
    eapply Held_ext; [..|exact H3]; intros a; cbv beta; rewrite ?points_none; lia. }
  clear draw rd HB H1. intros [draw rd] w2 H2. apply wp_bind.
  eapply wp_mono; [eapply bind_surfaces_ok; [exact H2|eapply small_le; [|done]; lia]|]. cbv beta. intros _ w3 H3.
  apply wp_bind. eapply wp_mono; [eapply update_thread_ok; [exact H3|eapply small_le; [|done]; lia]|]. cbv beta.
  intros _ w4 [H' H4]. eapply let_go_ok; [eapply Binds_mono; [|exact H4]; lia|].
  destruct Ht as [Ht1 Ht2 Ht3]. split; cbn in *; [done..|lia].
Qed.

Lemma bindContext_ok K w t c d r :
  Inv K w -> small (16 + K) -> wp (bindContext env t c d r) (fun _ w' => Inv (16 + K) w') w.
Proof.
  intros HI HK. unfold bindContext. apply wp_bind.
  eapply wp_mono; [eapply find_handles_ok; [exact HI|eapply small_le; [|done]; lia]|]. cbv beta.
  intros o w1 H1. destruct o as [[[ctx draw] rd]|]; [|apply wp_ret; eapply Inv_mono; [|exact H1]; lia].
  eapply wp_mono; [eapply bind_held_ok; [exact H1| |eapply small_le; [|done]; lia]|].
  - eapply tables_ok_mono; [|exact (proj2 HI)]. lia.
  - cbv beta. intros b w2. apply Inv_mono. lia.
Qed.

(** ** The other calls *)

Lemma flushWindow_ok K w t h :
  Inv K w -> blits_unbound (mjoin (m_windows (w_fb w) !! h)) w = false ->
  wp (flushWindowSurfaceColorBuffer env t h) (fun _ w' => Inv K w') w.
Proof.
  intros HI Hb. unfold flushWindowSurfaceColorBuffer. apply wp_bind, wp_read.
  destruct (m_windows (w_fb w) !! h) as [p|] eqn:Ep; [|by apply wp_ret].
  destruct (ok_windows _ _ (proj2 HI) h p Ep) as [a ->]. cbn [mjoin option_join] in Hb. apply wp_bind.
  eapply wp_mono; [eapply flush_ok; [exact (proj1 HI)|by eapply Inv_threads|by eapply window_used|done]|].
  cbv beta. intros _ w' H'. apply wp_ret. eapply Inv_intro; [exact H'|done..|apply HI].
Qed.

Lemma setWindow_ok K w t h c :
  Inv K w -> small (8 + K) -> wp (setWindowSurfaceColorBuffer env t h c) (fun _ w' => Inv (8 + K) w') w.
Proof.
  intros HI HK. unfold setWindowSurfaceColorBuffer. apply wp_bind, wp_read.
  destruct (m_windows (w_fb w) !! h) as [p|] eqn:Ep; [|by apply after_ret].
  destruct (m_colorbuffers (w_fb w) !! c) as [r|] eqn:Er; [|by apply after_ret].
  destruct (ok_windows _ _ (proj2 HI) h p Ep) as [a ->]. destruct (ok_colors _ _ (proj2 HI) c r Er) as [b Eb].
  rewrite Eb. pose proof (color_used w c r b Er Eb) as Hb. apply wp_bind. eapply wp_mono.
  { eapply held_use_color; [exact (proj1 HI)|eapply small_le; [|done]; lia|]. intros x [= <-]. done. }
  cbv beta. intros _ w1 H1. apply wp_bind. eapply wp_mono.
  { eapply setColorBuffer_ok; [exact H1|unfold small in *; lia|by eapply window_used|]. cbv beta. lia. }
  cbv beta. intros _ w2 H2. apply wp_bind. eapply wp_mono; [eapply held_drop_color; exact H2|]. cbv beta.
  intros _ w3 H3. apply wp_ret. eapply Inv_intro; [eapply Held_mono; [|exact H3]; lia|done..|].
  eapply tables_ok_mono; [|apply HI]. lia.
Qed.

Lemma repost_ok K w t : Inv K w -> wp (repost env t) (fun _ w' => Inv K w') w.
Proof. intros HI. unfold repost. apply wp_bind, wp_read. destruct (negb _); [by apply post_ok|by apply wp_ret]. Qed.

Lemma setDisplayRotation_ok K w t z : Inv K w -> wp (setDisplayRotation env t z) (fun _ w' => Inv K w') w.
Proof.
  intros HI. unfold setDisplayRotation. apply wp_bind.
  eapply wp_mono; [eapply quiet_inv; [apply Quiet_modify_fb, off_rotated|done|exact HI]|]. cbv beta. intros _ w1 H1.
  apply wp_bind. eapply wp_mono; [by apply repost_ok|]. cbv beta. intros b w2 H2. by apply wp_ret.
Qed.

Lemma setupSubWindow_ok K w t p x y wd ht z :
  Inv K w -> wp (setupSubWindow env t p x y wd ht z) (fun _ w' => Inv K w') w.
Proof.
  assert (Hstep : forall A B (m : M A) (k : A -> M B) K w, Quiet m -> Inv K w ->
            (forall a w', Inv K w' -> wp (k a) (fun _ w' => Inv K w') w') -> wp (mbind k m) (fun _ w' => Inv K w') w).
  { intros A B m k K' w' Hm HI Hk. apply wp_bind. eapply wp_mono; [by eapply quiet_inv|]. cbv beta. auto. }
  intros HI. unfold setupSubWindow. apply wp_bind, wp_read. destruct (negb _); [by apply wp_ret|].
  apply Hstep; [quiet_go|done|]. clear w HI. intros win w HI. destruct (win =? 0); [by apply wp_ret|].
  apply Hstep; [quiet_go|done|]. clear w HI. intros s w HI. apply Hstep; [quiet_go|done|]. clear w HI. intros _ w HI.
  destruct (s =? 0).
  { apply Hstep; [quiet_go|done|]. clear w HI. intros _ w HI. apply Hstep; [quiet_go|done|]. clear w HI.
    intros _ w HI. by apply wp_ret. }
  apply Hstep; [quiet_go|done|]. clear w HI. intros ok w HI. destruct (negb ok); [by apply wp_ret|].
  apply Hstep; [quiet_go|done|]. clear w HI. intros _ w HI. apply Hstep; [quiet_go|done|]. clear w HI. intros _ w HI.
  apply wp_bind, wp_read, wp_bind. eapply wp_mono; [by apply post_ok|]. cbv beta. clear w HI. intros _ w HI.
  apply Hstep; [quiet_go|done|]. clear w HI. intros b w HI. by apply wp_ret.
Qed.

Lemma Quiet_removeSubWindow t : Quiet (removeSubWindow env t).
Proof. unfold removeSubWindow. quiet_go. Qed.

Lemma Quiet_end_of_thread t : Quiet (end_of_thread env t).
Proof. unfold end_of_thread. quiet_go. Qed.

Lemma answer_ok {A} (f : A -> Z) m K w :
  wp m (fun _ w' => Inv K w') w -> wp (answer f m) (fun _ w' => Inv K w') w.
Proof. intros H. apply wp_bind. eapply wp_mono; [exact H|]. cbv beta. intros a w' H'. by apply wp_ret. Qed.

Lemma with_fb_ok {A} (none : A) m K w :
  Inv K w -> (s_theFrameBuffer (w_fb w) = true -> wp m (fun _ w' => Inv K w') w) ->
  wp (with_fb none m) (fun _ w' => Inv K w') w.
Proof. intros HI H. apply wp_bind, wp_read. destruct (s_theFrameBuffer (w_fb w)); [by apply H|by apply wp_ret]. Qed.

(** The answer thrown away or turned into another one. *)
Lemma then_ret {A B} (m : M A) (f : A -> B) K w :
  wp m (fun _ w' => Inv K w') w -> wp (a ← m; mret (f a)) (fun _ w' => Inv K w') w.
Proof. intros H. apply wp_bind. eapply wp_mono; [exact H|]. cbv beta. intros a w' H'. by apply wp_ret. Qed.

Lemma weaken {A} (m : M A) k K w :
  (k <= 16)%nat -> wp m (fun _ w' => Inv (k + K) w') w -> wp m (fun _ w' => Inv (16 + K) w') w.
Proof. intros Hk H. eapply wp_mono; [exact H|]. cbv beta. intros a w'. apply Inv_mono. lia. Qed.

(** One call: it returns, and the invariant holds again, unless it is the flush of
    a window that was never bound. *)
Lemma handle_ok K w t e :
  Inv K w -> small (16 + K) -> crashes e w = false ->
  wp (handle env s_fbConfigs t e) (fun _ w' => Inv (16 + K) w') w.
Proof.
  intros HI HK Hcr. assert (H8 : small (8 + K)) by (eapply small_le; [|done]; lia).
  assert (HI16 : Inv (16 + K) w) by (eapply Inv_mono; [|exact HI]; lia).
  destruct e; cbn [handle];
    unfold rcGetFBParam, rcCreateContext, rcDestroyContext, rcCreateWindowSurface, rcDestroyWindowSurface,
      rcCreateColorBuffer, rcOpenColorBuffer, rcCloseColorBuffer, rcFlushWindowColorBuffer,
      rcSetWindowColorBuffer, rcMakeCurrent, rcFBPost, rcBindTexture, rcBindRenderbuffer, rcUpdateColorBuffer;
    repeat match goal with
      | |- wp (answer _ _) _ _ => apply answer_ok
      | |- wp (with_fb _ _) _ _ => apply with_fb_ok; [done|intros Hlive]
      end.
  - apply wp_bind, wp_read. by apply wp_ret.
  - apply (weaken _ 8); [lia|]. by apply createRenderContext_ok.
  - apply (weaken _ 0); [lia|]. by apply DestroyRenderContext_ok.
  - apply (weaken _ 8); [lia|]. by apply createWindowSurface_ok.
  - apply (weaken _ 0); [lia|]. by apply DestroyWindowSurface_ok.
  - apply (weaken _ 8); [lia|]. by apply createColorBuffer_ok.
  - apply (weaken _ 0); [lia|]. by apply openColorBuffer_ok.
  - apply (weaken _ 0); [lia|]. by apply closeColorBuffer_ok.
  - apply then_ret, (weaken _ 0); [lia|]. apply flushWindow_ok; [done|].
    cbn [crashes] in Hcr. by rewrite Hlive in Hcr.
  - apply then_ret, (weaken _ 8); [lia|]. by apply setWindow_ok.
  - apply then_ret, (weaken _ 16); [lia|]. by apply bindContext_ok.
  - apply then_ret, (weaken _ 0); [lia|]. by apply post_ok.
  - apply then_ret, (weaken _ 0); [lia|]. apply with_color_buffer_ok; [done|]. intros p. apply Quiet_bind_image.
  - apply then_ret, (weaken _ 0); [lia|]. apply with_color_buffer_ok; [done|]. intros p. apply Quiet_bind_image.
  - apply then_ret, (weaken _ 0); [lia|]. apply with_color_buffer_ok; [done|]. intros p. quiet_go.
  - apply (weaken _ 0); [lia|]. eapply quiet_inv; [apply Quiet_end_of_thread|done|done].
  - apply (weaken _ 0); [lia|]. by apply setupSubWindow_ok.
  - apply (weaken _ 0); [lia|]. eapply quiet_inv; [apply Quiet_removeSubWindow|done|done].
  - apply (weaken _ 0); [lia|]. by apply setDisplayRotation_ok.
  - apply (weaken _ 0); [lia|]. by apply repost_ok.
Qed.

Lemma image_too_large_ok K w t wd ht f :
  Inv K w -> image_too_large wd ht f = true ->
  createColorBuffer env t wd ht f w = Err FatalExit \/
  wp (createColorBuffer env t wd ht f) (fun _ w' => Inv K w') w.
Proof.
  unfold image_too_large. intros HI Hn. unfold createColorBuffer, ColorBuffer_create.
  destruct (tex_internal_format f) as [fmt|]; [|done].
  destruct (Quiet_bind_locked env t w I) as (ok & w1 & E & Hq).
  destruct ok.
  - left. unfold mbind, M_bind. rewrite E. cbn [negb]. unfold new_texture, fresh, gl, modify, mbind, M_bind. cbv zeta.
    by rewrite Hn.
  - right. apply wp_bind. exists None, w1. split.
    + unfold mbind, M_bind. by rewrite E.
    + apply wp_ret. destruct HI as [HH Ht]. unfold Inv. rewrite (q_tables _ _ Hq).
      split; [by eapply Held_quiet|done].
Qed.

(** What happens in the cases of [crashes]. *)
Lemma handle_crash K w t e :
  Inv K w -> crashes e w = true ->
  (exists err, handle env s_fbConfigs t e w = Err err) \/
  wp (handle env s_fbConfigs t e) (fun _ w' => Inv (16 + K) w') w.
Proof.
  intros HI Hc. destruct e; try done; cbn [crashes] in Hc; cbn [handle].
  - unfold rcCreateColorBuffer. destruct (s_theFrameBuffer (w_fb w)) eqn:El.
    + destruct (image_too_large_ok K w t _ _ _ HI Hc) as [E|Hw].
      * left. exists FatalExit. unfold with_fb, mbind, M_bind, read. by rewrite El.
      * right. apply with_fb_ok; [eapply Inv_mono; [|exact HI]; lia|]. intros _. by apply (weaken _ 0); [lia|].
    + right. apply with_fb_ok; [eapply Inv_mono; [|exact HI]; lia|]. by rewrite El.
  - left. exists NullDeref. apply andb_true_iff in Hc as [Hl Hb].
    destruct (m_windows (w_fb w) !! windowSurface) as [[a|]|] eqn:Ep; [|done..].
    unfold rcFlushWindowColorBuffer, with_fb, flushWindowSurfaceColorBuffer, mbind, M_bind, read.
    rewrite Hl. unfold mbind, M_bind. rewrite Ep. cbn [mjoin option_join] in Hb.
    by rewrite (flush_unbound env t a w Hb).
Qed.

Lemma init_inv width height onPost : Inv 0 (init_world width height onPost).
Proof.
  split; [exists ∅|by split]. split; [..|done|done].
  - apply counts_ok_empty. intros a. reflexivity.
  - apply counts_ok_empty. intros a. reflexivity.
  - apply counts_ok_empty. intros a. reflexivity.
  - intros a _. done.
  - intros a. split_and!; apply Nat.eq_le_incl; reflexivity.
Qed.

Lemma handle_all_ok K w events :
  Inv K w -> small (16 * length events + K) ->
  (exists w', handle_all env s_fbConfigs events w = Ok (tt, w') /\ Inv (16 * length events + K) w') \/
  (exists pre t e post w' err, events = pre ++ (t, e) :: post /\
     handle_all env s_fbConfigs pre w = Ok (tt, w') /\ crashes e w' = true /\
     handle_all env s_fbConfigs events w = Err err).
Proof.
  revert K w. induction events as [|[t e] events IH]; intros K w HI HK.
  - left. exists w. done.
  - cbn [length] in HK.
    assert (Hstep : (exists err, handle env s_fbConfigs t e w = Err err /\ crashes e w = true) \/
                    wp (handle env s_fbConfigs t e) (fun _ w' => Inv (16 + K) w') w).
    { destruct (crashes e w) eqn:Ec; [|right; apply handle_ok; [done|unfold small in *; lia|done]].
      destruct (handle_crash K w t e HI Ec) as [[err E]|H]; [left; eauto|by right]. }
    destruct Hstep as [(err & E & Ec)|(a & w1 & E1 & H1)].
    + right. exists [], t, e, events, w, err. split_and!; [done..|].
      unfold handle_all. cbn [for_each]. unfold mbind, M_bind. by rewrite E.
    + assert (Estep : forall l, handle_all env s_fbConfigs ((t, e) :: l) w = handle_all env s_fbConfigs l w1).
      { intros l. unfold handle_all at 1. cbn [for_each]. unfold mbind, M_bind. rewrite E1. done. }
      destruct (IH (16 + K)%nat w1 H1) as [(w2 & E2 & H2)|(pre & t' & e' & post & w2 & err & -> & E2 & Hc & E3)].
      * unfold small in *. lia.
      * left. exists w2. split; [by rewrite Estep|]. eapply Inv_mono; [|exact H2]. cbn [length]. lia.
      * right. exists ((t, e) :: pre), t', e', post, w2, err. split_and!; [done|by rewrite Estep|done|by rewrite Estep].
Qed.

(** C11 Whatever guests and the owner of the window call, in any order and on any
    threads, whatever the host's EGL answers: every call returns, no null or freed
    object is used and nothing is freed twice, up to the first call of one of two
    kinds.  A flush of a window surface with a colour buffer of its size, on which no
    context was ever made current, calls through a null pointer; and a colour buffer
    whose image has so many bytes that their number does not fit an [int] throws an
    exception that nothing catches. *)
Theorem calls_never_fault events width height onPost :
  16 * Z.of_nat (length events) < 2 ^ 31 - 64 ->
  let w := init_world width height onPost in
  (exists w', handle_all env s_fbConfigs events w = Ok (tt, w')) \/
  (exists pre t e post w' err, events = pre ++ (t, e) :: post /\
     handle_all env s_fbConfigs pre w = Ok (tt, w') /\ crashes e w' = true /\
     handle_all env s_fbConfigs events w = Err err).
Proof.
  intros Hl w. destruct (handle_all_ok 0 w events (init_inv _ _ _)) as [(w' & E & _)|H].
  - unfold small. lia.
  - left. eauto.
  - right. exact H.
Qed.

(** Who refers to a context, a window surface, a colour buffer. *)
Definition refers_context (w : World) (a : Z) : Prop :=
  (exists h, m_contexts (w_fb w) !! h = Some (Some a)) \/
  (exists t i, w_threads w !! t = Some i /\ currContext i = Some a) \/
  (exists b x, s_objects (w_windows w) !! b = Some x /\ (m_readContext x = Some a \/ m_drawContext x = Some a)).

Definition refers_window (w : World) (a : Z) : Prop :=
  (exists h, m_windows (w_fb w) !! h = Some (Some a)) \/
  (exists t i, w_threads w !! t = Some i /\ (currDrawSurf i = Some a \/ currReadSurf i = Some a)).

Definition refers_color (w : World) (a : Z) : Prop :=
  (exists h r, m_colorbuffers (w_fb w) !! h = Some r /\ cbr_cb r = Some a) \/
  (exists b x, s_objects (w_windows w) !! b = Some x /\ m_attachedColorBuffer x = Some a).

Lemma points_two p q a : (0 < points p a + points q a)%nat <-> p = Some a \/ q = Some a.
Proof.
  split.
  - intros H. destruct (decide (p = Some a)) as [->|Hp]; [by left|right]. apply points_pos.
    unfold points at 1 in H. rewrite decide_False in H by done. lia.
  - intros [->| ->]; rewrite points_self; lia.
Qed.

Lemma sum_map_iff {V} (f : V -> nat) (m : gmap Z V) :
  (0 < sum_map f m)%nat <-> exists k v, m !! k = Some v /\ (0 < f v)%nat.
Proof.
  split; [apply sum_map_pos|]. intros (k & v & Hk & Hv). pose proof (sum_map_lookup f m k v Hk). lia.
Qed.

Lemma points_iff p a : (0 < points p a)%nat <-> p = Some a.
Proof. split; [apply points_pos|]. intros ->. rewrite points_self. lia. Qed.

Lemma named_iff (m : gmap Z (option Z)) a :
  (0 < sum_map (fun p => points p a) m)%nat <-> exists h, m !! h = Some (Some a).
Proof.
  rewrite sum_map_iff. split.
  - intros (k & v & Hk & Hv). apply points_iff in Hv. subst. by exists k.
  - intros (k & Hk). exists k, (Some a). by rewrite points_iff.
Qed.

Lemma add_pos m n : (0 < m + n)%nat <-> (0 < m)%nat \/ (0 < n)%nat.
Proof. lia. Qed.

Lemma Inv_context_iff K w a : Inv K w -> is_Some (s_objects (w_contexts w) !! a) <-> refers_context w a.
Proof.
  intros [[O HS] _]. destruct (st_contexts _ _ _ _ _ _ _ HS a) as [-> _].
  rewrite <-(st_objects _ _ _ _ _ _ _ HS). unfold tables, context_uses, all_contexts, refers_context.
  rewrite !add_pos, named_iff, !sum_map_iff. setoid_rewrite points_iff. unfold held_contexts.
  setoid_rewrite points_two. tauto.
Qed.

Lemma Inv_window_iff K w a : Inv K w -> is_Some (s_objects (w_windows w) !! a) <-> refers_window w a.
Proof.
  intros [[O HS] _]. destruct (st_windows _ _ _ _ _ _ _ HS a) as [-> _].
  unfold tables, window_uses, refers_window.
  rewrite !add_pos, named_iff, !sum_map_iff. setoid_rewrite points_two. tauto.
Qed.

Lemma Inv_color_iff K w a : Inv K w -> is_Some (s_objects (w_colors w) !! a) <-> refers_color w a.
Proof.
  intros [[O HS] _]. destruct (st_colors _ _ _ _ _ _ _ HS a) as [-> _].
  rewrite <-(st_objects _ _ _ _ _ _ _ HS). unfold tables, color_uses, all_colors, refers_color.
  rewrite !add_pos, !sum_map_iff. unfold held_color. setoid_rewrite points_iff. tauto.
Qed.

(** C12 After any calls an RenderContext exists exactly while a handle of the guest, a
    thread or a window surface refers to it; a window surface while a handle or a
    thread does; a colour buffer while a handle or a window surface does: nothing
    is freed too early, and the renderer leaks none of them. *)
Theorem objects_live_while_used events width height onPost w :
  16 * Z.of_nat (length events) < 2 ^ 31 - 64 ->
  handle_all env s_fbConfigs events (init_world width height onPost) = Ok (tt, w) ->
  forall a, (is_Some (s_objects (w_contexts w) !! a) <-> refers_context w a) /\
            (is_Some (s_objects (w_windows w) !! a) <-> refers_window w a) /\
            (is_Some (s_objects (w_colors w) !! a) <-> refers_color w a).
Proof.
  intros Hl E a.
  destruct (handle_all_ok 0 (init_world width height onPost) events (init_inv _ _ _)) as [(w' & E' & HI)|H].
  - unfold small. lia.
  - assert (w' = w) as -> by congruence.
    split_and!; [by eapply Inv_context_iff|by eapply Inv_window_iff|by eapply Inv_color_iff].
  - destruct H as (pre & t & e & post & w' & err & _ & _ & _ & E4). congruence.
Qed.

Lemma context_use_drop K cu wu bu T w p :
  Held K cu wu bu T w -> small K -> (forall a, p = Some a -> 0 < cu a)%nat ->
  exists s, use p (w_contexts w) = Ok s /\ release p s = Ok (None, w_contexts w).
Proof.
  intros [O HS] HK Hp. eapply use_release; [exact (st_contexts _ _ _ _ _ _ _ HS)|..].
  - intros a Ha. specialize (Hp a Ha). cbv beta. lia.
  - intros a _. destruct (st_bound _ _ _ _ _ _ _ HS a) as (Hb & _). unfold small in HK. cbv beta in *. lia.
Qed.

Lemma window_use_drop K cu wu bu T w p :
  Held K cu wu bu T w -> small K -> (forall a, p = Some a -> 0 < wu a)%nat ->
  exists s, use p (w_windows w) = Ok s /\ release p s = Ok (None, w_windows w).
Proof.
  intros [O HS] HK Hp. eapply use_release; [exact (st_windows _ _ _ _ _ _ _ HS)|..].
  - intros a Ha. by apply Hp.
  - intros a _. destruct (st_bound _ _ _ _ _ _ _ HS a) as (_ & Hb & _). unfold small in HK. lia.
Qed.

(** [bindContext] with a handle that names nothing answers false, and everything
    is as before: no call of EGL was made, no counter is off. *)
Theorem bindContext_bad_handle K w t c d r :
  Inv K w -> small K -> c <> 0 \/ d <> 0 \/ r <> 0 ->
  m_contexts (w_fb w) !! c = None \/ m_windows (w_fb w) !! d = None \/ m_windows (w_fb w) !! r = None ->
  bindContext env t c d r w = Ok (false, w).
Proof.
  intros HI HK Hnz Hbad. destruct (id HI) as [HH _]. unfold bindContext, mbind at 1, M_bind at 1.
  assert (Hf : find_handles env t c d r w = Ok (None, w)); [|by rewrite Hf].
  unfold find_handles, mbind at 1, M_bind at 1. unfold read at 1.
  assert (Hc : negb (c =? 0) || negb (d =? 0) || negb (r =? 0) = true).
  { destruct (Z.eqb_spec c 0), (Z.eqb_spec d 0), (Z.eqb_spec r 0); try done. intuition. }
  rewrite Hc. destruct (m_contexts (w_fb w) !! c) as [p|] eqn:Ec; [|done].
  destruct (context_use_drop _ _ _ _ _ _ p HH HK) as (s & Es & Er).
  { intros a ->. by eapply context_live. }
  unfold use_context, drop_context, read, lift, modify, mbind, M_bind. cbn. rewrite Es. cbn.
  destruct (m_windows (w_fb w) !! d) as [q|] eqn:Ed.
  2:{ cbn. rewrite Er. cbn. by destruct w. }
  destruct (window_use_drop _ _ _ _ _ _ q HH HK) as (s' & Es' & Er').
  { intros a ->. by eapply window_used. }
  unfold use_window, drop_window, read, lift, modify, mbind, M_bind. cbn. rewrite Es'. cbn.
  assert (Ew : m_windows (w_fb w) !! r = None) by (destruct Hbad as [?|[?|?]]; congruence).
  destruct (Z.eqb_spec r d) as [->|Hne]; [congruence|]. cbn. rewrite Ew. cbn. rewrite Er. cbn. rewrite Er'. cbn.
  by destruct w.
Qed.
End Env.

(** ** Examples *)

(** A host whose EGL always agrees, with one config. *)
Definition demo_env (n : nat) : Z := 1.
Definition demo_configs : list Z := [7].

(** A context 1, a window surface 2 and a colour buffer 3 of its size. *)
Definition demo_setup : list (Z * event) :=
  [(1, CreateContext 0 0 1); (1, CreateWindowSurface 0 64 32); (1, CreateColorBuffer 64 32 GL_RGBA);
   (1, SetWindowColorBuffer 2 3)].

Definition run (events : list (Z * event)) : World :=
  match handle_all demo_env demo_configs events (init_world 480 800 false) with
  | Ok (_, w) => w
  | Err _ => init_world 480 800 false
  end.

Definition demo_events : list (Z * event) :=
  demo_setup ++ [(1, MakeCurrent 1 2 2); (1, FlushWindowColorBuffer 2); (2, FBPost 3); (1, DestroyContext 1)].

Example demo_runs : handle_all demo_env demo_configs demo_events (init_world 480 800 false) = Ok (tt, run demo_events).
Proof. vm_compute. reflexivity. Qed.

Lemma demo_inv : Inv 64 (run demo_setup).
Proof.
  destruct (handle_all_ok demo_env demo_configs 0 (init_world 480 800 false) demo_setup (init_inv _ _ _))
    as [(w' & E & HI)|(pre & t & h & post & w' & err & _ & _ & _ & E)]; [reflexivity| |].
  - unfold run. by rewrite E.
  - exfalso. vm_compute in E. discriminate E.
Qed.

Example calls_never_fault_witness :
  let w := init_world 480 800 false in
  (exists w', handle_all demo_env demo_configs demo_events w = Ok (tt, w')) \/
  (exists pre t e post w' err, demo_events = pre ++ (t, e) :: post /\
     handle_all demo_env demo_configs pre w = Ok (tt, w') /\ crashes e w' = true /\
     handle_all demo_env demo_configs demo_events w = Err err).
Proof. apply (calls_never_fault demo_env demo_configs demo_events 480 800 false). reflexivity. Defined.

Example objects_live_while_used_witness :
  (is_Some (s_objects (w_contexts (run demo_events)) !! 4) <-> refers_context (run demo_events) 4) /\
  (is_Some (s_objects (w_windows (run demo_events)) !! 4) <-> refers_window (run demo_events) 4) /\
  (is_Some (s_objects (w_colors (run demo_events)) !! 4) <-> refers_color (run demo_events) 4).
Proof.
  apply (objects_live_while_used demo_env demo_configs demo_events 480 800 false).
  - reflexivity.
  - vm_compute. reflexivity.
Defined.

(** Handle 9 names no window. *)
Example bindContext_bad_handle_witness :
  bindContext demo_env 1 1 2 9 (run demo_setup) = Ok (false, run demo_setup).
Proof.
  apply (bindContext_bad_handle demo_env 64).
  - exact demo_inv.
  - reflexivity.
  - left. discriminate.
  - right. right. vm_compute. reflexivity.
Defined.

(** The context destroyed by the guest lives on in the thread. *)
Example destroyed_context_stays :
  (m_contexts (w_fb (run demo_events)) !! 1,
   length (map_to_list (s_objects (w_contexts (run demo_events))))) = (None, 1%nat).
Proof. vm_compute. reflexivity. Qed.

(** The window surface gets its colour buffer, and before any context was made
    current on it, it is flushed. *)
Example flush_before_bind :
  handle_all demo_env demo_configs (demo_setup ++ [(1, FlushWindowColorBuffer 2)]) (init_world 480 800 false) =
  Err NullDeref.
Proof. vm_compute. reflexivity. Qed.

(** Four bytes for each of 65535 times 65535 pixels. *)
Example image_size_negative :
  handle_all demo_env demo_configs [(1, CreateColorBuffer 65535 65535 GL_RGBA)] (init_world 480 800 false) =
  Err FatalExit.
Proof. vm_compute. reflexivity. Qed.

(** The counter of handles wraps around, and a colour buffer that is open is lost:
    the handle of the guest names the new one. *)
Example handle_of_open_color_buffer :
  (let w := run (demo_setup ++ [(1, DestroyWindowSurfaceCall 2); (1, DestroyContext 1)]) in
   let w := set_fb (fb_nextHandle (2 ^ 32 - 1) (w_fb w)) w in
   match handle_all demo_env demo_configs
           [(1, CreateColorBuffer 8 8 GL_RGBA); (1, CreateColorBuffer 8 8 GL_RGBA);
            (1, CreateColorBuffer 8 8 GL_RGBA)] w with
   | Ok (_, w') => (length (map_to_list (m_colorbuffers (w_fb w))),
                    (map_to_list (m_colorbuffers (w_fb w'))).*1, m_colorbuffers (w_fb w') !! 3)
   | Err _ => (0%nat, [], None)
   end) = (1%nat, [3; 2; 1], Some (mkColorBufferRef (Some 26) 1)).
Proof. vm_compute. reflexivity. Qed.

(** A context of version 2, then one of version 1: the decoder for version 2 keeps
    the data of the first context, which are freed with it. *)
Example decoder_data_dangle :
  (let w := run [(1, CreateContext 0 0 2); (1, CreateContext 0 0 1); (1, CreateWindowSurface 0 8 8);
                 (1, MakeCurrent 1 3 3); (1, MakeCurrent 2 3 3); (1, DestroyContext 1)] in
   (i ← w_threads w !! 1; gl2Dec_data i) = Some 4 /\ s_objects (w_contexts w) !! 4 = None).
Proof. vm_compute. split; reflexivity. Qed.

(** A colour buffer that is deleted leaves its second texture and image. *)
Example color_buffer_leaks :
  (let w := run [(1, CreateColorBuffer 8 8 GL_RGBA); (1, CloseColorBuffer 1)] in
   (length (filter (fun c : call => c.1 = "glGenTextures"%string) (w_trace w)),
    length (filter (fun c : call => c.1 = "glDeleteTextures"%string) (w_trace w)),
    length (filter (fun c : call => c.1 = "eglCreateImageKHR"%string) (w_trace w)),
    length (filter (fun c : call => c.1 = "eglDestroyImageKHR"%string) (w_trace w)))) =
  (2, 1, 2, 1)%nat.
Proof. vm_compute. reflexivity. Qed.
