(* ===== verification/RendererBinding.v ===== *)
(** * What is current in a thread

    The frame buffer makes its own context current for most of its work and the
    thread's one afterwards.  When the host's EGL does not refuse, every call but
    those that are asked to change the binding leaves it as it was; and
    [bindContext] makes the binding that was asked for, in EGL, in the thread's
    information and in the window surfaces.  Triples [Tr] are about calls that
    return; that they do is in [RendererTheorems]. *)
From S2P Require Import Prelude SmartPtr Renderer RendererProofs RendererTheorems.

Local Open Scope Z_scope.

(** What is current in the thread [t]. *)
Definition current (t : Z) (w : World) : Binding := default no_binding (w_current w !! t).

(** ** Triples *)

Definition Tr {A} (P : World -> Prop) (m : M A) (Q : A -> World -> Prop) : Prop :=
  forall w a w', P w -> m w = Ok (a, w') -> Q a w'.

Section Tr.
Context {A B : Type}.

Lemma Tr_ret (P : World -> Prop) (Q : A -> World -> Prop) a : (forall w, P w -> Q a w) -> Tr P (mret a) Q.
Proof. intros H w b w' Hp [= <- <-]. by apply H. Qed.

Lemma Tr_bind P Q R (m : M A) (k : A -> M B) :
  Tr P m Q -> (forall a, Tr (Q a) (k a) R) -> Tr P (mbind k m) R.
Proof.
  intros Hm Hk w b w' Hp. unfold mbind, M_bind. destruct (m w) as [[a w1]|] eqn:E; [|done].
  intros E2. eapply Hk; [|exact E2]. by eapply Hm.
Qed.

Lemma Tr_conseq (P P' : World -> Prop) Q Q' (m : M A) :
  Tr P' m Q' -> (forall w, P w -> P' w) -> (forall a w, Q' a w -> Q a w) -> Tr P m Q.
Proof. intros Hm HP HQ w a w' Hp E. eapply HQ, Hm; [|exact E]. auto. Qed.

Lemma Tr_ite P Q (b : bool) (m m' : M A) : Tr P m Q -> Tr P m' Q -> Tr P (if b then m else m') Q.
Proof. by destruct b. Qed.
End Tr.

(** A computation that changes nothing that [P] is about. *)
Definition Steady (P : World -> Prop) {A} (m : M A) : Prop := Tr P m (fun _ => P).

Lemma Steady_read {A} P (f : World -> A) : Steady P (read f).
Proof. intros w a w' Hp [= <- <-]. done. Qed.

Lemma Steady_ret {A} P (a : A) : Steady P (mret a).
Proof. by apply Tr_ret. Qed.

Lemma Steady_bind {A B} P (m : M A) (k : A -> M B) :
  Steady P m -> (forall a, Steady P (k a)) -> Steady P (mbind k m).
Proof. apply Tr_bind. Qed.

Lemma Steady_when P b m : Steady P m -> Steady P (when b m).
Proof. intros H. destruct b; [done|apply Steady_ret]. Qed.

Lemma Steady_ite {A} P (b : bool) (m m' : M A) : Steady P m -> Steady P m' -> Steady P (if b then m else m').
Proof. by destruct b. Qed.

Lemma Steady_lift {A} P (r : result A) : Steady P (lift r).
Proof. intros w a w' Hp. unfold lift. destruct r; [|done]. by intros [= <- <-]. Qed.

Create HintDb steady.
#[export] Hint Resolve Steady_ret Steady_read Steady_lift : steady.

Ltac steady_go :=
  repeat first
    [ progress intros
    | solve [auto with steady]
    | apply Steady_bind
    | apply Steady_when
    | apply Steady_ite
    | match goal with |- Steady _ (match ?x with _ => _ end) => destruct x end ].

(** ** The two states of the thread [t] *)

Section Env.
Variable env : nat -> Z.
Hypothesis env_ok : forall n, env n <> 0.

(** Neither EGL's bindings nor the remembered one are changed. *)
Definition calm {A} (m : M A) : Prop :=
  forall w a w', m w = Ok (a, w') -> w_current w' = w_current w /\ m_prev (w_fb w') = m_prev (w_fb w).

Lemma calm_ret {A} (a : A) : calm (mret a).
Proof. intros w b w' [= <- <-]. done. Qed.

Lemma calm_read {A} (f : World -> A) : calm (read f).
Proof. intros w b w' [= <- <-]. done. Qed.

Lemma calm_lift {A} (r : result A) : calm (lift r).
Proof. intros w a w'. unfold lift. destruct r; [|done]. by intros [= <- <-]. Qed.

Lemma calm_bind {A B} (m : M A) (k : A -> M B) : calm m -> (forall a, calm (k a)) -> calm (mbind k m).
Proof.
  intros Hm Hk w b w'. unfold mbind, M_bind. destruct (m w) as [[a w1]|] eqn:E; [|done]. intros E2.
  destruct (Hm _ _ _ E) as [<- <-]. by apply (Hk a _ _ _ E2).
Qed.

Lemma calm_when b m : calm m -> calm (when b m).
Proof. intros H. destruct b; [done|apply calm_ret]. Qed.

Lemma calm_ite {A} (b : bool) (m m' : M A) : calm m -> calm m' -> calm (if b then m else m').
Proof. by destruct b. Qed.

Lemma calm_modify f :
  (forall w, w_current (f w) = w_current w /\ m_prev (w_fb (f w)) = m_prev (w_fb w)) -> calm (modify f).
Proof. intros H w a w' [= <- <-]. apply H. Qed.

Lemma calm_fb f : (forall fb, m_prev (f fb) = m_prev fb) -> calm (modify_fb f).
Proof. intros H. apply calm_modify. intros w. split; [done|]. cbn. apply H. Qed.

Lemma calm_fresh : calm fresh.
Proof. by intros w a w' [= <- <-]. Qed.

Lemma calm_ask : calm (ask env).
Proof. by intros w a w' [= <- <-]. Qed.

Create HintDb calm.
Hint Resolve calm_ret calm_read calm_lift calm_fresh calm_ask : calm.

Ltac calm_go :=
  repeat first
    [ progress intros
    | solve [auto with calm]
    | apply calm_bind
    | apply calm_when
    | apply calm_ite
    | solve [apply calm_modify; done]
    | solve [apply calm_fb; done]
    | match goal with |- calm (match ?x with _ => _ end) => destruct x end ].

Lemma calm_gl name args : calm (gl name args).
Proof. unfold gl. calm_go. Qed.
Hint Resolve calm_gl : calm.
Lemma calm_create_handle name args : calm (create_handle env name args).
Proof. unfold create_handle. calm_go. Qed.
Lemma calm_use_context p : calm (use_context p).
Proof. unfold use_context. calm_go. Qed.
Lemma calm_drop_context p : calm (drop_context p).
Proof. unfold drop_context, delete_RenderContext. calm_go. Qed.
Hint Resolve calm_create_handle calm_use_context calm_drop_context : calm.
Lemma calm_assign_context p q : calm (assign_context p q).
Proof. unfold assign_context. calm_go. Qed.
Lemma calm_context p : calm (context p).
Proof. unfold context. calm_go. Qed.
Lemma calm_use_color p : calm (use_color p).
Proof. unfold use_color. calm_go. Qed.
Lemma calm_color p : calm (color p).
Proof. unfold color. calm_go. Qed.
Lemma calm_put_color p c : calm (put_color p c).
Proof. unfold put_color. calm_go. Qed.
Lemma calm_use_window p : calm (use_window p).
Proof. unfold use_window. calm_go. Qed.
Lemma calm_window p : calm (window p).
Proof. unfold window. calm_go. Qed.
Lemma calm_put_window p x : calm (put_window p x).
Proof. unfold put_window. calm_go. Qed.
Lemma calm_put_thread t i : calm (put_thread t i).
Proof. unfold put_thread. calm_go. Qed.
Lemma calm_fail {A} e : calm (fail e : M A).
Proof. done. Qed.
Hint Resolve calm_fail : calm.
Lemma calm_new_texture f w h b : calm (new_texture f w h b).
Proof. unfold new_texture. cbv zeta. calm_go. Qed.
Lemma calm_drawTexQuad b : calm (drawTexQuad b).
Proof. unfold drawTexQuad. calm_go. Qed.
Lemma calm_getCurrent t : calm (eglGetCurrent t).
Proof. unfold eglGetCurrent. calm_go. Qed.
Lemma calm_genHandle : calm genHandle.
Proof. unfold genHandle. calm_go. Qed.
Hint Resolve calm_assign_context calm_context calm_use_color calm_color calm_put_color calm_use_window
  calm_window calm_put_window calm_put_thread calm_new_texture calm_drawTexQuad calm_genHandle calm_getCurrent : calm.
Lemma calm_bind_fbo p : calm (bind_fbo env p).
Proof. unfold bind_fbo. cbv zeta. calm_go. Qed.
Lemma calm_post p : calm (ColorBuffer_post p).
Proof. unfold ColorBuffer_post. calm_go. Qed.
Lemma calm_bind_read p q : calm (bind_read p q).
Proof. unfold bind_read. calm_go. Qed.
Lemma calm_bind_draw p q : calm (bind_draw p q).
Proof. unfold bind_draw. calm_go. Qed.
Hint Resolve calm_bind_fbo calm_post calm_bind_read calm_bind_draw : calm.
Lemma calm_call_bind p q type : calm (call_bind p q type).
Proof. unfold call_bind. destruct type; cbn [bind]; calm_go. Qed.
Hint Resolve calm_call_bind : calm.
Lemma calm_bind_surfaces ctx d r same : calm (bind_surfaces ctx d r same).
Proof. unfold bind_surfaces. calm_go. Qed.
Lemma calm_bind_image name target t p : calm (bind_image name target t p).
Proof. unfold bind_image, thread_info. calm_go. Qed.
Lemma calm_RenderContext_create s_fbConfigs cfg p b : calm (RenderContext_create env s_fbConfigs cfg p b).
Proof. unfold RenderContext_create, delete_RenderContext. calm_go. Qed.
Hint Resolve calm_bind_surfaces calm_bind_image calm_RenderContext_create : calm.

Section Thread.
Variable t : Z.
Variable c0 : Z -> Binding.

(** Every thread has what it had. *)
Definition own (w : World) : Prop := forall t', current t' w = c0 t'.

(** The thread [t] has something else for the moment, and the frame buffer
    remembers what it had. *)
Definition away (w : World) : Prop :=
  (forall t', t' <> t -> current t' w = c0 t') /\ m_prev (w_fb w) = c0 t.

Lemma calm_own {A} (m : M A) : calm m -> Steady own m.
Proof. intros Hm w a w' Hw E t'. destruct (Hm w a w' E) as [E1 _]. unfold current. rewrite E1. apply Hw. Qed.

Lemma calm_away {A} (m : M A) : calm m -> Steady away m.
Proof.
  intros Hm w a w' [H1 H2] E. destruct (Hm w a w' E) as [E1 E2]. split; [|congruence].
  intros t' Ht'. unfold current. rewrite E1. by apply H1.
Qed.

Lemma makeCurrent_yes b w ok w' :
  eglMakeCurrent env t b w = Ok (ok, w') ->
  ok = true /\ w_current w' = <[t := b]> (w_current w) /\ w_fb w' = w_fb w.
Proof.
  unfold eglMakeCurrent, gl, ask, modify, mbind, M_bind. cbn.
  destruct (Z.eqb_spec (env (w_tick w)) 0) as [E|_]; [by destruct (env_ok _ E)|]. intros [= <- <-]. done.
Qed.

Lemma go_away b (k : World -> World) :
  Tr own (prev ← eglGetCurrent t;
          ok ← eglMakeCurrent env t b;
          if (negb ok : bool) then mret false else modify_fb (fb_prev prev);; mret true)
    (fun ok w => ok = true /\ away w).
Proof.
  intros w a w' Hw. unfold eglGetCurrent, read. unfold mbind at 1, M_bind at 1.
  unfold mbind at 1, M_bind at 1. destruct (eglMakeCurrent env t b w) as [[ok w1]|] eqn:E; [|done].
  destruct (makeCurrent_yes _ _ _ _ E) as (-> & E1 & E2). intros [= <- <-]. split; [done|]. split.
  - intros t' Ht'. unfold current. cbn. rewrite E1, lookup_insert_ne by done. apply Hw.
  - cbn. apply Hw.
Qed.

Lemma bind_locked_away : Tr own (bind_locked env t) (fun ok w => ok = true /\ away w).
Proof.
  intros w a w' Hw E. eapply (go_away _ id w a w' Hw). exact E.
Qed.

Lemma unbind_own : Tr away (unbind_locked env t) (fun _ w => own w).
Proof.
  intros w a w' [H1 H2]. unfold unbind_locked, read. unfold mbind at 1, M_bind at 1.
  unfold mbind at 1, M_bind at 1. destruct (eglMakeCurrent env t _ w) as [[ok w1]|] eqn:E; [|done].
  destruct (makeCurrent_yes _ _ _ _ E) as (-> & E1 & E2). intros [= <- <-]. intros t'. unfold current. cbn.
  rewrite E1. destruct (decide (t' = t)) as [->|Ht].
  - by rewrite lookup_insert_eq.
  - rewrite lookup_insert_ne by done. by apply H1.
Qed.

Lemma bindSubwin_away : Tr own (bindSubwin_locked env t) (fun ok w => ok = true /\ away w).
Proof.
  intros w a w' Hw. unfold bindSubwin_locked. unfold eglGetCurrent, read. do 2 (unfold mbind at 1, M_bind at 1).
  unfold mbind at 1, M_bind at 1. destruct (eglMakeCurrent env t _ w) as [[ok w1]|] eqn:E; [|done].
  destruct (makeCurrent_yes _ _ _ _ E) as (-> & E1 & E2). cbn [negb]. intros E3.
  assert (Hc : forall b, calm (when b (initGLState;; modify_fb fb_initialized))).
  { intros b. unfold initGLState. calm_go. }
  unfold mbind at 1, M_bind at 1 in E3. destruct (when _ _ w1) as [[u w2]|] eqn:E4; [|done].
  destruct (Hc _ _ _ _ E4) as [F1 F2]. injection E3 as <- <-. split; [done|]. split.
  - intros t' Ht'. unfold current. cbn. rewrite F1, E1, lookup_insert_ne by done. apply Hw.
  - cbn. apply Hw.
Qed.

Context {A B : Type}.

Lemma own_bind_locked (k : bool -> M B) Q :
  Tr away (k true) Q -> Tr own (mbind k (bind_locked env t)) Q.
Proof. intros H. eapply Tr_bind; [apply bind_locked_away|]. cbv beta. intros ok w b w' [-> Ha] E. by eapply H. Qed.

Lemma own_bindSubwin (k : bool -> M B) Q :
  Tr away (k true) Q -> Tr own (mbind k (bindSubwin_locked env t)) Q.
Proof. intros H. eapply Tr_bind; [apply bindSubwin_away|]. cbv beta. intros ok w b w' [-> Ha] E. by eapply H. Qed.

Lemma away_unbind (k : bool -> M B) Q :
  (forall b, Tr own (k b) Q) -> Tr away (mbind k (unbind_locked env t)) Q.
Proof. intros H. eapply Tr_bind; [apply unbind_own|]. done. Qed.

Lemma away_bind (m : M A) (k : A -> M B) Q :
  calm m -> (forall a, Tr away (k a) Q) -> Tr away (mbind k m) Q.
Proof. intros Hm Hk. eapply Tr_bind; [by apply calm_away|done]. Qed.
End Thread.

Ltac own_go c0 :=
  repeat first
    [ progress intros
    | progress cbn [negb]
    | solve [auto with steady]
    | match goal with
      | |- Steady _ (mbind _ (bind_locked _ _)) => apply own_bind_locked
      | |- Steady _ (mbind _ (bindSubwin_locked _ _)) => apply own_bindSubwin
      | |- Tr _ (mbind _ (unbind_locked _ _)) _ => apply away_unbind
      | |- Tr (away _ _) (mbind _ _) _ => apply away_bind; [solve [calm_go]|]
      | |- Tr (own _) ?m (fun _ => own _) => change (Steady (own c0) m)
      | |- Tr (own _) ?m (fun _ w => own _ w) => change (Steady (own c0) m)
      | |- Steady _ (mbind _ _) => apply Steady_bind
      | |- Steady _ (when _ _) => apply Steady_when
      | |- Steady _ (if _ then _ else _) => apply Steady_ite
      | |- Steady _ (match ?x with _ => _ end) => destruct x
      | |- Steady _ _ => solve [apply calm_own; auto with calm]
      end ].

Section Own.
Variable t : Z.
Variable c0 : Z -> Binding.

Lemma own_delete_color c : Steady (own c0) (delete_ColorBuffer env t c).
Proof. unfold delete_ColorBuffer. own_go c0. Qed.
Hint Resolve own_delete_color : steady.

Lemma own_drop_color p : Steady (own c0) (drop_color env t p).
Proof. unfold drop_color. own_go c0. apply calm_own. calm_go. Qed.
Hint Resolve own_drop_color : steady.

Lemma own_assign_color p q : Steady (own c0) (assign_color env t p q).
Proof. unfold assign_color. own_go c0. Qed.

Lemma own_delete_window x : Steady (own c0) (delete_WindowSurface env t x).
Proof. unfold delete_WindowSurface. own_go c0. Qed.
Hint Resolve own_assign_color own_delete_window : steady.

Lemma own_drop_window p : Steady (own c0) (drop_window env t p).
Proof. unfold drop_window. own_go c0. apply calm_own. calm_go. Qed.
Hint Resolve own_drop_window : steady.

Lemma own_assign_window p q : Steady (own c0) (assign_window env t p q).
Proof. unfold assign_window. own_go c0. Qed.
Hint Resolve own_assign_window : steady.

Lemma own_subUpdate p x y w h f ty : Steady (own c0) (subUpdate env t p x y w h f ty).
Proof. unfold subUpdate. own_go c0. Qed.

Lemma own_blitFrom p : Steady (own c0) (blitFromCurrentReadBuffer env t p).
Proof.
  unfold blitFromCurrentReadBuffer, thread_info. own_go c0. cbn [when].
  eapply (Tr_bind _ (fun _ => own c0)).
  - apply away_bind; [auto with calm|]. intros fbo. own_go c0.
  - intros u. own_go c0.
Qed.
Hint Resolve own_subUpdate own_blitFrom : steady.

Lemma own_ColorBuffer_create w h f : Steady (own c0) (ColorBuffer_create env t w h f).
Proof. unfold ColorBuffer_create. own_go c0. Qed.
Hint Resolve own_ColorBuffer_create : steady.

Lemma own_createColorBuffer w h f : Steady (own c0) (createColorBuffer env t w h f).
Proof.
  unfold createColorBuffer, new_color. own_go c0; apply calm_own; calm_go.
Qed.

Lemma own_createRenderContext s_fbConfigs cfg sh b : Steady (own c0) (createRenderContext env s_fbConfigs cfg sh b).
Proof.
  apply calm_own. unfold createRenderContext, createRenderContext_with, new_context. calm_go.
Qed.

Lemma own_post h : Steady (own c0) (post env t h).
Proof.
  unfold post. own_go c0; try (apply calm_own; calm_go).
Qed.
Hint Resolve own_createColorBuffer own_createRenderContext own_post : steady.

Lemma own_repost : Steady (own c0) (repost env t).
Proof. unfold repost. own_go c0. Qed.

Lemma own_close h : Steady (own c0) (closeColorBuffer env t h).
Proof. unfold closeColorBuffer. own_go c0; apply calm_own; calm_go. Qed.

Lemma own_destroyWindow h : Steady (own c0) (DestroyWindowSurface env t h).
Proof. unfold DestroyWindowSurface. own_go c0; apply calm_own; calm_go. Qed.
Hint Resolve own_repost own_close own_destroyWindow : steady.

(** The thread [t] has [b], the others what they had. *)
Definition instead (b : Binding) (t' : Z) : Binding := if decide (t' = t) then b else c0 t'.

Lemma makeCurrent_instead b :
  Tr (own c0) (eglMakeCurrent env t b) (fun ok w => ok = true /\ own (instead b) w).
Proof.
  intros w ok w' Hw E. destruct (makeCurrent_yes t b w ok w' E) as (-> & E1 & _). split; [done|].
  intros t'. unfold current, instead. rewrite E1. destruct (decide (t' = t)) as [->|Ht].
  - by rewrite lookup_insert_eq.
  - rewrite lookup_insert_ne by done. apply Hw.
Qed.

Lemma makeCurrent_back b :
  Tr (own (instead b)) (eglMakeCurrent env t (c0 t)) (fun ok w => own c0 w).
Proof.
  intros w ok w' Hw E. destruct (makeCurrent_yes t _ w ok w' E) as (-> & E1 & _). intros t'.
  unfold current. rewrite E1. destruct (decide (t' = t)) as [->|Ht].
  - by rewrite lookup_insert_eq.
  - rewrite lookup_insert_ne by done. specialize (Hw t'). unfold instead in Hw. by rewrite decide_False in Hw.
Qed.

Lemma getCurrent_own : Tr (own c0) (eglGetCurrent t) (fun b w => b = c0 t /\ own c0 w).
Proof. intros w b w' Hw [= <- <-]. split; [apply Hw|done]. Qed.
End Own.

Section Calls.
Variable t : Z.
Variable c0 : Z -> Binding.
Hint Resolve own_drop_color own_assign_color own_delete_window own_drop_window own_assign_window
  own_subUpdate own_createColorBuffer own_createRenderContext own_post own_repost own_close
  own_destroyWindow : steady.

(** The surface made current, something done, and the old binding again. *)
Lemma own_detour b (m : M bool) :
  (forall c1, Steady (own c1) m) ->
  Steady (own c0) (ok ← eglMakeCurrent env t b;
                   if (negb ok : bool) then mret tt else _ ← m; _ ← eglMakeCurrent env t (c0 t); mret tt).
Proof.
  intros Hm. eapply Tr_bind; [apply makeCurrent_instead|]. cbv beta. intros ok w u w' [-> Hw] E. cbn [negb] in E.
  refine ((_ : Tr (own (instead t c0 b)) _ (fun _ => own c0)) w u w' Hw E). eapply Tr_bind; [apply Hm|]. cbv beta. intros _.
  eapply Tr_bind; [apply makeCurrent_back|]. cbv beta. intros _. apply Steady_ret.
Qed.

Lemma own_blitTo p : Steady (own c0) (blitToColorBuffer env t p).
Proof.
  unfold blitToColorBuffer. apply Steady_bind; [apply calm_own; auto with calm|]. intros x.
  apply Steady_ite; [auto with steady|]. apply Steady_bind; [apply calm_own; auto with calm|]. intros cb.
  apply Steady_ite; [auto with steady|]. eapply Tr_bind; [apply getCurrent_own|]. cbv beta.
  intros prev w u w' [-> Hw] E. refine ((_ : Steady (own c0) (ctx ← context (m_drawContext x);
    ok ← eglMakeCurrent env t (mkBinding (ws_eglSurface x) (ws_eglSurface x) (rc_ctx ctx));
    if (negb ok : bool) then mret tt
    else _ ← blitFromCurrentReadBuffer env t (m_attachedColorBuffer x); _ ← eglMakeCurrent env t (c0 t); mret tt)) w u w' Hw E).
  apply Steady_bind; [apply calm_own; auto with calm|]. intros ctx. apply own_detour. intros c1. apply own_blitFrom.
Qed.
Hint Resolve own_blitTo : steady.

Lemma own_flush p : Steady (own c0) (flushColorBuffer env t p).
Proof. unfold flushColorBuffer. own_go c0. Qed.

Lemma own_new_window cfg w h : Steady (own c0) (resizePbuffer env t w h (new_WindowSurface cfg)).
Proof. unfold resizePbuffer. cbn. apply calm_own. calm_go. Qed.
Hint Resolve own_flush own_new_window : steady.

Lemma own_createWindow s_fbConfigs cfg w h : Steady (own c0) (createWindowSurface env s_fbConfigs t cfg w h).
Proof.
  unfold createWindowSurface, WindowSurface_create, new_window. own_go c0; apply calm_own; calm_go.
Qed.
Hint Resolve own_createWindow : steady.

(** The calls whose purpose is another binding, or another surface for it. *)
Definition rebinds (e : event) : bool :=
  match e with
  | MakeCurrent _ _ _ | EndOfThread | CreateSubWindow _ _ _ _ _ _ | DestroySubWindow
  | SetWindowColorBuffer _ _ => true
  | _ => false
  end.

Lemma own_handle s_fbConfigs e : rebinds e = false -> Steady (own c0) (handle env s_fbConfigs t e).
Proof.
  intros He. destruct e; try done; cbn [handle];
    unfold rcGetFBParam, rcCreateContext, rcDestroyContext, rcCreateWindowSurface, rcDestroyWindowSurface,
      rcCreateColorBuffer, rcOpenColorBuffer, rcCloseColorBuffer, rcFlushWindowColorBuffer,
      rcFBPost, rcBindTexture, rcBindRenderbuffer, rcUpdateColorBuffer, answer, with_fb,
      DestroyRenderContext, openColorBuffer, flushWindowSurfaceColorBuffer,
      bindColorBufferToTexture, bindColorBufferToRenderbuffer, bindToTexture, bindToRenderbuffer,
      updateColorBuffer, with_color_buffer, setDisplayRotation;
    own_go c0; apply calm_own; calm_go.
Qed.
End Calls.

(** C15 With a host whose EGL does not refuse to make a binding current, every thread
    has after a call what was current in it before, even though the frame buffer
    used its own context in between: any call but [MakeCurrent], the end of a thread,
    the creation and removal of the sub window, and the setting of a window's colour
    buffer. *)
Theorem calls_keep_bindings s_fbConfigs t e w a w' :
  rebinds e = false -> handle env s_fbConfigs t e w = Ok (a, w') ->
  forall t', current t' w' = current t' w.
Proof.
  intros He E. exact (own_handle t (fun t' => current t' w) s_fbConfigs e He w a w' (fun t' => eq_refl) E).
Qed.

(** ** [bindContext] *)

(** Facts about the surfaces and contexts that stay true when some are deleted, and
    about the threads' information. *)
Section Persist.
Variable P : gmap Z WindowSurface -> gmap Z RenderContext -> gmap Z ThreadInfo -> Prop.
Hypothesis P_window : forall O C H a, P O C H -> P (delete a O) C H.
Hypothesis P_context : forall O C H a, P O C H -> P O (delete a C) H.

Definition seen (w : World) : Prop :=
  P (s_objects (w_windows w)) (s_objects (w_contexts w)) (w_threads w).

Lemma seen_quiet {A} (m : M A) : Quiet m -> Steady seen m.
Proof.
  intros Hm w a w' Hw E. destruct (Hm w I) as (b & w1 & E1 & Hq). assert (w1 = w') as <- by congruence.
  pose proof (q_tables _ _ Hq) as Et. injection Et as _ _ _ Eh _. unfold seen.
  by rewrite (q_windows _ _ Hq), (q_contexts _ _ Hq), Eh.
Qed.

Lemma seen_modify f :
  (forall w, w_windows (f w) = w_windows w /\ w_contexts (f w) = w_contexts w /\ w_threads (f w) = w_threads w) ->
  Steady seen (modify f).
Proof. intros H w a w' Hw [= <- <-]. unfold seen. by destruct (H w) as (-> & -> & ->). Qed.

Ltac seen_go :=
  repeat first
    [ progress intros
    | solve [auto with steady]
    | apply Steady_bind
    | apply Steady_when
    | apply Steady_ite
    | solve [apply seen_modify; done]
    | solve [apply seen_quiet; auto with quiet]
    | match goal with |- Steady _ (match ?x with _ => _ end) => destruct x end ].

Lemma seen_use_context p : Steady seen (use_context p).
Proof.
  intros w a w' Hw. unfold use_context, read, lift, modify, mbind, M_bind.
  destruct (use p (w_contexts w)) as [s|] eqn:E; cbn; [|done]. intros [= <- <-]. unfold seen. cbn.
  by rewrite (use_objects _ _ _ E).
Qed.

Lemma seen_drop_context p : Steady seen (drop_context p).
Proof.
  intros w a w' Hw. unfold drop_context, read, lift, modify, mbind, M_bind.
  destruct (release p (w_contexts w)) as [[dead s]|] eqn:E; cbn; [|done].
  assert (Hs : seen (set_contexts s w)).
  { unfold seen. cbn. destruct (release_objects _ _ _ _ E) as [->|[b ->]]; [done|by apply P_context]. }
  destruct dead as [c|]; [|by intros [= <- <-]]. by apply (seen_quiet _ (Quiet_delete_context c)).
Qed.
Hint Resolve seen_use_context seen_drop_context : steady.

Lemma seen_assign_context p q : Steady seen (assign_context p q).
Proof. unfold assign_context. seen_go. Qed.
Lemma seen_context p : Steady seen (context p).
Proof. unfold context. seen_go. Qed.

Lemma seen_use_window p : Steady seen (use_window p).
Proof.
  intros w a w' Hw. unfold use_window, read, lift, modify, mbind, M_bind.
  destruct (use p (w_windows w)) as [s|] eqn:E; cbn; [|done]. intros [= <- <-]. unfold seen. cbn.
  by rewrite (use_objects _ _ _ E).
Qed.

Lemma seen_drop_color t p : Steady seen (drop_color env t p).
Proof. unfold drop_color. seen_go. Qed.
Hint Resolve seen_assign_context seen_context seen_use_window seen_drop_color : steady.

Lemma seen_delete_window t x : Steady seen (delete_WindowSurface env t x).
Proof. unfold delete_WindowSurface. seen_go. Qed.

Lemma seen_drop_window t p : Steady seen (drop_window env t p).
Proof.
  intros w a w' Hw. unfold drop_window, read, lift, modify, mbind, M_bind.
  destruct (release p (w_windows w)) as [[dead s]|] eqn:E; cbn; [|done].
  assert (Hs : seen (set_windows s w)).
  { unfold seen. cbn. destruct (release_objects _ _ _ _ E) as [->|[b ->]]; [done|by apply P_window]. }
  destruct dead; [|by intros [= <- <-]]. by apply seen_delete_window.
Qed.
Hint Resolve seen_drop_window : steady.

Lemma seen_assign_window t p q : Steady seen (assign_window env t p q).
Proof. unfold assign_window. seen_go. Qed.

Lemma seen_let_go t p q r (b : bool) :
  Steady seen (drop_context p;; drop_window env t q;; drop_window env t r;; mret b).
Proof. seen_go. Qed.

Lemma seen_put_window a x x' :
  (forall O C H, P O C H -> O !! a = Some x -> P (<[a := x']> O) C H) ->
  forall w u w', seen w -> s_objects (w_windows w) !! a = Some x -> put_window (Some a) x' w = Ok (u, w') -> seen w'.
Proof.
  intros Hx w u w' Hw Ha. unfold put_window, put_object, arrow, read, lift, modify, mbind, M_bind. cbn.
  rewrite Ha. cbn. intros [= <- <-]. unfold seen. cbn. by apply Hx.
Qed.
End Persist.

Lemma Tr_and {A} (P P' : World -> Prop) Q Q' (m : M A) :
  Tr P m Q -> Tr P' m Q' -> Tr (fun w => P w /\ P' w) m (fun a w => Q a w /\ Q' a w).
Proof. intros H1 H2 w a w' [Hp Hp'] E. split; [by eapply H1|by eapply H2]. Qed.

Lemma Tr_read {A} (P : World -> Prop) (f : World -> A) : Tr P (read f) (fun a w => a = f w /\ P w).
Proof. by intros w a w' Hp [= <- <-]. Qed.

Lemma Tr_pure {A} (X : Prop) P (m : M A) Q : (X -> Tr P m Q) -> Tr (fun w => X /\ P w) m Q.
Proof. intros H w a w' [Hx Hp] E. by eapply H. Qed.

Lemma window_run a w x w' : window (Some a) w = Ok (x, w') -> w' = w /\ s_objects (w_windows w) !! a = Some x.
Proof.
  unfold window, arrow, read, lift, mbind, M_bind. cbn. destruct (_ !! a) as [y|]; cbn; [|done]. by intros [= <- <-].
Qed.

Lemma context_run a w x w' : context (Some a) w = Ok (x, w') -> w' = w /\ s_objects (w_contexts w) !! a = Some x.
Proof.
  unfold context, arrow, read, lift, mbind, M_bind. cbn. destruct (_ !! a) as [y|]; cbn; [|done]. by intros [= <- <-].
Qed.

Section Assign.
Variables P P' : gmap Z WindowSurface -> gmap Z RenderContext -> gmap Z ThreadInfo -> Prop.
Hypothesis P_context : forall O C H a, P O C H -> P O (delete a C) H.
Variable a : Z.
Variable ctx : option Z.

(** One of the window's pointers assigned. *)
Lemma assign_tr (old : WindowSurface -> option Z) (new : WindowSurface -> WindowSurface) :
  (forall O C H x, P O C H -> O !! a = Some x -> P' (<[a := new x]> O) C H) ->
  Tr (seen P) (x ← window (Some a); assign_context (old x) ctx;; put_window (Some a) (new x)) (fun _ => seen P').
Proof.
  intros HP w u w' Hw. unfold mbind at 1, M_bind at 1.
  destruct (window (Some a) w) as [[x w1]|] eqn:E; [|done]. apply window_run in E as [-> Ex].
  unfold mbind, M_bind. destruct (assign_context (old x) ctx w) as [[v w2]|] eqn:E; [|done].
  assert (H2 : seen (fun O C H => P O C H /\ O !! a = Some x) w2).
  { eapply (seen_assign_context (fun O C H => P O C H /\ O !! a = Some x)); [|split; [exact Hw|exact Ex]|exact E].
    intros O C H b [? ?]. split; auto. }
  destruct H2 as [H2 Ex2]. unfold put_window, put_object, arrow, read, lift, modify, mbind, M_bind. cbn.
  rewrite Ex2. cbn. intros [= <- <-]. unfold seen. cbn. by apply HP.
Qed.
End Assign.

Section Bind.
Variables (t ca da ra : Z) (x : RenderContext) (dx rx : WindowSurface) (c0 : Z -> Binding).

Definition present (O : gmap Z WindowSurface) (C : gmap Z RenderContext) (H : gmap Z ThreadInfo) : Prop :=
  O !! da = Some dx /\ O !! ra = Some rx /\ C !! ca = Some x.

Definition kind_known (O : gmap Z WindowSurface) (C : gmap Z RenderContext) (H : gmap Z ThreadInfo) : Prop :=
  forall y, C !! ca = Some y -> rc_isGL2 y = rc_isGL2 x.
Definition draw_bound (O : gmap Z WindowSurface) : Prop :=
  forall y, O !! da = Some y -> m_drawContext y = Some ca.
Definition read_bound (O : gmap Z WindowSurface) : Prop :=
  forall y, O !! ra = Some y -> m_readContext y = Some ca.
Definition bound (O : gmap Z WindowSurface) (C : gmap Z RenderContext) (H : gmap Z ThreadInfo) : Prop :=
  (kind_known O C H /\ draw_bound O) /\ read_bound O.
Definition thread_bound (H : gmap Z ThreadInfo) : Prop :=
  exists i, H !! t = Some i /\ currContext i = Some ca /\ currDrawSurf i = Some da /\ currReadSurf i = Some ra /\
            (if rc_isGL2 x then gl2Dec_data i else glDec_data i) = Some ca.

Lemma kind_known_context O C H a : kind_known O C H -> kind_known O (delete a C) H.
Proof. intros Hk y Hy. apply lookup_delete_Some in Hy as [_ Hy]. by apply Hk. Qed.
Lemma draw_bound_delete O a : draw_bound O -> draw_bound (delete a O).
Proof. intros Hk y Hy. apply lookup_delete_Some in Hy as [_ Hy]. by apply Hk. Qed.
Lemma read_bound_delete O a : read_bound O -> read_bound (delete a O).
Proof. intros Hk y Hy. apply lookup_delete_Some in Hy as [_ Hy]. by apply Hk. Qed.
Hint Resolve kind_known_context draw_bound_delete read_bound_delete : core.

Lemma bound_window O C H a : bound O C H -> bound (delete a O) C H.
Proof. intros [[H1 H2] H3]. split; [split|]; auto. Qed.
Lemma bound_context O C H a : bound O C H -> bound O (delete a C) H.
Proof. intros [[H1 H2] H3]. split; [split|]; auto. Qed.

Lemma call_bind_tr (P P' : gmap Z WindowSurface -> gmap Z RenderContext -> gmap Z ThreadInfo -> Prop) a ctx type :
  (forall O C H b, P O C H -> P O (delete b C) H) -> (forall O C H b, P' O C H -> P' O (delete b C) H) ->
  Tr (seen P) (bind (Some a) ctx type) (fun _ => seen P') ->
  Tr (seen P) (call_bind (Some a) ctx type) (fun _ => seen P').
Proof.
  intros H1 H2 HB. unfold call_bind. eapply Tr_bind; [by apply seen_use_context|]. cbv beta. intros _.
  eapply Tr_bind; [exact HB|]. cbv beta. intros _. by apply seen_drop_context.
Qed.

Lemma bind_surfaces_tr same :
  (same = true -> da = ra) ->
  Tr (seen kind_known) (bind_surfaces (Some ca) (Some da) (Some ra) same) (fun _ => seen bound).
Proof.
  intros Hsame. cbn [bind_surfaces]. destruct same.
  - specialize (Hsame eq_refl) as Er. apply call_bind_tr; [auto|apply bound_context|]. cbn [bind].
    eapply Tr_bind.
    + eapply (assign_tr kind_known (fun O C H => kind_known O C H /\ read_bound O)); [auto|].
      intros O C H y Hk Hy. split; [done|]. intros z. rewrite <-Er, lookup_insert_eq. by intros [= <-].
    + cbv beta. intros _. eapply assign_tr; [intros O C H b [? ?]; split; auto|].
      intros O C H y [Hk Hr] Hy. split; [split; [done|]|].
      * intros z. rewrite lookup_insert_eq. by intros [= <-].
      * intros z. rewrite <-Er, lookup_insert_eq. intros [= <-]. cbn. apply Hr. by rewrite <-Er.
  - eapply (Tr_bind _ (fun _ => seen (fun O C H => kind_known O C H /\ draw_bound O))).
    + apply call_bind_tr; [auto|intros O C H b [? ?]; split; auto|]. cbn [bind]. eapply assign_tr; [auto|].
      intros O C H y Hk Hy. split; [done|]. intros z. rewrite lookup_insert_eq. by intros [= <-].
    + intros _. apply call_bind_tr; [intros O C H b [? ?]; split; auto|apply bound_context|]. cbn [bind].
      eapply assign_tr; [intros O C H b [? ?]; split; auto|]. intros O C H y [Hk Hd] Hy. split; [split; [done|]|].
      * intros z. destruct (decide (ra = da)) as [->|Hne].
        -- rewrite lookup_insert_eq. intros [= <-]. cbn. by apply Hd.
        -- rewrite lookup_insert_ne by done. apply Hd.
      * intros z. rewrite lookup_insert_eq. by intros [= <-].
Qed.

Lemma update_thread_tr :
  Tr (seen bound) (update_thread env t (Some ca) (Some da) (Some ra))
    (fun _ => seen (fun O C H => bound O C H /\ thread_bound H)).
Proof.
  unfold update_thread. eapply Tr_bind; [apply (Steady_read (seen bound))|]. cbv beta. intros i.
  eapply Tr_bind; [apply seen_assign_context, bound_context|]. cbv beta. intros _.
  eapply Tr_bind; [apply seen_assign_window; [apply bound_window|apply bound_context]|]. cbv beta. intros _.
  eapply Tr_bind; [apply seen_assign_window; [apply bound_window|apply bound_context]|]. cbv beta. intros _.
  intros w u w' Hw. unfold mbind, M_bind. destruct (context (Some ca) w) as [[y w1]|] eqn:E; [|done].
  apply context_run in E as [-> Ey]. destruct (id Hw) as [[Hk _] _]. specialize (Hk y Ey). rewrite Hk.
  unfold put_thread, modify. intros E'.
  assert (Hf : forall j, currContext j = Some ca -> currDrawSurf j = Some da -> currReadSurf j = Some ra ->
            (if rc_isGL2 x then gl2Dec_data j else glDec_data j) = Some ca ->
            Ok (tt, set_threads (<[t:=j]> (w_threads w)) w) = Ok (u, w') ->
            seen (fun O C H => bound O C H /\ thread_bound H) w').
  { intros j J1 J2 J3 J4 [= <- <-]. unfold seen. cbn. split; [exact Hw|]. exists j.
    rewrite lookup_insert_eq. done. }
  destruct (rc_isGL2 x); by eapply Hf; [..|exact E'].
Qed.

Hint Resolve own_drop_color own_assign_color own_delete_window own_drop_window own_assign_window : steady.

Lemma own_update_thread c1 ctx d r : Steady (own c1) (update_thread env t ctx d r).
Proof. unfold update_thread, thread_info. own_go c1; apply calm_own; calm_go. Qed.

Lemma own_let_go c1 p q r (b : bool) :
  Steady (own c1) (drop_context p;; drop_window env t q;; drop_window env t r;; mret b).
Proof. own_go c1. Qed.

Lemma let_go_answer p q r (b : bool) :
  Tr (fun _ => True) (drop_context p;; drop_window env t q;; drop_window env t r;; mret b) (fun b' _ => b' = b).
Proof. repeat (eapply (Tr_bind _ (fun _ _ => True)); [done|intros _]). by apply Tr_ret. Qed.

Lemma held_surface a y P :
  (forall O C H, P O C H -> O !! a = Some y) ->
  Tr (fun w => seen P w /\ own c0 w) (surface_of (Some a))
    (fun d w => d = ws_eglSurface y /\ seen P w /\ own c0 w).
Proof.
  intros HP w d w' [Hw Ho]. cbn [surface_of]. unfold mbind, M_bind.
  destruct (window (Some a) w) as [[z w1]|] eqn:E; [|done]. apply window_run in E as [-> Ez].
  rewrite (HP _ _ _ Hw) in Ez. injection Ez as <-. by intros [= <- <-].
Qed.

Lemma held_context a y P :
  (forall O C H, P O C H -> C !! a = Some y) ->
  Tr (fun w => seen P w /\ own c0 w) (egl_context_of (Some a))
    (fun d w => d = rc_ctx y /\ seen P w /\ own c0 w).
Proof.
  intros HP w d w' [Hw Ho]. cbn [egl_context_of]. unfold mbind, M_bind.
  destruct (context (Some a) w) as [[z w1]|] eqn:E; [|done]. apply context_run in E as [-> Ez].
  rewrite (HP _ _ _ Hw) in Ez. injection Ez as <-. by intros [= <- <-].
Qed.

Definition wanted : Binding := mkBinding (ws_eglSurface dx) (ws_eglSurface rx) (rc_ctx x).

Lemma bind_held_tr same :
  (same = true -> da = ra) ->
  Tr (fun w => seen present w /\ own c0 w) (bind_held env t same (Some ca) (Some da) (Some ra))
    (fun ok w => ok = true /\ seen (fun O C H => bound O C H /\ thread_bound H) w /\
                 own (instead t c0 wanted) w).
Proof.
  intros Hsame. unfold bind_held.
  eapply Tr_bind; [apply (held_surface da dx); by intros O C H (? & ? & ?)|]. cbv beta. intros d. apply Tr_pure. intros ->.
  eapply Tr_bind; [apply (held_surface ra rx); by intros O C H (? & ? & ?)|]. cbv beta. intros d. apply Tr_pure. intros ->.
  eapply Tr_bind; [apply (held_context ca x); by intros O C H (? & ? & ?)|]. cbv beta. intros d. apply Tr_pure. intros ->.
  eapply Tr_bind.
  { apply Tr_and; [|apply makeCurrent_instead]. apply seen_quiet. auto with quiet. }
  cbv beta. intros ok w a w' (Hs & -> & Ho) E. cbn [negb] in E.
  assert (Hk : seen kind_known w).
  { destruct Hs as (_ & _ & Hc). intros y Hy. by assert (y = x) as -> by congruence. }
  assert (Hrest : Tr (fun w => seen kind_known w /\ own (instead t c0 wanted) w)
    (bind_surfaces (Some ca) (Some da) (Some ra) same;; update_thread env t (Some ca) (Some da) (Some ra);;
     drop_context (Some ca);; drop_window env t (Some ra);; drop_window env t (Some da);; mret true)
    (fun ok w => ok = true /\ seen (fun O C H => bound O C H /\ thread_bound H) w /\ own (instead t c0 wanted) w)).
  { eapply Tr_bind; [apply Tr_and; [by apply bind_surfaces_tr|apply calm_own; auto with calm]|]. cbv beta. intros _.
    eapply Tr_bind; [apply Tr_and; [apply update_thread_tr|apply own_update_thread]|]. cbv beta. intros _.
    intros v b v' [Hw Hv] F. split.
    - exact (let_go_answer (Some ca) (Some ra) (Some da) true v b v' I F).
    - split; [|by eapply own_let_go].
      eapply seen_let_go; [| |exact Hw|exact F].
      + intros O C H k [? ?]. split; [by apply bound_window|done].
      + intros O C H k [? ?]. split; [by apply bound_context|done]. }
  exact (Hrest w a w' (conj Hk Ho) E).
Qed.

Lemma find_handles_tr c d r fb :
  c <> 0 -> m_contexts fb !! c = Some (Some ca) -> m_windows fb !! d = Some (Some da) ->
  m_windows fb !! r = Some (Some ra) ->
  Tr (fun w => w_fb w = fb /\ seen present w /\ own c0 w) (find_handles env t c d r)
    (fun o w => o = Some (Some ca, Some da, Some ra) /\ seen present w /\ own c0 w).
Proof.
  intros Hc Ec Ed Er w o w' (Hfb & Hp & Ho). unfold find_handles, read. unfold mbind at 1, M_bind at 1. rewrite Hfb.
  destruct (Z.eqb_spec c 0) as [|_]; [done|]. cbn [negb orb]. rewrite Ec, Ed.
  assert (Huse : forall p, Tr (fun w => seen present w /\ own c0 w) (use_window p)
                             (fun _ w => seen present w /\ own c0 w)).
  { intros p. apply Tr_and; [apply seen_use_window|apply calm_own; auto with calm]. }
  assert (Hra : negb (r =? d) = false -> ra = da).
  { intros E. apply negb_false_iff, Z.eqb_eq in E. subst d. congruence. }
  refine ((_ : Tr (fun w => seen present w /\ own c0 w) _ (fun o w => o = Some (Some ca, Some da, Some ra) /\
             seen present w /\ own c0 w)) w o w' (conj Hp Ho)).
  eapply Tr_bind; [apply Tr_and; [apply seen_use_context|apply calm_own; auto with calm]|]. cbv beta. intros _.
  eapply Tr_bind; [apply Huse|]. cbv beta. intros _. destruct (negb _).
  - rewrite Er. eapply Tr_bind; [apply Huse|]. cbv beta. intros _. by apply Tr_ret.
  - rewrite (Hra eq_refl). eapply Tr_bind; [apply Huse|]. cbv beta. intros _. by apply Tr_ret.
Qed.
End Bind.

(** C14 A successful [bindContext] does all that was asked for: EGL has the context
    current in the thread with both surfaces, other threads keep what they have, the
    thread's information holds the three objects, the decoder for the context's
    kind uses the context's data, and the surfaces know the context that draws and
    reads on them. *)
Theorem bindContext_binds K w t c d r ca da ra x dx rx :
  Inv K w -> small (16 + K) -> c <> 0 ->
  m_contexts (w_fb w) !! c = Some (Some ca) -> s_objects (w_contexts w) !! ca = Some x ->
  m_windows (w_fb w) !! d = Some (Some da) -> s_objects (w_windows w) !! da = Some dx ->
  m_windows (w_fb w) !! r = Some (Some ra) -> s_objects (w_windows w) !! ra = Some rx ->
  exists w', bindContext env t c d r w = Ok (true, w') /\
    current t w' = mkBinding (ws_eglSurface dx) (ws_eglSurface rx) (rc_ctx x) /\
    (forall t', t' <> t -> current t' w' = current t' w) /\
    thread_bound t ca da ra x (w_threads w') /\
    (exists y, s_objects (w_windows w') !! da = Some y /\ m_drawContext y = Some ca) /\
    (exists y, s_objects (w_windows w') !! ra = Some y /\ m_readContext y = Some ca).
Proof.
  intros HI HK Hc Ec Ex Ed Edx Er Erx. destruct (bindContext_ok env K w t c d r HI HK) as (ok & w' & E & HI').
  assert (HT : Tr (fun w0 => w_fb w0 = w_fb w /\ seen (present ca da ra x dx rx) w0 /\ own (fun t' => current t' w) w0)
                 (bindContext env t c d r)
                 (fun ok w0 => ok = true /\ seen (fun O C H => bound ca da ra x O C H /\ thread_bound t ca da ra x H) w0 /\
                    own (instead t (fun t' => current t' w) (wanted x dx rx)) w0)).
  { unfold bindContext. eapply Tr_bind; [by eapply find_handles_tr|]. cbv beta. intros o. apply Tr_pure. intros ->.
    apply bind_held_tr. intros Es. apply Z.eqb_eq in Es. subst d. congruence. }
  destruct (HT w ok w' (conj eq_refl (conj (conj Edx (conj Erx Ex)) (fun t' => eq_refl))) E)
    as (-> & [[[_ Hd] Hr] Ht] & Ho).
  destruct (id Ht) as (i & Ei & _ & Eid & Eir & _).
  assert (Hda : is_Some (s_objects (w_windows w') !! da)).
  { eapply (Inv_window_iff env); [exact HI'|]. right. exists t, i. auto. }
  assert (Hra : is_Some (s_objects (w_windows w') !! ra)).
  { eapply (Inv_window_iff env); [exact HI'|]. right. exists t, i. auto. }
  exists w'. split; [done|]. split.
  - rewrite (Ho t). unfold instead. by rewrite decide_True.
  - split; [intros t' Ht'; rewrite (Ho t'); unfold instead; by rewrite decide_False|]. split; [done|].
    destruct Hda as [y Hy], Hra as [z Hz]. split; [exists y|exists z]; split; [done|by apply Hd|done|by apply Hr].
Qed.
End Env.

(** ** Examples *)

Lemma demo_env_ok n : demo_env n <> 0.
Proof. discriminate. Qed.

Example calls_keep_bindings_witness :
  rebinds (CreateColorBuffer 8 8 GL_RGBA) = false /\
  forall t', current t' (match handle demo_env demo_configs 1 (CreateColorBuffer 8 8 GL_RGBA) (run demo_events) with
                         | Ok (_, w') => w' | Err _ => run demo_setup end) = current t' (run demo_events).
Proof.
  split; [reflexivity|].
  destruct (handle demo_env demo_configs 1 (CreateColorBuffer 8 8 GL_RGBA) (run demo_events)) as [[a w']|e] eqn:E.
  - eapply (calls_keep_bindings demo_env demo_env_ok demo_configs 1 (CreateColorBuffer 8 8 GL_RGBA) (run demo_events)).
    + reflexivity.
    + exact E.
  - exfalso. vm_compute in E. discriminate E.
Defined.

Definition demo_context : RenderContext := mkRenderContext 3 0 false.
Definition demo_window : WindowSurface := mkWindowSurface 5 (Some 11) None None 64 32 64 32 7.

Example bindContext_binds_witness :
  exists w', bindContext demo_env 1 1 2 2 (run demo_setup) = Ok (true, w') /\
    current 1 w' = mkBinding 5 5 3 /\
    (forall t', t' <> 1 -> current t' w' = current t' (run demo_setup)) /\
    thread_bound 1 4 6 6 demo_context (w_threads w') /\
    (exists y, s_objects (w_windows w') !! 6 = Some y /\ m_drawContext y = Some 4) /\
    (exists y, s_objects (w_windows w') !! 6 = Some y /\ m_readContext y = Some 4).
Proof.
  apply (bindContext_binds demo_env demo_env_ok 64 (run demo_setup) 1 1 2 2 4 6 6 demo_context demo_window demo_window);
    first [exact demo_inv | vm_compute; reflexivity | discriminate].
Defined.

(** The sub window is made while a context is current in the thread: the nested
    binding forgets what was current before, and the thread ends with nothing. *)
Example sub_window_loses_binding :
  (let w := run (demo_setup ++ [(1, MakeCurrent 1 2 2); (1, FBPost 3)]) in
   let w' := run (demo_setup ++ [(1, MakeCurrent 1 2 2); (1, FBPost 3); (1, CreateSubWindow 5 0 0 480 800 0)]) in
   (current 1 w, current 1 w')) = (mkBinding 5 5 3, no_binding).
Proof. vm_compute. reflexivity. Qed.
