(* ===== verification/RendererHandles.v ===== *)
(** * The guest's handles

    Which handles the frame buffer gives out and what the calls do to the tables
    that they index: a new handle names no context or window surface, and calls that
    create or destroy nothing leave the tables alone. *)
From S2P Require Import Prelude SmartPtr Renderer RendererProofs RendererTheorems RendererBinding.

Local Open Scope Z_scope.

Definition names (w : World) := (m_contexts (w_fb w), m_windows (w_fb w), m_colorbuffers (w_fb w)).

Section Env.
Variable env : nat -> Z.

Section Names.
Variable N : gmap Z (option Z) * gmap Z (option Z) * gmap Z ColorBufferRef.

Definition named (w : World) : Prop := names w = N.

Lemma named_quiet {A} (m : M A) : Quiet m -> Steady named m.
Proof.
  intros Hm w a w' Hw E. destruct (Hm w I) as (b & w1 & E1 & Hq). assert (w1 = w') as <- by congruence.
  pose proof (q_tables _ _ Hq) as Et. injection Et as E2 E3 E4 _ _. unfold named, names.
  by rewrite E2, E3, E4.
Qed.

Lemma named_modify f : (forall w, names (f w) = names w) -> Steady named (modify f).
Proof. intros H w a w' Hw [= <- <-]. unfold named. by rewrite H. Qed.

Ltac named_go :=
  repeat first
    [ progress intros
    | solve [auto with steady]
    | apply Steady_bind
    | apply Steady_when
    | apply Steady_ite
    | solve [apply named_modify; done]
    | solve [apply named_quiet; auto with quiet]
    | match goal with |- Steady _ (match ?x with _ => _ end) => destruct x end ].

Lemma named_fail {A} e : Steady named (fail e : M A).
Proof. done. Qed.
Hint Resolve named_fail : steady.
Lemma named_use_context p : Steady named (use_context p).
Proof. unfold use_context. named_go. Qed.
Lemma named_drop_context p : Steady named (drop_context p).
Proof. unfold drop_context, delete_RenderContext. named_go. Qed.
Hint Resolve named_use_context named_drop_context : steady.
Lemma named_assign_context p q : Steady named (assign_context p q).
Proof. unfold assign_context. named_go. Qed.
Lemma named_context p : Steady named (context p).
Proof. unfold context. named_go. Qed.
Lemma named_use_color p : Steady named (use_color p).
Proof. unfold use_color. named_go. Qed.
Lemma named_drop_color t p : Steady named (drop_color env t p).
Proof. unfold drop_color. named_go. Qed.
Lemma named_color p : Steady named (color p).
Proof. unfold color. named_go. Qed.
Lemma named_put_color p c : Steady named (put_color p c).
Proof. unfold put_color. named_go. Qed.
Hint Resolve named_assign_context named_context named_use_color named_drop_color named_color named_put_color : steady.
Lemma named_assign_color t p q : Steady named (assign_color env t p q).
Proof. unfold assign_color. named_go. Qed.
Lemma named_use_window p : Steady named (use_window p).
Proof. unfold use_window. named_go. Qed.
Lemma named_drop_window t p : Steady named (drop_window env t p).
Proof. unfold drop_window, delete_WindowSurface. named_go. Qed.
Lemma named_window p : Steady named (window p).
Proof. unfold window. named_go. Qed.
Lemma named_put_window p x : Steady named (put_window p x).
Proof. unfold put_window. named_go. Qed.
Lemma named_put_thread t i : Steady named (put_thread t i).
Proof. unfold put_thread. named_go. Qed.
Hint Resolve named_assign_color named_use_window named_drop_window named_window named_put_window
  named_put_thread : steady.
Lemma named_assign_window t p q : Steady named (assign_window env t p q).
Proof. unfold assign_window. named_go. Qed.
Hint Resolve named_assign_window : steady.
Lemma named_subUpdate t p x y w h f ty : Steady named (subUpdate env t p x y w h f ty).
Proof. unfold subUpdate. named_go. Qed.
Lemma named_bind_fbo p : Steady named (bind_fbo env p).
Proof. unfold bind_fbo. cbv zeta. named_go. Qed.
Hint Resolve named_subUpdate named_bind_fbo : steady.
Lemma named_blit t p : Steady named (blitFromCurrentReadBuffer env t p).
Proof. unfold blitFromCurrentReadBuffer, thread_info. named_go. Qed.
Lemma named_bind_image name target t p : Steady named (bind_image name target t p).
Proof. unfold bind_image, thread_info. named_go. Qed.
Lemma named_ColorBuffer_post p : Steady named (ColorBuffer_post p).
Proof. unfold ColorBuffer_post. named_go. Qed.
Hint Resolve named_blit named_bind_image named_ColorBuffer_post : steady.
Lemma named_post t h : Steady named (post env t h).
Proof. unfold post. named_go. Qed.
Lemma named_flush t p : Steady named (flushColorBuffer env t p).
Proof. unfold flushColorBuffer, blitToColorBuffer. named_go. Qed.
Lemma named_setColorBuffer t p q : Steady named (setColorBuffer env t p q).
Proof. unfold setColorBuffer. cbv zeta. named_go. Qed.
Hint Resolve named_post named_flush named_setColorBuffer : steady.
Lemma named_new_texture f w h b : Steady named (new_texture f w h b).
Proof. unfold new_texture. cbv zeta. named_go. Qed.
Hint Resolve named_new_texture : steady.
Lemma named_ColorBuffer_create t w h f : Steady named (ColorBuffer_create env t w h f).
Proof. unfold ColorBuffer_create. named_go. Qed.
Lemma named_RenderContext_create s_fbConfigs cfg p b : Steady named (RenderContext_create env s_fbConfigs cfg p b).
Proof. unfold RenderContext_create, delete_RenderContext. named_go. Qed.
Lemma named_WindowSurface_create s_fbConfigs t cfg w h : Steady named (WindowSurface_create env s_fbConfigs t cfg w h).
Proof. unfold WindowSurface_create, delete_WindowSurface. named_go. Qed.
Lemma named_call_bind p q type : Steady named (call_bind p q type).
Proof. unfold call_bind. destruct type; cbn [bind]; unfold bind_read, bind_draw; named_go. Qed.
Hint Resolve named_call_bind named_RenderContext_create named_WindowSurface_create : steady.
Lemma named_bindContext t c d r : Steady named (bindContext env t c d r).
Proof. unfold bindContext, find_handles, bind_held, surface_of, egl_context_of, bind_surfaces, update_thread, thread_info. named_go. Qed.
Hint Resolve named_bindContext : steady.

(** The calls that create or destroy an object of the tables, or count references. *)
Definition renames (e : event) : bool :=
  match e with
  | CreateContext _ _ _ | DestroyContext _ | CreateWindowSurface _ _ _ | DestroyWindowSurfaceCall _
  | CreateColorBuffer _ _ _ | OpenColorBuffer _ | CloseColorBuffer _ => true
  | _ => false
  end.

Lemma named_handle s_fbConfigs t e : renames e = false -> Steady named (handle env s_fbConfigs t e).
Proof.
  intros He. destruct e; try done; cbn [handle];
    unfold rcGetFBParam, rcFlushWindowColorBuffer, rcSetWindowColorBuffer, rcMakeCurrent,
      rcFBPost, rcBindTexture, rcBindRenderbuffer, rcUpdateColorBuffer, answer, with_fb,
      flushWindowSurfaceColorBuffer, setWindowSurfaceColorBuffer, end_of_thread,
      bindColorBufferToTexture, bindColorBufferToRenderbuffer, bindToTexture, bindToRenderbuffer,
      updateColorBuffer, with_color_buffer, setDisplayRotation, setupSubWindow, removeSubWindow, repost;
    named_go.
Qed.
End Names.

(** ** What the guest sees *)

Record Handles := mkHandles {
  h_contexts : gset Z;
  h_windows : gset Z;
  h_colors : gmap Z Z              (** with the number of references *)
}.

Definition seen_handles (w : World) : Handles :=
  mkHandles (dom (m_contexts (w_fb w))) (dom (m_windows (w_fb w))) (cbr_refcount <$> m_colorbuffers (w_fb w)).

(** A handle that names no context and no window; colour buffers do not matter. *)
Definition new_handle (a : Z) (H : Handles) : Prop :=
  0 < a < 2 ^ 32 /\ (a ∉ h_contexts H) /\ (a ∉ h_windows H).

(** What a call with the answer [a] may do. *)
Definition spec_step (e : event) (a : Z) (H H' : Handles) : Prop :=
  match e with
  | CreateContext _ _ _ =>
      (a = 0 /\ H' = H) \/
      (new_handle a H /\ H' = mkHandles ({[a]} ∪ h_contexts H) (h_windows H) (h_colors H))
  | CreateWindowSurface _ _ _ =>
      (a = 0 /\ H' = H) \/
      (new_handle a H /\ H' = mkHandles (h_contexts H) ({[a]} ∪ h_windows H) (h_colors H))
  | CreateColorBuffer _ _ _ =>
      (a = 0 /\ H' = H) \/
      (new_handle a H /\ H' = mkHandles (h_contexts H) (h_windows H) (<[a := 1]> (h_colors H)))
  | DestroyContext h => H' = mkHandles (h_contexts H ∖ {[h]}) (h_windows H) (h_colors H)
  | DestroyWindowSurfaceCall h => H' = mkHandles (h_contexts H) (h_windows H ∖ {[h]}) (h_colors H)
  | OpenColorBuffer h =>
      H' = mkHandles (h_contexts H) (h_windows H) (alter (fun n => u32 (n + 1)) h (h_colors H))
  | CloseColorBuffer h =>
      H' = mkHandles (h_contexts H) (h_windows H)
             (match h_colors H !! h with
              | None => h_colors H
              | Some n => if u32 (n - 1) =? 0 then delete h (h_colors H) else <[h := u32 (n - 1)]> (h_colors H)
              end)
  | _ => H' = H
  end.

Section Steps.
Variables (C W : gmap Z (option Z)) (B : gmap Z ColorBufferRef).

Definition at_names (w : World) : Prop := names w = (C, W, B).

Lemma genHandle_tr :
  Tr at_names genHandle (fun a w => (0 < a < 2 ^ 32 /\ C !! a = None /\ W !! a = None) /\ at_names w).
Proof.
  intros w a w' Hw. unfold genHandle, read, lift, mbind, M_bind. cbn.
  destruct (next_handle _ _ _) as [id|] eqn:E; cbn; [|done]. intros [= <- <-].
  apply next_free_result in E as [Ht Hr]; [|done].
  unfold at_names, names in Hw. injection Hw as E1 E2 E3. rewrite E1, E2 in Ht.
  apply orb_false_iff in Ht as [Ht H3]. apply orb_false_iff in Ht as [H1 H2].
  apply Z.eqb_neq in H1. apply bool_decide_eq_false in H2, H3. split; [split; [lia|]|].
  - split; apply eq_None_not_Some; done.
  - unfold at_names, names. cbn. congruence.
Qed.

Lemma names_contexts f :
  Tr at_names (modify_fb (fun fb => fb_contexts (f (m_contexts fb)) fb)) (fun _ w => names w = (f C, W, B)).
Proof. intros w a w' Hw [= <- <-]. unfold at_names, names in *. cbn. by injection Hw as -> -> ->. Qed.
Lemma names_windows f :
  Tr at_names (modify_fb (fun fb => fb_windows (f (m_windows fb)) fb)) (fun _ w => names w = (C, f W, B)).
Proof. intros w a w' Hw [= <- <-]. unfold at_names, names in *. cbn. by injection Hw as -> -> ->. Qed.
Lemma names_colors f :
  Tr at_names (modify_fb (fun fb => fb_colorbuffers (f (m_colorbuffers fb)) fb)) (fun _ w => names w = (C, W, f B)).
Proof. intros w a w' Hw [= <- <-]. unfold at_names, names in *. cbn. by injection Hw as -> -> ->. Qed.
End Steps.

(** The three ways to create. *)
Lemma createRenderContext_with_tr C W B s_fbConfigs cfg sh b :
  Tr (at_names C W B) (createRenderContext_with env s_fbConfigs cfg sh b)
    (fun a w => (a = 0 /\ names w = (C, W, B)) \/
       ((0 < a < 2 ^ 32 /\ C !! a = None /\ W !! a = None) /\ exists p, names w = (<[a := p]> C, W, B))).
Proof.
  assert (Hq : forall A (m : M A), Steady (named (C, W, B)) m -> Tr (at_names C W B) m (fun _ => at_names C W B))
    by (intros A m H; exact H).
  unfold createRenderContext_with. eapply Tr_bind; [apply Hq, named_use_context|]. cbv beta. intros _.
  eapply Tr_bind; [apply Hq, named_RenderContext_create|]. cbv beta. intros o.
  eapply Tr_bind; [apply Hq, named_drop_context|]. cbv beta. intros _.
  destruct o as [c|]; [|apply Tr_ret; intros w Hw; by left].
  eapply Tr_bind; [apply Hq; unfold new_context; apply Steady_bind; [apply named_quiet; auto with quiet|];
    intros a; apply Steady_bind; [by apply named_modify|]; auto with steady|]. cbv beta. intros p.
  eapply Tr_bind; [apply genHandle_tr|]. cbv beta. intros a. apply Tr_pure. intros Ha.
  eapply Tr_bind; [apply Hq, Steady_read|]. cbv beta. intros fb.
  eapply Tr_bind; [apply Hq, named_assign_context|]. cbv beta. intros _.
  eapply Tr_bind; [apply (names_contexts C W B (fun C => <[a := Some p]> C))|]. cbv beta. intros _.
  eapply Tr_bind; [apply (named_drop_context (<[a := Some p]> C, W, B))|]. cbv beta. intros _.
  apply Tr_ret. intros w Hw. right. split; [done|]. by exists (Some p).
Qed.

Lemma createRenderContext_tr C W B s_fbConfigs cfg sh b :
  Tr (at_names C W B) (createRenderContext env s_fbConfigs cfg sh b)
    (fun a w => (a = 0 /\ names w = (C, W, B)) \/
       ((0 < a < 2 ^ 32 /\ C !! a = None /\ W !! a = None) /\ exists p, names w = (<[a := p]> C, W, B))).
Proof.
  unfold createRenderContext. eapply Tr_bind; [apply (Steady_read (at_names C W B))|]. cbv beta. intros fb.
  destruct (negb _); [|apply createRenderContext_with_tr].
  destruct (m_contexts fb !! sh) as [s|]; [|apply Tr_ret; intros w Hw; by left].
  eapply Tr_bind; [apply (named_use_context (C, W, B))|]. cbv beta. intros _.
  eapply Tr_bind; [apply createRenderContext_with_tr|]. cbv beta. intros a w u w' Hw E.
  unfold mbind, M_bind in E. destruct (drop_context s w) as [[v w1]|] eqn:E1; [|done]. injection E as <- <-.
  destruct Hw as [[-> Hw]|[Ha [p Hp]]].
  - left. split; [done|]. by eapply (named_drop_context (C, W, B)).
  - right. split; [done|]. exists p. by eapply (named_drop_context (<[a := p]> C, W, B)).
Qed.

Lemma createWindowSurface_tr C W B s_fbConfigs t cfg x y :
  Tr (at_names C W B) (createWindowSurface env s_fbConfigs t cfg x y)
    (fun a w => (a = 0 /\ names w = (C, W, B)) \/
       ((0 < a < 2 ^ 32 /\ C !! a = None /\ W !! a = None) /\ exists p, names w = (C, <[a := p]> W, B))).
Proof.
  assert (Hq : forall A (m : M A), Steady (named (C, W, B)) m -> Tr (at_names C W B) m (fun _ => at_names C W B))
    by (intros A m H; exact H).
  unfold createWindowSurface. eapply Tr_bind; [apply Hq, named_WindowSurface_create|]. cbv beta. intros o.
  destruct o as [c|]; [|apply Tr_ret; intros w Hw; by left].
  eapply Tr_bind; [apply Hq; unfold new_window; apply Steady_bind; [apply named_quiet; auto with quiet|];
    intros a; apply Steady_bind; [by apply named_modify|]; auto with steady|]. cbv beta. intros p.
  eapply Tr_bind; [apply genHandle_tr|]. cbv beta. intros a. apply Tr_pure. intros Ha.
  eapply Tr_bind; [apply Hq, Steady_read|]. cbv beta. intros fb.
  eapply Tr_bind; [apply Hq, named_assign_window|]. cbv beta. intros _.
  eapply Tr_bind; [apply (names_windows C W B (fun W => <[a := Some p]> W))|]. cbv beta. intros _.
  eapply Tr_bind; [apply (named_drop_window (C, <[a := Some p]> W, B))|]. cbv beta. intros _.
  apply Tr_ret. intros w Hw. right. split; [done|]. by exists (Some p).
Qed.

Lemma createColorBuffer_tr C W B t x y f :
  Tr (at_names C W B) (createColorBuffer env t x y f)
    (fun a w => (a = 0 /\ names w = (C, W, B)) \/
       ((0 < a < 2 ^ 32 /\ C !! a = None /\ W !! a = None) /\
        exists p, names w = (C, W, <[a := mkColorBufferRef p 1]> B))).
Proof.
  assert (Hq : forall A (m : M A), Steady (named (C, W, B)) m -> Tr (at_names C W B) m (fun _ => at_names C W B))
    by (intros A m H; exact H).
  unfold createColorBuffer. eapply Tr_bind; [apply Hq, named_ColorBuffer_create|]. cbv beta. intros o.
  destruct o as [c|]; [|apply Tr_ret; intros w Hw; by left].
  eapply Tr_bind; [apply Hq; unfold new_color; apply Steady_bind; [apply named_quiet; auto with quiet|];
    intros a; apply Steady_bind; [by apply named_modify|]; auto with steady|]. cbv beta. intros p.
  eapply Tr_bind; [apply genHandle_tr|]. cbv beta. intros a. apply Tr_pure. intros Ha.
  eapply Tr_bind; [apply Hq, Steady_read|]. cbv beta. intros fb.
  eapply Tr_bind; [apply Hq, named_assign_color|]. cbv beta. intros _.
  eapply Tr_bind; [apply (names_colors C W B (fun B => <[a := mkColorBufferRef (Some p) 1]> B))|]. cbv beta. intros _.
  eapply Tr_bind; [apply (named_drop_color (C, W, <[a := mkColorBufferRef (Some p) 1]> B))|]. cbv beta. intros _.
  apply Tr_ret. intros w Hw. right. split; [done|]. by exists (Some p).
Qed.

Lemma answer_tr {A} (f : A -> Z) P (m : M A) (Q : Z -> World -> Prop) :
  Tr P m (fun a => Q (f a)) -> Tr P (answer f m) Q.
Proof. intros H. eapply Tr_bind; [exact H|]. cbv beta. intros a. by apply Tr_ret. Qed.

(** Calls on a frame buffer that exists. *)
Lemma with_fb_tr {A} (none : A) (m : M A) P Q :
  Tr P m Q -> Tr (fun w => s_theFrameBuffer (w_fb w) = true /\ P w) (with_fb none m) Q.
Proof.
  intros H w a w' [Hl Hp]. unfold with_fb, read. unfold mbind at 1, M_bind at 1. rewrite Hl. by apply H.
Qed.

(** The tables without one entry, or with a changed one. *)
Lemma DestroyRenderContext_tr C W B h :
  Tr (at_names C W B) (DestroyRenderContext h) (fun _ w => names w = (delete h C, W, B)).
Proof.
  intros w a w' Hw. unfold DestroyRenderContext, read. unfold mbind at 1, M_bind at 1.
  assert (E : m_contexts (w_fb w) = C) by (unfold at_names, names in Hw; by injection Hw).
  rewrite E. destruct (C !! h) as [p|] eqn:Ep; [|intros [= <- <-]; by rewrite delete_id].
  revert w a w' Hw E. assert (Ht : Tr (at_names C W B)
    (modify_fb (fun fb => fb_contexts (delete h (m_contexts fb)) fb);; drop_context p)
    (fun _ w => names w = (delete h C, W, B))).
  { eapply Tr_bind; [apply (names_contexts C W B (delete h))|]. cbv beta. intros _.
    apply (named_drop_context (delete h C, W, B)). }
  intros w a w' Hw _. by apply Ht.
Qed.

Lemma DestroyWindowSurface_tr C W B t h :
  Tr (at_names C W B) (DestroyWindowSurface env t h) (fun _ w => names w = (C, delete h W, B)).
Proof.
  intros w a w' Hw. unfold DestroyWindowSurface, read. unfold mbind at 1, M_bind at 1.
  assert (E : m_windows (w_fb w) = W) by (unfold at_names, names in Hw; by injection Hw).
  rewrite E. destruct (W !! h) as [p|] eqn:Ep; [|intros [= <- <-]; by rewrite delete_id].
  assert (Ht : Tr (at_names C W B)
    (modify_fb (fun fb => fb_windows (delete h (m_windows fb)) fb);; drop_window env t p)
    (fun _ w => names w = (C, delete h W, B))).
  { eapply Tr_bind; [apply (names_windows C W B (delete h))|]. cbv beta. intros _.
    apply (named_drop_window (C, delete h W, B)). }
  by apply Ht.
Qed.

Lemma openColorBuffer_tr C W B h :
  Tr (at_names C W B) (openColorBuffer h)
    (fun _ w => names w = (C, W, alter (fun r => mkColorBufferRef (cbr_cb r) (u32 (cbr_refcount r + 1))) h B)).
Proof.
  intros w a w' Hw. unfold openColorBuffer, read. unfold mbind at 1, M_bind at 1.
  assert (E : m_colorbuffers (w_fb w) = B) by (unfold at_names, names in Hw; by injection Hw).
  rewrite E. destruct (B !! h) as [r|] eqn:Er.
  - intros E2. assert (Ea : alter (fun r => mkColorBufferRef (cbr_cb r) (u32 (cbr_refcount r + 1))) h B =
                            <[h := mkColorBufferRef (cbr_cb r) (u32 (cbr_refcount r + 1))]> B).
    { rewrite <-(insert_id B h r Er) at 1. by rewrite alter_insert_eq. }
    rewrite Ea. by apply (names_colors C W B (fun B => <[h := mkColorBufferRef (cbr_cb r) (u32 (cbr_refcount r + 1))]> B) w a w' Hw).
  - intros [= <- <-]. rewrite alter_id; [done|]. intros r Hr. congruence.
Qed.

Lemma closeColorBuffer_tr C W B t h :
  Tr (at_names C W B) (closeColorBuffer env t h)
    (fun _ w => names w = (C, W,
       match B !! h with
       | None => B
       | Some r => if u32 (cbr_refcount r - 1) =? 0 then delete h B
                   else <[h := mkColorBufferRef (cbr_cb r) (u32 (cbr_refcount r - 1))]> B
       end)).
Proof.
  intros w a w' Hw. unfold closeColorBuffer, read. unfold mbind at 1, M_bind at 1.
  assert (E : m_colorbuffers (w_fb w) = B) by (unfold at_names, names in Hw; by injection Hw).
  rewrite E. destruct (B !! h) as [r|] eqn:Er; [|by intros [= <- <-]]. cbv zeta.
  destruct (_ =? 0).
  - assert (Ht : Tr (at_names C W B)
      (modify_fb (fun fb => fb_colorbuffers (delete h (m_colorbuffers fb)) fb);; drop_color env t (cbr_cb r))
      (fun _ w => names w = (C, W, delete h B))).
    { eapply Tr_bind; [apply (names_colors C W B (delete h))|]. cbv beta. intros _.
      apply (named_drop_color (C, W, delete h B)). }
    by apply Ht.
  - apply (names_colors C W B (fun B => <[h := mkColorBufferRef (cbr_cb r) (u32 (cbr_refcount r - 1))]> B) w a w' Hw).
Qed.

(** C13 The tables implement the handles that the guest sees: once the frame buffer is
    initialised, a call that completes creates a handle that is not 0 and names
    neither a context nor a window surface (colour buffers are not asked, so it may be
    that of one), forgets the one destroyed, counts the references of a colour buffer
    and forgets it with the last one, and changes no other handle. *)
Theorem handles_refine s_fbConfigs t e w a w' :
  s_theFrameBuffer (w_fb w) = true -> handle env s_fbConfigs t e w = Ok (a, w') ->
  spec_step e a (seen_handles w) (seen_handles w').
Proof.
  intros Hl. destruct (names w) as [[C W] B] eqn:En.
  assert (Hs : seen_handles w = mkHandles (dom C) (dom W) (cbr_refcount <$> B)).
  { unfold names in En. unfold seen_handles. by injection En as -> -> ->. }
  assert (Hn : forall C' W' B', names w' = (C', W', B') ->
            seen_handles w' = mkHandles (dom C') (dom W') (cbr_refcount <$> B')).
  { intros C' W' B' E. unfold names in E. unfold seen_handles. by injection E as -> -> ->. }
  rewrite Hs.
  assert (Hstart : s_theFrameBuffer (w_fb w) = true /\ at_names C W B w) by done.
  destruct (renames e) eqn:Er.
  2:{ intros E. pose proof (named_handle (C, W, B) s_fbConfigs t e Er w a w' En E) as E'.
      rewrite (Hn _ _ _ E'). by destruct e. }
  destruct e; try done; cbn [handle spec_step].
  - intros E. destruct (with_fb_tr _ _ _ _ (createRenderContext_tr C W B s_fbConfigs (s32 config) share (glVersion =? 2))
                          w a w' Hstart E) as [[-> E']|[(H1 & H2 & H3) [p E']]]; rewrite (Hn _ _ _ E'); [by left|right].
    split; [|by rewrite dom_insert_L]. split; [done|]. cbn. by rewrite !not_elem_of_dom.
  - intros E. pose proof (answer_tr nothing _ _ (fun _ w => names w = (delete context C, W, B))
      (with_fb_tr tt _ _ _ (DestroyRenderContext_tr C W B context)) w a w' Hstart E) as E'.
    rewrite (Hn _ _ _ E'). by rewrite dom_delete_L.
  - intros E. destruct (with_fb_tr _ _ _ _ (createWindowSurface_tr C W B s_fbConfigs t (s32 config) (s32 width) (s32 height))
                          w a w' Hstart E) as [[-> E']|[(H1 & H2 & H3) [p E']]]; rewrite (Hn _ _ _ E'); [by left|right].
    split; [|by rewrite dom_insert_L]. split; [done|]. cbn. by rewrite !not_elem_of_dom.
  - intros E. pose proof (answer_tr nothing _ _ (fun _ w => names w = (C, delete windowSurface W, B))
      (with_fb_tr tt _ _ _ (DestroyWindowSurface_tr C W B t windowSurface)) w a w' Hstart E) as E'.
    rewrite (Hn _ _ _ E'). by rewrite dom_delete_L.
  - intros E. destruct (with_fb_tr _ _ _ _ (createColorBuffer_tr C W B t (s32 width) (s32 height) internalFormat)
                          w a w' Hstart E) as [[-> E']|[(H1 & H2 & H3) [p E']]]; rewrite (Hn _ _ _ E'); [by left|right].
    split; [|by rewrite fmap_insert]. split; [done|]. cbn. by rewrite !not_elem_of_dom.
  - intros E. pose proof (answer_tr nothing _ _ (fun _ w => names w = (C, W, _))
      (with_fb_tr tt _ _ _ (openColorBuffer_tr C W B colorbuffer)) w a w' Hstart E) as E'.
    rewrite (Hn _ _ _ E'). cbn [h_contexts h_windows h_colors]. f_equal. apply map_eq. intros i.
    rewrite lookup_fmap. destruct (decide (i = colorbuffer)) as [->|Hne].
    + rewrite !lookup_alter_eq, lookup_fmap. by destruct (B !! colorbuffer).
    + by rewrite !lookup_alter_ne, lookup_fmap by done.
  - intros E. pose proof (answer_tr nothing _ _ (fun _ w => names w = (C, W, _))
      (with_fb_tr tt _ _ _ (closeColorBuffer_tr C W B t colorbuffer)) w a w' Hstart E) as E'.
    rewrite (Hn _ _ _ E'). cbn [h_contexts h_windows h_colors]. f_equal. rewrite lookup_fmap.
    destruct (B !! colorbuffer) as [r|]; cbn; [|done]. destruct (_ =? 0).
    + by rewrite fmap_delete.
    + by rewrite fmap_insert.
Qed.
End Env.

Example handles_refine_witness :
  spec_step (CreateContext 0 1 2) 4 (seen_handles (run demo_setup))
    (seen_handles (run (demo_setup ++ [(1, CreateContext 0 1 2)]))).
Proof.
  apply (handles_refine demo_env demo_configs 1 (CreateContext 0 1 2) (run demo_setup)).
  - vm_compute. reflexivity.
  - vm_compute. reflexivity.
Defined.
