(* ===== verification/GlStream.v ===== *)
(** * The streams that carry GL calls

    [src/emulator/opengl/host/include/libOpenglRender/IOStream.h] with its two
    families of transports: sockets
    ([src/emulator/opengl/shared/OpenglCodecCommon/SocketStream.cpp]) and the pipe
    of the emulator
    ([src/emulator/opengl/system/OpenglSystemCommon/QemuPipeStream.cpp]).

    The kernel is what [send]/[write] and [recv]/[read] answer, one list each.
    The virtual methods are the class [Transport]; its laws, [TransportLaws], are
    what the buffering of [IOStream] and the users of a stream rely on, and both
    transports obey them.  [stream_in_order]: whatever the kernel does, the bytes
    go out once and in order, from memory that is live and large enough. *)
From S2P Require Import Prelude.
Local Open Scope Z_scope.

(** ** The kernel and the allocator *)

(** What a call that sends answers: the number of bytes that it took (at most
    those offered), EINTR, or another error. *)
Inductive answer := Took (n : Z) | Interrupted | Failed.

(** What a call that receives finds: bytes, of which it takes what fits and
    leaves the rest, EINTR, or another error, which stays.  No bytes, and the end
    of the list, is the other side's shutdown. *)
Inductive arrival := Data (bs : list Z) | Interruption | Failure.

(** Blocks of memory by address; the answers of the allocator, which are a
    success when the list is used up; what fresh memory contains; the bytes sent
    so far; the kernel. *)
Record World := mkWorld {
  w_blocks : gmap Z (list Z);
  w_next : Z;
  w_mem : list bool;
  w_fresh : nat -> Z;
  w_sent : list Z;
  w_out : list answer;
  w_in : list arrival }.

Definition with_sent (bs : list Z) (o : list answer) (w : World) : World :=
  mkWorld (w_blocks w) (w_next w) (w_mem w) (w_fresh w) (w_sent w ++ bs) o (w_in w).
Definition with_in (i : list arrival) (w : World) : World :=
  mkWorld (w_blocks w) (w_next w) (w_mem w) (w_fresh w) (w_sent w) (w_out w) i.
Definition with_blocks (m : gmap Z (list Z)) (w : World) : World :=
  mkWorld m (w_next w) (w_mem w) (w_fresh w) (w_sent w) (w_out w) (w_in w).

Definition len (l : list Z) : Z := Z.of_nat (length l).

(** [size_t] of a host of 64 bits. *)
Definition size_t (z : Z) : Z := u64 z.

(** [send] and [write] of [data]: the value, whether [errno] is EINTR. *)
Definition transmit (data : list Z) (w : World) : Z * bool * World :=
  match w_out w with
  | [] => (len data, false, with_sent data [] w)
  | Took n :: o =>
      let k := Z.min (Z.max 0 n) (len data) in
      (k, false, with_sent (take (Z.to_nat k) data) o w)
  | Interrupted :: o => (-1, true, with_sent [] o w)
  | Failed :: o => (-1, false, with_sent [] o w)
  end.

(** [recv] and [read] of at most [n] bytes: the value, EINTR, the bytes. *)
Definition receive (n : Z) (w : World) : Z * bool * list Z * World :=
  match w_in w with
  | [] | Data [] :: _ => (0, false, [], w)
  | Data bs :: i =>
      if n <? len bs
      then (n, false, take (Z.to_nat n) bs, with_in (Data (drop (Z.to_nat n) bs) :: i) w)
      else (len bs, false, bs, with_in i w)
  | Interruption :: i => (-1, true, [], with_in i w)
  | Failure :: _ => (-1, false, [], w)
  end.

(** The bytes that arrive before the end. *)
Fixpoint incoming (l : list arrival) : list Z :=
  match l with
  | [] | Data [] :: _ | Failure :: _ => []
  | Data bs :: l => bs ++ incoming l
  | Interruption :: l => incoming l
  end.

(** Enough iterations for the loops that send and receive. *)
Definition out_fuel (w : World) : nat := 2 + length (w_out w).
Definition in_fuel (w : World) : nat := 2 + length (w_in w) + length (incoming (w_in w)).

(** [malloc] and [realloc]; the latter may move the block. *)
Definition can_allocate (w : World) : bool * World :=
  match w_mem w with
  | [] => (true, w)
  | b :: l => (b, mkWorld (w_blocks w) (w_next w) l (w_fresh w) (w_sent w) (w_out w) (w_in w))
  end.

Definition fresh_block (n : Z) (w : World) : list Z := w_fresh w <$> seq 0 (Z.to_nat n).

Definition new_block (b : list Z) (w : World) : Z * World :=
  (w_next w, mkWorld (<[w_next w := b]> (w_blocks w)) (w_next w + 1) (w_mem w) (w_fresh w)
               (w_sent w) (w_out w) (w_in w)).

Definition malloc (n : Z) (w : World) : option Z * World :=
  let '(ok, w) := can_allocate w in
  if (ok : bool) then let '(a, w) := new_block (fresh_block n w) w in (Some a, w) else (None, w).

Definition free (a : Z) (w : World) : result World :=
  match w_blocks w !! a with
  | Some _ => Ok (with_blocks (delete a (w_blocks w)) w)
  | None => Err UseAfterFree
  end.

Definition realloc (a n : Z) (w : World) : result (option Z * World) :=
  match w_blocks w !! a with
  | None => Err UseAfterFree
  | Some b =>
      let '(ok, w) := can_allocate w in
      if (ok : bool) then
        w ← free a w;
        let '(a', w) := new_block (take (Z.to_nat n) (b ++ drop (length b) (fresh_block n w))) w in
        Ok (Some a', w)
      else Ok (None, w)
  end.

(** The [n] bytes at a pointer, and a store of bytes through one. *)
Definition load (a off n : Z) (w : World) : result (list Z) :=
  b ← from_option_or UseAfterFree (w_blocks w !! a); read_block b off n.
Definition store (a off : Z) (data : list Z) (w : World) : result World :=
  b ← from_option_or UseAfterFree (w_blocks w !! a);
  b ← write_block b off data;
  Ok (with_blocks (<[a := b]> (w_blocks w)) w).

(** ** The two transports

    One object: the fields of [IOStream] ([m_buf], [m_bufsize], [m_free]), then
    those of the transport, which has a buffer and a size of its own. *)
Record Stream := mkStream {
  io_buf : option Z;
  io_bufsize : Z;
  io_free : Z;
  m_sock : Z;
  m_bufsize : Z;
  m_buf : option Z }.

Definition valid (s : Stream) : bool := 0 <=? m_sock s.

Definition new_stream (sock bufSize : Z) : Stream := mkStream None bufSize 0 sock bufSize None.

Definition with_buf (b : option Z) (n : Z) (s : Stream) : Stream :=
  mkStream (io_buf s) (io_bufsize s) (io_free s) (m_sock s) n b.

Definition allocBuffer (minSize : Z) (s : Stream) (w : World) : result (option Z * Stream * World) :=
  let allocSize := if m_bufsize s <? minSize then minSize else m_bufsize s in
  match m_buf s with
  | None => let '(p, w) := malloc allocSize w in Ok (p, with_buf p (m_bufsize s) s, w)
  | Some b =>
      if m_bufsize s <? allocSize then
        '(p, w) ← realloc b allocSize w;
        match p with
        | Some a => Ok (Some a, with_buf (Some a) allocSize s, w)
        | None => w ← free b w; Ok (None, with_buf None 0 s, w)
        end
      else Ok (Some b, s, w)
  end.

(** The virtual methods that move bytes; a buffer to read into is what there is
    at its address, [None] for NULL, and comes back with what was stored. *)
Class Transport := {
  writeFully : list Z -> Stream -> World -> result (Z * World);
  readFully : option (list Z) -> Z -> Stream -> World -> result (bool * option (list Z) * World);
  read : option (list Z) -> Z -> Stream -> World -> result (option Z * option (list Z) * World) }.

(** *** Sockets *)

Fixpoint socket_writeFully_loop (fuel : nat) (buffer : list Z) (size res : Z) (w : World) : result (Z * World) :=
  match fuel with
  | O => Err OutOfFuel
  | S fuel =>
      if 0 <? res then
        let '(stat, eintr, w) := transmit (drop (Z.to_nat (size - res)) buffer) w in
        if stat <? 0 then
          if negb eintr then Ok (stat, w) else socket_writeFully_loop fuel buffer size res w
        else socket_writeFully_loop fuel buffer size (res - stat) w
      else Ok (0, w)
  end.

Definition socket_writeFully (buffer : list Z) (s : Stream) (w : World) : result (Z * World) :=
  if negb (valid s) then Ok (-1, w)
  else socket_writeFully_loop (out_fuel w) buffer (len buffer) (len buffer) w.

Fixpoint socket_readFully_loop (fuel : nat) (buf : list Z) (n res : Z) (w : World)
  : result (bool * list Z * World) :=
  match fuel with
  | O => Err OutOfFuel
  | S fuel =>
      if 0 <? res then
        let '(stat, eintr, bs, w) := receive res w in
        if 0 <? stat then
          buf ← write_block buf (n - res) bs; socket_readFully_loop fuel buf n (res - stat) w
        else if (stat =? 0) || negb eintr then Ok (false, buf, w)
        else socket_readFully_loop fuel buf n res w
      else Ok (true, buf, w)
  end.

Definition socket_readFully (buf : option (list Z)) (n : Z) (s : Stream) (w : World)
  : result (bool * option (list Z) * World) :=
  if negb (valid s) then Ok (false, buf, w)
  else match buf with
       | None => Ok (false, buf, w)
       | Some b => '(r, b, w) ← socket_readFully_loop (in_fuel w) b n n w; Ok (r, Some b, w)
       end.

Definition ERR_INVALID_SOCKET : Z := -1000.

Fixpoint socket_recv_loop (fuel : nat) (buf : list Z) (n : Z) (w : World) : result (Z * bool * list Z * World) :=
  match fuel with
  | O => Err OutOfFuel
  | S fuel =>
      let '(stat, eintr, bs, w) := receive n w in
      let res := s32 stat in
      buf ← write_block buf 0 bs;
      if (res <? 0) && eintr then socket_recv_loop fuel buf n w else Ok (res, eintr, buf, w)
  end.

(** With whether [errno] is EINTR. *)
Definition socket_recv (buf : list Z) (n : Z) (s : Stream) (w : World) : result (Z * bool * list Z * World) :=
  if negb (valid s) then Ok (ERR_INVALID_SOCKET, false, buf, w) else socket_recv_loop (in_fuel w) buf n w.

Fixpoint socket_read_loop (fuel : nat) (buf : list Z) (n : Z) (s : Stream) (w : World)
  : result (Z * list Z * World) :=
  match fuel with
  | O => Err OutOfFuel
  | S fuel =>
      '(n', eintr, buf, w) ← socket_recv buf n s w;
      if (n' <? 0) && eintr then socket_read_loop fuel buf n s w else Ok (n', buf, w)
  end.

Definition socket_read (buf : option (list Z)) (n : Z) (s : Stream) (w : World)
  : result (option Z * option (list Z) * World) :=
  if negb (valid s) then Ok (None, buf, w)
  else match buf with
       | None => Ok (None, buf, w)
       | Some b =>
           '(n', b, w) ← socket_read_loop (in_fuel w) b n s w;
           Ok (if 0 <? n' then Some n' else None, Some b, w)
       end.

Definition socket_transport : Transport := Build_Transport socket_writeFully socket_readFully socket_read.

(** *** The pipe of the emulator *)

Fixpoint pipe_writeFully_loop (fuel : nat) (buf : list Z) (n res : Z) (w : World) : result (Z * World) :=
  match fuel with
  | O => Err OutOfFuel
  | S fuel =>
      if 0 <? res then
        let '(stat, eintr, w) := transmit (drop (Z.to_nat (n - res)) buf) w in
        if 0 <? stat then pipe_writeFully_loop fuel buf n (res - stat) w
        else if stat =? 0 then Ok (-1, w)
        else if (eintr : bool) then pipe_writeFully_loop fuel buf n res w
        else Ok (stat, w)
      else Ok (0, w)
  end.

Definition pipe_writeFully (buf : list Z) (s : Stream) (w : World) : result (Z * World) :=
  if negb (valid s) then Ok (-1, w)
  else pipe_writeFully_loop (out_fuel w) buf (len buf) (len buf) w.

(** Each turn asks for [n] bytes, not for the [res] that are left. *)
Fixpoint pipe_readFully_loop (fuel : nat) (buf : list Z) (n res : Z) (w : World)
  : result (bool * list Z * World) :=
  match fuel with
  | O => Err OutOfFuel
  | S fuel =>
      if 0 <? res then
        let '(stat, eintr, bs, w) := receive n w in
        if stat =? 0 then Ok (false, buf, w)
        else if stat <? 0 then
          if (eintr : bool) then pipe_readFully_loop fuel buf n res w else Ok (false, buf, w)
        else
          buf ← write_block buf (size_t (n - res)) bs;
          pipe_readFully_loop fuel buf n (size_t (res - stat)) w
      else Ok (true, buf, w)
  end.

Definition pipe_readFully (buf : option (list Z)) (n : Z) (s : Stream) (w : World)
  : result (bool * option (list Z) * World) :=
  if negb (valid s) then Ok (false, buf, w)
  else match buf with
       | None => Ok (false, buf, w)
       | Some b => '(r, b, w) ← pipe_readFully_loop (in_fuel w) b n n w; Ok (r, Some b, w)
       end.

Fixpoint pipe_recv_loop (fuel : nat) (buf : list Z) (p n ret : Z) (w : World) : result (Z * list Z * World) :=
  match fuel with
  | O => Err OutOfFuel
  | S fuel =>
      if 0 <? n then
        let '(stat, eintr, bs, w) := receive n w in
        let res := s32 stat in
        buf ← write_block buf p bs;
        if 0 <? res then pipe_recv_loop fuel buf (p + res) (n - res) (s32 (ret + res)) w
        else if res =? 0 then Ok (ret, buf, w)
        else if (eintr : bool) then pipe_recv_loop fuel buf p n ret w
        else Ok (if ret =? 0 then -1 else ret, buf, w)
      else Ok (ret, buf, w)
  end.

Definition pipe_recv (buf : list Z) (n : Z) (s : Stream) (w : World) : result (Z * list Z * World) :=
  if negb (valid s) then Ok (ERR_INVALID_SOCKET, buf, w) else pipe_recv_loop (in_fuel w) buf 0 n 0 w.

Definition pipe_read (buf : option (list Z)) (n : Z) (s : Stream) (w : World)
  : result (option Z * option (list Z) * World) :=
  if negb (valid s) then Ok (None, buf, w)
  else match buf with
       | None => Ok (None, buf, w)
       | Some b =>
           '(n', b, w) ← pipe_recv b n s w; Ok (if 0 <? n' then Some n' else None, Some b, w)
       end.

Definition pipe_transport : Transport := Build_Transport pipe_writeFully pipe_readFully pipe_read.

(** ** IOStream *)

Section IOStream.
Context {T : Transport}.

(** The buffer of the object, from which [commitBuffer] sends. *)
Definition commitBuffer (size : Z) (s : Stream) (w : World) : result (Z * World) :=
  if valid s then
    a ← from_option_or NullDeref (m_buf s); data ← load a 0 size w; writeFully data s w
  else writeFully [] s w.

Definition flush (s : Stream) (w : World) : result (Z * Stream * World) :=
  match io_buf s with
  | None => Ok (0, s, w)
  | Some _ =>
      if io_free s =? io_bufsize s then Ok (0, s, w)
      else
        '(stat, w) ← commitBuffer (size_t (io_bufsize s - io_free s)) s w;
        Ok (stat, mkStream None (io_bufsize s) 0 (m_sock s) (m_bufsize s) (m_buf s), w)
  end.

(** The part of [alloc] after the flush; [int allocLen] cuts the size. *)
Definition take_room (n : Z) (s : Stream) (w : World) : result (option (Z * Z) * Stream * World) :=
  '(s, w) ← (if negb (bool_decide (is_Some (io_buf s))) || (io_bufsize s <? n) then
               let allocLen := s32 (if io_bufsize s <? n then n else io_bufsize s) in
               '(p, s, w) ← allocBuffer (size_t allocLen) s w;
               Ok (match p with
                   | Some a => mkStream (Some a) (size_t allocLen) (size_t allocLen)
                                 (m_sock s) (m_bufsize s) (m_buf s)
                   | None => mkStream None (io_bufsize s) (io_free s) (m_sock s) (m_bufsize s) (m_buf s)
                   end, w)
             else Ok (s, w));
  match io_buf s with
  | None => Ok (None, s, w)
  | Some a =>
      Ok (Some (a, size_t (io_bufsize s - io_free s)),
          mkStream (io_buf s) (io_bufsize s) (size_t (io_free s - n)) (m_sock s) (m_bufsize s) (m_buf s), w)
  end.

Definition alloc (n : Z) (s : Stream) (w : World) : result (option (Z * Z) * Stream * World) :=
  if bool_decide (is_Some (io_buf s)) && (io_free s <? n) then
    '(stat, s, w) ← flush s w;
    if stat <? 0 then Ok (None, s, w) else take_room n s w
  else take_room n s w.

Definition readback (buf : option (list Z)) (n : Z) (s : Stream) (w : World)
  : result (bool * option (list Z) * Stream * World) :=
  '(_, s, w) ← flush s w; '(r, buf, w) ← readFully buf n s w; Ok (r, buf, s, w).

End IOStream.

(** ** Sending *)

(** Answers after which the loops go on. *)
Definition willing (a : answer) : Prop :=
  match a with Took n => 0 < n | Interrupted => True | Failed => False end.

Lemma with_sent_nil w : with_sent [] (w_out w) w = w.
Proof. destruct w. unfold with_sent. simpl. by rewrite app_nil_r. Qed.

Lemma with_sent_twice bs1 bs2 o1 o2 w :
  with_sent bs2 o2 (with_sent bs1 o1 w) = with_sent (bs1 ++ bs2) o2 w.
Proof. unfold with_sent. simpl. by rewrite <-app_assoc. Qed.

(** A turn of sending: it goes on with fewer answers, or it is over. *)
Lemma transmit_cases data w :
  data <> [] ->
  (exists k o, transmit data w = (k, false, with_sent (take (Z.to_nat k) data) o w) /\ 0 <= k <= len data /\
     o `suffix_of` w_out w /\ (k = len data \/ (length o < length (w_out w))%nat) /\
     (Forall willing (w_out w) -> 0 < k)) \/
  (exists b o, transmit data w = (-1, b, with_sent [] o w) /\ o `suffix_of` w_out w /\
     (length o < length (w_out w))%nat /\ (Forall willing (w_out w) -> b = true)).
Proof.
  intros Hd. assert (Hl : 0 < len data) by (unfold len; destruct data; [done|simpl; lia]).
  unfold transmit. destruct (w_out w) as [|[n| |] o].
  - left. exists (len data), []. unfold len in *. rewrite Nat2Z.id, firstn_all. split_and!; auto with lia.
  - left. eexists _, _. split; [reflexivity|]. split_and!; try lia; [by apply suffix_cons_r|right; simpl; lia|].
    intros [Hw _]%Forall_cons. simpl in Hw. lia.
  - right. eexists _, _. split; [reflexivity|]. split_and!; [by apply suffix_cons_r|simpl; lia|done].
  - right. eexists _, _. split; [reflexivity|]. split_and!; [by apply suffix_cons_r|simpl; lia|].
    intros [[] _]%Forall_cons.
Qed.

(** What a loop that sends the last [res] bytes of a buffer ends with. *)
Definition sending (loop : nat -> list Z -> Z -> Z -> World -> result (Z * World)) : Prop :=
  forall fuel buf res w, 0 <= res <= len buf -> (1 + length (w_out w) < fuel)%nat ->
  exists r k o, loop fuel buf (len buf) res w =
      Ok (r, with_sent (take k (drop (Z.to_nat (len buf - res)) buf)) o w) /\
    o `suffix_of` w_out w /\ (r = 0 /\ k = Z.to_nat res \/ r < 0) /\ (Forall willing (w_out w) -> r = 0).

(** A turn that sent [k] bytes, and what follows. *)
Lemma sending_step (buf : list Z) res k w o (m : result (Z * World)) :
  0 < res <= len buf -> 0 <= k <= res -> o `suffix_of` w_out w ->
  let d := drop (Z.to_nat (len buf - res)) buf in
  (exists r k' o', m = Ok (r, with_sent (take k' (drop (Z.to_nat (len buf - (res - k))) buf)) o'
                                (with_sent (take (Z.to_nat k) d) o w)) /\
     o' `suffix_of` o /\ (r = 0 /\ k' = Z.to_nat (res - k) \/ r < 0) /\ (Forall willing o -> r = 0)) ->
  exists r k' o', m = Ok (r, with_sent (take k' d) o' w) /\
    o' `suffix_of` w_out w /\ (r = 0 /\ k' = Z.to_nat res \/ r < 0) /\ (Forall willing (w_out w) -> r = 0).
Proof.
  intros Hr Hk Ho d (r & k' & o' & -> & Ho' & Hr' & Hw). exists r, (Z.to_nat k + k')%nat, o'.
  split_and!.
  - rewrite with_sent_twice. repeat f_equal. unfold d.
    replace (Z.to_nat (len buf - (res - k))) with (Z.to_nat (len buf - res) + Z.to_nat k)%nat by (unfold len in *; lia).
    rewrite <-drop_drop. apply take_take_drop.
  - by etrans.
  - destruct Hr' as [[-> ->]|]; [left|by right]. split; [done|lia].
  - intros H. apply Hw. destruct Ho as [l E]. rewrite E in H. by apply Forall_app in H as [_ ?].
Qed.

Lemma socket_sending : sending socket_writeFully_loop.
Proof.
  intros fuel. induction fuel as [|fuel IH]; intros buf res w Hr Hf; [lia|]. cbn [socket_writeFully_loop].
  destruct (Z.ltb_spec 0 res).
  2: { exists 0, 0%nat, (w_out w). rewrite take_0, with_sent_nil. split_and!; auto. left. split; [done|lia]. }
  set (d := drop _ _). assert (Hd : len d = res) by (unfold d, len in *; rewrite length_drop; lia).
  destruct (transmit_cases d w) as [(k & o & -> & Hk & Ho & Hl & Hw)|(b & o & -> & Ho & Hl & Hw)].
  { intros E. rewrite E in Hd. unfold len in Hd. simpl in Hd. lia. }
  - rewrite (proj2 (Z.ltb_ge k 0)) by lia. rewrite Hd in Hk, Hl.
    destruct (decide (k = res)) as [->|Hne].
    + replace (res - res) with 0 by lia. destruct fuel as [|fuel']; [lia|]. cbn [socket_writeFully_loop].
      rewrite (proj2 (Z.ltb_ge 0 0)) by lia. eexists _, _, _. split; [reflexivity|]. split_and!; auto.
    + apply (sending_step buf res k w o); [lia|lia|done|]. apply IH; [lia|simpl; lia].
  - rewrite (proj2 (Z.ltb_lt (-1) 0)) by lia. destruct b; cbn [negb].
    + pose proof (sending_step buf res 0 w o) as HS. rewrite Z.sub_0_r in HS.
      apply HS; [lia|lia|done|]. apply IH; [lia|simpl; lia].
    + eexists _, 0%nat, o. rewrite take_0. split_and!; [reflexivity|done|right; lia|].
      intros H1. by specialize (Hw H1).
Qed.

Lemma pipe_sending : sending pipe_writeFully_loop.
Proof.
  intros fuel. induction fuel as [|fuel IH]; intros buf res w Hr Hf; [lia|]. cbn [pipe_writeFully_loop].
  destruct (Z.ltb_spec 0 res).
  2: { exists 0, 0%nat, (w_out w). rewrite take_0, with_sent_nil. split_and!; auto. left. split; [done|lia]. }
  set (d := drop _ _). assert (Hd : len d = res) by (unfold d, len in *; rewrite length_drop; lia).
  destruct (transmit_cases d w) as [(k & o & -> & Hk & Ho & Hl & Hw)|(b & o & -> & Ho & Hl & Hw)].
  { intros E. rewrite E in Hd. unfold len in Hd. simpl in Hd. lia. }
  - rewrite Hd in Hk, Hl. destruct (Z.ltb_spec 0 k).
    2: { assert (k = 0) as -> by lia. cbn [Z.eqb]. eexists _, 0%nat, o. rewrite !take_0.
         split_and!; [reflexivity|done|right; lia|]. intros H2. specialize (Hw H2). lia. }
    destruct (decide (k = res)) as [->|Hne].
    + replace (res - res) with 0 by lia. destruct fuel as [|fuel']; [lia|]. cbn [pipe_writeFully_loop].
      rewrite (proj2 (Z.ltb_ge 0 0)) by lia. eexists _, _, _. split; [reflexivity|]. split_and!; auto.
    + apply (sending_step buf res k w o); [lia|lia|done|]. apply IH; [lia|simpl; lia].
  - cbn [Z.ltb Z.compare Z.eqb]. destruct b.
    + pose proof (sending_step buf res 0 w o) as HS. rewrite Z.sub_0_r in HS.
      apply HS; [lia|lia|done|]. apply IH; [lia|simpl; lia].
    + eexists _, 0%nat, o. rewrite take_0. split_and!; [reflexivity|done|right; lia|].
      intros H1. by specialize (Hw H1).
Qed.

(** ** Receiving *)

(** A turn of receiving: bytes, EINTR, or the end. *)
Inductive received (n : Z) (w : World) : Z * bool * list Z * World -> Prop :=
  | received_bytes k i :
      0 < k <= n -> k <= len (incoming (w_in w)) -> incoming i = drop (Z.to_nat k) (incoming (w_in w)) ->
      (length i <= length (w_in w))%nat ->
      received n w (k, false, take (Z.to_nat k) (incoming (w_in w)), with_in i w)
  | received_again i :
      incoming i = incoming (w_in w) -> (length i < length (w_in w))%nat ->
      received n w (-1, true, [], with_in i w)
  | received_end r : r = 0 \/ r = -1 -> incoming (w_in w) = [] -> received n w (r, false, [], w).

Lemma receive_cases n w : 0 < n -> received n w (receive n w).
Proof.
  intros Hn. unfold receive. destruct (w_in w) as [|[bs| |] i] eqn:E.
  - apply received_end; [by left|by rewrite E].
  - destruct bs as [|b bs]; [apply received_end; [by left|by rewrite E]|].
    set (l := b :: bs). assert (Hl : 0 < len l) by (unfold len, l; simpl; lia).
    assert (Hi : incoming (w_in w) = l ++ incoming i) by by rewrite E.
    assert (El : length (w_in w) = S (length i)) by by rewrite E. clear E. clearbody l.
    destruct (Z.ltb_spec n (len l)).
    + assert (Hs : take (Z.to_nat n) l = take (Z.to_nat n) (incoming (w_in w))).
      { rewrite Hi, take_app_le; [done|unfold len in *; lia]. }
      rewrite Hs. apply received_bytes; [lia| | |simpl; lia].
      * rewrite Hi. unfold len in *. rewrite length_app. lia.
      * rewrite Hi, drop_app_le by (unfold len in *; lia). simpl.
        destruct (drop (Z.to_nat n) l) eqn:Ed; simpl; [|done].
        apply (f_equal length) in Ed. rewrite length_drop in Ed. unfold len in *. simpl in Ed. lia.
    + assert (Hs : l = take (Z.to_nat (len l)) (incoming (w_in w))).
      { rewrite Hi. unfold len. by rewrite Nat2Z.id, take_app_length. }
      rewrite Hs at 2. apply received_bytes; [lia| | |simpl; lia].
      * rewrite Hi. unfold len in *. rewrite length_app. lia.
      * rewrite Hi. unfold len. by rewrite Nat2Z.id, drop_app_length.
  - apply received_again; rewrite E; simpl; [done|lia].
  - apply received_end; [by right|by rewrite E].
Qed.

(** A block whose part from [p] on is replaced. *)
Definition over (b : list Z) (p : Z) (bs : list Z) : list Z :=
  take (Z.to_nat p) b ++ bs ++ drop (Z.to_nat p + length bs) b.

Lemma over_write b p bs : 0 <= p -> p + len bs <= len b -> write_block b p bs = Ok (over b p bs).
Proof. intros. by apply write_block_ok. Qed.

Lemma over_nil b p : over b p [] = b.
Proof. unfold over. simpl. by rewrite Nat.add_0_r, take_drop. Qed.

Lemma over_length b p bs : 0 <= p -> p + len bs <= len b -> length (over b p bs) = length b.
Proof. intros. eapply write_block_length. by apply over_write. Qed.

Lemma over_twice b p bs1 bs2 :
  0 <= p -> p + len bs1 + len bs2 <= len b -> over (over b p bs1) (p + len bs1) bs2 = over b p (bs1 ++ bs2).
Proof.
  intros Hp Hl. assert (H0 : 0 <= len bs1) by (unfold len; lia).
  assert (H1 : length (over b p bs1) = length b) by (apply over_length; [done|unfold len in *; lia]).
  assert (E : Ok (over (over b p bs1) (p + len bs1) bs2) = Ok (over b p (bs1 ++ bs2))); [|by injection E].
  assert (Ha : len (bs1 ++ bs2) = len bs1 + len bs2) by (unfold len; rewrite length_app; lia).
  rewrite <-(over_write (over b p bs1)) by (unfold len in *; lia).
  rewrite <-(over_write b p (bs1 ++ bs2)) by lia.
  rewrite write_block_app by done. rewrite (over_write b p bs1) by (unfold len in *; lia). done.
Qed.

Lemma len_take k l : 0 <= k <= len l -> len (take (Z.to_nat k) l) = k.
Proof. unfold len. intros. rewrite length_take. lia. Qed.

Lemma with_in_self w : with_in (w_in w) w = w.
Proof. by destruct w. Qed.

(** What is left of a reader's work after it stored [k] bytes. *)
Lemma over_step b p k (inc : list Z) m :
  0 <= p -> 0 <= k -> 0 <= m -> p + k + m <= len b -> k + m <= len inc ->
  over (over b p (take (Z.to_nat k) inc)) (p + k) (take (Z.to_nat m) (drop (Z.to_nat k) inc)) =
  over b p (take (Z.to_nat (k + m)) inc).
Proof.
  intros. assert (E : len (take (Z.to_nat k) inc) = k) by (apply len_take; lia).
  rewrite <-E at 2. rewrite over_twice; [|done|rewrite E].
  - rewrite take_take_drop. by rewrite <-Z2Nat.inj_add by lia.
  - rewrite len_take; [lia|]. unfold len in *. rewrite length_drop. lia.
Qed.

Definition work (w : World) : nat := length (w_in w) + length (incoming (w_in w)).

(** The bytes that a request for [n] gets in the end. *)
Definition got (n : Z) (w : World) : Z := Z.min n (len (incoming (w_in w))).

Lemma socket_readFully_loop_ok fuel b n res w :
  0 <= res <= n -> n <= len b -> (work w < fuel)%nat ->
  exists i, incoming i = drop (Z.to_nat (got res w)) (incoming (w_in w)) /\
    socket_readFully_loop fuel b n res w =
      Ok (res <=? len (incoming (w_in w)), over b (n - res) (take (Z.to_nat (got res w)) (incoming (w_in w))),
          with_in i w).
Proof.
  revert b res w. induction fuel as [|fuel IH]; intros b res w Hr Hn Hf; [lia|]. cbn [socket_readFully_loop].
  unfold got. assert (Hlen : 0 <= len (incoming (w_in w))) by (unfold len; lia).
  destruct (Z.ltb_spec 0 res).
  2: { assert (res = 0) as -> by lia. exists (w_in w). rewrite Z.min_l, with_in_self, !take_0, over_nil by lia.
       by rewrite (proj2 (Z.leb_le 0 (len (incoming (w_in w))))). }
  destruct (receive_cases res w) as [k i Hk Hki Ei Hl|i Ei Hl|r Hre He]; [done|..].
  - rewrite (proj2 (Z.ltb_lt 0 k)) by lia. rewrite over_write by (rewrite ?len_take; lia). cbn [mbind result_bind].
    assert (Hd : len (drop (Z.to_nat k) (incoming (w_in w))) = len (incoming (w_in w)) - k) by (unfold len in *; rewrite length_drop; lia).
    edestruct (IH (over b (n - res) (take (Z.to_nat k) (incoming (w_in w)))) (res - k) (with_in i w)) as (i' & Ei' & ->).
    + lia.
    + unfold len. rewrite over_length; rewrite ?len_take; fold (len b); lia.
    + unfold work in *. simpl. rewrite Ei, length_drop. unfold len in *.  lia.
    + unfold got in *. simpl in *. rewrite Ei, Hd in *. exists i'. split.
      * rewrite Ei', drop_drop. f_equal. unfold len in *. lia.
      * replace (n - (res - k)) with (n - res + k) by lia. rewrite over_step by lia.
        replace (k + (res - k) `min` (len (incoming (w_in w)) - k)) with (res `min` len (incoming (w_in w))) by lia.
        do 3 f_equal.
        destruct (Z.leb_spec (res - k) (len (incoming (w_in w)) - k)), (Z.leb_spec res (len (incoming (w_in w)))); lia || done.
  - cbn [Z.ltb Z.compare Z.eqb negb orb].
    edestruct (IH b res (with_in i w)) as (i' & Ei' & ->); [lia|done|unfold work in *; simpl; rewrite Ei; lia|].
    unfold got in *. simpl in *. rewrite Ei in *. eauto.
  - exists (w_in w). rewrite He. change (len []) with 0. rewrite Z.min_r, with_in_self, !take_0, over_nil by lia.
    rewrite (proj2 (Z.leb_gt res 0)) by lia. split; [done|]. by destruct Hre as [-> | ->].
Qed.

(** What a read stores: as much as there is and fits, at least one byte. *)
Definition reads (b : list Z) (n : Z) (w : World) (r : option Z) (b' : list Z) (i : list arrival) : Prop :=
  (incoming (w_in w) = [] /\ r = None /\ b' = b /\ incoming i = []) \/
  (exists k, 0 < k <= got n w /\ r = Some k /\ b' = over b 0 (take (Z.to_nat k) (incoming (w_in w))) /\
     incoming i = drop (Z.to_nat k) (incoming (w_in w))).

Lemma socket_recv_loop_ok fuel b n w :
  0 < n < 2 ^ 31 -> n <= len b -> (length (w_in w) < fuel)%nat ->
  exists r e b' i, socket_recv_loop fuel b n w = Ok (r, e, b', with_in i w) /\
    (r < 0 -> e = false) /\ reads b n w (if 0 <? r then Some r else None) b' i.
Proof.
  revert b w. induction fuel as [|fuel IH]; intros b w Hn Hb Hf; [lia|]. cbn [socket_recv_loop].
  destruct (receive_cases n w) as [k i Hk Hki Ei Hl|i Ei Hl|r Hre He]; [lia|..].
  - rewrite s32_small by lia. rewrite over_write by (rewrite ?len_take; lia). cbn [mbind result_bind].
    rewrite (proj2 (Z.ltb_ge k 0)) by lia. eexists _, _, _, i. split; [reflexivity|]. split; [lia|].
    rewrite (proj2 (Z.ltb_lt 0 k)) by lia. right. exists k. unfold got. split_and!; try done; lia.
  - rewrite over_write by (unfold len in *; simpl; lia). rewrite over_nil. change (s32 (-1)) with (-1).
    cbn [mbind result_bind Z.ltb Z.compare andb].
    destruct (IH b (with_in i w)) as (r & e & b' & i' & -> & Hr & H); [done|done|simpl; lia|].
    eexists _, _, _, i'. split; [reflexivity|]. split; [done|].
    unfold reads, got in *. simpl in H. by rewrite Ei in H.
  - rewrite over_write by (unfold len in *; simpl; lia). rewrite over_nil. cbn [mbind result_bind].
    rewrite andb_false_r. eexists _, _, _, (w_in w). rewrite with_in_self. split; [reflexivity|]. split; [done|].
    left. by destruct Hre as [-> | ->].
Qed.

Lemma socket_read_ok b n s w :
  0 <= m_sock s -> 0 < n < 2 ^ 31 -> n <= len b ->
  exists r b' i, socket_read (Some b) n s w = Ok (r, Some b', with_in i w) /\ reads b n w r b' i.
Proof.
  intros Hs Hn Hb. unfold socket_read, in_fuel. cbn [socket_read_loop Nat.add]. unfold socket_recv, valid.
  rewrite (proj2 (Z.leb_le 0 (m_sock s))) by done. cbn [negb].
  destruct (socket_recv_loop_ok (in_fuel w) b n w) as (r & e & b' & i & -> & Hr & H);
    [done|done|unfold in_fuel; lia|]. cbn [mbind result_bind].
  destruct (Z.ltb_spec r 0); [rewrite (Hr H0)|]; cbn [andb]; eauto 10.
Qed.

Lemma pipe_recv_loop_ok fuel b p n ret w :
  0 <= p -> 0 <= n -> p + n <= len b -> 0 <= ret -> ret + n < 2 ^ 31 -> (work w < fuel)%nat ->
  exists r i, pipe_recv_loop fuel b p n ret w =
      Ok (r, over b p (take (Z.to_nat (got n w)) (incoming (w_in w))), with_in i w) /\
    (r = ret + got n w \/ ret + got n w = 0 /\ r = -1) /\
    incoming i = drop (Z.to_nat (got n w)) (incoming (w_in w)).
Proof.
  revert b p n ret w. induction fuel as [|fuel IH]; intros b p n ret w Hp Hn Hb Hret Hsum Hf; [lia|].
  cbn [pipe_recv_loop]. unfold got. assert (Hlen : 0 <= len (incoming (w_in w))) by (unfold len; lia).
  destruct (Z.ltb_spec 0 n).
  2: { assert (n = 0) as -> by lia. rewrite Z.min_l by lia. rewrite !take_0, over_nil.
       eexists ret, (w_in w). rewrite with_in_self. split_and!; [done|left; lia|done]. }
  destruct (receive_cases n w) as [k i Hk Hki Ei Hl|i Ei Hl|r Hre He]; [done|..].
  - rewrite s32_small by lia. rewrite (proj2 (Z.ltb_lt 0 k)) by lia. rewrite s32_small by lia.
    rewrite over_write by (rewrite ?len_take; lia). cbn [mbind result_bind].
    assert (Hd : len (drop (Z.to_nat k) (incoming (w_in w))) = len (incoming (w_in w)) - k)
      by (unfold len in *; rewrite length_drop; lia).
    edestruct (IH (over b p (take (Z.to_nat k) (incoming (w_in w)))) (p + k) (n - k) (ret + k) (with_in i w))
      as (r & i' & -> & Hr & Ei'); try lia.
    + unfold len at 1. rewrite over_length; rewrite ?len_take; fold (len b); lia.
    + unfold work in *. simpl. rewrite Ei, length_drop. unfold len in *. lia.
    + unfold got in *. simpl in *. rewrite Ei, Hd in *. exists r, i'.
      assert (E : k + (n - k) `min` (len (incoming (w_in w)) - k) = n `min` len (incoming (w_in w))) by lia.
      split_and!; [by rewrite over_step, E by lia|lia|].
      rewrite Ei', drop_drop. f_equal. lia.
  - rewrite over_write by (unfold len in *; simpl; lia). rewrite over_nil. change (s32 (-1)) with (-1).
    cbn [mbind result_bind Z.ltb Z.compare Z.eqb].
    edestruct (IH b p n ret (with_in i w)) as (r & i' & -> & Hr & Ei'); try done.
    { unfold work in *. simpl. rewrite Ei. lia. }
    unfold got in *. simpl in *. rewrite Ei in *. eauto 10.
  - rewrite over_write by (unfold len in *; simpl; lia). rewrite over_nil. cbn [mbind result_bind].
    rewrite He. change (len []) with 0. rewrite Z.min_r by lia. rewrite !take_0, over_nil.
    destruct Hre as [-> | ->]; cbn -[Z.add].
    + exists ret, (w_in w). rewrite with_in_self. split_and!; [done|lia|done].
    + eexists _, (w_in w). rewrite with_in_self. split; [reflexivity|]. split; [|done].
      destruct (Z.eqb_spec ret 0); lia.
Qed.

Lemma pipe_read_ok b n s w :
  0 <= m_sock s -> 0 < n < 2 ^ 31 -> n <= len b ->
  exists r b' i, pipe_read (Some b) n s w = Ok (r, Some b', with_in i w) /\ reads b n w r b' i.
Proof.
  intros Hs Hn Hb. unfold pipe_read, pipe_recv, valid.
  rewrite (proj2 (Z.leb_le 0 (m_sock s))) by done. cbn [negb].
  destruct (pipe_recv_loop_ok (in_fuel w) b 0 n 0 w) as (r & i & -> & Hr & Ei);
    [lia|lia|lia|lia|lia|unfold in_fuel, work; lia|]. cbn [mbind result_bind].
  eexists _, _, i. split; [reflexivity|].
  assert (Hlen : 0 <= len (incoming (w_in w))) by (unfold len; lia).
  destruct (incoming (w_in w)) eqn:Einc.
  - left. split; [done|]. rewrite take_nil, over_nil, drop_nil in *. unfold got in Hr. rewrite Einc in Hr.
    change (len []) with 0 in Hr. rewrite Z.min_r in Hr by lia. split_and!; try done.
    by rewrite (proj2 (Z.ltb_ge 0 r)) by lia.
  - right. assert (0 < got n w) by (unfold got; rewrite Einc; unfold len; simpl; lia).
    exists (got n w). destruct Hr as [-> |]; [|lia]. rewrite Z.add_0_l, Einc.
    rewrite (proj2 (Z.ltb_lt 0 (got n w))) by done. split_and!; done || lia.
Qed.

(** ** The laws of the transports *)

Class TransportLaws (T : Transport) : Prop := {
  write_law data s w :
    0 <= m_sock s -> exists r k o, writeFully data s w = Ok (r, with_sent (take k data) o w) /\
      o `suffix_of` w_out w /\ (r = 0 /\ k = length data \/ r < 0) /\ (Forall willing (w_out w) -> r = 0);
  read_law b n s w :
    0 <= m_sock s -> 0 < n < 2 ^ 31 -> n <= len b ->
    exists r b' i, read (Some b) n s w = Ok (r, Some b', with_in i w) /\ reads b n w r b' i }.

Lemma sending_law (loop : nat -> list Z -> Z -> Z -> World -> result (Z * World)) data s w :
  sending loop -> 0 <= m_sock s ->
  exists r k o, (if negb (valid s) then Ok (-1, w) else loop (out_fuel w) data (len data) (len data) w) =
      Ok (r, with_sent (take k data) o w) /\
    o `suffix_of` w_out w /\ (r = 0 /\ k = length data \/ r < 0) /\ (Forall willing (w_out w) -> r = 0).
Proof.
  intros Hl Hs. unfold valid. rewrite (proj2 (Z.leb_le 0 (m_sock s))) by done. cbn [negb].
  destruct (Hl (out_fuel w) data (len data) w) as (r & k & o & -> & Ho & Hr & Hw);
    [unfold len; lia|unfold out_fuel; lia|].
  rewrite Z.sub_diag, drop_0. exists r, k, o. split_and!; try done.
  destruct Hr as [[-> ->]|]; [left; split; [done|unfold len; lia]|by right].
Qed.

#[export] Instance socket_laws : TransportLaws socket_transport.
Proof.
  split; [|intros; by apply socket_read_ok].
  intros. by apply sending_law; [apply socket_sending|].
Qed.

#[export] Instance pipe_laws : TransportLaws pipe_transport.
Proof.
  split; [|intros; by apply pipe_read_ok].
  intros. by apply sending_law; [apply pipe_sending|].
Qed.

(** Reading exactly [n] bytes, however they arrive. *)
Class ReadsFully (T : Transport) : Prop := {
  readFully_law b n s w :
    0 <= m_sock s -> 0 <= n <= len b ->
    exists i, incoming i = drop (Z.to_nat (got n w)) (incoming (w_in w)) /\
      readFully (Some b) n s w =
        Ok (n <=? len (incoming (w_in w)), Some (over b 0 (take (Z.to_nat (got n w)) (incoming (w_in w)))),
            with_in i w) }.

#[export] Instance socket_reads_fully : ReadsFully socket_transport.
Proof.
  split. intros b n s w Hs Hn. cbn [readFully socket_transport]. unfold socket_readFully, valid.
  rewrite (proj2 (Z.leb_le 0 (m_sock s))) by done. cbn [negb].
  destruct (socket_readFully_loop_ok (in_fuel w) b n n w) as (i & Ei & ->);
    [lia|lia|unfold in_fuel, work; lia|]. rewrite Z.sub_diag. eauto.
Qed.

(** ** The buffer of a stream *)

Definition live (a n : Z) (w : World) : Prop := exists b, w_blocks w !! a = Some b /\ n <= len b.

(** The transport's buffer is as large as it thinks, the stream's pointer is NULL
    or to that buffer. *)
Record stream_ok (s : Stream) (w : World) : Prop := {
  ok_sock : 0 <= m_sock s;
  ok_bufsize : 0 <= m_bufsize s < 2 ^ 31;
  ok_io_bufsize : 0 <= io_bufsize s < 2 ^ 31;
  ok_child : forall a, m_buf s = Some a -> live a (m_bufsize s) w;
  ok_base : forall a, io_buf s = Some a ->
    m_buf s = Some a /\ 0 <= io_free s <= io_bufsize s /\ live a (io_bufsize s) w;
  ok_next : forall a, is_Some (w_blocks w !! a) -> a < w_next w }.

(** The bytes handed out by [alloc] since the last flush. *)
Definition pending (s : Stream) (w : World) : list Z :=
  match io_buf s with
  | Some a => take (Z.to_nat (io_bufsize s - io_free s)) (default [] (w_blocks w !! a))
  | None => []
  end.

(** Nothing fails for good. *)
Definition steady (w : World) : Prop := Forall willing (w_out w) /\ Forall (eq true) (w_mem w).

Definition same_input (w w' : World) : Prop := w_in w' = w_in w /\ w_fresh w' = w_fresh w.

Lemma size_t_small z : 0 <= z < 2 ^ 32 -> size_t z = z.
Proof. intros. unfold size_t, u64. apply Z.mod_small. lia. Qed.

Lemma stream_ok_new sock bufSize w :
  0 <= sock -> 0 <= bufSize < 2 ^ 31 -> (forall a, is_Some (w_blocks w !! a) -> a < w_next w) ->
  stream_ok (new_stream sock bufSize) w.
Proof. by split. Qed.

Lemma stream_ok_sent s w bs o : stream_ok s (with_sent bs o w) <-> stream_ok s w.
Proof. split; intros []; by split. Qed.

Lemma stream_ok_in s w i : stream_ok s (with_in i w) <-> stream_ok s w.
Proof. split; intros []; by split. Qed.

Lemma can_allocate_ok w :
  exists b m, can_allocate w = (b, mkWorld (w_blocks w) (w_next w) m (w_fresh w) (w_sent w) (w_out w) (w_in w)) /\
    (Forall (eq true) (w_mem w) -> b = true /\ Forall (eq true) m).
Proof.
  unfold can_allocate. destruct w as [B N [|b m] F S O I]; simpl.
  - exists true, []. by split.
  - exists b, m. split; [done|]. by intros [<- ?]%Forall_cons.
Qed.

(** What [allocBuffer] leaves: a block of the size, or NULL. *)
Lemma allocBuffer_ok n s w :
  0 <= m_sock s -> 0 <= m_bufsize s < 2 ^ 31 -> (forall a, m_buf s = Some a -> live a (m_bufsize s) w) ->
  (forall a, is_Some (w_blocks w !! a) -> a < w_next w) -> 0 <= n < 2 ^ 31 ->
  exists p k B N m, let w' := mkWorld B N m (w_fresh w) (w_sent w) (w_out w) (w_in w) in
    allocBuffer n s w = Ok (p, with_buf p k s, w') /\ 0 <= k < 2 ^ 31 /\
    (forall a, p = Some a -> live a k w' /\ live a n w') /\ (forall a, is_Some (B !! a) -> a < N) /\
    (Forall (eq true) (w_mem w) -> Forall (eq true) m /\ p <> None).
Proof.
  intros Hs Hb Hc Hx Hn. unfold allocBuffer.
  set (size := if m_bufsize s <? n then n else m_bufsize s).
  assert (Hsize : 0 <= size < 2 ^ 31 /\ n <= size /\ m_bufsize s <= size).
  { unfold size. destruct (Z.ltb_spec (m_bufsize s) n); lia. }
  destruct (m_buf s) as [b|] eqn:Eb.
  - destruct (Hc b eq_refl) as (bl & Ebl & Hbl). destruct (Z.ltb_spec (m_bufsize s) size).
    + unfold realloc. rewrite Ebl. destruct (can_allocate_ok w) as (ok & m & -> & Hm).
      destruct ok; unfold free; simpl; rewrite Ebl; simpl.
      * eexists _, _, _, _, _. split; [reflexivity|]. simpl. split; [lia|]. split_and!.
        -- intros a [= <-]. assert (Hl : forall k, k <= size -> live (w_next w) k
             (mkWorld (<[w_next w := take (Z.to_nat size) (bl ++ drop (length bl)
                (fresh_block size (mkWorld (delete b (w_blocks w)) (w_next w) m (w_fresh w) (w_sent w) (w_out w) (w_in w))))]>
                (delete b (w_blocks w))) (w_next w + 1) m (w_fresh w) (w_sent w) (w_out w) (w_in w))).
           { intros k Hk. eexists. simpl. rewrite lookup_insert_eq. split; [reflexivity|].
             unfold len, fresh_block. rewrite length_take, length_app, length_drop, length_fmap, length_seq. lia. }
           split; apply Hl; lia.
        -- intros a [x Hl]. apply lookup_insert_Some in Hl as [[<- _]|[_ Hl]]; [lia|].
           apply lookup_delete_Some in Hl as [_ Hl]. pose proof (Hx a (mk_is_Some _ _ Hl)). lia.
        -- intros H1. by destruct (Hm H1).
      * eexists _, _, _, _, _. split; [reflexivity|]. simpl. split; [lia|]. split_and!; [done| |].
        -- intros a [x Hl]. apply lookup_delete_Some in Hl as [_ Hl]. apply Hx. eauto.
        -- intros H1. by destruct (Hm H1).
    + eexists (Some b), (m_bufsize s), (w_blocks w), (w_next w), (w_mem w).
      split; [by destruct s, w; simpl in *; subst|]. split; [lia|]. split_and!; [|done|done].
      intros a [= <-]. split; exists bl; split; (done || lia).
  - destruct (can_allocate_ok w) as (ok & m & E & Hm). unfold malloc. rewrite E. destruct ok; simpl.
    + eexists _, _, _, _, _. split; [reflexivity|]. simpl. split; [lia|]. split_and!.
      * intros a [= <-]. split; eexists; simpl; rewrite lookup_insert_eq; (split; [reflexivity|]);
          unfold len, fresh_block; rewrite length_fmap, length_seq; lia.
      * intros a [x Hl]. apply lookup_insert_Some in Hl as [[<- _]|[_ Hl]]; [lia|].
        pose proof (Hx a (mk_is_Some _ _ Hl)). lia.
      * intros H1. by destruct (Hm H1).
    + eexists _, _, _, _, _. split; [reflexivity|]. split; [lia|]. split_and!; [done|done|].
      intros H1. by destruct (Hm H1).
Qed.

Section Buffered.
Context {T : Transport} {L : TransportLaws T}.

Definition flushed (s : Stream) : Prop := io_buf s = None \/ io_free s = io_bufsize s.

Lemma flushed_pending s w : flushed s -> pending s w = [].
Proof.
  unfold pending. intros [-> | ->]; [done|]. destruct (io_buf s); [|done]. by rewrite Z.sub_diag.
Qed.

(** Every byte is offered to the transport once; the buffer is empty after. *)
Lemma flush_sends s w :
  stream_ok s w -> exists r k o s', flush s w = Ok (r, s', with_sent (take k (pending s w)) o w) /\
    stream_ok s' w /\ flushed s' /\ o `suffix_of` w_out w /\
    (r = 0 /\ take k (pending s w) = pending s w \/ r < 0) /\ (Forall willing (w_out w) -> r = 0).
Proof.
  intros H. pose proof H as [Hs Hb Hio Hc Hbase Hx]. unfold flush, pending. destruct (io_buf s) as [a|] eqn:Ea.
  2: { exists 0, 0%nat, (w_out w), s. rewrite take_0, with_sent_nil. split_and!; auto. by left. }
  destruct (Hbase a eq_refl) as (Em & Hf & bl & Ebl & Hlen). rewrite Ebl. simpl.
  destruct (Z.eqb_spec (io_free s) (io_bufsize s)) as [E|Hne].
  { exists 0, 0%nat, (w_out w), s. rewrite take_0, with_sent_nil, E, Z.sub_diag. split_and!; auto. by right. }
  unfold commitBuffer, valid. rewrite (proj2 (Z.leb_le 0 (m_sock s))) by done.
  rewrite Em. simpl. unfold load. rewrite Ebl. simpl. rewrite size_t_small by lia.
  unfold read_block. rewrite decide_True by (unfold len in *; lia). simpl. unfold slice.
  rewrite drop_0. set (d := take (Z.to_nat (io_bufsize s - io_free s)) bl).
  destruct (write_law d s w) as (r & k & o & -> & Ho & Hr & Hw); [done|]. simpl.
  eexists r, k, o, _. split; [reflexivity|]. split_and!; try done; simpl.
  - split; simpl; try done. intros a0 [= <-]. by apply Hc.
  - by left.
  - destruct Hr as [[-> ->]|]; [left|by right]. split; [done|]. by rewrite firstn_all.
Qed.

(** Room for [n] bytes: NULL, or a pointer behind what is pending, which stays. *)
Definition room (n : Z) (s : Stream) (w : World) (before : list Z) (p : option (Z * Z)) (s' : Stream) (w' : World) : Prop :=
  stream_ok s' w' /\ same_input w w' /\ w_out w' `suffix_of` w_out w /\
  match p with
  | None => pending s' w' = [] /\ exists k, w_sent w' = w_sent w ++ take k before
  | Some (a, off) =>
      exists b, io_buf s' = Some a /\ w_blocks w' !! a = Some b /\ 0 <= off /\
        io_bufsize s' - io_free s' = off + n /\ off + n <= len b /\
        w_sent w' ++ take (Z.to_nat off) b = w_sent w ++ before
  end /\
  (Forall (eq true) (w_mem w) -> Forall (eq true) (w_mem w') /\ (Forall willing (w_out w) -> p <> None)).

Lemma take_room_ok n s w :
  stream_ok s w -> 0 <= n < 2 ^ 31 -> (io_free s < n -> flushed s) ->
  exists p s' w', take_room n s w = Ok (p, s', w') /\ room n s w (pending s w) p s' w' /\
    w_sent w' = w_sent w /\ w_out w' = w_out w.
Proof.
  intros H Hn Hfit. pose proof H as [Hs Hb Hio Hc Hbase Hx]. unfold take_room.
  destruct (negb (bool_decide (is_Some (io_buf s))) || (io_bufsize s <? n)) eqn:Enew.
  - assert (Hfl : flushed s).
    { apply orb_true_iff in Enew as [E|E].
      - left. apply negb_true_iff, bool_decide_eq_false in E. by apply eq_None_not_Some.
      - apply Z.ltb_lt in E. destruct (io_buf s) as [a|] eqn:Ea; [|by left].
        destruct (Hbase a eq_refl) as (_ & Hf & _). apply Hfit. lia. }
    set (size := if io_bufsize s <? n then n else io_bufsize s).
    assert (Hsize : 0 <= size < 2 ^ 31 /\ n <= size /\ io_bufsize s <= size)
      by (unfold size; destruct (Z.ltb_spec (io_bufsize s) n); lia).
    rewrite s32_small, size_t_small by lia.
    destruct (allocBuffer_ok size s w) as (p & k & B & N & m & -> & Hk & Hl & HN & Hm); try done; [lia|].
    rewrite (flushed_pending s w) by done. cbn [mbind result_bind]. destruct p as [a|]; cbn.
    + rewrite Z.sub_diag. rewrite !size_t_small by lia.
      destruct (Hl a eq_refl) as [Hlk (b & Eb & Hlb)].
      eexists _, _, _. split; [reflexivity|]. split; [|done]. unfold room. split_and!; try done.
      * split; simpl; try done; [lia| |].
        -- intros a' [= <-]. done.
        -- intros a' [= <-]. split; [done|]. split; [lia|]. by exists b.
      * exists b. simpl. split_and!; try done; lia || by rewrite ?take_0.
      * intros H1. destruct (Hm H1). by split.
    + eexists _, _, _. split; [reflexivity|]. split; [|done]. unfold room. split_and!; try done.
      * exists 0%nat. simpl. by rewrite app_nil_r.
      * intros H1. by destruct (Hm H1).
  - apply orb_false_iff in Enew as [E1 E2]. apply negb_false_iff, bool_decide_eq_true in E1 as [a Ea].
    apply Z.ltb_ge in E2. cbn [mbind result_bind]. rewrite Ea.
    destruct (Hbase a Ea) as (Em & Hf & b & Eb & Hlb).
    assert (n <= io_free s).
    { destruct (Z.le_gt_cases n (io_free s)) as [|Hgt]; [done|].
      destruct (Hfit Hgt) as [E|E]; [congruence|lia]. }
    rewrite !size_t_small by lia.
    eexists _, _, _. split; [reflexivity|]. split; [|done]. unfold room. split_and!; try done.
    + split; simpl; try done. intros a' [= <-]. split; [done|]. split; [lia|]. by exists b.
    + exists b. simpl. split_and!; try done; try lia. unfold pending. by rewrite Ea, Eb.
Qed.

Lemma alloc_ok n s w :
  stream_ok s w -> 0 <= n < 2 ^ 31 ->
  exists p s' w', alloc n s w = Ok (p, s', w') /\ room n s w (pending s w) p s' w'.
Proof.
  intros H Hn. unfold alloc.
  destruct (bool_decide (is_Some (io_buf s)) && (io_free s <? n)) eqn:E.
  - destruct (flush_sends s w H) as (r & k & o & s1 & -> & H1 & Hfl & Ho & Hr & Hw). cbn [mbind result_bind].
    destruct (Z.ltb_spec r 0).
    + eexists _, _, _. split; [reflexivity|]. unfold room. split_and!; try done.
      * by apply stream_ok_sent.
      * by apply flushed_pending.
      * by exists k.
      * intros Hm. split; [done|]. intros H2. specialize (Hw H2). lia.
    + destruct Hr as [[-> Hall]|]; [|lia]. rewrite Hall.
      destruct (take_room_ok n s1 (with_sent (pending s w) o w)) as (p & s' & w' & -> & Hroom & Es & Eo);
        [by apply stream_ok_sent|done|done|].
      eexists _, _, _. split; [reflexivity|]. rewrite (flushed_pending s1 _ Hfl) in Hroom.
      destruct Hroom as (R1 & R2 & R3 & R4 & R5). simpl in *. unfold room. split_and!; try done.
      * rewrite Eo. done.
      * destruct p as [[a off]|].
        -- destruct R4 as (b & ? & ? & ? & ? & ? & Hsent). exists b. rewrite app_nil_r in Hsent. by split_and!.
        -- split; [by destruct R4|]. exists (length (pending s w)). by rewrite firstn_all, Es.
      * intros Hm. destruct (R5 Hm) as [R6 R7]. split; [done|]. intros H2. apply R7.
        destruct Ho as [l El]. rewrite El in H2. by apply Forall_app in H2 as [_ ?].
  - destruct (take_room_ok n s w) as (p & s' & w' & -> & Hroom & _); [done|done| |eauto 10].
    intros Hlt. apply andb_false_iff in E as [E|E]; [|apply Z.ltb_ge in E; lia].
    left. apply bool_decide_eq_false in E. by apply eq_None_not_Some.
Qed.

(** Stores behind the pointer that [alloc] returned, inside of the room. *)
Lemma store_ok a off data s w b :
  stream_ok s w -> w_blocks w !! a = Some b -> 0 <= off -> off + len data <= len b ->
  store a off data w = Ok (with_blocks (<[a := over b off data]> (w_blocks w)) w) /\
  stream_ok s (with_blocks (<[a := over b off data]> (w_blocks w)) w).
Proof.
  intros [Hs Hb Hio Hc Hbase Hx] Eb Ho Hl. split.
  { unfold store. rewrite Eb. simpl. by rewrite over_write. }
  assert (Hlive : forall a' n, live a' n w -> live a' n (with_blocks (<[a := over b off data]> (w_blocks w)) w)).
  { intros a' n (b' & Eb' & Hn). unfold live. simpl. destruct (decide (a' = a)) as [->|].
    - rewrite lookup_insert_eq. eexists. split; [done|]. unfold len. rewrite over_length by done.
      rewrite Eb in Eb'. by injection Eb' as ->.
    - rewrite lookup_insert_ne by done. by exists b'. }
  split; simpl; try done; eauto.
  - intros a' Ea'. destruct (Hbase a' Ea') as (? & ? & ?). auto.
  - intros a' [x Ha']. apply lookup_insert_Some in Ha' as [[<- _]|[_ Ha']]; apply Hx; eauto.
Qed.

(** The program in front of a stream, for the order of bytes: it asks for room
    and fills it, flushes, or writes past the buffer. *)
Inductive use := Emit (n : Z) (data : list Z) | Flush | Write (data : list Z).

Definition do_use (sw : Stream * World) (u : use) : result (Stream * World) :=
  let '(s, w) := sw in
  match u with
  | Emit n data =>
      '(p, s, w) ← alloc n s w;
      match p with
      | Some (a, off) => w ← store a off data w; Ok (s, w)
      | None => Ok (s, w)
      end
  | Flush => '(_, s, w) ← flush s w; Ok (s, w)
  | Write data => '(_, w) ← writeFully data s w; Ok (s, w)
  end.

Definition bytes_of (u : use) : list Z :=
  match u with Emit _ data | Write data => data | Flush => [] end.

(** Room is filled; a direct write comes after a flush. *)
Fixpoint orderly (clean : bool) (us : list use) : Prop :=
  match us with
  | [] => True
  | Emit n data :: us => n = len data /\ n < 2 ^ 31 /\ orderly false us
  | Flush :: us => orderly true us
  | Write data :: us => clean = true /\ orderly true us
  end.

Lemma emit_ok n data s w :
  stream_ok s w -> 0 <= n < 2 ^ 31 -> len data <= n ->
  exists s' w' stale, do_use (s, w) (Emit n data) = Ok (s', w') /\ stream_ok s' w' /\ same_input w w' /\
    (steady w -> steady w' /\ len stale = n - len data /\
       w_sent w' ++ pending s' w' = w_sent w ++ pending s w ++ data ++ stale).
Proof.
  intros H Hn Hd. cbn [do_use]. destruct (alloc_ok n s w H Hn) as (p & s' & w' & -> & R1 & R2 & R3 & R4 & R5).
  cbn [mbind result_bind]. destruct p as [[a off]|].
  - destruct R4 as (b & Ea & Eb & Hoff & Hend & Hb & Es).
    destruct (store_ok a off data s' w' b) as [-> Hok]; [done..|lia|]. cbn [mbind result_bind].
    eexists s', _, (take (Z.to_nat (n - len data)) (drop (Z.to_nat (off + len data)) b)).
    split; [reflexivity|]. split; [done|]. split; [done|]. intros [Hw Hm]. destruct (R5 Hm) as [Hm' _]. split_and!.
    + split; [|done]. simpl. destruct R3 as [l El]. rewrite El in Hw. by apply Forall_app in Hw as [_ ?].
    + unfold len in *. rewrite length_take, length_drop. lia.
    + unfold pending. simpl. rewrite Ea, Hend. simpl. rewrite lookup_insert_eq. simpl. unfold over.
      replace (Z.to_nat (off + n)) with (length (take (Z.to_nat off) b ++ data) + Z.to_nat (n - len data))%nat
        by (unfold len in *; rewrite length_app, length_take; lia).
      rewrite (app_assoc (take _ _)), take_app_add. rewrite (app_assoc (w_sent w) (pending s w)), <-Es, <-!app_assoc.
      do 4 f_equal. f_equal. unfold len. lia.
  - exists s', w', (replicate (Z.to_nat (n - len data)) 0). split; [done|]. split; [done|]. split; [done|].
    intros [Hw Hm]. by destruct (proj2 (R5 Hm) Hw).
Qed.

(** Bytes leave in the order in which they were produced. *)
Lemma uses_ok us s w clean :
  stream_ok s w -> orderly clean us -> (clean = true -> flushed s) ->
  exists s' w', foldM do_use (s, w) us = Ok (s', w') /\ stream_ok s' w' /\ same_input w w' /\
    (steady w -> steady w' /\
       w_sent w' ++ pending s' w' = w_sent w ++ pending s w ++ concat (bytes_of <$> us)).
Proof.
  revert s w clean. induction us as [|u us IH]; intros s w clean H Hu Hc.
  { exists s, w. split_and!; try done. intros. split; [done|]. simpl. by rewrite app_nil_r. }
  destruct u as [n data| |data]; cbn [foldM orderly] in *.
  - destruct Hu as (-> & Hn & Hu).
    destruct (emit_ok (len data) data s w) as (s1 & w1 & stale & -> & H1 & [I1 I2] & Hs1); [done|unfold len in *; lia|lia|].
    cbn [mbind result_bind]. destruct (IH s1 w1 false) as (s2 & w2 & -> & H2 & [I3 I4] & Hs2); [done..|].
    exists s2, w2. split; [done|]. split; [done|]. split; [split; congruence|]. intros Hw. destruct (Hs1 Hw) as (Hw1 & Hl & E1).
    destruct (Hs2 Hw1) as [Hw2 E2]. split; [done|]. rewrite E2, app_assoc, E1.
    assert (stale = []) as -> by (apply nil_length_inv; unfold len in *; lia). simpl. by rewrite app_nil_r, <-!app_assoc.
  - cbn [do_use]. destruct (flush_sends s w H) as (r & k & o & s1 & -> & H1 & Hf & Ho & Hr & Hw). cbn [mbind result_bind].
    destruct (IH s1 (with_sent (take k (pending s w)) o w) true) as (s2 & w2 & -> & H2 & [I3 I4] & Hs2);
      [by apply stream_ok_sent|done|done|].
    exists s2, w2. split_and!; try done. intros [Hw1 Hm]. destruct Hr as [[_ Hk]|]; [|specialize (Hw Hw1); lia].
    destruct Hs2 as [Hw2 E2].
    { split; [|done]. simpl. destruct Ho as [l El]. rewrite El in Hw1. by apply Forall_app in Hw1 as [_ ?]. }
    split; [done|]. rewrite E2, (flushed_pending s1 _ Hf). simpl. by rewrite Hk, <-app_assoc.
  - destruct Hu as [-> Hu]. cbn [do_use].
    destruct (write_law data s w) as (r & k & o & -> & Ho & Hr & Hw); [apply H|]. cbn [mbind result_bind].
    destruct (IH s (with_sent (take k data) o w) true) as (s2 & w2 & -> & H2 & [I3 I4] & Hs2);
      [by apply stream_ok_sent|done|done|].
    exists s2, w2. split_and!; try done. intros [Hw1 Hm]. destruct Hr as [[_ Hk]|]; [|specialize (Hw Hw1); lia].
    destruct Hs2 as [Hw2 E2].
    { split; [|done]. simpl. destruct Ho as [l El]. rewrite El in Hw1. by apply Forall_app in Hw1 as [_ ?]. }
    split; [done|]. rewrite E2, !flushed_pending by auto. simpl. by rewrite Hk, firstn_all, <-app_assoc.
Qed.

End Buffered.

(** C9 A stream over a transport that obeys the laws, used in an orderly way:
    whatever the kernel and the allocator answer, nothing is written outside of
    live memory and every call returns; when nothing fails for good, the bytes
    sent and those still in the buffer are together those that were produced, in
    that order, and after a flush all of them are sent. *)
Theorem stream_in_order (T : Transport) (L : TransportLaws T) sock bufSize us fresh mem out inp :
  0 <= sock -> 0 <= bufSize < 2 ^ 31 -> orderly true us ->
  let w := mkWorld ∅ 0 mem fresh [] out inp in
  exists s' w', foldM do_use (new_stream sock bufSize, w) us = Ok (s', w') /\ w_in w' = inp /\
    (steady w -> w_sent w' ++ pending s' w' = concat (bytes_of <$> us) /\
       (flushed s' -> w_sent w' = concat (bytes_of <$> us))).
Proof.
  intros Hs Hb Hu w. destruct (uses_ok us (new_stream sock bufSize) w true) as (s' & w' & E & H & [I _] & Ho); try done.
  - apply stream_ok_new; [done|done|]. intros a [x Hx]. simpl in Hx. by rewrite lookup_empty in Hx.
  - by left.
  - exists s', w'. split_and!; try done. intros Hw. destruct (Ho Hw) as [_ E1]. simpl in E1. split; [done|].
    intros Hf. rewrite (flushed_pending s' w' Hf), app_nil_r in E1. done.
Qed.

(** ** Concrete streams *)

Definition demo_world (out : list answer) (inp : list arrival) : World :=
  mkWorld ∅ 0 [] (fun _ => 0) [] out inp.

(** A pipe that takes the bytes in pieces; the third use does not fit and
    flushes, the direct write follows a flush. *)
Definition demo_uses : list use :=
  [Emit 3 [1; 2; 3]; Emit 4 [4; 5; 6; 7]; Emit 9 [8; 9; 10; 11; 12; 13; 14; 15; 16]; Flush; Write [17; 18]; Flush].

Example stream_in_order_witness :
  let w := demo_world [Took 2; Interrupted; Took 1] [] in
  steady w /\
  exists s' w', foldM (@do_use pipe_transport) (new_stream 3 8, w) demo_uses = Ok (s', w') /\ w_in w' = [] /\
    (steady w -> w_sent w' ++ pending s' w' = concat (bytes_of <$> demo_uses) /\
       (flushed s' -> w_sent w' = concat (bytes_of <$> demo_uses))).
Proof.
  split; [split; simpl; repeat (constructor; try done; try lia)|].
  apply (stream_in_order pipe_transport pipe_laws 3 8 demo_uses (fun _ => 0) [] [Took 2; Interrupted; Took 1] []).
  all: repeat split; done || lia.
Defined.

Example demo_sent :
  (w_sent ∘ snd) <$> foldM (@do_use pipe_transport)
    (new_stream 3 8, demo_world [Took 2; Interrupted; Took 1] []) demo_uses = Ok (seqZ 1 18).
Proof. vm_compute. reflexivity. Qed.

(** A pipe that delivers four bytes in two parts: the second request asks for
    four again, and what comes next is stored behind the buffer. *)
Example pipe_readFully_overflows :
  pipe_readFully (Some [0; 0; 0; 0]) 4 (new_stream 3 8) (demo_world [] [Data [1; 2]; Data [3; 4; 5; 6]])
    = Err OutOfBounds /\
  fst <$> socket_readFully (Some [0; 0; 0; 0]) 4 (new_stream 3 8) (demo_world [] [Data [1; 2]; Data [3; 4; 5; 6]])
    = Ok (true, Some [1; 2; 3; 4]).
Proof. split; reflexivity. Qed.

(** [int allocLen] keeps 8 of a request for 2^32 + 8 bytes, and the block has
    the 16 of the transport. *)
Example alloc_cuts_the_size :
  (fun '(p, s, w) => (p, io_bufsize s, length <$> w_blocks w !! 0)) <$>
    @alloc pipe_transport (2 ^ 32 + 8) (new_stream 3 16) (demo_world [] [])
  = Ok (Some (0, 0), 8, Some 16%nat).
Proof. vm_compute. reflexivity. Qed.

(** The bytes of a flush that failed are dropped, and what is produced next is
    sent all the same. *)
Example failed_flush_drops :
  (w_sent ∘ snd) <$> foldM (@do_use pipe_transport) (new_stream 3 8, demo_world [Failed] [])
    [Emit 2 [1; 2]; Flush; Emit 2 [3; 4]; Flush] = Ok [3; 4].
Proof. vm_compute. reflexivity. Qed.
