(* ===== verification/EmuGen.v ===== *)
(** * The code that emugen generates

    [src/emulator/opengl/host/tools/emugen/ApiGen.cpp] prints, for each entry
    point of an API, a function that encodes a call into a stream
    ([genEncoderImpl]) and a case of the loop that decodes packets and performs
    the calls ([genDecoderImpl]).  Here the generator produces statements instead
    of their text, and [exec] and [dexec] say what the statements do to the
    stream of [GlStream] and to memory.  The functions that the decoder calls are
    a parameter, which sees the arguments.

    [encode_sends]: the generated encoder sends the packet of its call.
    [decode_performs]: the generated decoder performs the call of a packet, with
    the arguments that were encoded, and answers with what the call produced. *)
From S2P Require Import Prelude GlStream.
Local Open Scope Z_scope.

(** ** Entry points ([Var.h], [EntryPoint.h]) *)

(** Arguments of a call: a number of some width, or a pointer with the bytes
    that are at it. *)
Inductive arg := Num (z : Z) | Ptr (p : option (list Z)).

Inductive PointerDir := POINTER_OUT | POINTER_IN | POINTER_INOUT.
#[export] Instance PointerDir_eq_dec : EqDecision PointerDir.
Proof. solve_decision. Defined.

(** A parameter: the expressions of the attributes file are functions of the
    arguments of the call. *)
Record Var := mkVar {
  v_bytes : Z;
  isPointer : bool;
  pointerDir : PointerDir;
  nullAllowed : bool;
  isLarge : bool;
  lenExpression : list arg -> Z;
  packExpression : option (list arg -> list Z);
  writeExpression : option (list arg -> list Z) }.

Definition isVoid (v : Var) : bool := (v_bytes v =? 0) && negb (isPointer v).

Inductive Retval := RVoid | RPointer | RValue (bytes : Z).

Record EntryPoint := mkEntry { e_vars : list Var; e_retval : Retval }.

(** The opcode of the entry at an index. *)
Definition opcode_of (base : Z) (i : nat) : Z := u32 (Z.of_nat i + base).

(** ** The encoder: statements *)

(** A summand of a size: bytes, or the variable [__size_j]. *)
Inductive term := Bytes (n : Z) | SizeOf (j : nat).

Inductive stmt :=
  | SAlloc (size : list term)  (** [ptr = stream->alloc(...)] *)
  | SHeader                    (** the opcode and [packetSize] *)
  | SSize (j : nat)            (** the size of a pointer's data *)
  | SData (j : nat)            (** the data of a pointer, copied *)
  | SVal (j : nat)             (** a number *)
  | SFlush
  | SWriteSize (j : nat) | SWriteData (j : nat)  (** a large variable, written directly *)
  | SReadback (j : nat)
  | SReturn (bytes : Z).

Definition writeVarEncodingSize (jv : nat * Var) : term :=
  if isPointer (snd jv) then SizeOf (fst jv) else Bytes (v_bytes (snd jv)).

Definition npointers (vs : list (nat * Var)) : Z := Z.of_nat (length (filter (fun jv => isPointer jv.2 = true) vs)).

(** [a + b + ... + npointers*4] *)
Definition sizes_of (vs : list (nat * Var)) : list term :=
  (writeVarEncodingSize <$> vs) ++ (if 0 <? npointers vs then [Bytes (npointers vs * 4)] else []).

Definition is_in (v : Var) : bool :=
  match pointerDir v with POINTER_INOUT | POINTER_IN => true | POINTER_OUT => false end.
Definition is_out (v : Var) : bool :=
  match pointerDir v with POINTER_INOUT | POINTER_OUT => true | POINTER_IN => false end.

Definition writeVarEncodingExpression (jv : nat * Var) : list stmt :=
  let '(j, v) := jv in
  if isPointer v then SSize j :: (if is_in v then [SData j] else [])
  else if negb (isVoid v) then [SVal j] else [].

Definition writeVarLargeEncodingExpression (jv : nat * Var) : list stmt :=
  [SWriteSize (fst jv); SWriteData (fst jv)].

(** The first variables that are, or are not, large, and the others. *)
Fixpoint span (large : bool) (vs : list (nat * Var)) : list (nat * Var) * list (nat * Var) :=
  match vs with
  | [] => ([], [])
  | jv :: vs' =>
      if Bool.eqb (isLarge (snd jv)) large
      then let '(a, b) := span large vs' in (jv :: a, b) else ([], vs)
  end.

(** A turn of the loop over fragments: what comes before the next large
    variables, then these. *)
Fixpoint fragments (fuel : nat) (first : bool) (packetSize : list term) (vs : list (nat * Var)) : list stmt :=
  match fuel with
  | O => []
  | S fuel =>
      match first, vs with
      | false, [] => []
      | _, _ =>
          let '(small, rest) := span false vs in
          let '(large, rest') := span true rest in
          (match first, small with
           | false, [] => []
           | _, _ =>
               [SAlloc (match first, rest with
                        | true, [] => packetSize
                        | true, _ => Bytes 8 :: (match small with [] => [] | _ => sizes_of small end)
                        | false, _ => sizes_of small
                        end)] ++
               (if first then [SHeader] else []) ++
               (small ≫= writeVarEncodingExpression) ++
               (match rest with [] => [] | _ => [SFlush] end)
           end) ++
          (large ≫= writeVarLargeEncodingExpression) ++
          match rest' with [] => [] | _ => fragments fuel false packetSize rest' end
      end
  end.

Definition indexed (vs : list Var) : list (nat * Var) := imap pair vs.

Definition packet_terms (vs : list (nat * Var)) : list term := Bytes 8 :: sizes_of vs.

Definition readbacks (vs : list (nat * Var)) : list stmt :=
  vs ≫= fun jv => if isPointer (snd jv) && is_out (snd jv) then [SReadback (fst jv)] else [].

Definition genEncoderImpl (e : EntryPoint) : list stmt :=
  let vs := indexed (e_vars e) in
  fragments (S (length vs)) true (packet_terms vs) vs ++ readbacks vs ++
  match e_retval e with RValue n => [SReturn n] | _ => [] end.

(** ** The encoder: execution *)

Definition is_null (a : arg) : bool := match a with Ptr None => true | _ => false end.

(** [__size_j], as [getVarEncodingSizeExpression] defines it. *)
Definition var_size (args : list arg) (v : Var) (a : arg) : Z :=
  if isPointer v then
    if nullAllowed v && is_null a then 0 else u32 (lenExpression v args)
  else v_bytes v.

(** The bytes at a pointer, for [memcpy] and [writeFully]. *)
Definition arg_bytes (a : arg) (n : Z) : result (list Z) :=
  match a with
  | Ptr (Some b) => read_block b 0 n
  | _ => if n =? 0 then Ok [] else Err NullDeref
  end.

Record Frame := mkFrame {
  f_opcode : Z;
  f_vars : list Var;
  f_args : list arg;
  f_sizes : list Z;
  f_ptr : option (Z * Z);
  f_stream : Stream;
  f_world : World;
  f_ret : option Z }.

Definition with_ptr (p : option (Z * Z)) (s : Stream) (w : World) (f : Frame) : Frame :=
  mkFrame (f_opcode f) (f_vars f) (f_args f) (f_sizes f) p s w (f_ret f).

Definition eval_term (sizes : list Z) (t : term) : Z :=
  match t with Bytes n => n | SizeOf j => sizes !!! j end.
Definition eval_terms (sizes : list Z) (ts : list term) : Z :=
  u32 (foldr Z.add 0 (eval_term sizes <$> ts)).

(** [*(T* )ptr = ...; ptr += ...] *)
Definition put_bytes (data : list Z) (n : Z) (f : Frame) : result Frame :=
  match f_ptr f with
  | None => Err NullDeref
  | Some (a, off) =>
      w ← store a off data (f_world f); Ok (with_ptr (Some (a, off + n)) (f_stream f) w f)
  end.

Section Execution.
Context {T : Transport}.

Definition exec (f : Frame) (i : stmt) : result Frame :=
  match i with
  | SAlloc size =>
      '(p, s, w) ← alloc (eval_terms (f_sizes f) size) (f_stream f) (f_world f);
      Ok (with_ptr p s w f)
  | SHeader =>
      f ← put_bytes (le_bytes 4 (f_opcode f)) 4 f;
      put_bytes (le_bytes 4 (eval_terms (f_sizes f) (packet_terms (indexed (f_vars f))))) 4 f
  | SSize j => put_bytes (le_bytes 4 (f_sizes f !!! j)) 4 f
  | SData j =>
      v ← from_option_or OutOfBounds (f_vars f !! j);
      a ← from_option_or OutOfBounds (f_args f !! j);
      if nullAllowed v && is_null a then put_bytes [] (f_sizes f !!! j) f
      else
        data ← match packExpression v with
               | Some e => Ok (e (f_args f))
               | None => arg_bytes a (f_sizes f !!! j)
               end;
        put_bytes data (f_sizes f !!! j) f
  | SVal j =>
      v ← from_option_or OutOfBounds (f_vars f !! j);
      a ← from_option_or OutOfBounds (f_args f !! j);
      put_bytes (le_bytes (Z.to_nat (v_bytes v)) (match a with Num z => z | Ptr _ => 0 end)) (v_bytes v) f
  | SFlush =>
      '(_, s, w) ← flush (f_stream f) (f_world f); Ok (with_ptr (f_ptr f) s w f)
  | SWriteSize j =>
      '(_, w) ← writeFully (le_bytes 4 (f_sizes f !!! j)) (f_stream f) (f_world f);
      Ok (with_ptr (f_ptr f) (f_stream f) w f)
  | SWriteData j =>
      v ← from_option_or OutOfBounds (f_vars f !! j);
      a ← from_option_or OutOfBounds (f_args f !! j);
      if nullAllowed v && is_null a then Ok f
      else
        data ← match writeExpression v with
               | Some e => Ok (e (f_args f))
               | None => arg_bytes a (f_sizes f !!! j)
               end;
        '(_, w) ← writeFully data (f_stream f) (f_world f);
        Ok (with_ptr (f_ptr f) (f_stream f) w f)
  | SReadback j =>
      v ← from_option_or OutOfBounds (f_vars f !! j);
      a ← from_option_or OutOfBounds (f_args f !! j);
      if nullAllowed v && is_null a then Ok f
      else
        '(_, b, s, w) ← readback (match a with Ptr p => p | Num _ => None end) (f_sizes f !!! j)
                                 (f_stream f) (f_world f);
        Ok (mkFrame (f_opcode f) (f_vars f) (<[j := Ptr b]> (f_args f)) (f_sizes f) (f_ptr f) s w (f_ret f))
  | SReturn n =>
      '(_, b, s, w) ← readback (Some (fresh_block n (f_world f))) n (f_stream f) (f_world f);
      Ok (mkFrame (f_opcode f) (f_vars f) (f_args f) (f_sizes f) (f_ptr f) s w
            (Some (le_value (default [] b))))
  end.

(** A call of the generated function: the sizes are computed first. *)
Definition call_encoder (op : Z) (e : EntryPoint) (args : list arg) (s : Stream) (w : World) : result Frame :=
  foldM exec (mkFrame op (e_vars e) args (zip_with (var_size args) (e_vars e) args) None s w None)
    (genEncoderImpl e).

End Execution.

(** ** The decoder: statements *)

(** An offset from the start of the packet, as it is built up. *)
Inductive off := Header | Plus (o : off) (n : Z) | PlusSize (o : off).

(** What is passed for a variable: [*(T* )(ptr + o)], a pointer behind a size in
    the packet, or one into the temporary buffer; the flag says that a size of 0
    passes NULL. *)
Inductive darg := AVal (bytes : Z) (o : off) | AIn (null : bool) (o : off) | AOut (null : bool) (j : nat).

Inductive dstmt :=
  | DTmpSize (j : nat) (o : off)        (** [size_t tmpPtr_jSize = *(unsigned int * )(ptr + o)] *)
  | DTotal (first : bool) (j : nat)     (** [totalTmpSize] is, or grows by, [tmpPtr_jSize] *)
  | DTotalRet (first : bool) (n : Z)    (** the same with the size of the result *)
  | DAlloc                              (** [tmpBuf = stream->alloc(totalTmpSize)] *)
  | DTmpPtr (j : nat) (before : list nat)  (** [tmpPtr_j = &tmpBuf[0 + ...]] *)
  | DCall (ret : option (Z * list nat)) (args : list darg)
  | DFlush
  | DAdvance.

Definition next_off (v : Var) (o : off) : off :=
  if isVoid v then o
  else if negb (isPointer v) then Plus o (v_bytes v)
  else if is_in v then PlusSize o else Plus o 4.

(** A pass over the variables: each with its index, its offset and the indices
    of the out variables in front of it. *)
Fixpoint pass {A} (f : nat -> Var -> off -> list nat -> list A) (j : nat) (o : off) (outs : list nat)
  (vs : list Var) : list A :=
  match vs with
  | [] => []
  | v :: vs =>
      f j v o outs ++
      pass f (S j) (next_off v o)
        (if isPointer v && negb (is_in v) then outs ++ [j] else outs) vs
  end.

Definition out_indices (vs : list Var) : list nat :=
  (indexed vs) ≫= fun jv => if isPointer (snd jv) && negb (is_in (snd jv)) then [fst jv] else [].

Definition tmp_stmts (j : nat) (v : Var) (o : off) (outs : list nat) : list dstmt :=
  if isPointer v && negb (is_in v)
  then [DTmpSize j o; DTotal (match outs with [] => true | _ => false end) j] else [].

Definition mem_stmts (j : nat) (v : Var) (o : off) (outs : list nat) : list dstmt :=
  if isPointer v then
    match pointerDir v with
    | POINTER_INOUT => [DTmpSize j o]
    | POINTER_IN => []
    | POINTER_OUT => [DTmpPtr j outs]
    end
  else [].

Definition call_args (j : nat) (v : Var) (o : off) (outs : list nat) : list darg :=
  if isVoid v then []
  else if negb (isPointer v) then [AVal (v_bytes v) o]
  else if is_in v then [AIn (nullAllowed v) o] else [AOut (nullAllowed v) j].

(** A case of the switch, pass by pass. *)
Definition genDecoderCase (e : EntryPoint) : list dstmt :=
  let vs := e_vars e in
  let outs := out_indices vs in
  let exist := negb (Nat.eqb (length outs) 0) in
  let ret := match e_retval e with RValue n => Some n | _ => None end in
  pass tmp_stmts 0 Header [] vs ++
  (match ret with Some n => [DTotalRet (negb exist) n] | None => [] end) ++
  (if exist || bool_decide (is_Some ret) then [DAlloc] else []) ++
  pass mem_stmts 0 Header [] vs ++
  [DCall ((fun n => (n, outs)) <$> ret) (pass call_args 0 Header [] vs)] ++
  (if exist || bool_decide (is_Some ret) then [DFlush] else []) ++
  [DAdvance].

(** ** The decoder: execution *)

(** What a function sees of its arguments: a number, the rest of the packet
    from its data on (or NULL), a place for results (or NULL). *)
Inductive harg := HNum (z : Z) | HIn (p : option (list Z)) | HOut (null : bool).

Section Decoding.
Context {T : Transport} {S : Type}.

(** The functions of a decoder: from the opcode, the arguments and the state of
    the host, what is stored at each out pointer, the result, the new state. *)
Variable call : Z -> list harg -> S -> result (list (list Z) * Z * S).

Record DFrame := mkDFrame {
  d_sizes : gmap nat Z;
  d_total : Z;
  d_buf : option (Z * Z);
  d_outs : gmap nat (option (Z * Z));
  d_pos : Z;
  d_stream : Stream;
  d_world : World;
  d_host : S }.

Definition read_u32 (mem : list Z) (p : Z) : result Z :=
  bs ← read_block mem p 4; Ok (u32 (le_value bs)).

(** Offsets are [unsigned int]. *)
Fixpoint eval_off (mem : list Z) (ptr : Z) (o : off) : result Z :=
  match o with
  | Header => Ok 8
  | Plus o n => x ← eval_off mem ptr o; Ok (u32 (x + n))
  | PlusSize o =>
      x ← eval_off mem ptr o; n ← read_u32 mem (ptr + x); Ok (u32 (x + 4 + n))
  end.

Definition sum_sizes (sizes : gmap nat Z) (js : list nat) : Z :=
  foldr (fun j n => default 0 (sizes !! j) + n) 0 js.

Definition at_ptr (p : option (Z * Z)) (n : Z) : option (Z * Z) :=
  (fun '(a, off) => (a, off + n)) <$> p.

(** Evaluation of an argument; the view of an in pointer ends with the packet. *)
Definition eval_arg (mem : list Z) (ptr packetLen : Z) (f : DFrame) (a : darg) : result harg :=
  match a with
  | AVal n o =>
      x ← eval_off mem ptr o; bs ← read_block mem (ptr + x) n; Ok (HNum (le_value bs))
  | AIn null o =>
      x ← eval_off mem ptr o;
      n ← (if (null : bool) then read_u32 mem (ptr + x) else Ok 1);
      if n =? 0 then Ok (HIn None)
      else Ok (HIn (Some (drop (Z.to_nat (ptr + x + 4)) (take (Z.to_nat (ptr + packetLen)) mem))))
  | AOut null j => Ok (HOut ((null : bool) && (default 0 (d_sizes f !! j) =? 0)))
  end.

Definition out_js (args : list darg) : list nat :=
  args ≫= fun a => match a with AOut _ j => [j] | _ => [] end.

(** What the called function stores through an out pointer. *)
Definition store_out (f : DFrame) (w : World) (jd : nat * list Z) : result World :=
  let '(j, data) := jd in
  match data with
  | [] => Ok w
  | _ =>
      '(a, off) ← from_option_or NullDeref (default None (d_outs f !! j));
      store a off data w
  end.

Fixpoint eval_args (mem : list Z) (ptr packetLen : Z) (f : DFrame) (l : list darg) : result (list harg) :=
  match l with
  | [] => Ok []
  | a :: l =>
      h ← eval_arg mem ptr packetLen f a; hs ← eval_args mem ptr packetLen f l; Ok (h :: hs)
  end.

Definition dexec (op : Z) (mem : list Z) (ptr packetLen : Z) (f : DFrame) (i : dstmt) : result DFrame :=
  match i with
  | DTmpSize j o =>
      x ← eval_off mem ptr o; n ← read_u32 mem (ptr + x);
      Ok (mkDFrame (<[j := n]> (d_sizes f)) (d_total f) (d_buf f) (d_outs f) (d_pos f) (d_stream f) (d_world f) (d_host f))
  | DTotal first j =>
      Ok (mkDFrame (d_sizes f) ((if (first : bool) then 0 else d_total f) + default 0 (d_sizes f !! j)) (d_buf f)
            (d_outs f) (d_pos f) (d_stream f) (d_world f) (d_host f))
  | DTotalRet first n =>
      Ok (mkDFrame (d_sizes f) ((if (first : bool) then 0 else d_total f) + n) (d_buf f) (d_outs f) (d_pos f)
            (d_stream f) (d_world f) (d_host f))
  | DAlloc =>
      '(p, s, w) ← alloc (size_t (d_total f)) (d_stream f) (d_world f);
      Ok (mkDFrame (d_sizes f) (d_total f) p (d_outs f) (d_pos f) s w (d_host f))
  | DTmpPtr j before =>
      Ok (mkDFrame (d_sizes f) (d_total f) (d_buf f)
            (<[j := at_ptr (d_buf f) (sum_sizes (d_sizes f) before)]> (d_outs f)) (d_pos f)
            (d_stream f) (d_world f) (d_host f))
  | DCall ret args =>
      hs ← eval_args mem ptr packetLen f args;
      '(outs, r, h) ← call op hs (d_host f);
      w ← foldM (store_out f) (d_world f) (zip (out_js args) outs);
      w ← match ret with
          | None => Ok w
          | Some (n, before) =>
              '(a, off) ← from_option_or NullDeref (d_buf f);
              store a (off + sum_sizes (d_sizes f) before) (le_bytes (Z.to_nat n) r) w
          end;
      Ok (mkDFrame (d_sizes f) (d_total f) (d_buf f) (d_outs f) (d_pos f) (d_stream f) w h)
  | DFlush =>
      '(_, s, w) ← flush (d_stream f) (d_world f);
      Ok (mkDFrame (d_sizes f) (d_total f) (d_buf f) (d_outs f) (d_pos f) s w (d_host f))
  | DAdvance =>
      bs ← read_block mem (ptr + 4) 4;
      Ok (mkDFrame (d_sizes f) (d_total f) (d_buf f) (d_outs f) (size_t (d_pos f + s32 (le_value bs)))
            (d_stream f) (d_world f) (d_host f))
  end.

(** The loop over packets of [decode]: [mem] is the memory from [buf] on, of
    which [n] bytes are valid; [ptr] is [buf + pos]. *)
Fixpoint decode_loop (fuel : nat) (base : Z) (api : list EntryPoint) (mem : list Z) (n pos : Z)
  (s : Stream) (w : World) (h : S) : result (Z * Stream * World * S) :=
  match fuel with
  | O => Err OutOfFuel
  | Datatypes.S fuel =>
      if 8 <=? size_t (n - pos) then
        bs ← read_block mem pos 4;
        let opcode := s32 (le_value bs) in
        packetLen ← read_u32 mem (pos + 4);
        if size_t (n - pos) <? packetLen then Ok (pos, s, w, h)
        else
          match api !! Z.to_nat (opcode - base), base <=? opcode with
          | Some e, true =>
              f ← foldM (dexec opcode mem pos packetLen) (mkDFrame ∅ 0 None ∅ pos s w h) (genDecoderCase e);
              decode_loop fuel base api mem n (d_pos f) (d_stream f) (d_world f) (d_host f)
          | _, _ => Ok (pos, s, w, h)
          end
      else Ok (pos, s, w, h)
  end.

Definition decode (base : Z) (api : list EntryPoint) (mem : list Z) (n : Z)
  (s : Stream) (w : World) (h : S) : result (Z * Stream * World * S) :=
  if n <? 8 then Ok (0, s, w, h)
  else decode_loop (Datatypes.S (Z.to_nat n)) base api mem n 0 s w h.

End Decoding.

(** ** What an encoder sends *)

(** The bytes that stand for a variable. *)
Definition var_data (args : list arg) (v : Var) (a : arg) : list Z :=
  if nullAllowed v && is_null a then []
  else match (if isLarge v then writeExpression v else packExpression v) with
       | Some e => e args
       | None => match a with Ptr (Some b) => take (Z.to_nat (var_size args v a)) b | _ => [] end
       end.

Definition enc_var (args : list arg) (v : Var) (a : arg) : list Z :=
  if isPointer v then le_bytes 4 (var_size args v a) ++ (if is_in v then var_data args v a else [])
  else le_bytes (Z.to_nat (v_bytes v)) (match a with Num z => z | Ptr _ => 0 end).

(** An argument that fits its parameter: numbers of the width, pointers to as
    many bytes as the length expression says, data of that length. *)
Definition fits (args : list arg) (v : Var) (a : arg) : Prop :=
  if isPointer v then
    pointerDir v <> POINTER_INOUT /\ (isLarge v = true -> pointerDir v = POINTER_IN) /\
    0 <= lenExpression v args < 2 ^ 31 /\
    (exists p, a = Ptr p) /\
    (if nullAllowed v && is_null a then True
     else (pointerDir v = POINTER_IN -> len (var_data args v a) = var_size args v a) /\
          (forall b, a = Ptr (Some b) -> var_size args v a <= len b) /\
          (a = Ptr None -> pointerDir v = POINTER_IN /\
             exists e, (if isLarge v then writeExpression v else packExpression v) = Some e))
  else isLarge v = false /\ 0 <= v_bytes v /\ exists z, a = Num z /\ 0 <= z < 256 ^ v_bytes v.

(** A result is not announced in front of a large variable. *)
Fixpoint outs_last (vs : list Var) : Prop :=
  match vs with
  | [] => True
  | v :: vs => (isPointer v && negb (is_in v) = true -> Forall (fun v' => isLarge v' = false) vs) /\ outs_last vs
  end.

(** Room that packets reserve for results, and that carries nothing. *)
Definition out_room (args : list arg) (v : Var) (a : arg) : Z :=
  if isPointer v && negb (is_in v) then var_size args v a else 0.

Definition Zsum (l : list Z) : Z := foldr Z.add 0 l.

Lemma Zsum_app l1 l2 : Zsum (l1 ++ l2) = Zsum l1 + Zsum l2.
Proof. unfold Zsum. induction l1; simpl; lia. Qed.

Lemma len_app l1 l2 : len (l1 ++ l2) = len l1 + len l2.
Proof. unfold len. rewrite length_app. lia. Qed.

Lemma var_size_range args v a : fits args v a -> 0 <= var_size args v a /\ (isPointer v = true -> var_size args v a < 2 ^ 31).
Proof.
  unfold fits, var_size. destruct (isPointer v).
  - intros (_ & _ & Hl & _). destruct (nullAllowed v && is_null a); [lia|]. rewrite u32_small by lia. lia.
  - intros (_ & Hb & _). split; [lia|done].
Qed.

(** The data that the statements find are those of the encoding. *)
Lemma fits_data args v a :
  fits args v a -> isPointer v = true -> is_in v = true -> nullAllowed v && is_null a = false ->
  (match (if isLarge v then writeExpression v else packExpression v) with
   | Some e => Ok (e args) | None => arg_bytes a (var_size args v a) end) = Ok (var_data args v a) /\
  len (var_data args v a) = var_size args v a.
Proof.
  intros Hf Hp Hi Hn. pose proof (var_size_range args v a Hf) as [Hs _]. unfold fits in Hf. rewrite Hp, Hn in Hf.
  destruct Hf as (Hio & _ & _ & (p & ->) & Hd & Hb & He).
  assert (Hin : pointerDir v = POINTER_IN) by (unfold is_in in Hi; by destruct (pointerDir v)).
  split; [|by apply Hd]. unfold var_data. rewrite Hn.
  destruct (if isLarge v then writeExpression v else packExpression v); [done|].
  destruct p as [b|].
  - simpl. unfold read_block. specialize (Hb b eq_refl). rewrite decide_True by (unfold len in *; lia).
    unfold slice. by rewrite drop_0.
  - destruct (He eq_refl) as (_ & e & ?). done.
Qed.

Lemma enc_var_length args v a :
  fits args v a ->
  len (enc_var args v a) + out_room args v a = (if isPointer v then 4 else 0) + var_size args v a.
Proof.
  intros Hf. unfold enc_var, out_room. destruct (isPointer v) eqn:Hp.
  - rewrite len_app. unfold len at 1. rewrite le_bytes_length. destruct (is_in v) eqn:Hi; simpl andb; cbv iota.
    + assert (len (var_data args v a) = var_size args v a); [|lia].
      destruct (nullAllowed v && is_null a) eqn:Hn; [|by apply fits_data].
      unfold var_data, var_size. by rewrite Hn, Hp.
    + unfold len. simpl. lia.
  - simpl. unfold len. rewrite le_bytes_length. unfold fits in Hf. rewrite Hp in Hf.
    unfold var_size. rewrite Hp. lia.
Qed.

(** ** Streams being filled *)

Section Filling.
Context {T : Transport} {L : TransportLaws T}.

(** The bytes produced so far are [before]; with [k] bytes of room behind the
    pointer, at which the next ones go. *)
Definition filling (p : Z * Z) (k : Z) (before : list Z) (s : Stream) (w : World) : Prop :=
  stream_ok s w /\ steady w /\ io_buf s = Some (fst p) /\ io_bufsize s - io_free s = snd p + k /\
  exists b, w_blocks w !! fst p = Some b /\ 0 <= snd p /\ 0 <= k /\ snd p + k <= len b /\
    w_sent w ++ take (Z.to_nat (snd p)) b = before.

Definition produced (before : list Z) (s : Stream) (w : World) : Prop :=
  stream_ok s w /\ steady w /\ w_sent w ++ pending s w = before.

Lemma filling_store p k before s w data :
  filling p k before s w -> len data <= k ->
  exists w', store (fst p) (snd p) data w = Ok w' /\ same_input w w' /\
    filling (fst p, snd p + len data) (k - len data) (before ++ data) s w'.
Proof.
  destruct p as [a o]. intros (H & Hw & Ea & Hend & b & Eb & Ho & Hk & Hb & Es) Hn. simpl in *.
  assert (Hlen : 0 <= len data) by (unfold len; lia).
  destruct (store_ok a o data s w b) as [Hst Hok]; [done..|lia|].
  eexists. split; [exact Hst|]. split; [done|].
  split; [done|]. split; [done|]. simpl. split; [done|]. split; [lia|].
  exists (over b o data). rewrite lookup_insert_eq. split; [done|]. split; [lia|]. split; [lia|]. split.
  - unfold len. rewrite over_length by lia. fold (len b). lia.
  - rewrite <-Es, <-app_assoc. f_equal. unfold over.
    replace (Z.to_nat (o + len data)) with (length (take (Z.to_nat o) b ++ data))
      by (rewrite length_app, length_take; unfold len in *; lia).
    by rewrite app_assoc, take_app_length.
Qed.

Lemma filling_produced p k before s w :
  filling p k before s w -> exists stale, len stale = k /\ produced (before ++ stale) s w.
Proof.
  destruct p as [a o]. intros (H & Hw & Ea & Hend & b & Eb & Ho & Hk & Hb & <-). simpl in *.
  exists (take (Z.to_nat k) (drop (Z.to_nat o) b)). split.
  - unfold len in *. rewrite length_take, length_drop. lia.
  - split; [done|]. split; [done|]. unfold pending. rewrite Ea, Eb, Hend. simpl.
    rewrite <-app_assoc. f_equal. rewrite take_take_drop. f_equal. lia.
Qed.

Lemma steady_suffix w w' :
  steady w -> w_out w' `suffix_of` w_out w -> w_mem w' = w_mem w -> steady w'.
Proof. intros [H1 H2] [l E] Em. rewrite E in H1. apply Forall_app in H1 as [_ ?]. split; [done|by rewrite Em]. Qed.

Lemma produced_alloc before n s w :
  produced before s w -> 0 <= n < 2 ^ 31 ->
  exists p s' w', alloc n s w = Ok (Some p, s', w') /\ same_input w w' /\ filling p n before s' w'.
Proof.
  intros (H & [Hw Hm] & Hb) Hn. destruct (alloc_ok n s w H Hn) as (p & s' & w' & -> & R1 & R2 & R3 & R4 & R5).
  destruct (R5 Hm) as [Hm' Hp]. destruct p as [p|]; [|by destruct (Hp Hw)].
  exists p, s', w'. split; [done|]. split; [done|]. destruct p as [a o].
  destruct R4 as (b & Ea & Eb & Ho & Hend & Hlen & Es). split; [done|]. split.
  { split; [|done]. destruct R3 as [l E]. rewrite E in Hw. by apply Forall_app in Hw as [_ ?]. }
  simpl. split; [done|]. split; [lia|]. exists b. split_and!; try done; [lia|]. by rewrite Es.
Qed.

Lemma produced_flush before s w :
  produced before s w ->
  exists r s' w', flush s w = Ok (r, s', w') /\ same_input w w' /\ produced before s' w' /\ flushed s'.
Proof.
  intros (H & Hst & Hb). destruct (flush_sends s w H) as (r & k & o & s' & -> & H' & Hf & Ho & Hr & Hw).
  eexists _, _, _. split; [reflexivity|]. split; [done|]. split; [|done]. split; [by apply stream_ok_sent|].
  split; [by apply (steady_suffix w)|]. rewrite (flushed_pending s' _ Hf), app_nil_r. simpl.
  destruct Hr as [[_ ->]|]; [done|]. specialize (Hw (proj1 Hst)). lia.
Qed.

Lemma produced_write before data s w :
  produced before s w -> flushed s ->
  exists r w', writeFully data s w = Ok (r, w') /\ same_input w w' /\ produced (before ++ data) s w'.
Proof.
  intros (H & Hst & Hb) Hf. destruct (write_law data s w (ok_sock _ _ H)) as (r & k & o & -> & Ho & Hr & Hw).
  eexists _, _. split; [reflexivity|]. split; [done|]. split; [by apply stream_ok_sent|].
  split; [by apply (steady_suffix w)|]. rewrite flushed_pending in * by done. simpl. rewrite app_nil_r in *.
  destruct Hr as [[_ ->]|]; [by rewrite firstn_all, Hb|]. specialize (Hw (proj1 Hst)). lia.
Qed.

Lemma same_input_trans w1 w2 w3 : same_input w1 w2 -> same_input w2 w3 -> same_input w1 w3.
Proof. unfold same_input. intros [] []. split; congruence. Qed.

End Filling.

Section Encoding.
Context {T : Transport} {L : TransportLaws T}.
Variables (op : Z) (vars : list Var) (args : list arg).

Definition sizes : list Z := zip_with (var_size args) vars args.
Definition frame p s w := mkFrame op vars args sizes p s w None.

Definition arg_at (j : nat) : arg := default (Num 0) (args !! j).
Definition enc (jv : nat * Var) : list Z := enc_var args (snd jv) (arg_at (fst jv)).
Definition slack (jv : nat * Var) : Z := out_room args (snd jv) (arg_at (fst jv)).

Lemma filling_put p k before s w data n :
  filling p k before s w -> len data = n -> n <= k ->
  exists w', put_bytes data n (frame (Some p) s w) = Ok (frame (Some (fst p, snd p + n)) s w') /\
    same_input w w' /\ filling (fst p, snd p + n) (k - n) (before ++ data) s w'.
Proof.
  intros Hf <- Hn. destruct (filling_store p k before s w data Hf Hn) as (w' & Hst & I & F).
  destruct p as [a o]. unfold put_bytes. simpl in *. rewrite Hst. simpl. by eexists.
Qed.

Lemma exec_alloc before ts n s w p0 :
  produced before s w -> eval_terms sizes ts = n -> 0 <= n < 2 ^ 31 ->
  exists p s' w', exec (frame p0 s w) (SAlloc ts) = Ok (frame (Some p) s' w') /\
    same_input w w' /\ filling p n before s' w'.
Proof.
  intros Hp Et Hn. unfold exec. change (f_sizes (frame p0 s w)) with sizes. rewrite Et.
  cbn [frame f_stream f_world]. destruct (produced_alloc before n s w Hp Hn) as (p & s' & w' & -> & H).
  by eexists _, _, _.
Qed.

(** A variable with its argument. *)
Definition good (jv : nat * Var) : Prop :=
  vars !! fst jv = Some (snd jv) /\ args !! fst jv = Some (arg_at (fst jv)) /\ fits args (snd jv) (arg_at (fst jv)).

Lemma good_size j v : good (j, v) -> sizes !!! j = var_size args v (arg_at j).
Proof.
  intros (Hv & Ha & _). simpl in *. unfold sizes. rewrite list_lookup_total_alt, lookup_zip_with, Hv, Ha. done.
Qed.

(** The statements of a variable that is copied. *)
Lemma write_var_ok jv p k before s w :
  good jv -> isLarge (snd jv) = false -> filling p k before s w -> len (enc jv) <= k ->
  exists p' w', foldM exec (frame (Some p) s w) (writeVarEncodingExpression jv) = Ok (frame (Some p') s w') /\
    same_input w w' /\ filling p' (k - len (enc jv)) (before ++ enc jv) s w'.
Proof.
  destruct jv as [j v]. intros G Hl Hf Hk. pose proof (good_size j v G) as Hs.
  destruct G as (Hv & Ha & Hfit). unfold enc, enc_var in *. cbn [fst snd writeVarEncodingExpression] in *.
  destruct (isPointer v) eqn:Hp.
  - rewrite len_app in Hk. assert (H4 : len (le_bytes 4 (var_size args v (arg_at j))) = 4)
      by (unfold len; by rewrite le_bytes_length).
    rewrite H4 in Hk. assert (0 <= len (if is_in v then var_data args v (arg_at j) else [])) by (unfold len; lia).
    edestruct (filling_put p k before s w _ 4 Hf H4) as (w1 & E1 & I1 & F1); [lia|].
    cbn [foldM exec frame f_sizes]. rewrite Hs. change (mkFrame op vars args sizes (Some p) s w None) with (frame (Some p) s w).
    rewrite E1. cbn [mbind result_bind]. destruct (is_in v) eqn:Hi; cbn [foldM].
    2: { eexists _, w1. split; [reflexivity|]. split; [done|]. rewrite app_nil_r, H4. done. }
    unfold exec at 1. cbn [frame f_vars f_args]. rewrite Hv, Ha. cbn [from_option_or mbind result_bind f_sizes].
    change (f_sizes (frame (Some (p.1, p.2 + 4)) s w1)) with sizes. rewrite Hs.
    destruct (nullAllowed v && is_null (arg_at j)) eqn:Hn.
    + assert (Hz : var_size args v (arg_at j) = 0) by (unfold var_size; by rewrite Hp, Hn).
      assert (Hd : var_data args v (arg_at j) = []) by (unfold var_data; by rewrite Hn).
      rewrite Hz, Hd. edestruct (filling_put _ _ _ s w1 [] 0 F1) as (w2 & E2 & I2 & F2); [done|rewrite Hd in *; unfold len in *; simpl in *; lia|].
      rewrite E2. cbn [mbind result_bind]. eexists _, w2. split; [reflexivity|]. split; [by eapply same_input_trans|].
      rewrite Hz in *. rewrite app_nil_r, H4. by rewrite app_nil_r, Z.sub_0_r in F2.
    + destruct (fits_data args v (arg_at j)) as [Hd Hdl]; try done. rewrite Hl in Hd. cbn [f_args].
      rewrite Hd. cbn [mbind result_bind].
      edestruct (filling_put _ _ _ s w1 (var_data args v (arg_at j)) _ F1 Hdl) as (w2 & E2 & I2 & F2); [lia|].
      rewrite E2. cbn [mbind result_bind]. eexists _, w2. split; [reflexivity|]. split; [by eapply same_input_trans|].
      rewrite len_app, H4, Hdl, app_assoc.
      by replace (k - (4 + var_size args v (arg_at j))) with (k - 4 - var_size args v (arg_at j)) by lia.
  - unfold fits in Hfit. rewrite Hp in Hfit. destruct Hfit as (_ & Hb & z & Hz & _). rewrite Hz in *.
    assert (Hlen : len (le_bytes (Z.to_nat (v_bytes v)) z) = v_bytes v) by (unfold len; rewrite le_bytes_length; lia).
    unfold isVoid. rewrite Hp. simpl negb. rewrite andb_true_r. destruct (Z.eqb_spec (v_bytes v) 0) as [E0|Hne]; cbn [negb foldM].
    + rewrite E0. simpl. eexists p, w. rewrite app_nil_r. unfold len. simpl. rewrite Z.sub_0_r. done.
    + unfold exec at 1. cbn [frame f_vars f_args]. rewrite Hv, Ha. cbn [from_option_or mbind result_bind].
      edestruct (filling_put p k before s w _ _ Hf Hlen) as (w1 & E1 & I1 & F1); [lia|].
      change (mkFrame op vars args sizes (Some p) s w None) with (frame (Some p) s w). rewrite E1.
      cbn [mbind result_bind]. eexists _, w1. split; [reflexivity|]. split; [done|]. by rewrite Hlen.
Qed.

Definition encs (vs : list (nat * Var)) : list Z := concat (enc <$> vs).
Definition slacks (vs : list (nat * Var)) : Z := Zsum (slack <$> vs).

Lemma encs_cons jv vs : encs (jv :: vs) = enc jv ++ encs vs.
Proof. done. Qed.

Lemma encs_app vs1 vs2 : encs (vs1 ++ vs2) = encs vs1 ++ encs vs2.
Proof. unfold encs. by rewrite fmap_app, concat_app. Qed.

Lemma write_vars_ok vs p k before s w :
  Forall good vs -> Forall (fun jv => isLarge jv.2 = false) vs -> filling p k before s w -> len (encs vs) <= k ->
  exists p' w', foldM exec (frame (Some p) s w) (vs ≫= writeVarEncodingExpression) = Ok (frame (Some p') s w') /\
    same_input w w' /\ filling p' (k - len (encs vs)) (before ++ encs vs) s w'.
Proof.
  intros Hg. revert p k before w. induction Hg as [|jv vs G Hg IH]; intros p k before w Hl Hf Hk.
  - exists p, w. split; [done|]. split; [done|]. change (encs []) with (@nil Z) in *. change (len []) with 0.
    by rewrite app_nil_r, Z.sub_0_r.
  - rewrite encs_cons, len_app in Hk. inversion Hl as [|? ? Hl1 Hl2]; subst.
    assert (0 <= len (encs vs)) by (unfold len; lia). rewrite bind_cons, foldM_app.
    destruct (write_var_ok jv p k before s w) as (p1 & w1 & -> & I1 & F1); [done|done|done|lia|]. cbn [mbind result_bind].
    destruct (IH p1 (k - len (enc jv)) (before ++ enc jv) w1) as (p2 & w2 & E2 & I2 & F2); [done|done|lia|].
    exists p2, w2. split; [done|]. split; [by eapply same_input_trans|].
    rewrite encs_cons, len_app, app_assoc.
    by replace (k - (len (enc jv) + len (encs vs))) with (k - len (enc jv) - len (encs vs)) by lia.
Qed.

Lemma exec_write_size j p s w :
  exec (frame p s w) (SWriteSize j) =
  ('(_, w) ← writeFully (le_bytes 4 (sizes !!! j)) s w; Ok (frame p s w)).
Proof. done. Qed.

Lemma exec_write_data j v a p s w :
  vars !! j = Some v -> args !! j = Some a ->
  exec (frame p s w) (SWriteData j) =
  (if nullAllowed v && is_null a then Ok (frame p s w)
   else data ← match writeExpression v with Some e => Ok (e args) | None => arg_bytes a (sizes !!! j) end;
        '(_, w) ← writeFully data s w; Ok (frame p s w)).
Proof. intros Hv Ha. unfold exec. simpl. by rewrite Hv, Ha. Qed.

(** The statements of a large variable. *)
Lemma write_large_ok jv before s w p :
  good jv -> isLarge (snd jv) = true -> produced before s w -> flushed s ->
  exists w', foldM exec (frame p s w) (writeVarLargeEncodingExpression jv) = Ok (frame p s w') /\
    same_input w w' /\ produced (before ++ enc jv) s w'.
Proof.
  destruct jv as [j v]. intros G Hl Hp Hf. pose proof (good_size j v G) as Hs. destruct G as (Hv & Ha & Hfit).
  cbn [fst snd writeVarLargeEncodingExpression foldM] in *. unfold enc, enc_var. cbn [fst snd].
  assert (Hptr : isPointer v = true).
  { unfold fits in Hfit. destruct (isPointer v); [done|]. destruct Hfit; congruence. }
  assert (Hi : is_in v = true).
  { unfold fits in Hfit. rewrite Hptr in Hfit. destruct Hfit as (_ & Hd & _). unfold is_in. by rewrite Hd. }
  rewrite Hptr, Hi, exec_write_size, Hs.
  destruct (produced_write before (le_bytes 4 (var_size args v (arg_at j))) s w) as (r1 & w1 & -> & I1 & P1); [done..|].
  cbn [mbind result_bind]. rewrite (exec_write_data j v (arg_at j)) by done.
  destruct (nullAllowed v && is_null (arg_at j)) eqn:Hn.
  - assert (Hd : var_data args v (arg_at j) = []) by (unfold var_data; by rewrite Hn). rewrite Hd, app_nil_r.
    exists w1. done.
  - destruct (fits_data args v (arg_at j)) as [Hd _]; try done. rewrite Hl, <-Hs in Hd. rewrite Hd. cbn [mbind result_bind].
    destruct (produced_write _ (var_data args v (arg_at j)) s w1 P1 Hf) as (r2 & w2 & -> & I2 & P2).
    cbn [mbind result_bind]. exists w2. split; [done|]. split; [by eapply same_input_trans|]. by rewrite app_assoc.
Qed.

Lemma write_larges_ok vs before s w p :
  Forall good vs -> Forall (fun jv => isLarge jv.2 = true) vs -> produced before s w -> flushed s ->
  exists w', foldM exec (frame p s w) (vs ≫= writeVarLargeEncodingExpression) = Ok (frame p s w') /\
    same_input w w' /\ produced (before ++ encs vs) s w'.
Proof.
  intros Hg. revert before w. induction Hg as [|jv vs G Hg IH]; intros before w Hl Hp Hf.
  - exists w. by rewrite app_nil_r.
  - inversion Hl; subst. rewrite bind_cons, foldM_app.
    destruct (write_large_ok jv before s w p) as (w1 & -> & I1 & P1); [done..|]. cbn [mbind result_bind].
    destruct (IH (before ++ enc jv) w1) as (w2 & E2 & I2 & P2); [done..|].
    exists w2. split; [done|]. split; [by eapply same_input_trans|]. by rewrite encs_cons, app_assoc.
Qed.

(** *** Sizes *)

Definition total (vs : list (nat * Var)) : Z := len (encs vs) + slacks vs.

Lemma slack_nonneg jv : good jv -> 0 <= slack jv.
Proof.
  intros (_ & _ & Hf). unfold slack, out_room. destruct (_ && _); [|lia]. by apply var_size_range in Hf as [? _].
Qed.

Lemma slacks_nonneg vs : Forall good vs -> 0 <= slacks vs.
Proof.
  induction 1 as [|jv vs G _ IH]; [done|]. pose proof (slack_nonneg jv G).
  unfold slacks, Zsum in *. cbn [fmap list_fmap foldr]. lia.
Qed.

Lemma npointers_cons jv vs : npointers (jv :: vs) = (if isPointer jv.2 then 1 else 0) + npointers vs.
Proof. unfold npointers. rewrite filter_cons. destruct (isPointer jv.2); case_decide; simpl; done || lia. Qed.

Lemma sum_sizes_of vs :
  Forall good vs -> Zsum (eval_term sizes <$> sizes_of vs) = total vs.
Proof.
  intros Hg. unfold sizes_of. rewrite fmap_app, Zsum_app.
  assert (E : Zsum (eval_term sizes <$> (if 0 <? npointers vs then [Bytes (npointers vs * 4)] else [])) = npointers vs * 4).
  { assert (0 <= npointers vs) by (unfold npointers; lia). destruct (Z.ltb_spec 0 (npointers vs)); unfold Zsum; cbn [fmap list_fmap foldr eval_term]; lia. }
  rewrite E. clear E. induction Hg as [|[j v] vs G Hg IH]; [done|].
  rewrite npointers_cons. unfold total, slacks, encs in *. cbn [fmap list_fmap concat snd]. rewrite len_app.
  change (Zsum (?x :: ?l)) with (x + Zsum l). destruct G as (Hv & Ha & Hf) eqn:EG. cbn [fst snd] in *.
  pose proof (enc_var_length args v (arg_at j) Hf) as Hl.
  assert (Hs : eval_term sizes (writeVarEncodingSize (j, v)) = var_size args v (arg_at j)).
  { unfold writeVarEncodingSize. cbn [fst snd]. destruct (isPointer v) eqn:Hp; [by apply good_size|].
    unfold var_size. by rewrite Hp. }
  rewrite Hs. unfold slack at 1, enc at 1. cbn [fst snd]. destruct (isPointer v); lia.
Qed.

Lemma eval_sizes n vs :
  Forall good vs -> 0 <= n -> n + total vs < 2 ^ 31 ->
  eval_terms sizes (Bytes n :: sizes_of vs) = n + total vs /\ eval_terms sizes (sizes_of vs) = total vs.
Proof.
  intros Hg Hn Hb. pose proof (sum_sizes_of vs Hg) as E. pose proof (slacks_nonneg vs Hg).
  assert (0 <= len (encs vs)) by (unfold len; lia). unfold total in *.
  unfold eval_terms. cbn [fmap list_fmap foldr]. change (foldr Z.add 0) with Zsum. rewrite E. cbn [eval_term].
  rewrite !u32_small by lia. done.
Qed.

Lemma span_spec b vs l r :
  span b vs = (l, r) ->
  vs = l ++ r /\ Forall (fun jv => isLarge jv.2 = b) l /\ match r with [] => True | jv :: _ => isLarge jv.2 = negb b end.
Proof.
  revert l r. induction vs as [|jv vs IH]; intros l r; simpl; [by intros [= <- <-]|].
  destruct (isLarge jv.2) eqn:El, b; simpl; try (destruct (span _ vs) as [l' r'] eqn:E);
    intros [= <- <-]; try (destruct (IH _ _ eq_refl) as (-> & H1 & H2)); auto.
Qed.

Definition header : list Z := le_bytes 4 op ++ le_bytes 4 (eval_terms sizes (packet_terms (indexed vars))).

Lemma write_header_ok p k before s w :
  filling p k before s w -> 8 <= k ->
  exists p' w', exec (frame (Some p) s w) SHeader = Ok (frame (Some p') s w') /\ same_input w w' /\
    filling p' (k - 8) (before ++ header) s w'.
Proof.
  intros Hf Hk. assert (H4 : forall z, len (le_bytes 4 z) = 4) by (intros; unfold len; by rewrite le_bytes_length).
  unfold exec. change (f_opcode (frame (Some p) s w)) with op.
  destruct (filling_put p k before s w _ 4 Hf (H4 op)) as (w1 & -> & I1 & F1); [lia|]. cbn [mbind result_bind].
  change (f_sizes (frame (Some (p.1, p.2 + 4)) s w1)) with sizes.
  change (f_vars (frame (Some (p.1, p.2 + 4)) s w1)) with vars.
  destruct (filling_put _ _ _ s w1 _ 4 F1 (H4 (eval_terms sizes (packet_terms (indexed vars))))) as (w2 & -> & I2 & F2); [lia|].
  eexists _, w2. split; [done|]. split; [by eapply same_input_trans|].
  unfold header. rewrite app_assoc. by replace (k - 8) with (k - 4 - 4) by lia.
Qed.

(** The part of a fragment that is copied into the buffer. *)
Lemma fragment_ok (first : bool) ts small before s w p :
  Forall good small -> Forall (fun jv => isLarge jv.2 = false) small -> produced before s w ->
  eval_terms sizes ts = (if first then 8 else 0) + total small -> eval_terms sizes ts < 2 ^ 31 ->
  exists p' s' w', foldM exec (frame p s w)
      ([SAlloc ts] ++ (if first then [SHeader] else []) ++ (small ≫= writeVarEncodingExpression))
      = Ok (frame (Some p') s' w') /\ same_input w w' /\
    filling p' (slacks small) (before ++ (if first then header else []) ++ encs small) s' w'.
Proof.
  intros Hg Hl Hp Hn Hb. pose proof (slacks_nonneg small Hg). unfold total in Hn.
  assert (0 <= len (encs small)) by (unfold len; lia).
  rewrite foldM_app, foldM_one.
  destruct (exec_alloc before ts _ s w p Hp Hn) as (p1 & s1 & w1 & -> & I1 & F1); [destruct first; lia|].
  cbn [mbind result_bind]. destruct first.
  - rewrite foldM_app, foldM_one.
    destruct (write_header_ok p1 _ before s1 w1 F1) as (p2 & w2 & -> & I2 & F2); [lia|]. cbn [mbind result_bind].
    destruct (write_vars_ok small p2 _ _ s1 w2 Hg Hl F2) as (p3 & w3 & -> & I3 & F3); [lia|].
    exists p3, s1, w3. split; [done|]. split; [by eapply same_input_trans, same_input_trans|].
    rewrite app_assoc. by replace (8 + (len (encs small) + slacks small) - 8 - len (encs small)) with (slacks small) in F3 by lia.
  - cbn [app]. destruct (write_vars_ok small p1 _ _ s1 w1 Hg Hl F1) as (p3 & w3 & -> & I3 & F3); [lia|].
    exists p3, s1, w3. split; [done|]. split; [by eapply same_input_trans|].
    by replace (0 + (len (encs small) + slacks small) - len (encs small)) with (slacks small) in F3 by lia.
Qed.

Lemma total_app vs1 vs2 : total (vs1 ++ vs2) = total vs1 + total vs2.
Proof.
  unfold total, slacks. rewrite encs_app, len_app, fmap_app, Zsum_app. lia.
Qed.

Lemma total_nonneg vs : Forall good vs -> 0 <= slacks vs <= total vs.
Proof. intros H. pose proof (slacks_nonneg vs H). unfold total, len. lia. Qed.

Lemma out_room_large v a : fits args v a -> isLarge v = true -> out_room args v a = 0.
Proof.
  unfold fits, out_room. intros Hf Hl. destruct (isPointer v); [|done].
  destruct Hf as (_ & Hin & _). unfold is_in. by rewrite (Hin Hl).
Qed.

Lemma slacks_large vs : Forall good vs -> Forall (fun jv => isLarge jv.2 = true) vs -> slacks vs = 0.
Proof.
  induction 1 as [|jv vs G _ IH]; intros Hl; [done|]. inversion Hl; subst.
  unfold slacks, Zsum in *. cbn [fmap list_fmap foldr]. rewrite IH by done.
  unfold slack. rewrite out_room_large; [done|apply G|done].
Qed.

(** In front of a large variable no room is reserved for results. *)
Lemma slacks_before_large vs jv rest :
  Forall good vs -> outs_last (snd <$> vs ++ jv :: rest) -> isLarge jv.2 = true -> slacks vs = 0.
Proof.
  intros Hg. induction Hg as [|jv' vs G _ IH]; intros Ho Hl; [done|]. simpl in Ho. destruct Ho as [H1 H2].
  unfold slacks, Zsum in *. cbn [fmap list_fmap foldr]. rewrite IH by done. unfold slack, out_room.
  destruct (isPointer jv'.2 && negb (is_in jv'.2)); [|done]. specialize (H1 eq_refl).
  rewrite fmap_app in H1. apply Forall_app in H1 as [_ H1]. inversion H1; congruence.
Qed.

Lemma outs_last_app vs1 vs2 : outs_last (vs1 ++ vs2) -> outs_last vs2.
Proof. induction vs1; simpl; tauto. Qed.

(** The fragments of a call, from the first or from one in the middle on. *)
Lemma fragments_ok fuel (first : bool) vs before s w p :
  (length vs < fuel)%nat -> Forall good vs -> outs_last (snd <$> vs) ->
  (if first then vs = indexed vars else match vs with [] => False | jv :: _ => isLarge jv.2 = false end) ->
  produced before s w -> 8 + total vs < 2 ^ 31 ->
  exists p' s' w' stale,
    foldM exec (frame p s w) (fragments fuel first (packet_terms (indexed vars)) vs) = Ok (frame p' s' w') /\
    same_input w w' /\ len stale = slacks vs /\
    produced (before ++ (if first then header else []) ++ encs vs ++ stale) s' w'.
Proof.
  revert first vs before s w p. induction fuel as [|fuel IH]; intros first vs before s w p Hf Hg Ho Hfirst Hp Hb; [lia|].
  cbn [fragments]. destruct (span false vs) as [small rest] eqn:E1. destruct (span true rest) as [large rest'] eqn:E2.
  destruct (span_spec _ _ _ _ E1) as (Evs & Hsmall & Hrest). destruct (span_spec _ _ _ _ E2) as (Erest & Hlarge & Hrest').
  assert (Hgs : Forall good small /\ Forall good large /\ Forall good rest').
  { rewrite Evs, Erest, !Forall_app in Hg. tauto. }
  destruct Hgs as (Hg1 & Hg2 & Hg3). pose proof (total_nonneg _ Hg1). pose proof (total_nonneg _ Hg2). pose proof (total_nonneg _ Hg3).
  assert (Ht : total vs = total small + total large + total rest') by (rewrite Evs, Erest, !total_app; lia).
  (* the head of the turn *)
  set (ts := match first, rest with
             | true, [] => packet_terms (indexed vars)
             | true, _ => Bytes 8 :: match small with [] => [] | _ => sizes_of small end
             | false, _ => sizes_of small
             end).
  assert (Hts : eval_terms sizes ts = (if first then 8 else 0) + total small).
  { destruct (eval_sizes 8 small) as [H8 H80]; [done|lia|lia|]. subst ts. destruct first; [|by rewrite H80].
    destruct rest as [|jv rest].
    - rewrite app_nil_r in Evs. unfold packet_terms. by rewrite <-Hfirst, Evs.
    - destruct small; [done|exact H8]. }
  destruct (fragment_ok first ts small before s w p Hg1 Hsmall Hp Hts) as (p1 & s1 & w1 & E3 & I1 & F1);
    [destruct first; lia|].
  assert (Ehead : match first with
                  | true => true
                  | false => match small with [] => false | _ => true end
                  end = true).
  { destruct first; [done|]. destruct small; [|done]. destruct vs as [|jv vs]; [done|].
    simpl in Evs. subst rest. simpl in Hrest; congruence. }
  match goal with |- context [foldM exec _ ?l] => assert (El : l =
      (([SAlloc ts] ++ (if first then [SHeader] else []) ++ (small ≫= writeVarEncodingExpression)) ++
       (match rest with [] => [] | _ => [SFlush] end) ++ (large ≫= writeVarLargeEncodingExpression)) ++
       match rest' with [] => [] | _ => fragments fuel false (packet_terms (indexed vars)) rest' end) end.
  { destruct first.
    - rewrite <-!app_assoc. destruct vs; reflexivity.
    - destruct small; [done|]. destruct vs; [done|]. rewrite <-!app_assoc. reflexivity. }
  rewrite El, foldM_app, foldM_app, E3. clear El. cbn [mbind result_bind].
  destruct rest as [|jv rest].
  - destruct large; [|done]. destruct rest'; [|done]. cbn.
    destruct (filling_produced _ _ _ _ _ F1) as (stale & Hs & P1).
    rewrite app_nil_r in Evs. subst small. eexists _, s1, w1, stale. split; [reflexivity|]. split_and!; try done.
    by rewrite !app_assoc in *.
  - assert (Hz : slacks small = 0).
    { apply (slacks_before_large small jv rest); [done|by rewrite <-Evs|done]. }
    destruct (filling_produced _ _ _ _ _ F1) as (stale & Hs & P1).
    assert (stale = []) as -> by (apply nil_length_inv; unfold len in *; lia). rewrite app_nil_r in P1.
    rewrite foldM_app, foldM_one. cbn [exec]. cbn [frame f_stream f_world].
    destruct (produced_flush _ s1 w1 P1) as (r & s2 & w2 & -> & I2 & P2 & F2). cbn [mbind result_bind].
    change (with_ptr (f_ptr _) s2 w2 _) with (frame (Some p1) s2 w2).
    destruct (write_larges_ok large _ s2 w2 (Some p1) Hg2 Hlarge P2 F2) as (w3 & -> & I3 & P3). cbn [mbind result_bind].
    assert (Hzl : slacks large = 0) by by apply slacks_large.
    destruct rest' as [|jv' rest'].
    + eexists _, s2, w3, []. split; [reflexivity|]. split; [by eapply same_input_trans, same_input_trans|].
      rewrite app_nil_r in *. unfold slacks in *. rewrite Evs, Erest, fmap_app, Zsum_app, Hz, Hzl. split; [done|].
      rewrite encs_app. by rewrite <-!app_assoc in *.
    + destruct (IH false (jv' :: rest') ((before ++ (if first then header else []) ++ encs small) ++ encs large) s2 w3 (Some p1)) as (p4 & s4 & w4 & stale & -> & I4 & Hs4 & P4);
        [|done|..|exact P3| |].
      * rewrite Evs, Erest, !length_app in Hf. destruct large; [simpl in *; congruence|]. simpl in *. lia.
      * rewrite Evs, Erest, app_assoc, fmap_app in Ho. by eapply outs_last_app.
      * done.
      * lia.
      * eexists _, s4, w4, stale. split; [reflexivity|]. split; [by eapply same_input_trans, same_input_trans, same_input_trans|].
        rewrite Evs, Erest. unfold slacks in *. rewrite !fmap_app, !Zsum_app, Hz, Hzl, Hs4. split; [lia|].
        rewrite !encs_app. cbn [app] in P4. by rewrite <-!app_assoc in *.
Qed.

(** *** Reading the answer *)

(** The bytes that come back for each out pointer. *)
Variable results : nat -> list Z.

Definition is_result (jv : nat * Var) : bool := isPointer jv.2 && is_out jv.2.
Definition back (jv : nat * Var) : list Z := if is_result jv then results jv.1 else [].
Definition backs (vs : list (nat * Var)) : list Z := concat (back <$> vs).

(** As many as there is room for. *)
Definition answered (jv : nat * Var) : Prop := len (back jv) = slack jv.

(** The caller's memory afterwards. *)
Definition set_result (args' : list arg) (jv : nat * Var) : list arg :=
  if is_result jv then
    match arg_at (fst jv) with
    | Ptr (Some b) => <[fst jv := Ptr (Some (over b 0 (results (fst jv))))]> args'
    | _ => args'
    end
  else args'.

Lemma readback_ok {R : ReadsFully T} before s w b n data rest :
  produced before s w -> incoming (w_in w) = data ++ rest -> len data = n -> n <= len b ->
  exists s' w', readback (Some b) n s w = Ok (true, Some (over b 0 data), s', w') /\
    produced before s' w' /\ flushed s' /\ incoming (w_in w') = rest.
Proof.
  intros Hp Hi Hn Hb. unfold readback. destruct (produced_flush before s w Hp) as (r & s1 & w1 & -> & [I1 _] & P1 & F1).
  cbn [mbind result_bind]. destruct (readFully_law b n s1 w1) as (i & Ei & ->); [apply P1|unfold len in *; lia|].
  assert (Hlen : got n w1 = len data /\ len (incoming (w_in w1)) = len data + len rest).
  { unfold got. rewrite I1, Hi, len_app. unfold len in *. lia. }
  destruct Hlen as [Hg Hl]. rewrite Hg, Hl. cbn [mbind result_bind].
  rewrite (proj2 (Z.leb_le n _)) by (unfold len in *; lia).
  rewrite I1, Hi in *. rewrite Hg in Ei. unfold len in Ei |- *. rewrite Nat2Z.id in *. rewrite take_app_length. rewrite drop_app_length in Ei.
  eexists s1, _. split; [reflexivity|]. split_and!; try done.
  destruct P1 as (H & Hst & Hpr). by split; [apply stream_ok_in|].
Qed.

Lemma exec_readback j v a args' p s w :
  vars !! j = Some v -> args' !! j = Some a ->
  exec (mkFrame op vars args' sizes p s w None) (SReadback j) =
  (if nullAllowed v && is_null a then Ok (mkFrame op vars args' sizes p s w None)
   else '(_, b, s, w) ← readback (match a with Ptr q => q | Num _ => None end) (sizes !!! j) s w;
        Ok (mkFrame op vars (<[j := Ptr b]> args') sizes p s w None)).
Proof. intros Hv Ha. unfold exec. simpl. by rewrite Hv, Ha. Qed.

Lemma read_results_ok {R : ReadsFully T} vs before args' s w p rest :
  Forall good vs -> Forall answered vs -> NoDup (fst <$> vs) ->
  Forall (fun jv => args' !! fst jv = Some (arg_at (fst jv))) vs ->
  produced before s w -> incoming (w_in w) = backs vs ++ rest ->
  exists s' w', foldM exec (mkFrame op vars args' sizes p s w None) (readbacks vs)
      = Ok (mkFrame op vars (foldl set_result args' vs) sizes p s' w' None) /\
    produced before s' w' /\ incoming (w_in w') = rest /\ (backs vs <> [] \/ flushed s -> flushed s').
Proof.
  intros Hg. revert args' s w. induction Hg as [|[j v] vs G Hg IH]; intros args' s w Ha Hnd Hag Hp Hi.
  { exists s, w. split_and!; try done. by intros [|]. }
  inversion Ha as [|? ? Ha1 Ha2]; subst. inversion Hag as [|? ? Hag1 Hag2]; subst.
  rewrite fmap_cons in Hnd. apply NoDup_cons in Hnd as [Hnin Hnd]. pose proof (good_size j v G) as Hs.
  destruct G as (Hv & Hat & Hf). cbn [fst snd] in *. unfold readbacks. rewrite bind_cons. cbn [fst snd foldl].
  unfold backs in *. cbn [fmap list_fmap concat] in *.
  destruct (isPointer v && is_out v) eqn:Hres.
  2: { assert (Hb : back (j, v) = []) by (unfold back, is_result; cbn [snd]; by rewrite Hres).
       assert (Hset' : set_result args' (j, v) = args') by (unfold set_result, is_result; cbn [snd]; by rewrite Hres).
       rewrite Hb, Hset' in *. cbn [app]. by apply IH. }
  cbn [app foldM]. apply andb_true_iff in Hres as [Hptr Hout].
  assert (Hout' : pointerDir v = POINTER_OUT /\ is_in v = false).
  { pose proof Hf as Hf'. unfold fits in Hf'. rewrite Hptr in Hf'. unfold is_in, is_out in *.
    destruct (pointerDir v); [done|done|]. by destruct Hf' as [? _]. }
  destruct Hout' as [Hdir Hin].
  assert (Hbk : back (j, v) = results j /\ len (results j) = var_size args v (arg_at j)).
  { unfold answered, slack, out_room in Ha1. unfold back, is_result in *. cbn [fst snd] in *.
    rewrite Hptr, Hout in *. rewrite Hin in Ha1. split; [done|exact Ha1]. }
  destruct Hbk as [Hbk Hlen]. rewrite Hbk in Hi.
  rewrite (exec_readback j v (arg_at j)) by done.
  assert (Hfit := Hf). unfold fits in Hfit. rewrite Hptr in Hfit. destruct Hfit as (_ & _ & _ & (q & Hq) & Hnn).
  destruct (nullAllowed v && is_null (arg_at j)) eqn:Hn.
  - assert (Hz : results j = []).
    { apply nil_length_inv. unfold var_size in Hlen. rewrite Hptr, Hn in Hlen. unfold len in Hlen. lia. }
    assert (Hset : set_result args' (j, v) = args').
    { unfold set_result. destruct (is_result _); [|done]. cbn [fst]. rewrite Hq in Hn |- *.
      destruct q; [|done]. simpl in Hn. by rewrite andb_false_r in Hn. }
    rewrite Hz in Hi. rewrite Hbk, Hz, Hset. by apply IH.
  - destruct Hnn as (_ & Hb & Hnull). destruct q as [b|].
    2: { destruct (Hnull Hq) as [Hc _]. congruence. }
    specialize (Hb b Hq). rewrite Hq, Hs.
    destruct (readback_ok before s w b (var_size args v (arg_at j)) (results j) (concat (back <$> vs) ++ rest))
      as (s1 & w1 & -> & P1 & F1 & E1); [done|by rewrite Hi, <-app_assoc|done|done|].
    cbn [mbind result_bind].
    assert (Hset : set_result args' (j, v) = <[j := Ptr (Some (over b 0 (results j)))]> args').
    { unfold set_result, is_result. cbn [fst snd]. by rewrite Hptr, Hout, Hq. }
    rewrite Hset.
    destruct (IH (<[j:=Ptr (Some (over b 0 (results j)))]> args') s1 w1) as (s2 & w2 & E2 & P2 & I2 & F2);
      [done|done| |done|done|].
    + apply Forall_forall. intros jv Hjv. rewrite list_lookup_insert_ne.
      * rewrite Forall_forall in Hag2. by apply Hag2.
      * intros ->. apply Hnin. apply list_elem_of_fmap. by exists jv.
    + exists s2, w2. split_and!; try done. intros _. apply F2. by right.
Qed.

Lemma backs_answered vs : Forall answered vs -> len (backs vs) = slacks vs.
Proof.
  induction 1 as [|jv vs H _ IH]; [done|]. unfold backs, slacks, Zsum in *.
  cbn [fmap list_fmap concat foldr]. rewrite len_app, IH. by rewrite H.
Qed.

End Encoding.

Lemma indexed_lookup vars k : indexed vars !! k = (fun v => (k, v)) <$> vars !! k.
Proof. apply list_lookup_imap. Qed.

Lemma indexed_fst vars : fst <$> indexed vars = seq 0 (length vars).
Proof.
  apply list_eq. intros k. rewrite list_lookup_fmap, indexed_lookup. destruct (vars !! k) eqn:E; simpl.
  - apply lookup_lt_Some in E. by rewrite lookup_seq_lt.
  - apply lookup_ge_None in E. by rewrite lookup_seq_ge.
Qed.

Lemma indexed_snd vars : snd <$> indexed vars = vars.
Proof.
  apply list_eq. intros k. rewrite list_lookup_fmap, indexed_lookup. by destruct (vars !! k).
Qed.

Lemma indexed_good vars args : Forall2 (fits args) vars args -> Forall (good vars args) (indexed vars).
Proof.
  intros H. apply Forall_lookup. intros k [j v]. rewrite indexed_lookup. destruct (vars !! k) as [v'|] eqn:E; [|done].
  intros [= <- <-]. destruct (Forall2_lookup_l _ _ _ _ _ H E) as (a & Ea & Hf). unfold good, arg_at. cbn [fst snd].
  by rewrite Ea.
Qed.

(** The packet of a call: header, variables, and room for results that carries
    stale bytes. *)
Definition packet (op : Z) (e : EntryPoint) (args : list arg) (stale : list Z) : list Z :=
  header op (e_vars e) args ++ encs args (indexed (e_vars e)) ++ stale.

(** The answer: what is stored for each out pointer, then the result. *)
Definition reply (e : EntryPoint) (results : nat -> list Z) (r : Z) : list Z :=
  backs results (indexed (e_vars e)) ++ match e_retval e with RValue n => le_bytes (Z.to_nat n) r | _ => [] end.

(** A call that the encoder and the decoder understand alike. *)
Record call_ok (e : EntryPoint) (args : list arg) : Prop := {
  ok_fits : Forall2 (fits args) (e_vars e) args;
  ok_outs : outs_last (e_vars e);
  ok_size : 8 + total args (indexed (e_vars e)) < 2 ^ 31 }.

Definition answer_ok (e : EntryPoint) (args : list arg) (results : nat -> list Z) (r : Z) : Prop :=
  Forall (answered args results) (indexed (e_vars e)) /\
  match e_retval e with RValue n => 0 <= n /\ 0 <= r < 256 ^ n | _ => True end.

(** The generated encoder of an entry point, over any transport that obeys its
    laws and a kernel that does not fail for good: it produces the packet of the
    call, and nothing else, behind what was produced before, and sends all of it
    before it reads; it takes the answer, however the bytes arrive, stores the
    results where the caller wants them and returns the value; what follows the
    answer is left. *)
Lemma encode_sends (T : Transport) (L : TransportLaws T) (R : ReadsFully T) op e args results r s w rest :
  stream_ok s w -> steady w -> call_ok e args -> answer_ok e args results r ->
  incoming (w_in w) = reply e results r ++ rest ->
  exists f stale, call_encoder op e args s w = Ok f /\
    w_sent (f_world f) ++ pending (f_stream f) (f_world f) =
      w_sent w ++ pending s w ++ packet op e args stale /\
    len stale = len (backs results (indexed (e_vars e))) /\
    (reply e results r <> [] -> flushed (f_stream f)) /\
    f_args f = foldl (set_result args results) args (indexed (e_vars e)) /\
    f_ret f = match e_retval e with RValue _ => Some r | _ => None end /\
    incoming (w_in (f_world f)) = rest /\ stream_ok (f_stream f) (f_world f) /\ steady (f_world f).
Proof.
  intros Hs Hw [Hf Ho Hsz] [Ha Hr] Hi. set (vars := e_vars e) in *. pose proof (indexed_good vars args Hf) as Hg.
  assert (Hp : produced (w_sent w ++ pending s w) s w) by by split.
  unfold call_encoder, genEncoderImpl. fold vars. rewrite foldM_app.
  destruct (fragments_ok op vars args (S (length (indexed vars))) true (indexed vars) (w_sent w ++ pending s w) s w None)
    as (p & s1 & w1 & stale & E1 & [I1 _] & Hst & P1); [lia|done|by rewrite indexed_snd|done|exact Hp|done|].
  fold (sizes vars args). change (mkFrame op vars args (sizes vars args) None s w None) with (frame op vars args None s w).
  rewrite E1. cbn [mbind result_bind]. rewrite foldM_app. unfold reply in *. fold vars in Hi |- *.
  set (all := (w_sent w ++ pending s w) ++ header op vars args ++ encs args (indexed vars) ++ stale) in P1.
  destruct (read_results_ok op vars args results (indexed vars) all args s1 w1 p
              (match e_retval e with RValue n => le_bytes (Z.to_nat n) r | _ => [] end ++ rest))
    as (s2 & w2 & E2 & P2 & I2 & F2); [done|done| | |exact P1|by rewrite I1, Hi, <-app_assoc|].
  { rewrite indexed_fst. apply NoDup_seq. }
  { apply Forall_forall. intros jv Hjv. rewrite Forall_forall in Hg. by destruct (Hg jv Hjv) as (_ & ? & _). }
  change (mkFrame op vars args (sizes vars args) p s1 w1 None) with (frame op vars args p s1 w1) in E2.
  rewrite E2. cbn [mbind result_bind]. rewrite (backs_answered args) by done.
  destruct (e_retval e) as [| |n] eqn:Er; cbn [foldM].
  1, 2: eexists _, stale; split; [reflexivity|]; destruct P2 as (H2 & Hst2 & E);
    cbn [f_stream f_world f_args f_ret]; split_and!; try done;
    [by rewrite E; unfold all, packet; rewrite <-!app_assoc|rewrite app_nil_r; auto].
  cbn [exec f_stream f_world]. destruct Hr as [Hn Hr].
  assert (Hl : len (le_bytes (Z.to_nat n) r) = n) by (unfold len; rewrite le_bytes_length; lia).
  assert (Hb : len (fresh_block n w2) = n) by (unfold len, fresh_block; rewrite length_fmap, length_seq; lia).
  destruct (readback_ok all s2 w2 (fresh_block n w2) n (le_bytes (Z.to_nat n) r) rest P2) as (s3 & w3 & -> & P3 & F3 & I3);
    [done|done|lia|]. cbn [mbind result_bind].
  eexists _, stale. split; [reflexivity|]. destruct P3 as (H3 & Hst3 & E). cbn [f_stream f_world f_args f_ret].
  split_and!; try done; [by rewrite E; unfold all, packet; rewrite <-!app_assoc|].
  simpl. f_equal. unfold over.
  rewrite drop_ge by (unfold len in *; simpl; lia). simpl. rewrite app_nil_r.
  apply le_value_bytes. by rewrite Z2Nat.id by lia.
Qed.
