(* ===== verification/EmuDecode.v ===== *)
(** * What the generated decoder does with the packets of the encoder

    The proofs about [decode] of [EmuGen].  A packet that the encoder produced,
    anywhere in the buffer: the offsets that the generator builds up land on the
    variables ([cursor_next]), the called function sees the arguments of the call
    ([seen]), what it stores and returns is sent back in one piece, and the
    position moves behind the packet ([case_performs]).  [decode_performs] is the
    loop over such packets. *)
From S2P Require Import Prelude GlStream EmuGen.
Local Open Scope Z_scope.

Lemma read_u32_at mem p z :
  read_block mem p 4 = Ok (le_bytes 4 z) -> 0 <= z < 2 ^ 32 -> read_u32 mem p = Ok z.
Proof.
  intros E Hz. unfold read_u32. rewrite E. cbn [mbind result_bind].
  rewrite le_value_bytes by (change (256 ^ Z.of_nat 4) with (2 ^ 32); done). by rewrite u32_small.
Qed.

Lemma take_S_indexed vars k v :
  vars !! k = Some v ->
  take (S k) (indexed vars) = take k (indexed vars) ++ [(k, v)] /\
  indexed vars = take k (indexed vars) ++ (k, v) :: drop (S k) (indexed vars).
Proof.
  intros Hv. assert (E : indexed vars !! k = Some (k, v)) by by rewrite indexed_lookup, Hv.
  split; [by apply take_S_r|]. symmetry. by apply take_drop_middle.
Qed.

(** What the called function sees of the variables: numbers; for data, the bytes
    that were encoded and the rest of the packet behind them; places for
    results.  A size of 0 is NULL where NULL is allowed. *)
Definition seen_var (args : list arg) (jv : nat * Var) (tail : list Z) : list harg :=
  let '(j, v) := jv in
  let a := arg_at args j in
  let null := nullAllowed v && (var_size args v a =? 0) in
  if isVoid v then []
  else if negb (isPointer v) then [HNum (match a with Num z => z | Ptr _ => 0 end)]
  else if is_in v then [if null then HIn None else HIn (Some (var_data args v a ++ tail))]
  else [HOut null].

Fixpoint seen (args : list arg) (stale : list Z) (jvs : list (nat * Var)) : list harg :=
  match jvs with
  | [] => []
  | jv :: jvs => seen_var args jv (encs args jvs ++ stale) ++ seen args stale jvs
  end.

Section Case.
Context {T : Transport} {L : TransportLaws T} {H : Type}.
Variable call : Z -> list harg -> H -> result (list (list Z) * Z * H).
Variables (op : Z) (e : EntryPoint) (args : list arg) (stale front behind : list Z).

#[local] Abbreviation vars := (e_vars e).
#[local] Abbreviation M := (front ++ packet op e args stale ++ behind).
#[local] Abbreviation pos := (len front).

Hypothesis Hcall : call_ok e args.
Hypothesis Hstale : len stale = slacks args (indexed vars).
Hypothesis Hop : 0 <= op < 2 ^ 31.

(** The size of a packet. *)
Definition packet_size : Z := 8 + total args (indexed (e_vars e)).

Lemma all_good : Forall (good vars args) (indexed vars).
Proof. apply indexed_good, Hcall. Qed.

Lemma var_good k v : vars !! k = Some v -> good vars args (k, v).
Proof.
  intros Hv. assert (E : indexed vars !! k = Some (k, v)) by by rewrite indexed_lookup, Hv.
  exact (Forall_lookup_1 _ _ _ _ all_good E).
Qed.

Lemma size_small : 8 <= packet_size < 2 ^ 31.
Proof.
  pose proof (total_nonneg vars args (indexed vars) all_good). pose proof (ok_size _ _ Hcall). unfold packet_size. lia.
Qed.

Lemma header_is : header op vars args = le_bytes 4 op ++ le_bytes 4 packet_size.
Proof.
  unfold header, packet_terms. pose proof (total_nonneg vars args (indexed vars) all_good). pose proof (ok_size _ _ Hcall).
  destruct (eval_sizes vars args 8 (indexed vars)) as [E _]; [exact all_good|lia|done|]. by rewrite E.
Qed.

Lemma header_length : len (header op vars args) = 8.
Proof. rewrite header_is, len_app. unfold len. by rewrite !le_bytes_length. Qed.

Lemma packet_length : len (packet op e args stale) = packet_size.
Proof.
  unfold packet. rewrite !len_app, header_length, Hstale. unfold packet_size, total. lia.
Qed.

(** The offset of a variable in the packet. *)
Definition offset (k : nat) : Z := 8 + len (encs args (take k (indexed (e_vars e)))).

Lemma memory_at k v :
  vars !! k = Some v ->
  M = (front ++ header op vars args ++ encs args (take k (indexed vars))) ++ enc args (k, v) ++
      (encs args (drop (S k) (indexed vars)) ++ stale) ++ behind /\
  len (front ++ header op vars args ++ encs args (take k (indexed vars))) = pos + offset k.
Proof.
  intros Hv. split.
  - unfold packet. rewrite (proj2 (take_S_indexed vars k v Hv)) at 1.
    rewrite encs_app, encs_cons. by rewrite <-!app_assoc.
  - rewrite !len_app, header_length. unfold offset. lia.
Qed.

Lemma offset_S k v : vars !! k = Some v -> offset (S k) = offset k + len (enc args (k, v)).
Proof.
  intros Hv. unfold offset. rewrite (proj1 (take_S_indexed vars k v Hv)), encs_app, len_app.
  rewrite (encs_cons args (k, v) []). change (encs args []) with (@nil Z). rewrite app_nil_r. lia.
Qed.

Lemma offset_small k : (k <= length vars)%nat -> 8 <= offset k < 2 ^ 31.
Proof.
  intros _. unfold offset. pose proof size_small as Hs. unfold packet_size, total in Hs.
  pose proof (slacks_nonneg vars args (indexed vars) all_good).
  assert (E : len (encs args (indexed vars)) = len (encs args (take k (indexed vars))) + len (encs args (drop k (indexed vars))))
    by by rewrite <-len_app, <-encs_app, take_drop.
  unfold len in *. lia.
Qed.

(** An expression for the offset of a variable. *)
Definition cursor (k : nat) (o : off) : Prop := eval_off M pos o = Ok (offset k).

Lemma cursor_0 : cursor 0 Header.
Proof. done. Qed.

Lemma read_size k v :
  vars !! k = Some v -> isPointer v = true ->
  read_u32 M (pos + offset k) = Ok (var_size args v (arg_at args k)).
Proof.
  intros Hv Hp. destruct (memory_at k v Hv) as [E El]. destruct (var_good k v Hv) as (_ & _ & Hf). cbn [fst snd] in Hf.
  pose proof (var_size_range _ _ _ Hf) as [H0 H1]. apply read_u32_at; [|specialize (H1 Hp); lia].
  unfold enc, enc_var in E. cbn [fst snd] in E. rewrite Hp in E. rewrite <-!app_assoc in E.
  eapply block_in; [|exact (eq_sym El)|by rewrite le_bytes_length].
  rewrite E. by rewrite <-!app_assoc.
Qed.

(** The generator's offsets follow the encoding. *)
Lemma cursor_next k v o : vars !! k = Some v -> cursor k o -> cursor (S k) (next_off v o).
Proof.
  intros Hv Ho. pose proof (offset_S k v Hv) as HS. pose proof (lookup_lt_Some _ _ _ Hv) as Hk.
  pose proof (offset_small (S k) Hk). unfold cursor in *. destruct (var_good k v Hv) as (_ & _ & Hf). cbn [fst snd] in Hf.
  pose proof (var_size_range _ _ _ Hf) as [Hs _]. pose proof (enc_var_length _ _ _ Hf) as Hlen.
  unfold enc in HS. cbn [fst snd] in HS. unfold out_room in Hlen. unfold next_off, isVoid.
  destruct (isPointer v) eqn:Hp; cbn [negb andb] in *.
  - rewrite andb_false_r. destruct (is_in v) eqn:Hi; cbn [negb eval_off] in *; rewrite Ho; cbn [mbind result_bind].
    + rewrite (read_size k v) by done. cbn [mbind result_bind]. rewrite u32_small by lia. f_equal. lia.
    + rewrite u32_small by lia. f_equal. lia.
  - rewrite andb_true_r. unfold var_size in Hlen. rewrite Hp in Hlen.
    destruct (Z.eqb_spec (v_bytes v) 0); [rewrite Ho; f_equal; lia|].
    cbn [eval_off]. rewrite Ho. cbn [mbind result_bind]. rewrite u32_small by lia. f_equal. lia.
Qed.

(** The sizes of the results. *)
Definition osize (j : nat) : Z :=
  match vars !! j with Some v => slack args (j, v) | None => 0 end.

Definition known (m : gmap nat Z) (js : list nat) : Prop := Forall (fun j => m !! j = Some (osize j)) js.

Definition osum (js : list nat) : Z := Zsum (osize <$> js).

Lemma sum_known m js : known m js -> sum_sizes m js = osum js.
Proof.
  unfold osum, sum_sizes, Zsum. induction 1 as [|j js Hj _ IH]; [done|]. cbn [foldr fmap list_fmap]. by rewrite Hj, IH.
Qed.

Lemma osum_app js1 js2 : osum (js1 ++ js2) = osum js1 + osum js2.
Proof. unfold osum. by rewrite fmap_app, Zsum_app. Qed.

(** The indices of the results among the first [k] variables. *)
Definition outs (k : nat) : list nat := out_indices (take k vars).

Lemma indexed_snoc vs v : indexed (vs ++ [v]) = indexed vs ++ [(length vs, v)].
Proof. unfold indexed. rewrite imap_app. simpl. by rewrite Nat.add_0_r. Qed.

Lemma outs_S k v :
  vars !! k = Some v -> outs (S k) = (if isPointer v && negb (is_in v) then outs k ++ [k] else outs k).
Proof.
  intros Hv. unfold outs, out_indices. rewrite (take_S_r _ _ _ Hv), indexed_snoc, bind_app, bind_singleton.
  assert (Hl : length (take k vars) = k) by (apply lookup_lt_Some in Hv; rewrite length_take; lia).
  rewrite Hl. cbn [fst snd]. destruct (isPointer v && negb (is_in v)); [done|]. by rewrite app_nil_r.
Qed.

Lemma outs_below k j : j ∈ outs k -> (j < k)%nat.
Proof.
  unfold outs, out_indices. intros (jv & Hj & Hjv)%list_elem_of_bind.
  assert (j = fst jv) as ->.
  { destruct (isPointer jv.2 && negb (is_in jv.2)); [by apply list_elem_of_singleton in Hj|by apply elem_of_nil in Hj]. }
  apply list_elem_of_lookup in Hjv as [i Hi]. rewrite indexed_lookup in Hi.
  destruct (take k vars !! i) eqn:E; [|done]. injection Hi as <-. apply lookup_take_Some in E as [_ ?]. done.
Qed.

Lemma drop_cons {A} (l : list A) k x xs : drop k l = x :: xs -> l !! k = Some x /\ drop (S k) l = xs.
Proof.
  intros E. split.
  - rewrite <-(Nat.add_0_r k), <-lookup_drop, E. done.
  - replace (S k) with (k + 1)%nat by lia. by rewrite <-drop_drop, E.
Qed.

#[local] Abbreviation step := (dexec call op M pos packet_size).

(** Evaluation of a statement. *)
Ltac dstep := cbn [foldM mbind result_bind dexec d_sizes d_total d_buf d_outs d_pos d_stream d_world d_host].

(** The first pass: the sizes of the results and their sum. *)
Lemma tmp_pass vs k o m t b os p s w h :
  drop k vars = vs -> cursor k o -> known m (outs k) -> (outs k <> [] -> t = osum (outs k)) ->
  exists m' t', foldM step (mkDFrame m t b os p s w h) (pass tmp_stmts k o (outs k) vs) =
      Ok (mkDFrame m' t' b os p s w h) /\
    known m' (out_indices vars) /\ (out_indices vars <> [] -> t' = osum (out_indices vars)).
Proof.
  revert k o m t. induction vs as [|v vs IH]; intros k o m t Hd Ho Hm Ht.
  { exists m, t. assert (E : outs k = out_indices vars).
    { unfold outs. rewrite take_ge; [done|]. apply (f_equal length) in Hd. rewrite length_drop in Hd. simpl in Hd. lia. }
    rewrite <-E. done. }
  destruct (drop_cons _ _ _ _ Hd) as [Hv Hd']. cbn [pass]. rewrite <-(outs_S k v Hv). rewrite foldM_app.
  pose proof (cursor_next k v o Hv Ho) as Ho'.
  pose proof (outs_S k v Hv) as HS.
  replace (tmp_stmts k v o (outs k)) with
    (if isPointer v && negb (is_in v)
     then [DTmpSize k o; DTotal (match outs k with [] => true | _ => false end) k] else []) by done.
  destruct (isPointer v && negb (is_in v)) eqn:Hout; cbn [foldM mbind result_bind].
  2: { apply IH; [done|done|by rewrite HS|by rewrite HS]. }
  apply andb_true_iff in Hout as [Hp Hin].
  assert (Hsz : var_size args v (arg_at args k) = osize k).
  { unfold osize, slack, out_room. rewrite Hv. cbn [fst snd]. by rewrite Hp, Hin. }
  dstep. rewrite Ho. dstep. rewrite (read_size k v Hv Hp), Hsz. dstep. rewrite lookup_insert_eq. cbn [default].
  apply IH; [done|done| |].
  - rewrite HS. apply Forall_app. split; [|constructor; [apply lookup_insert_eq|constructor]].
    apply Forall_forall. intros j Hj. cbv beta. pose proof (outs_below k j Hj). rewrite lookup_insert_ne by lia.
    by apply (proj1 (Forall_forall _ _) Hm).
  - intros _. rewrite HS, osum_app. unfold osum at 2, Zsum. cbn [fmap list_fmap foldr]. rewrite Z.add_0_r. unfold default.
    destruct (outs k) eqn:Eo; [done|]. rewrite Ht by done. cbn. lia.
Qed.

(** The second pass: each result has its place in the temporary buffer, behind
    the results in front of it. *)
Fixpoint placed (b : option (Z * Z)) (os : gmap nat (option (Z * Z))) (before js : list nat) : Prop :=
  match js with
  | [] => True
  | j :: js => os !! j = Some (at_ptr b (osum before)) /\ placed b os (before ++ [j]) js
  end.

Lemma placed_snoc b os before js k :
  placed b os before js -> ~ k ∈ js ->
  placed b (<[k := at_ptr b (osum (before ++ js))]> os) before (js ++ [k]).
Proof.
  revert before. induction js as [|j js IH]; intros before Hp Hk; cbn [placed app] in *.
  - rewrite app_nil_r. split; [apply lookup_insert_eq|done].
  - apply not_elem_of_cons in Hk as [Hne Hk]. destruct Hp as [Hj Hp]. split; [by rewrite lookup_insert_ne|].
    specialize (IH (before ++ [j]) Hp Hk). by rewrite <-app_assoc in IH.
Qed.

Lemma mem_pass vs k o m t b os p s w h :
  drop k vars = vs -> cursor k o -> known m (out_indices vars) ->
  (forall k', outs k' `sublist_of` out_indices vars) -> placed b os [] (outs k) ->
  exists os', foldM step (mkDFrame m t b os p s w h) (pass mem_stmts k o (outs k) vs) =
      Ok (mkDFrame m t b os' p s w h) /\ placed b os' [] (out_indices vars).
Proof.
  revert k o os. induction vs as [|v vs IH]; intros k o os Hd Ho Hm Hsub Hpl.
  { exists os. assert (E : outs k = out_indices vars).
    { unfold outs. rewrite take_ge; [done|]. apply (f_equal length) in Hd. rewrite length_drop in Hd. simpl in Hd. lia. }
    rewrite <-E. done. }
  destruct (drop_cons _ _ _ _ Hd) as [Hv Hd']. cbn [pass]. rewrite <-(outs_S k v Hv). rewrite foldM_app.
  pose proof (cursor_next k v o Hv Ho) as Ho'. pose proof (outs_S k v Hv) as HS.
  assert (Hio : isPointer v = true -> pointerDir v <> POINTER_INOUT).
  { intros Hp. destruct (var_good k v Hv) as (_ & _ & Hf). cbn [fst snd] in Hf. unfold fits in Hf. rewrite Hp in Hf. tauto. }
  replace (mem_stmts k v o (outs k)) with
    (if isPointer v && negb (is_in v) then [DTmpPtr k (outs k)] else []).
  2: { unfold mem_stmts, is_in in *. destruct (isPointer v); [|done]. specialize (Hio eq_refl). by destruct (pointerDir v). }
  destruct (isPointer v && negb (is_in v)) eqn:Hout; dstep.
  2: { apply IH; [done|done|done|done|by rewrite HS]. }
  assert (Hk : known m (outs k)).
  { apply Forall_forall. intros j Hj. apply (proj1 (Forall_forall _ _) Hm). by eapply elem_of_sublist. }
  rewrite (sum_known m _ Hk). apply IH; [done|done|done|done|].
  rewrite HS. apply (placed_snoc b os [] (outs k) k Hpl). intros Hin. apply outs_below in Hin. lia.
Qed.

Lemma outs_sublist k : outs k `sublist_of` out_indices vars.
Proof.
  unfold outs. rewrite <-(take_drop k vars) at 2. unfold out_indices, indexed. rewrite imap_app, bind_app.
  by apply sublist_inserts_r.
Qed.

(** The argument of a variable. *)
Lemma call_arg_ok k v o (f : @DFrame H) os :
  vars !! k = Some v -> cursor k o -> known (d_sizes f) (out_indices vars) ->
  eval_args M pos packet_size f (call_args k v o os) =
    Ok (seen_var args (k, v) (encs args (drop (S k) (indexed vars)) ++ stale)).
Proof.
  intros Hv Ho Hm. destruct (var_good k v Hv) as (_ & Ha & Hf). cbn [fst snd] in *.
  destruct (memory_at k v Hv) as [EM EL]. unfold call_args, seen_var, isVoid.
  unfold enc, enc_var in EM. cbn [fst snd] in EM.
  destruct (isPointer v) eqn:Hp; cbn [negb andb].
  2: { rewrite andb_true_r. unfold fits in Hf. rewrite Hp in Hf. destruct Hf as (_ & Hb & z & Ez & Hz). rewrite Ez in *.
       destruct (Z.eqb_spec (v_bytes v) 0); [done|]. cbn [eval_args eval_arg]. rewrite Ho. cbn [mbind result_bind].
       rewrite (block_in _ _ (le_bytes (Z.to_nat (v_bytes v)) z) _ _ _ EM).
       - cbn [mbind result_bind]. rewrite le_value_bytes; [done|]. by rewrite Z2Nat.id.
       - by rewrite <-EL.
       - rewrite le_bytes_length. lia. }
  rewrite andb_false_r. pose proof (read_size k v Hv Hp) as Hsz.
  destruct (is_in v) eqn:Hi; cbn [eval_args eval_arg].
  - rewrite Ho. cbn [mbind result_bind].
    assert (Hview : drop (Z.to_nat (pos + offset k + 4)) (take (Z.to_nat (pos + packet_size)) M) =
              var_data args v (arg_at args k) ++ encs args (drop (S k) (indexed vars)) ++ stale).
    { assert (Et : take (Z.to_nat (pos + packet_size)) M = front ++ packet op e args stale).
      { rewrite app_assoc. apply take_app_length'. rewrite <-packet_length. unfold len. rewrite length_app. lia. }
      rewrite Et. rewrite (app_assoc front), !(app_assoc _ _ behind) in EM. apply app_inv_tail in EM. rewrite EM.
      rewrite <-!app_assoc. rewrite (app_assoc front), (app_assoc (front ++ _)), (app_assoc _ (le_bytes 4 _)).
      apply drop_app_length'. rewrite <-EL. unfold len. rewrite !length_app, le_bytes_length. lia. }
    destruct (nullAllowed v); cbn [andb].
    + rewrite Hsz. cbn [mbind result_bind]. destruct (var_size args v (arg_at args k) =? 0); [done|].
      cbn [mbind result_bind]. by rewrite Hview.
    + change (1 =? 0) with false. cbn iota. cbn [mbind result_bind]. by rewrite Hview.
  - assert (Hk : k ∈ out_indices vars).
    { eapply elem_of_sublist; [|apply (outs_sublist (S k))]. rewrite (outs_S k v Hv), Hp, Hi. apply elem_of_app. right.
      by apply list_elem_of_singleton. }
    rewrite (proj1 (Forall_forall _ _) Hm k Hk). cbn [default mbind result_bind].
    assert (Hos : osize k = var_size args v (arg_at args k)).
    { unfold osize, slack, out_room. rewrite Hv. cbn [fst snd]. by rewrite Hp, Hi. }
    unfold default. by rewrite Hos.
Qed.

Lemma eval_args_app (f : @DFrame H) l1 l2 h1 h2 :
  eval_args M pos packet_size f l1 = Ok h1 -> eval_args M pos packet_size f l2 = Ok h2 ->
  eval_args M pos packet_size f (l1 ++ l2) = Ok (h1 ++ h2).
Proof.
  revert h1. induction l1 as [|a l1 IHl]; intros h1 H1 H2; [by injection H1 as <-|].
  cbn [eval_args app] in *. destruct (eval_arg M pos packet_size f a); [|done]. cbn [mbind result_bind] in *.
  destruct (eval_args M pos packet_size f l1); [|done]. injection H1 as <-. by rewrite (IHl _ eq_refl H2).
Qed.

(** The arguments of the call. *)
Lemma args_pass vs k o (f : @DFrame H) :
  drop k vars = vs -> cursor k o -> known (d_sizes f) (out_indices vars) ->
  eval_args M pos packet_size f (pass call_args k o (outs k) vs) =
    Ok (seen args stale (drop k (indexed vars))) /\
  outs k ++ out_js (pass call_args k o (outs k) vs) = out_indices vars.
Proof.
  revert k o. induction vs as [|v vs IH]; intros k o Hd Ho Hm.
  { assert (Hl : (length vars <= k)%nat) by (apply (f_equal length) in Hd; rewrite length_drop in Hd; simpl in Hd; lia).
    assert (E : outs k = out_indices vars) by (unfold outs; by rewrite take_ge).
    rewrite E, drop_ge; [|unfold indexed; by rewrite length_imap]. by rewrite app_nil_r. }
  destruct (drop_cons _ _ _ _ Hd) as [Hv Hd']. cbn [pass]. rewrite <-(outs_S k v Hv).
  destruct (IH (S k) (next_off v o) Hd' (cursor_next k v o Hv Ho) Hm) as [IH1 IH2].
  assert (Ei : drop k (indexed vars) = (k, v) :: drop (S k) (indexed vars)).
  { apply drop_S. by rewrite indexed_lookup, Hv. }
  rewrite Ei. cbn [seen]. split.
  - apply eval_args_app; [|exact IH1]. by apply call_arg_ok.
  - unfold out_js in *. rewrite bind_app, <-IH2 at 1. rewrite app_assoc. f_equal. rewrite (outs_S k v Hv).
    unfold call_args, isVoid. destruct (isPointer v) eqn:Hp; cbn [negb andb].
    + rewrite andb_false_r. destruct (is_in v); cbn; [by rewrite app_nil_r|done].
    + rewrite andb_true_r. destruct (v_bytes v =? 0); by rewrite app_nil_r.
Qed.

(** What the called function stores lands in the temporary buffer. *)
Lemma stores_ok js ds before s w p k bf (f : @DFrame H) :
  Forall2 (fun j d => len d = osize j) js ds -> placed (Some p) (d_outs f) bf js ->
  filling (fst p, snd p + osum bf) k before s w -> osum js <= k ->
  exists w', foldM (store_out f) w (zip js ds) = Ok w' /\ same_input w w' /\
    filling (fst p, snd p + osum (bf ++ js)) (k - osum js) (before ++ concat ds) s w'.
Proof.
  intros HF. revert before w k bf. induction HF as [|j d js ds Hd HF IH]; intros before w k bf Hpl Hf Hk.
  { exists w. rewrite !app_nil_r. change (osum []) with 0. rewrite Z.sub_0_r. done. }
  destruct Hpl as [Hj Hpl]. assert (Hc : osum (j :: js) = len d + osum js) by (unfold osum, Zsum; cbn [fmap list_fmap foldr]; lia).
  assert (Hnn : 0 <= osum js).
  { clear -HF. unfold osum, Zsum. induction HF as [|j d js ds Hd HF IH]; [done|]. cbn [fmap list_fmap foldr]. unfold len in *. lia. }
  destruct (filling_store _ _ _ _ _ d Hf) as (w1 & Hst & I1 & F1); [unfold len in *; lia|]. cbn [fst snd] in *.
  cbn [zip zip_with foldM]. assert (Es : store_out f w (j, d) = Ok w1 \/ d = []).
  { destruct d; [by right|left]. unfold store_out. rewrite Hj. unfold default, at_ptr. destruct p as [a o].
    cbn [fmap option_fmap option_map from_option_or mbind result_bind fst snd] in *. exact Hst. }
  assert (Hbf : snd p + osum bf + len d = snd p + osum (bf ++ [j])).
  { rewrite osum_app. unfold osum at 3, Zsum. cbn [fmap list_fmap foldr]. lia. }
  destruct Es as [-> | ->]; cbn [mbind result_bind].
  - destruct (IH (before ++ d) w1 (k - len d) (bf ++ [j])) as (w2 & E2 & I2 & F2);
      [done|by rewrite <-Hbf|lia|].
    exists w2. split; [done|]. split; [by eapply same_input_trans|].
    rewrite <-app_assoc in F2. cbn [app concat] in *. rewrite Hc, app_assoc.
    by replace (k - (len d + osum js)) with (k - len d - osum js) by lia.
  - cbn [store_out mbind result_bind]. change (len []) with 0 in *. rewrite Z.add_0_r in Hbf.
    destruct (IH before w k (bf ++ [j])) as (w2 & E2 & I2 & F2); [done|by rewrite <-Hbf|lia|].
    exists w2. split; [done|]. split; [by eapply same_input_trans|].
    rewrite <-app_assoc in F2. cbn [app concat] in *. rewrite Hc. by rewrite Z.add_0_l.
Qed.

(** The results of an answer, in order. *)
Lemma results_backs results :
  backs results (indexed vars) = concat (results <$> out_indices vars).
Proof.
  unfold backs, out_indices. assert (Hg : Forall (fun jv => back results jv =
    concat (results <$> (if isPointer jv.2 && negb (is_in jv.2) then [jv.1] else []))) (indexed vars)).
  { eapply Forall_impl; [exact all_good|]. intros [j v] (_ & _ & Hf). cbn [fst snd] in *. unfold back, is_result. cbn [fst snd].
    unfold fits in Hf. destruct (isPointer v); [|done]. destruct Hf as (Hio & _). unfold is_in, is_out.
    destruct (pointerDir v); [|done..]. cbn. by rewrite app_nil_r. }
  clear Hstale. induction Hg as [|jv l E _ IH]; [done|]. cbn [fmap list_fmap concat]. rewrite E, IH.
  by rewrite bind_cons, fmap_app, concat_app.
Qed.

Lemma results_sizes results :
  Forall (answered args results) (indexed vars) ->
  Forall2 (fun j d => len d = osize j) (out_indices vars) (results <$> out_indices vars).
Proof.
  intros Ha. apply Forall2_fmap_r, Forall_Forall2_diag, Forall_forall. intros j Hj.
  unfold out_indices in Hj. apply list_elem_of_bind in Hj as ([j' v] & Hj & Hin). cbn [fst snd] in Hj.
  destruct (isPointer v && negb (is_in v)) eqn:Hout; [|by apply elem_of_nil in Hj]. apply list_elem_of_singleton in Hj as ->.
  pose proof (proj1 (Forall_forall _ _) Ha _ Hin) as Hans.
  apply list_elem_of_lookup in Hin as [i Hi]. rewrite indexed_lookup in Hi. destruct (vars !! i) eqn:E; [|done].
  injection Hi as -> ->. unfold osize. rewrite E. rewrite <-Hans. unfold back, is_result. cbn [fst snd].
  apply andb_true_iff in Hout as [Hp Hin]. unfold is_in, is_out in *. rewrite Hp. by destruct (pointerDir v).
Qed.

Lemma osum_results results :
  Forall (answered args results) (indexed vars) -> osum (out_indices vars) = len (backs results (indexed vars)).
Proof.
  intros Ha. rewrite results_backs. unfold osum, Zsum. pose proof (results_sizes results Ha) as HF. revert HF. clear.
  generalize (results <$> out_indices vars). induction (out_indices vars) as [|j js IH]; intros ds HF; inversion HF as [|? d ? ds' Hd HF']; subst; [done|].
  cbn [fmap list_fmap foldr concat]. rewrite len_app, (IH _ HF'). lia.
Qed.

(** The place of the result. *)
Definition ret_size : Z := match e_retval e with RValue n => n | _ => 0 end.

(** Whether the case answers at all. *)
Definition answers : bool :=
  negb (Nat.eqb (length (out_indices vars)) 0) || match e_retval e with RValue _ => true | _ => false end.

(** From the call on: results and result are stored, the buffer is sent. *)
Lemma call_stmts_ok results r m t p os s w h h' before k :
  answer_ok e args results r ->
  call op (seen args stale (indexed vars)) h = Ok (results <$> out_indices vars, r, h') ->
  known m (out_indices vars) -> placed (Some p) os [] (out_indices vars) ->
  filling p k before s w -> k = osum (out_indices vars) + ret_size ->
  exists w', step (mkDFrame m t (Some p) os pos s w h)
      (DCall ((fun n => (n, out_indices vars)) <$> match e_retval e with RValue n => Some n | _ => None end)
         (pass call_args 0 Header [] vars)) = Ok (mkDFrame m t (Some p) os pos s w' h') /\
    same_input w w' /\ filling (fst p, snd p + k) 0 (before ++ reply e results r) s w'.
Proof.
  intros [Ha Hr] Hc Hm Hpl Hf Hk.
  destruct (args_pass vars 0 Header (mkDFrame m t (Some p) os pos s w h)) as [E1 E2]; [done|apply cursor_0|done|].
  change (outs 0) with (@nil nat) in *. cbn [app] in E2. rewrite drop_0 in E1. cbn [dexec]. rewrite E1.
  cbn [mbind result_bind d_host].
  rewrite Hc. cbn [mbind result_bind]. rewrite E2.
  pose proof (osum_results results Ha) as Hos. assert (Hos0 : 0 <= osum (out_indices vars)) by (rewrite Hos; unfold len; lia).
  destruct (stores_ok (out_indices vars) (results <$> out_indices vars) before s w p k [] (mkDFrame m t (Some p) os pos s w h))
    as (w1 & E3 & I1 & F1); [by apply results_sizes|done|by destruct p; change (osum []) with 0; rewrite Z.add_0_r| |].
  { unfold ret_size in Hk. destruct (e_retval e); [lia..|]. destruct Hr. lia. }
  cbn [d_world]. rewrite E3. cbn [mbind result_bind app] in *. rewrite <-results_backs in F1. unfold ret_size in Hk.
  unfold reply. destruct (e_retval e) as [| |n]; cbn [fmap option_fmap option_map d_buf d_sizes].
  1, 2: exists w1; split; [done|]; split; [done|]; rewrite Hk, Z.add_0_r in *; rewrite app_nil_r;
    by rewrite Z.sub_diag in F1.
  destruct p as [a o]. cbn [from_option_or mbind result_bind fst snd]. rewrite (sum_known m _ Hm).
  assert (Hl : len (le_bytes (Z.to_nat n) r) = n) by (unfold len; rewrite le_bytes_length; lia).
  destruct (filling_store _ _ _ _ _ (le_bytes (Z.to_nat n) r) F1) as (w2 & E4 & I2 & F2); [lia|]. cbn [fst snd] in *.
  rewrite E4. cbn [mbind result_bind]. exists w2. split; [done|]. split; [by eapply same_input_trans|].
  rewrite Hl in F2. rewrite app_assoc. rewrite Hk in F2 |- *.
  replace (o + (osum (out_indices vars) + n)) with (o + osum (out_indices vars) + n) by lia.
  by replace (osum (out_indices vars) + n - osum (out_indices vars) - n) with 0 in F2 by lia.
Qed.

Lemma advance_ok m t b os s w h :
  pos + packet_size < 2 ^ 63 ->
  step (mkDFrame m t b os pos s w h) DAdvance = Ok (mkDFrame m t b os (pos + packet_size) s w h).
Proof.
  intros Hb. pose proof size_small. dstep.
  rewrite (block_in M (front ++ le_bytes 4 op) (le_bytes 4 packet_size) (encs args (indexed vars) ++ stale ++ behind)).
  - cbn [mbind result_bind]. rewrite le_value_bytes by (change (256 ^ Z.of_nat 4) with (2 ^ 32); lia).
    rewrite s32_small by lia. unfold size_t, u64. rewrite Z.mod_small; [done|]. unfold len in *. lia.
  - unfold packet. rewrite header_is. by rewrite <-!app_assoc.
  - unfold len. rewrite length_app, le_bytes_length. lia.
  - by rewrite le_bytes_length.
Qed.

(** A call that answers nothing. *)
Lemma silent_call m t b os s w h h' r :
  out_indices vars = [] -> call op (seen args stale (indexed vars)) h = Ok ([], r, h') ->
  step (mkDFrame m t b os pos s w h) (DCall None (pass call_args 0 Header [] vars)) = Ok (mkDFrame m t b os pos s w h').
Proof.
  intros Eo Hc. destruct (args_pass vars 0 Header (mkDFrame m t b os pos s w h)) as [E3 E4];
    [done|apply cursor_0|rewrite Eo; constructor|].
  change (outs 0) with (@nil nat) in *. rewrite drop_0 in E3. cbn [app] in E4. cbn [dexec]. rewrite E3.
  cbn [mbind result_bind d_host]. rewrite Hc. cbn [mbind result_bind]. by rewrite E4, Eo.
Qed.

Lemma flush_step m t b os p s w h :
  step (mkDFrame m t b os p s w h) DFlush =
  ('(_, s, w) ← flush s w; Ok (mkDFrame m t b os p s w h)).
Proof. done. Qed.

(** A case of the decoder on the packet of a call. *)
Lemma case_performs results r s w h h' before :
  answer_ok e args results r ->
  call op (seen args stale (indexed vars)) h = Ok (results <$> out_indices vars, r, h') ->
  len (reply e results r) < 2 ^ 31 -> pos + packet_size < 2 ^ 63 -> produced before s w ->
  exists f, foldM step (mkDFrame ∅ 0 None ∅ pos s w h) (genDecoderCase e) = Ok f /\
    d_pos f = pos + packet_size /\ d_host f = h' /\ same_input w (d_world f) /\
    produced (before ++ reply e results r) (d_stream f) (d_world f) /\ (flushed s -> flushed (d_stream f)).
Proof.
  intros Hans Hc Hlen Hb Hp. unfold genDecoderCase. rewrite foldM_app.
  destruct (tmp_pass vars 0 Header ∅ 0 None ∅ pos s w h) as (m & t & E1 & Hm & Ht); [done|apply cursor_0|constructor|done|].
  change (outs 0) with (@nil nat) in E1. rewrite E1. clear E1. cbn [mbind result_bind].
  pose proof (osum_results results (proj1 Hans)) as Hos.
  assert (Hk : osum (out_indices vars) + ret_size = len (reply e results r)).
  { unfold reply, ret_size. rewrite len_app, Hos. destruct Hans as [_ Hr].
    destruct (e_retval e); unfold len at 3; simpl; try lia. rewrite le_bytes_length. lia. }
  assert (Hret : bool_decide (is_Some (match e_retval e with RValue n => Some n | _ => None end)) =
                 match e_retval e with RValue _ => true | _ => false end) by by destruct (e_retval e).
  rewrite Hret. fold answers.
  set (total := osum (out_indices vars) + ret_size) in *.
  assert (Etot : answers = true -> foldM step (mkDFrame m t None ∅ pos s w h)
      (match (match e_retval e with RValue n => Some n | _ => None end) with
       | Some n => [DTotalRet (negb (negb (Nat.eqb (length (out_indices vars)) 0))) n] | None => [] end)
      = Ok (mkDFrame m total None ∅ pos s w h)).
  { unfold answers, total, ret_size. destruct (out_indices vars) as [|j js] eqn:Eo.
    - destruct (e_retval e); [done..|]. intros _. reflexivity.
    - intros _. rewrite Ht by done. destruct (e_retval e); cbn; by rewrite ?Z.add_0_r. }
  destruct answers eqn:Eans.
  - rewrite foldM_app, Etot by done. cbn [mbind result_bind]. rewrite foldM_app, foldM_one. dstep.
    rewrite size_t_small by (unfold len in *; lia).
    destruct (produced_alloc before total s w Hp) as (p & s1 & w1 & -> & I1 & F1); [unfold len in *; lia|].
    cbn [mbind result_bind]. rewrite foldM_app.
    destruct (mem_pass vars 0 Header m total (Some p) ∅ pos s1 w1 h) as (os & E2 & Hpl);
      [done|apply cursor_0|done|apply outs_sublist|done|].
    change (outs 0) with (@nil nat) in E2. rewrite E2. cbn [mbind result_bind]. rewrite foldM_app, foldM_one.
    destruct (call_stmts_ok results r m total p os s1 w1 h h' before total) as (w2 & -> & I2 & F2); try done.
    cbn [mbind result_bind]. rewrite foldM_app, foldM_one, flush_step.
    destruct (filling_produced _ _ _ _ _ F2) as (st & Hst & P2).
    assert (st = []) as -> by (apply nil_length_inv; unfold len in *; lia). rewrite app_nil_r in P2.
    destruct (produced_flush _ s1 w2 P2) as (q & s3 & w3 & -> & I3 & P3 & F3). cbn [mbind result_bind].
    rewrite foldM_one, advance_ok by done.
    eexists. split; [reflexivity|]. cbn. split_and!; try done. by eapply same_input_trans, same_input_trans.
  - clear Etot. unfold answers in Eans. apply orb_false_iff in Eans as [Eo Er].
    apply negb_false_iff, Nat.eqb_eq, nil_length_inv in Eo.
    assert (Erep : reply e results r = []).
    { unfold reply. rewrite results_backs, Eo. by destruct (e_retval e). }
    rewrite Erep, app_nil_r. destruct (e_retval e) eqn:Erv; [| |done].
    1, 2: cbn [app]; rewrite foldM_app;
      destruct (mem_pass vars 0 Header m t None ∅ pos s w h) as (os & E2 & Hpl);
        [done|apply cursor_0|done|apply outs_sublist|done|];
      change (outs 0) with (@nil nat) in E2; rewrite E2; cbn [mbind result_bind foldM fmap option_fmap option_map]; rewrite Eo in Hc;
      rewrite (silent_call m t None os s w h h' r Eo Hc); cbn [mbind result_bind]; rewrite advance_ok by done;
      cbn [mbind result_bind];
      eexists; (split; [reflexivity|]); by cbn.
Qed.

End Case.

(** ** The loop over packets *)

(** A request: the index of the entry point, the arguments, the stale bytes that
    its packet ends with. *)
Record request := mkRequest { q_index : nat; q_args : list arg; q_stale : list Z }.

Section Loop.
Context {T : Transport} {L : TransportLaws T} {H : Type}.
Variables (base : Z) (api : list EntryPoint).
Variable call : Z -> list harg -> H -> result (list (list Z) * Z * H).

Definition request_bytes (q : request) : list Z :=
  match api !! q_index q with
  | Some e => packet (opcode_of base (q_index q)) e (q_args q) (q_stale q)
  | None => []
  end.

(** A packet of the encoder for an entry of this interface. *)
Record request_ok (q : request) (e : EntryPoint) : Prop := {
  rq_entry : api !! q_index q = Some e;
  rq_opcode : 0 <= base /\ base + Z.of_nat (q_index q) < 2 ^ 31;
  rq_call : call_ok e (q_args q);
  rq_stale : len (q_stale q) = slacks (q_args q) (indexed (e_vars e)) }.

(** The host performs a request: its function sees the arguments, and what it
    stores and returns is the reply. *)
Inductive performs (q : request) (h : H) : H -> list Z -> Prop :=
  | performs_intro e results r h' :
      request_ok q e -> answer_ok e (q_args q) results r -> len (reply e results r) < 2 ^ 31 ->
      call (opcode_of base (q_index q)) (seen (q_args q) (q_stale q) (indexed (e_vars e))) h =
        Ok (results <$> out_indices (e_vars e), r, h') ->
      performs q h h' (reply e results r).

Inductive performs_all : list request -> H -> H -> list Z -> Prop :=
  | performs_nil h : performs_all [] h h []
  | performs_cons q qs h h1 h2 rep reps :
      performs q h h1 rep -> performs_all qs h1 h2 reps -> performs_all (q :: qs) h h2 (rep ++ reps).

Definition requests_bytes (qs : list request) : list Z := concat (request_bytes <$> qs).

(** The valid bytes do not start with a whole packet of this interface. *)
Definition stops (valid : list Z) : Prop :=
  8 <= len valid ->
  len valid < u32 (le_value (take 4 (drop 4 valid))) \/
  (let opcode := s32 (le_value (take 4 valid)) in
   api !! Z.to_nat (opcode - base) = None \/ opcode < base).

Lemma opcode_small q : 0 <= base /\ base + Z.of_nat (q_index q) < 2 ^ 31 ->
  opcode_of base (q_index q) = base + Z.of_nat (q_index q).
Proof. intros. unfold opcode_of. rewrite u32_small by lia. lia. Qed.

Lemma request_length q e : request_ok q e -> len (request_bytes q) = packet_size e (q_args q).
Proof. intros []. unfold request_bytes. rewrite rq_entry0. by apply packet_length. Qed.

(** The header of a request. *)
Lemma request_header q e :
  request_ok q e -> exists body, request_bytes q =
    le_bytes 4 (opcode_of base (q_index q)) ++ le_bytes 4 (packet_size e (q_args q)) ++ body.
Proof.
  intros []. unfold request_bytes, packet. rewrite rq_entry0, header_is by done.
  eexists. by rewrite <-!app_assoc.
Qed.

Lemma drop_to_end (mem pre post : list Z) p :
  mem = pre ++ post -> p = len pre -> forall k, 0 <= k <= len post ->
  read_block mem p k = Ok (take (Z.to_nat k) post).
Proof.
  intros -> -> k Hk. unfold read_block, len in *. rewrite length_app. rewrite decide_True by lia.
  unfold slice. by rewrite Nat2Z.id, drop_app_length.
Qed.

(** The loop performs the whole packets in the buffer and stops behind them. *)
Lemma decode_loop_ok qs fuel front valid junk s w h h' reps before :
  performs_all qs h h' reps -> stops valid -> (length qs < fuel)%nat ->
  len (front ++ requests_bytes qs ++ valid) < 2 ^ 31 -> produced before s w ->
  exists s' w', decode_loop call fuel base api (front ++ requests_bytes qs ++ valid ++ junk)
      (len (front ++ requests_bytes qs ++ valid)) (len front) s w h =
      Ok (len front + len (requests_bytes qs), s', w', h') /\
    same_input w w' /\ produced (before ++ reps) s' w' /\ (flushed s -> flushed s').
Proof.
  intros HP. revert fuel front s w before. induction HP as [h|q qs h h1 h2 rep reps Hq HP IH];
    intros fuel front s w before Hst Hfuel Hn Hp; (destruct fuel as [|fuel]; [simpl in *; lia|]); cbn [decode_loop].
  - change (requests_bytes []) with (@nil Z) in *. cbn [app] in *. change (len []) with 0.
    rewrite Z.add_0_r, app_nil_r.
    assert (Hv : size_t (len (front ++ valid) - len front) = len valid).
    { rewrite len_app in *. rewrite size_t_small; unfold len in *; lia. }
    rewrite Hv. destruct (Z.leb_spec 8 (len valid)) as [H8|]; [|by exists s, w].
    rewrite (drop_to_end (front ++ valid ++ junk) front (valid ++ junk)); [|done|done|rewrite len_app; unfold len in *; lia].
    cbn [mbind result_bind]. unfold read_u32.
    rewrite (drop_to_end (front ++ valid ++ junk) (front ++ take 4 valid) (drop 4 valid ++ junk)).
    2: { by rewrite <-app_assoc, (app_assoc (take 4 valid)), take_drop. }
    2: { unfold len in *. rewrite length_app, length_take. lia. }
    2: { unfold len in *. rewrite length_app, length_drop. lia. }
    cbn [mbind result_bind]. change (Z.to_nat 4) with 4%nat. rewrite !take_app_le by (rewrite ?length_drop; unfold len in *; lia).
    destruct (Hst H8) as [Hlt|Hno].
    + rewrite (proj2 (Z.ltb_lt _ _)) by exact Hlt. by exists s, w.
    + destruct (_ <? _); [by exists s, w|]. destruct Hno as [-> |Hb]; [by exists s, w|].
      rewrite (proj2 (Z.leb_gt _ _)) by exact Hb. destruct (api !! _); by exists s, w.
  - destruct Hq as [e results r h' Hok Hans Hlen Hc]. pose proof (request_length q e Hok) as Hql.
    destruct (request_header q e Hok) as [body Eb]. pose proof Hok as [He Hopc Hco Hstale].
    pose proof (size_small e (q_args q) Hco) as Hsz. pose proof (opcode_small q Hopc) as Eop.
    unfold requests_bytes in *. cbn [fmap list_fmap concat] in *. fold (requests_bytes qs) in *.
    rewrite <-!app_assoc in *. set (rest := requests_bytes qs ++ valid) in *.
    assert (Hn' : len front + packet_size e (q_args q) + len rest < 2 ^ 31) by (rewrite !len_app in Hn; lia).
    assert (Hv : size_t (len (front ++ request_bytes q ++ rest) - len front) = packet_size e (q_args q) + len rest).
    { rewrite !len_app, Hql. rewrite size_t_small; unfold len in *; lia. }
    rewrite Hv. rewrite (proj2 (Z.leb_le _ _)) by (unfold len in *; lia).
    rewrite (block_in _ front (le_bytes 4 (opcode_of base (q_index q)))
               (le_bytes 4 (packet_size e (q_args q)) ++ body ++ rest ++ junk));
      [|subst rest; rewrite Eb, <-!app_assoc; done|done|by rewrite le_bytes_length].
    cbn [mbind result_bind].
    rewrite (read_u32_at _ (len front + 4) (packet_size e (q_args q))).
    2: { apply (block_in _ (front ++ le_bytes 4 (opcode_of base (q_index q))) _ (body ++ rest ++ junk)).
         - subst rest. rewrite Eb, <-!app_assoc. done.
         - unfold len. rewrite length_app, le_bytes_length. lia.
         - by rewrite le_bytes_length. }
    2: lia.
    cbn [mbind result_bind]. rewrite (proj2 (Z.ltb_ge _ _)) by (unfold len in *; lia).
    rewrite le_value_bytes by (change (256 ^ Z.of_nat 4) with (2 ^ 32); lia). rewrite s32_small by lia.
    replace (Z.to_nat (opcode_of base (q_index q) - base)) with (q_index q) by (rewrite Eop; lia).
    rewrite He. rewrite (proj2 (Z.leb_le base _)) by (rewrite Eop; lia).
    assert (Hbytes : request_bytes q = packet (opcode_of base (q_index q)) e (q_args q) (q_stale q)).
    { unfold request_bytes. by rewrite He. }
    assert (Emem : forall X, front ++ request_bytes q ++ X =
              front ++ packet (opcode_of base (q_index q)) e (q_args q) (q_stale q) ++ X) by (intros; by rewrite Hbytes).
    destruct (case_performs call (opcode_of base (q_index q)) e (q_args q) (q_stale q) front
                (requests_bytes qs ++ valid ++ junk) Hco Hstale ltac:(lia) results r s w h h' before)
      as (f & E1 & Epos & Ehost & I1 & P1 & F1); [done|done|done|unfold len in *; lia|done|].
    rewrite <-Emem in E1. rewrite E1. cbn [mbind result_bind]. rewrite Epos, Ehost.
    destruct (IH fuel (front ++ request_bytes q) (d_stream f) (d_world f) (before ++ reply e results r))
      as (s' & w' & E2 & I2 & P2 & F2); [done|simpl in *; lia|by rewrite <-app_assoc|done|].
    rewrite <-!app_assoc in E2. rewrite (len_app front (request_bytes q)), Hql in E2. rewrite E2.
    exists s', w'. split; [rewrite len_app, Hql; do 4 f_equal; lia|].
    split; [by eapply same_input_trans|]. split; [by rewrite <-app_assoc in P2|]. auto.
Qed.

(** [decode] on a buffer: the whole packets of the interface are performed, their
    size is returned, and what they answer is sent. *)
Lemma decode_performs qs valid junk s w h h' reps before :
  performs_all qs h h' reps -> stops valid ->
  len (requests_bytes qs ++ valid) < 2 ^ 31 -> produced before s w ->
  exists s' w', decode call base api (requests_bytes qs ++ valid ++ junk) (len (requests_bytes qs ++ valid)) s w h =
      Ok (len (requests_bytes qs), s', w', h') /\
    same_input w w' /\ produced (before ++ reps) s' w' /\ (flushed s -> flushed s').
Proof.
  intros HP Hst Hn Hp.
  assert (Hq : 8 * Z.of_nat (length qs) <= len (requests_bytes qs)).
  { clear -HP. induction HP as [|q qs h h1 h2 rep reps Hq HP IH]; [done|]. destruct Hq as [e ? ? ? Hok].
    unfold requests_bytes in *. cbn [fmap list_fmap concat length]. rewrite len_app, (request_length q e Hok).
    pose proof (size_small e (q_args q) (rq_call _ _ Hok)). lia. }
  unfold decode. destruct (Z.ltb_spec (len (requests_bytes qs ++ valid)) 8) as [Hs|Hs].
  - rewrite len_app in Hs. assert (qs = []) as ->.
    { destruct qs; [done|]. simpl in Hq. unfold len in *. lia. }
    inversion HP; subst. exists s, w. by rewrite app_nil_r.
  - destruct (decode_loop_ok qs (S (Z.to_nat (len (requests_bytes qs ++ valid)))) [] valid junk s w h h' reps before)
      as (s' & w' & E & I & P & F); [done|done| |done|done|].
    + rewrite len_app in *. unfold len in *. lia.
    + by exists s', w'.
Qed.

End Loop.
