(* ===== verification/RenderThread.v ===== *)
(** * The thread that performs a guest's calls

    [src/emulator/opengl/host/libs/libOpenglRender/ReadBuffer.cpp] and the loop of
    [RenderThread.cpp]: bytes are read into a buffer that grows, and three
    decoders take turns at what is in it.  The interfaces of the decoders, their
    functions and what the thread does at its end are parameters: GL 1 and GL 2
    are the host's library, [renderControl] is [Renderer].

    [render_thread_performs]: however the bytes of the packets arrive, every call
    is performed once, in order, and answered.  [remote_call]: a call of the guest
    through the generated encoder, and the thread at the other end. *)
From S2P Require Import Prelude GlStream EmuGen EmuDecode.
Local Open Scope Z_scope.

(** ** ReadBuffer *)

(** [rb_ptr] is [m_readPtr - m_buf]; the buffer is NULL when [malloc] failed. *)
Record ReadBuffer := mkReadBuffer {
  rb_buf : option (list Z);
  rb_ptr : Z;
  rb_size : Z;
  rb_valid : Z }.

Definition new_ReadBuffer (bufsize : Z) (w : World) : ReadBuffer * World :=
  let '(ok, w) := can_allocate w in
  (mkReadBuffer (if (ok : bool) then Some (fresh_block bufsize w) else None) 0 bufsize 0, w).

Section ReadBuffer.
Context {T : Transport}.

(** [memmove] of the valid bytes to the front. *)
Definition compact (rb : ReadBuffer) : result (option (list Z)) :=
  match rb_buf rb with
  | Some b =>
      if (0 <? rb_valid rb) && (0 <? rb_ptr rb) then
        d ← read_block b (rb_ptr rb) (rb_valid rb); b ← write_block b 0 d; Ok (Some b)
      else Ok (Some b)
  | None => Ok None
  end.

(** Doubling a full buffer; [None] when there is no memory. *)
Definition grow (b : option (list Z)) (size : Z) (w : World) : option (option (list Z) * Z) * World :=
  let new_size := size_t (size * 2) in
  let new_size := if new_size <? size then INT_MAX else new_size in
  let '(ok, w) := can_allocate w in
  if (ok : bool) then
    let old := default [] b in
    (Some (Some (take (Z.to_nat new_size) (old ++ drop (length old) (fresh_block new_size w))), new_size), w)
  else (None, w).

Definition getData (rb : ReadBuffer) (s : Stream) (w : World) : result (Z * ReadBuffer * World) :=
  b ← compact rb;
  let '(r, w) := if size_t (rb_size rb - rb_valid rb) =? 0 then grow b (rb_size rb) w
                 else (Some (b, rb_size rb), w) in
  match r with
  | None => Ok (-1, mkReadBuffer b (rb_ptr rb) (rb_size rb) (rb_valid rb), w)
  | Some (b, size) =>
      let n := size_t (size - rb_valid rb) in
      let at_end := drop (Z.to_nat (rb_valid rb)) <$> b in
      '(r, at_end', w) ← read at_end n s w;
      let b := match b, at_end' with
               | Some b, Some d => Some (take (Z.to_nat (rb_valid rb)) b ++ d)
               | _, _ => b
               end in
      Ok (match r with
          | Some len => (s32 len, mkReadBuffer b 0 size (rb_valid rb + len), w)
          | None => (-1, mkReadBuffer b 0 size (rb_valid rb), w)
          end)
  end.

Definition consume (amount : Z) (rb : ReadBuffer) : result ReadBuffer :=
  if amount <=? rb_valid rb
  then Ok (mkReadBuffer (rb_buf rb) (rb_ptr rb + amount) (rb_size rb) (rb_valid rb - amount))
  else Err FatalExit.

(** What [buf()] points to. *)
Definition buf (rb : ReadBuffer) : list Z := drop (Z.to_nat (rb_ptr rb)) (default [] (rb_buf rb)).

End ReadBuffer.

(** ** RenderThread *)

(** A decoder: its opcodes, its entry points and their functions. *)
Record Decoder (H : Type) := mkDecoder {
  d_base : Z;
  d_api : list EntryPoint;
  d_call : Z -> list harg -> H -> result (list (list Z) * Z * H) }.
Arguments mkDecoder {H}.
Arguments d_base {H}.
Arguments d_api {H}.
Arguments d_call {H}.

Section RenderThread.
Context {T : Transport} {H : Type}.

(** [m_glDec], [m_gl2Dec] and [m_rcDec]; what the thread does when it ends. *)
Variables (decoders : list (Decoder H)) (leave : H -> result H).

Record Thread := mkThread { t_rb : ReadBuffer; t_stream : Stream; t_world : World; t_host : H }.

(** One decoder's turn, and whether there has been progress. *)
Definition try_decoder (tp : Thread * bool) (d : Decoder H) : result (Thread * bool) :=
  let '(t, progress) := tp in
  '(last, s, w, h) ← decode (d_call d) (d_base d) (d_api d) (buf (t_rb t)) (rb_valid (t_rb t))
                            (t_stream t) (t_world t) (t_host t);
  if 0 <? last then rb ← consume last (t_rb t); Ok (mkThread rb s w h, true)
  else Ok (mkThread (t_rb t) s w h, progress).

(** [do { ... } while (progress);] *)
Fixpoint decode_all (fuel : nat) (t : Thread) : result Thread :=
  match fuel with
  | O => Err OutOfFuel
  | S fuel =>
      '(t, progress) ← foldM try_decoder (t, false) decoders;
      if (progress : bool) then decode_all fuel t else Ok t
  end.

Fixpoint main_loop (fuel : nat) (t : Thread) : result Thread :=
  match fuel with
  | O => Err OutOfFuel
  | S fuel =>
      '(stat, rb, w) ← getData (t_rb t) (t_stream t) (t_world t);
      if stat <=? 0 then Ok (mkThread rb (t_stream t) w (t_host t))
      else
        t ← decode_all (S (Z.to_nat (rb_valid rb))) (mkThread rb (t_stream t) w (t_host t));
        main_loop fuel t
  end.

Definition main_with (bufsize : Z) (s : Stream) (w : World) (h : H) : result Thread :=
  let '(rb, w) := new_ReadBuffer bufsize w in
  t ← main_loop (S (length (incoming (w_in w)))) (mkThread rb s w h);
  h ← leave (t_host t);
  Ok (mkThread (t_rb t) (t_stream t) (t_world t) h).

Definition STREAM_BUFFER_SIZE : Z := 4 * 1024 * 1024.

Definition Main (s : Stream) (w : World) (h : H) : result Thread := main_with STREAM_BUFFER_SIZE s w h.

End RenderThread.

(** ** Streams of requests *)

Lemma produced_in before s w i : produced before s w -> produced before s (with_in i w).
Proof. intros (H & Hw & E). split; [by apply stream_ok_in|]. by split. Qed.

Lemma produced_allocate before s w b w' :
  produced before s w -> can_allocate w = (b, w') -> b = true /\ produced before s w' /\ same_input w w'.
Proof.
  intros ([] & [Hw Hm] & E) Ec. destruct (can_allocate_ok w) as (b' & m & E' & Hb). rewrite Ec in E'. injection E' as -> ->.
  destruct (Hb Hm) as [-> Hm']. split; [done|]. split; [|done]. split; [by split|]. by split.
Qed.

Section Requests.
Context {T : Transport} {L : TransportLaws T} {H : Type}.
Variables (decoders : list (Decoder H)) (leave : H -> result H).

(** A request with the index of the decoder it is for. *)
Definition tagged_bytes (iq : nat * request) : list Z :=
  match decoders !! fst iq with
  | Some d => request_bytes (d_base d) (d_api d) (snd iq)
  | None => []
  end.

Definition stream_bytes (rqs : list (nat * request)) : list Z := concat (tagged_bytes <$> rqs).

(** The host performs the requests one after the other. *)
Inductive runs : list (nat * request) -> H -> H -> list Z -> Prop :=
  | runs_nil h : runs [] h h []
  | runs_cons i d q rqs h h1 h2 rep reps :
      decoders !! i = Some d -> performs (d_base d) (d_api d) (d_call d) q h h1 rep ->
      runs rqs h1 h2 reps -> runs ((i, q) :: rqs) h h2 (rep ++ reps).

(** No opcode belongs to two decoders. *)
Definition disjoint_opcodes : Prop :=
  forall i j d d', i <> j -> decoders !! i = Some d -> decoders !! j = Some d' ->
  d_base d + Z.of_nat (length (d_api d)) <= d_base d' \/ d_base d' + Z.of_nat (length (d_api d')) <= d_base d.

Hypothesis Hdisj : disjoint_opcodes.

Lemma stream_bytes_cons iq rqs : stream_bytes (iq :: rqs) = tagged_bytes iq ++ stream_bytes rqs.
Proof. done. Qed.

(** A prefix of the stream does not contain the first request whole. *)
Definition incomplete (valid : list Z) (rqs : list (nat * request)) : Prop :=
  match rqs with [] => True | iq :: _ => len valid < len (tagged_bytes iq) end.

(** The whole requests for a decoder at the front of what has arrived. *)
Lemma front_requests i d rqs valid later h h2 reps :
  decoders !! i = Some d -> runs rqs h h2 reps -> valid ++ later = stream_bytes rqs ->
  exists qs rqs' valid' h1 reps1 reps2,
    rqs = (pair i <$> qs) ++ rqs' /\ valid = requests_bytes (d_base d) (d_api d) qs ++ valid' /\
    valid' ++ later = stream_bytes rqs' /\ stops (d_base d) (d_api d) valid' /\
    performs_all (d_base d) (d_api d) (d_call d) qs h h1 reps1 /\ runs rqs' h1 h2 reps2 /\ reps = reps1 ++ reps2 /\
    match rqs' with [] => True | (j, q) :: _ => j <> i \/ len valid' < len (tagged_bytes (j, q)) end.
Proof.
  intros Hd Hr. revert valid. induction Hr as [h|j d' q rqs h h1 h2 rep reps Hd' Hq Hr IH]; intros valid Hv.
  { exists [], [], [], h, [], []. apply app_eq_nil in Hv as [-> ->]. split_and!; try done; [|constructor..].
    intros H8. unfold len in H8. simpl in H8. lia. }
  rewrite stream_bytes_cons in Hv. assert (Eb : tagged_bytes (j, q) = request_bytes (d_base d') (d_api d') q).
  { unfold tagged_bytes. cbn [fst snd]. by rewrite Hd'. }
  destruct (decide (j = i /\ len (tagged_bytes (j, q)) <= len valid)) as [[-> Hle]|Hno].
  - rewrite Hd in Hd'. injection Hd' as <-.
    assert (Hsplit : valid = tagged_bytes (i, q) ++ drop (length (tagged_bytes (i, q))) valid).
    { apply (f_equal (take (length (tagged_bytes (i, q))))) in Hv.
      rewrite take_app_length, take_app_le in Hv by (unfold len in *; lia). by rewrite <-Hv at 1; rewrite take_drop. }
    set (v1 := drop (length (tagged_bytes (i, q))) valid) in *. clearbody v1. subst valid.
    rewrite <-app_assoc in Hv. apply app_inv_head in Hv.
    destruct (IH v1 Hv) as (qs & rqs' & v' & h' & r1 & r2 & -> & -> & E & Hst & Hp & Hr' & -> & Hh).
    exists (q :: qs), rqs', v', h', (rep ++ r1), r2. split_and!; try done.
    + rewrite Eb. unfold requests_bytes. cbn [fmap list_fmap concat]. by rewrite <-app_assoc.
    + by econstructor.
    + by rewrite app_assoc.
  - exists [], ((j, q) :: rqs), valid, h, [], (rep ++ reps). split_and!; try done; [|constructor|by econstructor|].
    2: { destruct (decide (j = i)) as [->|]; [right|by left]. apply Z.nle_gt. intros Hle. by apply Hno. }
    intros H8. destruct Hq as [e results r h' Hok _ _ _]. destruct (request_header _ _ q e Hok) as [body Hh].
    pose proof (size_small e (q_args q) (rq_call _ _ _ _ Hok)) as Hsz.
    pose proof (rq_opcode _ _ _ _ Hok) as Hop. pose proof (opcode_small _ q Hop) as Eop.
    assert (E8 : take 8 valid = le_bytes 4 (opcode_of (d_base d') (q_index q)) ++ le_bytes 4 (packet_size e (q_args q))).
    { rewrite <-(take_app_le valid later 8) by (unfold len in *; lia). rewrite Hv, Eb, Hh, <-!app_assoc, app_assoc.
      apply take_app_length'. by rewrite length_app, !le_bytes_length. }
    assert (E4 : take 4 valid = le_bytes 4 (opcode_of (d_base d') (q_index q))).
    { replace (take 4 valid) with (take 4 (take 8 valid)) by (rewrite take_take; done). rewrite E8.
      apply take_app_length'. by rewrite le_bytes_length. }
    assert (E5 : take 4 (drop 4 valid) = le_bytes 4 (packet_size e (q_args q))).
    { rewrite take_drop_commute. change (4 + 4)%nat with 8%nat. rewrite E8. apply drop_app_length'. by rewrite le_bytes_length. }
    rewrite E4, E5. rewrite !le_value_bytes by (change (256 ^ Z.of_nat 4) with (2 ^ 32); lia).
    rewrite u32_small by lia. rewrite s32_small by lia.
    destruct (decide (j = i)) as [->|Hne].
    + left. apply Z.nle_gt. intros Hle. apply Hno. split; [done|].
      rewrite Eb. rewrite (request_length _ _ q e Hok). done.
    + right. cbv zeta. rewrite Eop. pose proof (lookup_lt_Some _ _ _ (rq_entry _ _ _ _ Hok)) as Hlt.
      destruct (Hdisj i j d d') as [Hb|Hb]; try done; [left; apply lookup_ge_None; lia|right; lia].
Qed.

(** *** The thread between two steps *)

(** [all] is what has been answered and what will be; [valid] is in the buffer. *)
Record at_work (t : @Thread H) (rqs : list (nat * request)) (valid : list Z) (hfin : H) (all : list Z) : Prop := {
  at_buf : exists b, rb_buf (t_rb t) = Some b /\ len b = rb_size (t_rb t) /\ 0 <= rb_ptr (t_rb t) /\
    rb_ptr (t_rb t) + rb_valid (t_rb t) <= rb_size (t_rb t) /\ rb_valid (t_rb t) = len valid /\
    valid = take (length valid) (drop (Z.to_nat (rb_ptr (t_rb t))) b);
  at_size : 1 <= rb_size (t_rb t) < 2 ^ 31;
  at_bytes : valid ++ incoming (w_in (t_world t)) = stream_bytes rqs;
  at_runs : exists reps before, runs rqs (t_host t) hfin reps /\
    produced before (t_stream t) (t_world t) /\ before ++ reps = all;
  at_flushed : flushed (t_stream t) }.

(** A decoder's turn: it takes requests from the front. *)
Lemma try_ok i d t p rqs valid hfin all :
  decoders !! i = Some d -> at_work t rqs valid hfin all ->
  exists t' p' rqs' valid', try_decoder (t, p) d = Ok (t', p') /\ at_work t' rqs' valid' hfin all /\
    w_in (t_world t') = w_in (t_world t) /\ len valid' <= len valid /\
    (p' = false -> p = false /\ rqs' = rqs /\ valid' = valid) /\
    (p' = true -> p = true \/ len valid' < len valid) /\
    match rqs' with [] => True | (j, q) :: _ => j <> i \/ len valid' < len (tagged_bytes (j, q)) end.
Proof.
  intros Hd [(b & Eb & Hlb & Hptr & Hend & Hval & Hv) Hsz Hby (reps & before & Hr & Hp & Hall) Hf].
  destruct (front_requests i d rqs valid _ _ _ _ Hd Hr Hby)
    as (qs & rqs' & valid' & h1 & r1 & r2 & -> & -> & Hby' & Hst & Hpa & Hr' & -> & Hhead).
  set (bytes := requests_bytes (d_base d) (d_api d) qs) in *.
  assert (Hbuf : buf (t_rb t) = bytes ++ valid' ++ drop (length (bytes ++ valid')) (drop (Z.to_nat (rb_ptr (t_rb t))) b)).
  { unfold buf. rewrite Eb. simpl. rewrite (app_assoc bytes), Hv at 1. by rewrite take_drop. }
  unfold try_decoder. rewrite Hbuf, Hval.
  destruct (decode_performs (d_base d) (d_api d) (d_call d) qs valid'
              (drop (length (bytes ++ valid')) (drop (Z.to_nat (rb_ptr (t_rb t))) b))
              (t_stream t) (t_world t) (t_host t) h1 r1 before)
    as (s' & w' & ED & [I1 _] & P1 & F1); [done|done|fold bytes; lia|done|].
  fold bytes in ED. rewrite ED. clear ED. cbn [mbind result_bind].
  destruct (Z.ltb_spec 0 (len bytes)) as [Hpos|Hz].
  - unfold consume. rewrite Hval, len_app. rewrite (proj2 (Z.leb_le _ _)) by (unfold len; lia). cbn [mbind result_bind].
    eexists _, true, rqs', valid'. split; [reflexivity|]. split_and!; try done.
    + split; cbn; try done.
      * exists b. split_and!; try done; [unfold len in *; lia|rewrite len_app in *; unfold len in *; lia|lia|].
        apply (f_equal (drop (length bytes))) in Hv. rewrite drop_app_length in Hv.
        rewrite length_app, <-take_drop_commute, drop_drop in Hv. rewrite Hv at 1.
        f_equal. f_equal. unfold len. lia.
      * by rewrite I1.
      * exists r2, (before ++ r1). split_and!; try done. by rewrite <-app_assoc.
      * auto.
    + unfold len. lia.
    + intros _. right. lia.
  - assert (bytes = []) as E by (apply nil_length_inv; unfold len in *; lia).
    assert (qs = []) as ->.
    { destruct Hpa as [|q qs h h1 h2 rep reps Hq Hpa]; [done|]. destruct Hq as [e ? ? ? Hok].
      unfold bytes, requests_bytes in E. cbn [fmap list_fmap concat] in E. apply app_eq_nil in E as [E _].
      pose proof (request_length _ _ q e Hok) as Hl. rewrite E in Hl.
      pose proof (size_small e (q_args q) (rq_call _ _ _ _ Hok)). unfold len in Hl. simpl in Hl. lia. }
    inversion Hpa; subst. rewrite E in *. cbn [app fmap list_fmap] in *.
    eexists _, p, rqs', valid'. split; [reflexivity|]. split_and!; try done.
    + split; cbn; try done.
      * exists b. by split_and!.
      * by rewrite I1.
      * exists r2, before. split_and!; try done. by rewrite app_nil_r in P1.
      * auto.
    + by left.
Qed.

(** A turn of each decoder from the [k]-th on. *)
Lemma pass_ok k t p rqs valid hfin all :
  at_work t rqs valid hfin all ->
  exists t' p' rqs' valid', foldM try_decoder (t, p) (drop k decoders) = Ok (t', p') /\
    at_work t' rqs' valid' hfin all /\ w_in (t_world t') = w_in (t_world t) /\ len valid' <= len valid /\
    (p' = false -> p = false /\ rqs' = rqs /\ valid' = valid /\
       match rqs with [] => True | (j, q) :: _ => (j < k \/ length decoders <= j)%nat \/ len valid < len (tagged_bytes (j, q)) end) /\
    (p' = true -> p = true \/ len valid' < len valid).
Proof.
  remember (drop k decoders) as ds eqn:Eds. revert k t p rqs valid Eds.
  induction ds as [|d ds IH]; intros k t p rqs valid Eds Ht.
  { exists t, p, rqs, valid. split_and!; try done; [|by left]. intros ->. split_and!; try done. destruct rqs as [|[j q] rqs]; [done|].
    left. apply (f_equal length) in Eds. rewrite length_drop in Eds. simpl in Eds. lia. }
  destruct (drop_cons _ _ _ _ (eq_sym Eds)) as [Hd Hds]. cbn [foldM].
  destruct (try_ok k d t p rqs valid hfin all Hd Ht) as (t1 & p1 & rqs1 & v1 & -> & Ht1 & Hi1 & Hl1 & Hp1 & Hq1 & Hh1).
  cbn [mbind result_bind].
  destruct (IH (S k) t1 p1 rqs1 v1 (eq_sym Hds) Ht1) as (t2 & p2 & rqs2 & v2 & -> & Ht2 & Hi2 & Hl2 & Hp2 & Hq2).
  exists t2, p2, rqs2, v2. split_and!; try done; [congruence|lia| |].
  - intros E. destruct (Hp2 E) as (-> & -> & -> & Hno). destruct (Hp1 eq_refl) as (-> & -> & ->). split_and!; try done.
    destruct rqs as [|[j q] rqs]; [done|]. destruct Hno as [[|]|]; [|by left; right|by right].
    destruct (decide (j = k)) as [->|]; [right|left; left; lia]. by destruct Hh1.
  - intros E. destruct (Hq2 E) as [E1|]; [|right; lia]. destruct (Hq1 E1) as [|]; [by left|right; lia].
Qed.

(** Everything that has arrived whole is performed. *)
Lemma decode_all_ok fuel t rqs valid hfin all :
  at_work t rqs valid hfin all -> (length valid < fuel)%nat ->
  exists t' rqs' valid', decode_all decoders fuel t = Ok t' /\ at_work t' rqs' valid' hfin all /\
    w_in (t_world t') = w_in (t_world t) /\ len valid' <= len valid /\ incomplete valid' rqs'.
Proof.
  revert t rqs valid. induction fuel as [|fuel IH]; intros t rqs valid Ht Hf; [lia|]. cbn [decode_all].
  destruct (pass_ok 0 t false rqs valid hfin all Ht) as (t1 & p1 & rqs1 & v1 & E & Ht1 & Hi1 & Hl1 & Hp1 & Hq1).
  rewrite drop_0 in E. rewrite E. cbn [mbind result_bind]. destruct p1.
  - destruct (Hq1 eq_refl) as [|Hlt]; [done|].
    destruct (IH t1 rqs1 v1 Ht1) as (t2 & rqs2 & v2 & -> & Ht2 & Hi2 & Hl2 & Hno); [unfold len in *; lia|].
    exists t2, rqs2, v2. split_and!; try done; [congruence|lia].
  - destruct (Hp1 eq_refl) as (_ & -> & -> & Hno). exists t1, rqs, valid. split_and!; try done.
    destruct rqs as [|[j q] rqs]; [done|]. destruct Hno as [[|Hj]|]; [lia| |done]. exfalso.
    destruct (at_runs _ _ _ _ _ Ht) as (reps & before & Hr & _). inversion Hr; subst.
    match goal with Hd : decoders !! j = Some _ |- _ => apply lookup_lt_Some in Hd end. lia.
Qed.

(** *** Reading more *)

Lemma compact_front t rqs valid hfin all :
  at_work t rqs valid hfin all ->
  exists b, compact (t_rb t) = Ok (Some b) /\ len b = rb_size (t_rb t) /\ take (length valid) b = valid.
Proof.
  intros [(b & Eb & Hlb & Hptr & Hend & Hval & Hv) Hsz _ _ _]. unfold compact. rewrite Eb.
  destruct (Z.ltb_spec 0 (rb_valid (t_rb t))); cbn [andb].
  2: { exists b. split_and!; try done. rewrite Hval in *. assert (valid = []) as -> by (apply nil_length_inv; unfold len in *; lia). done. }
  destruct (Z.ltb_spec 0 (rb_ptr (t_rb t))); cbn [andb].
  2: { exists b. split_and!; try done. assert (E : rb_ptr (t_rb t) = 0) by lia. rewrite E in Hv. simpl in Hv. by rewrite drop_0 in Hv. }
  assert (Er : read_block b (rb_ptr (t_rb t)) (rb_valid (t_rb t)) = Ok valid).
  { unfold read_block. rewrite decide_True by (unfold len in *; lia). unfold slice. rewrite Hval. unfold len.
    rewrite Nat2Z.id. by rewrite <-Hv. }
  rewrite Er. cbn [mbind result_bind]. rewrite over_write by lia. cbn [mbind result_bind].
  eexists. split; [reflexivity|]. split.
  - unfold len. rewrite over_length by lia. exact Hlb.
  - unfold over. change (Z.to_nat 0) with 0%nat. rewrite take_0. simpl. by rewrite take_app_length.
Qed.

Lemma getData_ok t rqs valid hfin all :
  at_work t rqs valid hfin all -> len (stream_bytes rqs) < 2 ^ 30 ->
  exists stat rb w', getData (t_rb t) (t_stream t) (t_world t) = Ok (stat, rb, w') /\
    (if 0 <? stat then
       exists got, got <> [] /\ at_work (mkThread rb (t_stream t) w' (t_host t)) rqs (valid ++ got) hfin all /\
         incoming (w_in (t_world t)) = got ++ incoming (w_in w')
     else incoming (w_in (t_world t)) = [] /\
       forall before, produced before (t_stream t) (t_world t) -> produced before (t_stream t) w').
Proof.
  intros Ht Hb. destruct (compact_front _ _ _ _ _ Ht) as (b & Ec & Hlb & Hv).
  destruct Ht as [(b0 & Eb & Hlb0 & Hptr & Hend & Hval & Hv0) Hsz Hby (reps & before & Hr & Hp & Hall) Hf].
  unfold getData. rewrite Ec. cbn [mbind result_bind].
  assert (Hnn : 0 <= len valid) by (unfold len; lia).
  assert (Htot : len valid <= len (stream_bytes rqs)) by (rewrite <-Hby, len_app; unfold len; lia).
  assert (Hgrow : exists b1 size w1, (if size_t (rb_size (t_rb t) - rb_valid (t_rb t)) =? 0
                   then grow (Some b) (rb_size (t_rb t)) (t_world t)
                   else (Some (Some b, rb_size (t_rb t)), t_world t)) = (Some (Some b1, size), w1) /\
            (forall before, produced before (t_stream t) (t_world t) -> produced before (t_stream t) w1) /\
            w_in w1 = w_in (t_world t) /\ len b1 = size /\ take (length valid) b1 = valid /\
            len valid < size < 2 ^ 31).
  { rewrite size_t_small by lia. destruct (Z.eqb_spec (rb_size (t_rb t) - rb_valid (t_rb t)) 0).
    - unfold grow. rewrite size_t_small by lia. rewrite (proj2 (Z.ltb_ge _ _)) by lia.
      destruct (can_allocate (t_world t)) as [ok w1] eqn:Ea.
      destruct (produced_allocate _ _ _ _ _ Hp Ea) as (-> & _ & [Ii _]).
      change (default [] (Some b)) with b.
      eexists _, _, w1. split; [reflexivity|]. split_and!; try done.
      + intros bf Hbf. by destruct (produced_allocate _ _ _ _ _ Hbf Ea) as (_ & ? & _).
      + unfold len, fresh_block in *. rewrite length_take, length_app, length_drop, length_fmap, length_seq. lia.
      + rewrite take_take, Nat.min_l by (unfold len in *; lia).
        by rewrite take_app_le by (unfold len in *; lia).
      + lia.
      + lia.
    - exists b, (rb_size (t_rb t)), (t_world t). split_and!; try done; lia. }
  destruct Hgrow as (b1 & size & w1 & -> & Hpr & Ei & Hl1 & Hv1 & Hroom).
  rewrite size_t_small by lia. cbn [fmap option_fmap option_map]. rewrite Hval.
  set (at_end := drop (Z.to_nat (len valid)) b1).
  assert (Hae : len at_end = size - len valid) by (unfold at_end, len in *; rewrite length_drop; lia).
  destruct (read_law at_end (size - len valid) (t_stream t) w1) as (r & d & i & -> & Hrd);
    [apply (Hpr _ Hp)|lia|lia|]. cbn [mbind result_bind].
  destruct Hrd as [(E0 & -> & -> & Ei')|(k & Hk & -> & -> & Ei')].
  - eexists _, _, _. split; [reflexivity|]. cbn. rewrite Ei in E0. split_and!; try done.
    intros bf Hbf. apply produced_in. auto.
  - eexists _, _, _. split; [reflexivity|]. unfold got in Hk. rewrite Ei in *.
    rewrite s32_small by lia. rewrite (proj2 (Z.ltb_lt 0 k)) by lia.
    set (new := take (Z.to_nat k) (incoming (w_in (t_world t)))).
    assert (Hnew : len new = k) by (unfold new; apply len_take; lia).
    assert (Einc : incoming (w_in (t_world t)) = new ++ incoming i) by (rewrite Ei'; unfold new; by rewrite take_drop).
    exists new. split_and!; [intros E; rewrite E in Hnew; unfold len in Hnew; simpl in Hnew; lia| |done].
    assert (Etk : take (Z.to_nat (len valid)) b1 = valid) by (unfold len; by rewrite Nat2Z.id).
    rewrite Etk. split; cbn; try done.
    + eexists. split; [reflexivity|]. split_and!; try lia.
      * rewrite len_app. unfold len at 2. rewrite over_length by (unfold len in *; lia). unfold len in *. lia.
      * rewrite len_app. lia.
      * change (Z.to_nat 0) with 0%nat. rewrite drop_0. unfold over. change (Z.to_nat 0) with 0%nat. rewrite take_0. simpl.
        rewrite app_assoc. by rewrite take_app_length.
    + unfold len in *. lia.
    + by rewrite <-app_assoc, <-Einc.
    + exists reps, before. split_and!; try done. apply produced_in. auto.
Qed.

(** The whole loop. *)
Lemma main_loop_ok fuel t rqs valid hfin all :
  at_work t rqs valid hfin all -> incomplete valid rqs -> len (stream_bytes rqs) < 2 ^ 30 ->
  (length (incoming (w_in (t_world t))) < fuel)%nat ->
  exists t', main_loop decoders fuel t = Ok t' /\ t_host t' = hfin /\ flushed (t_stream t') /\
    produced all (t_stream t') (t_world t').
Proof.
  revert t rqs valid. induction fuel as [|fuel IH]; intros t rqs valid Ht Hinc Hb Hf; [lia|]. cbn [main_loop].
  destruct (getData_ok _ _ _ _ _ Ht Hb) as (stat & rb & w' & -> & Hres). cbn [mbind result_bind].
  destruct (Z.ltb_spec 0 stat).
  - rewrite (proj2 (Z.leb_gt _ _)) by done. destruct Hres as (new & Hne & Ht1 & Einc).
    destruct (decode_all_ok (S (Z.to_nat (rb_valid rb))) _ _ _ _ _ Ht1) as (t2 & rqs2 & v2 & -> & Ht2 & Hi2 & Hl2 & Hinc2).
    { destruct (at_buf _ _ _ _ _ Ht1) as (b & _ & _ & _ & _ & Hval & _). cbn in Hval. rewrite Hval. unfold len. lia. }
    cbn [mbind result_bind]. apply (IH t2 rqs2 v2 Ht2 Hinc2).
    + pose proof (at_bytes _ _ _ _ _ Ht2) as B2. pose proof (at_bytes _ _ _ _ _ Ht1) as B1. cbn in B1, Hi2.
      rewrite <-B2, len_app, Hi2. rewrite <-B1, len_app in Hb. lia.
    + cbn in Hi2. rewrite Hi2. rewrite Einc, length_app in Hf. destruct new; [done|]. simpl in Hf. lia.
  - rewrite (proj2 (Z.leb_le _ _)) by done. destruct Hres as (E0 & Hpr).
    destruct Ht as [Hbuf Hsz Hby (reps & before & Hr & Hp & Hall) Hfl].
    eexists. split; [reflexivity|]. cbn. rewrite E0, app_nil_r in Hby.
    assert (rqs = []) as ->.
    { destruct rqs as [|iq rqs]; [done|]. simpl in Hinc. rewrite Hby, stream_bytes_cons, len_app in Hinc. unfold len in *. lia. }
    inversion Hr; subst. rewrite app_nil_r. auto.
Qed.

(** The thread on a stream of whole packets. *)
Lemma main_with_ok bufsize s w h hfin hend reps rqs :
  1 <= bufsize < 2 ^ 31 -> stream_ok s w -> steady w -> flushed s ->
  incoming (w_in w) = stream_bytes rqs -> len (stream_bytes rqs) < 2 ^ 30 ->
  runs rqs h hfin reps -> leave hfin = Ok hend ->
  exists t, main_with decoders leave bufsize s w h = Ok t /\ t_host t = hend /\
    w_sent (t_world t) = w_sent w ++ reps.
Proof.
  intros Hb Hs Hw Hf Hi Hsmall Hr Hl. unfold main_with, new_ReadBuffer.
  destruct (can_allocate w) as [ok w1] eqn:Ea.
  assert (Hp : produced (w_sent w) s w) by (split; [done|split; [done|]]; by rewrite (flushed_pending s w Hf), app_nil_r).
  destruct (produced_allocate _ _ _ _ _ Hp Ea) as (-> & Hp1 & [Ii _]).
  edestruct (main_loop_ok (S (length (incoming (w_in w1)))) (mkThread (mkReadBuffer (Some (fresh_block bufsize w1)) 0 bufsize 0) s w1 h)
    rqs [] hfin (w_sent w ++ reps)) as (t & -> & Hh & Hft & Hpt); [|destruct rqs as [|[i q] rqs]; [done|]|done|simpl; lia|].
  - split; cbn; try done.
    + eexists. split; [reflexivity|]. split_and!; try done; [|lia]. unfold len, fresh_block. rewrite length_fmap, length_seq. lia.
    + by rewrite Ii.
    + by exists reps, (w_sent w).
  - inversion Hr as [|? d ? ? ? ? ? ? ? Hd Hq Hr']; subst. simpl. destruct Hq as [e ? ? ? Hok]. unfold tagged_bytes. cbn [fst snd].
    rewrite Hd, (request_length _ _ q e Hok). pose proof (size_small e (q_args q) (rq_call _ _ _ _ Hok)). unfold len. simpl. lia.
  - cbn [mbind result_bind]. rewrite Hh, Hl. cbn [mbind result_bind]. eexists. split; [reflexivity|]. split; [done|]. cbn.
    destruct Hpt as (_ & _ & E). by rewrite (flushed_pending _ _ Hft), app_nil_r in E.
Qed.

End Requests.

(** C7 A thread that serves a stream: whatever the sizes of the pieces in which
    the packets arrive and the initial size of the buffer, every call of the
    packets is performed once, in the order of the stream, by the decoder its
    opcode belongs to, with the arguments of the packet; the replies are sent in
    that order and nothing else is; the loops end and nothing is read or written
    outside of a buffer. *)
Theorem render_thread_performs (T : Transport) (L : TransportLaws T) (H : Type) (decoders : list (Decoder H)) leave
    sock bufSize bufsize fresh out inp h hfin hend rqs reps :
  disjoint_opcodes decoders -> 0 <= sock -> 0 <= bufSize < 2 ^ 31 -> 1 <= bufsize < 2 ^ 31 ->
  Forall willing out -> incoming inp = stream_bytes decoders rqs -> len (stream_bytes decoders rqs) < 2 ^ 30 ->
  runs decoders rqs h hfin reps -> leave hfin = Ok hend ->
  exists t, main_with decoders leave bufsize (new_stream sock bufSize) (mkWorld ∅ 0 [] fresh [] out inp) h = Ok t /\
    t_host t = hend /\ w_sent (t_world t) = reps.
Proof.
  intros Hd Hs Hb Hb' Hw Hi Hl Hr He.
  apply (main_with_ok decoders leave Hd bufsize (new_stream sock bufSize) (mkWorld ∅ 0 [] fresh [] out inp) h hfin hend reps rqs); try done.
  - apply stream_ok_new; [done|done|]. intros a [x Hx]. simpl in Hx. by rewrite lookup_empty in Hx.
  - by left.
Qed.

(** C8 A call from the guest to the host and back.  The guest's generated encoder
    sends a packet; a thread of the host that receives exactly these bytes, in any
    pieces, performs the call with the arguments of the guest and answers; with
    that answer, the encoder gives the guest the results and the value that the
    host's function produced. *)
Theorem remote_call (T1 T2 : Transport) (L1 : TransportLaws T1) (R1 : ReadsFully T1) (L2 : TransportLaws T2)
    (H : Type) (decoders : list (Decoder H)) leave i d k e args results r s w bufsize h hfin hend :
  (* the entry point, its arguments and what the host's function does with them *)
  disjoint_opcodes decoders -> decoders !! i = Some d -> d_api d !! k = Some e ->
  0 <= d_base d -> d_base d + Z.of_nat k < 2 ^ 31 ->
  call_ok e args -> packet_size e args < 2 ^ 30 -> answer_ok e args results r ->
  0 < len (reply e results r) < 2 ^ 31 ->
  (forall stale, d_call d (opcode_of (d_base d) k) (seen args stale (indexed (e_vars e))) h =
                 Ok (results <$> out_indices (e_vars e), r, hfin)) -> leave hfin = Ok hend ->
  (* the guest *)
  stream_ok s w -> steady w -> flushed s -> w_sent w = [] -> incoming (w_in w) = reply e results r ->
  1 <= bufsize < 2 ^ 31 ->
  exists f, @call_encoder T1 (opcode_of (d_base d) k) e args s w = Ok f /\
    f_args f = foldl (set_result args results) args (indexed (e_vars e)) /\
    f_ret f = match e_retval e with RValue _ => Some r | _ => None end /\
    forall s2 w2, stream_ok s2 w2 -> steady w2 -> flushed s2 -> incoming (w_in w2) = w_sent (f_world f) ->
      exists t, @main_with T2 H decoders leave bufsize s2 w2 h = Ok t /\ t_host t = hend /\
        w_sent (t_world t) = w_sent w2 ++ reply e results r.
Proof.
  intros Hdis Hd He H0 Hop Hc Hsz Ha Hrep Hf Hl Hs Hw Hfl Hsent Hi Hb.
  destruct (encode_sends T1 L1 R1 (opcode_of (d_base d) k) e args results r s w [] Hs Hw Hc Ha)
    as (f & stale & Ef & Esent & Hst & Hflf & Eargs & Eret & _); [by rewrite app_nil_r|].
  exists f. split_and!; try done. intros s2 w2 Hs2 Hw2 Hf2 Hi2.
  assert (Hfl' : flushed (f_stream f)) by (apply Hflf; intros E; rewrite E in Hrep; unfold len in Hrep; simpl in Hrep; lia).
  rewrite (flushed_pending _ _ Hfl'), (flushed_pending s w Hfl), Hsent, app_nil_r in Esent. cbn [app] in Esent.
  assert (Hok : request_ok (d_base d) (d_api d) (mkRequest k args stale) e).
  { split; cbn; [done|lia|done|]. rewrite Hst. by apply backs_answered with (args := args), Ha. }
  assert (Eb : stream_bytes decoders [(i, mkRequest k args stale)] = w_sent (f_world f)).
  { unfold stream_bytes, tagged_bytes, request_bytes. cbn. rewrite Hd. cbn. rewrite He. by rewrite app_nil_r, Esent. }
  apply (main_with_ok decoders leave Hdis bufsize s2 w2 h hfin hend (reply e results r) [(i, mkRequest k args stale)]); try done.
  - by rewrite Hi2, Eb.
  - rewrite Eb, Esent. change (len _) with (len (packet (opcode_of (d_base d) k) e args stale)).
    assert (El : len (request_bytes (d_base d) (d_api d) (mkRequest k args stale)) = packet_size e args)
      by (by apply request_length).
    unfold request_bytes in El. cbn [q_index q_args q_stale] in El. rewrite He in El. lia.
  - rewrite <-(app_nil_r (reply e results r)). apply (runs_cons decoders i d _ [] h hfin hfin); [done| |constructor].
    apply (performs_intro _ _ _ _ _ e results r hfin Hok); [done|lia|apply Hf].
Qed.

(** ** Concrete calls *)

Section Demo.

(** [void put(uint n, void *data, const void *more)], with [n] bytes of data of
    which the second part is large and may be NULL, and [uint get(uint n, void
    *data)]. *)
Definition v_num : Var := mkVar 4 false POINTER_IN false false (fun _ => 0) None None.
Definition first_num (args : list arg) : Z := match args with Num n :: _ => n | _ => 0 end.
Definition v_data (dir : PointerDir) (null large : bool) : Var := mkVar 4 true dir null large first_num None None.

Definition demo_put : EntryPoint := mkEntry [v_num; v_data POINTER_IN false false; v_data POINTER_IN true true] RVoid.
Definition demo_get : EntryPoint := mkEntry [v_num; v_data POINTER_OUT false false] (RValue 4).

(** The host keeps bytes: [put] appends them, [get] hands them out. *)
Definition demo_call (op : Z) (args : list harg) (h : list Z) : result (list (list Z) * Z * list Z) :=
  match args with
  | [HNum n; HIn (Some a); HIn b] =>
      Ok ([], 0, h ++ take (Z.to_nat n) a ++ take (Z.to_nat n) (default [] b))
  | [HNum n; HOut _] => Ok ([take (Z.to_nat n) h], len h, drop (Z.to_nat n) h)
  | _ => Err Uninitialised
  end.

Definition demo_decoders : list (Decoder (list Z)) :=
  [mkDecoder 1024 [demo_put] demo_call; mkDecoder 10000 [demo_get] demo_call].

Definition put_args : list arg := [Num 2; Ptr (Some [7; 8; 9]); Ptr (Some [5; 6])].
Definition put_null_args : list arg := [Num 2; Ptr (Some [3; 4]); Ptr None].
Definition get_args : list arg := [Num 3; Ptr (Some [0; 0; 0; 0])].

Definition demo_requests : list (nat * request) :=
  [(0%nat, mkRequest 0 put_args []); (0%nat, mkRequest 0 put_null_args []); (1%nat, mkRequest 0 get_args [1; 1; 1])].

(** The packets in three pieces, cut inside of a header and inside of data. *)
Definition demo_input : list arrival :=
  [Data (take 5 (stream_bytes demo_decoders demo_requests)); Interruption;
   Data (take 37 (drop 5 (stream_bytes demo_decoders demo_requests)));
   Data (drop 42 (stream_bytes demo_decoders demo_requests))].

(** A proof of a concrete [call_ok]. *)
Ltac fits_tac :=
  repeat first
    [ progress intros | lia | discriminate | reflexivity
    | match goal with
      | |- fits _ _ _ => unfold fits; simpl
      | |- _ /\ _ => split
      | |- exists _, Ptr _ = Ptr _ /\ _ => eexists
      | |- exists _, Num _ = Num _ /\ _ => eexists
      | |- exists _, Ptr _ = Ptr _ => eexists
      | E : Ptr (Some _) = Ptr (Some _) |- _ => injection E as <-; unfold len; simpl
      | |- True => exact I
      end ].

Lemma put_ok : call_ok demo_put put_args.
Proof. split; [repeat constructor; fits_tac|repeat constructor; discriminate|vm_compute; reflexivity]. Qed.

Lemma put_null_ok : call_ok demo_put put_null_args.
Proof. split; [repeat constructor; fits_tac|repeat constructor; discriminate|vm_compute; reflexivity]. Qed.

Lemma get_ok : call_ok demo_get get_args.
Proof. split; [repeat constructor; fits_tac|repeat constructor|vm_compute; reflexivity]. Qed.

Lemma demo_disjoint : disjoint_opcodes demo_decoders.
Proof.
  intros i j d d' Hne Hi Hj. destruct i as [|[|i]], j as [|[|j]]; try done; injection Hi as <-; injection Hj as <-; simpl; lia.
Qed.

Lemma demo_runs_ok : runs demo_decoders demo_requests [] [6; 3; 4] [7; 8; 5; 6; 0; 0; 0].
Proof.
  assert (Hput : forall args h h', call_ok demo_put args -> Forall (answered args (fun _ => [])) (indexed (e_vars demo_put)) ->
            demo_call 1024 (seen args [] (indexed (e_vars demo_put))) h = Ok ([], 0, h') ->
            slacks args (indexed (e_vars demo_put)) = 0 ->
            performs 1024 [demo_put] demo_call (mkRequest 0 args []) h h' []).
  { intros args h h' Hc Ha E Hsl. apply (performs_intro 1024 [demo_put] demo_call (mkRequest 0 args []) h demo_put (fun _ => []) 0 h').
    - split; [done|simpl; lia|done|cbn [q_stale q_args]; by rewrite Hsl].
    - by split.
    - done.
    - exact E. }
  apply (runs_cons demo_decoders 0 (mkDecoder 1024 [demo_put] demo_call) _ _ [] [7; 8; 5; 6] _ [] _); [done| |].
  { apply Hput; [apply put_ok|repeat constructor|reflexivity|reflexivity]. }
  apply (runs_cons demo_decoders 0 (mkDecoder 1024 [demo_put] demo_call) _ _ [7; 8; 5; 6] [7; 8; 5; 6; 3; 4] _ [] _); [done| |].
  { apply Hput; [apply put_null_ok|repeat constructor|reflexivity|reflexivity]. }
  apply (runs_cons demo_decoders 1 (mkDecoder 10000 [demo_get] demo_call) _ [] _ [6; 3; 4] [6; 3; 4] [7; 8; 5; 6; 0; 0; 0] []);
    [done| |constructor].
  apply (performs_intro 10000 [demo_get] demo_call (mkRequest 0 get_args [1; 1; 1]) _ demo_get (fun _ => [7; 8; 5]) 6 [6; 3; 4]);
    [|split; [repeat constructor|simpl; lia]|done|reflexivity].
  split; [done|simpl; lia|apply get_ok|done].
Qed.

(** The concrete thread: the buffer starts with 16 bytes and grows. *)
Example render_thread_performs_witness :
  disjoint_opcodes demo_decoders /\ incoming demo_input = stream_bytes demo_decoders demo_requests /\
  exists t, @main_with pipe_transport _ demo_decoders Ok 16 (new_stream 3 8) (mkWorld ∅ 0 [] (fun _ => 170) [] [Took 3] demo_input) [] = Ok t /\
    t_host t = [6; 3; 4] /\ w_sent (t_world t) = [7; 8; 5; 6; 0; 0; 0].
Proof.
  split; [exact demo_disjoint|]. split; [vm_compute; reflexivity|].
  apply (render_thread_performs pipe_transport pipe_laws (list Z) demo_decoders Ok 3 8 16 (fun _ => 170) [Took 3] demo_input
           [] [6; 3; 4] [6; 3; 4] demo_requests [7; 8; 5; 6; 0; 0; 0]).
  - exact demo_disjoint.
  - lia.
  - lia.
  - lia.
  - repeat constructor.
  - vm_compute. reflexivity.
  - vm_compute. reflexivity.
  - exact demo_runs_ok.
  - reflexivity.
Defined.

Example render_thread_runs :
  (fun t => (t_host t, w_sent (t_world t))) <$>
    @main_with pipe_transport _ demo_decoders Ok 16 (new_stream 3 8)
      (mkWorld ∅ 0 [] (fun _ => 170) [] [Took 3] demo_input) []
  = Ok ([6; 3; 4], [7; 8; 5; 6; 0; 0; 0]).
Proof. vm_compute. reflexivity. Qed.

(** A call of [get] by a guest whose answer arrives in two pieces. *)
Definition guest_world : World :=
  mkWorld ∅ 0 [] (fun _ => 170) [] [] [Data [7; 8]; Data [5; 6; 0; 0; 0]].

Example remote_call_witness :
  exists f, @call_encoder socket_transport (opcode_of 10000 0) demo_get get_args (new_stream 3 64) guest_world = Ok f /\
    f_args f = [Num 3; Ptr (Some [7; 8; 5; 0])] /\ f_ret f = Some 6 /\
    forall s2 w2, stream_ok s2 w2 -> steady w2 -> flushed s2 -> incoming (w_in w2) = w_sent (f_world f) ->
      exists t, @main_with pipe_transport _ demo_decoders Ok 16 s2 w2 [7; 8; 5; 6; 3; 4] = Ok t /\ t_host t = [6; 3; 4] /\
        w_sent (t_world t) = w_sent w2 ++ [7; 8; 5; 6; 0; 0; 0].
Proof.
  apply (remote_call socket_transport pipe_transport socket_laws socket_reads_fully pipe_laws (list Z) demo_decoders Ok 1
           (mkDecoder 10000 [demo_get] demo_call) 0 demo_get get_args (fun _ => [7; 8; 5]) 6 (new_stream 3 64) guest_world 16
           [7; 8; 5; 6; 3; 4] [6; 3; 4] [6; 3; 4]).
  - exact demo_disjoint.
  - reflexivity.
  - reflexivity.
  - simpl. lia.
  - simpl. lia.
  - exact get_ok.
  - vm_compute. reflexivity.
  - split; [repeat constructor|simpl; lia].
  - vm_compute. done.
  - intros stale. reflexivity.
  - reflexivity.
  - apply stream_ok_new; [lia|lia|]. intros a [x Hx]. simpl in Hx. by rewrite lookup_empty in Hx.
  - split; repeat constructor.
  - left. reflexivity.
  - reflexivity.
  - reflexivity.
  - lia.
Defined.

(** *** What the generated code does not guard against *)

(** A packet of length 0 whose opcode is known is performed for ever. *)
Definition ping : EntryPoint := mkEntry [] RVoid.

Example zero_length_never_ends (T : Transport) fuel s w h :
  decode_loop (fun _ _ (h : Z) => Ok ([], 0, h + 1)) fuel 1024 [ping] (le_bytes 4 1024 ++ le_bytes 4 0) 8 0 s w h
  = Err OutOfFuel.
Proof. revert h. induction fuel as [|fuel IH]; intros h; [done|]. exact (IH (h + 1)). Qed.

(** A size inside of a packet is not compared with the size of the packet: the
    next variable is looked for outside of the buffer. *)
Example inner_size_trusted (T : Transport) s w :
  decode demo_call 1024 [demo_put]
    (le_bytes 4 1024 ++ le_bytes 4 24 ++ le_bytes 4 2 ++ le_bytes 4 4096 ++ [7; 8; 0; 0] ++ le_bytes 4 0) 24 s w []
  = Err OutOfBounds.
Proof. vm_compute. reflexivity. Qed.

(** The encoder does not look at what [alloc] returned. *)
Example encoder_out_of_memory :
  @call_encoder pipe_transport 1024 demo_put put_args (new_stream 3 64) (mkWorld ∅ 0 [false] (fun _ => 0) [] [] [])
  = Err NullDeref.
Proof. vm_compute. reflexivity. Qed.

(** A pointer of direction inout is read back by the encoder, and the decoder
    sends nothing. *)
Definition demo_inout : EntryPoint := mkEntry [v_num; v_data POINTER_INOUT false false] RVoid.

Example inout_not_answered :
  SReadback 1 ∈ genEncoderImpl demo_inout /\ ~ (DFlush ∈ genDecoderCase demo_inout).
Proof.
  split; [vm_compute; do 5 right; left|].
  intros Hin. vm_compute in Hin.
  repeat (apply elem_of_cons in Hin as [Hin|Hin]; [discriminate|]). by apply elem_of_nil in Hin.
Qed.

(** A result that is announced in front of a large variable: its room is sent
    between the two, where the decoder expects the variable. *)
Definition demo_mixed : EntryPoint :=
  mkEntry [v_num; v_data POINTER_OUT false false; v_data POINTER_IN false true] RVoid.

Example out_before_large_shifts :
  (fun f => drop 16 (w_sent (f_world f))) <$>
    @call_encoder pipe_transport 1024 demo_mixed [Num 2; Ptr (Some [0; 0]); Ptr (Some [5; 6])] (new_stream 3 64)
      (mkWorld ∅ 0 [] (fun _ => 170) [] [] [Data [1; 2]])
  = Ok ([170; 170] ++ le_bytes 4 2 ++ [5; 6]).
Proof. vm_compute. reflexivity. Qed.

End Demo.
