(* ===== verification/FbConfig.v ===== *)
(** * The configurations that the renderer offers

    [src/emulator/opengl/host/libs/libOpenglRender/FBConfig.cpp]: the list of EGL
    configurations that can back guest windows, the table of their attributes, and
    the choice among them.  EGL is a parameter: its configurations, their
    attributes and what [eglChooseConfig] matches.

    [chooseConfig_exact]: the indices that are handed out are those of the matched
    configurations that are on the list, as many as there is room for;
    [packConfigsInfo_rows]: the table has a row per configuration. *)
From S2P Require Import Prelude.
Local Open Scope Z_scope.

Definition EGL_DEPTH_SIZE : Z := 0x3025.
Definition EGL_STENCIL_SIZE : Z := 0x3026.
Definition EGL_RENDERABLE_TYPE : Z := 0x3040.
Definition EGL_SURFACE_TYPE : Z := 0x3033.
Definition EGL_CONFIG_ID : Z := 0x3028.
Definition EGL_ALPHA_SIZE : Z := 0x3021.
Definition EGL_BLUE_SIZE : Z := 0x3022.
Definition EGL_GREEN_SIZE : Z := 0x3023.
Definition EGL_RED_SIZE : Z := 0x3024.
Definition EGL_NONE : Z := 0x3038.
Definition EGL_PBUFFER_BIT : Z := 1.
Definition EGL_WINDOW_BIT : Z := 4.

Definition s_configAttribs : list Z :=
  [EGL_DEPTH_SIZE; EGL_STENCIL_SIZE; EGL_RENDERABLE_TYPE; EGL_SURFACE_TYPE; EGL_CONFIG_ID;
   0x3020; EGL_ALPHA_SIZE; EGL_BLUE_SIZE; EGL_GREEN_SIZE; EGL_RED_SIZE; 0x3027; 0x3029; 0x302A; 0x302B; 0x302C;
   0x302D; 0x302E; 0x302F; 0x3031; 0x3032; 0x3034; 0x3035; 0x3036; 0x3037; 0x3039; 0x303A; 0x303B; 0x303C;
   0x303D; 0x303E; 0x303F; 0x3042].

Definition s_numConfigAttribs : Z := Z.of_nat (length s_configAttribs).

Record FBConfig := mkFBConfig { m_eglConfig : Z; m_attribValues : list Z }.

Definition getRenderableType (c : FBConfig) : Z := nth 2 (m_attribValues c) 0.

Section Configs.
(** [eglGetConfigAttrib]: a value, or nothing is stored. *)
Variable eglGetConfigAttrib : Z -> Z -> option Z.

Definition new_FBConfig (cfg : Z) : FBConfig :=
  mkFBConfig cfg
    ((fun a => let v := default 0 (eglGetConfigAttrib cfg a) in
               if a =? EGL_SURFACE_TYPE then Z.lor v EGL_WINDOW_BIT else v) <$> s_configAttribs).

(** An attribute read into a fresh variable. *)
Definition attrib (cfg a : Z) : result Z := from_option_or Uninitialised (eglGetConfigAttrib cfg a).

(** Whether a configuration is taken: pbuffers, and all four components. *)
Definition supported (cfg : Z) : result bool :=
  surfaceType ← attrib cfg EGL_SURFACE_TYPE;
  if Z.land surfaceType EGL_PBUFFER_BIT =? 0 then Ok false
  else
    redSize ← attrib cfg EGL_RED_SIZE; blueSize ← attrib cfg EGL_BLUE_SIZE;
    greenSize ← attrib cfg EGL_GREEN_SIZE; alphaSize ← attrib cfg EGL_ALPHA_SIZE;
    Ok (negb ((redSize =? 0) || (greenSize =? 0) || (blueSize =? 0) || (alphaSize =? 0))).

Definition config_step (l : list FBConfig) (cfg : Z) : result (list FBConfig) :=
  ok ← supported cfg; Ok (if (ok : bool) then l ++ [new_FBConfig cfg] else l).

(** The list, and whether there is any; [None] when EGL has no answer. *)
Definition initConfigList (configs : option (list Z)) : result (bool * list FBConfig) :=
  match configs with
  | None => Ok (false, [])
  | Some configs =>
      l ← foldM config_step [] configs; Ok (negb (Nat.eqb (length l) 0), l)
  end.

(** *** The table of attributes *)

Definition pack_row (n : Z) (buffer : list Z) (ic : nat * FBConfig) : result (list Z) :=
  write_block buffer ((Z.of_nat (fst ic) + 1) * n) (take (Z.to_nat n) (m_attribValues (snd ic))).

Definition packConfigsInfo (s_fbConfigs : list FBConfig) (buffer : list Z) : result (list Z) :=
  buffer ← write_block buffer 0 s_configAttribs;
  foldM (pack_row s_numConfigAttribs) buffer (imap pair s_fbConfigs).

(** *** The choice *)

(** The scan of the caller's attributes up to EGL_NONE: the type of surface is
    replaced in place; whether it has to be added, and the attributes. *)
Fixpoint scan_attribs (attrib_p : list Z) (need : bool) (acc : list Z) : result (bool * list Z) :=
  match attrib_p with
  | [] => Err OutOfBounds
  | a :: p =>
      if a =? EGL_NONE then Ok (need, acc)
      else
        match p with
        | [] => Err OutOfBounds
        | v :: p =>
            if a =? EGL_SURFACE_TYPE then scan_attribs p false (acc ++ [a; EGL_PBUFFER_BIT])
            else scan_attribs p need (acc ++ [a; v])
        end
  end.

Definition new_attribs (attribs : option (list Z)) : result (list Z) :=
  '(need, l) ← match attribs with Some p => scan_attribs p true [] | None => Ok (true, []) end;
  Ok ((if (need : bool) then [EGL_SURFACE_TYPE; EGL_PBUFFER_BIT] else []) ++ l ++ [EGL_NONE]).

(** The first configuration of the list with an id. *)
Fixpoint find_config (id : Z) (l : list FBConfig) (fbIdx : Z) : option Z :=
  match l with
  | [] => None
  | c :: l => if id =? nth 4 (m_attribValues c) 0 then Some fbIdx else find_config id l (fbIdx + 1)
  end.

(** The matched configurations in order; [configs] is the caller's memory. *)
Fixpoint verify (s_fbConfigs : list FBConfig) (matched : list Z) (configs : option (list Z)) (size n : Z)
  : result (Z * option (list Z)) :=
  match matched with
  | [] => Ok (n, configs)
  | m :: matched =>
      if bool_decide (is_Some configs) && (0 <? size) && (size <=? n) then Ok (n, configs)
      else
        sCfgId ← attrib m EGL_CONFIG_ID;
        match find_config sCfgId s_fbConfigs 0 with
        | Some fbIdx =>
            configs ← match configs with
                      | Some b => if n <? size then b ← write_block b n [fbIdx]; Ok (Some b) else Ok (Some b)
                      | None => Ok None
                      end;
            verify s_fbConfigs matched configs size (u32 (n + 1))
        | None => verify s_fbConfigs matched configs size n
        end
  end.

(** [eglChooseConfig]: the matches, or it fails and the array stays as it is. *)
Definition chooseConfig (eglChooseConfig : list Z -> option (list Z)) (nConfigs : option Z) (s_fbConfigs : list FBConfig)
  (attribs : option (list Z)) (configs : option (list Z)) (configs_size : Z) : result (Z * option (list Z)) :=
  match nConfigs with
  | None => Ok (0, configs)
  | Some nConfigs =>
      l ← new_attribs attribs;
      match eglChooseConfig l with
      | Some matched => verify s_fbConfigs matched configs configs_size 0
      | None => if nConfigs =? 0 then Ok (0, configs) else Err Uninitialised
      end
  end.

(** ** What they compute *)

Definition readable (cfg : Z) : Prop := forall a, a ∈ s_configAttribs -> is_Some (eglGetConfigAttrib cfg a).

Definition value (cfg a : Z) : Z := default 0 (eglGetConfigAttrib cfg a).

Definition usable (cfg : Z) : bool :=
  negb (Z.land (value cfg EGL_SURFACE_TYPE) EGL_PBUFFER_BIT =? 0) &&
  negb ((value cfg EGL_RED_SIZE =? 0) || (value cfg EGL_GREEN_SIZE =? 0) ||
        (value cfg EGL_BLUE_SIZE =? 0) || (value cfg EGL_ALPHA_SIZE =? 0)).

Lemma attrib_value cfg a : readable cfg -> a ∈ s_configAttribs -> attrib cfg a = Ok (value cfg a).
Proof. intros H Ha. destruct (H a Ha) as [v E]. unfold attrib, value. by rewrite E. Qed.

Ltac listed := repeat (first [by left | right]).

Lemma supported_usable cfg : readable cfg -> supported cfg = Ok (usable cfg).
Proof.
  intros H. unfold supported, usable.
  rewrite (attrib_value cfg EGL_SURFACE_TYPE H) by listed. cbn [mbind result_bind].
  destruct (_ =? 0); [done|].
  rewrite (attrib_value cfg EGL_RED_SIZE H), (attrib_value cfg EGL_BLUE_SIZE H),
    (attrib_value cfg EGL_GREEN_SIZE H), (attrib_value cfg EGL_ALPHA_SIZE H) by listed. done.
Qed.

Lemma config_step_ok l cfg :
  readable cfg -> config_step l cfg = Ok (if usable cfg then l ++ [new_FBConfig cfg] else l).
Proof. intros H. unfold config_step. by rewrite (supported_usable cfg H). Qed.

Lemma initConfigList_exact configs :
  Forall readable configs ->
  initConfigList (Some configs) =
    let l := new_FBConfig <$> filter (fun c => usable c = true) configs in Ok (negb (Nat.eqb (length l) 0), l).
Proof.
  intros H. unfold initConfigList. cbv zeta.
  assert (E : forall acc, foldM config_step acc configs =
            Ok (acc ++ (new_FBConfig <$> filter (fun c => usable c = true) configs))).
  { induction H as [|c l Hc _ IH]; intros acc; cbn [foldM]; [by rewrite app_nil_r|].
    rewrite (config_step_ok acc c Hc). cbn [mbind result_bind]. rewrite IH, filter_cons.
    destruct (usable c); [rewrite decide_True by done|rewrite decide_False by done]; [|done].
    by rewrite fmap_cons, <-app_assoc. }
  rewrite E. done.
Qed.

Definition row_ok (c : FBConfig) : Prop := Z.of_nat (length (m_attribValues c)) = s_numConfigAttribs.

Lemma new_row_ok cfg : row_ok (new_FBConfig cfg).
Proof. unfold row_ok. simpl. done. Qed.

(** A block behind a prefix. *)
Lemma write_behind {A} (done rest src : list A) :
  (length src <= length rest)%nat ->
  write_block (done ++ rest) (Z.of_nat (length done)) src = Ok (done ++ src ++ drop (length src) rest).
Proof.
  intros H. rewrite write_block_ok by (rewrite ?length_app; lia).
  rewrite Nat2Z.id, take_app_length, drop_app_ge by lia. do 4 f_equal. lia.
Qed.

Lemma pack_row_ok k c done rest :
  row_ok c -> Z.of_nat (length done) = (Z.of_nat k + 1) * s_numConfigAttribs ->
  s_numConfigAttribs <= Z.of_nat (length rest) ->
  pack_row s_numConfigAttribs (done ++ rest) (k, c)
  = Ok ((done ++ m_attribValues c) ++ drop (length (m_attribValues c)) rest).
Proof.
  unfold row_ok, pack_row. cbn [fst snd]. intros Hc <- Hr. rewrite take_ge by lia.
  rewrite write_behind by lia. by rewrite <-app_assoc.
Qed.

(** Rows are written one behind the other. *)
Lemma pack_rows l k done rest :
  Forall row_ok l -> Z.of_nat (length done) = (Z.of_nat k + 1) * s_numConfigAttribs ->
  Z.of_nat (length rest) = Z.of_nat (length l) * s_numConfigAttribs ->
  foldM (pack_row s_numConfigAttribs) (done ++ rest) (imap (fun i c => ((k + i)%nat, c)) l)
  = Ok (done ++ concat (m_attribValues <$> l)).
Proof.
  intros H. revert k done rest. induction H as [|c l Hc _ IH]; intros k done rest Hd Hr.
  - assert (rest = []) as -> by (apply nil_length_inv; simpl in Hr; lia). by rewrite !app_nil_r.
  - assert (0 < s_numConfigAttribs) by done. cbn [imap foldM length] in *. rewrite Nat.add_0_r, (pack_row_ok k c) by (try done; lia).
    cbn [mbind result_bind]. unfold row_ok in Hc.
    rewrite (imap_ext _ (fun i c => ((S k + i)%nat, c))) by (intros; simpl; f_equal; lia).
    rewrite (IH (S k)); [by rewrite <-app_assoc|rewrite length_app; lia|rewrite length_drop; lia].
Qed.

(** The table that goes to the guest: a row of attribute names, then the values
    of each configuration, which fills a buffer of the announced size exactly. *)
Lemma packConfigsInfo_rows l buffer :
  Forall row_ok l -> Z.of_nat (length buffer) = (Z.of_nat (length l) + 1) * s_numConfigAttribs ->
  packConfigsInfo l buffer = Ok (s_configAttribs ++ concat (m_attribValues <$> l)).
Proof.
  intros H Hl. unfold packConfigsInfo. assert (E : s_numConfigAttribs = Z.of_nat (length s_configAttribs)) by done.
  rewrite (write_behind [] buffer) by lia. cbn [mbind result_bind app].
  apply (pack_rows l 0); [done|lia|]. rewrite length_drop. lia.
Qed.

(** The index of the first configuration of the list with the id of [m]. *)
Definition chosen (l : list FBConfig) (m : Z) : option Z := find_config (value m EGL_CONFIG_ID) l 0.

Lemma find_config_spec id l k i :
  find_config id l k = Some i ->
  k <= i /\ exists c, l !! Z.to_nat (i - k) = Some c /\ nth 4 (m_attribValues c) 0 = id.
Proof.
  revert k. induction l as [|c l IH]; intros k; simpl; [done|]. destruct (Z.eqb_spec id (nth 4 (m_attribValues c) 0)).
  - intros [= <-]. split; [lia|]. exists c. by rewrite Z.sub_diag.
  - intros E. destruct (IH _ E) as (Hk & c' & El & Ec). split; [lia|]. exists c'.
    replace (Z.to_nat (i - k)) with (S (Z.to_nat (i - (k + 1)))) by lia. done.
Qed.

Definition wanted (l : list FBConfig) (matched : list Z) : list Z := omap (chosen l) matched.

Definition identified (m : Z) : Prop := is_Some (eglGetConfigAttrib m EGL_CONFIG_ID).

Lemma attrib_id m : identified m -> attrib m EGL_CONFIG_ID = Ok (value m EGL_CONFIG_ID).
Proof. intros [v E]. unfold attrib, value. by rewrite E. Qed.

(** The caller's memory is filled from the front until it is full. *)
Lemma verify_fills l matched done rest :
  Forall identified matched -> 0 < Z.of_nat (length (done ++ rest)) < 2 ^ 32 ->
  verify l matched (Some (done ++ rest)) (Z.of_nat (length (done ++ rest))) (Z.of_nat (length done)) =
    let w := take (length rest) (wanted l matched) in
    Ok (Z.of_nat (length (done ++ w)), Some (done ++ w ++ drop (length w) rest)).
Proof.
  intros H. revert done rest. induction H as [|m matched Hm _ IH]; intros done rest Hl; cbn [verify wanted omap list_omap].
  { by rewrite take_nil, app_nil_r. }
  rewrite bool_decide_true by eauto. replace (0 <? Z.of_nat _) with true by lia. cbn [andb].
  destruct rest as [|x rest].
  { replace (_ <=? _) with true by (rewrite app_nil_r; lia). by rewrite !app_nil_r. }
  remember (Z.of_nat (length (done ++ x :: rest))) as size eqn:Es. rewrite length_app in Es. simpl length in Es.
  replace (size <=? _) with false by lia.
  rewrite (attrib_id m Hm). cbn [mbind result_bind]. fold (chosen l m). destruct (chosen l m) as [i|].
  - replace (_ <? _) with true by lia. rewrite write_behind by (simpl; lia). cbn [mbind result_bind length drop app]. rewrite drop_0.
    specialize (IH (done ++ [i]) rest). rewrite <-!app_assoc in IH. cbn [app] in IH.
    replace (Z.of_nat (length (done ++ i :: rest))) with size in IH by (rewrite length_app; simpl; lia).
    replace (Z.of_nat (length (done ++ [i]))) with (Z.of_nat (length done) + 1) in IH by (rewrite length_app; simpl; lia).
    rewrite u32_small, IH by lia. cbv zeta. cbn [take length drop app]. rewrite <-?app_assoc. done.
  - specialize (IH done (x :: rest)). replace (Z.of_nat (length (done ++ x :: rest))) with size in IH by (rewrite length_app; simpl; lia).
    by rewrite IH by lia.
Qed.

Lemma verify_counts l matched size n :
  Forall identified matched -> 0 <= n -> n + Z.of_nat (length matched) < 2 ^ 32 ->
  verify l matched None size n = Ok (n + Z.of_nat (length (wanted l matched)), None).
Proof.
  intros H. revert n. induction H as [|m matched Hm _ IH]; intros n Hn Hl; cbn [verify wanted omap list_omap].
  { by rewrite Z.add_0_r. }
  simpl length in Hl. rewrite bool_decide_false by (by intros []). cbn [andb]. rewrite (attrib_id m Hm).
  cbn [mbind result_bind]. fold (chosen l m). destruct (chosen l m) as [i|]; cbn [mbind result_bind].
  - rewrite u32_small by lia. rewrite IH by lia. unfold wanted. simpl length. f_equal. f_equal. lia.
  - apply IH; lia.
Qed.

(** The caller's attributes are pairs; a wish for a type of surface is overruled. *)
Definition flat (pairs : list (Z * Z)) : list Z := concat ((fun p => [p.1; p.2]) <$> pairs).

Definition pbuffer_only (pairs : list (Z * Z)) : list (Z * Z) :=
  (fun p => if p.1 =? EGL_SURFACE_TYPE then (p.1, EGL_PBUFFER_BIT) else p) <$> pairs.

Definition asked (pairs : list (Z * Z)) : list Z :=
  flat ((if existsb (fun p => p.1 =? EGL_SURFACE_TYPE) pairs then [] else [(EGL_SURFACE_TYPE, EGL_PBUFFER_BIT)]) ++ pbuffer_only pairs)
  ++ [EGL_NONE].

Lemma scan_pairs pairs junk need acc :
  Forall (fun p => p.1 <> EGL_NONE) pairs ->
  scan_attribs (flat pairs ++ EGL_NONE :: junk) need acc
  = Ok (need && negb (existsb (fun p => p.1 =? EGL_SURFACE_TYPE) pairs), acc ++ flat (pbuffer_only pairs)).
Proof.
  intros H. revert need acc. induction H as [|[a v] pairs Ha _ IH]; intros need acc.
  { simpl. by rewrite andb_true_r, app_nil_r. }
  cbn [flat fmap list_fmap concat app fst snd scan_attribs existsb pbuffer_only] in *.
  replace (a =? EGL_NONE) with false by (symmetry; by apply Z.eqb_neq).
  fold (flat pairs). destruct (a =? EGL_SURFACE_TYPE); rewrite IH, <-app_assoc; [|done].
  cbn [orb negb andb]. by rewrite andb_false_r.
Qed.

Lemma new_attribs_asked pairs junk :
  Forall (fun p => p.1 <> EGL_NONE) pairs -> new_attribs (Some (flat pairs ++ EGL_NONE :: junk)) = Ok (asked pairs).
Proof.
  intros H. unfold new_attribs. rewrite scan_pairs by done. cbn [mbind result_bind app andb].
  unfold asked, flat. rewrite fmap_app, concat_app, <-app_assoc. by destruct (existsb _ pairs).
Qed.

Lemma wanted_listed l matched i :
  i ∈ wanted l matched ->
  exists m c, m ∈ matched /\ 0 <= i /\ l !! Z.to_nat i = Some c /\ nth 4 (m_attribValues c) 0 = value m EGL_CONFIG_ID.
Proof.
  intros (m & Hm & E)%list_elem_of_omap. destruct (find_config_spec _ _ _ _ E) as (Hi & c & El & Ec).
  rewrite Z.sub_0_r in El. eauto 8.
Qed.

(** C25 The choice among the configurations: EGL is asked for what the guest wants,
    but on pbuffers; the answer is the indices of the matched configurations that
    are on the list, in EGL's order, at most as many as the guest has room for, and
    the rest of its memory is unchanged.  Each index is that of a configuration with
    the id of a matched one. *)
Theorem chooseConfig_exact eglChooseConfig nConfigs l pairs junk matched b :
  Forall (fun p => p.1 <> EGL_NONE) pairs -> eglChooseConfig (asked pairs) = Some matched ->
  Forall identified matched -> 0 < Z.of_nat (length b) < 2 ^ 32 ->
  let w := take (length b) (wanted l matched) in
  chooseConfig eglChooseConfig (Some nConfigs) l (Some (flat pairs ++ EGL_NONE :: junk)) (Some b) (Z.of_nat (length b))
  = Ok (Z.of_nat (length w), Some (w ++ drop (length w) b)) /\
  forall i, i ∈ w -> exists m c, m ∈ matched /\ 0 <= i /\ l !! Z.to_nat i = Some c /\
    nth 4 (m_attribValues c) 0 = value m EGL_CONFIG_ID.
Proof.
  intros Hp E Hm Hb w. split.
  - unfold chooseConfig. rewrite new_attribs_asked by done. cbn [mbind result_bind]. rewrite E.
    exact (verify_fills l matched [] b Hm Hb).
  - intros i Hi. apply wanted_listed. by apply (subseteq_take (length b) (wanted l matched)).
Qed.

End Configs.

(** Four configurations: one has no pbuffers, one no alpha. *)
Definition demo_attrib (cfg a : Z) : option Z :=
  Some (if a =? EGL_CONFIG_ID then 100 + cfg
        else if a =? EGL_SURFACE_TYPE then (if cfg =? 1 then EGL_WINDOW_BIT else EGL_PBUFFER_BIT)
        else if a =? EGL_ALPHA_SIZE then (if cfg =? 2 then 0 else 8) else 8).

Example initConfigList_demo :
  (fun r : bool * list FBConfig => (fst r, m_eglConfig <$> snd r)) <$> initConfigList demo_attrib (Some [0; 1; 2; 3]) = Ok (true, [0; 3]).
Proof. vm_compute. reflexivity. Qed.

(** The matches are all four; the guest has room for three. *)
Example chooseConfig_exact_witness :
  chooseConfig demo_attrib (fun l => if decide (l = [EGL_RED_SIZE; 5; EGL_SURFACE_TYPE; EGL_PBUFFER_BIT; EGL_NONE]) then Some [3; 2; 1; 0] else None)
    (Some 4) [new_FBConfig demo_attrib 0; new_FBConfig demo_attrib 3]
    (Some [EGL_RED_SIZE; 5; EGL_SURFACE_TYPE; EGL_WINDOW_BIT; EGL_NONE; 77]) (Some [9; 9; 9]) 3 = Ok (2, Some [1; 0; 9]).
Proof.
  apply (chooseConfig_exact demo_attrib
           (fun l => if decide (l = [EGL_RED_SIZE; 5; EGL_SURFACE_TYPE; EGL_PBUFFER_BIT; EGL_NONE]) then Some [3; 2; 1; 0] else None)
           4 [new_FBConfig demo_attrib 0; new_FBConfig demo_attrib 3]
           [(EGL_RED_SIZE, 5); (EGL_SURFACE_TYPE, EGL_WINDOW_BIT)] [77] [3; 2; 1; 0] [9; 9; 9]).
  - repeat constructor; discriminate.
  - reflexivity.
  - repeat constructor; eexists; reflexivity.
  - simpl. lia.
Defined.

(** A guest that leaves out EGL_NONE: what is behind its attributes is read, and
    written. *)
Example attribs_without_end eglChooseConfig :
  chooseConfig demo_attrib eglChooseConfig (Some 4) [] (Some [EGL_RED_SIZE; 5]) None 0 = Err OutOfBounds.
Proof. reflexivity. Qed.

(** The result of [eglChooseConfig] is not looked at: when it fails, the array that
    was to hold the matches is read as it was allocated. *)
Example failed_choice_is_read :
  chooseConfig demo_attrib (fun _ => None) (Some 4) [] None None 0 = Err Uninitialised.
Proof. reflexivity. Qed.
