(* ===== verification/RenderControl.v ===== *)
(** * The guest's calls to the renderer

    [src/emulator/opengl/host/libs/libOpenglRender/RenderControl.cpp] and the
    interface [renderControl.in]: the entry points, what [emugen] is told about their
    parameters, and the functions behind them.  Those that change the frame buffer
    are the events of [Renderer]; here are the queries, and the decoder that a
    [RenderThread] uses.

    [render_control_serves]: a thread that receives the packets of a guest's calls
    does what [Renderer.handle] does, call by call, and answers with its results. *)
From S2P Require Import Prelude SmartPtr Renderer RendererProofs RendererTheorems FbConfig.
From S2P Require Import GlUtils GlStream EmuGen EmuDecode RenderThread.
Local Open Scope Z_scope.

(** ** The interface *)

(** A number of 32 bits; memory for results, and data. *)
Definition num : Var := mkVar 4 false POINTER_IN false false (fun _ => 0) None None.
Definition out (null : bool) (length : list arg -> Z) : Var := mkVar 4 true POINTER_OUT null false length None None.
Definition data (large : bool) (length : list arg -> Z) : Var := mkVar 4 true POINTER_IN false large length None None.

Definition num_at (args : list arg) (i : nat) : Z := match args !! i with Some (Num z) => z | _ => 0 end.

(** [((glUtilsPixelBitSize(format, type) * width) >> 3) * height] *)
Definition pixels_length (args : list arg) : Z :=
  s32 (Z.shiftr (s32 (glUtilsPixelBitSize (num_at args 5) (num_at args 6) * s32 (num_at args 3))) 3 * s32 (num_at args 4)).

Definition EGLint : Retval := RValue 4.

Definition renderControl : list EntryPoint := [
  mkEntry [] EGLint;                                                            (* 0: rcGetRendererVersion *)
  mkEntry [out false (fun _ => 4); out false (fun _ => 4)] EGLint;              (* 1: rcGetEGLVersion *)
  mkEntry [num; out false (fun args => num_at args 2); num] EGLint;             (* 2: rcQueryEGLString *)
  mkEntry [num; out false (fun args => num_at args 2); num] EGLint;             (* 3: rcGetGLString *)
  mkEntry [out false (fun _ => 4)] EGLint;                                      (* 4: rcGetNumConfigs *)
  mkEntry [num; out false (fun args => num_at args 0)] EGLint;                  (* 5: rcGetConfigs *)
  mkEntry [data false (fun args => num_at args 1); num;
           out true (fun args => num_at args 3 * 4); num] EGLint;               (* 6: rcChooseConfig *)
  mkEntry [num] EGLint;                                                         (* 7: rcGetFBParam *)
  mkEntry [num; num; num] EGLint;                                               (* 8: rcCreateContext *)
  mkEntry [num] RVoid;                                                          (* 9: rcDestroyContext *)
  mkEntry [num; num; num] EGLint;                                               (* 10: rcCreateWindowSurface *)
  mkEntry [num] RVoid;                                                          (* 11: rcDestroyWindowSurface *)
  mkEntry [num; num; num] EGLint;                                               (* 12: rcCreateColorBuffer *)
  mkEntry [num] RVoid;                                                          (* 13: rcOpenColorBuffer *)
  mkEntry [num] RVoid;                                                          (* 14: rcCloseColorBuffer *)
  mkEntry [num; num] RVoid;                                                     (* 15: rcSetWindowColorBuffer *)
  mkEntry [num] EGLint;                                                         (* 16: rcFlushWindowColorBuffer *)
  mkEntry [num; num; num] EGLint;                                               (* 17: rcMakeCurrent *)
  mkEntry [num] RVoid;                                                          (* 18: rcFBPost *)
  mkEntry [num] RVoid;                                                          (* 19: rcFBSetSwapInterval *)
  mkEntry [num] RVoid;                                                          (* 20: rcBindTexture *)
  mkEntry [num] RVoid;                                                          (* 21: rcBindRenderbuffer *)
  mkEntry [num; num; num] EGLint;                                               (* 22: rcColorBufferCacheFlush *)
  mkEntry [num; num; num; num; num; num; num; out false pixels_length] RVoid;   (* 23: rcReadColorBuffer *)
  mkEntry [num; num; num; num; num; num; num; data true pixels_length] EGLint   (* 24: rcUpdateColorBuffer *)
].

Definition base_opcode : Z := 10000.

(** ** The host's functions *)

Section Host.
(** The frame buffer's environment, the list of configurations, and EGL and GL. *)
Variables (env : nat -> Z) (s_fbConfigs : list FBConfig).
Variables (eglMajor eglMinor : Z) (eglQueryString : Z -> option (list Z)) (glGetString : bool -> Z -> option (list Z)).
Variables (eglGetConfigAttrib : Z -> Z -> option Z) (nConfigs : option Z) (eglChooseConfig : list Z -> option (list Z)).

(** What a query stores through its pointers, and its result. *)
Definition query : Type := list (list Z) * Z.

Definition rendererVersion : Z := 1.
Definition rcGetRendererVersion : Renderer.M query := mret ([], rendererVersion).

Definition rcGetEGLVersion : Renderer.M query :=
  with_fb ([], EGL_FALSE) (mret ([le_bytes 4 eglMajor; le_bytes 4 eglMinor], EGL_TRUE)).

(** A string that is copied when it fits, or its length negated. *)
Definition put_string (str : option (list Z)) (null : bool) (bufferSize : Z) : query :=
  match str with
  | None => ([], 0)
  | Some s =>
      let len := len s + 1 in
      if null || (bufferSize <? len) then ([], -len) else ([s ++ [0]], len)
  end.

Definition rcQueryEGLString (name : Z) (null : bool) (bufferSize : Z) : Renderer.M query :=
  with_fb ([], 0) (mret (put_string (eglQueryString name) null bufferSize)).

Definition rcGetGLString (t name : Z) (null : bool) (bufferSize : Z) : Renderer.M query :=
  i ← thread_info t;
  match currContext i with
  | None => mret ([], 0)
  | Some _ => c ← context (currContext i); mret (put_string (glGetString (rc_isGL2 c) name) null bufferSize)
  end.

Definition getNumConfigs : Z := Z.of_nat (length s_fbConfigs).

Definition rcGetNumConfigs (null : bool) : Renderer.M query :=
  mret (if null then [] else [le_bytes 4 s_numConfigAttribs], getNumConfigs).

(** The buffer has [bufSize / 4] whole words, all of them written or none. *)
Definition rcGetConfigs (bufSize : Z) (null : bool) : Renderer.M query :=
  let neededSize := u32 ((getNumConfigs + 1) * s_numConfigAttribs * 4) in
  if null || (bufSize <? neededSize) then mret ([], s32 (- neededSize))
  else
    words ← lift (packConfigsInfo s_fbConfigs (replicate (Z.to_nat (bufSize / 4)) 0));
    mret ([concat (le_bytes 4 <$> take (Z.to_nat (neededSize / 4)) words)], getNumConfigs).

(** Whole words. *)
Fixpoint words (bytes : list Z) : list Z :=
  match bytes with
  | a :: b :: c :: d :: bytes => s32 (le_value [a; b; c; d]) :: words bytes
  | _ => []
  end.

(** [attribs_size] is not used. *)
Definition rcChooseConfig (attribs : option (list Z)) (attribs_size : Z) (null : bool) (configs_size : Z) : Renderer.M query :=
  with_fb ([], 0) (
    '(n, configs) ← lift (chooseConfig eglGetConfigAttrib eglChooseConfig nConfigs s_fbConfigs (words <$> attribs)
                            (if null then None else Some (replicate (Z.to_nat configs_size) 0)) configs_size);
    mret ([concat (le_bytes 4 <$> take (Z.to_nat n) (default [] configs))], s32 n)).

Definition rcFBSetSwapInterval (interval : Z) : Renderer.M query := mret ([], 0).
Definition rcColorBufferCacheFlush (colorBuffer postCount forRead : Z) : Renderer.M query := mret ([], 0).
Definition rcReadColorBuffer (colorBuffer x y width height format type : Z) : Renderer.M query := mret ([], 0).

(** The calls that change the frame buffer, with signed parameters as [int]. *)
Definition rc_event (i : nat) (args : list harg) : option event :=
  match i, args with
  | 7%nat, [HNum param] => Some (GetFBParam (s32 param))
  | 8%nat, [HNum config; HNum share; HNum glVersion] => Some (CreateContext config share glVersion)
  | 9%nat, [HNum context] => Some (DestroyContext context)
  | 10%nat, [HNum config; HNum width; HNum height] => Some (CreateWindowSurface config width height)
  | 11%nat, [HNum windowSurface] => Some (DestroyWindowSurfaceCall windowSurface)
  | 12%nat, [HNum width; HNum height; HNum internalFormat] => Some (CreateColorBuffer width height internalFormat)
  | 13%nat, [HNum colorbuffer] => Some (OpenColorBuffer colorbuffer)
  | 14%nat, [HNum colorbuffer] => Some (CloseColorBuffer colorbuffer)
  | 15%nat, [HNum windowSurface; HNum colorBuffer] => Some (SetWindowColorBuffer windowSurface colorBuffer)
  | 16%nat, [HNum windowSurface] => Some (FlushWindowColorBuffer windowSurface)
  | 17%nat, [HNum context; HNum drawSurf; HNum readSurf] => Some (MakeCurrent context drawSurf readSurf)
  | 18%nat, [HNum colorBuffer] => Some (FBPost colorBuffer)
  | 20%nat, [HNum colorBuffer] => Some (BindTexture colorBuffer)
  | 21%nat, [HNum colorBuffer] => Some (BindRenderbuffer colorBuffer)
  | 24%nat, [HNum colorBuffer; HNum x; HNum y; HNum width; HNum height; HNum format; HNum type; HIn _] =>
      Some (UpdateColorBuffer colorBuffer (s32 x) (s32 y) (s32 width) (s32 height) format type)
  | _, _ => None
  end.

Definition rc_query (t : Z) (i : nat) (args : list harg) : Renderer.M query :=
  match i, args with
  | 0%nat, [] => rcGetRendererVersion
  | 1%nat, [HOut _; HOut _] => rcGetEGLVersion
  | 2%nat, [HNum name; HOut null; HNum bufferSize] => rcQueryEGLString name null (s32 bufferSize)
  | 3%nat, [HNum name; HOut null; HNum bufferSize] => rcGetGLString t name null (s32 bufferSize)
  | 4%nat, [HOut null] => rcGetNumConfigs null
  | 5%nat, [HNum bufSize; HOut null] => rcGetConfigs bufSize null
  | 6%nat, [HIn attribs; HNum attribs_size; HOut null; HNum configs_size] => rcChooseConfig attribs attribs_size null configs_size
  | 19%nat, [HNum interval] => rcFBSetSwapInterval (s32 interval)
  | 22%nat, [HNum colorbuffer; HNum postCount; HNum forRead] => rcColorBufferCacheFlush colorbuffer (s32 postCount) (s32 forRead)
  | 23%nat, [HNum colorbuffer; HNum x; HNum y; HNum width; HNum height; HNum format; HNum type; HOut _] =>
      rcReadColorBuffer colorbuffer (s32 x) (s32 y) (s32 width) (s32 height) format type
  | _, _ => Renderer.fail Uninitialised
  end.

(** [initRenderControlContext]: the functions of the decoder, in the thread [t]. *)
Definition rc_call (t op : Z) (args : list harg) (w : Renderer.World) : result (list (list Z) * Z * Renderer.World) :=
  let i := Z.to_nat (op - base_opcode) in
  match rc_event i args with
  | Some e => '(a, w) ← handle env (m_eglConfig <$> s_fbConfigs) t e w; Ok ([], u32 a, w)
  | None => '(outs, a, w) ← rc_query t i args w; Ok (outs, u32 a, w)
  end.

Definition rc_decoder (t : Z) : Decoder Renderer.World := mkDecoder base_opcode renderControl (rc_call t).

(** What [Main] does when the stream ends. *)
Definition leave_thread (t : Z) (w : Renderer.World) : result Renderer.World :=
  '(_, w) ← end_of_thread env t w; Ok w.

End Host.

(** ** The packets of the calls that change the frame buffer *)

(** The index of the entry point and the numbers of a call, as 32 bits. *)
Definition event_call (e : event) : option (nat * list Z) :=
  match e with
  | GetFBParam param => Some (7%nat, [u32 param])
  | CreateContext config share glVersion => Some (8%nat, [config; share; glVersion])
  | DestroyContext context => Some (9%nat, [context])
  | CreateWindowSurface config width height => Some (10%nat, [config; width; height])
  | DestroyWindowSurfaceCall windowSurface => Some (11%nat, [windowSurface])
  | CreateColorBuffer width height internalFormat => Some (12%nat, [width; height; internalFormat])
  | OpenColorBuffer colorbuffer => Some (13%nat, [colorbuffer])
  | CloseColorBuffer colorbuffer => Some (14%nat, [colorbuffer])
  | SetWindowColorBuffer windowSurface colorBuffer => Some (15%nat, [windowSurface; colorBuffer])
  | FlushWindowColorBuffer windowSurface => Some (16%nat, [windowSurface])
  | MakeCurrent context drawSurf readSurf => Some (17%nat, [context; drawSurf; readSurf])
  | FBPost colorBuffer => Some (18%nat, [colorBuffer])
  | BindTexture colorBuffer => Some (20%nat, [colorBuffer])
  | BindRenderbuffer colorBuffer => Some (21%nat, [colorBuffer])
  | UpdateColorBuffer colorBuffer x y width height format type =>
      Some (24%nat, [colorBuffer; u32 x; u32 y; u32 width; u32 height; format; type])
  | EndOfThread | CreateSubWindow _ _ _ _ _ _ | DestroySubWindow | SetDisplayRotation _ | RepaintDisplay => None
  end.

Definition word (z : Z) : Prop := 0 <= z < 2 ^ 32.
Definition int (z : Z) : Prop := - 2 ^ 31 <= z < 2 ^ 31.

(** A call that the guest can make: its numbers have the widths of the parameters,
    and the pixels are as many as format, type and size say. *)
Definition guest_call (c : event * list Z) : Prop :=
  match event_call (fst c) with
  | None => False
  | Some (i, ns) =>
      Forall word ns /\
      match fst c with
      | GetFBParam param => int param
      | UpdateColorBuffer _ x y width height _ _ =>
          Forall int [x; y; width; height] /\ len (snd c) = pixels_length (Num <$> ns) /\ len (snd c) < 2 ^ 30
      | _ => True
      end
  end.

(** The packet of a call and the pixels that come with it. *)
Definition call_request (c : event * list Z) : request :=
  match event_call (fst c) with
  | Some (i, ns) => mkRequest i ((Num <$> ns) ++ match fst c with UpdateColorBuffer _ _ _ _ _ _ _ => [Ptr (Some (snd c))] | _ => [] end) []
  | None => mkRequest 0 [] []
  end.

Definition call_bytes (c : event * list Z) : list Z := request_bytes base_opcode renderControl (call_request c).

(** What is sent back for the result of a call. *)
Definition answer_bytes (e : event) (a : Z) : list Z :=
  match e with
  | GetFBParam _ | CreateContext _ _ _ | CreateWindowSurface _ _ _ | CreateColorBuffer _ _ _
  | FlushWindowColorBuffer _ | MakeCurrent _ _ _ | UpdateColorBuffer _ _ _ _ _ _ _ => le_bytes 4 (u32 a)
  | _ => []
  end.

(** The calls of one thread, as [Renderer] performs them, and their answers. *)
Fixpoint serve (env : nat -> Z) (configs : list Z) (t : Z) (events : list event) : Renderer.M (list Z) :=
  match events with
  | [] => mret []
  | e :: events =>
      a ← handle env configs t e; reps ← serve env configs t events; mret (answer_bytes e a ++ reps)
  end.

Lemma num_fits args z : word z -> fits args num (Num z).
Proof. intros H. unfold fits. cbn. split; [done|]. split; [lia|]. by exists z. Qed.


Lemma pixels_fit args px :
  len px = pixels_length args -> len px < 2 ^ 31 -> fits args (data true pixels_length) (Ptr (Some px)).
Proof.
  intros Hl Hs. assert (0 <= len px) by (unfold len; lia). unfold fits, var_size, var_data. cbn.
  rewrite <-Hl, u32_small by lia. split_and!; try done; try lia; [by eexists|..].
  - intros _. rewrite take_ge; [done|unfold len; lia].
  - intros b [= <-]. lia.
Qed.

(** The entry point of a call that changes the frame buffer. *)
Definition event_entry (i : nat) : EntryPoint := default (mkEntry [] RVoid) (renderControl !! i).

Ltac fit_tac :=
  repeat lazymatch goal with
  | |- Forall2 (fits _) (num :: _) (_ :: _) => constructor; [apply num_fits; assumption|]
  | |- Forall2 _ [] [] => constructor
  end.

(** Every such call is understood alike by encoder and decoder. *)
Lemma guest_call_ok c i ns :
  guest_call c -> event_call (fst c) = Some (i, ns) -> call_ok (event_entry i) (q_args (call_request c)).
Proof.
  destruct c as [e px]. unfold guest_call, call_request. cbn [fst snd]. intros H E. rewrite E in *. cbn [q_args].
  destruct H as [Hns H].
  destruct e; try discriminate E; injection E as <- <-; rewrite !Forall_cons in Hns; destruct_and? Hns; cbn [app fmap list_fmap].
  all: split; [cbn [event_entry lookup list_lookup renderControl default e_vars id]; fit_tac
              |cbn; repeat (split; [intros ?; first [discriminate|constructor]|]); exact I
              |unfold total, slacks, encs; cbn; change (Z.to_nat 4) with 4%nat;
               unfold len; rewrite ?length_app, ?le_bytes_length;
               lazymatch goal with |- context [@take] => idtac | |- _ => simpl; lia end].
  all: destruct H as (_ & Hl & Hs); change (len px = pixels_length [Num colorBuffer; Num (u32 x); Num (u32 y);
         Num (u32 width); Num (u32 height); Num format; Num type; Ptr (Some px)]) in Hl.
  - constructor; [|constructor]. apply pixels_fit; [done|lia].
  - rewrite <-Hl, take_ge by (unfold len; rewrite u32_small by (unfold len in *; lia); lia).
    rewrite app_nil_r. cbn [length]. unfold len in *. lia.
Qed.

(** The decoder recovers the call. *)
Lemma decoded_event c i ns :
  guest_call c -> event_call (fst c) = Some (i, ns) ->
  rc_event i (seen (q_args (call_request c)) [] (indexed (e_vars (event_entry i)))) = Some (fst c).
Proof.
  destruct c as [e px]. unfold guest_call, call_request. cbn [fst snd]. intros H E. rewrite E in *. cbn [q_args].
  destruct H as [Hns H].
  destruct e; try discriminate E; injection E as <- <-; cbn [app fmap list_fmap]; try reflexivity.
  - cbn. by rewrite s32_u32.
  - destruct H as (Hi & _). rewrite !Forall_cons in Hi. destruct_and? Hi. cbn. by rewrite !s32_u32.
Qed.

(** The reply of the entry point of a call. *)
Lemma reply_answer e i ns a :
  event_call e = Some (i, ns) ->
  reply (event_entry i) (fun _ => []) (u32 a) = answer_bytes e a /\ out_indices (e_vars (event_entry i)) = [] /\
  renderControl !! i = Some (event_entry i) /\ (i < 25)%nat.
Proof. destruct e; try discriminate; intros [= <- <-]; (split; [reflexivity|split; [reflexivity|split; [reflexivity|lia]]]). Qed.

Lemma event_answer_ok e i ns args a :
  event_call e = Some (i, ns) -> answer_ok (event_entry i) args (fun _ => []) (u32 a) /\
  slacks args (indexed (e_vars (event_entry i))) = 0.
Proof.
  pose proof (u32_range a) as Hr.
  destruct e; try discriminate; intros [= <- <-];
    (split; [split; [repeat first [apply Forall_nil_2|apply Forall_cons_2; [reflexivity|]]|first [exact I|change (0 <= 4 /\ 0 <= u32 a < 2 ^ 32); lia]]|reflexivity]).
Qed.

Section Serving.
Variables (env : nat -> Z) (s_fbConfigs : list FBConfig).
Variables (eglMajor eglMinor : Z) (eglQueryString : Z -> option (list Z)) (glGetString : bool -> Z -> option (list Z)).
Variables (eglGetConfigAttrib : Z -> Z -> option Z) (nConfigs : option Z) (eglChooseConfig : list Z -> option (list Z)).

#[local] Abbreviation call t := (rc_call env s_fbConfigs eglMajor eglMinor eglQueryString glGetString eglGetConfigAttrib
  nConfigs eglChooseConfig t).
#[local] Abbreviation decoder t := (rc_decoder env s_fbConfigs eglMajor eglMinor eglQueryString glGetString eglGetConfigAttrib
  nConfigs eglChooseConfig t).

Lemma call_performs t c w a w' :
  guest_call c -> handle env (m_eglConfig <$> s_fbConfigs) t (fst c) w = Ok (a, w') ->
  performs base_opcode renderControl (call t) (call_request c) w w' (answer_bytes (fst c) a).
Proof.
  intros Hg Hh. assert (Hc : is_Some (event_call (fst c))).
  { unfold guest_call in Hg. by destruct (event_call (fst c)). }
  destruct Hc as [[i ns] Ec]. destruct (reply_answer _ _ _ a Ec) as (Er & Eo & Ee & Hi).
  destruct (event_answer_ok _ _ _ (q_args (call_request c)) a Ec) as [Ha Hsl].
  assert (Eq : q_index (call_request c) = i /\ q_stale (call_request c) = []).
  { unfold call_request. by rewrite Ec. }
  destruct Eq as [Eq Es]. rewrite <-Er.
  apply (performs_intro base_opcode renderControl (call t) (call_request c) w (event_entry i) (fun _ => []) (u32 a) w').
  - split; [by rewrite Eq|rewrite Eq; unfold base_opcode; lia|by apply guest_call_ok with ns|by rewrite Es, Hsl].
  - done.
  - rewrite Er. unfold answer_bytes; destruct (fst c); reflexivity.
  - unfold rc_call. rewrite opcode_small by (rewrite Eq; unfold base_opcode; lia). rewrite Eq, Es, Eo.
    replace (Z.to_nat _) with i by lia. rewrite (decoded_event c i ns Hg Ec), Hh. done.
Qed.

(** A stream of calls for the decoder at an index. *)
Lemma serve_runs decoders i t calls w reps w' :
  decoders !! i = Some (decoder t) -> Forall guest_call calls ->
  serve env (m_eglConfig <$> s_fbConfigs) t calls.*1 w = Ok (reps, w') ->
  runs decoders (pair i <$> (call_request <$> calls)) w w' reps /\
  stream_bytes decoders (pair i <$> (call_request <$> calls)) = concat (call_bytes <$> calls).
Proof.
  intros Hd H. revert w reps. induction H as [|c calls Hc _ IH]; intros w reps.
  { intros [= <- <-]. split; [constructor|done]. }
  cbn [fmap list_fmap serve]. unfold mbind at 1, M_bind at 1.
  destruct (handle env _ t (fst c) w) as [[a w1]|] eqn:Eh; [|discriminate].
  unfold mbind at 1, M_bind at 1. destruct (serve _ _ t calls.*1 w1) as [[reps' w2]|] eqn:Es; [|discriminate].
  intros [= <- <-]. destruct (IH _ _ Es) as [Hr Hb]. split.
  - apply runs_cons with (d := decoder t) (h1 := w1); [done| |done]. by apply call_performs.
  - cbn [concat]. rewrite <-Hb. unfold stream_bytes. cbn [fmap list_fmap concat]. f_equal.
    unfold tagged_bytes. cbn [fst snd]. by rewrite Hd.
Qed.

End Serving.

Lemma serve_all env configs t events w w' :
  handle_all env configs (pair t <$> events) w = Ok (tt, w') ->
  exists reps, serve env configs t events w = Ok (reps, w').
Proof.
  revert w. induction events as [|e events IH]; intros w; cbn [fmap list_fmap handle_all for_each serve].
  { intros [= <-]. by exists []. }
  unfold handle_all. cbn [for_each serve]. unfold mbind, M_bind, mret, M_ret.
  destruct (handle env configs t e w) as [[a w1]|]; [|discriminate]. intros E.
  destruct (IH w1 E) as [reps Er]. unfold mret, M_ret, mbind, M_bind in Er. rewrite Er. by eexists.
Qed.

Lemma end_of_thread_ends env t w : exists w', end_of_thread env t w = Ok (tt, w').
Proof.
  unfold end_of_thread, eglGetCurrent, when, eglMakeCurrent, ask, gl, read, modify, mbind, M_bind, mret, M_ret.
  cbn. match goal with |- context [if ?b then _ else _] => destruct b end; [|by eexists].
  cbn. match goal with |- context [if ?b then _ else _] => destruct b end; by eexists.
Qed.

(** C6 A guest's connection to the renderer: when the packets of calls arrive, in
    pieces of any sizes, the thread performs the calls as [Renderer.handle] does, in
    their order, sends their results back in that order and nothing else, lets go
    of its context at the end, and keeps the frame buffer consistent; unless one of
    the calls is among those that end the host's process. *)
Theorem render_control_serves (T : Transport) (L : TransportLaws T) env s_fbConfigs eglMajor eglMinor eglQueryString
    glGetString eglGetConfigAttrib nConfigs eglChooseConfig decoders i t sock bufSize bufsize fresh out inp K w calls :
  let configs := m_eglConfig <$> s_fbConfigs in
  disjoint_opcodes decoders ->
  decoders !! i = Some (rc_decoder env s_fbConfigs eglMajor eglMinor eglQueryString glGetString eglGetConfigAttrib
                          nConfigs eglChooseConfig t) ->
  0 <= sock -> 0 <= bufSize < 2 ^ 31 -> 1 <= bufsize < 2 ^ 31 -> Forall willing out ->
  Forall guest_call calls -> incoming inp = concat (call_bytes <$> calls) -> len (incoming inp) < 2 ^ 30 ->
  Inv K w -> small (16 * length calls + K) ->
  (exists th reps w1,
     main_with decoders (leave_thread env t) bufsize (new_stream sock bufSize) (mkWorld ∅ 0 [] fresh [] out inp) w = Ok th /\
     serve env configs t calls.*1 w = Ok (reps, w1) /\ end_of_thread env t w1 = Ok (tt, t_host th) /\
     w_sent (t_world th) = reps /\ Inv (16 * length calls + K) w1) \/
  (exists pre c post w1, calls = pre ++ c :: post /\ handle_all env configs (pair t <$> pre.*1) w = Ok (tt, w1) /\
     crashes (fst c) w1 = true).
Proof.
  intros configs Hdis Hd Hs Hb Hb' Hw Hg Hi Hl HI HK.
  assert (El : length (pair t <$> calls.*1) = length calls) by (by rewrite !length_fmap).
  destruct (handle_all_ok env configs K w (pair t <$> calls.*1) HI) as [(w1 & E & HI1)|(pre & t' & e & post & w1 & err & Es & E & Hc & _)].
  { by rewrite El. }
  - left. destruct (serve_all _ _ _ _ _ _ E) as [reps Er]. destruct (end_of_thread_ends env t w1) as [w2 E2].
    destruct (serve_runs env s_fbConfigs eglMajor eglMinor eglQueryString glGetString eglGetConfigAttrib nConfigs
                eglChooseConfig decoders i t calls w reps w1 Hd Hg Er) as [Hr Hby].
    rewrite <-Hby in Hi. rewrite Hi in Hl.
    destruct (main_with_ok decoders (leave_thread env t) Hdis bufsize (new_stream sock bufSize) (mkWorld ∅ 0 [] fresh [] out inp)
                w w1 w2 reps (pair i <$> (call_request <$> calls))) as (th & Em & Eh & Ew); try done.
    + apply stream_ok_new; [done|done|]. intros a [x Hx]. simpl in Hx. by rewrite lookup_empty in Hx.
    + by left.
    + unfold leave_thread. by rewrite E2.
    + exists th, reps, w1. rewrite Eh, El in *. split_and!; done.
  - right. destruct (fmap_app_inv (pair t) _ _ _ Es) as (a & b & -> & Eb & Eab).
    destruct b as [|e' b]; [discriminate|]. injection Eb as -> -> ->.
    destruct (fmap_app_inv fst _ _ _ Eab) as (a' & b' & -> & Eb & ->).
    destruct b' as [|c b']; [discriminate|]. injection Eb as -> ->. by exists a', c, b', w1.
Qed.

(** ** Concrete calls *)

Definition demo_configs : list FBConfig := [mkFBConfig 500 (replicate 32 8)].
Definition demo_string (name : Z) : option (list Z) := if name =? 0x3053 then Some [65; 66] else None.

Definition demo_rc : Decoder Renderer.World :=
  rc_decoder (fun _ => 1) demo_configs 1 4 demo_string (fun _ => demo_string) demo_attrib (Some 4) (fun _ => Some [0]) 7.

(** A colour buffer of 4 by 4 pixels is made; the handle of the first object is 1.
    A pixel of it is changed; a context that does not exist is made current. *)
Definition demo_calls : list (event * list Z) :=
  [(CreateColorBuffer 4 4 0x1908, []); (OpenColorBuffer 1, []);
   (UpdateColorBuffer 1 0 0 1 1 0x1908 0x1401, [1; 2; 3; 4]); (MakeCurrent 9 9 9, []); (GetFBParam 1, [])].

(** The packets in two pieces, cut inside of a packet. *)
Definition demo_arrivals : list arrival :=
  [Data (take 30 (concat (call_bytes <$> demo_calls))); Interruption; Data (drop 30 (concat (call_bytes <$> demo_calls)))].

Lemma demo_guest_calls : Forall guest_call demo_calls.
Proof.
  repeat (apply Forall_cons_2; [split; [repeat (apply Forall_cons_2; [split; vm_compute; done|]); apply Forall_nil_2|]|]);
    try apply Forall_nil_2; try exact I; [|split; vm_compute; done].
  split; [repeat (apply Forall_cons_2; [split; vm_compute; done|]); apply Forall_nil_2|]. split; vm_compute; done.
Qed.

Definition demo_main : result (@Thread Renderer.World) :=
  @main_with pipe_transport _ [demo_rc] (leave_thread (fun _ => 1) 7) 16 (new_stream 3 8)
    (mkWorld ∅ 0 [] (fun _ => 170) [] [] demo_arrivals) (init_world 320 480 false).

Example render_control_serves_witness :
  Forall guest_call demo_calls /\ incoming demo_arrivals = concat (call_bytes <$> demo_calls) /\
  ((exists th reps w1, demo_main = Ok th /\
      serve (fun _ => 1) (m_eglConfig <$> demo_configs) 7 demo_calls.*1 (init_world 320 480 false) = Ok (reps, w1) /\
      end_of_thread (fun _ => 1) 7 w1 = Ok (tt, t_host th) /\ w_sent (t_world th) = reps /\
      Inv (16 * length demo_calls + 0) w1) \/
   (exists pre c post w1, demo_calls = pre ++ c :: post /\
      handle_all (fun _ => 1) (m_eglConfig <$> demo_configs) (pair 7 <$> pre.*1) (init_world 320 480 false) = Ok (tt, w1) /\
      crashes (fst c) w1 = true)).
Proof.
  split; [exact demo_guest_calls|]. split; [vm_compute; reflexivity|].
  apply (render_control_serves pipe_transport pipe_laws (fun _ => 1) demo_configs 1 4 demo_string (fun _ => demo_string)
           demo_attrib (Some 4) (fun _ => Some [0]) [demo_rc] 0 7 3 8 16 (fun _ => 170) [] demo_arrivals 0
           (init_world 320 480 false) demo_calls).
  - intros i j d d' Hne Hi Hj. destruct i as [|i], j as [|j]; done.
  - reflexivity.
  - lia.
  - lia.
  - lia.
  - constructor.
  - exact demo_guest_calls.
  - vm_compute. reflexivity.
  - vm_compute. reflexivity.
  - apply init_inv.
  - vm_compute. reflexivity.
Defined.

(** The same thread, run: the handle of the colour buffer, 0 for the update, false
    for the context, and the width. *)
Example demo_main_runs :
  (fun th => w_sent (t_world th)) <$> demo_main = Ok (concat (le_bytes 4 <$> [1; 0; 0; 320])).
Proof. vm_compute. reflexivity. Qed.

(** The packet of a query, and what the thread answers. *)
Definition ask_thread (q : request) : result (list Z) :=
  let bytes := request_bytes base_opcode renderControl q in
  th ← @main_with pipe_transport _ [demo_rc] (leave_thread (fun _ => 1) 7) 64 (new_stream 3 8)
         (mkWorld ∅ 0 [] (fun _ => 170) [] [] [Data bytes]) (init_world 320 480 false);
  Ok (w_sent (t_world th)).

Definition room (n : nat) : arg := Ptr (Some (replicate n 0)).

Example egl_string_answered :
  ask_thread (mkRequest 2 [Num 0x3053; room 3; Num 3] [0; 0; 0]) = Ok ([65; 66; 0] ++ le_bytes 4 3).
Proof. vm_compute. reflexivity. Qed.

(** The table of configurations, into room of its exact size. *)
Example configs_answered :
  ask_thread (mkRequest 5 [Num 256; room 256] (replicate 256 0))
  = Ok (concat (le_bytes 4 <$> s_configAttribs ++ replicate 32 8) ++ le_bytes 4 1).
Proof. vm_compute. reflexivity. Qed.

(** When a query fails, or a result is shorter than its room, the rest of the room
    is sent as it was allocated: the guest gets what was in the host's memory. *)
Example stale_memory_sent :
  ask_thread (mkRequest 2 [Num 0x3053; room 2; Num 2] [0; 0]) = Ok ([170; 170] ++ le_bytes 4 (u32 (-3))) /\
  ask_thread (mkRequest 2 [Num 0x3053; room 5; Num 5] [0; 0; 0; 0; 0]) = Ok ([65; 66; 0; 170; 170] ++ le_bytes 4 3) /\
  ask_thread (mkRequest 23 [Num 1; Num 0; Num 0; Num 1; Num 1; Num 0x1908; Num 0x1401; room 4] [0; 0; 0; 0])
  = Ok [170; 170; 170; 170].
Proof. vm_compute. done. Qed.
