(* ===== verification/Etc1.v ===== *)
(** * ETC1 texture blocks

    Models [src/emulator/opengl/host/libs/Translator/GLcommon/etc1.cpp]: blocks of
    4 by 4 pixels in 64 bits, their decoder, and the encoder, which tries both ways
    to cut a block into halves and all tables of modifiers for each half.

    A block of pixels is 48 bytes, an encoded one 8.  [encode_block_best]: the
    squared error of what [etc1_encode_block] produces is the least among all blocks
    with the base colours that it takes. *)
From Stdlib Require Import Btauto.
From S2P Require Import Prelude.
Local Open Scope Z_scope.

Definition kModifierTable : list Z :=
  [2; 8; -2; -8; 5; 17; -5; -17; 9; 29; -9; -29; 13; 42; -13; -42;
   18; 60; -18; -60; 24; 80; -24; -80; 33; 106; -33; -106; 47; 183; -47; -183].

(** [kModifierTable + index * 4]. *)
Definition modifiers (index : Z) : list Z := drop (Z.to_nat (index * 4)) kModifierTable.

Definition kLookup : list Z := [0; 1; 2; 3; -4; -3; -2; -1].

Definition clamp (x : Z) : Z := u8 (if 0 <=? x then if x <? 255 then x else 255 else 0).

Definition convert4To8 (b : Z) : Z := let c := Z.land b 0xf in Z.lor (Z.shiftl c 4) c.
Definition convert5To8 (b : Z) : Z := let c := Z.land b 0x1f in Z.lor (Z.shiftl c 3) (Z.shiftr c 2).
Definition convert6To8 (b : Z) : Z := let c := Z.land b 0x3f in Z.lor (Z.shiftl c 2) (Z.shiftr c 4).
Definition divideBy255 (d : Z) : Z := Z.shiftr (d + 128 + Z.shiftr d 8) 8.
Definition convert8To4 (b : Z) : Z := divideBy255 (b * 15).
Definition convert8To5 (b : Z) : Z := divideBy255 (b * 31).

Definition convertDiff (base diff : Z) : Z :=
  convert5To8 (Z.land 0x1f base + kLookup !!! Z.to_nat (Z.land 7 diff)).

(** ** Decoding *)

(** Three bytes of a pixel. *)
Definition rgb : Type := Z * Z * Z.

Definition pixel (p : list Z) (i : Z) : rgb :=
  let k := Z.to_nat (i * 3) in (p !!! k, p !!! (k + 1)%nat, p !!! (k + 2)%nat).

Definition set_pixel (p : list Z) (i : Z) (c : rgb) : list Z :=
  let k := Z.to_nat (i * 3) in let '(r, g, b) := c in <[(k + 2)%nat := b]> (<[(k + 1)%nat := g]> (<[k := r]> p)).

Definition modify (c : rgb) (delta : Z) : rgb :=
  let '(r, g, b) := c in (clamp (r + delta), clamp (g + delta), clamp (b + delta)).

(** The index of the modifier of the pixel at bit [k]. *)
Definition modifier_index (low k : Z) : Z :=
  Z.lor (Z.land (Z.shiftr low k) 1) (Z.land (Z.shiftr low (k + 15)) 2).

Definition decode_pixel (table : list Z) (c : rgb) (low x y : Z) (pOut : list Z) : list Z :=
  let delta := table !!! Z.to_nat (modifier_index low (y + x * 4)) in
  set_pixel pOut (x + 4 * y) (modify c delta).

Definition decode_subblock (pOut : list Z) (c : rgb) (table : list Z) (low : Z) (second flipped : bool) : list Z :=
  let baseX := if second && negb flipped then 2 else 0 in
  let baseY := if second && flipped then 2 else 0 in
  foldl (fun pOut i =>
    let x := baseX + (if flipped then Z.shiftr i 1 else Z.shiftr i 2) in
    let y := baseY + (if flipped then Z.land i 1 else Z.land i 3) in
    decode_pixel table c low x y pOut) pOut (seqZ 0 8).

Definition big_endian (b : list Z) (i : nat) : Z :=
  u32 (Z.lor (Z.lor (Z.lor (Z.shiftl (b !!! i) 24) (Z.shiftl (b !!! (i + 1)%nat) 16)) (Z.shiftl (b !!! (i + 2)%nat) 8))
             (b !!! (i + 3)%nat)).

(** The base colours of the two halves. *)
Definition base_colors (high : Z) : rgb * rgb :=
  if negb (Z.land high 2 =? 0) then
    let rBase := Z.shiftr high 27 in let gBase := Z.shiftr high 19 in let bBase := Z.shiftr high 11 in
    ((convert5To8 rBase, convert5To8 gBase, convert5To8 bBase),
     (convertDiff rBase (Z.shiftr high 24), convertDiff gBase (Z.shiftr high 16), convertDiff bBase (Z.shiftr high 8)))
  else
    ((convert4To8 (Z.shiftr high 28), convert4To8 (Z.shiftr high 20), convert4To8 (Z.shiftr high 12)),
     (convert4To8 (Z.shiftr high 24), convert4To8 (Z.shiftr high 16), convert4To8 (Z.shiftr high 8))).

Definition decode_words (high low : Z) (pOut : list Z) : list Z :=
  let '(c1, c2) := base_colors high in
  let tableA := modifiers (Z.land 7 (Z.shiftr high 5)) in
  let tableB := modifiers (Z.land 7 (Z.shiftr high 2)) in
  let flipped := negb (Z.land high 1 =? 0) in
  let pOut := decode_subblock pOut c1 tableA low false flipped in
  decode_subblock pOut c2 tableB low true flipped.

(** From 8 bytes to 48. *)
Definition etc1_decode_block (pIn pOut : list Z) : list Z := decode_words (big_endian pIn 0) (big_endian pIn 4) pOut.

(** ** Encoding *)

Record etc_compressed := mkCompressed { high : Z; low : Z; score : Z }.

Definition take_best (a b : etc_compressed) : etc_compressed := if score b <? score a then b else a.

(** The pixels of a half, in the order of the encoder's loops. *)
Definition half (flipped second : bool) : list (Z * Z) :=
  if flipped then
    let by_ := if second then 2 else 0 in
    y ← seqZ 0 2; x ← seqZ 0 4; [(x, by_ + y)]
  else
    let bx := if second then 2 else 0 in
    y ← seqZ 0 4; x ← seqZ 0 2; [(bx + x, y)].

Definition masked (inMask i : Z) : bool := negb (Z.land inMask (Z.shiftl 1 i) =? 0).

Definition etc_average_colors_subblock (pIn : list Z) (inMask : Z) (flipped second : bool) : rgb :=
  let '(r, g, b) :=
    foldl (fun '(r, g, b) '(x, y) =>
      let i := x + 4 * y in
      if masked inMask i then let '(pr, pg, pb) := pixel pIn i in (r + pr, g + pg, b + pb) else (r, g, b))
      (0, 0, 0) (half flipped second) in
  (u8 (Z.shiftr (r + 4) 3), u8 (Z.shiftr (g + 4) 3), u8 (Z.shiftr (b + 4) 3)).

Definition square (x : Z) : Z := x * x.

Definition UINT_MAX : Z := 2 ^ 32 - 1.

(** A turn of the search for a modifier: the best score and its index so far. *)
Definition try_modifier (base pix : rgb) (table : list Z) (best : Z * Z) (i : Z) : Z * Z :=
  let '(bestScore, bestIndex) := best in
  let '(pixelR, pixelG, pixelB) := pix in
  let '(r, g, b) := base in
  let modifier := table !!! Z.to_nat i in
  let decodedG := clamp (g + modifier) in
  let score := u32 (6 * square (decodedG - pixelG)) in
  if bestScore <=? score then best
  else
    let decodedR := clamp (r + modifier) in
    let score := u32 (score + u32 (3 * square (decodedR - pixelR))) in
    if bestScore <=? score then best
    else
      let decodedB := clamp (b + modifier) in
      let score := u32 (score + u32 (square (decodedB - pixelB))) in
      if score <? bestScore then (score, i) else best.

(** The score, and [low] with the bits of the index. *)
Definition chooseModifier (base pix : rgb) (low bitIndex : Z) (table : list Z) : Z * Z :=
  let '(bestScore, bestIndex) := foldl (try_modifier base pix table) (UINT_MAX, 0) (seqZ 0 4) in
  let lowMask := u32 (Z.shiftl (Z.lor (Z.shiftl (Z.shiftr bestIndex 1) 16) (Z.land bestIndex 1)) bitIndex) in
  (bestScore, Z.lor low lowMask).

(** A turn of the loop over a half: the score and [low] so far. *)
Definition encode_turn (pIn : list Z) (inMask : Z) (base : rgb) (table : list Z) (st : Z * Z) (xy : Z * Z) : Z * Z :=
  let '(sc, lw) := st in
  let '(x, y) := xy in
  let i := x + 4 * y in
  if masked inMask i then
    let '(s, lw) := chooseModifier base (pixel pIn i) lw (y + x * 4) table in (s32 (sc + s), lw)
  else (sc, lw).

Definition etc_encode_subblock_helper (pIn : list Z) (inMask : Z) (c : etc_compressed) (flipped second : bool)
  (base : rgb) (table : list Z) : etc_compressed :=
  let '(sc, lw) := foldl (encode_turn pIn inMask base table) (s32 (score c), low c) (half flipped second) in
  mkCompressed (high c) lw (u32 sc).

Definition inRange4bitSigned (color : Z) : bool := (-4 <=? color) && (color <=? 3).

(** The base colours, and [high] with their bits. *)
Definition etc_encodeBaseColors (colors : rgb * rgb) (high : Z) : rgb * rgb * Z :=
  let '((cr1, cg1, cb1), (cr2, cg2, cb2)) := colors in
  let r51 := convert8To5 cr1 in let g51 := convert8To5 cg1 in let b51 := convert8To5 cb1 in
  let r52 := convert8To5 cr2 in let g52 := convert8To5 cg2 in let b52 := convert8To5 cb2 in
  let dr := r52 - r51 in let dg := g52 - g51 in let db := b52 - b51 in
  if inRange4bitSigned dr && inRange4bitSigned dg && inRange4bitSigned db then
    ((u8 (convert5To8 r51), u8 (convert5To8 g51), u8 (convert5To8 b51)),
     (u8 (convert5To8 (r51 + dr)), u8 (convert5To8 (g51 + dg)), u8 (convert5To8 (b51 + db))),
     Z.lor high (u32 (Z.lor (Z.lor (Z.lor (Z.lor (Z.lor (Z.lor (Z.shiftl r51 27) (Z.shiftl (Z.land 7 dr) 24))
        (Z.shiftl g51 19)) (Z.shiftl (Z.land 7 dg) 16)) (Z.shiftl b51 11)) (Z.shiftl (Z.land 7 db) 8)) 2)))
  else
    let r41 := convert8To4 cr1 in let g41 := convert8To4 cg1 in let b41 := convert8To4 cb1 in
    let r42 := convert8To4 cr2 in let g42 := convert8To4 cg2 in let b42 := convert8To4 cb2 in
    ((u8 (convert4To8 r41), u8 (convert4To8 g41), u8 (convert4To8 b41)),
     (u8 (convert4To8 r42), u8 (convert4To8 g42), u8 (convert4To8 b42)),
     Z.lor high (u32 (Z.lor (Z.lor (Z.lor (Z.lor (Z.lor (Z.shiftl r41 28) (Z.shiftl r42 24)) (Z.shiftl g41 20))
        (Z.shiftl g42 16)) (Z.shiftl b41 12)) (Z.shiftl b42 8)))).

(** The tables for the first half, then those for the second. *)
Definition encode_first (pIn : list Z) (inMask : Z) (flipped : bool) (base1 : rgb) (originalHigh : Z) : etc_compressed :=
  foldl (fun c i =>
    take_best c (etc_encode_subblock_helper pIn inMask (mkCompressed (Z.lor originalHigh (Z.shiftl i 5)) 0 0)
                   flipped false base1 (modifiers i)))
    (mkCompressed originalHigh 0 UINT_MAX) (seqZ 0 8).

Definition encode_second (pIn : list Z) (inMask : Z) (flipped : bool) (base2 : rgb) (firstHalf : etc_compressed) : etc_compressed :=
  foldl (fun c i =>
    let temp := etc_encode_subblock_helper pIn inMask
                  (mkCompressed (Z.lor (high firstHalf) (Z.shiftl i 2)) (low firstHalf) (score firstHalf))
                  flipped true base2 (modifiers i) in
    if i =? 0 then temp else take_best c temp) firstHalf (seqZ 0 8).

Definition etc_encode_block_helper (pIn : list Z) (inMask : Z) (colors : rgb * rgb) (flipped : bool) : etc_compressed :=
  let '(base1, base2, originalHigh) := etc_encodeBaseColors colors (if flipped then 1 else 0) in
  encode_second pIn inMask flipped base2 (encode_first pIn inMask flipped base1 originalHigh).

Definition writeBigEndian (d : Z) : list Z := [u8 (Z.shiftr d 24); u8 (Z.shiftr d 16); u8 (Z.shiftr d 8); u8 d].

(** The better of both ways to cut the block. *)
Definition encode_words (pIn : list Z) (inMask : Z) : etc_compressed :=
  let average flipped := (etc_average_colors_subblock pIn inMask flipped false,
                          etc_average_colors_subblock pIn inMask flipped true) in
  take_best (etc_encode_block_helper pIn inMask (average false) false)
            (etc_encode_block_helper pIn inMask (average true) true).

(** From 48 bytes to 8. *)
Definition etc1_encode_block (pIn : list Z) (inMask : Z) : list Z :=
  let a := encode_words pIn inMask in writeBigEndian (high a) ++ writeBigEndian (low a).

Definition etc1_get_encoded_data_size (width height : Z) : Z :=
  Z.shiftr (u32 (Z.land (u32 (width + 3)) (Z.lnot 3) * Z.land (u32 (height + 3)) (Z.lnot 3))) 1.

(** A block of one colour, and one of two colours, there and back. *)
Example one_color : etc1_decode_block (etc1_encode_block (concat (replicate 16 [66; 132; 255])) 0xffff) (replicate 48 0)
  = concat (replicate 16 [68; 134; 255]).
Proof. vm_compute. reflexivity. Qed.

(** ** Bits *)

(** Decidable facts on small numbers, by trying all of them. *)
Lemma for_all_below (n : Z) (P : Z -> bool) : forallb P (seqZ 0 n) = true -> forall z, 0 <= z < n -> P z = true.
Proof. intros H z Hz. rewrite forallb_forall in H. apply H. apply list_elem_of_In, elem_of_seqZ. lia. Qed.

Lemma testbit_small b n m : 0 <= b < 2 ^ n -> n <= m -> Z.testbit b m = false.
Proof.
  intros Hb Hm. destruct (decide (n < 0)); [rewrite Z.pow_neg_r in Hb by lia; lia|]. destruct (decide (b = 0)) as [->|]; [apply Z.bits_0|].
  apply Z.bits_above_log2; [lia|]. apply Z.lt_le_trans with n; [apply Z.log2_lt_pow2; lia|done].
Qed.

(** A disjunction of disjoint fields is a sum. *)
Lemma lor_low a b n : 0 <= n -> 0 <= b < 2 ^ n -> Z.lor (Z.shiftl a n) b = a * 2 ^ n + b.
Proof.
  intros Hn Hb. rewrite <-Z.shiftl_mul_pow2, <-Z.add_lor_land by done.
  replace (Z.land (Z.shiftl a n) b) with 0; [lia|]. symmetry. apply Z.bits_inj'. intros m Hm. rewrite Z.land_spec, Z.bits_0.
  destruct (decide (m < n)); [by rewrite Z.shiftl_spec_low by lia|].
  by rewrite (testbit_small b n m), andb_false_r by lia.
Qed.

Lemma land_1 z : Z.land z 1 = Z.b2z (Z.testbit z 0).
Proof. change 1 with (Z.ones 1) at 1. rewrite Z.land_ones by lia. by rewrite Z.bit0_mod. Qed.

Lemma land_2 z : Z.land z 2 = 2 * Z.b2z (Z.testbit z 1).
Proof.
  apply Z.bits_inj'. intros m Hm. rewrite Z.land_spec. change 2 with (2 ^ 1) at 1. rewrite Z.pow2_bits_eqb by lia.
  destruct (Z.eqb_spec 1 m) as [<-|Hne].
  - rewrite andb_true_r. destruct (Z.testbit z 1); done.
  - rewrite andb_false_r. destruct (Z.testbit z 1); [|by rewrite Z.bits_0].
    change (2 * Z.b2z true) with (2 ^ 1). rewrite Z.pow2_bits_eqb by lia. symmetry. by apply Z.eqb_neq.
Qed.

Lemma modifier_index_bits lw k :
  0 <= k -> modifier_index lw k = Z.b2z (Z.testbit lw k) + 2 * Z.b2z (Z.testbit lw (k + 16)).
Proof.
  intros Hk. unfold modifier_index. rewrite land_1, land_2, !Z.shiftr_spec by lia.
  replace (0 + k) with k by lia. replace (1 + (k + 15)) with (k + 16) by lia. by destruct (Z.testbit lw k), (Z.testbit lw (k + 16)).
Qed.

Lemma modifier_index_range lw k : 0 <= k -> 0 <= modifier_index lw k < 4.
Proof. intros Hk. rewrite modifier_index_bits by done. destruct (Z.testbit lw k), (Z.testbit lw (k + 16)); simpl; lia. Qed.

(** The bits of an index at [k]. *)
Definition index_mask (idx k : Z) : Z := u32 (Z.shiftl (Z.lor (Z.shiftl (Z.shiftr idx 1) 16) (Z.land idx 1)) k).

Lemma index_mask_bits idx k n :
  0 <= idx < 4 -> 0 <= k < 16 -> 0 <= n < 32 ->
  Z.testbit (index_mask idx k) n = ((n =? k) && Z.testbit idx 0) || ((n =? k + 16) && Z.testbit idx 1).
Proof.
  intros Hi Hk Hn. unfold index_mask, u32. rewrite Z.mod_pow2_bits_low, Z.shiftl_spec by lia.
  assert (E : Z.lor (Z.shiftl (Z.shiftr idx 1) 16) (Z.land idx 1) =
              (if Z.testbit idx 1 then 2 ^ 16 else 0) + (if Z.testbit idx 0 then 2 ^ 0 else 0)).
  { assert (idx = 0 \/ idx = 1 \/ idx = 2 \/ idx = 3) as [->|[->|[->| ->]]] by lia; reflexivity. }
  destruct (decide (n < k)) as [Hlt|Hge].
  { rewrite Z.testbit_neg_r by lia. replace (n =? k) with false by lia. by replace (n =? k + 16) with false by lia. }
  rewrite E. destruct (Z.testbit idx 1), (Z.testbit idx 0); rewrite ?Z.add_0_r, ?Z.add_0_l, ?Z.bits_0, ?andb_false_r, ?andb_true_r, ?orb_false_r.
  - assert (Hs : 2 ^ 16 + 2 ^ 0 = Z.lor (2 ^ 16) (2 ^ 0)) by reflexivity. rewrite Hs, Z.lor_spec, !Z.pow2_bits_eqb by lia. lia.
  - rewrite Z.pow2_bits_eqb by lia. cbn [orb]. lia.
  - rewrite Z.pow2_bits_eqb by lia. lia.
  - done.
Qed.

(** Setting the index of a pixel that has none. *)
Lemma modifier_index_set lw idx k k' :
  0 <= idx < 4 -> 0 <= k < 16 -> 0 <= k' < 16 -> modifier_index lw k = 0 ->
  modifier_index (Z.lor lw (index_mask idx k)) k' = if k' =? k then idx else modifier_index lw k'.
Proof.
  intros Hi Hk Hk' H0. rewrite !modifier_index_bits in * by lia. rewrite !Z.lor_spec, !index_mask_bits by lia.
  replace (k' + 16 =? k + 16) with (k' =? k) by lia. replace (k' =? k + 16) with false by lia. replace (k' + 16 =? k) with false by lia.
  destruct (Z.eqb_spec k' k) as [->|Hne]; cbn [andb orb]; rewrite ?orb_false_r; [|done].
  destruct (Z.testbit lw k), (Z.testbit lw (k + 16)); simpl in H0; try lia. cbn [orb].
  assert (idx = 0 \/ idx = 1 \/ idx = 2 \/ idx = 3) as [->|[->|[->| ->]]] by lia; reflexivity.
Qed.

Lemma lor_bound a b n : 0 <= n -> 0 <= a < 2 ^ n -> 0 <= b < 2 ^ n -> 0 <= Z.lor a b < 2 ^ n.
Proof.
  intros Hn Ha Hb. assert (H0 : 0 <= Z.lor a b) by (apply Z.lor_nonneg; lia). split; [done|].
  assert (E : Z.lor a b = Z.lor a b `mod` 2 ^ n); [|rewrite E; apply Z.mod_pos_bound; lia].
  apply Z.bits_inj'. intros m Hm. destruct (decide (m < n)); [by rewrite Z.mod_pow2_bits_low by lia|].
  rewrite Z.mod_pow2_bits_high, Z.lor_spec by lia. by rewrite (testbit_small a n m), (testbit_small b n m) by lia.
Qed.

(** ** What is decoded *)

Lemma length_set_pixel p i c : length (set_pixel p i c) = length p.
Proof. destruct c as [[r g] b]. unfold set_pixel. by rewrite !length_insert. Qed.

Lemma pixel_set p i j c :
  length p = 48%nat -> 0 <= i < 16 -> 0 <= j < 16 -> pixel (set_pixel p j c) i = if i =? j then c else pixel p i.
Proof.
  intros Hl Hi Hj. destruct c as [[r g] b]. unfold pixel, set_pixel.
  destruct (Z.eqb_spec i j) as [->|Hne].
  - rewrite (list_lookup_total_insert_ne _ _ (Z.to_nat (j * 3))), (list_lookup_total_insert_ne _ _ (Z.to_nat (j * 3))) by lia.
    rewrite list_lookup_total_insert_eq by lia.
    rewrite (list_lookup_total_insert_ne _ _ (Z.to_nat (j * 3) + 1)%nat) by lia.
    rewrite list_lookup_total_insert_eq by (rewrite length_insert; lia).
    by rewrite list_lookup_total_insert_eq by (rewrite !length_insert; lia).
  - by rewrite !list_lookup_total_insert_ne by lia.
Qed.

(** Pixels painted one after the other. *)
Definition paint (f : Z -> rgb) (l : list Z) (p : list Z) : list Z := foldl (fun p j => set_pixel p j (f j)) p l.

Lemma paint_pixel f l p i :
  length p = 48%nat -> Forall (fun j => 0 <= j < 16) l -> 0 <= i < 16 ->
  length (paint f l p) = 48%nat /\ pixel (paint f l p) i = if bool_decide (i ∈ l) then f i else pixel p i.
Proof.
  intros Hp H Hi. revert p Hp. induction H as [|j l Hj _ IH]; intros p Hp; [done|].
  cbn [paint foldl]. destruct (IH (set_pixel p j (f j))) as [H1 H2]; [by rewrite length_set_pixel|]. split; [done|].
  unfold paint in H2. rewrite H2, pixel_set by done.
  destruct (Z.eqb_spec i j) as [->|Hne]; case_bool_decide as H3; case_bool_decide as H4; set_solver.
Qed.

Definition in_second (flipped : bool) (j : Z) : bool := if flipped then 8 <=? j else 2 <=? j `mod` 4.

(** The bits of the pixel [j]. *)
Definition bit_of (j : Z) : Z := j / 4 + j `mod` 4 * 4.

(** The pixel [j] of a block with these colours and tables. *)
Definition texel (flipped : bool) (c1 c2 : rgb) (tableA tableB : list Z) (lw j : Z) : rgb :=
  if in_second flipped j then modify c2 (tableB !!! Z.to_nat (modifier_index lw (bit_of j)))
  else modify c1 (tableA !!! Z.to_nat (modifier_index lw (bit_of j))).

Lemma decode_words_pixel hi lw c1 c2 p j :
  length p = 48%nat -> 0 <= j < 16 -> base_colors hi = (c1, c2) ->
  pixel (decode_words hi lw p) j =
    texel (negb (Z.land hi 1 =? 0)) c1 c2 (modifiers (Z.land 7 (Z.shiftr hi 5))) (modifiers (Z.land 7 (Z.shiftr hi 2))) lw j.
Proof.
  intros Hp Hj Ec. unfold decode_words. rewrite Ec. set (fl := negb _). set (A := modifiers _). set (B := modifiers _).
  clearbody fl A B.
  set (order := if fl then [0; 4; 1; 5; 2; 6; 3; 7; 8; 12; 9; 13; 10; 14; 11; 15]
                else [0; 4; 8; 12; 1; 5; 9; 13; 2; 6; 10; 14; 3; 7; 11; 15]).
  replace (decode_subblock (decode_subblock p c1 A lw false fl) c2 B lw true fl)
    with (paint (texel fl c1 c2 A B lw) order p) by (destruct fl; reflexivity).
  destruct (paint_pixel (texel fl c1 c2 A B lw) order p j Hp) as [_ ->]; [|done|].
  - unfold order. destruct fl; repeat constructor; lia.
  - rewrite bool_decide_true; [done|]. unfold order.
    assert (j ∈ seqZ 0 16) as Hin by (apply elem_of_seqZ; lia). change (seqZ 0 16) with [0;1;2;3;4;5;6;7;8;9;10;11;12;13;14;15] in Hin.
    destruct fl; set_solver.
Qed.

(** ** Errors *)

Definition weight (d q : rgb) : Z :=
  let '(dr, dg, db) := d in let '(qr, qg, qb) := q in
  6 * square (dg - qg) + 3 * square (dr - qr) + square (db - qb).

Definition Zsum (l : list Z) : Z := foldr Z.add 0 l.

(** The weighted squared error of a block on the pixels of the mask. *)
Definition block_error (inMask : Z) (p q : list Z) : Z :=
  Zsum ((fun j => if masked inMask j then weight (pixel p j) (pixel q j) else 0) <$> seqZ 0 16).

Definition cost (pIn : list Z) (inMask : Z) (base : rgb) (table : list Z) (lw : Z) (xy : Z * Z) : Z :=
  let '(x, y) := xy in
  let i := x + 4 * y in
  if masked inMask i then weight (modify base (table !!! Z.to_nat (modifier_index lw (y + x * 4)))) (pixel pIn i) else 0.

(** The error of a half. *)
Definition half_error (pIn : list Z) (inMask : Z) (base : rgb) (table : list Z) (lw : Z) (l : list (Z * Z)) : Z :=
  Zsum (cost pIn inMask base table lw <$> l).

Lemma block_error_halves pIn inMask hi lw c1 c2 p :
  length p = 48%nat -> base_colors hi = (c1, c2) ->
  let fl := negb (Z.land hi 1 =? 0) in
  block_error inMask (decode_words hi lw p) pIn =
    half_error pIn inMask c1 (modifiers (Z.land 7 (Z.shiftr hi 5))) lw (half fl false) +
    half_error pIn inMask c2 (modifiers (Z.land 7 (Z.shiftr hi 2))) lw (half fl true).
Proof.
  intros Hp Ec fl. set (A := modifiers (Z.land 7 (Z.shiftr hi 5))). set (B := modifiers (Z.land 7 (Z.shiftr hi 2))).
  transitivity (Zsum ((fun j => if masked inMask j then weight (texel fl c1 c2 A B lw j) (pixel pIn j) else 0) <$> seqZ 0 16)).
  - unfold block_error. f_equal. apply list_fmap_ext. intros k j Hj%list_elem_of_lookup_2%elem_of_seqZ.
    destruct (masked inMask j); [|done]. by rewrite (decode_words_pixel hi lw c1 c2 p j) by first [done|lia].
  - clearbody fl A B. unfold half_error. 
    set (f := fun j => if masked inMask j then weight (texel fl c1 c2 A B lw j) (pixel pIn j) else 0).
    transitivity (Zsum (f <$> ((fun xy => fst xy + 4 * snd xy) <$> half fl false)) +
                  Zsum (f <$> ((fun xy => fst xy + 4 * snd xy) <$> half fl true))).
    + change (seqZ 0 16) with [0;1;2;3;4;5;6;7;8;9;10;11;12;13;14;15].
      clearbody f. destruct fl.
      * change (_ <$> half true false) with [0;1;2;3;4;5;6;7]. change (_ <$> half true true) with [8;9;10;11;12;13;14;15].
        cbn [fmap list_fmap Zsum foldr]. lia.
      * change (_ <$> half false false) with [0;1;4;5;8;9;12;13]. change (_ <$> half false true) with [2;3;6;7;10;11;14;15].
        cbn [fmap list_fmap Zsum foldr]. lia.
    + destruct fl; reflexivity.
Qed.

(** ** The encoder's choices *)

Definition bytes3 (c : rgb) : Prop := let '(r, g, b) := c in is_byte r /\ is_byte g /\ is_byte b.

Lemma clamp_byte x : is_byte (clamp x).
Proof.
  unfold clamp, is_byte, u8. change (2 ^ 8) with 256. destruct (Z.leb_spec 0 x); [destruct (Z.ltb_spec x 255)|]; rewrite Z.mod_small; lia.
Qed.

Lemma modify_bytes c d : bytes3 (modify c d).
Proof. destruct c as [[r g] b]. split_and!; apply clamp_byte. Qed.

Lemma square_byte x y : is_byte x -> is_byte y -> 0 <= square (x - y) <= 65025.
Proof. unfold is_byte, square. intros. pose proof (Z.mul_nonneg_nonneg (255 - (x - y)) (255 + (x - y))). pose proof (Z.square_nonneg (x - y)). lia. Qed.

Lemma weight_range d q : bytes3 d -> bytes3 q -> 0 <= weight d q <= 650250.
Proof.
  destruct d as [[dr dg] db], q as [[qr qg] qb]. intros (Hr & Hg & Hb) (Hr' & Hg' & Hb'). unfold weight.
  pose proof (square_byte dr qr Hr Hr'). pose proof (square_byte dg qg Hg Hg'). pose proof (square_byte db qb Hb Hb'). lia.
Qed.

(** What the modifier [i] of a table costs. *)
Definition modifier_cost (base pix : rgb) (table : list Z) (i : Z) : Z := weight (modify base (table !!! Z.to_nat i)) pix.

(** The early exits of the search do not change what it finds. *)
Lemma try_modifier_ok base pix table bestScore bestIndex i :
  bytes3 pix ->
  try_modifier base pix table (bestScore, bestIndex) i =
    if modifier_cost base pix table i <? bestScore then (modifier_cost base pix table i, i) else (bestScore, bestIndex).
Proof.
  destruct base as [[r g] b], pix as [[pr pg] pb]. intros (Hr & Hg & Hb).
  unfold modifier_cost, weight, modify, try_modifier. cbn [fst snd].
  set (m := table !!! Z.to_nat i).
  pose proof (square_byte (clamp (g + m)) pg (clamp_byte _) Hg) as Sg.
  pose proof (square_byte (clamp (r + m)) pr (clamp_byte _) Hr) as Sr.
  pose proof (square_byte (clamp (b + m)) pb (clamp_byte _) Hb) as Sb.
  set (sg := square (clamp (g + m) - pg)) in *. set (sr := square (clamp (r + m) - pr)) in *.
  set (sb := square (clamp (b + m) - pb)) in *.
  rewrite (u32_small (6 * sg)), (u32_small (3 * sr)), (u32_small sb) by lia.
  rewrite (u32_small (6 * sg + 3 * sr)) by lia. rewrite (u32_small (6 * sg + 3 * sr + sb)) by lia.
  destruct (Z.leb_spec bestScore (6 * sg)); [by replace (_ <? _) with false by lia|].
  destruct (Z.leb_spec bestScore (6 * sg + 3 * sr)); [by replace (_ <? _) with false by lia|].
  done.
Qed.

Lemma modifier_cost_range base pix table i : bytes3 pix -> 0 <= modifier_cost base pix table i <= 650250.
Proof. intros. by apply weight_range; [apply modify_bytes|]. Qed.

Lemma search_min base pix table l bestIndex :
  bytes3 pix ->
  exists idx, foldl (try_modifier base pix table) (modifier_cost base pix table bestIndex, bestIndex) l
                = (modifier_cost base pix table idx, idx) /\
    (idx = bestIndex \/ idx ∈ l) /\
    forall j, j = bestIndex \/ j ∈ l -> modifier_cost base pix table idx <= modifier_cost base pix table j.
Proof.
  intros Hp. revert bestIndex. induction l as [|i l IH]; intros k; cbn [foldl].
  - exists k. split; [done|]. split; [by left|]. intros j [->|Hj]; [done|set_solver].
  - rewrite try_modifier_ok by done. destruct (Z.ltb_spec (modifier_cost base pix table i) (modifier_cost base pix table k)).
    + destruct (IH i) as (idx & E & Hin & Hmin). exists idx. split; [done|]. split; [set_solver|].
      intros j Hj. destruct (decide (j = k)) as [->|]; [|apply Hmin; set_solver].
      transitivity (modifier_cost base pix table i); [apply Hmin; by left|lia].
    + destruct (IH k) as (idx & E & Hin & Hmin). exists idx. split; [done|]. split; [set_solver|].
      intros j Hj. destruct (decide (j = i)) as [->|]; [|apply Hmin; set_solver].
      transitivity (modifier_cost base pix table k); [apply Hmin; by left|lia].
Qed.

(** The best of the four modifiers. *)
Lemma search_best base pix table :
  bytes3 pix ->
  exists idx, foldl (try_modifier base pix table) (UINT_MAX, 0) (seqZ 0 4) = (modifier_cost base pix table idx, idx) /\
    0 <= idx < 4 /\ forall j, 0 <= j < 4 -> modifier_cost base pix table idx <= modifier_cost base pix table j.
Proof.
  intros Hp. change (seqZ 0 4) with (0 :: seqZ 1 3). cbn [foldl]. rewrite try_modifier_ok by done.
  pose proof (modifier_cost_range base pix table 0 Hp). replace (_ <? UINT_MAX) with true by (unfold UINT_MAX; lia).
  destruct (search_min base pix table (seqZ 1 3) 0 Hp) as (idx & E & Hin & Hmin). exists idx. split; [done|].
  rewrite elem_of_seqZ in Hin. split; [lia|]. intros j Hj. apply Hmin. rewrite elem_of_seqZ. lia.
Qed.

Lemma chooseModifier_best base pix lw k table :
  bytes3 pix -> 0 <= k < 16 -> 0 <= lw < 2 ^ 32 -> modifier_index lw k = 0 ->
  exists lw', chooseModifier base pix lw k table = (modifier_cost base pix table (modifier_index lw' k), lw') /\
    0 <= lw' < 2 ^ 32 /\ (forall k', 0 <= k' < 16 -> k' <> k -> modifier_index lw' k' = modifier_index lw k') /\
    forall j, 0 <= j < 4 -> modifier_cost base pix table (modifier_index lw' k) <= modifier_cost base pix table j.
Proof.
  intros Hp Hk Hl H0. unfold chooseModifier. destruct (search_best base pix table Hp) as (idx & -> & Hi & Hmin).
  fold (index_mask idx k). exists (Z.lor lw (index_mask idx k)).
  assert (E : modifier_index (Z.lor lw (index_mask idx k)) k = idx) by (rewrite modifier_index_set by lia; by rewrite Z.eqb_refl).
  rewrite E. split; [done|]. split; [apply lor_bound; [lia|done|apply u32_range]|]. split; [|done].
  intros k' Hk' Hne. rewrite modifier_index_set by lia. by replace (k' =? k) with false by lia.
Qed.

(** *** Halves *)

Definition key (xy : Z * Z) : Z := snd xy + fst xy * 4.

Definition in_block (xy : Z * Z) : Prop := 0 <= fst xy < 4 /\ 0 <= snd xy < 4.

Lemma key_range xy : in_block xy -> 0 <= key xy < 16.
Proof. unfold in_block, key. lia. Qed.

Lemma half_in_block fl second : Forall in_block (half fl second) /\ NoDup (key <$> half fl second) /\ length (half fl second) = 8%nat.
Proof.
  split_and!; [|apply (bool_decide_unpack _); by destruct fl, second|by destruct fl, second].
  apply Forall_forall. intros xy Hxy. assert (H : forallb (fun xy => (0 <=? xy.1) && (xy.1 <? 4) && (0 <=? xy.2) && (xy.2 <? 4)) (half fl second) = true)
    by (by destruct fl, second). rewrite forallb_forall in H. specialize (H xy (proj1 (list_elem_of_In _ _) Hxy)). unfold in_block. lia.
Qed.

Section Block.
Variables (pIn : list Z) (inMask : Z).
Hypothesis Hpix : forall i, bytes3 (pixel pIn i).

#[local] Abbreviation cost := (cost pIn inMask).
#[local] Abbreviation half_error := (half_error pIn inMask).
#[local] Abbreviation encode_turn := (encode_turn pIn inMask).

Lemma cost_range base table lw xy : 0 <= cost base table lw xy <= 650250.
Proof. destruct xy as [x y]. unfold Etc1.cost. destruct (masked _ _); [|lia]. apply weight_range; [apply modify_bytes|apply Hpix]. Qed.

Lemma half_error_cons base table lw xy l :
  half_error base table lw (xy :: l) = cost base table lw xy + half_error base table lw l.
Proof. done. Qed.

Lemma half_error_range base table lw l : 0 <= half_error base table lw l <= 650250 * Z.of_nat (length l).
Proof.
  induction l as [|xy l IH]; [simpl; unfold Etc1.half_error; simpl; lia|]. pose proof (cost_range base table lw xy).
  rewrite half_error_cons. cbn [length]. lia.
Qed.

Lemma half_error_ext base table lw lw' l :
  (forall xy, xy ∈ l -> modifier_index lw (key xy) = modifier_index lw' (key xy)) ->
  half_error base table lw l = half_error base table lw' l.
Proof.
  intros H. unfold Etc1.half_error. f_equal. apply list_fmap_ext. intros i [x y] Hxy%list_elem_of_lookup_2.
  unfold Etc1.cost. specialize (H _ Hxy). unfold key in H. cbn [fst snd] in H. by rewrite H.
Qed.

Lemma encode_turn_ok base table sc lw xy :
  in_block xy -> 0 <= lw < 2 ^ 32 -> modifier_index lw (key xy) = 0 -> 0 <= sc < 2 ^ 30 ->
  exists lw', encode_turn base table (sc, lw) xy = (sc + cost base table lw' xy, lw') /\ 0 <= lw' < 2 ^ 32 /\
    (forall k, 0 <= k < 16 -> k <> key xy -> modifier_index lw' k = modifier_index lw k) /\
    forall lw2, cost base table lw' xy <= cost base table lw2 xy.
Proof.
  intros Hin Hl H0 Hsc. pose proof (key_range xy Hin) as Hk. destruct xy as [x y]. unfold Etc1.encode_turn, Etc1.cost, key in *. cbn [fst snd] in *.
  destruct (masked inMask (x + 4 * y)); [|exists lw; rewrite Z.add_0_r; done].
  destruct (chooseModifier_best base (pixel pIn (x + 4 * y)) lw (y + x * 4) table) as (lw' & -> & Hl' & Hf & Hmin); [apply Hpix|done..|].
  exists lw'. split_and!; try done.
  - f_equal. apply s32_small. pose proof (modifier_cost_range base (pixel pIn (x + 4 * y)) table (modifier_index lw' (y + x * 4)) (Hpix _)). unfold modifier_cost in *. lia.
  - lia.
  - lia.
  - intros lw2. apply Hmin, modifier_index_range. lia.
Qed.

Lemma encode_turns base table l sc lw :
  Forall in_block l -> NoDup (key <$> l) -> 0 <= lw < 2 ^ 32 ->
  (forall xy, xy ∈ l -> modifier_index lw (key xy) = 0) -> 0 <= sc -> sc + 650250 * Z.of_nat (length l) < 2 ^ 30 ->
  exists lw', foldl (encode_turn base table) (sc, lw) l = (sc + half_error base table lw' l, lw') /\ 0 <= lw' < 2 ^ 32 /\
    (forall k, 0 <= k < 16 -> k ∉ key <$> l -> modifier_index lw' k = modifier_index lw k) /\
    forall lw2, half_error base table lw' l <= half_error base table lw2 l.
Proof.
  intros Hb. revert sc lw. induction Hb as [|xy l Hxy Hb IH]; intros sc lw Hnd Hl H0 Hsc Hs.
  { exists lw. unfold Etc1.half_error. simpl. split; [f_equal; lia|]. split; [done|]. split; [done|]. intros lw2. lia. }
  cbn [fmap list_fmap] in Hnd. apply NoDup_cons in Hnd as [Hni Hnd]. cbn [length] in Hs. cbn [foldl].
  destruct (encode_turn_ok base table sc lw xy Hxy Hl) as (lw1 & -> & Hl1 & Hf1 & Hm1); [apply H0; by left|lia|].
  pose proof (cost_range base table lw1 xy).
  destruct (IH (sc + cost base table lw1 xy) lw1) as (lw2 & -> & Hl2 & Hf2 & Hm2); [done|done| |lia|lia|].
  { intros xy' Hin. pose proof (key_range xy' (proj1 (Forall_forall _ _) Hb _ Hin)). rewrite Hf1; [apply H0; by right|done|].
    intros E. apply Hni. rewrite <-E. by apply list_elem_of_fmap_2. }
  assert (Ek : modifier_index lw2 (key xy) = modifier_index lw1 (key xy)) by (apply Hf2; [by apply key_range|done]).
  assert (Ec : cost base table lw2 xy = cost base table lw1 xy).
  { destruct xy as [x y]. unfold Etc1.cost. unfold key in Ek. cbn [fst snd] in Ek. by rewrite Ek. }
  exists lw2. split_and!; try done; try lia.
  - f_equal. rewrite half_error_cons, Ec. lia.
  - intros k Hk Hin. cbn [fmap list_fmap] in Hin. rewrite not_elem_of_cons in Hin. rewrite Hf2, Hf1 by naive_solver. done.
  - intros lw3. rewrite !half_error_cons, Ec. specialize (Hm1 lw3). specialize (Hm2 lw3). lia.
Qed.

(** The encoder of a half: the score grows by the error of the half, which is the
    least for this table; the bits of the other half stay. *)
Lemma helper_best c fl second base table :
  0 <= low c < 2 ^ 32 -> (forall xy, xy ∈ half fl second -> modifier_index (low c) (key xy) = 0) ->
  0 <= score c <= 8 * 650250 ->
  exists c', etc_encode_subblock_helper pIn inMask c fl second base table = c' /\ high c' = high c /\
    score c' = score c + half_error base table (low c') (half fl second) /\ 0 <= low c' < 2 ^ 32 /\
    (forall k, 0 <= k < 16 -> k ∉ key <$> half fl second -> modifier_index (low c') k = modifier_index (low c) k) /\
    forall lw2, half_error base table (low c') (half fl second) <= half_error base table lw2 (half fl second).
Proof.
  intros Hl H0 Hs. destruct (half_in_block fl second) as (Hb & Hnd & Hlen).
  destruct (encode_turns base table (half fl second) (score c) (low c)) as (lw' & E & Hl' & Hf & Hm);
    [done|done|done|done|lia|rewrite Hlen; lia|].
  eexists. split; [reflexivity|]. unfold etc_encode_subblock_helper. rewrite s32_small by lia.
  rewrite E.
  cbn [high low score]. split_and!; try done; try lia.
  pose proof (half_error_range base table lw' (half fl second)). rewrite Hlen in *. apply u32_small. lia.
Qed.

Lemma take_best_min (f : Z -> etc_compressed) l c :
  let r := foldl (fun c i => take_best c (f i)) c l in
  (r = c \/ exists i, i ∈ l /\ r = f i) /\ score r <= score c /\ forall i, i ∈ l -> score r <= score (f i).
Proof.
  revert c. induction l as [|i l IH]; intros c; cbn [foldl].
  - split; [by left|]. split; [lia|]. set_solver.
  - destruct (IH (take_best c (f i))) as (H1 & H2 & H3).
    assert (Hb : score (take_best c (f i)) <= score c /\ score (take_best c (f i)) <= score (f i) /\
                 (take_best c (f i) = c \/ take_best c (f i) = f i)).
    { unfold take_best. destruct (Z.ltb_spec (score (f i)) (score c)); split_and!; try lia; auto. }
    destruct Hb as (Hb1 & Hb2 & Hb3). cbv zeta. set (r := foldl _ _ l) in *. split_and!.
    + destruct H1 as [E|(j & Hj & E)]; [|right; exists j; split; [by right|done]].
      destruct Hb3 as [E'|E']; [left; congruence|right; exists i; split; [by left|congruence]].
    + lia.
    + intros j [->|Hj]%elem_of_cons; [lia|by apply H3].
Qed.

Lemma low_none k : 0 <= k -> modifier_index 0 k = 0.
Proof. intros Hk. rewrite modifier_index_bits by done. by rewrite !Z.bits_0. Qed.

Lemma key_in_half fl second xy : xy ∈ half fl second -> 0 <= key xy < 16.
Proof. intros H. destruct (half_in_block fl second) as (Hb & _). apply key_range, (proj1 (Forall_forall _ _) Hb _ H). Qed.

Lemma halves_disjoint fl second xy : xy ∈ half fl second -> key xy ∉ key <$> half fl (negb second).
Proof.
  intros Hxy. assert (Hd : forallb (fun xy => bool_decide (key xy ∉ key <$> half fl (negb second))) (half fl second) = true)
    by (by destruct fl, second).
  rewrite forallb_forall in Hd. specialize (Hd xy (proj1 (list_elem_of_In _ _) Hxy)). by apply bool_decide_eq_true in Hd.
Qed.

(** The first loop settles the first half and leaves the bits of the other. *)
Lemma encode_first_best (fl : bool) base1 oh :
  let c := encode_first pIn inMask fl base1 oh in
  (exists tA, 0 <= tA < 8 /\ high c = Z.lor oh (Z.shiftl tA 5) /\ score c = half_error base1 (modifiers tA) (low c) (half fl false)) /\
  0 <= low c < 2 ^ 32 /\ (forall k, 0 <= k < 16 -> k ∉ key <$> half fl false -> modifier_index (low c) k = 0) /\
  forall t lw, 0 <= t < 8 -> score c <= half_error base1 (modifiers t) lw (half fl false).
Proof.
  unfold encode_first.
  set (f := fun i => etc_encode_subblock_helper pIn inMask (mkCompressed (Z.lor oh (Z.shiftl i 5)) 0 0) fl false base1 (modifiers i)).
  assert (Hf : forall i, exists c', f i = c' /\ high c' = Z.lor oh (Z.shiftl i 5) /\
    score c' = half_error base1 (modifiers i) (low c') (half fl false) /\ 0 <= low c' < 2 ^ 32 /\
    (forall k, 0 <= k < 16 -> k ∉ key <$> half fl false -> modifier_index (low c') k = 0) /\
    forall lw2, half_error base1 (modifiers i) (low c') (half fl false) <= half_error base1 (modifiers i) lw2 (half fl false)).
  { intros i. destruct (helper_best (mkCompressed (Z.lor oh (Z.shiftl i 5)) 0 0) fl false base1 (modifiers i))
      as (c' & E & Eh & Es & El & Ek & Em); [done| |done|].
    - intros xy Hxy%key_in_half. apply low_none. lia.
    - exists c'. cbn [high low score] in *. split_and!; try done; try lia. intros k Hk Hin. rewrite (Ek k Hk Hin). apply low_none. lia. }
  destruct (take_best_min f (seqZ 0 8) (mkCompressed oh 0 UINT_MAX)) as (H1 & _ & H3).
  change (foldl _ _ _) with (foldl (fun c i => take_best c (f i)) (mkCompressed oh 0 UINT_MAX) (seqZ 0 8)).
  set (r := foldl _ _ _) in *. cbv zeta.
  assert (H4 : forall t lw, 0 <= t < 8 -> score r <= half_error base1 (modifiers t) lw (half fl false)).
  { intros t lw Ht. destruct (Hf t) as (c' & E & _ & Es & _ & _ & Em). specialize (H3 t). rewrite elem_of_seqZ, E in H3.
    specialize (Em lw). lia. }
  assert (Hr : exists tA, 0 <= tA < 8 /\ r = f tA).
  { destruct H1 as [E|(tA & HtA & E)]; [|exists tA; rewrite elem_of_seqZ in HtA; split; [lia|done]]. exfalso.
    specialize (H4 0 0). rewrite E in H4. pose proof (half_error_range base1 (modifiers 0) 0 (half fl false)) as Hr.
    destruct (half_in_block fl false) as (_ & _ & Hl). rewrite Hl in Hr. cbn [score] in H4. unfold UINT_MAX in H4. lia. }
  destruct Hr as (tA & HtA & Er). destruct (Hf tA) as (cA & EA & EhA & EsA & ElA & EkA & _). rewrite EA in Er.
  clearbody r. subst r. split_and!; try done; try lia. by exists tA.
Qed.

(** The second loop settles the other half. *)
Lemma encode_second_best (fl : bool) base1 base2 tA fh :
  score fh = half_error base1 (modifiers tA) (low fh) (half fl false) -> 0 <= low fh < 2 ^ 32 ->
  (forall k, 0 <= k < 16 -> k ∉ key <$> half fl false -> modifier_index (low fh) k = 0) ->
  let c := encode_second pIn inMask fl base2 fh in
  (exists tB, 0 <= tB < 8 /\ high c = Z.lor (high fh) (Z.shiftl tB 2) /\
     score c = half_error base1 (modifiers tA) (low c) (half fl false) + half_error base2 (modifiers tB) (low c) (half fl true)) /\
  0 <= low c < 2 ^ 32 /\ forall t lw, 0 <= t < 8 -> score c <= score fh + half_error base2 (modifiers t) lw (half fl true).
Proof.
  intros Es Hl Hk. unfold encode_second.
  set (g := fun i => etc_encode_subblock_helper pIn inMask (mkCompressed (Z.lor (high fh) (Z.shiftl i 2)) (low fh) (score fh)) fl true base2 (modifiers i)).
  match goal with |- context [foldl ?h fh (seqZ 0 8)] =>
    replace (foldl h fh (seqZ 0 8)) with (foldl (fun c i => take_best c (g i)) (g 0) (seqZ 1 7)) by reflexivity end.
  pose proof (half_error_range base1 (modifiers tA) (low fh) (half fl false)) as HrA.
  destruct (half_in_block fl false) as (_ & _ & Hl1). rewrite Hl1 in HrA.
  assert (Hg : forall i, exists c', g i = c' /\ high c' = Z.lor (high fh) (Z.shiftl i 2) /\
    score c' = half_error base1 (modifiers tA) (low c') (half fl false) + half_error base2 (modifiers i) (low c') (half fl true) /\
    0 <= low c' < 2 ^ 32 /\ forall lw2, score c' <= score fh + half_error base2 (modifiers i) lw2 (half fl true)).
  { intros i. destruct (helper_best (mkCompressed (Z.lor (high fh) (Z.shiftl i 2)) (low fh) (score fh)) fl true base2 (modifiers i))
      as (c' & E & Eh & Es' & El & Ek & Em); [done| |cbn [score]; lia|].
    - intros xy Hxy. apply Hk; [by apply key_in_half in Hxy|by apply (halves_disjoint fl true)].
    - exists c'. cbn [high low score] in *. split_and!; try done; try lia.
      + rewrite Es', Es. f_equal. apply half_error_ext. intros xy Hxy. symmetry.
        apply Ek; [by apply key_in_half in Hxy|by apply (halves_disjoint fl false)].
      + intros lw2. specialize (Em lw2). lia. }
  destruct (take_best_min g (seqZ 1 7) (g 0)) as (G1 & G2 & G3). set (r := foldl _ (g 0) (seqZ 1 7)) in *. cbv zeta.
  assert (Hr : exists tB, 0 <= tB < 8 /\ r = g tB).
  { destruct G1 as [E|(tB & HtB & E)]; [by exists 0|exists tB; rewrite elem_of_seqZ in HtB; split; [lia|done]]. }
  assert (Hmin : forall t lw, 0 <= t < 8 -> score r <= score fh + half_error base2 (modifiers t) lw (half fl true)).
  { intros t lw Ht. destruct (Hg t) as (c' & E & _ & _ & _ & Em). specialize (Em lw).
    destruct (decide (t = 0)) as [->|]; [rewrite E in G2; lia|]. specialize (G3 t). rewrite elem_of_seqZ, E in G3. lia. }
  destruct Hr as (tB & HtB & Er). destruct (Hg tB) as (cB & EB & EhB & EsB & ElB & _). rewrite EB in Er.
  clearbody r. subst r. split_and!; try done; try lia. by exists tB.
Qed.

(** A way to cut the block, with its base colours. *)
Lemma block_helper_best colors (fl : bool) base1 base2 oh :
  etc_encodeBaseColors colors (if fl then 1 else 0) = (base1, base2, oh) ->
  exists tA tB : Z, let c := etc_encode_block_helper pIn inMask colors fl in
    0 <= tA < 8 /\ 0 <= tB < 8 /\ high c = Z.lor (Z.lor oh (Z.shiftl tA 5)) (Z.shiftl tB 2) /\ 0 <= low c < 2 ^ 32 /\
    score c = half_error base1 (modifiers tA) (low c) (half fl false) + half_error base2 (modifiers tB) (low c) (half fl true) /\
    forall tA' tB' lw, 0 <= tA' < 8 -> 0 <= tB' < 8 ->
      score c <= half_error base1 (modifiers tA') lw (half fl false) + half_error base2 (modifiers tB') lw (half fl true).
Proof.
  intros Eb. unfold etc_encode_block_helper. rewrite Eb.
  destruct (encode_first_best fl base1 oh) as ((tA & HA & EhA & EsA) & HlA & HkA & HmA).
  set (fh := encode_first pIn inMask fl base1 oh) in *. clearbody fh.
  destruct (encode_second_best fl base1 base2 tA fh EsA HlA HkA) as ((tB & HB & EhB & EsB) & HlB & HmB).
  exists tA, tB. cbv zeta. split_and!; try done; try lia.
  - by rewrite EhB, EhA.
  - intros tA' tB' lw HA' HB'. specialize (HmA tA' lw HA'). specialize (HmB tB' lw HB'). lia.
Qed.

End Block.

(** ** The fields of a block *)

Lemma convert8To5_range b : is_byte b -> 0 <= convert8To5 b < 32.
Proof.
  intros Hb. pose proof (for_all_below 256 (fun b => (0 <=? convert8To5 b) && (convert8To5 b <? 32)) eq_refl b Hb). cbn beta in *. lia.
Qed.

Lemma convert8To4_range b : is_byte b -> 0 <= convert8To4 b < 16.
Proof.
  intros Hb. pose proof (for_all_below 256 (fun b => (0 <=? convert8To4 b) && (convert8To4 b <? 16)) eq_refl b Hb). cbn beta in *. lia.
Qed.

Lemma convert_mod5 b c : b `mod` 32 = c `mod` 32 -> convert5To8 b = convert5To8 c.
Proof. intros E. unfold convert5To8. change 0x1f with (Z.ones 5). rewrite !Z.land_ones by lia. change (2 ^ 5) with 32. by rewrite E. Qed.

Lemma convert_mod4 b c : b `mod` 16 = c `mod` 16 -> convert4To8 b = convert4To8 c.
Proof. intros E. unfold convert4To8. change 0xf with (Z.ones 4). rewrite !Z.land_ones by lia. change (2 ^ 4) with 16. by rewrite E. Qed.

Lemma convert5To8_byte c : 0 <= c < 32 -> u8 (convert5To8 c) = convert5To8 c.
Proof. intros H. pose proof (for_all_below 32 (fun c => u8 (convert5To8 c) =? convert5To8 c) eq_refl c H). cbn beta in *. lia. Qed.

Lemma convert4To8_byte c : 0 <= c < 16 -> u8 (convert4To8 c) = convert4To8 c.
Proof. intros H. pose proof (for_all_below 16 (fun c => u8 (convert4To8 c) =? convert4To8 c) eq_refl c H). cbn beta in *. lia. Qed.

Lemma shiftr_at z n : 0 <= n -> Z.shiftr z n = z / 2 ^ n.
Proof. intros. by rewrite Z.shiftr_div_pow2. Qed.

Lemma land_7 z : Z.land 7 z = z `mod` 8.
Proof. rewrite Z.land_comm. change 7 with (Z.ones 3). by rewrite Z.land_ones by lia. Qed.

(** The difference of the second base colour, in three bits. *)
Lemma convertDiff_back base d r hi t :
  0 <= r < 32 -> base `mod` 32 = r -> -4 <= d <= 3 -> 0 <= r + d < 32 -> t `mod` 8 = Z.land 7 d ->
  hi = t -> convertDiff base hi = convert5To8 (r + d).
Proof.
  intros Hr Eb Hd Hrd Et ->. unfold convertDiff. apply convert_mod5. f_equal. rewrite Z.land_comm. change 0x1f with (Z.ones 5).
  rewrite Z.land_ones by lia. change (2 ^ 5) with 32. rewrite Eb. f_equal. rewrite land_7, Et.
  assert (d = -4 \/ d = -3 \/ d = -2 \/ d = -1 \/ d = 0 \/ d = 1 \/ d = 2 \/ d = 3) as Hc by lia.
  destruct Hc as [->|[->|[->|[->|[->|[->|[->| ->]]]]]]]; reflexivity.
Qed.

(** The fields of [high]: [X] has the colours. *)
Lemma fields X d (fl : bool) tA tB :
  d = 0 \/ d = 2 -> 0 <= tA < 8 -> 0 <= tB < 8 ->
  Z.lor (Z.lor (Z.lor (if fl then 1 else 0) (X * 256 + d)) (Z.shiftl tA 5)) (Z.shiftl tB 2)
  = X * 256 + tA * 32 + tB * 4 + d + (if fl then 1 else 0).
Proof.
  intros Hd HA HB. set (f := if fl then 1 else 0). assert (Hf : f = 0 \/ f = 1) by (unfold f; destruct fl; auto).
  assert (Ed : X * 256 + d = Z.lor (Z.shiftl X 8) d) by (rewrite lor_low by lia; done). rewrite Ed.
  transitivity (Z.lor (Z.shiftl X 8) (Z.lor (Z.shiftl tA 5) (Z.lor (Z.shiftl tB 2) (Z.lor d f)))).
  { apply Z.bits_inj'. intros m _. rewrite !Z.lor_spec. btauto. }
  replace (Z.lor d f) with (d + f) by (destruct Hd as [->| ->], Hf as [->| ->]; reflexivity).
  rewrite (lor_low tB) by lia. rewrite (lor_low tA) by lia. rewrite (lor_low X) by lia. lia.
Qed.

Definition colour_field (fl : bool) (X d tA tB : Z) : Z := X * 256 + tA * 32 + tB * 4 + d + (if fl then 1 else 0).

Lemma field_tables fl X d tA tB :
  d = 0 \/ d = 2 -> 0 <= tA < 8 -> 0 <= tB < 8 ->
  let hi := colour_field fl X d tA tB in
  Z.land 7 (Z.shiftr hi 5) = tA /\ Z.land 7 (Z.shiftr hi 2) = tB /\ negb (Z.land hi 1 =? 0) = fl /\
  negb (Z.land hi 2 =? 0) = (d =? 2).
Proof.
  intros Hd HA HB hi. rewrite !land_7, !shiftr_at by lia. rewrite land_1, land_2.
  rewrite !Z.testbit_eqb by lia. change (2 ^ 5) with 32. change (2 ^ 2) with 4. change (2 ^ 0) with 1. change (2 ^ 1) with 2.
  unfold hi, colour_field.
  assert (Hb : forall z b, z `mod` 2 = Z.b2z b -> (z `mod` 2 =? 1) = b) by (intros z b ->; by destruct b).
  destruct fl, Hd as [->| ->]; split_and!; try (Z.to_euclidean_division_equations; lia).
  all: match goal with |- context [?z `mod` 2 =? 1] =>
    first [rewrite (Hb z true) by (Z.to_euclidean_division_equations; cbn [Z.b2z]; lia)
          |rewrite (Hb z false) by (Z.to_euclidean_division_equations; cbn [Z.b2z]; lia)] end; reflexivity.
Qed.

(** The colours of a field, when the second ones are differences. *)
Lemma base_colors_diff fl X tA tB r g b dr dg db :
  0 <= tA < 8 -> 0 <= tB < 8 ->
  0 <= r < 32 -> 0 <= g < 32 -> 0 <= b < 32 -> 0 <= r + dr < 32 -> 0 <= g + dg < 32 -> 0 <= b + db < 32 ->
  -4 <= dr <= 3 -> -4 <= dg <= 3 -> -4 <= db <= 3 ->
  X = r * 2 ^ 19 + Z.land 7 dr * 2 ^ 16 + g * 2 ^ 11 + Z.land 7 dg * 2 ^ 8 + b * 2 ^ 3 + Z.land 7 db ->
  base_colors (colour_field fl X 2 tA tB) =
    ((convert5To8 r, convert5To8 g, convert5To8 b), (convert5To8 (r + dr), convert5To8 (g + dg), convert5To8 (b + db))).
Proof.
  intros HA HB Hr Hg Hb Hrd Hgd Hbd Hdr Hdg Hdb EX. unfold base_colors.
  destruct (field_tables fl X 2 tA tB) as (_ & _ & _ & ->); [by right|done|done|]. rewrite Z.eqb_refl. cbv zeta.
  pose proof (land_7 dr) as Er. pose proof (land_7 dg) as Eg. pose proof (land_7 db) as Ed.
  pose proof (Z.mod_pos_bound dr 8). pose proof (Z.mod_pos_bound dg 8). pose proof (Z.mod_pos_bound db 8).
  assert (Hf : 0 <= tA * 32 + tB * 4 + 2 + (if fl then 1 else 0) < 256) by (destruct fl; lia).
  set (low := tA * 32 + tB * 4 + 2 + (if fl then 1 else 0)) in *.
  assert (Ehi : colour_field fl X 2 tA tB = X * 256 + low) by (unfold colour_field, low; lia).
  rewrite Ehi, !shiftr_at by lia. rewrite EX. rewrite Er, Eg, Ed in *. clearbody low. clear EX Ehi.
  set (a1 := dr `mod` 8) in *. set (a2 := dg `mod` 8) in *. set (a3 := db `mod` 8) in *. clearbody a1 a2 a3.
  f_equal; [f_equal; [f_equal|]|f_equal; [f_equal|]].
  - apply convert_mod5. euclid.
  - apply convert_mod5. euclid.
  - apply convert_mod5. euclid.
  - eapply convertDiff_back; [exact Hr|euclid|done|done| |reflexivity]. rewrite Er. euclid.
  - eapply convertDiff_back; [exact Hg|euclid|done|done| |reflexivity]. rewrite Eg. euclid.
  - eapply convertDiff_back; [exact Hb|euclid|done|done| |reflexivity]. rewrite Ed. euclid.
Qed.

Lemma base_colors_direct fl X tA tB r1 g1 b1 r2 g2 b2 :
  0 <= tA < 8 -> 0 <= tB < 8 ->
  0 <= r1 < 16 -> 0 <= g1 < 16 -> 0 <= b1 < 16 -> 0 <= r2 < 16 -> 0 <= g2 < 16 -> 0 <= b2 < 16 ->
  X = r1 * 2 ^ 20 + r2 * 2 ^ 16 + g1 * 2 ^ 12 + g2 * 2 ^ 8 + b1 * 2 ^ 4 + b2 ->
  base_colors (colour_field fl X 0 tA tB) =
    ((convert4To8 r1, convert4To8 g1, convert4To8 b1), (convert4To8 r2, convert4To8 g2, convert4To8 b2)).
Proof.
  intros HA HB H1 H2 H3 H4 H5 H6 EX. unfold base_colors.
  destruct (field_tables fl X 0 tA tB) as (_ & _ & _ & ->); [by left|done|done|]. cbv zeta. cbn [Z.eqb].
  assert (Hf : 0 <= tA * 32 + tB * 4 + 0 + (if fl then 1 else 0) < 256) by (destruct fl; lia).
  set (low := tA * 32 + tB * 4 + 0 + (if fl then 1 else 0)) in *.
  assert (Ehi : colour_field fl X 0 tA tB = X * 256 + low) by (unfold colour_field, low; lia).
  rewrite Ehi, !shiftr_at by lia. rewrite EX. clearbody low. clear EX Ehi.
  f_equal; [f_equal; [f_equal|]|f_equal; [f_equal|]]; apply convert_mod4; euclid.
Qed.

(** The encoder of the base colours writes what the decoder reads. *)
Lemma encodeBaseColors_ok c1 c2 (fl : bool) :
  bytes3 c1 -> bytes3 c2 ->
  exists base1 base2 X d, etc_encodeBaseColors (c1, c2) (if fl then 1 else 0)
                            = (base1, base2, Z.lor (if fl then 1 else 0) (X * 256 + d)) /\
    (d = 0 \/ d = 2) /\ 0 <= X < 2 ^ 24 /\
    forall tA tB, 0 <= tA < 8 -> 0 <= tB < 8 -> base_colors (colour_field fl X d tA tB) = (base1, base2).
Proof.
  destruct c1 as [[r1 g1] b1], c2 as [[r2 g2] b2]. intros (Hr1 & Hg1 & Hb1) (Hr2 & Hg2 & Hb2).
  unfold etc_encodeBaseColors.
  pose proof (convert8To5_range r1 Hr1). pose proof (convert8To5_range g1 Hg1). pose proof (convert8To5_range b1 Hb1).
  pose proof (convert8To5_range r2 Hr2). pose proof (convert8To5_range g2 Hg2). pose proof (convert8To5_range b2 Hb2).
  set (r51 := convert8To5 r1) in *. set (g51 := convert8To5 g1) in *. set (b51 := convert8To5 b1) in *.
  set (r52 := convert8To5 r2) in *. set (g52 := convert8To5 g2) in *. set (b52 := convert8To5 b2) in *.
  clearbody r51 g51 b51 r52 g52 b52. unfold inRange4bitSigned.
  destruct (_ && _ && _) eqn:Ed.
  - set (X := r51 * 2 ^ 19 + Z.land 7 (r52 - r51) * 2 ^ 16 + g51 * 2 ^ 11 + Z.land 7 (g52 - g51) * 2 ^ 8 + b51 * 2 ^ 3 + Z.land 7 (b52 - b51)).
    pose proof (Z.mod_pos_bound (r52 - r51) 8). pose proof (Z.mod_pos_bound (g52 - g51) 8). pose proof (Z.mod_pos_bound (b52 - b51) 8).
    assert (EX : X = X) by done. unfold X at 2 in EX. rewrite !land_7 in EX.
    eexists _, _, X, 2. split; [|split; [by right|split; [lia|]]].
    + f_equal. f_equal. rewrite <-!Z.lor_assoc, !land_7. rewrite (lor_low _ 2 8) by lia. rewrite (lor_low b51) by lia.
      rewrite (lor_low _ _ 16) by lia. rewrite (lor_low g51) by lia. rewrite (lor_low _ _ 24) by lia. rewrite (lor_low r51) by lia.
      rewrite u32_small by lia. lia.
    + intros tA tB HA HB. rewrite !convert5To8_byte by lia. apply base_colors_diff; lia.
  - pose proof (convert8To4_range r1 Hr1). pose proof (convert8To4_range g1 Hg1). pose proof (convert8To4_range b1 Hb1).
    pose proof (convert8To4_range r2 Hr2). pose proof (convert8To4_range g2 Hg2). pose proof (convert8To4_range b2 Hb2).
    set (X := convert8To4 r1 * 2 ^ 20 + convert8To4 r2 * 2 ^ 16 + convert8To4 g1 * 2 ^ 12 + convert8To4 g2 * 2 ^ 8 + convert8To4 b1 * 2 ^ 4 + convert8To4 b2).
    eexists _, _, X, 0. split; [|split; [by left|split; [lia|]]].
    + f_equal. f_equal. rewrite <-!Z.lor_assoc. rewrite <-(Z.lor_0_r (Z.shiftl (convert8To4 b2) 8)) at 1.
      rewrite (lor_low (convert8To4 b2) 0 8) by lia. rewrite (lor_low _ _ 12) by lia. rewrite (lor_low _ _ 16) by lia.
      rewrite (lor_low _ _ 20) by lia. rewrite (lor_low _ _ 24) by lia. rewrite (lor_low _ _ 28) by lia.
      rewrite u32_small by lia. unfold X. lia.
    + intros tA tB HA HB. rewrite !convert4To8_byte by lia. apply base_colors_direct; lia.
Qed.

Lemma big_endian_back h l i :
  0 <= h < 2 ^ 32 -> 0 <= l < 2 ^ 32 -> (i = 0 \/ i = 4)%nat ->
  big_endian (writeBigEndian h ++ writeBigEndian l) i = if Nat.eqb i 0 then h else l.
Proof.
  intros Hh Hl Hi.
  assert (H : forall z, 0 <= z < 2 ^ 32 ->
     u32 (Z.lor (Z.lor (Z.lor (Z.shiftl (u8 (Z.shiftr z 24)) 24) (Z.shiftl (u8 (Z.shiftr z 16)) 16)) (Z.shiftl (u8 (Z.shiftr z 8)) 8)) (u8 z)) = z).
  { intros z Hz. unfold u8. change (2 ^ 8) with 256. rewrite !shiftr_at, <-!Z.lor_assoc by lia.
    rewrite (lor_low _ _ 8) by euclid. rewrite (lor_low _ _ 16) by euclid. rewrite (lor_low _ _ 24) by euclid.
    rewrite u32_small by euclid. euclid. }
  destruct Hi as [->| ->]; unfold big_endian, writeBigEndian; apply H; done.
Qed.

Lemma average_bytes pIn inMask fl second : bytes3 (etc_average_colors_subblock pIn inMask fl second).
Proof.
  unfold etc_average_colors_subblock. destruct (foldl _ _ _) as [[r g] b]. unfold bytes3, is_byte, u8. change (2 ^ 8) with 256.
  split_and!; apply Z.mod_pos_bound; lia.
Qed.

Lemma pixel_bytes p i : Forall is_byte p -> bytes3 (pixel p i).
Proof.
  intros H. assert (Hb : forall k, is_byte (p !!! k)).
  { intros k. rewrite list_lookup_total_alt. destruct (p !! k) eqn:E; simpl; [|split; done]. by apply (Forall_lookup_1 _ _ _ _ H E). }
  unfold pixel. split_and!; apply Hb.
Qed.

(** The colours that the encoder starts from. *)
Definition averages (pIn : list Z) (inMask : Z) (fl : bool) : rgb * rgb :=
  (etc_average_colors_subblock pIn inMask fl false, etc_average_colors_subblock pIn inMask fl true).

(** The block with the encoder's base colours, any tables and any pixel indices. *)
Definition candidate (pIn : list Z) (inMask : Z) (fl : bool) (tA tB lw : Z) : list Z :=
  let '(_, _, oh) := etc_encodeBaseColors (averages pIn inMask fl) (if fl then 1 else 0) in
  writeBigEndian (Z.lor (Z.lor oh (Z.shiftl tA 5)) (Z.shiftl tB 2)) ++ writeBigEndian lw.

(** The decoded error of a candidate. *)
Lemma candidate_error pIn inMask (fl : bool) p base1 base2 oh tA tB lw :
  length p = 48%nat -> etc_encodeBaseColors (averages pIn inMask fl) (if fl then 1 else 0) = (base1, base2, oh) ->
  0 <= tA < 8 -> 0 <= tB < 8 -> 0 <= lw < 2 ^ 32 ->
  0 <= Z.lor (Z.lor oh (Z.shiftl tA 5)) (Z.shiftl tB 2) < 2 ^ 32 /\
  block_error inMask (etc1_decode_block (candidate pIn inMask fl tA tB lw) p) pIn =
    half_error pIn inMask base1 (modifiers tA) lw (half fl false) + half_error pIn inMask base2 (modifiers tB) lw (half fl true).
Proof.
  intros Hp E HA HB Hl. unfold candidate. rewrite E.
  destruct (encodeBaseColors_ok (etc_average_colors_subblock pIn inMask fl false) (etc_average_colors_subblock pIn inMask fl true) fl)
    as (b1 & b2 & X & d & E' & Hd & HX & Hc); [apply average_bytes..|].
  unfold averages in E. rewrite E in E'. injection E' as -> -> ->. rewrite fields by done.
  fold (colour_field fl X d tA tB). assert (Hhi : 0 <= colour_field fl X d tA tB < 2 ^ 32) by (unfold colour_field; destruct fl; lia).
  split; [done|]. unfold etc1_decode_block. rewrite !big_endian_back by first [done|auto]. cbn [Nat.eqb].
  rewrite (block_error_halves pIn inMask _ lw b1 b2 p) by first [done|by apply Hc].
  destruct (field_tables fl X d tA tB) as (-> & -> & -> & _); done.
Qed.

(** C20 The encoder finds the best block: of all blocks with the base colours that
    it computes for one of both ways to cut the pixels, with any tables and any
    indices, none has a smaller squared error on the pixels of the mask, after
    decoding, than the block that it produces. *)
Theorem encode_block_best pIn inMask p :
  Forall is_byte pIn -> length p = 48%nat ->
  (exists fl tA tB lw, 0 <= tA < 8 /\ 0 <= tB < 8 /\ 0 <= lw < 2 ^ 32 /\
     etc1_encode_block pIn inMask = candidate pIn inMask fl tA tB lw) /\
  forall fl tA tB lw, 0 <= tA < 8 -> 0 <= tB < 8 -> 0 <= lw < 2 ^ 32 ->
    block_error inMask (etc1_decode_block (etc1_encode_block pIn inMask) p) pIn
    <= block_error inMask (etc1_decode_block (candidate pIn inMask fl tA tB lw) p) pIn.
Proof.
  intros Hby Hp. assert (Hpix : forall i, bytes3 (pixel pIn i)) by (intros; by apply pixel_bytes).
  assert (Hfl : forall fl, exists tA tB lw, let c := etc_encode_block_helper pIn inMask (averages pIn inMask fl) fl in
    0 <= tA < 8 /\ 0 <= tB < 8 /\ 0 <= lw < 2 ^ 32 /\ writeBigEndian (high c) ++ writeBigEndian (low c) = candidate pIn inMask fl tA tB lw /\
    score c = block_error inMask (etc1_decode_block (candidate pIn inMask fl tA tB lw) p) pIn /\
    forall tA' tB' lw', 0 <= tA' < 8 -> 0 <= tB' < 8 -> 0 <= lw' < 2 ^ 32 ->
      score c <= block_error inMask (etc1_decode_block (candidate pIn inMask fl tA' tB' lw') p) pIn).
  { intros fl. destruct (etc_encodeBaseColors (averages pIn inMask fl) (if fl then 1 else 0)) as [[base1 base2] oh] eqn:E.
    destruct (block_helper_best pIn inMask Hpix (averages pIn inMask fl) fl base1 base2 oh E) as (tA & tB & HA & HB & Eh & El & Es & Em).
    exists tA, tB, (low (etc_encode_block_helper pIn inMask (averages pIn inMask fl) fl)). cbv zeta.
    set (c := etc_encode_block_helper pIn inMask (averages pIn inMask fl) fl) in *. split_and!; try done; try lia.
    - unfold candidate. by rewrite E, Eh.
    - rewrite Es. symmetry. by apply candidate_error with (oh := oh).
    - intros tA' tB' lw' HA' HB' Hl'. destruct (candidate_error pIn inMask fl p base1 base2 oh tA' tB' lw') as [_ ->]; [done..|].
      by apply Em. }
  destruct (Hfl false) as (tA0 & tB0 & lw0 & A0 & B0 & L0 & E0 & S0 & M0).
  destruct (Hfl true) as (tA1 & tB1 & lw1 & A1 & B1 & L1 & E1 & S1 & M1). cbv zeta in *.
  unfold etc1_encode_block, encode_words. cbv zeta. fold (averages pIn inMask false) (averages pIn inMask true).
  unfold take_best. set (c0 := etc_encode_block_helper pIn inMask (averages pIn inMask false) false) in *.
  set (c1 := etc_encode_block_helper pIn inMask (averages pIn inMask true) true) in *.
  destruct (Z.ltb_spec (score c1) (score c0)).
  - rewrite E1. split; [by exists true, tA1, tB1, lw1|]. intros fl tA tB lw HA HB Hl. rewrite <-S1.
    destruct fl; [by apply M1|]. transitivity (score c0); [lia|by apply M0].
  - rewrite E0. split; [by exists false, tA0, tB0, lw0|]. intros fl tA tB lw HA HB Hl. rewrite <-S0.
    destruct fl; [|by apply M0]. transitivity (score c1); [lia|by apply M1].
Qed.

(** ** Pixels outside of the mask *)

Lemma foldl_ext_in {A B} (f g : A -> B -> A) l a :
  (forall a b, b ∈ l -> f a b = g a b) -> foldl f a l = foldl g a l.
Proof.
  revert a. induction l as [|b l IH]; intros a H; [done|]. cbn [foldl]. rewrite (H a b) by (by left). apply IH. intros. apply H. by right.
Qed.

Section Masked.
Variables (p q : list Z) (inMask : Z).
Hypothesis Hpq : forall j, 0 <= j < 16 -> masked inMask j = true -> pixel p j = pixel q j.

Lemma half_pixel fl second x y : (x, y) ∈ half fl second -> 0 <= x + 4 * y < 16.
Proof.
  intros H. destruct (half_in_block fl second) as [Hb _]. pose proof (proj1 (Forall_forall _ _) Hb _ H) as [? ?]. cbn [fst snd] in *. lia.
Qed.

Lemma average_masked fl second :
  etc_average_colors_subblock p inMask fl second = etc_average_colors_subblock q inMask fl second.
Proof.
  unfold etc_average_colors_subblock. erewrite foldl_ext_in; [reflexivity|].
  intros [[r g] b] [x y] H%half_pixel. destruct (masked inMask (x + 4 * y)) eqn:E; [|done]. by rewrite (Hpq _ H E).
Qed.

Lemma helper_masked c fl second base table :
  etc_encode_subblock_helper p inMask c fl second base table = etc_encode_subblock_helper q inMask c fl second base table.
Proof.
  unfold etc_encode_subblock_helper. erewrite foldl_ext_in; [reflexivity|].
  intros [sc lw] [x y] H%half_pixel. unfold encode_turn. destruct (masked inMask (x + 4 * y)) eqn:E; [|done]. by rewrite (Hpq _ H E).
Qed.

Lemma block_helper_masked colors fl :
  etc_encode_block_helper p inMask colors fl = etc_encode_block_helper q inMask colors fl.
Proof.
  unfold etc_encode_block_helper. destruct (etc_encodeBaseColors _ _) as [[base1 base2] oh].
  assert (E : encode_first p inMask fl base1 oh = encode_first q inMask fl base1 oh).
  { apply foldl_ext_in. intros c i _. by rewrite helper_masked. }
  rewrite E. apply foldl_ext_in. intros c i _. cbv zeta. by rewrite helper_masked.
Qed.

(** The colours of pixels outside of the mask do not matter. *)
Lemma encode_block_masked : etc1_encode_block p inMask = etc1_encode_block q inMask.
Proof.
  assert (E : encode_words p inMask = encode_words q inMask); [|unfold etc1_encode_block; by rewrite E].
  unfold encode_words. cbv zeta. by rewrite !average_masked, !block_helper_masked.
Qed.

End Masked.

(** *** A concrete block *)

(** A gradient, of which the last column is not part of the image. *)
Definition demo_block : list Z := (fun i => i * 5) <$> seqZ 0 48.

Example encode_block_best_witness :
  block_error 0x7777 (etc1_decode_block (etc1_encode_block demo_block 0x7777) (replicate 48 0)) demo_block
  <= block_error 0x7777 (etc1_decode_block (candidate demo_block 0x7777 true 3 4 12345) (replicate 48 0)) demo_block.
Proof.
  apply (encode_block_best demo_block 0x7777 (replicate 48 0)).
  - apply (bool_decide_unpack _). vm_compute. exact I.
  - reflexivity.
  - lia.
  - lia.
  - lia.
Defined.

Example demo_block_error :
  block_error 0x7777 (etc1_decode_block (etc1_encode_block demo_block 0x7777) (replicate 48 0)) demo_block = 17874.
Proof. vm_compute. reflexivity. Qed.

(** The average of a part of a block is divided by the number of pixels of the whole
    half: where the image ends inside of a block, the base colours are too dark. *)
Example average_of_one_pixel :
  etc_average_colors_subblock (replicate 48 200) 1 false false = (25, 25, 25) /\
  block_error 1 (etc1_decode_block (etc1_encode_block (replicate 48 200) 1) (replicate 48 0)) (replicate 48 200) = 490 /\
  block_error 1 (etc1_decode_block (etc1_encode_block (replicate 48 200) 0xffff) (replicate 48 0)) (replicate 48 200) = 0.
Proof. vm_compute. done. Qed.
