(* ===== verification/Etc1Image.v ===== *)
(** * Compressed textures

    Models the rest of [src/emulator/opengl/host/libs/Translator/GLcommon/etc1.cpp]:
    images as rows of [Etc1] blocks, and the header of a PKM file.

    [encode_image_blocks] and [decode_image_pixels]: both stay inside of the image
    and of the encoded data, for every size of image that does not overflow, and what
    they produce is a block, or a pixel, for each place of the image. *)
From S2P Require Import Prelude Etc1.
Local Open Scope Z_scope.

Definition ETC1_ENCODED_BLOCK_SIZE : Z := 8.
Definition ETC1_DECODED_BLOCK_SIZE : Z := 48.

Definition kYMask : list Z := [0x0; 0xf; 0xff; 0xfff; 0xffff].
Definition kXMask : list Z := [0x0; 0x1111; 0x3333; 0x7777; 0xffff].

(** [(n + 3) & ~3] *)
Definition round4 (n : Z) : Z := Z.land (u32 (n + 3)) (Z.lnot 3).

(** The part of a block that is inside of the image. *)
Definition block_end (size at_ : Z) : Z := let e := u32 (size - at_) in if 4 <? e then 4 else e.

(** [for (i = 0; i < end; i += 4)] *)
Definition by4 (end_ : Z) : list Z := (fun i => i * 4) <$> seqZ 0 (end_ / 4).

(** The offset of the pixel [x] of the row [y]. *)
Definition pixel_offset (pixelSize stride x y : Z) : Z := u32 (pixelSize * x) + u32 (stride * y).

(** ** Encoding *)

(** A pixel of 16 bits at [p], stored at [q]. *)
Definition fetch_565 (pIn : list Z) (p q : Z) (block : list Z) (cx : Z) : result (list Z) :=
  lo ← peek pIn (p + cx * 2); hi ← peek pIn (p + cx * 2 + 1);
  let pixel := Z.lor (Z.shiftl hi 8) lo in
  write_block block (q + cx * 3) [u8 (convert5To8 (Z.shiftr pixel 11)); u8 (convert6To8 (Z.shiftr pixel 5)); u8 (convert5To8 pixel)].

Definition fetch_row (pIn : list Z) (pixelSize stride x y xEnd : Z) (block : list Z) (cy : Z) : result (list Z) :=
  let q := cy * 4 * 3 in
  let p := pixel_offset pixelSize stride x (u32 (y + cy)) in
  if pixelSize =? 3 then d ← read_block pIn p (xEnd * 3); write_block block q d
  else foldM (fetch_565 pIn p q) block (seqZ 0 xEnd).

(** [block], the output and the position in it. *)
Definition encode_at (pIn : list Z) (width height pixelSize stride y : Z) (st : list Z * list Z * Z) (x : Z)
  : result (list Z * list Z * Z) :=
  let '(block, pOut, pos) := st in
  let yEnd := block_end height y in
  let ymask := kYMask !!! Z.to_nat yEnd in
  let xEnd := block_end width x in
  let mask := Z.land ymask (kXMask !!! Z.to_nat xEnd) in
  block ← foldM (fetch_row pIn pixelSize stride x y xEnd) block (seqZ 0 yEnd);
  pOut ← write_block pOut pos (etc1_encode_block block mask);
  Ok (block, pOut, pos + ETC1_ENCODED_BLOCK_SIZE).

(** [stack] is what [block] has before anything is stored in it. *)
Definition etc1_encode_image (pIn : list Z) (width height pixelSize stride : Z) (pOut stack : list Z) : result (Z * list Z) :=
  if (pixelSize <? 2) || (3 <? pixelSize) then Ok (-1, pOut)
  else
    '(_, pOut, _) ← foldM (fun st y => foldM (encode_at pIn width height pixelSize stride y) st (by4 (round4 width)))
                      (stack, pOut, 0) (by4 (round4 height));
    Ok (0, pOut).

(** ** Decoding *)

Definition store_565 (block : list Z) (p q : Z) (pOut : list Z) (cx : Z) : result (list Z) :=
  c ← read_block block (q + cx * 3) 3;
  let r := c !!! 0%nat in let g := c !!! 1%nat in let b := c !!! 2%nat in
  let pixel := Z.lor (Z.lor (Z.shiftl (Z.shiftr r 3) 11) (Z.shiftl (Z.shiftr g 2) 5)) (Z.shiftr b 3) in
  write_block pOut (p + cx * 2) [u8 pixel; u8 (Z.shiftr pixel 8)].

Definition store_row (block : list Z) (pixelSize stride x y xEnd : Z) (pOut : list Z) (cy : Z) : result (list Z) :=
  let q := cy * 4 * 3 in
  let p := pixel_offset pixelSize stride x (u32 (y + cy)) in
  if pixelSize =? 3 then d ← read_block block q (xEnd * 3); write_block pOut p d
  else foldM (store_565 block p q) pOut (seqZ 0 xEnd).

Definition decode_at (pIn : list Z) (width height pixelSize stride y : Z) (st : list Z * list Z * Z) (x : Z)
  : result (list Z * list Z * Z) :=
  let '(block, pOut, pos) := st in
  let yEnd := block_end height y in
  let xEnd := block_end width x in
  d ← read_block pIn pos ETC1_ENCODED_BLOCK_SIZE;
  let block := etc1_decode_block d block in
  pOut ← foldM (store_row block pixelSize stride x y xEnd) pOut (seqZ 0 yEnd);
  Ok (block, pOut, pos + ETC1_ENCODED_BLOCK_SIZE).

Definition etc1_decode_image (pIn pOut : list Z) (width height pixelSize stride : Z) (stack : list Z) : result (Z * list Z) :=
  if (pixelSize <? 2) || (3 <? pixelSize) then Ok (-1, pOut)
  else
    '(_, pOut, _) ← foldM (fun st y => foldM (decode_at pIn width height pixelSize stride y) st (by4 (round4 width)))
                      (stack, pOut, 0) (by4 (round4 height));
    Ok (0, pOut).

(** ** PKM headers *)

Definition kMagic : list Z := [0x50; 0x4b; 0x4d; 0x20; 0x31; 0x30].
Definition ETC1_PKM_FORMAT_OFFSET : Z := 6.
Definition ETC1_PKM_ENCODED_WIDTH_OFFSET : Z := 8.
Definition ETC1_PKM_ENCODED_HEIGHT_OFFSET : Z := 10.
Definition ETC1_PKM_WIDTH_OFFSET : Z := 12.
Definition ETC1_PKM_HEIGHT_OFFSET : Z := 14.
Definition ETC1_RGB_NO_MIPMAPS : Z := 0.

Definition writeBEUint16 (pOut : list Z) (off data : Z) : result (list Z) :=
  write_block pOut off [u8 (Z.shiftr data 8); u8 data].

Definition readBEUint16 (pIn : list Z) (off : Z) : result Z :=
  a ← peek pIn off; b ← peek pIn (off + 1); Ok (Z.lor (Z.shiftl a 8) b).

Definition etc1_pkm_format_header (pHeader : list Z) (width height : Z) : result (list Z) :=
  h ← write_block pHeader 0 kMagic;
  h ← writeBEUint16 h ETC1_PKM_FORMAT_OFFSET ETC1_RGB_NO_MIPMAPS;
  h ← writeBEUint16 h ETC1_PKM_ENCODED_WIDTH_OFFSET (round4 width);
  h ← writeBEUint16 h ETC1_PKM_ENCODED_HEIGHT_OFFSET (round4 height);
  h ← writeBEUint16 h ETC1_PKM_WIDTH_OFFSET width;
  writeBEUint16 h ETC1_PKM_HEIGHT_OFFSET height.

Definition etc1_pkm_is_valid (pHeader : list Z) : result bool :=
  magic ← read_block pHeader 0 6;
  if negb (bool_decide (magic = kMagic)) then Ok false
  else
    format ← readBEUint16 pHeader ETC1_PKM_FORMAT_OFFSET;
    encodedWidth ← readBEUint16 pHeader ETC1_PKM_ENCODED_WIDTH_OFFSET;
    encodedHeight ← readBEUint16 pHeader ETC1_PKM_ENCODED_HEIGHT_OFFSET;
    width ← readBEUint16 pHeader ETC1_PKM_WIDTH_OFFSET;
    height ← readBEUint16 pHeader ETC1_PKM_HEIGHT_OFFSET;
    Ok ((format =? ETC1_RGB_NO_MIPMAPS) && (width <=? encodedWidth) && (u32 (encodedWidth - width) <? 4) &&
        (height <=? encodedHeight) && (u32 (encodedHeight - height) <? 4)).

Definition etc1_pkm_get_width (pHeader : list Z) : result Z := readBEUint16 pHeader ETC1_PKM_WIDTH_OFFSET.
Definition etc1_pkm_get_height (pHeader : list Z) : result Z := readBEUint16 pHeader ETC1_PKM_HEIGHT_OFFSET.

(** ** Sizes *)

Lemma land_lnot_3 n : Z.land n (Z.lnot 3) = n / 4 * 4.
Proof.
  change 3 with (Z.ones 2). rewrite <-Z.ldiff_land, Z.ldiff_ones_r, Z.shiftl_mul_pow2, Z.shiftr_div_pow2 by lia. done.
Qed.

Lemma round4_up n : 0 <= n < 2 ^ 32 - 3 -> round4 n = (n + 3) / 4 * 4.
Proof. intros H. unfold round4. by rewrite u32_small, land_lnot_3 by lia. Qed.

Lemma by4_round4 n : 0 <= n < 2 ^ 32 - 3 -> by4 (round4 n) = (fun i => i * 4) <$> seqZ 0 ((n + 3) / 4).
Proof. intros H. unfold by4. rewrite round4_up by done. by rewrite Z.div_mul by lia. Qed.

(** How many blocks there are in a direction. *)
Definition blocks (n : Z) : Z := (n + 3) / 4.

Lemma block_end_min n i : 0 <= i < blocks n -> n < 2 ^ 32 -> 0 <= n -> block_end n (i * 4) = Z.min 4 (n - i * 4) /\ 1 <= block_end n (i * 4) <= 4.
Proof.
  unfold blocks. intros Hi Hn H0. assert (i * 4 < n) by euclid. unfold block_end. rewrite u32_small by lia.
  destruct (Z.ltb_spec 4 (n - i * 4)); lia.
Qed.

Lemma encoded_size w h :
  0 <= w -> 0 <= h -> (w + 3) * (h + 3) < 2 ^ 32 -> w < 2 ^ 32 - 3 -> h < 2 ^ 32 - 3 ->
  etc1_get_encoded_data_size w h = 8 * (blocks w * blocks h).
Proof.
  intros Hw Hh Hwh Hw' Hh'. unfold etc1_get_encoded_data_size. fold (round4 w) (round4 h). rewrite !round4_up by lia.
  assert (Ha : (w + 3) / 4 * 4 <= w + 3) by euclid. assert (Hb : (h + 3) / 4 * 4 <= h + 3) by euclid.
  assert (0 <= (w + 3) / 4) by euclid. assert (0 <= (h + 3) / 4) by euclid. unfold blocks.
  set (a := (w + 3) / 4) in *. set (b := (h + 3) / 4) in *. rewrite u32_small by nia.
  rewrite Z.shiftr_div_pow2 by lia. change (2 ^ 1) with 2. replace (a * 4 * (b * 4)) with (8 * (a * b) * 2) by ring. by rewrite Z.div_mul.
Qed.

(** ** What is encoded *)

(** The colour of the pixel of an image. *)
Definition image_pixel (pIn : list Z) (pixelSize stride x y : Z) : rgb :=
  let p := Z.to_nat (pixelSize * x + stride * y) in
  if pixelSize =? 3 then (pIn !!! p, pIn !!! (p + 1)%nat, pIn !!! (p + 2)%nat)
  else
    let pixel := Z.lor (Z.shiftl (pIn !!! (p + 1)%nat) 8) (pIn !!! p) in
    (u8 (convert5To8 (Z.shiftr pixel 11)), u8 (convert6To8 (Z.shiftr pixel 5)), u8 (convert5To8 pixel)).

(** The 16 pixels from a place of the image on. *)
Definition tile (pIn : list Z) (pixelSize stride x y : Z) : list Z :=
  j ← seqZ 0 16; let '(r, g, b) := image_pixel pIn pixelSize stride (x + j `mod` 4) (y + j / 4) in [r; g; b].

(** Which of them are inside of the image. *)
Definition inside_mask (width height x y : Z) : Z :=
  Zsum ((fun j => if (x + j `mod` 4 <? width) && (y + j / 4 <? height) then 2 ^ j else 0) <$> seqZ 0 16).

Lemma tile_pixel pIn ps stride x y j :
  0 <= j < 16 -> pixel (tile pIn ps stride x y) j = image_pixel pIn ps stride (x + j `mod` 4) (y + j / 4).
Proof.
  intros Hj. unfold tile. set (f := fun j => image_pixel pIn ps stride (x + j `mod` 4) (y + j / 4)).
  change (pixel (j ← seqZ 0 16; let '(r, g, b) := f j in [r; g; b]) j = f j). clearbody f.
  change (seqZ 0 16) with [0;1;2;3;4;5;6;7;8;9;10;11;12;13;14;15]. cbn [mbind list_bind].
  assert (j ∈ seqZ 0 16) as Hin by (apply elem_of_seqZ; lia). change (seqZ 0 16) with [0;1;2;3;4;5;6;7;8;9;10;11;12;13;14;15] in Hin.
  destruct (f 0) as [[??]?] eqn:?, (f 1) as [[??]?] eqn:?, (f 2) as [[??]?] eqn:?, (f 3) as [[??]?] eqn:?,
    (f 4) as [[??]?] eqn:?, (f 5) as [[??]?] eqn:?, (f 6) as [[??]?] eqn:?, (f 7) as [[??]?] eqn:?,
    (f 8) as [[??]?] eqn:?, (f 9) as [[??]?] eqn:?, (f 10) as [[??]?] eqn:?, (f 11) as [[??]?] eqn:?,
    (f 12) as [[??]?] eqn:?, (f 13) as [[??]?] eqn:?, (f 14) as [[??]?] eqn:?, (f 15) as [[??]?] eqn:?.
  repeat (apply elem_of_cons in Hin as [->|Hin]; [symmetry; assumption|]). by apply not_elem_of_nil in Hin.
Qed.

(** The masks of the tables, pixel by pixel. *)
Lemma table_mask xe ye j :
  1 <= xe <= 4 -> 1 <= ye <= 4 -> 0 <= j < 16 ->
  masked (Z.land (kYMask !!! Z.to_nat ye) (kXMask !!! Z.to_nat xe)) j = (j `mod` 4 <? xe) && (j / 4 <? ye).
Proof.
  intros Hx Hy Hj. set (k := j * 16 + (ye - 1) * 4 + (xe - 1)).
  assert (E1 : 1 + k `mod` 4 = xe) by (unfold k; euclid). assert (E2 : 1 + (k / 4) `mod` 4 = ye) by (unfold k; euclid).
  assert (E3 : k / 16 = j) by (unfold k; euclid). assert (Hk : 0 <= k < 256) by (unfold k; lia). clearbody k.
  pose proof (for_all_below 256 (fun k =>
     let xe := 1 + k `mod` 4 in let ye := 1 + (k / 4) `mod` 4 in let j := k / 16 in
     Bool.eqb (masked (Z.land (kYMask !!! Z.to_nat ye) (kXMask !!! Z.to_nat xe)) j) ((j `mod` 4 <? xe) && (j / 4 <? ye)))
     eq_refl k Hk) as H. cbv beta zeta in H. rewrite E1, E2, E3 in H. by apply eqb_prop in H.
Qed.

Lemma inside_mask_table w h x y xe ye :
  1 <= xe <= 4 -> 1 <= ye <= 4 -> xe = Z.min 4 (w - x) -> ye = Z.min 4 (h - y) ->
  inside_mask w h x y = Z.land (kYMask !!! Z.to_nat ye) (kXMask !!! Z.to_nat xe).
Proof.
  intros Hx Hy Ex Ey.
  transitivity (Zsum ((fun j => if (j `mod` 4 <? xe) && (j / 4 <? ye) then 2 ^ j else 0) <$> seqZ 0 16)).
  - unfold inside_mask. f_equal. apply list_fmap_ext. intros i j Hj%list_elem_of_lookup_2%elem_of_seqZ.
    assert (0 <= j `mod` 4 < 4) by euclid. assert (0 <= j / 4 < 4) by euclid.
    replace (x + j `mod` 4 <? w) with (j `mod` 4 <? xe) by lia. by replace (y + j / 4 <? h) with (j / 4 <? ye) by lia.
  - clear Ex Ey. assert (xe = 1 \/ xe = 2 \/ xe = 3 \/ xe = 4) as Hxe by lia. assert (ye = 1 \/ ye = 2 \/ ye = 3 \/ ye = 4) as Hye by lia.
    destruct Hxe as [->|[->|[->| ->]]], Hye as [->|[->|[->| ->]]]; reflexivity.
Qed.

(** ** Cells *)

Lemma peek_total (mem : list Z) p : 0 <= p < Z.of_nat (length mem) -> peek mem p = Ok (mem !!! Z.to_nat p).
Proof.
  intros Hp. unfold peek, read_block. rewrite decide_True by lia. cbn [mbind result_bind]. unfold get, slice.
  rewrite lookup_take_lt, lookup_drop by (simpl; lia). rewrite Nat.add_0_r, list_lookup_total_alt.
  destruct (mem !! Z.to_nat p) eqn:E; [done|]. apply lookup_ge_None in E. lia.
Qed.

Lemma read_block_total (mem : list Z) p n :
  0 <= p -> 0 <= n -> p + n <= Z.of_nat (length mem) ->
  exists d, read_block mem p n = Ok d /\ length d = Z.to_nat n /\ forall k, (k < Z.to_nat n)%nat -> d !!! k = mem !!! (Z.to_nat p + k)%nat.
Proof.
  intros. unfold read_block. rewrite decide_True by lia. eexists. split; [reflexivity|]. unfold slice. split; [len|].
  intros k Hk. by rewrite !list_lookup_total_alt, lookup_take_lt, lookup_drop by done.
Qed.

(** Pixels after some of them, [n] from [i] on, are written. *)
Lemma write_pixels block src i n :
  length block = 48%nat -> 0 <= i -> 0 <= n -> i + n <= 16 -> length src = Z.to_nat (3 * n) ->
  exists block', write_block block (3 * i) src = Ok block' /\ length block' = 48%nat /\
    forall j, 0 <= j < 16 -> pixel block' j =
      if (i <=? j) && (j <? i + n) then pixel src (j - i) else pixel block j.
Proof.
  intros Hb Hi Hn Hin Hs. destruct (write_block_total block src (3 * i)) as (block' & E & Hl & Hk); [lia|lia|].
  exists block'. split; [done|]. split; [lia|]. intros j Hj. unfold pixel. rewrite !Hk, Hs.
  assert (H : forall c, (c < 3)%nat ->
     (if bool_decide ((Z.to_nat (3 * i) <= Z.to_nat (j * 3) + c)%nat /\ (Z.to_nat (j * 3) + c < Z.to_nat (3 * i) + Z.to_nat (3 * n))%nat)
      then src !!! (Z.to_nat (j * 3) + c - Z.to_nat (3 * i))%nat else block !!! (Z.to_nat (j * 3) + c)%nat) =
     if (i <=? j) && (j <? i + n) then src !!! (Z.to_nat ((j - i) * 3) + c)%nat else block !!! (Z.to_nat (j * 3) + c)%nat).
  { intros c Hc. destruct (Z.leb_spec i j), (Z.ltb_spec j (i + n)); cbn [andb].
    - rewrite bool_decide_true by lia. f_equal. lia.
    - by rewrite bool_decide_false by lia.
    - by rewrite bool_decide_false by lia.
    - by rewrite bool_decide_false by lia. }
  pose proof (H 0%nat ltac:(lia)) as H0. rewrite !Nat.add_0_r in H0. rewrite H0, !H by lia.
  by destruct (_ && _).
Qed.

Lemma bind_length_const {A} (f : A -> list Z) k l : (forall a, length (f a) = k) -> length (l ≫= f) = (length l * k)%nat.
Proof. intros Hf. induction l as [|a l IH]; [done|]. rewrite bind_cons, length_app, Hf, IH. done. Qed.

(** A loop that appends [k] bytes in each turn. *)
Lemma foldM_chunks (step : list Z * list Z * Z -> Z -> result (list Z * list Z * Z)) (chunk : Z -> list Z) (k : nat) n :
  0 <= n -> (forall i, length (chunk i) = k) ->
  (forall i block pre post, 0 <= i < n -> length block = 48%nat -> (k <= length post)%nat ->
    exists block', step (block, pre ++ post, Z.of_nat (length pre)) i
      = Ok (block', (pre ++ chunk i) ++ drop k post, Z.of_nat (length (pre ++ chunk i))) /\ length block' = 48%nat) ->
  forall block pre post, length block = 48%nat -> (Z.to_nat n * k <= length post)%nat ->
    exists block', foldM step (block, pre ++ post, Z.of_nat (length pre)) (seqZ 0 n)
      = Ok (block', (pre ++ (seqZ 0 n ≫= chunk)) ++ drop (Z.to_nat n * k) post, Z.of_nat (length (pre ++ (seqZ 0 n ≫= chunk)))) /\
      length block' = 48%nat.
Proof.
  intros Hn Hk Hstep block pre post Hl Hpost.
  destruct (foldM_seqZ step (fun i st => exists block', length block' = 48%nat /\
              st = (block', (pre ++ (seqZ 0 i ≫= chunk)) ++ drop (Z.to_nat i * k) post, Z.of_nat (length (pre ++ (seqZ 0 i ≫= chunk)))))
              0 n (block, pre ++ post, Z.of_nat (length pre))) as (st & E & block' & Hl' & ->); [done| | |by exists block'].
  - exists block. split; [done|]. change (seqZ 0 0 ≫= chunk) with (@nil Z). by rewrite app_nil_r.
  - intros i st Hi (b & Hb & ->). destruct (Hstep i b (pre ++ (seqZ 0 i ≫= chunk)) (drop (Z.to_nat i * k) post)) as (b' & E & Hb'); [lia|done| |].
    + rewrite length_drop. assert (Z.to_nat i + 1 <= Z.to_nat n)%nat by lia. nia.
    + rewrite E. eexists. split; [reflexivity|]. exists b'. split; [done|].
      replace (seqZ 0 (i + 1) ≫= chunk) with ((seqZ 0 i ≫= chunk) ++ chunk i).
      * rewrite drop_drop, !app_assoc. do 4 f_equal. lia.
      * rewrite (seqZ_app 0 i 1) by lia. change (seqZ (0 + i) 1) with [i]. rewrite bind_app. cbn [mbind list_bind]. by rewrite app_nil_r.
Qed.

Section Encoding.
Variables (pIn : list Z) (width height pixelSize stride : Z).
Hypothesis Hps : pixelSize = 2 \/ pixelSize = 3.
Hypothesis Hw : 0 <= width < 2 ^ 32 - 3.
Hypothesis Hh : 0 <= height < 2 ^ 32 - 3.
Hypothesis Hstride : 0 <= stride.
Hypothesis Hrow : pixelSize * width < 2 ^ 32.
Hypothesis Hrows : stride * height < 2 ^ 32.
Hypothesis Hfit : 0 < width -> 0 < height -> stride * (height - 1) + pixelSize * width <= Z.of_nat (length pIn).

Lemma pixel_offset_ok x y : 0 <= x <= width -> 0 <= y < height -> pixel_offset pixelSize stride x y = pixelSize * x + stride * y.
Proof. intros Hx Hy. unfold pixel_offset. rewrite !u32_small by nia. done. Qed.

Lemma row_inside x y n :
  0 <= x -> 0 < n -> x + n <= width -> 0 <= y < height ->
  0 <= pixelSize * x + stride * y /\ pixelSize * x + stride * y + pixelSize * n <= Z.of_nat (length pIn).
Proof.
  intros Hx Hn Hxn Hy. assert (stride * y <= stride * (height - 1)) by nia. assert (pixelSize * (x + n) <= pixelSize * width) by nia.
  specialize (Hfit ltac:(lia) ltac:(lia)). nia.
Qed.

(** The pixels of the block that have been fetched. *)
Definition fetched (x y xEnd : Z) (done : Z -> Z -> Prop) (block : list Z) : Prop :=
  length block = 48%nat /\ forall cx cy, 0 <= cx < xEnd -> 0 <= cy < 4 -> done cx cy ->
    pixel block (cx + 4 * cy) = image_pixel pIn pixelSize stride (x + cx) (y + cy).

Lemma fetch_565_ok x y xEnd cy cx block :
  pixelSize = 2 -> 0 <= x -> xEnd <= 4 -> x + xEnd <= width -> 0 <= y -> 0 <= cy < 4 -> y + cy < height -> 0 <= cx < xEnd ->
  fetched x y xEnd (fun cx' cy' => cy' < cy \/ cy' = cy /\ cx' < cx) block ->
  exists block', fetch_565 pIn (2 * x + stride * (y + cy)) (cy * 4 * 3) block cx = Ok block' /\
    fetched x y xEnd (fun cx' cy' => cy' < cy \/ cy' = cy /\ cx' < cx + 1) block'.
Proof.
  intros H2 Hx Hx4 Hxw Hy Hcy Hyh Hcx [Hl Hd]. destruct (row_inside (x + cx) (y + cy) 1) as [Ha Hb]; [lia..|]. rewrite H2 in Ha, Hb.
  unfold fetch_565. replace (2 * x + stride * (y + cy) + cx * 2) with (2 * (x + cx) + stride * (y + cy)) by lia.
  rewrite !peek_total by lia. cbn [mbind result_bind].
  replace (cy * 4 * 3 + cx * 3) with (3 * (cx + 4 * cy)) by lia.
  match goal with |- context [write_block block _ ?s] =>
    destruct (write_pixels block s (cx + 4 * cy) 1) as (block' & -> & Hl' & Hp); [done|lia|lia|lia|done|] end.
  exists block'. split; [done|]. split; [done|]. intros cx' cy' Hcx' Hcy' Hdone. rewrite Hp by lia.
  destruct (decide (cx' = cx /\ cy' = cy)) as [[-> ->]|Hne].
  - rewrite (proj2 (andb_true_iff _ _)) by lia. rewrite Z.sub_diag. unfold pixel, image_pixel. rewrite H2. simpl.
    replace (Z.to_nat (2 * (x + cx) + stride * (y + cy) + 1)) with (Z.to_nat (2 * (x + cx) + stride * (y + cy)) + 1)%nat by lia. done.
  - rewrite (proj2 (andb_false_iff _ _)) by lia. apply Hd; [done|done|lia].
Qed.

Lemma fetch_row_ok x y xEnd cy block :
  0 <= x -> 1 <= xEnd <= 4 -> x + xEnd <= width -> 0 <= y -> 0 <= cy < 4 -> y + cy < height ->
  fetched x y xEnd (fun _ cy' => cy' < cy) block ->
  exists block', fetch_row pIn pixelSize stride x y xEnd block cy = Ok block' /\ fetched x y xEnd (fun _ cy' => cy' < cy + 1) block'.
Proof.
  intros Hx Hx4 Hxw Hy Hcy Hyh Hf. unfold fetch_row. rewrite (u32_small (y + cy)) by lia. rewrite pixel_offset_ok by lia.
  destruct (Z.eqb_spec pixelSize 3) as [H3|H3].
  - destruct Hf as [Hl Hd]. destruct (row_inside x (y + cy) xEnd) as [Ha Hb]; [lia..|]. rewrite H3 in *.
    destruct (read_block_total pIn (3 * x + stride * (y + cy)) (xEnd * 3)) as (d & -> & Hld & Hk); [lia|lia|lia|].
    cbn [mbind result_bind]. replace (cy * 4 * 3) with (3 * (4 * cy)) by lia.
    destruct (write_pixels block d (4 * cy) xEnd) as (block' & -> & Hl' & Hp); [done|lia|lia|lia|lia|].
    exists block'. split; [done|]. split; [done|]. intros cx' cy' Hcx' Hcy' Hdone. rewrite Hp by lia.
    destruct (decide (cy' = cy)) as [->|Hne].
    + rewrite (proj2 (andb_true_iff _ _)) by lia. unfold pixel, image_pixel. rewrite H3. cbn [Z.eqb Pos.eqb].
      replace (cx' + 4 * cy - 4 * cy) with cx' by lia. set (S := stride * (y + cy)) in *. clearbody S.
      replace (Z.to_nat (3 * (x + cx') + S)) with (Z.to_nat (3 * x + S) + Z.to_nat (cx' * 3))%nat by lia.
      rewrite !Hk by lia. by rewrite !Nat.add_assoc.
    + rewrite (proj2 (andb_false_iff _ _)) by lia. rewrite H3. apply Hd; [done|done|lia].
  - assert (H2 : pixelSize = 2) by lia. replace (pixelSize * x) with (2 * x) by (by rewrite H2).
    destruct (foldM_seqZ (fetch_565 pIn (2 * x + stride * (y + cy)) (cy * 4 * 3))
               (fun cx => fetched x y xEnd (fun cx' cy' => cy' < cy \/ cy' = cy /\ cx' < cx)) 0 xEnd block) as (block' & E & Hl & Hd).
    + lia.
    + destruct Hf as [Hl Hd]. split; [done|]. intros cx' cy' Hcx' Hcy' Hdone. apply Hd; lia.
    + intros cx s Hcx Hs. apply fetch_565_ok; try done; lia.
    + exists block'. split; [done|]. split; [done|]. intros cx' cy' Hcx' Hcy' Hdone. apply Hd; lia.
Qed.

(** The block for a place of the image. *)
Definition encoded_tile (x y : Z) : list Z :=
  etc1_encode_block (tile pIn pixelSize stride x y) (inside_mask width height x y).

Lemma encoded_tile_length x y : length (encoded_tile x y) = 8%nat.
Proof. done. Qed.

Lemma encode_at_ok bx by_ block pre post :
  0 <= bx < blocks width -> 0 <= by_ < blocks height -> length block = 48%nat -> (8 <= length post)%nat ->
  exists block', encode_at pIn width height pixelSize stride (by_ * 4) (block, pre ++ post, Z.of_nat (length pre)) (bx * 4)
    = Ok (block', (pre ++ encoded_tile (bx * 4) (by_ * 4)) ++ drop 8 post, Z.of_nat (length (pre ++ encoded_tile (bx * 4) (by_ * 4)))) /\
    length block' = 48%nat.
Proof.
  intros Hbx Hby Hl Hpost. unfold encode_at.
  destruct (block_end_min width bx) as [Ex Hxr]; [done|lia|lia|]. destruct (block_end_min height by_) as [Ey Hyr]; [done|lia|lia|].
  set (xe := block_end width (bx * 4)) in *. set (ye := block_end height (by_ * 4)) in *.
  destruct (foldM_seqZ (fetch_row pIn pixelSize stride (bx * 4) (by_ * 4) xe)
             (fun cy => fetched (bx * 4) (by_ * 4) xe (fun _ cy' => cy' < cy)) 0 ye block) as (block' & -> & Hl' & Hd).
  - lia.
  - split; [done|]. intros. lia.
  - intros cy s Hcy Hs. apply fetch_row_ok; try done; lia.
  - cbn [mbind result_bind]. rewrite <-(inside_mask_table width height (bx * 4) (by_ * 4) xe ye) by lia.
    rewrite (encode_block_masked block' (tile pIn pixelSize stride (bx * 4) (by_ * 4))).
    + fold (encoded_tile (bx * 4) (by_ * 4)). exists block'. split; [|done].
      rewrite write_block_ok by (rewrite ?length_app, ?encoded_tile_length; lia). cbn [mbind result_bind].
      rewrite Nat2Z.id, take_app_length, drop_app_ge, encoded_tile_length by lia.
      replace (length pre + 8 - length pre)%nat with 8%nat by lia. rewrite <-app_assoc.
      rewrite length_app, encoded_tile_length. unfold ETC1_ENCODED_BLOCK_SIZE. f_equal. f_equal. lia.
    + intros j Hj Hm. rewrite (inside_mask_table width height (bx * 4) (by_ * 4) xe ye), table_mask in Hm by lia.
      rewrite tile_pixel by done. replace j with (j `mod` 4 + 4 * (j / 4)) at 1 by euclid.
      assert (0 <= j `mod` 4 < 4) by euclid. assert (0 <= j / 4 < 4) by euclid. apply Hd; lia.
Qed.

(** The blocks of the image, row by row. *)
Definition encoded_row (y : Z) : list Z := bx ← seqZ 0 (blocks width); encoded_tile (bx * 4) y.
Definition encoded_image : list Z := by_ ← seqZ 0 (blocks height); encoded_row (by_ * 4).

Lemma encoded_row_length y : length (encoded_row y) = (Z.to_nat (blocks width) * 8)%nat.
Proof.
  etransitivity; [apply (bind_length_const (fun bx => encoded_tile (bx * 4) y) 8)|by rewrite length_seqZ].
  intros. apply encoded_tile_length.
Qed.

Lemma encoded_image_length : length encoded_image = (Z.to_nat (blocks height) * (Z.to_nat (blocks width) * 8))%nat.
Proof.
  etransitivity; [apply (bind_length_const (fun y => encoded_row (y * 4)) (Z.to_nat (blocks width) * 8))|by rewrite length_seqZ].
  intros. apply encoded_row_length.
Qed.

End Encoding.


(** ** What is decoded *)

Lemma decode_subblock_length p c table lw second fl : length (decode_subblock p c table lw second fl) = length p.
Proof.
  unfold decode_subblock. generalize (seqZ 0 8). intros l. revert p. induction l as [|i l IH]; intros p; [done|].
  cbn [foldl]. rewrite IH. unfold decode_pixel, set_pixel. destruct (modify _ _) as [[??]?]. by rewrite !length_insert.
Qed.

Lemma decode_block_length d p : length (etc1_decode_block d p) = length p.
Proof. unfold etc1_decode_block, decode_words. destruct (base_colors _). by rewrite !decode_subblock_length. Qed.

(** What was in the block before does not matter. *)
Lemma decode_block_fresh d p q j :
  length p = 48%nat -> length q = 48%nat -> 0 <= j < 16 -> pixel (etc1_decode_block d p) j = pixel (etc1_decode_block d q) j.
Proof.
  intros Hp Hq Hj. unfold etc1_decode_block. destruct (base_colors (big_endian d 0)) as [c1 c2] eqn:E.
  by rewrite (decode_words_pixel _ _ c1 c2 p j Hp Hj E), (decode_words_pixel _ _ c1 c2 q j Hq Hj E).
Qed.

(** The bytes of a pixel. *)
Definition pixel_bytes (pixelSize : Z) (c : rgb) : list Z :=
  let '(r, g, b) := c in
  if pixelSize =? 3 then [r; g; b]
  else
    let pixel := Z.lor (Z.lor (Z.shiftl (Z.shiftr r 3) 11) (Z.shiftl (Z.shiftr g 2) 5)) (Z.shiftr b 3) in
    [u8 pixel; u8 (Z.shiftr pixel 8)].

(** The colour of a pixel of an encoded image: one of those of the block that it is in. *)
Definition decoded_pixel (pIn : list Z) (width x y : Z) : rgb :=
  let d := slice pIn (Z.to_nat (8 * (y / 4 * blocks width + x / 4))) 8 in
  pixel (etc1_decode_block d (replicate 48 0)) (x `mod` 4 + 4 * (y `mod` 4)).

(** The byte [k] of the image after it is decoded: one of a pixel, or what it was. *)
Definition decoded_byte (pIn pOut : list Z) (width height pixelSize stride k : Z) : Z :=
  let x := k `mod` stride / pixelSize in
  let y := k / stride in
  if (k `mod` stride <? pixelSize * width) && (y <? height) then
    pixel_bytes pixelSize (decoded_pixel pIn width x y) !!! Z.to_nat ((k `mod` stride) `mod` pixelSize)
  else pOut !!! Z.to_nat k.

Section Decoding.
Variables (pIn pOut : list Z) (width height pixelSize stride : Z).
Hypothesis Hps : pixelSize = 2 \/ pixelSize = 3.
Hypothesis Hw : 0 <= width < 2 ^ 32 - 3.
Hypothesis Hh : 0 <= height < 2 ^ 32 - 3.
Hypothesis Hstride : pixelSize * width <= stride.
Hypothesis Hrow : pixelSize * width < 2 ^ 32.
Hypothesis Hrows : stride * height < 2 ^ 32.
Hypothesis Hin : 8 * (blocks height * blocks width) <= Z.of_nat (length pIn).
Hypothesis Hfit : 0 < width -> 0 < height -> stride * (height - 1) + pixelSize * width <= Z.of_nat (length pOut).

(** The pixels for which [D] holds are decoded. *)
Definition painted (D : Z -> Z -> Prop) (out : list Z) : Prop :=
  length out = length pOut /\
  forall k, 0 <= k < Z.of_nat (length pOut) ->
    let inside := k `mod` stride < pixelSize * width /\ k / stride < height /\ D (k `mod` stride / pixelSize) (k / stride) in
    (inside -> out !!! Z.to_nat k = decoded_byte pIn pOut width height pixelSize stride k) /\
    (~ inside -> out !!! Z.to_nat k = pOut !!! Z.to_nat k).

Lemma painted_ext D D' out :
  (forall x y, 0 <= x < width -> 0 <= y < height -> D x y <-> D' x y) -> painted D out -> painted D' out.
Proof.
  intros HD [Hl H]. split; [done|]. intros k Hk. specialize (H k Hk). cbv zeta in *. destruct H as [H1 H2].
  destruct (decide (0 < stride)) as [Hs|]; [|split; [intros (? & ? & ?); exfalso|intros _; apply H2; intros (?&?&?)];
    assert (stride = 0 \/ stride < 0) as [->|] by lia; rewrite ?Z.mod_0_r in *; nia].
  pose proof (Z.mod_pos_bound k stride Hs). assert (0 <= k / stride) by (by apply Z.div_pos; lia).
  assert (Hx : k `mod` stride < pixelSize * width -> 0 <= k `mod` stride / pixelSize < width).
  { intros. destruct Hps as [-> | ->]; euclid. }
  split.
  - intros (Ha & Hb & Hc). apply H1. split; [done|]. split; [done|]. apply HD; [by apply Hx|lia|done].
  - intros Hn. apply H2. intros (Ha & Hb & Hc). apply Hn. split; [done|]. split; [done|]. apply HD; [by apply Hx|lia|done].
Qed.

(** Some pixels of a row are written. *)
Lemma paint_row D out x y n src :
  0 <= x -> 0 < n -> x + n <= width -> 0 <= y < height -> painted D out -> length src = Z.to_nat (pixelSize * n) ->
  (forall t, 0 <= t < pixelSize * n ->
     src !!! Z.to_nat t = pixel_bytes pixelSize (decoded_pixel pIn width (x + t / pixelSize) y) !!! Z.to_nat (t `mod` pixelSize)) ->
  exists out', write_block out (pixelSize * x + stride * y) src = Ok out' /\
    painted (fun X Y => D X Y \/ Y = y /\ x <= X < x + n) out'.
Proof.
  intros Hx Hn Hxn Hy [Hl H] Hs Hsrc. assert (Hst : 0 < stride) by nia.
  assert (Hy1 : stride * y <= stride * (height - 1)) by nia. assert (Hx1 : pixelSize * (x + n) <= pixelSize * width) by nia.
  specialize (Hfit ltac:(lia) ltac:(lia)). assert (H0 : 0 <= pixelSize * x /\ 0 <= stride * y /\ 0 <= pixelSize * n) by nia.
  destruct (write_block_total out src (pixelSize * x + stride * y)) as (out' & E & Hl' & Hk'); [lia|lia|].
  exists out'. split; [done|]. split; [lia|]. intros k Hk. cbv zeta. specialize (H k Hk). cbv zeta in H. destruct H as [H1 H2].
  pose proof (Z.mod_pos_bound k stride Hst) as Hm. pose proof (Z.div_mod k stride ltac:(lia)) as Hdm.
  rewrite Hk', Hs. set (r := k `mod` stride) in *. set (q := k / stride) in *.
  destruct (decide (q = y /\ pixelSize * x <= r < pixelSize * (x + n))) as [[Eq Hr]|Hno].
  - rewrite bool_decide_true by lia.
    assert (Ex : r / pixelSize = x + (r - pixelSize * x) / pixelSize) by (destruct Hps as [-> | ->]; euclid).
    assert (Em : r `mod` pixelSize = (r - pixelSize * x) `mod` pixelSize) by (destruct Hps as [-> | ->]; euclid).
    assert (Hxr : x <= r / pixelSize < x + n) by (destruct Hps as [-> | ->]; euclid).
    replace (Z.to_nat k - Z.to_nat (pixelSize * x + stride * y))%nat with (Z.to_nat (r - pixelSize * x)) by lia.
    rewrite Hsrc by lia. rewrite <-Ex, <-Em. split.
    + intros _. unfold decoded_byte. fold r q. rewrite (proj2 (andb_true_iff _ _)) by lia. by rewrite Eq.
    + intros Hn'. exfalso. apply Hn'. split_and!; [lia|lia|]. right. lia.
  - rewrite bool_decide_false.
    2:{ intros Hb. apply Hno. assert (q = y) by (symmetry; apply (Z.div_unique_pos k stride y (k - stride * y)); lia). subst y. split; [done|]. lia. }
    split.
    + intros (Ha & Hb & [Hc|[-> Hc]]); [by apply H1|]. exfalso. apply Hno. split; [done|]. destruct Hps as [-> | ->]; euclid.
    + intros Hn'. apply H2. intros (Ha & Hb & Hc). apply Hn'. auto.
Qed.

(** [block] has the pixels of the image from ([x], [y]) on. *)
Definition block_of (x y : Z) (block : list Z) : Prop :=
  forall cx cy, 0 <= cx < 4 -> 0 <= cy < 4 -> pixel block (cx + 4 * cy) = decoded_pixel pIn width (x + cx) (y + cy).

Lemma offset_ok x y : 0 <= x <= width -> 0 <= y < height -> pixel_offset pixelSize stride x y = pixelSize * x + stride * y.
Proof. intros Hx Hy. unfold pixel_offset. rewrite !u32_small by nia. done. Qed.

Lemma store_row_ok D x y xEnd cy block out :
  length block = 48%nat -> block_of x y block -> 0 <= x -> 1 <= xEnd <= 4 -> x + xEnd <= width -> 0 <= y -> 0 <= cy < 4 -> y + cy < height ->
  painted D out ->
  exists out', store_row block pixelSize stride x y xEnd out cy = Ok out' /\
    painted (fun X Y => D X Y \/ Y = y + cy /\ x <= X < x + xEnd) out'.
Proof.
  intros Hb Hbl Hx Hx4 Hxw Hy Hcy Hyh Hp. unfold store_row. rewrite (u32_small (y + cy)) by lia. rewrite offset_ok by lia.
  destruct (Z.eqb_spec pixelSize 3) as [H3|H3].
  - destruct (read_block_total block (cy * 4 * 3) (xEnd * 3)) as (d & -> & Hld & Hk); [lia|lia|lia|]. cbn [mbind result_bind].
    apply paint_row; [lia|lia|lia|lia|done|by rewrite Hld, H3, Z.mul_comm|].
    intros t Ht. rewrite H3 in *. assert (Hcx : 0 <= t / 3 < 4) by euclid. rewrite <-Hbl by done. rewrite Hk by lia.
    unfold pixel, pixel_bytes. cbn [Z.eqb Pos.eqb]. pose proof (Z.mod_pos_bound t 3 ltac:(lia)) as Hm.
    pose proof (Z.div_mod t 3 ltac:(lia)) as Hdm. set (m := t `mod` 3) in *. set (c := t / 3) in *.
    assert (m = 0 \/ m = 1 \/ m = 2) as [-> | [-> | ->]] by lia.
    + change (Z.to_nat 0) with 0%nat. cbn. f_equal. lia.
    + change (Z.to_nat 1) with 1%nat. cbn. f_equal. lia.
    + change (Z.to_nat 2) with 2%nat. cbn. f_equal. lia.
  - assert (H2 : pixelSize = 2) by lia.
    destruct (foldM_seqZ (store_565 block (pixelSize * x + stride * (y + cy)) (cy * 4 * 3))
               (fun cx => painted (fun X Y => D X Y \/ Y = y + cy /\ x <= X < x + cx)) 0 xEnd out) as (out' & E & Hp').
    + lia.
    + apply (painted_ext D); [|done]. intros X Y _ _. split; [by left|]. intros [?|?]; [done|lia].
    + intros cx s Hcx Hs. unfold store_565.
      destruct (read_block_total block (cy * 4 * 3 + cx * 3) 3) as (d & -> & Hld & Hk); [lia|lia|lia|]. cbn [mbind result_bind].
      replace (pixelSize * x + stride * (y + cy) + cx * 2) with (pixelSize * (x + cx) + stride * (y + cy)) by (rewrite H2; lia).
      match goal with |- context [write_block s _ ?src] =>
        destruct (paint_row _ s (x + cx) (y + cy) 1 src ltac:(lia) ltac:(lia) ltac:(lia) ltac:(lia) Hs) as (s' & -> & Hs') end.
      * by rewrite H2.
      * intros t Ht. rewrite H2 in Ht |- *. replace (t / 2) with 0 by euclid. replace (t `mod` 2) with t by euclid.
        rewrite Z.add_0_r, <-Hbl by lia. rewrite !Hk by lia. unfold pixel, pixel_bytes. cbn [Z.eqb Pos.eqb].
        rewrite Nat.add_0_r. replace (Z.to_nat ((cx + 4 * cy) * 3)) with (Z.to_nat (cy * 4 * 3 + cx * 3)) by lia. done.
      * exists s'. split; [done|]. revert Hs'. apply painted_ext. intros X Y _ _.
        assert (Y = y + cy /\ x <= X < x + cx \/ Y = y + cy /\ x + cx <= X < x + cx + 1 <-> Y = y + cy /\ x <= X < x + (cx + 1)) by lia. tauto.
    + exists out'. split; [done|]. revert Hp'. by rewrite Z.add_0_l.
Qed.

(** All pixels before the block ([bx], [by_]). *)
Definition before (bx by_ X Y : Z) : Prop := Y < by_ * 4 \/ Y < by_ * 4 + 4 /\ X < bx * 4.

(** The state of the loops before that block. *)
Definition progress (bx by_ : Z) (st : list Z * list Z * Z) : Prop :=
  let '(block, out, pos) := st in
  length block = 48%nat /\ pos = 8 * (by_ * blocks width + bx) /\ painted (before bx by_) out.

Lemma decode_at_ok bx by_ st :
  0 <= bx < blocks width -> 0 <= by_ < blocks height -> progress bx by_ st ->
  exists st', decode_at pIn width height pixelSize stride (by_ * 4) st (bx * 4) = Ok st' /\ progress (bx + 1) by_ st'.
Proof.
  destruct st as [[block out] pos]. intros Hbx Hby (Hl & -> & Hp). unfold decode_at.
  destruct (block_end_min width bx) as [Ex Hxr]; [done|lia|lia|]. destruct (block_end_min height by_) as [Ey Hyr]; [done|lia|lia|].
  set (xe := block_end width (bx * 4)) in *. set (ye := block_end height (by_ * 4)) in *.
  assert (Hpos : 0 <= 8 * (by_ * blocks width + bx) /\ 8 * (by_ * blocks width + bx) + 8 <= Z.of_nat (length pIn)) by nia.
  unfold read_block, ETC1_ENCODED_BLOCK_SIZE. rewrite decide_True by lia. cbn [mbind result_bind].
  change (Z.to_nat 8) with 8%nat. set (d := slice pIn _ 8). set (block' := etc1_decode_block d block).
  assert (Hl' : length block' = 48%nat) by (unfold block'; by rewrite decode_block_length).
  assert (Hbl : block_of (bx * 4) (by_ * 4) block').
  { intros cx cy Hcx Hcy. unfold decoded_pixel, block'. replace ((by_ * 4 + cy) / 4) with by_ by euclid.
    replace ((bx * 4 + cx) / 4) with bx by euclid. replace ((bx * 4 + cx) `mod` 4) with cx by euclid.
    replace ((by_ * 4 + cy) `mod` 4) with cy by euclid. fold d. apply decode_block_fresh; [done|done|lia]. }
  clearbody block'.
  destruct (foldM_seqZ (store_row block' pixelSize stride (bx * 4) (by_ * 4) xe)
             (fun cy => painted (fun X Y => before bx by_ X Y \/ by_ * 4 <= Y < by_ * 4 + cy /\ bx * 4 <= X < bx * 4 + xe)) 0 ye out)
    as (out' & -> & Hp').
  - lia.
  - revert Hp. apply painted_ext. intros X Y _ _. unfold before. lia.
  - intros cy s Hcy Hs. match type of Hs with painted ?D _ =>
      destruct (store_row_ok D (bx * 4) (by_ * 4) xe cy block' s Hl' Hbl) as (s' & E & Hs'); [lia..|done|] end.
    exists s'. split; [done|]. revert Hs'. apply painted_ext. intros X Y _ _. unfold before. lia.
  - cbn [mbind result_bind]. eexists. split; [reflexivity|]. split; [done|]. split; [lia|].
    revert Hp'. apply painted_ext. intros X Y HX HY. unfold before. lia.
Qed.

Lemma decode_rows_ok st :
  progress 0 0 st ->
  exists block out pos, foldM (fun st y => foldM (decode_at pIn width height pixelSize stride y) st (by4 (round4 width))) st (by4 (round4 height))
    = Ok (block, out, pos) /\ painted (fun _ _ => True) out.
Proof.
  intros Hst. rewrite !by4_round4, foldM_fmap by lia. fold (blocks width) (blocks height).
  assert (Hbw : 0 <= blocks width) by (unfold blocks; euclid). assert (Hbh : 0 <= blocks height) by (unfold blocks; euclid).
  destruct (foldM_seqZ (fun st y => foldM (decode_at pIn width height pixelSize stride (y * 4)) st ((fun i => i * 4) <$> seqZ 0 (blocks width)))
             (progress 0) 0 (blocks height) st Hbh Hst) as ([[block out] pos] & E & _ & _ & Hp).
  - intros y s Hy Hs. rewrite foldM_fmap.
    destruct (foldM_seqZ (fun s x => decode_at pIn width height pixelSize stride (y * 4) s (x * 4)) (fun bx => progress bx y)
               0 (blocks width) s Hbw Hs) as ([[block out] pos] & E & Hl & -> & Hp).
    + intros x s' Hx Hs'. apply decode_at_ok; [lia|lia|done].
    + eexists. split; [exact E|]. split; [done|]. split; [lia|]. revert Hp. apply painted_ext. intros X Y HX HY.
      unfold before, blocks. assert (X < 4 * ((width + 3) / 4)) by euclid. lia.
  - exists block, out, pos. split; [done|]. revert Hp. apply painted_ext. intros X Y HX HY.
    unfold before, blocks. assert (Y < 4 * ((height + 3) / 4)) by euclid. lia.
Qed.

End Decoding.


(** ** PKM headers, there and back *)

Lemma be16 z : Z.lor (Z.shiftl (u8 (Z.shiftr z 8)) 8) (u8 z) = z `mod` 2 ^ 16.
Proof. unfold u8. rewrite Z.shiftr_div_pow2 by lia. rewrite lor_low by euclid. change (2 ^ 8) with 256. change (2 ^ 16) with 65536. euclid. Qed.

(** The bytes of a header. *)
Definition header_bytes (width height : Z) : list Z :=
  let be z := [u8 (Z.shiftr z 8); u8 z] in
  kMagic ++ [0; 0] ++ be (round4 width) ++ be (round4 height) ++ be width ++ be height.

Lemma format_header_bytes pHeader width height :
  length pHeader = 16%nat -> etc1_pkm_format_header pHeader width height = Ok (header_bytes width height).
Proof. intros Hl. do 16 (destruct pHeader as [|? pHeader]; [done|]). destruct pHeader; [reflexivity|done]. Qed.

Lemma header_valid width height :
  etc1_pkm_is_valid (header_bytes width height) =
  Ok ((width `mod` 2 ^ 16 <=? round4 width `mod` 2 ^ 16) && (u32 (round4 width `mod` 2 ^ 16 - width `mod` 2 ^ 16) <? 4) &&
      (height `mod` 2 ^ 16 <=? round4 height `mod` 2 ^ 16) && (u32 (round4 height `mod` 2 ^ 16 - height `mod` 2 ^ 16) <? 4)).
Proof. rewrite <-!be16. reflexivity. Qed.

Lemma encoded_fits z :
  0 <= z < 2 ^ 32 ->
  (z `mod` 2 ^ 16 <=? round4 z `mod` 2 ^ 16) && (u32 (round4 z `mod` 2 ^ 16 - z `mod` 2 ^ 16) <? 4) = (z `mod` 2 ^ 16 <=? 65532).
Proof.
  intros Hz. assert (E : round4 z = u32 (z + 3) / 4 * 4) by (unfold round4; by rewrite land_lnot_3).
  assert (Hr : z `mod` 2 ^ 16 <= 65532 /\ round4 z `mod` 2 ^ 16 = (z `mod` 2 ^ 16 + 3) / 4 * 4 \/
               65532 < z `mod` 2 ^ 16 /\ round4 z `mod` 2 ^ 16 = 0).
  { rewrite E. unfold u32. change (2 ^ 32) with 4294967296 in *. change (2 ^ 16) with 65536. euclid. }
  destruct Hr as [[Hb ->] | [Hb ->]].
  - set (m := z `mod` 2 ^ 16) in *. assert (0 <= (m + 3) / 4 * 4 - m < 4) by euclid. rewrite u32_small by lia. lia.
  - lia.
Qed.

(** A PKM header is valid exactly when its sizes are at most 65532: the header of
    any width and height is written whole, [etc1_pkm_is_valid] accepts it if, and
    only if, the lower halves of both round up within 16 bits, and these halves are
    what is read back; so all sizes up to 65532 are there again, and 65533 to 65535,
    which fit the fields, give a header that is refused. *)
Theorem pkm_header_roundtrip pHeader width height :
  length pHeader = 16%nat -> 0 <= width < 2 ^ 32 -> 0 <= height < 2 ^ 32 ->
  exists h, etc1_pkm_format_header pHeader width height = Ok h /\ length h = 16%nat /\
    etc1_pkm_is_valid h = Ok ((width `mod` 2 ^ 16 <=? 65532) && (height `mod` 2 ^ 16 <=? 65532)) /\
    etc1_pkm_get_width h = Ok (width `mod` 2 ^ 16) /\ etc1_pkm_get_height h = Ok (height `mod` 2 ^ 16).
Proof.
  intros Hl Hw Hh. exists (header_bytes width height). split; [by apply format_header_bytes|]. split; [done|].
  rewrite header_valid, <-andb_assoc, !encoded_fits by done. split; [done|]. rewrite <-!be16. done.
Qed.

Example pkm_header_roundtrip_witness :
  exists h, etc1_pkm_format_header (replicate 16 0) 65533 1080 = Ok h /\ length h = 16%nat /\
    etc1_pkm_is_valid h = Ok false /\ etc1_pkm_get_width h = Ok 65533 /\ etc1_pkm_get_height h = Ok 1080.
Proof. apply (pkm_header_roundtrip (replicate 16 0) 65533 1080); [reflexivity|lia|lia]. Defined.

(** *** A concrete image: 5 by 3 pixels of 3 bytes, in rows of 16 *)

Definition demo_image : list Z := (fun i => (i * 7) `mod` 256) <$> seqZ 0 47.


Definition demo_encoded : list Z :=
  match etc1_encode_image demo_image 5 3 3 16 (replicate 16 9) (replicate 48 0) with Ok (_, e) => e | Err _ => [] end.


(** The bytes between the rows, and after the last, are left. *)
Example demo_gaps :
  match etc1_decode_image demo_encoded (replicate 50 9) 5 3 3 16 (replicate 48 0) with
  | Ok (_, out) => (out !!! 15%nat, out !!! 31%nat, drop 47 out)
  | Err _ => (0, 0, [])
  end = (9, 9, [9; 9; 9]).
Proof. vm_compute. reflexivity. Qed.

(** A width near 2^32: the size that is promised is 0, so nothing is stored for it. *)
Example encoded_size_wraps : etc1_get_encoded_data_size 65536 65536 = 0 /\ etc1_get_encoded_data_size 4294967293 8 = 0.
Proof. vm_compute. done. Qed.
