(* ===== verification/VectorImpl.v ===== *)
(** * Vectors

    Models [src/libs/utils/VectorImpl.cpp] and [SharedBuffer.cpp], and the functions
    on elements of [src/include/utils/TypeHelpers.h]: vectors of elements of one type
    in counted blocks that copies of a vector share until one of them is changed.

    A block is a list of cells, each with an object or none, so that an element that
    is constructed twice or destroyed twice, or still there when its block is freed, is
    a fault.  [vectors_are_values]: for
    every sequence of operations each vector is the list that it should be, whatever
    it shares with others, and each block lives exactly while a vector uses it. *)
From stdpp Require Import sorting.
From S2P Require Import Prelude.
Local Open Scope Z_scope.

Definition NO_ERROR : Z := 0.
Definition NAME_NOT_FOUND : Z := -2.
Definition NO_MEMORY : Z := -12.
Definition BAD_VALUE : Z := -22.
Definition BAD_INDEX : Z := -75.

Definition kMinVectorCapacity : Z := 4.

Section Vectors.
(** The type of the elements: its size, its constructor without arguments, and its
    traits; [bits] is the width of [size_t]. *)
Context {A : Type} (new_item : A) (mItemSize sizeof_SharedBuffer bits : Z).
Context (trivial_ctor trivial_dtor trivial_copy trivial_move : bool).

Definition usize (z : Z) : Z := z mod 2 ^ bits.
Definition ssize (z : Z) : Z := (z + 2 ^ (bits - 1)) mod 2 ^ bits - 2 ^ (bits - 1).

(** ** Objects in cells *)

Abbreviation Cells := (list (option A)).

(** [new(p) TYPE(x)] *)
Definition construct (c : Cells) (i : nat) (x : A) : result Cells :=
  old ← from_option_or OutOfBounds (c !! i);
  match old with
  | Some _ => if trivial_dtor then Ok (<[i := Some x]> c) else Err DoubleConstruct
  | None => Ok (<[i := Some x]> c)
  end.

(** [*p = x] *)
Definition assign (c : Cells) (i : nat) (x : A) : result Cells := put c i (Some x).

Definition object_at (c : Cells) (i : nat) : result A :=
  o ← from_option_or OutOfBounds (c !! i); from_option_or Uninitialised o.

(** [p->~TYPE()] *)
Definition destroy (c : Cells) (i : nat) : result Cells :=
  old ← from_option_or OutOfBounds (c !! i);
  match old with Some _ => Ok (<[i := None]> c) | None => Err UseAfterFree end.

Definition destroy_type (c : Cells) (i n : nat) : result Cells :=
  if trivial_dtor then Ok c else foldM (fun c k => destroy c (i + k)) c (seq 0 n).

Definition construct_type (c : Cells) (i n : nat) : result Cells :=
  if trivial_ctor then Ok c else foldM (fun c k => construct c (i + k) new_item) c (seq 0 n).

(** Whether no object with a destructor is in the cells. *)
Definition vacant (c : Cells) : bool :=
  trivial_dtor || forallb (fun o => match o with None => true | Some _ => false end) c.

(** [memcpy] over an object forgets it, when it has a destructor. *)
Definition copy_type (c : Cells) (d : nat) (src : Cells) : result Cells :=
  if trivial_copy then
    room ← read_block c (Z.of_nat d) (Z.of_nat (length src));
    if vacant room then memcpy_at c d src else Err ObjectLost
  else foldM (fun c k => x ← object_at src k; construct c (d + k) x) c (seq 0 (length src)).

(** An object copied to another place and destroyed at its own. *)
Definition move_one (c : Cells) (d s : nat) : result Cells :=
  x ← object_at c s;
  c ← (if trivial_copy then assign c d x else construct c d x);
  if trivial_dtor then Ok c else destroy c s.

(** [memmove]: the objects live in the new place; where their types have destructors
    there must be none already. *)
Definition relocate (c : Cells) (d s n : nat) : result Cells :=
  objects ← read_block c (Z.of_nat s) (Z.of_nat n);
  if trivial_dtor then memcpy_at c d objects
  else
    rest ← memcpy_at c s (replicate n None);
    room ← read_block rest (Z.of_nat d) (Z.of_nat n);
    if forallb (fun o : option A => match o with None => true | Some _ => false end) room then memcpy_at rest d objects
    else Err DoubleConstruct.

Definition by_memmove : bool := (trivial_dtor && trivial_copy) || trivial_move.

Definition move_forward_type (c : Cells) (d s n : nat) : result Cells :=
  if by_memmove then relocate c d s n
  else foldM (fun c k => move_one c (d + (n - 1 - k)) (s + (n - 1 - k))) c (seq 0 n).

Definition move_backward_type (c : Cells) (d s n : nat) : result Cells :=
  if by_memmove then relocate c d s n
  else foldM (fun c k => move_one c (d + k) (s + k)) c (seq 0 n).

(** ** Shared buffers *)

Record SharedBuffer := mkBuffer { mRefs : Z; mSize : Z; cells : Cells }.

(** The blocks, the address of the next, and whether the next requests for memory
    succeed; after the last of the answers all do. *)
Record Heap := mkHeap { buffers : gmap Z SharedBuffer; fresh : Z; answers : list bool }.

Definition set_buffers (b : gmap Z SharedBuffer) (h : Heap) : Heap := mkHeap b (fresh h) (answers h).
Definition set_buffer (id : Z) (sb : SharedBuffer) (h : Heap) : Heap := set_buffers (<[id := sb]> (buffers h)) h.
Definition the_buffer (h : Heap) (id : Z) : result SharedBuffer := from_option_or UseAfterFree (buffers h !! id).

(** [malloc]: whether there is memory. *)
Definition has_memory (h : Heap) : bool * Heap :=
  match answers h with [] => (true, h) | b :: l => (b, mkHeap (buffers h) (fresh h) l) end.

(** The cells in a block of [size] bytes behind the header. *)
Definition room (size : Z) : nat := Z.to_nat ((usize (sizeof_SharedBuffer + size) - sizeof_SharedBuffer) / mItemSize).

Definition alloc (size : Z) (h : Heap) : option Z * Heap :=
  let '(ok, h) := has_memory h in
  if ok then (Some (fresh h), mkHeap (<[fresh h := mkBuffer 1 size (replicate (room size) None)]> (buffers h)) (fresh h + 1) (answers h))
  else (None, h).

(** [realloc] moves the block, as it may; an object in what is cut off is lost. *)
Definition realloc (id : Z) (sb : SharedBuffer) (size : Z) (h : Heap) : result (option Z * Heap) :=
  let '(ok, h) := has_memory h in
  if ok then
    let n := room size in
    let c := take n (cells sb) ++ replicate (n - length (cells sb)) None in
    if vacant (drop n (cells sb)) then
      Ok (Some (fresh h), mkHeap (<[fresh h := mkBuffer (mRefs sb) size c]> (delete id (buffers h))) (fresh h + 1) (answers h))
    else Err ObjectLost
  else Ok (None, h).

(** [free]: the objects of the block must have been destroyed. *)
Definition free_block (id : Z) (sb : SharedBuffer) (h : Heap) : result Heap :=
  if vacant (cells sb) then Ok (set_buffers (delete id (buffers h)) h) else Err ObjectLost.

Definition dealloc (id : Z) (h : Heap) : result (Z * Heap) :=
  sb ← the_buffer h id;
  if negb (mRefs sb =? 0) then Ok (-1, h) else h ← free_block id sb h; Ok (0, h).

Definition onlyOwner (sb : SharedBuffer) : bool := mRefs sb =? 1.

Definition acquire (id : Z) (h : Heap) : result Heap :=
  sb ← the_buffer h id; Ok (set_buffer id (mkBuffer (s32 (mRefs sb + 1)) (mSize sb) (cells sb)) h).

(** The count before; [keep] is [eKeepStorage]. *)
Definition release (id : Z) (keep : bool) (h : Heap) : result (Z * Heap) :=
  sb ← the_buffer h id;
  let prev := if onlyOwner sb then 1 else mRefs sb in
  if prev =? 1 then
    if keep then Ok (prev, set_buffer id (mkBuffer 0 (mSize sb) (cells sb)) h)
    else h ← free_block id sb h; Ok (prev, h)
  else Ok (prev, set_buffer id (mkBuffer (s32 (prev - 1)) (mSize sb) (cells sb)) h).

Definition attemptEdit (id : Z) (h : Heap) : result (option Z) :=
  sb ← the_buffer h id; Ok (if onlyOwner sb then Some id else None).

(** A change of the cells of a block. *)
Definition edit_cells (h : Heap) (id : Z) (f : Cells -> result Cells) : result Heap :=
  sb ← the_buffer h id; c ← f (cells sb); Ok (set_buffer id (mkBuffer (mRefs sb) (mSize sb) c) h).

(** The part of [editResize] after it could not use its own block. *)
Definition copy_resized (id newSize : Z) (sb : SharedBuffer) (h : Heap) : result (option Z * Heap) :=
  match alloc newSize h with
  | (None, h) => Ok (None, h)
  | (Some id', h) =>
      let n := (if newSize <? mSize sb then newSize else mSize sb) / mItemSize in
      h ← edit_cells h id' (fun c => memcpy_at c 0 (take (Z.to_nat n) (cells sb)));
      '(_, h) ← release id false h;
      Ok (Some id', h)
  end.

Definition editResize (id newSize : Z) (h : Heap) : result (option Z * Heap) :=
  sb ← the_buffer h id;
  if onlyOwner sb then
    if mSize sb =? newSize then Ok (Some id, h)
    else
      '(moved, h) ← realloc id sb newSize h;
      match moved with
      | Some id' => Ok (Some id', h)
      | None => copy_resized id newSize sb h
      end
  else copy_resized id newSize sb h.

(** A block to be written, with the same contents. *)
Definition edit (id : Z) (h : Heap) : result (option Z * Heap) :=
  sb ← the_buffer h id;
  if onlyOwner sb then Ok (Some id, h)
  else
    match alloc (mSize sb) h with
    | (None, h) => Ok (None, h)
    | (Some id', h) =>
        h ← edit_cells h id' (fun c => memcpy_at c 0 (take (Z.to_nat (mSize sb / mItemSize)) (cells sb)));
        '(_, h) ← release id false h;
        Ok (Some id', h)
    end.

Definition reset (id new_size : Z) (h : Heap) : result (option Z * Heap) :=
  match alloc new_size h with
  | (None, h) => Ok (None, h)
  | (Some id', h) => '(_, h) ← release id false h; Ok (Some id', h)
  end.

(** ** Vectors *)

Record VectorImpl := mkVector { mStorage : option Z; mCount : Z }.

Definition new_VectorImpl : VectorImpl := mkVector None 0.

(** Where elements are read from: the caller's, or a block. *)
Inductive source := Values (l : list A) | Stored (id : Z) (i : nat).

Definition read_cells (h : Heap) (src : source) (n : nat) : result Cells :=
  match src with
  | Values l => read_block (Some <$> l) 0 (Z.of_nat n)
  | Stored id i => sb ← the_buffer h id; read_block (cells sb) (Z.of_nat i) (Z.of_nat n)
  end.

Definition do_copy (h : Heap) (id : Z) (d : nat) (src : source) (n : nat) : result Heap :=
  objects ← read_cells h src n; edit_cells h id (fun c => copy_type c d objects).

(** A turn of [do_splat], which reads the item again. *)
Definition splat_turn (id : Z) (where_ : nat) (item : source) (h : Heap) (k : nat) : result Heap :=
  o ← read_cells h item 1;
  x ← object_at o 0;
  edit_cells h id (fun c => if trivial_copy then assign c (where_ + k) x else construct c (where_ + k) x).

Definition do_splat (h : Heap) (id : Z) (where_ : nat) (item : source) (n : nat) : result Heap :=
  foldM (splat_turn id where_ item) h (seq 0 n).

(** The copy constructor. *)
Definition copy_VectorImpl (rhs : VectorImpl) (h : Heap) : result (VectorImpl * Heap) :=
  match mStorage rhs with
  | None => Ok (mkVector None (mCount rhs), h)
  | Some id => h ← acquire id h; Ok (mkVector (Some id) (mCount rhs), h)
  end.

Definition capacity (v : VectorImpl) (h : Heap) : result Z :=
  match mStorage v with None => Ok 0 | Some id => sb ← the_buffer h id; Ok (mSize sb / mItemSize) end.

Definition release_storage (v : VectorImpl) (h : Heap) : result Heap :=
  match mStorage v with
  | None => Ok h
  | Some id =>
      '(prev, h) ← release id true h;
      if prev =? 1 then
        h ← edit_cells h id (fun c => destroy_type c 0 (Z.to_nat (mCount v)));
        '(_, h) ← dealloc id h; Ok h
      else Ok h
  end.

Definition finish_vector (v : VectorImpl) (h : Heap) : result (VectorImpl * Heap) :=
  h ← release_storage v h; Ok (mkVector None 0, h).

(** [operator=] for another vector. *)
Definition assign_VectorImpl (v rhs : VectorImpl) (h : Heap) : result (VectorImpl * Heap) :=
  h ← release_storage v h;
  if negb (mCount rhs =? 0) then
    match mStorage rhs with
    | None => Err NullDeref
    | Some id => h ← acquire id h; Ok (mkVector (Some id) (mCount rhs), h)
    end
  else Ok (mkVector None 0, h).

Definition editArrayImpl (v : VectorImpl) (h : Heap) : result (VectorImpl * Heap) :=
  match mStorage v with
  | None => Ok (v, h)
  | Some id =>
      mine ← attemptEdit id h;
      match mine with
      | Some _ => Ok (v, h)
      | None =>
          cap ← capacity v h;
          match alloc (usize (cap * mItemSize)) h with
          | (None, h) => Ok (v, h)
          | (Some id', h) =>
              h ← do_copy h id' 0 (Stored id 0) (Z.to_nat (mCount v));
              h ← release_storage v h;
              Ok (mkVector (Some id') (mCount v), h)
          end
      end
  end.

Definition max (a b : Z) : Z := if b <? a then a else b.

Definition flags_trivial : bool := trivial_copy && trivial_dtor.

(** A new block with the elements before [where_] and those from [from_] on, the
    latter at [to_]; nothing changes where there is no memory. *)
Definition new_storage (v : VectorImpl) (new_capacity where_ from_ to_ n : Z) (h : Heap) : result (VectorImpl * Heap) :=
  match alloc (usize (new_capacity * mItemSize)) h with
  | (None, h) => Ok (v, h)
  | (Some id', h) =>
      let from i := match mStorage v with Some id => Stored id i | None => Values [] end in
      h ← (if where_ =? 0 then Ok h else do_copy h id' 0 (from 0%nat) (Z.to_nat where_));
      h ← (if n =? 0 then Ok h else do_copy h id' (Z.to_nat to_) (from (Z.to_nat from_)) (Z.to_nat n));
      h ← release_storage v h;
      Ok (mkVector (Some id') (mCount v), h)
  end.

(** The storage resized in place; a method of NULL when there is no memory. *)
Definition resize_storage (v : VectorImpl) (new_capacity : Z) (h : Heap) : result (VectorImpl * Heap) :=
  match mStorage v with
  | None => Err NullDeref
  | Some id =>
      '(sb, h) ← editResize id (usize (new_capacity * mItemSize)) h;
      match sb with None => Err NullDeref | Some id' => Ok (mkVector (Some id') (mCount v), h) end
  end.

Definition edit_storage (v : VectorImpl) (h : Heap) (f : Cells -> result Cells) : result Heap :=
  match mStorage v with None => Err NullDeref | Some id => edit_cells h id f end.

Definition is_some_storage (v : VectorImpl) : bool := match mStorage v with Some _ => true | None => false end.

(** Where the free space is: the block, or NULL. *)
Definition grow_ (v : VectorImpl) (where_ amount : Z) (h : Heap) : result (option Z * VectorImpl * Heap) :=
  let new_size := usize (mCount v + amount) in
  cap ← capacity v h;
  '(v, h) ← (if cap <? new_size then
               let new_capacity := max kMinVectorCapacity (usize (usize (usize (new_size * 3) + 1) / 2)) in
               if is_some_storage v && (mCount v =? where_) && flags_trivial then resize_storage v new_capacity h
               else new_storage v new_capacity where_ where_ (where_ + amount) (mCount v - where_) h
             else
               '(v, h) ← editArrayImpl v h;
               if where_ =? mCount v then Ok (v, h)
               else
                 h ← edit_storage v h (fun c => move_forward_type c (Z.to_nat (where_ + amount)) (Z.to_nat where_) (Z.to_nat (mCount v - where_)));
                 Ok (v, h));
  Ok (mStorage v, mkVector (mStorage v) new_size, h).

Definition shrink_ (v : VectorImpl) (where_ amount : Z) (h : Heap) : result (VectorImpl * Heap) :=
  if negb (is_some_storage v) then Ok (v, h)
  else
    let new_size := usize (mCount v - amount) in
    cap ← capacity v h;
    '(v, h) ← (if usize (new_size * 3) <? cap then
                 let new_capacity := max kMinVectorCapacity (usize (new_size * 2)) in
                 if (where_ =? new_size) && flags_trivial then resize_storage v new_capacity h
                 else new_storage v new_capacity where_ (where_ + amount) where_ (new_size - where_) h
               else
                 '(v, h) ← editArrayImpl v h;
                 h ← edit_storage v h (fun c => destroy_type c (Z.to_nat where_) (Z.to_nat amount));
                 if where_ =? new_size then Ok (v, h)
                 else
                   h ← edit_storage v h (fun c => move_backward_type c (Z.to_nat where_) (Z.to_nat (where_ + amount)) (Z.to_nat (new_size - where_)));
                   Ok (v, h));
    Ok (mkVector (mStorage v) new_size, h).

(** *** The operations: what is returned, the vector, the blocks *)

Definition insertArrayAt (v : VectorImpl) (array : source) (index length : Z) (h : Heap) : result (Z * VectorImpl * Heap) :=
  if mCount v <? index then Ok (BAD_INDEX, v, h)
  else
    '(where_, v, h) ← grow_ v index length h;
    match where_ with
    | Some id => h ← do_copy h id (Z.to_nat index) array (Z.to_nat length); Ok (index, v, h)
    | None => Ok (NO_MEMORY, v, h)
    end.

Definition array_of (v : VectorImpl) : source := match mStorage v with Some id => Stored id 0 | None => Values [] end.

Definition insertVectorAt (v vector : VectorImpl) (index : Z) (h : Heap) : result (Z * VectorImpl * Heap) :=
  insertArrayAt v (array_of vector) index (mCount vector) h.

Definition appendVector (v vector : VectorImpl) (h : Heap) : result (Z * VectorImpl * Heap) := insertVectorAt v vector (mCount v) h.

Definition appendArray (v : VectorImpl) (array : source) (length : Z) (h : Heap) : result (Z * VectorImpl * Heap) :=
  insertArrayAt v array (mCount v) length h.

Definition insertAt (v : VectorImpl) (item : option source) (index numItems : Z) (h : Heap) : result (Z * VectorImpl * Heap) :=
  if mCount v <? index then Ok (BAD_INDEX, v, h)
  else
    '(where_, v, h) ← grow_ v index numItems h;
    match where_ with
    | Some id =>
        h ← (match item with
             | Some x => do_splat h id (Z.to_nat index) x (Z.to_nat numItems)
             | None => edit_cells h id (fun c => construct_type c (Z.to_nat index) (Z.to_nat numItems))
             end);
        Ok (index, v, h)
    | None => Ok (NO_MEMORY, v, h)
    end.

Definition add (v : VectorImpl) (item : option source) (h : Heap) : result (Z * VectorImpl * Heap) :=
  insertAt v item (mCount v) 1 h.

Definition push (v : VectorImpl) (item : option source) (h : Heap) : result (VectorImpl * Heap) :=
  '(_, v, h) ← insertAt v item (mCount v) 1 h; Ok (v, h).

Definition removeItemsAt (v : VectorImpl) (index count : Z) (h : Heap) : result (Z * VectorImpl * Heap) :=
  if mCount v <? usize (index + count) then Ok (BAD_VALUE, v, h)
  else '(v, h) ← shrink_ v index count h; Ok (index, v, h).

Definition pop (v : VectorImpl) (h : Heap) : result (VectorImpl * Heap) :=
  if mCount v =? 0 then Ok (v, h)
  else '(_, v, h) ← removeItemsAt v (mCount v - 1) 1 h; Ok (v, h).

Definition clear (v : VectorImpl) (h : Heap) : result (VectorImpl * Heap) := shrink_ v 0 (mCount v) h.

(** [item != prototype] *)
Definition same_place (where_ : option Z) (index : Z) (item : option source) : bool :=
  match where_, item with
  | None, None => true
  | Some id, Some (Stored id' i) => (id =? id') && (index =? Z.of_nat i)
  | _, _ => false
  end.

Definition replaceAt (v : VectorImpl) (prototype : option source) (index : Z) (h : Heap) : result (Z * VectorImpl * Heap) :=
  '(v, h) ← editArrayImpl v h;
  if same_place (mStorage v) index prototype then Ok (index, v, h)
  else
    match mStorage v with
    | None => Ok (NO_MEMORY, v, h)
    | Some id =>
        h ← edit_cells h id (fun c => destroy_type c (Z.to_nat index) 1);
        h ← (match prototype with
             | None => edit_cells h id (fun c => construct_type c (Z.to_nat index) 1)
             | Some src => do_copy h id (Z.to_nat index) src 1
             end);
        Ok (index, v, h)
    end.

Definition setCapacity (v : VectorImpl) (new_capacity : Z) (h : Heap) : result (Z * VectorImpl * Heap) :=
  current_capacity ← capacity v h;
  if ssize (new_capacity - mCount v) <=? 0 then Ok (current_capacity, v, h)
  else
    match alloc (usize (new_capacity * mItemSize)) h with
    | (None, h) => Ok (NO_MEMORY, v, h)
    | (Some id', h) =>
        h ← do_copy h id' 0 (array_of v) (Z.to_nat (mCount v));
        h ← release_storage v h;
        Ok (new_capacity, mkVector (Some id') (mCount v), h)
    end.

(** *** Sorting *)

Section Sort.
Context (cmp : A -> A -> Z).

(** The loop that makes room, down from [j]: where it stops. *)
Fixpoint shift_up (c : Cells) (temp : A) (next : nat) (fuel : nat) : result (Cells * nat) :=
  match fuel with
  | O => Err OutOfFuel
  | S fuel =>
      match next with
      | O => Err OutOfBounds
      | S curr =>
          c ← destroy_type c next 1;
          x ← object_at c curr;
          c ← copy_type c next [Some x];
          match curr with
          | O => Ok (c, O)
          | S j =>
              y ← object_at c j;
              if 0 <? cmp y temp then shift_up c temp curr fuel else Ok (c, curr)
          end
      end
  end.

(** What the first change needs: an array that may be written, and a block for the
    element that moves. *)
Definition prepare (temp_made : bool) (v : VectorImpl) (h : Heap) : result (bool * VectorImpl * Heap) :=
  if temp_made then Ok (true, v, h)
  else '(v, h) ← editArrayImpl v h; let '(ok, h) := has_memory h in Ok (ok, v, h).

(** A turn for the element [i], unless a turn before it returned. *)
Definition sort_turn (st : bool * option Z * VectorImpl * Heap) (i : nat) : result (bool * option Z * VectorImpl * Heap) :=
  let '(temp_made, returned, v, h) := st in
  match returned with
  | Some _ => Ok st
  | None =>
      id ← from_option_or NullDeref (mStorage v);
      sb ← the_buffer h id;
      item ← object_at (cells sb) i;
      curr ← object_at (cells sb) (i - 1);
      if 0 <? cmp curr item then
        '(ok, v, h) ← prepare temp_made v h;
        if negb ok then Ok (false, Some NO_MEMORY, v, h)
        else
          id ← from_option_or NullDeref (mStorage v);
          sb ← the_buffer h id;
          temp ← object_at (cells sb) i;
          '(c, next) ← shift_up (cells sb) temp i (S i);
          c ← destroy_type c next 1;
          c ← copy_type c next [Some temp];
          Ok (true, None, v, set_buffer id (mkBuffer (mRefs sb) (mSize sb) c) h)
      else Ok (temp_made, None, v, h)
  end.

Definition sort (v : VectorImpl) (h : Heap) : result (Z * VectorImpl * Heap) :=
  if 1 <? mCount v then
    '(_, returned, v, h) ← foldM sort_turn (false, None, v, h) (seq 1 (Z.to_nat (mCount v) - 1));
    Ok (match returned with Some e => e | None => NO_ERROR end, v, h)
  else Ok (NO_ERROR, v, h).

End Sort.

(** ** What cells hold *)

(** The elements, and behind them what types without destructors leave. *)
Definition junk_ok (junk : Cells) : Prop := trivial_dtor = false -> junk = replicate (length junk) None.

Lemma junk_ok_app a b : junk_ok (a ++ b) <-> junk_ok a /\ junk_ok b.
Proof.
  unfold junk_ok. rewrite length_app, replicate_add. split.
  - intros H. split; intros E; apply H in E; apply app_inj_1 in E as [E1 E2]; rewrite ?length_replicate; auto.
  - intros [Ha Hb] E. by rewrite <-(Ha E), <-(Hb E).
Qed.

Lemma junk_ok_nones n : junk_ok (replicate n None).
Proof. intros _. by rewrite length_replicate. Qed.

Lemma junk_vacant c : junk_ok c -> vacant c = true.
Proof.
  intros H. unfold vacant. destruct trivial_dtor eqn:E; [done|]. rewrite (H E). cbn [orb].
  induction (length c) as [|n IH]; [done|exact IH].
Qed.

Lemma junk_ok_nil : junk_ok [].
Proof. by intros _. Qed.

Lemma vi_construct_ok pre j post x :
  junk_ok [j] -> construct (pre ++ j :: post) (length pre) x = Ok (pre ++ Some x :: post).
Proof.
  intros Hj. unfold construct. rewrite list_lookup_middle by done. cbn [from_option_or mbind result_bind].
  destruct j as [y|]; [|by rewrite insert_app_r_alt, Nat.sub_diag by lia].
  destruct trivial_dtor eqn:E; [by rewrite insert_app_r_alt, Nat.sub_diag by lia|]. by specialize (Hj E).
Qed.

Lemma assign_ok pre j post x : assign (pre ++ j :: post) (length pre) x = Ok (pre ++ Some x :: post).
Proof.
  unfold assign, put. rewrite decide_True by (rewrite length_app; simpl; lia). by rewrite insert_app_r_alt, Nat.sub_diag by lia.
Qed.

Lemma object_at_ok pre x post : object_at (pre ++ Some x :: post) (length pre) = Ok x.
Proof. unfold object_at. by rewrite list_lookup_middle. Qed.

Lemma destroy_ok pre x post : destroy (pre ++ Some x :: post) (length pre) = Ok (pre ++ None :: post).
Proof.
  unfold destroy. rewrite list_lookup_middle by done. cbn [from_option_or mbind result_bind].
  by rewrite insert_app_r_alt, Nat.sub_diag by lia.
Qed.

(** What is left where elements were. *)
Definition ended (xs : list A) : Cells := if trivial_dtor then Some <$> xs else replicate (length xs) None.

Lemma ended_ok xs : junk_ok (ended xs).
Proof. unfold junk_ok, ended. destruct trivial_dtor; [done|]. intros _. by rewrite length_replicate. Qed.

Lemma ended_length xs : length (ended xs) = length xs.
Proof. unfold ended. destruct trivial_dtor; [by rewrite length_fmap|by rewrite length_replicate]. Qed.

Lemma destroy_type_ok pre xs post :
  destroy_type (pre ++ (Some <$> xs) ++ post) (length pre) (length xs) = Ok (pre ++ ended xs ++ post).
Proof.
  unfold destroy_type, ended. destruct trivial_dtor; [done|].
  assert (H : forall xs a p, (length pre + a = length p)%nat ->
    foldM (fun c k => destroy c (length pre + k)) (p ++ (Some <$> xs) ++ post) (seq a (length xs)) = Ok (p ++ replicate (length xs) None ++ post)).
  { clear xs. induction xs as [|x xs IH]; intros a p Hp; [done|]. cbn [length seq foldM fmap list_fmap app]. rewrite Hp, destroy_ok.
    cbn [mbind result_bind]. rewrite (cons_middle None), app_assoc, IH by (rewrite length_app; simpl; lia).
    cbn [replicate app]. by rewrite <-app_assoc. }
  apply H. lia.
Qed.

Lemma junk_ok_cons j junk : junk_ok (j :: junk) <-> junk_ok [j] /\ junk_ok junk.
Proof. apply (junk_ok_app [j] junk). Qed.

(** Objects put over junk, one by one. *)
Lemma put_loop {S} (step : S -> nat -> result S) (cells_of : Cells -> S) d post :
  forall xs junk p a,
  (forall p j q k x, (d + k = length p)%nat -> xs !! (k - a)%nat = Some x -> (a <= k)%nat -> junk_ok [j] ->
     step (cells_of (p ++ j :: q)) k = Ok (cells_of (p ++ Some x :: q))) ->
  length junk = length xs -> junk_ok junk -> (d + a = length p)%nat ->
  foldM step (cells_of (p ++ junk ++ post)) (seq a (length xs)) = Ok (cells_of (p ++ (Some <$> xs) ++ post)).
Proof.
  induction xs as [|x xs IH]; intros [|j junk] p a Hstep Hl Hj Hp; try done.
  apply junk_ok_cons in Hj as [Hj Hjs]. cbn [length seq foldM fmap list_fmap app].
  rewrite (Hstep p j _ a x) by (rewrite ?Nat.sub_diag; done). cbn [mbind result_bind].
  rewrite (cons_middle (Some x)), app_assoc, (IH junk) by first
    [by injection Hl|done|rewrite length_app; simpl; lia|
     intros p' j' q' k x' Hp' Hx Hk Hj'; apply Hstep; [done| |lia|done];
     replace (k - a)%nat with (Datatypes.S (k - Datatypes.S a)) by lia; done].
  by rewrite <-app_assoc.
Qed.

Lemma read_mid {X} (pre mid post : list X) i n :
  i = Z.of_nat (length pre) -> n = Z.of_nat (length mid) -> read_block (pre ++ mid ++ post) i n = Ok mid.
Proof.
  intros -> ->. unfold read_block. rewrite !length_app. rewrite decide_True by lia.
  unfold slice. by rewrite !Nat2Z.id, drop_app_length, take_app_length.
Qed.

Lemma copy_type_ok pre junk post xs :
  length junk = length xs -> junk_ok junk ->
  copy_type (pre ++ junk ++ post) (length pre) (Some <$> xs) = Ok (pre ++ (Some <$> xs) ++ post).
Proof.
  intros Hl Hj. unfold copy_type. destruct trivial_copy.
  - assert (Hr : read_block (pre ++ junk ++ post) (Z.of_nat (length pre)) (Z.of_nat (length (Some <$> xs))) = Ok junk)
      by (apply read_mid; [done|by rewrite length_fmap, Hl]).
    rewrite Hr. cbn [mbind result_bind]. rewrite junk_vacant by done.
    unfold memcpy_at. rewrite decide_True by (rewrite !length_app, length_fmap; lia). rewrite take_app_length, length_fmap.
    replace (length pre + length xs)%nat with (length (pre ++ junk)) by (rewrite length_app; lia). by rewrite (app_assoc pre junk), drop_app_length.
  - rewrite length_fmap. apply (put_loop _ id (length pre) post xs junk pre 0); [|done|done|lia].
    intros p j q k x Hp Hx _ Hj'. rewrite Nat.sub_0_r in Hx. unfold object_at. rewrite list_lookup_fmap, Hx. cbn. rewrite Hp.
    by apply vi_construct_ok.
Qed.

Lemma construct_type_ok pre junk post n :
  trivial_ctor = false -> length junk = n -> junk_ok junk ->
  construct_type (pre ++ junk ++ post) (length pre) n = Ok (pre ++ replicate n (Some new_item) ++ post).
Proof.
  intros Hc Hl Hj. unfold construct_type. rewrite Hc. rewrite <-(fmap_replicate Some n new_item).
  pose proof (length_replicate n new_item) as Hn. rewrite <-Hn at 1.
  apply (put_loop _ id (length pre) post (replicate n new_item) junk pre 0); [|lia|done|lia].
  intros p j q k x Hp Hx _ Hj'. apply lookup_replicate in Hx as [-> _]. rewrite Hp. by apply vi_construct_ok.
Qed.

(** *** Moves *)

Lemma move_up_ok p x mid j q :
  junk_ok [j] -> exists h, junk_ok [h] /\
    move_one (p ++ Some x :: mid ++ j :: q) (length p + 1 + length mid) (length p) = Ok (p ++ h :: mid ++ Some x :: q).
Proof.
  intros Hj. exists (if trivial_dtor then Some x else None). split; [intros E; by rewrite E|].
  unfold move_one. rewrite object_at_ok. cbn [mbind result_bind].
  assert (E : (p ++ Some x :: mid ++ j :: q) = ((p ++ Some x :: mid) ++ j :: q)) by (by rewrite <-app_assoc).
  assert (El : (length p + 1 + length mid)%nat = length (p ++ Some x :: mid)) by (rewrite length_app; simpl; lia).
  rewrite E, El. assert (Hp : (if trivial_copy then assign ((p ++ Some x :: mid) ++ j :: q) (length (p ++ Some x :: mid)) x
     else construct ((p ++ Some x :: mid) ++ j :: q) (length (p ++ Some x :: mid)) x) = Ok ((p ++ Some x :: mid) ++ Some x :: q)).
  { destruct trivial_copy; [by rewrite assign_ok|by apply vi_construct_ok]. }
  rewrite Hp. cbn [mbind result_bind]. rewrite <-app_assoc. cbn [app]. destruct trivial_dtor; [done|apply destroy_ok].
Qed.

Lemma move_down_ok p x mid j q :
  junk_ok [j] -> exists h, junk_ok [h] /\
    move_one (p ++ j :: mid ++ Some x :: q) (length p) (length p + 1 + length mid) = Ok (p ++ Some x :: mid ++ h :: q).
Proof.
  intros Hj. exists (if trivial_dtor then Some x else None). split; [intros E; by rewrite E|].
  unfold move_one. assert (E : (p ++ j :: mid ++ Some x :: q) = ((p ++ j :: mid) ++ Some x :: q)) by (by rewrite <-app_assoc).
  assert (El : (length p + 1 + length mid)%nat = length (p ++ j :: mid)) by (rewrite length_app; simpl; lia).
  rewrite E at 1. rewrite El at 1. rewrite object_at_ok. cbn [mbind result_bind].
  assert (Hp : (if trivial_copy then assign (p ++ j :: mid ++ Some x :: q) (length p) x
     else construct (p ++ j :: mid ++ Some x :: q) (length p) x) = Ok (p ++ Some x :: mid ++ Some x :: q)).
  { destruct trivial_copy; [by rewrite assign_ok|by apply vi_construct_ok]. }
  rewrite Hp. cbn [mbind result_bind]. destruct trivial_dtor; [done|].
  assert (E2 : (p ++ Some x :: mid ++ Some x :: q) = ((p ++ Some x :: mid) ++ Some x :: q)) by (by rewrite <-app_assoc).
  rewrite E2. replace (length p + 1 + length mid)%nat with (length (p ++ Some x :: mid)) by (rewrite length_app; simpl; lia).
  rewrite destroy_ok. by rewrite <-app_assoc.
Qed.

Lemma foldM_ext {S B} (f g : S -> B -> result S) l s :
  (forall s b, b ∈ l -> f s b = g s b) -> foldM f s l = foldM g s l.
Proof.
  revert s. induction l as [|b l IH]; intros s H; [done|]. cbn [foldM]. rewrite (H s b) by (by left).
  destruct (g s b); [|done]. cbn. apply IH. intros. apply H. by right.
Qed.

Lemma memcpy_mid {X} (pre mid post src : list X) :
  length mid = length src -> memcpy_at (pre ++ mid ++ post) (length pre) src = Ok (pre ++ src ++ post).
Proof.
  intros Hl. unfold memcpy_at. rewrite decide_True by (rewrite !length_app; lia). rewrite take_app_length.
  replace (length pre + length src)%nat with (length (pre ++ mid)) by (rewrite length_app; lia).
  by rewrite (app_assoc pre mid), drop_app_length.
Qed.

Lemma nones_all n : forallb (fun o : option A => match o with None => true | Some _ => false end) (replicate n None) = true.
Proof. induction n; done. Qed.

(** A block of cells, cut after [k]. *)
Lemma cut {X} (l : list X) k : (k <= length l)%nat -> exists a b, l = a ++ b /\ length a = k.
Proof. intros. exists (take k l), (drop k l). rewrite take_drop, length_take. split; [done|lia]. Qed.

Lemma nones_swap n k (q : Cells) : replicate n None ++ replicate k None ++ q = replicate k None ++ replicate n None ++ q.
Proof. by rewrite !app_assoc, <-!replicate_add, Nat.add_comm. Qed.

Lemma relocate_up pre xs gap post :
  junk_ok gap -> exists hole, junk_ok hole /\ length hole = length gap /\
    relocate (pre ++ (Some <$> xs) ++ gap ++ post) (length pre + length gap) (length pre) (length xs) = Ok (pre ++ hole ++ (Some <$> xs) ++ post).
Proof.
  intros Hj. unfold relocate. rewrite read_mid by first [done|by rewrite length_fmap]. cbn [mbind result_bind].
  destruct trivial_dtor eqn:Etd.
  - destruct (cut ((Some <$> xs) ++ gap) (length gap)) as (a & b & Eab & Ha); [rewrite length_app; lia|].
    assert (Hb : length b = length xs) by (apply (f_equal length) in Eab; rewrite !length_app, length_fmap in Eab; lia).
    exists a. split; [intros E; congruence|]. split; [done|]. rewrite (app_assoc (Some <$> xs)), Eab, <-Ha, <-length_app.
    rewrite <-(app_assoc a), !(app_assoc pre a). apply memcpy_mid. by rewrite length_fmap.
  - exists (replicate (length gap) None). split; [apply junk_ok_nones|]. split; [by rewrite length_replicate|].
    rewrite (Hj Etd), length_replicate. set (k := length gap). clearbody k.
    rewrite memcpy_mid by (by rewrite length_fmap, length_replicate). cbn [mbind result_bind]. rewrite nones_swap.
    replace (length pre + k)%nat with (length (pre ++ replicate k (@None A))) by (rewrite length_app, length_replicate; lia).
    rewrite !(app_assoc pre (replicate k None)). rewrite read_mid by first [done|by rewrite length_replicate].
    cbn [mbind result_bind]. rewrite nones_all. apply memcpy_mid. by rewrite length_fmap, length_replicate.
Qed.

Lemma relocate_down pre xs gap post :
  junk_ok gap -> exists hole, junk_ok hole /\ length hole = length gap /\
    relocate (pre ++ gap ++ (Some <$> xs) ++ post) (length pre) (length pre + length gap) (length xs) = Ok (pre ++ (Some <$> xs) ++ hole ++ post).
Proof.
  intros Hj. unfold relocate. rewrite (app_assoc pre gap), <-length_app. rewrite read_mid by first [done|by rewrite length_fmap].
  cbn [mbind result_bind]. destruct trivial_dtor eqn:Etd.
  - destruct (cut (gap ++ (Some <$> xs)) (length xs)) as (a & b & Eab & Ha); [rewrite length_app, length_fmap; lia|].
    assert (Hb : length b = length gap) by (apply (f_equal length) in Eab; rewrite !length_app, length_fmap in Eab; lia).
    exists b. split; [intros E; congruence|]. split; [done|]. rewrite <-(app_assoc pre gap), (app_assoc gap), Eab, <-(app_assoc a).
    apply memcpy_mid. by rewrite length_fmap.
  - exists (replicate (length gap) None). split; [apply junk_ok_nones|]. split; [by rewrite length_replicate|].
    rewrite memcpy_mid by (by rewrite length_fmap, length_replicate). cbn [mbind result_bind].
    rewrite (Hj Etd), length_replicate. set (k := length gap). clearbody k. rewrite <-(app_assoc pre), nones_swap.
    rewrite read_mid by first [done|by rewrite length_replicate].
    cbn [mbind result_bind]. rewrite nones_all. apply memcpy_mid. by rewrite length_fmap, length_replicate.
Qed.

Lemma moves_up pre k : forall xs gap post,
  length gap = k -> (0 < k)%nat -> junk_ok gap ->
  exists hole, junk_ok hole /\ length hole = k /\
    foldM (fun c i => move_one c (length pre + k + (length xs - 1 - i)) (length pre + (length xs - 1 - i)))
      (pre ++ (Some <$> xs) ++ gap ++ post) (seq 0 (length xs)) = Ok (pre ++ hole ++ (Some <$> xs) ++ post).
Proof.
  induction xs as [|x xs IH] using rev_ind; intros gap post Hk Hk0 Hj; [by exists gap|].
  destruct gap as [|g gap] using rev_ind; [simpl in Hk; lia|]. clear IHgap. apply junk_ok_app in Hj as [Hj Hj1].
  destruct (move_up_ok (pre ++ (Some <$> xs)) x gap g post Hj1) as (h & Hh & E).
  rewrite length_app in Hk. cbn [length] in Hk.
  destruct (IH (h :: gap) (Some x :: post)) as (hole & Hho & Hhl & E2); [simpl; lia|done|apply junk_ok_cons; done|].
  exists hole. split; [done|]. split; [done|]. rewrite length_app, Nat.add_1_r. cbn [seq foldM].
  replace (pre ++ (Some <$> xs ++ [x]) ++ (gap ++ [g]) ++ post) with ((pre ++ (Some <$> xs)) ++ Some x :: gap ++ g :: post)
    by (rewrite fmap_app; cbn; by rewrite <-!app_assoc).
  rewrite length_app, length_fmap in E.
  replace (length pre + k + (S (length xs) - 1 - 0))%nat with (length pre + length xs + 1 + length gap)%nat by lia.
  replace (length pre + (S (length xs) - 1 - 0))%nat with (length pre + length xs)%nat by lia.
  rewrite E. cbn [mbind result_bind]. rewrite <-fmap_S_seq, foldM_fmap.
  rewrite fmap_app, <-!app_assoc. cbn [app fmap list_fmap] in *. rewrite <-E2. apply foldM_ext. intros c i _.
  f_equal; lia.
Qed.

Lemma moves_down k : forall xs pre gap post,
  length gap = k -> (0 < k)%nat -> junk_ok gap ->
  exists hole, junk_ok hole /\ length hole = k /\
    foldM (fun c i => move_one c (length pre + i) (length pre + k + i))
      (pre ++ gap ++ (Some <$> xs) ++ post) (seq 0 (length xs)) = Ok (pre ++ (Some <$> xs) ++ hole ++ post).
Proof.
  induction xs as [|x xs IH]; intros pre gap post Hk Hk0 Hj; [by exists gap|].
  destruct gap as [|g gap]; [simpl in Hk; lia|]. apply junk_ok_cons in Hj as [Hj1 Hj].
  destruct (move_down_ok pre x gap g ((Some <$> xs) ++ post) Hj1) as (h & Hh & E). cbn [length] in Hk.
  destruct (IH (pre ++ [Some x]) (gap ++ [h]) post) as (hole & Hho & Hhl & E2); [rewrite length_app; simpl; lia|done|by apply junk_ok_app|].
  exists hole. split; [done|]. split; [done|]. cbn [length seq foldM fmap list_fmap app].
  replace (length pre + 0)%nat with (length pre) by lia. replace (length pre + k + 0)%nat with (length pre + 1 + length gap)%nat by lia.
  rewrite E. cbn [mbind result_bind]. rewrite <-fmap_S_seq, foldM_fmap. rewrite <-!app_assoc in E2. cbn [app] in E2. rewrite <-E2.
  apply foldM_ext. intros c i _. rewrite length_app. cbn [length]. f_equal; lia.
Qed.

(** Elements moved up, or down, by the width of a gap: where nothing moves, only
    [memmove] can do it. *)
Lemma move_forward_ok pre xs gap post d :
  junk_ok gap -> gap <> [] \/ by_memmove = true -> d = (length pre + length gap)%nat ->
  exists hole, junk_ok hole /\ length hole = length gap /\
    move_forward_type (pre ++ (Some <$> xs) ++ gap ++ post) d (length pre) (length xs) = Ok (pre ++ hole ++ (Some <$> xs) ++ post).
Proof.
  intros Hj Hg ->. unfold move_forward_type. destruct by_memmove; [by apply relocate_up|]. destruct Hg as [Hg|Hg]; [|done].
  apply moves_up; [done|destruct gap; [done|simpl; lia]|done].
Qed.

Lemma move_backward_ok pre xs gap post s :
  junk_ok gap -> gap <> [] \/ by_memmove = true -> s = (length pre + length gap)%nat ->
  exists hole, junk_ok hole /\ length hole = length gap /\
    move_backward_type (pre ++ gap ++ (Some <$> xs) ++ post) (length pre) s (length xs) = Ok (pre ++ (Some <$> xs) ++ hole ++ post).
Proof.
  intros Hj Hg ->. unfold move_backward_type. destruct by_memmove; [by apply relocate_down|]. destruct Hg as [Hg|Hg]; [|done].
  apply moves_down; [done|destruct gap; [done|simpl; lia]|done].
Qed.

(** ** The invariant *)

Context (Hitem : 0 < mItemSize) (Hheader : 0 <= sizeof_SharedBuffer) (Hbits : 0 < bits).

Definition holds (c : Cells) (l : list A) : Prop := exists junk, c = (Some <$> l) ++ junk /\ junk_ok junk.

Definition cells_at (h : Heap) (id : Z) : option Cells := cells <$> buffers h !! id.

(** The value of a vector. *)
Definition contents (h : Heap) (v : VectorImpl) : list A :=
  match mStorage v with
  | None => []
  | Some id => match cells_at h id with Some c => omap (fun o => o) (take (Z.to_nat (mCount v)) c) | None => [] end
  end.

Definition vec_ok (h : Heap) (v : VectorImpl) : Prop :=
  match mStorage v with
  | None => mCount v = 0
  | Some id => exists c l, cells_at h id = Some c /\ holds c l /\ mCount v = Z.of_nat (length l)
  end.

(** How many vectors use a block. *)
Definition users (id : Z) (vs : list VectorImpl) : nat := length (filter (fun v => mStorage v = Some id) vs).

Definition bytes_fit (size : Z) : Prop := 0 <= size /\ sizeof_SharedBuffer + size < 2 ^ bits.

(** A block, where [n] counts its users. *)
Definition buf_ok (sb : SharedBuffer) (n : nat) : Prop :=
  bytes_fit (mSize sb) /\ length (cells sb) = Z.to_nat (mSize sb / mItemSize) /\ mRefs sb = Z.of_nat n /\ (0 < n)%nat.

(** All vectors, and a block [p] that is being made for one. *)
Record HInv (h : Heap) (vs : list VectorImpl) (p : option Z) : Prop := {
  hi_vec : forall v, v ∈ vs -> vec_ok h v;
  hi_buf : forall id sb, buffers h !! id = Some sb -> id < fresh h /\ buf_ok sb (users id vs + if decide (p = Some id) then 1 else 0);
  hi_pending : forall id, p = Some id -> is_Some (buffers h !! id);
  hi_count : Z.of_nat (length vs) < 2 ^ 31 - 2;
  hi_memory : answers h = []
}.

(** The blocks in use have the same elements. *)
Definition frame (h h' : Heap) (vs : list VectorImpl) (p : option Z) : Prop :=
  forall id, p = Some id \/ (exists u, u ∈ vs /\ mStorage u = Some id) -> cells_at h' id = cells_at h id.

Lemma frame_refl h vs p : frame h h vs p.
Proof. by intros id. Qed.

Lemma frame_trans h1 h2 h3 vs p : frame h1 h2 vs p -> frame h2 h3 vs p -> frame h1 h3 vs p.
Proof. intros H1 H2 id Hid. by rewrite H2, H1. Qed.

Lemma frame_none h h' vs p : frame h h' vs p -> frame h h' vs None.
Proof. intros H id [?|Hu]; [done|]. apply H. by right. Qed.

Lemma frame_contents h h' vs p u : frame h h' vs p -> u ∈ vs -> contents h' u = contents h u.
Proof.
  intros H Hu. unfold contents. destruct (mStorage u) as [id|] eqn:E; [|done]. rewrite (H id); [done|]. right. by exists u.
Qed.

Lemma frame_vec_ok h h' vs p u : frame h h' vs p -> u ∈ vs -> vec_ok h u -> vec_ok h' u.
Proof.
  intros H Hu. unfold vec_ok. destruct (mStorage u) as [id|] eqn:E; [|done]. rewrite (H id); [done|]. right. by exists u.
Qed.

Lemma omap_some (l : list A) : omap (fun o : option A => o) (Some <$> l) = l.
Proof. induction l as [|x l IH]; [done|]. cbn. by f_equal. Qed.

Lemma contents_holds h id c l n :
  cells_at h id = Some c -> holds c l -> n = Z.of_nat (length l) -> contents h (mkVector (Some id) n) = l.
Proof.
  intros E (junk & -> & _) ->. unfold contents. cbn [mStorage mCount]. rewrite E, Nat2Z.id.
  rewrite take_app_length' by (by rewrite length_fmap). apply omap_some.
Qed.

Lemma vec_contents h v : vec_ok h v -> mCount v = Z.of_nat (length (contents h v)) /\
  forall id, mStorage v = Some id -> exists c, cells_at h id = Some c /\ holds c (contents h v).
Proof.
  unfold vec_ok. destruct v as [[id|] n]; cbn [mStorage mCount].
  - intros (c & l & E & Hh & Hn). rewrite (contents_holds h id c l n E Hh Hn). split; [done|]. intros ? [= <-]. by exists c.
  - intros ->. done.
Qed.

Lemma users_cons id v vs : users id (v :: vs) = ((if decide (mStorage v = Some id) then 1 else 0) + users id vs)%nat.
Proof. unfold users. rewrite filter_cons. by destruct (decide _). Qed.

Lemma users_zero id vs : users id vs = 0%nat <-> forall v, v ∈ vs -> mStorage v <> Some id.
Proof.
  induction vs as [|v vs IH]; [by split; [intros _ v ?%not_elem_of_nil|]|]. rewrite users_cons. split.
  - intros H w [->|Hw]%elem_of_cons; [by destruct (decide _)|]. apply IH; [lia|done].
  - intros H. rewrite decide_False by (apply H; by left). apply IH. intros w Hw. apply H. by right.
Qed.

Lemma users_bound id vs : (users id vs <= length vs)%nat.
Proof. induction vs as [|v vs IH]; [done|]. rewrite users_cons. simpl. destruct (decide _); lia. Qed.

Lemma room_fits size : bytes_fit size -> room size = Z.to_nat (size / mItemSize).
Proof. intros [H0 H1]. unfold room, usize. rewrite Z.mod_small by lia. do 2 f_equal. lia. Qed.

(** ** The steps of the operations *)

Lemma hinv_storage h vs p v id : HInv h vs p -> v ∈ vs -> mStorage v = Some id -> is_Some (buffers h !! id).
Proof.
  intros HI Hv E. pose proof (hi_vec _ _ _ HI v Hv) as H. unfold vec_ok in H. rewrite E in H.
  destruct H as (c & l & Hc & _). unfold cells_at in Hc. destruct (buffers h !! id); [by eexists|done].
Qed.

Lemma hinv_perm h vs vs' p : vs ≡ₚ vs' -> HInv h vs p -> HInv h vs' p.
Proof.
  intros Hp [Hv Hb Hq Hc Hm]. split; [|intros id sb E; destruct (Hb id sb E) as [? Hok]; split; [done|]| |..]; try done.
  - intros v Hv'. apply Hv. by rewrite Hp.
  - assert (Eu : users id vs' = users id vs); [|by rewrite Eu]. clear - Hp. induction Hp; rewrite ?users_cons; [done|lia|lia|lia].
  - by rewrite <-Hp.
Qed.

(** A vector gives its block away, or takes one. *)
Lemma hinv_detach h vs v : HInv h (v :: vs) None -> HInv h vs (mStorage v).
Proof.
  intros HI. split.
  - intros u Hu. apply (hi_vec _ _ _ HI). by right.
  - intros id sb E. destruct (hi_buf _ _ _ HI id sb E) as [H1 H2]. split; [done|]. rewrite users_cons in H2.
    rewrite (decide_False (P := None = Some id)) in H2 by done. by rewrite Nat.add_0_r, Nat.add_comm in H2.
  - intros id E. apply (hinv_storage _ _ _ v id HI); [by left|done].
  - pose proof (hi_count _ _ _ HI). simpl in *. lia.
  - apply (hi_memory _ _ _ HI).
Qed.

Lemma hinv_adopt h vs id c l :
  HInv h vs (Some id) -> cells_at h id = Some c -> holds c l -> Z.of_nat (length vs) + 1 < 2 ^ 31 - 2 ->
  HInv h (mkVector (Some id) (Z.of_nat (length l)) :: vs) None.
Proof.
  intros HI Hc Hl Hn. split.
  - intros u [->|Hu]%elem_of_cons; [by exists c, l|]. by apply (hi_vec _ _ _ HI).
  - intros id' sb E. destruct (hi_buf _ _ _ HI id' sb E) as [H1 H2]. split; [done|]. rewrite users_cons. cbn [mStorage].
    rewrite (decide_False (P := None = Some id')) by done. by rewrite Nat.add_0_r, Nat.add_comm.
  - done.
  - simpl. lia.
  - apply (hi_memory _ _ _ HI).
Qed.

(** A vector without a block. *)
Lemma hinv_empty_cons h vs : HInv h vs None -> Z.of_nat (length vs) + 1 < 2 ^ 31 - 2 -> HInv h (mkVector None 0 :: vs) None.
Proof.
  intros HI Hn. split.
  - intros u [->|Hu]%elem_of_cons; [done|]. by apply (hi_vec _ _ _ HI).
  - intros id' sb E. destruct (hi_buf _ _ _ HI id' sb E) as [H1 H2]. split; [done|]. rewrite users_cons. by rewrite decide_False by done.
  - done.
  - simpl. lia.
  - apply (hi_memory _ _ _ HI).
Qed.

(** What a block has that nobody else uses. *)
Definition alone (h : Heap) (vs : list VectorImpl) (id : Z) (cap : Z) (c : Cells) : Prop :=
  HInv h vs (Some id) /\ users id vs = 0%nat /\
  exists sb, buffers h !! id = Some sb /\ cells sb = c /\ mSize sb / mItemSize = cap.

Lemma alone_cells h vs id cap c : alone h vs id cap c -> cells_at h id = Some c /\ length c = Z.to_nat cap /\ 0 <= cap.
Proof.
  intros (HI & _ & sb & E & <- & <-). destruct (hi_buf _ _ _ HI id sb E) as (_ & [H0 _] & Hl & _). unfold cells_at. rewrite E.
  split; [done|]. split; [done|]. by apply Z.div_pos.
Qed.

Lemma frame_alone h h' vs id : frame h h' vs None -> users id vs = 0%nat -> forall u, u ∈ vs -> mStorage u <> Some id.
Proof. intros _ H. by apply users_zero. Qed.

(** A new block. *)
Lemma fresh_alone h h' vs size c :
  HInv h vs None -> bytes_fit size -> length c = Z.to_nat (size / mItemSize) ->
  buffers h' = <[fresh h := mkBuffer 1 size c]> (buffers h) -> fresh h' = fresh h + 1 -> answers h' = answers h ->
  alone h' vs (fresh h) (size / mItemSize) c /\ frame h h' vs None.
Proof.
  intros HI Hs Hl Eb Ef Ea. assert (Hf : buffers h !! fresh h = None).
  { destruct (buffers h !! fresh h) as [sb|] eqn:E; [|done]. destruct (hi_buf _ _ _ HI _ _ E). lia. }
  assert (Hu : users (fresh h) vs = 0%nat).
  { apply users_zero. intros v Hv E. destruct (hinv_storage _ _ _ v _ HI Hv E). congruence. }
  assert (Hfr : frame h h' vs None).
  { intros id' [?|(w & Hw & E)]; [done|]. unfold cells_at. rewrite Eb, lookup_insert_ne; [done|]. intros <-. exact (proj1 (users_zero _ _) Hu w Hw E). }
  split; [|done]. split; [|split; [done|]].
  - split; rewrite ?Ef, ?Ea; [| | | |apply (hi_memory _ _ _ HI)].
    + intros u Hin. apply (frame_vec_ok h _ vs None); [done|done|by apply (hi_vec _ _ _ HI)].
    + intros id' sb. rewrite Eb. destruct (decide (id' = fresh h)) as [->|Hid].
      * rewrite lookup_insert_eq. intros [= <-]. split; [lia|]. rewrite Hu, decide_True by done. split; [done|]. cbn. split_and!; [done|done|lia].
      * rewrite lookup_insert_ne by done. intros E. destruct (hi_buf _ _ _ HI id' sb E) as [H1 H2]. split; [lia|].
        rewrite decide_False in H2 by done. rewrite decide_False by congruence. done.
    + intros id' [= <-]. rewrite Eb, lookup_insert_eq. by eexists.
    + apply (hi_count _ _ _ HI).
  - eexists. rewrite Eb, lookup_insert_eq. split; [reflexivity|]. done.
Qed.

Lemma vi_alloc_ok h vs size :
  HInv h vs None -> bytes_fit size ->
  exists id h', alloc size h = (Some id, h') /\ alone h' vs id (size / mItemSize) (replicate (Z.to_nat (size / mItemSize)) None) /\
    frame h h' vs None.
Proof.
  intros HI Hs. unfold alloc, has_memory. rewrite (hi_memory _ _ _ HI). eexists _, _. split; [reflexivity|].
  apply fresh_alone; [done|done|by rewrite length_replicate| |done|done]. cbn. by rewrite room_fits.
Qed.

(** A block that nobody uses is taken away. *)
Lemma drop_alone h vs id cap c :
  alone h vs id cap c -> HInv (set_buffers (delete id (buffers h)) h) vs None /\ frame h (set_buffers (delete id (buffers h)) h) vs None.
Proof.
  intros (HI & Hu & _). assert (Hfr : frame h (set_buffers (delete id (buffers h)) h) vs None).
  { intros id' [?|(w & Hw & E)]; [done|]. unfold cells_at, set_buffers. cbn [buffers]. rewrite lookup_delete_ne; [done|]. intros <-.
    exact (proj1 (users_zero _ _) Hu w Hw E). }
  split; [|done]. split; unfold set_buffers; cbn [buffers fresh answers]; [| |done| |apply (hi_memory _ _ _ HI)].
  - intros u Hin. apply (frame_vec_ok h _ vs None); [done|done|by apply (hi_vec _ _ _ HI)].
  - intros id' sb [Hne E]%lookup_delete_Some. destruct (hi_buf _ _ _ HI id' sb E) as [H1 H2]. split; [done|].
    rewrite decide_False in H2 by congruence. by rewrite decide_False by done.
  - apply (hi_count _ _ _ HI).
Qed.

(** A change of such a block. *)
Lemma edit_alone h vs id cap c f c' :
  alone h vs id cap c -> f c = Ok c' -> length c' = length c ->
  exists h', edit_cells h id f = Ok h' /\ alone h' vs id cap c' /\ frame h h' vs None.
Proof.
  intros (HI & Hu & sb & E & <- & Hcap) Hf Hl. unfold edit_cells, the_buffer. rewrite E. cbn [from_option_or mbind result_bind]. rewrite Hf.
  cbn [mbind result_bind]. eexists. split; [reflexivity|].
  assert (Hfr : frame h (set_buffer id (mkBuffer (mRefs sb) (mSize sb) c') h) vs None).
  { intros id' [?|(u & Hin & Eu)]; [done|]. unfold cells_at, set_buffer, set_buffers. cbn [buffers].
    rewrite lookup_insert_ne; [done|]. intros <-. exact (proj1 (users_zero _ _) Hu u Hin Eu). }
  split; [|done]. split; [|split; [done|]].
  - split; cbn [buffers fresh answers set_buffer set_buffers]; [| | | |apply (hi_memory _ _ _ HI)].
    + intros u Hin. apply (frame_vec_ok h _ vs None); [done|done|by apply (hi_vec _ _ _ HI)].
    + intros id' sb'. destruct (decide (id' = id)) as [->|Hid].
      * rewrite lookup_insert_eq. intros [= <-]. destruct (hi_buf _ _ _ HI id sb E) as [H1 (H2 & H3 & H4)]. split; [done|].
        split; [done|]. cbn. split; [by rewrite Hl|done].
      * rewrite lookup_insert_ne by done. apply (hi_buf _ _ _ HI).
    + intros id' [= <-]. rewrite lookup_insert_eq. by eexists.
    + apply (hi_count _ _ _ HI).
  - eexists. unfold set_buffer, set_buffers. cbn [buffers]. rewrite lookup_insert_eq. split; [reflexivity|]. done.
Qed.

Lemma hinv_drop_empty h vs p v : HInv h (v :: vs) p -> mStorage v = None -> HInv h vs p.
Proof.
  intros HI E. split.
  - intros u Hu. apply (hi_vec _ _ _ HI). by right.
  - intros id sb Eb. destruct (hi_buf _ _ _ HI id sb Eb) as [H1 H2]. split; [done|]. rewrite users_cons in H2.
    by rewrite (decide_False (P := mStorage v = Some id)) in H2 by congruence.
  - apply (hi_pending _ _ _ HI).
  - pose proof (hi_count _ _ _ HI). simpl in *. lia.
  - apply (hi_memory _ _ _ HI).
Qed.

(** The blocks other than [id] are the same, and [id] has [sb'], or is gone. *)
Lemma hinv_release h vs p v id sb' h' :
  HInv h (v :: vs) p -> mStorage v = Some id -> p <> Some id ->
  (forall id', id' <> id -> buffers h' !! id' = buffers h !! id') -> buffers h' !! id = sb' -> fresh h' = fresh h -> answers h' = answers h ->
  match sb' with
  | None => users id vs = 0%nat
  | Some sb' => exists sb, buffers h !! id = Some sb /\ mSize sb' = mSize sb /\ cells sb' = cells sb /\ mRefs sb' = mRefs sb - 1 /\ (0 < users id vs)%nat
  end ->
  HInv h' vs p /\ frame h h' vs p.
Proof.
  intros HI E Hp Hne Hid Hf Ha Hsb. assert (Hfr : frame h h' vs p).
  { intros id' Hin. destruct (decide (id' = id)) as [->|Hn]; [|unfold cells_at; by rewrite Hne].
    unfold cells_at. rewrite Hid. destruct sb' as [sb'|].
    - destruct Hsb as (sb & -> & _ & Hc & _). cbn. by rewrite Hc.
    - destruct Hin as [?|(u & Hu & Eu)]; [done|]. exfalso. exact (proj1 (users_zero _ _) Hsb u Hu Eu). }
  split; [|done]. split.
  - intros u Hu. apply (frame_vec_ok h h' vs p); [done|done|]. apply (hi_vec _ _ _ HI). by right.
  - intros id' s' Es. rewrite Hf. destruct (decide (id' = id)) as [->|Hn].
    + rewrite Hid in Es. rewrite Es in Hsb. destruct Hsb as (sb & Eb & H1 & H2 & H3 & H4).
      destruct (hi_buf _ _ _ HI id sb Eb) as [Hl (Ho1 & Ho2 & Ho3 & Ho4)]. split; [done|]. rewrite users_cons in Ho3.
      rewrite (decide_True (P := mStorage v = Some id)) in Ho3 by done. unfold buf_ok. rewrite H1, H2, H3. split_and!; [done|done|lia|lia].
    + rewrite Hne in Es by done. destruct (hi_buf _ _ _ HI id' s' Es) as [H1 H2]. split; [done|]. rewrite users_cons in H2.
      by rewrite (decide_False (P := mStorage v = Some id')) in H2 by congruence.
  - intros id' Eq. rewrite Hne by congruence. by apply (hi_pending _ _ _ HI).
  - pose proof (hi_count _ _ _ HI). simpl in *. lia.
  - rewrite Ha. apply (hi_memory _ _ _ HI).
Qed.

(** A block that others use loses a reference. *)
Lemma release_shared h vs p v id keep :
  HInv h (v :: vs) p -> mStorage v = Some id -> p <> Some id -> (0 < users id vs)%nat ->
  exists prev h', release id keep h = Ok (prev, h') /\ (prev =? 1) = false /\ HInv h' vs p /\ frame h h' vs p /\
    (forall id', p = Some id' -> buffers h' !! id' = buffers h !! id').
Proof.
  intros HI E Hp' Hu. destruct (hinv_storage h (v :: vs) p v id HI ltac:(by left) E) as [sb Eb].
  destruct (hi_buf _ _ _ HI id sb Eb) as [Hlt (Ho1 & Ho2 & Ho3 & Ho4)]. rewrite users_cons in Ho3, Ho4.
  rewrite (decide_True (P := mStorage v = Some id)) in Ho3, Ho4 by done. rewrite (decide_False (P := p = Some id)), Nat.add_0_r in Ho3, Ho4 by done.
  unfold release, the_buffer. rewrite Eb. cbn [from_option_or mbind result_bind]. unfold onlyOwner.
  rewrite Ho3. assert (E1 : (Z.of_nat (1 + users id vs) =? 1) = false) by (apply Z.eqb_neq; lia).
  rewrite E1, E1. eexists _, _. split; [reflexivity|]. split; [done|]. unfold set_buffer, set_buffers. cbn [buffers fresh answers].
  pose proof (users_bound id vs). pose proof (hi_count _ _ _ HI) as Hcount. simpl length in Hcount.
  match goal with |- HInv ?h' _ _ /\ _ =>
    destruct (hinv_release h vs p v id (Some (mkBuffer (mRefs sb - 1) (mSize sb) (cells sb))) h' HI E Hp') as [H1 H2] end;
    [intros id' Hne; cbn [buffers]; by rewrite lookup_insert_ne by done
    |cbn [buffers]; rewrite lookup_insert_eq, Ho3; do 2 f_equal; rewrite s32_small by lia; lia|done|done
    |exists sb; cbn; split_and!; [done|done|done|done|lia]|].
  split; [done|]. split; [done|]. intros id' Eq. by rewrite lookup_insert_ne by congruence.
Qed.

Lemma release_storage_ok h vs p v :
  HInv h (v :: vs) p -> (p = None \/ p <> mStorage v) ->
  exists h', release_storage v h = Ok h' /\ HInv h' vs p /\ frame h h' vs p /\ (forall id, p = Some id -> buffers h' !! id = buffers h !! id).
Proof.
  intros HI Hp. unfold release_storage. destruct (mStorage v) as [id|] eqn:E.
  2:{ exists h. split; [done|]. split; [by apply (hinv_drop_empty _ _ _ v)|]. split; [apply frame_refl|done]. }
  assert (Hp' : p <> Some id) by (intros ->; by destruct Hp).
  pose proof (hi_vec _ _ _ HI v ltac:(by left)) as Hv. destruct (vec_contents h v Hv) as [Hn Hc]. destruct (Hc id E) as (c & Ec & Hh).
  destruct (buffers h !! id) as [sb|] eqn:Eb; [|unfold cells_at in Ec; by rewrite Eb in Ec].
  assert (Ecs : cells sb = c) by (unfold cells_at in Ec; rewrite Eb in Ec; cbn in Ec; congruence). clear Ec Hc Hv.
  destruct (hi_buf _ _ _ HI id sb Eb) as [Hlt (Ho1 & Ho2 & Ho3 & Ho4)]. rewrite users_cons in Ho3, Ho4.
  rewrite (decide_True (P := mStorage v = Some id)) in Ho3, Ho4 by done. rewrite (decide_False (P := p = Some id)), Nat.add_0_r in Ho3, Ho4 by done.
  unfold release, the_buffer. rewrite Eb. cbn [from_option_or mbind result_bind]. unfold onlyOwner.
  destruct (decide (users id vs = 0%nat)) as [Hu|Hu].
  - rewrite Ho3, Hu. change (Z.of_nat (1 + 0)) with 1. cbn [Z.eqb Pos.eqb mbind result_bind].
    destruct Hh as (junk & Ej & Hj). rewrite Ecs, Ej. unfold edit_cells at 1, the_buffer, set_buffer, set_buffers. cbn [buffers].
    rewrite lookup_insert_eq. cbn [from_option_or mbind result_bind cells]. rewrite Hn, Nat2Z.id.
    pose proof (destroy_type_ok [] (contents h v) junk) as Hd. cbn [app length] in Hd. rewrite Hd. cbn [mbind result_bind mRefs mSize fresh answers]. unfold dealloc, the_buffer. cbn [buffers].
    rewrite lookup_insert_eq. cbn [from_option_or mbind result_bind mRefs Z.eqb negb buffers fresh answers].
    unfold free_block. cbn [cells]. rewrite junk_vacant by (apply junk_ok_app; split; [apply ended_ok|done]). cbn [mbind result_bind].
    eexists. split; [reflexivity|]. unfold set_buffers. cbn [buffers fresh answers].
    match goal with |- HInv ?h' _ _ /\ _ => destruct (hinv_release h vs p v id None h' HI E Hp') as [H1 H2] end;
      [intros id' Hne; cbn [buffers]; by rewrite lookup_delete_ne, !lookup_insert_ne by done|apply lookup_delete_eq|done|done|done|].
    split; [done|]. split; [done|]. intros id' Eq. rewrite lookup_delete_ne, !lookup_insert_ne by congruence. done.
  - destruct (release_shared h vs p v id true HI E Hp') as (prev & h' & Er & Ep & HI' & Hf' & Hb'); [lia|].
    unfold release, the_buffer in Er. rewrite Eb in Er. cbn [from_option_or mbind result_bind] in Er. unfold onlyOwner in Er. rewrite Er.
    cbn [mbind result_bind]. rewrite Ep. by exists h'.
Qed.

Lemma only_owner_alone h vs v id sb :
  HInv h (v :: vs) None -> mStorage v = Some id -> buffers h !! id = Some sb -> mRefs sb = 1 ->
  alone h vs id (mSize sb / mItemSize) (cells sb).
Proof.
  intros HI E Eb Hr. split; [|split; [|by exists sb]].
  - rewrite <-E. by apply hinv_detach.
  - destruct (hi_buf _ _ _ HI id sb Eb) as [_ (_ & _ & H & _)]. rewrite users_cons in H. rewrite (decide_True (P := mStorage v = Some id)) in H by done. lia.
Qed.

(** The old block is given back when the new one is ready. *)
Lemma release_alone h vs v id cap c :
  alone h (v :: vs) id cap c -> exists h', release_storage v h = Ok h' /\ alone h' vs id cap c /\ frame h h' vs None.
Proof.
  intros (HI & Hu & sb & E & Hc & Hcap).
  destruct (release_storage_ok h vs (Some id) v HI) as (h' & Er & HI' & Hf & Hb).
  { right. intros Eq. apply (proj1 (users_zero _ _) Hu v); [by left|done]. }
  exists h'. split; [done|]. split; [|by apply frame_none in Hf]. split; [done|]. split.
  - rewrite users_cons in Hu. lia.
  - exists sb. by rewrite Hb.
Qed.

Lemma copy_alone h vs id cap pre junk post src n xs :
  alone h vs id cap (pre ++ junk ++ post) -> read_cells h src n = Ok (Some <$> xs) -> length junk = length xs -> junk_ok junk ->
  exists h', do_copy h id (length pre) src n = Ok h' /\ alone h' vs id cap (pre ++ (Some <$> xs) ++ post) /\ frame h h' vs None.
Proof.
  intros Ha Er Hl Hj. unfold do_copy. rewrite Er. cbn [mbind result_bind]. apply edit_alone with (c := pre ++ junk ++ post); [done|by apply copy_type_ok|].
  rewrite !length_app, length_fmap. lia.
Qed.

Lemma read_stored h id pre xs post n :
  cells_at h id = Some (pre ++ (Some <$> xs) ++ post) -> n = length xs -> read_cells h (Stored id (length pre)) n = Ok (Some <$> xs).
Proof.
  intros E ->. unfold cells_at in E. unfold read_cells, the_buffer. destruct (buffers h !! id) as [sb|] eqn:Eb; [|done].
  cbn in E. injection E as Ec. cbn [from_option_or mbind result_bind]. rewrite Ec. apply read_mid; [done|by rewrite length_fmap].
Qed.

Lemma nones_split n k : (k <= n)%nat -> replicate n (@None A) = replicate k None ++ replicate (n - k) None.
Proof. intros. rewrite <-replicate_add. f_equal. lia. Qed.

(** The storage of [v] is its own afterwards, with room for as many elements. *)
Lemma editArrayImpl_ok h vs v id0 sb0 :
  HInv h (v :: vs) None -> mStorage v = Some id0 -> buffers h !! id0 = Some sb0 ->
  exists id h' c, editArrayImpl v h = Ok (mkVector (Some id) (mCount v), h') /\
    alone h' vs id (mSize sb0 / mItemSize) c /\ holds c (contents h v) /\ frame h h' vs None.
Proof.
  intros HI E Eb. pose proof (hi_vec _ _ _ HI v ltac:(by left)) as Hv. destruct (vec_contents h v Hv) as [Hn Hc].
  destruct (Hc id0 E) as (c & Ec & Hh). assert (Ecs : cells sb0 = c) by (unfold cells_at in Ec; rewrite Eb in Ec; cbn in Ec; congruence).
  destruct (hi_buf _ _ _ HI id0 sb0 Eb) as [_ ([Hs1 Hs2] & Hlen & _)].
  unfold editArrayImpl. rewrite E. unfold attemptEdit, the_buffer. rewrite Eb. cbn [from_option_or mbind result_bind]. unfold onlyOwner.
  destruct (Z.eqb_spec (mRefs sb0) 1) as [Hr|Hr].
  - exists id0, h, c. destruct v as [st n]. cbn [mStorage mCount] in *. subst st. split; [done|]. rewrite <-Ecs at 1.
    split; [by apply only_owner_alone with (v := mkVector (Some id0) n)|]. split; [done|apply frame_refl].
  - unfold capacity. rewrite E. unfold the_buffer. rewrite Eb. cbn [from_option_or mbind result_bind].
    pose proof (Z.mul_div_le (mSize sb0) mItemSize Hitem) as Hle. assert (0 <= mSize sb0 / mItemSize) by (by apply Z.div_pos).
    unfold usize. rewrite Z.mod_small by nia. rewrite (Z.mul_comm (mSize sb0 / mItemSize)).
    destruct (vi_alloc_ok h (v :: vs) (mItemSize * (mSize sb0 / mItemSize)) HI) as (id' & h1 & -> & Ha1 & Hf1); [split; nia|].
    replace (mItemSize * (mSize sb0 / mItemSize) / mItemSize) with (mSize sb0 / mItemSize) in * by (rewrite Z.mul_comm, Z.div_mul; lia).
    destruct Hh as (junk & Ej & Hj). set (l := contents h v) in *.
    assert (Hll : (length l <= Z.to_nat (mSize sb0 / mItemSize))%nat).
    { rewrite <-Hlen, Ecs, Ej, length_app, length_fmap. lia. }
    rewrite (nones_split _ (length l) Hll) in Ha1.
    destruct (copy_alone h1 (v :: vs) id' (mSize sb0 / mItemSize) [] (replicate (length l) None) (replicate (Z.to_nat (mSize sb0 / mItemSize) - length l) None)
                (Stored id0 0) (length l) l Ha1) as (h2 & E2 & Ha2 & Hf2); [|by rewrite length_replicate|apply junk_ok_nones|].
    { apply (read_stored h1 id0 [] l junk); [|done]. rewrite (Hf1 id0); [by rewrite Ec, Ej|]. right. exists v. split; [by left|done]. }
    rewrite Hn, Nat2Z.id. cbn [length] in E2. rewrite E2. cbn [mbind result_bind].
    destruct (release_alone h2 vs v id' _ _ Ha2) as (h3 & -> & Ha3 & Hf3). cbn [mbind result_bind].
    eexists _, _, _. split; [reflexivity|]. split; [exact Ha3|]. split.
    + eexists. split; [reflexivity|]. apply junk_ok_nones.
    + assert (Hsub : forall a b, frame a b (v :: vs) None -> frame a b vs None).
      { intros a b Hf i [?|(u & Hu & Eu)]; [done|]. apply Hf. right. exists u. split; [by right|done]. }
      eapply frame_trans; [apply Hsub, Hf1|]. eapply frame_trans; [apply Hsub, Hf2|done].
Qed.

Lemma frame_cons a b v vs : frame a b (v :: vs) None -> frame a b vs None.
Proof. intros Hf i [?|(u & Hu & Eu)]; [done|]. apply Hf. right. exists u. split; [by right|done]. Qed.

Lemma cells_stored h vs v id : HInv h (v :: vs) None -> mStorage v = Some id -> exists junk, cells_at h id = Some ((Some <$> contents h v) ++ junk) /\ junk_ok junk.
Proof.
  intros HI E. pose proof (hi_vec _ _ _ HI v ltac:(by left)) as Hv. destruct (vec_contents h v Hv) as [_ Hc].
  destruct (Hc id E) as (c & Ec & junk & -> & Hj). by exists junk.
Qed.

(** A part of the elements of [v], as they are read from its block. *)
Lemma read_part h vs v id f n :
  HInv h (v :: vs) None -> mStorage v = Some id -> (f + n <= length (contents h v))%nat ->
  read_cells h (Stored id f) n = Ok (Some <$> take n (drop f (contents h v))).
Proof.
  intros HI E Hfn. destruct (cells_stored h vs v id HI E) as (junk & Ec & Hj). set (l := contents h v) in *.
  pose proof (read_stored h id (Some <$> take f l) (take n (drop f l)) ((Some <$> drop n (drop f l)) ++ junk) n) as H.
  assert (Hlf : length (Some <$> take f l) = f) by (rewrite length_fmap, length_take; lia). rewrite Hlf in H.
  apply H; [|rewrite length_take, length_drop; lia].
  rewrite Ec. f_equal. rewrite <-(take_drop f l) at 1. rewrite <-(take_drop n (drop f l)) at 1. by rewrite !fmap_app, <-!app_assoc.
Qed.

Lemma read_part_frame h h' vs v id f n :
  HInv h (v :: vs) None -> frame h h' (v :: vs) None -> mStorage v = Some id -> (f + n <= length (contents h v))%nat ->
  read_cells h' (Stored id f) n = Ok (Some <$> take n (drop f (contents h v))).
Proof.
  intros HI Hf E Hfn. rewrite <-(read_part h vs v id f n HI E Hfn). unfold read_cells, the_buffer.
  assert (Ec : cells_at h' id = cells_at h id) by (apply Hf; right; exists v; split; [by left|done]).
  unfold cells_at in Ec. destruct (buffers h' !! id), (buffers h !! id); cbn in Ec |- *; congruence.
Qed.

Lemma new_storage_ok h vs v cap w f t n :
  HInv h (v :: vs) None -> bytes_fit (cap * mItemSize) -> 0 <= w <= Z.of_nat (length (contents h v)) -> 0 <= f -> 0 <= n ->
  f + n <= Z.of_nat (length (contents h v)) -> w <= t -> t + n <= cap ->
  exists id h', new_storage v cap w f t n h = Ok (mkVector (Some id) (mCount v), h') /\
    alone h' vs id cap ((Some <$> take (Z.to_nat w) (contents h v)) ++ replicate (Z.to_nat (t - w)) None ++
      (Some <$> take (Z.to_nat n) (drop (Z.to_nat f) (contents h v))) ++ replicate (Z.to_nat (cap - t - n)) None) /\ frame h h' vs None.
Proof.
  intros HI [Hb1 Hb2] Hw Hf Hn Hfn Hwt Htn. unfold new_storage, usize. rewrite Z.mod_small by lia.
  destruct (vi_alloc_ok h (v :: vs) (cap * mItemSize) HI) as (id & h1 & -> & Ha1 & Hf1); [done|].
  rewrite Z.div_mul in Ha1 by lia. set (l := contents h v) in *.
  assert (Hnn : replicate (Z.to_nat cap) (@None A) = replicate (Z.to_nat w) None ++ (replicate (Z.to_nat (t - w)) None ++
     replicate (Z.to_nat n) None ++ replicate (Z.to_nat (cap - t - n)) None)).
  { rewrite <-!replicate_add. f_equal. lia. }
  rewrite Hnn in Ha1. clear Hnn. assert (Hlw : length (take (Z.to_nat w) l) = Z.to_nat w) by (rewrite length_take; lia).
  assert (H2 : exists h2, (if w =? 0 then Ok h1 else do_copy h1 id 0 (match mStorage v with Some id => Stored id 0 | None => Values [] end) (Z.to_nat w)) = Ok h2 /\
     alone h2 (v :: vs) id cap ((Some <$> take (Z.to_nat w) l) ++ (replicate (Z.to_nat (t - w)) None ++ replicate (Z.to_nat n) None ++ replicate (Z.to_nat (cap - t - n)) None)) /\
     frame h h2 (v :: vs) None).
  { destruct (Z.eqb_spec w 0) as [->|Hw0]; [by exists h1|]. destruct (mStorage v) as [id0|] eqn:E.
    2:{ exfalso. assert (l = []) as El by (unfold l, contents; by rewrite E). rewrite El in Hw. simpl in Hw. lia. }
    destruct (copy_alone h1 (v :: vs) id cap [] (replicate (Z.to_nat w) None) (replicate (Z.to_nat (t - w)) None ++ replicate (Z.to_nat n) None ++
       replicate (Z.to_nat (cap - t - n)) None) (Stored id0 0) (Z.to_nat w) (take (Z.to_nat w) l) Ha1) as (h2 & E2 & Ha2 & Hf2).
    - rewrite (read_part_frame h h1 vs v id0 0 (Z.to_nat w) HI Hf1 E) by (fold l; lia). done.
    - by rewrite length_replicate.
    - apply junk_ok_nones.
    - exists h2. split; [done|]. split; [done|]. by eapply frame_trans. }
  destruct H2 as (h2 & -> & Ha2 & Hf2). cbn [mbind result_bind].
  assert (H3 : exists h3, (if n =? 0 then Ok h2 else do_copy h2 id (Z.to_nat t) (match mStorage v with Some id => Stored id (Z.to_nat f) | None => Values [] end) (Z.to_nat n)) = Ok h3 /\
     alone h3 (v :: vs) id cap ((Some <$> take (Z.to_nat w) l) ++ (replicate (Z.to_nat (t - w)) None ++ (Some <$> take (Z.to_nat n) (drop (Z.to_nat f) l)) ++ replicate (Z.to_nat (cap - t - n)) None)) /\
     frame h h3 (v :: vs) None).
  { destruct (Z.eqb_spec n 0) as [->|Hn0]; [by exists h2|]. destruct (mStorage v) as [id0|] eqn:E.
    2:{ exfalso. assert (l = []) as El by (unfold l, contents; by rewrite E). rewrite El in Hfn. simpl in Hfn. lia. }
    rewrite app_assoc in Ha2.
    edestruct (copy_alone h2 (v :: vs) id cap _ _ _ (Stored id0 (Z.to_nat f)) (Z.to_nat n) (take (Z.to_nat n) (drop (Z.to_nat f) l)) Ha2) as (h3 & E3 & Ha3 & Hf3).
    - rewrite (read_part_frame h h2 vs v id0 (Z.to_nat f) (Z.to_nat n) HI Hf2 E) by (fold l; lia). done.
    - rewrite length_replicate, length_take, length_drop. lia.
    - apply junk_ok_nones.
    - rewrite length_app, length_fmap, length_replicate, Hlw in E3. replace (Z.to_nat w + Z.to_nat (t - w))%nat with (Z.to_nat t) in E3 by lia.
      exists h3. split; [done|]. rewrite <-app_assoc in Ha3. split; [done|]. by eapply frame_trans. }
  destruct H3 as (h3 & -> & Ha3 & Hf3). cbn [mbind result_bind].
  destruct (release_alone h3 vs v id _ _ Ha3) as (h4 & -> & Ha4 & Hf4). cbn [mbind result_bind].
  exists id, h4. split; [done|]. split; [done|]. eapply frame_trans; [exact (frame_cons _ _ _ _ Hf3)|done].
Qed.

(** The storage of elements without copy constructors and destructors, resized: what
    fits is kept. *)
Lemma resize_storage_ok h vs v id0 cap k :
  HInv h (v :: vs) None -> mStorage v = Some id0 -> trivial_dtor = true -> bytes_fit (cap * mItemSize) ->
  (k <= length (contents h v))%nat -> Z.of_nat k <= cap ->
  exists id h' c, resize_storage v cap h = Ok (mkVector (Some id) (mCount v), h') /\
    alone h' vs id cap c /\ holds c (take k (contents h v)) /\ frame h h' vs None.
Proof.
  intros HI E Htd [Hb1 Hb2] Hk Hkc. destruct (cells_stored h vs v id0 HI E) as (junk & Ec & _).
  unfold resize_storage, editResize, the_buffer. rewrite E. unfold cells_at in Ec. destruct (buffers h !! id0) as [sb|] eqn:Eb; [|done].
  cbn in Ec. injection Ec as Ec. cbn [from_option_or mbind result_bind]. unfold usize. rewrite Z.mod_small by lia.
  assert (Hj : forall c rest, c = (Some <$> take k (contents h v)) ++ rest -> holds c (take k (contents h v))).
  { intros c rest ->. exists rest. split; [done|]. intros ?. congruence. }
  assert (Hsplit : cells sb = (Some <$> take k (contents h v)) ++ (Some <$> drop k (contents h v)) ++ junk).
  { by rewrite Ec, app_assoc, <-fmap_app, take_drop. }
  assert (Htake : forall m, (k <= m)%nat -> exists rest, take m (cells sb) = (Some <$> take k (contents h v)) ++ rest).
  { intros m Hm. rewrite Hsplit. eexists. rewrite take_app_ge by (rewrite length_fmap, length_take; lia). done. }
  destruct (hi_buf _ _ _ HI id0 sb Eb) as [_ ([Hs1 Hs2] & Hlen & _)].
  assert (Hkl : (k <= length (cells sb))%nat) by (rewrite Ec, length_app, length_fmap; lia).
  unfold onlyOwner. destruct (Z.eqb_spec (mRefs sb) 1) as [Hr|Hr].
  - pose proof (only_owner_alone h vs v id0 sb HI E Eb Hr) as Ha. destruct (Z.eqb_spec (mSize sb) (cap * mItemSize)) as [Hsz|Hsz].
    + exists id0, h, (cells sb). split; [done|]. rewrite Hsz, Z.div_mul in Ha by lia. split; [done|]. split; [by eapply Hj|apply frame_refl].
    + unfold realloc, has_memory. rewrite (hi_memory _ _ _ HI). rewrite room_fits by done. rewrite Z.div_mul by lia. cbn [fresh buffers answers].
      destruct (drop_alone _ _ _ _ _ Ha) as [HI' Hf'].
      unfold vacant at 1. rewrite Htd. cbn [orb mbind result_bind].
      match goal with |- context [Ok (mkVector (Some _) _, ?h2)] =>
        destruct (fresh_alone (set_buffers (delete id0 (buffers h)) h) h2 vs (cap * mItemSize)
          (take (Z.to_nat cap) (cells sb) ++ replicate (Z.to_nat cap - length (cells sb)) None) HI') as [Ha2 Hf2] end.
      * done.
      * rewrite Z.div_mul by lia. rewrite length_app, length_take, length_replicate. lia.
      * cbn. by rewrite Hr.
      * done.
      * cbn. by rewrite (hi_memory _ _ _ HI).
      * rewrite Z.div_mul in Ha2 by lia. eexists _, _, _. split; [reflexivity|]. split; [exact Ha2|].
        split; [|eapply frame_trans; [exact Hf'|exact Hf2]].
        destruct (Htake (Z.to_nat cap)) as [rest ->]; [lia|]. eapply Hj. by rewrite <-app_assoc.
  - unfold copy_resized. destruct (vi_alloc_ok h (v :: vs) (cap * mItemSize) HI) as (id & h1 & -> & Ha1 & Hf1); [done|].
    rewrite Z.div_mul in Ha1 by lia. set (m := (if cap * mItemSize <? mSize sb then cap * mItemSize else mSize sb) / mItemSize).
    assert (Hm : 0 <= m <= cap /\ m <= mSize sb / mItemSize /\ Z.of_nat k <= m).
    { assert (0 <= mSize sb / mItemSize) by (by apply Z.div_pos). unfold m. destruct (Z.ltb_spec (cap * mItemSize) (mSize sb)) as [Hlt|Hge].
      - rewrite Z.div_mul by lia. split_and!; [nia|lia| |lia]. apply Z.div_le_lower_bound; lia.
      - split_and!; [done| |lia|lia]. apply Z.div_le_upper_bound; lia. }
    destruct (Htake (Z.to_nat m)) as [rest Ht]; [lia|].
    assert (Hlt : length (take (Z.to_nat m) (cells sb)) = Z.to_nat m) by (rewrite length_take; lia).
    destruct (edit_alone h1 (v :: vs) id cap _ (fun c => memcpy_at c 0 (take (Z.to_nat m) (cells sb)))
       (take (Z.to_nat m) (cells sb) ++ replicate (Z.to_nat cap - Z.to_nat m) None) Ha1) as (h2 & E2 & Ha2 & Hf2).
    + rewrite (nones_split (Z.to_nat cap) (Z.to_nat m)) by lia.
      apply (memcpy_mid [] (replicate (Z.to_nat m) None)). by rewrite length_replicate.
    + rewrite length_app, Hlt, !length_replicate. lia.
    + rewrite E2. cbn [mbind result_bind].
      pose proof Ha2 as (HI2 & Hu2 & _). assert (Hne : id <> id0) by (intros ->; apply (proj1 (users_zero _ _) Hu2 v); [by left|done]).
      destruct (hi_buf _ _ _ HI id0 sb Eb) as [_ (_ & _ & Hu & _)]. rewrite users_cons in Hu.
      rewrite (decide_True (P := mStorage v = Some id0)) in Hu by done. rewrite (decide_False (P := None = Some id0)) in Hu by done.
      destruct (release_shared h2 vs (Some id) v id0 false HI2 E) as (prev & h3 & -> & _ & HI3 & Hf3 & Hb3); [congruence|lia|].
      cbn [mbind result_bind]. eexists _, _, _. split; [reflexivity|].
      destruct Ha2 as (_ & Hu3 & sb3 & Eb3 & Ec3 & Ecap3). rewrite users_cons in Hu3.
      split; [split; [exact HI3|split; [lia|exists sb3; split_and!; [by rewrite Hb3|exact Ec3|done]]]|].
      split; [eapply Hj; by rewrite Ht, <-app_assoc|].
      eapply frame_trans; [exact (frame_cons _ _ _ _ Hf1)|]. eapply frame_trans; [exact (frame_cons _ _ _ _ Hf2)|]. by apply frame_none in Hf3.
Qed.

(** Room for [n] elements, and for what the storage grows to. *)
Definition fits (n : nat) : Prop := sizeof_SharedBuffer + (3 * Z.of_nat n + 4) * mItemSize < 2 ^ bits.

Lemma fits_small n : fits n -> 3 * Z.of_nat n + 4 < 2 ^ bits.
Proof. unfold fits. intros H. nia. Qed.

Lemma fits_bytes n c : fits n -> 0 <= c <= 3 * Z.of_nat n + 4 -> bytes_fit (c * mItemSize).
Proof. unfold fits, bytes_fit. intros H Hc. nia. Qed.

Lemma usize_small z : 0 <= z < 2 ^ bits -> usize z = z.
Proof. apply Z.mod_small. Qed.

Lemma max_spec a b : max a b = Z.max a b.
Proof. unfold max. destruct (Z.ltb_spec b a); lia. Qed.

(** The storage of a vector and its capacity. *)
Lemma capacity_ok h vs v : HInv h (v :: vs) None ->
  exists cap, capacity v h = Ok cap /\ Z.of_nat (length (contents h v)) <= cap /\
    match mStorage v with
    | None => cap = 0
    | Some id => exists sb, buffers h !! id = Some sb /\ cap = mSize sb / mItemSize
    end.
Proof.
  intros HI. unfold capacity. destruct (mStorage v) as [id|] eqn:E.
  - destruct (cells_stored h vs v id HI E) as (junk & Ec & _). unfold cells_at in Ec. unfold the_buffer.
    destruct (buffers h !! id) as [sb|] eqn:Eb; [|done]. cbn in Ec |- *. injection Ec as Ec.
    destruct (hi_buf _ _ _ HI id sb Eb) as [_ ([Hs _] & Hlen & _)]. eexists. split; [reflexivity|]. split; [|by exists sb].
    assert (0 <= mSize sb / mItemSize) by (by apply Z.div_pos).
    rewrite Ec, length_app, length_fmap in Hlen. lia.
  - exists 0. split; [done|]. split; [|done]. unfold contents. by rewrite E.
Qed.

Lemma count_contents h vs v : HInv h (v :: vs) None -> mCount v = Z.of_nat (length (contents h v)).
Proof. intros HI. apply vec_contents. apply (hi_vec _ _ _ HI). by left. Qed.

Lemma cut_gap (c : Cells) l n : holds c l -> (length l + n <= length c)%nat ->
  exists gap junk, c = (Some <$> l) ++ gap ++ junk /\ length gap = n /\ junk_ok gap /\ junk_ok junk.
Proof.
  intros (junk & -> & Hj) Hl. rewrite length_app, length_fmap in Hl. destruct (cut junk n) as (a & b & -> & Ha); [lia|].
  apply junk_ok_app in Hj as [H1 H2]. exists a, b. done.
Qed.

Lemma grow_ok h vs v w k :
  HInv h (v :: vs) None -> (w <= length (contents h v))%nat -> fits (length (contents h v) + k) ->
  (0 < k)%nat \/ mStorage v <> None /\ (by_memmove = true \/ w = length (contents h v)) ->
  exists id h' cap gap junk,
    grow_ v (Z.of_nat w) (Z.of_nat k) h = Ok (Some id, mkVector (Some id) (Z.of_nat (length (contents h v) + k)), h') /\
    length gap = k /\ junk_ok gap /\ junk_ok junk /\
    alone h' vs id cap ((Some <$> take w (contents h v)) ++ gap ++ (Some <$> drop w (contents h v)) ++ junk) /\ frame h h' vs None.
Proof.
  intros HI Hw Hfit Hk. pose proof (count_contents h vs v HI) as Hn. set (l := contents h v) in *.
  pose proof (fits_small _ Hfit) as Hsm. unfold grow_. rewrite Hn.
  replace (Z.of_nat (length l) + Z.of_nat k) with (Z.of_nat (length l + k)) by lia.
  destruct (capacity_ok h vs v HI) as (cap & -> & Hcap & Hst). fold l in Hcap. cbn [mbind result_bind].
  assert (Hd : 0 <= (Z.of_nat (length l + k) * 3 + 1) / 2 <= 3 * Z.of_nat (length l + k) + 1) by euclid.
  rewrite !(usize_small (Z.of_nat (length l + k))) by lia.
  destruct (Z.ltb_spec cap (Z.of_nat (length l + k))) as [Hlt|Hge].
  - rewrite !(usize_small (Z.of_nat (length l + k) * 3)), !(usize_small (_ * 3 + 1)), !(usize_small (_ / 2)) by lia.
    rewrite max_spec. unfold kMinVectorCapacity.
    set (newcap := Z.max 4 _). assert (Hnc : Z.of_nat (length l + k) <= newcap <= 3 * Z.of_nat (length l + k) + 4) by (unfold newcap; euclid).
    clearbody newcap. clear Hd. destruct (is_some_storage v && (Z.of_nat (length l) =? Z.of_nat w) && flags_trivial) eqn:Eres.
    + apply andb_true_iff in Eres as [[Es Ew]%andb_true_iff Ef]. unfold is_some_storage in Es. destruct (mStorage v) as [id0|] eqn:E; [|done].
      unfold flags_trivial in Ef. apply andb_true_iff in Ef as [_ Etd]. apply Z.eqb_eq in Ew. assert (w = length l) as -> by lia.
      destruct (resize_storage_ok h vs v id0 newcap (length l) HI E Etd) as (id & h' & c & -> & Ha & Hh & Hf);
        [apply (fits_bytes (length l + k)); [done|lia]|done|lia|]. cbn [mbind result_bind]. fold l in Hh. rewrite firstn_all in Hh.
      destruct (cut_gap c l k Hh) as (gap & junk & -> & Hg & Hj1 & Hj2); [destruct (alone_cells _ _ _ _ _ Ha) as (_ & -> & _); lia|].
      exists id, h', newcap, gap, junk. split; [done|]. rewrite firstn_all, drop_all. done.
    + destruct (new_storage_ok h vs v newcap (Z.of_nat w) (Z.of_nat w) (Z.of_nat w + Z.of_nat k) (Z.of_nat (length l) - Z.of_nat w) HI)
        as (id & h' & -> & Ha & Hf); fold l; [apply (fits_bytes (length l + k)); [done|lia]|lia..|]. cbn [mbind result_bind]. fold l in Ha.
      eexists id, h', newcap, (replicate k None), _. split; [done|]. split; [by rewrite length_replicate|]. split; [apply junk_ok_nones|].
      rewrite Nat2Z.id in Ha. replace (Z.to_nat (Z.of_nat w + Z.of_nat k - Z.of_nat w)) with k in Ha by lia.
      rewrite (take_ge (drop w l)) in Ha by (rewrite length_drop; lia). split; [|split; [exact Ha|done]]. apply junk_ok_nones.
  - destruct (mStorage v) as [id0|] eqn:E; [|destruct Hk as [?|[? _]]; [lia|done]]. destruct Hst as (sb & Eb & ->).
    destruct (editArrayImpl_ok h vs v id0 sb HI E Eb) as (id & h1 & c & -> & Ha & Hh & Hf). fold l in Hh. cbn [mbind result_bind].
    destruct (cut_gap c l k Hh) as (gap & junk & -> & Hg & Hj1 & Hj2); [destruct (alone_cells _ _ _ _ _ Ha) as (_ & -> & _); lia|].
    destruct (Z.eqb_spec (Z.of_nat w) (Z.of_nat (length l))) as [Ew|Ew].
    + cbn [mCount mStorage mbind result_bind]. rewrite Hn, Ew, Z.eqb_refl. cbn [mbind result_bind mStorage]. eexists id, h1, _, gap, junk. split; [done|].
      assert (w = length l) as -> by lia. rewrite firstn_all, drop_all. done.
    + cbn [mCount mStorage mbind result_bind]. rewrite Hn, (proj2 (Z.eqb_neq _ _)) by done.
      destruct (move_forward_ok (Some <$> take w l) (drop w l) gap junk (w + k)) as (hole & Hho & Hhl & Em); [done| | |].
      { destruct Hk as [Hk|(_ & [Hk|Hk])]; [left; destruct gap; [simpl in Hg; lia|done]|by right|lia]. }
      { rewrite length_fmap, length_take. lia. }
      rewrite length_fmap, length_take, Nat.min_l in Em by lia.
      assert (Hsp : (Some <$> l) ++ gap ++ junk = (Some <$> take w l) ++ (Some <$> drop w l) ++ gap ++ junk) by (rewrite <-(take_drop w l) at 1; by rewrite fmap_app, <-app_assoc).
      edestruct (edit_alone h1 vs id _ _ (fun c => move_forward_type c (Z.to_nat (Z.of_nat w + Z.of_nat k)) (Z.to_nat (Z.of_nat w))
         (Z.to_nat (Z.of_nat (length l) - Z.of_nat w))) ((Some <$> take w l) ++ hole ++ (Some <$> drop w l) ++ junk) Ha) as (h2 & E2 & Ha2 & Hf2).
      { rewrite Hsp. replace (Z.to_nat (Z.of_nat w + Z.of_nat k)) with (w + k)%nat by lia. rewrite Nat2Z.id.
        replace (Z.to_nat (Z.of_nat (length l) - Z.of_nat w)) with (length (drop w l)) by (rewrite length_drop; lia). exact Em. }
      { rewrite Hsp, !length_app. lia. }
      unfold edit_storage. cbn [mStorage]. rewrite E2. cbn [mbind result_bind mStorage].
      eexists id, h2, _, hole, junk. split; [done|]. split; [lia|]. split; [done|]. split; [done|]. split; [exact Ha2|].
      by eapply frame_trans.
Qed.

Lemma adopt_alone h vs id cap c l n :
  alone h vs id cap c -> holds c l -> n = Z.of_nat (length l) -> Z.of_nat (length vs) + 1 < 2 ^ 31 - 2 ->
  HInv h (mkVector (Some id) n :: vs) None /\ contents h (mkVector (Some id) n) = l.
Proof.
  intros Ha Hh -> Hv. destruct (alone_cells _ _ _ _ _ Ha) as (Ec & _). destruct Ha as (HI & _).
  split; [by apply (hinv_adopt h vs id c l)|by apply (contents_holds h id c)].
Qed.

Lemma hinv_length h v vs p : HInv h (v :: vs) p -> Z.of_nat (length vs) + 1 < 2 ^ 31 - 2.
Proof. intros HI. pose proof (hi_count _ _ _ HI) as H. simpl length in H. lia. Qed.

Lemma shrink_ok h vs v w k :
  HInv h (v :: vs) None -> (w + k <= length (contents h v))%nat -> fits (length (contents h v)) ->
  (0 < k)%nat \/ by_memmove = true \/ w = length (contents h v) ->
  exists v' h', shrink_ v (Z.of_nat w) (Z.of_nat k) h = Ok (v', h') /\ HInv h' (v' :: vs) None /\
    contents h' v' = take w (contents h v) ++ drop (w + k) (contents h v) /\ frame h h' vs None.
Proof.
  intros HI Hw Hfit Hk. pose proof (count_contents h vs v HI) as Hn. pose proof (hinv_length h v vs None HI) as Hvs. unfold shrink_.
  destruct (mStorage v) as [id0|] eqn:E; cycle 1.
  { assert (El : contents h v = []) by (unfold contents; by rewrite E). unfold is_some_storage. rewrite E.
    exists v, h. split; [done|]. split; [done|]. rewrite El, take_nil, drop_nil. split; [done|apply frame_refl]. }
  replace (is_some_storage v) with true by (unfold is_some_storage; by rewrite E). cbn [negb]. rewrite Hn.
  destruct (capacity_ok h vs v HI) as (cap & -> & Hcap & Hst). rewrite E in Hst. destruct Hst as (sb & Eb & ->). cbn [mbind result_bind].
  set (l := contents h v) in *. pose proof (fits_small _ Hfit) as Hsm.
  replace (Z.of_nat (length l) - Z.of_nat k) with (Z.of_nat (length l - k)) by lia. rewrite !(usize_small (Z.of_nat (length l - k))) by lia.
  rewrite (usize_small (_ * 3)), (usize_small (_ * 2)), max_spec by lia. unfold kMinVectorCapacity.
  assert (Hld : length (take w l ++ drop (w + k) l) = (length l - k)%nat) by (rewrite length_app, length_take, length_drop; lia).
  destruct (Z.ltb_spec (Z.of_nat (length l - k) * 3) (mSize sb / mItemSize)) as [Hlt|Hge].
  - set (newcap := Z.max 4 _). assert (Hnc : Z.of_nat (length l - k) <= newcap <= 3 * Z.of_nat (length l) + 4) by (unfold newcap; lia).
    clearbody newcap. destruct ((Z.of_nat w =? Z.of_nat (length l - k)) && flags_trivial) eqn:Eres.
    + apply andb_true_iff in Eres as [Ew%Z.eqb_eq Ef]. unfold flags_trivial in Ef. apply andb_true_iff in Ef as [_ Etd].
      destruct (resize_storage_ok h vs v id0 newcap w HI E Etd) as (id & h' & c & -> & Ha & Hh & Hf);
        [apply (fits_bytes (length l)); [done|lia]|fold l; lia|lia|]. cbn [mbind result_bind mStorage]. fold l in Hh.
      rewrite (drop_ge l) by lia. rewrite app_nil_r. eexists _, h'. split; [reflexivity|].
      destruct (adopt_alone h' vs id newcap c _ (Z.of_nat (length l - k)) Ha Hh) as [H1 H2]; [rewrite length_take; lia|done|].
      split; [done|]. by split.
    + destruct (new_storage_ok h vs v newcap (Z.of_nat w) (Z.of_nat w + Z.of_nat k) (Z.of_nat w) (Z.of_nat (length l - k) - Z.of_nat w) HI)
        as (id & h' & -> & Ha & Hf); fold l; [apply (fits_bytes (length l)); [done|lia]|lia..|]. cbn [mbind result_bind mStorage]. fold l in Ha.
      rewrite Nat2Z.id, Z.sub_diag in Ha. cbn [Z.to_nat replicate app] in Ha.
      replace (Z.to_nat (Z.of_nat w + Z.of_nat k)) with (w + k)%nat in Ha by lia. rewrite (take_ge (drop (w + k) l)) in Ha by (rewrite length_drop; lia).
      eexists _, h'. split; [reflexivity|].
      destruct (adopt_alone h' vs id newcap _ (take w l ++ drop (w + k) l) (Z.of_nat (length l - k)) Ha) as [H1 H2]; [|by rewrite Hld|done|].
      { eexists. rewrite fmap_app, <-app_assoc. split; [reflexivity|]. apply junk_ok_nones. }
      split; [done|]. by split.
  - destruct (editArrayImpl_ok h vs v id0 sb HI E Eb) as (id & h1 & c & -> & Ha & (junk & -> & Hj) & Hf). fold l in Ha. cbn [mbind result_bind].
    assert (Hsp : (Some <$> l) ++ junk = (Some <$> take w l) ++ (Some <$> take k (drop w l)) ++ (Some <$> drop (w + k) l) ++ junk).
    { rewrite <-drop_drop, !app_assoc, <-!fmap_app, <-app_assoc, (take_drop k), take_drop. done. }
    rewrite Hsp in Ha. assert (Hl1 : length (Some <$> take w l) = w) by (rewrite length_fmap, length_take; lia).
    assert (Hl2 : length (take k (drop w l)) = k) by (rewrite length_take, length_drop; lia).
    pose proof (destroy_type_ok (Some <$> take w l) (take k (drop w l)) ((Some <$> drop (w + k) l) ++ junk)) as Hd. rewrite Hl1, Hl2 in Hd.
    destruct (edit_alone h1 vs id _ _ (fun c => destroy_type c (Z.to_nat (Z.of_nat w)) (Z.to_nat (Z.of_nat k)))
      ((Some <$> take w l) ++ ended (take k (drop w l)) ++ (Some <$> drop (w + k) l) ++ junk) Ha) as (h2 & E2 & Ha2 & Hf2);
      [rewrite !Nat2Z.id; exact Hd|rewrite !length_app, ended_length, !length_fmap; lia|].
    unfold edit_storage. cbn [mStorage]. rewrite E2. cbn [mbind result_bind].
    destruct (Z.eqb_spec (Z.of_nat w) (Z.of_nat (length l - k))) as [Ew|Ew].
    + cbn [mbind result_bind mStorage]. rewrite (drop_ge l (w + k)) in Ha2 |- * by lia. rewrite app_nil_r. cbn [fmap list_fmap app] in Ha2.
      eexists _, h2. split; [reflexivity|].
      destruct (adopt_alone h2 vs id _ _ (take w l) (Z.of_nat (length l - k)) Ha2) as [H1 H2]; [|rewrite length_take; lia|done|].
      { eexists. split; [reflexivity|]. apply junk_ok_app. split; [apply ended_ok|done]. }
      split; [done|]. split; [done|]. by eapply frame_trans.
    + destruct (move_backward_ok (Some <$> take w l) (drop (w + k) l) (ended (take k (drop w l))) junk (w + k)) as (hole & Hho & Hhl & Em); [apply ended_ok| | |].
      { destruct Hk as [Hk|[Hk|Hk]]; [left|by right|lia]. intros En. apply (f_equal length) in En. rewrite ended_length, Hl2 in En. simpl in En. lia. }
      { rewrite ended_length. lia. }
      rewrite Hl1 in Em.
      destruct (edit_alone h2 vs id _ _ (fun c => move_backward_type c (Z.to_nat (Z.of_nat w)) (Z.to_nat (Z.of_nat w + Z.of_nat k))
         (Z.to_nat (Z.of_nat (length l - k) - Z.of_nat w))) ((Some <$> take w l) ++ (Some <$> drop (w + k) l) ++ hole ++ junk) Ha2) as (h3 & E3 & Ha3 & Hf3).
      { rewrite Nat2Z.id. replace (Z.to_nat (Z.of_nat w + Z.of_nat k)) with (w + k)%nat by lia.
        replace (Z.to_nat (Z.of_nat (length l - k) - Z.of_nat w)) with (length (drop (w + k) l)) by (rewrite length_drop; lia). exact Em. }
      { rewrite !length_app. lia. }
      rewrite E3. cbn [mbind result_bind mStorage]. eexists _, h3. split; [reflexivity|].
      destruct (adopt_alone h3 vs id _ _ (take w l ++ drop (w + k) l) (Z.of_nat (length l - k)) Ha3) as [H1 H2]; [|by rewrite Hld|done|].
      { eexists. rewrite fmap_app, <-app_assoc. split; [reflexivity|]. by apply junk_ok_app. }
      split; [done|]. split; [done|]. eapply frame_trans; [exact Hf|]. by eapply frame_trans.
Qed.

(** ** The operations on one vector *)

Lemma splat_turn_value id w (x : A) h k :
  splat_turn id w (Values [x]) h k = edit_cells h id (fun c => if trivial_copy then assign c (w + k) x else construct c (w + k) x).
Proof. done. Qed.

Lemma splat_alone vs id cap (x : A) (pre post : Cells) : forall k gap h p a,
  alone h vs id cap (p ++ gap ++ post) -> (length pre + a = length p)%nat -> length gap = k -> junk_ok gap ->
  exists h', foldM (splat_turn id (length pre) (Values [x])) h (seq a k) = Ok h' /\
    alone h' vs id cap (p ++ replicate k (Some x) ++ post) /\ frame h h' vs None.
Proof.
  induction k as [|k IH]; intros gap h p a Ha Hp Hl Hj.
  - destruct gap; [|done]. exists h. split; [done|]. split; [done|apply frame_refl].
  - destruct gap as [|j gap]; [done|]. apply junk_ok_cons in Hj as [Hj1 Hj]. cbn [seq foldM]. rewrite splat_turn_value, Hp. destruct (edit_alone h vs id cap _ (fun c => if trivial_copy then assign c (length p) x else construct c (length p) x)
      (p ++ Some x :: gap ++ post) Ha) as (h1 & -> & Ha1 & Hf1).
    + cbn [app]. destruct trivial_copy; [apply assign_ok|by apply vi_construct_ok].
    + rewrite !length_app. cbn [length app]. rewrite !length_app. lia.
    + cbn [mbind result_bind]. destruct (IH gap h1 (p ++ [Some x]) (S a)) as (h2 & -> & Ha2 & Hf2).
      * by rewrite <-app_assoc.
      * rewrite length_app. simpl. lia.
      * simpl in Hl. lia.
      * done.
      * exists h2. split; [done|]. split; [by rewrite <-app_assoc in Ha2|by eapply frame_trans].
Qed.

Lemma alone_adopted h vs id cap pre mid post junk n :
  alone h vs id cap ((Some <$> pre) ++ (Some <$> mid) ++ (Some <$> post) ++ junk) -> junk_ok junk ->
  n = Z.of_nat (length (pre ++ mid ++ post)) -> Z.of_nat (length vs) + 1 < 2 ^ 31 - 2 ->
  HInv h (mkVector (Some id) n :: vs) None /\ contents h (mkVector (Some id) n) = pre ++ mid ++ post.
Proof.
  intros Ha Hj Hn Hv. apply (adopt_alone h vs id cap _ _ n Ha); [|done|done]. exists junk. rewrite !fmap_app, <-!app_assoc. done.
Qed.

(** The elements that [insertAt] puts, where [new_item] does something. *)
Definition item_value (item : option A) : A := match item with Some x => x | None => new_item end.
Definition item_source (item : option A) : option source := match item with Some x => Some (Values [x]) | None => None end.

Lemma insertAt_ok h vs v item w k :
  HInv h (v :: vs) None -> (w <= length (contents h v))%nat -> fits (length (contents h v) + k) -> (0 < k)%nat ->
  (item = None -> trivial_ctor = false) ->
  exists v' h', insertAt v (item_source item) (Z.of_nat w) (Z.of_nat k) h = Ok (Z.of_nat w, v', h') /\ HInv h' (v' :: vs) None /\
    contents h' v' = take w (contents h v) ++ replicate k (item_value item) ++ drop w (contents h v) /\ frame h h' vs None.
Proof.
  intros HI Hw Hfit Hk Hitm. pose proof (count_contents h vs v HI) as Hn. pose proof (hinv_length h v vs None HI) as Hvs.
  unfold insertAt. rewrite Hn, (proj2 (Z.ltb_ge _ _)) by lia.
  destruct (grow_ok h vs v w k HI Hw Hfit ltac:(by left)) as (id & h1 & cap & gap & junk & -> & Hg & Hj1 & Hj2 & Ha & Hf).
  cbn [mbind result_bind]. set (l := contents h v) in *. rewrite !Nat2Z.id.
  assert (Hl1 : length (Some <$> take w l) = w) by (rewrite length_fmap, length_take; lia).
  assert (He : exists h2, (match item_source item with Some x => do_splat h1 id w x k | None => edit_cells h1 id (fun c => construct_type c w k) end) = Ok h2 /\
    alone h2 vs id cap ((Some <$> take w l) ++ (Some <$> replicate k (item_value item)) ++ (Some <$> drop w l) ++ junk) /\ frame h1 h2 vs None).
  { rewrite fmap_replicate. destruct item as [x|]; cbn [item_source item_value].
    - destruct (splat_alone vs id cap x (Some <$> take w l) ((Some <$> drop w l) ++ junk) k gap h1 (Some <$> take w l) 0 Ha) as (h2 & E2 & Ha2 & Hf2);
        [lia|done|done|]. rewrite Hl1 in E2. by exists h2.
    - pose proof (construct_type_ok (Some <$> take w l) gap ((Some <$> drop w l) ++ junk) k (Hitm eq_refl) Hg Hj1) as Hc. rewrite Hl1 in Hc.
      eapply (edit_alone h1 vs id cap _ (fun c => construct_type c w k)); [exact Ha|exact Hc|]. rewrite !length_app, length_replicate. lia. }
  destruct He as (h2 & E2 & Ha2 & Hf2). rewrite E2. cbn [mbind result_bind]. eexists _, h2. split; [reflexivity|].
  destruct (alone_adopted h2 vs id cap _ _ _ junk (Z.of_nat (length l + k)) Ha2 Hj2) as [H1 H2]; [|done|].
  { rewrite !length_app, length_take, length_drop, length_replicate. lia. }
  split; [done|]. split; [done|]. by eapply frame_trans.
Qed.

(** Elements from elsewhere: the caller's, or those of another vector. *)
Lemma insertArrayAt_ok h vs v src xs w :
  HInv h (v :: vs) None -> (w <= length (contents h v))%nat -> fits (length (contents h v) + length xs) -> xs <> [] ->
  (forall h', frame h h' vs None -> read_cells h' src (length xs) = Ok (Some <$> xs)) ->
  exists v' h', insertArrayAt v src (Z.of_nat w) (Z.of_nat (length xs)) h = Ok (Z.of_nat w, v', h') /\ HInv h' (v' :: vs) None /\
    contents h' v' = take w (contents h v) ++ xs ++ drop w (contents h v) /\ frame h h' vs None.
Proof.
  intros HI Hw Hfit Hk Hsrc. pose proof (count_contents h vs v HI) as Hn. pose proof (hinv_length h v vs None HI) as Hvs.
  unfold insertArrayAt. rewrite Hn, (proj2 (Z.ltb_ge _ _)) by lia.
  destruct (grow_ok h vs v w (length xs) HI Hw Hfit) as (id & h1 & cap & gap & junk & -> & Hg & Hj1 & Hj2 & Ha & Hf).
  { left. destruct xs; [done|simpl; lia]. }
  cbn [mbind result_bind]. set (l := contents h v) in *. rewrite !Nat2Z.id.
  assert (Hl1 : length (Some <$> take w l) = w) by (rewrite length_fmap, length_take; lia).
  destruct (copy_alone h1 vs id cap _ gap _ src (length xs) xs Ha) as (h2 & E2 & Ha2 & Hf2); [by apply Hsrc|done|done|].
  rewrite Hl1 in E2. rewrite E2. cbn [mbind result_bind]. eexists _, h2. split; [reflexivity|].
  destruct (alone_adopted h2 vs id cap _ _ _ junk (Z.of_nat (length l + length xs)) Ha2 Hj2) as [H1 H2]; [|done|].
  { rewrite !length_app, length_take, length_drop. lia. }
  split; [done|]. split; [done|]. by eapply frame_trans.
Qed.

Lemma replaceAt_ok h vs v item w :
  HInv h (v :: vs) None -> (w < length (contents h v))%nat -> (item = None -> trivial_ctor = false) ->
  exists v' h', replaceAt v (item_source item) (Z.of_nat w) h = Ok (Z.of_nat w, v', h') /\ HInv h' (v' :: vs) None /\
    contents h' v' = <[w := item_value item]> (contents h v) /\ frame h h' vs None.
Proof.
  intros HI Hw Hitm. pose proof (count_contents h vs v HI) as Hn. pose proof (hinv_length h v vs None HI) as Hvs.
  destruct (mStorage v) as [id0|] eqn:E; [|unfold contents in Hw; rewrite E in Hw; simpl in Hw; lia].
  destruct (hinv_storage h (v :: vs) None v id0 HI ltac:(by left) E) as [sb Eb].
  destruct (editArrayImpl_ok h vs v id0 sb HI E Eb) as (id & h1 & c & Ee & Ha & (junk & -> & Hj) & Hf). unfold replaceAt. rewrite Ee.
  cbn [mbind result_bind mStorage]. set (l := contents h v) in *. replace (same_place (Some id) (Z.of_nat w) (item_source item)) with false by (by destruct item).
  destruct (nth_lookup_or_length l w new_item) as [El|?]; [|lia]. set (y := nth w l new_item) in *. clearbody y.
  assert (Hsp : (Some <$> l) ++ junk = (Some <$> take w l) ++ (Some <$> [y]) ++ (Some <$> drop (S w) l) ++ junk).
  { rewrite <-(take_drop_middle l w y El) at 1. by rewrite fmap_app, <-app_assoc. }
  rewrite Hsp in Ha. rewrite !Nat2Z.id. assert (Hl1 : length (Some <$> take w l) = w) by (rewrite length_fmap, length_take; lia).
  pose proof (destroy_type_ok (Some <$> take w l) [y] ((Some <$> drop (S w) l) ++ junk)) as Hd. rewrite Hl1 in Hd.
  destruct (edit_alone h1 vs id _ _ (fun c => destroy_type c w 1) ((Some <$> take w l) ++ ended [y] ++ (Some <$> drop (S w) l) ++ junk) Ha)
    as (h2 & E2 & Ha2 & Hf2); [exact Hd|rewrite !length_app, ended_length, length_fmap; done|]. rewrite E2. cbn [mbind result_bind].
  assert (He : exists h3, (match item_source item with None => edit_cells h2 id (fun c => construct_type c w 1) | Some src => do_copy h2 id w src 1 end) = Ok h3 /\
    alone h3 vs id (mSize sb / mItemSize) ((Some <$> take w l) ++ (Some <$> [item_value item]) ++ (Some <$> drop (S w) l) ++ junk) /\ frame h2 h3 vs None).
  { destruct item as [x|]; cbn [item_source item_value].
    - destruct (copy_alone h2 vs id _ _ (ended [y]) _ (Values [x]) 1 [x] Ha2) as (h3 & E3 & Ha3 & Hf3); [done|by rewrite ended_length|apply ended_ok|].
      rewrite Hl1 in E3. by exists h3.
    - pose proof (construct_type_ok (Some <$> take w l) (ended [y]) ((Some <$> drop (S w) l) ++ junk) 1 (Hitm eq_refl) (ended_length [y]) (ended_ok [y])) as Hc.
      rewrite Hl1 in Hc. eapply (edit_alone h2 vs id _ _ (fun c => construct_type c w 1)); [exact Ha2|exact Hc|].
      rewrite !length_app, ended_length. done. }
  destruct He as (h3 & E3 & Ha3 & Hf3). rewrite E3. cbn [mbind result_bind]. eexists _, h3. split; [reflexivity|].
  destruct (alone_adopted h3 vs id _ _ _ _ junk (mCount v) Ha3 Hj) as [H1 H2]; [|done|].
  { rewrite Hn, !length_app, length_take, length_drop. simpl. lia. }
  split; [done|]. rewrite H2. split; [by rewrite insert_take_drop|]. eapply frame_trans; [exact Hf|]. by eapply frame_trans.
Qed.

Lemma setCapacity_ok h vs v n :
  HInv h (v :: vs) None -> 0 <= n < 2 ^ (bits - 1) -> Z.of_nat (length (contents h v)) < 2 ^ (bits - 1) -> bytes_fit (n * mItemSize) ->
  exists r v' h', setCapacity v n h = Ok (r, v', h') /\ n <= r /\ HInv h' (v' :: vs) None /\
    contents h' v' = contents h v /\ frame h h' vs None.
Proof.
  intros HI Hn1 Hl1 Hb. pose proof (count_contents h vs v HI) as Hn. pose proof (hinv_length h v vs None HI) as Hvs.
  assert (Hpow : 2 ^ bits = 2 * 2 ^ (bits - 1)) by (rewrite <-Z.pow_succ_r by lia; f_equal; lia).
  unfold setCapacity. destruct (capacity_ok h vs v HI) as (cap & -> & Hcap & _). cbn [mbind result_bind]. set (l := contents h v) in *.
  rewrite Hn. unfold ssize. rewrite Z.mod_small by lia.
  destruct (Z.leb_spec (n - Z.of_nat (length l) + 2 ^ (bits - 1) - 2 ^ (bits - 1)) 0) as [Hle|Hgt].
  - exists cap, v, h. split; [done|]. split; [lia|]. split; [done|]. split; [done|apply frame_refl].
  - destruct Hb as [Hb1 Hb2]. rewrite usize_small by lia. destruct (vi_alloc_ok h (v :: vs) (n * mItemSize) HI) as (id & h1 & -> & Ha1 & Hf1); [done|].
    rewrite Z.div_mul in Ha1 by lia. rewrite (nones_split (Z.to_nat n) (length l)) in Ha1 by lia.
    edestruct (copy_alone h1 (v :: vs) id n [] _ _ (array_of v) (length l) l Ha1) as (h2 & E2 & Ha2 & Hf2); [|by rewrite length_replicate|apply junk_ok_nones|].
    { unfold array_of. destruct (mStorage v) as [id0|] eqn:E.
      - rewrite (read_part_frame h h1 vs v id0 0 (length l) HI Hf1 E) by (fold l; lia). fold l. by rewrite drop_0, firstn_all.
      - assert (El : l = []) by (unfold l, contents; by rewrite E). by rewrite El. }
    rewrite Nat2Z.id. cbn [length] in E2. rewrite E2. cbn [mbind result_bind].
    destruct (release_alone h2 vs v id _ _ Ha2) as (h3 & -> & Ha3 & Hf3). cbn [mbind result_bind].
    exists n, (mkVector (Some id) (Z.of_nat (length l))), h3. split; [done|]. split; [done|].
    destruct (adopt_alone h3 vs id n _ l (Z.of_nat (length l)) Ha3) as [H1 H2]; [|done|done|].
    { eexists. split; [reflexivity|]. apply junk_ok_nones. }
    split; [done|]. split; [done|]. eapply frame_trans; [exact (frame_cons _ _ _ _ Hf1)|]. eapply frame_trans; [exact (frame_cons _ _ _ _ Hf2)|done].
Qed.

(** A copy of a vector, which shares its storage. *)
Lemma vi_share_ok h vs v : HInv h vs None -> v ∈ vs -> Z.of_nat (length vs) + 1 < 2 ^ 31 - 2 ->
  exists h', (match mStorage v with None => Ok h | Some id => acquire id h end) = Ok h' /\
    HInv h' (v :: vs) None /\ contents h' v = contents h v /\ frame h h' vs None.
Proof.
  intros HI Hv Hl. destruct (mStorage v) as [id|] eqn:E.
  - destruct (hinv_storage h vs None v id HI Hv E) as [sb Eb]. unfold acquire, the_buffer. rewrite Eb. cbn [from_option_or mbind result_bind].
    eexists. split; [reflexivity|]. set (h' := set_buffer _ _ _).
    assert (Hfr : forall id', cells_at h' id' = cells_at h id').
    { intros id'. unfold h', cells_at, set_buffer, set_buffers. cbn [buffers]. destruct (decide (id' = id)) as [->|].
      - by rewrite lookup_insert_eq, Eb.
      - by rewrite lookup_insert_ne. }
    assert (Hf : frame h h' vs None) by (intros ? _; apply Hfr).
    split; [|split; [by apply (frame_contents h h' vs None)|done]]. split; cbn [buffers fresh answers].
    + intros u Hu. apply (frame_vec_ok h h' vs None); [done| |]; apply elem_of_cons in Hu as [->|Hu]; try done; by apply (hi_vec _ _ _ HI).
    + intros id' sb' E'. unfold h', set_buffer, set_buffers in E' |- *. cbn [buffers fresh] in E' |- *. rewrite users_cons.
      destruct (decide (id' = id)) as [->|Hne].
      * rewrite lookup_insert_eq in E'. injection E' as <-. destruct (hi_buf _ _ _ HI id sb Eb) as [H1 (H2 & H3 & H4 & H5)]. split; [done|].
        rewrite (decide_True (P := mStorage v = Some id)) by done. rewrite (decide_False (P := None = Some id)) in * by done.
        pose proof (users_bound id vs). split; [done|]. split; [done|]. cbn [mRefs]. rewrite s32_small by lia. lia.
      * rewrite lookup_insert_ne in E' by done. rewrite (decide_False (P := mStorage v = Some id')) by congruence. by apply (hi_buf _ _ _ HI).
    + done.
    + simpl. lia.
    + apply (hi_memory _ _ _ HI).
  - exists h. split; [done|]. split; [|split; [done|apply frame_refl]].
    pose proof (hi_vec _ _ _ HI v Hv) as Hok. unfold vec_ok in Hok. rewrite E in Hok. destruct v as [st n]. cbn [mStorage mCount] in *. subst st n.
    by apply hinv_empty_cons.
Qed.

(** *** Sorting *)

(** The elements so far, the last one first, with one more: the reference. *)
Fixpoint ins (cmp : A -> A -> Z) (r : list A) (x : A) : list A :=
  match r with
  | [] => [x]
  | y :: r' => if 0 <? cmp y x then y :: ins cmp r' x else x :: r
  end.

Definition sorted_by (cmp : A -> A -> Z) (l : list A) : list A := rev (foldl (ins cmp) [] l).

Section SortOk.
Context (cmp : A -> A -> Z).

Lemma replace_one (p q : Cells) (z x : A) :
  exists c, destroy_type (p ++ Some z :: q) (length p) 1 = Ok c /\ copy_type c (length p) [Some x] = Ok (p ++ Some x :: q) /\
    forall i y, (i < length p)%nat -> object_at (p ++ Some z :: q) i = Ok y -> object_at c i = Ok y.
Proof.
  exists (p ++ ended [z] ++ q). split; [exact (destroy_type_ok p [z] q)|]. split; [apply (copy_type_ok p (ended [z]) q [x]); [by rewrite ended_length|apply ended_ok]|].
  intros i y Hi. unfold object_at. by rewrite !lookup_app_l by done.
Qed.

Lemma object_at_middle (p q : Cells) x i : i = length p -> object_at (p ++ Some x :: q) i = Ok x.
Proof. intros ->. apply object_at_ok. Qed.

Lemma shift_up_ok x : forall r y z rest fuel,
  0 < cmp y x -> (length (y :: r) < fuel)%nat ->
  exists pre z' post, shift_up cmp ((Some <$> rev (y :: r)) ++ Some z :: rest) x (length (y :: r)) fuel = Ok (pre ++ Some z' :: post, length pre) /\
    pre ++ Some x :: post = (Some <$> rev (ins cmp (y :: r) x)) ++ rest.
Proof.
  induction r as [|y2 r IH]; intros y z rest fuel Hy Hfuel.
  - destruct fuel as [|fuel]; [simpl in Hfuel; lia|]. cbn [length shift_up rev app fmap list_fmap].
    destruct (replace_one [Some y] rest z y) as (c & Ed & Ec & Ho). cbn [length app] in Ed, Ec, Ho. rewrite Ed. cbn [mbind result_bind].
    rewrite (Ho 0%nat y) by (simpl; auto). cbn [mbind result_bind]. rewrite Ec. cbn [mbind result_bind].
    exists [], y, (Some y :: rest). split; [done|]. cbn [ins app]. apply Z.ltb_lt in Hy. by rewrite Hy.
  - destruct fuel as [|fuel]; [simpl in Hfuel; lia|]. change (length (y :: y2 :: r)) with (S (length (y2 :: r))). cbn [shift_up].
    assert (Hl : length (Some <$> rev (y :: y2 :: r)) = S (length (y2 :: r))) by (by rewrite length_fmap, length_rev).
    destruct (replace_one (Some <$> rev (y :: y2 :: r)) rest z y) as (c & Ed & Ec & Ho). rewrite Hl in Ed, Ec, Ho. rewrite Ed. cbn [mbind result_bind].
    assert (Esp : forall q, (Some <$> rev (y :: y2 :: r)) ++ q = (Some <$> rev (y2 :: r)) ++ Some y :: q).
    { intros q. change (rev (y :: y2 :: r)) with (rev (y2 :: r) ++ [y]). by rewrite fmap_app, <-app_assoc. }
    assert (Hl2 : length (Some <$> rev (y2 :: r)) = length (y2 :: r)) by (by rewrite length_fmap, length_rev).
    rewrite (Ho (length (y2 :: r)) y); [|lia|rewrite Esp; by apply object_at_middle]. cbn [mbind result_bind]. rewrite Ec. cbn [mbind result_bind].
    rewrite Esp. cbn [length]. assert (Eat : object_at ((Some <$> rev (y2 :: r)) ++ Some y :: Some y :: rest) (length r) = Ok y2).
    { change (rev (y2 :: r)) with (rev r ++ [y2]). rewrite fmap_app, <-app_assoc. cbn [fmap list_fmap app]. apply object_at_middle.
      by rewrite length_fmap, length_rev. }
    rewrite Eat. cbn [mbind result_bind]. destruct (Z.ltb_spec 0 (cmp y2 x)) as [Hy2|Hy2].
    + destruct (IH y2 y (Some y :: rest) fuel Hy2) as (pre & z' & post & Es & Eq); [simpl in *; lia|].
      exists pre, z', post. split; [exact Es|]. rewrite Eq. cbn [ins]. apply Z.ltb_lt in Hy. rewrite Hy. cbn [rev]. by rewrite fmap_app, <-app_assoc.
    + exists (Some <$> rev (y2 :: r)), y, (Some y :: rest). rewrite Hl2. split; [done|]. cbn [ins]. apply Z.ltb_lt in Hy. rewrite Hy.
      rewrite (proj2 (Z.ltb_ge 0 _)) by lia. change (rev (y :: x :: y2 :: r)) with ((rev (y2 :: r) ++ [x]) ++ [y]).
      by rewrite !fmap_app, <-!app_assoc.
Qed.

Lemma ins_length r x : length (ins cmp r x) = S (length r).
Proof. induction r as [|y r IH]; [done|]. cbn [ins]. destruct (0 <? cmp y x); cbn [length]; [by rewrite IH|done]. Qed.

(** The array for the first change is the vector's own. *)
Lemma prepare_ok h vs v made :
  HInv h (v :: vs) None -> (0 < length (contents h v))%nat -> (made = true -> forall id, mStorage v = Some id -> users id vs = 0%nat) ->
  exists id h' cap c, prepare made v h = Ok (true, mkVector (Some id) (mCount v), h') /\ alone h' vs id cap c /\ holds c (contents h v) /\ frame h h' vs None.
Proof.
  intros HI Hl Hm. destruct (mStorage v) as [id0|] eqn:E; [|unfold contents in Hl; rewrite E in Hl; simpl in Hl; lia].
  destruct (hinv_storage h (v :: vs) None v id0 HI ltac:(by left) E) as [sb Eb]. unfold prepare. destruct made.
  - destruct (cells_stored h vs v id0 HI E) as (junk & Ec & Hj). exists id0, h, (mSize sb / mItemSize), (cells sb).
    split; [destruct v as [st n]; cbn [mStorage mCount] in *; by subst st|]. split; [|split; [|apply frame_refl]].
    + apply (only_owner_alone h vs v id0 sb); [done|done|done|]. destruct (hi_buf _ _ _ HI id0 sb Eb) as [_ (_ & _ & Hr & _)].
      rewrite users_cons in Hr. rewrite (decide_True (P := mStorage v = Some id0)) in Hr by done. rewrite (Hm eq_refl id0 eq_refl) in Hr. exact Hr.
    + exists junk. unfold cells_at in Ec. rewrite Eb in Ec. cbn in Ec. split; [congruence|done].
  - destruct (editArrayImpl_ok h vs v id0 sb HI E Eb) as (id & h1 & c & -> & Ha & Hh & Hf). cbn [mbind result_bind].
    unfold has_memory. rewrite (hi_memory _ _ _ (proj1 Ha)). by exists id, h1, (mSize sb / mItemSize), c.
Qed.

Lemma sort_turn_ok h vs v made r y x rest :
  HInv h (v :: vs) None -> contents h v = rev (y :: r) ++ x :: rest -> (made = true -> forall id, mStorage v = Some id -> users id vs = 0%nat) ->
  exists made' v' h', sort_turn cmp (made, None, v, h) (length (y :: r)) = Ok (made', None, v', h') /\ HInv h' (v' :: vs) None /\
    contents h' v' = rev (ins cmp (y :: r) x) ++ rest /\ (made' = true -> forall id, mStorage v' = Some id -> users id vs = 0%nat) /\ frame h h' vs None.
Proof.
  intros HI El Hm. pose proof (count_contents h vs v HI) as Hn. pose proof (hinv_length h v vs None HI) as Hvs.
  destruct (mStorage v) as [id0|] eqn:E; [|unfold contents in El; rewrite E in El; by destruct (rev (y :: r))].
  destruct (cells_stored h vs v id0 HI E) as (junk & Ec & Hj). destruct (hinv_storage h (v :: vs) None v id0 HI ltac:(by left) E) as [sb Eb].
  unfold cells_at in Ec. rewrite Eb in Ec. cbn in Ec. injection Ec as Ec. unfold sort_turn. rewrite E. cbn [from_option_or mbind result_bind].
  unfold the_buffer. rewrite Eb. cbn [from_option_or mbind result_bind].
  assert (Hl1 : length (Some <$> rev (y :: r)) = length (y :: r)) by (by rewrite length_fmap, length_rev).
  assert (Hcells : forall j, (Some <$> contents h v) ++ j = (Some <$> rev (y :: r)) ++ Some x :: (Some <$> rest) ++ j).
  { intros j. rewrite El, fmap_app. by rewrite <-app_assoc. }
  assert (Hx : forall j, object_at ((Some <$> contents h v) ++ j) (length (y :: r)) = Ok x) by (intros j; rewrite Hcells; by apply object_at_middle).
  assert (Hy : object_at (cells sb) (length (y :: r) - 1) = Ok y).
  { rewrite Ec, Hcells. cbn [rev]. rewrite fmap_app, <-app_assoc. cbn [fmap list_fmap app]. apply object_at_middle. rewrite length_fmap, length_rev. simpl. lia. }
  assert (Hx0 : object_at (cells sb) (length (y :: r)) = Ok x) by (by rewrite Ec, Hx).
  rewrite Hx0, Hy. cbn [mbind result_bind]. destruct (Z.ltb_spec 0 (cmp y x)) as [Hc|Hc].
  - destruct (prepare_ok h vs v made HI) as (id & h1 & cap & c & -> & Ha & (junk1 & -> & Hj1) & Hf); [rewrite El, length_app; simpl; lia|by rewrite E|].
    cbn [mbind result_bind negb mStorage from_option_or]. pose proof Ha as (HI1 & Hu1 & sb1 & Eb1 & Ec1 & _). rewrite Eb1.
    cbn [from_option_or mbind result_bind]. rewrite Ec1, Hx. cbn [mbind result_bind]. rewrite Hcells.
    destruct (shift_up_ok x r y x ((Some <$> rest) ++ junk1) (S (length (y :: r))) Hc) as (pre & z & post & -> & Eq); [lia|]. cbn [mbind result_bind].
    destruct (replace_one pre post z x) as (c1 & -> & Ed & _). cbn [mbind result_bind]. rewrite Ed. cbn [mbind result_bind].
    destruct (edit_alone h1 vs id cap _ (fun _ => Ok (pre ++ Some x :: post)) (pre ++ Some x :: post) Ha eq_refl) as (h2 & E2 & Ha2 & Hf2).
    { rewrite Eq, !length_app, !length_fmap, El, length_app, !length_rev, ins_length. simpl. lia. }
    unfold edit_cells, the_buffer in E2. rewrite Eb1 in E2. cbn [from_option_or mbind result_bind] in E2. injection E2 as <-.
    eexists true, _, _. split; [reflexivity|]. rewrite Eq in Ha2.
    destruct (adopt_alone _ vs id cap _ (rev (ins cmp (y :: r) x) ++ rest) (mCount v) Ha2) as [H1 H2].
    + exists junk1. by rewrite fmap_app, <-app_assoc.
    + rewrite Hn, El, !length_app, !length_rev, ins_length. simpl. lia.
    + done.
    + rewrite Eq. split; [exact H1|]. split; [exact H2|]. split; [intros _ id' [= <-]; done|]. rewrite Eq in Hf2. by eapply frame_trans.
  - exists made, v, h. split; [done|]. split; [done|]. split; [|split; [by rewrite E|apply frame_refl]].
    rewrite El. cbn [ins]. rewrite (proj2 (Z.ltb_ge _ _)) by lia. cbn [rev]. by rewrite <-!app_assoc.
Qed.

Lemma sort_ok h vs v :
  HInv h (v :: vs) None ->
  exists v' h', sort cmp v h = Ok (NO_ERROR, v', h') /\ HInv h' (v' :: vs) None /\ contents h' v' = sorted_by cmp (contents h v) /\ frame h h' vs None.
Proof.
  intros HI. pose proof (count_contents h vs v HI) as Hn. set (l := contents h v) in *. unfold sort. rewrite Hn.
  destruct (Z.ltb_spec 1 (Z.of_nat (length l))) as [Hl|Hl].
  2:{ exists v, h. split; [done|]. split; [done|]. split; [|apply frame_refl]. fold l. destruct l as [|a [|b l]]; [done|done|simpl in Hl; lia]. }
  rewrite Nat2Z.id. destruct l as [|a l'] eqn:El; [simpl in Hl; lia|].
  assert (H : forall rest i made v1 h1 r, contents h1 v1 = rev r ++ rest -> length r = i -> (0 < i)%nat -> HInv h1 (v1 :: vs) None ->
     (made = true -> forall id, mStorage v1 = Some id -> users id vs = 0%nat) -> frame h h1 vs None ->
     exists made' v' h', foldM (sort_turn cmp) (made, None, v1, h1) (seq i (length rest)) = Ok (made', None, v', h') /\ HInv h' (v' :: vs) None /\
       contents h' v' = rev (foldl (ins cmp) r rest) /\ frame h h' vs None).
  { induction rest as [|x rest IH]; intros i made v1 h1 r Hc Hr Hi HI1 Hm Hf.
    - exists made, v1, h1. split; [done|]. split; [done|]. split; [|done]. by rewrite Hc, app_nil_r.
    - destruct r as [|y r]; [simpl in Hr; lia|].
      destruct (sort_turn_ok h1 vs v1 made r y x rest HI1 Hc Hm) as (made2 & v2 & h2 & E2 & HI2 & Hc2 & Hm2 & Hf2). rewrite Hr in E2.
      cbn [length seq foldM]. rewrite E2. cbn [mbind result_bind foldl].
      apply (IH (S i) made2 v2 h2 (ins cmp (y :: r) x)); [done|by rewrite ins_length, Hr|lia|done|done|by eapply frame_trans]. }
  destruct (H l' 1%nat false v h [a]) as (made' & v' & h' & E & HI' & Hc' & Hf'); [done|done|lia|done|done|apply frame_refl|].
  cbn [length]. replace (S (length l') - 1)%nat with (length l') by lia. rewrite E. cbn [mbind result_bind].
  exists v', h'. split; [done|]. split; [done|]. split; [by rewrite Hc'|done].
Qed.

End SortOk.

(** ** Many vectors *)

Record World := mkWorld { heap : Heap; vectors : gmap Z VectorImpl }.

Definition the_vector (w : World) (v : Z) : result VectorImpl := from_option_or UseAfterFree (vectors w !! v).
Definition set_vector (w : World) (v : Z) (x : VectorImpl) (h : Heap) : World := mkWorld h (<[v := x]> (vectors w)).

(** What programs do with vectors, with values of their own for new elements. *)
Inductive event :=
  | New (v : Z)
  | CopyOf (v u : Z)
  | Assign (v u : Z)
  | InsertAt (v : Z) (item : option A) (index numItems : Z)
  | InsertArray (v : Z) (xs : list A) (index : Z)
  | InsertVector (v u index : Z)
  | Push (v : Z) (x : A)
  | Pop (v : Z)
  | ReplaceAt (v : Z) (item : option A) (index : Z)
  | RemoveItems (v index count : Z)
  | Clear (v : Z)
  | SetCapacity (v new_capacity : Z)
  | Sort (v : Z) (cmp : A -> A -> Z)
  | Finish (v : Z).

Definition void (r : result (VectorImpl * Heap)) : result (Z * VectorImpl * Heap) := '(x, h) ← r; Ok (0, x, h).

(** An operation of [v]. *)
Definition on_vector (w : World) (v : Z) (f : VectorImpl -> Heap -> result (Z * VectorImpl * Heap)) : result (Z * World) :=
  x ← the_vector w v; '(r, x, h) ← f x (heap w); Ok (r, set_vector w v x h).

Definition run_event (w : World) (e : event) : result (Z * World) :=
  match e with
  | New v => Ok (0, set_vector w v new_VectorImpl (heap w))
  | CopyOf v u => y ← the_vector w u; '(x, h) ← copy_VectorImpl y (heap w); Ok (0, set_vector w v x h)
  | Assign v u =>
      y ← the_vector w u;
      on_vector w v (fun x h => if v =? u then Ok (0, x, h) else void (assign_VectorImpl x y h))
  | InsertAt v item i n => on_vector w v (fun x => insertAt x (item_source item) i n)
  | InsertArray v xs i => on_vector w v (fun x => insertArrayAt x (Values xs) i (Z.of_nat (length xs)))
  | InsertVector v u i => y ← the_vector w u; on_vector w v (fun x => insertVectorAt x y i)
  | Push v a => on_vector w v (fun x h => void (push x (Some (Values [a])) h))
  | Pop v => on_vector w v (fun x h => void (pop x h))
  | ReplaceAt v item i => on_vector w v (fun x => replaceAt x (item_source item) i)
  | RemoveItems v i n => on_vector w v (fun x => removeItemsAt x i n)
  | Clear v => on_vector w v (fun x h => void (clear x h))
  | SetCapacity v n => on_vector w v (fun x => setCapacity x n)
  | Sort v cmp => on_vector w v (fun x => sort cmp x)
  | Finish v => x ← the_vector w v; '(_, h) ← finish_vector x (heap w); Ok (0, mkWorld h (delete v (vectors w)))
  end.

(** *** The specification: lists *)

Abbreviation values := (gmap Z (list A)).

(** What an operation makes of a list, and its answer where it is fixed. *)
Definition insert_list (l xs : list A) (index : Z) : option Z * list A :=
  if Z.of_nat (length l) <? index then (Some BAD_INDEX, l)
  else (Some index, take (Z.to_nat index) l ++ xs ++ drop (Z.to_nat index) l).

Definition spec_list (s : values) (l : list A) (e : event) : option Z * list A :=
  match e with
  | Assign _ u => (Some 0, default [] (s !! u))
  | InsertAt _ item i n => insert_list l (replicate (Z.to_nat n) (item_value item)) i
  | InsertArray _ xs i => insert_list l xs i
  | InsertVector _ u i => insert_list l (default [] (s !! u)) i
  | Push _ a => (Some 0, l ++ [a])
  | Pop _ => (Some 0, removelast l)
  | ReplaceAt _ item i => (Some i, <[Z.to_nat i := item_value item]> l)
  | RemoveItems _ i n =>
      if Z.of_nat (length l) <? i + n then (Some BAD_VALUE, l)
      else (Some i, take (Z.to_nat i) l ++ drop (Z.to_nat (i + n)) l)
  | Clear _ => (Some 0, [])
  | SetCapacity _ _ => (None, l)
  | Sort _ cmp => (Some NO_ERROR, sorted_by cmp l)
  | _ => (Some 0, l)
  end.

Definition target (e : event) : Z :=
  match e with
  | New v | CopyOf v _ | Assign v _ | InsertAt v _ _ _ | InsertArray v _ _ | InsertVector v _ _ | Push v _ | Pop v
  | ReplaceAt v _ _ | RemoveItems v _ _ | Clear v | SetCapacity v _ | Sort v _ | Finish v => v
  end.

Definition spec_event (s : values) (e : event) : option Z * values :=
  match e with
  | New v => (Some 0, <[v := []]> s)
  | CopyOf v u => (Some 0, <[v := default [] (s !! u)]> s)
  | Finish v => (Some 0, delete v s)
  | _ => let '(r, l) := spec_list s (default [] (s !! target e)) e in (r, <[target e := l]> s)
  end.

(** What is asked of programs: vectors that exist, indices in range where the code
    does not check them, sizes that fit the memory, something to insert, and no
    vector inserted into itself.  Removing nothing needs elements that [memmove] may
    move. *)
Definition proper_list (s : values) (l : list A) (e : event) : Prop :=
  match e with
  | Assign _ u => is_Some (s !! u)
  | InsertAt _ item i n => 0 <= i /\ 0 < n /\ fits (length l + Z.to_nat n) /\ (item = None -> trivial_ctor = false)
  | InsertArray _ xs i => 0 <= i /\ xs <> [] /\ fits (length l + length xs)
  | InsertVector v u i => 0 <= i /\ v <> u /\ exists xs, s !! u = Some xs /\ xs <> [] /\ fits (length l + length xs)
  | Push _ _ => fits (length l + 1)
  | Pop _ | Clear _ => fits (length l)
  | ReplaceAt _ item i => 0 <= i < Z.of_nat (length l) /\ (item = None -> trivial_ctor = false)
  | RemoveItems _ i n =>
      0 <= i /\ 0 <= n /\ i + n < 2 ^ bits /\ fits (length l) /\ (0 < n \/ by_memmove = true \/ i = Z.of_nat (length l))
  | SetCapacity _ n => 0 <= n < 2 ^ (bits - 1) /\ Z.of_nat (length l) < 2 ^ (bits - 1) /\ bytes_fit (n * mItemSize)
  | _ => True
  end.

Definition proper (s : values) (e : event) : Prop :=
  match e with
  | New v => s !! v = None /\ Z.of_nat (size s) + 1 < 2 ^ 31 - 2
  | CopyOf v u => s !! v = None /\ is_Some (s !! u) /\ Z.of_nat (size s) + 1 < 2 ^ 31 - 2
  | _ => exists l, s !! target e = Some l /\ proper_list s l e
  end.

(** The operations one after the other, and their answers. *)
Fixpoint run_events (w : World) (es : list event) : result (list Z * World) :=
  match es with
  | [] => Ok ([], w)
  | e :: es => '(r, w) ← run_event w e; '(rs, w) ← run_events w es; Ok (r :: rs, w)
  end.

Fixpoint spec_events (s : values) (es : list event) : list (option Z) * values :=
  match es with
  | [] => ([], s)
  | e :: es => let '(r, s) := spec_event s e in let '(rs, s) := spec_events s es in (r :: rs, s)
  end.

Fixpoint proper_events (s : values) (es : list event) : Prop :=
  match es with [] => True | e :: es => proper s e /\ proper_events (snd (spec_event s e)) es end.

(** The same, decided. *)
Definition fits_b (n : nat) : bool := sizeof_SharedBuffer + (3 * Z.of_nat n + 4) * mItemSize <? 2 ^ bits.
Definition is_nil {B} (l : list B) : bool := match l with [] => true | _ => false end.

Definition proper_list_b (s : values) (l : list A) (e : event) : bool :=
  match e with
  | Assign _ u => match s !! u with Some _ => true | None => false end
  | InsertAt _ item i n => (0 <=? i) && (0 <? n) && fits_b (length l + Z.to_nat n) && match item with Some _ => true | None => negb trivial_ctor end
  | InsertArray _ xs i => (0 <=? i) && negb (is_nil xs) && fits_b (length l + length xs)
  | InsertVector v u i =>
      (0 <=? i) && negb (v =? u) && match s !! u with Some xs => negb (is_nil xs) && fits_b (length l + length xs) | None => false end
  | Push _ _ => fits_b (length l + 1)
  | Pop _ | Clear _ => fits_b (length l)
  | ReplaceAt _ item i => (0 <=? i) && (i <? Z.of_nat (length l)) && match item with Some _ => true | None => negb trivial_ctor end
  | RemoveItems _ i n =>
      (0 <=? i) && (0 <=? n) && (i + n <? 2 ^ bits) && fits_b (length l) && ((0 <? n) || by_memmove || (i =? Z.of_nat (length l)))
  | SetCapacity _ n =>
      (0 <=? n) && (n <? 2 ^ (bits - 1)) && (Z.of_nat (length l) <? 2 ^ (bits - 1)) && (0 <=? n * mItemSize) &&
      (sizeof_SharedBuffer + n * mItemSize <? 2 ^ bits)
  | _ => true
  end.

Definition proper_b (s : values) (e : event) : bool :=
  match e with
  | New v => match s !! v with None => Z.of_nat (size s) + 1 <? 2 ^ 31 - 2 | Some _ => false end
  | CopyOf v u => match s !! v, s !! u with None, Some _ => Z.of_nat (size s) + 1 <? 2 ^ 31 - 2 | _, _ => false end
  | _ => match s !! target e with Some l => proper_list_b s l e | None => false end
  end.

Fixpoint proper_events_b (s : values) (es : list event) : bool :=
  match es with [] => true | e :: es => proper_b s e && proper_events_b (snd (spec_event s e)) es end.

Lemma is_nil_false {B} (l : list B) : negb (is_nil l) = true -> l <> [].
Proof. by destruct l. Qed.

Lemma proper_list_b_ok s l e : proper_list_b s l e = true -> proper_list s l e.
Proof.
  assert (Hit : forall item : option A, match item with Some _ => true | None => negb trivial_ctor end = true -> item = None -> trivial_ctor = false).
  { intros [a|] H; [done|]. intros _. by apply negb_true_iff. }
  unfold proper_list_b, proper_list, fits, bytes_fit, fits_b. destruct e; intros H;
    repeat match goal with
    | H : (_ && _) = true |- _ => apply andb_true_iff in H as [? ?]
    | H : match ?o with Some _ => _ | None => false end = true |- _ => destruct o eqn:?; [|discriminate H]
    | H : negb (is_nil _) = true |- _ => apply is_nil_false in H
    end; split_and?; try lia; try (by apply Z.ltb_lt); try done; try (by apply Hit); try (by eexists).
  - eexists. split; [reflexivity|]. split; [done|by apply Z.ltb_lt].
  - match goal with H : (_ || _) = true |- _ => apply orb_true_iff in H as [[?|?]%orb_true_iff|?] end; [left; lia|by right; left|right; right; lia].
Qed.

Lemma proper_b_ok s e : proper_b s e = true -> proper s e.
Proof.
  destruct e; cbn [proper_b proper target]; intros H;
    repeat match goal with
    | H : match ?o with Some _ => _ | None => _ end = true |- _ => destruct o eqn:?; try discriminate H
    end; try (eexists; split; [reflexivity|by apply proper_list_b_ok]); split_and!; try lia; try done; by eexists.
Qed.

Lemma proper_events_b_ok es : forall s, proper_events_b s es = true -> proper_events s es.
Proof.
  induction es as [|e es IH]; intros s H; [done|]. cbn [proper_events_b] in H. apply andb_true_iff in H as [H1 H2].
  split; [by apply proper_b_ok|by apply IH].
Qed.

(** *** The refinement *)

Definition all_vectors (m : gmap Z VectorImpl) : list VectorImpl := snd <$> map_to_list m.
Definition WInv (w : World) : Prop := HInv (heap w) (all_vectors (vectors w)) None.
Definition value (w : World) : values := contents (heap w) <$> vectors w.

Definition answers_as (spec : option Z) (r : Z) : Prop := match spec with Some s => r = s | None => True end.

Lemma all_vectors_insert m v x : all_vectors (<[v := x]> m) ≡ₚ x :: all_vectors (delete v m).
Proof. unfold all_vectors. rewrite <-insert_delete_eq. by rewrite map_to_list_insert by apply lookup_delete_eq. Qed.

Lemma all_vectors_lookup m v x : m !! v = Some x -> all_vectors m ≡ₚ x :: all_vectors (delete v m).
Proof. intros E. rewrite <-(insert_id m v x E) at 1. apply all_vectors_insert. Qed.

Lemma in_all_vectors m v x : m !! v = Some x -> x ∈ all_vectors m.
Proof. intros E. unfold all_vectors. apply list_elem_of_fmap. exists (v, x). split; [done|]. by apply elem_of_map_to_list. Qed.

Lemma length_all_vectors m : length (all_vectors m) = size m.
Proof. unfold all_vectors. by rewrite length_fmap, length_map_to_list. Qed.

(** A changed vector among the others. *)
Lemma changed w v x' h' :
  HInv h' (x' :: all_vectors (delete v (vectors w))) None -> frame (heap w) h' (all_vectors (delete v (vectors w))) None ->
  WInv (set_vector w v x' h') /\ value (set_vector w v x' h') = <[v := contents h' x']> (value w).
Proof.
  intros HI Hf. split.
  - unfold WInv, set_vector. cbn [heap vectors]. eapply hinv_perm; [|exact HI]. by rewrite all_vectors_insert.
  - unfold value, set_vector. cbn [heap vectors]. apply map_eq. intros i. rewrite lookup_fmap. destruct (decide (i = v)) as [->|Hne].
    + by rewrite !lookup_insert_eq.
    + rewrite !lookup_insert_ne, lookup_fmap by done. destruct (vectors w !! i) as [u|] eqn:E; [|done]. cbn. f_equal.
      apply (frame_contents (heap w) h' _ None u Hf). apply (in_all_vectors _ i). by rewrite lookup_delete_ne.
Qed.

Lemma value_lookup w v l : value w !! v = Some l -> exists x, vectors w !! v = Some x /\ contents (heap w) x = l.
Proof. unfold value. rewrite lookup_fmap. destruct (vectors w !! v) as [x|]; [|done]. intros [= <-]. by exists x. Qed.

Lemma winv_vector w v x : WInv w -> vectors w !! v = Some x -> HInv (heap w) (x :: all_vectors (delete v (vectors w))) None.
Proof. intros HI E. eapply hinv_perm; [|exact HI]. by apply all_vectors_lookup. Qed.

Lemma on_vector_ok w v l r l' f :
  WInv w -> value w !! v = Some l ->
  (forall x, let rest := all_vectors (delete v (vectors w)) in
     vectors w !! v = Some x -> HInv (heap w) (x :: rest) None -> contents (heap w) x = l ->
     exists x' h', f x (heap w) = Ok (r, x', h') /\ HInv h' (x' :: rest) None /\ contents h' x' = l' /\ frame (heap w) h' rest None) ->
  exists w', on_vector w v f = Ok (r, w') /\ WInv w' /\ value w' = <[v := l']> (value w).
Proof.
  intros HI El H. destruct (value_lookup w v l El) as (x & Ex & Ec). destruct (H x Ex (winv_vector w v x HI Ex) Ec) as (x' & h' & Ef & HI' & <- & Hf).
  unfold on_vector, the_vector. rewrite Ex. cbn [from_option_or mbind result_bind]. rewrite Ef. cbn [mbind result_bind].
  destruct (changed w v x' h' HI' Hf) as [H1 H2]. eexists. split; [reflexivity|]. by split.
Qed.

Lemma other_vector w v u xs : v <> u -> value w !! u = Some xs ->
  exists y, vectors w !! u = Some y /\ contents (heap w) y = xs /\ y ∈ all_vectors (delete v (vectors w)).
Proof.
  intros Hne E. destruct (value_lookup w u xs E) as (y & Ey & Ec). exists y. split; [done|]. split; [done|].
  apply (in_all_vectors _ u). by rewrite lookup_delete_ne.
Qed.

Lemma eta_vector y id : mStorage y = Some id -> mkVector (Some id) (mCount y) = y.
Proof. destruct y. cbn. by intros ->. Qed.

(** *** Single operations as the specification has them *)

Section Steps.
Context (w : World) (rest : list VectorImpl) (x : VectorImpl) (l : list A).
Context (HI : HInv (heap w) (x :: rest) None) (Hl : contents (heap w) x = l).

Definition step_result (r : Z) (l' : list A) (res : result (Z * VectorImpl * Heap)) : Prop :=
  exists x' h', res = Ok (r, x', h') /\ HInv h' (x' :: rest) None /\ contents h' x' = l' /\ frame (heap w) h' rest None.

Lemma unchanged r : step_result r l (Ok (r, x, heap w)).
Proof. exists x, (heap w). split; [done|]. split; [done|]. split; [done|apply frame_refl]. Qed.

Lemma step_insert item i n :
  0 <= i -> 0 < n -> fits (length l + Z.to_nat n) -> (item = None -> trivial_ctor = false) ->
  step_result (default 0 (fst (insert_list l (replicate (Z.to_nat n) (item_value item)) i))) (snd (insert_list l (replicate (Z.to_nat n) (item_value item)) i))
    (insertAt x (item_source item) i n (heap w)).
Proof.
  intros Hi Hn Hf Hit. unfold insert_list. destruct (Z.ltb_spec (Z.of_nat (length l)) i) as [Hlt|Hge].
  - unfold insertAt. rewrite (count_contents _ _ _ HI), Hl, (proj2 (Z.ltb_lt _ _)) by done. apply unchanged.
  - rewrite <-(Z2Nat.id i), <-(Z2Nat.id n) by lia. rewrite !Nat2Z.id. rewrite <-Hl. apply insertAt_ok; [done|rewrite Hl; lia|by rewrite Hl|lia|done].
Qed.

Lemma step_insert_array src xs i :
  0 <= i -> xs <> [] -> fits (length l + length xs) ->
  (forall h', frame (heap w) h' rest None -> read_cells h' src (length xs) = Ok (Some <$> xs)) ->
  step_result (default 0 (fst (insert_list l xs i))) (snd (insert_list l xs i)) (insertArrayAt x src i (Z.of_nat (length xs)) (heap w)).
Proof.
  intros Hi Hn Hf Hsrc. unfold insert_list. destruct (Z.ltb_spec (Z.of_nat (length l)) i) as [Hlt|Hge].
  - unfold insertArrayAt. rewrite (count_contents _ _ _ HI), Hl, (proj2 (Z.ltb_lt _ _)) by done. apply unchanged.
  - rewrite <-(Z2Nat.id i) by lia. rewrite !Nat2Z.id. rewrite <-Hl. apply insertArrayAt_ok; [done|rewrite Hl; lia|by rewrite Hl|done|done].
Qed.

Lemma step_remove i n :
  0 <= i -> 0 <= n -> i + n < 2 ^ bits -> fits (length l) -> 0 < n \/ by_memmove = true \/ i = Z.of_nat (length l) ->
  step_result (if Z.of_nat (length l) <? i + n then BAD_VALUE else i)
    (if Z.of_nat (length l) <? i + n then l else take (Z.to_nat i) l ++ drop (Z.to_nat (i + n)) l) (removeItemsAt x i n (heap w)).
Proof.
  intros Hi Hn Hin Hf Hg. unfold removeItemsAt. rewrite (count_contents _ _ _ HI), Hl, usize_small by lia.
  destruct (Z.ltb_spec (Z.of_nat (length l)) (i + n)) as [Hlt|Hge]; [apply unchanged|].
  destruct (shrink_ok (heap w) rest x (Z.to_nat i) (Z.to_nat n) HI) as (x' & h' & E & HI' & Ec & Hfr); rewrite ?Hl;
    [lia|done|destruct Hg as [?|[?|?]]; [left; lia|by right; left|right; right; lia]|].
  rewrite !Z2Nat.id in E by lia. rewrite E. cbn [mbind result_bind]. exists x', h'. split; [done|]. split; [done|].
  rewrite Ec, Hl. by replace (Z.to_nat (i + n)) with (Z.to_nat i + Z.to_nat n)%nat by lia.
Qed.

Lemma step_pop : fits (length l) -> step_result 0 (removelast l) (void (pop x (heap w))).
Proof.
  intros Hf. unfold pop. rewrite (count_contents _ _ _ HI), Hl. destruct (Z.eqb_spec (Z.of_nat (length l)) 0) as [E|E].
  - replace (removelast l) with l; [apply unchanged|]. clear - E. destruct l; [done|simpl in E; lia].
  - pose proof (fits_small _ Hf). destruct (step_remove (Z.of_nat (length l) - 1) 1) as (x' & h' & Er & HI' & Ec & Hfr); [lia|lia|lia|done|by left|].
    rewrite Er. cbn [mbind result_bind void]. exists x', h'. split; [done|]. split; [done|]. split; [|done]. rewrite Ec.
    rewrite (proj2 (Z.ltb_ge _ _)) by lia. rewrite removelast_firstn_len, (drop_ge l) by lia. rewrite app_nil_r. f_equal. lia.
Qed.

Lemma step_clear : fits (length l) -> step_result 0 [] (void (clear x (heap w))).
Proof.
  intros Hf. unfold clear. rewrite (count_contents _ _ _ HI), Hl.
  destruct (shrink_ok (heap w) rest x 0 (length l) HI) as (x' & h' & E & HI' & Ec & Hfr); rewrite ?Hl;
    [lia|done|destruct (decide (length l = 0)%nat); [right; right; lia|left; lia]|].
  change (Z.of_nat 0) with 0 in E. rewrite E. cbn [mbind result_bind void]. exists x', h'. split; [done|]. split; [done|]. split; [|done].
  rewrite Ec, Hl. cbn [Nat.add]. by rewrite drop_all.
Qed.

Lemma step_assign y ys : y ∈ rest -> contents (heap w) y = ys -> step_result 0 ys (void (assign_VectorImpl x y (heap w))).
Proof.
  intros Hy Hys. destruct (release_storage_ok (heap w) rest None x HI ltac:(by left)) as (h1 & Er & HI1 & Hf1 & _).
  unfold assign_VectorImpl. rewrite Er. cbn [mbind result_bind void].
  pose proof (hi_vec _ _ _ HI1 y Hy) as Hok. pose proof (frame_contents _ _ _ _ y Hf1 Hy) as Hc. destruct (vec_contents h1 y Hok) as [Hn _].
  rewrite Hc, Hys in Hn. pose proof (hinv_length _ _ _ _ HI) as Hlen. destruct (Z.eqb_spec (mCount y) 0) as [E|E].
  - cbn [negb mbind result_bind]. exists (mkVector None 0), h1. split; [done|]. split; [by apply hinv_empty_cons|].
    assert (ys = []) as -> by (destruct ys; [done|simpl in Hn; lia]). by split.
  - cbn [negb]. destruct (vi_share_ok h1 rest y HI1 Hy Hlen) as (h2 & Eh & HI2 & Ec2 & Hf2). unfold vec_ok in Hok.
    destruct (mStorage y) as [id|] eqn:Ey; [|lia]. rewrite Eh. cbn [mbind result_bind]. rewrite (eta_vector y id Ey).
    exists y, h2. split; [done|]. split; [done|]. split; [by rewrite Ec2, Hc|]. by eapply frame_trans.
Qed.

End Steps.

Lemma list_event_ok w e l :
  WInv w -> value w !! target e = Some l -> proper_list (value w) l e ->
  (match e with New _ | CopyOf _ _ | Finish _ => False | _ => True end) ->
  exists r w', run_event w e = Ok (r, w') /\ WInv w' /\ answers_as (fst (spec_list (value w) l e)) r /\
    value w' = <[target e := snd (spec_list (value w) l e)]> (value w).
Proof.
  intros HI El Hp Hk.
  assert (Hon : forall r f, (forall x, let rest := all_vectors (delete (target e) (vectors w)) in
      vectors w !! target e = Some x -> HInv (heap w) (x :: rest) None -> contents (heap w) x = l -> step_result w rest r (snd (spec_list (value w) l e)) (f x (heap w))) ->
    answers_as (fst (spec_list (value w) l e)) r ->
    exists r w', on_vector w (target e) f = Ok (r, w') /\ WInv w' /\ answers_as (fst (spec_list (value w) l e)) r /\
      value w' = <[target e := snd (spec_list (value w) l e)]> (value w)).
  { intros r f Hf Hr. destruct (on_vector_ok w (target e) l r _ f HI El Hf) as (w' & E & HI' & Ev). by exists r, w'. }
  assert (Hins : forall r xs i, insert_list l xs i = r -> answers_as (fst r) (default 0 (fst r))).
  { intros r xs i <-. unfold insert_list. by destruct (_ <? _). }
  destruct e as [v|v u|v u|v item i n|v xs i|v u i|v a|v|v item i|v i n|v|v n|v cmp|v]; cbn [target run_event spec_list proper_list fst snd] in *; try done.
  - destruct Hp as [ys Hys]. rewrite Hys. destruct (value_lookup w u ys Hys) as (y & Ey & Ec). unfold the_vector at 1. rewrite Ey.
    cbn [from_option_or mbind result_bind default]. rewrite Hys in Hon. apply (Hon 0); [|done].
    intros x Hx HIx Hlx.
    destruct (Z.eqb_spec v u) as [->|Hne].
    + assert (ys = l) as -> by congruence. by apply unchanged.
    + destruct (other_vector w v u ys Hne Hys) as (y' & Ey' & _ & Hin). assert (y' = y) as -> by congruence. by apply (step_assign w _ x HIx).
  - destruct Hp as (H1 & H2 & H3 & H4). eapply Hon; [|by eapply Hins]. intros x Hx HIx Hlx. by apply step_insert.
  - destruct Hp as (H1 & H2 & H3). eapply Hon; [|by eapply Hins]. intros x Hx HIx Hlx. apply step_insert_array; [done|done|done|done|done|].
    intros h' _. unfold read_cells. rewrite <-(app_nil_r (Some <$> xs)) at 1. apply (read_mid []); [done|by rewrite length_fmap].
  - destruct Hp as (H1 & H2 & xs & Hxs & H3 & H4). destruct (other_vector w v u xs H2 Hxs) as (y & Ey & Ec & Hin). unfold the_vector at 1. rewrite Ey.
    cbn [from_option_or mbind result_bind]. rewrite Hxs in *. cbn [default] in *. eapply Hon; [|by eapply Hins]. intros x Hx HIx Hlx.
    pose proof (hi_vec _ _ _ HIx y ltac:(by right)) as Hok. destruct (vec_contents _ _ Hok) as [Hn Hc]. rewrite Ec in Hn, Hc.
    unfold insertVectorAt. rewrite Hn. apply step_insert_array; [done|done|done|done|done|]. intros h' Hf. unfold array_of, vec_ok in *.
    destruct (mStorage y) as [id|] eqn:Est; [|destruct xs; [done|simpl in Hn; lia]]. destruct (Hc id eq_refl) as (c & Ecell & junk & -> & Hj).
    apply (read_stored h' id [] xs junk); [|done]. rewrite (Hf id); [done|]. right. exists y. by split.
  - apply (Hon 0); [|done]. intros x Hx HIx Hlx. destruct (step_insert w _ x l HIx Hlx (Some a) (Z.of_nat (length l)) 1) as (x' & h' & E & HI' & Ec & Hf);
      [lia|lia|done|done|]. unfold push, insert_list in *. rewrite Z.ltb_irrefl in E, Ec. cbn [fst default item_source snd] in E, Ec.
    rewrite (count_contents _ _ _ HIx), Hlx, E. cbn [mbind result_bind void]. exists x', h'. split; [done|]. split; [done|]. split; [|done].
    rewrite Ec, Nat2Z.id, firstn_all, drop_all, app_nil_r. done.
  - apply (Hon 0); [|done]. intros x Hx HIx Hlx. by apply step_pop.
  - destruct Hp as [H1 H2]. apply (Hon i); [|done]. intros x Hx HIx Hlx. rewrite <-(Z2Nat.id i) at 1 3 by lia. rewrite <-Hlx.
    apply replaceAt_ok; [done|rewrite Hlx; lia|done].
  - destruct Hp as (H1 & H2 & H3 & H4 & H5). eapply (Hon (if Z.of_nat (length l) <? i + n then BAD_VALUE else i)); [|by destruct (_ <? _)].
    intros x Hx HIx Hlx. pose proof (step_remove w _ x l HIx Hlx i n H1 H2 H3 H4 H5) as H. by destruct (_ <? _).
  - apply (Hon 0); [|done]. intros x Hx HIx Hlx. by apply (step_clear w _ x l).
  - destruct Hp as (H1 & H2 & H3). destruct (value_lookup w v l El) as (x0 & Ex0 & Ec0).
    destruct (setCapacity_ok (heap w) _ x0 n (winv_vector w v x0 HI Ex0) H1) as (r & x' & h' & E & _ & HI' & Ec & Hf); [by rewrite Ec0|done|].
    apply (Hon r); [|done]. intros x Hx HIx Hlx. assert (x0 = x) as -> by congruence.
    exists x', h'. split; [done|]. split; [done|]. by rewrite Ec.
  - apply (Hon NO_ERROR); [|done]. intros x Hx HIx Hlx. destruct (sort_ok cmp (heap w) _ x HIx) as (x' & h' & E & HI' & Ec & Hf).
    exists x', h'. split; [done|]. split; [done|]. by rewrite Ec, Hlx.
Qed.

(** A vector that comes into being. *)
Lemma new_vector w v x h' :
  WInv w -> value w !! v = None -> HInv h' (x :: all_vectors (vectors w)) None -> frame (heap w) h' (all_vectors (vectors w)) None ->
  WInv (set_vector w v x h') /\ value (set_vector w v x h') = <[v := contents h' x]> (value w).
Proof.
  intros HI Ev HI' Hf. assert (E : vectors w !! v = None).
  { unfold value in Ev. rewrite lookup_fmap in Ev. by destruct (vectors w !! v). }
  apply changed; by rewrite delete_id.
Qed.

Lemma size_value w : size (value w) = length (all_vectors (vectors w)).
Proof. unfold value. by rewrite length_all_vectors, map_size_fmap. Qed.

Lemma event_ok w e :
  WInv w -> proper (value w) e ->
  exists r w', run_event w e = Ok (r, w') /\ WInv w' /\ answers_as (fst (spec_event (value w) e)) r /\ value w' = snd (spec_event (value w) e).
Proof.
  intros HI Hp.
  assert (Hlist : (exists l, value w !! target e = Some l /\ proper_list (value w) l e) ->
    (match e with New _ | CopyOf _ _ | Finish _ => False | _ => True end) ->
    exists r w', run_event w e = Ok (r, w') /\ WInv w' /\ answers_as (fst (spec_list (value w) (default [] (value w !! target e)) e)) r /\
      value w' = <[target e := snd (spec_list (value w) (default [] (value w !! target e)) e)]> (value w)).
  { intros (l & El & Hl) Hk. rewrite El. cbn [default]. by apply list_event_ok. }
  destruct e as [v|v u|v u|v item i n|v xs i|v u i|v a|v|v item i|v i n|v|v n|v cmp|v];
    try (destruct (Hlist Hp I) as (r & w' & E & HI' & Ha & Ev); exists r, w'; unfold spec_event;
         destruct (spec_list _ _ _) as [sr sl]; cbn [fst snd] in *; by split_and!); clear Hlist.
  - destruct Hp as [Ev Hs]. rewrite size_value in Hs. cbn [run_event spec_event fst snd]. eexists _, _. split; [reflexivity|].
    destruct (new_vector w v new_VectorImpl (heap w) HI Ev) as [H1 H2]; [by apply hinv_empty_cons|apply frame_refl|]. split; [done|]. by split.
  - destruct Hp as (Ev & [ys Hys] & Hs). rewrite size_value in Hs. cbn [run_event spec_event fst snd]. rewrite Hys. cbn [default].
    destruct (value_lookup w u ys Hys) as (y & Ey & Ec). unfold the_vector. rewrite Ey. cbn [from_option_or mbind result_bind].
    pose proof (in_all_vectors _ _ _ Ey) as Hin. destruct (vi_share_ok (heap w) _ y HI Hin Hs) as (h' & Eh & HI' & Ec' & Hf').
    assert (Ecp : copy_VectorImpl y (heap w) = Ok (y, h')).
    { unfold copy_VectorImpl. destruct y as [[id|] n]; cbn [mStorage mCount] in *; [by rewrite Eh|by injection Eh as ->]. }
    rewrite Ecp. cbn [mbind result_bind]. eexists _, _. split; [reflexivity|]. destruct (new_vector w v y h' HI Ev HI' Hf') as [H1 H2].
    split; [done|]. split; [done|]. by rewrite H2, Ec', Ec.
  - destruct Hp as (l & El & _). cbn [run_event spec_event fst snd target] in *. destruct (value_lookup w v l El) as (x & Ex & Ec).
    unfold the_vector. rewrite Ex. cbn [from_option_or mbind result_bind]. unfold finish_vector.
    destruct (release_storage_ok (heap w) _ None x (winv_vector w v x HI Ex) ltac:(by left)) as (h' & Er & HI' & Hf & _). rewrite Er.
    cbn [mbind result_bind]. eexists _, _. split; [reflexivity|]. split; [exact HI'|]. split; [done|]. unfold value. cbn [heap vectors].
    rewrite <-fmap_delete. apply map_eq. intros i. rewrite !lookup_fmap. destruct (delete v (vectors w) !! i) as [z|] eqn:Ez; [|done]. cbn. f_equal.
    apply (frame_contents (heap w) h' _ None z Hf). by apply (in_all_vectors _ i).
Qed.

Lemma events_ok es : forall w, WInv w -> proper_events (value w) es ->
  exists rs w', run_events w es = Ok (rs, w') /\ WInv w' /\ Forall2 answers_as (fst (spec_events (value w) es)) rs /\ value w' = snd (spec_events (value w) es).
Proof.
  induction es as [|e es IH]; intros w HI Hp; [by exists [], w|]. destruct Hp as [Hp Hps].
  destruct (event_ok w e HI Hp) as (r & w1 & E & HI1 & Ha & Ev). cbn [run_events spec_events]. rewrite E. cbn [mbind result_bind].
  destruct (spec_event (value w) e) as [sr s1]. cbn [fst snd] in *. subst s1.
  destruct (IH w1 HI1 Hps) as (rs & w2 & E2 & HI2 & Ha2 & Ev2). rewrite E2. cbn [mbind result_bind].
  destruct (spec_events (value w1) es) as [srs s2]. cbn [fst snd] in *. exists (r :: rs), w2. split; [done|]. split; [done|]. split; [by constructor|done].
Qed.

Definition no_vectors : World := mkWorld (mkHeap ∅ 0 []) ∅.

Lemma winv_none : WInv no_vectors.
Proof. split; [intros v []%not_elem_of_nil|intros id sb E; cbn in E; by rewrite lookup_empty in E|done|done|done]. Qed.

(** C17 Vectors are values: with memory to be had, fewer than 2^31 - 3 vectors, sizes and
    indices that fit, and operations that the code allows ([proper]: the elements and
    arrays that are put into a vector are the caller's, a vector is inserted into another
    one only, at least one element is inserted, an element without a prototype has a
    constructor, removing nothing from the middle is left to types that [memmove] may
    move), each vector has the elements of the list that the operations make, in any order,
    with any types of elements, however its storage is shared, grown, shrunk or moved;
    the answers are those of the lists; no element is constructed over another or
    destroyed twice, no block is used after it is freed, and none is freed while an
    element that has a destructor is in it; and in the end each block has one reference
    for each vector that uses it, there is none without one, and it has the elements of
    its vectors and, of types with destructors, no others. *)
Theorem vectors_are_values es :
  proper_events ∅ es ->
  exists rs w', run_events no_vectors es = Ok (rs, w') /\
    value w' = snd (spec_events ∅ es) /\ Forall2 answers_as (fst (spec_events ∅ es)) rs /\
    forall id sb, buffers (heap w') !! id = Some sb ->
      0 < mRefs sb /\ mRefs sb = Z.of_nat (users id (all_vectors (vectors w'))) /\
      forall v x, vectors w' !! v = Some x -> mStorage x = Some id -> holds (cells sb) (contents (heap w') x).
Proof.
  intros Hp. destruct (events_ok es no_vectors winv_none Hp) as (rs & w' & E & HI & Ha & Ev). exists rs, w'.
  split; [done|]. split; [done|]. split; [done|]. intros id sb Eb. destruct (hi_buf _ _ _ HI id sb Eb) as [_ (_ & _ & H1 & H2)].
  rewrite (decide_False (P := None = Some id)) in H1, H2 by done. split; [lia|]. split; [lia|]. intros v x Ex Es.
  destruct (vec_contents _ _ (hi_vec _ _ _ HI x (in_all_vectors _ _ _ Ex))) as [_ Hc]. destruct (Hc id Es) as (c & Ec & Hh).
  unfold cells_at in Ec. rewrite Eb in Ec. by injection Ec as ->.
Qed.

End Vectors.

(** ** What sorting does *)

Section Stable.
Context {A : Type} (cmp : A -> A -> Z).
Definition le_by (x y : A) : Prop := cmp x y <= 0.
Context (Htotal : forall x y, le_by x y \/ le_by y x) (Htrans : forall x y z, le_by x y -> le_by y z -> le_by x z).

Lemma ins_perm r x : ins cmp r x ≡ₚ x :: r.
Proof. induction r as [|y r IH]; [done|]. cbn [ins]. destruct (0 <? cmp y x); [|done]. rewrite IH. apply Permutation_swap. Qed.

Lemma ins_sorted r x : StronglySorted (fun a b => le_by b a) r -> StronglySorted (fun a b => le_by b a) (ins cmp r x).
Proof.
  induction 1 as [|y r Hs IH Hy]; [by repeat constructor|]. cbn [ins]. destruct (Z.ltb_spec 0 (cmp y x)) as [Hlt|Hge].
  - constructor; [done|]. rewrite ins_perm. constructor; [|done]. destruct (Htotal x y) as [H|H]; [done|unfold le_by in H; lia].
  - constructor; [by constructor|]. constructor; [done|]. eapply Forall_impl; [exact Hy|]. intros z Hz. cbv beta in *. by eapply Htrans.
Qed.

(** Elements that count as the same as [z]. *)
Definition same_as (z x : A) : bool := (cmp z x <=? 0) && (cmp x z <=? 0).

Lemma ins_stable z r x : List.filter (same_as z) (ins cmp r x) = List.filter (same_as z) (x :: r).
Proof.
  induction r as [|y r IH]; [done|]. cbn [ins]. destruct (Z.ltb_spec 0 (cmp y x)) as [Hlt|Hge]; [|done].
  cbn [List.filter] in *. rewrite IH. destruct (same_as z y) eqn:Ey, (same_as z x) eqn:Ex; try done.
  unfold same_as in Ey, Ex. exfalso. assert (H : le_by y x) by (apply (Htrans y z x); unfold le_by; lia). unfold le_by in H. lia.
Qed.

Lemma filter_rev (f : A -> bool) (l : list A) : List.filter f (rev l) = rev (List.filter f l).
Proof.
  induction l as [|x l IH]; [done|]. cbn [rev List.filter]. rewrite List.filter_app, IH. cbn [List.filter]. destruct (f x); [done|by rewrite app_nil_r].
Qed.

Lemma sorted_rev l : StronglySorted (fun a b => le_by b a) l -> StronglySorted le_by (rev l).
Proof.
  induction 1 as [|x l Hs IH Hx]; [constructor|]. cbn [rev]. apply StronglySorted_app_2; [|done|by repeat constructor].
  intros a b Ha Hb%list_elem_of_singleton. subst b. apply (proj1 (Forall_forall _ _) Hx). by apply list_elem_of_In, in_rev, list_elem_of_In.
Qed.

Lemma sorted_by_sorts l :
  StronglySorted le_by (sorted_by cmp l) /\ sorted_by cmp l ≡ₚ l /\ forall z, List.filter (same_as z) (sorted_by cmp l) = List.filter (same_as z) l.
Proof.
  unfold sorted_by.
  assert (H : forall l r, StronglySorted (fun a b => le_by b a) r ->
    StronglySorted (fun a b => le_by b a) (foldl (ins cmp) r l) /\ foldl (ins cmp) r l ≡ₚ l ++ r /\
    forall z, List.filter (same_as z) (foldl (ins cmp) r l) = List.filter (same_as z) (rev l ++ r)).
  { clear l. induction l as [|x l IH]; intros r Hr; [done|]. cbn [foldl]. destruct (IH (ins cmp r x) (ins_sorted r x Hr)) as (H1 & H2 & H3).
    split; [done|]. split.
    - rewrite H2, ins_perm. cbn [app]. symmetry. apply Permutation_middle.
    - intros z. rewrite H3, !List.filter_app, ins_stable. cbn [rev]. by rewrite <-List.filter_app, <-List.filter_app, <-app_assoc. }
  destruct (H l [] (SSorted_nil _)) as (H1 & H2 & H3). rewrite app_nil_r in H2. split; [by apply sorted_rev|]. split.
  - etransitivity; [symmetry; apply Permutation_rev|done].
  - intros z. rewrite filter_rev, H3, app_nil_r, filter_rev. apply rev_involutive.
Qed.

End Stable.

(** C32 Sorting a vector is stable: whatever else shares its storage, the vector then
    has the same elements, in order, and those that count as equal as they were; for
    any comparison that is total and transitive. *)
Theorem vector_sort_stable {A} (cmp : A -> A -> Z) new_item mItemSize sizeof_SharedBuffer bits tc td tcopy tmove w v l :
  0 < mItemSize -> 0 <= sizeof_SharedBuffer -> 0 < bits ->
  (forall x y, le_by cmp x y \/ le_by cmp y x) -> (forall x y z, le_by cmp x y -> le_by cmp y z -> le_by cmp x z) ->
  WInv mItemSize sizeof_SharedBuffer bits td w -> value w !! v = Some l ->
  exists w' l', run_event new_item mItemSize sizeof_SharedBuffer bits tc td tcopy tmove w (Sort v cmp) = Ok (NO_ERROR, w') /\
    value w' = <[v := l']> (value w) /\
    StronglySorted (le_by cmp) l' /\ l' ≡ₚ l /\ forall z, List.filter (same_as cmp z) l' = List.filter (same_as cmp z) l.
Proof.
  intros H1 H2 H3 Htot Htr HI El.
  destruct (event_ok new_item mItemSize sizeof_SharedBuffer bits tc td tcopy tmove H1 H2 H3 w (Sort v cmp) HI) as (r & w' & E & _ & Ha & Ev).
  { exists l. split; [done|exact I]. }
  cbn [spec_event target] in Ha, Ev. rewrite El in Ha, Ev. cbn [default spec_list fst snd answers_as] in Ha, Ev. subst r.
  exists w', (sorted_by cmp l). split; [done|]. split; [done|]. by apply sorted_by_sorts.
Qed.

(** ** Concrete vectors *)

Section Examples.

(** Numbers that have constructors and destructors, on a machine of 32 bits. *)
Abbreviation run := (run_events 0 4 16 32 false false false false).
Abbreviation run_numbers := (run_events 0 4 16 32 true true true true).

Definition session : list event :=
  [New 1; InsertArray 1 [30; 10; 21; 20] 0; CopyOf 2 1; Sort 2 (fun a b => a / 10 - b / 10); RemoveItems 1 0 2; InsertVector 1 2 1;
   InsertAt 1 None 9 1; Push 2 5; Pop 1; ReplaceAt 1 (Some 7) 0; SetCapacity 2 100; Assign 2 1; Finish 1].

Example session_runs :
  match run no_vectors session with
  | Ok (rs, w) => (rs, map_to_list (value w), size (buffers (heap w)))
  | Err _ => ([], [], 0%nat)
  end = ([0; 0; 0; 0; 0; 1; -75; 0; 0; 0; 100; 0; 0], [(2, [7; 10; 21; 20; 30])], 1%nat).
Proof. vm_compute. reflexivity. Qed.

Example vectors_are_values_witness :
  exists rs w', run no_vectors session = Ok (rs, w') /\
    value w' = snd (spec_events 0 ∅ session) /\ Forall2 answers_as (fst (spec_events 0 ∅ session)) rs /\
    forall id sb, buffers (heap w') !! id = Some sb ->
      0 < mRefs sb /\ mRefs sb = Z.of_nat (users id (all_vectors (vectors w'))) /\
      forall v x, vectors w' !! v = Some x -> mStorage x = Some id -> holds false (cells sb) (contents (heap w') x).
Proof.
  apply (vectors_are_values 0 4 16 32 false false false false); [lia|lia|lia|].
  apply proper_events_b_ok; first [lia|vm_compute; reflexivity].
Defined.

Example vector_sort_stable_witness :
  let w := {| heap := mkHeap {[ 0 := mkBuffer 1 16 [Some 30; Some 10; Some 12; Some 5] ]} 1 []; vectors := {[ 7 := mkVector (Some 0) 4 ]} |} in
  let cmp a b := a / 10 - b / 10 in
  exists w' l', run_event 0 4 16 32 false false false false w (Sort 7 cmp) = Ok (NO_ERROR, w') /\
    value w' = <[7 := l']> (value w) /\
    StronglySorted (le_by cmp) l' /\ l' ≡ₚ [30; 10; 12; 5] /\ forall z, List.filter (same_as cmp z) l' = List.filter (same_as cmp z) [30; 10; 12; 5].
Proof.
  intros w cmp. apply (vector_sort_stable cmp 0 4 16 32 false false false false w 7 [30; 10; 12; 5]).
  - lia.
  - lia.
  - lia.
  - intros x y. unfold le_by, cmp. lia.
  - intros x y z. unfold le_by, cmp. lia.
  - split.
    + intros v Hv. change (all_vectors (vectors w)) with [mkVector (Some 0) 4] in Hv. apply list_elem_of_singleton in Hv as ->.
      exists [Some 30; Some 10; Some 12; Some 5], [30; 10; 12; 5]. split; [reflexivity|]. split; [by exists []|done].
    + intros id sb E. change (buffers (heap w)) with ({[ 0 := mkBuffer 1 16 [Some 30; Some 10; Some 12; Some 5] ]} : gmap Z (SharedBuffer (A := Z))) in E.
      apply lookup_singleton_Some in E as [<- <-]. split; [cbn; lia|]. split; [split; cbn; lia|]. split; [reflexivity|]. split; [reflexivity|].
      vm_compute. lia.
    + done.
    + vm_compute. done.
    + reflexivity.
  - reflexivity.
Defined.

(** *** Where the conditions are needed *)

Definition outcome {T} (r : result T) : option fault := match r with Ok _ => None | Err e => Some e end.

(** A vector that is its own block's only user, given an element of itself: the
    element is read after its block is gone. *)
Example own_element_added :
  let setup f := '(_, w) ← f [New 1; InsertArray 1 [1; 2; 3; 4; 5; 6] 0; RemoveItems 1 5 1; InsertArray 1 [6; 7; 8; 9] 5];
                 x ← the_vector w 1; Ok (x, heap w) in
  outcome ('(x, h) ← setup (run no_vectors); id ← from_option_or NullDeref (mStorage x); add 0 4 16 32 false false false false x (Some (Stored id 0)) h)
    = Some UseAfterFree /\
  outcome ('(x, h) ← setup (run_numbers no_vectors); id ← from_option_or NullDeref (mStorage x); add 0 4 16 32 true true true true x (Some (Stored id 0)) h)
    = Some UseAfterFree.
Proof. vm_compute. done. Qed.

(** A vector appended to itself. *)
Example appended_to_itself :
  outcome ('(_, w) ← run no_vectors [New 1; InsertArray 1 [1; 2; 3; 4] 0]; run w [InsertArray 1 [5; 6] 4; InsertVector 1 1 6]) = Some UseAfterFree.
Proof. vm_compute. done. Qed.

(** Removing no element from the middle of elements with constructors: each one is
    copied over itself. *)
Example nothing_removed : outcome (run no_vectors [New 1; InsertArray 1 [1; 2; 3] 0; RemoveItems 1 1 0]) = Some DoubleConstruct.
Proof. vm_compute. done. Qed.

(** [index + count] overflows, and the check lets it through; here with 8 bits. *)
Example removed_past_the_end :
  outcome (run_events 0 4 16 8 false false false false no_vectors [New 1; InsertArray 1 [1; 2; 3; 4] 0; RemoveItems 1 255 1]) = Some OutOfBounds.
Proof. vm_compute. done. Qed.

(** Nothing inserted into a vector without storage is reported as a lack of memory. *)
Example nothing_inserted :
  match run no_vectors [New 1; New 2; InsertVector 1 2 0] with Ok (rs, _) => rs | Err _ => [] end = [0; 0; NO_MEMORY].
Proof. vm_compute. done. Qed.

Definition without_memory {A} (w : World (A := A)) : World (A := A) :=
  mkWorld (mkHeap (buffers (heap w)) (fresh (heap w)) [false; false; false]) (vectors w).

(** Without memory for a copy, a change goes to the shared block, and all vectors
    that share it have it. *)
Example change_shared_without_memory :
  match '(_, w) ← run no_vectors [New 1; InsertArray 1 [1; 2; 3] 0; CopyOf 2 1]; run (without_memory w) [ReplaceAt 1 (Some 9) 0] with
  | Ok (rs, w) => (rs, map_to_list (value w))
  | Err _ => ([], [])
  end = ([0], [(2, [9; 2; 3]); (1, [9; 2; 3])]).
Proof. vm_compute. done. Qed.

(** Without memory to grow, the count grows all the same, and the new element is
    written behind the block; or a member of NULL is called. *)
Example growth_without_memory :
  outcome ('(_, w) ← run no_vectors [New 1; InsertArray 1 [1; 2; 3; 4; 5; 6] 0; Push 1 7; Push 1 8; Push 1 9]; run (without_memory w) [Push 1 10]) = Some OutOfBounds /\
  outcome ('(_, w) ← run_numbers no_vectors [New 1; InsertArray 1 [1; 2; 3; 4; 5; 6] 0; Push 1 7; Push 1 8; Push 1 9]; run_numbers (without_memory w) [Push 1 10]) = Some NullDeref.
Proof. vm_compute. done. Qed.

End Examples.
