(* ===== verification/SortedVector.v ===== *)
(** * Sorted vectors and keyed vectors

    Models the class [SortedVectorImpl] of [src/libs/utils/VectorImpl.cpp] and the
    templates of [src/include/utils/KeyedVector.h], on the elements of a vector:
    [VectorImpl] shows that vectors are these lists.

    [keyed_vector_is_map]: a keyed vector is a finite map; [merge_items_ok]: merging
    is the union of the maps.  The examples at the end are where the code does not do
    that. *)
From stdpp Require Import sorting.
From S2P Require Import Prelude VectorImpl.
Local Open Scope Z_scope.

Section SortedVector.
Context {V : Type}.

(** [key_value_pair_t], with unsigned keys. *)
Abbreviation pair := (Z * V)%type.

(** [compare_type] of pairs: their keys are compared. *)
Definition do_compare (lhs rhs : Z) : Z := Z.b2z (rhs <? lhs) - Z.b2z (lhs <? rhs).

(** *** Lists as vectors *)

Definition vector_get (a : list pair) (i : Z) : result pair :=
  if i <? 0 then Err OutOfBounds else get a (Z.to_nat i).

(** [VectorImpl::insertAt] with one item. *)
Definition vector_insert (a : list pair) (item : pair) (index : Z) : Z * list pair :=
  let '(r, a') := insert_list a [item] index in (default 0 r, a').

(** [VectorImpl::replaceAt] *)
Definition vector_replace (a : list pair) (item : pair) (index : Z) : result (Z * list pair) :=
  if decide (0 <= index < Z.of_nat (length a)) then Ok (index, <[Z.to_nat index := item]> a) else Err OutOfBounds.

(** [VectorImpl::removeItemsAt] *)
Definition vector_remove (a : list pair) (index count : Z) : Z * list pair :=
  if Z.of_nat (length a) <? index + count then (BAD_VALUE, a)
  else (index, take (Z.to_nat index) a ++ drop (Z.to_nat (index + count)) a).

(** ** SortedVectorImpl *)

(** The loop of [_indexOrderOf]: the index or [NAME_NOT_FOUND], and the order. *)
Fixpoint index_order_loop (fuel : nat) (a : list pair) (key l h : Z) : result (Z * Z) :=
  match fuel with
  | O => Err OutOfFuel
  | S fuel =>
      if l <=? h then
        let mid := l + Z.quot (h - l) 2 in
        curr ← vector_get a mid;
        let c := do_compare (fst curr) key in
        if c =? 0 then Ok (mid, mid)
        else if c <? 0 then index_order_loop fuel a key (mid + 1) h
        else index_order_loop fuel a key l (mid - 1)
      else Ok (NAME_NOT_FOUND, l)
  end.

Definition indexOrderOf (a : list pair) (key : Z) : result (Z * Z) :=
  index_order_loop (S (length a)) a key 0 (Z.of_nat (length a) - 1).

Definition indexOf (a : list pair) (key : Z) : result Z := '(i, _) ← indexOrderOf a key; Ok i.

Definition orderOf (a : list pair) (key : Z) : result Z := '(_, o) ← indexOrderOf a key; Ok o.

Definition sv_add (a : list pair) (item : pair) : result (Z * list pair) :=
  '(index, order) ← indexOrderOf a (fst item);
  if index <? 0 then Ok (vector_insert a item order) else vector_replace a item index.

Definition sv_remove (a : list pair) (key : Z) : result (Z * list pair) :=
  i ← indexOf a key;
  if 0 <=? i then let '(_, a) := vector_remove a i 1 in Ok (i, a) else Ok (i, a).

(** [merge] with any vector: each item is added. *)
Fixpoint merge_items (a items : list pair) : result (Z * list pair) :=
  match items with
  | [] => Ok (NO_ERROR, a)
  | item :: items => '(err, a) ← sv_add a item; if err <? 0 then Ok (err, a) else merge_items a items
  end.

(** [merge] with a sorted vector: in front, behind, or item by item.  An element of a
    vector that has none is read through NULL. *)
Definition merge_sorted (a vector : list pair) : result (Z * list pair) :=
  match vector, last vector, a, last a with
  | [], _, _, _ => Ok (NO_ERROR, a)
  | first :: _, Some last_of_it, mine :: _, Some last_of_mine =>
      if do_compare (fst last_of_it) (fst mine) <=? 0 then
        let '(r, a) := insert_list a vector 0 in Ok (default 0 r, a)
      else if 0 <=? do_compare (fst first) (fst last_of_mine) then
        let '(r, a) := insert_list a vector (Z.of_nat (length a)) in Ok (default 0 r, a)
      else merge_items a vector
  | _, _, _, _ => Err NullDeref
  end.

(** [mirrorItemAt]: with a negative index, meant to be counted from the end, it asks
    for an element behind the last one. *)
Definition mirrorItemAt (a : list pair) (index : Z) : result pair :=
  if (if 0 <? index then index else - index) <? Z.of_nat (length a)
  then vector_get a (if index <? 0 then Z.of_nat (length a) - index else index)
  else Err FatalExit.

(** ** KeyedVector *)

Definition indexOfKey (a : list pair) (key : Z) : result Z := indexOf a key.
Definition valueAt (a : list pair) (index : Z) : result V := '(_, v) ← vector_get a index; Ok v.
Definition keyAt (a : list pair) (index : Z) : result Z := '(k, _) ← vector_get a index; Ok k.

(** [KeyedVector::valueFor] asserts that there is one. *)
Definition valueFor (a : list pair) (key : Z) : result V :=
  i ← indexOfKey a key; if 0 <=? i then valueAt a i else Err FatalExit.

(** [DefaultKeyedVector::valueFor] *)
Definition valueFor_default (mDefault : V) (a : list pair) (key : Z) : result V :=
  i ← indexOfKey a key; if 0 <=? i then valueAt a i else Ok mDefault.

Definition kv_add (a : list pair) (key : Z) (value : V) : result (Z * list pair) := sv_add a (key, value).

Definition replaceValueFor (a : list pair) (key : Z) (value : V) : result (Z * list pair) :=
  '(_, a) ← sv_remove a key; sv_add a (key, value).

Definition replaceValueAt (a : list pair) (index : Z) (item : V) : result (Z * list pair) :=
  if index <? Z.of_nat (length a) then k ← keyAt a index; vector_replace a (k, item) index else Ok (BAD_INDEX, a).

Definition removeItem (a : list pair) (key : Z) : result (Z * list pair) := sv_remove a key.

Definition kv_removeItemsAt (a : list pair) (index count : Z) : Z * list pair := vector_remove a index count.

(** ** The order of the keys *)

(** The keys increase. *)
Definition keyed (a : list pair) : Prop := StronglySorted Z.lt (fst <$> a).

(** The elements before the place of a key, and from it on. *)
Definition splits (a : list pair) (key : Z) (b c : list pair) : Prop :=
  a = b ++ c /\ (forall p, p ∈ b -> fst p < key) /\ (forall p, p ∈ c -> key <= fst p).

Lemma keyed_split a key : keyed a -> exists b c, splits a key b c.
Proof.
  induction a as [|p a IH]; intros Hs; [exists [], []; split; [done|by split; intros p Hp%not_elem_of_nil]|].
  apply StronglySorted_cons in Hs as [Hp Hs]. destruct (decide (fst p < key)) as [Hlt|Hge].
  - destruct (IH Hs) as (b & c & -> & Hb & Hc). exists (p :: b), c. split; [done|]. split; [|done].
    intros q [->|Hq]%elem_of_cons; [done|by apply Hb].
  - exists [], (p :: a). split; [done|]. split; [by intros q Hq%not_elem_of_nil|]. intros q [->|Hq]%elem_of_cons; [lia|].
    rewrite Forall_forall in Hp. specialize (Hp (fst q) ltac:(by apply list_elem_of_fmap_2)). lia.
Qed.

(** Whether the key is the first of the rest. *)
Definition heads (c : list pair) (key : Z) : bool := match c with (k, _) :: _ => k =? key | [] => false end.

Lemma splits_lookup_low a key b c i p : splits a key b c -> a !! i = Some p -> (i < length b)%nat -> fst p < key.
Proof. intros (-> & Hb & _) E Hi. rewrite lookup_app_l in E by done. apply Hb. by apply list_elem_of_lookup_2 in E. Qed.

Lemma splits_lookup_high a key b c i p : splits a key b c -> a !! i = Some p -> (length b <= i)%nat -> key <= fst p.
Proof. intros (-> & _ & Hc) E Hi. rewrite lookup_app_r in E by done. apply Hc. by apply list_elem_of_lookup_2 in E. Qed.

Lemma keyed_lt a i j p q : keyed a -> a !! i = Some p -> a !! j = Some q -> (i < j)%nat -> fst p < fst q.
Proof.
  intros Hs Ep Eq Hij. unfold keyed in Hs. rewrite <-(take_drop j (fst <$> a)) in Hs.
  apply (StronglySorted_app_1_elem_of _ _ _ _ _ Hs).
  - apply list_elem_of_lookup. exists i. by rewrite lookup_take_lt, list_lookup_fmap, Ep by done.
  - apply list_elem_of_lookup. exists 0%nat. by rewrite lookup_drop, Nat.add_0_r, list_lookup_fmap, Eq.
Qed.

Lemma heads_at a key b c p : splits a key b c -> a !! length b = Some p -> heads c key = (fst p =? key).
Proof.
  intros (-> & _ & _) E. rewrite lookup_app_r, Nat.sub_diag in E by done. destruct c as [|[k v] c]; [done|]. by injection E as <-.
Qed.

Lemma index_order_loop_ok a key b c : keyed a -> splits a key b c -> forall fuel l h,
  0 <= l <= Z.of_nat (length b) -> Z.of_nat (length b) <= h + 1 <= Z.of_nat (length a) -> h - l + 1 < Z.of_nat fuel ->
  (forall p, a !! Z.to_nat (h + 1) = Some p -> key < fst p) ->
  index_order_loop fuel a key l h = Ok (if heads c key then Z.of_nat (length b) else NAME_NOT_FOUND, Z.of_nat (length b)).
Proof.
  intros Hk Hs. induction fuel as [|fuel IH]; intros l h Hl Hh Hf Hup; [lia|]. cbn [index_order_loop].
  destruct (Z.leb_spec l h) as [Hle|Hgt].
  - rewrite Z.quot_div_nonneg by lia. set (mid := l + (h - l) / 2). assert (Hmid : l <= mid <= h) by (unfold mid; euclid). clearbody mid.
    destruct (lookup_lt_is_Some_2 a (Z.to_nat mid)) as [p Ep]; [lia|]. unfold vector_get. rewrite (proj2 (Z.ltb_ge _ _)) by lia.
    unfold get. rewrite Ep. cbn [from_option_or mbind result_bind]. unfold do_compare.
    destruct (decide (mid < Z.of_nat (length b))) as [Hlow|Hhigh].
    + pose proof (splits_lookup_low a key b c _ p Hs Ep ltac:(lia)) as Hp. rewrite (proj2 (Z.ltb_ge key (fst p))), (proj2 (Z.ltb_lt (fst p) key)) by lia.
      cbn [Z.b2z Z.sub Z.add Z.opp Z.eqb Z.ltb Z.compare]. apply IH; [lia|lia|lia|done].
    + pose proof (splits_lookup_high a key b c _ p Hs Ep ltac:(lia)) as Hp. rewrite (proj2 (Z.ltb_ge (fst p) key)) by lia.
      destruct (Z.ltb_spec key (fst p)) as [Hlt|Hge]; cbn [Z.b2z Z.sub Z.add Z.opp Z.eqb Z.ltb Z.compare].
      * apply IH; [lia|lia|lia|]. intros q Eq. replace (mid - 1 + 1) with mid in Eq by lia. congruence.
      * assert (mid = Z.of_nat (length b)) as ->.
        { destruct (decide (mid = Z.of_nat (length b))) as [->|Hne]; [done|]. exfalso.
          destruct (lookup_lt_is_Some_2 a (length b)) as [q Eq]; [lia|].
          pose proof (splits_lookup_high a key b c _ q Hs Eq ltac:(lia)). pose proof (keyed_lt a _ _ q p Hk Eq Ep ltac:(lia)). lia. }
        rewrite Nat2Z.id in Ep. assert (Ek : fst p = key) by lia.
        rewrite (heads_at a key b c p Hs Ep), Ek, Z.ltb_irrefl, !Z.eqb_refl. reflexivity.
  - assert (El : l = Z.of_nat (length b)) by lia. assert (Eh : h + 1 = Z.of_nat (length b)) by lia. rewrite El.
    destruct (heads c key) eqn:Ec; [|done]. exfalso. destruct c as [|[k v] c]; [done|]. apply Z.eqb_eq in Ec. subst k.
    specialize (Hup (key, v)). rewrite Eh, Nat2Z.id in Hup. destruct Hs as (-> & _ & _). specialize (Hup (list_lookup_middle b c _ _ eq_refl)). simpl in Hup. lia.
Qed.

Lemma indexOrderOf_ok a key b c : keyed a -> splits a key b c ->
  indexOrderOf a key = Ok (if heads c key then Z.of_nat (length b) else NAME_NOT_FOUND, Z.of_nat (length b)).
Proof.
  intros Hk Hs. unfold indexOrderOf. pose proof Hs as (Ea & _ & _). apply (index_order_loop_ok a key b c Hk Hs); [lia| |lia|].
  - rewrite Ea, length_app. lia.
  - intros p E. apply lookup_lt_Some in E. lia.
Qed.

(** ** Keyed vectors are maps *)

(** A vector around a key: the value of it, when it has one, between the smaller and
    the greater keys. *)
Definition middle (key : Z) (o : option V) : list pair := match o with Some v => [(key, v)] | None => [] end.

Record around (a : list pair) (key : Z) (b : list pair) (o : option V) (c : list pair) : Prop := mkAround {
  ar_eq : a = b ++ middle key o ++ c;
  ar_low : forall p, p ∈ b -> fst p < key;
  ar_high : forall p, p ∈ c -> key < fst p;
  ar_keyed_low : keyed b;
  ar_keyed_high : keyed c
}.

Lemma keyed_app a b : keyed (a ++ b) <-> (forall p q, p ∈ a -> q ∈ b -> fst p < fst q) /\ keyed a /\ keyed b.
Proof.
  unfold keyed. rewrite fmap_app, StronglySorted_app. split; intros (H & Ha & Hb); (split; [|done]).
  - intros p q Hp Hq. apply H; by apply list_elem_of_fmap_2.
  - intros x y (p & -> & Hp)%list_elem_of_fmap (q & -> & Hq)%list_elem_of_fmap. by apply H.
Qed.

Lemma keyed_one p : keyed [p].
Proof. repeat constructor. Qed.

Lemma keyed_around a key : keyed a -> exists b o c, around a key b o c.
Proof.
  intros Hk. destruct (keyed_split a key Hk) as (b & c & -> & Hb & Hc). apply keyed_app in Hk as (_ & Kb & Kc).
  destruct (heads c key) eqn:Eh.
  - destruct c as [|[k v] c]; [done|]. apply Z.eqb_eq in Eh. subst k. exists b, (Some v), c. apply (keyed_app [(key, v)] c) in Kc as (H & _ & Kc).
    split; [done|done| |done|done]. intros p Hp. by apply (H (key, v) p); [left|].
  - exists b, None, c. split; [done|done| |done|done]. intros p Hp. pose proof (Hc p Hp). destruct c as [|[k v] c]; [by apply not_elem_of_nil in Hp|].
    pose proof (Hc (k, v) ltac:(by left)) as H0. cbn [heads fst] in *. apply elem_of_cons in Hp as [->|Hp]; [simpl in *; lia|].
    apply (keyed_app [(k, v)] c) in Kc as (H1 & _). specialize (H1 (k, v) p ltac:(by left) Hp). simpl in H1. lia.
Qed.

(** With another value at the key, or none, the keys still increase. *)
Lemma around_keyed a key b o c o' : around a key b o c -> keyed (b ++ middle key o' ++ c).
Proof.
  intros [_ Hb Hc Kb Kc]. apply keyed_app. split; [|split; [done|]].
  - intros p q Hp [Hq|Hq]%elem_of_app; [|specialize (Hb p Hp); specialize (Hc q Hq); lia].
    destruct o' as [v|]; [|by apply not_elem_of_nil in Hq]. apply list_elem_of_singleton in Hq as ->. by apply Hb.
  - destruct o' as [v|]; [|done]. apply keyed_app. split; [|split; [apply keyed_one|done]].
    intros p q ->%list_elem_of_singleton Hq. by apply Hc.
Qed.

Lemma around_search a key b o c : keyed a -> around a key b o c ->
  indexOrderOf a key = Ok (if o is Some _ then Z.of_nat (length b) else NAME_NOT_FOUND, Z.of_nat (length b)).
Proof.
  intros Hk [-> Hb Hc _ _]. rewrite (indexOrderOf_ok _ key b (middle key o ++ c) Hk).
  - destruct o as [v|]; simpl; [by rewrite Z.eqb_refl|]. destruct c as [|[k v] c]; [done|].
    simpl. rewrite (proj2 (Z.eqb_neq _ _)); [done|]. specialize (Hc (k, v) ltac:(by left)). simpl in Hc. lia.
  - split; [done|]. split; [done|]. intros p [Hp|Hp]%elem_of_app; [|specialize (Hc p Hp); lia].
    destruct o as [v|]; [|by apply not_elem_of_nil in Hp]. apply list_elem_of_singleton in Hp as ->. simpl. lia.
Qed.

(** The map of a keyed vector. *)
Definition to_map (a : list pair) : gmap Z V := list_to_map a.

Lemma no_key (a : list pair) key : (forall p, p ∈ a -> fst p <> key) -> to_map a !! key = None.
Proof. intros H. apply not_elem_of_list_to_map_1. intros (p & -> & Hp)%list_elem_of_fmap. by apply (H p). Qed.

Lemma around_map a key b o c : around a key b o c -> to_map a = to_map b ∪ partial_alter (fun _ => o) key (to_map c).
Proof.
  intros [-> _ Hc _ _]. unfold to_map. rewrite list_to_map_app. f_equal. destruct o as [v|]; [done|]. simpl.
  apply map_eq. intros k. destruct (decide (k = key)) as [->|Hne]; [|by rewrite lookup_partial_alter_ne].
  rewrite lookup_partial_alter_eq. apply no_key. intros p Hp. specialize (Hc p Hp). lia.
Qed.

Lemma around_low_none a key b o c : around a key b o c -> to_map b !! key = None.
Proof. intros [_ Hb _ _ _]. apply no_key. intros p Hp. specialize (Hb p Hp). lia. Qed.

Lemma around_lookup a key b o c : around a key b o c -> to_map a !! key = o.
Proof.
  intros H. rewrite (around_map _ _ _ _ _ H), lookup_union_r by (by apply (around_low_none _ _ _ _ _ H)). by rewrite lookup_partial_alter_eq.
Qed.

(** A change of the value at the key is one of the map. *)
Lemma around_alter a key b o c o' : around a key b o c -> to_map (b ++ middle key o' ++ c) = partial_alter (fun _ => o') key (to_map a).
Proof.
  intros H. assert (H' : around (b ++ middle key o' ++ c) key b o' c) by (destruct H; by split).
  pose proof (around_low_none _ _ _ _ _ H) as Hn. rewrite (around_map _ _ _ _ _ H), (around_map _ _ _ _ _ H'). apply map_eq. intros k.
  destruct (decide (k = key)) as [->|Hne].
  - rewrite lookup_partial_alter_eq, lookup_union_r, lookup_partial_alter_eq by done. done.
  - by rewrite lookup_partial_alter_ne, !lookup_union, !lookup_partial_alter_ne by done.
Qed.

(** How many keys of a map are smaller. *)
Definition rank (m : gmap Z V) (key : Z) : Z := Z.of_nat (size (filter (fun p => fst p < key) m)).

Lemma keyed_nodup a : keyed a -> NoDup (fst <$> a).
Proof.
  unfold keyed. induction (fst <$> a) as [|k l IH]; intros H; [constructor|]. apply StronglySorted_cons in H as [Hk H]. constructor; [|by apply IH].
  intros Hin. rewrite Forall_forall in Hk. specialize (Hk k Hin). lia.
Qed.

Lemma map_pair a p : to_map a !! fst p = Some (snd p) -> p ∈ a.
Proof. intros H. apply elem_of_list_to_map_2 in H. by destruct p. Qed.

Lemma around_rank a key b o c : keyed a -> around a key b o c -> rank (to_map a) key = Z.of_nat (length b).
Proof.
  intros Hk [-> Hb Hc Kb _]. unfold rank. f_equal.
  rewrite <-(map_size_list_to_map (M := gmap Z) b) by (by apply keyed_nodup). f_equal. apply map_eq. intros k. unfold to_map. rewrite list_to_map_app.
  destruct (list_to_map b !! k) as [v|] eqn:E.
  - apply map_lookup_filter_Some. split; [by rewrite (lookup_union_Some_l _ _ _ _ E)|]. simpl. apply (Hb (k, v)). by apply (map_pair b (k, v)).
  - apply map_lookup_filter_None. right. intros v Ev. rewrite lookup_union_r in Ev by done. apply (map_pair _ (k, v)) in Ev.
    apply elem_of_app in Ev as [Ev|Ev]; [|specialize (Hc _ Ev); simpl in *; lia].
    destruct o as [w|]; [|by apply not_elem_of_nil in Ev]. apply list_elem_of_singleton in Ev as [= -> ->]. simpl. lia.
Qed.

(** *** The operations *)

Lemma around_put (b c : list pair) key w v : <[length b := (key, v)]> (b ++ middle key (Some w) ++ c) = b ++ middle key (Some v) ++ c.
Proof. by rewrite insert_app_r_alt, Nat.sub_diag by done. Qed.

Lemma sv_add_ok a key v b o c : keyed a -> around a key b o c -> sv_add a (key, v) = Ok (Z.of_nat (length b), b ++ middle key (Some v) ++ c).
Proof.
  intros Hk H. unfold sv_add. cbn [fst]. rewrite (around_search _ _ _ _ _ Hk H). cbn [mbind result_bind]. pose proof (ar_eq _ _ _ _ _ H) as ->.
  destruct o as [w|].
  - rewrite (proj2 (Z.ltb_ge _ _)) by lia. unfold vector_replace. rewrite decide_True by (rewrite length_app; simpl; lia). by rewrite Nat2Z.id, around_put.
  - change (NAME_NOT_FOUND <? 0) with true. unfold vector_insert, insert_list. rewrite (proj2 (Z.ltb_ge _ _)) by (rewrite length_app; lia).
    by rewrite Nat2Z.id, take_app_length, drop_app_length.
Qed.

Lemma sv_remove_ok a key b o c : keyed a -> around a key b o c ->
  sv_remove a key = Ok (if o is Some _ then Z.of_nat (length b) else NAME_NOT_FOUND, b ++ middle key None ++ c).
Proof.
  intros Hk H. unfold sv_remove, indexOf. rewrite (around_search _ _ _ _ _ Hk H). cbn [mbind result_bind]. pose proof (ar_eq _ _ _ _ _ H) as ->.
  destruct o as [w|]; [|done]. rewrite (proj2 (Z.leb_le _ _)) by lia. unfold vector_remove.
  rewrite (proj2 (Z.ltb_ge _ _)) by (rewrite length_app; simpl; lia). replace (Z.of_nat (length b) + 1) with (Z.of_nat (S (length b))) by lia.
  rewrite !Nat2Z.id, take_app_length. cbn [middle app]. by rewrite cons_middle, app_assoc, drop_app_length' by (rewrite length_app; simpl; lia).
Qed.

Lemma value_for_ok d a key b o c : keyed a -> around a key b o c -> valueFor_default d a key = Ok (default d o).
Proof.
  intros Hk H. unfold valueFor_default, indexOfKey, indexOf. rewrite (around_search _ _ _ _ _ Hk H). cbn [mbind result_bind]. pose proof (ar_eq _ _ _ _ _ H) as ->.
  destruct o as [w|]; [|done]. rewrite (proj2 (Z.leb_le _ _)) by lia. unfold valueAt, vector_get, get. rewrite (proj2 (Z.ltb_ge _ _)) by lia.
  rewrite Nat2Z.id. cbn [middle app]. by rewrite list_lookup_middle by done.
Qed.

(** *** Programs of a keyed vector *)

Inductive kv_op :=
  | KAdd (key : Z) (value : V)
  | KReplaceValueFor (key : Z) (value : V)
  | KReplaceValueAt (index : Z) (value : V)
  | KRemoveItem (key : Z)
  | KValueFor (key : Z)
  | KIndexOf (key : Z).

Inductive answer := Index (index : Z) | Value (value : V).

Definition run_kv_op (d : V) (a : list pair) (o : kv_op) : result (answer * list pair) :=
  match o with
  | KAdd key value => '(i, a) ← kv_add a key value; Ok (Index i, a)
  | KReplaceValueFor key value => '(i, a) ← replaceValueFor a key value; Ok (Index i, a)
  | KReplaceValueAt index value => '(i, a) ← replaceValueAt a index value; Ok (Index i, a)
  | KRemoveItem key => '(i, a) ← removeItem a key; Ok (Index i, a)
  | KValueFor key => v ← valueFor_default d a key; Ok (Value v, a)
  | KIndexOf key => i ← indexOfKey a key; Ok (Index i, a)
  end.

Fixpoint run_kv (d : V) (a : list pair) (os : list kv_op) : result (list answer * list pair) :=
  match os with
  | [] => Ok ([], a)
  | o :: os => '(r, a) ← run_kv_op d a o; '(rs, a) ← run_kv d a os; Ok (r :: rs, a)
  end.

(** The same of a map: an index is the number of smaller keys. *)
Definition map_index (m : gmap Z V) (key : Z) : Z := if m !! key is Some _ then rank m key else NAME_NOT_FOUND.

Definition key_of_rank (m : gmap Z V) (index : Z) (key : Z) : Prop := is_Some (m !! key) /\ rank m key = index.

(** What one operation may do to a map. *)
Definition spec_kv_op (d : V) (m : gmap Z V) (o : kv_op) (r : answer) (m' : gmap Z V) : Prop :=
  match o with
  | KAdd key value | KReplaceValueFor key value => r = Index (rank m key) /\ m' = <[key := value]> m
  | KReplaceValueAt index value =>
      if decide (index < Z.of_nat (size m)) then r = Index index /\ exists key, key_of_rank m index key /\ m' = <[key := value]> m
      else r = Index BAD_INDEX /\ m' = m
  | KRemoveItem key => r = Index (map_index m key) /\ m' = delete key m
  | KValueFor key => r = Value (default d (m !! key)) /\ m' = m
  | KIndexOf key => r = Index (map_index m key) /\ m' = m
  end.

Fixpoint spec_kv (d : V) (m : gmap Z V) (os : list kv_op) (rs : list answer) (m' : gmap Z V) : Prop :=
  match os, rs with
  | [], [] => m' = m
  | o :: os, r :: rs => exists m1, spec_kv_op d m o r m1 /\ spec_kv d m1 os rs m'
  | _, _ => False
  end.

(** Indices are not negative. *)
Definition proper_op (o : kv_op) : Prop := match o with KReplaceValueAt index _ => 0 <= index | _ => True end.

Lemma around_at a i k w : keyed a -> a !! i = Some (k, w) -> around a k (take i a) (Some w) (drop (S i) a).
Proof.
  intros Hk E. pose proof (take_drop_middle a i (k, w) E) as Ea. rewrite <-Ea in Hk.
  apply keyed_app in Hk as (H1 & Kb & Kc). apply (keyed_app [(k, w)]) in Kc as (H2 & _ & Kc). split; [done| | |done|done].
  - intros p Hp. by apply (H1 p (k, w)); [|left].
  - intros p Hp. by apply (H2 (k, w) p); [left|].
Qed.

Lemma size_to_map a : keyed a -> size (to_map a) = length a.
Proof. intros Hk. by apply map_size_list_to_map, keyed_nodup. Qed.

Lemma map_index_ok a key b o c : keyed a -> around a key b o c ->
  (if o is Some _ then Z.of_nat (length b) else NAME_NOT_FOUND) = map_index (to_map a) key.
Proof. intros Hk H. unfold map_index. rewrite (around_lookup _ _ _ _ _ H), (around_rank _ _ _ _ _ Hk H). by destruct o. Qed.

Lemma replace_at_ok d a index v : keyed a -> 0 <= index ->
  exists i a', replaceValueAt a index v = Ok (i, a') /\ keyed a' /\ spec_kv_op d (to_map a) (KReplaceValueAt index v) (Index i) (to_map a').
Proof.
  intros Hk Hi. unfold replaceValueAt. cbn [spec_kv_op]. rewrite (size_to_map a Hk). destruct (Z.ltb_spec index (Z.of_nat (length a))) as [Hlt|Hge].
  - destruct (lookup_lt_is_Some_2 a (Z.to_nat index)) as [[k w] E]; [lia|]. pose proof (around_at a _ k w Hk E) as H.
    unfold keyAt, vector_get, get. rewrite (proj2 (Z.ltb_ge _ _)), E by lia. cbn [from_option_or mbind result_bind].
    unfold vector_replace. rewrite (decide_True (P := 0 <= index < Z.of_nat (length a))) by lia.
    eexists _, _. split; [done|].
    assert (Er : <[Z.to_nat index := (k, v)]> a = take (Z.to_nat index) a ++ middle k (Some v) ++ drop (S (Z.to_nat index)) a).
    { by rewrite (insert_take_drop a (Z.to_nat index) (k, v)) by lia. }
    rewrite Er. split; [by apply (around_keyed _ _ _ _ _ _ H)|]. rewrite (decide_True (P := index < Z.of_nat (length a))) by lia. split; [done|]. exists k. split; [|by apply (around_alter _ _ _ _ _ _ H)].
    split; [by rewrite (around_lookup _ _ _ _ _ H)|]. rewrite (around_rank _ _ _ _ _ Hk H), length_take. lia.
  - eexists _, _. split; [done|]. split; [done|]. by rewrite decide_False by lia.
Qed.

Lemma kv_op_ok d a o : keyed a -> proper_op o ->
  exists r a', run_kv_op d a o = Ok (r, a') /\ keyed a' /\ spec_kv_op d (to_map a) o r (to_map a').
Proof.
  intros Hk Hp.
  assert (Hput : forall key b x c, around a key b x c -> around (b ++ middle key None ++ c) key b None c) by (intros key b x c []; by split).
  destruct o as [key v|key v|index v|key|key|key]; cbn [run_kv_op spec_kv_op].
  3: { destruct (replace_at_ok d a index v Hk Hp) as (i & a' & E & Hk' & Hs). rewrite E. by eexists _, _. }
  all: destruct (keyed_around a key Hk) as (b & x & c & H).
  - unfold kv_add. rewrite (sv_add_ok _ _ _ _ _ _ Hk H). eexists _, _. split; [done|]. split; [by apply (around_keyed _ _ _ _ _ _ H)|].
    split; [by rewrite (around_rank _ _ _ _ _ Hk H)|by apply (around_alter _ _ _ _ _ _ H)].
  - unfold replaceValueFor. rewrite (sv_remove_ok _ _ _ _ _ Hk H). cbn [mbind result_bind].
    rewrite (sv_add_ok _ _ _ b None c); [|by apply (around_keyed _ _ _ _ _ _ H)|by apply (Hput key b x c)]. eexists _, _. split; [done|].
    split; [by apply (around_keyed _ _ _ _ _ _ H)|]. split; [by rewrite (around_rank _ _ _ _ _ Hk H)|by apply (around_alter _ _ _ _ _ _ H)].
  - unfold removeItem. rewrite (sv_remove_ok _ _ _ _ _ Hk H). eexists _, _. split; [done|]. split; [by apply (around_keyed _ _ _ _ _ _ H)|].
    split; [by rewrite (map_index_ok _ _ _ _ _ Hk H)|by apply (around_alter _ _ _ _ _ _ H)].
  - rewrite (value_for_ok _ _ _ _ _ _ Hk H). eexists _, _. split; [done|]. split; [done|]. by rewrite (around_lookup _ _ _ _ _ H).
  - unfold indexOfKey, indexOf. rewrite (around_search _ _ _ _ _ Hk H). eexists _, _. split; [done|]. split; [done|].
    by rewrite (map_index_ok _ _ _ _ _ Hk H).
Qed.

Lemma run_kv_ok d os : forall a, keyed a -> Forall proper_op os ->
  exists rs a', run_kv d a os = Ok (rs, a') /\ keyed a' /\ spec_kv d (to_map a) os rs (to_map a').
Proof.
  induction os as [|o os IH]; intros a Hk Hp; [by exists [], a|]. apply Forall_cons in Hp as [Hp Hps].
  destruct (kv_op_ok d a o Hk Hp) as (r & a1 & E & Hk1 & Hs). destruct (IH a1 Hk1 Hps) as (rs & a2 & E2 & Hk2 & Hs2).
  exists (r :: rs), a2. cbn [run_kv]. rewrite E. cbn [mbind result_bind]. rewrite E2. split; [done|]. split; [done|]. by exists (to_map a1).
Qed.

(** C31 A keyed vector is a finite map: whatever is added, replaced, removed and asked
    for, the binary searches end, read inside of the vector only and answer as the
    map does, an index being the number of smaller keys; the vector keeps one pair
    for each key, with increasing keys. *)
Theorem keyed_vector_is_map d os :
  Forall proper_op os ->
  exists rs a, run_kv d [] os = Ok (rs, a) /\ keyed a /\ spec_kv d ∅ os rs (to_map a).
Proof. apply (run_kv_ok d os []). constructor. Qed.

(** Adding the items of a vector one by one makes the union of the maps, where the
    items win, and answers that there was no error. *)
Lemma merge_items_ok items : forall a, keyed a ->
  exists a', merge_items a items = Ok (NO_ERROR, a') /\ keyed a' /\ to_map a' = foldl (fun m p => <[fst p := snd p]> m) (to_map a) items.
Proof.
  induction items as [|[key v] items IH]; intros a Hk; [by exists a|]. destruct (keyed_around a key Hk) as (b & x & c & H).
  cbn [merge_items]. rewrite (sv_add_ok _ _ _ _ _ _ Hk H). cbn [mbind result_bind]. rewrite (proj2 (Z.ltb_ge _ _)) by lia.
  destruct (IH _ (around_keyed _ _ _ _ _ (Some v) H)) as (a' & E & Hk' & Em). exists a'. split; [done|]. split; [done|].
  rewrite Em. cbn [foldl fst snd]. f_equal. by apply (around_alter _ _ _ _ _ _ H).
Qed.

End SortedVector.

Lemma keyed_vector_is_map_witness :
  exists rs a, run_kv 0 [] [KAdd 5 50; KAdd 3 30; KAdd 5 51; KReplaceValueFor 4 40; KValueFor 5; KRemoveItem 3; KReplaceValueAt 1 52; KIndexOf 3] = Ok (rs, a) /\
    keyed a /\ spec_kv 0 ∅ [KAdd 5 50; KAdd 3 30; KAdd 5 51; KReplaceValueFor 4 40; KValueFor 5; KRemoveItem 3; KReplaceValueAt 1 52; KIndexOf 3] rs (to_map a).
Proof. apply (keyed_vector_is_map 0). repeat constructor; discriminate. Defined.

Example kv_demo :
  run_kv 0 [] [KAdd 5 50; KAdd 3 30; KAdd 5 51; KReplaceValueFor 4 40; KValueFor 5; KRemoveItem 3; KReplaceValueAt 1 52; KIndexOf 3] =
  Ok ([Index 0; Index 0; Index 1; Index 1; Value 51; Index 0; Index 1; Index (-2)], [(4, 40); (5, 52)]).
Proof. vm_compute. reflexivity. Qed.

(** A sorted vector that is merged into an empty one is compared with an element at
    NULL. *)
Example merged_into_nothing : merge_sorted [] [(1, 10)] = Err NullDeref.
Proof. reflexivity. Qed.

(** A key at the end of one and the front of the other is there twice after. *)
Example merged_twice : merge_sorted [(2, 20); (3, 30)] [(1, 10); (2, 21)] = Ok (0, [(1, 10); (2, 21); (2, 20); (3, 30)]).
Proof. reflexivity. Qed.

(** A negative index reads behind the vector. *)
Example mirrored_past_the_end : mirrorItemAt [(1, 10); (2, 20); (3, 30)] (-1) = Err OutOfBounds.
Proof. reflexivity. Qed.
