(* ===== verification/ClientState.v ===== *)
(** * The state of GL in the guest

    Models [src/emulator/opengl/shared/OpenglCodecCommon/GLClientState.cpp] and
    [GLClientState.h]: what the encoders of the guest remember of the state of GL:
    vertex arrays, alignments, buffers, and the textures of each unit, with a sorted
    array of all textures that were bound.

    [textures_are_a_map]: with names below 2^31 the textures are a finite map from names
    to targets and the units what binding and deleting makes of them. *)
From S2P Require Import Prelude CorkscrewSymbols SortedVector GlUtils.
Local Open Scope Z_scope.

Definition VERTEX_LOCATION : Z := 0.
Definition NORMAL_LOCATION : Z := 1.
Definition COLOR_LOCATION : Z := 2.
Definition POINTSIZE_LOCATION : Z := 3.
Definition TEXCOORD0_LOCATION : Z := 4.
Definition MATRIXINDEX_LOCATION : Z := 12.
Definition WEIGHT_LOCATION : Z := 13.
Definition LAST_LOCATION : Z := 14.
Definition MAX_TEXTURE_UNITS : Z := 32.

Definition GL_NO_ERROR : Z := 0.
Definition GL_INVALID_ENUM : Z := 0x0500.
Definition GL_INVALID_VALUE : Z := 0x0501.
Definition GL_INVALID_OPERATION : Z := 0x0502.
Definition GL_OUT_OF_MEMORY : Z := 0x0505.
Definition GL_TEXTURE0 : Z := 0x84C0.
Definition GL_TEXTURE_2D : Z := 0x0DE1.
Definition GL_TEXTURE_EXTERNAL_OES : Z := 0x8D65.
Definition GL_ARRAY_BUFFER : Z := 0x8892.
Definition GL_ELEMENT_ARRAY_BUFFER : Z := 0x8893.

(** ** The state *)

Record VertexAttribState := mkAttrib {
  enabled : Z; size : Z; type : Z; stride : Z; data : Z; bufferObject : Z; glConst : Z;
  elementSize : Z; enableDirty : bool; normalized : Z
}.

Record PixelStoreState := mkPixelStore { unpack_alignment : Z; pack_alignment : Z }.

Record TextureUnit := mkUnit { enables : Z; texture_2d : Z; texture_external : Z }.

Record TextureRec := mkRec { rec_id : Z; rec_target : Z }.

(** [activeUnit] is an index; [textures] all records of the block. *)
Record TextureState := mkTex {
  unit_ : list TextureUnit; activeUnit : nat; textures : list TextureRec; numTextures : Z; allocTextures : Z
}.

Record GLClientState := mkState {
  m_pixelStore : PixelStoreState; m_states : list VertexAttribState; m_nLocations : Z; m_currentArrayVbo : Z;
  m_currentIndexVbo : Z; m_activeTexture : Z; m_currentProgram : Z; m_tex : TextureState
}.

Definition set_states (l : list VertexAttribState) (s : GLClientState) : GLClientState :=
  mkState (m_pixelStore s) l (m_nLocations s) (m_currentArrayVbo s) (m_currentIndexVbo s) (m_activeTexture s) (m_currentProgram s) (m_tex s).

Definition set_tex (t : TextureState) (s : GLClientState) : GLClientState :=
  mkState (m_pixelStore s) (m_states s) (m_nLocations s) (m_currentArrayVbo s) (m_currentIndexVbo s) (m_activeTexture s) (m_currentProgram s) t.

(** The kind of array of each location of GLES 1. *)
Definition location_consts : list Z :=
  [0x8074; 0x8075; 0x8076; 0x8B9C; 0x8078; 0x8078; 0x8078; 0x8078; 0x8078; 0x8078; 0x8078; 0x8078; 0x8844; 0x86AD].

Definition init_attrib (a : VertexAttribState) : VertexAttribState :=
  mkAttrib 0 (size a) (type a) (stride a) (data a) (bufferObject a) (glConst a) (elementSize a) false (normalized a).

Definition set_const (a : VertexAttribState) (c : Z) : VertexAttribState :=
  mkAttrib (enabled a) (size a) (type a) (stride a) (data a) (bufferObject a) c (elementSize a) (enableDirty a) (normalized a).

Definition init_tex : TextureState := mkTex (replicate 32 (mkUnit 0 0 0)) 0 [] 0 0.

(** The constructor; [fresh] is what the new array has in it. *)
Definition new_GLClientState (nLocations : Z) (fresh : nat -> VertexAttribState) : GLClientState :=
  let nLocations := if nLocations <? LAST_LOCATION then LAST_LOCATION else nLocations in
  let states := (fun i => init_attrib (fresh i)) <$> seq 0 (Z.to_nat nLocations) in
  let states := zip_with set_const (take 14 states) location_consts ++ drop 14 states in
  mkState (mkPixelStore 4 4) states nLocations 0 0 0 0 init_tex.

(** ** Vertex arrays *)

Definition validLocation (s : GLClientState) (location : Z) : bool := (0 <=? location) && (location <? m_nLocations s).

(** A change of the attribute at a location that is valid. *)
Definition edit_state (s : GLClientState) (location : Z) (f : VertexAttribState -> VertexAttribState) : result GLClientState :=
  if negb (validLocation s location) then Ok s
  else a ← get (m_states s) (Z.to_nat location); l ← put (m_states s) (Z.to_nat location) (f a); Ok (set_states l s).

Definition enable (s : GLClientState) (location state : Z) : result GLClientState :=
  edit_state s location (fun a =>
    mkAttrib state (size a) (type a) (stride a) (data a) (bufferObject a) (glConst a) (elementSize a)
      (enableDirty a || negb (state =? enabled a)) (normalized a)).

Definition setState (s : GLClientState) (location size_ type_ normalized_ stride_ data_ : Z) : result GLClientState :=
  edit_state s location (fun a =>
    mkAttrib (enabled a) size_ type_ stride_ data_ (m_currentArrayVbo s) (glConst a) (u32 (glSizeof type_ * size_))
      (enableDirty a) normalized_).

Definition setBufferObject (s : GLClientState) (location id : Z) : result GLClientState :=
  edit_state s location (fun a =>
    mkAttrib (enabled a) (size a) (type a) (stride a) (data a) id (glConst a) (elementSize a) (enableDirty a) (normalized a)).

(** The attribute, or NULL. *)
Definition getState (s : GLClientState) (location : Z) : result (option VertexAttribState) :=
  if negb (validLocation s location) then Ok None else a ← get (m_states s) (Z.to_nat location); Ok (Some a).

Definition getStateAndEnableDirty (s : GLClientState) (location : Z) : result (option (VertexAttribState * bool) * GLClientState) :=
  if negb (validLocation s location) then Ok (None, s)
  else
    a ← get (m_states s) (Z.to_nat location);
    let a' := mkAttrib (enabled a) (size a) (type a) (stride a) (data a) (bufferObject a) (glConst a) (elementSize a) false (normalized a) in
    l ← put (m_states s) (Z.to_nat location) a';
    Ok (Some (a', enableDirty a), set_states l s).

Definition getLocation (s : GLClientState) (loc : Z) : Z :=
  match loc with
  | 0x8074 => VERTEX_LOCATION
  | 0x8075 => NORMAL_LOCATION
  | 0x8076 => COLOR_LOCATION
  | 0x8B9C => POINTSIZE_LOCATION
  | 0x8078 => TEXCOORD0_LOCATION + m_activeTexture s
  | 0x8844 => MATRIXINDEX_LOCATION
  | 0x86AD => WEIGHT_LOCATION
  | _ => loc
  end.

(** The array of a query for a pointer. *)
Definition pointer_location (s : GLClientState) (pname : Z) : option Z :=
  match pname with
  | 0x808E => Some VERTEX_LOCATION
  | 0x808F => Some NORMAL_LOCATION
  | 0x8090 => Some COLOR_LOCATION
  | 0x8092 => Some (m_activeTexture s + TEXCOORD0_LOCATION)
  | 0x898C => Some POINTSIZE_LOCATION
  | 0x8849 => Some MATRIXINDEX_LOCATION
  | 0x86AC => Some WEIGHT_LOCATION
  | _ => None
  end.

Definition getClientStatePointer (s : GLClientState) (pname : Z) : result (option Z) :=
  match pointer_location s pname with
  | None => Ok None
  | Some l => a ← getState s l; Ok (match a with Some a => Some (data a) | None => None end)
  end.

(** Whether the query was handled, and what is written. *)
Definition getVertexAttribParameter (s : GLClientState) (index param : Z) : result (bool * option Z) :=
  a ← getState s (s32 index);
  match a with
  | None => Ok (true, None)
  | Some a =>
      Ok (match param with
          | 0x889F => (true, Some (bufferObject a))
          | 0x8622 => (true, Some (enabled a))
          | 0x8623 => (true, Some (size a))
          | 0x8624 => (true, Some (stride a))
          | 0x8625 => (true, Some (type a))
          | 0x886A => (true, Some (normalized a))
          | _ => (false, None)
          end)
  end.

Definition bindBuffer (s : GLClientState) (target id : Z) : Z * GLClientState :=
  if target =? GL_ARRAY_BUFFER then
    (0, mkState (m_pixelStore s) (m_states s) (m_nLocations s) id (m_currentIndexVbo s) (m_activeTexture s) (m_currentProgram s) (m_tex s))
  else if target =? GL_ELEMENT_ARRAY_BUFFER then
    (0, mkState (m_pixelStore s) (m_states s) (m_nLocations s) (m_currentArrayVbo s) id (m_activeTexture s) (m_currentProgram s) (m_tex s))
  else (-1, s).

Definition getBuffer (s : GLClientState) (target : Z) : Z :=
  if target =? GL_ARRAY_BUFFER then s32 (m_currentArrayVbo s)
  else if target =? GL_ELEMENT_ARRAY_BUFFER then s32 (m_currentIndexVbo s) else -1.

Definition setCurrentProgram (s : GLClientState) (program : Z) : GLClientState :=
  mkState (m_pixelStore s) (m_states s) (m_nLocations s) (m_currentArrayVbo s) (m_currentIndexVbo s) (m_activeTexture s) program (m_tex s).

Definition setActiveTexture (s : GLClientState) (texUnit : Z) : GLClientState :=
  mkState (m_pixelStore s) (m_states s) (m_nLocations s) (m_currentArrayVbo s) (m_currentIndexVbo s) texUnit (m_currentProgram s) (m_tex s).

(** A query of a GLES 1 array: the array and the field; [None] as the location stands
    for the active texture's. *)
Definition array_query (param : Z) : option (option Z * (VertexAttribState -> Z)) :=
  match param with
  | 0x807A => Some (Some VERTEX_LOCATION, size)
  | 0x807B => Some (Some VERTEX_LOCATION, type)
  | 0x807C => Some (Some VERTEX_LOCATION, stride)
  | 0x8081 => Some (Some COLOR_LOCATION, size)
  | 0x8082 => Some (Some COLOR_LOCATION, type)
  | 0x8083 => Some (Some COLOR_LOCATION, stride)
  | 0x807E => Some (Some NORMAL_LOCATION, type)
  | 0x807F => Some (Some NORMAL_LOCATION, stride)
  | 0x8088 => Some (None, size)
  | 0x8089 => Some (None, type)
  | 0x808A => Some (None, stride)
  | 0x898A => Some (Some POINTSIZE_LOCATION, type)
  | 0x898B => Some (Some POINTSIZE_LOCATION, stride)
  | 0x8846 => Some (Some MATRIXINDEX_LOCATION, size)
  | 0x8847 => Some (Some MATRIXINDEX_LOCATION, type)
  | 0x8848 => Some (Some MATRIXINDEX_LOCATION, stride)
  | 0x86AB => Some (Some WEIGHT_LOCATION, size)
  | 0x86A9 => Some (Some WEIGHT_LOCATION, type)
  | 0x86AA => Some (Some WEIGHT_LOCATION, stride)
  | 0x8896 => Some (Some VERTEX_LOCATION, bufferObject)
  | 0x8897 => Some (Some NORMAL_LOCATION, bufferObject)
  | 0x8898 => Some (Some COLOR_LOCATION, bufferObject)
  | 0x889A => Some (None, bufferObject)
  | 0x8B9F => Some (Some POINTSIZE_LOCATION, bufferObject)
  | 0x8B9E => Some (Some MATRIXINDEX_LOCATION, bufferObject)
  | 0x889E => Some (Some WEIGHT_LOCATION, bufferObject)
  | _ => None
  end.

(** What is written, when it is a parameter that the client keeps. *)
Definition getClientStateParameter (s : GLClientState) (param : Z) : result (option Z) :=
  match param with
  | 0x84E1 => Ok (Some (s32 (m_activeTexture s + GL_TEXTURE0)))
  | 0x8894 => Ok (Some (getBuffer s GL_ARRAY_BUFFER))
  | 0x8895 => Ok (Some (getBuffer s GL_ELEMENT_ARRAY_BUFFER))
  | _ =>
      match array_query param with
      | None => Ok None
      | Some (l, field) =>
          a ← getState s (default (m_activeTexture s + TEXCOORD0_LOCATION) l);
          match a with None => Err NullDeref | Some a => Ok (Some (field a)) end
      end
  end.

(** ** Pixels *)

Definition setPixelStore (s : GLClientState) (param value : Z) : Z * GLClientState :=
  let ok := (value =? 1) || (value =? 2) || (value =? 4) || (value =? 8) in
  let set p := mkState p (m_states s) (m_nLocations s) (m_currentArrayVbo s) (m_currentIndexVbo s) (m_activeTexture s) (m_currentProgram s) (m_tex s) in
  match param with
  | 0x0CF5 => if ok then (0, set (mkPixelStore value (pack_alignment (m_pixelStore s)))) else (GL_INVALID_VALUE, s)
  | 0x0D05 => if ok then (0, set (mkPixelStore (unpack_alignment (m_pixelStore s)) value)) else (GL_INVALID_VALUE, s)
  | _ => (GL_INVALID_ENUM, s)
  end.

(** [size_t] has [bits] bits. *)
Definition pixelDataSize (bits : Z) (s : GLClientState) (width height format type_ pack : Z) : Z :=
  let pixelsize := Z.shiftr (glUtilsPixelBitSize format type_) 3 in
  let alignment := if pack =? 0 then unpack_alignment (m_pixelStore s) else pack_alignment (m_pixelStore s) in
  let linesize := s32 (pixelsize * width) mod 2 ^ bits in
  let aligned_linesize := s32 (s32 (linesize / alignment) * alignment) mod 2 ^ bits in
  let aligned_linesize := if aligned_linesize <? linesize then (aligned_linesize + alignment) mod 2 ^ bits else aligned_linesize in
  (aligned_linesize * height) mod 2 ^ bits.

(** ** Textures *)

Definition set_active_unit (t : TextureState) (f : TextureUnit -> TextureUnit) : result TextureState :=
  u ← get (unit_ t) (activeUnit t); l ← put (unit_ t) (activeUnit t) (f u);
  Ok (mkTex l (activeUnit t) (textures t) (numTextures t) (allocTextures t)).

Definition setActiveTextureUnit (t : TextureState) (texture : Z) : Z * TextureState :=
  let unit := u32 (texture - GL_TEXTURE0) in
  if MAX_TEXTURE_UNITS <=? unit then (GL_INVALID_OPERATION, t)
  else (GL_NO_ERROR, mkTex (unit_ t) (Z.to_nat unit) (textures t) (numTextures t) (allocTextures t)).

Definition getActiveTextureUnit (t : TextureState) : Z := GL_TEXTURE0 + Z.of_nat (activeUnit t).

(** The bit of a target in [enables]. *)
Definition target_bit (target : Z) : option Z :=
  if target =? GL_TEXTURE_2D then Some 0 else if target =? GL_TEXTURE_EXTERNAL_OES then Some 1 else None.

Definition enableTextureTarget (t : TextureState) (target : Z) : result TextureState :=
  match target_bit target with
  | None => Ok t
  | Some b => set_active_unit t (fun u => mkUnit (Z.lor (enables u) (Z.shiftl 1 b)) (texture_2d u) (texture_external u))
  end.

Definition disableTextureTarget (t : TextureState) (target : Z) : result TextureState :=
  match target_bit target with
  | None => Ok t
  | Some b => set_active_unit t (fun u => mkUnit (Z.ldiff (enables u) (Z.shiftl 1 b)) (texture_2d u) (texture_external u))
  end.

Definition priority_target (u : TextureUnit) (allDisabled : Z) : Z :=
  if Z.testbit (enables u) 1 then GL_TEXTURE_EXTERNAL_OES
  else if Z.testbit (enables u) 0 then GL_TEXTURE_2D else allDisabled.

Definition getPriorityEnabledTarget (t : TextureState) (allDisabled : Z) : result Z :=
  u ← get (unit_ t) (activeUnit t); Ok (priority_target u allDisabled).

(** The difference of the two names as [int]s, where the C code overflows it wraps. *)
Definition compareTexId (id : Z) (rec : TextureRec) : Z := s32 (s32 id - s32 (rec_id rec)).

Definition find_texture (t : TextureState) (texture : Z) : result (option nat) :=
  bsearch_loop (S (Z.to_nat (numTextures t))) (compareTexId texture) (textures t) 0 (Z.to_nat (numTextures t)).

Section Alloc.
(** The width of [size_t]. *)
Context (bits : Z).

(** How many records a larger block is asked to have. *)
Definition new_alloc (alloc : Z) : option Z :=
  let MAX_TEXTURES := 0xFFFFFFFF in
  if alloc <=? MAX_TEXTURES - alloc then Some (Z.max 4 (2 * alloc))
  else if alloc =? MAX_TEXTURES then None else Some MAX_TEXTURES.

(** The block made larger when it is full: [None] for NULL.  [memory] is the answer of
    [realloc], with what the new records have in them. *)
Definition grow_textures (memory : option (nat -> TextureRec)) (t : TextureState) : option TextureState :=
  if numTextures t =? allocTextures t then
    match new_alloc (allocTextures t), memory with
    | Some newAlloc, Some fresh =>
        let room := Z.to_nat (((newAlloc * 8) mod 2 ^ bits) / 8) in
        let old := take room (textures t) in
        Some (mkTex (unit_ t) (activeUnit t) (old ++ (fresh <$> seq (length old) (room - length old))) (numTextures t) newAlloc)
    | _, _ => None
    end
  else Some t.

(** The loop that moves the records with greater names up: the place it makes. *)
Fixpoint shift_records (l : list TextureRec) (id : Z) (tex : nat) : result (list TextureRec * nat) :=
  match tex with
  | O => Ok (l, O)
  | S prev =>
      p ← get l prev;
      if id <? rec_id p then l ← put l tex p; shift_records l id prev else Ok (l, tex)
  end.

(** The index of the new record. *)
Definition addTextureRec (memory : option (nat -> TextureRec)) (t : TextureState) (id target : Z) : result (option nat * TextureState) :=
  match grow_textures memory t with
  | None => Ok (None, t)
  | Some t =>
      '(l, tex) ← shift_records (textures t) id (Z.to_nat (numTextures t));
      l ← put l tex (mkRec id target);
      Ok (Some tex, mkTex (unit_ t) (activeUnit t) l (u32 (numTextures t + 1)) (allocTextures t))
  end.

(** What is bound at a target of a unit. *)
Definition bind_unit (target texture : Z) (u : TextureUnit) : TextureUnit :=
  if target =? GL_TEXTURE_2D then mkUnit (enables u) texture (texture_external u)
  else if target =? GL_TEXTURE_EXTERNAL_OES then mkUnit (enables u) (texture_2d u) texture
  else u.

(** The error, whether this was the first use, where that is written, and the state. *)
Definition bindTexture (memory : option (nat -> TextureRec)) (t : TextureState) (target texture : Z) : result (Z * option bool * TextureState) :=
  found ← (if texture =? 0 then Ok (Some (None, t), false)
           else
             i ← find_texture t texture;
             match i with
             | Some i => Ok (Some (Some i, t), false)
             | None =>
                 '(i, t) ← addTextureRec memory t texture target;
                 match i with None => Ok (None, true) | Some i => Ok (Some (Some i, t), true) end
             end);
  match found with
  | (None, _) => Ok (GL_OUT_OF_MEMORY, None, t)
  | (Some (rec, t), first) =>
      other ← match rec with None => Ok false | Some i => r ← get (textures t) i; Ok (negb (target =? rec_target r)) end;
      if (other : bool) then Ok (GL_INVALID_OPERATION, None, t)
      else t ← set_active_unit t (bind_unit target texture); Ok (GL_NO_ERROR, Some first, t)
  end.

Definition bound_at (u : TextureUnit) (target : Z) : Z :=
  if target =? GL_TEXTURE_2D then texture_2d u
  else if target =? GL_TEXTURE_EXTERNAL_OES then texture_external u else 0.

Definition getBoundTexture (t : TextureState) (target : Z) : result Z :=
  u ← get (unit_ t) (activeUnit t); Ok (bound_at u target).

(** A texture that is deleted leaves a unit. *)
Definition unbind_unit (texture : Z) (u : TextureUnit) : TextureUnit :=
  if texture_2d u =? texture then mkUnit (enables u) 0 (texture_external u)
  else if texture_external u =? texture then mkUnit (enables u) (texture_2d u) 0
  else u.

Definition delete_one (t : TextureState) (texture : Z) : result TextureState :=
  i ← find_texture t texture;
  match i with
  | None => Ok t
  | Some i =>
      rest ← read_block (textures t) (Z.of_nat (S i)) (numTextures t - Z.of_nat i - 1);
      l ← memcpy_at (textures t) i rest;
      Ok (mkTex (unbind_unit texture <$> unit_ t) (activeUnit t) l (u32 (numTextures t - 1)) (allocTextures t))
  end.

Definition deleteTextures (t : TextureState) (textures : list Z) : result TextureState := foldM delete_one t textures.

(** ** The specification: a map of targets, and the units *)

Record Textures := mkTextures { targets : gmap Z Z; units : list TextureUnit; active : nat }.

Definition change_active (f : TextureUnit -> TextureUnit) (s : Textures) : Textures :=
  mkTextures (targets s) (alter f (active s) (units s)) (active s).

(** A texture is bound to one target from its first use on. *)
Definition spec_bind (s : Textures) (target texture : Z) : Z * option bool * Textures :=
  if texture =? 0 then (GL_NO_ERROR, Some false, change_active (bind_unit target 0) s)
  else
    match targets s !! texture with
    | Some t =>
        if t =? target then (GL_NO_ERROR, Some false, change_active (bind_unit target texture) s)
        else (GL_INVALID_OPERATION, None, s)
    | None =>
        (GL_NO_ERROR, Some true,
         change_active (bind_unit target texture) (mkTextures (<[texture := target]> (targets s)) (units s) (active s)))
    end.

Definition spec_delete (s : Textures) (texture : Z) : Textures :=
  match targets s !! texture with
  | None => s
  | Some _ => mkTextures (delete texture (targets s)) (unbind_unit texture <$> units s) (active s)
  end.

Inductive tex_op :=
  | ActiveTexture (texture : Z)
  | EnableTarget (target : Z)
  | DisableTarget (target : Z)
  | BindTexture (memory : option (nat -> TextureRec)) (target texture : Z)
  | DeleteTextures (textures : list Z)
  | BoundTexture (target : Z)
  | PriorityTarget (allDisabled : Z).

(** The answer of an operation: an error or a value, and the first use. *)
Definition run_tex_op (t : TextureState) (o : tex_op) : result (Z * option bool * TextureState) :=
  match o with
  | ActiveTexture texture => let '(e, t) := setActiveTextureUnit t texture in Ok (e, None, t)
  | EnableTarget target => t ← enableTextureTarget t target; Ok (0, None, t)
  | DisableTarget target => t ← disableTextureTarget t target; Ok (0, None, t)
  | BindTexture memory target texture => bindTexture memory t target texture
  | DeleteTextures textures => t ← deleteTextures t textures; Ok (0, None, t)
  | BoundTexture target => b ← getBoundTexture t target; Ok (b, None, t)
  | PriorityTarget d => p ← getPriorityEnabledTarget t d; Ok (p, None, t)
  end.

Definition active_unit (s : Textures) : TextureUnit := default (mkUnit 0 0 0) (units s !! active s).

Definition change_bit (f : Z -> Z -> Z) (s : Textures) (target : Z) : Textures :=
  match target_bit target with
  | None => s
  | Some b => change_active (fun u => mkUnit (f (enables u) (Z.shiftl 1 b)) (texture_2d u) (texture_external u)) s
  end.

Definition spec_tex_op (s : Textures) (o : tex_op) : Z * option bool * Textures :=
  match o with
  | ActiveTexture texture =>
      if MAX_TEXTURE_UNITS <=? u32 (texture - GL_TEXTURE0) then (GL_INVALID_OPERATION, None, s)
      else (GL_NO_ERROR, None, mkTextures (targets s) (units s) (Z.to_nat (u32 (texture - GL_TEXTURE0))))
  | EnableTarget target => (0, None, change_bit Z.lor s target)
  | DisableTarget target => (0, None, change_bit Z.ldiff s target)
  | BindTexture _ target texture => spec_bind s target texture
  | DeleteTextures textures => (0, None, foldl spec_delete s textures)
  | BoundTexture target => (bound_at (active_unit s) target, None, s)
  | PriorityTarget d => (priority_target (active_unit s) d, None, s)
  end.

(** A new texture may find no memory, when the operating system has none. *)
Definition no_memory (s : Textures) (o : tex_op) : Prop :=
  match o with BindTexture None _ texture => texture <> 0 /\ targets s !! texture = None | _ => False end.

Definition step_spec (s : Textures) (o : tex_op) (r : Z * option bool) (s' : Textures) : Prop :=
  spec_tex_op s o = (r, s') \/ (no_memory s o /\ r = (GL_OUT_OF_MEMORY, None) /\ s' = s).

Fixpoint run_tex (t : TextureState) (os : list tex_op) : result (list (Z * option bool) * TextureState) :=
  match os with
  | [] => Ok ([], t)
  | o :: os => '(r, t) ← run_tex_op t o; '(rs, t) ← run_tex t os; Ok (r :: rs, t)
  end.

Fixpoint spec_tex (s : Textures) (os : list tex_op) (rs : list (Z * option bool)) (s' : Textures) : Prop :=
  match os, rs with
  | [], [] => s' = s
  | o :: os, r :: rs => exists s1, step_spec s o r s1 /\ spec_tex s1 os rs s'
  | _, _ => False
  end.

(** Names that are not negative as [int]s. *)
Definition name_ok (id : Z) : Prop := 0 <= id < 2 ^ 31.

Definition proper_tex_op (o : tex_op) : Prop :=
  match o with
  | BindTexture _ _ texture => name_ok texture
  | DeleteTextures textures => Forall name_ok textures
  | _ => True
  end.

(** ** The array of records *)

Definition as_pair (r : TextureRec) : Z * Z := (rec_id r, rec_target r).

Definition records (t : TextureState) : list TextureRec := take (Z.to_nat (numTextures t)) (textures t).

(** [k] bounds the textures that there ever were. *)
Record TInv (t : TextureState) (k : Z) : Prop := mkTInv {
  ti_num : 0 <= numTextures t <= k /\ numTextures t <= allocTextures t;
  ti_block : Z.of_nat (length (textures t)) = allocTextures t;
  ti_alloc : allocTextures t <= 4 + 2 * k;
  ti_keyed : keyed (as_pair <$> records t);
  ti_names : forall r, r ∈ records t -> 0 < rec_id r < 2 ^ 31;
  ti_units : length (unit_ t) = 32%nat;
  ti_active : (activeUnit t < 32)%nat
}.

Definition textures_of (t : TextureState) : Textures := mkTextures (to_map (as_pair <$> records t)) (unit_ t) (activeUnit t).

Lemma records_length t k : TInv t k -> length (records t) = Z.to_nat (numTextures t).
Proof. intros H. unfold records. rewrite length_take. pose proof (ti_num _ _ H). pose proof (ti_block _ _ H). lia. Qed.

Lemma bsearch_loop_take {A} fuel (c : A -> Z) l n : forall base lim, (base + lim <= n)%nat ->
  bsearch_loop fuel c l base lim = bsearch_loop fuel c (take n l) base lim.
Proof.
  induction fuel as [|fuel IH]; intros base lim Hn; [done|]. cbn [bsearch_loop]. destruct lim as [|lim']; [done|].
  pose proof (Nat.div_mod_eq (S lim') 2). pose proof (Nat.div_mod_eq lim' 2). pose proof (Nat.mod_upper_bound lim' 2). pose proof (Nat.mod_upper_bound (S lim') 2).
  unfold get. rewrite lookup_take_lt by lia. destruct (l !! _) as [x|]; [|done]. cbn [from_option_or mbind result_bind].
  rewrite (IH (S (base + S lim' / 2)) (lim' / 2)%nat), (IH base (S lim' / 2)%nat) by lia. done.
Qed.

Lemma compare_names id r : name_ok id -> 0 < rec_id r < 2 ^ 31 -> compareTexId id r = id - rec_id r.
Proof. unfold name_ok, compareTexId. intros H1 H2. rewrite (s32_small id), (s32_small (rec_id r)) by lia. apply s32_small. lia. Qed.

Lemma keyed_records l i j x y : keyed (as_pair <$> l) -> (i < j)%nat -> l !! i = Some x -> l !! j = Some y -> rec_id x < rec_id y.
Proof.
  intros Hk Hij Hx Hy. apply (keyed_lt (as_pair <$> l) i j (as_pair x) (as_pair y) Hk); [by rewrite list_lookup_fmap, Hx|by rewrite list_lookup_fmap, Hy|done].
Qed.

(** The search finds the record of a name exactly when there is one. *)
Lemma find_texture_ok t k texture : TInv t k -> name_ok texture ->
  exists o, find_texture t texture = Ok o /\
    match o with
    | Some i => exists r, records t !! i = Some r /\ rec_id r = texture
    | None => forall r, r ∈ records t -> rec_id r <> texture
    end.
Proof.
  intros H Hid. unfold find_texture. rewrite (bsearch_loop_take _ _ _ (Z.to_nat (numTextures t))) by lia. fold (records t).
  assert (Hc : forall i x, records t !! i = Some x -> compareTexId texture x = texture - rec_id x).
  { intros i x Hx. apply compare_names; [done|]. apply (ti_names _ _ H). by apply list_elem_of_lookup_2 in Hx. }
  pose proof (records_length t k H) as Hl.
  destruct (bsearch_loop_spec (S (Z.to_nat (numTextures t))) (compareTexId texture) (records t) 0 (Z.to_nat (numTextures t))) as (o & E & Ho).
  - lia.
  - lia.
  - intros i j x y Hij Hx Hy. rewrite (Hc i x Hx), (Hc j y Hy). pose proof (keyed_records _ i j x y (ti_keyed _ _ H) Hij Hx Hy). lia.
  - intros i j x y Hij Hx Hy. rewrite (Hc i x Hx), (Hc j y Hy). pose proof (keyed_records _ i j x y (ti_keyed _ _ H) Hij Hx Hy). lia.
  - exists o. split; [done|]. destruct o as [i|].
    + destruct Ho as (x & Hx & E0). exists x. split; [done|]. rewrite (Hc i x Hx) in E0. lia.
    + intros r Hr Hr0. apply list_elem_of_lookup in Hr as [i Hi]. apply (Ho i r); [|done|rewrite (Hc i r Hi); lia].
      apply lookup_lt_Some in Hi. lia.
Qed.

Lemma shift_records_ok id (p : list TextureRec) : (forall r, last p = Some r -> rec_id r <= id) ->
  forall q x rest, (forall r, r ∈ q -> id < rec_id r) ->
  exists y, shift_records (p ++ q ++ x :: rest) id (length (p ++ q)) = Ok (p ++ y :: q ++ rest, length p).
Proof.
  intros Hp q. induction q as [|z q IH] using rev_ind; intros x rest Hq.
  - exists x. rewrite app_nil_r. cbn [app]. destruct p as [|z p] using rev_ind; [done|]. rewrite length_app. cbn [length]. rewrite Nat.add_1_r. cbn [shift_records].
    unfold get. rewrite <-app_assoc. cbn [app]. rewrite list_lookup_middle by done. cbn [from_option_or mbind result_bind].
    specialize (Hp z). rewrite last_snoc in Hp. by rewrite (proj2 (Z.ltb_ge _ _)) by auto.
  - replace (length (p ++ q ++ [z])) with (S (length (p ++ q))) by len. cbn [shift_records]. rewrite <-(app_assoc q). cbn [app]. rewrite (app_assoc p).
    unfold get at 1. rewrite list_lookup_middle by done. cbn [from_option_or mbind result_bind].
    rewrite (proj2 (Z.ltb_lt _ _)) by (apply Hq; set_solver). unfold put. rewrite decide_True by len.
    cbn [mbind result_bind]. replace (S (length (p ++ q))) with (length ((p ++ q) ++ [z])) by len.
    change (z :: x :: rest) with ([z] ++ x :: rest). rewrite (app_assoc _ [z]), insert_app_r_alt, Nat.sub_diag by done. cbn [insert list_insert].
    rewrite <-!app_assoc. cbn [app]. destruct (IH z (z :: rest)) as (y & E); [intros r Hr; apply Hq; set_solver|]. exists y. by rewrite E.
Qed.

(** The block is large enough for one more. *)
Lemma grow_textures_ok t k memory : TInv t k -> k < 2 ^ 27 -> 32 <= bits ->
  match grow_textures memory t with
  | None => memory = None
  | Some t' =>
      TInv t' k /\ records t' = records t /\ unit_ t' = unit_ t /\ activeUnit t' = activeUnit t /\ numTextures t' = numTextures t /\
      numTextures t' < allocTextures t'
  end.
Proof.
  intros H Hk Hb. pose proof (ti_num _ _ H) as Hn. pose proof (ti_block _ _ H) as Hl. pose proof (ti_alloc _ _ H) as Ha. unfold grow_textures.
  destruct (Z.eqb_spec (numTextures t) (allocTextures t)) as [E|E]; [|split_and!; [done|done|done|done|done|lia]].
  unfold new_alloc. rewrite (proj2 (Z.leb_le _ _)) by lia. destruct memory as [fresh|]; [|done].
  assert (H32 : 2 ^ 32 <= 2 ^ bits) by (apply Z.pow_le_mono_r; lia). set (n := Z.max 4 (2 * allocTextures t)).
  assert (Hnn : n * 8 < 2 ^ 32 /\ allocTextures t < n /\ n <= 4 + 2 * k) by (unfold n; lia). clearbody n.
  rewrite Z.mod_small, Z.div_mul by lia. rewrite (take_ge (textures t)) by lia.
  set (t' := mkTex _ _ _ _ _). assert (Er : records t' = records t).
  { unfold records, t'. cbn [textures numTextures]. rewrite take_app_le by lia. done. }
  split_and!; try done; [|cbn [numTextures allocTextures t']; lia].
  split; rewrite ?Er; cbn [numTextures allocTextures textures unit_ activeUnit t'];
    [lia|rewrite length_app, length_fmap, length_seq; lia|lia|apply H|apply H|apply H|apply H].
Qed.

Lemma records_split t k texture : TInv t k -> (forall r, r ∈ records t -> rec_id r <> texture) ->
  exists p q, records t = p ++ q /\ (forall r, r ∈ p -> rec_id r < texture) /\ (forall r, r ∈ q -> texture < rec_id r).
Proof.
  intros H Hn. destruct (keyed_split _ texture (ti_keyed _ _ H)) as (b & c & E & Hb & Hc).
  apply fmap_app_inv in E as (p & q & -> & -> & Epq). exists p, q. split; [done|]. split.
  - intros r Hr. apply (Hb (as_pair r)). by apply list_elem_of_fmap_2.
  - intros r Hr. pose proof (Hc (as_pair r) ltac:(by apply list_elem_of_fmap_2)). cbn in *. specialize (Hn r ltac:(rewrite Epq; set_solver)). lia.
Qed.

Lemma around_records (p : list TextureRec) id o q : keyed (as_pair <$> p) -> keyed (as_pair <$> q) ->
  (forall r, r ∈ p -> rec_id r < id) -> (forall r, r ∈ q -> id < rec_id r) ->
  around ((as_pair <$> p) ++ middle id o ++ (as_pair <$> q)) id (as_pair <$> p) o (as_pair <$> q).
Proof.
  intros Kp Kq Hp Hq. split; [done| | |done|done].
  - intros x (r & -> & Hr)%list_elem_of_fmap. by apply Hp.
  - intros x (r & -> & Hr)%list_elem_of_fmap. by apply Hq.
Qed.

Lemma add_ok t k memory id target : TInv t k -> k < 2 ^ 27 -> 32 <= bits -> name_ok id -> id <> 0 -> (forall r, r ∈ records t -> rec_id r <> id) ->
  exists o t', addTextureRec memory t id target = Ok (o, t') /\
    match o with
    | None => memory = None
    | Some i => TInv t' (k + 1) /\ textures t' !! i = Some (mkRec id target) /\
        textures_of t' = mkTextures (<[id := target]> (targets (textures_of t))) (unit_ t) (activeUnit t)
    end.
Proof.
  intros H Hk Hb Hid Hid0 Hn. unfold addTextureRec. pose proof (grow_textures_ok t k memory H Hk Hb) as Hg.
  destruct (grow_textures memory t) as [t1|]; [|by exists None, t]. destruct Hg as (H1 & Er & Eu & Ea & En & Hlt).
  destruct (records_split t1 k id H1) as (p & q & Epq & Hp & Hq); [by rewrite Er|]. pose proof (records_length t1 k H1) as Hlr.
  pose proof (ti_num _ _ H1) as Hnum. pose proof (ti_block _ _ H1) as Hbl.
  destruct (drop (Z.to_nat (numTextures t1)) (textures t1)) as [|x rest] eqn:Ed.
  { apply (f_equal length) in Ed. rewrite length_drop in Ed. simpl in Ed. lia. }
  assert (Et : textures t1 = p ++ q ++ x :: rest).
  { rewrite <-(take_drop (Z.to_nat (numTextures t1)) (textures t1)), Ed. unfold records in Epq. by rewrite Epq, <-app_assoc. }
  destruct (shift_records_ok id p) with (q := q) (x := x) (rest := rest) as (y & Es); [|done|].
  { intros r Hr. apply last_Some in Hr as [l ->]. apply Z.lt_le_incl, Hp. set_solver. }
  assert (Hpq : length (p ++ q) = Z.to_nat (numTextures t1)) by (by rewrite <-Epq). pose proof Hpq as Hpq'. rewrite length_app in Hpq'. rewrite Et, <-Hpq, Es. cbn [mbind result_bind].
  unfold put. rewrite decide_True by len. cbn [mbind result_bind]. rewrite insert_app_r_alt, Nat.sub_diag by done. cbn [insert list_insert].
  eexists (Some (length p)), _. split; [reflexivity|]. set (t' := mkTex _ _ _ _ _).
  assert (Er' : records t' = p ++ mkRec id target :: q).
  { unfold records, t'. cbn [numTextures textures]. rewrite u32_small by lia. replace (Z.to_nat (numTextures t1 + 1)) with (length (p ++ mkRec id target :: q)) by len.
    rewrite app_comm_cons, app_assoc. apply take_app_length. }
  pose proof (ti_keyed _ _ H1) as Kt. rewrite Epq, fmap_app in Kt. apply keyed_app in Kt as (_ & Kp & Kq).
  pose proof (around_records p id None q Kp Kq Hp Hq) as Ar. split.
  - split; rewrite ?Er'; cbn [numTextures allocTextures textures unit_ activeUnit t'].
    + rewrite u32_small by lia. lia.
    + rewrite <-Hbl, Et. f_equal. len.
    + pose proof (ti_alloc _ _ H1). lia.
    + rewrite fmap_app. apply (around_keyed _ _ _ _ _ (Some target) Ar).
    + intros r Hr. apply elem_of_app in Hr as [Hr|[->|Hr]%elem_of_cons]; [apply (ti_names _ _ H1); rewrite Epq; set_solver| |apply (ti_names _ _ H1); rewrite Epq; set_solver].
      cbn [rec_id]. unfold name_ok in Hid. lia.
    + apply H1.
    + apply H1.
  - split; [cbn [textures t']; by rewrite list_lookup_middle|].
    unfold textures_of. cbn [targets]. rewrite Er', <-Er, Epq, !fmap_app. cbn [unit_ activeUnit t']. rewrite Eu, Ea. f_equal.
    apply (around_alter _ _ _ _ _ (Some target) Ar).
Qed.

Lemma lookup_record t k i r : TInv t k -> records t !! i = Some r -> targets (textures_of t) !! rec_id r = Some (rec_target r).
Proof.
  intros H E. assert (Ep : (as_pair <$> records t) !! i = Some (rec_id r, rec_target r)) by (by rewrite list_lookup_fmap, E).
  exact (around_lookup _ _ _ _ _ (around_at _ i _ _ (ti_keyed _ _ H) Ep)).
Qed.

Lemma lookup_no_record t id : (forall r, r ∈ records t -> rec_id r <> id) -> targets (textures_of t) !! id = None.
Proof. intros H. apply no_key. intros p (r & -> & Hr)%list_elem_of_fmap. by apply H. Qed.

Lemma delete_one_ok t k texture : TInv t k -> k < 2 ^ 27 -> name_ok texture ->
  exists t', delete_one t texture = Ok t' /\ TInv t' k /\ textures_of t' = spec_delete (textures_of t) texture.
Proof.
  intros H Hk Hid. unfold delete_one, spec_delete. destruct (find_texture_ok t k texture H Hid) as (o & E & Ho). rewrite E. cbn [mbind result_bind].
  destruct o as [i|]; [|exists t; split; [done|]; split; [done|]; by rewrite (lookup_no_record t texture Ho)].
  destruct Ho as (r & Er & <-). rewrite (lookup_record t k i r H Er). pose proof (records_length t k H) as Hlr.
  pose proof (ti_num _ _ H) as Hnum. pose proof (ti_block _ _ H) as Hbl. pose proof (lookup_lt_Some _ _ _ Er) as Hi.
  set (p := take i (records t)). set (q := drop (S i) (records t)). set (rest := drop (Z.to_nat (numTextures t)) (textures t)).
  assert (Epq : records t = p ++ r :: q) by (symmetry; exact (take_drop_middle _ _ _ Er)).
  assert (Hlp : length p = i) by (unfold p; rewrite length_take; lia). assert (Hlq : length q = (Z.to_nat (numTextures t) - S i)%nat) by (unfold q; rewrite length_drop; lia).
  assert (Et : textures t = p ++ r :: q ++ rest).
  { rewrite <-(take_drop (Z.to_nat (numTextures t)) (textures t)). fold rest. fold (records t). by rewrite Epq, <-app_assoc. }
  clearbody p q rest.
  rewrite (block_in (textures t) (p ++ [r]) q rest) by first [by rewrite Et, <-app_assoc|len]. cbn [mbind result_bind]. rewrite Et. unfold memcpy_at. rewrite decide_True by len. cbn [mbind result_bind].
  rewrite <-Hlp, take_app_length. eexists. split; [reflexivity|]. set (t' := mkTex _ _ _ _ _).
  assert (Er' : records t' = p ++ q).
  { unfold records, t'. cbn [numTextures textures]. rewrite u32_small by lia. replace (Z.to_nat (numTextures t - 1)) with (length (p ++ q)) by len.
    rewrite app_assoc. apply take_app_length. }
  assert (Ep : (as_pair <$> records t) !! i = Some (rec_id r, rec_target r)) by (by rewrite list_lookup_fmap, Er).
  pose proof (around_at _ i _ _ (ti_keyed _ _ H) Ep) as Ar. rewrite Epq, fmap_app in Ar. cbn [fmap list_fmap] in Ar.
  rewrite take_app_length' in Ar by (by rewrite length_fmap). rewrite cons_middle, app_assoc, drop_app_length' in Ar by (rewrite length_app, length_fmap; simpl; lia).
  split.
  - split; rewrite ?Er'; cbn [numTextures allocTextures textures unit_ activeUnit t'].
    + rewrite u32_small by lia. lia.
    + rewrite <-Hbl, Et. len.
    + apply H.
    + rewrite fmap_app. apply (around_keyed _ _ _ _ _ None Ar).
    + intros x Hx. apply (ti_names _ _ H). rewrite Epq. set_solver.
    + rewrite length_fmap. apply H.
    + apply H.
  - unfold textures_of. rewrite Er'. cbn [targets unit_ activeUnit units active t']. rewrite Epq, !fmap_app. f_equal.
    change (as_pair <$> r :: q) with ([as_pair r] ++ (as_pair <$> q)). rewrite (app_assoc (as_pair <$> p) [as_pair r]). apply (around_alter _ _ _ _ _ None Ar).
Qed.

Lemma delete_ok l : forall t k, TInv t k -> k < 2 ^ 27 -> Forall name_ok l ->
  exists t', deleteTextures t l = Ok t' /\ TInv t' k /\ textures_of t' = foldl spec_delete (textures_of t) l.
Proof.
  induction l as [|id l IH]; intros t k H Hk Hl; [by exists t|]. apply Forall_cons in Hl as [Hid Hl].
  destruct (delete_one_ok t k id H Hk Hid) as (t1 & E1 & H1 & S1). destruct (IH t1 k H1 Hk Hl) as (t2 & E2 & H2 & S2).
  exists t2. unfold deleteTextures in *. cbn [foldM foldl]. rewrite E1. cbn [mbind result_bind]. by rewrite E2, S2, S1.
Qed.

(** A change of the active unit. *)
Lemma set_active_unit_ok t k f : TInv t k ->
  exists t', set_active_unit t f = Ok t' /\ TInv t' k /\ textures_of t' = change_active f (textures_of t) /\ textures t' = textures t.
Proof.
  intros H. unfold set_active_unit, get, put. pose proof (ti_units _ _ H) as Hu. pose proof (ti_active _ _ H) as Ha.
  destruct (lookup_lt_is_Some_2 (unit_ t) (activeUnit t)) as [u Eu]; [lia|]. rewrite Eu. cbn [from_option_or mbind result_bind].
  rewrite decide_True by lia. cbn [mbind result_bind]. eexists. split; [done|]. split.
  - split; cbn [numTextures allocTextures textures unit_ activeUnit]; try apply H. by rewrite length_insert.
  - split; [|done]. unfold change_active, textures_of. cbn [unit_ activeUnit textures numTextures targets units active records]. f_equal.
    rewrite list_insert_alter. apply list_alter_ext; [|done]. intros x Hx. congruence.
Qed.

Lemma active_unit_ok t k : TInv t k -> get (unit_ t) (activeUnit t) = Ok (active_unit (textures_of t)).
Proof.
  intros H. unfold get, active_unit, textures_of. cbn [units active]. pose proof (ti_units _ _ H) as Hu. pose proof (ti_active _ _ H) as Ha.
  destruct (lookup_lt_is_Some_2 (unit_ t) (activeUnit t)) as [u Eu]; [lia|]. by rewrite Eu.
Qed.

Lemma tinv_more t k : TInv t k -> TInv t (k + 1).
Proof. intros []. split; try done; lia. Qed.

Lemma change_bit_ok t k f target : TInv t k ->
  exists t', match target_bit target with
    | None => Ok t
    | Some b => set_active_unit t (fun u => mkUnit (f (enables u) (Z.shiftl 1 b)) (texture_2d u) (texture_external u))
    end = Ok t' /\ TInv t' k /\ textures_of t' = change_bit f (textures_of t) target.
Proof.
  intros H. unfold change_bit. destruct (target_bit target) as [b|]; [|by exists t].
  destruct (set_active_unit_ok t k (fun u => mkUnit (f (enables u) (Z.shiftl 1 b)) (texture_2d u) (texture_external u)) H) as (t' & E & H' & S' & _).
  by exists t'.
Qed.

Lemma bind_texture_ok t k memory target texture : TInv t k -> k < 2 ^ 27 -> 32 <= bits -> name_ok texture ->
  exists e first t', bindTexture memory t target texture = Ok (e, first, t') /\ TInv t' (k + 1) /\
    (spec_bind (textures_of t) target texture = (e, first, textures_of t') \/
     (no_memory (textures_of t) (BindTexture memory target texture) /\ (e, first) = (GL_OUT_OF_MEMORY, None) /\ textures_of t' = textures_of t)).
Proof.
  intros H Hk Hb Hid. unfold bindTexture, spec_bind. destruct (Z.eqb_spec texture 0) as [->|H0].
  - cbn [mbind result_bind]. destruct (set_active_unit_ok t k (bind_unit target 0) H) as (t' & E & H' & S' & _). rewrite E. cbn [mbind result_bind].
    eexists _, _, _. split; [done|]. split; [by apply tinv_more|]. left. by rewrite S'.
  - destruct (find_texture_ok t k texture H Hid) as (o & E & Ho). rewrite E. cbn [mbind result_bind]. destruct o as [i|].
    + destruct Ho as (r & Er & <-). rewrite (lookup_record t k i r H Er). cbn [mbind result_bind].
      assert (Et : textures t !! i = Some r). { unfold records in Er. by apply lookup_take_Some in Er as [Er _]. }
      unfold get. rewrite Et. cbn [from_option_or mbind result_bind]. rewrite (Z.eqb_sym target). destruct (Z.eqb_spec (rec_target r) target) as [Hs|Hs]; cbn [negb].
      * destruct (set_active_unit_ok t k (bind_unit target (rec_id r)) H) as (t' & E' & H' & S' & _). rewrite E'. cbn [mbind result_bind].
        eexists _, _, _. split; [done|]. split; [by apply tinv_more|]. left. by rewrite S'.
      * eexists _, _, _. split; [done|]. split; [by apply tinv_more|]. by left.
    + rewrite (lookup_no_record t texture Ho). destruct (add_ok t k memory texture target H Hk Hb Hid H0 Ho) as (o & t1 & E1 & H1). rewrite E1. cbn [mbind result_bind].
      destruct o as [i|]; cbn [mbind result_bind].
      * destruct H1 as (H1 & Er & S1). unfold get. rewrite Er. cbn [from_option_or mbind result_bind rec_target]. rewrite Z.eqb_refl. cbn [negb].
        destruct (set_active_unit_ok t1 (k + 1) (bind_unit target texture) H1) as (t' & E' & H' & S' & _). rewrite E'. cbn [mbind result_bind].
        eexists _, _, _. split; [done|]. split; [done|]. left. by rewrite S', S1.
      * subst memory. eexists _, _, _. split; [done|]. split; [by apply tinv_more|]. right. split; [|done]. split; [done|]. by apply lookup_no_record.
Qed.

Lemma tex_op_ok t k o : TInv t k -> k < 2 ^ 27 -> 32 <= bits -> proper_tex_op o ->
  exists r t', run_tex_op t o = Ok (r, t') /\ TInv t' (k + 1) /\ step_spec (textures_of t) o r (textures_of t').
Proof.
  intros H Hk Hb Hp. pose proof (tinv_more t k H) as Hm. destruct o as [texture|target|target|memory target texture|l|target|d]; cbn [run_tex_op proper_tex_op] in *.
  - unfold setActiveTextureUnit, step_spec. cbn [spec_tex_op]. pose proof (u32_range (texture - GL_TEXTURE0)) as Hr. unfold MAX_TEXTURE_UNITS.
    destruct (Z.leb_spec 32 (u32 (texture - GL_TEXTURE0))) as [Hle|Hlt].
    + eexists _, _. split; [done|]. split; [done|]. by left.
    + eexists _, _. split; [done|]. split; [|by left]. destruct Hm. split; try done. cbn [activeUnit]. lia.
  - destruct (change_bit_ok t k Z.lor target H) as (t' & E & H' & S'). unfold enableTextureTarget. rewrite E. cbn [mbind result_bind].
    eexists _, _. split; [done|]. split; [by apply tinv_more|]. left. cbn [spec_tex_op]. by rewrite S'.
  - destruct (change_bit_ok t k Z.ldiff target H) as (t' & E & H' & S'). unfold disableTextureTarget. rewrite E. cbn [mbind result_bind].
    eexists _, _. split; [done|]. split; [by apply tinv_more|]. left. cbn [spec_tex_op]. by rewrite S'.
  - destruct (bind_texture_ok t k memory target texture H Hk Hb Hp) as (e & first & t' & E & H' & S'). exists (e, first), t'. by split.
  - destruct (delete_ok l t k H Hk Hp) as (t' & E & H' & S'). rewrite E. cbn [mbind result_bind]. eexists _, _. split; [done|].
    split; [by apply tinv_more|]. left. cbn [spec_tex_op]. by rewrite S'.
  - unfold getBoundTexture. rewrite (active_unit_ok t k H). cbn [mbind result_bind]. eexists _, _. split; [done|]. split; [done|]. by left.
  - unfold getPriorityEnabledTarget. rewrite (active_unit_ok t k H). cbn [mbind result_bind]. eexists _, _. split; [done|]. split; [done|]. by left.
Qed.

Lemma run_tex_ok os : forall t k, TInv t k -> k + Z.of_nat (length os) < 2 ^ 27 -> 32 <= bits -> Forall proper_tex_op os ->
  exists rs t', run_tex t os = Ok (rs, t') /\ TInv t' (k + Z.of_nat (length os)) /\ spec_tex (textures_of t) os rs (textures_of t').
Proof.
  induction os as [|o os IH]; intros t k H Hk Hb Hp; [exists [], t; split; [done|]; split; [|done]; by rewrite Z.add_0_r|].
  apply Forall_cons in Hp as [Hp Hps]. cbn [length] in Hk. destruct (tex_op_ok t k o H ltac:(lia) Hb Hp) as (r & t1 & E1 & H1 & S1).
  destruct (IH t1 (k + 1) H1 ltac:(lia) Hb Hps) as (rs & t2 & E2 & H2 & S2). exists (r :: rs), t2. cbn [run_tex]. rewrite E1. cbn [mbind result_bind].
  rewrite E2. split; [done|]. split; [|by exists (textures_of t1)]. cbn [length]. replace (k + Z.of_nat (S (length os))) with (k + 1 + Z.of_nat (length os)) by lia. done.
Qed.

Definition no_textures : Textures := mkTextures ∅ (replicate 32 (mkUnit 0 0 0)) 0.

Lemma tinv_init : TInv init_tex 0.
Proof. split; cbn; try lia; try done; [constructor|]. intros r Hr. by apply not_elem_of_nil in Hr. Qed.

(** C23 The textures of the guest are a finite map from names to targets, and for each
    unit the textures and the targets that are in use there: for every sequence of
    fewer than 2^27 operations with names below 2^31, whatever the answers of
    [realloc] are, the searches and moves stay inside of the array of records, and
    errors, first uses and values are those of the specification, except for a new
    texture that finds no memory and changes nothing. *)
Theorem textures_are_a_map os :
  32 <= bits -> Z.of_nat (length os) < 2 ^ 27 -> Forall proper_tex_op os ->
  exists rs t, run_tex init_tex os = Ok (rs, t) /\ spec_tex no_textures os rs (textures_of t) /\
    keyed (as_pair <$> records t) /\ numTextures t <= allocTextures t /\ Z.of_nat (length (textures t)) = allocTextures t.
Proof.
  intros Hb Hl Hp. destruct (run_tex_ok os init_tex 0 tinv_init ltac:(lia) Hb Hp) as (rs & t & E & H & Hs). exists rs, t.
  split; [done|]. split; [done|]. split; [apply H|]. split; [apply H|apply H].
Qed.

End Alloc.

(** ** A run *)

Definition memory : option (nat -> TextureRec) := Some (fun i => mkRec (Z.of_nat i) 0).

Definition tex_session : list tex_op := [
  BindTexture memory GL_TEXTURE_2D 7; BindTexture None GL_TEXTURE_2D 3; BindTexture memory GL_TEXTURE_EXTERNAL_OES 5;
  BindTexture memory GL_TEXTURE_EXTERNAL_OES 7; EnableTarget GL_TEXTURE_EXTERNAL_OES; PriorityTarget GL_TEXTURE_2D;
  ActiveTexture (GL_TEXTURE0 + 3); BindTexture memory GL_TEXTURE_2D 7; BindTexture memory GL_TEXTURE_2D 2; BindTexture None GL_TEXTURE_2D 9;
  DeleteTextures [3; 5; 0; 11]; ActiveTexture GL_TEXTURE0; BoundTexture GL_TEXTURE_EXTERNAL_OES; BindTexture memory GL_TEXTURE_2D 5;
  ActiveTexture (GL_TEXTURE0 + 32) ].

Definition session_answers : list (Z * option bool) := [
  (0, Some true); (0, Some true); (0, Some true); (GL_INVALID_OPERATION, None); (0, None); (GL_TEXTURE_EXTERNAL_OES, None);
  (0, None); (0, Some false); (0, Some true); (GL_OUT_OF_MEMORY, None); (0, None); (0, None); (0, None); (0, Some true);
  (GL_INVALID_OPERATION, None) ].

Example tex_session_answers :
  match run_tex 32 init_tex tex_session with
  | Ok (rs, t) => bool_decide (rs = session_answers) && bool_decide (as_pair <$> records t = [(2, GL_TEXTURE_2D); (5, GL_TEXTURE_2D); (7, GL_TEXTURE_2D)])
  | Err _ => false
  end = true.
Proof. vm_compute. reflexivity. Qed.

Lemma textures_are_a_map_witness :
  exists rs t, run_tex 32 init_tex tex_session = Ok (rs, t) /\ spec_tex no_textures tex_session rs (textures_of t) /\
    keyed (as_pair <$> records t) /\ numTextures t <= allocTextures t /\ Z.of_nat (length (textures t)) = allocTextures t.
Proof.
  apply (textures_are_a_map 32 tex_session); [lia|vm_compute; reflexivity|].
  unfold tex_session, name_ok. repeat constructor; vm_compute; first [reflexivity|discriminate|split; [discriminate|reflexivity]].
Defined.

(** The order of the array is that of unsigned names, the order of the search that of
    [int]s.  A name from 2^31 on can be missed: deleting it leaves it bound, and its
    second use, with another target, is a first use without an error. *)
Example large_name_missed :
  match run_tex 32 init_tex [
    BindTexture memory GL_TEXTURE_2D 1; BindTexture memory GL_TEXTURE_2D 2; BindTexture memory GL_TEXTURE_2D 0xFFFFFFFF;
    DeleteTextures [0xFFFFFFFF]; BoundTexture GL_TEXTURE_2D; BindTexture memory GL_TEXTURE_EXTERNAL_OES 0xFFFFFFFF] with
  | Ok (rs, _) => rs
  | Err _ => []
  end = [(0, Some true); (0, Some true); (0, Some true); (0, None); (0xFFFFFFFF, None); (0, Some true)].
Proof. vm_compute. reflexivity. Qed.

(** A query for the texture coordinates of a unit that has no array. *)
Example query_without_array :
  getClientStateParameter (setActiveTexture (new_GLClientState 0 (fun _ => mkAttrib 0 0 0 0 0 0 0 0 false 0)) 100) 0x8088 = Err NullDeref.
Proof. vm_compute. reflexivity. Qed.
