(* ===== verification/GuestDraw.v ===== *)
(** * Drawing from the guest

    Models the vertex arrays of [src/emulator/opengl/system/GLESv2_enc/GL2Encoder.cpp]
    ([sendVertexAttributes], [s_glDrawArrays], [s_glDrawElements] and the functions
    that set arrays and buffers), and what the host makes of them in
    [src/emulator/opengl/host/libs/GLESv2_dec/GL2Decoder.cpp] and
    [shared/OpenglCodecCommon/GLDecoderContextData.h].

    The encoder's calls are a log, which the decoder performs.  The arrays of OpenGL
    on the host are as its documentation says.  [guest_drawings_arrive]: what the
    host draws is what the guest drew. *)
From S2P Require Import Prelude GlUtils ClientState.
Local Open Scope Z_scope.

(** ** The encoder *)

(** The calls that go to the host. *)
Inductive call :=
  | EnableVertexAttribArray (index : Z)
  | DisableVertexAttribArray (index : Z)
  | VertexAttribPointerData (index size type normalized stride : Z) (data : list (option Z))
  | VertexAttribPointerOffset (index size type normalized stride offset : Z)
  | BindBuffer (target id : Z)
  | BufferData (target size : Z)
  | DrawArrays (mode first count : Z)
  | DrawElementsData (mode count type : Z) (data : list (option Z))
  | DrawElementsOffset (mode count type offset : Z).

(** What the generated encoder of [glVertexAttribPointerData] sends. *)
Definition pointer_data (mem : Memory) (index size type normalized stride data datalen : Z) : result call :=
  packed ← glUtilsPackPointerData mem (replicate (Z.to_nat datalen) None) data size type stride datalen;
  Ok (VertexAttribPointerData index size type normalized stride packed).

(** What is sent for an attribute that is enabled. *)
Definition send_enabled (mem : Memory) (s : GLClientState) (i first count : Z) (a : VertexAttribState) : result (list call) :=
  let datalen := u32 (elementSize a * count) in
  let stride_ := if stride a =? 0 then s32 (elementSize a) else stride a in
  let firstIndex := s32 (stride_ * first) in
  if bufferObject a =? 0 then
    c ← pointer_data mem i (size a) (type a) (normalized a) (stride a) (data a + firstIndex) datalen;
    Ok [EnableVertexAttribArray i; c]
  else
    Ok [EnableVertexAttribArray i; BindBuffer GL_ARRAY_BUFFER (bufferObject a);
        VertexAttribPointerOffset i (size a) (type a) (normalized a) (stride a) (u32 (u32 (data a) + firstIndex));
        BindBuffer GL_ARRAY_BUFFER (m_currentArrayVbo s)].

(** A turn of the loop of [sendVertexAttributes]. *)
Definition send_attribute (mem : Memory) (first count : Z) (st : GLClientState * list call) (i : Z) : result (GLClientState * list call) :=
  let '(s, log) := st in
  '(a, s) ← getStateAndEnableDirty s i;
  match a with
  | None => Ok (s, log)
  | Some (a, enableDirty) =>
      if negb enableDirty && (enabled a =? 0) then Ok (s, log)
      else if negb (enabled a =? 0) then calls ← send_enabled mem s i first count a; Ok (s, log ++ calls)
      else Ok (s, log ++ [DisableVertexAttribArray i])
  end.

Definition sendVertexAttributes (mem : Memory) (s : GLClientState) (first count : Z) : result (GLClientState * list call) :=
  foldM (send_attribute mem first count) (s, []) (seqZ 0 (m_nLocations s)).

Definition s_glDrawArrays (mem : Memory) (s : GLClientState) (mode first count : Z) : result (GLClientState * list call) :=
  '(s, log) ← sendVertexAttributes mem s first count; Ok (s, log ++ [DrawArrays mode 0 count]).

(** Whether enabled attributes are in the caller's memory, and whether in buffers. *)
Definition arrays_used (s : GLClientState) : result (bool * bool) :=
  foldM (fun '(immediate, indirect) i =>
    a ← getState s i;
    match a with
    | None => Err NullDeref
    | Some a =>
        if enabled a =? 0 then Ok (immediate, indirect)
        else if negb (bufferObject a =? 0) then Ok (immediate, true) else Ok (true, indirect)
    end) (false, false) (seqZ 0 (m_nLocations s)).

(** The bytes of an index, by its type; other types are logged as unsupported. *)
Definition index_width (type : Z) : option Z :=
  match type with 0x1400 | 0x1401 => Some 1 | 0x1402 | 0x1403 => Some 2 | _ => None end.

Definition read_indices (mem : Memory) (p w count : Z) : result (list Z) :=
  xs ← read_elements mem p w w (Z.to_nat count); Ok (map le_value xs).

(** The indices that are sent, and the range of the vertices. *)
Definition adjusted_indices (mem : Memory) (type indices count : Z) : result (list (option Z) * Z * Z) :=
  match index_width type with
  | Some w =>
      l ← read_indices mem indices w count;
      let '(minIndex, maxIndex) := minmax l in
      if negb (minIndex =? 0) then
        Ok (map Some (concat (map (le_bytes (Z.to_nat w)) (shiftIndices w l (- minIndex)))), minIndex, maxIndex)
      else x ← read_mem mem indices (w * count); Ok (map Some x, minIndex, maxIndex)
  | None => x ← read_mem mem indices (count * glSizeof type); Ok (map Some x, 0, 0)
  end.

(** The error that is set, the state and the calls.  [shared_buffer] is the address of
    the copy that the shared group has of a buffer. *)
Definition s_glDrawElements (mem : Memory) (shared_buffer : Z -> option Z) (s : GLClientState) (mode count type indices : Z)
    : result (option Z * GLClientState * list call) :=
  if count <? 0 then Ok (Some GL_INVALID_VALUE, s, [])
  else
    '(has_immediate_arrays, has_indirect_arrays) ← arrays_used s;
    if negb has_immediate_arrays && negb has_indirect_arrays then Ok (None, s, [])
    else
      let ibo := m_currentIndexVbo s in
      if negb (ibo =? 0) && negb has_immediate_arrays then
        '(s, log) ← sendVertexAttributes mem s 0 count;
        Ok (None, s, log ++ [BindBuffer GL_ELEMENT_ARRAY_BUFFER ibo; DrawElementsOffset mode count type (u32 indices)])
      else
        '(indices, bind) ← (if negb (ibo =? 0) then
                              p ← from_option_or NullDeref (shared_buffer ibo); Ok (p + indices, [BindBuffer GL_ELEMENT_ARRAY_BUFFER 0])
                            else Ok (indices, []));
        '(data, minIndex, maxIndex) ← adjusted_indices mem type indices count;
        '(s, log) ← sendVertexAttributes mem s minIndex (s32 (maxIndex - minIndex + 1));
        Ok (None, s, bind ++ log ++ [DrawElementsData mode count type data]).

Definition s_glBindBuffer (s : GLClientState) (target id : Z) : GLClientState * list call :=
  (snd (bindBuffer s target id), [BindBuffer target id]).

(** [s_glBufferData]; the copy in the shared group is not of this file. *)
Definition s_glBufferData (s : GLClientState) (target size : Z) : option Z * list call :=
  if u32 (getBuffer s target) =? 0 then (Some GL_INVALID_OPERATION, [])
  else if size <? 0 then (Some GL_INVALID_VALUE, [])
  else (None, [BufferData target size]).

(** ** The host *)

(** Where an attribute of the host is read: a buffer of the decoder, an offset taken
    for an address, a place in a buffer object. *)
Inductive pointer := Decoded (loc : Z) | Address (p : Z) | InBuffer (buffer offset : Z) | Misplaced (buffer : Z).

Record HostAttrib := mkHostAttrib { h_enabled : bool; h_size : Z; h_type : Z; h_normalized : Z; h_stride : Z; h_pointer : pointer }.

(** A vertex attribute as it is drawn: its format, and its bytes or where they are. *)
Inductive content := Bytes (l : list (option Z)) | Stored (buffer offset : Z).
Record vertex := mkVertex { v_size : Z; v_type : Z; v_normalized : Z; v_content : content }.

(** An attribute as it is drawn by indices that are in a buffer. *)
Record source := mkSource { s_size : Z; s_type : Z; s_normalized : Z; s_buffer : Z; s_offset : Z; s_stride : Z }.

Inductive drawing :=
  | Drawn (mode : Z) (vertices : list (list (option vertex)))
  | DrawnIndirect (mode count type ibo offset : Z) (attributes : list (option source)).

(** The decoder's [m_pointerData], and the state of GL on the host. *)
Record Host := mkHost {
  h_attribs : list HostAttrib; h_pointerData : list FixedBuffer; h_array : Z; h_element : Z; h_drawings : list drawing
}.

Definition set_attrib (h : Host) (i : Z) (f : HostAttrib -> HostAttrib) : result Host :=
  a ← get (h_attribs h) (Z.to_nat i); l ← put (h_attribs h) (Z.to_nat i) (f a);
  Ok (mkHost l (h_pointerData h) (h_array h) (h_element h) (h_drawings h)).

(** [glVertexAttribPointer] of the host: with a buffer bound an address is an offset. *)
Definition attrib_pointer (h : Host) (i size type normalized stride : Z) (p : pointer) : result Host :=
  let p' := match p with
            | Decoded _ => if h_array h =? 0 then p else Misplaced (h_array h)
            | Address o => if h_array h =? 0 then p else InBuffer (h_array h) o
            | _ => p
            end in
  set_attrib h i (fun a => mkHostAttrib (h_enabled a) size type normalized stride p').

(** [GLDecoderContextData::storePointerData] *)
Definition storePointerData (h : Host) (loc : Z) (data : list (option Z)) : result Host :=
  b ← get (h_pointerData h) (Z.to_nat loc);
  b ← memcpy_at (fixed_alloc b (Z.of_nat (length data))) 0 data;
  l ← put (h_pointerData h) (Z.to_nat loc) b;
  Ok (mkHost (h_attribs h) l (h_array h) (h_element h) (h_drawings h)).

Definition attrib_size (a : HostAttrib) : Z := h_size a * glSizeof (h_type a).
Definition attrib_stride (a : HostAttrib) : Z := if h_stride a =? 0 then attrib_size a else h_stride a.

(** What the host reads for a vertex. *)
Definition host_vertex (h : Host) (a : HostAttrib) (k : Z) : result (option vertex) :=
  if negb (h_enabled a) then Ok None
  else
    match h_pointer a with
    | Decoded loc =>
        b ← get (h_pointerData h) (Z.to_nat loc);
        l ← read_block b (attrib_stride a * k) (attrib_size a);
        Ok (Some (mkVertex (h_size a) (h_type a) (h_normalized a) (Bytes l)))
    | InBuffer b o => Ok (Some (mkVertex (h_size a) (h_type a) (h_normalized a) (Stored b (o + attrib_stride a * k))))
    | _ => Err OutOfBounds
    end.

Definition host_source (a : HostAttrib) : result (option source) :=
  if negb (h_enabled a) then Ok None
  else
    match h_pointer a with
    | InBuffer b o => Ok (Some (mkSource (h_size a) (h_type a) (h_normalized a) b o (attrib_stride a)))
    | _ => Err OutOfBounds
    end.

(** [mapM] for results. *)
Fixpoint each {A B} (f : A -> result B) (l : list A) : result (list B) :=
  match l with [] => Ok [] | a :: l => b ← f a; bs ← each f l; Ok (b :: bs) end.

Definition draw (h : Host) (mode : Z) (indices : list Z) : result Host :=
  vertices ← each (fun k => each (fun a => host_vertex h a k) (h_attribs h)) indices;
  Ok (mkHost (h_attribs h) (h_pointerData h) (h_array h) (h_element h) (h_drawings h ++ [Drawn mode vertices])).

(** The indices in the data of a call. *)
Definition host_indices (w : Z) (count : nat) (data : list (option Z)) : result (list Z) :=
  each (fun k => x ← read_block data (w * k) w; bs ← from_option_or Uninitialised (mapM id x); Ok (le_value bs)) (seqZ 0 (Z.of_nat count)).

(** The decoder performs a call. *)
Definition host_step (h : Host) (c : call) : result Host :=
  match c with
  | EnableVertexAttribArray i => set_attrib h i (fun a => mkHostAttrib true (h_size a) (h_type a) (h_normalized a) (h_stride a) (h_pointer a))
  | DisableVertexAttribArray i => set_attrib h i (fun a => mkHostAttrib false (h_size a) (h_type a) (h_normalized a) (h_stride a) (h_pointer a))
  | VertexAttribPointerData i size type normalized _ data =>
      h ← storePointerData h i data; attrib_pointer h i size type normalized 0 (Decoded i)
  | VertexAttribPointerOffset i size type normalized stride o => attrib_pointer h i size type normalized stride (Address o)
  | BindBuffer target id =>
      Ok (if target =? GL_ARRAY_BUFFER then mkHost (h_attribs h) (h_pointerData h) id (h_element h) (h_drawings h)
          else if target =? GL_ELEMENT_ARRAY_BUFFER then mkHost (h_attribs h) (h_pointerData h) (h_array h) id (h_drawings h) else h)
  | BufferData _ _ => Ok h
  | DrawArrays mode first count => draw h mode (seqZ first count)
  | DrawElementsData mode count type data =>
      w ← from_option_or OutOfBounds (index_width type); l ← host_indices w (Z.to_nat count) data; draw h mode l
  | DrawElementsOffset mode count type o =>
      if h_element h =? 0 then Err OutOfBounds
      else
        l ← each host_source (h_attribs h);
        Ok (mkHost (h_attribs h) (h_pointerData h) (h_array h) (h_element h) (h_drawings h ++ [DrawnIndirect mode count type (h_element h) o l]))
  end.

Definition host_run (h : Host) (log : list call) : result Host := foldM host_step h log.

(** ** What the guest drew *)

Definition guest_size (a : VertexAttribState) : Z := size a * glSizeof (type a).
Definition guest_stride (a : VertexAttribState) : Z := if stride a =? 0 then guest_size a else stride a.

Definition guest_vertex (mem : Memory) (k : Z) (a : VertexAttribState) : result (option vertex) :=
  if enabled a =? 0 then Ok None
  else if bufferObject a =? 0 then
    l ← read_mem mem (data a + guest_stride a * k) (guest_size a);
    Ok (Some (mkVertex (size a) (type a) (normalized a) (Bytes (map Some l))))
  else Ok (Some (mkVertex (size a) (type a) (normalized a) (Stored (bufferObject a) (data a + guest_stride a * k)))).

Definition guest_source (a : VertexAttribState) : option source :=
  if enabled a =? 0 then None
  else Some (mkSource (size a) (type a) (normalized a) (bufferObject a) (data a) (guest_stride a)).

Definition guest_drawing (mem : Memory) (s : GLClientState) (mode : Z) (indices : list Z) : result drawing :=
  vertices ← each (fun k => each (guest_vertex mem k) (m_states s)) indices; Ok (Drawn mode vertices).

(** An attribute that vertices from [first] on can be drawn with: it was set, its
    numbers fit, and its bytes are the caller's.  The address of an array is only
    sent right with no buffer bound. *)
Definition attrib_ok (mem : Memory) (vbo first count : Z) (a : VertexAttribState) : Prop :=
  enabled a <> 0 ->
  0 < guest_size a < 2 ^ 31 /\ elementSize a = guest_size a /\ 0 <= stride a /\ guest_size a * count < 2 ^ 31 /\
  guest_stride a * first < 2 ^ 31 /\
  (if bufferObject a =? 0 then vbo = 0 /\ is_ok (read_elements mem (data a + guest_stride a * first) (guest_size a) (guest_stride a) (Z.to_nat count)) = true
   else 0 <= data a /\ data a + guest_stride a * first < 2 ^ 32).

Definition clean (a : VertexAttribState) : VertexAttribState :=
  mkAttrib (enabled a) (size a) (type a) (stride a) (data a) (bufferObject a) (glConst a) (elementSize a) false (normalized a).

(** The host has what the guest knows that it has. *)
Record Sync (s : GLClientState) (h : Host) : Prop := mkSync {
  sy_states : Z.of_nat (length (m_states s)) = m_nLocations s;
  sy_attribs : length (h_attribs h) = length (m_states s);
  sy_data : length (h_pointerData h) = length (m_states s);
  sy_array : h_array h = m_currentArrayVbo s;
  sy_enabled : forall (i : nat) a ha, m_states s !! i = Some a -> h_attribs h !! i = Some ha -> enableDirty a = false -> h_enabled ha = negb (enabled a =? 0)
}.

(** An attribute of the host after it was sent. *)
Definition sent (mem : Memory) (first count i : Z) (a : VertexAttribState) (ha : HostAttrib) (b : FixedBuffer) : Prop :=
  if enabled a =? 0 then h_enabled ha = false
  else if bufferObject a =? 0 then
    ha = mkHostAttrib true (size a) (type a) (normalized a) 0 (Decoded i) /\
    exists xs junk, read_elements mem (data a + guest_stride a * first) (guest_size a) (guest_stride a) (Z.to_nat count) = Ok xs /\ b = (Some <$> concat xs) ++ junk
  else ha = mkHostAttrib true (size a) (type a) (normalized a) (stride a) (InBuffer (bufferObject a) (data a + guest_stride a * first)).

Lemma host_run_app h l k : host_run h (l ++ k) = (h' ← host_run h l; host_run h' k).
Proof. apply foldM_app. Qed.

Lemma set_attrib_ok h (i : nat) ha f : h_attribs h !! i = Some ha ->
  set_attrib h (Z.of_nat i) f = Ok (mkHost (<[i := f ha]> (h_attribs h)) (h_pointerData h) (h_array h) (h_element h) (h_drawings h)).
Proof.
  intros E. unfold set_attrib, get, put. rewrite Nat2Z.id, E. cbn [from_option_or mbind result_bind].
  rewrite decide_True by (by apply lookup_lt_Some in E). done.
Qed.

Lemma store_data_ok h (i : nat) b (data : list (option Z)) : h_pointerData h !! i = Some b ->
  exists junk, storePointerData h (Z.of_nat i) data =
    Ok (mkHost (h_attribs h) (<[i := data ++ junk]> (h_pointerData h)) (h_array h) (h_element h) (h_drawings h)).
Proof.
  intros E. unfold storePointerData, get, put. rewrite Nat2Z.id, E. cbn [from_option_or mbind result_bind].
  assert (Hl : (length data <= length (fixed_alloc b (Z.of_nat (length data))))%nat).
  { unfold fixed_alloc. destruct (Z.leb_spec (Z.of_nat (length data)) (Z.of_nat (length b))); rewrite ?length_replicate; lia. }
  unfold memcpy_at. rewrite decide_True by lia. cbn [mbind result_bind]. rewrite decide_True by (by apply lookup_lt_Some in E). cbn [mbind result_bind].
  by eexists.
Qed.

(** What an enabled attribute sends, and what that makes of the host. *)
Lemma send_enabled_ok mem s h (i : nat) first count a ha b :
  attrib_ok mem (m_currentArrayVbo s) first count a -> enabled a <> 0 -> 0 <= first -> 0 <= count -> h_array h = m_currentArrayVbo s ->
  h_attribs h !! i = Some ha -> h_pointerData h !! i = Some b ->
  exists calls ha' b', send_enabled mem s (Z.of_nat i) first count a = Ok calls /\
    host_run h calls = Ok (mkHost (<[i := ha']> (h_attribs h)) (<[i := b']> (h_pointerData h)) (h_array h) (h_element h) (h_drawings h)) /\
    sent mem first count (Z.of_nat i) a ha' b'.
Proof.
  intros Ha He Hf Hc Hv Eh Eb. destruct (Ha He) as (Hs & Hel & Hst & Hn & Hfi & Hk). unfold send_enabled, sent. rewrite (proj2 (Z.eqb_neq (enabled a) 0)) by done.
  assert (Hstr : (if stride a =? 0 then s32 (elementSize a) else stride a) = guest_stride a).
  { unfold guest_stride. rewrite Hel. destruct (Z.eqb_spec (stride a) 0); [|done]. apply s32_small. lia. }
  assert (Hpos : 0 <= guest_stride a) by (unfold guest_stride; destruct (Z.eqb_spec (stride a) 0); lia).
  rewrite Hstr, Hel. rewrite (s32_small (guest_stride a * first)), (u32_small (guest_size a * count)) by nia.
  destruct (Z.eqb_spec (bufferObject a) 0) as [Eb0|Hb0].
  - destruct Hk as [Hv0 Hread]. destruct (read_elements mem _ _ _ _) as [xs|] eqn:Ex; [|done]. unfold pointer_data.
    replace (guest_size a * count) with (guest_size a * Z.of_nat (Z.to_nat count)) by lia.
    unfold guest_size at 1 2. rewrite (pack_exact mem _ (data a + guest_stride a * first) (size a) (type a) (stride a) (Z.to_nat count) xs);
      fold (guest_size a); [|lia|lia|rewrite length_replicate; lia|lia|exact Ex].
    cbn [mbind result_bind]. destruct (store_data_ok (mkHost (<[i := mkHostAttrib true (h_size ha) (h_type ha) (h_normalized ha) (h_stride ha) (h_pointer ha)]> (h_attribs h)) (h_pointerData h) (h_array h) (h_element h) (h_drawings h)) i b (Some <$> concat xs) Eb) as [junk Est].
    eexists _, (mkHostAttrib true (size a) (type a) (normalized a) 0 (Decoded (Z.of_nat i))), ((Some <$> concat xs) ++ junk). split; [reflexivity|]. split.
    + unfold host_run. cbn [foldM host_step]. rewrite (set_attrib_ok h i ha _ Eh). cbn [mbind result_bind]. rewrite Est. cbn [mbind result_bind].
      unfold attrib_pointer. cbn [h_array]. rewrite Hv, Hv0. cbn [Z.eqb].
      rewrite (set_attrib_ok _ i (mkHostAttrib true (h_size ha) (h_type ha) (h_normalized ha) (h_stride ha) (h_pointer ha)))
        by (cbn [h_attribs]; by rewrite list_lookup_insert_eq by (by apply lookup_lt_Some in Eh)).
      cbn [mbind result_bind h_attribs h_pointerData h_array h_element h_drawings h_enabled]. rewrite list_insert_insert_eq. done.
    + split; [done|]. by exists xs, junk.
  - eexists _, (mkHostAttrib true (size a) (type a) (normalized a) (stride a) (InBuffer (bufferObject a) (data a + guest_stride a * first))), b.
    split; [reflexivity|]. split; [|done]. destruct Hk as [Hd1 Hd2].
    rewrite (u32_small (data a)), u32_small by nia.
    unfold host_run. cbn [foldM host_step]. rewrite (set_attrib_ok h i ha _ Eh). cbn [mbind result_bind]. rewrite Z.eqb_refl.
    cbn [h_attribs h_pointerData h_array h_element h_drawings]. unfold attrib_pointer. cbn [h_array]. rewrite (proj2 (Z.eqb_neq (bufferObject a) 0)) by done.
    rewrite (set_attrib_ok _ i (mkHostAttrib true (h_size ha) (h_type ha) (h_normalized ha) (h_stride ha) (h_pointer ha)))
      by (cbn [h_attribs]; by rewrite list_lookup_insert_eq by (by apply lookup_lt_Some in Eh)).
    cbn [mbind result_bind h_attribs h_pointerData h_array h_element h_drawings h_enabled]. rewrite list_insert_insert_eq, <-Hv.
    by rewrite (list_insert_id (h_pointerData h)).
Qed.

(** The host after some of the attributes were sent. *)
Record Sending (mem : Memory) (first count : Z) (l : list VertexAttribState) (h : Host) (n : nat) (h' : Host) : Prop := mkSending {
  sd_array : h_array h' = h_array h;
  sd_element : h_element h' = h_element h;
  sd_drawings : h_drawings h' = h_drawings h;
  sd_attribs : length (h_attribs h') = length (h_attribs h);
  sd_data : length (h_pointerData h') = length (h_pointerData h);
  sd_sent : forall i a, (i < n)%nat -> l !! i = Some a ->
    exists ha b, h_attribs h' !! i = Some ha /\ h_pointerData h' !! i = Some b /\ sent mem first count (Z.of_nat i) a ha b;
  sd_rest : forall i, (n <= i)%nat -> h_attribs h' !! i = h_attribs h !! i /\ h_pointerData h' !! i = h_pointerData h !! i
}.

(** One more. *)
Lemma sending_more mem first count l h n h' a ha b drawn :
  Sending mem first count l h n h' -> l !! n = Some a -> sent mem first count (Z.of_nat n) a ha b -> (n < length (h_attribs h))%nat -> (n < length (h_pointerData h))%nat ->
  drawn = mkHost (<[n := ha]> (h_attribs h')) (<[n := b]> (h_pointerData h')) (h_array h') (h_element h') (h_drawings h') ->
  Sending mem first count l h (S n) drawn.
Proof.
  intros H Hl Hs H1 H2 ->. pose proof (sd_attribs _ _ _ _ _ _ _ H) as La. pose proof (sd_data _ _ _ _ _ _ _ H) as Ld.
  split; cbn [h_attribs h_pointerData h_array h_element h_drawings]; try apply H; rewrite ?length_insert; try done.
  - intros i x Hi Hx. destruct (decide (i = n)) as [->|Hne].
    + assert (x = a) as -> by congruence. exists ha, b. rewrite !list_lookup_insert_eq by lia. done.
    + rewrite !list_lookup_insert_ne by done. apply (sd_sent _ _ _ _ _ _ _ H); [lia|done].
  - intros i Hi. rewrite !list_lookup_insert_ne by lia. apply (sd_rest _ _ _ _ _ _ _ H). lia.
Qed.

Lemma state_at s (l : list VertexAttribState) (i : nat) a : l !! i = Some a -> Z.of_nat (length l) = m_nLocations s ->
  getStateAndEnableDirty (set_states ((clean <$> take i l) ++ drop i l) s) (Z.of_nat i) =
    Ok (Some (clean a, enableDirty a), set_states ((clean <$> take (S i) l) ++ drop (S i) l) s).
Proof.
  intros E Hl. pose proof (lookup_lt_Some _ _ _ E) as Hi. unfold getStateAndEnableDirty, validLocation. cbn [m_nLocations set_states].
  rewrite (proj2 (Z.leb_le _ _)), (proj2 (Z.ltb_lt _ _)) by lia. cbn [andb negb m_states set_states]. rewrite Nat2Z.id.
  assert (Ht : length (clean <$> take i l) = i) by (rewrite length_fmap, length_take; lia).
  unfold get, put. rewrite (drop_S _ _ _ E), (list_lookup_middle (clean <$> take i l) _ _ i) by done. cbn [from_option_or mbind result_bind].
  rewrite decide_True by (rewrite length_app; simpl; lia). cbn [mbind result_bind]. f_equal. f_equal. unfold set_states. cbn. f_equal.
  rewrite <-Ht at 1. rewrite insert_app_r_alt, Nat.sub_diag by done. cbn [insert list_insert].
  rewrite (take_S_r _ _ _ E), fmap_app, <-app_assoc. done.
Qed.

Lemma send_ok mem s h first count : Sync s h -> 0 <= first -> 0 <= count ->
  Forall (attrib_ok mem (m_currentArrayVbo s) first count) (m_states s) ->
  exists log h', sendVertexAttributes mem s first count = Ok (set_states (clean <$> m_states s) s, log) /\ host_run h log = Ok h' /\
    Sending mem first count (m_states s) h (length (m_states s)) h'.
Proof.
  intros Hy Hf Hc Hok. unfold sendVertexAttributes. pose proof (sy_states _ _ Hy) as Hn.
  destruct (foldM_seqZ (send_attribute mem first count)
    (fun j st => fst st = set_states ((clean <$> take (Z.to_nat j) (m_states s)) ++ drop (Z.to_nat j) (m_states s)) s /\
      exists h', host_run h (snd st) = Ok h' /\ Sending mem first count (m_states s) h (Z.to_nat j) h') 0 (m_nLocations s) (s, [])) as ([s' log] & E & Es & h' & Eh & Hs).
  - lia.
  - split; [by destruct s|]. exists h. split; [done|]. split; try done. intros i a Hi. change (Z.to_nat 0) with 0%nat in Hi. lia.
  - intros j [sj log] Hj (Es & hj & Eh & Hs). cbn [fst snd] in Es, Eh. subst sj. destruct (lookup_lt_is_Some_2 (m_states s) (Z.to_nat j)) as [a Ea]; [lia|].
    pose proof (state_at s (m_states s) (Z.to_nat j) a Ea Hn) as Est. rewrite Z2Nat.id in Est by lia. unfold send_attribute. rewrite Est. cbn [mbind result_bind]. clear Est.
    replace (Z.to_nat (j + 1)) with (S (Z.to_nat j)) by lia. assert (Ej : Z.of_nat (Z.to_nat j) = j) by lia.
    destruct (sd_rest _ _ _ _ _ _ _ Hs (Z.to_nat j) ltac:(lia)) as [R1 R2].
    pose proof (sy_attribs _ _ Hy) as La. pose proof (sy_data _ _ Hy) as Ld.
    destruct (lookup_lt_is_Some_2 (h_attribs h) (Z.to_nat j)) as [ha Eha]; [lia|]. destruct (lookup_lt_is_Some_2 (h_pointerData h) (Z.to_nat j)) as [b Eb]; [lia|].
    rewrite Eha in R1. rewrite Eb in R2. pose proof (list_insert_id _ _ _ R2) as Ib.
    change (enabled (clean a)) with (enabled a). destruct (Z.eqb_spec (enabled a) 0) as [He|He].
    + destruct (enableDirty a) eqn:Ed; cbn [negb andb].
      * eexists. split; [done|]. split; [done|]. cbn [snd].
        eexists (mkHost (<[Z.to_nat j := mkHostAttrib false (h_size ha) (h_type ha) (h_normalized ha) (h_stride ha) (h_pointer ha)]> (h_attribs hj)) (h_pointerData hj) (h_array hj) (h_element hj) (h_drawings hj)).
        split.
        -- rewrite host_run_app, Eh. cbn [mbind result_bind]. unfold host_run. cbn [foldM host_step].
           pose proof (set_attrib_ok hj (Z.to_nat j) ha (fun a => mkHostAttrib false (h_size a) (h_type a) (h_normalized a) (h_stride a) (h_pointer a)) R1) as E1.
           rewrite Ej in E1. by rewrite E1.
        -- eapply (sending_more _ _ _ _ _ _ hj a _ b); [done|done| |lia|lia|by rewrite Ib]. unfold sent. by rewrite He.
      * eexists. split; [done|]. split; [done|]. exists hj. split; [done|].
        eapply (sending_more _ _ _ _ _ _ hj a ha b); [done|done| |lia|lia|]; [|rewrite Ib, (list_insert_id _ _ _ R1); by destruct hj].
        unfold sent. rewrite He. change (0 =? 0) with true. cbv iota. rewrite (sy_enabled _ _ Hy _ _ _ Ea Eha Ed). by rewrite He.
    + rewrite andb_false_r. cbn [negb]. rewrite Forall_lookup in Hok. specialize (Hok _ _ Ea).
      destruct (send_enabled_ok mem (set_states ((clean <$> take (S (Z.to_nat j)) (m_states s)) ++ drop (S (Z.to_nat j)) (m_states s)) s) hj (Z.to_nat j) first count (clean a) ha b)
        as (calls & ha' & b' & E1 & E2 & E3); [done|done|done|done|by rewrite (sd_array _ _ _ _ _ _ _ Hs), (sy_array _ _ Hy)|done|done|].
      rewrite Ej in E1. rewrite E1. cbn [mbind result_bind]. eexists. split; [done|]. split; [done|]. cbn [snd].
      eexists. split; [rewrite host_run_app, Eh; cbn [mbind result_bind]; exact E2|].
      eapply (sending_more _ _ _ _ _ _ hj a ha' b'); [done|done|exact E3|lia|lia|done].
  - cbn [fst snd] in *. rewrite Z.add_0_l in *. assert (En : Z.to_nat (m_nLocations s) = length (m_states s)) by lia. rewrite En in *.
    rewrite E. exists log, h'. split; [|done]. subst s'. rewrite firstn_all, drop_all, app_nil_r. done.
Qed.

(** ** Vertices *)

Lemma each_ext {A B C} (f : A -> result C) (g : B -> result C) l k :
  length l = length k -> (forall i a b, l !! i = Some a -> k !! i = Some b -> f a = g b) -> each f l = each g k.
Proof.
  revert k. induction l as [|a l IH]; intros [|b k] Hl H; try done. cbn [each]. rewrite (H 0%nat a b eq_refl eq_refl). destruct (g b); [|done].
  cbn [mbind result_bind]. rewrite (IH k); [done|by injection Hl|]. intros i x y Hx Hy. by apply (H (S i)).
Qed.

Lemma each_total {A B} (f : A -> result B) l : (forall a, a ∈ l -> exists b, f a = Ok b) -> exists bs, each f l = Ok bs.
Proof.
  induction l as [|a l IH]; intros H; [by exists []|]. destruct (H a ltac:(by left)) as [b Eb]. destruct IH as [bs Ebs]; [intros x Hx; apply H; by right|].
  exists (b :: bs). cbn [each]. rewrite Eb. cbn [mbind result_bind]. by rewrite Ebs.
Qed.

Lemma each_values {A B} (f : A -> result B) (g : A -> B) l : (forall a, a ∈ l -> f a = Ok (g a)) -> each f l = Ok (map g l).
Proof.
  induction l as [|a l IH]; intros H; [done|]. cbn [each map]. rewrite (H a ltac:(by left)). cbn [mbind result_bind].
  rewrite IH; [done|]. intros x Hx. apply H. by right.
Qed.

Lemma element_at mem vsize stride : forall n src xs k x, read_elements mem src vsize stride n = Ok xs -> xs !! k = Some x ->
  read_mem mem (src + stride * Z.of_nat k) vsize = Ok x.
Proof.
  induction n as [|n IH]; intros src xs k x E Hk.
  - pose proof (read_elements_length _ _ _ _ _ _ E). by destruct xs.
  - apply read_elements_cons in E as (y & xs' & -> & Ey & E). destruct k as [|k]; [injection Hk as <-; by rewrite Z.mul_0_r, Z.add_0_r|].
    rewrite <-(IH _ _ _ _ E Hk). f_equal. lia.
Qed.

Lemma element_lengths mem vsize stride n src xs : read_elements mem src vsize stride n = Ok xs -> Forall (fun x => length x = Z.to_nat vsize) xs.
Proof. intros E. apply Forall_lookup. intros k x Hk. by eapply read_mem_length, element_at. Qed.

(** The block of an element among others of its length. *)
Lemma block_of {A} (xs : list (list A)) n k x (junk : list (option A)) : Forall (fun x => length x = n) xs -> xs !! k = Some x ->
  read_block ((Some <$> concat xs) ++ junk) (Z.of_nat n * Z.of_nat k) (Z.of_nat n) = Ok (Some <$> x).
Proof.
  intros Hl Hk. rewrite <-(take_drop_middle _ _ _ Hk), concat_app. cbn [concat]. rewrite !fmap_app, <-!app_assoc.
  pose proof Hk as Hx. rewrite Forall_lookup in Hl. apply Hl in Hx.
  assert (Hc : length (concat (take k xs)) = (n * k)%nat).
  { apply lookup_lt_Some in Hk. assert (Hf : Forall (fun x => length x = n) (take k xs)) by (apply Forall_take; by apply Forall_lookup).
    assert (Ht : length (take k xs) = k) by (rewrite length_take; lia). rewrite <-Ht at 2. clear -Hf.
    induction Hf as [|y l Hy Hf IH]; [simpl; lia|]. cbn [concat length]. rewrite length_app, IH. lia. }
  eapply (block_in _ (Some <$> concat (take k xs)) (Some <$> x)); [done|rewrite length_fmap; lia|rewrite length_fmap; lia].
Qed.

Lemma host_vertex_ok mem s first count a ha b h' (i : nat) k :
  attrib_ok mem (m_currentArrayVbo s) first count a -> sent mem first count (Z.of_nat i) a ha b -> h_pointerData h' !! i = Some b -> 0 <= k < count ->
  host_vertex h' ha k = guest_vertex mem (first + k) a /\ exists v, guest_vertex mem (first + k) a = Ok v.
Proof.
  intros Ha Hs Eb Hk. unfold sent in Hs. unfold host_vertex, guest_vertex. destruct (Z.eqb_spec (enabled a) 0) as [He|He].
  - rewrite Hs. split; [done|]. by eexists.
  - destruct (Ha He) as (Hsz & _ & _ & _ & _ & _). destruct (bufferObject a =? 0).
    + destruct Hs as (-> & xs & junk & Ex & ->). cbn [h_enabled negb h_pointer]. unfold get. rewrite Nat2Z.id, Eb. cbn [from_option_or mbind result_bind].
      assert (Hl : length xs = Z.to_nat count) by (by apply read_elements_length in Ex).
      destruct (lookup_lt_is_Some_2 xs (Z.to_nat k)) as [x Hx]; [lia|].
      pose proof (block_of xs (Z.to_nat (guest_size a)) (Z.to_nat k) x junk (element_lengths _ _ _ _ _ _ Ex) Hx) as Hb.
      rewrite !Z2Nat.id in Hb by lia. unfold attrib_stride, attrib_size. cbn [h_stride h_size h_type]. fold (guest_size a). change (0 =? 0) with true. cbv iota.
      rewrite Hb. cbn [mbind result_bind]. pose proof (element_at _ _ _ _ _ _ _ _ Ex Hx) as Er. rewrite Z2Nat.id in Er by lia.
      replace (data a + guest_stride a * (first + k)) with (data a + guest_stride a * first + guest_stride a * k) by lia. rewrite Er. cbn [mbind result_bind].
      split; [done|]. by eexists.
    + subst ha. cbn [h_enabled negb h_pointer]. unfold attrib_stride, attrib_size. cbn [h_stride h_size h_type]. fold (guest_size a). fold (guest_stride a).
      split; [|by eexists]. do 4 f_equal. lia.
Qed.

(** The host draws the vertices that were sent, and keeps what it has. *)
Lemma draw_ok mem s h h' first count mode indices : Sync s h -> Sending mem first count (m_states s) h (length (m_states s)) h' ->
  Forall (attrib_ok mem (m_currentArrayVbo s) first count) (m_states s) -> Forall (fun k => 0 <= k < count) indices ->
  exists d, guest_drawing mem s mode (map (fun k => first + k) indices) = Ok d /\
    draw h' mode indices = Ok (mkHost (h_attribs h') (h_pointerData h') (h_array h') (h_element h') (h_drawings h ++ [d])).
Proof.
  intros Hy Hs Hok Hi. rewrite Forall_lookup in Hok. rewrite Forall_lookup in Hi.
  assert (Hv : forall k, k ∈ indices -> each (fun a => host_vertex h' a k) (h_attribs h') = each (guest_vertex mem (first + k)) (m_states s) /\
      exists v, each (guest_vertex mem (first + k)) (m_states s) = Ok v).
  { intros k Hk. apply list_elem_of_lookup in Hk as [j Hj]. specialize (Hi j k Hj). split.
    - apply each_ext; [rewrite (sd_attribs _ _ _ _ _ _ _ Hs); apply (sy_attribs _ _ Hy)|]. intros i ha a Eha Ea.
      destruct (sd_sent _ _ _ _ _ _ _ Hs i a ltac:(by apply lookup_lt_Some in Ea) Ea) as (ha' & b & E1 & E2 & E3). assert (ha' = ha) as -> by congruence.
      by apply (host_vertex_ok mem s first count a ha b h' i k (Hok i a Ea) E3 E2 Hi).
    - apply each_total. intros a Ha. apply list_elem_of_lookup in Ha as [i Ea].
      destruct (sd_sent _ _ _ _ _ _ _ Hs i a ltac:(by apply lookup_lt_Some in Ea) Ea) as (ha & b & E1 & E2 & E3).
      by apply (host_vertex_ok mem s first count a ha b h' i k (Hok i a Ea) E3 E2 Hi). }
  destruct (each_total (fun k => each (guest_vertex mem (first + k)) (m_states s)) indices) as [vs Evs]; [intros k Hk; by apply Hv|].
  exists (Drawn mode vs). unfold guest_drawing, draw.
  assert (Eg : each (fun k => each (guest_vertex mem k) (m_states s)) (map (fun k => first + k) indices) = Ok vs).
  { rewrite <-Evs. apply each_ext; [by rewrite length_map|]. intros i k j Hk Hj. rewrite list_lookup_fmap, Hj in Hk. by injection Hk as <-. }
  rewrite Eg. split; [done|]. assert (Eh : each (fun k => each (fun a => host_vertex h' a k) (h_attribs h')) indices = Ok vs).
  { rewrite <-Evs. apply each_ext; [done|]. intros i k j Hk Hj. assert (k = j) as -> by congruence. apply Hv. by apply list_elem_of_lookup_2 in Hj. }
  rewrite Eh. cbn [mbind result_bind]. by rewrite (sd_drawings _ _ _ _ _ _ _ Hs).
Qed.

(** After a draw the host still has what the guest knows. *)
Lemma sync_sent mem s h h' first count : Sync s h -> Sending mem first count (m_states s) h (length (m_states s)) h' ->
  forall e ds, Sync (set_states (clean <$> m_states s) s) (mkHost (h_attribs h') (h_pointerData h') (h_array h') e ds).
Proof.
  intros Hy Hs e ds. split; cbn [m_states set_states m_nLocations m_currentArrayVbo h_attribs h_pointerData h_array]; rewrite ?length_fmap.
  - apply Hy.
  - rewrite (sd_attribs _ _ _ _ _ _ _ Hs). apply Hy.
  - rewrite (sd_data _ _ _ _ _ _ _ Hs). apply Hy.
  - rewrite (sd_array _ _ _ _ _ _ _ Hs). apply Hy.
  - intros i a ha Ea Eha _. rewrite list_lookup_fmap in Ea. destruct (m_states s !! i) as [x|] eqn:Ex; [|done]. injection Ea as <-.
    destruct (sd_sent _ _ _ _ _ _ _ Hs i x ltac:(by apply lookup_lt_Some in Ex) Ex) as (ha' & b & E1 & E2 & E3). assert (ha' = ha) as -> by congruence.
    cbn [clean enabled]. unfold sent in E3. destruct (Z.eqb_spec (enabled x) 0); [done|]. destruct (bufferObject x =? 0); [by destruct E3 as [-> _]|by subst ha].
Qed.

(** ** Indices *)

Definition bytes_only (mem : Memory) : Prop := forall p x, mem p = Some x -> 0 <= x < 256.

Lemma read_mem_bytes mem p n x : bytes_only mem -> read_mem mem p n = Ok x -> Forall (fun b => 0 <= b < 256) x.
Proof.
  intros Hm. unfold read_mem. destruct (mapM mem (seqZ p n)) as [l|] eqn:E; [|done]. intros [= <-]. apply mapM_Some in E.
  apply Forall_lookup. intros i b Hb. destruct (Forall2_lookup_r _ _ _ _ _ E Hb) as (q & _ & Hq). by apply Hm in Hq.
Qed.

Lemma le_value_range l : Forall (fun b => 0 <= b < 256) l -> 0 <= le_value l < 256 ^ Z.of_nat (length l).
Proof.
  induction 1 as [|b l Hb Hl IH]; [simpl; lia|]. cbn [le_value length]. replace (Z.of_nat (S (length l))) with (Z.succ (Z.of_nat (length l))) by lia.
  rewrite Z.pow_succ_r by lia. lia.
Qed.

Lemma mapM_ok {A} (l : list A) : mapM (fun x => id (Some x)) l = Some l.
Proof. apply mapM_Some. by induction l; constructor. Qed.

Lemma host_indices_ok w (ys : list (list Z)) : 0 < w -> Forall (fun x => length x = Z.to_nat w) ys ->
  host_indices w (length ys) (map Some (concat ys)) = Ok (map le_value ys).
Proof.
  intros Hw Hl. unfold host_indices.
  rewrite (each_values _ (fun k => le_value (default [] (ys !! Z.to_nat k)))).
  - f_equal. apply list_eq. intros i. rewrite !list_lookup_fmap. destruct (decide (i < length ys)%nat) as [Hi|Hi].
    + rewrite lookup_seqZ_lt by lia. destruct (lookup_lt_is_Some_2 ys i Hi) as [y Ey]. cbn. by rewrite Z.add_0_l, Nat2Z.id, Ey.
    + rewrite lookup_seqZ_ge by lia. by rewrite (proj2 (lookup_ge_None ys i)) by lia.
  - intros k Hk. apply elem_of_seqZ in Hk. destruct (lookup_lt_is_Some_2 ys (Z.to_nat k)) as [y Ey]; [lia|].
    pose proof (block_of ys (Z.to_nat w) (Z.to_nat k) y [] Hl Ey) as Hb. rewrite app_nil_r, !Z2Nat.id in Hb by lia.
    change (map Some (concat ys)) with (Some <$> concat ys). rewrite Hb, Ey. cbn [mbind result_bind default].
    rewrite mapM_of_map. by rewrite mapM_ok.
Qed.

Lemma index_widths type w : index_width type = Some w -> w = 1 \/ w = 2.
Proof.
  unfold index_width. intros H.
  assert (E : type = 0x1400 \/ type = 0x1401 \/ type = 0x1402 \/ type = 0x1403 \/ index_width type = None).
  { unfold index_width. destruct (decide (type = 0x1400)), (decide (type = 0x1401)), (decide (type = 0x1402)), (decide (type = 0x1403)); try tauto.
    right. right. right. right. repeat (match goal with |- context [match ?x with _ => _ end] => destruct x; try done end). }
  destruct E as [->|[->|[->|[->|E]]]]; try (injection H as <-; auto). unfold index_width in E. congruence.
Qed.

(** The indices that are sent are those of the guest less the least, which with the
    greatest is the range of the vertices. *)
Lemma adjusted_ok mem type w indices count l : bytes_only mem -> index_width type = Some w -> 0 < count -> read_indices mem indices w count = Ok l ->
  exists data mn mx, adjusted_indices mem type indices count = Ok (data, mn, mx) /\ minmax l = (mn, mx) /\
    0 <= mn /\ mx < 65536 /\ Forall (fun x => mn <= x <= mx) l /\ mn <= mx /\ host_indices w (Z.to_nat count) data = Ok (map (fun x => x - mn) l).
Proof.
  intros Hm Hw Hc Hl. assert (Hw2 : 0 < w /\ 256 ^ w <= 65536) by (destruct (index_widths _ _ Hw) as [->| ->]; lia).
  unfold adjusted_indices. rewrite Hw, Hl. cbn [mbind result_bind]. unfold read_indices in Hl.
  destruct (read_elements mem indices w w (Z.to_nat count)) as [xs|] eqn:Ex; [|done]. injection Hl as <-.
  pose proof (read_elements_length _ _ _ _ _ _ Ex) as Hlen. pose proof (element_lengths _ _ _ _ _ _ Ex) as Hls.
  assert (Hr : Forall (fun x => 0 <= x < 256 ^ w) (map le_value xs)).
  { apply Forall_fmap, Forall_lookup. intros k x Hx. rewrite Forall_lookup in Hls. specialize (Hls k x Hx).
    pose proof (le_value_range x (read_mem_bytes _ _ _ _ Hm (element_at _ _ _ _ _ _ _ _ Ex Hx))) as Hv. rewrite Hls, Z2Nat.id in Hv by lia. done. }
  assert (Hne : map le_value xs <> []) by (destruct xs; [simpl in Hlen; lia|done]).
  destruct (minmax_ok _ Hne (Forall_impl _ _ _ Hr (fun x Hx => proj1 Hx))) as (mn & mx & Em & Hmn & Hall & Hin1 & Hin2). rewrite Em.
  rewrite Forall_forall in Hr. pose proof (Hr mx Hin2) as Hmx. rewrite Forall_forall in Hall. pose proof (Hall mn Hin1) as Hle.
  destruct (Z.eqb_spec mn 0) as [->|Hmn0]; cbn [negb].
  - replace (w * count) with (w * Z.of_nat (Z.to_nat count)) by lia. rewrite (read_contiguous mem w ltac:(lia) _ _ _ Ex). cbn [mbind result_bind].
    eexists _, 0, mx. split; [done|]. split; [done|]. split_and!; [lia|lia|by apply Forall_forall|lia|].
    rewrite <-Hlen, (host_indices_ok w xs) by (lia || done). f_equal. rewrite <-(map_id (map le_value xs)) at 1. apply map_ext. intros x. lia.
  - eexists _, mn, mx. split; [done|]. split; [done|]. split_and!; [lia|lia|by apply Forall_forall|lia|].
    rewrite (shift_indices_ok w _ mn Hmn); [|apply Forall_forall; intros x Hx; specialize (Hall x Hx); specialize (Hr x Hx); lia].
    set (ys := map (le_bytes (Z.to_nat w)) ((fun x => x - mn) <$> map le_value xs)).
    assert (Hly : length ys = Z.to_nat count) by (unfold ys; by rewrite length_map, length_fmap, length_map).
    rewrite <-Hly, (host_indices_ok w ys); [|lia|].
    + f_equal. unfold ys. rewrite map_map. change ((fun x => x - mn) <$> map le_value xs) with (map (fun x => x - mn) (map le_value xs)).
      rewrite map_map. apply map_ext_in. intros x Hx. rewrite le_value_bytes; [done|]. rewrite Z2Nat.id by lia.
      apply list_elem_of_In in Hx. specialize (Hall x Hx). specialize (Hr x Hx). lia.
    + unfold ys. apply Forall_fmap, Forall_forall. intros x _. cbn. apply le_bytes_length.
Qed.

(** ** Programs of the guest *)

Inductive guest_op :=
  | GEnable (index : Z)
  | GDisable (index : Z)
  | GPointer (index size type normalized stride data : Z)
  | GBindBuffer (target id : Z)
  | GDrawArrays (mode first count : Z)
  | GDrawElements (mode count type indices : Z).

Section Programs.
(** The caller's memory and the copies of buffers in the shared group. *)
Context (mem : Memory) (shared_buffer : Z -> option Z).

Definition run_guest_op (s : GLClientState) (o : guest_op) : result (GLClientState * list call) :=
  match o with
  | GEnable i => s ← enable s (s32 i) 1; Ok (s, [])
  | GDisable i => s ← enable s (s32 i) 0; Ok (s, [])
  | GPointer i size type normalized stride data => s ← setState s (s32 i) size type normalized stride data; Ok (s, [])
  | GBindBuffer target id => Ok (s_glBindBuffer s target id)
  | GDrawArrays mode first count => s_glDrawArrays mem s mode first count
  | GDrawElements mode count type indices => '(_, s, log) ← s_glDrawElements mem shared_buffer s mode count type indices; Ok (s, log)
  end.

Fixpoint run_guest (s : GLClientState) (os : list guest_op) : result (GLClientState * list call) :=
  match os with
  | [] => Ok (s, [])
  | o :: os => '(s, l) ← run_guest_op s o; '(s, l') ← run_guest s os; Ok (s, l ++ l')
  end.

(** Some attribute in the caller's memory is used; some attribute is. *)
Definition uses_memory (s : GLClientState) : bool := existsb (fun a => negb (enabled a =? 0) && (bufferObject a =? 0)) (m_states s).
Definition uses_any (s : GLClientState) : bool := existsb (fun a => negb (enabled a =? 0)) (m_states s).

(** Where the indices of a draw are read. *)
Definition indices_at (s : GLClientState) (indices : Z) : result Z :=
  if m_currentIndexVbo s =? 0 then Ok indices
  else p ← from_option_or NullDeref (shared_buffer (m_currentIndexVbo s)); Ok (p + indices).

(** What a program draws. *)
Definition drawn_by (s : GLClientState) (o : guest_op) : result (list drawing) :=
  match o with
  | GDrawArrays mode first count => d ← guest_drawing mem s mode (seqZ first count); Ok [d]
  | GDrawElements mode count type indices =>
      if negb (uses_any s) then Ok []
      else if negb (m_currentIndexVbo s =? 0) && negb (uses_memory s) then
        Ok [DrawnIndirect mode count type (m_currentIndexVbo s) (u32 indices) (map guest_source (m_states s))]
      else
        w ← from_option_or OutOfBounds (index_width type);
        p ← indices_at s indices;
        l ← read_indices mem p w count;
        d ← guest_drawing mem s mode l;
        Ok [d]
  | _ => Ok []
  end.

Fixpoint drawn (s : GLClientState) (os : list guest_op) : result (list drawing) :=
  match os with
  | [] => Ok []
  | o :: os => ds ← drawn_by s o; '(s, _) ← run_guest_op s o; ds' ← drawn s os; Ok (ds ++ ds')
  end.

(** What draws need: attributes that are right for the vertices; at least one index, of
    one or two bytes. *)
Definition proper_guest_op (s : GLClientState) (o : guest_op) : Prop :=
  match o with
  | GDrawArrays _ first count => 0 <= first /\ 0 <= count /\ Forall (attrib_ok mem (m_currentArrayVbo s) first count) (m_states s)
  | GDrawElements _ count type indices =>
      0 < count /\
      (if negb (m_currentIndexVbo s =? 0) && negb (uses_memory s) then Forall (attrib_ok mem (m_currentArrayVbo s) 0 count) (m_states s)
       else exists w p l, index_width type = Some w /\ indices_at s indices = Ok p /\ read_indices mem p w count = Ok l /\
         Forall (attrib_ok mem (m_currentArrayVbo s) (fst (minmax l)) (snd (minmax l) - fst (minmax l) + 1)) (m_states s))
  | _ => True
  end.

Fixpoint proper_guest (s : GLClientState) (os : list guest_op) : Prop :=
  match os with
  | [] => True
  | o :: os => proper_guest_op s o /\ match run_guest_op s o with Ok (s, _) => proper_guest s os | Err _ => True end
  end.

(** ** What is drawn arrives *)

Lemma arrays_used_ok s : Z.of_nat (length (m_states s)) = m_nLocations s ->
  arrays_used s = Ok (uses_memory s, existsb (fun a => negb (enabled a =? 0) && negb (bufferObject a =? 0)) (m_states s)).
Proof.
  intros Hn. unfold arrays_used, uses_memory.
  set (f := fun a => negb (enabled a =? 0) && (bufferObject a =? 0)). set (g := fun a => negb (enabled a =? 0) && negb (bufferObject a =? 0)).
  match goal with |- foldM ?step _ _ = _ => destruct (foldM_seqZ step
    (fun j st => st = (existsb f (take (Z.to_nat j) (m_states s)), existsb g (take (Z.to_nat j) (m_states s)))) 0 (m_nLocations s) (false, false)) as (st & E & Es) end.
  - lia.
  - done.
  - intros j st Hj ->. destruct (lookup_lt_is_Some_2 (m_states s) (Z.to_nat j)) as [a Ea]; [lia|]. unfold getState, validLocation, get.
    rewrite (proj2 (Z.leb_le _ _)), (proj2 (Z.ltb_lt _ _)), Ea by lia. cbn [andb negb from_option_or mbind result_bind].
    replace (Z.to_nat (j + 1)) with (S (Z.to_nat j)) by lia. rewrite (take_S_r _ _ _ Ea), !existsb_app. cbn [existsb]. rewrite !orb_false_r.
    change (f a) with (negb (enabled a =? 0) && (bufferObject a =? 0)). change (g a) with (negb (enabled a =? 0) && negb (bufferObject a =? 0)).
    destruct (enabled a =? 0), (bufferObject a =? 0); cbn [negb andb]; rewrite ?orb_false_r, ?orb_true_r; by eexists.
  - rewrite E. subst st. rewrite Z.add_0_l. replace (Z.to_nat (m_nLocations s)) with (length (m_states s)) by lia. by rewrite firstn_all.
Qed.

Lemma uses_any_split s :
  uses_any s = uses_memory s || existsb (fun a => negb (enabled a =? 0) && negb (bufferObject a =? 0)) (m_states s).
Proof.
  unfold uses_any, uses_memory. induction (m_states s) as [|a l IH]; [done|]. cbn [existsb]. rewrite IH.
  destruct (enabled a =? 0), (bufferObject a =? 0); cbn [negb andb orb]; try done. by rewrite orb_true_r.
Qed.

(** Setting an attribute keeps what the host has in step, when a change of what is
    enabled is noted. *)
Lemma sync_edit s h i f : Sync s h ->
  (forall a, enableDirty (f a) = false -> enableDirty a = false /\ (enabled (f a) =? 0) = (enabled a =? 0)) ->
  exists s', edit_state s i f = Ok s' /\ Sync s' h.
Proof.
  intros Hy Hf. unfold edit_state. destruct (validLocation s i) eqn:Ev; [|by exists s]. cbn [negb]. unfold validLocation in Ev.
  apply andb_true_iff in Ev as [H1 H2]. pose proof (sy_states _ _ Hy) as Hn. destruct (lookup_lt_is_Some_2 (m_states s) (Z.to_nat i)) as [a Ea]; [lia|].
  unfold get, put. rewrite Ea. cbn [from_option_or mbind result_bind]. rewrite decide_True by lia. cbn [mbind result_bind]. eexists. split; [done|].
  split; cbn [m_states set_states m_nLocations m_currentArrayVbo]; rewrite ?length_insert; try apply Hy.
  intros k x ha Ex Eha Hd. destruct (decide (k = Z.to_nat i)) as [->|Hne].
  - rewrite list_lookup_insert_eq in Ex by lia. injection Ex as <-. destruct (Hf a Hd) as [Hd' ->]. by apply (sy_enabled _ _ Hy _ _ _ Ea Eha).
  - rewrite list_lookup_insert_ne in Ex by done. by apply (sy_enabled _ _ Hy _ _ _ Ex Eha).
Qed.

Lemma sync_enable s h i st : Sync s h -> exists s', enable s i st = Ok s' /\ Sync s' h.
Proof.
  intros Hy. apply sync_edit; [done|]. intros a. cbn [enableDirty enabled]. intros [Hd He]%orb_false_iff. split; [done|].
  apply negb_false_iff, Z.eqb_eq in He. by subst st.
Qed.

Lemma sync_setState s h i sz ty no st d : Sync s h -> exists s', setState s i sz ty no st d = Ok s' /\ Sync s' h.
Proof. intros Hy. by apply sync_edit. Qed.

Lemma sync_element s h e : Sync s h -> Sync s (mkHost (h_attribs h) (h_pointerData h) (h_array h) e (h_drawings h)).
Proof. intros []. by split. Qed.

Lemma sources_ok s h h' count : Sync s h -> Sending mem 0 count (m_states s) h (length (m_states s)) h' -> uses_memory s = false ->
  each host_source (h_attribs h') = Ok (map guest_source (m_states s)).
Proof.
  intros Hy Hs Hu. rewrite <-(each_values (fun a => Ok (guest_source a))) by done.
  apply each_ext; [rewrite (sd_attribs _ _ _ _ _ _ _ Hs); apply (sy_attribs _ _ Hy)|]. intros i ha a Eha Ea.
  destruct (sd_sent _ _ _ _ _ _ _ Hs i a ltac:(by apply lookup_lt_Some in Ea) Ea) as (ha' & b & E1 & _ & E3). assert (ha' = ha) as -> by congruence.
  unfold sent in E3. unfold host_source, guest_source.
  assert (Hm : negb (enabled a =? 0) && (bufferObject a =? 0) = false).
  { destruct (negb (enabled a =? 0) && (bufferObject a =? 0)) eqn:Eu; [|done]. exfalso. apply not_true_iff_false in Hu. apply Hu. unfold uses_memory.
    apply existsb_exists. exists a. split; [apply list_elem_of_In; by apply list_elem_of_lookup_2 in Ea|done]. }
  destruct (enabled a =? 0); [by rewrite E3|]. cbn [negb andb] in Hm. rewrite Hm in E3. subst ha. cbn [h_enabled negb h_pointer h_size h_type h_normalized].
  unfold attrib_stride, attrib_size. cbn [h_stride h_size h_type]. fold (guest_size a). fold (guest_stride a). by rewrite Z.mul_0_r, Z.add_0_r.
Qed.

Lemma draw_arrays_ok s h mode first count : Sync s h -> proper_guest_op s (GDrawArrays mode first count) ->
  exists s' l ds h', run_guest_op s (GDrawArrays mode first count) = Ok (s', l) /\ drawn_by s (GDrawArrays mode first count) = Ok ds /\
    host_run h l = Ok h' /\ Sync s' h' /\ h_drawings h' = h_drawings h ++ ds.
Proof.
  intros Hy (Hf & Hc & Hok). cbn [run_guest_op drawn_by]. unfold s_glDrawArrays.
  destruct (send_ok mem s h first count Hy Hf Hc Hok) as (log & h' & E & Eh & Hs). rewrite E. cbn [mbind result_bind].
  destruct (draw_ok mem s h h' first count mode (seqZ 0 count) Hy Hs Hok) as (d & Ed & Edr).
  { apply Forall_forall. intros k Hk%elem_of_seqZ. lia. }
  assert (Em : map (fun k => first + k) (seqZ 0 count) = seqZ first count) by (change (Z.add first <$> seqZ 0 count = seqZ first count); by rewrite fmap_add_seqZ, Z.add_0_r).
  rewrite Em in Ed. rewrite Ed. eexists _, _, _, _. split; [done|]. split; [done|]. split.
  { rewrite host_run_app, Eh. cbn [mbind result_bind]. unfold host_run. cbn [foldM host_step]. rewrite Edr. done. }
  split; [by apply (sync_sent mem s h h' first count)|done].
Qed.

Lemma draw_elements_ok s h mode count type indices : bytes_only mem -> Sync s h -> proper_guest_op s (GDrawElements mode count type indices) ->
  exists s' l ds h', run_guest_op s (GDrawElements mode count type indices) = Ok (s', l) /\ drawn_by s (GDrawElements mode count type indices) = Ok ds /\
    host_run h l = Ok h' /\ Sync s' h' /\ h_drawings h' = h_drawings h ++ ds.
Proof.
  intros Hm Hy (Hc & Hp). cbn [run_guest_op drawn_by]. unfold s_glDrawElements. rewrite (proj2 (Z.ltb_ge count 0)) by lia.
  rewrite (arrays_used_ok s (sy_states _ _ Hy)). cbn [mbind result_bind]. rewrite <-negb_orb, <-uses_any_split.
  destruct (negb (uses_any s)); [eexists _, _, _, _; split; [done|]; split; [done|]; split; [done|]; split; [done|]; by rewrite app_nil_r|].
  destruct (negb (m_currentIndexVbo s =? 0) && negb (uses_memory s)) eqn:Ei.
  - apply andb_true_iff in Ei as [Ei Eu]. apply negb_true_iff in Ei, Eu.
    destruct (send_ok mem s h 0 count Hy ltac:(lia) ltac:(lia) Hp) as (log & h' & E & Eh & Hs). rewrite E. cbn [mbind result_bind].
    eexists _, _, _, _. split; [done|]. split; [done|]. split.
    { rewrite host_run_app, Eh. cbn [mbind result_bind]. unfold host_run. cbn [foldM host_step]. cbn [mbind result_bind].
      change (GL_ELEMENT_ARRAY_BUFFER =? GL_ARRAY_BUFFER) with false. cbv iota. rewrite Z.eqb_refl. cbn [h_element h_attribs]. rewrite Ei.
      rewrite (sources_ok s h h' count Hy Hs Eu). reflexivity. }
    cbn [h_pointerData h_array h_drawings]. split; [by apply (sync_sent mem s h h' 0 count)|]. by rewrite (sd_drawings _ _ _ _ _ _ _ Hs).
  - destruct Hp as (w & p & l & Hw & Ep & El & Hok). rewrite Hw. cbn [from_option_or mbind result_bind]. rewrite Ep. cbn [mbind result_bind]. rewrite El. cbn [mbind result_bind].
    destruct (adjusted_ok mem type w p count l Hm Hw Hc El) as (data & mn & mx & Ea & Emm & Hmn & Hmx & Hall & Hle & Ehi). rewrite Emm in Hok. cbn [fst snd] in Hok.
    unfold indices_at in Ep.
    assert (Hbind : exists bind h1, (if negb (m_currentIndexVbo s =? 0) then
         p ← from_option_or NullDeref (shared_buffer (m_currentIndexVbo s)); Ok (p + indices, [BindBuffer GL_ELEMENT_ARRAY_BUFFER 0])
       else Ok (indices, [])) = Ok (p, bind) /\ host_run h bind = Ok h1 /\ Sync s h1 /\ h_drawings h1 = h_drawings h).
    { destruct (m_currentIndexVbo s =? 0); cbn [negb].
      - injection Ep as ->. by exists [], h.
      - destruct (from_option_or NullDeref (shared_buffer (m_currentIndexVbo s))) as [q|]; [|done]. injection Ep as <-.
        eexists [BindBuffer GL_ELEMENT_ARRAY_BUFFER 0], _. split; [done|]. split; [reflexivity|]. split; [by apply sync_element|done]. }
    destruct Hbind as (bind & h1 & Eb & Eh1 & Hy1 & Hd1). rewrite Eb. cbn [mbind result_bind]. rewrite Ea. cbn [mbind result_bind]. rewrite s32_small by lia.
    destruct (send_ok mem s h1 mn (mx - mn + 1) Hy1 Hmn ltac:(lia) Hok) as (log & h' & E & Eh & Hs). rewrite E. cbn [mbind result_bind].
    destruct (draw_ok mem s h1 h' mn (mx - mn + 1) mode (map (fun x => x - mn) l) Hy1 Hs Hok) as (d & Ed & Edr).
    { apply Forall_fmap. eapply Forall_impl; [exact Hall|]. intros x Hx. cbn in *. lia. }
    rewrite map_map in Ed. rewrite (map_ext (fun x => mn + (x - mn)) (fun x => x)) in Ed by (intros x; lia). rewrite map_id in Ed. rewrite Ed.
    eexists _, _, _, _. split; [done|]. split; [done|]. split.
    { rewrite !host_run_app, Eh1. cbn [mbind result_bind]. rewrite host_run_app, Eh. cbn [mbind result_bind]. unfold host_run. cbn [foldM host_step]. rewrite Hw.
      cbn [from_option_or mbind result_bind]. rewrite Ehi. cbn [mbind result_bind]. rewrite Edr. done. }
    split; [by apply (sync_sent mem s h1 h' mn (mx - mn + 1))|]. cbn [h_drawings]. by rewrite Hd1.
Qed.

Lemma guest_op_ok s h o : bytes_only mem -> Sync s h -> proper_guest_op s o ->
  exists s' l ds h', run_guest_op s o = Ok (s', l) /\ drawn_by s o = Ok ds /\ host_run h l = Ok h' /\ Sync s' h' /\ h_drawings h' = h_drawings h ++ ds.
Proof.
  intros Hm Hy Hp. assert (Hset : forall r, (exists s', r = Ok s' /\ Sync s' h) ->
    exists s' l ds h', (s' ← r; Ok (s', [])) = Ok (s', l) /\ Ok [] = Ok ds /\ host_run h l = Ok h' /\ Sync s' h' /\ h_drawings h' = h_drawings h ++ ds).
  { intros r (s' & -> & Hs). exists s', [], [], h. by rewrite app_nil_r. }
  destruct o as [i|i|i sz ty no st d|target id|mode first count|mode count type indices].
  - by apply Hset, sync_enable.
  - by apply Hset, sync_enable.
  - by apply Hset, sync_setState.
  - cbn [run_guest_op drawn_by]. unfold s_glBindBuffer, bindBuffer. eexists _, _, [], _. split; [done|]. split; [done|]. split; [reflexivity|].
    rewrite app_nil_r. destruct Hy as [H1 H2 H3 H4 H5].
    destruct (target =? GL_ARRAY_BUFFER); [|destruct (target =? GL_ELEMENT_ARRAY_BUFFER)]; (split; [split; cbn; try done|done]).
  - by apply draw_arrays_ok.
  - by apply draw_elements_ok.
Qed.

Lemma guest_run_ok os : bytes_only mem -> forall s h, Sync s h -> proper_guest s os ->
  exists s' l ds h', run_guest s os = Ok (s', l) /\ drawn s os = Ok ds /\ host_run h l = Ok h' /\ h_drawings h' = h_drawings h ++ ds.
Proof.
  intros Hm. induction os as [|o os IH]; intros s h Hy Hp; [exists s, [], [], h; by rewrite app_nil_r|]. destruct Hp as [Hp Hps].
  destruct (guest_op_ok s h o Hm Hy Hp) as (s1 & l1 & d1 & h1 & E1 & D1 & R1 & Y1 & W1). rewrite E1 in Hps. cbn [run_guest drawn]. rewrite E1, D1. cbn [mbind result_bind].
  destruct (IH s1 h1 Y1 Hps) as (s2 & l2 & d2 & h2 & E2 & D2 & R2 & W2). rewrite E2, D2. cbn [mbind result_bind]. eexists _, _, _, _.
  split; [done|]. split; [done|]. split; [by rewrite host_run_app, R1|]. by rewrite W2, W1, app_assoc.
Qed.

(** The host before the guest did anything: [n] attributes. *)
Definition new_host (n : nat) : Host := mkHost (replicate n (mkHostAttrib false 4 0x1406 0 0 (Address 0))) (replicate n new_FixedBuffer) 0 0 [].

Lemma sync_new fresh : Sync (new_GLClientState 64 fresh) (new_host 64).
Proof.
  split; try done. intros i a ha Ea Eha _. assert (h_enabled ha = false) as -> by (by apply lookup_replicate in Eha as [-> _]).
  cut (enabled a = 0); [by intros ->|]. unfold new_GLClientState in Ea. cbn [m_states] in Ea. change (64 <? LAST_LOCATION) with false in Ea. cbv iota in Ea.
  set (l := (fun i => init_attrib (fresh i)) <$> seq 0 (Z.to_nat 64)) in Ea.
  assert (Hl : forall a, a ∈ l -> enabled a = 0) by (intros x (k & -> & _)%list_elem_of_fmap; done).
  apply list_elem_of_lookup_2 in Ea. apply elem_of_app in Ea as [Ea|Ea].
  - apply elem_of_lookup_zip_with in Ea as (k & x & c & -> & Hx & _). apply list_elem_of_lookup_2 in Hx. apply elem_of_take in Hx as (j & Hx & _).
    change (enabled x = 0). apply Hl. by apply list_elem_of_lookup_2 in Hx.
  - apply Hl. apply list_elem_of_lookup in Ea as [k Hk]. rewrite lookup_drop in Hk. by apply list_elem_of_lookup_2 in Hk.
Qed.


(** The same conditions, decided. *)
Definition attrib_ok_b (vbo first count : Z) (a : VertexAttribState) : bool :=
  (enabled a =? 0) ||
  ((0 <? guest_size a) && (guest_size a <? 2 ^ 31) && (elementSize a =? guest_size a) && (0 <=? stride a) && (guest_size a * count <? 2 ^ 31) &&
   (guest_stride a * first <? 2 ^ 31) &&
   (if bufferObject a =? 0 then (vbo =? 0) && is_ok (read_elements mem (data a + guest_stride a * first) (guest_size a) (guest_stride a) (Z.to_nat count))
    else (0 <=? data a) && (data a + guest_stride a * first <? 2 ^ 32))).

Definition proper_guest_op_b (s : GLClientState) (o : guest_op) : bool :=
  match o with
  | GDrawArrays _ first count => (0 <=? first) && (0 <=? count) && forallb (attrib_ok_b (m_currentArrayVbo s) first count) (m_states s)
  | GDrawElements _ count type indices =>
      (0 <? count) &&
      (if negb (m_currentIndexVbo s =? 0) && negb (uses_memory s) then forallb (attrib_ok_b (m_currentArrayVbo s) 0 count) (m_states s)
       else match index_width type, indices_at s indices with
            | Some w, Ok p =>
                match read_indices mem p w count with
                | Ok l => forallb (attrib_ok_b (m_currentArrayVbo s) (fst (minmax l)) (snd (minmax l) - fst (minmax l) + 1)) (m_states s)
                | Err _ => false
                end
            | _, _ => false
            end)
  | _ => true
  end.

Fixpoint proper_guest_b (s : GLClientState) (os : list guest_op) : bool :=
  match os with
  | [] => true
  | o :: os => proper_guest_op_b s o && match run_guest_op s o with Ok (s, _) => proper_guest_b s os | Err _ => true end
  end.

Lemma attribs_ok_b vbo first count l : forallb (attrib_ok_b vbo first count) l = true -> Forall (attrib_ok mem vbo first count) l.
Proof.
  intros H. apply Forall_forall. intros a Ha. rewrite forallb_forall in H. specialize (H a (proj1 (list_elem_of_In _ _) Ha)). intros He.
  unfold attrib_ok_b in H. rewrite (proj2 (Z.eqb_neq (enabled a) 0)) in H by done. cbn [orb] in H.
  repeat match goal with H : _ && _ = true |- _ => apply andb_true_iff in H as [? ?] end.
  split_and!; try lia. destruct (bufferObject a =? 0).
  all: match goal with H : _ && _ = true |- _ => apply andb_true_iff in H as [? ?] end; split; [lia|first [done|lia]].
Qed.

Lemma proper_guest_b_ok os : forall s, proper_guest_b s os = true -> proper_guest s os.
Proof.
  induction os as [|o os IH]; intros s H; [done|]. cbn [proper_guest_b] in H. apply andb_true_iff in H as [H Hs]. split.
  - destruct o as [i|i|i sz ty no st d|target id|mode first count|mode count type indices]; try done; cbn [proper_guest_op_b proper_guest_op] in *.
    + apply andb_true_iff in H as [H Ha]. split; [lia|]. split; [lia|by apply attribs_ok_b].
    + apply andb_true_iff in H as [H Ha]. split; [lia|]. destruct (negb (m_currentIndexVbo s =? 0) && negb (uses_memory s)); [by apply attribs_ok_b|].
      destruct (index_width type) as [w|]; [|done]. destruct (indices_at s indices) as [p|]; [|done]. destruct (read_indices mem p w count) as [l|] eqn:El; [|done].
      exists w, p, l. split; [done|]. split; [done|]. split; [done|by apply attribs_ok_b].
  - destruct (run_guest_op s o) as [[s' l]|]; [by apply IH|done].
Qed.

End Programs.

(** ** A program, and what goes wrong *)

(** An array at 100, indices at 200, and nothing else. *)
Definition some_memory : Memory := fun p =>
  if (100 <=? p) && (p <? 118) then Some ((p - 100) * 7)
  else if p =? 200 then Some 3 else if p =? 201 then Some 5 else if p =? 202 then Some 4 else None.

Definition fresh_attribs : nat -> VertexAttribState := fun i => mkAttrib 1 2 3 4 5 6 7 8 true 9.

Definition guest_session : list guest_op := [
  GPointer 0 2 0x1401 0 3 100; GEnable 0; GDrawArrays 4 1 3;
  GBindBuffer GL_ARRAY_BUFFER 7; GPointer 1 4 0x1406 1 0 16; GBindBuffer GL_ARRAY_BUFFER 0; GEnable 1; GDrawElements 4 3 0x1401 200;
  GDisable 0; GBindBuffer GL_ELEMENT_ARRAY_BUFFER 9; GDrawElements 1 6 0x1403 2; GDisable 1; GDrawElements 1 6 0x1403 2 ].

Definition run_session (os : list guest_op) : result (list drawing) :=
  '(_, log) ← run_guest some_memory (fun _ => None) (new_GLClientState 64 fresh_attribs) os; h ← host_run (new_host 64) log; Ok (h_drawings h).

(** The attributes that a drawing has, of the first two. *)
Definition shown (d : drawing) : list (list (option vertex)) :=
  match d with Drawn _ vs => map (take 2) vs | DrawnIndirect _ _ _ _ _ _ => [] end.

Example guest_session_drawn :
  match run_session guest_session with Ok ds => map shown ds | Err _ => [] end =
  let v a b := Some (mkVertex 2 0x1401 0 (Bytes [Some a; Some b])) in
  let w o := Some (mkVertex 4 0x1406 1 (Stored 7 o)) in
  [ [[v 21 28; None]; [v 42 49; None]; [v 63 70; None]];
    [[v 63 70; w 64]; [v 105 112; w 96]; [v 84 91; w 80]];
    [] ].
Proof. vm_compute. reflexivity. Qed.


(** An array of the caller is sent while a buffer is bound: the host takes its address
    for an offset into that buffer. *)
Example array_sent_with_buffer_bound :
  run_session [GPointer 0 2 0x1401 0 3 100; GEnable 0; GBindBuffer GL_ARRAY_BUFFER 7; GDrawArrays 4 1 3] = Err OutOfBounds.
Proof. vm_compute. reflexivity. Qed.

(** Drawing no elements at all reads and sends the vertex before the array. *)
Example no_elements_read_before_array :
  run_session [GPointer 0 2 0x1401 0 3 100; GEnable 0; GDrawElements 4 0 0x1401 200] = Err OutOfBounds.
Proof. vm_compute. reflexivity. Qed.

(** Indices of another type are logged as unsupported, and the draw goes on with no
    indices: the host reads behind what it was sent. *)
Example unsupported_indices_sent :
  match run_guest some_memory (fun _ => None) (new_GLClientState 64 fresh_attribs) [GPointer 0 2 0x1401 0 3 100; GEnable 0; GDrawElements 4 3 0x1405 200] with
  | Ok (_, log) => last log
  | Err _ => None
  end = Some (DrawElementsData 4 3 0x1405 []).
Proof. vm_compute. reflexivity. Qed.

(** With an array in memory and the indices in a buffer, the host is left with no buffer
    for indices, while the guest has one: data for it go nowhere. *)
Example index_buffer_lost :
  match run_guest some_memory (fun _ => Some 200) (new_GLClientState 64 fresh_attribs)
    [GPointer 0 2 0x1401 0 3 100; GEnable 0; GBindBuffer GL_ELEMENT_ARRAY_BUFFER 9; GDrawElements 4 3 0x1401 0] with
  | Ok (s, log) =>
      match host_run (new_host 64) log with
      | Ok h => Some (h_element h, m_currentIndexVbo s, s_glBufferData s GL_ELEMENT_ARRAY_BUFFER 10)
      | Err _ => None
      end
  | Err _ => None
  end = Some (0, 9, (None, [BufferData GL_ELEMENT_ARRAY_BUFFER 10])).
Proof. vm_compute. reflexivity. Qed.

(** Indices in a buffer that has no data. *)
Example indices_in_no_buffer :
  run_session [GPointer 0 2 0x1401 0 3 100; GEnable 0; GBindBuffer GL_ELEMENT_ARRAY_BUFFER 9; GDrawElements 4 3 0x1401 0] = Err NullDeref.
Proof. vm_compute. reflexivity. Qed.
