(* ===== verification/SharedGroup.v ===== *)
(** * What the contexts of the guest share

    Models [src/emulator/opengl/shared/OpenglCodecCommon/GLSharedGroup.cpp] and
    [GLSharedGroup.h]: the copies of buffers, the uniforms and shaders of programs and
    the counted data of shaders that the encoders keep, each in a keyed vector of
    pointers.  The lock around each method makes it one step.

    [locations_translated]: where the host's uniforms are too far apart, the locations
    that a program is given lead back to the host's.  [buffer_copies_exact]: the copies
    of buffers have what was written. *)
From S2P Require Import Prelude SortedVector GlUtils ClientState.
Local Open Scope Z_scope.

Definition GL_SAMPLER_2D : Z := 0x8B5E.
Definition INDEX_FLAG_SAMPLER_EXTERNAL : Z := 1.

(** ** Programs *)

Record IndexInfo := mkIndex {
  base : Z; isize : Z; itype : Z; appBase : Z; hostLocsPerElement : Z; flags : Z; samplerValue : Z
}.

(** [m_Indexes]: entries that are not set yet are [None]. *)
Record ProgramData := mkProgram {
  m_numIndexes : Z; m_Indexes : list (option IndexInfo); m_initialized : bool; m_locShiftWAR : bool; p_shaders : list Z
}.

Definition new_ProgramData : ProgramData := mkProgram 0 [] false false [].

Definition initProgramData (p : ProgramData) (numIndexes : Z) : ProgramData :=
  mkProgram numIndexes (replicate (Z.to_nat numIndexes) None) true false (p_shaders p).

Definition isInitialized (p : ProgramData) : bool := m_initialized p.

Definition the_index (p : ProgramData) (i : Z) : result IndexInfo :=
  e ← get (m_Indexes p) (Z.to_nat i); from_option_or Uninitialised e.

Definition put_index (p : ProgramData) (i : Z) (e : IndexInfo) : result ProgramData :=
  l ← put (m_Indexes p) (Z.to_nat i) (Some e);
  Ok (mkProgram (m_numIndexes p) l (m_initialized p) (m_locShiftWAR p) (p_shaders p)).

Definition setIndexInfo (p : ProgramData) (index base_ size_ type_ : Z) : result ProgramData :=
  if m_numIndexes p <=? index then Ok p
  else
    app ← (if 0 <? index then prev ← the_index p (index - 1); Ok (s32 (appBase prev + isize prev)) else Ok 0);
    put_index p index (mkIndex base_ size_ type_ app 1 0 0).

Definition setIndexFlags (p : ProgramData) (index flags_ : Z) : result ProgramData :=
  if m_numIndexes p <=? index then Ok p
  else
    e ← the_index p index;
    put_index p index (mkIndex (base e) (isize e) (itype e) (appBase e) (hostLocsPerElement e) (Z.lor (flags e) flags_) (samplerValue e)).

(** A turn of the loop of [getIndexForLocation]: the index and the least distance. *)
Definition nearest (p : ProgramData) (location : Z) (st : Z * Z) (i : Z) : result (Z * Z) :=
  let '(index, minDist) := st in
  e ← the_index p i;
  let dist := s32 (location - base e) in
  Ok (if (0 <=? dist) && ((minDist <? 0) || (dist <? minDist)) then (i, dist) else (index, minDist)).

Definition getIndexForLocation (p : ProgramData) (location : Z) : result Z :=
  '(index, _) ← foldM (nearest p location) (m_numIndexes p, -1) (seqZ 0 (m_numIndexes p)); Ok index.

Definition getTypeForLocation (p : ProgramData) (location : Z) : result Z :=
  index ← getIndexForLocation p location;
  if index <? m_numIndexes p then e ← the_index p index; Ok (itype e) else Ok 0.

Definition set_war (p : ProgramData) (b : bool) : ProgramData :=
  mkProgram (m_numIndexes p) (m_Indexes p) (m_initialized p) b (p_shaders p).

(** Whether all locations are multiples of 65536. *)
Fixpoint all_shifted (p : ProgramData) (ixs : list Z) : result bool :=
  match ixs with
  | [] => Ok true
  | i :: ixs => e ← the_index p i; if negb (Z.land (base e) 0xffff =? 0) then Ok false else all_shifted p ixs
  end.

Definition setupLocationShiftWAR (p : ProgramData) : result ProgramData :=
  b ← all_shifted p (seqZ 0 (m_numIndexes p)); Ok (set_war p (b && (1 <? m_numIndexes p))).

Definition locationWARHostToApp (p : ProgramData) (hostLoc arrIndex : Z) : result (Z * ProgramData) :=
  if negb (m_locShiftWAR p) then Ok (hostLoc, p)
  else
    index ← getIndexForLocation p hostLoc;
    if index <? m_numIndexes p then
      e ← the_index p index;
      p ← (if 0 <? arrIndex then
             put_index p index (mkIndex (base e) (isize e) (itype e) (appBase e) (Z.quot (hostLoc - base e) arrIndex) (flags e) (samplerValue e))
           else Ok p);
      Ok (s32 (appBase e + arrIndex), p)
    else Ok (-1, p).

(** The uniforms with an element at a location: [f] says what to do with the first
    one that it accepts. *)
Fixpoint find_element {A} (p : ProgramData) (appLoc : Z) (f : Z -> IndexInfo -> Z -> result (option A)) (ixs : list Z) : result (option A) :=
  match ixs with
  | [] => Ok None
  | i :: ixs =>
      e ← the_index p i;
      let elemIndex := s32 (appLoc - appBase e) in
      if (0 <=? elemIndex) && (elemIndex <? isize e) then
        r ← f i e elemIndex;
        match r with Some a => Ok (Some a) | None => find_element p appLoc f ixs end
      else find_element p appLoc f ixs
  end.

Definition locationWARAppToHost (p : ProgramData) (appLoc : Z) : result Z :=
  if negb (m_locShiftWAR p) then Ok appLoc
  else
    r ← find_element p appLoc (fun _ e k => Ok (Some (s32 (base e + k * hostLocsPerElement e)))) (seqZ 0 (m_numIndexes p));
    Ok (default (-1) r).

(** The target that a sampler is of. *)
Definition sampler_target (e : IndexInfo) : Z :=
  if negb (Z.land (flags e) INDEX_FLAG_SAMPLER_EXTERNAL =? 0) then GL_TEXTURE_EXTERNAL_OES else GL_TEXTURE_2D.

(** The index, or -1, with the value and the target of the sampler. *)
Fixpoint next_sampler (p : ProgramData) (ixs : list Z) : result (Z * Z * Z) :=
  match ixs with
  | [] => Ok (-1, 0, 0)
  | i :: ixs =>
      e ← the_index p i;
      if itype e =? GL_SAMPLER_2D then Ok (i, samplerValue e, sampler_target e) else next_sampler p ixs
  end.

Definition getNextSamplerUniform (p : ProgramData) (index : Z) : result (Z * Z * Z) :=
  if index + 1 <? 0 then Ok (-1, 0, 0) else next_sampler p (seqZ (index + 1) (s32 (m_numIndexes p) - (index + 1))).

(** The target, when a sampler was set; the type is compared with that of a texture. *)
Definition setSamplerUniform (p : ProgramData) (appLoc val : Z) : result (option Z * ProgramData) :=
  r ← find_element p appLoc (fun i e _ => Ok (if itype e =? GL_TEXTURE_2D then Some (i, e) else None)) (seqZ 0 (m_numIndexes p));
  match r with
  | None => Ok (None, p)
  | Some (i, e) =>
      p ← put_index p i (mkIndex (base e) (isize e) (itype e) (appBase e) (hostLocsPerElement e) (flags e) val);
      Ok (Some (sampler_target e), p)
  end.

Definition set_shaders (p : ProgramData) (l : list Z) : ProgramData :=
  mkProgram (m_numIndexes p) (m_Indexes p) (m_initialized p) (m_locShiftWAR p) l.

Definition program_attachShader (p : ProgramData) (shader : Z) : bool * ProgramData :=
  if bool_decide (shader ∈ p_shaders p) then (false, p) else (true, set_shaders p (p_shaders p ++ [shader])).

(** The first of them is removed. *)
Fixpoint remove_first (shader : Z) (l : list Z) : option (list Z) :=
  match l with
  | [] => None
  | x :: l => if x =? shader then Some l else option_map (cons x) (remove_first shader l)
  end.

Definition program_detachShader (p : ProgramData) (shader : Z) : bool * ProgramData :=
  match remove_first shader (p_shaders p) with Some l => (true, set_shaders p l) | None => (false, p) end.

(** ** The group *)

Record BufferData := mkBufferData { m_size : Z; m_fixedBuffer : FixedBuffer }.

Record ShaderData := mkShader { samplerExternalNames : list (list Z); refcount : Z }.

(** The keyed vectors of pointers, and the objects at their addresses; 0 is NULL. *)
Record Group := mkGroup {
  m_buffers : list (Z * Z); m_programs : list (Z * Z); m_shaders : list (Z * Z);
  buffers : gmap Z BufferData; programs : gmap Z ProgramData; shaders : gmap Z ShaderData; next : Z
}.

Definition new_GLSharedGroup : Group := mkGroup [] [] [] ∅ ∅ ∅ 1.

Definition pointer_for (m : list (Z * Z)) (name : Z) : result Z := valueFor_default 0 m name.

(** [new BufferData(size, data)]; no data are NULL. *)
Definition new_BufferData (size_ : Z) (data_ : option (list Z)) : result BufferData :=
  let buffer := if 0 <? size_ then fixed_alloc new_FixedBuffer size_ else new_FixedBuffer in
  match data_ with
  | None => Ok (mkBufferData size_ buffer)
  | Some d => x ← read_block d 0 size_; b ← memcpy_at buffer 0 (map Some x); Ok (mkBufferData size_ b)
  end.

Definition getBufferData (g : Group) (bufferId : Z) : result Z := pointer_for (m_buffers g) bufferId.

(** A new buffer in the place that [f] gives it in the vector. *)
Definition put_buffer (g : Group) (f : list (Z * Z) -> Z -> result (Z * list (Z * Z))) (size_ : Z) (data_ : option (list Z)) : result Group :=
  b ← new_BufferData size_ data_;
  '(_, m) ← f (m_buffers g) (next g);
  Ok (mkGroup m (m_programs g) (m_shaders g) (<[next g := b]> (buffers g)) (programs g) (shaders g) (next g + 1)).

Definition addBufferData (g : Group) (bufferId size_ : Z) (data_ : option (list Z)) : result Group :=
  put_buffer g (fun m p => kv_add m bufferId p) size_ data_.

Definition updateBufferData (g : Group) (bufferId size_ : Z) (data_ : option (list Z)) : result Group :=
  put_buffer g (fun m p => replaceValueFor m bufferId p) size_ data_.

Definition subUpdateBufferData (g : Group) (bufferId offset size_ : Z) (data_ : list Z) : result (Z * Group) :=
  p ← pointer_for (m_buffers g) bufferId;
  if p =? 0 then Ok (GL_INVALID_VALUE, g)
  else
    b ← from_option_or UseAfterFree (buffers g !! p);
    if (m_size b <? s32 (offset + size_)) || (offset <? 0) || (size_ <? 0) then Ok (GL_INVALID_VALUE, g)
    else
      x ← read_block data_ 0 size_;
      c ← write_block (m_fixedBuffer b) offset (map Some x);
      Ok (GL_NO_ERROR, mkGroup (m_buffers g) (m_programs g) (m_shaders g) (<[p := mkBufferData (m_size b) c]> (buffers g)) (programs g) (shaders g) (next g)).

Definition deleteBufferData (g : Group) (bufferId : Z) : result Group :=
  '(_, m) ← removeItem (m_buffers g) bufferId;
  Ok (mkGroup m (m_programs g) (m_shaders g) (buffers g) (programs g) (shaders g) (next g)).

Definition set_programs (g : Group) (m : list (Z * Z)) (h : gmap Z ProgramData) : Group :=
  mkGroup (m_buffers g) m (m_shaders g) (buffers g) h (shaders g) (next g).

Definition set_group_shaders (g : Group) (m : list (Z * Z)) (h : gmap Z ShaderData) : Group :=
  mkGroup (m_buffers g) (m_programs g) m (buffers g) (programs g) h (next g).

(** The program of a name: its address and data, or none. *)
Definition program_of (g : Group) (program : Z) : result (option (Z * ProgramData)) :=
  p ← pointer_for (m_programs g) program;
  if p =? 0 then Ok None else d ← from_option_or UseAfterFree (programs g !! p); Ok (Some (p, d)).

Definition addProgramData (g : Group) (program : Z) : result Group :=
  d ← program_of g program;
  g ← match d with
      | None => Ok g
      | Some (p, _) => '(_, m) ← removeItem (m_programs g) program; Ok (set_programs g m (delete p (programs g)))
      end;
  '(_, m) ← kv_add (m_programs g) program (next g);
  Ok (mkGroup (m_buffers g) m (m_shaders g) (buffers g) (<[next g := new_ProgramData]> (programs g)) (shaders g) (next g + 1)).

(** A change of the program, when there is one. *)
Definition edit_program (g : Group) (program : Z) (f : ProgramData -> result ProgramData) : result Group :=
  d ← program_of g program;
  match d with None => Ok g | Some (p, d) => d ← f d; Ok (set_programs g (m_programs g) (<[p := d]> (programs g))) end.

Definition group_initProgramData (g : Group) (program numIndexes : Z) : result Group :=
  edit_program g program (fun d => Ok (initProgramData d numIndexes)).

Definition isProgramInitialized (g : Group) (program : Z) : result bool :=
  d ← program_of g program; Ok (match d with None => false | Some (_, d) => isInitialized d end).

Definition deleteProgramData (g : Group) (program : Z) : result Group :=
  d ← program_of g program;
  let h := match d with None => programs g | Some (p, _) => delete p (programs g) end in
  '(_, m) ← removeItem (m_programs g) program;
  Ok (set_programs g m h).

Definition refShaderDataLocked (g : Group) (shaderIdx : Z) : result Group :=
  p ← valueAt (m_shaders g) shaderIdx;
  d ← from_option_or UseAfterFree (shaders g !! p);
  Ok (set_group_shaders g (m_shaders g) (<[p := mkShader (samplerExternalNames d) (s32 (refcount d + 1))]> (shaders g))).

Definition unrefShaderDataLocked (g : Group) (shaderIdx : Z) : result Group :=
  p ← valueAt (m_shaders g) shaderIdx;
  d ← from_option_or UseAfterFree (shaders g !! p);
  let n := s32 (refcount d - 1) in
  if n =? 0 then Ok (set_group_shaders g (snd (kv_removeItemsAt (m_shaders g) shaderIdx 1)) (delete p (shaders g)))
  else Ok (set_group_shaders g (m_shaders g) (<[p := mkShader (samplerExternalNames d) n]> (shaders g))).

Definition group_attachShader (g : Group) (program shader : Z) : result Group :=
  d ← program_of g program;
  idx ← indexOfKey (m_shaders g) shader;
  match d with
  | Some (p, d) =>
      if 0 <=? idx then
        let '(ok, d) := program_attachShader d shader in
        let g := set_programs g (m_programs g) (<[p := d]> (programs g)) in
        if ok then refShaderDataLocked g idx else Ok g
      else Ok g
  | None => Ok g
  end.

Definition group_detachShader (g : Group) (program shader : Z) : result Group :=
  d ← program_of g program;
  idx ← indexOfKey (m_shaders g) shader;
  match d with
  | Some (p, d) =>
      if 0 <=? idx then
        let '(ok, d) := program_detachShader d shader in
        let g := set_programs g (m_programs g) (<[p := d]> (programs g)) in
        if ok then unrefShaderDataLocked g idx else Ok g
      else Ok g
  | None => Ok g
  end.

(** Whether a shader of the program has the name as one of an external sampler. *)
Definition external_name (g : Group) (name : list Z) (shader : Z) : result bool :=
  p ← pointer_for (m_shaders g) shader;
  if p =? 0 then Ok false
  else d ← from_option_or UseAfterFree (shaders g !! p); Ok (existsb (fun n => bool_decide (n = name)) (samplerExternalNames d)).

Definition setProgramIndexInfo (g : Group) (program index base_ size_ type_ : Z) (name : list Z) : result Group :=
  edit_program g program (fun d =>
    d ← setIndexInfo d index base_ size_ type_;
    if type_ =? GL_SAMPLER_2D then
      foldM (fun d shader =>
        ext ← external_name g name shader;
        if (ext : bool) then setIndexFlags d index INDEX_FLAG_SAMPLER_EXTERNAL else Ok d) d (p_shaders d)
    else Ok d).

Definition getProgramUniformType (g : Group) (program location : Z) : result Z :=
  d ← program_of g program; match d with None => Ok 0 | Some (_, d) => getTypeForLocation d location end.

Definition isProgram (g : Group) (program : Z) : result bool :=
  d ← program_of g program; Ok (match d with None => false | Some _ => true end).

Definition group_setupLocationShiftWAR (g : Group) (program : Z) : result Group := edit_program g program setupLocationShiftWAR.

Definition group_locationWARHostToApp (g : Group) (program hostLoc arrIndex : Z) : result (Z * Group) :=
  d ← program_of g program;
  match d with
  | None => Ok (hostLoc, g)
  | Some (p, d) => '(l, d) ← locationWARHostToApp d hostLoc arrIndex; Ok (l, set_programs g (m_programs g) (<[p := d]> (programs g)))
  end.

Definition group_locationWARAppToHost (g : Group) (program appLoc : Z) : result Z :=
  d ← program_of g program; match d with None => Ok appLoc | Some (_, d) => locationWARAppToHost d appLoc end.

Definition needUniformLocationWAR (g : Group) (program : Z) : result bool :=
  d ← program_of g program; Ok (match d with None => false | Some (_, d) => m_locShiftWAR d end).

Definition group_getNextSamplerUniform (g : Group) (program index : Z) : result (Z * Z * Z) :=
  d ← program_of g program; match d with None => Ok (-1, 0, 0) | Some (_, d) => getNextSamplerUniform d index end.

Definition group_setSamplerUniform (g : Group) (program appLoc val : Z) : result (option Z * Group) :=
  d ← program_of g program;
  match d with
  | None => Ok (None, g)
  | Some (p, d) => '(t, d) ← setSamplerUniform d appLoc val; Ok (t, set_programs g (m_programs g) (<[p := d]> (programs g)))
  end.

(** An index below 0 deletes the new data, and then writes to NULL. *)
Definition addShaderData (g : Group) (shader : Z) : result (bool * Group) :=
  '(i, m) ← kv_add (m_shaders g) shader (next g);
  if i <? 0 then Err NullDeref
  else Ok (true, mkGroup (m_buffers g) (m_programs g) m (buffers g) (programs g) (<[next g := mkShader [] 1]> (shaders g)) (next g + 1)).

Definition getShaderData (g : Group) (shader : Z) : result Z := pointer_for (m_shaders g) shader.

Definition unrefShaderData (g : Group) (shader : Z) : result Group :=
  idx ← indexOfKey (m_shaders g) shader; if 0 <=? idx then unrefShaderDataLocked g idx else Ok g.

(** ** Locations of uniforms *)

(** A uniform: where the host has it, how many elements it has, its type. *)
Definition uniform : Type := Z * Z * Z.
Definition u_base (u : uniform) : Z := fst (fst u).
Definition u_size (u : uniform) : Z := snd (fst u).

(** What linking a program does with its uniforms. *)
Definition link_program (us : list uniform) : result ProgramData :=
  p ← foldM (fun p '(i, (b, s, t)) => setIndexInfo p (Z.of_nat i) b s t)
        (initProgramData new_ProgramData (Z.of_nat (length us))) (zip (seq 0 (length us)) us);
  setupLocationShiftWAR p.

(** The number of elements before a uniform. *)
Definition offset (us : list uniform) (i : nat) : Z := foldr Z.add 0 (map u_size (take i us)).

Lemma offset_next us i u : us !! i = Some u -> offset us (S i) = offset us i + u_size u.
Proof.
  intros E. unfold offset. rewrite (take_S_r _ _ _ E), map_app. cbn [map]. generalize (map u_size (take i us)) as l.
  induction l as [|x l IH]; cbn; lia.
Qed.

Lemma offset_le us : Forall (fun u => 0 < u_size u) us -> forall i j, (i <= j)%nat -> (j <= length us)%nat -> 0 <= offset us i <= offset us j.
Proof.
  intros Hs. assert (H0 : forall i, 0 <= offset us i).
  { intros i. unfold offset. assert (Hf : Forall (fun u => 0 < u_size u) (take i us)) by (by apply Forall_take). induction Hf as [|u l Hu Hf IH]; cbn; lia. }
  intros i j Hij Hj. split; [apply H0|]. induction Hij as [|j Hij IH]; [lia|]. destruct (lookup_lt_is_Some_2 us j) as [u Eu]; [lia|].
  rewrite (offset_next _ _ _ Eu). rewrite Forall_lookup in Hs. specialize (Hs j u Eu). specialize (IH ltac:(lia)). lia.
Qed.

(** The program for its uniforms, where [h] are the distances of elements. *)
Record Linked (us : list uniform) (p : ProgramData) (h : nat -> Z) (n : nat) : Prop := mkLinked {
  lk_num : m_numIndexes p = Z.of_nat (length us);
  lk_length : length (m_Indexes p) = length us;
  lk_entries : forall i u, (i < n)%nat -> us !! i = Some u ->
    exists e, m_Indexes p !! i = Some (Some e) /\ base e = u_base u /\ isize e = u_size u /\ itype e = snd u /\ appBase e = offset us i /\ hostLocsPerElement e = h i
}.

Lemma linked_entry us p h n i u : Linked us p h n -> (i < n)%nat -> us !! i = Some u ->
  exists e, the_index p (Z.of_nat i) = Ok e /\ base e = u_base u /\ isize e = u_size u /\ itype e = snd u /\ appBase e = offset us i /\ hostLocsPerElement e = h i.
Proof.
  intros H Hi Eu. destruct (lk_entries _ _ _ _ H i u Hi Eu) as (e & E & He). exists e. split; [|done].
  unfold the_index, get. rewrite Nat2Z.id, E. done.
Qed.

Lemma put_index_ok p (i : nat) e : (i < length (m_Indexes p))%nat ->
  put_index p (Z.of_nat i) e = Ok (mkProgram (m_numIndexes p) (<[i := Some e]> (m_Indexes p)) (m_initialized p) (m_locShiftWAR p) (p_shaders p)).
Proof. intros Hi. unfold put_index, put. rewrite Nat2Z.id. by rewrite decide_True by done. Qed.

Lemma link_entries us : Forall (fun u => 0 < u_size u) us -> offset us (length us) < 2 ^ 31 -> forall k, (k <= length us)%nat ->
  exists p, foldM (fun p '(i, (b, s, t)) => setIndexInfo p (Z.of_nat i) b s t) (initProgramData new_ProgramData (Z.of_nat (length us)))
    (zip (seq 0 k) (take k us)) = Ok p /\ Linked us p (fun _ => 1) k /\ m_locShiftWAR p = false.
Proof.
  intros Hs Ho. induction k as [|k IH]; intros Hk.
  - eexists. split; [done|]. split; [|done]. split; [done|cbn; rewrite length_replicate; lia|]. intros i u Hi. lia.
  - destruct (IH ltac:(lia)) as (p & E & H & Hw). destruct (lookup_lt_is_Some_2 us k) as [u Eu]; [lia|].
    rewrite (take_S_r _ _ _ Eu), seq_S, zip_with_app by (rewrite length_seq, length_take; lia). rewrite foldM_app, E. cbn [mbind result_bind zip_with foldM Nat.add].
    destruct u as [[b s] t]. unfold setIndexInfo. rewrite (lk_num _ _ _ _ H), (proj2 (Z.leb_gt _ _)) by lia.
    assert (Happ : (if 0 <? Z.of_nat k then prev ← the_index p (Z.of_nat k - 1); Ok (s32 (appBase prev + isize prev)) else Ok 0) = Ok (offset us k)).
    { destruct (Z.ltb_spec 0 (Z.of_nat k)) as [H0|H0]; [|by replace k with 0%nat by lia]. destruct k as [|k]; [lia|]. replace (Z.of_nat (S k) - 1) with (Z.of_nat k) by lia.
      destruct (lookup_lt_is_Some_2 us k) as [v Ev]; [lia|]. destruct (linked_entry _ _ _ _ k v H ltac:(lia) Ev) as (e & -> & _ & E2 & _ & E4 & _).
      cbn [mbind result_bind]. rewrite E4, E2, <-(offset_next _ _ _ Ev). f_equal. apply s32_small. pose proof (offset_le us Hs (S k) (length us) ltac:(lia) ltac:(lia)). lia. }
    rewrite Happ. cbn [mbind result_bind]. rewrite put_index_ok by (rewrite (lk_length _ _ _ _ H); lia). cbn [mbind result_bind].
    eexists. split; [done|]. split; [|done]. split; [apply H|cbn [m_Indexes]; rewrite length_insert; apply H|]. cbn [m_Indexes].
    intros i v Hi Ev. destruct (decide (i = k)) as [->|Hne].
    + rewrite list_lookup_insert_eq by (rewrite (lk_length _ _ _ _ H); lia). assert (v = (b, s, t)) as -> by congruence. eexists. split; [done|]. done.
    + rewrite list_lookup_insert_ne by done. apply (lk_entries _ _ _ _ H); [lia|done].
Qed.

(** Uniforms that need the translation: their locations are distinct multiples of 65536,
    and the elements of each, [k] apart, are below the next. *)
Record Shifted (us : list uniform) (k : nat -> Z) : Prop := mkShifted {
  sh_many : (1 < length us)%nat;
  sh_size : Forall (fun u => 0 < u_size u) us;
  sh_sum : offset us (length us) < 2 ^ 31;
  sh_base : forall i u, us !! i = Some u -> exists m, u_base u = 65536 * m /\ 0 <= m < 32768;
  sh_distinct : forall i j u v, us !! i = Some u -> us !! j = Some v -> u_base u = u_base v -> i = j;
  sh_near : forall i u, us !! i = Some u -> 0 <= k i /\ k i * (u_size u - 1) < 65536
}.

Definition host_location (us : list uniform) (k : nat -> Z) (q : nat * Z) : Z :=
  match us !! fst q with Some u => u_base u + k (fst q) * snd q | None => -1 end.

(** An element of a uniform. *)
Definition is_element (us : list uniform) (q : nat * Z) : Prop := exists u, us !! fst q = Some u /\ 0 <= snd q < u_size u.

Lemma all_shifted_ok us p h k : Linked us p h (length us) -> Shifted us k -> forall l, Forall (fun i => 0 <= i < Z.of_nat (length us)) l -> all_shifted p l = Ok true.
Proof.
  intros H Hsh l Hl. induction Hl as [|i l Hi Hl IH]; [done|]. cbn [all_shifted]. destruct (lookup_lt_is_Some_2 us (Z.to_nat i)) as [u Eu]; [lia|].
  destruct (linked_entry _ _ _ _ (Z.to_nat i) u H ltac:(lia) Eu) as (e & E & E1 & _). rewrite Z2Nat.id in E by lia. rewrite E. cbn [mbind result_bind]. rewrite E1.
  destruct (sh_base _ _ Hsh _ _ Eu) as (m & -> & Hm). change 0xffff with (Z.ones 16). rewrite Z.land_ones by lia. change (2 ^ 16) with 65536.
  rewrite Z.mul_comm, Z.mod_mul by lia. exact IH.
Qed.

Lemma link_ok us k : Shifted us k -> exists p, link_program us = Ok p /\ Linked us p (fun _ => 1) (length us) /\ m_locShiftWAR p = true.
Proof.
  intros Hsh. destruct (link_entries us (sh_size _ _ Hsh) (sh_sum _ _ Hsh) (length us) ltac:(lia)) as (p & E & H & _). rewrite firstn_all in E.
  unfold link_program. rewrite E. cbn [mbind result_bind]. unfold setupLocationShiftWAR. rewrite (lk_num _ _ _ _ H).
  rewrite (all_shifted_ok us p _ k H Hsh) by (apply Forall_forall; intros i Hi%elem_of_seqZ; lia). cbn [mbind result_bind andb].
  pose proof (sh_many _ _ Hsh). rewrite (proj2 (Z.ltb_lt _ _)) by lia. eexists. split; [done|]. split; [|done]. destruct H. by split.
Qed.

(** The nearest location below is that of the element's own uniform. *)
Lemma index_for_location_ok us p h k i u e : Linked us p h (length us) -> Shifted us k -> us !! i = Some u -> 0 <= e < u_size u ->
  getIndexForLocation p (host_location us k (i, e)) = Ok (Z.of_nat i).
Proof.
  intros H Hsh Eu He. unfold getIndexForLocation, host_location. cbn [fst snd]. rewrite Eu, (lk_num _ _ _ _ H).
  destruct (sh_base _ _ Hsh _ _ Eu) as (m & Em & Hm). destruct (sh_near _ _ Hsh _ _ Eu) as [Hk0 Hk].
  assert (Hd : 0 <= k i * e < 65536) by nia. set (d := k i * e) in *. clearbody d. pose proof (lookup_lt_Some _ _ _ Eu) as Hi.
  destruct (foldM_seqZ (nearest p (u_base u + d))
    (fun j st => if decide (Z.of_nat i < j) then st = (Z.of_nat i, d) else snd st < 0 \/ d < snd st) 0 (Z.of_nat (length us)) (Z.of_nat (length us), -1)) as ([ix dist] & E & Hst).
  - lia.
  - rewrite decide_False by lia. left. simpl. lia.
  - intros j [ix md] Hj Hst. destruct (lookup_lt_is_Some_2 us (Z.to_nat j)) as [v Ev]; [lia|].
    destruct (linked_entry _ _ _ _ (Z.to_nat j) v H ltac:(lia) Ev) as (x & Ex & E1 & _). rewrite Z2Nat.id in Ex by lia. unfold nearest. rewrite Ex. cbn [mbind result_bind].
    rewrite E1. destruct (sh_base _ _ Hsh _ _ Ev) as (m' & Em' & Hm'). rewrite s32_small by lia.
    eexists. split; [done|]. destruct (decide (j = Z.of_nat i)) as [->|Hne].
    + rewrite Nat2Z.id in Ev. assert (v = u) as -> by congruence. rewrite decide_True by lia. rewrite decide_False in Hst by lia. cbn [snd] in Hst.
      replace (u_base u + d - u_base u) with d by lia. rewrite (proj2 (Z.leb_le 0 d)) by lia. cbn [andb].
      destruct Hst as [Hst|Hst]; [by rewrite (proj2 (Z.ltb_lt md 0)) by done|]. rewrite (proj2 (Z.ltb_lt d md)) by done. by rewrite orb_true_r.
    + assert (Hmm : m' <> m). { intros ->. apply Hne. rewrite <-(sh_distinct _ _ Hsh (Z.to_nat j) i v u Ev Eu); lia. }
      destruct (decide (Z.of_nat i < j)) as [Hlt|Hge].
      * rewrite decide_True by lia. injection Hst as -> ->. rewrite (proj2 (Z.ltb_ge d 0)) by lia. cbn [orb].
        destruct (Z.leb_spec 0 (u_base u + d - u_base v)); cbn [andb]; [|done]. by rewrite (proj2 (Z.ltb_ge _ _)) by lia.
      * rewrite decide_False by lia. cbn [snd] in Hst. destruct (Z.leb_spec 0 (u_base u + d - u_base v)); cbn [andb snd]; [|done].
        destruct ((md <? 0) || _); cbn [snd]; [right; lia|done].
  - rewrite E. cbn [mbind result_bind]. rewrite decide_True in Hst by lia. by injection Hst as -> ->.
Qed.

(** The elements of uniforms have consecutive places. *)
Lemma place_unique us k i j u v e : Shifted us k -> us !! i = Some u -> us !! j = Some v -> 0 <= e < u_size u ->
  0 <= offset us i + e - offset us j < u_size v -> i = j.
Proof.
  intros Hsh Eu Ev He Hj. pose proof (lookup_lt_Some _ _ _ Eu). pose proof (lookup_lt_Some _ _ _ Ev). pose proof (sh_size _ _ Hsh) as Hs.
  destruct (Nat.lt_trichotomy i j) as [Hlt|[->|Hlt]]; [|done|].
  - pose proof (offset_le us Hs (S i) j ltac:(lia) ltac:(lia)) as Ho. rewrite (offset_next _ _ _ Eu) in Ho. lia.
  - pose proof (offset_le us Hs (S j) i ltac:(lia) ltac:(lia)) as Ho. rewrite (offset_next _ _ _ Ev) in Ho. lia.
Qed.

Lemma find_element_ok {A} us p h k i u e (f : Z -> IndexInfo -> Z -> result (option A)) a : Linked us p h (length us) -> Shifted us k -> us !! i = Some u -> 0 <= e < u_size u ->
  (forall x, the_index p (Z.of_nat i) = Ok x -> f (Z.of_nat i) x e = Ok (Some a)) ->
  forall l, Z.of_nat i ∈ l -> Forall (fun j => 0 <= j < Z.of_nat (length us)) l -> find_element p (offset us i + e) f l = Ok (Some a).
Proof.
  intros H Hsh Eu He Hf l Hin Hl. pose proof (lookup_lt_Some _ _ _ Eu) as Hi. induction Hl as [|j l Hj Hl IH]; [by apply not_elem_of_nil in Hin|]. cbn [find_element].
  destruct (lookup_lt_is_Some_2 us (Z.to_nat j)) as [v Ev]; [lia|].
  destruct (linked_entry _ _ _ _ (Z.to_nat j) v H ltac:(lia) Ev) as (x & Ex & _ & E2 & _ & E4 & _). rewrite Z2Nat.id in Ex by lia. rewrite Ex. cbn [mbind result_bind].
  rewrite E4, E2. pose proof (sh_sum _ _ Hsh) as Hsum. pose proof (sh_size _ _ Hsh) as Hs.
  pose proof (offset_le us Hs (S i) (length us) ltac:(lia) ltac:(lia)) as Ho. rewrite (offset_next _ _ _ Eu) in Ho.
  pose proof (offset_le us Hs i (S i) ltac:(lia) ltac:(lia)). pose proof (offset_le us Hs (Z.to_nat j) (length us) ltac:(lia) ltac:(lia)).
  rewrite s32_small by lia. destruct (decide (j = Z.of_nat i)) as [->|Hne].
  - rewrite Nat2Z.id in *. assert (v = u) as -> by congruence. replace (offset us i + e - offset us i) with e by lia.
    rewrite (proj2 (Z.leb_le _ _)), (proj2 (Z.ltb_lt _ _)) by lia. cbn [andb]. rewrite (Hf x Ex). done.
  - assert (Hno : (0 <=? offset us i + e - offset us (Z.to_nat j)) && (offset us i + e - offset us (Z.to_nat j) <? u_size v) = false).
    { apply not_true_iff_false. intros Hb. apply andb_true_iff in Hb as [Hb1 Hb2]. apply Hne. rewrite (place_unique us k i (Z.to_nat j) u v e Hsh Eu Ev He); lia. }
    rewrite Hno. apply IH. apply elem_of_cons in Hin as [Hin|Hin]; [by symmetry in Hin|done].
Qed.

(** Asking for the location of an element notes the distance of elements. *)
Lemma host_to_app_ok us p h k i u e : Linked us p h (length us) -> Shifted us k -> m_locShiftWAR p = true -> us !! i = Some u -> 0 <= e < u_size u ->
  exists p', locationWARHostToApp p (host_location us k (i, e)) e = Ok (offset us i + e, p') /\ m_locShiftWAR p' = true /\
    Linked us p' (fun j => if decide (j = i /\ 0 < e) then k i else h j) (length us).
Proof.
  intros H Hsh Hw Eu He. pose proof (lookup_lt_Some _ _ _ Eu) as Hi. unfold locationWARHostToApp. rewrite Hw. cbn [negb].
  rewrite (index_for_location_ok us p h k i u e H Hsh Eu He). cbn [mbind result_bind]. rewrite (lk_num _ _ _ _ H), (proj2 (Z.ltb_lt _ _)) by lia.
  destruct (linked_entry _ _ _ _ i u H Hi Eu) as (x & Ex & E1 & E2 & E3 & E4 & E5). rewrite Ex. cbn [mbind result_bind]. rewrite E4.
  pose proof (sh_sum _ _ Hsh) as Hsum. pose proof (offset_le us (sh_size _ _ Hsh) (S i) (length us) ltac:(lia) ltac:(lia)) as Ho. rewrite (offset_next _ _ _ Eu) in Ho.
  pose proof (offset_le us (sh_size _ _ Hsh) i (S i) ltac:(lia) ltac:(lia)). rewrite s32_small by lia.
  destruct (Z.ltb_spec 0 e) as [He0|He0].
  - rewrite put_index_ok by (by rewrite (lk_length _ _ _ _ H)). cbn [mbind result_bind]. eexists. split; [done|]. split; [done|].
    split; [apply H|cbn [m_Indexes]; rewrite length_insert; apply H|]. cbn [m_Indexes]. intros j v Hj Ev. destruct (decide (j = i)) as [->|Hne].
    + rewrite list_lookup_insert_eq by (by rewrite (lk_length _ _ _ _ H)). assert (v = u) as -> by congruence. eexists. split; [done|]. cbn [base isize itype appBase hostLocsPerElement].
      rewrite decide_True by done. split_and!; try done. unfold host_location. cbn [fst snd]. rewrite Eu, E1. replace (u_base u + k i * e - u_base u) with (k i * e) by lia.
      apply Z.quot_mul. lia.
    + rewrite list_lookup_insert_ne by done. destruct (lk_entries _ _ _ _ H j v Hj Ev) as (y & Ey & F1 & F2 & F3 & F4 & F5). exists y.
      rewrite decide_False by tauto. by split_and!.
  - cbn [mbind result_bind]. exists p. split; [done|]. split; [done|]. split; [apply H|apply H|]. intros j v Hj Ev.
    destruct (lk_entries _ _ _ _ H j v Hj Ev) as (y & Ey & F1 & F2 & F3 & F4 & F5). exists y. rewrite decide_False by lia. by split_and!.
Qed.

Lemma app_to_host_ok us p h k i u e : Linked us p h (length us) -> Shifted us k -> m_locShiftWAR p = true -> us !! i = Some u -> 0 <= e < u_size u ->
  e = 0 \/ h i = k i -> locationWARAppToHost p (offset us i + e) = Ok (host_location us k (i, e)).
Proof.
  intros H Hsh Hw Eu He Hh. pose proof (lookup_lt_Some _ _ _ Eu) as Hi. unfold locationWARAppToHost. rewrite Hw. cbn [negb]. rewrite (lk_num _ _ _ _ H).
  rewrite (find_element_ok us p h k i u e _ (host_location us k (i, e)) H Hsh Eu He); [done| | |].
  - intros x Ex. destruct (linked_entry _ _ _ _ i u H Hi Eu) as (y & Ey & E1 & E2 & E3 & E4 & E5). assert (x = y) as -> by congruence.
    unfold host_location. cbn [fst snd]. rewrite Eu, E1, E5. destruct (sh_base _ _ Hsh _ _ Eu) as (m & Em & Hm). destruct (sh_near _ _ Hsh _ _ Eu) as [Hk0 Hk].
    assert (Hd : 0 <= k i * e < 65536) by nia. replace (e * h i) with (k i * e) by (destruct Hh as [->| ->]; lia). rewrite s32_small by lia. done.
  - apply elem_of_seqZ. lia.
  - apply Forall_forall. intros j Hj%elem_of_seqZ. lia.
Qed.

(** Queries for elements, each with its index in the uniform. *)
Fixpoint run_queries (us : list uniform) (k : nat -> Z) (p : ProgramData) (qs : list (nat * Z)) : result (list Z * ProgramData) :=
  match qs with
  | [] => Ok ([], p)
  | q :: qs =>
      '(l, p) ← locationWARHostToApp p (host_location us k q) (snd q);
      '(ls, p) ← run_queries us k p qs;
      Ok (l :: ls, p)
  end.

Lemma run_queries_ok us k qs : Shifted us k -> Forall (is_element us) qs -> forall p h, Linked us p h (length us) -> m_locShiftWAR p = true ->
  exists p' h', run_queries us k p qs = Ok (map (fun q => offset us (fst q) + snd q) qs, p') /\ Linked us p' h' (length us) /\ m_locShiftWAR p' = true /\
    (forall i, h i = k i -> h' i = k i) /\ (forall q, q ∈ qs -> snd q = 0 \/ h' (fst q) = k (fst q)).
Proof.
  intros Hsh Hq. induction Hq as [|[i e] qs (u & Eu & He) Hq IH]; intros p h H Hw.
  - exists p, h. do 4 (split; [done|]). intros q Hq. by apply not_elem_of_nil in Hq.
  - cbn [fst snd] in *. destruct (host_to_app_ok us p h k i u e H Hsh Hw Eu He) as (p1 & E1 & W1 & H1). destruct (IH p1 _ H1 W1) as (p2 & h2 & E2 & H2 & W2 & K2 & Q2).
    exists p2, h2. cbn [run_queries snd map fst]. rewrite E1. cbn [mbind result_bind]. rewrite E2. do 3 (split; [done|]). split.
    + intros j Hj. apply K2. by destruct (decide (j = i /\ 0 < e)) as [[-> _]|].
    + intros q [->|Hq']%elem_of_cons; [|by apply Q2]. cbn [fst snd]. destruct (decide (e = 0)) as [->|Hne]; [by left|right]. apply K2. by rewrite decide_True by lia.
Qed.

(** C28 Locations of uniforms lead back: in a program whose uniforms the host has at
    multiples of 65536, each element that the program asks for, whatever else it asks
    for before and after, gets a location below the number of all elements, another
    than all others, and that location is translated to the host's when it is used;
    also where the host has the elements of an array more than one apart. *)
Theorem locations_translated us k qs :
  Shifted us k -> Forall (is_element us) qs ->
  exists p apps p', link_program us = Ok p /\ run_queries us k p qs = Ok (apps, p') /\ length apps = length qs /\
    (forall j q app, qs !! j = Some q -> apps !! j = Some app ->
       0 <= app < offset us (length us) /\ locationWARAppToHost p' app = Ok (host_location us k q)) /\
    (forall j j' q q' app, qs !! j = Some q -> qs !! j' = Some q' -> apps !! j = Some app -> apps !! j' = Some app -> q = q').
Proof.
  intros Hsh Hq. destruct (link_ok us k Hsh) as (p & E & H & Hw). destruct (run_queries_ok us k qs Hsh Hq p _ H Hw) as (p' & h' & E' & H' & Hw' & _ & Hq').
  exists p, (map (fun q => offset us (fst q) + snd q) qs), p'. split; [done|]. split; [done|]. split; [by rewrite length_map|].
  assert (Hat : forall j q app, qs !! j = Some q -> map (fun q => offset us (fst q) + snd q) qs !! j = Some app -> app = offset us (fst q) + snd q /\ is_element us q).
  { intros j q app Ej Ea. rewrite list_lookup_fmap, Ej in Ea. injection Ea as <-. split; [done|]. rewrite Forall_lookup in Hq. by apply (Hq j). }
  split.
  - intros j [i e] app Ej Ea. destruct (Hat j _ app Ej Ea) as (-> & u & Eu & He). cbn [fst snd] in *. pose proof (lookup_lt_Some _ _ _ Eu) as Hi.
    pose proof (offset_le us (sh_size _ _ Hsh) (S i) (length us) ltac:(lia) ltac:(lia)) as Ho. rewrite (offset_next _ _ _ Eu) in Ho.
    pose proof (offset_le us (sh_size _ _ Hsh) i (S i) ltac:(lia) ltac:(lia)). split; [lia|].
    apply (app_to_host_ok us p' h' k i u e H' Hsh Hw' Eu He). apply (Hq' (i, e)). by apply list_elem_of_lookup_2 in Ej.
  - intros j j' [i e] [i' e'] app Ej Ej' Ea Ea'. destruct (Hat j _ app Ej Ea) as (-> & u & Eu & He). destruct (Hat j' _ _ Ej' Ea') as (Eq & v & Ev & He'). cbn [fst snd] in *.
    assert (i = i') as <- by (apply (place_unique us k i i' u v e Hsh Eu Ev He); lia). f_equal. lia.
Qed.

Lemma locations_translated_witness :
  let us := [(0, 2, 0x8B5A); (65536, 1, 0x8B5E); (131072, 3, 0x8B52)] in
  let k i := match i with O => 4 | _ => 1 end in
  let qs := [(2%nat, 2); (0%nat, 1); (1%nat, 0); (0%nat, 0)] in
  exists p apps p', link_program us = Ok p /\ run_queries us k p qs = Ok (apps, p') /\ length apps = length qs /\
    (forall j q app, qs !! j = Some q -> apps !! j = Some app ->
       0 <= app < offset us (length us) /\ locationWARAppToHost p' app = Ok (host_location us k q)) /\
    (forall j j' q q' app, qs !! j = Some q -> qs !! j' = Some q' -> apps !! j = Some app -> apps !! j' = Some app -> q = q').
Proof.
  intros us k qs. apply (locations_translated us k qs).
  - split.
    + cbn. lia.
    + repeat constructor.
    + reflexivity.
    + intros [|[|[|i]]] u E; [exists 0|exists 1|exists 2|discriminate]; injection E as <-; cbn; lia.
    + intros [|[|[|i]]] [|[|[|j]]] u v Eu Ev; try discriminate; injection Eu as <-; injection Ev as <-; done || discriminate.
    + intros [|[|[|i]]] u E; [| | |discriminate]; injection E as <-; cbn; lia.
  - repeat constructor; eexists; (split; [reflexivity|cbn; lia]).
Defined.

(** ** The copies of buffers *)

Inductive buffer_op :=
  | BAdd (id size : Z) (data : option (list Z)) | BUpdate (id size : Z) (data : option (list Z))
  | BSub (id offset size : Z) (data : list Z) | BDelete (id : Z) | BGet (id : Z).

Inductive buffer_answer := ADone | AStatus (e : Z) | ACopy (c : option (list (option Z))).

Definition run_buffer_op (g : Group) (o : buffer_op) : result (buffer_answer * Group) :=
  match o with
  | BAdd id s d => g ← addBufferData g id s d; Ok (ADone, g)
  | BUpdate id s d => g ← updateBufferData g id s d; Ok (ADone, g)
  | BSub id off s d => '(e, g) ← subUpdateBufferData g id off s d; Ok (AStatus e, g)
  | BDelete id => g ← deleteBufferData g id; Ok (ADone, g)
  | BGet id =>
      p ← getBufferData g id;
      if p =? 0 then Ok (ACopy None, g) else b ← from_option_or UseAfterFree (buffers g !! p); Ok (ACopy (Some (m_fixedBuffer b)), g)
  end.

Fixpoint run_buffer_ops (g : Group) (os : list buffer_op) : result (list buffer_answer * Group) :=
  match os with
  | [] => Ok ([], g)
  | o :: os => '(a, g) ← run_buffer_op g o; '(r, g) ← run_buffer_ops g os; Ok (a :: r, g)
  end.

(** What the copies are: bytes for names, each byte known or not. *)
Definition fresh_copy (size : Z) (data : option (list Z)) : list (option Z) :=
  match data with Some d => map Some (take (Z.to_nat size) d) | None => replicate (Z.to_nat size) None end.

Definition patched (c : FixedBuffer) (offset size : Z) (data : list Z) : list (option Z) :=
  take (Z.to_nat offset) c ++ map Some (take (Z.to_nat size) data) ++ drop (Z.to_nat (offset + size)) c.

Definition spec_buffer_op (m : gmap Z (list (option Z))) (o : buffer_op) : buffer_answer * gmap Z (list (option Z)) :=
  match o with
  | BAdd id s d | BUpdate id s d => (ADone, <[id := fresh_copy s d]> m)
  | BSub id off s d =>
      match m !! id with
      | Some c => if bool_decide (0 <= off /\ 0 <= s /\ off + s <= Z.of_nat (length c)) then (AStatus GL_NO_ERROR, <[id := patched c off s d]> m)
                  else (AStatus GL_INVALID_VALUE, m)
      | None => (AStatus GL_INVALID_VALUE, m)
      end
  | BDelete id => (ADone, delete id m)
  | BGet id => (ACopy (m !! id), m)
  end.

Fixpoint spec_buffer_ops (m : gmap Z (list (option Z))) (os : list buffer_op) : list buffer_answer :=
  match os with [] => [] | o :: os => let '(a, m) := spec_buffer_op m o in a :: spec_buffer_ops m os end.

(** The caller has as many bytes as it says, and the end of a part is an [int]. *)
Definition proper_buffer_op (o : buffer_op) : Prop :=
  match o with
  | BAdd _ s d | BUpdate _ s d => 0 <= s /\ match d with Some d => s <= Z.of_nat (length d) | None => True end
  | BSub _ off s d => s <= Z.of_nat (length d) /\ - 2 ^ 31 <= off + s < 2 ^ 31
  | _ => True
  end.

(** The keyed vector leads each name to an object of its own that has the copy. *)
Record Copies (g : Group) (m : gmap Z (list (option Z))) : Prop := mkCopies {
  cp_keyed : keyed (m_buffers g);
  cp_next : 0 < next g;
  cp_known : forall id, match to_map (m_buffers g) !! id with
    | None => m !! id = None
    | Some p => 0 < p < next g /\ exists c, m !! id = Some c /\ buffers g !! p = Some (mkBufferData (Z.of_nat (length c)) c)
    end;
  cp_own : forall id id' p, to_map (m_buffers g) !! id = Some p -> to_map (m_buffers g) !! id' = Some p -> id = id'
}.

Lemma pointer_for_ok m id : keyed m -> pointer_for m id = Ok (default 0 (to_map m !! id)).
Proof.
  intros Hk. destruct (keyed_around m id Hk) as (b & o & c & H). unfold pointer_for.
  by rewrite (value_for_ok 0 _ _ _ _ _ Hk H), (around_lookup _ _ _ _ _ H).
Qed.

Lemma kv_add_ok id m (p : Z) : keyed m -> exists i m', kv_add m id p = Ok (i, m') /\ keyed m' /\ to_map m' = <[id := p]> (to_map m).
Proof.
  intros Hk. destruct (keyed_around m id Hk) as (b & o & c & H). unfold kv_add. rewrite (sv_add_ok _ _ _ _ _ _ Hk H).
  do 2 eexists. split; [done|]. split; [by apply (around_keyed _ _ _ _ _ (Some p) H)|]. by apply (around_alter _ _ _ _ _ (Some p) H).
Qed.

Lemma removeItem_ok (m : list (Z * Z)) id : keyed m -> exists i m', removeItem m id = Ok (i, m') /\ keyed m' /\ to_map m' = delete id (to_map m).
Proof.
  intros Hk. destruct (keyed_around m id Hk) as (b & o & c & H). unfold removeItem. rewrite (sv_remove_ok _ _ _ _ _ Hk H).
  do 2 eexists. split; [done|]. split; [by apply (around_keyed _ _ _ _ _ None H)|]. by apply (around_alter _ _ _ _ _ None H).
Qed.

Lemma replace_for_ok id m (p : Z) : keyed m -> exists i m', replaceValueFor m id p = Ok (i, m') /\ keyed m' /\ to_map m' = <[id := p]> (to_map m).
Proof.
  intros Hk. unfold replaceValueFor. destruct (removeItem_ok m id Hk) as (i & m1 & E & Hk1 & Em1). unfold removeItem in E. rewrite E. cbn [mbind result_bind].
  destruct (kv_add_ok id m1 p Hk1) as (j & m2 & E2 & Hk2 & Em2). exists j, m2. split; [done|]. split; [done|]. by rewrite Em2, Em1, insert_delete_eq.
Qed.

Lemma new_buffer_ok s d : 0 <= s -> match d with Some d => s <= Z.of_nat (length d) | None => True end ->
  new_BufferData s d = Ok (mkBufferData (Z.of_nat (length (fresh_copy s d))) (fresh_copy s d)).
Proof.
  intros Hs Hd. assert (Hb : (if 0 <? s then fixed_alloc new_FixedBuffer s else new_FixedBuffer) = replicate (Z.to_nat s) None).
  { destruct (Z.ltb_spec 0 s); [|by replace s with 0 by lia]. unfold fixed_alloc. by rewrite (proj2 (Z.leb_gt _ _)) by (simpl; lia). }
  unfold new_BufferData. rewrite Hb. destruct d as [d|]; cbn [fresh_copy].
  - unfold read_block. rewrite decide_True by lia. cbn [mbind result_bind]. unfold slice. change (Z.to_nat 0) with 0%nat. rewrite drop_0.
    unfold memcpy_at. rewrite decide_True by (rewrite length_map, length_take, length_replicate; lia). cbn [mbind result_bind take app].
    rewrite drop_ge by (rewrite length_map, length_take, length_replicate; lia). rewrite app_nil_r, length_map, length_take. do 2 f_equal. lia.
  - rewrite length_replicate. do 2 f_equal. lia.
Qed.

Lemma copies_put g m f s d id : Copies g m -> 0 <= s -> match d with Some d => s <= Z.of_nat (length d) | None => True end ->
  (forall l p, keyed l -> exists i l', f l p = Ok (i, l') /\ keyed l' /\ to_map l' = <[id := p]> (to_map l)) ->
  exists g', put_buffer g f s d = Ok g' /\ Copies g' (<[id := fresh_copy s d]> m).
Proof.
  intros [Hk Hn Hkn Hown] Hs Hd Hf. unfold put_buffer. rewrite (new_buffer_ok s d Hs Hd). cbn [mbind result_bind].
  destruct (Hf (m_buffers g) (next g) Hk) as (i & m' & -> & Hk' & Em). cbn [mbind result_bind]. eexists. split; [done|].
  assert (Hnew : forall j, to_map (m_buffers g) !! j <> Some (next g)). { intros j Ej. specialize (Hkn j). rewrite Ej in Hkn. lia. }
  split; cbn [m_buffers next buffers]; [done|lia| |]; rewrite Em.
  - intros j. destruct (decide (j = id)) as [->|Hne].
    + rewrite !lookup_insert_eq. split; [lia|]. by eexists.
    + rewrite !lookup_insert_ne by done. specialize (Hkn j). destruct (_ !! j) as [p|] eqn:Ej; [|done]. destruct Hkn as (Hp & c & Hc & Hb). split; [lia|].
      exists c. split; [done|]. by rewrite lookup_insert_ne by lia.
  - intros j j' p Ej Ej'. apply lookup_insert_Some in Ej as [[<- <-]|[Hj Ej]]; apply lookup_insert_Some in Ej' as [[<- E]|[Hj' Ej']]; try done.
    + by destruct (Hnew j').
    + subst p. by destruct (Hnew j).
    + by apply (Hown j j' p).
Qed.

Lemma copies_sub g m id off s d : Copies g m -> s <= Z.of_nat (length d) -> - 2 ^ 31 <= off + s < 2 ^ 31 ->
  exists g', subUpdateBufferData g id off s d = Ok (match fst (spec_buffer_op m (BSub id off s d)) with AStatus e => e | _ => 0 end, g') /\
    Copies g' (snd (spec_buffer_op m (BSub id off s d))).
Proof.
  intros Hc Hd Ho. pose proof Hc as [Hk Hn Hkn Hown]. unfold subUpdateBufferData. rewrite (pointer_for_ok _ _ Hk). cbn [mbind result_bind spec_buffer_op].
  pose proof (Hkn id) as Hid. destruct (to_map (m_buffers g) !! id) as [p|] eqn:Ep.
  2: { simpl in Hid. rewrite Hid. by exists g. }
  destruct Hid as (Hp & c & Ec & Eb). rewrite Ec. change (default 0 (Some p)) with p. rewrite (proj2 (Z.eqb_neq _ _)), Eb by lia. cbn [from_option_or mbind result_bind m_size].
  rewrite s32_small by lia. case_bool_decide as Hb.
  2: { replace (_ || _ || _) with true; [by exists g|]. symmetry. rewrite !orb_true_iff, !Z.ltb_lt. lia. }
  destruct Hb as (H1 & H2 & H3). rewrite (proj2 (Z.ltb_ge _ _)), (proj2 (Z.ltb_ge off _)), (proj2 (Z.ltb_ge s _)) by lia. cbn [orb].
  unfold read_block. rewrite decide_True by lia. cbn [mbind result_bind m_fixedBuffer]. unfold slice. change (Z.to_nat 0) with 0%nat. rewrite drop_0.
  rewrite write_block_ok by (rewrite ?length_map, ?length_take; lia). cbn [mbind result_bind fst snd]. eexists. split; [done|].
  replace (Z.to_nat off + length (map Some (take (Z.to_nat s) d)))%nat with (Z.to_nat (off + s)) by (rewrite length_map, length_take; lia).
  fold (patched c off s d). assert (Hl : length (patched c off s d) = length c).
  { unfold patched. rewrite !length_app, length_map, !length_take, length_drop. lia. }
  split; cbn [m_buffers next buffers]; [done|done| |done]. intros j. specialize (Hkn j). destruct (decide (j = id)) as [->|Hne].
  - rewrite Ep, lookup_insert_eq. split; [done|]. exists (patched c off s d). split; [done|]. by rewrite lookup_insert_eq, Hl.
  - rewrite lookup_insert_ne by done. destruct (_ !! j) as [q|] eqn:Ej; [|done]. destruct Hkn as (Hq & x & Ex & Ebx). split; [done|]. exists x. split; [done|].
    rewrite lookup_insert_ne; [done|]. intros <-. by apply Hne, (Hown j id p).
Qed.

Lemma buffer_op_ok g m o : Copies g m -> proper_buffer_op o ->
  exists g', run_buffer_op g o = Ok (fst (spec_buffer_op m o), g') /\ Copies g' (snd (spec_buffer_op m o)).
Proof.
  intros Hc Hp. destruct o as [id s d|id s d|id off s d|id|id]; cbn [run_buffer_op proper_buffer_op] in *.
  - destruct Hp as [Hs Hd]. destruct (copies_put g m _ s d id Hc Hs Hd (kv_add_ok id)) as (g' & E & Hc').
    unfold addBufferData. rewrite E. by exists g'.
  - destruct Hp as [Hs Hd]. destruct (copies_put g m _ s d id Hc Hs Hd (replace_for_ok id)) as (g' & E & Hc').
    unfold updateBufferData. rewrite E. by exists g'.
  - destruct Hp as [Hs Ho]. destruct (copies_sub g m id off s d Hc Hs Ho) as (g' & E & Hc'). rewrite E. exists g'. split; [|done].
    cbn [spec_buffer_op mbind result_bind]. by repeat case_match.
  - destruct Hc as [Hk Hn Hkn Hown]. unfold deleteBufferData. destruct (removeItem_ok (m_buffers g) id Hk) as (i & m' & -> & Hk' & Em). eexists. split; [done|].
    cbn [spec_buffer_op snd]. split; cbn [m_buffers next buffers]; [done|done| |]; rewrite Em.
    + intros j. destruct (decide (j = id)) as [->|Hne]; [by rewrite !lookup_delete_eq|]. rewrite !lookup_delete_ne by done. apply Hkn.
    + intros j j' p [_ Ej]%lookup_delete_Some [_ Ej']%lookup_delete_Some. by apply (Hown j j' p).
  - pose proof Hc as [Hk Hn Hkn Hown]. unfold getBufferData. rewrite (pointer_for_ok _ _ Hk). cbn [mbind result_bind spec_buffer_op fst snd].
    specialize (Hkn id). exists g. split; [|done]. destruct (_ !! id) as [p|]; [|by rewrite Hkn]. destruct Hkn as (Hp' & c & Ec & Eb). change (default 0 (Some p)) with p.
    rewrite (proj2 (Z.eqb_neq _ _)), Eb, Ec by lia. done.
Qed.

Lemma buffer_ops_ok os : forall g m, Copies g m -> Forall proper_buffer_op os -> exists g', run_buffer_ops g os = Ok (spec_buffer_ops m os, g').
Proof.
  induction os as [|o os IH]; intros g m Hc Hp; [by exists g|]. apply Forall_cons in Hp as [Ho Hp]. destruct (buffer_op_ok g m o Hc Ho) as (g1 & E & Hc1).
  destruct (IH _ _ Hc1 Hp) as (g2 & E2). exists g2. cbn [run_buffer_ops spec_buffer_ops]. rewrite E. cbn [mbind result_bind]. rewrite E2. by destruct (spec_buffer_op m o).
Qed.

(** The copies of buffers are what was written: the answers to any operations are those
    of a map from names to bytes, without a fault; a copy replaced or deleted is another
    object than the new one. *)
Theorem buffer_copies_exact os :
  Forall proper_buffer_op os -> exists g, run_buffer_ops new_GLSharedGroup os = Ok (spec_buffer_ops ∅ os, g).
Proof. apply buffer_ops_ok. split; [constructor|done| |]; done. Qed.

Lemma buffer_copies_exact_witness :
  exists g, run_buffer_ops new_GLSharedGroup [BAdd 7 4 (Some [1; 2; 3; 4]); BSub 7 1 2 [8; 9]; BGet 7; BSub 7 3 2 [0; 0]; BUpdate 7 2 None; BGet 7; BDelete 7; BGet 7] =
    Ok (spec_buffer_ops ∅ [BAdd 7 4 (Some [1; 2; 3; 4]); BSub 7 1 2 [8; 9]; BGet 7; BSub 7 3 2 [0; 0]; BUpdate 7 2 None; BGet 7; BDelete 7; BGet 7], g).
Proof. apply buffer_copies_exact. repeat constructor; cbn; lia. Defined.

Example copies_session :
  spec_buffer_ops ∅ [BAdd 7 4 (Some [1; 2; 3; 4]); BSub 7 1 2 [8; 9]; BGet 7; BSub 7 3 2 [0; 0]; BUpdate 7 2 None; BGet 7; BDelete 7; BGet 7] =
  [ADone; AStatus GL_NO_ERROR; ACopy (Some [Some 1; Some 8; Some 9; Some 4]); AStatus GL_INVALID_VALUE; ADone; ACopy (Some [None; None]); ADone; ACopy None].
Proof. reflexivity. Qed.

(** ** What goes wrong *)

(** An end of a part above the largest [int] passes the check. *)
Example part_beyond_the_end :
  (g ← addBufferData new_GLSharedGroup 7 4 None; subUpdateBufferData g 7 (2 ^ 31 - 1) 1 [5]) = Err OutOfBounds.
Proof. reflexivity. Qed.

(** The unit of a sampler is not kept: the type of the uniform is compared with that of a texture. *)
Example sampler_not_set :
  (g ← addProgramData new_GLSharedGroup 1;
   g ← group_initProgramData g 1 1;
   g ← setProgramIndexInfo g 1 0 0 1 GL_SAMPLER_2D [];
   '(t, g) ← group_setSamplerUniform g 1 0 3;
   s ← group_getNextSamplerUniform g 1 (-1); Ok (t, s)) = Ok (None, (0, 0, GL_TEXTURE_2D)).
Proof. reflexivity. Qed.

(** Deleting a shader twice drops the reference of the program it is attached to. *)
Example shader_deleted_twice :
  (g ← addProgramData new_GLSharedGroup 1;
   '(_, g) ← addShaderData g 2;
   g ← group_attachShader g 1 2;
   g ← unrefShaderData g 2;
   p ← getShaderData g 2;
   g ← unrefShaderData g 2;
   q ← getShaderData g 2; Ok (bool_decide (p = 0), bool_decide (q = 0), p_shaders <$> programs g !! 1)) = Ok (false, true, Some [2]).
Proof. reflexivity. Qed.

(** A program deleted with a shader attached keeps the data of the shader. *)
Example shader_data_left :
  (g ← addProgramData new_GLSharedGroup 1;
   '(_, g) ← addShaderData g 2;
   g ← group_attachShader g 1 2;
   g ← deleteProgramData g 1;
   g ← unrefShaderData g 2; Ok (refcount <$> shaders g !! 2)) = Ok (Some 1).
Proof. reflexivity. Qed.
